(* ===== verification/_CoqProject ===== *)
-Q . S2P
Prelude.v
F64.v
Fixed.v
Price.v
Quantity.v
Money.v
Enums.v
Maps.v
OrderEvents.v
OrderCore.v
OrderLife.v
Orders.v
OrderReplay.v
Ladder.v
LadderInv.v
Book.v
BookSpec.v
BookTop.v
BookL1.v
BookSnapshot.v
BookFills.v
BookIds.v
MatchingCore.v
MatchingInv.v
MatchingSpec.v
Own.v
OwnSpec.v
Position.v
PositionSpec.v
PositionReplay.v
Glob.v
Router.v
RouterSpec.v
RateLimit.v
RateLimitSpec.v
Throttle.v
ThrottleSpec.v
Clock.v
ClockSpec.v
Lifecycle.v
FullMath.v
TickBitmap.v
TickMap.v
Account.v
AccountSpec.v
MarginSpec.v
CacheIndex.v
Cache.v
CacheQuery.v
CacheBuild.v
CacheInv.v
CacheSteps.v
CacheDemo.v
CacheBuildSpec.v
CacheSpec.v
TickMath.v
TickLog.v
SqrtPrice.v
SwapMath.v
Pool.v
PoolViews.v
PoolInv.v
PoolSwap.v
PoolFlags.v
PoolSpec.v
PoolSteps.v
PoolSnapshot.v
PoolHistory.v
SizeEstimator.v
MatchingEngine.v
EngineQueue.v
EngineHistory.v
EngineLiquidity.v
EngineFills.v
Trailing.v
EngineDemo.v
EventStore.v
EventVerifier.v
EventWriter.v
EventSession.v
