(* ===== verification/Prelude.v ===== *)
(** * Verification of the trading core

    The program is an algorithmic trading platform.  Its Rust workspace
    ([crates/]) is organised around a domain model ([crates/model]) on which
    the execution, risk, portfolio and backtest crates and the venue adapters
    are built.  This development models the part of the model crate that every
    other part trusts: the fixed-point value types, the order state machine
    with its event sourcing, the order book, the book of the system's own
    orders, positions, accounts, and the pools of decentralised exchanges;
    from the execution crate, the matching core that decides which resting
    orders the market fills or triggers, and what the simulated venue around it
    computes: liquidity, queue positions, fill prices and trailing stops; from
    the common crate, the cache of the execution state, the routing of messages,
    the throttler, the test clock and the component life cycle; the event store
    that records what the bus carries; and from the network crate, the rate
    limiter.

    ** Parts and files

    - [Prelude] (this file): machine integers kept at their width with the
      wrap-around, checked and saturating operations the source uses; the
      [outcome] monad (a normal return, an [Err], or a panic); record update.
    - [F64]: IEEE binary64 on [SpecFloat], with the casts, rounding and fused
      operations the value types use.
    - [Fixed], [Price], [Quantity], [Money]: [types/fixed.rs], [price.rs],
      [quantity.rs], [money.rs], [balance.rs].  The class [Mode] selects the
      build: standard (64 bit raw values, 9 digits), high precision (128 bit,
      16 digits) and high precision with the defi feature.  Theorems hold for
      every mode unless they name one.  [rust_decimal] is a parameter
      ([DecimalApi]) with documented laws ([DecimalLaws]).
    - [Enums], [OrderEvents]: [enums.rs] and [events/order/*.rs].
    - [OrderCore]: [orders/mod.rs], one definition per method: the transition
      table [transition], [OrderCore::new], [apply] and the handlers.
      [core_apply] returns the order together with the result, so that what a
      failed call leaves behind is visible.
    - [Orders]: the nine order types and [OrderAny], each with its constructor
      checks, [update] and [apply].
    - [OrderLife]: the reachable states of the core as a step relation, the
      invariants by rule induction, and the theorems about quantities, trades,
      terminal states, restoration after a rejected request, and errors.
    - [OrderReplay]: the interface [OrderLike] that the order types offer to
      their clients, its nine instances, and the theorems proved against it:
      every order refines the core, and an order is rebuilt from its log.
    - [Maps]: [BTreeMap] as a list sorted by key and [IndexMap] as a list in
      insertion order; keys compared by a part of them (currencies by code) are
      a [KeyMap].  A [HashMap] whose order is never observed is a [gmap].
    - [Ladder]: [orderbook/level.rs] and [ladder.rs]; [LadderInv]: the
      representation invariant and the operations as finite-map operations.
    - [Book]: [orderbook/book.rs], [aggregation.rs], [analysis.rs], [error.rs].
    - [BookSpec]: the abstract book (a [view]: a finite map from id to order
      per side), what a delta means on it, and the refinement theorems.
    - [BookTop]: best prices, the integrity check, crossed books.
    - [BookL1]: top-of-book books under quotes, trades, deltas and snapshots.
    - [BookSnapshot]: the snapshot round trip.
    - [BookFills]: liquidity queries against a reference walk.
    - [BookIds]: what a re-used order id does to a ladder.
    - [MatchingCore]: [execution/src/matching_core/mod.rs], its four price
      books, pending lists and id index; [MatchingInv]: the invariant that
      ties them together; [MatchingSpec]: the theorems.
    - [MatchingEngine]: [execution/src/matching_engine/engine.rs] and
      [config.rs], the liquidity taken from each level, the queue position of
      each resting order and what every data handler does to them;
      [EngineQueue]: one trade; [EngineHistory]: histories of market data, fills
      and cache changes, and the fills of one trade; [EngineLiquidity]: what is
      taken from a level; [EngineFills]: the prices and volumes of limit and
      market fills and [protection.rs]; [Trailing]: [trailing.rs], activation
      and the updates of a trailing stop; [EngineDemo]: engines on which the
      theorems are evaluated.
    - [Own]: [orderbook/own.rs]; [OwnSpec]: the own book as a finite map from
      client order id to order, and auditing it against the open orders.
    - [Position]: [position.rs], from the opening fill on; [PositionSpec]: the
      invariant over fills, adjustments and purges; [PositionReplay]: purging
      and replaying.
    - [CacheIndex], [Cache], [CacheQuery], [CacheBuild]: [common/src/cache/],
      the index, the operations that change orders, positions, accounts and own
      books, the filtered queries, and rebuilding, clearing and checking the
      index; [CacheInv], [CacheSteps]: the invariant and the histories that keep
      it; [CacheSpec]: queries, updates and purges; [CacheBuildSpec]: the
      rebuilt index; [CacheDemo]: examples and the cases in which the index goes
      stale.
    - [Glob]: [common/src/msgbus/matching.rs], topic patterns; [Router]: the
      typed router ([typed_router.rs]) and the Any-based part of the bus
      ([core.rs], [api.rs]); [RouterSpec]: both against one specification.
    - [RateLimit]: [network/src/ratelimiter/], with the compare-and-swap loop
      as a step relation over interleaved callers; [RateLimitSpec]: the rate
      bound, waiting, bursts.
    - [Throttle]: [common/src/throttler.rs] and a clock whose timer events may
      be handled late; [ThrottleSpec]: rate, order, draining.
    - [Clock]: [common/src/timer.rs] and the test clock of [common/src/clock.rs]
      with its callback registry; [ClockSpec]: what is due, and advancing.
    - [Account]: [events/account/state.rs] and [accounts/]: base, cash, betting
      and margin accounts and [AccountAny]; [AccountSpec]: cash accounts
      against finite maps of balances and locks, betting accounts against cash
      accounts, purging; [MarginSpec]: margin accounts against finite maps of
      balances and margins.
    - [Lifecycle]: [common/src/component.rs], the state machine, the trait with
      hooks and the registry with borrow tracking.
    - [FullMath]: [model/src/defi/tick_map/full_math.rs] and [bit_math.rs];
      [TickBitmap]: [tick_bitmap.rs]; [TickMap]: [mod.rs], [tick.rs] and
      [liquidity_math.rs]; [TickMath]: [tick_math.rs]; [TickLog]: its logarithm
      against the real one; [SqrtPrice]: [sqrt_price_math.rs]; [SwapMath]:
      [pool_analysis/swap_math.rs].
    - [Pool]: [pool_analysis/profiler.rs], [position.rs] and [quote.rs], a pool
      replayed from its events and the operations simulated on it; [PoolViews]:
      its queries; [PoolSnapshot]: [snapshot.rs] and [compare.rs];
      [SizeEstimator]: [size_estimator.rs]; [PoolInv], [PoolSwap], [PoolFlags],
      [PoolSpec], [PoolSteps]: the invariant and that each operation keeps it;
      [PoolHistory]: the theorems over histories, and behaviour the comments do
      not promise.
    - [EventStore]: [event_store/src/]: entries and their hash, the backend trait
      as a class with laws ([EventStoreLaws]), the in-memory backend and chunked
      scans; [EventVerifier]: the verifier; [EventWriter]: the writer whose callers
      and thread interleave as a step relation, the capture adapter, the recovery
      sweep of [system/src/event_store.rs], and what the writer commits;
      [EventSession]: whole sessions, closed or stopped, and one evaluated.

    ** How they interact

    Orders and books are built on the value types.  An order of any type owns
    an [OrderCore] and delegates events to it.  A book owns two ladders, gives
    every incoming order the id its book type prescribes, and dispatches to
    the ladder of its side; a ladder owns levels and a cache from id to price.
    A matching core holds a resting order ([resting_from]) for each working
    order and is told the current quotes.  The matching engine owns a book and a
    matching core, reads the orders of the cache and tracks for each resting
    order what is ahead of it.  The cache owns orders, positions, accounts and
    own books and the index the queries run on.  A position consumes the fills of
    orders; the own book follows the orders' status; accounts lock funds or
    reserve margin for orders and take the balances the venue reports.  Routers
    match topics with
    [Glob]; components exchange messages through them, and a throttler sits in
    front of the risk engine's outgoing commands.  The tick map owns a bitmap
    and both compute with [FullMath]; a pool owns a tick map and its positions.
    The capture adapter turns bus messages into drafts, the writer numbers, hashes
    and commits them through the backend interface, and the verifier and the
    recovery sweep read the run through the same interface.

    ** What the theorems show

    - Value types: rounding and rescaling are the exact half-even results;
      checked and plain arithmetic agree and stay in range; conversions to and
      from decimals are inverse where they are defined, and the inputs on
      which a conversion panics are characterised.
    - Orders: in every reachable state the filled quantity is the sum of the
      recorded fills and the leaves and overfill quantities follow from it;
      trade ids are never counted twice; final states are final; refused
      events change nothing observable; valid fills succeed; rebuilding an
      order from its log gives the order back.
    - Books: on L2 and L3 books deltas are exactly the finite-map operations
      of the specification, for single deltas and for streams, with every
      assertion of the source (same-side comparison, cache size) discharged;
      on L1 books at most one order per side survives; best prices are best;
      clearing stale levels uncrosses; snapshots round trip; simulated fills,
      worst price and size at a price agree with a reference walk.
    - Matching core: it is a finite map from id to resting order whose index
      never dangles, keeps price-time priority, and reports each order that the
      quotes fill or trigger, by rules stated independently of the code, exactly
      once and in priority order.
    - Matching engine: the fills taken from a level never exceed its size and
      those of a trade never exceed the trade; a trade takes its volume off the
      queue of every order it hits, first in first out; over any history an open
      order falls back in the queue only when its position is taken anew, as a
      modification does; limit orders are never filled worse than their limit but
      for one inverted trigger and, on L1 books, one increment of slippage; a
      trailing stop is the best of all the prices the market has put it at.
    - Cache: over any history a query returns, without a panic, the orders that
      satisfy its filters, counts agree, an update that fails changes nothing, a
      purge removes a closed order and nothing else; the index agrees with the
      stored orders (the open set may keep an order that went back to submitted)
      and rebuilding gives the index that was maintained, but for orders that
      were added when no longer local, replaced by one of another status, filled
      while emulated, or forced out.
      Histories without database failures; [cache_step] lists what they contain.
    - Own book and positions: the own book is a finite map kept in step with its
      price levels and cache, and an audit removes exactly the orders that are
      not open; a position's quantity, side and sums follow from its recorded
      fills, and purging an order that filled nothing changes nothing.
    - Accounts: over any history of locks, non-negative margins and account
      states a cash or a margin account is a few finite maps whose balances follow from the sums
      of locks or margins, overflow and panics included; without borrowing a
      cash account never panics and never goes negative; a betting account is a
      cash account but for one case; purging keeps a non-empty suffix.
    - Messaging: the pattern matcher ends and decides the reference relation;
      over any history both routers deliver each message to exactly the
      matching subscriptions, once, in priority order, whatever their caches
      hold.
    - Rates: under every interleaving the limiter's calls obey the rate, a
      refused caller waits at most one replenishment; the throttler never
      exceeds its limit, loses or reorders nothing, and drains.
    - Test clock: advancing delivers exactly what is due, once, in order, and
      in two steps the same as in one; an alert fires once.
    - Life cycle: an operation completes exactly when its hook succeeds and
      otherwise stays in its transitional state, from which some states have no
      way out; registry calls end and never touch a component another call holds.
    - Ticks: the 512-bit division and the square root are the exact integer
      results; the bitmap search finds the nearest tick in both directions; the
      tick map keeps the sums of the liquidity deltas and the bitmap of the ticks in use; the tick
      of a price is the greatest tick whose price does not exceed it.
    - Pools: over any history whose swap events the simulation confirms
      ([event_ok]; an unconfirmed one overwrites tick and liquidity with its own)
      the active liquidity is that of the positions in range; a simulated swap
      ends, and its amounts and final state are those of the steps it is made of; a
      step never takes more than its input nor passes its target; a snapshot restores the pool; the size search returns a size
      whose impact is within the bound.
    - Event store: the hash of an entry determines its fields; the in-memory
      store refines the interface and scans return exactly the range asked for;
      under every interleaving what was accepted is committed in order or its
      loss is signalled; the verifier reports exactly the damage there is; a
      session over a store that does not fail verifies clean, whether it was
      closed or stopped at any point and swept at the next boot.
    - Behaviour the source may not intend is proved as it is: decimal panics
      at high precision, [Quantity::zero] at wei precisions, balances of
      negative totals, [is_contingency], updates that panic, an L1 depth
      snapshot that keeps its last level, re-used ids that leave an order
      behind, if-touched orders that are triggered by the stop rule, own orders
      updated to size zero at a new price, betting accounts that forget their
      locks, an alert without a callback that removes a timer, the burst of one call more after an
      idle spell, a throttler limit of zero, a throttler reset with an event in
      flight, and the square root of the largest number; cache indices that go
      stale after a pending update, a purge, a re-used venue order id or a
      refused write; pool positions that are owed or lose fees, quotes below the
      price range, swaps without liquidity, refused burns, balances that add
      fee growth, zero mints and the size search that never expands; an order
      whose queue is cleared without a share, a taker filled beyond its limit,
      maker fills slipped past their limit, negative margins that lock a negative
      amount, forced removals, and trailing stops activated without a price.

    ** Assumptions and bounds

    The release profile switches overflow checks and debug assertions off, so
    plain operators wrap and [debug_assert!]s are theorems, not guards.  Log
    output is not modelled.  [BookOrder::to_book_price], the constructors of
    the market data messages and the hash of an L2 price live outside the
    sources: they are class parameters whose laws state what the book relies
    on ([BookOrderLaws], [BookDataLaws]); the hash is only required to
    separate the prices that occur ([collision_free] on a finite list).  The
    order of interned strings ([UstrOrd]), 256-bit integers ([U256Lib]) and the
    decimal and uuid functions positions use ([PositionLibs]), the order in which
    hash maps iterate ([HashIter], [PoolIter]), the order of identifiers
    ([IdOrd]), the printing of addresses ([AddressFmt]), trade information
    ([TradeInfo]), the answers of the cache's database, and the hash function and
    the uuid parser of the event store ([EventLibs]) are interfaces of the same
    kind, each with an instance.
    Recursion is structural where the source's is; loops that are not run on
    fuel that is proved to suffice: [greedy_fuel] for the pattern walk, the
    buffer length for a drain, 512 turns for the square root (259 are enough),
    the free components for nested registry calls, two checks for a wait, 2^21
    turns for a swap (each tick of the range takes at most two), three turns for
    the next entry of a scan.
    Statements about sums and times name the bound under which nothing
    overflows.

    ** Not modelled

    The [Decimal] views of the books (grouping, own-order filtering, midpoint,
    printing); instruments and what accounts compute from them (profits,
    commissions, margin requirements); of the cache, market data, the general
    store and loading; of the matching engine, the dispatch of commands, the
    events it sends through the bus and the fill, fee and latency models; the
    conversions of a square root price to a [Price]; the risk, portfolio and
    data engines; the bus tap and the bus's database; of the event store, the redb
    backend, the built-in encoders and the kernel's boot sequence; the live clock, sockets,
    persistence, serialization, adapters, and the Python and C bindings, which
    are input and output, generated code or glue to other systems.  Handlers and
    hooks are user code: they are parameters, and a handler that calls back into
    the bus while a message is delivered is seen only through the order of the
    collected handlers. *)

From stdpp Require Import base numbers list gmap strings.
From Stdlib Require Import ZArith Lia Sorted.

#[global] Open Scope Z_scope.

(* ------------------------------------------------------------------ *)
(** ** Machine integers

    A Rust integer of a given type is a [Z] with the type kept beside the
    operation: [in_ty t z] says that [z] is a value of type [t].  The release
    profile of the workspace switches overflow checks off, so the plain
    operators wrap ([wrap]); the [checked_*] methods return an option and the
    [saturating_*] methods clamp. *)

Inductive int_ty : Type :=
  | U8 | U16 | U32 | U64 | U128 | U256
  | I8 | I16 | I32 | I64 | I128 | I256.

#[export] Instance int_ty_eq_dec : EqDecision int_ty.
Proof. solve_decision. Defined.

Definition signed (t : int_ty) : bool :=
  match t with
  | U8 | U16 | U32 | U64 | U128 | U256 => false
  | I8 | I16 | I32 | I64 | I128 | I256 => true
  end.

Definition bits (t : int_ty) : Z :=
  match t with
  | U8 | I8 => 8
  | U16 | I16 => 16
  | U32 | I32 => 32
  | U64 | I64 => 64
  | U128 | I128 => 128
  | U256 | I256 => 256
  end.

Definition imin (t : int_ty) : Z := if signed t then - 2 ^ (bits t - 1) else 0.
Definition imax (t : int_ty) : Z :=
  if signed t then 2 ^ (bits t - 1) - 1 else 2 ^ bits t - 1.

Definition in_ty (t : int_ty) (z : Z) : bool := (imin t <=? z) && (z <=? imax t).

Definition wrap (t : int_ty) (z : Z) : Z :=
  if signed t
  then (z + 2 ^ (bits t - 1)) mod 2 ^ bits t - 2 ^ (bits t - 1)
  else z mod 2 ^ bits t.

Definition checked (t : int_ty) (z : Z) : option Z :=
  if in_ty t z then Some z else None.

Definition saturate (t : int_ty) (z : Z) : Z := Z.max (imin t) (Z.min (imax t) z).

Lemma in_ty_spec t z : in_ty t z = true <-> imin t <= z <= imax t.
Proof. unfold in_ty. rewrite andb_true_iff, !Z.leb_le. tauto. Qed.

Lemma imin_le_imax t : imin t <= 0 <= imax t.
Proof. destruct t; vm_compute; split; discriminate. Qed.

Lemma wrap_in_ty t z : in_ty t (wrap t z) = true.
Proof.
  apply in_ty_spec. unfold wrap, imin, imax.
  destruct (signed t).
  - assert (0 < 2 ^ bits t) by (destruct t; reflexivity).
    assert (2 ^ bits t = 2 * 2 ^ (bits t - 1)) by (destruct t; reflexivity).
    pose proof (Z.mod_pos_bound (z + 2 ^ (bits t - 1)) (2 ^ bits t)). lia.
  - assert (0 < 2 ^ bits t) by (destruct t; reflexivity).
    pose proof (Z.mod_pos_bound z (2 ^ bits t)). lia.
Qed.

Lemma wrap_0 t : wrap t 0 = 0.
Proof. by destruct t. Qed.

Lemma wrap_id t z : in_ty t z = true -> wrap t z = z.
Proof.
  rewrite in_ty_spec. unfold wrap, imin, imax. intros H.
  destruct (signed t).
  - assert (2 ^ bits t = 2 * 2 ^ (bits t - 1)) by (destruct t; reflexivity).
    rewrite Z.mod_small; lia.
  - rewrite Z.mod_small; lia.
Qed.

Lemma checked_Some t z r : checked t z = Some r <-> r = z /\ in_ty t z = true.
Proof. unfold checked. destruct (in_ty t z); naive_solver. Qed.

Lemma checked_None t z : checked t z = None <-> in_ty t z = false.
Proof. unfold checked. destruct (in_ty t z); naive_solver. Qed.

Lemma saturate_in_ty t z : in_ty t (saturate t z) = true.
Proof.
  apply in_ty_spec. unfold saturate. pose proof (imin_le_imax t). lia.
Qed.

Lemma saturate_id t z : in_ty t z = true -> saturate t z = z.
Proof. rewrite in_ty_spec. unfold saturate. lia. Qed.

(* ------------------------------------------------------------------ *)
(** ** Outcomes

    What a Rust call does: return normally (for a [Result], with [Ok]), return
    [Err e], or panic.  A function that cannot return [Err] is polymorphic in
    the error type. *)

Inductive outcome (E A : Type) : Type :=
  | Ok (a : A)
  | Err (e : E)
  | Panic.
Arguments Ok {E A} a.
Arguments Err {E A} e.
Arguments Panic {E A}.

#[export] Instance outcome_ret E : MRet (outcome E) := fun A a => Ok a.
#[export] Instance outcome_bind E : MBind (outcome E) := fun A B f m =>
  match m with
  | Ok a => f a
  | Err e => Err e
  | Panic => Panic
  end.
#[export] Instance outcome_fmap E : FMap (outcome E) := fun A B f m =>
  match m with
  | Ok a => Ok (f a)
  | Err e => Err e
  | Panic => Panic
  end.

(** [x.expect(..)] on an option, [x.ok_or(e)], [assert!(b)] and an early
    [return Err(e)] under a condition. *)
Definition expect {E A} (o : option A) : outcome E A :=
  match o with Some a => Ok a | None => Panic end.
Definition ok_or {E A} (o : option A) (e : E) : outcome E A :=
  match o with Some a => Ok a | None => Err e end.
Definition assert_ {E} (b : bool) : outcome E unit := if b then Ok tt else Panic.
Definition err_if {E} (b : bool) (e : E) : outcome E unit :=
  if b then Err e else Ok tt.

(** [r.expect_display(..)]: an error becomes a panic. *)
Definition unwrap_ok {E E' A} (r : outcome E A) : outcome E' A :=
  match r with Ok a => Ok a | Err _ | Panic => Panic end.

Definition is_ok {E A} (r : outcome E A) : bool :=
  match r with Ok _ => true | _ => false end.

Lemma bind_Ok_inv {E A B} (m : outcome E A) (f : A -> outcome E B) b :
  m ≫= f = Ok b -> exists a, m = Ok a /\ f a = Ok b.
Proof. destruct m; simpl; naive_solver. Qed.

Lemma assert_Ok {E} b u : @assert_ E b = Ok u <-> b = true.
Proof. destruct b, u; simpl; split; congruence. Qed.

Lemma err_if_Ok {E} b (e : E) u : err_if b e = Ok u <-> b = false.
Proof. destruct b, u; simpl; naive_solver. Qed.

Lemma expect_Ok {E A} (o : option A) a : @expect E A o = Ok a <-> o = Some a.
Proof. destruct o; simpl; naive_solver. Qed.

Lemma ok_or_Ok {E A} (o : option A) (e : E) a : ok_or o e = Ok a <-> o = Some a.
Proof. destruct o; simpl; naive_solver. Qed.

(** Step through the successful run of an outcome-valued definition. *)
Ltac outcome_step :=
  match goal with
  | H : _ ≫= _ = Ok _ |- _ =>
      apply bind_Ok_inv in H; destruct H as (? & ? & H); simpl in H
  | H : assert_ _ = Ok _ |- _ => apply assert_Ok in H
  | H : err_if _ _ = Ok _ |- _ => apply err_if_Ok in H
  | H : expect _ = Ok _ |- _ => apply expect_Ok in H
  | H : ok_or _ _ = Ok _ |- _ => apply ok_or_Ok in H
  | H : Ok _ = Ok _ |- _ => injection H as H
  | H : checked _ _ = Some _ |- _ => apply checked_Some in H; destruct H
  | H : Err _ = Ok _ |- _ => discriminate H
  | H : Panic = Ok _ |- _ => discriminate H
  end.
Ltac outcome_inv := repeat outcome_step; subst.

(** Reduce the monadic glue and nothing else. *)
Ltac osimpl :=
  cbn [mbind outcome_bind option_bind mret outcome_ret option_ret expect ok_or assert_
       err_if unwrap_ok negb andb orb].

(** Turn boolean comparisons of the context and the goal into propositions. *)
Ltac bool_simpl :=
  repeat match goal with
  | H : (_ && _) = true |- _ => apply andb_true_iff in H; destruct H
  | H : (_ || _) = false |- _ => apply orb_false_iff in H; destruct H
  | H : negb _ = true |- _ => apply negb_true_iff in H
  | H : negb _ = false |- _ => apply negb_false_iff in H
  | H : (_ =? _) = true |- _ => apply Z.eqb_eq in H
  | H : (_ =? _) = false |- _ => apply Z.eqb_neq in H
  | H : (_ <=? _) = true |- _ => apply Z.leb_le in H
  | H : (_ <=? _) = false |- _ => apply Z.leb_gt in H
  | H : (_ <? _) = true |- _ => apply Z.ltb_lt in H
  | H : (_ <? _) = false |- _ => apply Z.ltb_ge in H
  | H : in_ty _ _ = true |- _ => apply in_ty_spec in H
  end.

(* ------------------------------------------------------------------ *)
(** ** Powers of ten *)

Lemma pow10_pos n : 0 <= n -> 0 < 10 ^ n.
Proof. intros. apply Z.pow_pos_nonneg; lia. Qed.

Lemma pow10_even n : 0 < n -> 10 ^ n = 2 * (10 ^ n / 2).
Proof.
  intros Hn. replace n with (Z.succ (n - 1)) by lia.
  rewrite Z.pow_succ_r by lia.
  replace (10 * 10 ^ (n - 1)) with (5 * 10 ^ (n - 1) * 2) by ring.
  rewrite Z.div_mul by lia. ring.
Qed.

(** [r] is [m / d] rounded to the nearest integer, a tie going to the even
    neighbour. *)
Definition half_even (m d r : Z) : Prop :=
  2 * Z.abs (m - r * d) <= d /\ (2 * Z.abs (m - r * d) = d -> Z.even r = true).

Lemma half_even_unique m d r1 r2 :
  0 < d -> half_even m d r1 -> half_even m d r2 -> r1 = r2.
Proof.
  intros Hd [H1 E1] [H2 E2].
  destruct (Z.lt_trichotomy r1 r2) as [L|[E|L]]; [exfalso|exact E|exfalso].
  - assert (Hr : r2 = r1 + 1) by nia. subst r2.
    assert (E1' : Z.even r1 = true) by (apply E1; nia).
    assert (E2' : Z.even (r1 + 1) = true) by (apply E2; nia).
    rewrite Z.even_add, E1' in E2'. discriminate.
  - assert (Hr : r1 = r2 + 1) by nia. subst r1.
    assert (E1' : Z.even (r2 + 1) = true) by (apply E1; nia).
    assert (E2' : Z.even r2 = true) by (apply E2; nia).
    rewrite Z.even_add, E2' in E1'. discriminate.
Qed.

Lemma half_even_1 m r : half_even m 1 r <-> r = m.
Proof. unfold half_even. split; [lia|]. intros ->. lia. Qed.

(** Truncated division of a multiple of two. *)
Lemma rem2_even q : Z.rem q 2 = 0 <-> Z.even q = true.
Proof.
  rewrite Z.even_spec. split.
  - intros H. pose proof (Z.quot_rem' q 2) as Hq. rewrite H in Hq.
    exists (Z.quot q 2). lia.
  - intros [k ->]. rewrite Z.mul_comm. apply Z.rem_mul. lia.
Qed.


(* ------------------------------------------------------------------ *)
(** ** Sorted lists *)

Lemma ss_app {A} (R : A -> A -> Prop) (xs ys : list A) :
  StronglySorted R xs -> StronglySorted R ys ->
  (forall x y, x ∈ xs -> y ∈ ys -> R x y) -> StronglySorted R (xs ++ ys).
Proof.
  induction xs as [|x xs IH]; intros Hx Hy H; [done|]. apply StronglySorted_inv in Hx as [Hx Hf].
  cbn. constructor.
  - apply IH; [done..|]. intros a c Ha Hc. apply H; [by right|done].
  - apply Forall_app. split; [done|]. apply Forall_forall. intros c Hc. apply H; [left|done].
Qed.

Lemma ss_const (c : Z) (xs : list Z) : (forall x, x ∈ xs -> x = c) -> StronglySorted Z.le xs.
Proof.
  induction xs as [|x xs IH]; intros H; constructor; [apply IH; intros y Hy; apply H; by right|].
  apply Forall_forall. intros y Hy. rewrite (H x ltac:(left)), (H y ltac:(by right)). lia.
Qed.

Lemma ss_reverse_opp (xs : list Z) :
  StronglySorted Z.lt xs -> StronglySorted Z.lt (Z.opp <$> reverse xs).
Proof.
  induction 1 as [|x xs Hs IH Hf]; [constructor|]. rewrite reverse_cons, fmap_app.
  apply ss_app; [done|repeat constructor|]. intros a c Ha Hc.
  apply list_elem_of_singleton in Hc as ->. apply list_elem_of_fmap in Ha as (y & -> & Hy).
  rewrite elem_of_reverse in Hy. rewrite Forall_forall in Hf. specialize (Hf y Hy). lia.
Qed.

(* ------------------------------------------------------------------ *)
(** ** Field update

    [r <| proj := v |>] is the record [r] with one field replaced.  A record
    type has an [Eta] instance that rebuilds a value from its projections; the
    setter of a projection is read off it by abstracting that projection. *)

Class Eta (R : Type) : Type := eta : R -> R.
Class Setter {R A : Type} (proj : R -> A) : Type := set_field : A -> R -> R.

Ltac derive_setter :=
  match goal with
  | |- @Setter ?R ?A ?proj =>
      let e := constr:(_ : Eta R) in
      let body := eval hnf in e in
      let abstracted := eval pattern proj in body in
      lazymatch abstracted with
      | ?f _ =>
          let s := eval cbv beta in (fun (v : A) (r : R) => f (fun _ : R => v) r) in
          exact s
      end
  end.
#[export] Hint Extern 1 (Setter _) => derive_setter : typeclass_instances.

Declare Scope record_scope.
Delimit Scope record_scope with rec.
Notation "r <| proj := v |>" := (set_field (proj := proj) v r)
  (at level 1, left associativity, proj at level 99, format "r  <|  proj  :=  v  |>")
  : record_scope.
#[global] Open Scope record_scope.

(** Compute projections of updated records. *)
Ltac rec_simpl := unfold set_field in *; cbn in *.
