(* ===== verification/F64.v ===== *)
(** * IEEE-754 binary64

    The [f64] values and operations the program uses, on the Standard
    Library's specification floats (an executable definition of IEEE-754
    arithmetic, with no primitive floats and no axioms): conversions from and
    to integers, the four operations, fused multiply-add, the comparisons and
    the roundings [f64::round] and [f64::floor]. *)

From Stdlib Require Import ZArith Lia SpecFloat.
From stdpp Require Import base numbers.
From S2P Require Import Prelude.

Definition f64 : Type := spec_float.

Module F64.
Definition prec : Z := 53.
Definition emax : Z := 1024.

Definition zero : f64 := S754_zero false.

(** [z as f64]: round to nearest, ties to even. *)
Definition of_Z (z : Z) : f64 := binary_normalize prec emax z 0 false.

Definition add : f64 -> f64 -> f64 := SFadd prec emax.
Definition sub : f64 -> f64 -> f64 := SFsub prec emax.
Definition mul : f64 -> f64 -> f64 := SFmul prec emax.
Definition div : f64 -> f64 -> f64 := SFdiv prec emax.
Definition opp : f64 -> f64 := SFopp.
Definition abs : f64 -> f64 := SFabs.

Definition eqb : f64 -> f64 -> bool := SFeqb.
Definition ltb : f64 -> f64 -> bool := SFltb.
Definition leb : f64 -> f64 -> bool := SFleb.
Definition gtb (x y : f64) : bool := SFltb y x.
Definition geb (x y : f64) : bool := SFleb y x.

Definition is_finite (x : f64) : bool :=
  match x with S754_zero _ | S754_finite _ _ _ => true | _ => false end.

(** The exact value of a finite float as [m * 2^e]. *)
Definition cond_opp (s : bool) (m : Z) : Z := if s then - m else m.
Definition exact (x : f64) : option (Z * Z) :=
  match x with
  | S754_zero _ => Some (0, 0)
  | S754_finite s m e => Some (cond_opp s (Zpos m), e)
  | _ => None
  end.

(** [a.mul_add(b, c)]: [a * b + c] with a single rounding.  On finite
    operands the exact sum is formed over the smaller exponent; the sign of an
    exact zero follows IEEE-754 (negative only when both addends are). *)
Definition mul_add (a b c : f64) : f64 :=
  match exact a, exact b, exact c with
  | Some (ma, ea), Some (mb, eb), Some (mc, ec) =>
      let e := Z.min (ea + eb) ec in
      let m := ma * mb * 2 ^ (ea + eb - e) + mc * 2 ^ (ec - e) in
      match mul a b, c with
      | S754_zero s1, S754_zero s2 =>
          if ma * mb =? 0 then S754_zero (s1 && s2)
          else binary_normalize prec emax m e false
      | _, _ => binary_normalize prec emax m e false
      end
  | _, _, _ => add (mul a b) c
  end.

(** [x.min(y)]: a NaN yields to the other argument. *)
Definition is_nan (x : f64) : bool := match x with S754_nan => true | _ => false end.
Definition min (x y : f64) : f64 :=
  if is_nan x then y else if is_nan y then x else if SFltb x y then x else y.

(** Nearest integer of [m * 2^e], ties away from zero, for [m >= 0]. *)
Definition round_half_away (m e : Z) : Z :=
  if 0 <=? e then m * 2 ^ e
  else (m + 2 ^ (- e - 1)) / 2 ^ (- e).

(** [x.round()] followed by nothing, as an integer; [None] for NaN and the
    infinities. *)
Definition round_Z (x : f64) : option Z :=
  match x with
  | S754_zero _ => Some 0
  | S754_finite s m e => Some (cond_opp s (round_half_away (Zpos m) e))
  | _ => None
  end.

Definition trunc_Z (x : f64) : option Z :=
  match x with
  | S754_zero _ => Some 0
  | S754_finite s m e =>
      Some (cond_opp s (if 0 <=? e then Zpos m * 2 ^ e else Zpos m / 2 ^ (- e)))
  | _ => None
  end.

(** [x.round()] and [x.floor()] as floats; an integer below [2^53] is exact and a
    float of larger magnitude already is an integer. *)
Definition round (x : f64) : f64 :=
  match x with
  | S754_finite s m e =>
      let r := round_half_away (Zpos m) e in
      if r =? 0 then S754_zero s else binary_normalize prec emax (cond_opp s r) 0 false
  | _ => x
  end.
Definition floor (x : f64) : f64 :=
  match x with
  | S754_finite s m e =>
      let v := cond_opp s (Zpos m) in
      let r := if 0 <=? e then v * 2 ^ e else v / 2 ^ (- e) in
      if r =? 0 then S754_zero s else binary_normalize prec emax r 0 false
  | _ => x
  end.

(** [x as T]: truncate, saturate at the bounds of [T], NaN to zero. *)
Definition to_int (t : int_ty) (x : f64) : Z :=
  match x with
  | S754_nan => 0
  | S754_infinity s => if s then imin t else imax t
  | _ => match trunc_Z x with Some z => saturate t z | None => 0 end
  end.

Lemma to_int_in_ty t x : in_ty t (to_int t x) = true.
Proof.
  assert (H0 : in_ty t 0 = true)
    by (apply in_ty_spec; pose proof (imin_le_imax t); lia).
  destruct x as [s|[]| |s m e]; simpl.
  - apply saturate_in_ty.
  - apply in_ty_spec; pose proof (imin_le_imax t); lia.
  - apply in_ty_spec; pose proof (imin_le_imax t); lia.
  - exact H0.
  - apply saturate_in_ty.
Qed.
End F64.
