(* ===== verification/Fixed.v ===== *)
(** * Fixed-point arithmetic ([crates/model/src/types/fixed.rs])

    The scale constants of the three builds, the validation and correction of
    raw values, banker's rounding and the shared mantissa/exponent conversion,
    and the conversions between [f64] and raw values. *)

From stdpp Require Import base numbers list strings.
From Stdlib Require Import ZArith Lia.
From S2P Require Import Prelude F64.

(* ------------------------------------------------------------------ *)
(** ** Build features

    The crate is compiled with or without [high-precision], and with [defi]
    (which implies [high-precision]).  Everything below is stated for any
    consistent choice. *)

Class Mode : Type := {
  high_precision : bool;
  defi : bool;
  defi_high_precision : defi = true -> high_precision = true;
}.

Definition standard_mode : Mode :=
  {| high_precision := false; defi := false; defi_high_precision := fun H => H |}.
Definition high_precision_mode : Mode :=
  {| high_precision := true; defi := false; defi_high_precision := fun _ => eq_refl |}.
Definition defi_mode : Mode :=
  {| high_precision := true; defi := true; defi_high_precision := fun H => H |}.

(** ** Errors of the correctness checks ([crates/core/src/correctness.rs]); the
    formatted messages and parameter names are left out. *)
Inductive CorrectnessError : Type :=
  | PredicateViolation | EmptyString | WhitespaceString | NonAsciiString
  | MissingSubstring | EqualityMismatch | NotPositive | NegativeValue
  | InvalidValue | OutOfRange | CollectionNotEmpty | CollectionEmpty
  | KeyPresent | KeyMissing | MemberPresent | MemberMissing.

Abbreviation CorrectnessResult := (outcome CorrectnessError).

(** An invalid raw value: raw, precision, remainder, scale. *)
Inductive RawError : Type := InvalidRaw (raw precision remainder scale : Z).

Create HintDb fixed.

Section Fixed.
Context `{M : Mode}.

Definition FIXED_PRECISION : Z := if high_precision then 16 else 9.
Definition PRECISION_BYTES : Z := if high_precision then 16 else 8.

(** [10_000_000_000_000_000.0] and [1_000_000_000.0]; both are exact doubles. *)
Definition FIXED_SCALAR : f64 :=
  F64.of_Z (if high_precision then 10000000000000000 else 1000000000).

Definition MAX_FLOAT_PRECISION : Z := 16.
Definition WEI_PRECISION : Z := 18.

Definition POWERS_OF_10 : list Z :=
  [ 1; 10; 100; 1000; 10000; 100000; 1000000; 10000000; 100000000; 1000000000;
    10000000000; 100000000000; 1000000000000; 10000000000000; 100000000000000;
    1000000000000000; 10000000000000000 ].

Definition check_fixed_precision (precision : Z) : CorrectnessResult unit :=
  if defi then err_if (WEI_PRECISION <? precision) PredicateViolation
  else err_if (FIXED_PRECISION <? precision) PredicateViolation.

Definition raw_scales_match (a b : Z) : bool :=
  Z.max a FIXED_PRECISION =? Z.max b FIXED_PRECISION.

(** The [debug_assert!] for precisions above [FIXED_PRECISION] is compiled out. *)
Definition should_skip_validation (precision : Z) : bool :=
  if precision =? FIXED_PRECISION then true
  else if FIXED_PRECISION <? precision then true
  else false.

(** [POWERS_OF_10[usize::from(FIXED_PRECISION - precision)]]. *)
Definition scale_for (precision : Z) : Z :=
  POWERS_OF_10 !!! Z.to_nat (FIXED_PRECISION - precision).

(** The four validators differ only in the integer type of [raw]; the remainder
    is Rust's truncated [%]. *)
Definition check_fixed_raw (raw precision : Z) : outcome RawError unit :=
  if should_skip_validation precision then Ok tt
  else
    let scale := scale_for precision in
    let remainder := Z.rem raw scale in
    if negb (remainder =? 0) then Err (InvalidRaw raw precision remainder scale)
    else Ok tt.

Definition check_fixed_raw_u128 (raw precision : Z) := check_fixed_raw raw precision.
Definition check_fixed_raw_u64 (raw precision : Z) := check_fixed_raw raw precision.
Definition check_fixed_raw_i128 (raw precision : Z) := check_fixed_raw raw precision.
Definition check_fixed_raw_i64 (raw precision : Z) := check_fixed_raw raw precision.

(** The correction of an unsigned raw value of type [t]. *)
Definition correct_raw_unsigned (t : int_ty) (raw precision : Z) : Z :=
  if FIXED_PRECISION <=? precision then raw
  else
    let scale := scale_for precision in
    let half_scale := Z.quot scale 2 in
    let remainder := Z.rem raw scale in
    if remainder =? 0 then raw
    else if half_scale <=? remainder then wrap t (raw + (scale - remainder))
    else wrap t (raw - remainder).

Definition correct_raw_u128 (raw precision : Z) : Z := correct_raw_unsigned U128 raw precision.
Definition correct_raw_u64 (raw precision : Z) : Z := correct_raw_unsigned U64 raw precision.

(** The correction of a signed raw value of type [t]. *)
Definition correct_raw_signed (t : int_ty) (raw precision : Z) : Z :=
  if FIXED_PRECISION <=? precision then raw
  else
    let scale := scale_for precision in
    let half_scale := Z.quot scale 2 in
    let remainder := Z.rem raw scale in
    if remainder =? 0 then raw
    else if 0 <=? raw then
      if half_scale <=? remainder then wrap t (raw + (scale - remainder))
      else wrap t (raw - remainder)
    else
      if half_scale <=? Z.abs remainder then wrap t (raw - (scale + remainder))
      else wrap t (raw - remainder).

Definition correct_raw_i128 (raw precision : Z) : Z := correct_raw_signed I128 raw precision.
Definition correct_raw_i64 (raw precision : Z) : Z := correct_raw_signed I64 raw precision.

Definition correct_price_raw (raw precision : Z) : Z :=
  if high_precision then correct_raw_i128 raw precision else correct_raw_i64 raw precision.
Definition correct_quantity_raw (raw precision : Z) : Z :=
  if high_precision then correct_raw_u128 raw precision else correct_raw_u64 raw precision.

Definition bankers_round (mantissa excess : Z) : Z :=
  if excess =? 0 then mantissa
  else if 39 <=? excess then 0
  else
    let divisor := 10 ^ excess in
    let quotient := Z.quot mantissa divisor in
    let remainder := Z.rem mantissa divisor in
    let half := Z.quot divisor 2 in
    if (half <? Z.abs remainder)
       || ((Z.abs remainder =? half) && negb (Z.rem quotient 2 =? 0))
    then quotient + Z.sgn mantissa
    else quotient.

Definition mantissa_exponent_to_fixed_i128 (mantissa exponent precision : Z)
  : CorrectnessResult Z :=
  _ ← check_fixed_precision precision;
  let target_scale := Z.max FIXED_PRECISION precision in
  let frac_digits := - exponent in
  let mantissa :=
    if precision <? frac_digits
    then bankers_round mantissa (frac_digits - precision)
    else mantissa in
  let scale_after_rounding := Z.min frac_digits precision in
  let scale_exp := target_scale - scale_after_rounding in
  _ ← err_if (38 <? scale_exp) PredicateViolation;
  ok_or
    (if 0 <=? scale_exp then checked I128 (mantissa * 10 ^ scale_exp)
     else Some (Z.quot mantissa (10 ^ (- scale_exp))))
    PredicateViolation.

(** [10_T.pow(e)] with wrapping arithmetic. *)
Definition pow10_wrap (t : int_ty) (e : Z) : Z := wrap t (10 ^ e).

(** The conversions from [f64] to a raw value of type [t]. *)
Definition f64_to_fixed {E} (t : int_ty) (value : f64) (precision : Z) : outcome E Z :=
  _ ← unwrap_ok (check_fixed_precision precision);
  let pow1 := pow10_wrap t precision in
  let pow2 := pow10_wrap t (wrap U8 (FIXED_PRECISION - precision)) in
  let rounded := F64.to_int t (F64.round (F64.mul value (F64.of_Z pow1))) in
  Ok (wrap t (rounded * pow2)).

Definition f64_to_fixed_i64 {E} (value : f64) (precision : Z) : outcome E Z :=
  f64_to_fixed I64 value precision.
Definition f64_to_fixed_i128 {E} (value : f64) (precision : Z) : outcome E Z :=
  f64_to_fixed I128 value precision.
Definition f64_to_fixed_u64 {E} (value : f64) (precision : Z) : outcome E Z :=
  f64_to_fixed U64 value precision.
Definition f64_to_fixed_u128 {E} (value : f64) (precision : Z) : outcome E Z :=
  f64_to_fixed U128 value precision.

(** The conversions from a raw value to [f64]. *)
Definition fixed_i64_to_f64 (value : Z) : f64 := F64.div (F64.of_Z value) FIXED_SCALAR.
Definition fixed_i128_to_f64 (value : Z) : f64 := F64.div (F64.of_Z value) FIXED_SCALAR.
Definition fixed_u64_to_f64 (value : Z) : f64 := F64.div (F64.of_Z value) FIXED_SCALAR.
Definition fixed_u128_to_f64 (value : Z) : f64 := F64.div (F64.of_Z value) FIXED_SCALAR.

(** [check_in_range_inclusive_f64] of the correctness module, with the [1e-15]
    epsilon. *)
Definition EPSILON : f64 := F64.div (F64.of_Z 1) (F64.of_Z 1000000000000000).
Definition check_in_range_inclusive_f64 (value l r : f64) : CorrectnessResult unit :=
  _ ← err_if (negb (F64.is_finite value)) InvalidValue;
  err_if (F64.ltb value (F64.sub l EPSILON) || F64.gtb value (F64.add r EPSILON))
    OutOfRange.

Definition check_predicate_true (predicate : bool) : CorrectnessResult unit :=
  err_if (negb predicate) PredicateViolation.
Definition check_predicate_false (predicate : bool) : CorrectnessResult unit :=
  err_if predicate PredicateViolation.

(* ------------------------------------------------------------------ *)
(** ** Lemmas *)

Lemma fixed_precision_bounds : 9 <= FIXED_PRECISION <= 16.
Proof. unfold FIXED_PRECISION. destruct high_precision; lia. Qed.

Lemma powers_of_10_spec i : 0 <= i <= 16 -> POWERS_OF_10 !!! Z.to_nat i = 10 ^ i.
Proof.
  intros H. rewrite <- (Z2Nat.id i) at 2 by lia.
  assert (Hn : (Z.to_nat i <= 16)%nat) by lia. revert Hn.
  generalize (Z.to_nat i) as n. clear H.
  do 17 (intros [|n]; [reflexivity|revert n]). intros; lia.
Qed.

Lemma scale_for_spec p :
  0 <= p < FIXED_PRECISION -> scale_for p = 10 ^ (FIXED_PRECISION - p).
Proof.
  intros H. pose proof fixed_precision_bounds. unfold scale_for.
  apply powers_of_10_spec. lia.
Qed.

Lemma scale_for_pos p : 0 <= p < FIXED_PRECISION -> 0 < scale_for p.
Proof. intros. rewrite scale_for_spec by lia. apply pow10_pos. lia. Qed.

Lemma scale_for_half p :
  0 <= p < FIXED_PRECISION -> scale_for p = 2 * Z.quot (scale_for p) 2.
Proof.
  intros H. pose proof (scale_for_pos p H). rewrite Z.quot_div_nonneg by lia.
  rewrite scale_for_spec by lia. apply pow10_even. lia.
Qed.

Lemma should_skip_spec p :
  should_skip_validation p = (FIXED_PRECISION <=? p).
Proof.
  unfold should_skip_validation.
  destruct (Z.eqb_spec p FIXED_PRECISION), (Z.ltb_spec FIXED_PRECISION p),
    (Z.leb_spec FIXED_PRECISION p); done || lia.
Qed.

Lemma check_fixed_precision_Ok p u :
  check_fixed_precision p = Ok u <->
  p <= (if defi then WEI_PRECISION else FIXED_PRECISION).
Proof.
  unfold check_fixed_precision. destruct defi; rewrite err_if_Ok, Z.ltb_ge; tauto.
Qed.

(** A raw value passes validation exactly when it is a multiple of the scale. *)
Lemma check_fixed_raw_Ok raw p :
  0 <= p < FIXED_PRECISION ->
  check_fixed_raw raw p = Ok tt <-> (10 ^ (FIXED_PRECISION - p) | raw).
Proof.
  intros Hp. unfold check_fixed_raw. rewrite should_skip_spec, scale_for_spec by lia.
  replace (FIXED_PRECISION <=? p) with false by lia.
  assert (10 ^ (FIXED_PRECISION - p) <> 0) by (pose proof (pow10_pos (FIXED_PRECISION - p)); lia).
  rewrite <- Z.rem_divide by done.
  destruct (Z.eqb_spec (Z.rem raw (10 ^ (FIXED_PRECISION - p))) 0); simpl; naive_solver.
Qed.

#[local] Hint Resolve pow10_pos : fixed.

(** The rounding step shared by the correction functions, on [Z]. *)
Lemma round_away_nearest raw s :
  0 < s -> s = 2 * Z.quot s 2 ->
  let r := Z.rem raw s in
  let v :=
    if r =? 0 then raw
    else if 0 <=? raw then
      if Z.quot s 2 <=? r then raw + (s - r) else raw - r
    else if Z.quot s 2 <=? Z.abs r then raw - (s + r) else raw - r in
  (s | v) /\ 2 * Z.abs (v - raw) <= s.
Proof.
  intros Hs Hh r v. pose proof (Z.quot_rem' raw s) as Hq. fold r in Hq.
  assert (Hr : Z.abs r < s).
  { pose proof (Z.rem_bound_abs raw s). fold r in H. lia. }
  assert (Hsg : 0 <= raw -> 0 <= r) by (intros; apply Z.rem_nonneg; lia).
  assert (Hsg' : raw <= 0 -> r <= 0) by (intros; apply Z.rem_nonpos; lia).
  unfold v.
  destruct (Z.eqb_spec r 0); [|destruct (Z.leb_spec 0 raw)].
  - split; [exists (Z.quot raw s); lia|lia].
  - destruct (Z.leb_spec (Z.quot s 2) r); split; try lia.
    + exists (Z.quot raw s + 1). lia.
    + exists (Z.quot raw s). lia.
  - destruct (Z.leb_spec (Z.quot s 2) (Z.abs r)); split; try lia.
    + exists (Z.quot raw s - 1). lia.
    + exists (Z.quot raw s). lia.
Qed.

Lemma bankers_round_small m e : 
  in_ty I128 m = true -> 39 <= e -> half_even m (10 ^ e) 0.
Proof.
  intros Hm He. apply in_ty_spec in Hm.
  change (imin I128) with (-170141183460469231731687303715884105728) in Hm.
  change (imax I128) with 170141183460469231731687303715884105727 in Hm.
  assert (10 ^ 39 <= 10 ^ e) by (apply Z.pow_le_mono_r; lia).
  change (10 ^ 39) with 1000000000000000000000000000000000000000 in H.
  unfold half_even. lia.
Qed.

Lemma bankers_round_half_even m e :
  in_ty I128 m = true -> 0 <= e -> half_even m (10 ^ e) (bankers_round m e).
Proof.
  intros Hm He. unfold bankers_round.
  destruct (Z.eqb_spec e 0) as [->|Hne]; [by apply half_even_1|].
  destruct (Z.leb_spec 39 e); [by apply bankers_round_small|].
  pose proof (pow10_pos e He) as Hd.
  pose proof (pow10_even e ltac:(lia)) as Hh.
  set (d := 10 ^ e) in *. rewrite (Z.quot_div_nonneg d 2) by lia.
  set (h := d / 2) in *.
  set (q := Z.quot m d). set (r := Z.rem m d).
  pose proof (Z.quot_rem' m d) as Hq. fold q r in Hq.
  assert (Hr : Z.abs r < d) by (pose proof (Z.rem_bound_abs m d); fold r in H0; lia).
  assert (Hsg : 0 <= m -> 0 <= r) by (intros; apply Z.rem_nonneg; lia).
  assert (Hsg' : m <= 0 -> r <= 0) by (intros; apply Z.rem_nonpos; lia).
  assert (Hz : m = 0 -> r = 0) by lia.
  destruct (Z.ltb_spec h (Z.abs r)) as [L|L]; simpl.
  - unfold half_even.
    assert (Z.abs (m - (q + Z.sgn m) * d) = d - Z.abs r) by nia. lia.
  - destruct (Z.eqb_spec (Z.abs r) h) as [E|E]; simpl.
    + destruct (Z.eqb_spec (Z.rem q 2) 0) as [Ev|Od]; simpl; unfold half_even.
      * apply rem2_even in Ev. split; [lia|done].
      * assert (Ho : Z.even q = false).
        { destruct (Z.even q) eqn:Eq; [|done]. by apply rem2_even in Eq. }
        assert (Z.abs (m - (q + Z.sgn m) * d) = d - Z.abs r) by nia.
        split; [lia|]. intros _.
        assert (Z.sgn m = 1 \/ Z.sgn m = -1) as [->| ->] by lia;
          rewrite Z.even_add, Ho; reflexivity.
    + unfold half_even. assert (m - q * d = r) by lia. lia.
Qed.

Lemma correct_raw_signed_Z t raw p :
  0 <= p < FIXED_PRECISION ->
  imin t + scale_for p <= raw <= imax t - scale_for p ->
  let r := correct_raw_signed t raw p in
  (scale_for p | r) /\ 2 * Z.abs (r - raw) <= scale_for p.
Proof.
  intros Hp Hraw. pose proof (scale_for_pos p Hp) as Hs.
  pose proof (round_away_nearest raw _ Hs (scale_for_half p Hp)) as [Hd Hn].
  simpl in Hd, Hn. unfold correct_raw_signed.
  replace (FIXED_PRECISION <=? p) with false by lia. simpl.
  repeat case_match; rewrite ?wrap_id by (apply in_ty_spec; lia); auto.
Qed.

Lemma correct_raw_unsigned_Z t raw p :
  0 <= p < FIXED_PRECISION -> signed t = false ->
  0 <= raw <= imax t - scale_for p ->
  let r := correct_raw_unsigned t raw p in
  (scale_for p | r) /\ 2 * Z.abs (r - raw) <= scale_for p.
Proof.
  intros Hp Ht Hraw. pose proof (scale_for_pos p Hp) as Hs.
  pose proof (round_away_nearest raw _ Hs (scale_for_half p Hp)) as [Hd Hn].
  simpl in Hd, Hn. replace (0 <=? raw) with true in Hd, Hn by lia.
  assert (Hmin : imin t = 0) by (unfold imin; by rewrite Ht).
  assert (Hr : 0 <= Z.rem raw (scale_for p) <= raw).
  { pose proof (Z.rem_bound_pos raw (scale_for p)).
    pose proof (Z.quot_rem' raw (scale_for p)).
    pose proof (Z.quot_pos raw (scale_for p)). nia. }
  unfold correct_raw_unsigned.
  replace (FIXED_PRECISION <=? p) with false by lia. simpl.
  repeat case_match; rewrite ?wrap_id by (apply in_ty_spec; lia); auto.
Qed.

(** On a multiple of the scale both corrections are the identity. *)
Lemma correct_raw_fixpoint t raw p :
  0 <= p < FIXED_PRECISION -> (scale_for p | raw) ->
  correct_raw_signed t raw p = raw /\ correct_raw_unsigned t raw p = raw.
Proof.
  intros Hp Hd. pose proof (scale_for_pos p Hp).
  apply Z.rem_divide in Hd; [|lia].
  unfold correct_raw_signed, correct_raw_unsigned. rewrite Hd. simpl.
  by destruct (FIXED_PRECISION <=? p).
Qed.

Lemma mantissa_scaled_pow m e p :
  - e <= p -> 0 <= p -> p <= Z.max FIXED_PRECISION p ->
  m * 10 ^ (Z.max FIXED_PRECISION p + e)
  = m * 10 ^ (p + e) * 10 ^ (Z.max FIXED_PRECISION p - p).
Proof.
  intros. rewrite <- Z.mul_assoc, <- Z.pow_add_r by lia. do 2 f_equal. lia.
Qed.

(* ------------------------------------------------------------------ *)
(** ** Properties *)

(** for every [i128] mantissa and every number of excess digits,
    [bankers_round] returns the unique nearest integer of
    [mantissa / 10^excess], a tie going to the even neighbour; the shortcut for
    39 digits and more agrees with it. *)
Theorem bankers_round_correct (m e r : Z) :
  in_ty I128 m = true -> 0 <= e ->
  half_even m (10 ^ e) r <-> r = bankers_round m e.
Proof.
  intros Hm He. split.
  - intros Hr. eapply half_even_unique; eauto using bankers_round_half_even with fixed.
  - intros ->. by apply bankers_round_half_even.
Qed.

(** [mantissa_exponent_to_fixed_i128] succeeds exactly when the precision is
    valid, the scale factor is at most [10^38] and the result fits [i128]; the
    result is then [mantissa * 10^exponent] rounded half-even at [precision]
    decimals and scaled to [max(FIXED_PRECISION, precision)] decimals. *)
Theorem mantissa_exponent_correct (m e p raw : Z) :
  in_ty I128 m = true -> 0 <= p ->
  mantissa_exponent_to_fixed_i128 m e p = Ok raw <->
  p <= (if defi then WEI_PRECISION else FIXED_PRECISION) /\
  Z.max FIXED_PRECISION p - Z.min (- e) p <= 38 /\
  in_ty I128 raw = true /\
  exists r,
    half_even (m * 10 ^ Z.max 0 (p + e)) (10 ^ Z.max 0 (- (p + e))) r /\
    raw = r * 10 ^ (Z.max FIXED_PRECISION p - p).
Proof.
  intros Hm Hp. unfold mantissa_exponent_to_fixed_i128.
  destruct (check_fixed_precision p) as [[]|err|] eqn:Hc; simpl.
  2,3: split; [discriminate|]; intros (Hle & _);
    apply (check_fixed_precision_Ok p tt) in Hle; congruence.
  apply check_fixed_precision_Ok in Hc.
  set (T := Z.max FIXED_PRECISION p) in *.
  destruct (Z.ltb_spec 38 (T - Z.min (- e) p)) as [Hov|Hov]; simpl;
    [split; [discriminate|lia]|].
  replace (0 <=? T - Z.min (- e) p) with true by lia.
  rewrite ok_or_Ok, checked_Some.
  destruct (Z.ltb_spec p (- e)) as [Hf|Hf].
  - rewrite (Z.min_r (- e) p), (Z.max_l 0 (p + e)), (Z.max_r 0 (- (p + e))) by lia.
    replace (- (p + e)) with (- e - p) by lia. rewrite Z.pow_0_r, Z.mul_1_r.
    pose proof (bankers_round_half_even m (- e - p) Hm ltac:(lia)) as Hb.
    split; [intros [-> Ht]; split_and!; [done|lia|done|eauto]|].
    intros (_ & _ & Ht & r & Hr & Eraw); subst raw.
    pose proof (half_even_unique _ _ _ _ (pow10_pos (- e - p) ltac:(lia)) Hr Hb) as ->.
    auto.
  - rewrite (Z.min_l (- e) p), (Z.max_r 0 (p + e)), (Z.max_l 0 (- (p + e))) by lia.
    rewrite Z.pow_0_r. replace (T - - e) with (T + e) by lia.
    unfold T. rewrite mantissa_scaled_pow by lia. fold T.
    setoid_rewrite half_even_1. split; [intros [-> Ht]; split_and!; [done|lia|done|eauto]|].
    intros (_ & _ & Ht & r & Er & Eraw); subst r raw. auto.
Qed.

(** away from the ends of the integer type, the correction of a price or a
    quantity raw value gives a raw value that passes validation at the
    precision, at most half a unit of that precision away, and correcting twice
    changes nothing. *)
Theorem correct_raw_nearest (raw p : Z) :
  0 <= p < FIXED_PRECISION ->
  let s := 10 ^ (FIXED_PRECISION - p) in
  (let t := if high_precision then I128 else I64 in
   imin t + s <= raw <= imax t - s ->
   let r := correct_price_raw raw p in
   check_fixed_raw r p = Ok tt /\ 2 * Z.abs (r - raw) <= s /\
   correct_price_raw r p = r) /\
  (let t := if high_precision then U128 else U64 in
   0 <= raw <= imax t - s ->
   let r := correct_quantity_raw raw p in
   check_fixed_raw r p = Ok tt /\ 2 * Z.abs (r - raw) <= s /\
   correct_quantity_raw r p = r).
Proof.
  intros Hp s. unfold s. rewrite <- scale_for_spec by done.
  setoid_rewrite check_fixed_raw_Ok; [|done..].
  rewrite <- scale_for_spec by done. unfold correct_price_raw, correct_quantity_raw.
  split; intros Hr; destruct high_precision.
  1: destruct (correct_raw_signed_Z I128 raw p Hp Hr).
  2: destruct (correct_raw_signed_Z I64 raw p Hp Hr).
  3: destruct (correct_raw_unsigned_Z U128 raw p Hp eq_refl Hr).
  4: destruct (correct_raw_unsigned_Z U64 raw p Hp eq_refl Hr).
  all: split_and!; [done|done|].
  all: by apply correct_raw_fixpoint.
Qed.

End Fixed.

#[export] Hint Resolve fixed_precision_bounds pow10_pos scale_for_pos : fixed.


Example bankers_round_witness :
  (half_even 125 (10 ^ 1) 12 <-> 12 = bankers_round 125 1) /\ bankers_round 125 1 = 12.
Proof.
  split; [|reflexivity].
  apply (bankers_round_correct 125 1 12); [reflexivity|lia].
Defined.

(** 1.2345 at two decimals, standard build: 1.23. *)
Example mantissa_exponent_witness :
  mantissa_exponent_to_fixed_i128 (M := standard_mode) 12345 (-4) 2 = Ok 1230000000.
Proof.
  apply (mantissa_exponent_correct (M := standard_mode)); [reflexivity|lia|].
  split_and!; [vm_compute; congruence..|]. exists 123. split; [|reflexivity].
  split; vm_compute; congruence.
Defined.

Example correct_raw_witness :
  correct_price_raw (M := standard_mode) 1234567890 2 = 1230000000 /\
  2 * Z.abs (correct_price_raw (M := standard_mode) 1234567890 2 - 1234567890)
    <= 10000000.
Proof.
  split; [reflexivity|].
  eapply (correct_raw_nearest (M := standard_mode) 1234567890 2);
    vm_compute; split; congruence.
Defined.
