(* ===== verification/Price.v ===== *)
(** * Prices ([crates/model/src/types/price.rs])

    A price is a raw fixed-point integer with a display precision.  Equality
    and order look at the raw value only.  [rust_decimal]'s [Decimal] is not
    part of the repository: it enters as an interface with the behaviour its
    documentation gives. *)

From stdpp Require Import base numbers list strings.
From Stdlib Require Import ZArith Lia Ascii.
From S2P Require Import Prelude F64 Fixed.

(* ------------------------------------------------------------------ *)
(** ** The decimal library

    A [Decimal] is a 96-bit magnitude with a sign and a scale of 0 to 28
    digits; [from_i128_with_scale] panics outside those bounds. *)

Class DecimalApi (Dec : Type) : Type := {
  dec_mantissa : Dec -> Z;
  dec_scale : Dec -> Z;
  dec_from_i128_with_scale : forall {E}, Z -> Z -> outcome E Dec;
}.

Definition dec_fits (m s : Z) : bool := (Z.abs m <? 2 ^ 96) && (0 <=? s) && (s <=? 28).

Class DecimalLaws (Dec : Type) `{DecimalApi Dec} : Prop := {
  dec_bounds d : dec_fits (dec_mantissa d) (dec_scale d) = true;
  dec_from_ok {E} m s : dec_fits m s = true ->
    exists d, dec_from_i128_with_scale (E := E) m s = Ok d
              /\ dec_mantissa d = m /\ dec_scale d = s;
  dec_from_panic {E} m s : dec_fits m s = false ->
    dec_from_i128_with_scale (E := E) m s = Panic;
}.

(* ------------------------------------------------------------------ *)
Record Price : Type := mkPrice { p_raw : Z; p_precision : Z }.

Section Price.
Context `{M : Mode}.

(** [PriceRaw] *)
Definition PriceRaw : int_ty := if high_precision then I128 else I64.

Definition PRICE_MAX : f64 :=
  F64.of_Z (if high_precision then 17014118346046 else 9223372036).
Definition PRICE_MIN : f64 :=
  F64.of_Z (if high_precision then -17014118346046 else -9223372036).

Definition PRICE_RAW_MAX : Z := F64.to_int PriceRaw (F64.mul PRICE_MAX FIXED_SCALAR).
Definition PRICE_RAW_MIN : Z := F64.to_int PriceRaw (F64.mul PRICE_MIN FIXED_SCALAR).
Definition PRICE_UNDEF : Z := imax PriceRaw.
Definition PRICE_ERROR : Z := imin PriceRaw.
Definition ERROR_PRICE : Price := mkPrice 0 255.

Definition price_new_checked (value : f64) (precision : Z) : CorrectnessResult Price :=
  _ ← check_in_range_inclusive_f64 value PRICE_MIN PRICE_MAX;
  _ ← err_if (defi && (MAX_FLOAT_PRECISION <? precision)) PredicateViolation;
  _ ← check_fixed_precision precision;
  raw ← (if high_precision then f64_to_fixed_i128 value precision
         else f64_to_fixed_i64 value precision);
  Ok (mkPrice raw precision).

Definition price_new {E} (value : f64) (precision : Z) : outcome E Price :=
  unwrap_ok (price_new_checked value precision).

Definition price_raw_in_range (raw : Z) : bool :=
  (PRICE_RAW_MIN <=? raw) && (raw <=? PRICE_RAW_MAX).

Definition price_from_raw {E} (raw precision : Z) : outcome E Price :=
  _ ← assert_ ((raw =? PRICE_ERROR) || (raw =? PRICE_UNDEF) || price_raw_in_range raw);
  _ ← (if raw =? PRICE_UNDEF then assert_ (precision =? 0) else Ok tt);
  _ ← unwrap_ok (check_fixed_precision precision);
  Ok (mkPrice raw precision).

Definition price_from_raw_checked (raw precision : Z) : CorrectnessResult Price :=
  _ ← err_if ((raw =? PRICE_UNDEF) && negb (precision =? 0)) PredicateViolation;
  _ ← err_if (negb (raw =? PRICE_ERROR) && negb (raw =? PRICE_UNDEF)
              && ((raw <? PRICE_RAW_MIN) || (PRICE_RAW_MAX <? raw))) PredicateViolation;
  _ ← check_fixed_precision precision;
  Ok (mkPrice raw precision).

Definition price_zero {E} (precision : Z) : outcome E Price :=
  _ ← unwrap_ok (check_fixed_precision precision); Ok (mkPrice 0 precision).
Definition price_max {E} (precision : Z) : outcome E Price :=
  _ ← unwrap_ok (check_fixed_precision precision); Ok (mkPrice PRICE_RAW_MAX precision).
Definition price_min {E} (precision : Z) : outcome E Price :=
  _ ← unwrap_ok (check_fixed_precision precision); Ok (mkPrice PRICE_RAW_MIN precision).

Definition price_is_sentinel (p : Price) : bool :=
  (p_raw p =? PRICE_UNDEF) || (p_raw p =? PRICE_ERROR) || (p_precision p =? 255).

Definition price_checked_add (a b : Price) : option Price :=
  if price_is_sentinel a || price_is_sentinel b then None
  else if negb (raw_scales_match (p_precision a) (p_precision b)) then None
  else
    raw ← checked PriceRaw (p_raw a + p_raw b);
    if (raw <? PRICE_RAW_MIN) || (PRICE_RAW_MAX <? raw) then None
    else Some (mkPrice raw (Z.max (p_precision a) (p_precision b))).

Definition price_checked_sub (a b : Price) : option Price :=
  if price_is_sentinel a || price_is_sentinel b then None
  else if negb (raw_scales_match (p_precision a) (p_precision b)) then None
  else
    raw ← checked PriceRaw (p_raw a - p_raw b);
    if (raw <? PRICE_RAW_MIN) || (PRICE_RAW_MAX <? raw) then None
    else Some (mkPrice raw (Z.max (p_precision a) (p_precision b))).

Definition price_is_undefined (p : Price) : bool := p_raw p =? PRICE_UNDEF.
Definition price_is_zero (p : Price) : bool := p_raw p =? 0.
Definition price_is_positive (p : Price) : bool :=
  negb (p_raw p =? PRICE_UNDEF) && (0 <? p_raw p).

Definition price_as_f64 {E} (p : Price) : outcome E f64 :=
  _ ← assert_ (negb (defi && (MAX_FLOAT_PRECISION <? p_precision p)));
  Ok (if high_precision then fixed_i128_to_f64 (p_raw p) else fixed_i64_to_f64 (p_raw p)).

(** Equality, order, negation, addition and subtraction. *)
Definition price_eqb (a b : Price) : bool := p_raw a =? p_raw b.
Definition price_ltb (a b : Price) : bool := p_raw a <? p_raw b.
Definition price_leb (a b : Price) : bool := p_raw a <=? p_raw b.
Definition price_gtb (a b : Price) : bool := p_raw b <? p_raw a.
Definition price_geb (a b : Price) : bool := p_raw b <=? p_raw a.
Definition price_cmp (a b : Price) : comparison := Z.compare (p_raw a) (p_raw b).

Definition price_neg (p : Price) : Price :=
  if (p_raw p =? PRICE_ERROR) || (p_raw p =? PRICE_UNDEF) then p
  else mkPrice (wrap PriceRaw (- p_raw p)) (p_precision p).

Definition price_add {E} (a b : Price) : outcome E Price :=
  raw ← expect (checked PriceRaw (p_raw a + p_raw b));
  Ok (mkPrice raw (Z.max (p_precision a) (p_precision b))).
Definition price_sub {E} (a b : Price) : outcome E Price :=
  raw ← expect (checked PriceRaw (p_raw a - p_raw b));
  Ok (mkPrice raw (Z.max (p_precision a) (p_precision b))).

Definition price_from_mantissa_exponent {E} (mantissa exponent precision : Z)
  : outcome E Price :=
  _ ← unwrap_ok (check_fixed_precision precision);
  if mantissa =? 0 then Ok (mkPrice 0 precision)
  else
    raw_i128 ← unwrap_ok (mantissa_exponent_to_fixed_i128 mantissa exponent precision);
    raw ← expect (checked PriceRaw raw_i128);
    _ ← assert_ (price_raw_in_range raw);
    Ok (mkPrice raw precision).

Section Decimals.
Context {Dec : Type} `{DecimalApi Dec}.

(** [as_decimal]: [FIXED_PRECISION.saturating_sub(precision)], then truncated
    division by the power of ten. *)
Definition price_as_decimal {E} (p : Price) : outcome E Dec :=
  let precision_diff := saturate U8 (FIXED_PRECISION - p_precision p) in
  let rescaled_raw := Z.quot (p_raw p) (pow10_wrap PriceRaw precision_diff) in
  dec_from_i128_with_scale rescaled_raw (p_precision p).

Definition price_from_decimal_dp (d : Dec) (precision : Z) : CorrectnessResult Price :=
  let exponent := wrap I8 (- wrap I8 (dec_scale d)) in
  raw_i128 ← mantissa_exponent_to_fixed_i128 (dec_mantissa d) exponent precision;
  raw ← ok_or (checked PriceRaw raw_i128) PredicateViolation;
  _ ← err_if (negb (price_raw_in_range raw)) PredicateViolation;
  Ok (mkPrice raw precision).

Definition price_from_decimal (d : Dec) : CorrectnessResult Price :=
  price_from_decimal_dp d (wrap U8 (dec_scale d)).

(** [from_str]: underscores are dropped; the two parsers of the decimal library
    ([Decimal::from_str], [Decimal::from_scientific]) are parameters.  The
    error is a formatted string, left out. *)
Definition strip_underscores (s : string) : string :=
  String.string_of_list_ascii
    (filter (fun c => c <> "_"%char) (String.list_ascii_of_string s)).
Definition has_exponent (s : string) : bool :=
  existsb (fun c => bool_decide (c = "e"%char \/ c = "E"%char))
    (String.list_ascii_of_string s).

Definition price_from_str (from_str from_scientific : string -> option Dec)
    (value : string) : outcome unit Price :=
  let clean_value := strip_underscores value in
  d ← ok_or (if has_exponent clean_value then from_scientific clean_value
             else from_str clean_value) tt;
  match price_from_decimal_dp d (wrap U8 (dec_scale d)) with
  | Ok p => Ok p
  | Err _ => Err tt
  | Panic => Panic
  end.
End Decimals.

(* ------------------------------------------------------------------ *)
(** ** Lemmas *)

(** The limits are symmetric and strictly inside the integer type, so the two
    sentinels are outside the valid range. *)
Lemma price_limits :
  PRICE_RAW_MIN = - PRICE_RAW_MAX /\ 0 < PRICE_RAW_MAX < PRICE_UNDEF /\
  PRICE_ERROR < PRICE_RAW_MIN.
Proof.
  unfold PRICE_RAW_MIN, PRICE_RAW_MAX, PRICE_UNDEF, PRICE_ERROR, PRICE_MAX, PRICE_MIN,
    FIXED_SCALAR, PriceRaw.
  destruct high_precision; vm_compute; repeat split.
Qed.

Lemma price_raw_in_range_spec raw :
  price_raw_in_range raw = true <-> PRICE_RAW_MIN <= raw <= PRICE_RAW_MAX.
Proof. unfold price_raw_in_range. rewrite andb_true_iff, !Z.leb_le. tauto. Qed.

Lemma price_in_range_in_ty raw :
  PRICE_RAW_MIN <= raw <= PRICE_RAW_MAX -> in_ty PriceRaw raw = true.
Proof.
  intros H. pose proof price_limits. unfold PRICE_UNDEF, PRICE_ERROR in *.
  apply in_ty_spec. lia.
Qed.

Lemma price_raw_not_sentinel raw :
  PRICE_RAW_MIN <= raw <= PRICE_RAW_MAX -> raw <> PRICE_UNDEF /\ raw <> PRICE_ERROR.
Proof. pose proof price_limits. lia. Qed.

(** The state of a price that is not a sentinel. *)
Definition price_valid (p : Price) : Prop :=
  PRICE_RAW_MIN <= p_raw p <= PRICE_RAW_MAX /\
  0 <= p_precision p <= (if defi then WEI_PRECISION else FIXED_PRECISION).

Lemma max_precision_bound : (if defi then WEI_PRECISION else FIXED_PRECISION) <= 18.
Proof. pose proof fixed_precision_bounds. unfold WEI_PRECISION. destruct defi; lia. Qed.

Lemma price_valid_not_sentinel p : price_valid p -> price_is_sentinel p = false.
Proof.
  intros [Hr Hp]. pose proof max_precision_bound.
  destruct (price_raw_not_sentinel _ Hr). unfold price_is_sentinel.
  rewrite !orb_false_iff, !Z.eqb_neq. lia.
Qed.

Lemma price_checked_add_Some a b c :
  price_checked_add a b = Some c ->
  raw_scales_match (p_precision a) (p_precision b) = true /\
  c = mkPrice (p_raw a + p_raw b) (Z.max (p_precision a) (p_precision b)) /\
  PRICE_RAW_MIN <= p_raw c <= PRICE_RAW_MAX.
Proof.
  unfold price_checked_add. destruct (_ || _); [done|].
  destruct raw_scales_match; [|done]. simpl.
  destruct (checked _ _) as [r|] eqn:E; simpl; [|done].
  apply checked_Some in E as [-> _].
  destruct (_ || _) eqn:Hb; [done|]. bool_simpl. intros [= <-]. simpl. auto.
Qed.

Lemma raw_scales_match_max a b :
  raw_scales_match a b = true -> raw_scales_match (Z.max a b) b = true.
Proof. unfold raw_scales_match. rewrite !Z.eqb_eq. lia. Qed.

(** A power of ten of the price type is exact. *)
Lemma pow10_wrap_price e : 0 <= e <= FIXED_PRECISION -> pow10_wrap PriceRaw e = 10 ^ e.
Proof.
  intros He. apply wrap_id, in_ty_spec.
  assert (0 < 10 ^ e <= 10 ^ FIXED_PRECISION).
  { split; [apply pow10_pos; lia|apply Z.pow_le_mono_r; lia]. }
  assert (10 ^ FIXED_PRECISION <= imax PriceRaw)
    by (unfold FIXED_PRECISION, PriceRaw; destruct high_precision; vm_compute; congruence).
  pose proof (imin_le_imax PriceRaw). lia.
Qed.

(** Digits below the price's own precision: [FIXED_PRECISION - precision],
    none above the fixed precision. *)
Definition spare_digits (precision : Z) : Z := Z.max 0 (FIXED_PRECISION - precision).

Lemma spare_digits_saturate precision :
  0 <= precision -> saturate U8 (FIXED_PRECISION - precision) = spare_digits precision.
Proof.
  intros. pose proof fixed_precision_bounds.
  unfold saturate, spare_digits. change (imin U8) with 0. change (imax U8) with 255. lia.
Qed.

Section DecimalFacts.
Context {Dec : Type} `{DecimalLaws Dec}.

Lemma price_as_decimal_Ok {E} p d :
  0 <= p_precision p -> (10 ^ spare_digits (p_precision p) | p_raw p) ->
  price_as_decimal (E := E) p = Ok d ->
  p_raw p = dec_mantissa d * 10 ^ spare_digits (p_precision p) /\
  dec_scale d = p_precision p.
Proof.
  intros Hp Hdiv. pose proof fixed_precision_bounds.
  assert (0 <= spare_digits (p_precision p) <= FIXED_PRECISION)
    by (unfold spare_digits; lia).
  unfold price_as_decimal. rewrite spare_digits_saturate, pow10_wrap_price by lia.
  destruct Hdiv as [k Hk]. pose proof (pow10_pos (spare_digits (p_precision p))).
  rewrite Hk, Z.quot_mul by lia.
  destruct (dec_fits k (p_precision p)) eqn:Hf.
  - destruct (dec_from_ok (E := E) k _ Hf) as (d' & -> & <- & <-).
    intros [= <-]. auto.
  - by rewrite dec_from_panic.
Qed.

Lemma dec_scale_i8 d : wrap I8 (- wrap I8 (dec_scale d)) = - dec_scale d.
Proof.
  pose proof (dec_bounds d) as Hb. unfold dec_fits in Hb. bool_simpl.
  rewrite (wrap_id I8 (dec_scale d)), wrap_id; [done|..];
    apply in_ty_spec; change (imin I8) with (-128); change (imax I8) with 127; lia.
Qed.

Lemma dec_mantissa_i128 d : in_ty I128 (dec_mantissa d) = true.
Proof.
  pose proof (dec_bounds d) as Hb. unfold dec_fits in Hb. bool_simpl.
  apply in_ty_spec. change (imin I128) with (- 2 ^ 127).
  change (imax I128) with (2 ^ 127 - 1).
  assert (2 ^ 96 < 2 ^ 127) by reflexivity. lia.
Qed.

(** A mantissa whose scale is the precision itself is only rescaled. *)
Lemma mantissa_exponent_same_scale m p :
  in_ty I128 m = true -> 0 <= p <= (if defi then WEI_PRECISION else FIXED_PRECISION) ->
  in_ty I128 (m * 10 ^ spare_digits p) = true ->
  mantissa_exponent_to_fixed_i128 m (- p) p = Ok (m * 10 ^ spare_digits p).
Proof.
  intros Hm Hp Hr. pose proof fixed_precision_bounds. pose proof max_precision_bound.
  unfold mantissa_exponent_to_fixed_i128.
  rewrite (proj2 (check_fixed_precision_Ok p tt)) by lia. simpl.
  replace (p <? - - p) with false by lia. rewrite Z.opp_involutive, Z.min_id.
  replace (38 <? Z.max FIXED_PRECISION p - p) with false by lia. simpl.
  replace (Z.max FIXED_PRECISION p - p) with (spare_digits p)
    by (unfold spare_digits; lia).
  replace (0 <=? spare_digits p) with true by (unfold spare_digits; lia).
  apply ok_or_Ok, checked_Some. auto.
Qed.
End DecimalFacts.

(* ------------------------------------------------------------------ *)
(** ** Properties *)

(** for valid prices a checked addition that succeeds is exact, stays
    valid, agrees with the panicking [+], and is undone by checked subtraction
    (up to the wider precision of the sum). *)
Theorem price_checked_arith (a b c : Price) :
  price_valid a -> price_valid b -> price_checked_add a b = Some c ->
  price_valid c /\ p_raw c = p_raw a + p_raw b /\
  price_add (E := Empty_set) a b = Ok c /\
  price_checked_sub c b = Some (mkPrice (p_raw a) (p_precision c)).
Proof.
  intros Ha Hb Hc. apply price_checked_add_Some in Hc as (Hm & -> & Hr). simpl in *.
  assert (Hv : price_valid (mkPrice (p_raw a + p_raw b)
                              (Z.max (p_precision a) (p_precision b)))).
  { destruct Ha, Hb. split; simpl; lia. }
  split_and!; [done..| |].
  - unfold price_add. unfold checked. by rewrite price_in_range_in_ty.
  - unfold price_checked_sub. rewrite !price_valid_not_sentinel by done. simpl.
    rewrite raw_scales_match_max by done. simpl.
    replace (p_raw a + p_raw b - p_raw b) with (p_raw a) by lia.
    destruct Ha as [Ha _]. unfold checked. rewrite price_in_range_in_ty by done. simpl.
    replace (p_raw a <? PRICE_RAW_MIN) with false by lia.
    replace (PRICE_RAW_MAX <? p_raw a) with false by lia. simpl.
    do 2 f_equal. lia.
Qed.

(** [from_raw] panics exactly where [from_raw_checked] returns an error, and
    builds the same price otherwise; what they build is valid or a sentinel. *)
Theorem price_from_raw_agrees (raw precision : Z) :
  price_from_raw (E := CorrectnessError) raw precision
    = unwrap_ok (price_from_raw_checked raw precision) /\
  forall p, price_from_raw_checked raw precision = Ok p ->
    p = mkPrice raw precision /\
    (raw = PRICE_ERROR \/ raw = PRICE_UNDEF /\ precision = 0 \/
     PRICE_RAW_MIN <= raw <= PRICE_RAW_MAX).
Proof.
  unfold price_from_raw, price_from_raw_checked.
  destruct (price_raw_in_range raw) eqn:Hr.
  - apply price_raw_in_range_spec in Hr. destruct (price_raw_not_sentinel raw Hr).
    rewrite (proj2 (Z.eqb_neq raw PRICE_UNDEF)), orb_true_r by done. simpl.
    replace (raw <? PRICE_RAW_MIN) with false by lia.
    replace (PRICE_RAW_MAX <? raw) with false by lia.
    rewrite andb_false_r. simpl. split.
    + by destruct (check_fixed_precision precision).
    + intros p Hp. outcome_inv. auto.
  - assert (Hout : (raw <? PRICE_RAW_MIN) || (PRICE_RAW_MAX <? raw) = true).
    { unfold price_raw_in_range in Hr. apply andb_false_iff in Hr.
      rewrite orb_true_iff, !Z.ltb_lt. destruct Hr; bool_simpl; auto. }
    rewrite Hout. rewrite orb_false_r, andb_true_r.
    destruct (Z.eqb_spec raw PRICE_UNDEF) as [Hu|Hu];
      destruct (Z.eqb_spec raw PRICE_ERROR) as [He|He]; simpl;
      try (destruct (Z.eqb_spec precision 0)); simpl; split; try done;
      try (by destruct (check_fixed_precision precision));
      intros p Hp; outcome_inv; auto.
Qed.

(** a valid price without digits beyond its precision whose rescaled value
    fits a decimal survives conversion to [Decimal] and back unchanged. *)
Theorem price_decimal_roundtrip {Dec : Type} `{DecimalLaws Dec} (p : Price) :
  price_valid p -> (10 ^ spare_digits (p_precision p) | p_raw p) ->
  dec_fits (Z.quot (p_raw p) (10 ^ spare_digits (p_precision p))) (p_precision p) = true ->
  exists d : Dec, price_as_decimal (E := CorrectnessError) p = Ok d /\
                  price_from_decimal d = Ok p.
Proof.
  intros [Hr Hp] Hdiv Hfit. pose proof max_precision_bound. pose proof fixed_precision_bounds.
  destruct (price_as_decimal (E := CorrectnessError) p) as [d|e|] eqn:Hd.
  2,3: exfalso; unfold price_as_decimal in Hd;
    rewrite spare_digits_saturate, pow10_wrap_price in Hd by (unfold spare_digits; lia);
    destruct (dec_from_ok (E := CorrectnessError) _ _ Hfit) as (? & E & _); congruence.
  exists d. split; [done|].
  apply price_as_decimal_Ok in Hd as [Hm Hs]; [|lia|done].
  unfold price_from_decimal, price_from_decimal_dp. rewrite dec_scale_i8, Hs.
  rewrite wrap_id by (apply in_ty_spec; change (imin U8) with 0;
                      change (imax U8) with 255; lia).
  assert (Hrange : in_ty PriceRaw (p_raw p) = true) by by apply price_in_range_in_ty.
  rewrite mantissa_exponent_same_scale; [| apply dec_mantissa_i128 | done |].
  2: { rewrite <- Hm. revert Hrange. unfold PriceRaw.
       destruct high_precision; [done|]. rewrite !in_ty_spec.
       assert (imin I128 <= imin I64 /\ imax I64 <= imax I128)
         by (vm_compute; split; congruence). lia. }
  simpl. rewrite <- Hm. unfold checked. rewrite Hrange. simpl.
  rewrite (proj2 (price_raw_in_range_spec _) Hr). simpl. by destruct p.
Qed.

(** in the high-precision builds a valid price at the fixed precision whose
    raw value needs more than 96 bits cannot be converted to [Decimal]: the
    conversion (and with it the display) panics. *)
Theorem price_as_decimal_panics {Dec : Type} `{DecimalLaws Dec} {E} (p : Price) :
  high_precision = true -> p_precision p = FIXED_PRECISION -> 2 ^ 96 <= Z.abs (p_raw p) ->
  price_as_decimal (Dec := Dec) (E := E) p = Panic.
Proof.
  intros Hh Hp Hb. pose proof fixed_precision_bounds.
  unfold price_as_decimal. rewrite spare_digits_saturate by lia.
  unfold spare_digits. rewrite Hp, Z.sub_diag, Z.max_id.
  rewrite pow10_wrap_price by lia. rewrite Z.pow_0_r, Z.quot_1_r.
  apply dec_from_panic. unfold dec_fits.
  replace (Z.abs (p_raw p) <? 2 ^ 96) with false; [done|]. symmetry. by apply Z.ltb_ge.
Qed.
End Price.

(** Prices that are equal in the sense of the code: same raw value. *)
#[export] Instance price_equiv : Equiv Price := fun a b => p_raw a = p_raw b.
#[export] Instance price_equivalence : Equivalence (≡@{Price}).
Proof.
  split; unfold equiv, price_equiv; [by intros ?|by intros ???|intros ?????]; congruence.
Qed.
#[export] Instance price_eq_dec : EqDecision Price.
Proof. solve_decision. Defined.

(** A decimal library that satisfies the interface: mantissa and scale as a
    pair. *)
#[export] Instance pair_decimal : DecimalApi (Z * Z) := {|
  dec_mantissa d := if dec_fits d.1 d.2 then d.1 else 0;
  dec_scale d := if dec_fits d.1 d.2 then d.2 else 0;
  dec_from_i128_with_scale E m s := if dec_fits m s then Ok (m, s) else Panic;
|}.
#[export] Instance pair_decimal_laws : DecimalLaws (Z * Z).
Proof.
  split.
  - intros [m s]. simpl. by destruct (dec_fits m s) eqn:?.
  - intros E m s Hf. exists (m, s). simpl. by rewrite Hf.
  - intros E m s Hf. simpl. by rewrite Hf.
Qed.

Example price_checked_arith_witness :
  price_checked_sub (M := standard_mode) (mkPrice 3750000000 2) (mkPrice 2500000000 1)
    = Some (mkPrice 1250000000 2).
Proof.
  apply (price_checked_arith (M := standard_mode) (mkPrice 1250000000 2)
           (mkPrice 2500000000 1) (mkPrice 3750000000 2)); [split; split; vm_compute; congruence..|].
  reflexivity.
Defined.

Example price_decimal_witness :
  exists d : Z * Z,
    price_as_decimal (M := standard_mode) (E := CorrectnessError) (mkPrice 1250000000 2) = Ok d /\
    price_from_decimal (M := standard_mode) d = Ok (mkPrice 1250000000 2).
Proof.
  apply (price_decimal_roundtrip (M := standard_mode) (mkPrice 1250000000 2));
    [split; split; vm_compute; congruence|exists 125; reflexivity|reflexivity].
Defined.

Example price_as_decimal_panics_witness :
  price_as_decimal (M := high_precision_mode) (Dec := Z * Z) (E := Empty_set)
    (mkPrice (PRICE_RAW_MAX (M := high_precision_mode)) 16) = Panic.
Proof.
  apply (price_as_decimal_panics (M := high_precision_mode));
    [reflexivity|reflexivity|vm_compute; congruence].
Defined.
