(* ===== verification/Quantity.v ===== *)
(** * Quantities ([crates/model/src/types/quantity.rs])

    A non-negative raw fixed-point integer with a display precision; equality
    and order look at the raw value only. *)

From stdpp Require Import base numbers list strings.
From Stdlib Require Import ZArith Lia.
From S2P Require Import Prelude F64 Fixed Price.

Record Quantity : Type := mkQty { q_raw : Z; q_precision : Z }.

Section Quantity.
Context `{M : Mode}.

(** [QuantityRaw] *)
Definition QuantityRaw : int_ty := if high_precision then U128 else U64.

Definition QUANTITY_MAX : f64 :=
  F64.of_Z (if high_precision then 34028236692093 else 18446744073).
Definition QUANTITY_MIN : f64 := F64.of_Z 0.
Definition QUANTITY_RAW_MAX : Z :=
  F64.to_int QuantityRaw (F64.mul QUANTITY_MAX FIXED_SCALAR).
Definition QUANTITY_UNDEF : Z := imax QuantityRaw.

Definition qty_new_checked (value : f64) (precision : Z) : CorrectnessResult Quantity :=
  _ ← check_in_range_inclusive_f64 value QUANTITY_MIN QUANTITY_MAX;
  _ ← err_if (defi && (MAX_FLOAT_PRECISION <? precision)) PredicateViolation;
  _ ← check_fixed_precision precision;
  raw ← (if high_precision then f64_to_fixed_u128 value precision
         else f64_to_fixed_u64 value precision);
  Ok (mkQty raw precision).

(** [10.0.powi(precision)] is the exact power for every admissible precision. *)
Definition qty_non_zero_checked (value : f64) (precision : Z) : CorrectnessResult Quantity :=
  _ ← check_predicate_true (negb (F64.eqb value F64.zero));
  _ ← check_fixed_precision precision;
  let p := F64.of_Z (10 ^ precision) in
  let rounded_value := F64.div (F64.round (F64.mul value p)) p in
  _ ← check_predicate_true (negb (F64.eqb rounded_value F64.zero));
  qty_new_checked value precision.

Definition qty_new {E} (value : f64) (precision : Z) : outcome E Quantity :=
  unwrap_ok (qty_new_checked value precision).
Definition qty_non_zero {E} (value : f64) (precision : Z) : outcome E Quantity :=
  unwrap_ok (qty_non_zero_checked value precision).

Definition qty_from_raw {E} (raw precision : Z) : outcome E Quantity :=
  _ ← assert_ ((raw =? QUANTITY_UNDEF) || (raw <=? QUANTITY_RAW_MAX));
  _ ← (if raw =? QUANTITY_UNDEF then assert_ (precision =? 0) else Ok tt);
  _ ← unwrap_ok (check_fixed_precision precision);
  Ok (mkQty raw precision).

Definition qty_from_raw_checked (raw precision : Z) : CorrectnessResult Quantity :=
  _ ← err_if ((raw =? QUANTITY_UNDEF) && negb (precision =? 0)) PredicateViolation;
  _ ← err_if (negb (raw =? QUANTITY_UNDEF) && (QUANTITY_RAW_MAX <? raw)) PredicateViolation;
  _ ← check_fixed_precision precision;
  Ok (mkQty raw precision).

Definition qty_checked_add (a b : Quantity) : option Quantity :=
  if (q_raw a =? QUANTITY_UNDEF) || (q_raw b =? QUANTITY_UNDEF) then None
  else if negb (raw_scales_match (q_precision a) (q_precision b)) then None
  else
    raw ← checked QuantityRaw (q_raw a + q_raw b);
    if QUANTITY_RAW_MAX <? raw then None
    else Some (mkQty raw (Z.max (q_precision a) (q_precision b))).

Definition qty_checked_sub (a b : Quantity) : option Quantity :=
  if (q_raw a =? QUANTITY_UNDEF) || (q_raw b =? QUANTITY_UNDEF) then None
  else if negb (raw_scales_match (q_precision a) (q_precision b)) then None
  else
    raw ← checked QuantityRaw (q_raw a - q_raw b);
    Some (mkQty raw (Z.max (q_precision a) (q_precision b))).

Definition qty_saturating_sub (a b : Quantity) : Quantity :=
  let precision := Z.max (q_precision a) (q_precision b) in
  let raw := saturate QuantityRaw (q_raw a - q_raw b) in
  mkQty raw precision.

Definition qty_zero {E} (precision : Z) : outcome E Quantity :=
  _ ← unwrap_ok (check_fixed_precision precision);
  qty_new F64.zero precision.

Definition qty_is_undefined (q : Quantity) : bool := q_raw q =? QUANTITY_UNDEF.
Definition qty_is_zero (q : Quantity) : bool := q_raw q =? 0.
Definition qty_is_positive (q : Quantity) : bool :=
  negb (q_raw q =? QUANTITY_UNDEF) && (0 <? q_raw q).

Definition qty_as_f64 {E} (q : Quantity) : outcome E f64 :=
  _ ← assert_ (negb (defi && (MAX_FLOAT_PRECISION <? q_precision q)));
  Ok (if high_precision then fixed_u128_to_f64 (q_raw q) else fixed_u64_to_f64 (q_raw q)).

Definition qty_eqb (a b : Quantity) : bool := q_raw a =? q_raw b.
Definition qty_ltb (a b : Quantity) : bool := q_raw a <? q_raw b.
Definition qty_leb (a b : Quantity) : bool := q_raw a <=? q_raw b.
Definition qty_gtb (a b : Quantity) : bool := q_raw b <? q_raw a.
Definition qty_geb (a b : Quantity) : bool := q_raw b <=? q_raw a.
Definition qty_cmp (a b : Quantity) : comparison := Z.compare (q_raw a) (q_raw b).

Definition qty_add {E} (a b : Quantity) : outcome E Quantity :=
  raw ← expect (checked QuantityRaw (q_raw a + q_raw b));
  Ok (mkQty raw (Z.max (q_precision a) (q_precision b))).
Definition qty_sub {E} (a b : Quantity) : outcome E Quantity :=
  raw ← expect (checked QuantityRaw (q_raw a - q_raw b));
  Ok (mkQty raw (Z.max (q_precision a) (q_precision b))).

(** The product of two raw values carries the scale twice; it is divided by
    [FIXED_SCALAR as QuantityRaw]. *)
Definition qty_mul {E} (a b : Quantity) : outcome E Quantity :=
  result_raw ← expect (checked QuantityRaw (q_raw a * q_raw b));
  Ok (mkQty (Z.quot result_raw (F64.to_int QuantityRaw FIXED_SCALAR))
        (Z.max (q_precision a) (q_precision b))).

Definition qty_from_mantissa_exponent {E} (mantissa exponent precision : Z)
  : outcome E Quantity :=
  _ ← unwrap_ok (check_fixed_precision precision);
  if mantissa =? 0 then Ok (mkQty 0 precision)
  else
    raw_i128 ← unwrap_ok (mantissa_exponent_to_fixed_i128 mantissa exponent precision);
    raw ← expect (checked QuantityRaw raw_i128);
    _ ← assert_ (raw <=? QUANTITY_RAW_MAX);
    Ok (mkQty raw precision).

(** [from_u256] (defi builds): the amount is a 256-bit unsigned integer. *)
Definition qty_from_u256 (amount precision : Z) : CorrectnessResult Quantity :=
  scaled_amount ← (if precision <? FIXED_PRECISION
                   then ok_or (checked U256 (amount * 10 ^ (FIXED_PRECISION - precision)))
                          PredicateViolation
                   else Ok amount);
  raw ← ok_or (checked QuantityRaw scaled_amount) PredicateViolation;
  qty_from_raw_checked raw precision.

Definition qty_from_i32 {E} (value : Z) : outcome E Quantity :=
  _ ← assert_ (0 <=? value); qty_new (F64.of_Z value) 0.
Definition qty_from_i64 {E} (value : Z) : outcome E Quantity :=
  _ ← assert_ (0 <=? value); qty_new (F64.of_Z value) 0.
Definition qty_from_u32 {E} (value : Z) : outcome E Quantity := qty_new (F64.of_Z value) 0.
Definition qty_from_u64 {E} (value : Z) : outcome E Quantity := qty_new (F64.of_Z value) 0.

Definition check_positive_quantity (value : Quantity) : CorrectnessResult unit :=
  err_if (negb (qty_is_positive value)) NotPositive.

Section Decimals.
Context {Dec : Type} `{DecimalApi Dec}.

Definition qty_as_decimal {E} (q : Quantity) : outcome E Dec :=
  let precision_diff := saturate U8 (FIXED_PRECISION - q_precision q) in
  let rescaled_raw := Z.quot (q_raw q) (pow10_wrap QuantityRaw precision_diff) in
  dec_from_i128_with_scale (wrap I128 rescaled_raw) (q_precision q).

Definition qty_from_decimal_dp (d : Dec) (precision : Z) : CorrectnessResult Quantity :=
  _ ← err_if (dec_mantissa d <? 0) PredicateViolation;
  let exponent := wrap I8 (- wrap I8 (dec_scale d)) in
  raw_i128 ← mantissa_exponent_to_fixed_i128 (dec_mantissa d) exponent precision;
  raw ← ok_or (checked QuantityRaw raw_i128) PredicateViolation;
  _ ← err_if (QUANTITY_RAW_MAX <? raw) PredicateViolation;
  Ok (mkQty raw precision).

Definition qty_from_decimal (d : Dec) : CorrectnessResult Quantity :=
  qty_from_decimal_dp d (wrap U8 (dec_scale d)).

Definition qty_from_str (from_str from_scientific : string -> option Dec)
    (value : string) : outcome unit Quantity :=
  let clean_value := strip_underscores value in
  d ← ok_or (if has_exponent clean_value then from_scientific clean_value
             else from_str clean_value) tt;
  match qty_from_decimal_dp d (wrap U8 (dec_scale d)) with
  | Ok q => Ok q
  | Err _ => Err tt
  | Panic => Panic
  end.
End Decimals.

(* ------------------------------------------------------------------ *)
(** ** Lemmas *)

Lemma qty_limits : 0 < QUANTITY_RAW_MAX < QUANTITY_UNDEF /\ imin QuantityRaw = 0.
Proof.
  unfold QUANTITY_RAW_MAX, QUANTITY_UNDEF, QUANTITY_MAX, FIXED_SCALAR, QuantityRaw.
  destruct high_precision; vm_compute; repeat split.
Qed.

Lemma qty_in_ty raw : in_ty QuantityRaw raw = true <-> 0 <= raw <= QUANTITY_UNDEF.
Proof. rewrite in_ty_spec. destruct qty_limits as [_ ->]. done. Qed.

(** A quantity that is not the undefined sentinel. *)
Definition qty_valid (q : Quantity) : Prop :=
  0 <= q_raw q <= QUANTITY_RAW_MAX /\
  0 <= q_precision q <= (if defi then WEI_PRECISION else FIXED_PRECISION).

Lemma qty_valid_not_undef q : qty_valid q -> (q_raw q =? QUANTITY_UNDEF) = false.
Proof. intros [Hr _]. pose proof qty_limits. apply Z.eqb_neq. lia. Qed.

Lemma qty_valid_in_ty q : qty_valid q -> in_ty QuantityRaw (q_raw q) = true.
Proof. intros [Hr _]. pose proof qty_limits. apply qty_in_ty. lia. Qed.

Lemma qty_saturating_sub_raw a b :
  0 <= q_raw a <= QUANTITY_UNDEF -> 0 <= q_raw b ->
  q_raw (qty_saturating_sub a b) = Z.max 0 (q_raw a - q_raw b).
Proof.
  intros. simpl. unfold saturate. destruct qty_limits as [_ ->].
  unfold QUANTITY_UNDEF in *. lia.
Qed.

Lemma qty_is_positive_spec q :
  qty_is_positive q = true <-> q_raw q <> QUANTITY_UNDEF /\ 0 < q_raw q.
Proof.
  unfold qty_is_positive. rewrite andb_true_iff, negb_true_iff, Z.eqb_neq, Z.ltb_lt. done.
Qed.

Lemma qty_checked_sub_Some a b c :
  qty_checked_sub a b = Some c ->
  raw_scales_match (q_precision a) (q_precision b) = true /\ q_raw b <= q_raw a /\
  c = mkQty (q_raw a - q_raw b) (Z.max (q_precision a) (q_precision b)).
Proof.
  unfold qty_checked_sub. destruct (_ || _); [done|].
  destruct raw_scales_match; [|done]. simpl.
  destruct (checked _ _) as [r|] eqn:E; simpl; [|done].
  apply checked_Some in E as [-> Hin]. apply qty_in_ty in Hin. intros [= <-].
  split_and!; [done|lia|done].
Qed.

(** Zero is exactly zero at every precision up to the fixed one. *)
Lemma f64_zero_to_fixed t p :
  0 <= p <= FIXED_PRECISION ->
  F64.to_int t (F64.round (F64.mul F64.zero (F64.of_Z (pow10_wrap t p)))) = 0.
Proof.
  intros Hp. pose proof fixed_precision_bounds.
  rewrite <- (Z2Nat.id p) by lia.
  assert (Hn : (Z.to_nat p <= 16)%nat) by lia. revert Hn.
  generalize (Z.to_nat p) as n. clear.
  do 17 (intros [|n]; [intros _; destruct t; vm_compute; reflexivity|revert n]). lia.
Qed.

Lemma f64_to_fixed_zero {E} t p :
  0 <= p <= FIXED_PRECISION -> f64_to_fixed (E := E) t F64.zero p = Ok 0.
Proof.
  intros Hp. unfold f64_to_fixed. pose proof fixed_precision_bounds.
  rewrite (proj2 (check_fixed_precision_Ok p tt)).
  - osimpl. rewrite f64_zero_to_fixed, Z.mul_0_l, wrap_0 by done. done.
  - unfold WEI_PRECISION. destruct defi; lia.
Qed.

Lemma qty_zero_in_range :
  check_in_range_inclusive_f64 F64.zero QUANTITY_MIN QUANTITY_MAX = Ok tt.
Proof.
  unfold QUANTITY_MIN, QUANTITY_MAX. destruct high_precision; vm_compute; reflexivity.
Qed.

Lemma qty_zero_Ok {E} p : 0 <= p <= FIXED_PRECISION -> qty_zero (E := E) p = Ok (mkQty 0 p).
Proof.
  intros Hp. pose proof fixed_precision_bounds.
  unfold qty_zero, qty_new, qty_new_checked. rewrite qty_zero_in_range.
  rewrite (proj2 (check_fixed_precision_Ok p tt))
    by (unfold WEI_PRECISION; destruct defi; lia). osimpl.
  replace (MAX_FLOAT_PRECISION <? p) with false by (unfold MAX_FLOAT_PRECISION; lia).
  rewrite andb_false_r. osimpl.
  unfold f64_to_fixed_u128, f64_to_fixed_u64.
  destruct high_precision; by rewrite f64_to_fixed_zero.
Qed.

(** Zero at a precision the conversion from a float admits, a panic above. *)
Lemma qty_zero_eval {E} (p : Z) :
  0 <= p ->
  qty_zero (E := E) p = if p <=? FIXED_PRECISION then Ok (mkQty 0 p) else Panic.
Proof.
  intros Hp. destruct (Z.leb_spec p FIXED_PRECISION); [by apply qty_zero_Ok|].
  unfold qty_zero, qty_new, qty_new_checked. rewrite qty_zero_in_range. osimpl.
  unfold check_fixed_precision. destruct defi eqn:Hd.
  - assert (FIXED_PRECISION = 16) as HF
      by (unfold FIXED_PRECISION; by rewrite (defi_high_precision Hd)).
    replace (MAX_FLOAT_PRECISION <? p) with true by (unfold MAX_FLOAT_PRECISION; lia).
    by destruct (WEI_PRECISION <? p).
  - by replace (FIXED_PRECISION <? p) with true by lia.
Qed.

(* ------------------------------------------------------------------ *)
(** ** Properties *)

(** for valid quantities a checked subtraction succeeds exactly when the
    raw scales match and the subtrahend is not larger; it is then exact, stays
    valid, agrees with the panicking [-] and with the saturating one, and
    checked addition restores the minuend. *)
Theorem qty_checked_sub_correct (a b : Quantity) :
  qty_valid a -> qty_valid b ->
  (is_Some (qty_checked_sub a b) <->
   raw_scales_match (q_precision a) (q_precision b) = true /\ q_raw b <= q_raw a) /\
  forall c, qty_checked_sub a b = Some c ->
    qty_valid c /\ q_raw c = q_raw a - q_raw b /\
    qty_sub (E := Empty_set) a b = Ok c /\ qty_saturating_sub a b = c /\
    qty_checked_add c b = Some (mkQty (q_raw a) (q_precision c)).
Proof.
  intros Ha Hb. pose proof qty_limits as [Hlim _].
  pose proof (qty_valid_not_undef a Ha) as Ua. pose proof (qty_valid_not_undef b Hb) as Ub.
  destruct (Ha) as [Ra Pa], (Hb) as [Rb Pb]. split.
  - split.
    + intros [c Hc]. apply qty_checked_sub_Some in Hc. tauto.
    + intros [Hm Hle]. unfold qty_checked_sub, checked. rewrite Ua, Ub, Hm. simpl.
      rewrite (proj2 (qty_in_ty _)) by lia. simpl. eauto.
  - intros c Hc. apply qty_checked_sub_Some in Hc as (Hm & Hle & ->). simpl.
    assert (Hin : in_ty QuantityRaw (q_raw a - q_raw b) = true) by (apply qty_in_ty; lia).
    split_and!; [split; simpl; lia|done| | |].
    + unfold qty_sub, checked. by rewrite Hin.
    + unfold qty_saturating_sub. by rewrite saturate_id.
    + unfold qty_checked_add, checked. simpl.
      replace (q_raw a - q_raw b =? QUANTITY_UNDEF) with false by lia.
      rewrite Ub, raw_scales_match_max by done. simpl.
      replace (q_raw a - q_raw b + q_raw b) with (q_raw a) by lia.
      rewrite (proj2 (qty_in_ty _)) by lia. simpl.
      replace (QUANTITY_RAW_MAX <? q_raw a) with false by lia. do 2 f_equal. lia.
Qed.

(** [Quantity::zero] returns an exact zero for every precision up to
    [FIXED_PRECISION] and panics above it, also for the 17 and 18 digit
    precisions that [check_fixed_precision] admits in a defi build. *)
Theorem qty_zero_correct {E} (p : Z) :
  0 <= p ->
  qty_zero (E := E) p = if p <=? FIXED_PRECISION then Ok (mkQty 0 p) else Panic.
Proof. apply qty_zero_eval. Qed.
End Quantity.

#[export] Instance qty_equiv : Equiv Quantity := fun a b => q_raw a = q_raw b.
#[export] Instance qty_equivalence : Equivalence (≡@{Quantity}).
Proof.
  split; unfold equiv, qty_equiv; [by intros ?|by intros ???|intros ?????]; congruence.
Qed.
#[export] Instance qty_eq_dec : EqDecision Quantity.
Proof. solve_decision. Defined.

Example qty_checked_sub_witness :
  qty_sub (M := standard_mode) (E := Empty_set) (mkQty 5000000000 0) (mkQty 1500000000 1)
    = Ok (mkQty 3500000000 1).
Proof.
  apply (qty_checked_sub_correct (M := standard_mode) (mkQty 5000000000 0)
           (mkQty 1500000000 1)); [split; split; vm_compute; congruence..|reflexivity].
Defined.

Example qty_zero_witness :
  qty_zero (M := defi_mode) (E := Empty_set) 18 = Panic /\
  qty_zero (M := standard_mode) (E := Empty_set) 2 = Ok (mkQty 0 2).
Proof.
  split; [apply (qty_zero_correct (M := defi_mode) 18)|
          apply (qty_zero_correct (M := standard_mode) 2)]; lia.
Defined.
