(* ===== verification/Money.v ===== *)
(** * Money and balances ([crates/model/src/types/money.rs], [currency.rs],
    [balance.rs])

    An amount of money is a raw fixed-point integer with a currency; arithmetic
    and comparison of amounts in different currencies panic.  An account
    balance splits a total into a locked and a free part. *)

From stdpp Require Import base numbers list strings gmap.
From Stdlib Require Import ZArith Lia.
From S2P Require Import Prelude F64 Fixed Price Quantity.

Inductive CurrencyType : Type := Crypto | Fiat | CommodityBacked.
#[export] Instance currency_type_eq_dec : EqDecision CurrencyType.
Proof. solve_decision. Defined.

Record Currency : Type := mkCurrency {
  c_code : string;
  c_precision : Z;
  c_iso4217 : Z;
  c_name : string;
  c_type : CurrencyType;
}.
#[export] Instance currency_eq_dec : EqDecision Currency.
Proof. solve_decision. Defined.

(** Currencies are equal when their codes are. *)
Definition currency_eqb (a b : Currency) : bool := bool_decide (c_code a = c_code b).

(** The global currency registry, keyed by code. *)
Definition currency_register (reg : gmap string Currency) (c : Currency) (overwrite : bool)
  : gmap string Currency :=
  if negb overwrite && bool_decide (is_Some (reg !! c_code c)) then reg
  else <[c_code c := c]> reg.
Definition currency_try_from_str (reg : gmap string Currency) (s : string) : option Currency :=
  reg !! s.

Record InstrumentId : Type := mkInstrumentId { i_symbol : string; i_venue : string }.
#[export] Instance instrument_id_eq_dec : EqDecision InstrumentId.
Proof. solve_decision. Defined.
#[export] Instance instrument_id_countable : Countable InstrumentId.
Proof.
  refine (inj_countable' (fun i => (i_symbol i, i_venue i)) (fun p => mkInstrumentId p.1 p.2) _).
  by intros [].
Defined.

Record Money : Type := mkMoney { m_raw : Z; m_currency : Currency }.

Section Money.
Context `{M : Mode}.

Definition MoneyRaw : int_ty := if high_precision then I128 else I64.
Definition MONEY_MAX : f64 :=
  F64.of_Z (if high_precision then 17014118346046 else 9223372036).
Definition MONEY_MIN : f64 :=
  F64.of_Z (if high_precision then -17014118346046 else -9223372036).
Definition MONEY_RAW_MAX : Z := F64.to_int MoneyRaw (F64.mul MONEY_MAX FIXED_SCALAR).
Definition MONEY_RAW_MIN : Z := F64.to_int MoneyRaw (F64.mul MONEY_MIN FIXED_SCALAR).

Definition money_new_checked (amount : f64) (currency : Currency) : CorrectnessResult Money :=
  _ ← check_in_range_inclusive_f64 amount MONEY_MIN MONEY_MAX;
  _ ← err_if (defi && (MAX_FLOAT_PRECISION <? c_precision currency)) PredicateViolation;
  raw ← (if high_precision then f64_to_fixed_i128 amount (c_precision currency)
         else f64_to_fixed_i64 amount (c_precision currency));
  Ok (mkMoney raw currency).

Definition money_new {E} (amount : f64) (currency : Currency) : outcome E Money :=
  unwrap_ok (money_new_checked amount currency).

Definition money_from_raw_checked (raw : Z) (currency : Currency) : CorrectnessResult Money :=
  _ ← err_if ((raw <? MONEY_RAW_MIN) || (MONEY_RAW_MAX <? raw)) PredicateViolation;
  _ ← check_fixed_precision (c_precision currency);
  Ok (mkMoney raw currency).

Definition money_from_raw {E} (raw : Z) (currency : Currency) : outcome E Money :=
  unwrap_ok (money_from_raw_checked raw currency).

Definition money_from_mantissa_exponent {E} (mantissa exponent : Z) (currency : Currency)
  : outcome E Money :=
  _ ← unwrap_ok (check_fixed_precision (c_precision currency));
  if mantissa =? 0 then Ok (mkMoney 0 currency)
  else
    raw_i128 ← unwrap_ok
      (mantissa_exponent_to_fixed_i128 mantissa exponent (c_precision currency));
    raw ← expect (checked MoneyRaw raw_i128);
    _ ← assert_ ((MONEY_RAW_MIN <=? raw) && (raw <=? MONEY_RAW_MAX));
    Ok (mkMoney raw currency).

Definition money_zero {E} (currency : Currency) : outcome E Money :=
  money_new F64.zero currency.

Definition money_normalized (m : Money) : Money :=
  mkMoney (if high_precision then correct_raw_i128 (m_raw m) (c_precision (m_currency m))
           else correct_raw_i64 (m_raw m) (c_precision (m_currency m)))
    (m_currency m).

Definition money_is_zero (m : Money) : bool := m_raw m =? 0.
Definition money_is_positive (m : Money) : bool := 0 <? m_raw m.

(** The currency assertion panics; the rest returns an option. *)
Definition money_checked_add {E} (a b : Money) : outcome E (option Money) :=
  _ ← assert_ (currency_eqb (m_currency a) (m_currency b));
  Ok (if negb (raw_scales_match (c_precision (m_currency a)) (c_precision (m_currency b)))
      then None
      else
        raw ← checked MoneyRaw (m_raw a + m_raw b);
        if (raw <? MONEY_RAW_MIN) || (MONEY_RAW_MAX <? raw) then None
        else Some (mkMoney raw (m_currency a))).

Definition money_checked_sub {E} (a b : Money) : outcome E (option Money) :=
  _ ← assert_ (currency_eqb (m_currency a) (m_currency b));
  Ok (if negb (raw_scales_match (c_precision (m_currency a)) (c_precision (m_currency b)))
      then None
      else
        raw ← checked MoneyRaw (m_raw a - m_raw b);
        if (raw <? MONEY_RAW_MIN) || (MONEY_RAW_MAX <? raw) then None
        else Some (mkMoney raw (m_currency a))).

Definition money_as_f64 {E} (m : Money) : outcome E f64 :=
  _ ← assert_ (negb (defi && (MAX_FLOAT_PRECISION <? c_precision (m_currency m))));
  Ok (if high_precision then fixed_i128_to_f64 (m_raw m) else fixed_i64_to_f64 (m_raw m)).

Definition money_eqb (a b : Money) : bool :=
  (m_raw a =? m_raw b) && currency_eqb (m_currency a) (m_currency b).
Definition money_ltb {E} (a b : Money) : outcome E bool :=
  _ ← assert_ (currency_eqb (m_currency a) (m_currency b)); Ok (m_raw a <? m_raw b).
Definition money_leb {E} (a b : Money) : outcome E bool :=
  _ ← assert_ (currency_eqb (m_currency a) (m_currency b)); Ok (m_raw a <=? m_raw b).
Definition money_gtb {E} (a b : Money) : outcome E bool :=
  _ ← assert_ (currency_eqb (m_currency a) (m_currency b)); Ok (m_raw b <? m_raw a).
Definition money_geb {E} (a b : Money) : outcome E bool :=
  _ ← assert_ (currency_eqb (m_currency a) (m_currency b)); Ok (m_raw b <=? m_raw a).
Definition money_cmp {E} (a b : Money) : outcome E comparison :=
  _ ← assert_ (currency_eqb (m_currency a) (m_currency b)); Ok (Z.compare (m_raw a) (m_raw b)).

Definition money_neg (m : Money) : Money :=
  mkMoney (wrap MoneyRaw (- m_raw m)) (m_currency m).
Definition money_add {E} (a b : Money) : outcome E Money :=
  _ ← assert_ (currency_eqb (m_currency a) (m_currency b));
  raw ← expect (checked MoneyRaw (m_raw a + m_raw b));
  Ok (mkMoney raw (m_currency a)).
Definition money_sub {E} (a b : Money) : outcome E Money :=
  _ ← assert_ (currency_eqb (m_currency a) (m_currency b));
  raw ← expect (checked MoneyRaw (m_raw a - m_raw b));
  Ok (mkMoney raw (m_currency a)).

Definition check_positive_money (value : Money) : CorrectnessResult unit :=
  err_if (m_raw value <=? 0) NotPositive.

(** ** Balances *)
Record AccountBalance : Type := mkBalance {
  ab_currency : Currency;
  ab_total : Money;
  ab_locked : Money;
  ab_free : Money;
}.

Definition account_balance_new_checked (total locked free : Money)
  : CorrectnessResult AccountBalance :=
  _ ← check_predicate_true (currency_eqb (m_currency total) (m_currency locked));
  _ ← check_predicate_true (currency_eqb (m_currency total) (m_currency free));
  sum ← money_add locked free;
  _ ← check_predicate_true (money_eqb total sum);
  Ok (mkBalance (m_currency total) total locked free).

Definition account_balance_new {E} (total locked free : Money) : outcome E AccountBalance :=
  unwrap_ok (account_balance_new_checked total locked free).

Record MarginBalance : Type := mkMargin {
  mb_initial : Money;
  mb_maintenance : Money;
  mb_currency : Currency;
  mb_instrument_id : option InstrumentId;
}.

Definition margin_balance_new_checked (initial maintenance : Money)
    (instrument_id : option InstrumentId) : CorrectnessResult MarginBalance :=
  _ ← check_predicate_true (currency_eqb (m_currency initial) (m_currency maintenance));
  Ok (mkMargin initial maintenance (m_currency initial) instrument_id).

Definition margin_balance_new {E} (initial maintenance : Money)
    (instrument_id : option InstrumentId) : outcome E MarginBalance :=
  unwrap_ok (margin_balance_new_checked initial maintenance instrument_id).

(** [x.clamp(lo, hi)] for [lo <= hi]. *)
Definition clamp (x lo hi : Z) : Z := Z.max lo (Z.min hi x).

Section Decimals.
Context {Dec : Type} `{DecimalApi Dec}.

Definition money_as_decimal {E} (m : Money) : outcome E Dec :=
  let precision := c_precision (m_currency m) in
  let precision_diff := saturate U8 (FIXED_PRECISION - precision) in
  let rescaled_raw := Z.quot (m_raw m) (pow10_wrap MoneyRaw precision_diff) in
  dec_from_i128_with_scale rescaled_raw precision.

Definition money_from_decimal (d : Dec) (currency : Currency) : CorrectnessResult Money :=
  let exponent := wrap I8 (- wrap I8 (dec_scale d)) in
  raw_i128 ← mantissa_exponent_to_fixed_i128 (dec_mantissa d) exponent (c_precision currency);
  raw ← ok_or (checked MoneyRaw raw_i128) PredicateViolation;
  _ ← err_if (negb ((MONEY_RAW_MIN <=? raw) && (raw <=? MONEY_RAW_MAX))) PredicateViolation;
  Ok (mkMoney raw currency).

Definition balance_from_total_and_locked (total locked : Dec) (currency : Currency)
  : CorrectnessResult AccountBalance :=
  total ← money_from_decimal total currency;
  locked ← money_from_decimal locked currency;
  let locked_raw := if 0 <=? m_raw total then clamp (m_raw locked) 0 (m_raw total)
                    else m_raw locked in
  clamped_locked ← money_from_raw locked_raw currency;
  free ← money_from_raw (wrap MoneyRaw (m_raw total - m_raw clamped_locked)) currency;
  account_balance_new total clamped_locked free.

Definition balance_from_total_and_free (total free : Dec) (currency : Currency)
  : CorrectnessResult AccountBalance :=
  total ← money_from_decimal total currency;
  free ← money_from_decimal free currency;
  let free_raw := if 0 <=? m_raw total then clamp (m_raw free) 0 (m_raw total)
                  else m_raw free in
  clamped_free ← money_from_raw free_raw currency;
  locked ← money_from_raw (wrap MoneyRaw (m_raw total - m_raw clamped_free)) currency;
  account_balance_new total locked clamped_free.
End Decimals.

(* ------------------------------------------------------------------ *)
(** ** Lemmas *)

Definition money_raw_in_range (raw : Z) : bool :=
  (MONEY_RAW_MIN <=? raw) && (raw <=? MONEY_RAW_MAX).

Lemma money_limits :
  MONEY_RAW_MIN = - MONEY_RAW_MAX /\ 0 < MONEY_RAW_MAX < imax MoneyRaw /\
  imin MoneyRaw = - imax MoneyRaw - 1.
Proof.
  unfold MONEY_RAW_MIN, MONEY_RAW_MAX, MONEY_MAX, MONEY_MIN, FIXED_SCALAR, MoneyRaw.
  destruct high_precision; vm_compute; repeat split.
Qed.

Lemma money_raw_in_range_spec raw :
  money_raw_in_range raw = true <-> MONEY_RAW_MIN <= raw <= MONEY_RAW_MAX.
Proof. unfold money_raw_in_range. rewrite andb_true_iff, !Z.leb_le. tauto. Qed.

Lemma money_in_range_in_ty raw :
  MONEY_RAW_MIN <= raw <= MONEY_RAW_MAX -> in_ty MoneyRaw raw = true.
Proof. intros. pose proof money_limits. apply in_ty_spec. lia. Qed.

Lemma currency_eqb_refl c : currency_eqb c c = true.
Proof. by apply bool_decide_eq_true. Qed.

Lemma money_from_decimal_Ok {Dec} `{DecimalApi Dec} (d : Dec) c m :
  money_from_decimal d c = Ok m ->
  m_currency m = c /\ MONEY_RAW_MIN <= m_raw m <= MONEY_RAW_MAX /\
  check_fixed_precision (c_precision c) = Ok tt.
Proof.
  unfold money_from_decimal. intros Hm.
  apply bind_Ok_inv in Hm as (r & Hr & Hm). osimpl. outcome_inv. simpl. bool_simpl.
  split_and!; [done|lia|lia|].
  unfold mantissa_exponent_to_fixed_i128 in Hr.
  by destruct (check_fixed_precision (c_precision c)) as [[]| |].
Qed.

Lemma money_from_raw_eval {E} raw c :
  check_fixed_precision (c_precision c) = Ok tt ->
  money_from_raw (E := E) raw c
    = if money_raw_in_range raw then Ok (mkMoney raw c) else Panic.
Proof.
  intros Hc. unfold money_from_raw, money_from_raw_checked.
  rewrite Hc. unfold money_raw_in_range. rewrite !Z.ltb_antisym.
  rewrite <- negb_andb. by destruct (_ && _).
Qed.

(** Building a balance from parts in one currency: it succeeds exactly when the
    parts add up without overflow. *)
Lemma account_balance_new_eval {E} t a b c :
  m_currency t = c ->
  account_balance_new (E := E) t (mkMoney a c) (mkMoney b c)
    = if in_ty MoneyRaw (a + b) && (m_raw t =? a + b)
      then Ok (mkBalance c t (mkMoney a c) (mkMoney b c)) else Panic.
Proof.
  intros Ht. unfold account_balance_new, account_balance_new_checked, money_add,
    check_predicate_true, checked, money_eqb. simpl. rewrite Ht, !currency_eqb_refl.
  osimpl. destruct (in_ty MoneyRaw (a + b)); osimpl; [|done]. simpl m_raw; simpl m_currency.
  rewrite ?Ht, currency_eqb_refl, andb_true_r. by destruct (m_raw t =? a + b).
Qed.

(** The tail shared by the two constructors: the rest [t - k] is representable
    or the construction panics, also when the subtraction wraps around. *)
Lemma balance_rest {E} (f : Money -> outcome E AccountBalance) t k c :
  check_fixed_precision (c_precision c) = Ok tt ->
  MONEY_RAW_MIN <= t <= MONEY_RAW_MAX -> MONEY_RAW_MIN <= k <= MONEY_RAW_MAX ->
  (forall r, in_ty MoneyRaw (k + r) && (t =? k + r) = false -> f (mkMoney r c) = Panic) ->
  money_from_raw (wrap MoneyRaw (t - k)) c ≫= f
    = if money_raw_in_range (t - k) then f (mkMoney (t - k) c) else Panic.
Proof.
  intros Hc Ht Hk Hf. pose proof money_limits as (Hmin & Hmax & Hty).
  rewrite money_from_raw_eval by done.
  destruct (money_raw_in_range (t - k)) eqn:Hr.
  - apply money_raw_in_range_spec in Hr. pose proof (money_in_range_in_ty _ Hr) as Hi.
    rewrite wrap_id by done. by rewrite (proj2 (money_raw_in_range_spec _) Hr).
  - destruct (money_raw_in_range (wrap MoneyRaw (t - k))) eqn:Hw; [|done].
    simpl. apply Hf. apply andb_false_iff.
    destruct (in_ty MoneyRaw (t - k)) eqn:Hi.
    + rewrite wrap_id in Hw by done. congruence.
    + right. apply Z.eqb_neq. intros Heq.
      assert (wrap MoneyRaw (t - k) = t - k) as Hx by lia.
      pose proof (wrap_in_ty MoneyRaw (t - k)). congruence.
Qed.

(* ------------------------------------------------------------------ *)
(** ** Properties *)

(** with both amounts representable, the two derived-balance constructors
    clamp the given part into [0, total] for a non-negative total and pass it
    through for a negative one; the other part is the exact rest, so the parts
    add up to the total.  A non-negative total never fails; for a negative one
    the construction panics when the rest is not representable. *)
Theorem balance_split_correct {Dec : Type} `{DecimalApi Dec} (total part : Dec)
    (c : Currency) (t l : Money) :
  money_from_decimal total c = Ok t -> money_from_decimal part c = Ok l ->
  let k := if 0 <=? m_raw t then clamp (m_raw l) 0 (m_raw t) else m_raw l in
  balance_from_total_and_locked total part c
    = (if money_raw_in_range (m_raw t - k)
       then Ok (mkBalance c t (mkMoney k c) (mkMoney (m_raw t - k) c)) else Panic) /\
  balance_from_total_and_free total part c
    = (if money_raw_in_range (m_raw t - k)
       then Ok (mkBalance c t (mkMoney (m_raw t - k) c) (mkMoney k c)) else Panic) /\
  (0 <= m_raw t -> money_raw_in_range (m_raw t - k) = true /\ 0 <= k <= m_raw t).
Proof.
  intros Ht Hl. pose proof money_limits as (Hmin & Hmax & _).
  pose proof (money_from_decimal_Ok _ _ _ Ht) as (Hct & Rt & Hc).
  pose proof (money_from_decimal_Ok _ _ _ Hl) as (_ & Rl & _).
  intros k.
  assert (Rk : MONEY_RAW_MIN <= k <= MONEY_RAW_MAX).
  { unfold k, clamp. destruct (Z.leb_spec 0 (m_raw t)); lia. }
  assert (Hk : money_from_raw (E := CorrectnessError) k c = Ok (mkMoney k c)).
  { rewrite money_from_raw_eval by done. by rewrite (proj2 (money_raw_in_range_spec k)). }
  unfold balance_from_total_and_locked, balance_from_total_and_free.
  rewrite Ht, Hl. osimpl. fold k. rewrite Hk. osimpl. simpl m_raw.
  split_and!.
  - rewrite balance_rest; [|done..|].
    + rewrite account_balance_new_eval by done.
      replace (k + (m_raw t - k)) with (m_raw t) by lia.
      by rewrite Z.eqb_refl, money_in_range_in_ty.
    + intros r Hr. rewrite account_balance_new_eval by done. by rewrite Hr.
  - rewrite balance_rest; [|done..|].
    + rewrite account_balance_new_eval by done.
      replace (m_raw t - k + k) with (m_raw t) by lia.
      by rewrite Z.eqb_refl, money_in_range_in_ty.
    + intros r Hr. rewrite account_balance_new_eval by done.
      rewrite (Z.add_comm r k). by rewrite Hr.
  - intros Hpos. rewrite money_raw_in_range_spec. revert Rk. unfold k, clamp.
    replace (0 <=? m_raw t) with true by lia. lia.
Qed.
End Money.

Definition usd : Currency := mkCurrency "USD" 2 840 "United States dollar" Fiat.

Example balance_split_witness :
  balance_from_total_and_locked (M := standard_mode) (10000, 2) (12500, 2) usd
    = Ok (mkBalance usd (mkMoney 100000000000 usd) (mkMoney 100000000000 usd) (mkMoney 0 usd))
  /\ balance_from_total_and_locked (M := standard_mode)
       (-922337203600, 2) (922337203600, 2) usd = Panic.
Proof.
  split.
  - destruct (balance_split_correct (M := standard_mode) (10000, 2) (12500, 2) usd
             (mkMoney 100000000000 usd) (mkMoney 125000000000 usd)) as (Heq & _);
      [vm_compute; reflexivity..|].
    rewrite Heq. vm_compute. reflexivity.
  - destruct (balance_split_correct (M := standard_mode) (-922337203600, 2) (922337203600, 2) usd
             (mkMoney (-9223372036000000000) usd) (mkMoney 9223372036000000000 usd))
      as (Heq & _); [vm_compute; reflexivity..|].
    rewrite Heq. vm_compute. reflexivity.
Defined.
