(* ===== verification/Enums.v ===== *)
(** * Enumerations ([crates/model/src/enums.rs])

    The enumerations the orders, the books and the matching core use, with the
    source's constructors (a prefix keeps apart constructors that several
    enumerations share) and the methods on them. *)

From stdpp Require Import base numbers list gmap countable finite.
From Stdlib Require Import ZArith.
From S2P Require Import Prelude.

Inductive AggressorSide : Type := NoAggressor | Buyer | Seller.
Inductive BookAction : Type := ActAdd | ActUpdate | ActDelete | ActClear.
Inductive BookType : Type := L1_MBP | L2_MBP | L3_MBO.
Inductive ContingencyType : Type := NoContingency | Oco | Oto | Ouo.
Inductive LiquiditySide : Type := NoLiquiditySide | Maker | Taker.
Inductive OrderSide : Type := NoOrderSide | Buy | Sell.
Inductive OrderSideSpecified : Type := SBuy | SSell.
Inductive OrderStatus : Type :=
  | Initialized | Denied | Emulated | Released | Submitted | Accepted | Rejected
  | Canceled | Expired | Triggered | PendingUpdate | PendingCancel | PartiallyFilled
  | Filled.
Inductive OrderType : Type :=
  | Market | Limit | StopMarket | StopLimit | MarketToLimit | MarketIfTouched
  | LimitIfTouched | TrailingStopMarket | TrailingStopLimit.
Inductive PositionSide : Type := NoPositionSide | Flat | Long | Short.
Inductive PositionSideSpecified : Type := SFlat | SLong | SShort.
Inductive RecordFlag : Type :=
  F_LAST | F_TOB | F_SNAPSHOT | F_MBP | RESERVED_2 | RESERVED_1.
Inductive TimeInForce : Type :=
  Gtc | Ioc | Fok | Gtd | Day | AtTheOpen | AtTheClose.
Inductive TrailingOffsetType : Type :=
  NoTrailingOffset | OffPrice | BasisPoints | Ticks | PriceTier.
Inductive TriggerType : Type :=
  | NoTrigger | TrigDefault | LastPrice | MarkPrice | IndexPrice | BidAsk | DoubleLast
  | DoubleBidAsk | LastOrBidAsk | MidPoint.

#[export] Instance book_action_eq_dec : EqDecision BookAction.
Proof. solve_decision. Defined.
#[export] Instance book_type_eq_dec : EqDecision BookType.
Proof. solve_decision. Defined.
#[export] Instance contingency_eq_dec : EqDecision ContingencyType.
Proof. solve_decision. Defined.
#[export] Instance liquidity_eq_dec : EqDecision LiquiditySide.
Proof. solve_decision. Defined.
#[export] Instance order_side_eq_dec : EqDecision OrderSide.
Proof. solve_decision. Defined.
#[export] Instance order_side_spec_eq_dec : EqDecision OrderSideSpecified.
Proof. solve_decision. Defined.
#[export] Instance order_status_eq_dec : EqDecision OrderStatus.
Proof. solve_decision. Defined.
#[export] Instance order_type_eq_dec : EqDecision OrderType.
Proof. solve_decision. Defined.
#[export] Instance position_side_eq_dec : EqDecision PositionSide.
Proof. solve_decision. Defined.
#[export] Instance time_in_force_eq_dec : EqDecision TimeInForce.
Proof. solve_decision. Defined.
#[export] Instance trigger_type_eq_dec : EqDecision TriggerType.
Proof. solve_decision. Defined.

Definition book_action_from_u8 (value : Z) : option BookAction :=
  match value with
  | 1 => Some ActAdd | 2 => Some ActUpdate | 3 => Some ActDelete | 4 => Some ActClear
  | _ => None
  end.

Definition book_type_from_u8 (value : Z) : option BookType :=
  match value with
  | 1 => Some L1_MBP | 2 => Some L2_MBP | 3 => Some L3_MBO
  | _ => None
  end.

(** [side as u64] *)
Definition order_side_repr (s : OrderSide) : Z :=
  match s with NoOrderSide => 0 | Buy => 1 | Sell => 2 end.

Definition order_side_from_u8 (value : Z) : option OrderSide :=
  match value with
  | 0 => Some NoOrderSide | 1 => Some Buy | 2 => Some Sell
  | _ => None
  end.

Definition as_specified {E} (s : OrderSide) : outcome E OrderSideSpecified :=
  match s with
  | Buy => Ok SBuy
  | Sell => Ok SSell
  | NoOrderSide => Panic
  end.

Definition opposite (s : OrderSideSpecified) : OrderSideSpecified :=
  match s with SBuy => SSell | SSell => SBuy end.
Definition as_order_side (s : OrderSideSpecified) : OrderSide :=
  match s with SBuy => Buy | SSell => Sell end.

Definition status_is_open (s : OrderStatus) : bool :=
  match s with
  | Submitted | Accepted | Triggered | PendingUpdate | PendingCancel | PartiallyFilled => true
  | _ => false
  end.
Definition status_is_closed (s : OrderStatus) : bool :=
  match s with
  | Denied | Rejected | Canceled | Expired | Filled => true
  | _ => false
  end.
Definition status_is_cancellable (s : OrderStatus) : bool :=
  match s with
  | Accepted | Triggered | PendingUpdate | PartiallyFilled => true
  | _ => false
  end.
Definition cancellable_statuses_set : list OrderStatus :=
  [Accepted; Triggered; PendingUpdate; PartiallyFilled].

Definition position_as_specified {E} (s : PositionSide) : outcome E PositionSideSpecified :=
  match s with
  | Long => Ok SLong
  | Short => Ok SShort
  | Flat => Ok SFlat
  | NoPositionSide => Panic
  end.
Definition as_position_side (s : PositionSideSpecified) : PositionSide :=
  match s with SLong => Long | SShort => Short | SFlat => Flat end.

Definition flag_repr (f : RecordFlag) : Z :=
  match f with
  | F_LAST => Z.shiftl 1 7
  | F_TOB => Z.shiftl 1 6
  | F_SNAPSHOT => Z.shiftl 1 5
  | F_MBP => Z.shiftl 1 4
  | RESERVED_2 => Z.shiftl 1 3
  | RESERVED_1 => Z.shiftl 1 2
  end.

(** [(self as u8) & value != 0] *)
Definition flag_matches (f : RecordFlag) (value : Z) : bool :=
  negb (Z.land (flag_repr f) value =? 0).

Lemma as_specified_Ok {E} s x :
  as_specified (E := E) s = Ok x <-> s = as_order_side x.
Proof. destruct s, x; simpl; split; congruence. Qed.

Lemma opposite_involutive s : opposite (opposite s) = s.
Proof. by destruct s. Qed.

Lemma side_repr_roundtrip s : order_side_from_u8 (order_side_repr s) = Some s.
Proof. by destruct s. Qed.
