(* ===== verification/Maps.v ===== *)
(** * Ordered maps

    [BTreeMap]: an association list sorted by an integer key; the key function
    is the comparison of the map's keys.  Inserting at an existing key replaces
    the value and keeps the stored key, as [BTreeMap::insert] does.
    [IndexMap]: an association list in insertion order; inserting at an
    existing key replaces the value in place, [shift_remove] keeps the order of
    the others. *)

From stdpp Require Import base numbers list sets.
From Stdlib Require Import ZArith Lia Sorted.
From S2P Require Import Prelude.

Lemma elem_of_concat {A} (x : A) (ls : list (list A)) :
  x ∈ concat ls <-> exists l, l ∈ ls /\ x ∈ l.
Proof.
  rewrite list_elem_of_In, List.in_concat. by setoid_rewrite list_elem_of_In.
Qed.

Section BTreeMap.
Context {K V : Type} (key : K -> Z).
Implicit Types (k : K) (v : V) (m : list (K * V)).

Definition bt_get k m : option V :=
  snd <$> List.find (fun kv => key kv.1 =? key k) m.

Fixpoint bt_insert k v m : list (K * V) :=
  match m with
  | [] => [(k, v)]
  | (k', v') :: m' =>
      match Z.compare (key k) (key k') with
      | Lt => (k, v) :: m
      | Eq => (k', v) :: m'
      | Gt => (k', v') :: bt_insert k v m'
      end
  end.

Lemma bt_insert_cons k v k' v' m :
  bt_insert k v ((k', v') :: m) =
    match Z.compare (key k) (key k') with
    | Lt => (k, v) :: (k', v') :: m
    | Eq => (k', v) :: m
    | Gt => (k', v') :: bt_insert k v m
    end.
Proof. done. Qed.

Definition bt_remove k m : list (K * V) :=
  List.filter (fun kv => negb (key kv.1 =? key k)) m.

Definition bt_keys m : list Z := (fun kv => key kv.1) <$> m.
Definition bt_sorted m : Prop := StronglySorted Z.lt (bt_keys m).

Lemma bt_get_cons k k' v m :
  bt_get k ((k', v) :: m) = if key k' =? key k then Some v else bt_get k m.
Proof. unfold bt_get. simpl. by destruct (key k' =? key k). Qed.

Lemma bt_sorted_inv k v m :
  bt_sorted ((k, v) :: m) -> bt_sorted m /\ Forall (fun x => key k < x) (bt_keys m).
Proof. intros H. by apply StronglySorted_inv in H. Qed.

Lemma bt_keys_insert k v m x :
  x ∈ bt_keys (bt_insert k v m) <-> x = key k \/ x ∈ bt_keys m.
Proof.
  induction m as [|[k' v'] m IH]; simpl; [rewrite list_elem_of_singleton; set_solver|].
  destruct (Z.compare_spec (key k) (key k')) as [E|E|E]; simpl.
  - rewrite !elem_of_cons. rewrite E. tauto.
  - rewrite !elem_of_cons. tauto.
  - rewrite !elem_of_cons. rewrite IH. tauto.
Qed.

Lemma bt_sorted_insert k v m : bt_sorted m -> bt_sorted (bt_insert k v m).
Proof.
  induction m as [|[k' v'] m IH]; intros Hs; simpl; [repeat constructor|].
  destruct (bt_sorted_inv _ _ _ Hs) as [Hm Hk'].
  destruct (Z.compare_spec (key k) (key k')) as [E|E|E]; [done| |].
  - constructor; [done|]. constructor; [done|].
    eapply Forall_impl; [exact Hk'|]. simpl. lia.
  - constructor; [by apply IH|]. apply Forall_forall. intros x Hx.
    fold (bt_keys (bt_insert k v m)) in Hx. apply bt_keys_insert in Hx as [->|Hx]; [done|].
    by eapply Forall_forall in Hk'.
Qed.

Lemma bt_get_notin k m : key k ∉ bt_keys m -> bt_get k m = None.
Proof.
  induction m as [|[k' v] m IH]; simpl; [done|]. rewrite not_elem_of_cons, bt_get_cons.
  intros [Hne Hin]. replace (key k' =? key k) with false by lia. by apply IH.
Qed.

Lemma bt_lt_notin k m x : Forall (fun y => x < y) (bt_keys m) -> key k <= x -> key k ∉ bt_keys m.
Proof. intros H Hle Hin. eapply Forall_forall in H; [|done]. lia. Qed.

Lemma bt_get_insert k k' v m :
  bt_sorted m ->
  bt_get k' (bt_insert k v m) = if key k =? key k' then Some v else bt_get k' m.
Proof.
  induction m as [|[k0 v0] m IH]; intros Hs; simpl.
  - by rewrite bt_get_cons.
  - destruct (bt_sorted_inv _ _ _ Hs) as [Hm Hk0].
    destruct (Z.compare_spec (key k) (key k0)) as [E|E|E]; rewrite ?bt_get_cons.
    + rewrite <- E. by destruct (key k =? key k').
    + done.
    + rewrite IH by done. destruct (Z.eqb_spec (key k0) (key k')) as [E1|E1]; [|done].
      by replace (key k =? key k') with false by lia.
Qed.

Lemma bt_get_remove k k' m :
  bt_get k' (bt_remove k m) = if key k =? key k' then None else bt_get k' m.
Proof.
  induction m as [|[k0 v0] m IH]; simpl; [by destruct (_ =? _)|].
  destruct (Z.eqb_spec (key k0) (key k)) as [E|E]; simpl.
  - rewrite IH, bt_get_cons. rewrite E. by destruct (key k =? key k').
  - rewrite !bt_get_cons, IH. destruct (Z.eqb_spec (key k0) (key k')) as [E1|E1]; [|done].
    by replace (key k =? key k') with false by lia.
Qed.

Lemma bt_remove_sub k m x : x ∈ bt_remove k m -> x ∈ m /\ key x.1 <> key k.
Proof.
  unfold bt_remove. rewrite !list_elem_of_In, List.filter_In.
  intros [Hin Hk]. split; [done|]. apply negb_true_iff, Z.eqb_neq in Hk. done.
Qed.

Lemma bt_sorted_filter (f : K * V -> bool) m : bt_sorted m -> bt_sorted (List.filter f m).
Proof.
  induction m as [|[k v] m IH]; intros Hs; simpl; [done|].
  destruct (bt_sorted_inv _ _ _ Hs) as [Hm Hk].
  destruct (f (k, v)); [|by apply IH]. constructor; [by apply IH|].
  apply Forall_forall. intros x Hx. apply (proj1 (Forall_forall _ _) Hk).
  apply list_elem_of_fmap in Hx as (kv & -> & Hx). apply list_elem_of_fmap. exists kv. split; [done|].
  apply list_elem_of_In in Hx. apply list_elem_of_In. by apply List.filter_In in Hx as [??].
Qed.

Lemma bt_sorted_remove k m : bt_sorted m -> bt_sorted (bt_remove k m).
Proof. apply bt_sorted_filter. Qed.

Lemma bt_get_elem k m v : bt_get k m = Some v -> exists k', key k' = key k /\ (k', v) ∈ m.
Proof.
  induction m as [|[k0 v0] m IH]; [done|]. rewrite bt_get_cons.
  destruct (Z.eqb_spec (key k0) (key k)) as [E|E].
  - intros [= <-]. exists k0. split; [done|]. left.
  - intros H. destruct (IH H) as (k' & ? & ?). exists k'. split; [done|]. by right.
Qed.

Lemma bt_elem_get k m v : bt_sorted m -> (k, v) ∈ m -> bt_get k m = Some v.
Proof.
  induction m as [|[k0 v0] m IH]; intros Hs Hin; [by apply elem_of_nil in Hin|].
  destruct (bt_sorted_inv _ _ _ Hs) as [Hm Hk]. rewrite bt_get_cons.
  apply elem_of_cons in Hin as [[= <- <-]|Hin]; [by rewrite Z.eqb_refl|].
  assert (key k0 < key k) as Hlt.
  { eapply Forall_forall in Hk; [exact Hk|]. apply list_elem_of_fmap. by exists (k, v). }
  replace (key k0 =? key k) with false by lia. by apply IH.
Qed.

Lemma bt_insert_elem k v m kv :
  bt_sorted m -> kv ∈ bt_insert k v m ->
  (key kv.1 = key k /\ kv.2 = v) \/ (kv ∈ m /\ key kv.1 <> key k).
Proof.
  intros Hs Hin. destruct kv as [k' v'].
  pose proof (bt_elem_get _ _ _ (bt_sorted_insert k v m Hs) Hin) as Hg.
  rewrite bt_get_insert in Hg by done. simpl.
  destruct (Z.eqb_spec (key k) (key k')) as [E|E]; [left; split; congruence|right].
  split; [|congruence]. clear Hg. induction m as [|[k0 v0] m IH]; simpl in Hin.
  - apply list_elem_of_singleton in Hin. congruence.
  - destruct (bt_sorted_inv _ _ _ Hs) as [Hm Hk].
    destruct (Z.compare_spec (key k) (key k0)) as [E0|E0|E0];
      apply elem_of_cons in Hin as [[= <- <-]|Hin]; try lia; try done; try (by right).
    + left.
    + right. by apply IH.
Qed.

Lemma bt_get_None k m : bt_get k m = None -> key k ∉ bt_keys m.
Proof.
  induction m as [|[k0 v0] m IH]; [intros _ H; by apply elem_of_nil in H|].
  rewrite bt_get_cons. destruct (Z.eqb_spec (key k0) (key k)); [done|]. simpl.
  intros H [?|?]%elem_of_cons; [lia|]. by apply IH.
Qed.

Lemma bt_insert_absent k v m kv :
  bt_sorted m -> bt_get k m = None -> kv ∈ bt_insert k v m ->
  kv = (k, v) \/ (kv ∈ m /\ key kv.1 <> key k).
Proof.
  intros Hs Hn%bt_get_None Hin.
  induction m as [|[k0 v0] m IH]; simpl in *.
  - left. by apply list_elem_of_singleton in Hin.
  - destruct (bt_sorted_inv _ _ _ Hs) as [Hm Hk]. apply not_elem_of_cons in Hn as [Hne Hn].
    assert (Hmem : forall x, x ∈ m -> key x.1 <> key k).
    { intros x Hx E. apply Hn. rewrite <- E. apply list_elem_of_fmap. by exists x. }
    destruct (Z.compare_spec (key k) (key k0)) as [E0|E0|E0]; [lia| |].
    + apply elem_of_cons in Hin as [->|Hin]; [by left|right]. split; [done|].
      apply elem_of_cons in Hin as [->|Hin]; [simpl; lia|by apply Hmem].
    + apply elem_of_cons in Hin as [->|Hin]; [right; split; [left|simpl; lia]|].
      destruct (IH Hm Hn Hin) as [?|[? ?]]; [by left|right]. split; [by right|done].
Qed.

(** Inserting at a key that is there keeps the stored keys. *)
Lemma bt_insert_map k v m :
  bt_sorted m -> is_Some (bt_get k m) ->
  bt_insert k v m = (fun kv => if key kv.1 =? key k then (kv.1, v) else kv) <$> m.
Proof.
  induction m as [|[k0 v0] m IH]; intros Hs Hp; [by destruct Hp|].
  destruct (bt_sorted_inv _ _ _ Hs) as [Hm Hk]. simpl. rewrite bt_get_cons in Hp.
  assert (Hrest : forall x, key k0 >= x ->
    (fun kv : K * V => if key kv.1 =? x then (kv.1, v) else kv) <$> m = m).
  { intros x Hx. clear -Hk Hx. induction m as [|[k1 v1] m IH]; [done|]. simpl in *.
    apply Forall_cons in Hk as [H1 H2]. replace (key k1 =? x) with false by lia. f_equal. auto. }
  destruct (Z.compare_spec (key k) (key k0)) as [E0|E0|E0].
  - rewrite <- E0, Z.eqb_refl. f_equal. by rewrite Hrest by lia.
  - exfalso. replace (key k0 =? key k) with false in Hp by lia.
    rewrite bt_get_notin in Hp; [by destruct Hp|]. eapply bt_lt_notin; [exact Hk|lia].
  - replace (key k0 =? key k) with false by lia. f_equal.
    apply IH; [done|]. by replace (key k0 =? key k) with false in Hp by lia.
Qed.
End BTreeMap.

Section IndexMap.
Context {V : Type}.
Implicit Types (i : Z) (v : V) (m : list (Z * V)).

Definition im_get i m : option V := snd <$> List.find (fun kv => kv.1 =? i) m.
Definition im_contains i m : bool := List.existsb (fun kv => kv.1 =? i) m.
Fixpoint im_insert i v m : list (Z * V) :=
  match m with
  | [] => [(i, v)]
  | (i', v') :: m' => if i' =? i then (i', v) :: m' else (i', v') :: im_insert i v m'
  end.
Lemma im_insert_cons i v j w m :
  im_insert i v ((j, w) :: m) = if j =? i then (j, v) :: m else (j, w) :: im_insert i v m.
Proof. done. Qed.
Definition im_shift_remove i m : list (Z * V) := List.filter (fun kv => negb (kv.1 =? i)) m.
Definition im_keys m : list Z := fst <$> m.

Lemma im_get_cons i i' v m : im_get i ((i', v) :: m) = if i' =? i then Some v else im_get i m.
Proof. unfold im_get. simpl. by destruct (i' =? i). Qed.

Lemma im_get_insert i j v m :
  im_get j (im_insert i v m) = if i =? j then Some v else im_get j m.
Proof.
  induction m as [|[i0 v0] m IH]; simpl; [by rewrite im_get_cons|].
  destruct (Z.eqb_spec i0 i) as [->|E]; rewrite !im_get_cons; [by destruct (i =? j)|].
  rewrite IH. destruct (Z.eqb_spec i0 j) as [->|E1]; [|done].
  by replace (i =? j) with false by lia.
Qed.

Lemma im_get_remove i j m :
  im_get j (im_shift_remove i m) = if i =? j then None else im_get j m.
Proof.
  induction m as [|[i0 v0] m IH]; simpl; [by destruct (_ =? _)|].
  destruct (Z.eqb_spec i0 i) as [->|E]; simpl; rewrite !im_get_cons; [by rewrite IH; destruct (i =? j)|].
  rewrite IH. destruct (Z.eqb_spec i0 j) as [->|E1]; [|done].
  by replace (i =? j) with false by lia.
Qed.

Lemma im_contains_spec i m : im_contains i m = true <-> i ∈ im_keys m.
Proof.
  unfold im_contains, im_keys. rewrite List.existsb_exists, list_elem_of_fmap. split.
  - intros (kv & Hin & Hk%Z.eqb_eq). exists kv. split; [done|by apply list_elem_of_In].
  - intros (kv & -> & Hin). exists kv. rewrite Z.eqb_refl. split; [by apply list_elem_of_In|done].
Qed.

Lemma im_get_is_Some i m : is_Some (im_get i m) <-> i ∈ im_keys m.
Proof.
  induction m as [|[i0 v0] m IH]; simpl.
  - split; [by intros []|by intros ?%elem_of_nil].
  - rewrite im_get_cons, elem_of_cons. destruct (Z.eqb_spec i0 i) as [->|E]; [naive_solver|].
    rewrite IH. naive_solver.
Qed.

Lemma im_keys_insert i v m :
  im_keys (im_insert i v m) = if im_contains i m then im_keys m else im_keys m ++ [i].
Proof.
  induction m as [|[i0 v0] m IH]; simpl; [done|].
  destruct (Z.eqb_spec i0 i) as [->|E]; simpl; [done|].
  rewrite IH. unfold im_contains. by destruct (List.existsb _ m).
Qed.

Lemma im_nodup_insert i v m : NoDup (im_keys m) -> NoDup (im_keys (im_insert i v m)).
Proof.
  intros Hnd. rewrite im_keys_insert. destruct (im_contains i m) eqn:E; [done|].
  apply NoDup_app. split_and!; [done| |apply NoDup_singleton].
  intros x Hx ->%list_elem_of_singleton. apply im_contains_spec in Hx. congruence.
Qed.

Lemma im_keys_remove i m : im_keys (im_shift_remove i m) = List.filter (fun j => negb (j =? i)) (im_keys m).
Proof.
  induction m as [|[i0 v0] m IH]; simpl; [done|]. destruct (i0 =? i); simpl; [done|by f_equal].
Qed.

Lemma im_elem_keys_remove i j m : j ∈ im_keys (im_shift_remove i m) <-> j ∈ im_keys m /\ j <> i.
Proof.
  rewrite im_keys_remove, !list_elem_of_In, List.filter_In, negb_true_iff, Z.eqb_neq. done.
Qed.

Lemma im_nodup_remove i m : NoDup (im_keys m) -> NoDup (im_keys (im_shift_remove i m)).
Proof.
  rewrite im_keys_remove. intros H%NoDup_ListNoDup. apply NoDup_ListNoDup. by apply List.NoDup_filter.
Qed.

Lemma im_insert_Forall (P : Z * V -> Prop) i v m :
  Forall P m -> P (i, v) -> Forall P (im_insert i v m).
Proof.
  intros H Hp. induction H as [|[i0 v0] m H0 Hm IH]; simpl; [by constructor|].
  destruct (Z.eqb_spec i0 i) as [->|E]; by constructor.
Qed.

Lemma im_remove_Forall (P : Z * V -> Prop) i m : Forall P m -> Forall P (im_shift_remove i m).
Proof. intros H. induction H; simpl; [done|]. case_match; [by constructor|done]. Qed.

Lemma im_insert_nonempty i v m : im_insert i v m <> [].
Proof. destruct m as [|[i0 v0] m]; simpl; [done|]. by destruct (i0 =? i). Qed.
End IndexMap.

(** An [IndexMap] with keys of any type with decidable equality. *)
Section IndexMapAny.
Context {K V : Type} `{EqDecision K}.
Implicit Types (i j : K) (v : V) (m : list (K * V)).

Definition ix_get i m : option V := snd <$> List.find (fun kv => bool_decide (kv.1 = i)) m.
Fixpoint ix_insert i v m : list (K * V) :=
  match m with
  | [] => [(i, v)]
  | (i', v') :: m' => if bool_decide (i' = i) then (i', v) :: m' else (i', v') :: ix_insert i v m'
  end.
Definition ix_shift_remove i m : list (K * V) :=
  List.filter (fun kv => negb (bool_decide (kv.1 = i))) m.
Definition ix_keys m : list K := fst <$> m.

Lemma ix_get_cons i j v m : ix_get i ((j, v) :: m) = if decide (j = i) then Some v else ix_get i m.
Proof. unfold ix_get. simpl. case_bool_decide; case_decide; done. Qed.

Lemma ix_get_insert i j v m :
  ix_get j (ix_insert i v m) = if decide (j = i) then Some v else ix_get j m.
Proof.
  induction m as [|[k w] m IH]; simpl; [rewrite ix_get_cons; by repeat case_decide; subst|].
  case_bool_decide; rewrite !ix_get_cons; [|rewrite IH]; repeat case_decide; congruence.
Qed.

Lemma ix_get_remove i j m :
  ix_get j (ix_shift_remove i m) = if decide (j = i) then None else ix_get j m.
Proof.
  induction m as [|[k w] m IH]; simpl; [by case_decide|].
  case_bool_decide; simpl; rewrite !ix_get_cons, IH; repeat case_decide; congruence.
Qed.

Lemma ix_get_is_Some i m : is_Some (ix_get i m) <-> i ∈ ix_keys m.
Proof.
  induction m as [|[k w] m IH]; simpl.
  - split; [by intros []|by intros ?%elem_of_nil].
  - rewrite ix_get_cons, elem_of_cons. case_decide; naive_solver.
Qed.

Lemma ix_elem_get i v m : NoDup (ix_keys m) -> (i, v) ∈ m -> ix_get i m = Some v.
Proof.
  induction m as [|[k w] m IH]; intros Hnd Hin; [by apply elem_of_nil in Hin|].
  apply NoDup_cons in Hnd as [Hk Hnd]. rewrite ix_get_cons.
  apply elem_of_cons in Hin as [[= -> ->]|Hin]; [by rewrite decide_True|].
  rewrite decide_False; [by apply IH|]. intros ->. apply Hk, list_elem_of_fmap. by exists (i, v).
Qed.

Lemma ix_get_elem i v m : ix_get i m = Some v -> (i, v) ∈ m.
Proof.
  induction m as [|[k w] m IH]; [done|]. rewrite ix_get_cons. case_decide as E.
  - intros [= ->]. rewrite E. left.
  - intros H. right. by apply IH.
Qed.

Lemma ix_nodup_insert i v m : NoDup (ix_keys m) -> NoDup (ix_keys (ix_insert i v m)).
Proof.
  assert (Hk : forall m x, x ∈ ix_keys (ix_insert i v m) -> x = i \/ x ∈ ix_keys m).
  { clear m. intros m x. rewrite <- !ix_get_is_Some, ix_get_insert. case_decide; auto. }
  induction m as [|[k w] m IH]; simpl; intros Hnd; [apply NoDup_singleton|].
  case_bool_decide; [done|]. apply NoDup_cons in Hnd as [Hn Hnd].
  apply NoDup_cons. split; [|by apply IH]. by intros [?|?]%Hk.
Qed.

Lemma ix_nodup_remove i m : NoDup (ix_keys m) -> NoDup (ix_keys (ix_shift_remove i m)).
Proof.
  induction m as [|[k w] m IH]; simpl; intros Hnd; [done|]. apply NoDup_cons in Hnd as [Hn Hnd].
  case_bool_decide; simpl; [by apply IH|]. apply NoDup_cons. split; [|by apply IH].
  change (k ∉ ix_keys (ix_shift_remove i m)). rewrite <- ix_get_is_Some, ix_get_remove.
  case_decide; [by intros []|]. by rewrite ix_get_is_Some.
Qed.

Lemma ix_insert_nonempty i v m : ix_insert i v m <> [].
Proof. destruct m as [|[k w] m]; simpl; [done|]. by case_bool_decide. Qed.
End IndexMapAny.

(** An [IndexMap], or a hash map, whose keys are compared by a part of them:
    inserting at an equal key replaces the value and keeps the stored key. *)
Section KeyMap.
Context {K V I : Type} `{EqDecision I} (key : K -> I).
Implicit Types (k : K) (v : V) (m : list (K * V)).

Definition km_get k m : option V := snd <$> List.find (fun kv => bool_decide (key kv.1 = key k)) m.
Fixpoint km_insert k v m : list (K * V) :=
  match m with
  | [] => [(k, v)]
  | (k', v') :: m' =>
      if bool_decide (key k' = key k) then (k', v) :: m' else (k', v') :: km_insert k v m'
  end.
Definition km_remove k m : list (K * V) :=
  List.filter (fun kv => negb (bool_decide (key kv.1 = key k))) m.
Definition km_keys m : list I := (fun kv => key kv.1) <$> m.

(** The map seen from outside: from the compared part of the key to the value. *)
Definition km_proj m : list (I * V) := (fun kv => (key kv.1, kv.2)) <$> m.

Lemma km_proj_keys m : ix_keys (km_proj m) = km_keys m.
Proof. unfold ix_keys, km_proj, km_keys. rewrite <- list_fmap_compose. done. Qed.
Lemma km_get_proj k m : km_get k m = ix_get (key k) (km_proj m).
Proof.
  unfold km_get, ix_get, km_proj. induction m as [|[k' v'] m IH]; simpl; [done|].
  by case_bool_decide.
Qed.
Lemma km_insert_proj k v m : km_proj (km_insert k v m) = ix_insert (key k) v (km_proj m).
Proof.
  induction m as [|[k' v'] m IH]; simpl; [done|]. unfold ix_insert; fold (@ix_insert I V _).
  by case_bool_decide; simpl; [|rewrite IH].
Qed.
Lemma km_remove_proj k m : km_proj (km_remove k m) = ix_shift_remove (key k) (km_proj m).
Proof.
  unfold km_remove, ix_shift_remove, km_proj. induction m as [|[k' v'] m IH]; simpl; [done|].
  by case_bool_decide; simpl; [|f_equal].
Qed.
End KeyMap.

#[global] Arguments ix_keys {K V} m : simpl never.
#[global] Arguments ix_get {K V _} i m : simpl never.
#[global] Arguments ix_insert {K V _} i v m : simpl never.
#[global] Arguments ix_shift_remove {K V _} i m : simpl never.
#[global] Arguments km_keys {K V I} key m : simpl never.
#[global] Arguments km_get {K V I _} key k m : simpl never.
#[global] Arguments km_insert {K V I _} key k v m : simpl never.
#[global] Arguments km_remove {K V I _} key k m : simpl never.
#[global] Arguments km_proj {K V I} key m : simpl never.
#[global] Arguments im_keys {V} m : simpl never.
#[global] Arguments im_get {V} i m : simpl never.
#[global] Arguments im_insert {V} i v m : simpl never.
#[global] Arguments im_shift_remove {V} i m : simpl never.
#[global] Arguments bt_keys {K V} key m : simpl never.
#[global] Arguments bt_get {K V} key k m : simpl never.
#[global] Arguments bt_insert {K V} key k v m : simpl never.
#[global] Arguments bt_remove {K V} key k m : simpl never.
