(* ===== verification/OrderEvents.v ===== *)
(** * Order events ([crates/model/src/events/order/])

    One record per event struct and [OrderEventAny], the sum of them.  The
    fields every event struct repeats (trader, strategy, instrument and client
    order id, event id, the two timestamps and the reconciliation flag, which
    is [false] for the four structs that do not have it) are factored into an
    [EventHeader]; the other fields are the struct's own. *)

From stdpp Require Import base numbers list strings.
From Stdlib Require Import ZArith.
From S2P Require Import Prelude Fixed Price Quantity Money Enums.

(** Identifiers are interned strings compared by value. *)
Abbreviation TraderId := string.
Abbreviation StrategyId := string.
Abbreviation ClientOrderId := string.
Abbreviation VenueOrderId := string.
Abbreviation AccountId := string.
Abbreviation PositionId := string.
Abbreviation TradeId := string.
Abbreviation OrderListId := string.
Abbreviation ExecAlgorithmId := string.
Abbreviation UUID4 := string.
Abbreviation Ustr := string.
Definition UnixNanos : Type := Z.

Record EventHeader : Type := mkHeader {
  h_trader_id : TraderId;
  h_strategy_id : StrategyId;
  h_instrument_id : InstrumentId;
  h_client_order_id : ClientOrderId;
  h_event_id : UUID4;
  h_ts_event : UnixNanos;
  h_ts_init : UnixNanos;
  h_reconciliation : bool;
}.

Record OrderInitialized {Dec : Type} : Type := mkInitialized {
  in_header : EventHeader;
  in_order_side : OrderSide;
  in_order_type : OrderType;
  in_quantity : Quantity;
  in_time_in_force : TimeInForce;
  in_post_only : bool;
  in_reduce_only : bool;
  in_quote_quantity : bool;
  in_price : option Price;
  in_trigger_price : option Price;
  in_trigger_type : option TriggerType;
  in_limit_offset : option Dec;
  in_trailing_offset : option Dec;
  in_trailing_offset_type : option TrailingOffsetType;
  in_expire_time : option UnixNanos;
  in_display_qty : option Quantity;
  in_emulation_trigger : option TriggerType;
  in_trigger_instrument_id : option InstrumentId;
  in_contingency_type : option ContingencyType;
  in_order_list_id : option OrderListId;
  in_linked_order_ids : option (list ClientOrderId);
  in_parent_order_id : option ClientOrderId;
  in_exec_algorithm_id : option ExecAlgorithmId;
  in_exec_algorithm_params : option (list (Ustr * Ustr));
  in_exec_spawn_id : option ClientOrderId;
  in_tags : option (list Ustr);
}.
Arguments OrderInitialized : clear implicits.

Record OrderDenied : Type := mkDenied { dn_header : EventHeader; dn_reason : Ustr }.
Record OrderEmulated : Type := mkEmulated { em_header : EventHeader }.
Record OrderReleased : Type := mkReleased {
  rl_header : EventHeader; rl_released_price : Price }.
Record OrderSubmitted : Type := mkSubmitted {
  sb_header : EventHeader; sb_account_id : AccountId }.
Record OrderAccepted : Type := mkAccepted {
  ac_header : EventHeader; ac_venue_order_id : VenueOrderId; ac_account_id : AccountId }.
Record OrderRejected : Type := mkRejected {
  rj_header : EventHeader; rj_account_id : AccountId; rj_reason : Ustr;
  rj_due_post_only : bool }.
Record OrderCanceled : Type := mkCanceled {
  cn_header : EventHeader; cn_venue_order_id : option VenueOrderId;
  cn_account_id : option AccountId }.
Record OrderExpired : Type := mkExpired {
  ex_header : EventHeader; ex_venue_order_id : option VenueOrderId;
  ex_account_id : option AccountId }.
Record OrderTriggered : Type := mkTriggered {
  tr_header : EventHeader; tr_venue_order_id : option VenueOrderId;
  tr_account_id : option AccountId }.
Record OrderPendingUpdate : Type := mkPendingUpdate {
  pu_header : EventHeader; pu_account_id : AccountId;
  pu_venue_order_id : option VenueOrderId }.
Record OrderPendingCancel : Type := mkPendingCancel {
  pc_header : EventHeader; pc_account_id : AccountId;
  pc_venue_order_id : option VenueOrderId }.
Record OrderModifyRejected : Type := mkModifyRejected {
  mr_header : EventHeader; mr_reason : Ustr; mr_venue_order_id : option VenueOrderId;
  mr_account_id : option AccountId }.
Record OrderCancelRejected : Type := mkCancelRejected {
  cr_header : EventHeader; cr_reason : Ustr; cr_venue_order_id : option VenueOrderId;
  cr_account_id : option AccountId }.

Record OrderUpdated : Type := mkUpdated {
  up_header : EventHeader;
  up_venue_order_id : option VenueOrderId;
  up_account_id : option AccountId;
  up_quantity : Quantity;
  up_price : option Price;
  up_trigger_price : option Price;
  up_protection_price : option Price;
  up_is_quote_quantity : bool;
}.

Record OrderFilled : Type := mkFilled {
  fl_header : EventHeader;
  fl_venue_order_id : VenueOrderId;
  fl_account_id : AccountId;
  fl_trade_id : TradeId;
  fl_order_side : OrderSide;
  fl_order_type : OrderType;
  fl_last_qty : Quantity;
  fl_last_px : Price;
  fl_currency : Currency;
  fl_liquidity_side : LiquiditySide;
  fl_position_id : option PositionId;
  fl_commission : option Money;
}.

(** The methods of [OrderFilled]. *)
Definition fill_specified_side {E} (f : OrderFilled) : outcome E OrderSideSpecified :=
  as_specified (fl_order_side f).
Definition fill_is_buy (f : OrderFilled) : bool := bool_decide (fl_order_side f = Buy).
Definition fill_is_sell (f : OrderFilled) : bool := bool_decide (fl_order_side f = Sell).

Inductive OrderEventAny {Dec : Type} : Type :=
  | EvInitialized (e : OrderInitialized Dec)
  | EvDenied (e : OrderDenied)
  | EvEmulated (e : OrderEmulated)
  | EvReleased (e : OrderReleased)
  | EvSubmitted (e : OrderSubmitted)
  | EvAccepted (e : OrderAccepted)
  | EvRejected (e : OrderRejected)
  | EvCanceled (e : OrderCanceled)
  | EvExpired (e : OrderExpired)
  | EvTriggered (e : OrderTriggered)
  | EvPendingUpdate (e : OrderPendingUpdate)
  | EvPendingCancel (e : OrderPendingCancel)
  | EvModifyRejected (e : OrderModifyRejected)
  | EvCancelRejected (e : OrderCancelRejected)
  | EvUpdated (e : OrderUpdated)
  | EvFilled (e : OrderFilled).
Arguments OrderEventAny : clear implicits.

Section Events.
Context {Dec : Type}.
Implicit Type ev : OrderEventAny Dec.

(** The accessors of [OrderEventAny] that return a field every struct has
    select it from the header. *)
Definition event_header ev : EventHeader :=
  match ev with
  | EvInitialized e => in_header e
  | EvDenied e => dn_header e
  | EvEmulated e => em_header e
  | EvReleased e => rl_header e
  | EvSubmitted e => sb_header e
  | EvAccepted e => ac_header e
  | EvRejected e => rj_header e
  | EvCanceled e => cn_header e
  | EvExpired e => ex_header e
  | EvTriggered e => tr_header e
  | EvPendingUpdate e => pu_header e
  | EvPendingCancel e => pc_header e
  | EvModifyRejected e => mr_header e
  | EvCancelRejected e => cr_header e
  | EvUpdated e => up_header e
  | EvFilled e => fl_header e
  end.

Definition event_trader_id ev : TraderId := h_trader_id (event_header ev).
Definition event_client_order_id ev : ClientOrderId := h_client_order_id (event_header ev).
Definition event_strategy_id ev : StrategyId := h_strategy_id (event_header ev).
Definition event_instrument_id ev : InstrumentId := h_instrument_id (event_header ev).
Definition event_ts_event ev : UnixNanos := h_ts_event (event_header ev).

Definition event_venue_order_id ev : option VenueOrderId :=
  match ev with
  | EvAccepted e => Some (ac_venue_order_id e)
  | EvCanceled e => cn_venue_order_id e
  | EvExpired e => ex_venue_order_id e
  | EvTriggered e => tr_venue_order_id e
  | EvPendingUpdate e => pu_venue_order_id e
  | EvPendingCancel e => pc_venue_order_id e
  | EvModifyRejected e => mr_venue_order_id e
  | EvCancelRejected e => cr_venue_order_id e
  | EvUpdated e => up_venue_order_id e
  | EvFilled e => Some (fl_venue_order_id e)
  | _ => None
  end.

Definition event_account_id ev : option AccountId :=
  match ev with
  | EvSubmitted e => Some (sb_account_id e)
  | EvAccepted e => Some (ac_account_id e)
  | EvRejected e => Some (rj_account_id e)
  | EvCanceled e => cn_account_id e
  | EvExpired e => ex_account_id e
  | EvTriggered e => tr_account_id e
  | EvPendingUpdate e => Some (pu_account_id e)
  | EvPendingCancel e => Some (pc_account_id e)
  | EvModifyRejected e => mr_account_id e
  | EvCancelRejected e => cr_account_id e
  | EvUpdated e => up_account_id e
  | EvFilled e => Some (fl_account_id e)
  | _ => None
  end.

Definition event_message ev : option Ustr :=
  match ev with
  | EvDenied e => Some (dn_reason e)
  | EvRejected e => Some (rj_reason e)
  | EvModifyRejected e => Some (mr_reason e)
  | EvCancelRejected e => Some (cr_reason e)
  | _ => None
  end.

Definition event_into_filled {E} ev : outcome E OrderFilled :=
  match ev with EvFilled e => Ok e | _ => Panic end.

(** [matches!] on the variants the code tests for. *)
Definition is_filled ev : bool := match ev with EvFilled _ => true | _ => false end.
Definition is_triggered_event ev : bool :=
  match ev with EvTriggered _ => true | _ => false end.
End Events.
