(* ===== verification/OrderCore.v ===== *)
(** * The order state machine ([crates/model/src/orders/mod.rs])

    [OrderStatus::transition], the mutable order core with its event handlers
    and [OrderCore::apply], and the predicates of the [Order] trait that read
    only the core.  A mutating method returns the new core beside its result,
    because an error leaves the mutations made before it in place. *)

From stdpp Require Import base numbers list strings.
From Stdlib Require Import ZArith Lia.
From S2P Require Import Prelude F64 Fixed Price Quantity Money Enums OrderEvents.

Inductive OrderError : Type :=
  | NotFound (id : ClientOrderId)
  | NoOrderSideError
  | InvalidOrderEvent
  | InvalidStateTransition
  | AlreadyInitialized
  | NoPreviousState
  | DuplicateFill (id : TradeId)
  | Invariant (e : CorrectnessError).

Definition STOP_ORDER_TYPES : list OrderType :=
  [StopMarket; StopLimit; MarketIfTouched; LimitIfTouched].
Definition LIMIT_ORDER_TYPES : list OrderType :=
  [Limit; StopLimit; LimitIfTouched; TrailingStopLimit].
Definition TRIGGERABLE_ORDER_TYPES : list OrderType :=
  [StopLimit; TrailingStopLimit; LimitIfTouched].
Definition LOCAL_ACTIVE_ORDER_STATUSES : list OrderStatus :=
  [Initialized; Emulated; Released].
Definition CANCELLABLE_ORDER_STATUSES : list OrderStatus :=
  [Accepted; Triggered; PendingUpdate; PartiallyFilled].

(** The [?] operator on a [CorrectnessResult] converts the error. *)
Definition from_correctness {A} (r : CorrectnessResult A) : outcome OrderError A :=
  match r with Ok a => Ok a | Err e => Err (Invariant e) | Panic => Panic end.

Definition check_display_qty (display_qty : option Quantity) (quantity : Quantity)
  : outcome OrderError unit :=
  match display_qty with
  | Some q => from_correctness (check_predicate_false (qty_gtb q quantity))
  | None => Ok tt
  end.

Definition check_time_in_force (time_in_force : TimeInForce) (expire_time : option UnixNanos)
  : outcome OrderError unit :=
  from_correctness (check_predicate_false
    (bool_decide (time_in_force = Gtd) && (default 0 expire_time =? 0))).

(** The transition table: one line per source status, in the source's order. *)
Definition transition {Dec} (self : OrderStatus) (event : OrderEventAny Dec)
  : outcome OrderError OrderStatus :=
  match self, event with
  | Initialized, EvDenied _ => Ok Denied
  | Initialized, EvEmulated _ => Ok Emulated
  | Initialized, EvReleased _ => Ok Released
  | Initialized, EvSubmitted _ => Ok Submitted
  | Initialized, EvRejected _ => Ok Rejected
  | Initialized, EvAccepted _ => Ok Accepted
  | Initialized, EvCanceled _ => Ok Canceled
  | Initialized, EvExpired _ => Ok Expired
  | Initialized, EvTriggered _ => Ok Triggered
  | Initialized, EvUpdated _ => Ok Initialized
  | Emulated, EvCanceled _ => Ok Canceled
  | Emulated, EvExpired _ => Ok Expired
  | Emulated, EvReleased _ => Ok Released
  | Released, EvSubmitted _ => Ok Submitted
  | Released, EvDenied _ => Ok Denied
  | Released, EvCanceled _ => Ok Canceled
  | Released, EvUpdated _ => Ok Released
  | Submitted, EvPendingUpdate _ => Ok PendingUpdate
  | Submitted, EvPendingCancel _ => Ok PendingCancel
  | Submitted, EvRejected _ => Ok Rejected
  | Submitted, EvCanceled _ => Ok Canceled
  | Submitted, EvAccepted _ => Ok Accepted
  | Submitted, EvUpdated _ => Ok Submitted
  | Submitted, EvFilled _ => Ok Filled
  | Accepted, EvRejected _ => Ok Rejected
  | Accepted, EvPendingUpdate _ => Ok PendingUpdate
  | Accepted, EvPendingCancel _ => Ok PendingCancel
  | Accepted, EvCanceled _ => Ok Canceled
  | Accepted, EvTriggered _ => Ok Triggered
  | Accepted, EvUpdated _ => Ok Accepted
  | Accepted, EvExpired _ => Ok Expired
  | Accepted, EvFilled _ => Ok Filled
  | Canceled, EvFilled _ => Ok Filled
  | PendingUpdate, EvRejected _ => Ok Rejected
  | PendingUpdate, EvAccepted _ => Ok Accepted
  | PendingUpdate, EvCanceled _ => Ok Canceled
  | PendingUpdate, EvExpired _ => Ok Expired
  | PendingUpdate, EvTriggered _ => Ok Triggered
  | PendingUpdate, EvPendingUpdate _ => Ok PendingUpdate
  | PendingUpdate, EvPendingCancel _ => Ok PendingCancel
  | PendingUpdate, EvModifyRejected _ => Ok PendingUpdate
  | PendingUpdate, EvUpdated _ => Ok PendingUpdate
  | PendingUpdate, EvFilled _ => Ok Filled
  | PendingCancel, EvRejected _ => Ok Rejected
  | PendingCancel, EvPendingCancel _ => Ok PendingCancel
  | PendingCancel, EvCancelRejected _ => Ok PendingCancel
  | PendingCancel, EvCanceled _ => Ok Canceled
  | PendingCancel, EvExpired _ => Ok Expired
  | PendingCancel, EvAccepted _ => Ok Accepted
  | PendingCancel, EvFilled _ => Ok Filled
  | Triggered, EvRejected _ => Ok Rejected
  | Triggered, EvPendingUpdate _ => Ok PendingUpdate
  | Triggered, EvPendingCancel _ => Ok PendingCancel
  | Triggered, EvCanceled _ => Ok Canceled
  | Triggered, EvExpired _ => Ok Expired
  | Triggered, EvFilled _ => Ok Filled
  | Triggered, EvUpdated _ => Ok Triggered
  | PartiallyFilled, EvPendingUpdate _ => Ok PendingUpdate
  | PartiallyFilled, EvPendingCancel _ => Ok PendingCancel
  | PartiallyFilled, EvCanceled _ => Ok Canceled
  | PartiallyFilled, EvExpired _ => Ok Expired
  | PartiallyFilled, EvFilled _ => Ok Filled
  | PartiallyFilled, EvAccepted _ => Ok Accepted
  | PartiallyFilled, EvUpdated _ => Ok PartiallyFilled
  | _, _ => Err InvalidStateTransition
  end.

Record OrderCore {Dec : Type} : Type := mkOrderCore {
  o_events : list (OrderEventAny Dec);
  o_commissions : list (Currency * Money);
  o_venue_order_ids : list VenueOrderId;
  o_trade_ids : list TradeId;
  o_previous_status : option OrderStatus;
  o_status : OrderStatus;
  o_trader_id : TraderId;
  o_strategy_id : StrategyId;
  o_instrument_id : InstrumentId;
  o_client_order_id : ClientOrderId;
  o_venue_order_id : option VenueOrderId;
  o_position_id : option PositionId;
  o_account_id : option AccountId;
  o_last_trade_id : option TradeId;
  o_side : OrderSide;
  o_order_type : OrderType;
  o_quantity : Quantity;
  o_time_in_force : TimeInForce;
  o_liquidity_side : option LiquiditySide;
  o_is_reduce_only : bool;
  o_is_quote_quantity : bool;
  o_emulation_trigger : option TriggerType;
  o_contingency_type : option ContingencyType;
  o_order_list_id : option OrderListId;
  o_linked_order_ids : option (list ClientOrderId);
  o_parent_order_id : option ClientOrderId;
  o_exec_algorithm_id : option ExecAlgorithmId;
  o_exec_algorithm_params : option (list (Ustr * Ustr));
  o_exec_spawn_id : option ClientOrderId;
  o_tags : option (list Ustr);
  o_filled_qty : Quantity;
  o_leaves_qty : Quantity;
  o_overfill_qty : Quantity;
  o_avg_px : option f64;
  o_slippage : option f64;
  o_init_id : UUID4;
  o_ts_init : UnixNanos;
  o_ts_submitted : option UnixNanos;
  o_ts_accepted : option UnixNanos;
  o_ts_closed : option UnixNanos;
  o_ts_last : UnixNanos;
}.
Arguments OrderCore : clear implicits.

#[export] Instance order_core_eta Dec : Eta (OrderCore Dec) := fun o =>
  mkOrderCore Dec (o_events o) (o_commissions o) (o_venue_order_ids o) (o_trade_ids o)
    (o_previous_status o) (o_status o) (o_trader_id o) (o_strategy_id o)
    (o_instrument_id o) (o_client_order_id o) (o_venue_order_id o) (o_position_id o)
    (o_account_id o) (o_last_trade_id o) (o_side o) (o_order_type o) (o_quantity o)
    (o_time_in_force o) (o_liquidity_side o) (o_is_reduce_only o) (o_is_quote_quantity o)
    (o_emulation_trigger o) (o_contingency_type o) (o_order_list_id o)
    (o_linked_order_ids o) (o_parent_order_id o) (o_exec_algorithm_id o)
    (o_exec_algorithm_params o) (o_exec_spawn_id o) (o_tags o) (o_filled_qty o)
    (o_leaves_qty o) (o_overfill_qty o) (o_avg_px o) (o_slippage o) (o_init_id o)
    (o_ts_init o) (o_ts_submitted o) (o_ts_accepted o) (o_ts_closed o) (o_ts_last o).

Section OrderCore.
Context `{M : Mode} {Dec : Type}.
Abbreviation Core := (OrderCore Dec).
Abbreviation Event := (OrderEventAny Dec).
Implicit Type self : Core.

(** [OrderCore::new]; [Quantity::zero] can panic. *)
Definition core_new {E} (init : OrderInitialized Dec) : outcome E Core :=
  let h := in_header init in
  zero_qty ← qty_zero (q_precision (in_quantity init));
  Ok {|
    o_events := [EvInitialized init];
    o_commissions := [];
    o_venue_order_ids := [];
    o_trade_ids := [];
    o_previous_status := None;
    o_status := Initialized;
    o_trader_id := h_trader_id h;
    o_strategy_id := h_strategy_id h;
    o_instrument_id := h_instrument_id h;
    o_client_order_id := h_client_order_id h;
    o_venue_order_id := None;
    o_position_id := None;
    o_account_id := None;
    o_last_trade_id := None;
    o_side := in_order_side init;
    o_order_type := in_order_type init;
    o_quantity := in_quantity init;
    o_time_in_force := in_time_in_force init;
    o_liquidity_side := Some NoLiquiditySide;
    o_is_reduce_only := in_reduce_only init;
    o_is_quote_quantity := in_quote_quantity init;
    o_emulation_trigger :=
      match in_emulation_trigger init with Some t => Some t | None => Some NoTrigger end;
    o_contingency_type :=
      match in_contingency_type init with Some c => Some c | None => Some NoContingency end;
    o_order_list_id := in_order_list_id init;
    o_linked_order_ids := in_linked_order_ids init;
    o_parent_order_id := in_parent_order_id init;
    o_exec_algorithm_id := in_exec_algorithm_id init;
    o_exec_algorithm_params := in_exec_algorithm_params init;
    o_exec_spawn_id := in_exec_spawn_id init;
    o_tags := in_tags init;
    o_filled_qty := zero_qty;
    o_leaves_qty := in_quantity init;
    o_overfill_qty := zero_qty;
    o_avg_px := None;
    o_slippage := None;
    o_init_id := h_event_id h;
    o_ts_init := h_ts_event h;
    o_ts_submitted := None;
    o_ts_accepted := None;
    o_ts_closed := None;
    o_ts_last := h_ts_event h;
  |}.

(** *** Event handlers *)

Definition denied self (event : OrderDenied) : Core :=
  self <| o_ts_closed := Some (h_ts_event (dn_header event)) |>.
Definition emulated self (event : OrderEmulated) : Core := self.
Definition released self (event : OrderReleased) : Core :=
  self <| o_emulation_trigger := None |>.
Definition submitted self (event : OrderSubmitted) : Core :=
  self <| o_account_id := Some (sb_account_id event) |>
       <| o_ts_submitted := Some (h_ts_event (sb_header event)) |>.
Definition accepted self (event : OrderAccepted) : Core :=
  self <| o_account_id := Some (ac_account_id event) |>
       <| o_venue_order_id := Some (ac_venue_order_id event) |>
       <| o_venue_order_ids := o_venue_order_ids self ++ [ac_venue_order_id event] |>
       <| o_ts_accepted := Some (h_ts_event (ac_header event)) |>.
Definition rejected self (event : OrderRejected) : Core :=
  self <| o_ts_closed := Some (h_ts_event (rj_header event)) |>.
Definition pending_update self (event : OrderPendingUpdate) : Core := self.
Definition pending_cancel self (event : OrderPendingCancel) : Core := self.
Definition modify_rejected self (event : OrderModifyRejected) : outcome OrderError Core :=
  previous ← ok_or (o_previous_status self) NoPreviousState;
  Ok (self <| o_status := previous |>).
Definition cancel_rejected self (event : OrderCancelRejected) : outcome OrderError Core :=
  previous ← ok_or (o_previous_status self) NoPreviousState;
  Ok (self <| o_status := previous |>).
Definition triggered self (event : OrderTriggered) : Core := self.
Definition canceled self (event : OrderCanceled) : Core :=
  self <| o_ts_closed := Some (h_ts_event (cn_header event)) |>.
Definition expired self (event : OrderExpired) : Core :=
  self <| o_ts_closed := Some (h_ts_event (ex_header event)) |>.

Definition updated self (event : OrderUpdated) : Core :=
  let self :=
    match o_status self, o_previous_status self with
    | PendingUpdate, Some previous => self <| o_status := previous |>
    | _, _ => self
    end in
  let self :=
    match up_venue_order_id event with
    | Some venue_order_id =>
        if bool_decide (o_venue_order_id self = Some venue_order_id) then self
        else self <| o_venue_order_id := Some venue_order_id |>
                  <| o_venue_order_ids := o_venue_order_ids self ++ [venue_order_id] |>
    | None => self
    end in
  self <| o_is_quote_quantity := up_is_quote_quantity event |>.

(** The running average price, weighted by the quantity filled before. *)
Definition set_avg_px {E} self (last_qty : Quantity) (last_px : Price) : outcome E Core :=
  match o_avg_px self with
  | None =>
      px ← price_as_f64 last_px;
      Ok (self <| o_avg_px := Some px |>)
  | Some avg =>
      prev ← qty_sub (o_filled_qty self) last_qty;
      prev_filled_qty ← qty_as_f64 prev;
      last_qty_f64 ← qty_as_f64 last_qty;
      let total_qty := F64.add prev_filled_qty last_qty_f64 in
      px ← price_as_f64 last_px;
      let avg_px :=
        F64.div (F64.mul_add avg prev_filled_qty (F64.mul px last_qty_f64)) total_qty in
      Ok (self <| o_avg_px := Some avg_px |>)
  end.

Definition filled {E} self (event : OrderFilled) : outcome E Core :=
  let ts := h_ts_event (fl_header event) in
  new_filled_qty ← qty_from_raw
    (saturate QuantityRaw (q_raw (o_filled_qty self) + q_raw (fl_last_qty event)))
    (q_precision (o_filled_qty self));
  self ← (if qty_gtb new_filled_qty (o_quantity self) then
            let overfill_raw := wrap QuantityRaw (q_raw new_filled_qty - q_raw (o_quantity self)) in
            overfill ← qty_from_raw
              (saturate QuantityRaw (q_raw (o_overfill_qty self) + overfill_raw))
              (q_precision (o_filled_qty self));
            Ok (self <| o_overfill_qty := overfill |>)
          else Ok self);
  let self :=
    if qty_ltb new_filled_qty (o_quantity self) then self <| o_status := PartiallyFilled |>
    else self <| o_status := Filled |> <| o_ts_closed := Some ts |> in
  let self :=
    self <| o_venue_order_id := Some (fl_venue_order_id event) |>
         <| o_position_id := fl_position_id event |>
         <| o_trade_ids := o_trade_ids self ++ [fl_trade_id event] |>
         <| o_last_trade_id := Some (fl_trade_id event) |>
         <| o_liquidity_side := Some (fl_liquidity_side event) |>
         <| o_filled_qty := new_filled_qty |>
         <| o_leaves_qty := qty_saturating_sub (o_leaves_qty self) (fl_last_qty event) |>
         <| o_ts_last := ts |> in
  let self :=
    match o_ts_accepted self with
    | None => self <| o_ts_accepted := Some ts |>
    | Some _ => self
    end in
  set_avg_px self (fl_last_qty event) (fl_last_px event).

(** The [match &event] of [apply]. *)
Definition handle self (event : Event) : outcome OrderError Core :=
  match event with
  | EvInitialized _ => Err AlreadyInitialized
  | EvDenied e => Ok (denied self e)
  | EvEmulated e => Ok (emulated self e)
  | EvReleased e => Ok (released self e)
  | EvSubmitted e => Ok (submitted self e)
  | EvRejected e => Ok (rejected self e)
  | EvAccepted e => Ok (accepted self e)
  | EvPendingUpdate e => Ok (pending_update self e)
  | EvPendingCancel e => Ok (pending_cancel self e)
  | EvModifyRejected e => modify_rejected self e
  | EvCancelRejected e => cancel_rejected self e
  | EvUpdated e => Ok (updated self e)
  | EvTriggered e => Ok (triggered self e)
  | EvCanceled e => Ok (canceled self e)
  | EvExpired e => Ok (expired self e)
  | EvFilled e => filled self e
  end.

(** The guard under which [apply] saves the current status. *)
Definition saves_previous (status : OrderStatus) (event : Event) : bool :=
  negb match event with
       | EvInitialized _ | EvModifyRejected _ | EvCancelRejected _ => true
       | _ => false
       end
  && negb match status with PendingUpdate | PendingCancel => true | _ => false end.

Definition duplicate_trade_id self (event : Event) : option TradeId :=
  match event with
  | EvFilled fill =>
      if bool_decide (fl_trade_id fill ∈ o_trade_ids self) then Some (fl_trade_id fill)
      else None
  | _ => None
  end.

(** [OrderCore::apply]: the core as the call leaves it, and its result. *)
Definition core_apply self (event : Event) : Core * outcome OrderError unit :=
  if negb (bool_decide (o_client_order_id self = event_client_order_id event)) then
    (self, Err (Invariant PredicateViolation))
  else if negb (bool_decide (o_strategy_id self = event_strategy_id event)) then
    (self, Err (Invariant PredicateViolation))
  else
    let self :=
      if saves_previous (o_status self) event
      then self <| o_previous_status := Some (o_status self) |> else self in
    match duplicate_trade_id self event with
    | Some id => (self, Err (DuplicateFill id))
    | None =>
        if is_triggered_event event
           && negb (bool_decide (o_order_type self ∈ TRIGGERABLE_ORDER_TYPES))
        then (self, Err InvalidOrderEvent)
        else
          match transition (o_status self) event with
          | Ok new_status =>
              let self := self <| o_status := new_status |> in
              match handle self event with
              | Ok self =>
                  (self <| o_ts_last := event_ts_event event |>
                        <| o_events := o_events self ++ [event] |>, Ok tt)
              | Err e => (self, Err e)
              | Panic => (self, Panic)
              end
          | Err e => (self, Err e)
          | Panic => (self, Panic)
          end
    end.

Definition set_slippage {E} self (price : Price) : outcome E Core :=
  match o_avg_px self with
  | None => Ok (self <| o_slippage := None |>)
  | Some avg_px =>
      current_price ← price_as_f64 price;
      Ok (self <| o_slippage :=
        match o_side self with
        | Buy => if F64.gtb avg_px current_price
                 then Some (F64.sub avg_px current_price) else None
        | Sell => if F64.ltb avg_px current_price
                  then Some (F64.sub current_price avg_px) else None
        | NoOrderSide => None
        end |>)
  end.

(** The last two lines of every order type's [update]. *)
Definition update_quantity self (quantity : Quantity) : Core :=
  self <| o_quantity := quantity |>
       <| o_leaves_qty := qty_saturating_sub quantity (o_filled_qty self) |>.

(** The setters of the [Order] trait, the same for every order type. *)
Definition set_position_id self (position_id : option PositionId) : Core :=
  self <| o_position_id := position_id |>.
Definition set_quantity self (quantity : Quantity) : Core := self <| o_quantity := quantity |>.
Definition set_leaves_qty self (leaves_qty : Quantity) : Core :=
  self <| o_leaves_qty := leaves_qty |>.
Definition set_emulation_trigger self (emulation_trigger : option TriggerType) : Core :=
  self <| o_emulation_trigger := emulation_trigger |>.
Definition set_is_quote_quantity self (is_quote_quantity : bool) : Core :=
  self <| o_is_quote_quantity := is_quote_quantity |>.
Definition set_liquidity_side self (liquidity_side : LiquiditySide) : Core :=
  self <| o_liquidity_side := Some liquidity_side |>.

(** *** Queries *)

Definition opposite_side (side : OrderSide) : OrderSide :=
  match side with Buy => Sell | Sell => Buy | NoOrderSide => NoOrderSide end.
Definition closing_side (side : PositionSide) : OrderSide :=
  match side with
  | Long => Sell
  | Short => Buy
  | Flat => NoOrderSide
  | NoPositionSide => NoOrderSide
  end.

Definition would_reduce_only self (side : PositionSide) (position_qty : Quantity) : bool :=
  if bool_decide (side = Flat) then false
  else
    match o_side self, side with
    | Buy, Long => false
    | Buy, Short => qty_leb (o_leaves_qty self) position_qty
    | Sell, Short => false
    | Sell, Long => qty_leb (o_leaves_qty self) position_qty
    | _, _ => true
    end.

Definition commission self (currency : Currency) : option Money :=
  snd <$> find (fun kv => currency_eqb kv.1 currency) (o_commissions self).
Definition commissions_vec self : list Money := snd <$> o_commissions self.
Definition init_event self : option Event := head (o_events self).

Definition calculate_overfill {E} self (fill_qty : Quantity) : outcome E Quantity :=
  potential_filled ← qty_add (o_filled_qty self) fill_qty;
  if qty_gtb potential_filled (o_quantity self) then qty_sub potential_filled (o_quantity self)
  else qty_zero (q_precision fill_qty).

Definition last_event {E} self : outcome E Event := expect (last (o_events self)).

Definition is_duplicate_fill self (fill : OrderFilled) : bool :=
  existsb (fun ev =>
    match ev with
    | EvFilled existing =>
        bool_decide (fl_trade_id existing = fl_trade_id fill)
        && bool_decide (fl_order_side existing = fl_order_side fill)
        && qty_eqb (fl_last_qty existing) (fl_last_qty fill)
        && price_eqb (fl_last_px existing) (fl_last_px fill)
    | _ => false
    end) (o_events self).

Definition is_buy self : bool := bool_decide (o_side self = Buy).
Definition is_sell self : bool := bool_decide (o_side self = Sell).
Definition is_passive self : bool := negb (bool_decide (o_order_type self = Market)).
Definition is_aggressive self : bool := bool_decide (o_order_type self = Market).
Definition is_emulated self : bool := bool_decide (o_status self = Emulated).
Definition is_active_local self : bool :=
  match o_status self with Initialized | Emulated | Released => true | _ => false end.
Definition is_primary self : bool :=
  bool_decide (is_Some (o_exec_algorithm_id self))
  && match o_exec_spawn_id self with
     | Some spawn_id => bool_decide (o_client_order_id self = spawn_id)
     | None => false
     end.
Definition is_spawned self : bool :=
  bool_decide (is_Some (o_exec_algorithm_id self))
  && match o_exec_spawn_id self with
     | Some spawn_id => negb (bool_decide (o_client_order_id self = spawn_id))
     | None => false
     end.
Definition is_contingency self : bool := bool_decide (is_Some (o_contingency_type self)).
Definition is_parent_order self : bool :=
  match o_contingency_type self with Some c => bool_decide (c = Oto) | None => false end.
Definition is_child_order self : bool := bool_decide (is_Some (o_parent_order_id self)).

(** [if let Some(t) = emulation_trigger && t != NoTrigger]. *)
Definition has_emulation_trigger self : bool :=
  match o_emulation_trigger self with
  | Some t => negb (bool_decide (t = NoTrigger))
  | None => false
  end.
Definition is_open self : bool :=
  if has_emulation_trigger self then false
  else match o_status self with
       | Accepted | Triggered | PendingCancel | PendingUpdate | PartiallyFilled => true
       | _ => false
       end.
Definition is_canceled self : bool := bool_decide (o_status self = Canceled).
Definition is_closed self : bool :=
  match o_status self with
  | Denied | Rejected | Canceled | Expired | Filled => true
  | _ => false
  end.
Definition is_inflight self : bool :=
  if has_emulation_trigger self then false
  else match o_status self with
       | Submitted | PendingCancel | PendingUpdate => true
       | _ => false
       end.
Definition is_pending_update self : bool := bool_decide (o_status self = PendingUpdate).
Definition is_pending_cancel self : bool := bool_decide (o_status self = PendingCancel).

Section Decimals.
Context `{DecimalApi Dec}.
(** Negation of a decimal is [dec_neg], supplied by the decimal library. *)
Definition signed_decimal_qty {E} (dec_neg : Dec -> Dec) self : outcome E Dec :=
  match o_side self with
  | Buy => qty_as_decimal (o_quantity self)
  | Sell => d ← qty_as_decimal (o_quantity self); Ok (dec_neg d)
  | NoOrderSide => Panic
  end.
End Decimals.
End OrderCore.
