(* ===== verification/OrderLife.v ===== *)
(** * The life of an order

    Steps of an order core, the cores reachable from a creation event, and the
    invariants they satisfy: quantities against the event log, trades recorded
    once, pending orders able to be restored, closed orders stamped. *)

From stdpp Require Import base numbers list strings relations.
From Stdlib Require Import ZArith Lia.
From S2P Require Import Prelude F64 Fixed Price Quantity Money Enums OrderEvents OrderCore.

Section Life.
Context `{M : Mode} {Dec : Type}.
Abbreviation Core := (OrderCore Dec).
Abbreviation Event := (OrderEventAny Dec).
Implicit Type self : Core.

(* ------------------------------------------------------------------ *)
(** ** Steps of an order's life

    Every order type applies an event to its core, and after an [OrderUpdated]
    replaces the quantity and recomputes the leaves quantity; after a fill it
    may recompute the slippage. *)

Definition core_event self (event : Event) : Core * outcome OrderError unit :=
  match core_apply self event with
  | (self, Ok tt) =>
      match event with
      | EvUpdated e => (update_quantity self (up_quantity e), Ok tt)
      | _ => (self, Ok tt)
      end
  | r => r
  end.

(** The raw quantities an event carries are values of the raw type. *)
Definition event_in_ty (event : Event) : Prop :=
  match event with
  | EvFilled f => in_ty QuantityRaw (q_raw (fl_last_qty f)) = true
  | EvUpdated e => in_ty QuantityRaw (q_raw (up_quantity e)) = true
  | _ => True
  end.

Inductive core_step : Core -> Core -> Prop :=
  | step_event self event self' r :
      event_in_ty event -> core_event self event = (self', r) -> r <> Panic ->
      core_step self self'
  | step_slippage self price self' :
      set_slippage (E := OrderError) self price = Ok self' -> core_step self self'.

(** [reachable init self]: the core of an order created from [init] and run. *)
Inductive reachable (init : OrderInitialized Dec) : Core -> Prop :=
  | reachable_new self :
      in_ty QuantityRaw (q_raw (in_quantity init)) = true ->
      0 <= q_precision (in_quantity init) ->
      core_new (E := OrderError) init = Ok self -> reachable init self
  | reachable_step self self' :
      reachable init self -> core_step self self' -> reachable init self'.

(** What the event log says was filled. *)
Definition fills (events : list Event) : list OrderFilled :=
  omap (fun ev => match ev with EvFilled f => Some f | _ => None end) events.
Definition fill_total (events : list Event) : Z :=
  foldr (fun f acc => q_raw (fl_last_qty f) + acc) 0 (fills events).
Definition fill_ids (events : list Event) : list TradeId := fl_trade_id <$> fills events.
#[local] Arguments fill_total : simpl never.
#[local] Arguments fill_ids : simpl never.
#[local] Arguments qty_saturating_sub : simpl never.

(** Statuses an order can be restored to after a pending request. *)
Definition is_working (s : OrderStatus) : bool :=
  match s with Submitted | Accepted | Triggered | PartiallyFilled => true | _ => false end.
Definition is_pending (s : OrderStatus) : bool :=
  match s with PendingUpdate | PendingCancel => true | _ => false end.

(** The quantities agree with the event log and with each other. *)
Record quantities_inv self : Prop := {
  inv_quantity : 0 <= q_raw (o_quantity self) <= QUANTITY_UNDEF;
  inv_filled : q_raw (o_filled_qty self) = Z.min QUANTITY_UNDEF (fill_total (o_events self));
  inv_total : 0 <= fill_total (o_events self);
  inv_leaves : q_raw (o_leaves_qty self) =
    Z.max 0 (q_raw (o_quantity self) - q_raw (o_filled_qty self));
  inv_overfill : q_raw (o_overfill_qty self) =
    if decide (o_status self = Filled)
    then q_raw (o_filled_qty self) - q_raw (o_quantity self) else 0;
  inv_done : o_status self = Filled -> q_raw (o_quantity self) <= q_raw (o_filled_qty self);
}.

(** Trades are recorded once each. *)
Record trades_inv self : Prop := {
  inv_trade_ids : o_trade_ids self = fill_ids (o_events self);
  inv_nodup : NoDup (o_trade_ids self);
  inv_last_trade : o_last_trade_id self = last (o_trade_ids self);
  inv_avg_px : is_Some (o_avg_px self) <-> o_trade_ids self <> [];
}.

(** A pending order remembers a working status; a closed one when it closed. *)
Record status_inv self : Prop := {
  inv_pending : is_pending (o_status self) = true ->
    exists s, o_previous_status self = Some s /\ is_working s = true;
  inv_closed : is_closed self = true -> is_Some (o_ts_closed self);
  inv_log : exists init rest,
    o_events self = EvInitialized init :: rest /\
    Forall (fun ev => match ev with EvInitialized _ => False | _ => True end) rest /\
    Forall (fun ev => event_client_order_id ev = o_client_order_id self /\
                      event_strategy_id ev = o_strategy_id self) (o_events self);
}.

(* ------------------------------------------------------------------ *)
(** ** The transition table *)

Lemma transition_from_filled (ev : Event) : transition Filled ev = Err InvalidStateTransition.
Proof. by destruct ev. Qed.

Lemma transition_to_filled s (ev : Event) : transition s ev = Ok Filled -> is_filled ev = true.
Proof. by destruct s, ev. Qed.

Lemma transition_filled s (ev : Event) s' :
  is_filled ev = true -> transition s ev = Ok s' -> s' = Filled.
Proof. destruct s, ev; simpl; congruence. Qed.

Lemma transition_not_filled s (ev : Event) s' :
  is_filled ev = false -> transition s ev = Ok s' -> s <> Filled /\ s' <> Filled.
Proof. destruct s, ev; simpl; intros; split; congruence. Qed.

Lemma transition_no_panic s (ev : Event) : transition s ev <> Panic.
Proof. by destruct s, ev. Qed.

(** Into a pending status: from a working one, or from a pending one. *)
Lemma transition_to_pending s (ev : Event) s' :
  transition s ev = Ok s' -> is_pending s' = true ->
  is_pending s = true \/ (is_working s = true /\ saves_previous s ev = true).
Proof. destruct s, ev; simpl; intros [= <-]; naive_solver. Qed.

(** ** The shape of [core_apply] *)

(** Some results that are never errors. *)
Definition never_err {E A} (r : outcome E A) : Prop := forall e, r <> Err e.

Lemma never_err_bind {E A B} (m : outcome E A) (f : A -> outcome E B) :
  never_err m -> (forall a, never_err (f a)) -> never_err (m ≫= f).
Proof. intros Hm Hf. destruct m; simpl; [apply Hf|by destruct (Hm e)|done]. Qed.

Lemma qty_from_raw_never_err {E} raw p : never_err (qty_from_raw (E := E) raw p).
Proof.
  unfold qty_from_raw, never_err, assert_, unwrap_ok.
  repeat (case_match; simpl; try done).
Qed.

Lemma set_avg_px_never_err {E} self q px : never_err (set_avg_px (E := E) self q px).
Proof.
  unfold set_avg_px, price_as_f64, qty_as_f64, qty_sub.
  case_match; repeat (apply never_err_bind; [|intros]); try done.
  all: unfold assert_, expect; by case_match.
Qed.

Lemma filled_never_err {E} self f : never_err (filled (E := E) self f).
Proof.
  unfold filled. apply never_err_bind; [apply qty_from_raw_never_err|intros q].
  apply never_err_bind; [|intros; apply set_avg_px_never_err].
  case_match; [|done]. apply never_err_bind; [apply qty_from_raw_never_err|done].
Qed.

Definition save_previous self (ev : Event) : Core :=
  if saves_previous (o_status self) ev
  then self <| o_previous_status := Some (o_status self) |> else self.

Lemma save_previous_status self ev : o_status (save_previous self ev) = o_status self.
Proof. unfold save_previous. by destruct saves_previous. Qed.

Lemma set_status_id self : self <| o_status := o_status self |> = self.
Proof. by destruct self. Qed.

Lemma core_apply_Ok self ev self' :
  core_apply self ev = (self', Ok tt) ->
  o_client_order_id self = event_client_order_id ev /\
  o_strategy_id self = event_strategy_id ev /\
  duplicate_trade_id self ev = None /\
  exists new s1, transition (o_status self) ev = Ok new /\
    handle ((save_previous self ev) <| o_status := new |>) ev = Ok s1 /\
    self' = s1 <| o_ts_last := event_ts_event ev |> <| o_events := o_events s1 ++ [ev] |>.
Proof.
  unfold core_apply. fold (save_previous self ev).
  case_bool_decide as H1; [|done]. case_bool_decide as H2; [|done]. simpl.
  assert (duplicate_trade_id (save_previous self ev) ev = duplicate_trade_id self ev) as ->
    by (unfold save_previous; by destruct saves_previous).
  destruct duplicate_trade_id; [done|]. destruct (_ && _); [done|].
  rewrite save_previous_status.
  destruct transition as [new|e|] eqn:Ht; [|done|done].
  destruct handle as [s1|e|] eqn:Hh; [|done|done].
  intros [= <-]. naive_solver.
Qed.

(** An error leaves the core as it was, up to the saved previous status. *)
Lemma core_apply_Err self ev self' e :
  core_apply self ev = (self', Err e) -> self' = self \/ self' = save_previous self ev.
Proof.
  unfold core_apply. fold (save_previous self ev).
  case_bool_decide as H1; [|naive_solver]. case_bool_decide as H2; [|naive_solver]. simpl.
  destruct duplicate_trade_id; [naive_solver|]. destruct (_ && _); [naive_solver|].
  rewrite save_previous_status.
  destruct transition as [new|e'|] eqn:Ht; [|naive_solver|naive_solver].
  destruct handle as [s1|e'|] eqn:Hh; [done| |done]. intros [= <- _]. right.
  assert (new = o_status (save_previous self ev)) as ->; [|apply set_status_id].
  rewrite save_previous_status. revert Ht Hh. clear.
  unfold save_previous. destruct ev; try done; destruct (o_status self); try done.
  all: try (by intros [= <-]).
  all: intros _ H; by apply filled_never_err in H.
Qed.

(** ** The fill handler *)

Lemma qty_from_raw_Ok {E} raw p q : qty_from_raw (E := E) raw p = Ok q -> q = mkQty raw p.
Proof.
  unfold qty_from_raw, assert_, unwrap_ok.
  repeat (case_match; simpl; try done); congruence.
Qed.

Lemma set_avg_px_Ok {E} self q px self' :
  set_avg_px (E := E) self q px = Ok self' ->
  exists avg, self' = self <| o_avg_px := Some avg |>.
Proof.
  unfold set_avg_px. destruct (o_avg_px self); intros; outcome_inv; eauto.
Qed.

Definition fill_status (new_filled quantity : Z) : OrderStatus :=
  if new_filled <? quantity then PartiallyFilled else Filled.

(** The handler, field by field. *)
Record filled_spec self (f : OrderFilled) (nf : Z) self' : Prop := {
  fs_filled : o_filled_qty self' = mkQty nf (q_precision (o_filled_qty self));
  fs_overfill : q_raw (o_overfill_qty self') =
    if q_raw (o_quantity self) <? nf
    then saturate QuantityRaw (q_raw (o_overfill_qty self)
           + wrap QuantityRaw (nf - q_raw (o_quantity self)))
    else q_raw (o_overfill_qty self);
  fs_status : o_status self' = fill_status nf (q_raw (o_quantity self));
  fs_closed : o_ts_closed self' =
    if nf <? q_raw (o_quantity self) then o_ts_closed self
    else Some (h_ts_event (fl_header f));
  fs_trades : o_trade_ids self' = o_trade_ids self ++ [fl_trade_id f];
  fs_last : o_last_trade_id self' = Some (fl_trade_id f);
  fs_venue : o_venue_order_id self' = Some (fl_venue_order_id f);
  fs_leaves : o_leaves_qty self' = qty_saturating_sub (o_leaves_qty self) (fl_last_qty f);
  fs_avg : is_Some (o_avg_px self');
  fs_accepted : is_Some (o_ts_accepted self');
  fs_quantity : o_quantity self' = o_quantity self;
  fs_previous : o_previous_status self' = o_previous_status self;
  fs_events : o_events self' = o_events self;
  fs_coid : o_client_order_id self' = o_client_order_id self;
  fs_sid : o_strategy_id self' = o_strategy_id self;
}.

Lemma filled_Ok {E} self f self' :
  filled (E := E) self f = Ok self' ->
  filled_spec self f
    (saturate QuantityRaw (q_raw (o_filled_qty self) + q_raw (fl_last_qty f))) self'.
Proof.
  intros H. unfold filled in H.
  apply bind_Ok_inv in H as (q & Hq & H). apply bind_Ok_inv in H as (s1 & H1 & H).
  apply qty_from_raw_Ok in Hq as ->. apply set_avg_px_Ok in H as [avg ->].
  set (nf := saturate _ _) in *. unfold qty_gtb, qty_ltb, fill_status in *.
  change (q_raw (mkQty nf _)) with nf in *.
  destruct (q_raw (o_quantity self) <? nf) eqn:E1.
  - apply bind_Ok_inv in H1 as (o & Ho & H1). injection H1 as <-.
    apply qty_from_raw_Ok in Ho as ->. assert (E2 : (nf <? q_raw (o_quantity self)) = false) by lia.
    change (o_quantity (set_field _ self)) with (o_quantity self). rewrite E2.
    split; unfold fill_status; rewrite ?E1, ?E2; cbn; try done;
      destruct (o_ts_accepted self) eqn:Ea; cbn; rewrite ?Ea; done.
  - injection H1 as <-.
    split; unfold fill_status; rewrite ?E1; destruct (nf <? _); cbn; try done;
      destruct (o_ts_accepted self) eqn:Ea; cbn; rewrite ?Ea; done.
Qed.

(** ** Handlers other than the fill handler *)

Definition restores (ev : Event) : bool :=
  match ev with EvModifyRejected _ | EvCancelRejected _ | EvUpdated _ => true | _ => false end.

Record frame_spec self (ev : Event) self' : Prop := {
  fr_quantity : o_quantity self' = o_quantity self;
  fr_filled : o_filled_qty self' = o_filled_qty self;
  fr_leaves : o_leaves_qty self' = o_leaves_qty self;
  fr_overfill : o_overfill_qty self' = o_overfill_qty self;
  fr_trades : o_trade_ids self' = o_trade_ids self;
  fr_last : o_last_trade_id self' = o_last_trade_id self;
  fr_avg : o_avg_px self' = o_avg_px self;
  fr_events : o_events self' = o_events self;
  fr_coid : o_client_order_id self' = o_client_order_id self;
  fr_sid : o_strategy_id self' = o_strategy_id self;
  fr_previous : o_previous_status self' = o_previous_status self;
  fr_status : o_status self' = o_status self \/
    (restores ev = true /\ o_previous_status self = Some (o_status self') /\
     is_pending (o_status self) = true);
  fr_closed : o_ts_closed self' = o_ts_closed self \/ is_Some (o_ts_closed self');
}.

Lemma updated_frame self e : frame_spec self (EvUpdated e) (updated self e).
Proof.
  unfold updated. set (s1 := match o_status self with PendingUpdate => _ | _ => _ end).
  assert (F : frame_spec self (EvUpdated e) s1).
  { subst s1. destruct (o_status self) eqn:E1, (o_previous_status self) eqn:E2;
      split; try done; auto. right. simpl. by rewrite E1. }
  clearbody s1. destruct F.
  destruct (up_venue_order_id e); [destruct (bool_decide _)|]; split; cbn; done.
Qed.

(** The status a handler starts from is the one the table gave. *)
Lemma handle_frame self ev new self' :
  is_filled ev = false ->
  transition (o_status self) ev = Ok new ->
  handle ((save_previous self ev) <| o_status := new |>) ev = Ok self' ->
  frame_spec ((save_previous self ev) <| o_status := new |>) ev self'.
Proof.
  intros Hf Ht Hh. set (s0 := set_field _ _) in *.
  assert (Hs : o_status s0 = new) by done. clearbody s0.
  destruct ev; try done; simpl in Hh.
  all: try (injection Hh as <-; split; cbn; auto; done).
  1-2: apply bind_Ok_inv in Hh as (s & Hp & [= <-]); apply ok_or_Ok in Hp;
       split; cbn; auto; right; split; [done|split; [done|]]; rewrite Hs;
       revert Ht; by destruct (o_status self); intros [= <-].
  injection Hh as <-. apply updated_frame.
Qed.

(** The status after a non-fill event, and when it is a closing one. *)
Lemma handle_closed self ev new self' :
  is_filled ev = false ->
  transition (o_status self) ev = Ok new -> status_is_closed new = true ->
  handle ((save_previous self ev) <| o_status := new |>) ev = Ok self' ->
  is_Some (o_ts_closed self').
Proof.
  intros Hf Ht Hc Hh. destruct ev; try done; simpl in Hh; revert Ht Hc.
  all: try (injection Hh as <-; cbn; eauto; done).
  all: destruct (o_status self); intros [= <-]; done.
Qed.

(** ** Preservation *)

Definition core_inv self : Prop := quantities_inv self /\ trades_inv self /\ status_inv self.

(** What the invariants read. *)
Record same_state self self' : Prop := {
  ss_quantity : o_quantity self' = o_quantity self;
  ss_filled : o_filled_qty self' = o_filled_qty self;
  ss_leaves : o_leaves_qty self' = o_leaves_qty self;
  ss_overfill : o_overfill_qty self' = o_overfill_qty self;
  ss_trades : o_trade_ids self' = o_trade_ids self;
  ss_last : o_last_trade_id self' = o_last_trade_id self;
  ss_avg : o_avg_px self' = o_avg_px self;
  ss_events : o_events self' = o_events self;
  ss_coid : o_client_order_id self' = o_client_order_id self;
  ss_sid : o_strategy_id self' = o_strategy_id self;
  ss_status : o_status self' = o_status self;
  ss_closed : o_ts_closed self' = o_ts_closed self;
  ss_previous : is_pending (o_status self) = true ->
    o_previous_status self' = o_previous_status self;
}.

Lemma same_state_inv self self' : same_state self self' -> core_inv self -> core_inv self'.
Proof.
  intros [] (Q & T & S). split_and!.
  - destruct Q; split; rewrite ?ss_quantity0, ?ss_filled0, ?ss_leaves0, ?ss_overfill0,
      ?ss_events0, ?ss_status0; done.
  - destruct T; split; rewrite ?ss_trades0, ?ss_last0, ?ss_avg0, ?ss_events0; done.
  - destruct S; split; unfold is_closed in *; rewrite ?ss_events0, ?ss_coid0, ?ss_sid0,
      ?ss_status0, ?ss_closed0; try done.
    intros Hp. rewrite ss_previous0; auto.
Qed.

Lemma save_previous_same self ev : same_state self (save_previous self ev).
Proof.
  unfold save_previous. destruct saves_previous eqn:E; split; cbn; try done.
  unfold saves_previous in E. intros Hp. destruct (o_status self); try done.
  all: rewrite andb_false_r in E; done.
Qed.

Lemma fills_app l1 l2 : fills (l1 ++ l2) = fills l1 ++ fills l2.
Proof. apply omap_app. Qed.

Lemma fill_total_app l1 l2 :
  fill_total (l1 ++ l2) = fill_total l1 + fill_total l2.
Proof.
  unfold fill_total. rewrite fills_app. induction (fills l1); simpl; lia.
Qed.

Lemma fill_ids_app l1 l2 : fill_ids (l1 ++ l2) = fill_ids l1 ++ fill_ids l2.
Proof. unfold fill_ids. by rewrite fills_app, fmap_app. Qed.

Lemma no_fill_log (ev : Event) : is_filled ev = false -> fills [ev] = [].
Proof. by destruct ev. Qed.

(** The log after a successful event. *)
Lemma log_app self ev :
  status_inv self -> transition (o_status self) ev <> Err InvalidStateTransition ->
  o_client_order_id self = event_client_order_id ev ->
  o_strategy_id self = event_strategy_id ev ->
  exists init rest, o_events self ++ [ev] = EvInitialized init :: rest /\
    Forall (fun ev => match ev with EvInitialized _ => False | _ => True end) rest /\
    Forall (fun ev => event_client_order_id ev = o_client_order_id self /\
                      event_strategy_id ev = o_strategy_id self) (o_events self ++ [ev]).
Proof.
  intros [_ _ (init & rest & -> & Hr & Hids)] Ht Hc Hs. exists init, (rest ++ [ev]).
  split_and!; [done| |].
  - apply Forall_app. split; [done|]. constructor; [|done].
    destruct ev; try done. by destruct (o_status self).
  - apply Forall_app. split; [done|]. by repeat constructor.
Qed.

Section Event.
Variables (self : Core) (ev : Event) (self' : Core).
Hypothesis Hinv : core_inv self.
Hypothesis Hty : event_in_ty ev.
Hypothesis Hok : core_apply self ev = (self', Ok tt).

(** The previous status kept for a pending order is a working one. *)
Lemma saved_working new :
  transition (o_status self) ev = Ok new -> is_pending new = true ->
  exists s, o_previous_status (save_previous self ev) = Some s /\ is_working s = true.
Proof using Hinv.
  intros Ht Hp. destruct Hinv as (_ & _ & S).
  destruct (transition_to_pending _ _ _ Ht Hp) as [Hp'|[Hw Hsv]].
  - destruct (inv_pending _ S Hp') as (s & Hprev & Hw). exists s.
    by rewrite (ss_previous _ _ (save_previous_same self ev)).
  - unfold save_previous. rewrite Hsv. cbn. eauto.
Qed.

(** A non-fill event ends in the table's status or restores a working one. *)
Lemma event_status_cases :
  is_filled ev = false ->
  transition (o_status self) ev = Ok (o_status self') \/ is_working (o_status self') = true.
Proof using Hinv Hok.
  intros Hf. destruct (core_apply_Ok _ _ _ Hok) as (_ & _ & _ & new & s1 & Ht & Hh & ->).
  cbn. destruct (fr_status _ _ _ (handle_frame _ _ _ _ Hf Ht Hh)) as [Hs|(Hr & Hs & Hp)].
  - rewrite Hs. by left.
  - right. cbn in Hs, Hp. destruct (saved_working new Ht Hp) as (s & Hprev & Hw).
    rewrite Hprev in Hs. by injection Hs as <-.
Qed.

Lemma event_status_not_filled : is_filled ev = false -> o_status self' <> Filled.
Proof using Hinv Hok.
  intros Hf. destruct (event_status_cases Hf) as [Ht|Hw].
  - by eapply transition_not_filled.
  - by destruct (o_status self').
Qed.

Lemma event_quantities : quantities_inv self'.
Proof using Hinv Hty Hok.
  destruct Hinv as (Q & _ & S). pose proof qty_limits as [Hlim Hmin].
  pose proof event_status_not_filled as Hnf.
  destruct (core_apply_Ok _ _ _ Hok) as (_ & _ & _ & new & s1 & Ht & Hh & Heq).
  assert (Hs0 : o_status self <> Filled).
  { intros E. rewrite E, transition_from_filled in Ht. done. }
  destruct (save_previous_same self ev).
  destruct Q as [Q1 Q2 Q3 Q4 Q5 Q6]. rewrite decide_False in Q5 by done.
  destruct (is_filled ev) eqn:Hf.
  - destruct ev as [| | | | | | | | | | | | | | |f]; try done. simpl in Hty.
    apply qty_in_ty in Hty. apply filled_Ok in Hh as []. cbn in *.
    rewrite ss_quantity0, ss_filled0, ss_leaves0, ss_overfill0, ss_events0 in *.
    set (nf := saturate _ _) in *.
    assert (Hn : nf = Z.min QUANTITY_UNDEF (fill_total (o_events self) + q_raw (fl_last_qty f))).
    { unfold nf, saturate, QUANTITY_UNDEF in *. lia. }
    clearbody nf.
    assert (Hlog : fill_total (o_events s1 ++ [EvFilled f])
                   = fill_total (o_events self) + q_raw (fl_last_qty f)).
    { rewrite fs_events0, fill_total_app. unfold fill_total at 2. simpl. lia. }
    rewrite Heq. split; cbn; rewrite ?Hlog, ?fs_quantity0, ?fs_filled0, ?fs_leaves0,
      ?fs_overfill0, ?fs_status0; cbn [q_raw q_precision]; unfold fill_status in *; try lia.
    + rewrite qty_saturating_sub_raw; lia.
    + destruct (q_raw (o_quantity self) <? nf) eqn:E1;
        destruct (nf <? q_raw (o_quantity self)) eqn:E2; try lia.
      * rewrite decide_True by done. rewrite wrap_id by (apply qty_in_ty; lia).
        rewrite saturate_id; [lia|apply qty_in_ty; lia].
      * rewrite decide_False by done. lia.
      * rewrite decide_True by done. lia.
    + destruct (nf <? _) eqn:E; [done|lia].
  - specialize (Hnf eq_refl). apply handle_frame in Hh; [|done..]. destruct Hh.
    assert (Hlog : fill_total (o_events s1 ++ [ev]) = fill_total (o_events self)).
    { rewrite fill_total_app, fr_events0. cbn. rewrite ss_events0.
      unfold fill_total at 2. rewrite no_fill_log by done. simpl. lia. }
    cbn in *. rewrite ss_quantity0, ss_filled0, ss_leaves0, ss_overfill0 in *.
    rewrite Heq in *. split; cbn in *; rewrite ?Hlog, ?fr_quantity0, ?fr_filled0,
      ?fr_leaves0, ?fr_overfill0; try done; try lia.
    by rewrite decide_False.
Qed.

Lemma event_trades : trades_inv self'.
Proof using Hinv Hok.
  clear Hty.
  destruct Hinv as (_ & T & _).
  destruct (core_apply_Ok _ _ _ Hok) as (_ & _ & Hd & new & s1 & Ht & Hh & ->).
  destruct (save_previous_same self ev). destruct T as [T1 T2 T3 T4].
  destruct (is_filled ev) eqn:Hf.
  - destruct ev as [| | | | | | | | | | | | | | |f]; try done.
    apply filled_Ok in Hh as []. cbn in *. rewrite ss_trades0 in *. rewrite ss_events0 in *.
    split; cbn; rewrite ?fs_trades0, ?fs_events0, ?fs_last0, ?fill_ids_app, ?last_snoc; try done.
    + by rewrite T1.
    + case_bool_decide as Hin; [done|]. apply NoDup_app. split_and!; [done| |by apply NoDup_singleton].
      intros x Hx ->%list_elem_of_singleton. done.
    + split; [|done]. intros _. by destruct (o_trade_ids self).
  - apply handle_frame in Hh; [|done..]. destruct Hh. cbn in *.
    rewrite ss_trades0, ss_last0, ss_avg0, ss_events0 in *.
    split; cbn; rewrite ?fr_trades0, ?fr_events0, ?fr_last0, ?fr_avg0, ?fill_ids_app; try done.
    unfold fill_ids at 2. rewrite no_fill_log by done. by rewrite app_nil_r.
Qed.

Lemma event_status : status_inv self'.
Proof using Hinv Hok.
  clear Hty. pose proof event_status_cases as Hcases. destruct (Hinv) as (_ & _ & S).
  destruct (core_apply_Ok _ _ _ Hok) as (Hc & Hs & _ & new & s1 & Ht & Hh & Heq).
  assert (Hlog := log_app self ev S ltac:(by rewrite Ht) Hc Hs).
  pose proof (saved_working new Ht) as Hsaved.
  destruct (save_previous_same self ev).
  destruct (is_filled ev) eqn:Hf.
  - clear Hcases Hsaved. destruct ev as [| | | | | | | | | | | | | | |f]; try done.
    apply filled_Ok in Hh as []. cbn in *. rewrite Heq.
    split; unfold is_closed; cbn.
    + rewrite fs_status0. unfold fill_status. by case_match.
    + rewrite fs_status0, fs_closed0. unfold fill_status. case_match; [done|eauto].
    + by rewrite fs_events0, fs_coid0, fs_sid0, ss_events0, ss_coid0, ss_sid0.
  - specialize (Hcases eq_refl). rewrite Ht in Hcases.
    pose proof (fun Hc => handle_closed _ _ _ _ Hf Ht Hc Hh) as Hcl.
    pose proof (handle_frame _ _ _ _ Hf Ht Hh) as []. cbn in *.
    rewrite Heq in *. split; unfold is_closed; cbn in *.
    + intros Hp. destruct Hcases as [[= ->]|Hw]; [|by destruct (o_status s1)].
      rewrite fr_previous0. auto.
    + intros Hp. destruct Hcases as [[= ->]|Hw]; [|by destruct (o_status s1)].
      by apply Hcl.
    + rewrite fr_events0, fr_coid0, fr_sid0. by rewrite ss_events0, ss_coid0, ss_sid0.
Qed.
End Event.

Lemma core_apply_inv self ev self' r :
  core_inv self -> event_in_ty ev -> core_apply self ev = (self', r) -> r <> Panic ->
  core_inv self'.
Proof.
  intros Hinv Hty Hap Hr. destruct r as [[]|e|]; [| |done].
  - split_and!; [eapply event_quantities|eapply event_trades|eapply event_status]; eassumption.
  - apply core_apply_Err in Hap as [->| ->]; [done|].
    eapply same_state_inv; [apply save_previous_same|done].
Qed.

Lemma update_quantity_inv self q :
  in_ty QuantityRaw (q_raw q) = true -> o_status self <> Filled ->
  core_inv self -> core_inv (update_quantity self q).
Proof.
  intros Hq%qty_in_ty Hs (Q & T & S). pose proof qty_limits.
  split_and!; [|by destruct T; split|by destruct S; split].
  destruct Q. split; cbn; try done.
  - rewrite qty_saturating_sub_raw; [done|lia|lia].
  - by rewrite decide_False in *.
Qed.

Lemma core_event_inv self ev self' r :
  core_inv self -> event_in_ty ev -> core_event self ev = (self', r) -> r <> Panic ->
  core_inv self'.
Proof.
  unfold core_event. intros Hinv Hty Hev Hr.
  destruct (core_apply self ev) as [s1 [[]|e|]] eqn:Hap.
  - assert (Hs1 : core_inv s1) by (by eapply core_apply_inv).
    destruct ev; try (by injection Hev as <- <-).
    injection Hev as <- <-. apply update_quantity_inv; [done| |done].
    by apply (event_status_not_filled _ _ _ Hinv Hap).
  - injection Hev as <- <-. by eapply core_apply_inv.
  - injection Hev as <- <-. by destruct Hr.
Qed.

Lemma set_slippage_same {E} self p self' :
  set_slippage (E := E) self p = Ok self' -> same_state self self'.
Proof.
  unfold set_slippage. destruct (o_avg_px self); intros; outcome_inv; by split.
Qed.

Lemma core_new_inv {E} init self :
  in_ty QuantityRaw (q_raw (in_quantity init)) = true ->
  0 <= q_precision (in_quantity init) ->
  core_new (E := E) init = Ok self -> core_inv self.
Proof.
  unfold core_new. intros Hq%qty_in_ty Hp H. apply bind_Ok_inv in H as (z & Hz & [= <-]).
  assert (Hz0 : q_raw z = 0).
  { rewrite qty_zero_eval in Hz by done. by case_match; simplify_eq. }
  pose proof qty_limits. split_and!; split; cbn; unfold fill_total; simpl; try lia; try done.
  - by apply NoDup_nil.
  - eexists _, []. split_and!; [done|done|]. by repeat constructor.
Qed.

Lemma reachable_inv init self : reachable init self -> core_inv self.
Proof.
  induction 1 as [self Hty Hp Hnew|self self' _ IH Hstep]; [by eapply core_new_inv|].
  destruct Hstep as [self ev self' r Hty Hev Hr|self p self' Hs].
  - by eapply core_event_inv.
  - eapply same_state_inv; [by eapply set_slippage_same|done].
Qed.

(** ** Terminal statuses *)

Definition is_terminal (s : OrderStatus) : bool :=
  match s with Denied | Rejected | Expired | Filled => true | _ => false end.

Lemma transition_terminal s (ev : Event) :
  is_terminal s = true -> transition s ev = Err InvalidStateTransition.
Proof. by destruct s, ev. Qed.

Lemma core_apply_terminal self ev :
  is_terminal (o_status self) = true ->
  exists e, core_apply self ev = (self, Err e) \/
            core_apply self ev = (save_previous self ev, Err e).
Proof.
  intros Ht. unfold core_apply. fold (save_previous self ev).
  case_bool_decide; simpl; [|eauto]. case_bool_decide; simpl; [|eauto].
  case_match; [eauto|]. case_match; [eauto|].
  rewrite save_previous_status, transition_terminal by done. eauto.
Qed.

Lemma core_step_terminal self self' :
  is_terminal (o_status self) = true -> core_step self self' -> same_state self self'.
Proof.
  intros Ht Hst. revert Ht.
  destruct Hst as [self1 ev self2 r _ Hev _|self1 p self2 Hs]; intros Ht;
    [|by eapply set_slippage_same].
  unfold core_event in Hev.
  destruct (core_apply_terminal self1 ev Ht) as (e & [E|E]); rewrite E in Hev;
    injection Hev as <- _; [by split|apply save_previous_same].
Qed.

(** ** When a fill succeeds *)

Lemma qty_from_raw_fits {E} raw p :
  0 <= raw <= QUANTITY_RAW_MAX -> 0 <= p <= FIXED_PRECISION ->
  qty_from_raw (E := E) raw p = Ok (mkQty raw p).
Proof.
  intros Hr Hp. pose proof qty_limits as [Hl _]. unfold qty_from_raw.
  replace (raw =? QUANTITY_UNDEF) with false by lia.
  replace (raw <=? QUANTITY_RAW_MAX) with true by lia.
  rewrite (proj2 (check_fixed_precision_Ok p tt)); [done|].
  pose proof fixed_precision_bounds. unfold WEI_PRECISION. destruct defi; lia.
Qed.

Lemma set_avg_px_fits {E} self q px :
  0 <= q_raw q <= q_raw (o_filled_qty self) -> q_raw (o_filled_qty self) <= QUANTITY_UNDEF ->
  q_precision q <= FIXED_PRECISION -> q_precision (o_filled_qty self) <= FIXED_PRECISION ->
  p_precision px <= FIXED_PRECISION ->
  exists self', set_avg_px (E := E) self q px = Ok self'.
Proof.
  intros Hq Hf Pq Pf Pp. pose proof fixed_precision_bounds as HF.
  assert (A : forall r p, p <= FIXED_PRECISION -> exists v, qty_as_f64 (E := E) (mkQty r p) = Ok v).
  { intros r p Hp. unfold qty_as_f64, MAX_FLOAT_PRECISION. cbn [q_precision].
    replace (16 <? p) with false by lia. rewrite andb_false_r. eexists. reflexivity. }
  assert (B : exists v, price_as_f64 (E := E) px = Ok v).
  { unfold price_as_f64, MAX_FLOAT_PRECISION. replace (16 <? p_precision px) with false by lia.
    rewrite andb_false_r. eexists. reflexivity. }
  destruct B as [v Hv]. unfold set_avg_px. rewrite Hv.
  destruct (o_avg_px self); [|eexists; reflexivity].
  unfold qty_sub, checked. rewrite (proj2 (qty_in_ty _)) by lia. osimpl.
  destruct q as [rq pq]. cbn [q_raw q_precision] in *.
  destruct (A (q_raw (o_filled_qty self) - rq) (Z.max (q_precision (o_filled_qty self)) pq))
    as [a ->]; [lia|].
  destruct (A rq pq) as [b ->]; [lia|]. eexists. reflexivity.
Qed.

Lemma filled_fits {E} self f :
  0 <= q_raw (o_filled_qty self) -> 0 <= q_raw (fl_last_qty f) ->
  q_raw (o_filled_qty self) + q_raw (fl_last_qty f) <= QUANTITY_RAW_MAX ->
  0 <= q_raw (o_quantity self) -> q_raw (o_overfill_qty self) = 0 ->
  0 <= q_precision (o_filled_qty self) <= FIXED_PRECISION ->
  q_precision (fl_last_qty f) <= FIXED_PRECISION ->
  p_precision (fl_last_px f) <= FIXED_PRECISION ->
  exists self', filled (E := E) self f = Ok self'.
Proof.
  intros Hf Hl Hsum Hq Ho Pf Pl Pp. pose proof qty_limits as [Hlim _].
  unfold filled. rewrite saturate_id by (apply qty_in_ty; lia).
  rewrite qty_from_raw_fits by lia. cbn [mbind outcome_bind].
  unfold qty_gtb, qty_ltb. cbn [q_raw q_precision].
  destruct (q_raw (o_quantity self) <? _) eqn:E1.
  - rewrite Ho, wrap_id by (apply qty_in_ty; lia).
    rewrite saturate_id by (apply qty_in_ty; lia).
    rewrite qty_from_raw_fits by lia. cbn [mbind outcome_bind].
    apply set_avg_px_fits; [| |lia| |lia]; repeat case_match; cbn; lia.
  - cbn [mbind outcome_bind].
    apply set_avg_px_fits; [| |lia| |lia]; repeat case_match; cbn; lia.
Qed.

(** A pending request that is refused. *)
Lemma restore_pending self ev :
  core_inv self ->
  o_client_order_id self = event_client_order_id ev ->
  o_strategy_id self = event_strategy_id ev ->
  match ev, o_status self with
  | EvModifyRejected _, PendingUpdate | EvCancelRejected _, PendingCancel => True
  | _, _ => False
  end ->
  exists s self', o_previous_status self = Some s /\ is_working s = true /\
    core_apply self ev = (self', Ok tt) /\ o_status self' = s.
Proof.
  intros (_ & _ & S) Hc Hs Hev.
  assert (Hp : is_pending (o_status self) = true) by (destruct ev; repeat case_match; done).
  destruct (inv_pending _ S Hp) as (s & Hprev & Hw). exists s.
  unfold core_apply. rewrite <- Hc, <- Hs, !bool_decide_true by done. cbn [negb].
  destruct ev; try done; destruct (o_status self) eqn:Est; try done; cbn;
    rewrite ?Est; cbn; unfold modify_rejected, cancel_rejected; cbn; rewrite Hprev; cbn; eexists; (split_and!; [done..|reflexivity|done]).
Qed.

Lemma never_no_previous self ev :
  core_inv self -> (core_apply self ev).2 <> Err NoPreviousState.
Proof.
  intros Hinv. unfold core_apply. fold (save_previous self ev).
  case_bool_decide as Hc; simpl; [|done]. case_bool_decide as Hs; simpl; [|done].
  case_match; [done|]. case_match; [done|]. rewrite save_previous_status.
  destruct transition as [new|e|] eqn:Ht; simpl; [| |done].
  2: { intros [= ->]. revert Ht. by destruct (o_status self), ev. }
  destruct handle as [s1|e|] eqn:Hh; simpl; [done| |done]. intros [= ->].
  destruct ev; simpl in Hh; try done.
  1-2: destruct (saved_working self _ Hinv new Ht) as (s & Hp & _);
    [by destruct (o_status self); simplify_eq/=|];
    cbn in Hh, Hp; unfold modify_rejected, cancel_rejected in Hh; cbn in Hh;
    rewrite Hp in Hh; done.
  by apply filled_never_err in Hh.
Qed.

Definition is_pending_event (ev : Event) : bool :=
  match ev with EvPendingUpdate _ | EvPendingCancel _ => true | _ => false end.
Definition is_refusal (ev : Event) : bool :=
  match ev with EvModifyRejected _ | EvCancelRejected _ => true | _ => false end.

Lemma enter_pending self ev s1 :
  is_pending (o_status self) = false -> is_pending_event ev = true ->
  core_apply self ev = (s1, Ok tt) -> o_previous_status s1 = Some (o_status self).
Proof.
  intros Hp Hev H1. apply core_apply_Ok in H1 as (_ & _ & _ & new & t1 & Ht & Hh & ->). cbn.
  assert (Hsv : saves_previous (o_status self) ev = true)
    by (destruct ev; try done; by destruct (o_status self)).
  assert (F : frame_spec ((save_previous self ev) <| o_status := new |>) ev t1)
    by (apply handle_frame; [by destruct ev|done..]).
  rewrite (fr_previous _ _ _ F). unfold save_previous. by rewrite Hsv.
Qed.

Lemma leave_pending self ev s1 s :
  is_refusal ev = true -> o_previous_status self = Some s ->
  core_apply self ev = (s1, Ok tt) -> o_status s1 = s.
Proof.
  intros Hev Hp H1. apply core_apply_Ok in H1 as (_ & _ & _ & new & t1 & Ht & Hh & ->). cbn.
  assert (Hsv : save_previous self ev = self) by (by destruct ev). rewrite Hsv in Hh.
  destruct ev; try done; apply bind_Ok_inv in Hh as (s' & Hs & [= <-]);
    apply ok_or_Ok in Hs; cbn in Hs; cbn; congruence.
Qed.


Lemma core_apply_Panic self ev self' :
  core_apply self ev = (self', Panic) -> is_filled ev = true.
Proof.
  unfold core_apply. fold (save_previous self ev).
  case_bool_decide as Hc; simpl; [|done]. case_bool_decide as Hs; simpl; [|done].
  case_match; [done|]. case_match; [done|]. rewrite save_previous_status.
  destruct transition as [new|e|] eqn:Ht; simpl; [|done|by apply transition_no_panic in Ht].
  destruct handle as [s1|e|] eqn:Hh; simpl; [done|done|]. intros _.
  destruct ev; try done; cbn in Hh; unfold modify_rejected, cancel_rejected in Hh;
    cbn in Hh; by destruct (o_previous_status self).
Qed.

Lemma core_apply_fill_eval self f new s1 :
  o_client_order_id self = h_client_order_id (fl_header f) ->
  o_strategy_id self = h_strategy_id (fl_header f) ->
  fl_trade_id f ∉ o_trade_ids self ->
  transition (o_status self) (EvFilled f : Event) = Ok new ->
  filled (E := OrderError) ((save_previous self (EvFilled f)) <| o_status := new |>) f = Ok s1 ->
  core_apply self (EvFilled f) =
    (s1 <| o_ts_last := h_ts_event (fl_header f) |> <| o_events := o_events s1 ++ [EvFilled f] |>,
     Ok tt).
Proof.
  intros Hc Hs Hnew Ht Hf. unfold core_apply. fold (save_previous self (EvFilled f)).
  unfold event_client_order_id, event_strategy_id. cbn [event_header].
  rewrite !bool_decide_true by done. cbn [negb]. unfold duplicate_trade_id.
  rewrite (ss_trades _ _ (save_previous_same self (EvFilled f))), bool_decide_false by done.
  cbn [is_triggered_event andb]. rewrite save_previous_status, Ht. cbn [handle].
  by rewrite Hf.
Qed.

Lemma core_apply_Ok_events self ev self' :
  core_apply self ev = (self', Ok tt) -> o_events self' = o_events self ++ [ev].
Proof.
  intros Hap. apply core_apply_Ok in Hap as (_ & _ & _ & new & s1 & Ht & Hh & ->). cbn. f_equal.
  destruct (save_previous_same self ev). destruct (is_filled ev) eqn:Hf.
  - destruct ev; try done. apply filled_Ok in Hh as []. by rewrite fs_events0.
  - apply handle_frame in Hh as []; [|done..]. by rewrite fr_events0.
Qed.

(** Running a list of events. *)
Fixpoint run self (events : list Event) : option Core :=
  match events with
  | [] => Some self
  | ev :: events =>
      match core_event self ev with
      | (_, Panic) => None
      | (self', _) => run self' events
      end
  end.

Lemma run_reachable init self events self' :
  reachable init self -> Forall event_in_ty events -> run self events = Some self' ->
  reachable init self'.
Proof.
  intros Hr Hty. revert self Hr. induction Hty as [|ev events He _ IH]; intros self Hr; simpl.
  - by intros [= <-].
  - destruct (core_event self ev) as [s1 r] eqn:Hev. intros Hrun.
    apply (IH s1); [|by destruct r].
    eapply reachable_step; [done|]. eapply step_event; [done..|]. by intros ->.
Qed.

(* ------------------------------------------------------------------ *)
(** ** Properties *)

(** C1: in every state an order reaches, the filled quantity is the sum of the
    fills in its event log (clamped at the raw maximum), the leaves quantity is
    what is left of the quantity and never underflows, the overfill is the
    excess of a filled order and zero for any other, a filled order has
    nothing left, and filled plus leaves covers the quantity. *)
Theorem order_quantities (init : OrderInitialized Dec) self :
  reachable init self ->
  q_raw (o_filled_qty self) = Z.min QUANTITY_UNDEF (fill_total (o_events self)) /\
  q_raw (o_leaves_qty self)
    = Z.max 0 (q_raw (o_quantity self) - q_raw (o_filled_qty self)) /\
  q_raw (o_overfill_qty self)
    = (if decide (o_status self = Filled)
       then q_raw (o_filled_qty self) - q_raw (o_quantity self) else 0) /\
  (o_status self = Filled -> q_raw (o_leaves_qty self) = 0) /\
  q_raw (o_quantity self) <= q_raw (o_filled_qty self) + q_raw (o_leaves_qty self).
Proof.
  intros (Q & _ & _)%reachable_inv. destruct Q. pose proof qty_limits.
  split_and!; try done; [|lia]. intros Hs. specialize (inv_done0 Hs). lia.
Qed.

(** C7: every trade is counted once: the recorded trade ids are those of the
    fills in the log, without repetition, the last one is [last_trade_id], and
    a fill whose trade id is already recorded is refused with [DuplicateFill]
    before any quantity, status or log entry changes. *)
Theorem order_trades_once (init : OrderInitialized Dec) self :
  reachable init self ->
  o_trade_ids self = fill_ids (o_events self) /\ NoDup (o_trade_ids self) /\
  o_last_trade_id self = last (o_trade_ids self) /\
  forall f, fl_trade_id f ∈ o_trade_ids self ->
    o_client_order_id self = h_client_order_id (fl_header f) ->
    o_strategy_id self = h_strategy_id (fl_header f) ->
    exists self', core_apply self (EvFilled f) = (self', Err (DuplicateFill (fl_trade_id f))) /\
      same_state self self'.
Proof.
  intros (_ & T & _)%reachable_inv. destruct T as [T1 T2 T3 _]. split_and!; try done.
  intros f Hin Hc Hs. exists (save_previous self (EvFilled f)).
  split; [|apply save_previous_same]. unfold core_apply. fold (save_previous self (EvFilled f)).
  unfold event_client_order_id, event_strategy_id. cbn [event_header].
  rewrite !bool_decide_true by done. cbn [negb]. unfold duplicate_trade_id.
  rewrite (ss_trades _ _ (save_previous_same self (EvFilled f))).
  by rewrite bool_decide_true.
Qed.

(** a pending modify or cancel request that is rejected puts the order back
    into the working status it had before the first pending request:
    [NoPreviousState] is never returned for a reachable order, and a request
    followed by its rejection leaves the status unchanged. *)
Theorem order_restored (init : OrderInitialized Dec) self :
  reachable init self ->
  (forall ev, (core_apply self ev).2 <> Err NoPreviousState) /\
  (forall ev, o_client_order_id self = event_client_order_id ev ->
    o_strategy_id self = event_strategy_id ev ->
    match ev, o_status self with
    | EvModifyRejected _, PendingUpdate | EvCancelRejected _, PendingCancel => True
    | _, _ => False
    end ->
    exists s self', o_previous_status self = Some s /\ is_working s = true /\
      core_apply self ev = (self', Ok tt) /\ o_status self' = s) /\
  (forall pu mr s1 s2, is_pending (o_status self) = false ->
    core_apply self (EvPendingUpdate pu) = (s1, Ok tt) ->
    core_apply s1 (EvModifyRejected mr) = (s2, Ok tt) -> o_status s2 = o_status self) /\
  (forall pc cr s1 s2, is_pending (o_status self) = false ->
    core_apply self (EvPendingCancel pc) = (s1, Ok tt) ->
    core_apply s1 (EvCancelRejected cr) = (s2, Ok tt) -> o_status s2 = o_status self).
Proof.
  intros Hinv%reachable_inv. split_and!.
  - intros ev. by apply never_no_previous.
  - intros. by apply restore_pending.
  - intros pu mr s1 s2 Hp H1%enter_pending H2; [|done..].
    by refine (leave_pending _ _ _ _ _ H1 H2).
  - intros pc cr s1 s2 Hp H1%enter_pending H2; [|done..].
    by refine (leave_pending _ _ _ _ _ H1 H2).
Qed.

(** C8: a denied, rejected, expired or filled order is final: whatever events
    it is given, its status, quantities, trades, log and closing time never
    change again. *)
Theorem order_terminal self self' :
  is_terminal (o_status self) = true -> rtc core_step self self' -> same_state self self'.
Proof.
  intros Ht Hrun. induction Hrun as [self|self s1 self' Hst _ IH]; [by split|].
  pose proof (core_step_terminal _ _ Ht Hst) as H1.
  rewrite (ss_status _ _ H1) in IH. specialize (IH Ht).
  destruct H1, IH. split; try congruence.
  intros Hp. rewrite ss_previous1, ss_previous0 by congruence. done.
Qed.

(** an event that is refused with an error leaves the order as it was,
    except that the previous status may have been saved; one that is accepted
    belongs to the order, is allowed by the transition table, is appended to
    the log and stamps [ts_last]. *)
Theorem order_apply_atomic self ev :
  match core_apply self ev with
  | (self', Ok _) =>
      o_client_order_id self = event_client_order_id ev /\
      o_strategy_id self = event_strategy_id ev /\
      is_ok (transition (o_status self) ev) = true /\
      o_events self' = o_events self ++ [ev] /\ o_ts_last self' = event_ts_event ev
  | (self', Err _) => self' <| o_previous_status := o_previous_status self |> = self
  | (_, Panic) => is_filled ev = true
  end.
Proof.
  destruct (core_apply self ev) as [self' [[]|e|]] eqn:Hap.
  - rewrite (core_apply_Ok_events _ _ _ Hap).
    apply core_apply_Ok in Hap as (Hc & Hs & _ & new & s1 & Ht & Hh & ->).
    by rewrite Ht.
  - apply core_apply_Err in Hap as [->| ->]; [by destruct self|].
    unfold save_previous. by destruct saves_previous, self.
  - by apply core_apply_Panic in Hap.
Qed.

(** a fill that fits is applied: when the ids match, the trade id is new,
    the status admits a fill, and the new filled quantity and the precisions
    are within the fixed-point limits, [apply] returns normally; the order is
    then partially filled or filled according to the new filled quantity, the
    venue order id, last trade id and trade ids are set, and the trade is the
    last entry of the log. *)
Theorem order_fill_succeeds (init : OrderInitialized Dec) self f :
  reachable init self ->
  o_client_order_id self = h_client_order_id (fl_header f) ->
  o_strategy_id self = h_strategy_id (fl_header f) ->
  fl_trade_id f ∉ o_trade_ids self ->
  is_ok (transition (o_status self) (EvFilled f : Event)) = true ->
  0 <= q_raw (fl_last_qty f) ->
  q_raw (o_filled_qty self) + q_raw (fl_last_qty f) <= QUANTITY_RAW_MAX ->
  0 <= q_precision (o_filled_qty self) <= FIXED_PRECISION ->
  q_precision (fl_last_qty f) <= FIXED_PRECISION ->
  p_precision (fl_last_px f) <= FIXED_PRECISION ->
  exists self', core_apply self (EvFilled f) = (self', Ok tt) /\
    q_raw (o_filled_qty self') = q_raw (o_filled_qty self) + q_raw (fl_last_qty f) /\
    o_status self' = (if q_raw (o_filled_qty self') <? q_raw (o_quantity self)
                      then PartiallyFilled else Filled) /\
    o_venue_order_id self' = Some (fl_venue_order_id f) /\
    o_last_trade_id self' = Some (fl_trade_id f) /\
    o_trade_ids self' = o_trade_ids self ++ [fl_trade_id f] /\
    o_events self' = o_events self ++ [EvFilled f].
Proof.
  intros Hinv%reachable_inv Hc Hs Hnew Ht Hl Hsum Pf Pl Pp.
  destruct Hinv as ([Q1 Q2 Q3 Q4 Q5 Q6] & _ & _). pose proof qty_limits as [Hlim _].
  destruct (transition (o_status self) (EvFilled f)) as [new| |] eqn:Htr; try done.
  assert (Hst : o_status self <> Filled) by (intros E; by rewrite E in Htr).
  rewrite decide_False in Q5 by done. pose proof (save_previous_same self (EvFilled f)) as [].
  set (s0 := (save_previous self (EvFilled f)) <| o_status := new |>).
  destruct (filled_fits (E := OrderError) s0 f) as [s1 Hs1]; subst s0; cbn;
    rewrite ?ss_filled0, ?ss_quantity0, ?ss_overfill0; try lia; try done.
  rewrite (core_apply_fill_eval self f new s1) by done. eexists. split; [reflexivity|].
  apply filled_Ok in Hs1 as []. cbn in *. rewrite ss_filled0, ss_trades0, ss_quantity0, ss_events0 in *.
  rewrite saturate_id in * by (apply qty_in_ty; lia).
  rewrite fs_filled0, fs_status0, fs_events0, fs_trades0. done.
Qed.

(** every order reports itself as contingent, because [OrderCore::new]
    stores [NoContingency] for a missing contingency type and
    [is_contingency] only asks whether one is stored. *)
Theorem new_order_is_contingency {E} (init : OrderInitialized Dec) self :
  core_new (E := E) init = Ok self -> is_contingency self = true.
Proof.
  unfold core_new. intros H. apply bind_Ok_inv in H as (z & _ & [= <-]).
  unfold is_contingency. cbn. by destruct (in_contingency_type init).
Qed.
End Life.

(* ------------------------------------------------------------------ *)
(** ** A concrete order *)

Module Demo.
#[local] Existing Instance standard_mode.

Definition header (ts : Z) : EventHeader :=
  mkHeader "TRADER-001" "S-001" (mkInstrumentId "AUD/USD" "SIM") "O-1" "e" ts ts false.
Definition qty (n : Z) : Quantity := mkQty (n * 10 ^ 9) 0.
Definition px (n : Z) : Price := mkPrice (n * 10 ^ 9) 2.
Definition init : OrderInitialized (Z * Z) :=
  mkInitialized (Z * Z) (header 1) Buy Limit (qty 100) Gtc false false false (Some (px 10)) None None
    None None None None None None None None None None None None None None None.
Definition fill (id : TradeId) (n ts : Z) : OrderFilled :=
  mkFilled (header ts) "V-1" "A-1" id Buy Limit (qty n) (px 10) usd Taker None None.
Definition to_accepted : list (OrderEventAny (Z * Z)) :=
  [EvSubmitted (mkSubmitted (header 2) "A-1");
   EvAccepted (mkAccepted (header 3) "V-1" "A-1")].

(** The order after a list of events. *)
Definition after (events : list (OrderEventAny (Z * Z))) : option (OrderCore (Z * Z)) :=
  match core_new (E := OrderError) init with
  | Ok self => run self events
  | _ => None
  end.

Lemma after_reachable events self :
  Forall event_in_ty events -> after events = Some self -> reachable init self.
Proof.
  intros Hty Ha. unfold after in Ha.
  destruct (core_new init) as [s0| |] eqn:Hn; [|done|done].
  eapply run_reachable; [|done|done]. by apply reachable_new.
Qed.

Definition part_filled := to_accepted ++ [EvFilled (fill "T-1" 40 4)].
Definition pending := part_filled ++ [EvPendingUpdate (mkPendingUpdate (header 5) "A-1" None)].

Lemma part_filled_in_ty : Forall event_in_ty part_filled.
Proof. by repeat constructor. Qed.
Lemma pending_in_ty : Forall event_in_ty pending.
Proof. by repeat constructor. Qed.
End Demo.

Example order_quantities_witness :
  exists self, Demo.after Demo.part_filled = Some self /\
    q_raw (o_leaves_qty self) = Z.max 0 (q_raw (o_quantity self) - q_raw (o_filled_qty self)).
Proof.
  eexists. split; [vm_compute; reflexivity|].
  apply (order_quantities (M := standard_mode) Demo.init), (Demo.after_reachable Demo.part_filled);
    [apply Demo.part_filled_in_ty|vm_compute; reflexivity].
Defined.

Example order_trades_once_witness :
  exists self, Demo.after Demo.part_filled = Some self /\ NoDup (o_trade_ids self).
Proof.
  eexists. split; [vm_compute; reflexivity|].
  apply (order_trades_once (M := standard_mode) Demo.init), (Demo.after_reachable Demo.part_filled);
    [apply Demo.part_filled_in_ty|vm_compute; reflexivity].
Defined.

Example order_restored_witness :
  exists self, Demo.after Demo.pending = Some self /\
    exists s self', o_previous_status self = Some s /\ is_working s = true /\
      core_apply (M := standard_mode) self
        (EvModifyRejected (mkModifyRejected (Demo.header 6) "" None None)) = (self', Ok tt) /\
      o_status self' = s.
Proof.
  eexists. split; [vm_compute; reflexivity|].
  apply (order_restored (M := standard_mode) Demo.init);
    [|reflexivity|reflexivity|exact I].
  apply (Demo.after_reachable Demo.pending); [apply Demo.pending_in_ty|vm_compute; reflexivity].
Defined.

Example order_terminal_witness :
  exists self, Demo.after [EvDenied (mkDenied (Demo.header 2) "")] = Some self /\
    same_state self
      (core_event (M := standard_mode) self (EvFilled (Demo.fill "T-1" 40 4))).1.
Proof.
  destruct (Demo.after [EvDenied (mkDenied (Demo.header 2) "")]) as [self|] eqn:E;
    [|vm_compute in E; discriminate E].
  exists self. split; [reflexivity|]. apply (order_terminal (M := standard_mode)).
  - vm_compute in E. injection E as <-. reflexivity.
  - apply rtc_once. apply (step_event _ (EvFilled (Demo.fill "T-1" 40 4)) _
      (core_event (M := standard_mode) self (EvFilled (Demo.fill "T-1" 40 4))).2).
    + reflexivity.
    + apply surjective_pairing.
    + vm_compute in E. injection E as <-. vm_compute. discriminate.
Defined.

Example order_fill_succeeds_witness :
  exists self, Demo.after Demo.part_filled = Some self /\
    exists self', core_apply (M := standard_mode) self (EvFilled (Demo.fill "T-2" 60 7))
                  = (self', Ok tt) /\ o_status self' = Filled.
Proof.
  destruct (Demo.after Demo.part_filled) as [self|] eqn:E; [|vm_compute in E; discriminate E].
  exists self. split; [reflexivity|].
  pose proof (Demo.after_reachable _ _ Demo.part_filled_in_ty E) as Hr.
  destruct (order_fill_succeeds (M := standard_mode) Demo.init self (Demo.fill "T-2" 60 7) Hr)
    as (self' & Hap & Hf & Hst & _).
  1-9: clear Hr; vm_compute in E; injection E as <-; vm_compute; try reflexivity;
       try discriminate; try (split; discriminate).
  - intros Hin. inversion Hin as [|? ? ? Hn]; inversion Hn.
  - exists self'. split; [exact Hap|]. rewrite Hst, Hf. clear - E.
    vm_compute in E. injection E as <-. reflexivity.
Defined.

Example new_order_is_contingency_witness :
  exists self, core_new (M := standard_mode) (E := OrderError) Demo.init = Ok self /\
    in_contingency_type Demo.init = None /\ is_contingency self = true.
Proof.
  destruct (core_new (M := standard_mode) (E := OrderError) Demo.init) as [self| |] eqn:E;
    [|vm_compute in E; discriminate E..].
  exists self. split; [reflexivity|]. split; [reflexivity|].
  exact (new_order_is_contingency (M := standard_mode) Demo.init self E).
Defined.
