(* ===== verification/Orders.v ===== *)
(** * The nine order types ([crates/model/src/orders/*.rs]) and [OrderAny]

    Each type wraps the core with its own fields and implements [apply] as the
    core's [apply] followed by its own bookkeeping: [update] after an
    [OrderUpdated], the triggered flag, the slippage after a fill. *)

From stdpp Require Import base numbers list strings.
From Stdlib Require Import ZArith Lia.
From S2P Require Import Prelude F64 Fixed Price Quantity Money Enums OrderEvents OrderCore.

(** The constructor arguments all order types share. *)
Record NewOrder : Type := mkNewOrder {
  n_trader_id : TraderId;
  n_strategy_id : StrategyId;
  n_instrument_id : InstrumentId;
  n_client_order_id : ClientOrderId;
  n_order_side : OrderSide;
  n_quantity : Quantity;
  n_time_in_force : TimeInForce;
  n_reduce_only : bool;
  n_quote_quantity : bool;
  n_contingency_type : option ContingencyType;
  n_order_list_id : option OrderListId;
  n_linked_order_ids : option (list ClientOrderId);
  n_parent_order_id : option ClientOrderId;
  n_exec_algorithm_id : option ExecAlgorithmId;
  n_exec_algorithm_params : option (list (Ustr * Ustr));
  n_exec_spawn_id : option ClientOrderId;
  n_tags : option (list Ustr);
  n_init_id : UUID4;
  n_ts_init : UnixNanos;
}.

Record MarketOrder {Dec : Type} : Type := mkMarket {
  mk_core : OrderCore Dec;
  mk_protection_price : option Price;
}.
Record LimitOrder {Dec : Type} : Type := mkLimit {
  lm_core : OrderCore Dec;
  lm_price : Price;
  lm_expire_time : option UnixNanos;
  lm_is_post_only : bool;
  lm_display_qty : option Quantity;
  lm_trigger_instrument_id : option InstrumentId;
}.
Record LimitIfTouchedOrder {Dec : Type} : Type := mkLit {
  lt_price : Price;
  lt_trigger_price : Price;
  lt_trigger_type : TriggerType;
  lt_expire_time : option UnixNanos;
  lt_is_post_only : bool;
  lt_display_qty : option Quantity;
  lt_trigger_instrument_id : option InstrumentId;
  lt_is_triggered : bool;
  lt_ts_triggered : option UnixNanos;
  lt_core : OrderCore Dec;
}.
Record MarketIfTouchedOrder {Dec : Type} : Type := mkMit {
  mt_trigger_price : Price;
  mt_trigger_type : TriggerType;
  mt_expire_time : option UnixNanos;
  mt_trigger_instrument_id : option InstrumentId;
  mt_is_triggered : bool;
  mt_ts_triggered : option UnixNanos;
  mt_core : OrderCore Dec;
}.
Record MarketToLimitOrder {Dec : Type} : Type := mkMtl {
  ml_core : OrderCore Dec;
  ml_price : option Price;
  ml_expire_time : option UnixNanos;
  ml_is_post_only : bool;
  ml_display_qty : option Quantity;
}.
Record StopLimitOrder {Dec : Type} : Type := mkStopLimit {
  sl_price : Price;
  sl_trigger_price : Price;
  sl_trigger_type : TriggerType;
  sl_expire_time : option UnixNanos;
  sl_is_post_only : bool;
  sl_display_qty : option Quantity;
  sl_trigger_instrument_id : option InstrumentId;
  sl_is_triggered : bool;
  sl_ts_triggered : option UnixNanos;
  sl_core : OrderCore Dec;
}.
Record StopMarketOrder {Dec : Type} : Type := mkStopMarket {
  sm_trigger_price : Price;
  sm_trigger_type : TriggerType;
  sm_expire_time : option UnixNanos;
  sm_display_qty : option Quantity;
  sm_trigger_instrument_id : option InstrumentId;
  sm_is_triggered : bool;
  sm_ts_triggered : option UnixNanos;
  sm_protection_price : option Price;
  sm_core : OrderCore Dec;
}.
Record TrailingStopLimitOrder {Dec : Type} : Type := mkTrailLimit {
  tl_core : OrderCore Dec;
  tl_activation_price : option Price;
  tl_price : Price;
  tl_trigger_price : Price;
  tl_trigger_type : TriggerType;
  tl_limit_offset : Dec;
  tl_trailing_offset : Dec;
  tl_trailing_offset_type : TrailingOffsetType;
  tl_expire_time : option UnixNanos;
  tl_is_post_only : bool;
  tl_display_qty : option Quantity;
  tl_trigger_instrument_id : option InstrumentId;
  tl_is_activated : bool;
  tl_is_triggered : bool;
  tl_ts_triggered : option UnixNanos;
}.
Record TrailingStopMarketOrder {Dec : Type} : Type := mkTrailMarket {
  tm_core : OrderCore Dec;
  tm_activation_price : option Price;
  tm_trigger_price : Price;
  tm_trigger_type : TriggerType;
  tm_trailing_offset : Dec;
  tm_trailing_offset_type : TrailingOffsetType;
  tm_expire_time : option UnixNanos;
  tm_display_qty : option Quantity;
  tm_trigger_instrument_id : option InstrumentId;
  tm_is_activated : bool;
  tm_is_triggered : bool;
  tm_ts_triggered : option UnixNanos;
}.
Arguments MarketOrder : clear implicits.
Arguments LimitOrder : clear implicits.
Arguments LimitIfTouchedOrder : clear implicits.
Arguments MarketIfTouchedOrder : clear implicits.
Arguments MarketToLimitOrder : clear implicits.
Arguments StopLimitOrder : clear implicits.
Arguments StopMarketOrder : clear implicits.
Arguments TrailingStopLimitOrder : clear implicits.
Arguments TrailingStopMarketOrder : clear implicits.

#[export] Instance market_eta Dec : Eta (MarketOrder Dec) := fun o =>
  mkMarket Dec (mk_core o) (mk_protection_price o).
#[export] Instance limit_eta Dec : Eta (LimitOrder Dec) := fun o =>
  mkLimit Dec (lm_core o) (lm_price o) (lm_expire_time o) (lm_is_post_only o)
    (lm_display_qty o) (lm_trigger_instrument_id o).
#[export] Instance lit_eta Dec : Eta (LimitIfTouchedOrder Dec) := fun o =>
  mkLit Dec (lt_price o) (lt_trigger_price o) (lt_trigger_type o) (lt_expire_time o)
    (lt_is_post_only o) (lt_display_qty o) (lt_trigger_instrument_id o) (lt_is_triggered o)
    (lt_ts_triggered o) (lt_core o).
#[export] Instance mit_eta Dec : Eta (MarketIfTouchedOrder Dec) := fun o =>
  mkMit Dec (mt_trigger_price o) (mt_trigger_type o) (mt_expire_time o)
    (mt_trigger_instrument_id o) (mt_is_triggered o) (mt_ts_triggered o) (mt_core o).
#[export] Instance mtl_eta Dec : Eta (MarketToLimitOrder Dec) := fun o =>
  mkMtl Dec (ml_core o) (ml_price o) (ml_expire_time o) (ml_is_post_only o)
    (ml_display_qty o).
#[export] Instance stop_limit_eta Dec : Eta (StopLimitOrder Dec) := fun o =>
  mkStopLimit Dec (sl_price o) (sl_trigger_price o) (sl_trigger_type o) (sl_expire_time o)
    (sl_is_post_only o) (sl_display_qty o) (sl_trigger_instrument_id o) (sl_is_triggered o)
    (sl_ts_triggered o) (sl_core o).
#[export] Instance stop_market_eta Dec : Eta (StopMarketOrder Dec) := fun o =>
  mkStopMarket Dec (sm_trigger_price o) (sm_trigger_type o) (sm_expire_time o)
    (sm_display_qty o) (sm_trigger_instrument_id o) (sm_is_triggered o) (sm_ts_triggered o)
    (sm_protection_price o) (sm_core o).
#[export] Instance trail_limit_eta Dec : Eta (TrailingStopLimitOrder Dec) := fun o =>
  mkTrailLimit Dec (tl_core o) (tl_activation_price o) (tl_price o) (tl_trigger_price o)
    (tl_trigger_type o) (tl_limit_offset o) (tl_trailing_offset o) (tl_trailing_offset_type o)
    (tl_expire_time o) (tl_is_post_only o) (tl_display_qty o) (tl_trigger_instrument_id o)
    (tl_is_activated o) (tl_is_triggered o) (tl_ts_triggered o).
#[export] Instance trail_market_eta Dec : Eta (TrailingStopMarketOrder Dec) := fun o =>
  mkTrailMarket Dec (tm_core o) (tm_activation_price o) (tm_trigger_price o)
    (tm_trigger_type o) (tm_trailing_offset o) (tm_trailing_offset_type o) (tm_expire_time o)
    (tm_display_qty o) (tm_trigger_instrument_id o) (tm_is_activated o) (tm_is_triggered o)
    (tm_ts_triggered o).

Inductive OrderAny {Dec : Type} : Type :=
  | AnyLimit (o : LimitOrder Dec)
  | AnyLimitIfTouched (o : LimitIfTouchedOrder Dec)
  | AnyMarket (o : MarketOrder Dec)
  | AnyMarketIfTouched (o : MarketIfTouchedOrder Dec)
  | AnyMarketToLimit (o : MarketToLimitOrder Dec)
  | AnyStopLimit (o : StopLimitOrder Dec)
  | AnyStopMarket (o : StopMarketOrder Dec)
  | AnyTrailingStopLimit (o : TrailingStopLimitOrder Dec)
  | AnyTrailingStopMarket (o : TrailingStopMarketOrder Dec).
Arguments OrderAny : clear implicits.

(** Run the continuation of a method after a fallible step on the state. *)
Definition and_then {S E} (r : S * outcome E unit) (k : S -> outcome E S)
  : S * outcome E unit :=
  match r with
  | (s, Ok _) =>
      match k s with
      | Ok s' => (s', Ok tt)
      | Err e => (s, Err e)
      | Panic => (s, Panic)
      end
  | (s, Err e) => (s, Err e)
  | (s, Panic) => (s, Panic)
  end.

Section Orders.
Context `{M : Mode} {Dec : Type}.
Abbreviation Core := (OrderCore Dec).
Abbreviation Event := (OrderEventAny Dec).

(** [OrderInitialized::new] as the constructors call it: both timestamps are
    [ts_init] and the event is not a reconciliation. *)
Definition initialized_new (a : NewOrder) (order_type : OrderType) (post_only : bool)
    (price trigger_price : option Price) (trigger_type : option TriggerType)
    (limit_offset trailing_offset : option Dec)
    (trailing_offset_type : option TrailingOffsetType) (expire_time : option UnixNanos)
    (display_qty : option Quantity) (emulation_trigger : option TriggerType)
    (trigger_instrument_id : option InstrumentId) : OrderInitialized Dec := {|
  in_header := mkHeader (n_trader_id a) (n_strategy_id a) (n_instrument_id a)
                 (n_client_order_id a) (n_init_id a) (n_ts_init a) (n_ts_init a) false;
  in_order_side := n_order_side a;
  in_order_type := order_type;
  in_quantity := n_quantity a;
  in_time_in_force := n_time_in_force a;
  in_post_only := post_only;
  in_reduce_only := n_reduce_only a;
  in_quote_quantity := n_quote_quantity a;
  in_price := price;
  in_trigger_price := trigger_price;
  in_trigger_type := trigger_type;
  in_limit_offset := limit_offset;
  in_trailing_offset := trailing_offset;
  in_trailing_offset_type := trailing_offset_type;
  in_expire_time := expire_time;
  in_display_qty := display_qty;
  in_emulation_trigger := emulation_trigger;
  in_trigger_instrument_id := trigger_instrument_id;
  in_contingency_type := n_contingency_type a;
  in_order_list_id := n_order_list_id a;
  in_linked_order_ids := n_linked_order_ids a;
  in_parent_order_id := n_parent_order_id a;
  in_exec_algorithm_id := n_exec_algorithm_id a;
  in_exec_algorithm_params := n_exec_algorithm_params a;
  in_exec_spawn_id := n_exec_spawn_id a;
  in_tags := n_tags a;
|}.

(** The arguments every [try_from] passes on from the event. *)
Definition args_of (e : OrderInitialized Dec) : NewOrder :=
  let h := in_header e in
  mkNewOrder (h_trader_id h) (h_strategy_id h) (h_instrument_id h) (h_client_order_id h)
    (in_order_side e) (in_quantity e) (in_time_in_force e) (in_reduce_only e)
    (in_quote_quantity e) (in_contingency_type e) (in_order_list_id e)
    (in_linked_order_ids e) (in_parent_order_id e) (in_exec_algorithm_id e)
    (in_exec_algorithm_params e) (in_exec_spawn_id e) (in_tags e) (h_event_id h)
    (h_ts_event h).

(** A field [try_from] requires. *)
Definition required {A} (o : option A) : outcome OrderError A :=
  ok_or o (Invariant PredicateViolation).

(** *** Market orders *)
Definition market_new_checked (a : NewOrder) : outcome OrderError (MarketOrder Dec) :=
  _ ← from_correctness (check_positive_quantity (n_quantity a));
  _ ← from_correctness (check_predicate_false (bool_decide (n_time_in_force a = Gtd)));
  core ← core_new (initialized_new a Market false None None (Some NoTrigger) None None None
                     None None None None);
  Ok (mkMarket Dec core None).
Definition market_try_from (e : OrderInitialized Dec) : outcome OrderError (MarketOrder Dec) :=
  market_new_checked (args_of e).
Definition market_update {E} (self : MarketOrder Dec) (e : OrderUpdated)
  : outcome E (MarketOrder Dec) :=
  _ ← assert_ (bool_decide (up_price e = None));
  _ ← assert_ (bool_decide (up_trigger_price e = None));
  let self :=
    match up_protection_price e with
    | Some p => self <| mk_protection_price := Some p |>
    | None => self
    end in
  Ok (self <| mk_core := update_quantity (mk_core self) (up_quantity e) |>).
(** What [apply] does once the core has accepted the event. *)
Definition market_after (event : Event) (self : MarketOrder Dec) : outcome OrderError (MarketOrder Dec) :=
  match event with EvUpdated e => market_update self e | _ => Ok self end.
Definition market_apply (self : MarketOrder Dec) (event : Event)
  : MarketOrder Dec * outcome OrderError unit :=
  let '(core, r) := core_apply (mk_core self) event in
  and_then (self <| mk_core := core |>, r) (market_after event).

(** *** Limit orders *)
Definition limit_new_checked (a : NewOrder) (price : Price) (expire_time : option UnixNanos)
    (post_only : bool) (display_qty : option Quantity)
    (emulation_trigger : option TriggerType) (trigger_instrument_id : option InstrumentId)
  : outcome OrderError (LimitOrder Dec) :=
  _ ← from_correctness (check_positive_quantity (n_quantity a));
  _ ← check_display_qty display_qty (n_quantity a);
  _ ← check_time_in_force (n_time_in_force a) expire_time;
  core ← core_new (initialized_new a Limit post_only (Some price) None None None None None
                     expire_time display_qty emulation_trigger trigger_instrument_id);
  Ok (mkLimit Dec core price expire_time post_only display_qty trigger_instrument_id).
Definition limit_try_from (e : OrderInitialized Dec) : outcome OrderError (LimitOrder Dec) :=
  price ← required (in_price e);
  limit_new_checked (args_of e) price (in_expire_time e) (in_post_only e) (in_display_qty e)
    (in_emulation_trigger e) (in_trigger_instrument_id e).
Definition limit_update {E} (self : LimitOrder Dec) (e : OrderUpdated)
  : outcome E (LimitOrder Dec) :=
  _ ← assert_ (bool_decide (up_trigger_price e = None));
  let self :=
    match up_price e with Some p => self <| lm_price := p |> | None => self end in
  Ok (self <| lm_core := update_quantity (lm_core self) (up_quantity e) |>).
(** What [apply] does once the core has accepted the event. *)
Definition limit_after (event : Event) (self : LimitOrder Dec) : outcome OrderError (LimitOrder Dec) :=
  self ← match event with EvUpdated e => limit_update self e | _ => Ok self end;
  if is_filled event then
    core ← set_slippage (lm_core self) (lm_price self); Ok (self <| lm_core := core |>)
  else Ok self.
Definition limit_apply (self : LimitOrder Dec) (event : Event)
  : LimitOrder Dec * outcome OrderError unit :=
  let '(core, r) := core_apply (lm_core self) event in
  and_then (self <| lm_core := core |>, r) (limit_after event).

(** *** Limit-if-touched orders *)
Definition limit_if_touched_new_checked (a : NewOrder) (price trigger_price : Price)
    (trigger_type : TriggerType) (expire_time : option UnixNanos) (post_only : bool)
    (display_qty : option Quantity) (emulation_trigger : option TriggerType)
    (trigger_instrument_id : option InstrumentId)
  : outcome OrderError (LimitIfTouchedOrder Dec) :=
  _ ← from_correctness (check_positive_quantity (n_quantity a));
  _ ← check_display_qty display_qty (n_quantity a);
  _ ← check_time_in_force (n_time_in_force a) expire_time;
  _ ← match n_order_side a with
      | Buy => err_if (price_gtb trigger_price price) (Invariant PredicateViolation)
      | Sell => err_if (price_ltb trigger_price price) (Invariant PredicateViolation)
      | NoOrderSide => Ok tt
      end;
  core ← core_new (initialized_new a LimitIfTouched post_only (Some price)
                     (Some trigger_price) (Some trigger_type) None None None expire_time
                     display_qty emulation_trigger trigger_instrument_id);
  Ok (mkLit Dec price trigger_price trigger_type expire_time post_only display_qty
        trigger_instrument_id false None core).
Definition limit_if_touched_try_from (e : OrderInitialized Dec)
  : outcome OrderError (LimitIfTouchedOrder Dec) :=
  price ← required (in_price e);
  trigger_price ← required (in_trigger_price e);
  trigger_type ← required (in_trigger_type e);
  limit_if_touched_new_checked (args_of e) price trigger_price trigger_type
    (in_expire_time e) (in_post_only e) (in_display_qty e) (in_emulation_trigger e)
    (in_trigger_instrument_id e).
Definition limit_if_touched_update {E} (self : LimitIfTouchedOrder Dec) (e : OrderUpdated)
  : outcome E (LimitIfTouchedOrder Dec) :=
  let self :=
    match up_price e with Some p => self <| lt_price := p |> | None => self end in
  let self :=
    match up_trigger_price e with
    | Some p => self <| lt_trigger_price := p |>
    | None => self
    end in
  Ok (self <| lt_core := update_quantity (lt_core self) (up_quantity e) |>).
(** What [apply] does once the core has accepted the event. *)
Definition limit_if_touched_after (event : Event) (self : LimitIfTouchedOrder Dec) : outcome OrderError (LimitIfTouchedOrder Dec) :=
  self ← match event with EvUpdated e => limit_if_touched_update self e | _ => Ok self end;
  let self :=
    if is_triggered_event event
    then self <| lt_is_triggered := true |> <| lt_ts_triggered := Some (event_ts_event event) |>
    else self in
  if is_filled event then
    core ← set_slippage (lt_core self) (lt_price self); Ok (self <| lt_core := core |>)
  else Ok self.
Definition limit_if_touched_apply (self : LimitIfTouchedOrder Dec) (event : Event)
  : LimitIfTouchedOrder Dec * outcome OrderError unit :=
  let '(core, r) := core_apply (lt_core self) event in
  and_then (self <| lt_core := core |>, r) (limit_if_touched_after event).

(** *** Market-if-touched orders *)
Definition market_if_touched_new_checked (a : NewOrder) (trigger_price : Price)
    (trigger_type : TriggerType) (expire_time : option UnixNanos)
    (emulation_trigger : option TriggerType) (trigger_instrument_id : option InstrumentId)
  : outcome OrderError (MarketIfTouchedOrder Dec) :=
  _ ← from_correctness (check_positive_quantity (n_quantity a));
  _ ← check_time_in_force (n_time_in_force a) expire_time;
  core ← core_new (initialized_new a MarketIfTouched false None (Some trigger_price)
                     (Some trigger_type) None None None expire_time None emulation_trigger
                     trigger_instrument_id);
  Ok (mkMit Dec trigger_price trigger_type expire_time trigger_instrument_id false None core).
Definition market_if_touched_try_from (e : OrderInitialized Dec)
  : outcome OrderError (MarketIfTouchedOrder Dec) :=
  trigger_price ← required (in_trigger_price e);
  trigger_type ← required (in_trigger_type e);
  market_if_touched_new_checked (args_of e) trigger_price trigger_type (in_expire_time e)
    (in_emulation_trigger e) (in_trigger_instrument_id e).
Definition market_if_touched_update {E} (self : MarketIfTouchedOrder Dec) (e : OrderUpdated)
  : outcome E (MarketIfTouchedOrder Dec) :=
  _ ← assert_ (bool_decide (up_price e = None));
  let self :=
    match up_trigger_price e with
    | Some p => self <| mt_trigger_price := p |>
    | None => self
    end in
  Ok (self <| mt_core := update_quantity (mt_core self) (up_quantity e) |>).
(** What [apply] does once the core has accepted the event. *)
Definition market_if_touched_after (event : Event) (self : MarketIfTouchedOrder Dec) : outcome OrderError (MarketIfTouchedOrder Dec) :=
  self ← match event with EvUpdated e => market_if_touched_update self e | _ => Ok self end;
  let self :=
    if is_triggered_event event
    then self <| mt_is_triggered := true |> <| mt_ts_triggered := Some (event_ts_event event) |>
    else self in
  if is_filled event then
    core ← set_slippage (mt_core self) (mt_trigger_price self);
    Ok (self <| mt_core := core |>)
  else Ok self.
Definition market_if_touched_apply (self : MarketIfTouchedOrder Dec) (event : Event)
  : MarketIfTouchedOrder Dec * outcome OrderError unit :=
  let '(core, r) := core_apply (mt_core self) event in
  and_then (self <| mt_core := core |>, r) (market_if_touched_after event).

(** *** Market-to-limit orders *)
Definition market_to_limit_new_checked (a : NewOrder) (expire_time : option UnixNanos)
    (post_only : bool) (display_qty : option Quantity)
  : outcome OrderError (MarketToLimitOrder Dec) :=
  _ ← from_correctness (check_positive_quantity (n_quantity a));
  _ ← check_display_qty display_qty (n_quantity a);
  _ ← check_time_in_force (n_time_in_force a) expire_time;
  core ← core_new (initialized_new a MarketToLimit post_only None None None None None None
                     expire_time display_qty (Some NoTrigger) None);
  Ok (mkMtl Dec core None expire_time post_only display_qty).
Definition market_to_limit_try_from (e : OrderInitialized Dec)
  : outcome OrderError (MarketToLimitOrder Dec) :=
  market_to_limit_new_checked (args_of e) (in_expire_time e) (in_post_only e)
    (in_display_qty e).
Definition market_to_limit_update {E} (self : MarketToLimitOrder Dec) (e : OrderUpdated)
  : outcome E (MarketToLimitOrder Dec) :=
  _ ← assert_ (bool_decide (up_trigger_price e = None));
  let self :=
    match up_price e with Some p => self <| ml_price := Some p |> | None => self end in
  Ok (self <| ml_core := update_quantity (ml_core self) (up_quantity e) |>).
(** What [apply] does once the core has accepted the event. *)
Definition market_to_limit_after (event : Event) (self : MarketToLimitOrder Dec) : outcome OrderError (MarketToLimitOrder Dec) :=
  self ← match event with EvUpdated e => market_to_limit_update self e | _ => Ok self end;
  match is_filled event, ml_price self with
  | true, Some price =>
      core ← set_slippage (ml_core self) price; Ok (self <| ml_core := core |>)
  | _, _ => Ok self
  end.
Definition market_to_limit_apply (self : MarketToLimitOrder Dec) (event : Event)
  : MarketToLimitOrder Dec * outcome OrderError unit :=
  let '(core, r) := core_apply (ml_core self) event in
  and_then (self <| ml_core := core |>, r) (market_to_limit_after event).

(** *** Stop-limit orders *)
Definition stop_limit_new_checked (a : NewOrder) (price trigger_price : Price)
    (trigger_type : TriggerType) (expire_time : option UnixNanos) (post_only : bool)
    (display_qty : option Quantity) (emulation_trigger : option TriggerType)
    (trigger_instrument_id : option InstrumentId)
  : outcome OrderError (StopLimitOrder Dec) :=
  _ ← from_correctness (check_positive_quantity (n_quantity a));
  _ ← check_display_qty display_qty (n_quantity a);
  _ ← check_time_in_force (n_time_in_force a) expire_time;
  core ← core_new (initialized_new a StopLimit post_only (Some price) (Some trigger_price)
                     (Some trigger_type) None None None expire_time display_qty
                     emulation_trigger trigger_instrument_id);
  Ok (mkStopLimit Dec price trigger_price trigger_type expire_time post_only display_qty
        trigger_instrument_id false None core).
Definition stop_limit_try_from (e : OrderInitialized Dec)
  : outcome OrderError (StopLimitOrder Dec) :=
  price ← required (in_price e);
  trigger_price ← required (in_trigger_price e);
  trigger_type ← required (in_trigger_type e);
  stop_limit_new_checked (args_of e) price trigger_price trigger_type
    (in_expire_time e) (in_post_only e) (in_display_qty e) (in_emulation_trigger e)
    (in_trigger_instrument_id e).
Definition stop_limit_update {E} (self : StopLimitOrder Dec) (e : OrderUpdated)
  : outcome E (StopLimitOrder Dec) :=
  let self :=
    match up_price e with Some p => self <| sl_price := p |> | None => self end in
  let self :=
    match up_trigger_price e with
    | Some p => self <| sl_trigger_price := p |>
    | None => self
    end in
  Ok (self <| sl_core := update_quantity (sl_core self) (up_quantity e) |>).
(** What [apply] does once the core has accepted the event. *)
Definition stop_limit_after (event : Event) (self : StopLimitOrder Dec) : outcome OrderError (StopLimitOrder Dec) :=
  self ← match event with EvUpdated e => stop_limit_update self e | _ => Ok self end;
  let self :=
    if is_triggered_event event
    then self <| sl_is_triggered := true |> <| sl_ts_triggered := Some (event_ts_event event) |>
    else self in
  if is_filled event then
    core ← set_slippage (sl_core self) (sl_price self); Ok (self <| sl_core := core |>)
  else Ok self.
Definition stop_limit_apply (self : StopLimitOrder Dec) (event : Event)
  : StopLimitOrder Dec * outcome OrderError unit :=
  let '(core, r) := core_apply (sl_core self) event in
  and_then (self <| sl_core := core |>, r) (stop_limit_after event).

(** *** Stop-market orders *)
Definition stop_market_new_checked (a : NewOrder) (trigger_price : Price)
    (trigger_type : TriggerType) (expire_time : option UnixNanos)
    (display_qty : option Quantity) (emulation_trigger : option TriggerType)
    (trigger_instrument_id : option InstrumentId)
  : outcome OrderError (StopMarketOrder Dec) :=
  _ ← from_correctness (check_positive_quantity (n_quantity a));
  _ ← check_display_qty display_qty (n_quantity a);
  _ ← check_time_in_force (n_time_in_force a) expire_time;
  core ← core_new (initialized_new a StopMarket false None (Some trigger_price)
                     (Some trigger_type) None None None expire_time display_qty
                     emulation_trigger trigger_instrument_id);
  Ok (mkStopMarket Dec trigger_price trigger_type expire_time display_qty
        trigger_instrument_id false None None core).
Definition stop_market_try_from (e : OrderInitialized Dec)
  : outcome OrderError (StopMarketOrder Dec) :=
  trigger_price ← required (in_trigger_price e);
  trigger_type ← required (in_trigger_type e);
  stop_market_new_checked (args_of e) trigger_price trigger_type (in_expire_time e)
    (in_display_qty e) (in_emulation_trigger e) (in_trigger_instrument_id e).
Definition stop_market_update {E} (self : StopMarketOrder Dec) (e : OrderUpdated)
  : outcome E (StopMarketOrder Dec) :=
  _ ← assert_ (bool_decide (up_price e = None));
  let self :=
    match up_trigger_price e with
    | Some p => self <| sm_trigger_price := p |>
    | None => self
    end in
  let self := self <| sm_protection_price := up_protection_price e |> in
  Ok (self <| sm_core := update_quantity (sm_core self) (up_quantity e) |>).
(** What [apply] does once the core has accepted the event. *)
Definition stop_market_after (event : Event) (self : StopMarketOrder Dec) : outcome OrderError (StopMarketOrder Dec) :=
  self ← match event with EvUpdated e => stop_market_update self e | _ => Ok self end;
  let self :=
    if is_triggered_event event
    then self <| sm_is_triggered := true |> <| sm_ts_triggered := Some (event_ts_event event) |>
    else self in
  if is_filled event then
    core ← set_slippage (sm_core self) (sm_trigger_price self);
    Ok (self <| sm_core := core |>)
  else Ok self.
Definition stop_market_apply (self : StopMarketOrder Dec) (event : Event)
  : StopMarketOrder Dec * outcome OrderError unit :=
  let '(core, r) := core_apply (sm_core self) event in
  and_then (self <| sm_core := core |>, r) (stop_market_after event).

(** *** Trailing-stop-limit orders *)
Definition trailing_stop_limit_new_checked (a : NewOrder) (price trigger_price : Price)
    (trigger_type : TriggerType) (limit_offset trailing_offset : Dec)
    (trailing_offset_type : TrailingOffsetType) (expire_time : option UnixNanos)
    (post_only : bool) (display_qty : option Quantity)
    (emulation_trigger : option TriggerType) (trigger_instrument_id : option InstrumentId)
  : outcome OrderError (TrailingStopLimitOrder Dec) :=
  _ ← from_correctness (check_positive_quantity (n_quantity a));
  _ ← check_display_qty display_qty (n_quantity a);
  _ ← check_time_in_force (n_time_in_force a) expire_time;
  core ← core_new (initialized_new a TrailingStopLimit post_only (Some price)
                     (Some trigger_price) (Some trigger_type) (Some limit_offset)
                     (Some trailing_offset) (Some trailing_offset_type) expire_time
                     display_qty emulation_trigger trigger_instrument_id);
  Ok (mkTrailLimit Dec core None price trigger_price trigger_type limit_offset
        trailing_offset trailing_offset_type expire_time post_only display_qty
        trigger_instrument_id false false None).
Definition trailing_stop_limit_try_from (e : OrderInitialized Dec)
  : outcome OrderError (TrailingStopLimitOrder Dec) :=
  price ← required (in_price e);
  trigger_price ← required (in_trigger_price e);
  trigger_type ← required (in_trigger_type e);
  limit_offset ← required (in_limit_offset e);
  trailing_offset ← required (in_trailing_offset e);
  trailing_offset_type ← required (in_trailing_offset_type e);
  trailing_stop_limit_new_checked (args_of e) price trigger_price trigger_type limit_offset
    trailing_offset trailing_offset_type (in_expire_time e) (in_post_only e)
    (in_display_qty e) (in_emulation_trigger e) (in_trigger_instrument_id e).
Definition trailing_stop_limit_update {E} (self : TrailingStopLimitOrder Dec)
    (e : OrderUpdated) : outcome E (TrailingStopLimitOrder Dec) :=
  let self :=
    match up_price e with Some p => self <| tl_price := p |> | None => self end in
  let self :=
    match up_trigger_price e with
    | Some p => self <| tl_trigger_price := p |>
    | None => self
    end in
  Ok (self <| tl_core := update_quantity (tl_core self) (up_quantity e) |>).
(** What [apply] does once the core has accepted the event. *)
Definition trailing_stop_limit_after (event : Event) (self : TrailingStopLimitOrder Dec) : outcome OrderError (TrailingStopLimitOrder Dec) :=
  self ← match event with EvUpdated e => trailing_stop_limit_update self e | _ => Ok self end;
  let self :=
    if is_triggered_event event
    then self <| tl_is_triggered := true |> <| tl_ts_triggered := Some (event_ts_event event) |>
    else self in
  if is_filled event then
    core ← set_slippage (tl_core self) (tl_price self); Ok (self <| tl_core := core |>)
  else Ok self.
Definition trailing_stop_limit_apply (self : TrailingStopLimitOrder Dec) (event : Event)
  : TrailingStopLimitOrder Dec * outcome OrderError unit :=
  let '(core, r) := core_apply (tl_core self) event in
  and_then (self <| tl_core := core |>, r) (trailing_stop_limit_after event).

(** *** Trailing-stop-market orders *)
Definition trailing_stop_market_new_checked (a : NewOrder) (trigger_price : Price)
    (trigger_type : TriggerType) (trailing_offset : Dec)
    (trailing_offset_type : TrailingOffsetType) (expire_time : option UnixNanos)
    (display_qty : option Quantity)
    (emulation_trigger : option TriggerType) (trigger_instrument_id : option InstrumentId)
  : outcome OrderError (TrailingStopMarketOrder Dec) :=
  _ ← from_correctness (check_positive_quantity (n_quantity a));
  _ ← check_display_qty display_qty (n_quantity a);
  _ ← check_time_in_force (n_time_in_force a) expire_time;
  core ← core_new (initialized_new a TrailingStopMarket false None (Some trigger_price)
                     (Some trigger_type) None (Some trailing_offset)
                     (Some trailing_offset_type) expire_time display_qty
                     emulation_trigger trigger_instrument_id);
  Ok (mkTrailMarket Dec core None trigger_price trigger_type trailing_offset
        trailing_offset_type expire_time display_qty trigger_instrument_id false false None).
Definition trailing_stop_market_try_from (e : OrderInitialized Dec)
  : outcome OrderError (TrailingStopMarketOrder Dec) :=
  trigger_price ← required (in_trigger_price e);
  trigger_type ← required (in_trigger_type e);
  trailing_offset ← required (in_trailing_offset e);
  trailing_offset_type ← required (in_trailing_offset_type e);
  trailing_stop_market_new_checked (args_of e) trigger_price trigger_type trailing_offset
    trailing_offset_type (in_expire_time e) (in_display_qty e) (in_emulation_trigger e)
    (in_trigger_instrument_id e).
Definition trailing_stop_market_update {E} (self : TrailingStopMarketOrder Dec)
    (e : OrderUpdated) : outcome E (TrailingStopMarketOrder Dec) :=
  _ ← assert_ (bool_decide (up_price e = None));
  let self :=
    match up_trigger_price e with
    | Some p => self <| tm_trigger_price := p |>
    | None => self
    end in
  Ok (self <| tm_core := update_quantity (tm_core self) (up_quantity e) |>).
(** What [apply] does once the core has accepted the event. *)
Definition trailing_stop_market_after (event : Event) (self : TrailingStopMarketOrder Dec) : outcome OrderError (TrailingStopMarketOrder Dec) :=
  self ← match event with EvUpdated e => trailing_stop_market_update self e | _ => Ok self end;
  let self :=
    if is_triggered_event event
    then self <| tm_is_triggered := true |> <| tm_ts_triggered := Some (event_ts_event event) |>
    else self in
  if is_filled event then
    core ← set_slippage (tm_core self) (tm_trigger_price self);
    Ok (self <| tm_core := core |>)
  else Ok self.
Definition trailing_stop_market_apply (self : TrailingStopMarketOrder Dec) (event : Event)
  : TrailingStopMarketOrder Dec * outcome OrderError unit :=
  let '(core, r) := core_apply (tm_core self) event in
  and_then (self <| tm_core := core |>, r) (trailing_stop_market_after event).

(** *** [OrderAny] *)

(** [fmap] on the order of an [apply] result. *)
Definition wrap_any {T} (f : T -> OrderAny Dec) (r : T * outcome OrderError unit)
  : OrderAny Dec * outcome OrderError unit := (f r.1, r.2).

(** The dispatch of [apply] to the variant. *)
Definition any_apply (self : OrderAny Dec) (event : Event)
  : OrderAny Dec * outcome OrderError unit :=
  match self with
  | AnyLimit o => wrap_any AnyLimit (limit_apply o event)
  | AnyLimitIfTouched o => wrap_any AnyLimitIfTouched (limit_if_touched_apply o event)
  | AnyMarket o => wrap_any AnyMarket (market_apply o event)
  | AnyMarketIfTouched o => wrap_any AnyMarketIfTouched (market_if_touched_apply o event)
  | AnyMarketToLimit o => wrap_any AnyMarketToLimit (market_to_limit_apply o event)
  | AnyStopLimit o => wrap_any AnyStopLimit (stop_limit_apply o event)
  | AnyStopMarket o => wrap_any AnyStopMarket (stop_market_apply o event)
  | AnyTrailingStopLimit o => wrap_any AnyTrailingStopLimit (trailing_stop_limit_apply o event)
  | AnyTrailingStopMarket o =>
      wrap_any AnyTrailingStopMarket (trailing_stop_market_apply o event)
  end.

Definition any_core (self : OrderAny Dec) : Core :=
  match self with
  | AnyLimit o => lm_core o
  | AnyLimitIfTouched o => lt_core o
  | AnyMarket o => mk_core o
  | AnyMarketIfTouched o => mt_core o
  | AnyMarketToLimit o => ml_core o
  | AnyStopLimit o => sl_core o
  | AnyStopMarket o => sm_core o
  | AnyTrailingStopLimit o => tl_core o
  | AnyTrailingStopMarket o => tm_core o
  end.

Definition any_price (self : OrderAny Dec) : option Price :=
  match self with
  | AnyLimit o => Some (lm_price o)
  | AnyLimitIfTouched o => Some (lt_price o)
  | AnyMarket o => mk_protection_price o
  | AnyMarketIfTouched o => None
  | AnyMarketToLimit o => ml_price o
  | AnyStopLimit o => Some (sl_price o)
  | AnyStopMarket o => sm_protection_price o
  | AnyTrailingStopLimit o => Some (tl_price o)
  | AnyTrailingStopMarket o => None
  end.

Definition any_trigger_price (self : OrderAny Dec) : option Price :=
  match self with
  | AnyLimit _ | AnyMarket _ | AnyMarketToLimit _ => None
  | AnyLimitIfTouched o => Some (lt_trigger_price o)
  | AnyMarketIfTouched o => Some (mt_trigger_price o)
  | AnyStopLimit o => Some (sl_trigger_price o)
  | AnyStopMarket o => Some (sm_trigger_price o)
  | AnyTrailingStopLimit o => Some (tl_trigger_price o)
  | AnyTrailingStopMarket o => Some (tm_trigger_price o)
  end.

Definition any_is_triggered (self : OrderAny Dec) : option bool :=
  match self with
  | AnyLimit _ | AnyMarket _ | AnyMarketToLimit _ => None
  | AnyLimitIfTouched o => Some (lt_is_triggered o)
  | AnyMarketIfTouched o => Some (mt_is_triggered o)
  | AnyStopLimit o => Some (sl_is_triggered o)
  | AnyStopMarket o => Some (sm_is_triggered o)
  | AnyTrailingStopLimit o => Some (tl_is_triggered o)
  | AnyTrailingStopMarket o => Some (tm_is_triggered o)
  end.

(** [OrderAny::try_from(OrderInitialized)]. *)
Definition any_try_from (e : OrderInitialized Dec) : outcome OrderError (OrderAny Dec) :=
  match in_order_type e with
  | Limit => AnyLimit <$> limit_try_from e
  | Market => AnyMarket <$> market_try_from e
  | StopMarket => AnyStopMarket <$> stop_market_try_from e
  | StopLimit => AnyStopLimit <$> stop_limit_try_from e
  | MarketToLimit => AnyMarketToLimit <$> market_to_limit_try_from e
  | MarketIfTouched => AnyMarketIfTouched <$> market_if_touched_try_from e
  | LimitIfTouched => AnyLimitIfTouched <$> limit_if_touched_try_from e
  | TrailingStopMarket => AnyTrailingStopMarket <$> trailing_stop_market_try_from e
  | TrailingStopLimit => AnyTrailingStopLimit <$> trailing_stop_limit_try_from e
  end.

Fixpoint apply_all (order : OrderAny Dec) (events : list Event)
  : outcome OrderError (OrderAny Dec) :=
  match events with
  | [] => Ok order
  | ev :: events =>
      match any_apply order ev with
      | (order, Ok _) => apply_all order events
      | (_, Err e) => Err e
      | (_, Panic) => Panic
      end
  end.

(** [OrderAny::from_events]; the two [bail!] cases are [Err None]. *)
Definition from_events (events : list Event) : outcome (option OrderError) (OrderAny Dec) :=
  match events with
  | [] => Err None
  | EvInitialized init :: events =>
      match (order ← any_try_from init; apply_all order events) with
      | Ok order => Ok order
      | Err e => Err (Some e)
      | Panic => Panic
      end
  | _ :: _ => Err None
  end.

Definition any_init_event {E} (self : OrderAny Dec) : outcome E (OrderInitialized Dec) :=
  ev ← expect (head (o_events (any_core self)));
  match ev with EvInitialized init => Ok init | _ => Panic end.

(** [StopOrderAny::stop_px] and [LimitOrderAny::limit_px] on the variants the
    conversions to those types accept; [None] for the others. *)
Definition stop_px (self : OrderAny Dec) : option Price :=
  match self with
  | AnyLimitIfTouched o => Some (lt_trigger_price o)
  | AnyMarketIfTouched o => Some (mt_trigger_price o)
  | AnyStopLimit o => Some (sl_trigger_price o)
  | AnyStopMarket o => Some (sm_trigger_price o)
  | AnyTrailingStopLimit o => Some (default (tl_trigger_price o) (tl_activation_price o))
  | AnyTrailingStopMarket o => Some (default (tm_trigger_price o) (tm_activation_price o))
  | _ => None
  end.
Definition limit_px {E} (self : OrderAny Dec) : option (outcome E Price) :=
  match self with
  | AnyLimit o => Some (Ok (lm_price o))
  | AnyMarketToLimit o => Some (expect (ml_price o))
  | AnyStopLimit o => Some (Ok (sl_price o))
  | AnyTrailingStopLimit o => Some (Ok (tl_price o))
  | AnyMarket o => Some (expect (mk_protection_price o))
  | _ => None
  end.
End Orders.
