(* ===== verification/OrderReplay.v ===== *)
(** * Every order type keeps the invariants, and replay

    [OrderLike] states what an order type promises: a core behind a lens, and
    what its [apply] does after the core accepted an event.  From the interface
    alone it follows that a typed order's core only takes the steps of
    [OrderLife], and that rebuilding an order from its own event log gives the
    order back. *)

From stdpp Require Import base numbers list strings relations.
From Stdlib Require Import ZArith Lia.
From S2P Require Import Prelude F64 Fixed Price Quantity Money Enums OrderEvents OrderCore OrderLife Orders.

(** What follows the core's [apply]: the quantity update of an [OrderUpdated]
    and possibly a slippage computation. *)
Definition core_after `{M : Mode} {Dec} (ev : OrderEventAny Dec) (c c' : OrderCore Dec) : Prop :=
  let c1 := match ev with EvUpdated e => update_quantity c (up_quantity e) | _ => c end in
  c' = c1 \/ exists p, set_slippage (E := OrderError) c1 p = Ok c'.

Class OrderLike `{M : Mode} (Dec : Type) (T : Type) : Type := {
  ol_core : T -> OrderCore Dec;
  ol_set_core : OrderCore Dec -> T -> T;
  ol_after : OrderEventAny Dec -> T -> outcome OrderError T;
  ol_get_set c t : ol_core (ol_set_core c t) = c;
  ol_set_get t : ol_set_core (ol_core t) t = t;
  ol_set_set c c' t : ol_set_core c (ol_set_core c' t) = ol_set_core c t;
  ol_after_core ev t t' : ol_after ev t = Ok t' -> core_after ev (ol_core t) (ol_core t');
  ol_after_err ev t e : ol_after ev t <> Err e;
  ol_after_previous ev t p :
    ol_after ev (ol_set_core ((ol_core t) <| o_previous_status := p |>) t) =
    (fun t' => ol_set_core ((ol_core t') <| o_previous_status := p |>) t') <$> ol_after ev t;
}.

Section Like.
Context `{M : Mode} {Dec T : Type} `{!OrderLike Dec T}.
Implicit Types (t : T) (ev : OrderEventAny Dec).

Definition ol_apply t ev : T * outcome OrderError unit :=
  let '(core, r) := core_apply (ol_core t) ev in
  and_then (ol_set_core core t, r) (ol_after ev).
Definition set_previous (p : option OrderStatus) t : T :=
  ol_set_core ((ol_core t) <| o_previous_status := p |>) t.
End Like.

Lemma set_slippage_previous {Dec} `{M : Mode} {E} (c : OrderCore Dec) p px :
  set_slippage (E := E) (c <| o_previous_status := p |>) px =
  (fun c' => c' <| o_previous_status := p |>) <$> set_slippage (E := E) c px.
Proof.
  unfold set_slippage. cbn. destruct (o_avg_px c); [|done].
  destruct (price_as_f64 px); [|done|done]. done.
Qed.

Lemma set_slippage_never_err {Dec} `{M : Mode} {E} (c : OrderCore Dec) px (e : E) :
  set_slippage c px <> Err e.
Proof.
  unfold set_slippage, price_as_f64, assert_. destruct (o_avg_px c); [|done].
  destruct (negb _); simpl; done.
Qed.

(** Discharge the laws for a concrete order type: the laws of the lens, what
    happens to the core, no errors, and independence of the previous status.
    [unf] unfolds the type's [after] and [update]. *)
Ltac lens_laws := first [by intros c [] | by intros [] | by intros c c' []].

Ltac split_asserts :=
  repeat match goal with
  | H : context [@assert_ ?E ?b] |- _ => destruct b; cbn in H; try done
  | |- context [@assert_ ?E ?b] => destruct b; cbn; try done
  end.

Ltac after_core_law unf :=
  intros ev t t' H; unf; unfold core_after; destruct t;
  destruct ev; cbn in *; outcome_inv; cbn in *; repeat case_match; simplify_eq/=;
  outcome_inv; cbn in *; eauto.

Ltac after_err_law unf :=
  intros ev t e H; unf;
  destruct ev; cbn in H; split_asserts; repeat case_match; try done;
  try match type of H with
  | (set_slippage ?c ?p ≫= _) = Err _ =>
      destruct (set_slippage c p) eqn:E; cbn in H; try done;
      by apply set_slippage_never_err in E
  end.

Ltac after_previous_law unf :=
  intros ev t p; unf; destruct t; destruct ev; cbn; try done;
  split_asserts; repeat case_match; try done; cbn; rewrite ?set_slippage_previous;
  try match goal with
  | |- context [set_slippage ?c ?px] => by destruct (set_slippage c px)
  end.

Ltac after_laws unf :=
  [> after_core_law unf | after_err_law unf | after_previous_law unf ].

#[export] Instance market_like `{M : Mode} Dec : OrderLike Dec (MarketOrder Dec).
Proof.
  refine {| ol_core := mk_core; ol_set_core c t := t <| mk_core := c |>;
            ol_after := market_after |}; try lens_laws.
  all: after_laws ltac:(unfold market_after, market_update in * ).
Defined.

#[export] Instance limit_like `{M : Mode} Dec : OrderLike Dec (LimitOrder Dec).
Proof.
  refine {| ol_core := lm_core; ol_set_core c t := t <| lm_core := c |>;
            ol_after := limit_after |}; try lens_laws.
  all: after_laws ltac:(unfold limit_after, limit_update in * ).
Defined.

#[export] Instance limit_if_touched_like `{M : Mode} Dec : OrderLike Dec (LimitIfTouchedOrder Dec).
Proof.
  refine {| ol_core := lt_core; ol_set_core c t := t <| lt_core := c |>;
            ol_after := limit_if_touched_after |}; try lens_laws.
  all: after_laws ltac:(unfold limit_if_touched_after, limit_if_touched_update in * ).
Defined.

#[export] Instance market_if_touched_like `{M : Mode} Dec : OrderLike Dec (MarketIfTouchedOrder Dec).
Proof.
  refine {| ol_core := mt_core; ol_set_core c t := t <| mt_core := c |>;
            ol_after := market_if_touched_after |}; try lens_laws.
  all: after_laws ltac:(unfold market_if_touched_after, market_if_touched_update in * ).
Defined.

#[export] Instance market_to_limit_like `{M : Mode} Dec : OrderLike Dec (MarketToLimitOrder Dec).
Proof.
  refine {| ol_core := ml_core; ol_set_core c t := t <| ml_core := c |>;
            ol_after := market_to_limit_after |}; try lens_laws.
  all: after_laws ltac:(unfold market_to_limit_after, market_to_limit_update in * ).
Defined.

#[export] Instance stop_limit_like `{M : Mode} Dec : OrderLike Dec (StopLimitOrder Dec).
Proof.
  refine {| ol_core := sl_core; ol_set_core c t := t <| sl_core := c |>;
            ol_after := stop_limit_after |}; try lens_laws.
  all: after_laws ltac:(unfold stop_limit_after, stop_limit_update in * ).
Defined.

#[export] Instance stop_market_like `{M : Mode} Dec : OrderLike Dec (StopMarketOrder Dec).
Proof.
  refine {| ol_core := sm_core; ol_set_core c t := t <| sm_core := c |>;
            ol_after := stop_market_after |}; try lens_laws.
  all: after_laws ltac:(unfold stop_market_after, stop_market_update in * ).
Defined.

#[export] Instance trailing_stop_limit_like `{M : Mode} Dec : OrderLike Dec (TrailingStopLimitOrder Dec).
Proof.
  refine {| ol_core := tl_core; ol_set_core c t := t <| tl_core := c |>;
            ol_after := trailing_stop_limit_after |}; try lens_laws.
  all: after_laws ltac:(unfold trailing_stop_limit_after, trailing_stop_limit_update in * ).
Defined.

#[export] Instance trailing_stop_market_like `{M : Mode} Dec : OrderLike Dec (TrailingStopMarketOrder Dec).
Proof.
  refine {| ol_core := tm_core; ol_set_core c t := t <| tm_core := c |>;
            ol_after := trailing_stop_market_after |}; try lens_laws.
  all: after_laws ltac:(unfold trailing_stop_market_after, trailing_stop_market_update in * ).
Defined.

(** *** The sum of the nine types *)
Definition any_set_core {Dec} (c : OrderCore Dec) (o : OrderAny Dec) : OrderAny Dec :=
  match o with
  | AnyLimit o => AnyLimit (o <| lm_core := c |>)
  | AnyLimitIfTouched o => AnyLimitIfTouched (o <| lt_core := c |>)
  | AnyMarket o => AnyMarket (o <| mk_core := c |>)
  | AnyMarketIfTouched o => AnyMarketIfTouched (o <| mt_core := c |>)
  | AnyMarketToLimit o => AnyMarketToLimit (o <| ml_core := c |>)
  | AnyStopLimit o => AnyStopLimit (o <| sl_core := c |>)
  | AnyStopMarket o => AnyStopMarket (o <| sm_core := c |>)
  | AnyTrailingStopLimit o => AnyTrailingStopLimit (o <| tl_core := c |>)
  | AnyTrailingStopMarket o => AnyTrailingStopMarket (o <| tm_core := c |>)
  end.
Definition any_after `{M : Mode} {Dec} (ev : OrderEventAny Dec) (o : OrderAny Dec)
  : outcome OrderError (OrderAny Dec) :=
  match o with
  | AnyLimit o => AnyLimit <$> limit_after ev o
  | AnyLimitIfTouched o => AnyLimitIfTouched <$> limit_if_touched_after ev o
  | AnyMarket o => AnyMarket <$> market_after ev o
  | AnyMarketIfTouched o => AnyMarketIfTouched <$> market_if_touched_after ev o
  | AnyMarketToLimit o => AnyMarketToLimit <$> market_to_limit_after ev o
  | AnyStopLimit o => AnyStopLimit <$> stop_limit_after ev o
  | AnyStopMarket o => AnyStopMarket <$> stop_market_after ev o
  | AnyTrailingStopLimit o => AnyTrailingStopLimit <$> trailing_stop_limit_after ev o
  | AnyTrailingStopMarket o => AnyTrailingStopMarket <$> trailing_stop_market_after ev o
  end.

Lemma fmap_Ok_inv {E A B} (f : A -> B) (m : outcome E A) b :
  f <$> m = Ok b -> exists a, m = Ok a /\ b = f a.
Proof. destruct m; simpl; naive_solver. Qed.

#[export] Instance any_like `{M : Mode} Dec : OrderLike Dec (OrderAny Dec).
Proof.
  refine {| ol_core := any_core; ol_set_core := any_set_core; ol_after := any_after |}.
  - by intros c [[]|[]|[]|[]|[]|[]|[]|[]|[]].
  - by intros [[]|[]|[]|[]|[]|[]|[]|[]|[]].
  - by intros c c' [[]|[]|[]|[]|[]|[]|[]|[]|[]].
  - intros ev o o' H. destruct o as [x|x|x|x|x|x|x|x|x]; apply fmap_Ok_inv in H as (t & H & ->);
      exact (ol_after_core ev x t H).
  - intros ev o e H. destruct o as [t|t|t|t|t|t|t|t|t]; cbn in H;
      pose proof (ol_after_err ev t) as He; cbn in He;
      match goal with H : context [?m <$> ?x] |- _ => destruct x; cbn in H; naive_solver end.
  - intros ev o p. destruct o as [t|t|t|t|t|t|t|t|t];
      pose proof (ol_after_previous ev t p) as Hp; cbn in Hp |- *; rewrite Hp;
      match goal with |- context [_ <$> ?x] => by destruct x end.
Defined.

Lemma any_apply_eq `{M : Mode} {Dec} (o : OrderAny Dec) ev : any_apply o ev = ol_apply o ev.
Proof.
  destruct o as [t|t|t|t|t|t|t|t|t]; cbn;
    unfold wrap_any, ol_apply, limit_apply, limit_if_touched_apply, market_apply,
      market_if_touched_apply, market_to_limit_apply, stop_limit_apply, stop_market_apply,
      trailing_stop_limit_apply, trailing_stop_market_apply; cbn;
    destruct (core_apply _ ev) as [c [[]|e|]]; cbn; try done;
    match goal with |- context [_ <$> ?x] => by destruct x end.
Qed.

(* ------------------------------------------------------------------ *)
(** ** Typed orders take core steps *)

Section Simulation.
Context `{M : Mode} {Dec T : Type} `{!OrderLike Dec T}.
Implicit Types (t : T) (ev : OrderEventAny Dec).

Lemma ol_apply_cases t ev t' r :
  ol_apply t ev = (t', r) -> r <> Panic ->
  (exists c e, core_apply (ol_core t) ev = (c, Err e) /\ r = Err e /\ t' = ol_set_core c t) \/
  (exists c, core_apply (ol_core t) ev = (c, Ok tt) /\ r = Ok tt /\
             ol_after ev (ol_set_core c t) = Ok t').
Proof.
  unfold ol_apply. destruct (core_apply (ol_core t) ev) as [c [[]|e|]]; cbn.
  - destruct (ol_after ev (ol_set_core c t)) as [t1|e|] eqn:E.
    + intros [= <- <-] _. right. eauto.
    + by apply ol_after_err in E.
    + by intros [= <- <-].
  - intros [= <- <-] _. left. eauto 6.
  - by intros [= <- <-].
Qed.

Lemma ol_apply_steps t ev t' r :
  event_in_ty ev -> ol_apply t ev = (t', r) -> r <> Panic ->
  rtc core_step (ol_core t) (ol_core t').
Proof.
  intros Hty Hap Hr. destruct (ol_apply_cases _ _ _ _ Hap Hr)
    as [(c & e & Hc & -> & ->)|(c & Hc & -> & Ha)].
  - rewrite ol_get_set. apply rtc_once. apply (step_event _ ev _ (Err e)); [done| |done].
    unfold core_event. by rewrite Hc.
  - apply ol_after_core in Ha. rewrite ol_get_set in Ha. unfold core_after in Ha.
    set (c1 := match ev with EvUpdated _ => _ | _ => _ end) in Ha.
    apply (rtc_l _ _ c1).
    + apply (step_event _ ev _ (Ok tt)); [done| |done].
      unfold core_event. rewrite Hc. by destruct ev.
    + destruct Ha as [->|[p Hp]]; [apply rtc_refl|]. apply rtc_once. by eapply step_slippage.
Qed.
End Simulation.

(** ** Equality up to the saved status *)

Section Replay.
Context `{M : Mode} {Dec : Type}.
Implicit Types (c : OrderCore Dec) (ev : OrderEventAny Dec).

(** Two cores that differ at most in the saved status, and not when it can
    still be restored. *)
Definition core_similar c c' : Prop :=
  exists p, c' = c <| o_previous_status := p |> /\
    (is_pending (o_status c) = true -> p = o_previous_status c).
#[export] Instance core_equiv : Equiv (OrderCore Dec) := core_similar.

Lemma set_previous_id c : c <| o_previous_status := o_previous_status c |> = c.
Proof. by destruct c. Qed.

#[export] Instance core_equivalence : Equivalence (≡@{OrderCore Dec}).
Proof.
  split.
  - intros c. exists (o_previous_status c). by rewrite set_previous_id.
  - intros c c' (p & -> & Hp). exists (o_previous_status c). split; [by destruct c|].
    intros H. cbn. by rewrite Hp.
  - intros c1 c2 c3 (p & -> & Hp) (q & -> & Hq). exists q. split; [by destruct c1|].
    intros H. cbn in Hq. rewrite Hq by done. auto.
Qed.

Lemma save_previous_similar c ev : c ≡ save_previous c ev.
Proof.
  unfold save_previous. destruct (saves_previous (o_status c) ev) eqn:E; [|done].
  eexists. split; [reflexivity|]. intros Hp. unfold saves_previous in E.
  destruct (o_status c); try done; by rewrite andb_false_r in E.
Qed.

(** [core_apply] cannot tell them apart, and an accepted event makes them equal. *)
Lemma core_apply_similar c c' ev :
  c ≡ c' ->
  (core_apply c ev).2 = (core_apply c' ev).2 /\ (core_apply c ev).1 ≡ (core_apply c' ev).1 /\
  ((core_apply c ev).2 = Ok tt -> (core_apply c ev).1 = (core_apply c' ev).1).
Proof.
  intros (p & -> & Hp).
  destruct (is_pending (o_status c)) eqn:E; [by rewrite Hp, set_previous_id by done|].
  assert (Hc : c ≡ c <| o_previous_status := p |>) by (exists p; split; [done|]; congruence).
  unfold core_apply. cbn [o_client_order_id o_strategy_id set_field].
  destruct (negb (bool_decide (o_client_order_id c = _))); [done|].
  destruct (negb (bool_decide (o_strategy_id c = _))); [done|].
  cbn [o_status set_field]. destruct (saves_previous (o_status c) ev) eqn:Es; [done|].
  unfold saves_previous in Es.
  assert (Hev : match ev with EvInitialized _ | EvModifyRejected _ | EvCancelRejected _ => true
                         | _ => false end = true).
  { destruct (o_status c); try done; by destruct ev. }
  destruct ev; try done; cbn; destruct (o_status c); done.
Qed.
End Replay.

(** ** Replaying an event log *)

Section Replay.
Context `{M : Mode} {Dec T : Type} `{!OrderLike Dec T}.
Implicit Types (t u : T) (ev : OrderEventAny Dec).

Definition order_similar t t' : Prop :=
  exists p, t' = set_previous p t /\
    (is_pending (o_status (ol_core t)) = true -> p = o_previous_status (ol_core t)).

Lemma order_similar_core t t' :
  order_similar t t' <-> exists c', t' = ol_set_core c' t /\ ol_core t ≡ c'.
Proof.
  split.
  - intros (p & -> & Hp). eexists. split; [done|]. by exists p.
  - intros (c' & -> & (p & -> & Hp)). by exists p.
Qed.

Lemma order_similar_refl t : order_similar t t.
Proof. apply order_similar_core. exists (ol_core t). by rewrite ol_set_get. Qed.

Lemma order_similar_left t u t' :
  (exists c, u = ol_set_core c t /\ ol_core t ≡ c) -> order_similar t t' -> order_similar u t'.
Proof.
  intros (c & -> & Hc) (c' & -> & Hc')%order_similar_core. apply order_similar_core.
  exists c'. rewrite ol_set_set, ol_get_set. split; [done|]. by rewrite <- Hc.
Qed.

(** Every outcome but a panic is the same for similar orders. *)
Lemma ol_apply_similar t t' ev :
  order_similar t t' -> (ol_apply t ev).2 = Ok tt -> ol_apply t' ev = ol_apply t ev.
Proof.
  intros (c' & -> & Hc)%order_similar_core Hr.
  destruct (core_apply_similar _ _ ev Hc) as (H2 & _ & H1).
  unfold ol_apply in *. rewrite ol_get_set.
  destruct (core_apply (ol_core t) ev) as [c r], (core_apply c' ev) as [d s]. cbn in *. subst s.
  destruct r as [[]|e|]; [|done|done]. rewrite <- H1 by done. by rewrite ol_set_set.
Qed.

(** A refused event changes nothing but the saved status. *)
Lemma ol_apply_refused t ev t1 e :
  ol_apply t ev = (t1, Err e) ->
  o_events (ol_core t1) = o_events (ol_core t) /\
  exists c, t1 = ol_set_core c t /\ ol_core t ≡ c.
Proof.
  intros Hap. destruct (ol_apply_cases _ _ _ _ Hap ltac:(done))
    as [(c & e' & Hc & _ & ->)|(c & _ & ? & _)]; [|done].
  rewrite ol_get_set. apply core_apply_Err in Hc as [->| ->].
  - split; [done|]. by exists (ol_core t).
  - split; [apply (save_previous_same (ol_core t) ev)|]. eexists. split; [done|].
    apply save_previous_similar.
Qed.

Lemma ol_apply_events t ev t1 :
  ol_apply t ev = (t1, Ok tt) -> o_events (ol_core t1) = o_events (ol_core t) ++ [ev].
Proof.
  intros Hap. destruct (ol_apply_cases _ _ _ _ Hap ltac:(done))
    as [(c & e & _ & ? & _)|(c & Hc & _ & Ha)]; [done|].
  apply core_apply_Ok_events in Hc. rewrite <- Hc.
  apply ol_after_core in Ha. rewrite ol_get_set in Ha.
  unfold core_after in Ha. set (c1 := match ev with EvUpdated _ => _ | _ => _ end) in Ha.
  assert (H1 : o_events c1 = o_events c) by (subst c1; by destruct ev).
  destruct Ha as [->|[p Hp]]; [done|]. apply set_slippage_same in Hp as []. congruence.
Qed.

(** A run in which refused events are dropped, [None] when a call panics. *)
Fixpoint ol_run t (events : list (OrderEventAny Dec)) : option T :=
  match events with
  | [] => Some t
  | ev :: events =>
      match ol_apply t ev with
      | (_, Panic) => None
      | (t', _) => ol_run t' events
      end
  end.
Fixpoint ol_apply_all t (events : list (OrderEventAny Dec)) : outcome OrderError T :=
  match events with
  | [] => Ok t
  | ev :: events =>
      match ol_apply t ev with
      | (t', Ok _) => ol_apply_all t' events
      | (_, Err e) => Err e
      | (_, Panic) => Panic
      end
  end.

Lemma ol_replay t t' events u :
  order_similar t t' -> ol_run t events = Some u ->
  exists accepted u', o_events (ol_core u) = o_events (ol_core t) ++ accepted /\
    ol_apply_all t' accepted = Ok u' /\ order_similar u u'.
Proof.
  revert t t'. induction events as [|ev events IH]; intros t t' Hsim; cbn.
  - intros [= <-]. exists [], t'. by rewrite app_nil_r.
  - destruct (ol_apply t ev) as [t1 [[]|e|]] eqn:Hap; [| |done]; intros Hrun.
    + assert (Hap' : ol_apply t' ev = (t1, Ok tt))
        by (rewrite <- Hap; apply ol_apply_similar; [done|by rewrite Hap]).
      destruct (IH t1 t1 (order_similar_refl t1) Hrun) as (acc & u' & Hl & Ha & Hu).
      exists (ev :: acc), u'. cbn. rewrite Hap', Hl, (ol_apply_events _ _ _ Hap), <- app_assoc.
      done.
    + destruct (ol_apply_refused _ _ _ _ Hap) as [Hev Hc].
      destruct (IH t1 t' (order_similar_left _ _ _ Hc Hsim) Hrun) as (acc & u' & Hl & Ha & Hu).
      exists acc, u'. by rewrite Hl, Hev.
Qed.
End Replay.

(** ** The creation event of an order recreates it *)

Section Creation.
Context `{M : Mode} {Dec : Type}.

Lemma core_new_events {E} (init : OrderInitialized Dec) c :
  core_new (E := E) init = Ok c -> o_events c = [EvInitialized init].
Proof. unfold core_new. intros H. by apply bind_Ok_inv in H as (z & _ & [= <-]). Qed.

Lemma args_of_initialized_new a ty po px tp tt lo tro trt et dq em ti :
  args_of (Dec := Dec) (initialized_new a ty po px tp tt lo tro trt et dq em ti) = a.
Proof. by destruct a. Qed.

(** [new_checked] ends by building the core from the event it stores. *)
Ltac recreate :=
  lazymatch goal with
  | H : _ = Ok ?x |- ex _ =>
      let H' := fresh in pose proof H as H';
      unfold market_new_checked, limit_new_checked, limit_if_touched_new_checked,
        market_if_touched_new_checked, market_to_limit_new_checked, stop_limit_new_checked,
        stop_market_new_checked, trailing_stop_limit_new_checked,
        trailing_stop_market_new_checked in H';
      repeat (apply bind_Ok_inv in H' as (? & ? & H')); injection H' as H';
      eexists; split;
      [ rewrite <- H'; cbn; eapply (core_new_events (E := OrderError)); eassumption
      | unfold any_try_from; cbn [in_order_type initialized_new];
        unfold market_try_from, limit_try_from, limit_if_touched_try_from,
          market_if_touched_try_from, market_to_limit_try_from, stop_limit_try_from,
          stop_market_try_from, trailing_stop_limit_try_from,
          trailing_stop_market_try_from, required;
        rewrite args_of_initialized_new; cbn [in_price in_trigger_price in_trigger_type
          in_limit_offset in_trailing_offset in_trailing_offset_type in_expire_time
          in_post_only in_display_qty in_emulation_trigger in_trigger_instrument_id
          initialized_new ok_or mbind outcome_bind]; by rewrite H ]
  end.

Lemma any_try_from_idem (e : OrderInitialized Dec) o :
  any_try_from e = Ok o ->
  exists init0, o_events (any_core o) = [EvInitialized init0] /\ any_try_from init0 = Ok o.
Proof.
  unfold any_try_from at 1. destruct (in_order_type e); intros H;
    apply fmap_Ok_inv in H as (x & H & ->);
    unfold market_try_from, limit_try_from, limit_if_touched_try_from,
      market_if_touched_try_from, market_to_limit_try_from, stop_limit_try_from,
      stop_market_try_from, trailing_stop_limit_try_from, trailing_stop_market_try_from in H;
    repeat match type of H with
    | (required _ ≫= _) = _ => apply bind_Ok_inv in H as (? & _ & H)
    end; recreate.
Qed.
End Creation.

(* ------------------------------------------------------------------ *)
(** ** Properties *)

Section Any.
Context `{M : Mode} {Dec : Type}.

(** An order given a list of events; refused ones are dropped, a panic ends it. *)
Fixpoint any_run (o : OrderAny Dec) (events : list (OrderEventAny Dec)) : option (OrderAny Dec) :=
  match events with
  | [] => Some o
  | ev :: events =>
      match any_apply o ev with
      | (_, Panic) => None
      | (o', _) => any_run o' events
      end
  end.

Lemma any_run_eq o events : any_run o events = ol_run o events.
Proof.
  revert o. induction events as [|ev events IH]; intros o; cbn; [done|].
  rewrite any_apply_eq. destruct (ol_apply o ev) as [o' [[]|e|]]; [apply IH|apply IH|done].
Qed.

Lemma apply_all_eq (o : OrderAny Dec) events : apply_all o events = ol_apply_all o events.
Proof.
  revert o. induction events as [|ev events IH]; intros o; cbn; [done|].
  rewrite any_apply_eq. destruct (ol_apply o ev) as [o' [[]|e|]]; [apply IH|done|done].
Qed.

Lemma reachable_rtc init (c c' : OrderCore Dec) :
  reachable init c -> rtc core_step c c' -> reachable init c'.
Proof. intros Hr Hs. induction Hs; eauto using reachable_step. Qed.

Lemma any_try_from_reachable (e : OrderInitialized Dec) o :
  in_ty QuantityRaw (q_raw (in_quantity e)) = true -> 0 <= q_precision (in_quantity e) ->
  any_try_from e = Ok o -> exists init, reachable init (any_core o).
Proof.
  intros Hty Hp H. unfold any_try_from in H. destruct (in_order_type e);
    apply fmap_Ok_inv in H as (x & H & ->);
    unfold market_try_from, limit_try_from, limit_if_touched_try_from,
      market_if_touched_try_from, market_to_limit_try_from, stop_limit_try_from,
      stop_market_try_from, trailing_stop_limit_try_from, trailing_stop_market_try_from,
      market_new_checked, limit_new_checked, limit_if_touched_new_checked,
      market_if_touched_new_checked, market_to_limit_new_checked, stop_limit_new_checked,
      stop_market_new_checked, trailing_stop_limit_new_checked,
      trailing_stop_market_new_checked in H;
    repeat (apply bind_Ok_inv in H as (? & ? & H)); injection H as <-; cbn;
    eexists; (eapply reachable_new; [| |eassumption]); assumption.
Qed.

(** C5: an order of any of the nine types, created from its event and given
    any events, has a core reachable in the state machine, so every invariant
    of the core holds for it whatever its type does around the core. *)
Theorem order_any_refines_core (e : OrderInitialized Dec) events (o0 o : OrderAny Dec) :
  in_ty QuantityRaw (q_raw (in_quantity e)) = true -> 0 <= q_precision (in_quantity e) ->
  Forall event_in_ty events ->
  any_try_from e = Ok o0 -> any_run o0 events = Some o ->
  exists init, reachable init (any_core o) /\ core_inv (any_core o).
Proof.
  intros Hty Hp Hevs Hnew Hrun.
  destruct (any_try_from_reachable e o0 Hty Hp Hnew) as [init Hr]. clear Hnew.
  exists init. cut (reachable init (any_core o)); [eauto using reachable_inv|].
  revert o0 Hr Hrun. induction Hevs as [|ev events He _ IH]; intros o0 Hr; cbn.
  - by intros [= <-].
  - rewrite any_apply_eq. destruct (ol_apply o0 ev) as [o1 r] eqn:Hap. intros Hrun.
    apply (IH o1); [|by destruct r].
    eapply reachable_rtc; [exact Hr|]. apply (ol_apply_steps o0 ev o1 r He Hap). by intros ->.
Qed.

(** C3: event sourcing: rebuilding an order from its own event log with
    [OrderAny::from_events] succeeds and gives the order back, equal in every
    field except possibly the saved previous status, and in that too whenever
    it can still be restored. *)
Theorem order_replay (e : OrderInitialized Dec) events (o0 o : OrderAny Dec) :
  any_try_from e = Ok o0 -> any_run o0 events = Some o ->
  exists o', from_events (o_events (any_core o)) = Ok o' /\ order_similar o o'.
Proof.
  intros Hnew Hrun. rewrite any_run_eq in Hrun.
  destruct (any_try_from_idem e o0 Hnew) as (init & Hlog & Hinit).
  destruct (ol_replay o0 o0 events o (order_similar_refl o0) Hrun) as (acc & o' & Hl & Ha & Hs).
  exists o'. split; [|done]. cbn in Hl. rewrite Hl, Hlog. cbn.
  rewrite Hinit. cbn. by rewrite apply_all_eq, Ha.
Qed.

(** The prices an [OrderUpdated] may carry for each order type. *)
Definition update_allowed (o : OrderAny Dec) (e : OrderUpdated) : bool :=
  match o with
  | AnyMarket _ => bool_decide (up_price e = None) && bool_decide (up_trigger_price e = None)
  | AnyLimit _ | AnyMarketToLimit _ => bool_decide (up_trigger_price e = None)
  | AnyMarketIfTouched _ | AnyStopMarket _ | AnyTrailingStopMarket _ =>
      bool_decide (up_price e = None)
  | AnyLimitIfTouched _ | AnyStopLimit _ | AnyTrailingStopLimit _ => true
  end.

(** an update the core accepts is applied, with the quantity replaced and
    the leaves quantity recomputed, exactly when it carries no price the order
    type lacks; otherwise [apply] panics. *)
Theorem order_update_panics_iff (o : OrderAny Dec) (e : OrderUpdated) c :
  core_apply (any_core o) (EvUpdated e) = (c, Ok tt) ->
  if update_allowed o e
  then exists o', any_apply o (EvUpdated e) = (o', Ok tt) /\
         any_core o' = update_quantity c (up_quantity e)
  else (any_apply o (EvUpdated e)).2 = Panic.
Proof.
  intros Hc. destruct o as [t|t|t|t|t|t|t|t|t]; cbn in *;
    unfold limit_apply, limit_if_touched_apply, market_apply, market_if_touched_apply,
      market_to_limit_apply, stop_limit_apply, stop_market_apply, trailing_stop_limit_apply,
      trailing_stop_market_apply; rewrite Hc; cbn;
    unfold limit_update, limit_if_touched_update, market_update, market_if_touched_update,
      market_to_limit_update, stop_limit_update, stop_market_update,
      trailing_stop_limit_update, trailing_stop_market_update;
    destruct (up_price e) eqn:?, (up_trigger_price e) eqn:?; cbn; try reflexivity;
    try destruct (up_protection_price e) eqn:?; cbn; eexists; split; reflexivity.
Qed.
End Any.

(** ** A concrete stop-limit order that is triggered and filled *)

Module StopDemo.
#[local] Existing Instance standard_mode.
Import Demo.

Definition init : OrderInitialized (Z * Z) :=
  mkInitialized (Z * Z) (header 1) Sell StopLimit (qty 100) Gtc false false false (Some (px 10))
    (Some (px 11)) (Some LastPrice) None None None None None None None None None None None
    None None None None.
Definition events : list (OrderEventAny (Z * Z)) :=
  [EvSubmitted (mkSubmitted (header 2) "A-1");
   EvFilled (fill "T-0" 10 3);
   EvFilled (fill "T-0" 10 3);
   EvPendingCancel (mkPendingCancel (header 4) "A-1" None);
   EvCancelRejected (mkCancelRejected (header 5) "" None None);
   EvUpdated (mkUpdated (header 6) None None (qty 80) (Some (px 12)) None None false);
   EvFilled (fill "T-1" 70 7);
   EvCanceled (mkCanceled (header 8) None None)].
Lemma events_in_ty : Forall event_in_ty events.
Proof. repeat constructor. Qed.
End StopDemo.

Example order_any_refines_core_witness :
  exists o0 o, any_try_from (M := standard_mode) StopDemo.init = Ok o0 /\
    any_run (M := standard_mode) o0 StopDemo.events = Some o /\
    core_inv (M := standard_mode) (any_core o).
Proof.
  destruct (any_try_from (M := standard_mode) StopDemo.init) as [o0| |] eqn:E0;
    [|vm_compute in E0; discriminate E0..].
  destruct (any_run (M := standard_mode) o0 StopDemo.events) as [o|] eqn:E1.
  - exists o0, o. split; [reflexivity|]. split; [assumption|].
    destruct (order_any_refines_core (M := standard_mode) StopDemo.init StopDemo.events o0 o)
      as (init & _ & H); [reflexivity|discriminate|apply StopDemo.events_in_ty|
      assumption|assumption|exact H].
  - exfalso. vm_compute in E0. injection E0 as <-. vm_compute in E1. discriminate E1.
Defined.

Example order_replay_witness :
  exists o0 o, any_try_from (M := standard_mode) StopDemo.init = Ok o0 /\
    any_run (M := standard_mode) o0 StopDemo.events = Some o /\
    o_status (any_core o) = Filled /\
    exists o', from_events (M := standard_mode) (o_events (any_core o)) = Ok o' /\
      order_similar (M := standard_mode) o o'.
Proof.
  destruct (any_try_from (M := standard_mode) StopDemo.init) as [o0| |] eqn:E0;
    [|vm_compute in E0; discriminate E0..].
  destruct (any_run (M := standard_mode) o0 StopDemo.events) as [o|] eqn:E1.
  - exists o0, o. split; [reflexivity|]. split; [assumption|]. split.
    + vm_compute in E0. injection E0 as <-. vm_compute in E1. injection E1 as <-. reflexivity.
    + exact (order_replay (M := standard_mode) StopDemo.init StopDemo.events o0 o E0 E1).
  - exfalso. vm_compute in E0. injection E0 as <-. vm_compute in E1. discriminate E1.
Defined.

Example order_update_panics_witness :
  exists o0, any_try_from (M := standard_mode) Demo.init = Ok o0 /\
    (any_apply (M := standard_mode) o0
      (EvUpdated (mkUpdated (Demo.header 2) None None (Demo.qty 5) None (Some (Demo.px 9)) None
         false))).2 = Panic.
Proof.
  destruct (any_try_from (M := standard_mode) Demo.init) as [o0| |] eqn:E0;
    [|vm_compute in E0; discriminate E0..].
  exists o0. split; [reflexivity|].
  pose proof (order_update_panics_iff (M := standard_mode) o0
    (mkUpdated (Demo.header 2) None None (Demo.qty 5) None (Some (Demo.px 9)) None false)
    (core_apply (M := standard_mode) (any_core o0)
      (EvUpdated (mkUpdated (Demo.header 2) None None (Demo.qty 5) None (Some (Demo.px 9)) None
         false))).1) as H.
  vm_compute in E0. injection E0 as <-. exact (H eq_refl).
Defined.
