(* ===== verification/Ladder.v ===== *)
(** * Price levels and ladders ([crates/model/src/orderbook/level.rs], [ladder.rs])

    One side of an order book: price levels in priority order, each holding its
    orders in arrival order, and a cache from order id to level price. *)

From stdpp Require Import base numbers list gmap sets.
From Stdlib Require Import ZArith Lia.
From S2P Require Import Prelude F64 Fixed Price Quantity Enums Maps.

(** [BookOrder]; its Rust module is generated into the C header only. *)
Record BookOrder : Type := mkBookOrder {
  bo_side : OrderSide;
  bo_price : Price;
  bo_size : Quantity;
  bo_order_id : Z;
}.
#[export] Instance book_order_eta : Eta BookOrder := fun o =>
  mkBookOrder (bo_side o) (bo_price o) (bo_size o) (bo_order_id o).

Record BookPrice : Type := mkBookPrice { bp_value : Price; bp_side : OrderSideSpecified }.

(** [BookOrder::to_book_price] is not among the sources; the level is created
    "using the order's price and side". *)
Class BookOrderApi : Type := {
  to_book_price : forall {E}, BookOrder -> outcome E BookPrice;
}.
Class BookOrderLaws `{BookOrderApi} : Prop := {
  to_book_price_side E o s :
    bo_side o = as_order_side s -> to_book_price (E := E) o = Ok (mkBookPrice (bo_price o) s);
}.

(** [BookPrice::cmp]: prices of different sides must not be compared; bids
    sort descending, asks ascending. *)
Definition book_price_cmp {E} (a b : BookPrice) : outcome E comparison :=
  _ ← assert_ (bool_decide (bp_side a = bp_side b));
  Ok (match bp_side a with
      | SBuy => price_cmp (bp_value b) (bp_value a)
      | SSell => price_cmp (bp_value a) (bp_value b)
      end).
Definition book_price_eqb (a b : BookPrice) : bool :=
  bool_decide (bp_side a = bp_side b) && price_eqb (bp_value a) (bp_value b).

(** The integer whose order is that of [book_price_cmp] on one side. *)
Definition bp_key (p : BookPrice) : Z :=
  match bp_side p with SBuy => - p_raw (bp_value p) | SSell => p_raw (bp_value p) end.

Inductive L1BatchState : Type := BatchNone | MbpBatch | SnapshotBatch.
#[export] Instance batch_state_eq_dec : EqDecision L1BatchState.
Proof. solve_decision. Defined.

Record BookLevel : Type := mkLevel {
  lv_price : BookPrice;
  lv_orders : list (Z * BookOrder);
}.
#[export] Instance level_eta : Eta BookLevel := fun l => mkLevel (lv_price l) (lv_orders l).

Record BookLadder : Type := mkLadder {
  ld_side : OrderSideSpecified;
  ld_book_type : BookType;
  ld_levels : list (BookPrice * BookLevel);
  ld_cache : gmap Z BookPrice;
  ld_batch_state : L1BatchState;
}.
#[export] Instance ladder_eta : Eta BookLadder := fun l =>
  mkLadder (ld_side l) (ld_book_type l) (ld_levels l) (ld_cache l) (ld_batch_state l).

Section Ladder.
Context `{M : Mode} `{B : BookOrderApi}.

(** *** Levels *)

Definition level_new (price : BookPrice) : BookLevel := mkLevel price [].
Definition level_side (self : BookLevel) : OrderSideSpecified := bp_side (lv_price self).
Definition level_len (self : BookLevel) : Z := Z.of_nat (length (lv_orders self)).
Definition level_is_empty (self : BookLevel) : bool := level_len self =? 0.
Definition level_first (self : BookLevel) : option BookOrder := snd <$> head (lv_orders self).
Definition get_orders (self : BookLevel) : list BookOrder := snd <$> lv_orders self.

Definition level_add (self : BookLevel) (order : BookOrder) : BookLevel :=
  if negb (qty_is_positive (bo_size order)) then self
  else self <| lv_orders := im_insert (bo_order_id order) order (lv_orders self) |>.
Definition level_add_bulk (self : BookLevel) (orders : list BookOrder) : BookLevel :=
  foldl level_add self orders.
Definition level_update (self : BookLevel) (order : BookOrder) : BookLevel :=
  if q_raw (bo_size order) =? 0
  then self <| lv_orders := im_shift_remove (bo_order_id order) (lv_orders self) |>
  else self <| lv_orders := im_insert (bo_order_id order) order (lv_orders self) |>.
Definition level_delete (self : BookLevel) (order : BookOrder) : BookLevel :=
  self <| lv_orders := im_shift_remove (bo_order_id order) (lv_orders self) |>.
Definition remove_by_id {E} (self : BookLevel) (order_id : Z) : outcome E BookLevel :=
  _ ← assert_ (im_contains order_id (lv_orders self));
  Ok (self <| lv_orders := im_shift_remove order_id (lv_orders self) |>).

Definition from_order {E} (order : BookOrder) : outcome E BookLevel :=
  price ← to_book_price order;
  Ok (level_add (level_new price) order).

(** Integer sums wrap in the release profile; float sums start from [-0.0]. *)
Definition size_raw (self : BookLevel) : Z :=
  foldl (fun acc o => wrap QuantityRaw (acc + q_raw (bo_size o))) 0 (get_orders self).
Definition level_size {E} (self : BookLevel) : outcome E f64 :=
  foldl (fun acc o => a ← acc; s ← qty_as_f64 (bo_size o); Ok (F64.add a s))
    (Ok (F64.opp F64.zero)) (get_orders self).
Definition level_exposure {E} (self : BookLevel) : outcome E f64 :=
  foldl (fun acc o => a ← acc; p ← price_as_f64 (bo_price o); s ← qty_as_f64 (bo_size o);
                      Ok (F64.add a (F64.mul p s)))
    (Ok (F64.opp F64.zero)) (get_orders self).
Definition exposure_raw {E} (self : BookLevel) : outcome E Z :=
  foldl (fun acc o =>
      a ← acc; p ← price_as_f64 (bo_price o); s ← qty_as_f64 (bo_size o);
      let scaled := F64.mul (F64.mul p s) FIXED_SCALAR in
      let val := if F64.geb scaled (F64.of_Z (imax QuantityRaw)) then imax QuantityRaw
                 else if F64.ltb scaled F64.zero then 0
                 else F64.to_int QuantityRaw scaled in
      Ok (saturate QuantityRaw (a + val)))
    (Ok 0) (get_orders self).

Definition level_eqb (a b : BookLevel) : bool := book_price_eqb (lv_price a) (lv_price b).
Definition level_cmp {E} (a b : BookLevel) : outcome E comparison :=
  book_price_cmp (lv_price a) (lv_price b).

(** *** Ladders *)

Definition ladder_new (side : OrderSideSpecified) (book_type : BookType) : BookLadder :=
  mkLadder side book_type [] ∅ BatchNone.
Definition ladder_len (self : BookLadder) : Z := Z.of_nat (length (ld_levels self)).
Definition ladder_clear (self : BookLadder) : BookLadder :=
  self <| ld_levels := [] |> <| ld_cache := ∅ |> <| ld_batch_state := BatchNone |>.

(** A search in the [BTreeMap] compares the key with stored keys; keys of one
    map are of one side, so comparing with the first decides the assertion. *)
Definition same_side {E} (p : BookPrice) (levels : list (BookPrice * BookLevel))
  : outcome E unit :=
  match levels with
  | [] => Ok tt
  | (k, _) :: _ => assert_ (bool_decide (bp_side p = bp_side k))
  end.
Definition levels_get {E} (p : BookPrice) (levels : list (BookPrice * BookLevel))
  : outcome E (option BookLevel) :=
  _ ← same_side p levels; Ok (bt_get bp_key p levels).

(** [retain_best_only]: keep the first level and rebuild the cache from it. *)
Definition cache_of (levels : list (BookPrice * BookLevel)) : gmap Z BookPrice :=
  foldl (fun c kl => foldl (fun c io => <[io.1 := kl.1]> c) c (lv_orders kl.2)) ∅ levels.
Definition retain_best_only (self : BookLadder) : BookLadder :=
  if ladder_len self <=? 1 then self
  else
    match ld_levels self with
    | [] => self
    | (best_price, _) :: _ =>
        let levels := List.filter (fun kl => book_price_eqb kl.1 best_price) (ld_levels self) in
        self <| ld_levels := levels |> <| ld_cache := cache_of levels |>
    end.

(** [handle_l1_add]: the ladder and whether to go on with the insertion. *)
Definition handle_l1_add (self : BookLadder) (order : BookOrder) (flags : Z)
  : BookLadder * bool :=
  if negb (qty_is_positive (bo_size order)) then (ladder_clear self, false)
  else
    let is_mbp := flag_matches F_MBP flags in
    let is_snapshot := flag_matches F_SNAPSHOT flags in
    let is_last := flag_matches F_LAST flags in
    let self :=
      if is_snapshot && is_last then
        if bool_decide (ld_batch_state self = SnapshotBatch) then self else ladder_clear self
      else if is_snapshot then
        if bool_decide (ld_batch_state self = SnapshotBatch) then self
        else (ladder_clear self) <| ld_batch_state := SnapshotBatch |>
      else if is_mbp && is_last then
        if bool_decide (ld_batch_state self = MbpBatch) then self else ladder_clear self
      else if is_mbp then (ladder_clear self) <| ld_batch_state := MbpBatch |>
      else ladder_clear self in
    (self, true).

Definition is_l1 (self : BookLadder) : bool := bool_decide (ld_book_type self = L1_MBP).

(** The insertion proper: cache first, then the level. *)
Definition insert_order {E} (self : BookLadder) (order : BookOrder) : outcome E BookLadder :=
  book_price ← to_book_price order;
  let self := self <| ld_cache := <[bo_order_id order := book_price]> (ld_cache self) |> in
  found ← levels_get book_price (ld_levels self);
  match found with
  | Some level =>
      Ok (self <| ld_levels := bt_insert bp_key book_price (level_add level order) (ld_levels self) |>)
  | None =>
      level ← from_order order;
      Ok (self <| ld_levels := bt_insert bp_key book_price level (ld_levels self) |>)
  end.

Definition ladder_add {E} (self : BookLadder) (order : BookOrder) (flags : Z)
  : outcome E BookLadder :=
  let '(self, go) := if is_l1 self then handle_l1_add self order flags else (self, true) in
  if negb go then Ok self
  else if negb (is_l1 self) && negb (qty_is_positive (bo_size order)) then Ok self
  else
    self ← insert_order self order;
    let is_batch := flag_matches F_MBP flags || flag_matches F_SNAPSHOT flags in
    if is_l1 self && is_batch then
      let self := retain_best_only self in
      Ok (if flag_matches F_LAST flags then self <| ld_batch_state := BatchNone |> else self)
    else Ok self.

(** Write a level back, or drop it when it is empty. *)
Definition put_level (self : BookLadder) (price : BookPrice) (level : BookLevel) : BookLadder :=
  if level_is_empty level then self <| ld_levels := bt_remove bp_key price (ld_levels self) |>
  else self <| ld_levels := bt_insert bp_key price level (ld_levels self) |>.

Definition ladder_update {E} (self : BookLadder) (order : BookOrder) (flags : Z)
  : outcome E BookLadder :=
  let upsert self :=
    if qty_is_positive (bo_size order) then ladder_add self order flags else Ok self in
  match ld_cache self !! bo_order_id order with
  | None => upsert self
  | Some price =>
      found ← levels_get price (ld_levels self);
      match found with
      | None => upsert self
      | Some level =>
          if price_eqb (bo_price order) (bp_value (lv_price level)) then
            let level := level_update level order in
            let self :=
              if q_raw (bo_size order) =? 0
              then self <| ld_cache := delete (bo_order_id order) (ld_cache self) |>
              else self in
            Ok (put_level self price level)
          else
            let self := self <| ld_cache := delete (bo_order_id order) (ld_cache self) |> in
            upsert (put_level self price (level_delete level order))
      end
  end.

Definition remove_order {E} (self : BookLadder) (order_id : Z) : outcome E BookLadder :=
  match ld_cache self !! order_id with
  | None => Ok self
  | Some price =>
      found ← levels_get price (ld_levels self);
      match found with
      | None => Ok self
      | Some level =>
          if im_contains order_id (lv_orders level) then
            let self := self <| ld_cache := delete order_id (ld_cache self) |> in
            level ← remove_by_id level order_id;
            Ok (put_level self price level)
          else Ok self
      end
  end.
Definition ladder_delete {E} (self : BookLadder) (order : BookOrder) : outcome E BookLadder :=
  remove_order self (bo_order_id order).

Definition remove_level {E} (self : BookLadder) (price : BookPrice)
  : outcome E (BookLadder * option BookLevel) :=
  found ← levels_get price (ld_levels self);
  match found with
  | None => Ok (self, None)
  | Some level =>
      Ok (self <| ld_levels := bt_remove bp_key price (ld_levels self) |>
               <| ld_cache := foldl (fun c id => delete id c) (ld_cache self)
                                (im_keys (lv_orders level)) |>,
          Some level)
  end.

Definition ladder_sizes {E} (self : BookLadder) : outcome E f64 :=
  foldl (fun acc kl => a ← acc; s ← level_size kl.2; Ok (F64.add a s))
    (Ok (F64.opp F64.zero)) (ld_levels self).
Definition ladder_exposures {E} (self : BookLadder) : outcome E f64 :=
  foldl (fun acc kl => a ← acc; s ← level_exposure kl.2; Ok (F64.add a s))
    (Ok (F64.opp F64.zero)) (ld_levels self).

Definition top (self : BookLadder) : option BookLevel := snd <$> head (ld_levels self).

(** [simulate_fills]: walk the levels in priority order while their price is
    acceptable, and their orders in arrival order, until the size is reached.
    The inner walk returns the fills, the cumulated quantity, and whether the
    target was reached. *)
Fixpoint fill_orders {E} (orders : list BookOrder) (cumulative target : Quantity)
  : outcome E (list (Price * Quantity) * Quantity * bool) :=
  match orders with
  | [] => Ok ([], cumulative, false)
  | book_order :: orders =>
      let current := bo_size book_order in
      next ← qty_add cumulative current;
      if qty_geb next target then
        remainder ← qty_sub target cumulative;
        Ok (if qty_is_positive remainder then [(bo_price book_order, remainder)] else [],
            cumulative, true)
      else
        '(fills, c, done) ← fill_orders orders next target;
        Ok ((bo_price book_order, current) :: fills, c, done)
  end.
Fixpoint fill_levels {E} (is_reversed : bool) (levels : list (BookPrice * BookLevel))
    (order : BookOrder) (cumulative : Quantity) : outcome E (list (Price * Quantity)) :=
  match levels with
  | [] => Ok []
  | (_, level) :: levels =>
      let value := bp_value (lv_price level) in
      if (is_reversed && price_ltb value (bo_price order))
         || (negb is_reversed && price_gtb value (bo_price order)) then Ok []
      else
        '(fills, c, done) ← fill_orders (get_orders level) cumulative (bo_size order);
        if done : bool then Ok fills
        else rest ← fill_levels is_reversed levels order c; Ok (fills ++ rest)
  end.
Definition simulate_fills {E} (self : BookLadder) (order : BookOrder)
  : outcome E (list (Price * Quantity)) :=
  zero ← qty_zero (q_precision (bo_size order));
  fill_levels (bool_decide (ld_side self = SBuy)) (ld_levels self) order zero.
End Ladder.
