(* ===== verification/LadderInv.v ===== *)
(** * Correctness of the ladder

    The representation invariant ([ladder_ok]): levels strictly sorted by
    priority, non-empty, their orders at the level's price, and the cache in
    agreement with the levels.  [order_at] is the abstract content, a partial
    map from order id to order; the operations are proved to be the map
    operations on it. *)

From stdpp Require Import base numbers list gmap sets.
From Stdlib Require Import ZArith Lia Sorted.
From S2P Require Import Prelude F64 Fixed Price Quantity Enums Maps Ladder.

Section Inv.
Context `{M : Mode} `{B : BookOrderApi} `{L : !BookOrderLaws}.
Implicit Types (l : BookLadder) (o : BookOrder) (lv : BookLevel) (p k : BookPrice) (id : Z).

Abbreviation level_ids lv := (im_keys (lv_orders lv)).

Definition order_ok (s : OrderSideSpecified) k (io : Z * BookOrder) : Prop :=
  io.1 = bo_order_id io.2 /\ p_raw (bo_price io.2) = p_raw (bp_value k) /\
  qty_is_positive (bo_size io.2) = true /\ bo_side io.2 = as_order_side s.

Record level_ok (s : OrderSideSpecified) k lv : Prop := {
  lk_side : bp_side k = s;
  lk_price : lv_price lv = k;
  lk_nonempty : lv_orders lv <> [];
  lk_nodup : NoDup (level_ids lv);
  lk_orders : Forall (order_ok s k) (lv_orders lv);
}.

Record ladder_ok l : Prop := {
  lo_sorted : bt_sorted bp_key (ld_levels l);
  lo_levels : forall k lv, (k, lv) ∈ ld_levels l -> level_ok (ld_side l) k lv;
  lo_cache : forall id p, ld_cache l !! id = Some p ->
    bp_side p = ld_side l /\
    exists lv, bt_get bp_key p (ld_levels l) = Some lv /\ id ∈ level_ids lv;
  lo_cached : forall k lv id, (k, lv) ∈ ld_levels l -> id ∈ level_ids lv ->
    exists p, ld_cache l !! id = Some p /\ bp_key p = bp_key k;
}.

(** The abstract content of a ladder. *)
Definition order_at l id : option BookOrder :=
  p ← ld_cache l !! id;
  lv ← bt_get bp_key p (ld_levels l);
  im_get id (lv_orders lv).

(** ** Keys *)

Lemma bp_key_eq p k :
  bp_side p = bp_side k -> bp_key p = bp_key k <-> p_raw (bp_value p) = p_raw (bp_value k).
Proof. unfold bp_key. intros ->. destruct (bp_side k); lia. Qed.

Lemma same_side_Ok {E} l p : ladder_ok l -> bp_side p = ld_side l ->
  same_side (E := E) p (ld_levels l) = Ok tt.
Proof.
  intros H Hs. unfold same_side. destruct (ld_levels l) as [|[k lv] m] eqn:Hl; [done|].
  rewrite bool_decide_true; [done|].
  rewrite (lk_side _ _ _ (lo_levels _ H k lv ltac:(rewrite Hl; left))). done.
Qed.

Lemma levels_get_Ok {E} l p : ladder_ok l -> bp_side p = ld_side l ->
  levels_get (E := E) p (ld_levels l) = Ok (bt_get bp_key p (ld_levels l)).
Proof. intros. unfold levels_get. by rewrite same_side_Ok. Qed.

Lemma levels_get_elem l p lv :
  ladder_ok l -> bp_side p = ld_side l -> bt_get bp_key p (ld_levels l) = Some lv ->
  exists k, (k, lv) ∈ ld_levels l /\ bp_key k = bp_key p /\ level_ok (ld_side l) k lv /\
    p_raw (bp_value k) = p_raw (bp_value p).
Proof.
  intros H Hs Hg. apply bt_get_elem in Hg as (k & Hk & Hin). exists k.
  pose proof (lo_levels _ H _ _ Hin) as Hlv. split_and!; try done.
  apply bp_key_eq; [|done]. by rewrite (lk_side _ _ _ Hlv).
Qed.

(** An id is cached exactly when its order is in the ladder. *)
Lemma order_at_cached l id : ladder_ok l ->
  is_Some (order_at l id) <-> is_Some (ld_cache l !! id).
Proof.
  intros H. unfold order_at. split; [intros [o Ho]; destruct (ld_cache l !! id); naive_solver|].
  intros [p Hp]. rewrite Hp. simpl. destruct (lo_cache _ H _ _ Hp) as (_ & lv & -> & Hin). simpl.
  by apply im_get_is_Some.
Qed.

(** ** Insertion *)

Lemma level_add_pos lv o :
  qty_is_positive (bo_size o) = true ->
  level_add lv o = lv <| lv_orders := im_insert (bo_order_id o) o (lv_orders lv) |>.
Proof. intros H. unfold level_add. by rewrite H. Qed.

Lemma im_insert_ids id o m x :
  x ∈ im_keys (im_insert id o m) <-> x = id \/ x ∈ im_keys (V := BookOrder) m.
Proof.
  rewrite im_keys_insert. destruct (im_contains id m) eqn:E.
  - apply im_contains_spec in E. naive_solver.
  - rewrite elem_of_app, list_elem_of_singleton. tauto.
Qed.

(** The level price of an order, the level it goes to, and that level with it. *)
Definition order_price l o : BookPrice := mkBookPrice (bo_price o) (ld_side l).
Definition old_level l o : option BookLevel := bt_get bp_key (order_price l o) (ld_levels l).
Definition new_level l o : BookLevel :=
  match old_level l o with
  | Some lv => lv <| lv_orders := im_insert (bo_order_id o) o (lv_orders lv) |>
  | None => mkLevel (order_price l o) [(bo_order_id o, o)]
  end.

(** The ladder [insert_order] returns. *)
Definition inserted l o : BookLadder :=
  l <| ld_cache := <[bo_order_id o := order_price l o]> (ld_cache l) |>
    <| ld_levels := bt_insert bp_key (order_price l o) (new_level l o) (ld_levels l) |>.

Section Insert.
Variables (l : BookLadder) (o : BookOrder).
Hypothesis Hok : ladder_ok l.
Hypothesis Hside : bo_side o = as_order_side (ld_side l).
Hypothesis Hpos : qty_is_positive (bo_size o) = true.

Lemma insert_order_Ok {E} : insert_order (E := E) l o = Ok (inserted l o).
Proof using Hok Hside Hpos L.
  unfold insert_order. rewrite (to_book_price_side E o (ld_side l)) by done. osimpl.
  change (mkBookPrice (bo_price o) (ld_side l)) with (order_price l o).
  cbn [ld_levels ld_cache set_field].
  rewrite (levels_get_Ok l (order_price l o) Hok eq_refl). osimpl.
  unfold inserted, new_level, old_level.
  destruct (bt_get bp_key (order_price l o) (ld_levels l)) as [lv|].
  - by rewrite level_add_pos.
  - unfold from_order. rewrite (to_book_price_side E o (ld_side l)) by done.
    osimpl. by rewrite level_add_pos.
Qed.

Lemma old_level_elem lv :
  old_level l o = Some lv -> exists k, (k, lv) ∈ ld_levels l /\
    bp_key k = bp_key (order_price l o) /\
    level_ok (ld_side l) k lv /\ p_raw (bp_value k) = p_raw (bo_price o).
Proof using Hok. intros H. by apply (levels_get_elem l (order_price l o) lv Hok eq_refl) in H. Qed.

Lemma new_level_ids id :
  id ∈ level_ids (new_level l o) <->
  id = bo_order_id o \/ exists lv, old_level l o = Some lv /\ id ∈ level_ids lv.
Proof using.
  unfold new_level. destruct (old_level l o) as [lv|]; cbn.
  - rewrite im_insert_ids. naive_solver.
  - unfold im_keys. cbn. rewrite list_elem_of_singleton. naive_solver.
Qed.

Lemma inserted_level k lv :
  (k, lv) ∈ ld_levels (inserted l o) ->
  ((k, lv) ∈ ld_levels l /\ bp_key k <> bp_key (order_price l o)) \/
  (lv = new_level l o /\ bp_key k = bp_key (order_price l o) /\
   level_ok (ld_side l) k (new_level l o)).
Proof using Hok Hside Hpos.
  intros Hin. cbn in Hin. pose proof (lo_sorted _ Hok) as Hs.
  destruct (old_level l o) as [lv0|] eqn:Eo.
  - rewrite bt_insert_map in Hin by (done || by fold (old_level l o); rewrite Eo).
    apply list_elem_of_fmap in Hin as ([k1 lv1] & Heq & Hin). simpl in Heq.
    destruct (Z.eqb_spec (bp_key k1) (bp_key (order_price l o))) as [E|E]; simplify_eq; [|by left].
    right. split_and!; [done|done|]. pose proof (lo_levels _ Hok _ _ Hin) as [].
    destruct (old_level_elem lv0 Eo) as (k0 & Hin0 & Hk0 & _ & Hraw).
    assert (lv1 = lv0) as ->.
    { pose proof (bt_elem_get _ _ _ _ Hs Hin) as G1.
      pose proof (bt_elem_get _ _ _ _ Hs Hin0) as G0.
      unfold bt_get in G1, G0. rewrite E in G1. rewrite Hk0 in G0. congruence. }
    assert (Hp1 : p_raw (bp_value k1) = p_raw (bo_price o)).
    { rewrite <- Hraw. apply bp_key_eq; [|congruence].
      by rewrite (lk_side _ _ _ (lo_levels _ Hok _ _ Hin0)). }
    unfold new_level. rewrite Eo. split; cbn; try done.
    + apply im_insert_nonempty.
    + by apply im_nodup_insert.
    + apply im_insert_Forall; [done|]. split_and!; done.
  - apply bt_insert_absent in Hin as [Heq|[Hin Hk]]; [|by left|done|done].
    simplify_eq. right. unfold new_level. rewrite Eo. split_and!; [done|done|].
    split; cbn; try done; [apply NoDup_singleton|by repeat constructor].
Qed.

(** The id is new, or already at this price. *)
Hypothesis Hid : forall p, ld_cache l !! bo_order_id o = Some p ->
  p_raw (bp_value p) = p_raw (bo_price o).

Lemma inserted_ok : ladder_ok (inserted l o).
Proof using Hok Hside Hpos Hid.
  pose proof (lo_sorted _ Hok) as Hs. split.
  - by apply bt_sorted_insert.
  - intros k lv Hin. destruct (inserted_level k lv Hin) as [[Hin' _]|(-> & _ & H)]; [|done].
    by apply (lo_levels _ Hok).
  - intros id p. cbn [ld_cache inserted set_field]. rewrite lookup_insert. case_decide as E.
    + intros [= <-]. split; [done|]. exists (new_level l o).
      cbn. rewrite bt_get_insert, Z.eqb_refl by done. split; [done|]. apply new_level_ids. auto.
    + intros Hc. destruct (lo_cache _ Hok _ _ Hc) as (Hps & lv & Hg & Hin). split; [done|].
      cbn. rewrite bt_get_insert by done.
      destruct (Z.eqb_spec (bp_key (order_price l o)) (bp_key p)) as [E1|E1]; [|by exists lv].
      exists (new_level l o). split; [done|]. apply new_level_ids. right. exists lv.
      split; [|done]. unfold old_level, bt_get in *. by rewrite E1.
  - intros k lv id Hin Hl. cbn [ld_cache inserted set_field]. rewrite lookup_insert.
    destruct (inserted_level k lv Hin) as [[Hin' Hk]|(-> & Hk & _)].
    + destruct (lo_cached _ Hok _ _ _ Hin' Hl) as (p & Hc & Hp). case_decide as E; [|by exists p].
      exfalso. subst id. apply Hk. rewrite <- Hp.
      destruct (lo_cache _ Hok _ _ Hc) as [Hps _]. apply bp_key_eq; [done|]. by apply Hid.
    + case_decide as E; [by eexists|].
      apply new_level_ids in Hl as [?|(lv0 & Eo & Hl)]; [congruence|].
      destruct (old_level_elem lv0 Eo) as (k0 & Hin0 & Hk0 & _).
      destruct (lo_cached _ Hok _ _ _ Hin0 Hl) as (p & Hc & Hp). exists p. split; [done|congruence].
Qed.

Lemma inserted_order_at id :
  order_at (inserted l o) id = if decide (id = bo_order_id o) then Some o else order_at l id.
Proof using Hok Hid.
  pose proof (lo_sorted _ Hok) as Hs. unfold order_at at 1. cbn [ld_cache inserted set_field].
  rewrite lookup_insert. destruct (decide (id = bo_order_id o)) as [->|E].
  - rewrite decide_True by done. cbn. rewrite bt_get_insert, Z.eqb_refl by done. cbn.
    unfold new_level. destruct (old_level l o); cbn; [by rewrite im_get_insert, Z.eqb_refl|].
    unfold im_get. cbn. by rewrite Z.eqb_refl.
  - rewrite decide_False by done. unfold order_at.
    destruct (ld_cache l !! id) as [p|] eqn:Hc; cbn; [|done].
    rewrite bt_get_insert by done.
    destruct (Z.eqb_spec (bp_key (order_price l o)) (bp_key p)) as [E1|E1]; [|done].
    destruct (lo_cache _ Hok _ _ Hc) as (_ & lv & Hg & _). rewrite Hg. cbn.
    unfold new_level, old_level, bt_get in *. rewrite E1, Hg. cbn. rewrite im_get_insert.
    by replace (bo_order_id o =? id) with false by lia.
Qed.
End Insert.

(** ** Replacing a level *)

Lemma replace_level_ok l p lv lv2 cache2 :
  ladder_ok l -> bp_side p = ld_side l -> bt_get bp_key p (ld_levels l) = Some lv ->
  (forall k, level_ok (ld_side l) k lv -> level_ok (ld_side l) k lv2) ->
  (forall id q, cache2 !! id = Some q -> bp_side q = ld_side l /\
     ((bp_key q = bp_key p /\ id ∈ level_ids lv2) \/
      (bp_key q <> bp_key p /\ ld_cache l !! id = Some q))) ->
  (forall id, id ∈ level_ids lv2 -> exists q, cache2 !! id = Some q /\ bp_key q = bp_key p) ->
  (forall id q, ld_cache l !! id = Some q -> bp_key q <> bp_key p -> cache2 !! id = Some q) ->
  ladder_ok (l <| ld_cache := cache2 |> <| ld_levels := bt_insert bp_key p lv2 (ld_levels l) |>).
Proof.
  intros Hok Hps Hg Hlv Hc1 Hc2 Hc3. pose proof (lo_sorted _ Hok) as Hs.
  assert (Hel : forall k x, (k, x) ∈ bt_insert bp_key p lv2 (ld_levels l) ->
    ((k, x) ∈ ld_levels l /\ bp_key k <> bp_key p) \/
    (x = lv2 /\ bp_key k = bp_key p /\ (k, lv) ∈ ld_levels l)).
  { intros k x Hin. rewrite bt_insert_map in Hin by (done || by rewrite Hg).
    apply list_elem_of_fmap in Hin as ([k1 lv1] & Heq & Hin). simpl in Heq.
    destruct (Z.eqb_spec (bp_key k1) (bp_key p)) as [E|E]; simplify_eq; [right|by left].
    split_and!; [done|done|]. pose proof (bt_elem_get _ _ _ _ Hs Hin) as G1.
    unfold bt_get in G1, Hg. rewrite E in G1. congruence. }
  split; cbn.
  - by apply bt_sorted_insert.
  - intros k x Hin. destruct (Hel k x Hin) as [[Hin' _]|(-> & _ & Hin')].
    + by apply (lo_levels _ Hok).
    + by apply Hlv, (lo_levels _ Hok).
  - intros id q Hq. destruct (Hc1 id q Hq) as [Hqs [[Hk Hin]|[Hk Hold]]]; (split; [done|]);
      rewrite bt_get_insert by done.
    + exists lv2. rewrite Hk, Z.eqb_refl. done.
    + destruct (lo_cache _ Hok _ _ Hold) as (_ & lvq & Hgq & Hin). exists lvq.
      replace (bp_key p =? bp_key q) with false by lia. done.
  - intros k x id Hin Hid. destruct (Hel k x Hin) as [[Hin' Hk]|(-> & Hk & Hin')].
    + destruct (lo_cached _ Hok _ _ _ Hin' Hid) as (q & Hq & Hkq). exists q.
      split; [|done]. apply Hc3; [done|congruence].
    + destruct (Hc2 id Hid) as (q & Hq & Hkq). exists q. split; [done|congruence].
Qed.

(** ** Removal *)

Section Remove.
Variables (l : BookLadder) (id : Z) (p : BookPrice) (lv : BookLevel).
Hypothesis Hok : ladder_ok l.
Hypothesis Hc : ld_cache l !! id = Some p.
Hypothesis Hg : bt_get bp_key p (ld_levels l) = Some lv.

Definition rest_level : BookLevel := lv <| lv_orders := im_shift_remove id (lv_orders lv) |>.
Definition removed : BookLadder :=
  put_level (l <| ld_cache := delete id (ld_cache l) |>) p rest_level.

(** Ids cached at this price are those of the level. *)
Lemma cached_at_level j q :
  ld_cache l !! j = Some q -> bp_key q = bp_key p -> j ∈ level_ids lv.
Proof using Hok Hg.
  intros Hq Hk. destruct (lo_cache _ Hok _ _ Hq) as (_ & lvq & Hgq & Hin).
  unfold bt_get in Hgq, Hg. rewrite Hk in Hgq. congruence.
Qed.

Lemma level_ids_rest j : j ∈ level_ids rest_level <-> j ∈ level_ids lv /\ j <> id.
Proof using. apply im_elem_keys_remove. Qed.

Lemma rest_nonempty : level_is_empty rest_level = false <-> lv_orders rest_level <> [].
Proof using.
  unfold level_is_empty, level_len. destruct (lv_orders rest_level); simpl; [done|].
  done.
Qed.

Lemma rest_empty j : level_is_empty rest_level = true -> j ∉ level_ids rest_level.
Proof using.
  unfold level_is_empty, level_len. destruct (lv_orders rest_level) eqn:E; simpl; [|done].
  intros _ H. by apply elem_of_nil in H.
Qed.

Lemma removed_ok : ladder_ok removed.
Proof using Hok Hc Hg.
  pose proof (lo_sorted _ Hok) as Hs. destruct (lo_cache _ Hok _ _ Hc) as (Hps & _).
  unfold removed, put_level. destruct (level_is_empty rest_level) eqn:Ee.
  - pose proof (fun j => rest_empty j Ee) as Hempty. split; cbn.
    + by apply bt_sorted_remove.
    + intros k x Hin. apply bt_remove_sub in Hin as [Hin _]. by apply (lo_levels _ Hok).
    + intros j q. rewrite lookup_delete. case_decide as Ej; [done|]. intros Hq.
      destruct (lo_cache _ Hok _ _ Hq) as (Hqs & lvq & Hgq & Hin). split; [done|].
      exists lvq. split; [|done]. rewrite bt_get_remove.
      destruct (Z.eqb_spec (bp_key p) (bp_key q)) as [E|E]; [|done].
      exfalso. apply (Hempty j), level_ids_rest. split; [|done].
      by apply (cached_at_level j q).
    + intros k x j Hin Hj. apply bt_remove_sub in Hin as [Hin Hk]. simpl in Hk.
      destruct (lo_cached _ Hok _ _ _ Hin Hj) as (q & Hq & Hkq). exists q. split; [|done].
      rewrite lookup_delete. case_decide as Ej; [|done]. subst j. congruence.
  - apply rest_nonempty in Ee.
    apply (replace_level_ok l p lv rest_level (delete id (ld_cache l)) Hok Hps Hg).
    + intros k []. split; cbn; try done; [by apply im_nodup_remove|by apply im_remove_Forall].
    + intros j q. rewrite lookup_delete. case_decide as Ej; [done|]. intros Hq.
      destruct (lo_cache _ Hok _ _ Hq) as (Hqs & _). split; [done|].
      destruct (decide (bp_key q = bp_key p)) as [E|E]; [left|by right]. split; [done|].
      apply level_ids_rest. split; [|done]. by apply (cached_at_level j q).
    + intros j [Hj Hne]%level_ids_rest.
      destruct (levels_get_elem l p lv Hok Hps Hg) as (k & Hin & Hk & _).
      destruct (lo_cached _ Hok _ _ _ Hin Hj) as (q & Hq & Hkq). exists q.
      rewrite lookup_delete, decide_False by done. split; [done|congruence].
    + intros j q Hq Hk. rewrite lookup_delete. case_decide as Ej; [|done]. subst j. congruence.
Qed.

Lemma removed_order_at j :
  order_at removed j = if decide (j = id) then None else order_at l j.
Proof using Hok Hc Hg.
  pose proof (lo_sorted _ Hok) as Hs. unfold order_at.
  assert (Hcache : ld_cache removed = delete id (ld_cache l)).
  { unfold removed, put_level. by destruct (level_is_empty rest_level). }
  rewrite Hcache, lookup_delete. destruct (decide (j = id)) as [->|E]; [by rewrite decide_True|].
  rewrite decide_False by done. destruct (ld_cache l !! j) as [q|] eqn:Hq; cbn; [|done].
  unfold removed, put_level. destruct (level_is_empty rest_level) eqn:Ee; cbn.
  - rewrite bt_get_remove. destruct (Z.eqb_spec (bp_key p) (bp_key q)) as [Ek|Ek]; [|done].
    exfalso. apply (rest_empty j Ee), level_ids_rest. split; [|done].
    by apply (cached_at_level j q).
  - rewrite bt_get_insert by done. destruct (Z.eqb_spec (bp_key p) (bp_key q)) as [Ek|Ek]; [|done].
    unfold bt_get in Hg |- *. rewrite <- Ek, Hg. cbn. rewrite im_get_remove.
    by replace (id =? j) with false by lia.
Qed.
End Remove.

(** ** Specifications of the operations *)

(** [l'] is well formed, of the same side and type, and holds the abstract map [f]. *)
Record holds l (f : Z -> option BookOrder) l' : Prop := {
  h_ok : ladder_ok l';
  h_side : ld_side l' = ld_side l;
  h_type : ld_book_type l' = ld_book_type l;
  h_content : forall id, order_at l' id = f id;
}.

Definition map_delete (id : Z) (f : Z -> option BookOrder) : Z -> option BookOrder :=
  fun j => if decide (j = id) then None else f j.
Definition map_insert (id : Z) o (f : Z -> option BookOrder) : Z -> option BookOrder :=
  fun j => if decide (j = id) then Some o else f j.

Lemma put_level_frame l p lv :
  ld_side (put_level l p lv) = ld_side l /\ ld_book_type (put_level l p lv) = ld_book_type l.
Proof. unfold put_level. by destruct (level_is_empty lv). Qed.

Lemma removed_holds l id p lv :
  ladder_ok l -> ld_cache l !! id = Some p -> bt_get bp_key p (ld_levels l) = Some lv ->
  holds l (map_delete id (order_at l)) (removed l id p lv).
Proof.
  intros Hok Hc Hg. pose proof (put_level_frame (l <| ld_cache := delete id (ld_cache l) |>) p
    (rest_level id lv)) as [Hs Ht].
  split; [by apply removed_ok|done|done|]. intros j. by apply removed_order_at.
Qed.

Lemma remove_order_spec {E} l id :
  ladder_ok l ->
  exists l', remove_order (E := E) l id = Ok l' /\ holds l (map_delete id (order_at l)) l'.
Proof.
  intros Hok. unfold remove_order. destruct (ld_cache l !! id) as [p|] eqn:Hc.
  - destruct (lo_cache _ Hok _ _ Hc) as (Hps & lv & Hg & Hin).
    rewrite levels_get_Ok by done. osimpl. rewrite Hg.
    rewrite (proj2 (im_contains_spec _ _) Hin). unfold remove_by_id.
    rewrite (proj2 (im_contains_spec _ _) Hin). osimpl. eexists. split; [reflexivity|].
    by apply removed_holds.
  - exists l. split; [done|]. split; try done. intros j. unfold map_delete, order_at.
    case_decide as E1; [subst; by rewrite Hc|done].
Qed.

Lemma insert_order_spec {E} l o :
  ladder_ok l -> bo_side o = as_order_side (ld_side l) -> qty_is_positive (bo_size o) = true ->
  (forall p, ld_cache l !! bo_order_id o = Some p -> p_raw (bp_value p) = p_raw (bo_price o)) ->
  exists l', insert_order (E := E) l o = Ok l' /\
    holds l (map_insert (bo_order_id o) o (order_at l)) l'.
Proof.
  intros Hok Hs Hp Hid. exists (inserted l o). split; [by apply insert_order_Ok|].
  split; [by apply inserted_ok|done|done|]. intros id. by apply inserted_order_at.
Qed.

(** Adding to a book that is not [L1_MBP]. *)
Lemma ladder_add_spec {E} l o flags :
  ladder_ok l -> ld_book_type l <> L1_MBP -> bo_side o = as_order_side (ld_side l) ->
  (forall p, ld_cache l !! bo_order_id o = Some p -> p_raw (bp_value p) = p_raw (bo_price o)) ->
  exists l', ladder_add (E := E) l o flags = Ok l' /\
    holds l (if qty_is_positive (bo_size o) then map_insert (bo_order_id o) o (order_at l)
             else order_at l) l'.
Proof.
  intros Hok Ht Hs Hid. unfold ladder_add, is_l1.
  rewrite bool_decide_false by done. cbn [negb andb].
  rewrite bool_decide_false by done. cbn [negb andb].
  destruct (qty_is_positive (bo_size o)) eqn:Hp; cbn [negb andb].
  - destruct (insert_order_spec (E := E) l o) as (l' & Hi & Hh); [done..|].
    rewrite Hi. osimpl. rewrite (h_type _ _ _ Hh), bool_decide_false by done.
    by exists l'.
  - exists l. split; [done|by split].
Qed.

(** The size an update carries: zero, or positive. *)
Definition size_defined o : Prop :=
  q_raw (bo_size o) = 0 \/ qty_is_positive (bo_size o) = true.

Lemma size_defined_zero o :
  size_defined o -> qty_is_positive (bo_size o) = negb (q_raw (bo_size o) =? 0).
Proof.
  intros [H|H].
  - rewrite H, Z.eqb_refl. apply not_true_is_false. intros [_ H']%qty_is_positive_spec. lia.
  - rewrite H. apply qty_is_positive_spec in H as [_ H].
    by replace (q_raw (bo_size o) =? 0) with false by lia.
Qed.

Lemma set_cache_id l : l <| ld_cache := ld_cache l |> = l.
Proof. by destruct l. Qed.

(** An update in place with a non-zero size. *)
Lemma replaced_holds l o p lv :
  ladder_ok l -> bo_side o = as_order_side (ld_side l) -> qty_is_positive (bo_size o) = true ->
  ld_cache l !! bo_order_id o = Some p -> bt_get bp_key p (ld_levels l) = Some lv ->
  p_raw (bo_price o) = p_raw (bp_value p) ->
  holds l (map_insert (bo_order_id o) o (order_at l))
    (l <| ld_levels := bt_insert bp_key p
            (lv <| lv_orders := im_insert (bo_order_id o) o (lv_orders lv) |>) (ld_levels l) |>).
Proof.
  intros Hok Hs Hp Hc Hg Hraw. destruct (lo_cache _ Hok _ _ Hc) as (Hps & lv0 & Hg0 & Hin).
  assert (lv0 = lv) as -> by congruence.
  set (lv2 := lv <| lv_orders := _ |>).
  assert (Hids : forall j, j ∈ level_ids lv2 <-> j ∈ level_ids lv).
  { intros j. unfold lv2. cbn. rewrite im_insert_ids. naive_solver. }
  split; [|done|done|].
  - rewrite <- (set_cache_id l) at 1.
    apply (replace_level_ok l p lv lv2 (ld_cache l) Hok Hps Hg).
    + intros k Hk. destruct (levels_get_elem l p lv Hok Hps Hg) as (k0 & _ & _ & Hk0 & Hr0).
      assert (k = k0) as -> by (by rewrite <- (lk_price _ _ _ Hk), <- (lk_price _ _ _ Hk0)).
      destruct Hk. split; cbn; try done.
      * apply im_insert_nonempty.
      * by apply im_nodup_insert.
      * apply im_insert_Forall; [done|]. split_and!; cbn; congruence.
    + intros j q Hq. destruct (lo_cache _ Hok _ _ Hq) as (Hqs & _). split; [done|].
      destruct (decide (bp_key q = bp_key p)) as [E|E]; [left|by right]. split; [done|].
      apply Hids. by apply (cached_at_level l p lv Hok Hg j q).
    + intros j Hj%Hids. destruct (levels_get_elem l p lv Hok Hps Hg) as (k & Hk1 & Hk & _).
      destruct (lo_cached _ Hok _ _ _ Hk1 Hj) as (q & Hq & Hkq). exists q. split; [done|congruence].
    + done.
  - intros j. unfold map_insert, order_at. cbn. pose proof (lo_sorted _ Hok) as Hsort.
    case_decide as E.
    + subst j. rewrite Hc. cbn. rewrite bt_get_insert, Z.eqb_refl by done. cbn.
      by rewrite im_get_insert, Z.eqb_refl.
    + destruct (ld_cache l !! j) as [q|] eqn:Hq; cbn; [|done]. rewrite bt_get_insert by done.
      destruct (Z.eqb_spec (bp_key p) (bp_key q)) as [Ek|Ek]; [|done].
      unfold bt_get in Hg |- *. rewrite <- Ek, Hg. cbn. rewrite im_get_insert.
      by replace (bo_order_id o =? j) with false by lia.
Qed.

Lemma level_insert_nonempty lv o :
  level_is_empty (lv <| lv_orders := im_insert (bo_order_id o) o (lv_orders lv) |>) = false.
Proof.
  unfold level_is_empty, level_len. cbn.
  pose proof (im_insert_nonempty (bo_order_id o) o (lv_orders lv)).
  by destruct (im_insert _ _ _).
Qed.

(** Updating a book that is not [L1_MBP] is an upsert, or a deletion. *)
Lemma ladder_update_spec {E} l o flags :
  ladder_ok l -> ld_book_type l <> L1_MBP -> bo_side o = as_order_side (ld_side l) ->
  size_defined o ->
  exists l', ladder_update (E := E) l o flags = Ok l' /\
    holds l (if q_raw (bo_size o) =? 0 then map_delete (bo_order_id o) (order_at l)
             else map_insert (bo_order_id o) o (order_at l)) l'.
Proof.
  intros Hok Ht Hs Hsz. pose proof (size_defined_zero o Hsz) as Hz. unfold ladder_update.
  destruct (ld_cache l !! bo_order_id o) as [p|] eqn:Hc.
  - destruct (lo_cache _ Hok _ _ Hc) as (Hps & lv & Hg & Hin).
    rewrite levels_get_Ok by done. osimpl. rewrite Hg.
    destruct (levels_get_elem l p lv Hok Hps Hg) as (k & _ & _ & Hk & Hraw).
    unfold price_eqb. rewrite (lk_price _ _ _ Hk), Hraw.
    destruct (Z.eqb_spec (p_raw (bo_price o)) (p_raw (bp_value p))) as [Ep|Ep].
    + unfold level_update. destruct (Z.eqb_spec (q_raw (bo_size o)) 0) as [E0|E0].
      * eexists. split; [reflexivity|]. by apply removed_holds.
      * eexists. split; [reflexivity|]. unfold put_level.
        rewrite level_insert_nonempty.
        apply replaced_holds; try done.
    + pose proof (removed_holds l _ _ _ Hok Hc Hg) as [R1 R2 R3 R4].
      unfold level_delete. fold (rest_level (bo_order_id o) lv).
      fold (removed l (bo_order_id o) p lv). set (l1 := removed _ _ _ _) in *.
      assert (Hnone : order_at l1 (bo_order_id o) = None)
        by (rewrite R4; unfold map_delete; by rewrite decide_True).
      assert (Hc1 : ld_cache l1 !! bo_order_id o = None).
      { destruct (ld_cache l1 !! bo_order_id o) eqn:E1; [|done].
        destruct (proj2 (order_at_cached l1 _ R1) (ex_intro _ _ E1)) as [x Hx]. congruence. }
      rewrite Hz. destruct (Z.eqb_spec (q_raw (bo_size o)) 0) as [E0|E0]; cbn [negb].
      * exists l1. by split.
      * destruct (ladder_add_spec (E := E) l1 o flags) as (l2 & H2 & [A1 A2 A3 A4]);
          [done|by rewrite R3|by rewrite R2|by rewrite Hc1|].
        exists l2. split; [done|]. rewrite Hz in A4.
        replace (q_raw (bo_size o) =? 0) with false in A4 by lia. cbn [negb] in A4.
        split; [done|congruence|congruence|]. intros j. rewrite A4.
        unfold map_insert. case_decide as Ej; [done|]. rewrite R4. unfold map_delete.
        by rewrite decide_False.
  - rewrite Hz. destruct (Z.eqb_spec (q_raw (bo_size o)) 0) as [E0|E0]; cbn [negb].
    + exists l. split; [done|]. split; try done. intros j. unfold map_delete, order_at.
      case_decide as E1; [subst; by rewrite Hc|done].
    + destruct (ladder_add_spec (E := E) l o flags) as (l2 & H2 & [A1 A2 A3 A4]);
        [done|done|done|by rewrite Hc|].
      exists l2. split; [done|]. rewrite Hz in A4.
      replace (q_raw (bo_size o) =? 0) with false in A4 by lia. by split.
Qed.

(** ** The cache counts the orders *)

Definition all_ids l : list Z := concat ((fun kl => level_ids kl.2) <$> ld_levels l).
Definition total_orders l : nat := sum_list ((fun kl => length (lv_orders kl.2)) <$> ld_levels l).

Lemma elem_all_ids l id :
  id ∈ all_ids l <-> exists k lv, (k, lv) ∈ ld_levels l /\ id ∈ level_ids lv.
Proof.
  unfold all_ids. rewrite elem_of_concat. split.
  - intros (x & Hx & Hid). apply list_elem_of_fmap in Hx as ([k lv] & -> & Hin). by exists k, lv.
  - intros (k & lv & Hin & Hid). exists (level_ids lv). split; [|done].
    apply list_elem_of_fmap. by exists (k, lv).
Qed.

Lemma all_ids_nodup l : ladder_ok l -> NoDup (all_ids l).
Proof.
  intros Hok.
  assert (Hu : forall k1 lv1 k2 lv2 id, (k1, lv1) ∈ ld_levels l -> (k2, lv2) ∈ ld_levels l ->
    id ∈ level_ids lv1 -> id ∈ level_ids lv2 -> bp_key k1 = bp_key k2).
  { intros k1 lv1 k2 lv2 id H1 H2 I1 I2.
    destruct (lo_cached _ Hok _ _ _ H1 I1) as (p1 & C1 & E1).
    destruct (lo_cached _ Hok _ _ _ H2 I2) as (p2 & C2 & E2). congruence. }
  pose proof (lo_sorted _ Hok) as Hs. pose proof (lo_levels _ Hok) as Hl.
  unfold all_ids. clear Hok. revert Hu Hs Hl.
  induction (ld_levels l) as [|[k lv] m IH]; intros Hu Hs Hl; simpl; [apply NoDup_nil_2|].
  destruct (bt_sorted_inv _ _ _ _ Hs) as [Hm Hk]. apply NoDup_app. split_and!.
  - by apply (lk_nodup (ld_side l) k lv), Hl; left.
  - intros id Hid Hin. apply elem_of_concat in Hin as (x & Hin & Hx).
    apply list_elem_of_fmap in Hin as ([k2 lv2] & -> & Hin2).
    assert (bp_key k = bp_key k2) as E by (eapply Hu; [left|right; exact Hin2|done|done]).
    eapply Forall_forall in Hk; [|apply list_elem_of_fmap; by exists (k2, lv2)].
    simpl in Hk. lia.
  - apply IH; [|done|].
    + intros k1 lv1 k2 lv2 id H1 H2. eapply Hu; by right.
    + intros k1 lv1 H1. apply Hl. by right.
Qed.

Lemma cache_size l : ladder_ok l -> size (ld_cache l) = total_orders l.
Proof.
  intros Hok. rewrite <- size_dom.
  assert (dom (ld_cache l) = list_to_set (C := gset Z) (all_ids l)) as ->.
  { apply set_eq. intros id. rewrite elem_of_list_to_set, elem_of_dom, elem_all_ids. split.
    - intros [p Hp]. destruct (lo_cache _ Hok _ _ Hp) as (Hps & lv & Hg & Hin).
      destruct (levels_get_elem l p lv Hok Hps Hg) as (k & Hk & _). eauto.
    - intros (k & lv & Hk & Hin). destruct (lo_cached _ Hok _ _ _ Hk Hin) as (p & Hp & _). by eexists. }
  rewrite size_list_to_set by (by apply all_ids_nodup).
  unfold all_ids, total_orders. induction (ld_levels l) as [|[k lv] m IH]; [done|].
  rewrite !fmap_cons. simpl. rewrite length_app. f_equal; [|exact IH].
  unfold im_keys. by rewrite length_fmap.
Qed.

(** ** Clearing and whole levels *)

Lemma empty_ok s bt st : ladder_ok (mkLadder s bt [] ∅ st).
Proof.
  split; cbn; [constructor| | |].
  - intros k lv H. by apply elem_of_nil in H.
  - done.
  - intros k lv id H. by apply elem_of_nil in H.
Qed.

Lemma ladder_clear_ok l : ladder_ok (ladder_clear l).
Proof. apply empty_ok. Qed.

Lemma delete_all_lookup (ids : list Z) (c : gmap Z BookPrice) j :
  foldl (fun c id => delete id c) c ids !! j = if decide (j ∈ ids) then None else c !! j.
Proof.
  revert c. induction ids as [|id ids IH]; intros c; cbn [foldl].
  - rewrite decide_False; [done|]. apply not_elem_of_nil.
  - rewrite IH, lookup_delete. repeat case_decide; try done; exfalso; set_solver.
Qed.

Lemma remove_level_spec {E} l p :
  ladder_ok l -> bp_side p = ld_side l ->
  exists l' r, remove_level (E := E) l p = Ok (l', r) /\
    r = bt_get bp_key p (ld_levels l) /\ ladder_ok l' /\
    ld_side l' = ld_side l /\ ld_book_type l' = ld_book_type l /\
    ld_levels l' = bt_remove bp_key p (ld_levels l).
Proof.
  intros Hok Hs. unfold remove_level. rewrite levels_get_Ok by done. osimpl.
  destruct (bt_get bp_key p (ld_levels l)) as [lv|] eqn:Hg; eexists _, _; (split; [reflexivity|]);
    split_and!; try done.
  - pose proof (cached_at_level l p lv Hok Hg) as Hat.
    pose proof (levels_get_elem l p lv Hok Hs Hg) as (k0 & Hk0 & Ekey & _).
    split; cbn.
    + apply bt_sorted_remove, Hok.
    + intros k x Hin. apply bt_remove_sub in Hin as [Hin _]. by apply (lo_levels _ Hok).
    + intros j q. rewrite delete_all_lookup. case_decide as Hj; [done|]. intros Hq.
      destruct (lo_cache _ Hok _ _ Hq) as (Hqs & lvq & Hgq & Hin). split; [done|].
      exists lvq. split; [|done]. rewrite bt_get_remove.
      destruct (Z.eqb_spec (bp_key p) (bp_key q)) as [Ek|Ek]; [|done].
      exfalso. apply Hj. by apply (Hat j q).
    + intros k x j Hin Hj. apply bt_remove_sub in Hin as [Hin Hk]. simpl in Hk.
      destruct (lo_cached _ Hok _ _ _ Hin Hj) as (q & Hq & Hkq). exists q. split; [|done].
      rewrite delete_all_lookup. rewrite decide_False; [done|]. intros Hin2.
      destruct (lo_cached _ Hok _ _ _ Hk0 Hin2) as (q2 & Hq2 & Hkq2). congruence.
  - unfold bt_remove. symmetry. apply List.forallb_filter_id, List.forallb_forall.
    intros x Hx. apply negb_true_iff, Z.eqb_neq. intros Ek.
    apply (bt_get_None _ _ _ Hg). rewrite <- Ek. apply list_elem_of_fmap. exists x.
    split; [done|by apply list_elem_of_In].
Qed.

(** ** [L1_MBP] ladders: at most one order, under the side's id *)

Definition l1_id (s : OrderSideSpecified) : Z := order_side_repr (as_order_side s).

Record l1_ok l : Prop := {
  l1_ladder : ladder_ok l;
  l1_type : ld_book_type l = L1_MBP;
  l1_shape : ld_levels l = [] \/
    exists k o, ld_levels l = [(k, mkLevel k [(l1_id (ld_side l), o)])];
}.

(** The one order, if any. *)
Definition l1_order l : option BookOrder := top l ≫= level_first.

(** A ladder of one level with one order, and its cache entry, is well formed. *)
Lemma single_ok s bt k lv id p st :
  level_ok s k lv -> level_ids lv = [id] -> bp_side p = s -> bp_key p = bp_key k ->
  ladder_ok (mkLadder s bt [(k, lv)] {[id := p]} st).
Proof.
  intros Hlv Hids Hs Hk. split; cbn.
  - repeat constructor.
  - intros k' lv' [= -> ->]%list_elem_of_singleton. done.
  - intros j q [<- <-]%lookup_singleton_Some. split; [done|]. exists lv.
    unfold bt_get. cbn. rewrite Hk, Z.eqb_refl, Hids. split; [done|]. by apply list_elem_of_singleton.
  - intros k' lv' j [= -> ->]%list_elem_of_singleton. rewrite Hids.
    intros ->%list_elem_of_singleton. exists p. by rewrite lookup_singleton_eq.
Qed.

(** Does [ladder_add] keep the current level beside the new order? *)
Definition accumulates l (flags : Z) : bool :=
  if flag_matches F_SNAPSHOT flags then bool_decide (ld_batch_state l = SnapshotBatch)
  else flag_matches F_MBP flags && flag_matches F_LAST flags
       && bool_decide (ld_batch_state l = MbpBatch).

(** The order left after an insertion into an [L1_MBP] ladder. *)
Definition l1_result l o (flags : Z) : option BookOrder :=
  if qty_is_positive (bo_size o) then
    match l1_order l with
    | Some old =>
        if accumulates l flags && (bp_key (mkBookPrice (bo_price old) (ld_side l))
                                   <? bp_key (order_price l o))
        then Some old else Some o
    | None => Some o
    end
  else None.

Lemma handle_l1_add_pos l o flags :
  qty_is_positive (bo_size o) = true ->
  exists st, handle_l1_add l o flags =
    (if accumulates l flags then l <| ld_batch_state := st |>
     else (ladder_clear l) <| ld_batch_state := st |>, true).
Proof.
  intros Hp. unfold handle_l1_add, accumulates. rewrite Hp. cbn [negb].
  assert (Hl : forall x : BookLadder, x <| ld_batch_state := ld_batch_state x |> = x)
    by (by intros []).
  destruct (flag_matches F_SNAPSHOT flags), (flag_matches F_LAST flags),
    (flag_matches F_MBP flags); cbn [andb];
    try match goal with |- context [bool_decide ?P] => destruct (bool_decide P) end;
    first [by exists (ld_batch_state l); rewrite Hl
          |by exists (ld_batch_state (ladder_clear l)); rewrite Hl|by eexists].
Qed.

(** The state after the insertion step, before keeping the best. *)
Lemma l1_insert_empty {E} l o :
  ladder_ok l -> ld_levels l = [] -> bo_side o = as_order_side (ld_side l) ->
  qty_is_positive (bo_size o) = true ->
  insert_order (E := E) l o =
    Ok (l <| ld_cache := <[bo_order_id o := order_price l o]> (ld_cache l) |>
          <| ld_levels := [(order_price l o, mkLevel (order_price l o) [(bo_order_id o, o)])] |>).
Proof.
  intros Hok Hl Hs Hp. rewrite insert_order_Ok by done. f_equal.
  unfold inserted, new_level, old_level. rewrite Hl. done.
Qed.

Lemma l1_level_ids k id o : level_ids (mkLevel k [(id, o)]) = [id].
Proof. done. Qed.

Lemma l1_level_ok l o :
  bo_side o = as_order_side (ld_side l) -> qty_is_positive (bo_size o) = true ->
  level_ok (ld_side l) (order_price l o) (mkLevel (order_price l o) [(bo_order_id o, o)]).
Proof.
  intros Hs Hp. split; cbn; try done; [apply NoDup_singleton|by repeat constructor].
Qed.

(** A ladder with one order, whatever it was before. *)
Definition l1_single l k o st : BookLadder :=
  mkLadder (ld_side l) L1_MBP [(k, mkLevel k [(l1_id (ld_side l), o)])]
    {[l1_id (ld_side l) := k]} st.

Lemma l1_single_ok l k o st :
  level_ok (ld_side l) k (mkLevel k [(l1_id (ld_side l), o)]) -> l1_ok (l1_single l k o st).
Proof.
  intros Hlv. split; [|done|right; by eexists _, _].
  apply single_ok; [done|done|apply Hlv|done].
Qed.

(** The cache of an [L1_MBP] ladder. *)
Lemma l1_cache_empty l : ladder_ok l -> ld_levels l = [] -> ld_cache l = ∅.
Proof.
  intros Hok Hl. apply map_eq. intros id. rewrite lookup_empty.
  destruct (ld_cache l !! id) as [p|] eqn:E; [|done].
  destruct (lo_cache _ Hok _ _ E) as (_ & lv & Hg & _). by rewrite Hl in Hg.
Qed.

Lemma l1_cache_single l k o :
  ladder_ok l -> ld_levels l = [(k, mkLevel k [(l1_id (ld_side l), o)])] ->
  exists p, ld_cache l = {[l1_id (ld_side l) := p]} /\ bp_side p = ld_side l /\
    bp_key p = bp_key k /\ level_ok (ld_side l) k (mkLevel k [(l1_id (ld_side l), o)]).
Proof.
  intros Hok Hl.
  assert (Hin : (k, mkLevel k [(l1_id (ld_side l), o)]) ∈ ld_levels l) by (rewrite Hl; left).
  destruct (lo_cached _ Hok _ _ (l1_id (ld_side l)) Hin) as (p & Hp & Hk); [left|].
  exists p. destruct (lo_cache _ Hok _ _ Hp) as (Hps & _). split_and!; try done;
    [|by apply (lo_levels _ Hok)].
  apply map_eq. intros id. rewrite lookup_singleton. case_decide as E; [by subst|].
  destruct (ld_cache l !! id) as [q|] eqn:Eq; [|done].
  destruct (lo_cache _ Hok _ _ Eq) as (_ & lv & Hg & Hid). rewrite Hl in Hg.
  unfold bt_get in Hg. cbn in Hg. destruct (bp_key k =? bp_key q); [|done]. simplify_eq/=.
  apply list_elem_of_singleton in Hid. cbn in Hid. congruence.
Qed.

Lemma retain_best_one l : (length (ld_levels l) <= 1)%nat -> retain_best_only l = l.
Proof.
  intros H. unfold retain_best_only, ladder_len.
  by replace (Z.of_nat (length (ld_levels l)) <=? 1) with true by lia.
Qed.

Lemma retain_best_two l k1 lv1 k2 lv2 :
  ld_levels l = [(k1, lv1); (k2, lv2)] -> bp_side k1 = bp_side k2 -> bp_key k1 <> bp_key k2 ->
  retain_best_only l =
    l <| ld_levels := [(k1, lv1)] |> <| ld_cache := cache_of [(k1, lv1)] |>.
Proof.
  intros Hl Hs Hk. unfold retain_best_only, ladder_len. rewrite Hl. cbn -[cache_of].
  assert (book_price_eqb k1 k1 = true) as ->.
  { unfold book_price_eqb, price_eqb. by rewrite bool_decide_true, Z.eqb_refl. }
  assert (book_price_eqb k2 k1 = false) as ->; [|done].
  unfold book_price_eqb, price_eqb. rewrite bool_decide_true by done. cbn.
  apply Z.eqb_neq. intros E. apply Hk. by apply bp_key_eq.
Qed.

(** The insertion step of an accumulating ladder that holds an order. *)
Lemma l1_inserted l o k old :
  ladder_ok l -> ld_book_type l = L1_MBP ->
  ld_levels l = [(k, mkLevel k [(l1_id (ld_side l), old)])] -> bo_order_id o = l1_id (ld_side l) ->
  inserted l o = mkLadder (ld_side l) L1_MBP
    (let id := l1_id (ld_side l) in let bp := order_price l o in
     match Z.compare (bp_key bp) (bp_key k) with
     | Eq => [(k, mkLevel k [(id, o)])]
     | Lt => [(bp, mkLevel bp [(id, o)]); (k, mkLevel k [(id, old)])]
     | Gt => [(k, mkLevel k [(id, old)]); (bp, mkLevel bp [(id, o)])]
     end) {[l1_id (ld_side l) := order_price l o]} (ld_batch_state l).
Proof.
  intros Hok Ht Hl Hid. destruct (l1_cache_single l k old Hok Hl) as (p & Hc & _).
  unfold inserted, new_level, old_level. rewrite Hl, Hid, Hc, insert_singleton_eq.
  unfold bt_get, bt_insert, im_insert. cbn.
  destruct (Z.compare_spec (bp_key (order_price l o)) (bp_key k)) as [Ek|Ek|Ek].
  - rewrite Ek, Z.eqb_refl. cbn. rewrite Z.eqb_refl. destruct l; cbn in *. by subst.
  - replace (bp_key k =? bp_key (order_price l o)) with false by lia. cbn.
    destruct l; cbn in *. by subst.
  - replace (bp_key k =? bp_key (order_price l o)) with false by lia. cbn.
    destruct l; cbn in *. by subst.
Qed.

Lemma l1_insert_single l o k old :
  ladder_ok l -> ld_book_type l = L1_MBP ->
  ld_levels l = [(k, mkLevel k [(l1_id (ld_side l), old)])] ->
  bo_side o = as_order_side (ld_side l) -> qty_is_positive (bo_size o) = true ->
  bo_order_id o = l1_id (ld_side l) ->
  l1_ok (retain_best_only (inserted l o)) /\
  ld_side (retain_best_only (inserted l o)) = ld_side l /\
  l1_order (retain_best_only (inserted l o)) =
    (if bp_key k <? bp_key (order_price l o) then Some old else Some o).
Proof.
  intros Hok Ht Hl Hs Hp Hid. destruct (l1_cache_single l k old Hok Hl) as (p & _ & _ & _ & Hlv).
  pose proof (l1_level_ok l o Hs Hp) as Hnew. rewrite Hid in Hnew.
  rewrite (l1_inserted l o k old) by done. cbn zeta.
  destruct (Z.compare_spec (bp_key (order_price l o)) (bp_key k)) as [Ek|Ek|Ek].
  - rewrite retain_best_one by (cbn; lia).
    replace (bp_key k <? bp_key (order_price l o)) with false by lia. split_and!; [|done|done].
    split; [|done|right; by eexists _, _]. apply single_ok; [|done|done|done].
    destruct Hlv as [A1 A2 A3 A4 A5].
    assert (p_raw (bp_value (order_price l o)) = p_raw (bp_value k))
      by (apply bp_key_eq; [by rewrite A1|done]).
    split; cbn; try done. constructor; [|done]. by split_and!.
  - erewrite retain_best_two; [|reflexivity|by rewrite (lk_side _ _ _ Hlv)|lia].
    replace (bp_key k <? bp_key (order_price l o)) with false by lia.
    split_and!; [|done|done]. apply (l1_single_ok l (order_price l o) o). done.
  - erewrite retain_best_two; [|reflexivity|by rewrite (lk_side _ _ _ Hlv)|lia].
    replace (bp_key k <? bp_key (order_price l o)) with true by lia.
    split_and!; [|done|done]. apply (l1_single_ok l k old). done.
Qed.

Lemma set_batch_ok l st : l1_ok l -> l1_ok (l <| ld_batch_state := st |>).
Proof. intros [Hl Ht Hs]. split; [|done|done]. destruct Hl. by split. Qed.

(** Adding to an [L1_MBP] ladder. *)
Lemma l1_add_spec {E} l o flags :
  l1_ok l -> bo_side o = as_order_side (ld_side l) -> bo_order_id o = l1_id (ld_side l) ->
  exists l', ladder_add (E := E) l o flags = Ok l' /\ l1_ok l' /\ ld_side l' = ld_side l /\
    l1_order l' = l1_result l o flags.
Proof.
  intros [Hok Ht Hshape] Hs Hid. unfold ladder_add, is_l1. rewrite bool_decide_true by done.
  unfold l1_result. destruct (qty_is_positive (bo_size o)) eqn:Hp.
  2: { unfold handle_l1_add. rewrite Hp. cbn. eexists. split; [done|]. split_and!; try done.
       split; [apply ladder_clear_ok|done|by left]. }
  destruct (handle_l1_add_pos l o flags Hp) as [st ->].
  assert (Hempty : forall l0, ladder_ok l0 -> ld_levels l0 = [] -> ld_side l0 = ld_side l ->
    ld_book_type l0 = L1_MBP -> exists l',
    (if negb (bool_decide (ld_book_type l0 = L1_MBP)) && negb true then Ok l0
     else self ← insert_order (E := E) l0 o;
       if bool_decide (ld_book_type self = L1_MBP)
          && (flag_matches F_MBP flags || flag_matches F_SNAPSHOT flags)
       then Ok (if flag_matches F_LAST flags
                then (retain_best_only self) <| ld_batch_state := BatchNone |>
                else retain_best_only self)
       else Ok self) = Ok l' /\ l1_ok l' /\ ld_side l' = ld_side l /\ l1_order l' = Some o).
  { intros l0 Hok0 Hl0 Hs0 Ht0. rewrite bool_decide_true by done. cbn [negb andb].
    rewrite l1_insert_empty by (rewrite ?Hs0; done). osimpl.
    rewrite (l1_cache_empty l0) by done.
    set (l1 := set_field _ _).
    assert (H1 : l1_ok l1 /\ ld_side l1 = ld_side l /\ l1_order l1 = Some o).
    { split_and!; [|done|done]. split; [|done|right; eexists _, o; subst l1; cbn; by rewrite Hid, Hs0].
      subst l1. destruct l0; cbn in *. subst. apply single_ok; try done.
      pose proof (l1_level_ok l o Hs Hp) as H. by unfold order_price in *. }
    destruct H1 as (H1 & H2 & H3). rewrite bool_decide_true by apply H1. cbn [andb].
    rewrite (retain_best_one l1) by (subst l1; cbn; lia).
    destruct (_ || _); [destruct (flag_matches F_LAST flags)|]; eexists; (split; [done|]);
      split_and!; try done. by apply set_batch_ok. }
  destruct (accumulates l flags) eqn:Hacc; cbn [negb].
  - destruct Hshape as [Hl|(k & old & Hl)].
    + assert (l1_order l = None) as -> by (unfold l1_order, top; by rewrite Hl).
      apply Hempty; try done. apply set_batch_ok. split; [done|done|by left].
    + assert (l1_order l = Some old) as -> by (unfold l1_order, top; by rewrite Hl).
      set (l0 := l <| ld_batch_state := st |>).
      assert (Hok0 : ladder_ok l0) by (by apply (set_batch_ok l st); split; [|done|right; eauto]).
      destruct (l1_cache_single l k old Hok Hl) as (_ & _ & _ & _ & Hlv).
      assert (Hold : bp_key (mkBookPrice (bo_price old) (ld_side l)) = bp_key k).
      { pose proof (lk_orders _ _ _ Hlv) as [(_ & Hraw & _) _]%Forall_cons.
        apply bp_key_eq; [by rewrite (lk_side _ _ _ Hlv)|done]. }
      destruct (l1_insert_single l0 o k old) as (R1 & R2 & R3); [done..|].
      rewrite bool_decide_true by done. cbn [negb andb].
      rewrite (insert_order_Ok l0 o) by done. osimpl. rewrite bool_decide_true by done.
      assert (flag_matches F_MBP flags || flag_matches F_SNAPSHOT flags = true) as ->.
      { unfold accumulates in Hacc. destruct (flag_matches F_SNAPSHOT flags); [by rewrite orb_true_r|].
        by destruct (flag_matches F_MBP flags). }
      cbn [andb]. rewrite Hold.
      destruct (flag_matches F_LAST flags); eexists; (split; [done|]); split_and!; try done.
      by apply set_batch_ok.
  - assert (Hr : match l1_order l with
      | Some old => if false && (bp_key (mkBookPrice (bo_price old) (ld_side l))
                                   <? bp_key (order_price l o)) then Some old else Some o
      | None => Some o end = Some o) by (by destruct (l1_order l)).
    rewrite Hr. apply Hempty; try done. apply empty_ok.
Qed.

(** ** Reading the shape of an [L1_MBP] ladder off its content *)

Lemma order_at_all_ids l id : ladder_ok l -> is_Some (order_at l id) <-> id ∈ all_ids l.
Proof.
  intros Hok. rewrite order_at_cached, elem_all_ids by done. split.
  - intros [p Hp]. destruct (lo_cache _ Hok _ _ Hp) as (Hps & lv & Hg & Hin).
    destruct (levels_get_elem l p lv Hok Hps Hg) as (k & Hk & _). eauto.
  - intros (k & lv & Hk & Hin). destruct (lo_cached _ Hok _ _ _ Hk Hin) as (p & Hp & _). eauto.
Qed.

Lemma content_empty l :
  ladder_ok l -> (forall id, order_at l id = None) -> ld_levels l = [].
Proof.
  intros Hok He. destruct (ld_levels l) as [|[k lv] m] eqn:Hl; [done|]. exfalso.
  assert (Hin : (k, lv) ∈ ld_levels l) by (rewrite Hl; left).
  destruct (lk_nonempty _ _ _ (lo_levels _ Hok _ _ Hin)).
  destruct (lv_orders lv) as [|[id o] r] eqn:Ho; [done|]. exfalso.
  assert (is_Some (order_at l id)) as [x Hx]; [|by rewrite He in Hx].
  apply order_at_all_ids; [done|]. apply elem_all_ids. exists k, lv. split; [done|].
  unfold im_keys. rewrite Ho. left.
Qed.

Lemma nodup_single (ids : list Z) id :
  NoDup ids -> id ∈ ids -> (forall j, j ∈ ids -> j = id) -> ids = [id].
Proof.
  intros Hnd Hin Hall. destruct ids as [|i ids]; [by apply elem_of_nil in Hin|].
  assert (i = id) as -> by (apply Hall; left). f_equal. destruct ids as [|j ids]; [done|].
  assert (j = id) as -> by (apply Hall; right; left).
  apply NoDup_cons in Hnd as [Hn _]. destruct Hn. left.
Qed.

Lemma content_single l id o :
  ladder_ok l -> (forall j, order_at l j = if decide (j = id) then Some o else None) ->
  exists k, ld_levels l = [(k, mkLevel k [(id, o)])].
Proof.
  intros Hok Hc.
  assert (Hids : all_ids l = [id]).
  { apply nodup_single; [by apply all_ids_nodup| |].
    - apply order_at_all_ids; [done|]. rewrite Hc, decide_True by done. eauto.
    - intros j Hj. apply order_at_all_ids in Hj as [x Hx]; [|done]. rewrite Hc in Hx.
      by case_decide. }
  unfold all_ids in Hids. destruct (ld_levels l) as [|[k lv] m] eqn:Hl; [done|].
  assert (Hne : forall k lv, (k, lv) ∈ ld_levels l -> level_ids lv <> []).
  { intros k1 lv1 Hin. pose proof (lk_nonempty _ _ _ (lo_levels _ Hok _ _ Hin)).
    unfold im_keys. by destruct (lv_orders lv1). }
  simpl in Hids. destruct (level_ids lv) as [|i ids] eqn:Hlv.
  { exfalso. by apply (Hne k lv); [rewrite Hl; left|]. }
  simpl in Hids. injection Hids as -> Hrest. apply app_eq_nil in Hrest as [-> Hrest].
  destruct m as [|[k2 lv2] m].
  2: { exfalso. simpl in Hrest. apply app_eq_nil in Hrest as [Hrest _].
       by apply (Hne k2 lv2); [rewrite Hl; right; left|]. }
  assert (Hin : (k, lv) ∈ ld_levels l) by (rewrite Hl; left).
  destruct lv as [pr os]. pose proof (lk_price _ _ _ (lo_levels _ Hok _ _ Hin)) as Hp.
  simpl in Hp. subst pr. exists k. unfold im_keys in Hlv. cbn in Hlv.
  destruct os as [|[i o'] [|]]; try done. cbn in Hlv. injection Hlv as ->.
  do 5 f_equal. specialize (Hc id). rewrite decide_True in Hc by done. unfold order_at in Hc.
  destruct (lo_cached _ Hok _ _ id Hin) as (p & Hpc & Hk); [left|]. rewrite Hpc in Hc.
  rewrite Hl in Hc. cbn in Hc. unfold bt_get in Hc. cbn in Hc. rewrite Hk, Z.eqb_refl in Hc.
  cbn in Hc. unfold im_get in Hc. cbn in Hc. rewrite Z.eqb_refl in Hc. by injection Hc.
Qed.

Lemma l1_content l :
  l1_ok l -> forall id, order_at l id = if decide (id = l1_id (ld_side l)) then l1_order l else None.
Proof.
  intros [Hok Ht [Hl|(k & o & Hl)]] id; unfold l1_order, top; rewrite Hl; cbn.
  - unfold order_at. rewrite (l1_cache_empty l) by done. rewrite lookup_empty. by case_decide.
  - destruct (l1_cache_single l k o Hok Hl) as (p & Hc & _ & Hk & _).
    unfold order_at. rewrite Hc, lookup_singleton, Hl. case_decide as E.
    + subst id. rewrite decide_True by done. cbn. unfold bt_get. cbn. rewrite Hk, Z.eqb_refl.
      cbn. unfold im_get. cbn. by rewrite Z.eqb_refl.
    + by rewrite decide_False.
Qed.

(** From the content back to the shape. *)
Lemma l1_of_content l (x : option BookOrder) :
  ladder_ok l -> ld_book_type l = L1_MBP ->
  (forall id, order_at l id = if decide (id = l1_id (ld_side l)) then x else None) ->
  l1_ok l /\ l1_order l = x.
Proof.
  intros Hok Ht Hc. destruct x as [o|].
  - destruct (content_single l _ o Hok Hc) as [k Hl].
    split; [split; [done|done|right; eauto]|]. unfold l1_order, top. by rewrite Hl.
  - assert (Hl : ld_levels l = []) by (apply content_empty; [done|]; intros id; rewrite Hc; by case_decide).
    split; [split; [done|done|by left]|]. unfold l1_order, top. by rewrite Hl.
Qed.

Lemma l1_remove_spec {E} l :
  l1_ok l -> exists l', remove_order (E := E) l (l1_id (ld_side l)) = Ok l' /\
    l1_ok l' /\ ld_side l' = ld_side l /\ l1_order l' = None.
Proof.
  intros Hl1. destruct (remove_order_spec (E := E) l (l1_id (ld_side l)) (l1_ladder _ Hl1))
    as (l' & Hr & [H1 H2 H3 H4]).
  destruct (l1_of_content l' None) as [A1 A2]; [done|by rewrite H3, (l1_type _ Hl1)| |eauto].
  intros id. rewrite H4, H2. unfold map_delete. rewrite l1_content by done. by repeat case_decide.
Qed.

Lemma l1_update_spec {E} l o flags :
  l1_ok l -> bo_side o = as_order_side (ld_side l) -> bo_order_id o = l1_id (ld_side l) ->
  size_defined o ->
  exists l', ladder_update (E := E) l o flags = Ok l' /\ l1_ok l' /\ ld_side l' = ld_side l /\
    l1_order l' = if q_raw (bo_size o) =? 0 then None else Some o.
Proof.
  intros Hl1 Hs Hid Hsz. pose proof (size_defined_zero o Hsz) as Hz.
  pose proof (l1_ladder _ Hl1) as Hok. pose proof (l1_type _ Hl1) as Ht.
  assert (Hup : forall l0, l1_ok l0 -> ld_side l0 = ld_side l -> l1_order l0 = None ->
    exists l', (if qty_is_positive (bo_size o) then ladder_add (E := E) l0 o flags else Ok l0) = Ok l' /\
      l1_ok l' /\ ld_side l' = ld_side l /\
      l1_order l' = if q_raw (bo_size o) =? 0 then None else Some o).
  { intros l0 H0 Hs0 Hn. rewrite Hz. destruct (q_raw (bo_size o) =? 0) eqn:E0; cbn [negb].
    - exists l0. by split_and!.
    - destruct (l1_add_spec (E := E) l0 o flags H0) as (l' & A1 & A2 & A3 & A4);
        [by rewrite Hs0|by rewrite Hs0|]. exists l'. split_and!; [done|done|congruence|].
      rewrite A4. unfold l1_result. rewrite Hz, Hn. done. }
  unfold ladder_update. destruct (ld_cache l !! bo_order_id o) as [p|] eqn:Hc.
  - destruct (lo_cache _ Hok _ _ Hc) as (Hps & lv & Hg & Hin).
    rewrite levels_get_Ok by done. osimpl. rewrite Hg.
    destruct (levels_get_elem l p lv Hok Hps Hg) as (k & _ & _ & Hk & Hraw).
    pose proof (removed_holds l _ _ _ Hok Hc Hg) as [R1 R2 R3 R4].
    assert (Hrem : l1_ok (removed l (bo_order_id o) p lv) /\
      l1_order (removed l (bo_order_id o) p lv) = None).
    { apply l1_of_content; [done|congruence|]. intros id. rewrite R4, R2.
      unfold map_delete. rewrite l1_content, Hid by done. by repeat case_decide. }
    unfold price_eqb. rewrite (lk_price _ _ _ Hk), Hraw.
    destruct (Z.eqb_spec (p_raw (bo_price o)) (p_raw (bp_value p))) as [Ep|Ep].
    + unfold level_update. destruct (Z.eqb_spec (q_raw (bo_size o)) 0) as [E0|E0].
      * eexists. split; [reflexivity|]. split_and!; [apply Hrem|exact R2|apply Hrem].
      * assert (Hpos : qty_is_positive (bo_size o) = true)
          by (rewrite Hz; by replace (q_raw (bo_size o) =? 0) with false by lia).
        destruct (replaced_holds l o p lv) as [A1 A2 A3 A4]; [done..|].
        eexists. split; [reflexivity|]. unfold put_level.
        rewrite level_insert_nonempty.
        destruct (l1_of_content (l <| ld_levels := bt_insert bp_key p
          (lv <| lv_orders := im_insert (bo_order_id o) o (lv_orders lv) |>) (ld_levels l) |>) (Some o))
          as [B1 B2]; [done|done| |by split_and!].
        intros id. rewrite A4. unfold map_insert. rewrite l1_content, Hid by done.
        cbn. by repeat case_decide.
    + apply Hup; [apply Hrem|exact R2|apply Hrem].
  - apply Hup; [done|done|]. pose proof (l1_content l Hl1 (bo_order_id o)) as H.
    rewrite Hid, decide_True in H by done. rewrite <- H, <- Hid. unfold order_at. by rewrite Hc.
Qed.
End Inv.
