(* ===== verification/Book.v ===== *)
(** * Order books ([crates/model/src/orderbook/book.rs], [aggregation.rs], [analysis.rs], [error.rs])

    A book is two ladders and three counters.  Incoming orders are given an id
    that depends on the book type, deltas and snapshots are applied, the best
    prices and the liquidity of a side are queried. *)

From stdpp Require Import base numbers list gmap sets.
From Stdlib Require Import ZArith Lia.
From S2P Require Import Prelude F64 Fixed Price Quantity Enums Money OrderEvents Maps Ladder.

(** *** Market data messages

    Their Rust module is not among the sources; the fields are those of the
    structs of the C header. *)

Record OrderBookDelta : Type := mkDelta {
  dl_instrument_id : InstrumentId;
  dl_action : BookAction;
  dl_order : BookOrder;
  dl_flags : Z;
  dl_sequence : Z;
  dl_ts_event : UnixNanos;
  dl_ts_init : UnixNanos;
}.
#[export] Instance delta_eta : Eta OrderBookDelta := fun d =>
  mkDelta (dl_instrument_id d) (dl_action d) (dl_order d) (dl_flags d) (dl_sequence d)
    (dl_ts_event d) (dl_ts_init d).

(** The part of [OrderBookDeltas] the book reads. *)
Record OrderBookDeltas : Type := mkDeltas {
  ds_instrument_id : InstrumentId;
  ds_deltas : list OrderBookDelta;
}.

Record OrderBookDepth10 : Type := mkDepth10 {
  dp_instrument_id : InstrumentId;
  dp_bids : list BookOrder;
  dp_asks : list BookOrder;
  dp_bid_counts : list Z;
  dp_ask_counts : list Z;
  dp_flags : Z;
  dp_sequence : Z;
  dp_ts_event : UnixNanos;
  dp_ts_init : UnixNanos;
}.

Record QuoteTick : Type := mkQuote {
  qt_instrument_id : InstrumentId;
  qt_bid_price : Price;
  qt_ask_price : Price;
  qt_bid_size : Quantity;
  qt_ask_size : Quantity;
  qt_ts_event : UnixNanos;
  qt_ts_init : UnixNanos;
}.

Record TradeTick : Type := mkTrade {
  tt_instrument_id : InstrumentId;
  tt_price : Price;
  tt_size : Quantity;
  tt_aggressor_side : AggressorSide;
  tt_trade_id : TradeId;
  tt_ts_event : UnixNanos;
  tt_ts_init : UnixNanos;
}.

(** The constructors of the messages and the hash of [ahash] are code outside
    the sources; what the book relies on is stated as laws. *)
Class BookDataApi : Type := {
  book_order_new : OrderSide -> Price -> Quantity -> Z -> BookOrder;
  delta_new : forall {E}, InstrumentId -> BookAction -> BookOrder -> Z -> Z -> UnixNanos ->
    UnixNanos -> outcome E OrderBookDelta;
  delta_clear : InstrumentId -> Z -> UnixNanos -> UnixNanos -> OrderBookDelta;
  deltas_new : forall {E}, InstrumentId -> list OrderBookDelta -> outcome E OrderBookDeltas;
  quote_tick_new : forall {E}, InstrumentId -> Price -> Price -> Quantity -> Quantity ->
    UnixNanos -> UnixNanos -> outcome E QuoteTick;
  hash_one : Z -> Z;
}.
Class BookDataLaws `{M : Mode} `{BookDataApi} : Prop := {
  book_order_new_eq s p q id : book_order_new s p q id = mkBookOrder s p q id;
  delta_new_eq E i a o f s te ti :
    qty_is_positive (bo_size o) = true ->
    delta_new (E := E) i a o f s te ti = Ok (mkDelta i a o f s te ti);
  delta_clear_eq i s te ti :
    dl_instrument_id (delta_clear i s te ti) = i /\ dl_action (delta_clear i s te ti) = ActClear /\
    dl_sequence (delta_clear i s te ti) = s /\ dl_ts_event (delta_clear i s te ti) = te;
  deltas_new_eq E i ds : ds <> [] -> deltas_new (E := E) i ds = Ok (mkDeltas i ds);
}.

(** *** Errors *)

Inductive InvalidBookOperation : Type :=
  | OpPreProcessOrder (t : BookType) | OpAdd (t : BookType) | OpUpdate (t : BookType).
Inductive BookIntegrityError : Type :=
  | OrderNotFound (order_id sequence : Z) (ts_event : UnixNanos)
  | IntegrityNoOrderSide
  | OrderNotFoundForSideResolution (order_id : Z)
  | OrdersCrossed (bid ask : BookPrice)
  | TooManyOrders (side : OrderSide) (count : Z)
  | TooManyLevels (side : OrderSide) (count : Z)
  | InstrumentMismatch (book delta : InstrumentId).

Record OrderBook : Type := mkBook {
  ob_instrument_id : InstrumentId;
  ob_book_type : BookType;
  ob_sequence : Z;
  ob_ts_last : UnixNanos;
  ob_update_count : Z;
  ob_bids : BookLadder;
  ob_asks : BookLadder;
}.
#[export] Instance book_eta : Eta OrderBook := fun b =>
  mkBook (ob_instrument_id b) (ob_book_type b) (ob_sequence b) (ob_ts_last b)
    (ob_update_count b) (ob_bids b) (ob_asks b).

Section Book.
Context `{M : Mode} `{B : BookOrderApi} `{D : BookDataApi}.

(** *** Order ids by book type *)

Definition price_to_order_id (price_raw : Z) : Z := hash_one price_raw.
Definition price_based_order_id (order : BookOrder) : Z :=
  price_to_order_id (p_raw (bo_price order)).
Definition pre_process_order (book_type : BookType) (order : BookOrder) (flags : Z) : BookOrder :=
  match book_type with
  | L1_MBP => order <| bo_order_id := order_side_repr (bo_side order) |>
  | L2_MBP => order <| bo_order_id := price_based_order_id order |>
  | L3_MBO =>
      if flag_matches F_TOB flags then order <| bo_order_id := order_side_repr (bo_side order) |>
      else if flag_matches F_MBP flags then order <| bo_order_id := price_based_order_id order |>
      else order
  end.

(** *** State changes *)

Definition book_new (instrument_id : InstrumentId) (book_type : BookType) : OrderBook :=
  mkBook instrument_id book_type 0 0 0 (ladder_new SBuy book_type) (ladder_new SSell book_type).

Definition book_reset (self : OrderBook) : OrderBook :=
  self <| ob_bids := ladder_clear (ob_bids self) |> <| ob_asks := ladder_clear (ob_asks self) |>
       <| ob_sequence := 0 |> <| ob_ts_last := 0 |> <| ob_update_count := 0 |>.

(** The warnings of [increment] are log output. *)
Definition increment (self : OrderBook) (sequence : Z) (ts_event : UnixNanos) : OrderBook :=
  self <| ob_sequence := Z.max sequence (ob_sequence self) |>
       <| ob_ts_last := Z.max ts_event (ob_ts_last self) |>
       <| ob_update_count := saturate U64 (ob_update_count self + 1) |>.

Definition on_side {E} (self : OrderBook) (side : OrderSideSpecified)
    (f : BookLadder -> outcome E BookLadder) : outcome E OrderBook :=
  match side with
  | SBuy => l ← f (ob_bids self); Ok (self <| ob_bids := l |>)
  | SSell => l ← f (ob_asks self); Ok (self <| ob_asks := l |>)
  end.

Definition book_add {E} (self : OrderBook) (order : BookOrder) (flags sequence : Z)
    (ts_event : UnixNanos) : outcome E OrderBook :=
  let order := pre_process_order (ob_book_type self) order flags in
  side ← as_specified (bo_side order);
  self ← on_side self side (fun l => ladder_add l order flags);
  Ok (increment self sequence ts_event).
Definition book_update {E} (self : OrderBook) (order : BookOrder) (flags sequence : Z)
    (ts_event : UnixNanos) : outcome E OrderBook :=
  let order := pre_process_order (ob_book_type self) order flags in
  side ← as_specified (bo_side order);
  self ← on_side self side (fun l => ladder_update l order flags);
  Ok (increment self sequence ts_event).
Definition book_delete {E} (self : OrderBook) (order : BookOrder) (flags sequence : Z)
    (ts_event : UnixNanos) : outcome E OrderBook :=
  let order := pre_process_order (ob_book_type self) order flags in
  side ← as_specified (bo_side order);
  self ← on_side self side (fun l => ladder_delete l order);
  Ok (increment self sequence ts_event).

Definition clear_bids (self : OrderBook) (sequence : Z) (ts_event : UnixNanos) : OrderBook :=
  increment (self <| ob_bids := ladder_clear (ob_bids self) |>) sequence ts_event.
Definition clear_asks (self : OrderBook) (sequence : Z) (ts_event : UnixNanos) : OrderBook :=
  increment (self <| ob_asks := ladder_clear (ob_asks self) |>) sequence ts_event.
Definition book_clear (self : OrderBook) (sequence : Z) (ts_event : UnixNanos) : OrderBook :=
  increment (self <| ob_bids := ladder_clear (ob_bids self) |>
                  <| ob_asks := ladder_clear (ob_asks self) |>) sequence ts_event.

(** *** Top of book *)

Definition has_orders (l : BookLadder) : bool :=
  match top l with Some lv => negb (level_is_empty lv) | None => false end.
Definition has_bid (self : OrderBook) : bool := has_orders (ob_bids self).
Definition has_ask (self : OrderBook) : bool := has_orders (ob_asks self).
Definition best_bid_price (self : OrderBook) : option Price :=
  (fun lv => bp_value (lv_price lv)) <$> top (ob_bids self).
Definition best_ask_price (self : OrderBook) : option Price :=
  (fun lv => bp_value (lv_price lv)) <$> top (ob_asks self).
Definition best_bid_size (self : OrderBook) : option Quantity :=
  top (ob_bids self) ≫= fun lv => bo_size <$> level_first lv.
Definition best_ask_size (self : OrderBook) : option Quantity :=
  top (ob_asks self) ≫= fun lv => bo_size <$> level_first lv.

Definition spread {E} (self : OrderBook) : outcome E (option f64) :=
  match best_ask_price self, best_bid_price self with
  | Some ask, Some bid =>
      a ← price_as_f64 ask; b ← price_as_f64 bid; Ok (Some (F64.sub a b))
  | _, _ => Ok None
  end.

(** *** Deltas and snapshots *)

Definition resolve_no_side_order (self : OrderBook) (order : BookOrder)
  : outcome BookIntegrityError BookOrder :=
  let cached :=
    match ld_cache (ob_bids self) !! bo_order_id order with
    | Some p => Some p
    | None => ld_cache (ob_asks self) !! bo_order_id order
    end in
  resolved_side ← ok_or ((fun p => as_order_side (bp_side p)) <$> cached)
                    (OrderNotFoundForSideResolution (bo_order_id order));
  Ok (order <| bo_side := resolved_side |>).

Definition is_no_side (s : OrderSide) : bool := bool_decide (s = NoOrderSide).

(** The checks after the side has been resolved, and the dispatch. *)
Definition dispatch_delta (self : OrderBook) (delta : OrderBookDelta) (order : BookOrder)
  : outcome BookIntegrityError OrderBook :=
  if is_no_side (bo_side order) && negb (bool_decide (dl_action delta = ActClear))
  then Err IntegrityNoOrderSide
  else
    let flags := dl_flags delta in
    let sequence := dl_sequence delta in
    let ts_event := dl_ts_event delta in
    match dl_action delta with
    | ActAdd => book_add self order flags sequence ts_event
    | ActUpdate => book_update self order flags sequence ts_event
    | ActDelete => book_delete self order flags sequence ts_event
    | ActClear => Ok (book_clear self sequence ts_event)
    end.

(** An error is returned before the book is changed. *)
Definition apply_delta_unchecked (self : OrderBook) (delta : OrderBookDelta)
  : outcome BookIntegrityError OrderBook :=
  let order := dl_order delta in
  if is_no_side (bo_side order) && negb (bo_order_id order =? 0) then
    match resolve_no_side_order self order with
    | Ok resolved => dispatch_delta self delta resolved
    | Err (OrderNotFoundForSideResolution _) =>
        match dl_action delta with
        | ActAdd => Err IntegrityNoOrderSide
        | ActUpdate | ActDelete => Ok self
        | ActClear => dispatch_delta self delta order
        end
    | Err e => Err e
    | Panic => Panic
    end
  else dispatch_delta self delta order.
Definition apply_delta (self : OrderBook) (delta : OrderBookDelta)
  : outcome BookIntegrityError OrderBook :=
  if bool_decide (dl_instrument_id delta = ob_instrument_id self)
  then apply_delta_unchecked self delta
  else Err (InstrumentMismatch (ob_instrument_id self) (dl_instrument_id delta)).

(** The deltas before a failing one stay applied. *)
Fixpoint apply_each (self : OrderBook) (deltas : list OrderBookDelta)
  : OrderBook * outcome BookIntegrityError unit :=
  match deltas with
  | [] => (self, Ok tt)
  | delta :: deltas =>
      match apply_delta_unchecked self delta with
      | Ok self => apply_each self deltas
      | Err e => (self, Err e)
      | Panic => (self, Panic)
      end
  end.
Definition apply_deltas_unchecked (self : OrderBook) (deltas : OrderBookDeltas)
  : OrderBook * outcome BookIntegrityError unit := apply_each self (ds_deltas deltas).
Definition apply_deltas (self : OrderBook) (deltas : OrderBookDeltas)
  : OrderBook * outcome BookIntegrityError unit :=
  if bool_decide (ds_instrument_id deltas = ob_instrument_id self)
  then apply_deltas_unchecked self deltas
  else (self, Err (InstrumentMismatch (ob_instrument_id self) (ds_instrument_id deltas))).

(** [bids(None)] and [asks(None)]: the levels in priority order. *)
Definition levels_of (l : BookLadder) : list BookLevel := snd <$> ld_levels l.
Definition orders_of (l : BookLadder) : list BookOrder := concat (get_orders <$> levels_of l).

(** One [Add] delta per order, the [total]-th flagged as the last. *)
Fixpoint add_deltas {E} (self : OrderBook) (orders : list BookOrder) (count total : Z)
    (ts_event ts_init : UnixNanos) : outcome E (list OrderBookDelta) :=
  match orders with
  | [] => Ok []
  | order :: orders =>
      let count := count + 1 in
      let flags := if count =? total then Z.lor (flag_repr F_SNAPSHOT) (flag_repr F_LAST)
                   else flag_repr F_SNAPSHOT in
      d ← delta_new (ob_instrument_id self) ActAdd order flags (ob_sequence self) ts_event ts_init;
      ds ← add_deltas self orders count total ts_event ts_init;
      Ok (d :: ds)
  end.
Definition to_deltas {E} (self : OrderBook) (ts_event ts_init : UnixNanos)
  : outcome E OrderBookDeltas :=
  let count l := foldl Z.add 0 (level_len <$> levels_of l) in
  let total := count (ob_bids self) + count (ob_asks self) in
  let clear := delta_clear (ob_instrument_id self) (ob_sequence self) ts_event ts_init in
  let clear := if total =? 0
               then clear <| dl_flags := Z.lor (dl_flags clear) (flag_repr F_LAST) |> else clear in
  let bids := orders_of (ob_bids self) in
  adds ← add_deltas self (bids ++ orders_of (ob_asks self)) 0 total ts_event ts_init;
  deltas_new (ob_instrument_id self) (clear :: adds).

(** The orders of one side of a depth snapshot; padding entries and orders of
    the other side are skipped. *)
Fixpoint add_depth_side {E} (book_type : BookType) (side : OrderSide) (orders : list BookOrder)
    (flags : Z) (l : BookLadder) : outcome E BookLadder :=
  match orders with
  | [] => Ok l
  | order :: orders =>
      if is_no_side (bo_side order) || negb (qty_is_positive (bo_size order))
      then add_depth_side book_type side orders flags l
      else if negb (bool_decide (bo_side order = side))
      then add_depth_side book_type side orders flags l
      else
        l ← ladder_add l (pre_process_order book_type order flags) flags;
        add_depth_side book_type side orders flags l
  end.
Definition apply_depth_unchecked (self : OrderBook) (depth : OrderBookDepth10)
  : outcome BookIntegrityError OrderBook :=
  let bt := ob_book_type self in
  bids ← add_depth_side bt Buy (dp_bids depth) (dp_flags depth) (ladder_clear (ob_bids self));
  asks ← add_depth_side bt Sell (dp_asks depth) (dp_flags depth) (ladder_clear (ob_asks self));
  Ok (increment (self <| ob_bids := bids |> <| ob_asks := asks |>)
        (dp_sequence depth) (dp_ts_event depth)).
Definition apply_depth (self : OrderBook) (depth : OrderBookDepth10)
  : outcome BookIntegrityError OrderBook :=
  if bool_decide (dp_instrument_id depth = ob_instrument_id self)
  then apply_depth_unchecked self depth
  else Err (InstrumentMismatch (ob_instrument_id self) (dp_instrument_id depth)).

(** *** Crossed books *)

Fixpoint take_prices (p : BookPrice -> bool) (levels : list (BookPrice * BookLevel))
  : list BookPrice :=
  match levels with
  | [] => []
  | (k, _) :: levels => if p k then k :: take_prices p levels else []
  end.
Fixpoint remove_levels {E} (l : BookLadder) (prices : list BookPrice)
  : outcome E (BookLadder * list BookLevel) :=
  match prices with
  | [] => Ok (l, [])
  | price :: prices =>
      '(l, level) ← remove_level l price;
      '(l, levels) ← remove_levels l prices;
      Ok (l, match level with Some lv => lv :: levels | None => levels end)
  end.
Definition clears_side (side : option OrderSide) (s : OrderSide) : bool :=
  match side, s with
  | Some Buy, Buy | Some Sell, Sell => true
  | Some Buy, _ | Some Sell, _ => false
  | _, _ => true
  end.
Definition clear_stale_levels {E} (self : OrderBook) (side : option OrderSide)
  : outcome E (OrderBook * option (list BookLevel)) :=
  if bool_decide (ob_book_type self = L1_MBP) then Ok (self, None)
  else
    match best_bid_price self, best_ask_price self with
    | Some best_bid, Some best_ask =>
        if price_leb best_bid best_ask then Ok (self, None)
        else
          let ask_prices :=
            if clears_side side Sell
            then take_prices (fun bp => price_leb (bp_value bp) best_bid) (ld_levels (ob_asks self))
            else [] in
          let bid_prices :=
            if clears_side side Buy
            then take_prices (fun bp => price_geb (bp_value bp) best_ask) (ld_levels (ob_bids self))
            else [] in
          match ask_prices, bid_prices with
          | [], [] => Ok (self, None)
          | _, _ =>
              '(bids, bid_levels) ← remove_levels (ob_bids self) bid_prices;
              '(asks, ask_levels) ← remove_levels (ob_asks self) ask_prices;
              let self := self <| ob_bids := bids |> <| ob_asks := asks |> in
              let self := increment self (ob_sequence self) (ob_ts_last self) in
              Ok (self, match bid_levels ++ ask_levels with [] => None | removed => Some removed end)
          end
    | _, _ => Ok (self, None)
    end.

(** *** Top of book updates *)

(** [update_book_bid] and [update_book_ask], on the ladder of their side. *)
Definition replace_top {E} (l : BookLadder) (order : BookOrder) : outcome E BookLadder :=
  l ← match top l ≫= level_first with
      | Some o => remove_order l (bo_order_id o)
      | None => Ok l
      end;
  ladder_add l order 0.
Definition update_book_bid {E} (self : OrderBook) (order : BookOrder) : outcome E OrderBook :=
  l ← replace_top (ob_bids self) order; Ok (self <| ob_bids := l |>).
Definition update_book_ask {E} (self : OrderBook) (order : BookOrder) : outcome E OrderBook :=
  l ← replace_top (ob_asks self) order; Ok (self <| ob_asks := l |>).

Definition update_quote_tick (self : OrderBook) (quote : QuoteTick)
  : outcome InvalidBookOperation OrderBook :=
  if negb (bool_decide (ob_book_type self = L1_MBP)) then Err (OpUpdate (ob_book_type self))
  else if qt_ts_event quote <? ob_ts_last self then Ok self
  else
    let bid := book_order_new Buy (qt_bid_price quote) (qt_bid_size quote) (order_side_repr Buy) in
    let ask := book_order_new Sell (qt_ask_price quote) (qt_ask_size quote) (order_side_repr Sell) in
    self ← update_book_bid self bid;
    self ← update_book_ask self ask;
    Ok (increment self (saturate U64 (ob_sequence self + 1)) (qt_ts_event quote)).
Definition update_trade_tick (self : OrderBook) (trade : TradeTick)
  : outcome InvalidBookOperation OrderBook :=
  if negb (bool_decide (ob_book_type self = L1_MBP)) then Err (OpUpdate (ob_book_type self))
  else if tt_ts_event trade <? ob_ts_last self then Ok self
  else
    let bid := book_order_new Buy (tt_price trade) (tt_size trade) (order_side_repr Buy) in
    let ask := book_order_new Sell (tt_price trade) (tt_size trade) (order_side_repr Sell) in
    self ← update_book_bid self bid;
    self ← update_book_ask self ask;
    Ok (increment self (saturate U64 (ob_sequence self + 1)) (tt_ts_event trade)).

(** *** Analysis of one side *)

(** An incoming order of side [side] at [price] does not reach a level. *)
Definition out_of_reach (side : OrderSideSpecified) (price : Price) (bp : BookPrice) : bool :=
  match side with
  | SBuy => price_gtb (bp_value bp) price
  | SSell => price_ltb (bp_value bp) price
  end.
Fixpoint matched_size {E} (price : Price) (side : OrderSideSpecified)
    (levels : list (BookPrice * BookLevel)) (acc : f64) : outcome E f64 :=
  match levels with
  | [] => Ok acc
  | (bp, level) :: levels =>
      if out_of_reach side price bp then Ok acc
      else s ← level_size level; matched_size price side levels (F64.add acc s)
  end.
Definition quantity_for_price {E} (price : Price) (side : OrderSideSpecified)
    (levels : list (BookPrice * BookLevel)) : outcome E f64 :=
  matched_size price side levels F64.zero.
Fixpoint get_levels_for_price {E} (price : Price) (side : OrderSideSpecified)
    (levels : list (BookPrice * BookLevel)) (size_precision : Z)
  : outcome E (list (Price * Quantity)) :=
  match levels with
  | [] => Ok []
  | (bp, level) :: levels =>
      if out_of_reach side price bp then Ok []
      else
        s ← level_size level;
        q ← qty_new s size_precision;
        rest ← get_levels_for_price price side levels size_precision;
        Ok ((bp_value (lv_price level), q) :: rest)
  end.

(** [qty.raw - cumulative] is a wrapping subtraction. *)
Definition size_this_level (qty : Quantity) (cumulative : Z) (level : BookLevel) : Z :=
  Z.min (size_raw level) (wrap QuantityRaw (q_raw qty - cumulative)).
Fixpoint avg_px_loop {E} (qty : Quantity) (levels : list (BookPrice * BookLevel))
    (cumulative_size_raw : Z) (cumulative_value : f64) : outcome E (Z * f64) :=
  match levels with
  | [] => Ok (cumulative_size_raw, cumulative_value)
  | (bp, level) :: levels =>
      let size := size_this_level qty cumulative_size_raw level in
      let cumulative_size_raw := wrap QuantityRaw (cumulative_size_raw + size) in
      p ← price_as_f64 (bp_value bp);
      let cumulative_value := F64.add cumulative_value (F64.mul p (F64.of_Z size)) in
      if q_raw qty <=? cumulative_size_raw then Ok (cumulative_size_raw, cumulative_value)
      else avg_px_loop qty levels cumulative_size_raw cumulative_value
  end.
Definition avg_px_for_quantity {E} (qty : Quantity) (levels : list (BookPrice * BookLevel))
  : outcome E f64 :=
  '(size, value) ← avg_px_loop qty levels 0 F64.zero;
  Ok (if size =? 0 then F64.zero else F64.div value (F64.of_Z size)).

Fixpoint worst_px_loop (qty : Quantity) (levels : list (BookPrice * BookLevel))
    (cumulative_size_raw : Z) (worst_price : option Price) : Z * option Price :=
  match levels with
  | [] => (cumulative_size_raw, worst_price)
  | (bp, level) :: levels =>
      let size := size_this_level qty cumulative_size_raw level in
      if size =? 0 then worst_px_loop qty levels cumulative_size_raw worst_price
      else
        let cumulative_size_raw := wrap QuantityRaw (cumulative_size_raw + size) in
        let worst_price := Some (bp_value bp) in
        if q_raw qty <=? cumulative_size_raw then (cumulative_size_raw, worst_price)
        else worst_px_loop qty levels cumulative_size_raw worst_price
  end.
Definition worst_px_for_quantity (qty : Quantity) (levels : list (BookPrice * BookLevel))
  : option Price :=
  let '(size, worst) := worst_px_loop qty levels 0 None in
  if size =? 0 then None else worst.

Fixpoint exposure_loop {E} (target : f64) (levels : list (BookPrice * BookLevel))
    (cumulative_exposure : f64) (cumulative_size_raw : Z) (final_price : f64)
  : outcome E (f64 * Z * f64) :=
  match levels with
  | [] => Ok (cumulative_exposure, cumulative_size_raw, final_price)
  | (bp, level) :: levels =>
      price ← price_as_f64 (bp_value bp);
      if F64.eqb price F64.zero
      then exposure_loop target levels cumulative_exposure cumulative_size_raw final_price
      else
        let level_exposure := F64.mul price (F64.of_Z (size_raw level)) in
        let this := F64.min level_exposure (F64.sub target cumulative_exposure) in
        let size := F64.to_int QuantityRaw (F64.floor (F64.div this price)) in
        if size =? 0
        then exposure_loop target levels cumulative_exposure cumulative_size_raw final_price
        else
          let cumulative_exposure := F64.add cumulative_exposure (F64.mul price (F64.of_Z size)) in
          let cumulative_size_raw := wrap QuantityRaw (cumulative_size_raw + size) in
          if F64.geb cumulative_exposure target
          then Ok (cumulative_exposure, cumulative_size_raw, price)
          else exposure_loop target levels cumulative_exposure cumulative_size_raw price
  end.
Definition avg_px_qty_for_exposure {E} (target_exposure : Quantity)
    (levels : list (BookPrice * BookLevel)) : outcome E (f64 * f64 * f64) :=
  first ← match levels with
          | [] => Ok F64.zero
          | (bp, _) :: _ => price_as_f64 (bp_value bp)
          end;
  '(exposure, size, final) ←
    exposure_loop (F64.of_Z (q_raw target_exposure)) levels F64.zero 0 first;
  Ok (if size =? 0 then (F64.zero, F64.zero, final)
      else (F64.div exposure (F64.of_Z size), F64.div (F64.of_Z size) FIXED_SCALAR, final)).

(** *** Queries of the book: an incoming buy order meets the asks *)

Definition opposite_ladder (self : OrderBook) (side : OrderSideSpecified) : BookLadder :=
  match side with SBuy => ob_asks self | SSell => ob_bids self end.
Definition get_avg_px_for_quantity {E} (self : OrderBook) (qty : Quantity) (order_side : OrderSide)
  : outcome E f64 :=
  side ← as_specified order_side;
  avg_px_for_quantity qty (ld_levels (opposite_ladder self side)).
Definition get_worst_px_for_quantity {E} (self : OrderBook) (qty : Quantity)
    (order_side : OrderSide) : outcome E (option Price) :=
  side ← as_specified order_side;
  Ok (worst_px_for_quantity qty (ld_levels (opposite_ladder self side))).
Definition get_avg_px_qty_for_exposure {E} (self : OrderBook) (target_exposure : Quantity)
    (order_side : OrderSide) : outcome E (f64 * f64 * f64) :=
  side ← as_specified order_side;
  avg_px_qty_for_exposure target_exposure (ld_levels (opposite_ladder self side)).
Definition get_quantity_for_price {E} (self : OrderBook) (price : Price) (order_side : OrderSide)
  : outcome E f64 :=
  side ← as_specified order_side;
  quantity_for_price price side (ld_levels (opposite_ladder self side)).
Definition get_quantity_at_level {E} (self : OrderBook) (price : Price) (order_side : OrderSide)
    (size_precision : Z) : outcome E Quantity :=
  side ← as_specified order_side;
  let book_price := mkBookPrice price (opposite side) in
  found ← levels_get book_price (ld_levels (opposite_ladder self side));
  zero ← qty_zero size_precision;
  match found with
  | Some level => qty_from_raw (size_raw level) size_precision
  | None => Ok zero
  end.
Definition book_simulate_fills {E} (self : OrderBook) (order : BookOrder)
  : outcome E (list (Price * Quantity)) :=
  side ← as_specified (bo_side order);
  simulate_fills (opposite_ladder self side) order.
Definition get_all_crossed_levels {E} (self : OrderBook) (order_side : OrderSide) (price : Price)
    (size_precision : Z) : outcome E (list (Price * Quantity)) :=
  side ← as_specified order_side;
  get_levels_for_price price side (ld_levels (opposite_ladder self side)) size_precision.

(** *** Integrity *)

Definition check_level_orders (side : OrderSide) (l : BookLadder) : outcome BookIntegrityError unit :=
  match List.find (fun lv => 1 <? level_len lv) (levels_of l) with
  | Some lv => Err (TooManyOrders side (level_len lv))
  | None => Ok tt
  end.
Definition book_check_integrity (book : OrderBook) : outcome BookIntegrityError unit :=
  _ ← match ob_book_type book with
      | L1_MBP =>
          _ ← err_if (1 <? ladder_len (ob_bids book)) (TooManyLevels Buy (ladder_len (ob_bids book)));
          err_if (1 <? ladder_len (ob_asks book)) (TooManyLevels Sell (ladder_len (ob_asks book)))
      | L2_MBP =>
          _ ← check_level_orders Buy (ob_bids book);
          check_level_orders Sell (ob_asks book)
      | L3_MBO => Ok tt
      end;
  match top (ob_bids book), top (ob_asks book) with
  | Some bid, Some ask =>
      err_if (price_gtb (bp_value (lv_price bid)) (bp_value (lv_price ask)))
        (OrdersCrossed (lv_price bid) (lv_price ask))
  | _, _ => Ok tt
  end.

(** *** Quotes from deltas *)

(** [Option<Price>] equality compares raw values. *)
Definition opt_price_eqb (a b : option Price) : bool :=
  match a, b with
  | Some p, Some q => price_eqb p q
  | None, None => true
  | _, _ => false
  end.
Definition make_quote {E} (instrument_id : InstrumentId) (book : OrderBook) (bid_px ask_px : Price)
    (delta : OrderBookDelta) : outcome E QuoteTick :=
  bid_level ← expect (top (ob_bids book));
  ask_level ← expect (top (ob_asks book));
  first ← expect (level_first bid_level);
  let precision := q_precision (bo_size first) in
  bid_sz ← qty_from_raw (size_raw bid_level) precision;
  ask_sz ← qty_from_raw (size_raw ask_level) precision;
  quote_tick_new instrument_id bid_px ask_px bid_sz ask_sz (dl_ts_event delta) (dl_ts_init delta).
Fixpoint quotes_loop {E} (instrument_id : InstrumentId) (book : OrderBook)
    (last_bid last_ask : option Price) (deltas : list OrderBookDelta)
  : outcome E (list QuoteTick) :=
  match deltas with
  | [] => Ok []
  | delta :: deltas =>
      book ← unwrap_ok (apply_delta book delta);
      let bid := best_bid_price book in
      let ask := best_ask_price book in
      match bid, ask with
      | Some bid_px, Some ask_px =>
          if opt_price_eqb bid last_bid && opt_price_eqb ask last_ask
          then quotes_loop instrument_id book last_bid last_ask deltas
          else
            quote ← make_quote instrument_id book bid_px ask_px delta;
            quotes ← quotes_loop instrument_id book bid ask deltas;
            Ok (quote :: quotes)
      | _, _ => quotes_loop instrument_id book None None deltas
      end
  end.
Definition deltas_to_quotes {E} (book_type : BookType) (deltas : list OrderBookDelta)
  : outcome E (list QuoteTick) :=
  match deltas with
  | [] => Panic
  | delta :: _ =>
      quotes_loop (dl_instrument_id delta) (book_new (dl_instrument_id delta) book_type)
        None None deltas
  end.
End Book.
