(* ===== verification/BookSpec.v ===== *)
(** * Refinement of the order book

    The content of a book is a [view]: for each side a partial map from order
    id to order.  [spec_delta] says what a delta means on views; the book's
    operations are proved to implement it, and to preserve the invariant
    [book_wf], on [L2_MBP] and [L3_MBO] books. *)

From stdpp Require Import base numbers list gmap sets strings.
From Stdlib Require Import ZArith Lia Sorted.
From S2P Require Import Prelude F64 Fixed Price Quantity Enums Money OrderEvents Maps Ladder LadderInv Book.

Definition view : Type := OrderSideSpecified -> Z -> option BookOrder.
#[export] Instance view_equiv : Equiv view := fun v w => forall s id, v s id = w s id.
#[export] Instance view_equivalence : Equivalence (≡@{view}).
Proof.
  split; [by intros v s id|by intros v w H s id; rewrite (H s id)|].
  intros u v w H1 H2 s id. by rewrite (H1 s id), (H2 s id).
Qed.

Definition side_ladder (b : OrderBook) (s : OrderSideSpecified) : BookLadder :=
  match s with SBuy => ob_bids b | SSell => ob_asks b end.
Definition view_of (b : OrderBook) : view := fun s => order_at (side_ladder b s).

Section Spec.
Context `{M : Mode} `{B : BookOrderApi} `{L : !BookOrderLaws} `{D : BookDataApi}.
Implicit Types (b : OrderBook) (o : BookOrder) (d : OrderBookDelta) (v : view) (bt : BookType).

(** ** What a delta means *)

(** A delta without a side names an order by id; the bids are searched first. *)
Definition spec_side v o : option OrderSideSpecified :=
  match bo_side o with
  | Buy => Some SBuy
  | Sell => Some SSell
  | NoOrderSide =>
      if bo_order_id o =? 0 then None
      else match v SBuy (bo_order_id o), v SSell (bo_order_id o) with
           | Some _, _ => Some SBuy
           | None, Some _ => Some SSell
           | None, None => None
           end
  end.

(** The order that reaches the ladder. *)
Definition spec_order bt d (s : OrderSideSpecified) : BookOrder :=
  pre_process_order bt ((dl_order d) <| bo_side := as_order_side s |>) (dl_flags d).

Definition spec_action (a : BookAction) o (f : Z -> option BookOrder) : Z -> option BookOrder :=
  match a with
  | ActAdd => if qty_is_positive (bo_size o) then map_insert (bo_order_id o) o f else f
  | ActUpdate => if q_raw (bo_size o) =? 0 then map_delete (bo_order_id o) f
                 else map_insert (bo_order_id o) o f
  | ActDelete => map_delete (bo_order_id o) f
  | ActClear => fun _ => None
  end.

Definition on_view v (s : OrderSideSpecified) (f : Z -> option BookOrder) : view :=
  fun s' => if decide (s' = s) then f else v s'.

Definition spec_delta bt d v : outcome BookIntegrityError view :=
  match dl_action d with
  | ActClear => Ok (fun _ _ => None)
  | a =>
      match spec_side v (dl_order d) with
      | Some s => Ok (on_view v s (spec_action a (spec_order bt d s) (v s)))
      | None =>
          match a with
          | ActAdd => Err IntegrityNoOrderSide
          | _ => if bo_order_id (dl_order d) =? 0 then Err IntegrityNoOrderSide else Ok v
          end
      end
  end.

(** ** The invariant *)

(** The hash gives different ids to the prices of a finite set. *)
Definition collision_free (prices : list Z) : Prop :=
  forall p q, p ∈ prices -> q ∈ prices -> price_to_order_id p = price_to_order_id q -> p = q.

(** On an [L2_MBP] ladder an order's id is the hash of its price. *)
Definition mbp_ids (prices : list Z) (l : BookLadder) : Prop :=
  forall id o, order_at l id = Some o ->
    id = price_based_order_id o /\ p_raw (bo_price o) ∈ prices.

Record side_wf (prices : list Z) (bt : BookType) (s : OrderSideSpecified) (l : BookLadder) : Prop := {
  sw_ok : ladder_ok l;
  sw_side : ld_side l = s;
  sw_type : ld_book_type l = bt;
  sw_ids : bt = L2_MBP -> mbp_ids prices l;
}.
Definition book_wf (prices : list Z) b : Prop :=
  forall s, side_wf prices (ob_book_type b) s (side_ladder b s).

(** What the venue owes: an update or deletion is unrestricted up to the
    undefined size; an addition re-uses an id only at its price; prices come
    from the given set. *)
Definition order_admissible (prices : list Z) bt (a : BookAction) o (f : Z -> option BookOrder)
  : Prop :=
  match a with
  | ActAdd | ActUpdate =>
      size_defined o /\
      match bt with
      | L2_MBP => p_raw (bo_price o) ∈ prices
      | _ => a = ActAdd -> forall o', f (bo_order_id o) = Some o' ->
               p_raw (bo_price o') = p_raw (bo_price o)
      end
  | ActDelete | ActClear => True
  end.
Definition delta_admissible (prices : list Z) bt d v : Prop :=
  forall s, spec_side v (dl_order d) = Some s ->
    order_admissible prices bt (dl_action d) (spec_order bt d s) (v s).

(** ** Runs of deltas *)

Fixpoint spec_deltas bt (ds : list OrderBookDelta) v : view * outcome BookIntegrityError unit :=
  match ds with
  | [] => (v, Ok tt)
  | d :: ds =>
      match spec_delta bt d v with
      | Ok v => spec_deltas bt ds v
      | Err e => (v, Err e)
      | Panic => (v, Panic)
      end
  end.
Fixpoint stream_admissible (prices : list Z) bt (ds : list OrderBookDelta) v : Prop :=
  match ds with
  | [] => True
  | d :: ds => delta_admissible prices bt d v /\
      match spec_delta bt d v with Ok v => stream_admissible prices bt ds v | _ => True end
  end.

(** ** Lemmas *)

Lemma order_at_inv l id o :
  ladder_ok l -> order_at l id = Some o ->
  bo_order_id o = id /\ qty_is_positive (bo_size o) = true /\
  bo_side o = as_order_side (ld_side l) /\
  exists p lv, ld_cache l !! id = Some p /\ bp_side p = ld_side l /\
    bt_get bp_key p (ld_levels l) = Some lv /\ (id, o) ∈ lv_orders lv /\
    p_raw (bp_value p) = p_raw (bo_price o).
Proof.
  intros Hok Ho. unfold order_at in Ho.
  destruct (ld_cache l !! id) as [p|] eqn:Hp; [|done]. cbn in Ho.
  destruct (lo_cache _ Hok _ _ Hp) as (Hs & lv & Hlv & _). rewrite Hlv in Ho. cbn in Ho.
  destruct (levels_get_elem l p lv Hok Hs Hlv) as (k & Hk & _ & Hlk & Hraw).
  assert (Hin : (id, o) ∈ lv_orders lv).
  { unfold im_get in Ho. apply fmap_Some in Ho as ([j o'] & Hf & ->).
    apply List.find_some in Hf as [Hf1 Hf2]. cbn in *. apply Z.eqb_eq in Hf2 as ->.
    by apply list_elem_of_In. }
  pose proof (lk_orders _ _ _ Hlk) as Hall. rewrite Forall_forall in Hall.
  destruct (Hall _ Hin) as (H1 & H2 & H3 & H4). cbn in *.
  split_and!; [done..|]. exists p, lv. split_and!; try done. congruence.
Qed.

Lemma order_at_None l id : ladder_ok l -> order_at l id = None <-> ld_cache l !! id = None.
Proof.
  intros Hok. pose proof (order_at_cached l id Hok) as H.
  rewrite !eq_None_not_Some. tauto.
Qed.

Lemma pre_process_fields bt o flags :
  bo_side (pre_process_order bt o flags) = bo_side o /\
  bo_price (pre_process_order bt o flags) = bo_price o /\
  bo_size (pre_process_order bt o flags) = bo_size o.
Proof. unfold pre_process_order. destruct bt; [done..|]. by repeat case_match. Qed.

Lemma spec_order_side bt d s : bo_side (spec_order bt d s) = as_order_side s.
Proof. unfold spec_order. by destruct (pre_process_fields bt ((dl_order d) <| bo_side := as_order_side s |>) (dl_flags d)) as (-> & _). Qed.

Lemma spec_order_mbp d s :
  bo_order_id (spec_order L2_MBP d s) = price_based_order_id (spec_order L2_MBP d s).
Proof. done. Qed.

Lemma holds_side_wf prices bt s l f l' :
  side_wf prices bt s l -> holds l f l' -> (bt = L2_MBP -> mbp_ids prices l') ->
  side_wf prices bt s l'.
Proof.
  intros [Hok Hs Ht _] [H1 H2 H3 _] Hm. split; [done| |congruence|done]. by rewrite H2.
Qed.

Definition ladder_action {E} (a : BookAction) (l : BookLadder) o (flags : Z) : outcome E BookLadder :=
  match a with
  | ActAdd => ladder_add l o flags
  | ActUpdate => ladder_update l o flags
  | ActDelete => ladder_delete l o
  | ActClear => Ok (ladder_clear l)
  end.

Lemma mbp_ids_action prices l l' a o :
  mbp_ids prices l ->
  (a = ActAdd \/ a = ActUpdate ->
   bo_order_id o = price_based_order_id o /\ p_raw (bo_price o) ∈ prices) ->
  (forall id, order_at l' id = spec_action a o (order_at l) id) -> mbp_ids prices l'.
Proof.
  intros Hm Ho Hl id o'. rewrite Hl. unfold spec_action, map_insert, map_delete.
  repeat case_match; try done; intros [= <-] || intros Hx; subst;
    try (apply (Hm _ _ Hx)); apply Ho; auto.
Qed.

Section Side.
Context (prices : list Z) (bt : BookType) (s : OrderSideSpecified).
Hypothesis Hhash : collision_free prices.
Hypothesis Hbt : bt <> L1_MBP.

Lemma add_same_price l o p :
  side_wf prices bt s l -> (bt = L2_MBP -> bo_order_id o = price_based_order_id o) ->
  order_admissible prices bt ActAdd o (order_at l) ->
  ld_cache l !! bo_order_id o = Some p -> p_raw (bp_value p) = p_raw (bo_price o).
Proof.
  intros [Hok Hs Ht Hm] Hid [_ Hadm] Hp.
  destruct (proj2 (order_at_cached l (bo_order_id o) Hok)) as [o' Ho']; [by rewrite Hp|].
  destruct (order_at_inv l _ o' Hok Ho') as (Hid' & _ & _ & p' & lv & Hp' & _ & _ & _ & Hraw).
  rewrite Hp in Hp'. injection Hp' as <-. rewrite Hraw.
  destruct bt eqn:Ebt; [done| |by apply Hadm].
  destruct (Hm eq_refl _ _ Ho') as [Hh Hin].
  apply Hhash; [done..|]. change (price_based_order_id o' = price_based_order_id o).
  rewrite <- Hh. by apply Hid.
Qed.

Lemma ladder_action_spec {E} a l o flags :
  side_wf prices bt s l -> bo_side o = as_order_side s ->
  (bt = L2_MBP -> bo_order_id o = price_based_order_id o) ->
  order_admissible prices bt a o (order_at l) ->
  exists l', ladder_action (E := E) a l o flags = Ok l' /\ side_wf prices bt s l' /\
    forall id, order_at l' id = spec_action a o (order_at l) id.
Proof.
  intros Hwf Hside Hid Hadm. pose proof Hwf as [Hok Hs Ht Hm].
  assert (Hside' : bo_side o = as_order_side (ld_side l)) by by rewrite Hs.
  assert (Hbt' : ld_book_type l <> L1_MBP) by by rewrite Ht.
  assert (exists l', ladder_action (E := E) a l o flags = Ok l' /\
            holds l (spec_action a o (order_at l)) l') as (l' & Hl' & Hh).
  { destruct a; cbn [ladder_action spec_action].
    - apply ladder_add_spec; try done. intros p. by apply add_same_price.
    - apply ladder_update_spec; try done. by destruct Hadm.
    - by apply remove_order_spec.
    - exists (ladder_clear l). split; [done|]. split; [apply ladder_clear_ok|done..]. }
  exists l'. split_and!; [done| |apply Hh]. apply (holds_side_wf _ _ _ _ _ _ Hwf Hh).
  intros E2. apply (mbp_ids_action prices l l' a o); [by apply Hm| |apply Hh].
  intros Ha. split; [by apply Hid|]. rewrite E2 in Hadm. by destruct Ha; subst; destruct Hadm.
Qed.
End Side.

(** *** Side resolution and dispatch *)

Lemma cache_side prices b s id p :
  book_wf prices b -> ld_cache (side_ladder b s) !! id = Some p -> bp_side p = s.
Proof.
  intros Hwf Hp. destruct (Hwf s) as [Hok Hs _ _].
  destruct (lo_cache _ Hok _ _ Hp) as [-> _]. done.
Qed.

Lemma view_cached prices b s id :
  book_wf prices b ->
  match view_of b s id, ld_cache (side_ladder b s) !! id with
  | Some _, Some p => bp_side p = s
  | None, None => True
  | _, _ => False
  end.
Proof.
  intros Hwf. destruct (Hwf s) as [Hok _ _ _]. unfold view_of.
  destruct (order_at _ id) as [o|] eqn:Eo.
  - destruct (order_at_inv _ _ _ Hok Eo) as (_ & _ & _ & p & lv & Hp & _). rewrite Hp.
    by apply (cache_side prices b s id).
  - apply order_at_None in Eo as ->; done.
Qed.

Lemma resolve_spec prices b o :
  book_wf prices b -> bo_side o = NoOrderSide -> bo_order_id o <> 0 ->
  resolve_no_side_order b o =
    match spec_side (view_of b) o with
    | Some s => Ok (o <| bo_side := as_order_side s |>)
    | None => Err (OrderNotFoundForSideResolution (bo_order_id o))
    end.
Proof.
  intros Hwf Hs Hid. unfold resolve_no_side_order, spec_side.
  rewrite Hs, (proj2 (Z.eqb_neq _ _) Hid).
  pose proof (view_cached prices b SBuy (bo_order_id o) Hwf) as Hb.
  pose proof (view_cached prices b SSell (bo_order_id o) Hwf) as Ha.
  cbn [side_ladder] in Hb, Ha.
  repeat case_match; try done; cbn; by repeat match goal with H : bp_side _ = _ |- _ => rewrite H end.
Qed.

Lemma resolve_cases b o :
  (exists o', resolve_no_side_order b o = Ok o') \/
  resolve_no_side_order b o = Err (OrderNotFoundForSideResolution (bo_order_id o)).
Proof.
  unfold resolve_no_side_order.
  destruct (match ld_cache (ob_bids b) !! bo_order_id o with Some p => _ | None => _ end); cbn; eauto.
Qed.

Lemma clear_dispatch b d o :
  dl_action d = ActClear -> dispatch_delta b d o = Ok (book_clear b (dl_sequence d) (dl_ts_event d)).
Proof. intros Ha. unfold dispatch_delta. rewrite Ha, bool_decide_true by done. by rewrite andb_false_r. Qed.

Lemma clear_delta b d :
  dl_action d = ActClear ->
  apply_delta_unchecked b d = Ok (book_clear b (dl_sequence d) (dl_ts_event d)).
Proof.
  intros Ha. unfold apply_delta_unchecked. destruct (_ && _); [|by apply clear_dispatch].
  destruct (resolve_cases b (dl_order d)) as [[o' ->]| ->]; [by apply clear_dispatch|].
  rewrite Ha. by apply clear_dispatch.
Qed.

Lemma sided_dispatch b d s :
  dl_action d <> ActClear ->
  dispatch_delta b d ((dl_order d) <| bo_side := as_order_side s |>) =
    (b' ← on_side b s (fun l => ladder_action (dl_action d) l (spec_order (ob_book_type b) d s)
                                  (dl_flags d));
     Ok (increment b' (dl_sequence d) (dl_ts_event d))).
Proof.
  intros Ha. unfold dispatch_delta, is_no_side.
  rewrite bool_decide_false by (by destruct s). cbn [andb].
  pose proof (spec_order_side (ob_book_type b) d s) as Hs.
  destruct (dl_action d); [| | |done]; unfold book_add, book_update, book_delete;
    fold (spec_order (ob_book_type b) d s); rewrite Hs; by destruct s.
Qed.

Lemma same_side_order o s :
  bo_side o = as_order_side s -> o = o <| bo_side := as_order_side s |>.
Proof. destruct o. cbn. by intros ->. Qed.

Lemma apply_delta_eq prices b d :
  book_wf prices b -> dl_action d <> ActClear ->
  apply_delta_unchecked b d =
    match spec_side (view_of b) (dl_order d) with
    | Some s => dispatch_delta b d ((dl_order d) <| bo_side := as_order_side s |>)
    | None =>
        match dl_action d with
        | ActAdd => Err IntegrityNoOrderSide
        | _ => if bo_order_id (dl_order d) =? 0 then Err IntegrityNoOrderSide else Ok b
        end
    end.
Proof.
  intros Hwf Ha. unfold apply_delta_unchecked, is_no_side.
  destruct (bool_decide_reflect (bo_side (dl_order d) = NoOrderSide)) as [Hs|Hs]; cbn [andb].
  - destruct (Z.eqb_spec (bo_order_id (dl_order d)) 0) as [Hid|Hid]; cbn [negb].
    + unfold spec_side. rewrite Hs, Hid. cbn. unfold dispatch_delta, is_no_side.
      rewrite Hs, bool_decide_true, bool_decide_false by done. by destruct (dl_action d).
    + rewrite (resolve_spec prices) by done.
      destruct (spec_side (view_of b) (dl_order d)); [done|]. by destruct (dl_action d).
  - unfold spec_side.
    destruct (bo_side (dl_order d)) eqn:E; [done| |]; f_equal; by apply same_side_order.
Qed.

Lemma side_ladder_inj b b' s l :
  side_ladder b' s = l -> side_ladder b' (opposite s) = side_ladder b (opposite s) ->
  forall s', side_ladder b' s' = if decide (s' = s) then l else side_ladder b s'.
Proof. intros H1 H2 s'. destruct s, s'; cbn in *; done. Qed.

Lemma on_side_Ok {E} b s (f : BookLadder -> outcome E BookLadder) l :
  f (side_ladder b s) = Ok l ->
  exists b', on_side b s f = Ok b' /\ ob_book_type b' = ob_book_type b /\
    ob_instrument_id b' = ob_instrument_id b /\ ob_sequence b' = ob_sequence b /\
    ob_ts_last b' = ob_ts_last b /\ ob_update_count b' = ob_update_count b /\
    forall s', side_ladder b' s' = if decide (s' = s) then l else side_ladder b s'.
Proof.
  intros Hf. unfold on_side.
  destruct s; cbn [side_ladder] in Hf; rewrite Hf; osimpl; (eexists; split; [reflexivity|]);
    split_and!; try done; by intros [].
Qed.

(** The counters after an update: high-water marks and a saturating count. *)
Record counted (b : OrderBook) (sequence : Z) (ts_event : UnixNanos) (b' : OrderBook) : Prop := {
  ct_instrument : ob_instrument_id b' = ob_instrument_id b;
  ct_type : ob_book_type b' = ob_book_type b;
  ct_sequence : ob_sequence b' = Z.max sequence (ob_sequence b);
  ct_ts_last : ob_ts_last b' = Z.max ts_event (ob_ts_last b);
  ct_count : ob_update_count b' = saturate U64 (ob_update_count b + 1);
}.

Lemma increment_counted b b' sequence ts :
  ob_book_type b' = ob_book_type b -> ob_instrument_id b' = ob_instrument_id b ->
  ob_sequence b' = ob_sequence b -> ob_ts_last b' = ob_ts_last b ->
  ob_update_count b' = ob_update_count b ->
  counted b sequence ts (increment b' sequence ts).
Proof.
  intros H1 H2 H3 H4 H5. split; cbn; congruence.
Qed.

(** *** One delta *)

Lemma side_ladder_increment b sequence ts s :
  side_ladder (increment b sequence ts) s = side_ladder b s.
Proof. by destruct s. Qed.

Definition outcome_refines (b : OrderBook) d (r : outcome BookIntegrityError OrderBook)
    (spec : outcome BookIntegrityError view) (prices : list Z) : Prop :=
  match spec with
  | Ok v => exists b', r = Ok b' /\ book_wf prices b' /\ view_of b' ≡ v /\
      ob_book_type b' = ob_book_type b /\ ob_instrument_id b' = ob_instrument_id b /\
      (counted b (dl_sequence d) (dl_ts_event d) b' \/ b' = b)
  | Err e => r = Err e
  | Panic => False
  end.

Lemma clear_refines prices b d :
  book_wf prices b ->
  outcome_refines b d (Ok (book_clear b (dl_sequence d) (dl_ts_event d))) (Ok (fun _ _ => None)) prices.
Proof.
  intros Hwf. eexists. split; [reflexivity|]. unfold book_clear.
  split_and!; [| |done..|left; by apply increment_counted].
  - intros s. destruct (Hwf s) as [Hok Hs Ht _].
    destruct s; (split; [apply ladder_clear_ok|done..|by intros _ id o]).
  - by intros [] id.
Qed.

Lemma sided_refines prices b d s :
  collision_free prices -> book_wf prices b -> ob_book_type b <> L1_MBP ->
  dl_action d <> ActClear -> spec_side (view_of b) (dl_order d) = Some s ->
  delta_admissible prices (ob_book_type b) d (view_of b) ->
  outcome_refines b d (dispatch_delta b d ((dl_order d) <| bo_side := as_order_side s |>))
    (Ok (on_view (view_of b) s
           (spec_action (dl_action d) (spec_order (ob_book_type b) d s) (view_of b s)))) prices.
Proof.
  intros Hh Hwf Hbt Ha Hs Hadm. rewrite sided_dispatch by done.
  destruct (ladder_action_spec (E := BookIntegrityError) prices (ob_book_type b) s Hh Hbt
              (dl_action d) (side_ladder b s) (spec_order (ob_book_type b) d s) (dl_flags d))
    as (l & Hl & Hwl & Hc); [apply Hwf|apply spec_order_side|by intros ->|by apply Hadm|].
  destruct (on_side_Ok b s (fun l => ladder_action (dl_action d) l (spec_order (ob_book_type b) d s)
    (dl_flags d)) l Hl) as (b' & -> & H1 & H2 & H3 & H4 & H5 & Hlad).
  eexists. split; [reflexivity|]. split_and!; [..|left; by apply increment_counted].
  - intros s'. rewrite side_ladder_increment, Hlad. cbn [ob_book_type increment]. cbn. rewrite H1.
    case_decide as E; [by rewrite E|apply Hwf].
  - intros s' id. unfold view_of at 1. rewrite side_ladder_increment, Hlad. unfold on_view.
    case_decide; [apply Hc|done].
  - done.
  - done.
Qed.

Lemma delta_refines prices b d :
  collision_free prices -> book_wf prices b -> ob_book_type b <> L1_MBP ->
  delta_admissible prices (ob_book_type b) d (view_of b) ->
  outcome_refines b d (apply_delta_unchecked b d) (spec_delta (ob_book_type b) d (view_of b)) prices.
Proof.
  intros Hh Hwf Hbt Hadm.
  destruct (decide (dl_action d = ActClear)) as [Ha|Ha].
  { rewrite clear_delta by done. unfold spec_delta. rewrite Ha. by apply clear_refines. }
  rewrite (apply_delta_eq prices) by done. unfold spec_delta.
  destruct (spec_side (view_of b) (dl_order d)) as [s|] eqn:Es.
  - pose proof (sided_refines prices b d s Hh Hwf Hbt Ha Es Hadm). by destruct (dl_action d).
  - assert (Hskip : outcome_refines b d (Ok b) (Ok (view_of b)) prices).
    { exists b. split_and!; try done. by right. }
    destruct (dl_action d); try done; by destruct (_ =? _).
Qed.

(** *** Runs of deltas *)

#[local] Instance spec_side_proper : Proper ((≡@{view}) ==> eq ==> eq) spec_side.
Proof. intros v w H o ? <-. unfold spec_side. by rewrite !H. Qed.

Lemma spec_action_ext a o f g :
  (forall id, f id = g id) -> forall id, spec_action a o f id = spec_action a o g id.
Proof.
  intros H id. unfold spec_action, map_insert, map_delete. by repeat case_match.
Qed.

Lemma spec_delta_proper bt d v w :
  v ≡ w ->
  match spec_delta bt d v, spec_delta bt d w with
  | Ok v', Ok w' => v' ≡ w'
  | Err e, Err e' => e = e'
  | _, _ => False
  end.
Proof.
  intros H. unfold spec_delta. rewrite (spec_side_proper v w H _ _ eq_refl).
  assert (Hon : forall a s o, on_view v s (spec_action a o (v s)) ≡ on_view w s (spec_action a o (w s))).
  { intros a s o s' id. unfold on_view. case_decide; [by apply spec_action_ext|apply H]. }
  destruct (dl_action d); cbn iota; try done;
    (destruct (spec_side w (dl_order d)) as [s|]; [apply (Hon _ s)|]); try done;
    by destruct (bo_order_id (dl_order d) =? 0).
Qed.

Lemma delta_admissible_proper prices bt d v w :
  v ≡ w -> delta_admissible prices bt d v -> delta_admissible prices bt d w.
Proof.
  intros H Hadm s. rewrite <- (spec_side_proper v w H _ _ eq_refl). intros Hs.
  specialize (Hadm s Hs). unfold order_admissible in *. destruct (dl_action d), bt; try done;
    destruct Hadm as [Hsz Hp]; (split; [done|]); intros Ha o' Ho'; apply Hp; try done;
    by rewrite H.
Qed.

Lemma stream_admissible_proper prices bt ds : forall v w,
  v ≡ w -> stream_admissible prices bt ds v -> stream_admissible prices bt ds w.
Proof.
  induction ds as [|d ds IH]; [done|]. intros v w H [Hd Hs]. cbn [stream_admissible].
  split; [by apply (delta_admissible_proper _ _ _ v)|].
  pose proof (spec_delta_proper bt d v w H). destruct (spec_delta bt d v), (spec_delta bt d w); try done.
  by apply (IH a).
Qed.

Lemma spec_deltas_proper bt ds : forall v w,
  v ≡ w -> (spec_deltas bt ds v).1 ≡ (spec_deltas bt ds w).1 /\
           (spec_deltas bt ds v).2 = (spec_deltas bt ds w).2.
Proof.
  induction ds as [|d ds IH]; [done|]. intros v w H. cbn [spec_deltas].
  pose proof (spec_delta_proper bt d v w H).
  destruct (spec_delta bt d v), (spec_delta bt d w); try done; [by apply IH|]. by subst.
Qed.

Lemma apply_each_refines prices ds : forall b,
  collision_free prices -> book_wf prices b -> ob_book_type b <> L1_MBP ->
  stream_admissible prices (ob_book_type b) ds (view_of b) ->
  exists b' r, apply_each b ds = (b', r) /\ book_wf prices b' /\
    ob_book_type b' = ob_book_type b /\
    view_of b' ≡ (spec_deltas (ob_book_type b) ds (view_of b)).1 /\
    r = (spec_deltas (ob_book_type b) ds (view_of b)).2.
Proof.
  induction ds as [|d ds IH]; intros b Hh Hwf Hbt Hadm; [by exists b, (Ok tt)|].
  destruct Hadm as [Hd Hrest]. cbn [apply_each spec_deltas].
  pose proof (delta_refines prices b d Hh Hwf Hbt Hd) as Href.
  destruct (spec_delta (ob_book_type b) d (view_of b)) as [v|e|]; cbn in Href.
  - destruct Href as (b1 & -> & Hwf1 & Hv & Ht & _).
    destruct (IH b1) as (b' & r & He & Hwf' & Ht' & Hv' & Hr); [done..|by rewrite Ht| |].
    { rewrite Ht. apply (stream_admissible_proper _ _ _ v); [by symmetry|done]. }
    rewrite Ht in *. destruct (spec_deltas_proper (ob_book_type b) ds _ _ Hv) as [P1 P2].
    exists b', r. split_and!; [done..| |by rewrite <- P2]. by rewrite Hv'.
  - rewrite Href. exists b, (Err e). by split_and!.
  - done.
Qed.

Lemma book_new_wf prices i bt : book_wf prices (book_new i bt).
Proof. intros []; (split; [apply empty_ok|done..|by intros _ id o]). Qed.

Lemma book_new_view i bt s id : view_of (book_new i bt) s id = None.
Proof. by destruct s. Qed.

(** on an L2 or L3 book in its invariant, a delta of the book's instrument has
    exactly the specified effect on the finite maps of its two sides (which
    error it returns, which side a delta without a side goes to, which order is
    stored, replaced or removed), the invariant holds again, the counters
    are high-water marks, and the call does not panic; a delta of another
    instrument is refused with the mismatch error. *)
Theorem book_delta_refines (prices : list Z) (b : OrderBook) (d : OrderBookDelta) :
  collision_free prices -> book_wf prices b -> ob_book_type b <> L1_MBP ->
  delta_admissible prices (ob_book_type b) d (view_of b) ->
  (dl_instrument_id d = ob_instrument_id b ->
   match spec_delta (ob_book_type b) d (view_of b) with
   | Ok v => exists b', apply_delta b d = Ok b' /\ book_wf prices b' /\ view_of b' ≡ v /\
       ob_book_type b' = ob_book_type b /\ ob_instrument_id b' = ob_instrument_id b /\
       (counted b (dl_sequence d) (dl_ts_event d) b' \/ b' = b)
   | Err e => apply_delta b d = Err e
   | Panic => False
   end) /\
  (dl_instrument_id d <> ob_instrument_id b ->
   apply_delta b d = Err (InstrumentMismatch (ob_instrument_id b) (dl_instrument_id d))).
Proof.
  intros Hh Hwf Hbt Hadm. unfold apply_delta. split; intros Hi.
  - rewrite bool_decide_true by done. exact (delta_refines prices b d Hh Hwf Hbt Hadm).
  - by rewrite bool_decide_false.
Qed.

Lemma spec_deltas_total bt ds : forall v, (spec_deltas bt ds v).2 <> Panic.
Proof.
  induction ds as [|d ds IH]; intros v; [done|]. cbn. unfold spec_delta.
  destruct (dl_action d), (spec_side v (dl_order d)); cbn; try done; try apply IH;
    destruct (bo_order_id (dl_order d) =? 0); cbn; done || apply IH.
Qed.

(** C2: deltas of another instrument are refused and leave the book as it was.
    Applying deltas of the book's own instrument to an L2 or L3 book in its
    invariant ends, without panic, in the view and the result that the
    specification on finite maps computes delta by delta (the deltas before a
    failing one stay applied), with the invariant intact: levels sorted and
    non-empty, every order at its level's price, the cache of each side holding
    exactly the ids of the orders in its levels, as many as there are orders.
    This is under what the code relies on and does not check: sizes are defined;
    on an L3 book an addition re-uses the id of a resting order only at that
    order's price (otherwise the old order stays on the ladder, the reported
    defect); on an L2 book the prices are from a set on which the hash that gives
    their order ids has no collision. *)
Theorem book_deltas_refine (prices : list Z) (b : OrderBook) (ds : OrderBookDeltas) :
  collision_free prices -> book_wf prices b -> ob_book_type b <> L1_MBP ->
  stream_admissible prices (ob_book_type b) (ds_deltas ds) (view_of b) ->
  let '(b', r) := apply_deltas b ds in
  if decide (ds_instrument_id ds = ob_instrument_id b) then
    let '(v, r') := spec_deltas (ob_book_type b) (ds_deltas ds) (view_of b) in
    r = r' /\ r <> Panic /\ view_of b' ≡ v /\ book_wf prices b' /\
    forall s, size (ld_cache (side_ladder b' s)) = total_orders (side_ladder b' s)
  else b' = b /\ r = Err (InstrumentMismatch (ob_instrument_id b) (ds_instrument_id ds)).
Proof.
  intros Hh Hwf Hbt Hadm. unfold apply_deltas. case_bool_decide as Hi; [|by rewrite decide_False].
  destruct (apply_each_refines prices (ds_deltas ds) b) as (b' & r & Hr & Hwf' & _ & Hv & Hres);
    [done..|]. unfold apply_deltas_unchecked. rewrite Hr, decide_True by done.
  assert (Hp : (spec_deltas (ob_book_type b) (ds_deltas ds) (view_of b)).2 <> Panic) by apply spec_deltas_total.
  destruct (spec_deltas _ _ _) as [v r']. cbn in Hv, Hres, Hp. subst r'. split_and!; try done.
  intros s. apply cache_size, Hwf'.
Qed.
End Spec.

(** *** A concrete book *)
Module BookDemo.
#[export] Instance mode : Mode := standard_mode.
#[export] Instance order_api : BookOrderApi := {|
  to_book_price E o :=
    match bo_side o with
    | Buy => Ok (mkBookPrice (bo_price o) SBuy)
    | Sell => Ok (mkBookPrice (bo_price o) SSell)
    | NoOrderSide => Panic
    end |}.
#[export] Instance order_laws : BookOrderLaws.
Proof. split. intros E o s H. cbn. rewrite H. by destruct s. Qed.
Definition clear_order : BookOrder := mkBookOrder NoOrderSide (mkPrice 0 0) (mkQty 0 0) 0.
#[export] Instance data_api : BookDataApi := {|
  book_order_new := mkBookOrder;
  delta_new E i a o f s te ti :=
    if qty_is_positive (bo_size o) then Ok (mkDelta i a o f s te ti) else Panic;
  delta_clear i s te ti := mkDelta i ActClear clear_order 32 s te ti;
  deltas_new E i ds := match ds with [] => Panic | _ => Ok (mkDeltas i ds) end;
  quote_tick_new E i bp ap bs sz te ti := Ok (mkQuote i bp ap bs sz te ti);
  hash_one := fun raw => wrap U64 (raw * 6364136223846793005 + 1442695040888963407) |}.
#[export] Instance data_laws : BookDataLaws.
Proof.
  split; try done.
  - intros E i a o f s te ti H. cbn. by rewrite H.
  - intros E i ds H. by destruct ds.
Qed.

Definition inst : InstrumentId := mkInstrumentId "AUD/USD" "SIM".
Definition px (n : Z) : Price := mkPrice (n * 10 ^ 9) 0.
Definition qty (n : Z) : Quantity := mkQty (n * 10 ^ 9) 0.
Definition order (side : OrderSide) (p n id : Z) : BookOrder := mkBookOrder side (px p) (qty n) id.
Definition delta (a : BookAction) (o : BookOrder) (n : Z) : OrderBookDelta := mkDelta inst a o 0 n n n.
Definition stream : list OrderBookDelta :=
  [delta ActAdd (order Buy 10 5 7) 1; delta ActAdd (order Sell 11 3 9) 2;
   delta ActUpdate (order NoOrderSide 12 8 9) 3; delta ActDelete (order NoOrderSide 10 1 7) 4].
End BookDemo.

Section Witnesses.
Import BookDemo.

Example book_delta_refines_witness :
  apply_delta (book_new inst L3_MBO) (mkDelta (mkInstrumentId "X" "Y") ActAdd (order Buy 10 5 7) 0 1 1 1)
    = Err (InstrumentMismatch inst (mkInstrumentId "X" "Y")).
Proof.
  apply (book_delta_refines [] (book_new inst L3_MBO)); [|apply book_new_wf|done| |done].
  - by intros p q H%not_elem_of_nil.
  - intros s Hs. vm_compute in Hs. injection Hs as <-. split; [right; reflexivity|].
    intros _ o' Ho'. vm_compute in Ho'. discriminate Ho'.
Defined.

Example book_deltas_refine_witness :
  let '(b', r) := apply_deltas (book_new inst L3_MBO) (mkDeltas inst stream) in
  r = Ok tt /\ view_of b' SSell 9 = Some (order Sell 12 8 9) /\ view_of b' SBuy 7 = None.
Proof.
  pose proof (book_deltas_refine [] (book_new inst L3_MBO) (mkDeltas inst stream)) as H.
  destruct (apply_deltas _ _) as [b' r].
  rewrite decide_True in H by done. destruct H as (Hr & _ & Hv & _).
  - by intros p q H%not_elem_of_nil.
  - apply book_new_wf.
  - done.
  - repeat (split; [intros s Hs; vm_compute in Hs; injection Hs as <-;
      first [exact I|split; [right; reflexivity|intros Ha o' Ho';
        first [discriminate Ha|vm_compute in Ho'; discriminate Ho']]]|]); exact I.
  - rewrite Hr, !(Hv _ _). vm_compute. auto.
Defined.
End Witnesses.
