(* ===== verification/BookTop.v ===== *)
(** * Top of book: best prices, integrity, crossed books, [L1_MBP] updates *)

From stdpp Require Import base numbers list gmap sets strings.
From Stdlib Require Import ZArith Lia Sorted.
From S2P Require Import Prelude F64 Fixed Price Quantity Enums Money OrderEvents Maps Ladder LadderInv Book BookSpec.

Section Top.
Context `{M : Mode} `{B : BookOrderApi} `{L : !BookOrderLaws} `{D : BookDataApi}.
Implicit Types (b : OrderBook) (o : BookOrder) (l : BookLadder) (lv : BookLevel).

(** ** The best level *)

Lemma order_at_level l k lv id o :
  ladder_ok l -> (k, lv) ∈ ld_levels l -> (id, o) ∈ lv_orders lv -> order_at l id = Some o.
Proof.
  intros Hok Hk Hin. assert (Hid : id ∈ im_keys (lv_orders lv)).
  { apply list_elem_of_fmap. by exists (id, o). }
  destruct (lo_cached _ Hok _ _ _ Hk Hid) as (p & Hp & Hkey).
  unfold order_at. rewrite Hp. cbn.
  assert (Hg : bt_get bp_key p (ld_levels l) = Some lv).
  { pose proof (bt_elem_get bp_key k (ld_levels l) lv (lo_sorted _ Hok) Hk) as Hg.
    unfold bt_get in *. by rewrite Hkey. }
  rewrite Hg. cbn. unfold im_get.
  destruct (List.find (fun kv => kv.1 =? id) (lv_orders lv)) as [[j o']|] eqn:Ef.
  - apply List.find_some in Ef as [Ef1 Ef2]. cbn in Ef2. apply Z.eqb_eq in Ef2 as ->. cbn. f_equal.
    apply list_elem_of_In in Ef1.
    pose proof (lk_nodup _ _ _ (lo_levels _ Hok _ _ Hk)) as Hnd.
    unfold im_keys in Hnd.
    apply list_elem_of_lookup in Ef1 as [i Hi]. apply list_elem_of_lookup in Hin as [j Hj].
    assert (i = j) as ->.
    { eapply (NoDup_lookup _ _ _ id Hnd); rewrite list_lookup_fmap; [by rewrite Hi|by rewrite Hj]. }
    congruence.
  - exfalso. apply list_elem_of_In in Hin. apply (List.find_none _ _ Ef) in Hin.
    cbn in Hin. rewrite Z.eqb_refl in Hin. done.
Qed.

Lemma order_at_elem l id o :
  ladder_ok l -> order_at l id = Some o ->
  exists k lv, (k, lv) ∈ ld_levels l /\ (id, o) ∈ lv_orders lv /\
    p_raw (bo_price o) = p_raw (bp_value k).
Proof.
  intros Hok Ho. destruct (order_at_inv l id o Hok Ho) as (_ & _ & _ & p & lv & Hp & Hs & Hg & Hin & Hr).
  destruct (levels_get_elem l p lv Hok Hs Hg) as (k & Hk & _ & _ & Hraw).
  exists k, lv. split_and!; [done..|congruence].
Qed.

(** The first level is the best: no order of the side has a better price. *)
Lemma top_best l :
  ladder_ok l ->
  match top l with
  | None => forall id, order_at l id = None
  | Some lv => exists id o, level_first lv = Some o /\ order_at l id = Some o /\
      bp_side (lv_price lv) = ld_side l /\
      p_raw (bo_price o) = p_raw (bp_value (lv_price lv)) /\
      forall id' o', order_at l id' = Some o' ->
        bp_key (lv_price lv) <= bp_key (order_price l o')
  end.
Proof.
  intros Hok. unfold top. destruct (ld_levels l) as [|[k lv] m] eqn:El; cbn.
  - intros id. destruct (order_at l id) eqn:E; [|done].
    destruct (order_at_elem l id b Hok E) as (k & lv & Hk & _). rewrite El in Hk. by apply not_elem_of_nil in Hk.
  - assert (Hk : (k, lv) ∈ ld_levels l) by (rewrite El; left).
    pose proof (lo_levels _ Hok _ _ Hk) as Hlv. destruct Hlv as [Hs Hp Hne _ Hall].
    unfold level_first. destruct (lv_orders lv) as [|[id o] os] eqn:Eo; [done|]. cbn.
    apply Forall_cons in Hall as [(H1 & H2 & _) _]. cbn in *.
    exists id, o. rewrite Hp. split_and!; try done.
    + eapply order_at_level; [done|exact Hk|]. rewrite Eo. left.
    + intros id' o' Ho'. destruct (order_at_elem l id' o' Hok Ho') as (k' & lv' & Hk' & _ & Hr).
      pose proof (lk_side _ _ _ (lo_levels _ Hok _ _ Hk')) as Hs'.
      assert (Hkk : bp_key (order_price l o') = bp_key k').
      { apply bp_key_eq; [by rewrite Hs'|done]. }
      rewrite Hkk. pose proof (lo_sorted _ Hok) as Hsort. rewrite El in Hsort.
      apply bt_sorted_inv in Hsort as [_ Hf]. rewrite El in Hk'.
      apply elem_of_cons in Hk' as [[= <- <-]|Hk']; [lia|].
      rewrite Forall_forall in Hf. apply Z.lt_le_incl, Hf.
      apply list_elem_of_fmap. by exists (k', lv').
Qed.

(** The best price of a side: a price at which there is an order, and none
    better. *)
Definition better (s : OrderSideSpecified) (p q : Price) : Prop :=
  match s with SBuy => p_raw q < p_raw p | SSell => p_raw p < p_raw q end.
Definition best_price b (s : OrderSideSpecified) : option Price :=
  match s with SBuy => best_bid_price b | SSell => best_ask_price b end.
Definition best_size b (s : OrderSideSpecified) : option Quantity :=
  match s with SBuy => best_bid_size b | SSell => best_ask_size b end.
Definition has_side b (s : OrderSideSpecified) : bool :=
  match s with SBuy => has_bid b | SSell => has_ask b end.

Lemma best_price_eq b s :
  best_price b s = (fun lv => bp_value (lv_price lv)) <$> top (side_ladder b s).
Proof. by destruct s. Qed.
Lemma best_size_eq b s :
  best_size b s = top (side_ladder b s) ≫= fun lv => bo_size <$> level_first lv.
Proof. by destruct s. Qed.
Lemma has_side_eq b s : has_side b s = has_orders (side_ladder b s).
Proof. by destruct s. Qed.

Lemma not_better l o s p :
  ld_side l = s -> bp_side p = s -> bp_key p <= bp_key (order_price l o) ->
  ~ better s (bo_price o) (bp_value p).
Proof. intros H1 H2. unfold bp_key, order_price, better. cbn. rewrite H1, H2. destruct s; lia. Qed.

(** on a book in its invariant, a side has a best price exactly when it has an
    order; the best price is the price of an order of the side whose size is
    the best size, and no order of the side has a better price. *)
Theorem best_price_correct (prices : list Z) (b : OrderBook) (s : OrderSideSpecified) :
  book_wf prices b ->
  (has_side b s = true <-> exists id o, view_of b s id = Some o) /\
  (best_price b s = None <-> forall id, view_of b s id = None) /\
  forall p, best_price b s = Some p ->
    (exists id o, view_of b s id = Some o /\ p_raw (bo_price o) = p_raw p /\
       best_size b s = Some (bo_size o)) /\
    forall id o, view_of b s id = Some o -> ~ better s (bo_price o) p.
Proof.
  intros Hwf. destruct (Hwf s) as [Hok Hs _ _].
  rewrite best_price_eq, best_size_eq, has_side_eq. unfold view_of, has_orders.
  pose proof (top_best _ Hok) as Ht. destruct (top (side_ladder b s)) as [lv|]; cbn.
  - destruct Ht as (id & o & Hf & Ho & Hside & Hp & Hall).
    assert (Hne : level_is_empty lv = false).
    { unfold level_is_empty, level_len, level_first in *. destruct (lv_orders lv); [done|].
      apply Z.eqb_neq. cbn. lia. }
    rewrite Hne. split_and!; [naive_solver|split; [done|intros H; by rewrite H in Ho]|].
    intros p [= <-]. rewrite Hf. split; [by exists id, o|].
    intros id' o' Ho'. apply (not_better (side_ladder b s)); [done|congruence|by apply (Hall id')].
  - split_and!; [split; [done|intros (id & o & H); by rewrite Ht in H]|done..].
Qed.

Lemma best_bound prices b s id o p :
  book_wf prices b -> best_price b s = Some p -> view_of b s id = Some o -> ~ better s (bo_price o) p.
Proof.
  intros Hwf Hp Ho. destruct (Hwf s) as [Hok Hs _ _]. rewrite best_price_eq in Hp.
  pose proof (top_best _ Hok) as Ht. destruct (top (side_ladder b s)) as [lv|]; [|done].
  injection Hp as <-. destruct Ht as (_ & _ & _ & _ & Hside & _ & Hall).
  apply (not_better (side_ladder b s)); [done|congruence|by apply (Hall id)].
Qed.

(** ** Integrity *)

Lemma nodup_same {A} (x : A) (xs : list A) : NoDup xs -> (forall y, y ∈ xs -> y = x) -> (length xs <= 1)%nat.
Proof.
  intros Hnd H. destruct xs as [|y [|z xs]]; cbn; [lia..|]. exfalso.
  apply NoDup_cons in Hnd as [Hy _]. apply Hy.
  rewrite (H y), (H z) by (set_solver). set_solver.
Qed.

(** On an [L2_MBP] side every level holds one order. *)
Lemma mbp_single prices l k lv :
  ladder_ok l -> mbp_ids prices l -> (k, lv) ∈ ld_levels l -> level_len lv <= 1.
Proof.
  intros Hok Hm Hk. pose proof (lo_levels _ Hok _ _ Hk) as [_ _ _ Hnd Hall].
  rewrite Forall_forall in Hall.
  assert (H : (length (im_keys (lv_orders lv)) <= 1)%nat).
  { apply (nodup_same (price_to_order_id (p_raw (bp_value k))) _ Hnd).
    intros id Hid. unfold im_keys in Hid. apply list_elem_of_fmap in Hid as ([j o] & -> & Hin). cbn.
    destruct (Hm j o) as [Hj _]; [by apply (order_at_level l k lv)|].
    destruct (Hall _ Hin) as (_ & Hp & _). cbn in Hp. rewrite Hj. unfold price_based_order_id.
    by rewrite Hp. }
  unfold im_keys in H. rewrite length_fmap in H. unfold level_len. lia.
Qed.

Lemma check_level_orders_Ok prices l side :
  ladder_ok l -> mbp_ids prices l -> check_level_orders side l = Ok tt.
Proof.
  intros Hok Hm. unfold check_level_orders.
  destruct (List.find _ (levels_of l)) as [lv|] eqn:Ef; [|done]. exfalso.
  apply List.find_some in Ef as [Hin Hlt]. apply list_elem_of_In in Hin.
  apply list_elem_of_fmap in Hin as ([k lv'] & -> & Hk). cbn in Hlt.
  pose proof (mbp_single prices l k lv' Hok Hm Hk). bool_simpl. lia.
Qed.

(** An [L1_MBP] book in its invariant. *)
Definition l1_wf b : Prop :=
  ob_book_type b = L1_MBP /\ forall s, l1_ok (side_ladder b s) /\ ld_side (side_ladder b s) = s.

Lemma l1_wf_book_wf prices b : l1_wf b -> book_wf prices b.
Proof.
  intros [Ht H] s. destruct (H s) as [[Hok Hty _] Hs]. split; [done|done|congruence|by rewrite Ht].
Qed.

Lemma l1_len l : l1_ok l -> ladder_len l <= 1.
Proof. intros [_ _ [H|(k & o & H)]]; unfold ladder_len; rewrite H; cbn; lia. Qed.

(** The best prices are crossed. *)
Definition crossed b : option (BookPrice * BookPrice) :=
  match top (ob_bids b), top (ob_asks b) with
  | Some bid, Some ask =>
      if price_gtb (bp_value (lv_price bid)) (bp_value (lv_price ask))
      then Some (lv_price bid, lv_price ask) else None
  | _, _ => None
  end.

Definition any_wf (prices : list Z) b : Prop :=
  if decide (ob_book_type b = L1_MBP) then l1_wf b else book_wf prices b.

(** on a book in its invariant the integrity check can only report crossed
    best prices: an L1 book never has a second level on a side, and an L2 book
    never has a second order at a level. *)
Theorem integrity_only_crossed (prices : list Z) (b : OrderBook) :
  any_wf prices b ->
  book_check_integrity b =
    match crossed b with Some (bid, ask) => Err (OrdersCrossed bid ask) | None => Ok tt end.
Proof.
  intros Hwf. unfold any_wf in Hwf. unfold book_check_integrity.
  assert (Hfirst : match ob_book_type b with
      | L1_MBP =>
          _ ← err_if (1 <? ladder_len (ob_bids b)) (TooManyLevels Buy (ladder_len (ob_bids b)));
          err_if (1 <? ladder_len (ob_asks b)) (TooManyLevels Sell (ladder_len (ob_asks b)))
      | L2_MBP =>
          _ ← check_level_orders Buy (ob_bids b);
          check_level_orders Sell (ob_asks b)
      | L3_MBO => Ok tt
      end = Ok tt).
  { destruct (ob_book_type b) eqn:Ebt; cbn in Hwf; [| |done].
    - destruct Hwf as [_ H]. pose proof (l1_len _ (proj1 (H SBuy))). pose proof (l1_len _ (proj1 (H SSell))).
      cbn [side_ladder] in *. rewrite !(proj2 (Z.ltb_ge 1 _)) by done. done.
    - destruct (Hwf SBuy) as [H1 _ _ H2]. destruct (Hwf SSell) as [H3 _ _ H4]. cbn [side_ladder] in *.
      rewrite (check_level_orders_Ok prices) by auto. osimpl.
      by rewrite (check_level_orders_Ok prices) by auto. }
  rewrite Hfirst. osimpl. unfold crossed. repeat case_match; simplify_eq; try done; cbn;
    repeat match goal with H : price_gtb _ _ = _ |- _ => rewrite H end; done.
Qed.

(** ** Crossed books *)

Lemma bt_remove_head k lv (m : list (BookPrice * BookLevel)) :
  bt_sorted bp_key ((k, lv) :: m) -> bt_remove bp_key k ((k, lv) :: m) = m.
Proof.
  intros [Hs Hf]%bt_sorted_inv. unfold bt_remove. cbn. rewrite Z.eqb_refl. cbn.
  apply List.forallb_filter_id, List.forallb_forall. intros x Hx.
  apply negb_true_iff, Z.eqb_neq. rewrite Forall_forall in Hf.
  assert (bp_key x.1 ∈ bt_keys bp_key m).
  { apply list_elem_of_fmap. exists x. by rewrite list_elem_of_In. }
  specialize (Hf _ H). lia.
Qed.

(** Removing the levels of a prefix of the ladder. *)
Lemma remove_prefix {E} (p : BookPrice -> bool) m : forall l,
  ladder_ok l -> ld_levels l = m ->
  exists l', remove_levels (E := E) l (take_prices p m) =
      Ok (l', snd <$> take (length (take_prices p m)) m) /\
    ladder_ok l' /\ ld_side l' = ld_side l /\ ld_book_type l' = ld_book_type l /\
    ld_levels l' = drop (length (take_prices p m)) m.
Proof.
  induction m as [|[k lv] m IH]; intros l Hok Hm; cbn [take_prices]; [by eexists|].
  destruct (p k); [|by eexists].
  cbn [remove_levels length take drop].
  assert (Hk : (k, lv) ∈ ld_levels l) by (rewrite Hm; left).
  pose proof (lo_levels _ Hok _ _ Hk) as Hlv.
  destruct (remove_level_spec (E := E) l k Hok (lk_side _ _ _ Hlv))
    as (l1 & r & -> & Hr & Hok1 & Hs1 & Hbt1 & Hm1).
  rewrite (bt_elem_get bp_key k _ lv (lo_sorted _ Hok) Hk) in Hr. subst r.
  pose proof (lo_sorted _ Hok) as Hsort. rewrite Hm in Hm1, Hsort.
  rewrite bt_remove_head in Hm1 by done.
  destruct (IH l1 Hok1 Hm1) as (l' & Hrem & Hok' & Hs' & Hbt' & Hm').
  osimpl. rewrite Hrem. osimpl. eexists. split; [reflexivity|]. split_and!; congruence.
Qed.

Lemma prefix_split (p : BookPrice -> bool) c (m : list (BookPrice * BookLevel)) :
  bt_sorted bp_key m -> (forall x, x ∈ m -> p x.1 = (bp_key x.1 <=? c)) ->
  forall x, x ∈ drop (length (take_prices p m)) m <-> x ∈ m /\ c < bp_key x.1.
Proof.
  induction m as [|[k lv] m IH]; intros Hs Hp x; cbn.
  { split; [by intros ?%not_elem_of_nil|by intros [?%not_elem_of_nil _]]. }
  apply bt_sorted_inv in Hs as [Hs Hf]. pose proof (Hp (k, lv) ltac:(left)) as Hpk. cbn in Hpk.
  rewrite Hpk. destruct (Z.leb_spec (bp_key k) c) as [Hle|Hlt]; cbn.
  - rewrite IH; [|done|intros y Hy; apply Hp; by right]. rewrite elem_of_cons.
    split; [tauto|]. intros [[->|Hx] Hc]; [cbn in Hc; lia|done].
  - split; [|tauto]. intros Hx. split; [done|].
    apply elem_of_cons in Hx as [->|Hx]; [done|]. rewrite Forall_forall in Hf.
    assert (bp_key x.1 ∈ bt_keys bp_key m) by (apply list_elem_of_fmap; by exists x).
    specialize (Hf _ H). lia.
Qed.

(** What is left of a side when the levels with key up to [c] are removed. *)
Lemma remove_prefix_content {E} l p c :
  ladder_ok l -> (forall x, x ∈ ld_levels l -> p x.1 = (bp_key x.1 <=? c)) ->
  exists l', remove_levels (E := E) l (take_prices p (ld_levels l)) =
      Ok (l', snd <$> take (length (take_prices p (ld_levels l))) (ld_levels l)) /\
    ladder_ok l' /\ ld_side l' = ld_side l /\ ld_book_type l' = ld_book_type l /\
    forall id, order_at l' id =
      (o ← order_at l id; if bp_key (order_price l o) <=? c then None else Some o).
Proof.
  intros Hok Hp. destruct (remove_prefix (E := E) p _ l Hok eq_refl) as (l' & Hr & Hok' & Hs & Ht & Hm).
  exists l'. split_and!; try done. intros id.
  pose proof (prefix_split p c _ (lo_sorted _ Hok) Hp) as Hsplit. rewrite <- Hm in Hsplit.
  assert (Hkey : forall k lv o, (k, lv) ∈ ld_levels l -> p_raw (bo_price o) = p_raw (bp_value k) ->
            bp_key (order_price l o) = bp_key k).
  { intros k lv o Hk Hr'. apply bp_key_eq; [|done].
    by rewrite (lk_side _ _ _ (lo_levels _ Hok _ _ Hk)). }
  destruct (order_at l' id) as [o'|] eqn:Eo'.
  - destruct (order_at_elem l' id o' Hok' Eo') as (k & lv & Hk & Hin & Hraw).
    apply Hsplit in Hk as [Hk Hc]. cbn in Hc.
    rewrite (order_at_level l k lv id o' Hok Hk Hin). cbn.
    rewrite (Hkey k lv o' Hk Hraw). destruct (Z.leb_spec (bp_key k) c); [lia|done].
  - destruct (order_at l id) as [o|] eqn:Eo; [|done]. cbn.
    destruct (order_at_elem l id o Hok Eo) as (k & lv & Hk & Hin & Hraw).
    rewrite (Hkey k lv o Hk Hraw). destruct (Z.leb_spec (bp_key k) c) as [|Hc]; [done|].
    exfalso. assert (Hk' : (k, lv) ∈ ld_levels l') by by apply Hsplit.
    by rewrite (order_at_level l' k lv id o Hok' Hk' Hin) in Eo'.
Qed.

Definition kept (flag : bool) (gone : BookOrder -> bool) (x : option BookOrder) : option BookOrder :=
  o ← x; if flag && gone o then None else Some o.

Lemma clear_one_side {E} prices bt s l (flag : bool) p (gone : BookOrder -> bool) c :
  side_wf prices bt s l ->
  (forall x, x ∈ ld_levels l -> p x.1 = (bp_key x.1 <=? c)) ->
  (forall o, gone o = (bp_key (order_price l o) <=? c)) ->
  let ps := if flag then take_prices p (ld_levels l) else [] in
  exists l' removed, remove_levels (E := E) l ps = Ok (l', removed) /\
    length removed = length ps /\ side_wf prices bt s l' /\
    forall id, order_at l' id = kept flag gone (order_at l id).
Proof.
  intros [Hok Hs Ht Hm] Hp Hg. destruct flag; cbn [kept andb].
  - destruct (remove_prefix_content (E := E) l p c Hok Hp) as (l' & Hr & Hok' & Hs' & Ht' & Hc).
    eexists l', _. split; [exact Hr|]. split_and!.
    + rewrite length_fmap, length_take. clear. induction (ld_levels l) as [|[k lv] m IH]; cbn; [done|].
      destruct (p k); cbn; lia.
    + split; [done|congruence..|]. intros E2 id o. rewrite Hc. destruct (order_at l id) eqn:Eo; [|done].
      cbn. destruct (_ <=? _); [done|]. intros [= <-]. by apply Hm.
    + intros id. rewrite Hc. unfold kept. destruct (order_at l id); [|done]. cbn. by rewrite Hg.
  - exists l, []. split_and!; try done. intros id. by destruct (order_at l id).
Qed.

(** An order on the wrong side of the other side's best price. *)
Definition stale (s : OrderSideSpecified) (bid ask : Price) o : bool :=
  match s with
  | SBuy => price_geb (bo_price o) ask
  | SSell => price_leb (bo_price o) bid
  end.

Lemma take_prices_head p l k lv m :
  ld_levels l = (k, lv) :: m -> p k = true -> take_prices p (ld_levels l) <> [].
Proof. intros -> Hp. cbn. by rewrite Hp. Qed.

Lemma crossed_levels prices b bid ask :
  book_wf prices b -> crossed b = Some (bid, ask) ->
  exists lvb mb lva ma, ld_levels (ob_bids b) = (bid, lvb) :: mb /\
    ld_levels (ob_asks b) = (ask, lva) :: ma /\
    best_bid_price b = Some (bp_value bid) /\ best_ask_price b = Some (bp_value ask) /\
    p_raw (bp_value ask) < p_raw (bp_value bid).
Proof.
  intros Hwf. unfold crossed, best_bid_price, best_ask_price, top.
  destruct (Hwf SBuy) as [Hb _ _ _]. destruct (Hwf SSell) as [Ha _ _ _]. cbn [side_ladder] in *.
  destruct (ld_levels (ob_bids b)) as [|[kb lvb] mb] eqn:Eb; [done|].
  destruct (ld_levels (ob_asks b)) as [|[ka lva] ma] eqn:Ea; [done|]. cbn.
  rewrite (lk_price _ _ _ (lo_levels _ Hb kb lvb ltac:(rewrite Eb; left))).
  rewrite (lk_price _ _ _ (lo_levels _ Ha ka lva ltac:(rewrite Ea; left))).
  unfold price_gtb. destruct (Z.ltb_spec (p_raw (bp_value ka)) (p_raw (bp_value kb))); [|done].
  intros [= <- <-]. eexists _, _, _, _. by split_and!.
Qed.

Lemma uncrossed_views prices b :
  book_wf prices b ->
  (forall ib ob ia oa, view_of b SBuy ib = Some ob -> view_of b SSell ia = Some oa ->
     p_raw (bo_price ob) <= p_raw (bo_price oa)) -> crossed b = None.
Proof.
  intros Hwf H. unfold crossed.
  pose proof (top_best _ (sw_ok _ _ _ _ (Hwf SBuy))) as Hb.
  pose proof (top_best _ (sw_ok _ _ _ _ (Hwf SSell))) as Ha. cbn [side_ladder] in *.
  destruct (top (ob_bids b)) as [lvb|], (top (ob_asks b)) as [lva|]; try done.
  destruct Hb as (ib & ob & _ & Hvb & _ & Hpb & _). destruct Ha as (ia & oa & _ & Hva & _ & Hpa & _).
  specialize (H ib ob ia oa Hvb Hva). unfold price_gtb.
  destruct (Z.ltb_spec (p_raw (bp_value (lv_price lva))) (p_raw (bp_value (lv_price lvb)))); [lia|done].
Qed.

Lemma kept_Some flag gone x o :
  kept flag gone x = Some o -> x = Some o /\ flag && gone o = false.
Proof. destruct x as [o'|]; [|done]. cbn. destruct (flag && gone o') eqn:E; [done|]. by intros [= <-]. Qed.

(** On a crossed book: the two sides after the removal. *)
Lemma clear_crossed {E} prices b side bid ask :
  book_wf prices b -> ob_book_type b <> L1_MBP -> crossed b = Some (bid, ask) ->
  exists b' lvs, clear_stale_levels (E := E) b side = Ok (b', Some lvs) /\ lvs <> [] /\
    book_wf prices b' /\
    forall s id, view_of b' s id =
      kept (clears_side side (as_order_side s)) (stale s (bp_value bid) (bp_value ask)) (view_of b s id).
Proof.
  intros Hwf Hbt Hc.
  destruct (crossed_levels prices b bid ask Hwf Hc) as (lvb & mb & lva & ma & Hmb & Hma & Hbb & Hba & Hlt).
  unfold clear_stale_levels. rewrite bool_decide_false, Hbb, Hba by done.
  unfold price_leb at 1. rewrite (proj2 (Z.leb_gt _ _)) by done.
  destruct (clear_one_side (E := E) prices (ob_book_type b) SBuy (ob_bids b) (clears_side side Buy)
    (fun bp => price_geb (bp_value bp) (bp_value ask)) (stale SBuy (bp_value bid) (bp_value ask))
    (- p_raw (bp_value ask)) (Hwf SBuy)) as (lb & rb & Hrb & Hlb & Hwb & Hcb).
  { intros [k lv] Hk. pose proof (lk_side _ _ _ (lo_levels _ (sw_ok _ _ _ _ (Hwf SBuy)) _ _ Hk)) as Hs.
    rewrite (sw_side _ _ _ _ (Hwf SBuy)) in Hs. cbn. unfold bp_key, price_geb. rewrite Hs. lia. }
  { intros o. unfold stale, bp_key, order_price, price_geb. cbn.
    rewrite (sw_side _ _ _ _ (Hwf SBuy) : ld_side (ob_bids b) = SBuy). lia. }
  destruct (clear_one_side (E := E) prices (ob_book_type b) SSell (ob_asks b) (clears_side side Sell)
    (fun bp => price_leb (bp_value bp) (bp_value bid)) (stale SSell (bp_value bid) (bp_value ask))
    (p_raw (bp_value bid)) (Hwf SSell)) as (la & ra & Hra & Hla & Hwa & Hca).
  { intros [k lv] Hk. pose proof (lk_side _ _ _ (lo_levels _ (sw_ok _ _ _ _ (Hwf SSell)) _ _ Hk)) as Hs.
    rewrite (sw_side _ _ _ _ (Hwf SSell)) in Hs. cbn. unfold bp_key, price_leb. by rewrite Hs. }
  { intros o. unfold stale, bp_key, order_price, price_leb. cbn.
    by rewrite (sw_side _ _ _ _ (Hwf SSell) : ld_side (ob_asks b) = SSell). }
  assert (Hpb : take_prices (fun bp => price_geb (bp_value bp) (bp_value ask)) (ld_levels (ob_bids b)) <> []).
  { eapply take_prices_head; [exact Hmb|]. unfold price_geb. lia. }
  assert (Hpa : take_prices (fun bp => price_leb (bp_value bp) (bp_value bid)) (ld_levels (ob_asks b)) <> []).
  { eapply take_prices_head; [exact Hma|]. unfold price_leb. lia. }
  set (pb := if clears_side side Buy then _ else _) in *.
  set (pa := if clears_side side Sell then _ else _) in *.
  assert (Hne : pa <> [] \/ pb <> []).
  { unfold pa, pb. destruct side as [[]|]; cbn; auto. }
  rewrite Hrb, Hra. osimpl.
  assert (Hr : rb ++ ra <> []).
  { intros [-> ->]%app_nil. destruct pa, pb; cbn in *; naive_solver. }
  set (b' := increment _ _ _).
  exists b', (rb ++ ra). split_and!.
  - destruct pa as [|], pb as [|]; [naive_solver|..]; destruct (rb ++ ra); done.
  - done.
  - intros s. destruct s; done.
  - intros s id. unfold view_of. destruct s; [apply Hcb|apply Hca].
Qed.

(** clearing stale levels of an L2 or L3 book always ends with best bid not
    above best ask, in the invariant.  A book that was not crossed is returned
    unchanged with no level removed; on a crossed book some level is removed,
    and exactly the orders of the selected side(s) at or through the other
    side's best price disappear. *)
Theorem stale_levels_cleared {E} (prices : list Z) (b : OrderBook) (side : option OrderSide) :
  book_wf prices b -> ob_book_type b <> L1_MBP ->
  exists b' removed, clear_stale_levels (E := E) b side = Ok (b', removed) /\
    book_wf prices b' /\ crossed b' = None /\
    match crossed b with
    | None => b' = b /\ removed = None
    | Some (bid, ask) =>
        (exists lv lvs, removed = Some (lv :: lvs)) /\
        forall s id, view_of b' s id =
          kept (clears_side side (as_order_side s)) (stale s (bp_value bid) (bp_value ask))
            (view_of b s id)
    end.
Proof.
  intros Hwf Hbt. destruct (crossed b) as [[bid ask]|] eqn:Hc.
  - destruct (clear_crossed (E := E) prices b side bid ask Hwf Hbt Hc) as (b' & lvs & Hr & Hne & Hwf' & Hv).
    exists b', (Some lvs). split_and!; try done; [|destruct lvs; eauto; done].
    destruct (crossed_levels prices b bid ask Hwf Hc) as (lvb & mb & lva & ma & _ & _ & Hbb & Hba & Hlt).
    apply (uncrossed_views prices b' Hwf'). intros ib ob ia oa Hob Hoa. rewrite Hv in Hob, Hoa.
    apply kept_Some in Hob as [Hob Hkb]. apply kept_Some in Hoa as [Hoa Hka].
    pose proof (best_bound prices b SBuy ib ob _ Hwf Hbb Hob).
    pose proof (best_bound prices b SSell ia oa _ Hwf Hba Hoa).
    unfold better in *.
    unfold stale, price_geb, price_leb in Hkb, Hka. destruct side as [[]|]; cbn in Hkb, Hka; lia.
  - exists b, None. split_and!; try done. unfold clear_stale_levels.
    rewrite bool_decide_false by done. unfold crossed in Hc. unfold best_bid_price, best_ask_price.
    destruct (top (ob_bids b)) as [tb|], (top (ob_asks b)) as [ta|]; try done. cbn.
    unfold price_leb, price_gtb in *.
    destruct (Z.ltb_spec (p_raw (bp_value (lv_price ta))) (p_raw (bp_value (lv_price tb)))); [done|].
    by rewrite (proj2 (Z.leb_le _ _)).
Qed.
End Top.

Section Witnesses.
Import BookDemo.

Definition px_raws : list Z := [p_raw (px 10); p_raw (px 11); p_raw (px 12)].
Lemma px_raws_free : collision_free px_raws.
Proof.
  intros p q Hp Hq. apply list_elem_of_In in Hp, Hq. cbn in Hp, Hq.
  destruct Hp as [<-|[<-|[<-|[]]]], Hq as [<-|[<-|[<-|[]]]]; vm_compute; congruence.
Qed.

(** A crossed [L2_MBP] book: bid 12 and 10, ask 11. *)
Definition crossing : list OrderBookDelta :=
  [delta ActAdd (order Buy 12 5 0) 1; delta ActAdd (order Buy 10 4 0) 2;
   delta ActAdd (order Sell 11 3 0) 3].
Definition crossed_book : OrderBook := (apply_each (book_new inst L2_MBP) crossing).1.

Lemma crossed_book_wf : book_wf px_raws crossed_book.
Proof.
  destruct (apply_each_refines px_raws crossing (book_new inst L2_MBP)) as (b' & r & Hr & Hwf & _).
  - apply px_raws_free.
  - apply book_new_wf.
  - done.
  - repeat (split; [intros s Hs; vm_compute in Hs; injection Hs as <-; split;
      [right; reflexivity|apply list_elem_of_In; vm_compute; tauto]|]); exact I.
  - unfold crossed_book. by rewrite Hr.
Qed.

Example best_price_witness :
  best_price crossed_book SBuy = Some (px 12) /\
  forall id o, view_of crossed_book SBuy id = Some o -> ~ better SBuy (bo_price o) (px 12).
Proof.
  split; [reflexivity|].
  apply (best_price_correct px_raws crossed_book SBuy crossed_book_wf). reflexivity.
Defined.

Example integrity_witness :
  book_check_integrity crossed_book =
    Err (OrdersCrossed (mkBookPrice (px 12) SBuy) (mkBookPrice (px 11) SSell)).
Proof. apply (integrity_only_crossed px_raws crossed_book), crossed_book_wf. Defined.

Example stale_levels_witness :
  exists b' removed, clear_stale_levels (E := Empty_set) crossed_book (Some Buy) = Ok (b', removed) /\
    crossed b' = None /\ view_of b' SSell (price_to_order_id (p_raw (px 11))) <> None.
Proof.
  destruct (stale_levels_cleared (E := Empty_set) px_raws crossed_book (Some Buy) crossed_book_wf)
    as (b' & removed & Hr & _ & Hc & Hv); [discriminate|].
  exists b', removed. split; [exact Hr|]. split; [exact Hc|].
  destruct (crossed crossed_book) as [[bid ask]|] eqn:Ec; [|vm_compute in Ec; discriminate Ec].
  destruct Hv as [_ Hv]. rewrite Hv. vm_compute. discriminate.
Defined.
End Witnesses.
