(* ===== verification/BookL1.v ===== *)
(** * [L1_MBP] books: quotes, trades, deltas and depth snapshots *)

From stdpp Require Import base numbers list gmap sets strings.
From Stdlib Require Import ZArith Lia Sorted.
From S2P Require Import Prelude F64 Fixed Price Quantity Enums Money OrderEvents Maps Ladder LadderInv Book BookSpec BookTop.

Section L1.
Context `{M : Mode} `{B : BookOrderApi} `{L : !BookOrderLaws} `{D : BookDataApi}.
Implicit Types (b : OrderBook) (o : BookOrder) (l : BookLadder).

(** The one order a side can hold. *)
Definition l1_top b (s : OrderSideSpecified) : option BookOrder := l1_order (side_ladder b s).

Lemma l1_top_best b s :
  l1_wf b ->
  p_raw <$> best_price b s = (fun o => p_raw (bo_price o)) <$> l1_top b s /\
  best_size b s = bo_size <$> l1_top b s.
Proof.
  intros [_ H]. destruct (H s) as [[Hok _ _] _]. rewrite best_price_eq, best_size_eq.
  unfold l1_top, l1_order. pose proof (top_best _ Hok) as Ht.
  destruct (top (side_ladder b s)) as [lv|]; [|done]. cbn.
  destruct Ht as (id & o & Hf & _ & _ & Hp & _). rewrite Hf. cbn. by rewrite Hp.
Qed.

Lemma l1_order_id l o : l1_ok l -> l1_order l = Some o -> bo_order_id o = l1_id (ld_side l).
Proof.
  intros H Ho. pose proof (l1_content l H (l1_id (ld_side l))) as Hc.
  rewrite decide_True, Ho in Hc by done.
  by destruct (order_at_inv l _ o (l1_ladder _ H) Hc) as (-> & _).
Qed.

Lemma replace_top_spec {E} l o :
  l1_ok l -> bo_side o = as_order_side (ld_side l) -> bo_order_id o = l1_id (ld_side l) ->
  exists l', replace_top (E := E) l o = Ok l' /\ l1_ok l' /\ ld_side l' = ld_side l /\
    l1_order l' = if qty_is_positive (bo_size o) then Some o else None.
Proof.
  intros Hok Hs Hid. unfold replace_top. fold (l1_order l).
  assert (exists l0, match l1_order l with Some x => remove_order (E := E) l (bo_order_id x) | None => Ok l end
            = Ok l0 /\ l1_ok l0 /\ ld_side l0 = ld_side l /\ l1_order l0 = None)
    as (l0 & -> & Hok0 & Hs0 & Ho0).
  { destruct (l1_order l) as [x|] eqn:Ex; [|by exists l].
    rewrite (l1_order_id l x Hok Ex). by apply l1_remove_spec. }
  osimpl. destruct (l1_add_spec (E := E) l0 o 0 Hok0) as (l' & Hl' & Hok' & Hs' & Ho');
    [by rewrite Hs0..|]. exists l'. split_and!; [done..|congruence|].
  rewrite Ho'. unfold l1_result. by rewrite Ho0.
Qed.

(** The book after its two sides have been replaced. *)
Lemma l1_replace {E} b bid ask :
  l1_wf b -> bo_side bid = Buy -> bo_order_id bid = 1 -> bo_side ask = Sell -> bo_order_id ask = 2 ->
  exists b', (b1 ← update_book_bid (E := E) b bid; update_book_ask b1 ask) = Ok b' /\
    l1_wf b' /\ ob_instrument_id b' = ob_instrument_id b /\
    ob_sequence b' = ob_sequence b /\ ob_ts_last b' = ob_ts_last b /\
    ob_update_count b' = ob_update_count b /\
    l1_top b' SBuy = (if qty_is_positive (bo_size bid) then Some bid else None) /\
    l1_top b' SSell = (if qty_is_positive (bo_size ask) then Some ask else None).
Proof.
  intros [Ht H] Hb1 Hb2 Ha1 Ha2. destruct (H SBuy) as [Hb Hsb]. destruct (H SSell) as [Ha Hsa].
  cbn [side_ladder] in *. unfold update_book_bid, update_book_ask.
  destruct (replace_top_spec (E := E) (ob_bids b) bid Hb) as (lb & -> & Hlb & Hlbs & Hlbo);
    [by rewrite Hsb..|]. osimpl.
  change (ob_asks (b <| ob_bids := lb |>)) with (ob_asks b).
  destruct (replace_top_spec (E := E) (ob_asks b) ask Ha) as (la & -> & Hla & Hlas & Hlao);
    [by rewrite Hsa..|]. osimpl.
  eexists. split; [reflexivity|]. split_and!; try done.
  split; [done|]. intros []; (split; [done|]); cbn; by rewrite ?Hlbs, ?Hlas.
Qed.

Lemma l1_wf_increment b seq ts : l1_wf b -> l1_wf (increment b seq ts).
Proof. intros [Ht H]. split; [done|]. intros s. rewrite side_ladder_increment. apply H. Qed.
Lemma l1_top_increment b seq ts s : l1_top (increment b seq ts) s = l1_top b s.
Proof. by destruct s. Qed.

(** A top-of-book message: what both sides become, its time. *)
Definition top_updated b b' (bid_px ask_px : Price) (bid_sz ask_sz : Quantity) (ts : UnixNanos) : Prop :=
  l1_wf b' /\ ob_instrument_id b' = ob_instrument_id b /\ ob_ts_last b' = ts /\
  ob_sequence b' = Z.max (saturate U64 (ob_sequence b + 1)) (ob_sequence b) /\
  l1_top b' SBuy =
    (if qty_is_positive bid_sz then Some (mkBookOrder Buy bid_px bid_sz 1) else None) /\
  l1_top b' SSell =
    (if qty_is_positive ask_sz then Some (mkBookOrder Sell ask_px ask_sz 2) else None).

Lemma top_message {E} b bid_px ask_px bid_sz ask_sz ts :
  l1_wf b -> ob_ts_last b <= ts ->
  exists b', (self ← update_book_bid (E := E) b (mkBookOrder Buy bid_px bid_sz 1);
              self ← update_book_ask self (mkBookOrder Sell ask_px ask_sz 2);
              Ok (increment self (saturate U64 (ob_sequence self + 1)) ts)) = Ok b' /\
    top_updated b b' bid_px ask_px bid_sz ask_sz ts.
Proof.
  intros Hwf Hts.
  destruct (l1_replace (E := E) b (mkBookOrder Buy bid_px bid_sz 1) (mkBookOrder Sell ask_px ask_sz 2))
    as (b1 & Hr & Hwf1 & Hi & Hseq & Htl & _ & Hbid & Hask); [done..|].
  destruct (update_book_bid b _) as [b0| |]; try done. osimpl. cbn [mbind outcome_bind] in Hr.
  rewrite Hr. osimpl. eexists. split; [reflexivity|].
  split_and!; [by apply l1_wf_increment|done| | |by rewrite l1_top_increment..].
  - cbn. rewrite Htl. lia.
  - cbn. by rewrite Hseq.
Qed.

(** a quote or a trade is refused by a book that is not L1, is ignored when it
    is older than the book, and otherwise replaces both sides: the best bid
    and ask are those of the quote (both the traded price for a trade), a side
    with no size becomes empty, and the book takes the message's time. *)
Theorem l1_ticks_set_top `{DL : !BookDataLaws} (b : OrderBook) (quote : QuoteTick) (trade : TradeTick) :
  (ob_book_type b <> L1_MBP ->
     update_quote_tick b quote = Err (OpUpdate (ob_book_type b)) /\
     update_trade_tick b trade = Err (OpUpdate (ob_book_type b))) /\
  (l1_wf b ->
     (qt_ts_event quote < ob_ts_last b -> update_quote_tick b quote = Ok b) /\
     (tt_ts_event trade < ob_ts_last b -> update_trade_tick b trade = Ok b) /\
     (ob_ts_last b <= qt_ts_event quote -> exists b', update_quote_tick b quote = Ok b' /\
        top_updated b b' (qt_bid_price quote) (qt_ask_price quote) (qt_bid_size quote)
          (qt_ask_size quote) (qt_ts_event quote)) /\
     (ob_ts_last b <= tt_ts_event trade -> exists b', update_trade_tick b trade = Ok b' /\
        top_updated b b' (tt_price trade) (tt_price trade) (tt_size trade) (tt_size trade)
          (tt_ts_event trade))).
Proof.
  unfold update_quote_tick, update_trade_tick. rewrite !book_order_new_eq. split.
  { intros Hbt. by rewrite bool_decide_false. }
  intros Hwf. rewrite (bool_decide_true _ (proj1 Hwf)). cbn [negb].
  split_and!; intros Hts; try by rewrite (proj2 (Z.ltb_lt _ _)).
  - rewrite (proj2 (Z.ltb_ge _ _)) by done. by apply top_message.
  - rewrite (proj2 (Z.ltb_ge _ _)) by done. by apply top_message.
Qed.

(** ** Deltas *)

(** What an action leaves on its side. *)
Definition l1_action (a : BookAction) l o (flags : Z) : option BookOrder :=
  match a with
  | ActAdd => l1_result l o flags
  | ActUpdate => if q_raw (bo_size o) =? 0 then None else Some o
  | ActDelete | ActClear => None
  end.

Lemma l1_clear_ok l :
  l1_ok l -> l1_ok (ladder_clear l) /\ ld_side (ladder_clear l) = ld_side l /\
  l1_order (ladder_clear l) = None.
Proof. intros [_ Ht _]. split_and!; try done. split; [apply ladder_clear_ok|done|by left]. Qed.

Lemma l1_action_spec {E} a l o flags :
  l1_ok l -> bo_side o = as_order_side (ld_side l) -> bo_order_id o = l1_id (ld_side l) ->
  size_defined o ->
  exists l', ladder_action (E := E) a l o flags = Ok l' /\ l1_ok l' /\ ld_side l' = ld_side l /\
    l1_order l' = l1_action a l o flags.
Proof.
  intros Hok Hs Hid Hd. destruct a; cbn [ladder_action l1_action].
  - by apply l1_add_spec.
  - by apply l1_update_spec.
  - unfold ladder_delete. rewrite Hid. by apply l1_remove_spec.
  - exists (ladder_clear l). split; [done|by apply l1_clear_ok].
Qed.

Lemma spec_order_l1 d s : bo_order_id (spec_order L1_MBP d s) = l1_id s.
Proof. done. Qed.

(** The result of one delta on an L1 book. *)
Definition l1_delta_result b (d : OrderBookDelta) (r : outcome BookIntegrityError OrderBook) : Prop :=
  match dl_action d with
  | ActClear => exists b', r = Ok b' /\ l1_wf b' /\ forall s, l1_top b' s = None
  | a =>
      match spec_side (view_of b) (dl_order d) with
      | Some s => exists b', r = Ok b' /\ l1_wf b' /\
          l1_top b' s = l1_action a (side_ladder b s) (spec_order L1_MBP d s) (dl_flags d) /\
          side_ladder b' (opposite s) = side_ladder b (opposite s)
      | None =>
          r = match a with
              | ActAdd => Err IntegrityNoOrderSide
              | _ => if bo_order_id (dl_order d) =? 0 then Err IntegrityNoOrderSide else Ok b
              end
      end
  end.

Lemma l1_delta_spec b d :
  l1_wf b -> size_defined (dl_order d) -> l1_delta_result b d (apply_delta_unchecked b d).
Proof.
  intros Hwf Hd. pose proof Hwf as [Ht H]. unfold l1_delta_result.
  destruct (decide (dl_action d = ActClear)) as [Ha|Ha].
  { rewrite clear_delta, Ha by done. eexists. split; [reflexivity|]. split.
    - apply l1_wf_increment. split; [done|]. intros s. destruct (H s) as [Hok Hs].
      pose proof (l1_clear_ok _ Hok). destruct s; cbn in *; naive_solver.
    - by intros []. }
  rewrite (apply_delta_eq []) by (try apply l1_wf_book_wf; done).
  destruct (spec_side (view_of b) (dl_order d)) as [s|] eqn:Es.
  - destruct (H s) as [Hok Hs]. rewrite sided_dispatch, Ht by done.
    destruct (l1_action_spec (E := BookIntegrityError) (dl_action d) (side_ladder b s)
                (spec_order L1_MBP d s) (dl_flags d) Hok) as (l' & Hl & Hok' & Hs' & Ho');
      [by rewrite spec_order_side, Hs|by rewrite spec_order_l1, Hs|done|].
    destruct (on_side_Ok b s (fun l => ladder_action (dl_action d) l (spec_order L1_MBP d s)
      (dl_flags d)) l' Hl) as (b' & -> & H1 & _ & _ & _ & _ & Hlad). osimpl.
    assert (Hb' : l1_wf b').
    { split; [congruence|]. intros s'. rewrite Hlad. case_decide as E; [|apply H].
      subst s'. split; [done|congruence]. }
    assert (Hgoal : exists b1, Ok (E := BookIntegrityError) (increment b' (dl_sequence d) (dl_ts_event d)) = Ok b1 /\
      l1_wf b1 /\ l1_top b1 s = l1_action (dl_action d) (side_ladder b s) (spec_order L1_MBP d s) (dl_flags d) /\
      side_ladder b1 (opposite s) = side_ladder b (opposite s)).
    { eexists. split; [reflexivity|]. split_and!; [by apply l1_wf_increment| |].
      - rewrite l1_top_increment. unfold l1_top. rewrite Hlad, decide_True by done. done.
      - rewrite side_ladder_increment, Hlad, decide_False by (by destruct s). done. }
    by destruct (dl_action d).
  - by destruct (dl_action d).
Qed.

(** on an L1 book a delta never panics and leaves at most one order per side:
    an addition replaces the side's order, except that inside a batch the
    better of the two prices is kept; an update replaces it or, at size zero,
    removes it; a deletion removes it; the other side is untouched. *)
Theorem l1_delta_correct (b : OrderBook) (d : OrderBookDelta) :
  l1_wf b -> size_defined (dl_order d) ->
  dl_instrument_id d = ob_instrument_id b ->
  l1_delta_result b d (apply_delta b d) /\
  (forall o s, bo_side (dl_order d) = as_order_side s -> dl_action d = ActAdd ->
     l1_top b s = Some o -> qty_is_positive (bo_size (dl_order d)) = true ->
     flag_matches F_SNAPSHOT (dl_flags d) = true ->
     ld_batch_state (side_ladder b s) = SnapshotBatch ->
     exists b' o', apply_delta b d = Ok b' /\ l1_top b' s = Some o' /\
       p_raw (bo_price o') = match s with
                             | SBuy => Z.max (p_raw (bo_price o)) (p_raw (bo_price (dl_order d)))
                             | SSell => Z.min (p_raw (bo_price o)) (p_raw (bo_price (dl_order d)))
                             end).
Proof.
  intros Hwf Hd Hi. unfold apply_delta. rewrite bool_decide_true by done.
  pose proof (l1_delta_spec b d Hwf Hd) as Hspec. split; [done|].
  intros o s Hside Ha Ho Hpos Hsnap Hst. unfold l1_delta_result in Hspec. rewrite Ha in Hspec.
  assert (Hs : spec_side (view_of b) (dl_order d) = Some s).
  { unfold spec_side. rewrite Hside. by destruct s. }
  rewrite Hs in Hspec. destruct Hspec as (b' & Hr & _ & Htop & _).
  assert (Hp : bo_price (spec_order L1_MBP d s) = bo_price (dl_order d)) by done.
  assert (Hz : bo_size (spec_order L1_MBP d s) = bo_size (dl_order d)) by done.
  unfold l1_action, l1_result, accumulates in Htop. unfold l1_top in Ho.
  rewrite Hz, Hpos, Ho, Hsnap, bool_decide_true in Htop by done. cbn [andb] in Htop.
  unfold bp_key, order_price in Htop. cbn [bp_side bp_value] in Htop.
  rewrite (proj2 (proj2 Hwf s)), Hp in Htop.
  destruct (_ <? _) eqn:E in Htop; exists b'; eexists; (split; [exact Hr|]); (split; [exact Htop|]);
    rewrite ?Hp; bool_simpl; destruct s; lia.
Qed.

(** ** Depth snapshots *)

Definition depth_orders (bt : BookType) (s : OrderSideSpecified) (flags : Z) (orders : list BookOrder)
  : list BookOrder :=
  (fun o => pre_process_order bt o flags) <$>
  List.filter (fun o => bool_decide (bo_side o = as_order_side s) && qty_is_positive (bo_size o)) orders.

Fixpoint add_each {E} l (os : list BookOrder) (flags : Z) : outcome E BookLadder :=
  match os with [] => Ok l | o :: os => l ← ladder_add l o flags; add_each l os flags end.

Lemma add_depth_each {E} bt s flags orders : forall l,
  add_depth_side (E := E) bt (as_order_side s) orders flags l =
  add_each l (depth_orders bt s flags orders) flags.
Proof.
  induction orders as [|o os IH]; intros l; [done|]. cbn [add_depth_side]. unfold depth_orders, is_no_side.
  cbn [List.filter]. destruct (qty_is_positive (bo_size o)); cbn [negb].
  - rewrite orb_false_r, andb_true_r.
    destruct (bool_decide_reflect (bo_side o = as_order_side s)) as [Hs|Hs].
    + rewrite bool_decide_false by (rewrite Hs; by destruct s). cbn [negb fmap list_fmap].
      cbn. destruct (ladder_add l _ flags); [|done..]. osimpl. apply IH.
    + cbn [negb]. destruct (bool_decide _); apply IH.
  - rewrite orb_true_r, andb_false_r. apply IH.
Qed.

Definition unbatched (flags : Z) : Prop :=
  flag_matches F_SNAPSHOT flags = false /\ flag_matches F_MBP flags = false.

Lemma l1_add_each {E} flags os : forall l,
  unbatched flags -> l1_ok l ->
  Forall (fun o => bo_side o = as_order_side (ld_side l) /\ bo_order_id o = l1_id (ld_side l) /\
                   qty_is_positive (bo_size o) = true) os ->
  exists l', add_each (E := E) l os flags = Ok l' /\ l1_ok l' /\ ld_side l' = ld_side l /\
    l1_order l' = match last os with Some o => Some o | None => l1_order l end.
Proof.
  induction os as [|o os IH]; intros l Hf Hok Hall; [by exists l|].
  apply Forall_cons in Hall as [(Hs & Hid & Hp) Hall]. cbn [add_each].
  destruct (l1_add_spec (E := E) l o flags Hok Hs Hid) as (l1 & -> & Hok1 & Hs1 & Ho1). osimpl.
  destruct (IH l1 Hf Hok1) as (l' & Hl' & Hok' & Hs' & Ho'); [by rewrite Hs1|].
  exists l'. split_and!; [done..|congruence|]. rewrite Ho'.
  unfold l1_result, accumulates in Ho1. destruct Hf as [Hf1 Hf2]. rewrite Hp, Hf1, Hf2 in Ho1.
  cbn in Ho1. replace (l1_order l1) with (Some o) by (by destruct (l1_order l)).
  destruct os as [|o2 os]; [done|]. rewrite last_cons_cons.
  destruct (last (o2 :: os)) eqn:E2; [done|]. by apply last_None in E2.
Qed.

(** The last usable entry of one side of a snapshot. *)
Definition last_entry (s : OrderSideSpecified) (orders : list BookOrder) : option BookOrder :=
  last (List.filter (fun o => bool_decide (bo_side o = as_order_side s) && qty_is_positive (bo_size o)) orders).

Lemma l1_depth_side {E} l s orders flags :
  unbatched flags -> l1_ok l -> ld_side l = s ->
  exists l', add_depth_side (E := E) L1_MBP (as_order_side s) orders flags (ladder_clear l) = Ok l' /\
    l1_ok l' /\ ld_side l' = s /\
    l1_order l' = (fun o => o <| bo_order_id := l1_id s |>) <$> last_entry s orders.
Proof.
  intros Hf Hok Hs. destruct (l1_clear_ok l Hok) as (Hc & Hcs & Hco). rewrite add_depth_each.
  destruct (l1_add_each (E := E) flags (depth_orders L1_MBP s flags orders) (ladder_clear l) Hf Hc)
    as (l' & Hl' & Hok' & Hs' & Ho').
  { rewrite Hcs, Hs. unfold depth_orders. apply Forall_fmap, Forall_forall. intros o Ho.
    apply list_elem_of_In, List.filter_In in Ho as [_ Ho]. apply andb_true_iff in Ho as [H1 H2].
    apply bool_decide_eq_true in H1. cbn. unfold l1_id. by rewrite H1. }
  exists l'. split_and!; [done..|congruence|]. rewrite Ho', Hco. unfold depth_orders, last_entry.
  rewrite fmap_last.
  destruct (last (List.filter _ orders)) as [o|] eqn:E0; [|done]. cbn. f_equal.
  apply last_Some_elem_of, list_elem_of_In, List.filter_In in E0 as [_ H1].
  apply andb_true_iff in H1 as [H1 _]. apply bool_decide_eq_true in H1.
  unfold l1_id. by rewrite H1.
Qed.

(** a depth snapshot applied to an L1 book without batch flags leaves on each
    side the last usable entry of the snapshot: the levels come best first, so
    the book is left with the worst of them as its top of book. *)
Theorem l1_depth_keeps_last (b : OrderBook) (depth : OrderBookDepth10) :
  l1_wf b -> dp_instrument_id depth = ob_instrument_id b -> unbatched (dp_flags depth) ->
  exists b', apply_depth b depth = Ok b' /\ l1_wf b' /\
    counted b (dp_sequence depth) (dp_ts_event depth) b' /\
    l1_top b' SBuy = (fun o => o <| bo_order_id := 1 |>) <$> last_entry SBuy (dp_bids depth) /\
    l1_top b' SSell = (fun o => o <| bo_order_id := 2 |>) <$> last_entry SSell (dp_asks depth).
Proof.
  intros [Ht H] Hi Hf. unfold apply_depth. rewrite bool_decide_true by done.
  unfold apply_depth_unchecked. rewrite Ht.
  destruct (H SBuy) as [Hb Hsb]. destruct (H SSell) as [Ha Hsa]. cbn [side_ladder] in *.
  destruct (l1_depth_side (E := BookIntegrityError) _ SBuy (dp_bids depth) _ Hf Hb Hsb)
    as (lb & Eb & Hlb & Hlbs & Hlbo). cbn [as_order_side] in Eb. rewrite Eb. osimpl.
  destruct (l1_depth_side (E := BookIntegrityError) _ SSell (dp_asks depth) _ Hf Ha Hsa)
    as (la & Ea & Hla & Hlas & Hlao). cbn [as_order_side] in Ea. rewrite Ea. osimpl.
  eexists. split; [reflexivity|]. split_and!; [|by apply increment_counted|done..].
  apply l1_wf_increment. split; [done|]. by intros [].
Qed.
End L1.

Section Witnesses.
Import BookDemo.

Lemma l1_new_wf : l1_wf (book_new inst L1_MBP).
Proof. split; [done|]. intros []; (split; [|done]); (split; [apply empty_ok|done|by left]). Qed.

(** A quote of 10 at 11, then a worse snapshot entry. *)
Definition quote_10_11 : QuoteTick := mkQuote inst (px 10) (px 11) (qty 5) (qty 3) 7 7.
Definition trade_10 : TradeTick := mkTrade inst (px 10) (qty 1) Buyer "T-1" 7 7.

Example l1_ticks_witness :
  exists b', update_quote_tick (book_new inst L1_MBP) quote_10_11 = Ok b' /\
    l1_top b' SBuy = Some (order Buy 10 5 1) /\ l1_top b' SSell = Some (order Sell 11 3 2).
Proof.
  destruct (proj2 (l1_ticks_set_top (book_new inst L1_MBP) quote_10_11 trade_10) l1_new_wf)
    as (_ & _ & H & _).
  destruct H as (b' & Hr & _ & _ & _ & _ & Hb & Ha); [vm_compute; discriminate|].
  exists b'. auto.
Defined.

Definition snapshot_add (p : Z) : OrderBookDelta :=
  mkDelta inst ActAdd (order Buy p 1 0) (flag_repr F_SNAPSHOT) 1 1 1.

Example l1_delta_witness :
  exists b' o', apply_delta (book_new inst L1_MBP) (snapshot_add 10) = Ok b' /\
    l1_top b' SBuy = Some o' /\ p_raw (bo_price o') = 10 * 10 ^ 9.
Proof.
  destruct (proj1 (l1_delta_correct (book_new inst L1_MBP) (snapshot_add 10) l1_new_wf
              (or_intror eq_refl) eq_refl)) as (b' & Hr & _ & Ht & _).
  vm_compute in Ht. eexists b', _. split; [exact Hr|]. split; [exact Ht|reflexivity].
Defined.

Definition depth_10_9 : OrderBookDepth10 :=
  mkDepth10 inst [order Buy 10 5 1; order Buy 9 5 2; order NoOrderSide 0 0 0]
    [order Sell 11 5 1; order Sell 12 5 2] [1; 1; 0] [1; 1] 0 1 1 1.

Example l1_depth_witness :
  exists b', apply_depth (book_new inst L1_MBP) depth_10_9 = Ok b' /\
    l1_top b' SBuy = Some (order Buy 9 5 1) /\ l1_top b' SSell = Some (order Sell 12 5 2).
Proof.
  destruct (l1_depth_keeps_last (book_new inst L1_MBP) depth_10_9 l1_new_wf eq_refl
              (conj eq_refl eq_refl)) as (b' & Hr & _ & _ & Hb & Ha).
  exists b'. auto.
Defined.
End Witnesses.
