(* ===== verification/BookSnapshot.v ===== *)
(** * Snapshots: [to_deltas] and [apply_deltas] are inverse *)

From stdpp Require Import base numbers list gmap sets strings.
From Stdlib Require Import ZArith Lia Sorted.
From S2P Require Import Prelude F64 Fixed Price Quantity Enums Money OrderEvents Maps Ladder LadderInv Book BookSpec BookTop BookL1.

Section Snapshot.
Context `{M : Mode} `{B : BookOrderApi} `{L : !BookOrderLaws} `{D : BookDataApi}.
Implicit Types (b : OrderBook) (o : BookOrder) (l : BookLadder) (lv : BookLevel) (k : BookPrice).

(** ** Adding orders in priority order *)

Lemma bt_insert_end k v (m : list (BookPrice * BookLevel)) :
  (forall x, x ∈ m -> bp_key x.1 < bp_key k) -> bt_insert bp_key k v m = m ++ [(k, v)].
Proof.
  induction m as [|[k' v'] m IH]; intros H; [done|]. rewrite bt_insert_cons.
  pose proof (H (k', v') ltac:(left)) as Hk. cbn in Hk.
  rewrite (proj2 (Z.compare_gt_iff (bp_key k) (bp_key k'))) by lia.
  rewrite IH; [done|]. intros x Hx. apply H. by right.
Qed.

Lemma bt_insert_last k v k' v' (m : list (BookPrice * BookLevel)) :
  (forall x, x ∈ m -> bp_key x.1 < bp_key k) -> bp_key k' = bp_key k ->
  bt_insert bp_key k v (m ++ [(k', v')]) = m ++ [(k', v)].
Proof.
  induction m as [|[k2 v2] m IH]; intros H Hk; cbn [app]; rewrite bt_insert_cons.
  - by rewrite Hk, Z.compare_refl.
  - pose proof (H (k2, v2) ltac:(left)) as Hk2. cbn in Hk2.
    rewrite (proj2 (Z.compare_gt_iff (bp_key k) (bp_key k2))) by lia.
    rewrite IH; [done| |done]. intros x Hx. apply H. by right.
Qed.

Lemma im_insert_fresh i (v : BookOrder) m : i ∉ im_keys m -> im_insert i v m = m ++ [(i, v)].
Proof.
  induction m as [|[j w] m IH]; intros H; [done|]. rewrite im_insert_cons. unfold im_keys in H. cbn in H. apply not_elem_of_cons in H as [H1 H2].
  destruct (Z.eqb_spec j i) as [->|_]; [done|]. by rewrite IH.
Qed.

Lemma orders_of_app l m1 m2 :
  ld_levels l = m1 ++ m2 ->
  orders_of l = concat (get_orders <$> (snd <$> m1)) ++ concat (get_orders <$> (snd <$> m2)).
Proof. intros H. unfold orders_of, levels_of. by rewrite H, !fmap_app, concat_app. Qed.

Lemma bt_sorted_end (k : BookPrice) v (m : list (BookPrice * BookLevel)) :
  bt_sorted bp_key (m ++ [(k, v)]) -> forall x, x ∈ m -> bp_key x.1 < bp_key k.
Proof.
  induction m as [|[k' v'] m IH]; intros Hs x Hx; [by apply not_elem_of_nil in Hx|].
  apply bt_sorted_inv in Hs as [Hs Hf]. apply elem_of_cons in Hx as [->|Hx]; [|by apply IH].
  rewrite Forall_forall in Hf. apply Hf, list_elem_of_fmap. exists (k, v).
  split; [done|]. apply elem_of_app. right. left.
Qed.

(** Every level of the ladder has key at most [c]. *)
Definition keys_upto l (c : Z) : Prop := forall x, x ∈ ld_levels l -> bp_key x.1 <= c.

Lemma inserted_orders l o :
  ladder_ok l -> order_at l (bo_order_id o) = None -> keys_upto l (bp_key (order_price l o)) ->
  orders_of (inserted l o) = orders_of l ++ [o].
Proof.
  intros Hok Hnew Hup. set (p := order_price l o) in *.
  destruct (ld_levels l) as [|x m _] eqn:El using rev_ind.
  { unfold orders_of, levels_of, inserted, new_level, old_level. cbn. by rewrite El. }
  destruct x as [k lv]. pose proof (lo_sorted _ Hok) as Hs. rewrite El in Hs.
  assert (Hlt : forall x, x ∈ m -> bp_key x.1 < bp_key k) by (by apply (bt_sorted_end k lv)).
  assert (Hk : bp_key k <= bp_key p) by (apply (Hup (k, lv)); rewrite El; set_solver).
  assert (Hin : (k, lv) ∈ ld_levels l) by (rewrite El; set_solver).
  rewrite (orders_of_app l m [(k, lv)] El). rewrite <- app_assoc.
  destruct (Z.eq_dec (bp_key k) (bp_key p)) as [Ek|Ek].
  - assert (Hold : old_level l o = Some lv).
    { unfold old_level. fold p. pose proof (bt_elem_get bp_key k _ lv (lo_sorted _ Hok) Hin) as Hg.
      unfold bt_get in *. by rewrite <- Ek. }
    assert (Hl : ld_levels (inserted l o) = m ++ [(k, new_level l o)]).
    { unfold inserted. cbn. fold p. rewrite El. apply bt_insert_last; [|done].
      intros x Hx. rewrite <- Ek. by apply Hlt. }
    rewrite (orders_of_app _ m _ Hl). f_equal. cbn. rewrite !app_nil_r.
    unfold new_level. rewrite Hold. unfold get_orders. cbn. rewrite im_insert_fresh; [by rewrite fmap_app|].
    intros Hid. destruct (lo_cached _ Hok _ _ _ Hin Hid) as (q & Hq & _).
    apply (order_at_None l _ Hok) in Hnew. congruence.
  - assert (Hlt' : forall x, x ∈ m ++ [(k, lv)] -> bp_key x.1 < bp_key p).
    { intros x [Hx|Hx]%elem_of_app; [specialize (Hlt x Hx); lia|].
      apply list_elem_of_singleton in Hx as ->. cbn. lia. }
    assert (Hold : old_level l o = None).
    { unfold old_level. fold p. rewrite El. apply bt_get_notin. intros (x & Hx & Hxm)%list_elem_of_fmap.
      specialize (Hlt' x Hxm). lia. }
    assert (Hl : ld_levels (inserted l o) = m ++ [(k, lv); (p, new_level l o)]).
    { unfold inserted. cbn. fold p. rewrite El, bt_insert_end by done. by rewrite <- app_assoc. }
    rewrite (orders_of_app _ m _ Hl). f_equal. cbn. rewrite !app_nil_r. f_equal.
    unfold new_level. by rewrite Hold.
Qed.

(** ** The orders of a ladder are in priority order *)

Definition okey (s : OrderSideSpecified) o : Z := bp_key (mkBookPrice (bo_price o) s).

Lemma level_okey s k lv o :
  level_ok s k lv -> o ∈ get_orders lv -> okey s o = bp_key k.
Proof.
  intros [Hs _ _ _ Hall] Ho. unfold get_orders in Ho. apply list_elem_of_fmap in Ho as ([id o'] & -> & Hin).
  rewrite Forall_forall in Hall. destruct (Hall _ Hin) as (_ & Hp & _). cbn in *.
  apply bp_key_eq; [done|exact Hp].
Qed.

Lemma levels_okeys s m :
  bt_sorted bp_key m -> (forall k lv, (k, lv) ∈ m -> level_ok s k lv) ->
  StronglySorted Z.le (okey s <$> concat (get_orders <$> (snd <$> m))).
Proof.
  induction m as [|[k lv] m IH]; intros Hs Hok; [constructor|].
  apply bt_sorted_inv in Hs as [Hs Hf]. cbn. rewrite fmap_app. apply ss_app.
  - apply (ss_const (bp_key k)). intros x (o & -> & Ho)%list_elem_of_fmap.
    apply (level_okey s k lv); [apply Hok; left|done].
  - apply IH; [done|]. intros k' lv' H'. apply Hok. by right.
  - intros x y (o & -> & Ho)%list_elem_of_fmap (o' & -> & Ho')%list_elem_of_fmap.
    rewrite (level_okey s k lv) by (try apply Hok; try done; left).
    apply elem_of_concat in Ho' as (os & Hos & Ho').
    apply list_elem_of_fmap in Hos as (lv' & -> & Hlv').
    apply list_elem_of_fmap in Hlv' as ([k' lv''] & -> & Hk').
    rewrite (level_okey s k' lv'') by (try (apply Hok; by right); done).
    rewrite Forall_forall in Hf. apply Z.lt_le_incl, Hf, list_elem_of_fmap. by exists (k', lv'').
Qed.

Lemma orders_of_elem l o :
  ladder_ok l -> o ∈ orders_of l <-> order_at l (bo_order_id o) = Some o.
Proof.
  intros Hok. unfold orders_of, levels_of. rewrite elem_of_concat. split.
  - intros (os & Hos & Ho). apply list_elem_of_fmap in Hos as (lv & -> & Hlv).
    apply list_elem_of_fmap in Hlv as ([k lv'] & -> & Hk). cbn in Ho.
    unfold get_orders in Ho. apply list_elem_of_fmap in Ho as ([id o'] & -> & Hin). cbn.
    pose proof (lk_orders _ _ _ (lo_levels _ Hok _ _ Hk)) as Hall. rewrite Forall_forall in Hall.
    destruct (Hall _ Hin) as (Hid & _). cbn in Hid. subst id. by apply (order_at_level l k lv').
  - intros Ho. destruct (order_at_elem l _ o Hok Ho) as (k & lv & Hk & Hin & _).
    exists (get_orders lv). split.
    + apply list_elem_of_fmap. exists lv. split; [done|]. apply list_elem_of_fmap. by exists (k, lv).
    + apply list_elem_of_fmap. by eexists (_, o).
Qed.

Lemma orders_of_ids l : ladder_ok l -> bo_order_id <$> orders_of l = all_ids l.
Proof.
  intros Hok. unfold orders_of, levels_of, all_ids.
  assert (H : forall k lv, (k, lv) ∈ ld_levels l -> bo_order_id <$> get_orders lv = im_keys (lv_orders lv)).
  { intros k lv Hk. pose proof (lk_orders _ _ _ (lo_levels _ Hok _ _ Hk)) as Hall.
    unfold get_orders, im_keys. rewrite <- list_fmap_compose. apply list_fmap_ext.
    intros i [id o] Hi. apply list_elem_of_lookup_2 in Hi. rewrite Forall_forall in Hall.
    destruct (Hall _ Hi) as (Hid & _). done. }
  revert H. generalize (ld_levels l). induction l0 as [|[k lv] m IH]; intros H; [done|].
  cbn. rewrite fmap_app, IH; [|intros k' lv' H'; apply (H k'); by right].
  f_equal. apply (H k). left.
Qed.

(** ** Rebuilding a ladder from its orders *)

Definition sided (l : BookLadder) o : Prop :=
  bo_side o = as_order_side (ld_side l) /\ qty_is_positive (bo_size o) = true.

(** [os] can be added to [l] one after the other, each at the end. *)
Record appendable (l : BookLadder) (os : list BookOrder) : Prop := {
  ap_ok : ladder_ok l;
  ap_sided : Forall (sided l) os;
  ap_sorted : StronglySorted Z.le (okey (ld_side l) <$> os);
  ap_ids : NoDup (bo_order_id <$> os);
  ap_new : forall o, o ∈ os ->
    order_at l (bo_order_id o) = None /\ keys_upto l (okey (ld_side l) o);
}.

Lemma appendable_cons l o os :
  appendable l (o :: os) ->
  sided l o /\ order_at l (bo_order_id o) = None /\ keys_upto l (okey (ld_side l) o) /\
  appendable (inserted l o) os.
Proof.
  intros [Hok [[Hs Hp] Hall]%Forall_cons Hss Hnd Hnew]. cbn in Hss, Hnd.
  apply StronglySorted_inv in Hss as [Hss Hf]. apply NoDup_cons in Hnd as [Hid Hnd].
  destruct (Hnew o ltac:(left)) as [Ho Hup].
  assert (Hfresh : forall p, ld_cache l !! bo_order_id o = Some p -> p_raw (bp_value p) = p_raw (bo_price o)).
  { intros p Hpp. apply (order_at_None l _ Hok) in Ho. congruence. }
  split_and!; [done..|]. split; [by apply inserted_ok|done..|]. intros o' Ho'.
  destruct (Hnew o' ltac:(by right)) as [Hn Hu]. split.
  - rewrite inserted_order_at by done. rewrite decide_False; [done|].
    intros E. apply Hid. rewrite <- E. apply list_elem_of_fmap. by exists o'.
  - intros [k lv] Hk. apply inserted_level in Hk as [[Hk _]|(_ & Hkk & _)]; try done; [by apply Hu|].
    cbn. rewrite Hkk. rewrite Forall_forall in Hf. apply Hf, list_elem_of_fmap. by exists o'.
Qed.

Lemma insert_all_ok os : forall l,
  appendable l os ->
  ladder_ok (foldl inserted l os) /\ ld_side (foldl inserted l os) = ld_side l /\
  ld_book_type (foldl inserted l os) = ld_book_type l /\
  orders_of (foldl inserted l os) = orders_of l ++ os.
Proof.
  induction os as [|o os IH]; intros l Hap; cbn [foldl].
  { rewrite app_nil_r. by destruct Hap. }
  destruct (appendable_cons l o os Hap) as (_ & Ho & Hup & Hap').
  destruct (IH (inserted l o) Hap') as (H1 & H2 & H3 & H4). split_and!; [done..|].
  rewrite H4, inserted_orders by (try done; apply Hap). by rewrite <- app_assoc.
Qed.

Lemma orders_appendable l l0 :
  ladder_ok l -> ladder_ok l0 -> ld_levels l0 = [] -> ld_side l0 = ld_side l ->
  appendable l0 (orders_of l).
Proof.
  intros Hok Hok0 Hm Hs. split; [done|..].
  - apply Forall_forall. intros o Ho. apply (orders_of_elem l o Hok) in Ho.
    destruct (order_at_inv l _ o Hok Ho) as (_ & Hp & Hside & _). split; [by rewrite Hs|done].
  - rewrite Hs. apply levels_okeys; [apply Hok|apply (lo_levels _ Hok)].
  - rewrite orders_of_ids by done. by apply all_ids_nodup.
  - intros o _. split; [|intros x; by rewrite Hm; intros ?%not_elem_of_nil].
    apply order_at_None; [done|]. by rewrite (l1_cache_empty l0).
Qed.

Lemma orders_content l l' :
  ladder_ok l -> ladder_ok l' -> orders_of l' = orders_of l -> forall id, order_at l' id = order_at l id.
Proof.
  intros Hok Hok' He id.
  assert (H : forall x y, ladder_ok x -> ladder_ok y -> orders_of x = orders_of y ->
            forall o, order_at x id = Some o -> order_at y id = Some o).
  { intros x y Hx Hy Hxy o Ho. pose proof Ho as Ho'.
    apply order_at_inv in Ho' as (Hid & _); [|done]. subst id.
    apply orders_of_elem; [done|]. rewrite <- Hxy. by apply orders_of_elem. }
  destruct (order_at l' id) eqn:E1; [symmetry; by apply (H l' l)|].
  destruct (order_at l id) eqn:E2; [|done]. by rewrite (H l l' Hok Hok' (eq_sym He) _ E2) in E1.
Qed.

(** ** The deltas of a snapshot *)

Lemma apply_each_app ds1 : forall b ds2,
  apply_each b (ds1 ++ ds2) =
    match apply_each b ds1 with (b1, Ok _) => apply_each b1 ds2 | r => r end.
Proof.
  induction ds1 as [|d ds1 IH]; intros b ds2; cbn; [done|].
  by destruct (apply_delta_unchecked b d).
Qed.

(** An [Add] delta of an order with snapshot flags. *)
Definition snapshot_flags (flags : Z) : Prop :=
  flags = flag_repr F_SNAPSHOT \/ flags = Z.lor (flag_repr F_SNAPSHOT) (flag_repr F_LAST).
Definition snapshot_delta o (d : OrderBookDelta) : Prop :=
  dl_action d = ActAdd /\ dl_order d = o /\ snapshot_flags (dl_flags d).

(** The order keeps its id in a book of this type. *)
Definition keeps_id (bt : BookType) o : Prop :=
  match bt with
  | L1_MBP => False
  | L2_MBP => bo_order_id o = price_based_order_id o
  | L3_MBO => True
  end.

Lemma keeps_id_process bt o flags :
  keeps_id bt o -> snapshot_flags flags -> pre_process_order bt o flags = o.
Proof.
  intros Hk Hf. unfold pre_process_order. destruct bt; [done| |].
  - cbn in Hk. destruct o as [s p q id]. cbn in *. by rewrite <- Hk.
  - destruct Hf as [-> | ->]; done.
Qed.

Lemma ladder_add_inserted {E} l o flags :
  ladder_ok l -> ld_book_type l <> L1_MBP -> sided l o ->
  ladder_add (E := E) l o flags = Ok (inserted l o).
Proof.
  intros Hok Hbt [Hs Hp]. unfold ladder_add, is_l1. rewrite bool_decide_false by done. cbn [negb andb].
  rewrite bool_decide_false, Hp by done. cbn [negb andb]. rewrite insert_order_Ok by done. osimpl.
  rewrite bool_decide_false by done. done.
Qed.

Lemma apply_snapshot s os : forall b ds,
  Forall2 snapshot_delta os ds -> Forall (keeps_id (ob_book_type b)) os ->
  ld_side (side_ladder b s) = s -> ld_book_type (side_ladder b s) = ob_book_type b ->
  appendable (side_ladder b s) os ->
  exists b', apply_each b ds = (b', Ok tt) /\ ob_book_type b' = ob_book_type b /\
    ob_instrument_id b' = ob_instrument_id b /\
    forall s', side_ladder b' s' =
      if decide (s' = s) then foldl inserted (side_ladder b s) os else side_ladder b s'.
Proof.
  induction os as [|o os IH]; intros b ds Hds Hk Hs Ht Hap.
  { apply Forall2_nil_inv_l in Hds as ->. exists b. split_and!; try done.
    intros s'. by case_decide; subst. }
  apply Forall2_cons_inv_l in Hds as (d & ds' & (Ha & Hdo & Hf) & Hds & ->).
  apply Forall_cons in Hk as [Hk Hks].
  destruct (appendable_cons _ _ _ Hap) as ([Hside Hpos] & _ & _ & Hap').
  assert (Hbt : ob_book_type b <> L1_MBP) by (by intros E; rewrite E in Hk).
  assert (Hd : apply_delta_unchecked b d = dispatch_delta b d ((dl_order d) <| bo_side := as_order_side s |>)).
  { unfold apply_delta_unchecked, is_no_side. rewrite Hs in Hside. rewrite Hdo, bool_decide_false
      by (rewrite Hside; by destruct s). cbn [andb]. f_equal. by apply same_side_order. }
  assert (Ho : spec_order (ob_book_type b) d s = o).
  { unfold spec_order. rewrite Hdo, <- same_side_order by (by rewrite Hs in Hside).
    by apply keeps_id_process. }
  cbn [apply_each]. rewrite Hd, sided_dispatch, Ho, Ha by (by rewrite Ha). cbn [ladder_action].
  destruct (on_side_Ok (E := BookIntegrityError) b s (fun l => ladder_add l o (dl_flags d))
              (inserted (side_ladder b s) o)) as (b1 & -> & H1 & H2 & _ & _ & _ & Hlad).
  { apply ladder_add_inserted; [apply Hap|by rewrite Ht|done]. }
  osimpl.
  assert (Hl1 : side_ladder (increment b1 (dl_sequence d) (dl_ts_event d)) s =
                inserted (side_ladder b s) o).
  { rewrite side_ladder_increment, Hlad. by rewrite decide_True. }
  destruct (IH (increment b1 (dl_sequence d) (dl_ts_event d)) ds') as (b' & Hr & Hbt' & Hi' & Hl').
  - done.
  - cbn. by rewrite H1.
  - by rewrite Hl1.
  - rewrite Hl1. cbn. by rewrite H1.
  - by rewrite Hl1.
  - exists b'. split_and!; [done|by rewrite Hbt'|by rewrite Hi'|].
    intros s'. rewrite Hl', Hl1. cbn [foldl]. case_decide as Es; [done|].
    rewrite side_ladder_increment, Hlad. by rewrite decide_False.
Qed.

Section RoundTrip.
Context `{DL : !BookDataLaws}.

Lemma add_deltas_Ok {E} b os te ti : forall count total,
  Forall (fun o => qty_is_positive (bo_size o) = true) os ->
  exists ds, add_deltas (E := E) b os count total te ti = Ok ds /\ Forall2 snapshot_delta os ds.
Proof.
  induction os as [|o os IH]; intros count total Hp; [by exists []|].
  apply Forall_cons in Hp as [Ho Hp]. cbn [add_deltas]. rewrite delta_new_eq by done. osimpl.
  destruct (IH (count + 1) total Hp) as (ds & -> & Hds). osimpl.
  eexists. split; [reflexivity|]. constructor; [|done].
  split_and!; try done. cbn. destruct (_ =? _); [by right|by left].
Qed.

Lemma to_deltas_Ok {E} b te ti :
  (forall s, ladder_ok (side_ladder b s)) ->
  exists c dbs das, to_deltas (E := E) b te ti = Ok (mkDeltas (ob_instrument_id b) (c :: dbs ++ das)) /\
    dl_action c = ActClear /\
    Forall2 snapshot_delta (orders_of (ob_bids b)) dbs /\
    Forall2 snapshot_delta (orders_of (ob_asks b)) das.
Proof.
  intros Hok.
  assert (Hp : Forall (fun o => qty_is_positive (bo_size o) = true)
                 (orders_of (ob_bids b) ++ orders_of (ob_asks b))).
  { apply Forall_forall. intros o [Ho|Ho]%elem_of_app;
      [apply (orders_of_elem _ _ (Hok SBuy)) in Ho|apply (orders_of_elem _ _ (Hok SSell)) in Ho];
      by apply order_at_inv in Ho as (_ & Hpos & _). }
  unfold to_deltas. set (total := _ + _).
  destruct (add_deltas_Ok (E := E) b _ te ti 0 total Hp) as (ds & -> & Hds). osimpl.
  rewrite deltas_new_eq by done.
  apply Forall2_app_inv_l in Hds as (dbs & das & Hb & Ha & ->).
  eexists _, dbs, das. split; [reflexivity|]. split_and!; try done.
  by destruct (total =? 0); apply delta_clear_eq.
Qed.

Lemma clear_sides b seq ts s :
  side_ladder (book_clear b seq ts) s = ladder_clear (side_ladder b s).
Proof. by destruct s. Qed.

Lemma wf_keeps_id prices b s :
  book_wf prices b -> ob_book_type b <> L1_MBP ->
  Forall (keeps_id (ob_book_type b)) (orders_of (side_ladder b s)).
Proof.
  intros Hwf Hbt. destruct (Hwf s) as [Hok _ _ Hm]. apply Forall_forall. intros o Ho.
  apply (orders_of_elem _ _ Hok) in Ho. unfold keeps_id. destruct (ob_book_type b); [done| |done].
  by destruct (Hm eq_refl _ _ Ho).
Qed.

Lemma rebuilt_side prices b b2 s seq ts l' :
  book_wf prices b -> book_wf prices b2 -> ob_book_type b2 = ob_book_type b ->
  l' = foldl inserted (side_ladder (book_clear b2 seq ts) s) (orders_of (side_ladder b s)) ->
  appendable (side_ladder (book_clear b2 seq ts) s) (orders_of (side_ladder b s)) /\
  side_wf prices (ob_book_type b) s l' /\ orders_of l' = orders_of (side_ladder b s) /\
  forall id, order_at l' id = order_at (side_ladder b s) id.
Proof.
  intros Hwf Hwf2 Ht ->. destruct (Hwf s) as [Hok Hs Hty Hm]. destruct (Hwf2 s) as [Hok2 Hs2 Hty2 _].
  rewrite clear_sides.
  assert (Hap : appendable (ladder_clear (side_ladder b2 s)) (orders_of (side_ladder b s))).
  { apply orders_appendable; [done|apply ladder_clear_ok|done|]. cbn. congruence. }
  destruct (insert_all_ok _ _ Hap) as (H1 & H2 & H3 & H4).
  assert (Hc : forall id, order_at (foldl inserted (ladder_clear (side_ladder b2 s))
                 (orders_of (side_ladder b s))) id = order_at (side_ladder b s) id)
    by (by apply orders_content).
  split_and!; try done. split; [done| | |].
  - rewrite H2. cbn. congruence.
  - rewrite H3. cbn. congruence.
  - intros E id o. rewrite Hc. by apply Hm.
Qed.

Lemma roundtrip_mbo prices b b2 te ti :
  book_wf prices b -> book_wf prices b2 -> ob_book_type b <> L1_MBP ->
  ob_book_type b2 = ob_book_type b -> ob_instrument_id b2 = ob_instrument_id b ->
  exists ds b', to_deltas (E := BookIntegrityError) b te ti = Ok ds /\
    apply_deltas b2 ds = (b', Ok tt) /\ book_wf prices b' /\ ob_book_type b' = ob_book_type b /\
    forall s, orders_of (side_ladder b' s) = orders_of (side_ladder b s).
Proof.
  intros Hwf Hwf2 Hbt Ht Hi.
  destruct (to_deltas_Ok (E := BookIntegrityError) b te ti (fun s => sw_ok _ _ _ _ (Hwf s)))
    as (c & dbs & das & Htd & Hc & Hdb & Hda).
  exists (mkDeltas (ob_instrument_id b) (c :: dbs ++ das)). unfold apply_deltas, apply_deltas_unchecked. cbn [ds_instrument_id ds_deltas].
  rewrite bool_decide_true by done. cbn [apply_each]. rewrite clear_delta by done.
  set (b0 := book_clear b2 (dl_sequence c) (dl_ts_event c)).
  destruct (rebuilt_side prices b b2 SBuy (dl_sequence c) (dl_ts_event c) _ Hwf Hwf2 Ht eq_refl)
    as (Hapb & Hwb & Hob & _).
  destruct (rebuilt_side prices b b2 SSell (dl_sequence c) (dl_ts_event c) _ Hwf Hwf2 Ht eq_refl)
    as (Hapa & Hwa & Hoa & _). fold b0 in Hapb, Hwb, Hob, Hapa, Hwa, Hoa.
  assert (Hs0 : forall s, ld_side (side_ladder b0 s) = s /\
            ld_book_type (side_ladder b0 s) = ob_book_type b0).
  { intros s. unfold b0. rewrite clear_sides. by destruct (Hwf2 s). }
  destruct (apply_snapshot SBuy _ b0 dbs Hdb) as (b1 & Hr1 & Ht1 & Hi1 & Hl1); try apply Hs0; [|done|].
  { change (ob_book_type b0) with (ob_book_type b2). rewrite Ht. by apply (wf_keeps_id prices b SBuy). }
  assert (Hask : side_ladder b1 SSell = side_ladder b0 SSell) by (by rewrite Hl1).
  destruct (apply_snapshot SSell _ b1 das Hda) as (b' & Hr' & Ht' & Hi' & Hl').
  { rewrite Ht1. change (ob_book_type b0) with (ob_book_type b2). rewrite Ht.
    by apply (wf_keeps_id prices b SSell). }
  { rewrite Hask. apply Hs0. }
  { rewrite Hask, Ht1. apply Hs0. }
  { by rewrite Hask. }
  exists b'. rewrite apply_each_app, Hr1.
  assert (Hbt' : ob_book_type b' = ob_book_type b).
  { rewrite Ht', Ht1. change (ob_book_type b0) with (ob_book_type b2). done. }
  assert (Hlb : side_ladder b' SBuy = foldl inserted (side_ladder b0 SBuy) (orders_of (side_ladder b SBuy))).
  { rewrite Hl', decide_False, Hl1, decide_True by done. done. }
  assert (Hla : side_ladder b' SSell = foldl inserted (side_ladder b0 SSell) (orders_of (side_ladder b SSell))).
  { rewrite Hl', decide_True by done. by rewrite Hask. }
  split_and!; [exact Htd|exact Hr'| |done|].
  - intros s. rewrite Hbt'. destruct s; [by rewrite Hlb|by rewrite Hla].
  - intros s. destruct s; [by rewrite Hlb|by rewrite Hla].
Qed.

(** ** [L1_MBP] books *)

Lemma l1_orders l :
  l1_ok l -> orders_of l = match l1_order l with Some o => [o] | None => [] end.
Proof.
  intros [_ _ [H|(k & o & H)]]; unfold orders_of, levels_of, l1_order, top; by rewrite H.
Qed.

Lemma l1_apply_snapshot b s d o :
  l1_wf b -> l1_top b s = None -> snapshot_delta o d -> bo_side o = as_order_side s ->
  bo_order_id o = l1_id s -> qty_is_positive (bo_size o) = true ->
  exists b', apply_delta_unchecked b d = Ok b' /\ l1_wf b' /\ l1_top b' s = Some o /\
    side_ladder b' (opposite s) = side_ladder b (opposite s).
Proof.
  intros Hwf Hnone (Ha & Hdo & Hf) Hs Hid Hp.
  pose proof (l1_delta_spec b d Hwf) as H. unfold l1_delta_result in H. rewrite Ha, Hdo in H.
  assert (spec_side (view_of b) o = Some s) as Hss.
  { unfold spec_side. rewrite Hs. by destruct s. }
  rewrite Hss in H. destruct H as (b' & Hr & Hwf' & Htop & Hother); [by right|].
  exists b'. split_and!; try done. rewrite Htop.
  assert (Ho : spec_order L1_MBP d s = o).
  { unfold spec_order. rewrite Hdo, <- same_side_order by done. destruct o as [so p q i]. cbn in *.
    unfold l1_id in Hid. by rewrite Hid, Hs. }
  unfold l1_action, l1_result. unfold l1_top in Hnone. by rewrite Ho, Hp, Hnone.
Qed.

(** One side of an L1 snapshot: no delta, or the delta of its order. *)
Lemma l1_apply_side b bsrc s ds :
  l1_wf b -> l1_wf bsrc -> l1_top b s = None ->
  Forall2 snapshot_delta (orders_of (side_ladder bsrc s)) ds ->
  exists b', apply_each b ds = (b', Ok tt) /\ l1_wf b' /\ l1_top b' s = l1_top bsrc s /\
    side_ladder b' (opposite s) = side_ladder b (opposite s).
Proof.
  intros Hwf [_ Hsrc] Hnone Hds. destruct (Hsrc s) as [Hok Hs]. rewrite l1_orders in Hds by done.
  change (l1_order (side_ladder bsrc s)) with (l1_top bsrc s) in Hds.
  destruct (l1_top bsrc s) as [o|] eqn:Eo.
  - apply Forall2_cons_inv_l in Hds as (d & ds' & Hd & Hnil & ->).
    apply Forall2_nil_inv_l in Hnil as ->.
    pose proof (l1_content _ Hok (l1_id s)) as Hc.
    rewrite Hs, decide_True in Hc by done. change (l1_order (side_ladder bsrc s)) with (l1_top bsrc s) in Hc.
    rewrite Eo in Hc. apply order_at_inv in Hc as (Hid & Hp & Hside & _); [|apply Hok].
    rewrite Hs in Hside.
    destruct (l1_apply_snapshot b s d o Hwf Hnone Hd Hside Hid Hp) as (b' & Hr & H).
    exists b'. cbn [apply_each]. by rewrite Hr.
  - apply Forall2_nil_inv_l in Hds as ->. by exists b.
Qed.

Lemma roundtrip_l1 b b2 te ti :
  l1_wf b -> l1_wf b2 -> ob_instrument_id b2 = ob_instrument_id b ->
  exists ds b', to_deltas (E := BookIntegrityError) b te ti = Ok ds /\
    apply_deltas b2 ds = (b', Ok tt) /\ l1_wf b' /\
    forall s, orders_of (side_ladder b' s) = orders_of (side_ladder b s).
Proof.
  intros Hwf Hwf2 Hi.
  destruct (to_deltas_Ok (E := BookIntegrityError) b te ti) as (c & dbs & das & Htd & Hc & Hdb & Hda).
  { intros s. apply (proj2 Hwf s). }
  exists (mkDeltas (ob_instrument_id b) (c :: dbs ++ das)).
  unfold apply_deltas, apply_deltas_unchecked. cbn [ds_instrument_id ds_deltas].
  rewrite bool_decide_true by done. cbn [apply_each]. rewrite clear_delta by done.
  set (b0 := book_clear b2 (dl_sequence c) (dl_ts_event c)).
  assert (Hwf0 : l1_wf b0).
  { destruct Hwf2 as [Ht2 H2]. split; [done|]. intros s. unfold b0. rewrite clear_sides.
    destruct (H2 s) as [Hok Hs]. destruct (l1_clear_ok _ Hok) as (H & H' & _). split; [done|congruence]. }
  destruct (l1_apply_side b0 b SBuy dbs) as (b1 & Hr1 & Hwf1 & Ht1 & Ho1); [done..|].
  destruct (l1_apply_side b1 b SSell das) as (b' & Hr' & Hwf' & Ht' & Ho'); [done..| |done|].
  { unfold l1_top. change SSell with (opposite SBuy). by rewrite Ho1. }
  exists b'. rewrite apply_each_app, Hr1. split_and!; [done..|].
  assert (Htops : forall s, l1_top b' s = l1_top b s).
  { intros []; [|done]. rewrite <- Ht1. unfold l1_top. change SBuy with (opposite SSell). by rewrite Ho'. }
  intros s. rewrite !l1_orders by (apply Hwf || apply Hwf').
  change (match l1_top b' s with Some o => [o] | None => [] end = match l1_top b s with Some o => [o] | None => [] end).
  by rewrite Htops.
Qed.

(** C4: the deltas of a book's snapshot, applied to any book of the same type and
    instrument (whatever it holds), succeed and reproduce the book: the same
    orders in the same price-time priority on each side, hence the same
    content by id, in the invariant. *)
Theorem snapshot_roundtrip (prices : list Z) (b b2 : OrderBook) (ts_event ts_init : UnixNanos) :
  any_wf prices b -> any_wf prices b2 -> ob_book_type b2 = ob_book_type b ->
  ob_instrument_id b2 = ob_instrument_id b ->
  exists ds b', to_deltas (E := BookIntegrityError) b ts_event ts_init = Ok ds /\
    apply_deltas b2 ds = (b', Ok tt) /\ any_wf prices b' /\
    (forall s, orders_of (side_ladder b' s) = orders_of (side_ladder b s)) /\
    view_of b' ≡ view_of b.
Proof.
  intros Hwf Hwf2 Ht Hi.
  assert (Hany : forall x, any_wf prices x -> forall s, ladder_ok (side_ladder x s)).
  { intros x Hx s. unfold any_wf in Hx. case_decide; [apply (proj2 Hx s)|apply Hx]. }
  assert (Hmain : exists ds b', to_deltas (E := BookIntegrityError) b ts_event ts_init = Ok ds /\
    apply_deltas b2 ds = (b', Ok tt) /\ any_wf prices b' /\
    (forall s, orders_of (side_ladder b' s) = orders_of (side_ladder b s))).
  { unfold any_wf in *. rewrite Ht in Hwf2. case_decide as E.
    - destruct (roundtrip_l1 b b2 ts_event ts_init) as (ds & b' & H1 & H2 & H3 & H4); [done..|].
      exists ds, b'. rewrite decide_True by apply H3. done.
    - destruct (roundtrip_mbo prices b b2 ts_event ts_init) as (ds & b' & H1 & H2 & H3 & H4 & H5); [done..|].
      exists ds, b'. rewrite decide_False by congruence. done. }
  destruct Hmain as (ds & b' & H1 & H2 & H3 & H4). exists ds, b'. split_and!; try done.
  intros s id. apply orders_content; [by apply Hany..|apply H4].
Qed.
End RoundTrip.
End Snapshot.

Section Witnesses.
Import BookDemo.

Example snapshot_roundtrip_witness :
  exists ds b', to_deltas (E := BookIntegrityError) crossed_book 9 9 = Ok ds /\
    length (ds_deltas ds) = 4%nat /\
    apply_deltas (book_new inst L2_MBP) ds = (b', Ok tt) /\
    orders_of (ob_bids b') = orders_of (ob_bids crossed_book).
Proof.
  destruct (snapshot_roundtrip px_raws crossed_book (book_new inst L2_MBP) 9 9)
    as (ds & b' & Hd & Hr & _ & Ho & _).
  - apply crossed_book_wf.
  - apply book_new_wf.
  - reflexivity.
  - reflexivity.
  - exists ds, b'. split; [exact Hd|]. split; [|split; [exact Hr|exact (Ho SBuy)]].
    vm_compute in Hd. injection Hd as <-. reflexivity.
Defined.
End Witnesses.
