(* ===== verification/BookFills.v ===== *)
(** * Liquidity queries: simulated fills, worst price, size at a price *)

From stdpp Require Import base numbers list gmap sets strings.
From Stdlib Require Import ZArith Lia Sorted.
From S2P Require Import Prelude F64 Fixed Price Quantity Enums Money OrderEvents Maps Ladder LadderInv Book BookSpec BookTop BookSnapshot.

Section Fills.
Context `{M : Mode} `{B : BookOrderApi} `{L : !BookOrderLaws} `{D : BookDataApi}.
Implicit Types (b : OrderBook) (o : BookOrder) (l : BookLadder) (lv : BookLevel) (k : BookPrice).

(** ** Reference: walk the orders of a side and take what is left to fill *)

Fixpoint walk (remaining : Z) (os : list BookOrder) : list (Price * Z) :=
  match os with
  | [] => []
  | o :: os =>
      if remaining <=? 0 then []
      else let taken := Z.min remaining (q_raw (bo_size o)) in
           (bo_price o, taken) :: walk (remaining - taken) os
  end.
Fixpoint sizes (os : list BookOrder) : Z :=
  match os with [] => 0 | o :: os => q_raw (bo_size o) + sizes os end.
Definition raws (fills : list (Price * Quantity)) : list (Price * Z) :=
  (fun f => (f.1, q_raw f.2)) <$> fills.
Fixpoint filled_size (fills : list (Price * Z)) : Z :=
  match fills with [] => 0 | f :: fills => f.2 + filled_size fills end.

(** Sizes small enough that adding one to the target does not overflow. *)
Definition fits (target : Z) o : Prop :=
  0 < q_raw (bo_size o) /\ target + q_raw (bo_size o) <= imax QuantityRaw.

Lemma walk_done remaining os : remaining <= 0 -> walk remaining os = [].
Proof. destruct os; [done|]. cbn. intros H. by rewrite (proj2 (Z.leb_le _ _) H). Qed.

Abbreviation positive := (fun o : BookOrder => 0 < q_raw (bo_size o)).

Lemma fits_positive t os : Forall (fits t) os -> Forall positive os.
Proof. intros H. eapply Forall_impl; [exact H|]. by intros o [Ho _]. Qed.

Lemma sizes_pos os : Forall positive os -> 0 <= sizes os /\ (os <> [] -> 0 < sizes os).
Proof. induction 1 as [|o os Ho _ [IH _]]; cbn; [split; [lia|congruence]|]. split; lia. Qed.

Lemma sizes_nonneg t os : Forall (fits t) os -> 0 <= sizes os.
Proof. intros H%fits_positive. by apply sizes_pos. Qed.

Lemma walk_app os1 os2 : forall r,
  Forall positive os1 -> walk r (os1 ++ os2) = walk r os1 ++ walk (r - sizes os1) os2.
Proof.
  induction os1 as [|o os1 IH]; intros r Hf; cbn; [f_equal; lia|].
  apply Forall_cons in Hf as [Ho Hf]. pose proof (sizes_pos os1 Hf) as [Hnn _].
  destruct (Z.leb_spec r 0) as [Hr|Hr]; cbn; [by rewrite walk_done by lia|].
  rewrite IH by done. cbn. do 2 f_equal.
  destruct (Z.le_gt_cases r (q_raw (bo_size o))).
  - rewrite Z.min_l by lia. rewrite !walk_done by lia. done.
  - rewrite Z.min_r by lia. f_equal. lia.
Qed.

Lemma walk_filled t os : forall r,
  Forall (fits t) os -> filled_size (walk r os) = Z.min (Z.max r 0) (sizes os).
Proof.
  induction os as [|o os IH]; intros r Hf; cbn; [lia|].
  apply Forall_cons in Hf as [[Ho _] Hf]. pose proof (sizes_nonneg t os Hf).
  destruct (Z.leb_spec r 0) as [Hr|Hr]; cbn; [lia|]. rewrite IH by done. lia.
Qed.

Lemma qty_sum {E} (a c : Quantity) :
  0 <= q_raw a + q_raw c <= imax QuantityRaw ->
  qty_add (E := E) a c = Ok (mkQty (q_raw a + q_raw c) (Z.max (q_precision a) (q_precision c))).
Proof.
  intros H. unfold qty_add, checked. rewrite (proj2 (qty_in_ty _)); [done|]. exact H.
Qed.
Lemma qty_diff {E} (a c : Quantity) :
  0 <= q_raw a - q_raw c <= imax QuantityRaw ->
  qty_sub (E := E) a c = Ok (mkQty (q_raw a - q_raw c) (Z.max (q_precision a) (q_precision c))).
Proof.
  intros H. unfold qty_sub, checked. rewrite (proj2 (qty_in_ty _)); [done|]. exact H.
Qed.

Lemma fill_orders_walk {E} target os : forall cum,
  Forall (fits (q_raw target)) os -> q_raw target < imax QuantityRaw ->
  0 <= q_raw cum <= q_raw target ->
  exists fills c fin, fill_orders (E := E) os cum target = Ok (fills, c, fin) /\
    raws fills = walk (q_raw target - q_raw cum) os /\
    (if fin : bool then q_raw target <= q_raw cum + sizes os
     else q_raw c = q_raw cum + sizes os /\ q_raw c <= q_raw target).
Proof.
  induction os as [|o os IH]; intros cum Hf Ht Hc; cbn [fill_orders].
  { eexists _, _, _. split; [reflexivity|]. cbn. split; [done|lia]. }
  apply Forall_cons in Hf as [[Ho1 Ho2] Hf]. pose proof (sizes_nonneg _ os Hf) as Hnn.
  rewrite qty_sum by lia. osimpl. unfold qty_geb. cbn [q_raw].
  destruct (Z.leb_spec (q_raw target) (q_raw cum + q_raw (bo_size o))) as [Hge|Hlt].
  - rewrite qty_diff by lia. osimpl. eexists _, _, _. split; [reflexivity|].
    cbn [walk sizes]. split; [|lia].
    unfold qty_is_positive. cbn [q_raw].
    destruct (Z.leb_spec (q_raw target - q_raw cum) 0) as [Hz|Hz].
    + rewrite (proj2 (Z.ltb_ge _ _)) by lia. by rewrite andb_false_r.
    + rewrite (proj2 (Z.ltb_lt _ _)), (proj2 (Z.eqb_neq _ _)) by (unfold QUANTITY_UNDEF; lia). cbn.
      rewrite Z.min_l by lia. by rewrite walk_done by lia.
  - destruct (IH (mkQty (q_raw cum + q_raw (bo_size o)) (Z.max (q_precision cum) (q_precision (bo_size o)))))
      as (fills & c & fin & -> & Hw & Hd); [done..|cbn; lia|]. osimpl.
    eexists _, _, _. split; [reflexivity|]. cbn [q_raw] in Hw, Hd. cbn [walk sizes].
    split; [|destruct fin; lia].
    rewrite (proj2 (Z.leb_gt _ _)), Z.min_r by lia. cbn. f_equal.
    change (raws fills = walk (q_raw target - q_raw cum - q_raw (bo_size o)) os). rewrite Hw. f_equal. lia.
Qed.

(** The price of a resting order is acceptable to an incoming one. *)
Definition acceptable (s : OrderSideSpecified) (limit price : Price) : bool :=
  match s with SBuy => price_geb price limit | SSell => price_leb price limit end.
Definition reachable (s : OrderSideSpecified) (limit : Price) (os : list BookOrder) : list BookOrder :=
  List.filter (fun o => acceptable s limit (bo_price o)) os.

Lemma level_reachable s k lv limit :
  level_ok s k lv ->
  reachable s limit (get_orders lv) = if acceptable s limit (bp_value k) then get_orders lv else [].
Proof.
  intros [_ _ _ _ Hall]. unfold reachable, get_orders.
  assert (H : Forall (fun o => acceptable s limit (bo_price o) = acceptable s limit (bp_value k))
                (snd <$> lv_orders lv)).
  { apply Forall_fmap. eapply Forall_impl; [exact Hall|]. intros [id o] (_ & Hp & _). cbn in *.
    unfold acceptable, price_geb, price_leb. by rewrite Hp. }
  induction H as [|o os Ho _ IH]; cbn; [by destruct (acceptable _ _ _)|].
  rewrite Ho, IH. by destruct (acceptable s limit (bp_value k)).
Qed.

Lemma reachable_level s limit k lv m :
  level_ok s k lv ->
  reachable s limit (concat (get_orders <$> (snd <$> (k, lv) :: m))) =
  (if acceptable s limit (bp_value k) then get_orders lv else []) ++
  reachable s limit (concat (get_orders <$> (snd <$> m))).
Proof.
  intros H. rewrite <- (level_reachable s k lv limit H). unfold reachable. by rewrite <- List.filter_app.
Qed.

Lemma unacceptable_rest s limit k m :
  Forall (fun x => bp_key k < x) (bt_keys bp_key m) -> bp_side k = s ->
  (forall k lv, (k, lv) ∈ m -> level_ok s k lv) -> acceptable s limit (bp_value k) = false ->
  reachable s limit (concat (get_orders <$> (snd <$> m))) = [].
Proof.
  intros Hf Hs Hok Hna. induction m as [|[k' lv'] m IH]; [done|].
  apply Forall_cons in Hf as [Hlt Hf]. pose proof (Hok k' lv' ltac:(left)) as Hlv.
  rewrite reachable_level, IH by (try done; intros; apply Hok; by right). rewrite app_nil_r.
  replace (acceptable s limit (bp_value k')) with false; [done|].
  cbn in Hlt. unfold bp_key in Hlt. rewrite Hs, (lk_side _ _ _ Hlv) in Hlt.
  unfold acceptable, price_geb, price_leb in *. destruct s; lia.
Qed.

Lemma fill_levels_walk {E} s order m : forall cum,
  bt_sorted bp_key m -> (forall k lv, (k, lv) ∈ m -> level_ok s k lv) ->
  Forall (fits (q_raw (bo_size order)))
    (reachable s (bo_price order) (concat (get_orders <$> (snd <$> m)))) ->
  q_raw (bo_size order) < imax QuantityRaw -> 0 <= q_raw cum <= q_raw (bo_size order) ->
  exists fills, fill_levels (E := E) (bool_decide (s = SBuy)) m order cum = Ok fills /\
    raws fills = walk (q_raw (bo_size order) - q_raw cum)
      (reachable s (bo_price order) (concat (get_orders <$> (snd <$> m)))).
Proof.
  induction m as [|[k lv] m IH]; intros cum Hs Hok Hf Ht Hc; cbn [fill_levels]; [by exists []|].
  apply bt_sorted_inv in Hs as [Hs Hlt]. pose proof (Hok k lv ltac:(left)) as Hlv.
  rewrite (lk_price _ _ _ Hlv).
  assert (Hbreak : (bool_decide (s = SBuy) && price_ltb (bp_value k) (bo_price order))
         || (negb (bool_decide (s = SBuy)) && price_gtb (bp_value k) (bo_price order))
         = negb (acceptable s (bo_price order) (bp_value k))).
  { unfold acceptable, price_ltb, price_gtb, price_geb, price_leb.
    destruct s; [rewrite bool_decide_true by done|rewrite bool_decide_false by done];
      cbn [negb andb orb]; rewrite ?orb_false_r; apply Z.ltb_antisym. }
  rewrite Hbreak. rewrite reachable_level in * by done.
  destruct (acceptable s (bo_price order) (bp_value k)) eqn:Ea; cbn [negb].
  - apply Forall_app in Hf as [Hf1 Hf2].
    destruct (fill_orders_walk (E := E) (bo_size order) (get_orders lv) cum) as (fills & c & fin & -> & Hw & Hd);
      [done..|]. osimpl. rewrite (walk_app _ _ _ (fits_positive _ _ Hf1)). destruct fin.
    + exists fills. split; [done|]. rewrite (walk_done (_ - _ - _)) by lia. by rewrite app_nil_r.
    + destruct Hd as [Hd1 Hd2]. pose proof (sizes_nonneg _ _ Hf1).
      destruct (IH c) as (rest & -> & Hrest); [done|intros; apply Hok; by right|done..|lia|].
      osimpl. exists (fills ++ rest). split; [done|]. unfold raws in *. rewrite fmap_app, Hw, Hrest.
      do 2 f_equal. lia.
  - exists []. split; [done|]. cbn [app].
    rewrite (unacceptable_rest s _ k m Hlt); try done; [apply (lk_side _ _ _ Hlv)|].
    intros; apply Hok; by right.
Qed.

(** C6: simulating an order against a book fills it, in price-time priority,
    from the resting orders of the other side at acceptable prices and from
    no others: the fills are those of the reference walk, and they add up to
    the order's size or to all that is available, whichever is less.  No
    intermediate sum overflows when the size and each resting size leave room
    for one addition. *)
Theorem simulate_fills_correct {E} (prices : list Z) (b : OrderBook) (s : OrderSideSpecified)
    (order : BookOrder) :
  book_wf prices b -> bo_side order = as_order_side s ->
  0 <= q_precision (bo_size order) <= FIXED_PRECISION ->
  0 <= q_raw (bo_size order) < imax QuantityRaw ->
  let resting := reachable (opposite s) (bo_price order) (orders_of (opposite_ladder b s)) in
  Forall (fits (q_raw (bo_size order))) resting ->
  exists fills, book_simulate_fills (E := E) b order = Ok fills /\
    raws fills = walk (q_raw (bo_size order)) resting /\
    filled_size (raws fills) = Z.min (q_raw (bo_size order)) (sizes resting).
Proof.
  intros Hwf Hs Hp Hq resting Hf. unfold book_simulate_fills, simulate_fills.
  rewrite (proj2 (as_specified_Ok _ _) Hs). osimpl. rewrite qty_zero_Ok by done. osimpl.
  assert (Hwo : side_wf prices (ob_book_type b) (opposite s) (opposite_ladder b s)).
  { pose proof (Hwf (opposite s)). by destruct s. }
  destruct Hwo as [Hok Hside _ _]. rewrite Hside.
  destruct (fill_levels_walk (E := E) (opposite s) order (ld_levels (opposite_ladder b s))
              (mkQty 0 (q_precision (bo_size order)))) as (fills & Hr & Hw).
  - apply Hok.
  - intros k lv Hk. rewrite <- Hside. by apply Hok.
  - exact Hf.
  - lia.
  - cbn. lia.
  - cbn [q_raw] in Hw. rewrite Z.sub_0_r in Hw. fold (orders_of (opposite_ladder b s)) in Hw.
    exists fills. split_and!; [exact Hr|exact Hw|].
    change (raws fills = walk (q_raw (bo_size order)) resting) in Hw.
    rewrite Hw, (walk_filled _ _ _ Hf). lia.
Qed.

(** ** The worst price touched *)

Lemma positive_fits0 s k lv : level_ok s k lv -> Forall positive (get_orders lv).
Proof.
  intros [_ _ _ _ Hall]. unfold get_orders. apply Forall_fmap. eapply Forall_impl; [exact Hall|].
  intros [id o] (_ & _ & Hp & _). cbn in *. by apply qty_is_positive_spec in Hp as [_ Hp].
Qed.

Lemma sizes_app os1 os2 : sizes (os1 ++ os2) = sizes os1 + sizes os2.
Proof. induction os1; cbn; lia. Qed.
Lemma size_raw_sum lv :
  Forall positive (get_orders lv) -> sizes (get_orders lv) <= imax QuantityRaw ->
  size_raw lv = sizes (get_orders lv).
Proof.
  unfold size_raw. intros Hp Hs.
  assert (H : forall acc, 0 <= acc -> acc + sizes (get_orders lv) <= imax QuantityRaw ->
    foldl (fun acc o => wrap QuantityRaw (acc + q_raw (bo_size o))) acc (get_orders lv) =
    acc + sizes (get_orders lv)).
  { revert Hp. generalize (get_orders lv). induction 1 as [|o os Ho Hos IH]; intros acc Ha Hb; cbn; [lia|].
    cbn in Hb. pose proof (sizes_pos os Hos) as [Hnn _].
    rewrite wrap_id by (apply qty_in_ty; unfold QUANTITY_UNDEF; lia). rewrite IH; lia. }
  rewrite H; lia.
Qed.

Lemma walk_level_price s k lv r f :
  level_ok s k lv -> f ∈ walk r (get_orders lv) -> p_raw f.1 = p_raw (bp_value k).
Proof.
  intros [_ _ _ _ Hall]. assert (H : Forall (fun o => p_raw (bo_price o) = p_raw (bp_value k)) (get_orders lv)).
  { unfold get_orders. apply Forall_fmap. eapply Forall_impl; [exact Hall|]. by intros [id o] (_ & Hp & _). }
  revert r. induction H as [|o os Ho _ IH]; intros r Hf; cbn in Hf; [by apply not_elem_of_nil in Hf|].
  destruct (r <=? 0); [by apply not_elem_of_nil in Hf|].
  apply elem_of_cons in Hf as [->|Hf]; [done|by eapply IH].
Qed.

(** The price of the last fill, or the given one. *)
Definition last_price (fills : list (Price * Z)) (w : option Price) : option Z :=
  match last fills with Some f => Some (p_raw f.1) | None => p_raw <$> w end.

Lemma last_price_app s k lv r rest w :
  level_ok s k lv -> 0 < r ->
  last_price (walk r (get_orders lv) ++ rest) w = last_price rest (Some (bp_value k)).
Proof.
  intros Hlv Hr. unfold last_price. rewrite last_app. destruct (last rest); [done|].
  pose proof (lk_nonempty _ _ _ Hlv) as Hne.
  destruct (last (walk r (get_orders lv))) as [f|] eqn:El.
  - apply last_Some_elem_of in El. cbn. by rewrite (walk_level_price s k lv r f Hlv El).
  - exfalso. apply last_None in El. unfold get_orders in El. destruct (lv_orders lv) as [|io os]; [done|].
    cbn in El. rewrite (proj2 (Z.leb_gt _ _)) in El by done. done.
Qed.

Section Worst.
Context (s : OrderSideSpecified) (qty : Quantity).
Hypothesis Hqty : q_raw qty <= imax QuantityRaw.

Definition orders_in (m : list (BookPrice * BookLevel)) : list BookOrder :=
  concat (get_orders <$> (snd <$> m)).
Lemma orders_in_cons k lv m : orders_in ((k, lv) :: m) = get_orders lv ++ orders_in m.
Proof. done. Qed.
Lemma orders_in_pos m :
  (forall k lv, (k, lv) ∈ m -> level_ok s k lv) -> Forall positive (orders_in m).
Proof.
  induction m as [|[k lv] m IH]; intros Hok; [constructor|]. rewrite orders_in_cons.
  apply Forall_app. split; [apply (positive_fits0 s k), Hok; left|].
  apply IH. intros k2 lv2 H2. apply Hok. by right.
Qed.

Lemma worst_loop m : forall cum w,
  (forall k lv, (k, lv) ∈ m -> level_ok s k lv) ->
  cum + sizes (orders_in m) <= imax QuantityRaw ->
  0 <= cum < q_raw qty ->
  exists c w', worst_px_loop qty m cum w = (c, w') /\
    c = Z.min (q_raw qty) (cum + sizes (orders_in m)) /\
    p_raw <$> w' = last_price (walk (q_raw qty - cum) (orders_in m)) w.
Proof using Hqty.
  induction m as [|[k lv] m IH]; intros cum w Hok Hs Hc; cbn [worst_px_loop].
  { eexists _, _. split; [reflexivity|]. cbn. split; [lia|done]. }
  pose proof (Hok k lv ltac:(left)) as Hlv. pose proof (positive_fits0 s k lv Hlv) as Hpos.
  assert (Hokm : forall k lv, (k, lv) ∈ m -> level_ok s k lv) by (intros; apply Hok; by right).
  pose proof (orders_in_pos m Hokm) as Hpm. rewrite orders_in_cons in *.
  rewrite sizes_app in *. rewrite walk_app by done.
  destruct (sizes_pos _ Hpos) as [_ Hlvpos]. destruct (sizes_pos _ Hpm) as [Hmn _].
  assert (Hne : get_orders lv <> []).
  { unfold get_orders. pose proof (lk_nonempty _ _ _ Hlv). by destruct (lv_orders lv). }
  specialize (Hlvpos Hne). unfold size_this_level. rewrite size_raw_sum by (done || lia).
  rewrite (wrap_id _ (q_raw qty - cum)) by (apply qty_in_ty; unfold QUANTITY_UNDEF; lia).
  rewrite (proj2 (Z.eqb_neq _ _)) by lia.
  rewrite wrap_id by (apply qty_in_ty; unfold QUANTITY_UNDEF; lia).
  rewrite (last_price_app s k lv) by (done || lia).
  destruct (Z.leb_spec (q_raw qty) (cum + Z.min (sizes (get_orders lv)) (q_raw qty - cum))) as [Hle|Hgt].
  - eexists _, _. split; [reflexivity|]. split; [lia|]. rewrite walk_done by lia. done.
  - rewrite Z.min_l in Hgt |- * by lia.
    destruct (IH (cum + sizes (get_orders lv)) (Some (bp_value k))) as (c & w' & -> & Hcc & Hw);
      [done|lia..|].
    eexists _, _. split; [reflexivity|]. split; [lia|]. rewrite Hw. do 2 f_equal. lia.
Qed.
End Worst.

Lemma size_raw_nonneg lv : 0 <= size_raw lv.
Proof.
  unfold size_raw. assert (Hw : forall os acc, 0 <= acc ->
    0 <= foldl (fun acc o => wrap QuantityRaw (acc + q_raw (bo_size o))) acc os).
  { induction os as [|o os IH]; intros acc Ha; [done|]. cbn. apply IH.
    pose proof (wrap_in_ty QuantityRaw (acc + q_raw (bo_size o))) as Hi. apply qty_in_ty in Hi. lia. }
  by apply Hw.
Qed.

Lemma worst_loop_zero qty m w : q_raw qty = 0 -> worst_px_loop qty m 0 w = (0, w).
Proof.
  intros H0. induction m as [|[k lv] m IH]; [done|]. cbn [worst_px_loop]. unfold size_this_level.
  rewrite H0, wrap_0. pose proof (size_raw_nonneg lv). by rewrite Z.min_r by lia.
Qed.

(** the worst price for a quantity is the price of the last order the
    quantity reaches when it walks the other side in price-time priority; there
    is none exactly when the quantity is zero or the side is empty.  The sizes
    of the side must add up without overflow. *)
Theorem worst_px_correct {E} (prices : list Z) (b : OrderBook) (s : OrderSideSpecified) (qty : Quantity) :
  book_wf prices b -> 0 <= q_raw qty <= imax QuantityRaw ->
  sizes (orders_of (opposite_ladder b s)) <= imax QuantityRaw ->
  exists w, get_worst_px_for_quantity (E := E) b qty (as_order_side s) = Ok w /\
    p_raw <$> w =
      (fun f => p_raw f.1) <$> last (walk (q_raw qty) (orders_of (opposite_ladder b s))).
Proof.
  intros Hwf Hq Hs. unfold get_worst_px_for_quantity.
  rewrite (proj2 (as_specified_Ok (as_order_side s) s) eq_refl). osimpl.
  eexists. split; [reflexivity|]. unfold worst_px_for_quantity.
  assert (Hwo : side_wf prices (ob_book_type b) (opposite s) (opposite_ladder b s)).
  { pose proof (Hwf (opposite s)). by destruct s. }
  destruct Hwo as [Hok Hside _ _].
  assert (Hlv : forall k lv, (k, lv) ∈ ld_levels (opposite_ladder b s) -> level_ok (opposite s) k lv).
  { intros k lv Hk. rewrite <- Hside. by apply Hok. }
  destruct (Z.eq_dec (q_raw qty) 0) as [Hz|Hz].
  { rewrite walk_done by lia. by rewrite worst_loop_zero. }
  destruct (worst_loop (opposite s) qty ltac:(lia) (ld_levels (opposite_ladder b s)) 0 None Hlv)
    as (c & w & -> & Hc & Hw); [exact Hs|lia|].
  rewrite Z.sub_0_r in Hw. change (orders_in _) with (orders_of (opposite_ladder b s)) in Hc, Hw.
  unfold last_price in Hw.
  destruct (Z.eqb_spec c 0) as [Hc0|Hc0].
  - destruct (last (walk _ _)) as [f|] eqn:El; [|done]. exfalso.
    assert (Hpos : Forall positive (orders_of (opposite_ladder b s))).
    { apply Forall_forall. intros o Ho. apply (orders_of_elem _ _ Hok) in Ho.
      apply order_at_inv in Ho as (_ & Hp & _); [|done]. by apply qty_is_positive_spec in Hp as [_ Hp]. }
    destruct (sizes_pos _ Hpos) as [_ Hp']. destruct (orders_of (opposite_ladder b s)); [done|].
    specialize (Hp' ltac:(done)). lia.
  - rewrite Hw. by destruct (last (walk _ _)).
Qed.

(** ** The size at a price *)

Definition at_price (price : Price) (os : list BookOrder) : list BookOrder :=
  List.filter (fun o => price_eqb (bo_price o) price) os.

Lemma level_at_price s k lv price :
  level_ok s k lv ->
  at_price price (get_orders lv) = if price_eqb (bp_value k) price then get_orders lv else [].
Proof.
  intros [_ _ _ _ Hall]. unfold at_price, get_orders.
  assert (H : Forall (fun o => price_eqb (bo_price o) price = price_eqb (bp_value k) price)
                (snd <$> lv_orders lv)).
  { apply Forall_fmap. eapply Forall_impl; [exact Hall|]. intros [id o] (_ & Hp & _). cbn in *.
    unfold price_eqb. by rewrite Hp. }
  induction H as [|o os Ho _ IH]; cbn; [by destruct (price_eqb _ _)|].
  rewrite Ho, IH. by destruct (price_eqb (bp_value k) price).
Qed.

Lemma orders_at_price s price m :
  bt_sorted bp_key m -> (forall k lv, (k, lv) ∈ m -> level_ok s k lv) ->
  at_price price (orders_in m) =
    match bt_get bp_key (mkBookPrice price s) m with Some lv => get_orders lv | None => [] end.
Proof.
  induction m as [|[k lv] m IH]; intros Hs Hok; [done|].
  apply bt_sorted_inv in Hs as [Hs Hf]. pose proof (Hok k lv ltac:(left)) as Hlv.
  assert (Hkey : (bp_key k =? bp_key (mkBookPrice price s)) = price_eqb (bp_value k) price).
  { unfold bp_key, price_eqb. rewrite (lk_side _ _ _ Hlv). cbn. destruct s; lia. }
  rewrite orders_in_cons, bt_get_cons, Hkey. unfold at_price. rewrite List.filter_app.
  fold (at_price price (get_orders lv)). fold (at_price price (orders_in m)).
  rewrite (level_at_price s k lv), IH by (try done; intros; apply Hok; by right).
  destruct (price_eqb (bp_value k) price) eqn:E; [|done].
  rewrite (bt_get_notin bp_key); [by rewrite app_nil_r|]. intros Hin. rewrite Forall_forall in Hf.
  specialize (Hf _ Hin). apply Z.eqb_eq in Hkey. lia.
Qed.

(** the size at a price level is the sum of the sizes of the other side's
    orders at exactly that price, zero when there is none, and the call does
    not panic for a valid precision and a representable sum. *)
Theorem quantity_at_level_correct {E} (prices : list Z) (b : OrderBook) (s : OrderSideSpecified)
    (price : Price) (precision : Z) :
  book_wf prices b -> 0 <= precision <= FIXED_PRECISION ->
  let resting := at_price price (orders_of (opposite_ladder b s)) in
  sizes resting <= QUANTITY_RAW_MAX ->
  get_quantity_at_level (E := E) b price (as_order_side s) precision =
    Ok (mkQty (sizes resting) precision).
Proof.
  intros Hwf Hp resting Hs. unfold get_quantity_at_level.
  rewrite (proj2 (as_specified_Ok (as_order_side s) s) eq_refl). osimpl.
  assert (Hwo : side_wf prices (ob_book_type b) (opposite s) (opposite_ladder b s)).
  { pose proof (Hwf (opposite s)). by destruct s. }
  destruct Hwo as [Hok Hside _ _].
  assert (Hlv : forall k lv, (k, lv) ∈ ld_levels (opposite_ladder b s) -> level_ok (opposite s) k lv).
  { intros k lv Hk. rewrite <- Hside. by apply Hok. }
  rewrite levels_get_Ok by (done || by rewrite Hside). osimpl. rewrite qty_zero_Ok by done. osimpl.
  pose proof (orders_at_price (opposite s) price _ (lo_sorted _ Hok) Hlv) as Hat.
  change (orders_in _) with (orders_of (opposite_ladder b s)) in Hat.
  change (at_price price (orders_of (opposite_ladder b s))) with resting in Hat.
  destruct (bt_get bp_key _ (ld_levels (opposite_ladder b s))) as [lv|] eqn:Hg; rewrite Hat in *; [|done].
  destruct (levels_get_elem _ (mkBookPrice price (opposite s)) lv Hok (eq_sym Hside) Hg) as (k & Hk & _).
  pose proof (positive_fits0 _ _ _ (Hlv _ _ Hk)) as Hpos. pose proof qty_limits as [Hlim _].
  unfold QUANTITY_UNDEF in Hlim. rewrite size_raw_sum by (done || lia).
  unfold qty_from_raw, QUANTITY_UNDEF. rewrite (proj2 (Z.eqb_neq _ _)), (proj2 (Z.leb_le _ _)) by lia.
  cbn [orb]. osimpl. rewrite (proj2 (check_fixed_precision_Ok precision tt)); [done|].
  pose proof fixed_precision_bounds. unfold WEI_PRECISION. destruct defi; lia.
Qed.
End Fills.

Section Witnesses.
Import BookDemo.

(** The asks of a book: 11 (3 units) and 12 (8 units). *)
Definition ask_stream : list OrderBookDelta :=
  [delta ActAdd (order Sell 11 3 0) 1; delta ActAdd (order Sell 12 8 0) 2].
Definition ask_book : OrderBook := (apply_each (book_new inst L2_MBP) ask_stream).1.

Lemma ask_book_wf : book_wf px_raws ask_book.
Proof.
  destruct (apply_each_refines px_raws ask_stream (book_new inst L2_MBP)) as (b' & r & Hr & Hwf & _).
  - apply px_raws_free.
  - apply book_new_wf.
  - done.
  - repeat (split; [intros s Hs; vm_compute in Hs; injection Hs as <-; split;
      [right; reflexivity|apply list_elem_of_In; vm_compute; tauto]|]); exact I.
  - unfold ask_book. by rewrite Hr.
Qed.

Example simulate_fills_witness :
  exists fills, book_simulate_fills (E := Empty_set) ask_book (order Buy 12 5 0) = Ok fills /\
    raws fills = [(px 11, 3 * 10 ^ 9); (px 12, 2 * 10 ^ 9)].
Proof.
  destruct (simulate_fills_correct (E := Empty_set) px_raws ask_book SBuy (order Buy 12 5 0) ask_book_wf)
    as (fills & Hr & Hw & _).
  - reflexivity.
  - vm_compute. split; discriminate.
  - split; [vm_compute; discriminate|reflexivity].
  - repeat constructor; vm_compute; discriminate.
  - exists fills. auto.
Defined.

Example worst_px_witness :
  exists w, get_worst_px_for_quantity (E := Empty_set) ask_book (qty 5) Buy = Ok w /\
    p_raw <$> w = Some (12 * 10 ^ 9).
Proof.
  destruct (worst_px_correct (E := Empty_set) px_raws ask_book SBuy (qty 5) ask_book_wf) as (w & Hr & Hw).
  - vm_compute. split; discriminate.
  - vm_compute. discriminate.
  - exists w. auto.
Defined.

Example quantity_at_level_witness :
  get_quantity_at_level (E := Empty_set) ask_book (px 12) Buy 2 = Ok (mkQty (8 * 10 ^ 9) 2).
Proof.
  apply (quantity_at_level_correct (E := Empty_set) px_raws ask_book SBuy (px 12) 2 ask_book_wf);
    [split|]; vm_compute; discriminate.
Defined.
End Witnesses.
