(* ===== verification/BookIds.v ===== *)
(** * Re-used order ids

    [BookLadder::add] overwrites the cache entry of an id that is already on
    the ladder but leaves the old order in its level. *)

From stdpp Require Import base numbers list gmap sets strings.
From Stdlib Require Import ZArith Lia Sorted.
From S2P Require Import Prelude F64 Fixed Price Quantity Enums Money OrderEvents Maps Ladder LadderInv Book BookSpec BookTop BookSnapshot.

Section Ids.
Context `{M : Mode} `{B : BookOrderApi} `{L : !BookOrderLaws}.
Implicit Types (o : BookOrder) (l : BookLadder) (lv : BookLevel) (k p : BookPrice).

Lemma bt_get_orders p l lv o :
  bt_get bp_key p (ld_levels l) = Some lv -> o ∈ get_orders lv -> o ∈ orders_of l.
Proof.
  intros Hg Ho. apply bt_get_elem in Hg as (k & _ & Hk). unfold orders_of, levels_of.
  apply elem_of_concat. exists (get_orders lv). split; [|done].
  apply list_elem_of_fmap. exists lv. split; [done|]. apply list_elem_of_fmap. by exists (k, lv).
Qed.

Lemma put_level_other l p q lv :
  bt_sorted bp_key (ld_levels l) -> bp_key p <> bp_key q ->
  bt_get bp_key q (ld_levels (put_level l p lv)) = bt_get bp_key q (ld_levels l).
Proof.
  intros Hsort Hne. unfold put_level. destruct (level_is_empty lv); cbn.
  - rewrite bt_get_remove. by destruct (Z.eqb_spec (bp_key p) (bp_key q)).
  - rewrite bt_get_insert by done. by destruct (Z.eqb_spec (bp_key p) (bp_key q)).
Qed.

Lemma put_level_cache l p lv : ld_cache (put_level l p lv) = ld_cache l.
Proof. unfold put_level. by destruct (level_is_empty lv). Qed.

Lemma inserted_get l o :
  ladder_ok l -> bt_get bp_key (order_price l o) (ld_levels (inserted l o)) = Some (new_level l o).
Proof. intros Hok. unfold inserted. cbn. rewrite bt_get_insert by apply Hok. by rewrite Z.eqb_refl. Qed.

Lemma new_level_contains l o : im_contains (bo_order_id o) (lv_orders (new_level l o)) = true.
Proof. apply im_contains_spec. apply new_level_ids. by left. Qed.

Lemma inserted_same_side {E} l o :
  ladder_ok l -> bo_side o = as_order_side (ld_side l) -> qty_is_positive (bo_size o) = true ->
  same_side (E := E) (order_price l o) (ld_levels (inserted l o)) = Ok tt.
Proof.
  intros Hok Hs Hp. unfold same_side. destruct (ld_levels (inserted l o)) as [|[k lv] m] eqn:El; [done|].
  assert (Hk : (k, lv) ∈ ld_levels (inserted l o)) by (rewrite El; left).
  apply inserted_level in Hk; try done.
  assert (Hside : bp_side k = ld_side l).
  { destruct Hk as [[Hk _]|(_ & _ & Hk)]; [|by apply Hk]. by apply (lo_levels _ Hok _ _ Hk). }
  rewrite Hside. by rewrite bool_decide_true.
Qed.

(** adding, to an L2 or L3 ladder, an order whose id is already resting at
    another price leaves the old order in its level, out of the cache's reach:
    after the id is deleted the old order is still on the ladder, and deleting
    the id again does nothing, so it can never be removed by id. *)
Theorem reused_id_leaves_ghost {E} (l : BookLadder) (old new : BookOrder) (flags : Z) :
  ladder_ok l -> ld_book_type l <> L1_MBP ->
  order_at l (bo_order_id new) = Some old -> bo_side new = as_order_side (ld_side l) ->
  qty_is_positive (bo_size new) = true -> p_raw (bo_price new) <> p_raw (bo_price old) ->
  exists l1 l2, ladder_add (E := E) l new flags = Ok l1 /\ old ∈ orders_of l1 /\ new ∈ orders_of l1 /\
    ladder_delete (E := E) l1 new = Ok l2 /\ old ∈ orders_of l2 /\
    ladder_delete (E := E) l2 old = Ok l2 /\ ld_cache l2 !! bo_order_id old = None.
Proof.
  intros Hok Hbt Hold Hs Hp Hne.
  destruct (order_at_inv l _ old Hok Hold) as (Hid & _ & _ & p0 & lv0 & Hc0 & Hs0 & Hg0 & Hin0 & Hr0).
  assert (Hkey : bp_key (order_price l new) <> bp_key p0).
  { rewrite bp_key_eq by (by rewrite Hs0). cbn. congruence. }
  assert (Hold0 : old ∈ get_orders lv0).
  { apply list_elem_of_fmap. by eexists (_, old). }
  exists (inserted l new). rewrite ladder_add_inserted by done.
  assert (Hg1 : bt_get bp_key p0 (ld_levels (inserted l new)) = Some lv0).
  { unfold inserted. cbn. rewrite bt_get_insert by apply Hok. by destruct (Z.eqb_spec (bp_key (order_price l new)) (bp_key p0)). }
  assert (Hdel : exists l2, ladder_delete (E := E) (inserted l new) new = Ok l2 /\
    bt_get bp_key p0 (ld_levels l2) = Some lv0 /\ ld_cache l2 !! bo_order_id new = None).
  { unfold ladder_delete, remove_order.
    assert (Hc : ld_cache (inserted l new) !! bo_order_id new = Some (order_price l new)).
    { unfold inserted. cbn. by rewrite lookup_insert_eq. }
    rewrite Hc. unfold levels_get. rewrite inserted_same_side by done. osimpl.
    rewrite inserted_get, new_level_contains by done. unfold remove_by_id. rewrite new_level_contains. osimpl.
    eexists. split; [reflexivity|]. rewrite put_level_other, put_level_cache by (try done; apply bt_sorted_insert, Hok). cbn.
    split; [exact Hg1|by rewrite lookup_delete_eq]. }
  destruct Hdel as (l2 & Hd & Hg2 & Hc2). exists l2. rewrite Hid. split_and!; try done.
  - by apply (bt_get_orders p0 _ lv0).
  - apply (bt_get_orders (order_price l new) _ (new_level l new)); [by apply inserted_get|].
    apply list_elem_of_fmap. exists (bo_order_id new, new). split; [done|].
    unfold new_level. destruct (old_level l new) as [lv|]; cbn; [|left].
    pose proof (im_get_insert (bo_order_id new) (bo_order_id new) new (lv_orders lv)) as Hi.
    rewrite Z.eqb_refl in Hi. unfold im_get in Hi. apply fmap_Some in Hi as ([j o'] & Hf & ->).
    apply List.find_some in Hf as [Hf1 Hf2]. cbn in Hf2 |- *. apply Z.eqb_eq in Hf2. subst j.
    by apply list_elem_of_In.
  - by apply (bt_get_orders p0 _ lv0).
  - unfold ladder_delete, remove_order. by rewrite Hid, Hc2.
Qed.
End Ids.

Section Witnesses.
Import BookDemo.

Example reused_id_witness :
  exists l l1 l2, insert_order (E := Empty_set) (ladder_new SBuy L3_MBO) (order Buy 10 5 7) = Ok l /\
    ladder_add (E := Empty_set) l (order Buy 11 5 7) 0 = Ok l1 /\
    ladder_delete (E := Empty_set) l1 (order Buy 11 5 7) = Ok l2 /\
    order Buy 10 5 7 ∈ orders_of l2.
Proof.
  destruct (insert_order_spec (E := Empty_set) (ladder_new SBuy L3_MBO) (order Buy 10 5 7))
    as (l & Hl & Hh); [apply empty_ok|reflexivity|reflexivity|intros p Hp; vm_compute in Hp; discriminate Hp|].
  destruct (reused_id_leaves_ghost (E := Empty_set) l (order Buy 10 5 7) (order Buy 11 5 7) 0)
    as (l1 & l2 & H1 & _ & _ & H2 & H3 & _).
  - apply Hh.
  - rewrite (h_type _ _ _ Hh). discriminate.
  - rewrite (h_content _ _ _ Hh). reflexivity.
  - rewrite (h_side _ _ _ Hh). reflexivity.
  - reflexivity.
  - vm_compute. discriminate.
  - exists l, l1, l2. auto.
Defined.
End Witnesses.
