(* ===== verification/MatchingCore.v ===== *)
(** * The matching core ([crates/execution/src/matching_core/mod.rs])

    The resting orders of one instrument: for each side a book of limit orders
    keyed by limit price, a book of stop orders keyed by trigger price and a
    list of orders without a key, with an index from client order id to
    location.  [iterate] lists the orders the current market fills or
    triggers. *)

From stdpp Require Import base numbers list gmap sets strings.
From Stdlib Require Import ZArith Lia.
From S2P Require Import Prelude Fixed Price Quantity Enums Maps Money OrderEvents OrderCore Orders.

Inductive BookKind : Type := KLimit | KStop.
#[export] Instance book_kind_eq_dec : EqDecision BookKind.
Proof. solve_decision. Defined.

Inductive MatchAction : Type :=
  | FillLimit (id : ClientOrderId)
  | TriggerStop (id : ClientOrderId).

Record RestingOrder : Type := mkResting {
  ro_client_order_id : ClientOrderId;
  ro_order_side : OrderSideSpecified;
  ro_order_type : OrderType;
  ro_trigger_price : option Price;
  ro_limit_price : option Price;
  ro_is_activated : bool;
}.

Definition OrderBucket : Type := list RestingOrder.
Definition PriceBook : Type := list (Price * OrderBucket).
Abbreviation Location := (prod OrderSideSpecified (option (prod BookKind Price))).

Record OrderMatchingCore : Type := mkMatching {
  mc_instrument_id : InstrumentId;
  mc_price_increment : Price;
  mc_bid : option Price;
  mc_ask : option Price;
  mc_last : option Price;
  mc_fill_limit_inside_spread : bool;
  mc_bid_limits : PriceBook;
  mc_ask_limits : PriceBook;
  mc_bid_stops : PriceBook;
  mc_ask_stops : PriceBook;
  mc_pending_bid : OrderBucket;
  mc_pending_ask : OrderBucket;
  mc_order_index : gmap ClientOrderId Location;
}.
#[export] Instance matching_eta : Eta OrderMatchingCore := fun c =>
  mkMatching (mc_instrument_id c) (mc_price_increment c) (mc_bid c) (mc_ask c) (mc_last c)
    (mc_fill_limit_inside_spread c) (mc_bid_limits c) (mc_ask_limits c) (mc_bid_stops c)
    (mc_ask_stops c) (mc_pending_bid c) (mc_pending_ask c) (mc_order_index c).

(** *** Resting orders *)

Definition resting_is_stop (o : RestingOrder) : bool :=
  bool_decide (is_Some (ro_trigger_price o)).
Definition resting_is_limit (o : RestingOrder) : bool :=
  bool_decide (is_Some (ro_limit_price o)) && negb (resting_is_stop o).

(** [RestingOrder::from(&PassiveOrderAny::try_from(order))]: limit, market to
    limit and market orders are passive limits, the others passive stops. *)
Definition resting_limit {Dec E} (core : OrderCore Dec) (px : outcome E Price)
  : outcome E RestingOrder :=
  side ← as_specified (o_side core);
  p ← px;
  Ok (mkResting (o_client_order_id core) side (o_order_type core) None (Some p) true).
Definition resting_stop {Dec E} (core : OrderCore Dec) (trigger : Price) (limit : option Price)
    (is_activated : bool) : outcome E RestingOrder :=
  side ← as_specified (o_side core);
  Ok (mkResting (o_client_order_id core) side (o_order_type core) (Some trigger) limit is_activated).
Definition resting_from {Dec E} (order : OrderAny Dec) : outcome E RestingOrder :=
  match order with
  | AnyLimit o => resting_limit (lm_core o) (Ok (lm_price o))
  | AnyMarketToLimit o => resting_limit (ml_core o) (expect (ml_price o))
  | AnyMarket o => resting_limit (mk_core o) (expect (mk_protection_price o))
  | AnyLimitIfTouched o => resting_stop (lt_core o) (lt_trigger_price o) (Some (lt_price o)) true
  | AnyMarketIfTouched o => resting_stop (mt_core o) (mt_trigger_price o) None true
  | AnyStopLimit o => resting_stop (sl_core o) (sl_trigger_price o) (Some (sl_price o)) true
  | AnyStopMarket o => resting_stop (sm_core o) (sm_trigger_price o) None true
  | AnyTrailingStopLimit o =>
      resting_stop (tl_core o) (default (tl_trigger_price o) (tl_activation_price o))
        (Some (tl_price o)) (tl_is_activated o)
  | AnyTrailingStopMarket o =>
      resting_stop (tm_core o) (default (tm_trigger_price o) (tm_activation_price o))
        None (tm_is_activated o)
  end.

(** *** State *)

Definition matching_new (instrument_id : InstrumentId) (price_increment : Price)
  : OrderMatchingCore :=
  mkMatching instrument_id price_increment None None None false [] [] [] [] [] [] ∅.
Definition price_precision (self : OrderMatchingCore) : Z := p_precision (mc_price_increment self).

Definition book_for (self : OrderMatchingCore) (side : OrderSideSpecified) (kind : BookKind)
  : PriceBook :=
  match side, kind with
  | SBuy, KLimit => mc_bid_limits self
  | SBuy, KStop => mc_bid_stops self
  | SSell, KLimit => mc_ask_limits self
  | SSell, KStop => mc_ask_stops self
  end.
(** Writing through [&mut] to the book or the pending list. *)
Definition set_book (self : OrderMatchingCore) (side : OrderSideSpecified) (kind : BookKind)
    (book : PriceBook) : OrderMatchingCore :=
  match side, kind with
  | SBuy, KLimit => self <| mc_bid_limits := book |>
  | SBuy, KStop => self <| mc_bid_stops := book |>
  | SSell, KLimit => self <| mc_ask_limits := book |>
  | SSell, KStop => self <| mc_ask_stops := book |>
  end.
Definition pending_for (self : OrderMatchingCore) (side : OrderSideSpecified) : OrderBucket :=
  match side with SBuy => mc_pending_bid self | SSell => mc_pending_ask self end.
Definition set_pending (self : OrderMatchingCore) (side : OrderSideSpecified) (os : OrderBucket)
  : OrderMatchingCore :=
  match side with
  | SBuy => self <| mc_pending_bid := os |>
  | SSell => self <| mc_pending_ask := os |>
  end.

(** [iter().find(|o| o.client_order_id == id)] *)
Definition find_id (id : ClientOrderId) (os : OrderBucket) : option RestingOrder :=
  List.find (fun o => bool_decide (ro_client_order_id o = id)) os.

Definition get_order (self : OrderMatchingCore) (id : ClientOrderId) : option RestingOrder :=
  '(side, location) ← mc_order_index self !! id;
  match location with
  | Some (kind, price) =>
      bucket ← bt_get p_raw price (book_for self side kind);
      find_id id bucket
  | None => find_id id (pending_for self side)
  end.
Definition order_exists (self : OrderMatchingCore) (id : ClientOrderId) : bool :=
  bool_decide (is_Some (mc_order_index self !! id)).

(** [flat_map(|b| b.iter())] over the values of a book, forwards and in reverse. *)
Definition flat (book : PriceBook) : list RestingOrder := concat (snd <$> book).
Definition flat_rev (book : PriceBook) : list RestingOrder := concat (snd <$> reverse book).

Definition iter_bid_orders (self : OrderMatchingCore) : list RestingOrder :=
  flat_rev (mc_bid_limits self) ++ flat (mc_bid_stops self) ++ mc_pending_bid self.
Definition iter_ask_orders (self : OrderMatchingCore) : list RestingOrder :=
  flat (mc_ask_limits self) ++ flat_rev (mc_ask_stops self) ++ mc_pending_ask self.
Definition iter_orders (self : OrderMatchingCore) : list RestingOrder :=
  iter_bid_orders self ++ iter_ask_orders self.

Definition set_last_raw (self : OrderMatchingCore) (last : Price) : OrderMatchingCore :=
  self <| mc_last := Some last |>.
Definition set_bid_raw (self : OrderMatchingCore) (bid : Price) : OrderMatchingCore :=
  self <| mc_bid := Some bid |>.
Definition set_ask_raw (self : OrderMatchingCore) (ask : Price) : OrderMatchingCore :=
  self <| mc_ask := Some ask |>.
Definition update_price_increment (self : OrderMatchingCore) (price_increment : Price)
  : OrderMatchingCore := self <| mc_price_increment := price_increment |>.
Definition set_fill_limit_inside_spread (self : OrderMatchingCore) (value : bool)
  : OrderMatchingCore := self <| mc_fill_limit_inside_spread := value |>.

Definition matching_reset (self : OrderMatchingCore) : OrderMatchingCore :=
  self <| mc_bid := None |> <| mc_ask := None |> <| mc_last := None |>
       <| mc_bid_limits := [] |> <| mc_ask_limits := [] |> <| mc_bid_stops := [] |>
       <| mc_ask_stops := [] |> <| mc_pending_bid := [] |> <| mc_pending_ask := [] |>
       <| mc_order_index := ∅ |>.

Definition locate (order : RestingOrder) : option (BookKind * Price) :=
  match ro_trigger_price order with
  | Some p => Some (KStop, p)
  | None => (fun p => (KLimit, p)) <$> ro_limit_price order
  end.

Definition add_order (self : OrderMatchingCore) (order : RestingOrder) : OrderMatchingCore :=
  let side := ro_order_side order in
  let location := locate order in
  let self :=
    match location with
    | Some (kind, price) =>
        let book := book_for self side kind in
        let bucket := default [] (bt_get p_raw price book) in
        set_book self side kind (bt_insert p_raw price (bucket ++ [order]) book)
    | None => set_pending self side (pending_for self side ++ [order])
    end in
  self <| mc_order_index := <[ro_client_order_id order := (side, location)]> (mc_order_index self) |>.

(** [position(..)] and [remove(pos)]: drop the first order with the id. *)
Fixpoint remove_id (id : ClientOrderId) (os : OrderBucket) : option OrderBucket :=
  match os with
  | [] => None
  | o :: os =>
      if bool_decide (ro_client_order_id o = id) then Some os
      else (cons o) <$> remove_id id os
  end.
Definition delete_order (self : OrderMatchingCore) (id : ClientOrderId)
  : outcome OrderError OrderMatchingCore :=
  match mc_order_index self !! id with
  | None => Err (NotFound id)
  | Some (side, location) =>
      let self := self <| mc_order_index := delete id (mc_order_index self) |> in
      match location with
      | Some (kind, price) =>
          let book := book_for self side kind in
          bucket ← expect (bt_get p_raw price book);
          bucket ← expect (remove_id id bucket);
          Ok (set_book self side kind
                match bucket with
                | [] => bt_remove p_raw price book
                | _ => bt_insert p_raw price bucket book
                end)
      | None =>
          pending ← expect (remove_id id (pending_for self side));
          Ok (set_pending self side pending)
      end
  end.

(** *** Matching *)

Definition is_some_and {A} (x : option A) (f : A -> bool) : bool :=
  match x with Some a => f a | None => false end.

Definition is_limit_matched (self : OrderMatchingCore) (side : OrderSideSpecified) (price : Price)
  : bool :=
  match side with
  | SBuy => is_some_and (mc_ask self) (fun a => price_leb a price)
  | SSell => is_some_and (mc_bid self) (fun b => price_geb b price)
  end.
Definition is_stop_matched (self : OrderMatchingCore) (side : OrderSideSpecified) (price : Price)
  : bool :=
  match side with
  | SBuy => is_some_and (mc_ask self) (fun a => price_geb a price)
  | SSell => is_some_and (mc_bid self) (fun b => price_leb b price)
  end.
Definition is_touch_triggered (self : OrderMatchingCore) (side : OrderSideSpecified)
    (trigger_price : Price) : bool :=
  match side with
  | SBuy => is_some_and (mc_ask self) (fun a => price_leb a trigger_price)
  | SSell => is_some_and (mc_bid self) (fun b => price_geb b trigger_price)
  end.
Definition is_limit_fillable (self : OrderMatchingCore) (side : OrderSideSpecified) (price : Price)
  : bool :=
  if is_limit_matched self side price then true
  else if negb (mc_fill_limit_inside_spread self) then false
  else
    match mc_bid self, mc_ask self with
    | Some bid, Some ask =>
        match side with
        | SBuy => price_geb price bid
        | SSell => price_leb price ask
        end
    | _, _ => false
    end.

Definition match_limit_order (self : OrderMatchingCore) (order : RestingOrder)
  : option MatchAction :=
  match ro_limit_price order with
  | Some limit_price =>
      if is_limit_fillable self (ro_order_side order) limit_price
      then Some (FillLimit (ro_client_order_id order)) else None
  | None => None
  end.
Definition match_stop_order (self : OrderMatchingCore) (order : RestingOrder)
  : option MatchAction :=
  if negb (ro_is_activated order) then None
  else
    match ro_trigger_price order with
    | Some trigger_price =>
        if is_stop_matched self (ro_order_side order) trigger_price
        then Some (TriggerStop (ro_client_order_id order)) else None
    | None => None
    end.
Definition match_order (self : OrderMatchingCore) (order : RestingOrder) : option MatchAction :=
  if resting_is_stop order then match_stop_order self order
  else if resting_is_limit order then match_limit_order self order
  else None.

Definition iterate_bids (self : OrderMatchingCore) : list MatchAction :=
  omap (match_order self) (flat_rev (mc_bid_limits self) ++ flat (mc_bid_stops self)).
Definition iterate_asks (self : OrderMatchingCore) : list MatchAction :=
  omap (match_order self) (flat (mc_ask_limits self) ++ flat_rev (mc_ask_stops self)).
Definition iterate (self : OrderMatchingCore) : list MatchAction :=
  iterate_bids self ++ iterate_asks self.
