(* ===== verification/MatchingInv.v ===== *)
(** * Correctness of the matching core

    The index, the four books and the pending lists agree ([core_ok]); adding
    and deleting are the operations of a finite map from client order id to
    resting order; orders at a price keep their arrival order; [iterate] lists
    every matching order once, in price-time priority. *)

From stdpp Require Import base numbers list gmap sets strings.
From Stdlib Require Import ZArith Lia Sorted.
From S2P Require Import Prelude Fixed Price Quantity Enums Maps Money OrderEvents OrderCore Orders MatchingCore.

Section Inv.
Implicit Types (c : OrderMatchingCore) (o : RestingOrder) (s : OrderSideSpecified) (k : BookKind)
  (p : Price) (id : ClientOrderId) (os : OrderBucket) (m : PriceBook).

Abbreviation ids os := (ro_client_order_id <$> os).

(** Two locations are the same place (prices compare by raw value), and a
    location is that of an order. *)
Definition same_place (loc loc' : Location) : bool :=
  bool_decide (loc.1 = loc'.1) &&
  match loc.2, loc'.2 with
  | Some (k, p), Some (k', p') => bool_decide (k = k') && (p_raw p =? p_raw p')
  | None, None => true
  | _, _ => false
  end.
Definition at_loc o (loc : Location) : bool := same_place loc (ro_order_side o, locate o).

(** The orders at a location. *)
Definition bucket_at c (loc : Location) : OrderBucket :=
  match loc with
  | (s, Some (k, p)) => default [] (bt_get p_raw p (book_for c s k))
  | (s, None) => pending_for c s
  end.

Record core_ok c : Prop := {
  co_sorted s k : bt_sorted p_raw (book_for c s k);
  co_nonempty s k p os : (p, os) ∈ book_for c s k -> os <> [];
  co_nodup loc : NoDup (ids (bucket_at c loc));
  co_placed loc o : o ∈ bucket_at c loc -> at_loc o loc = true;
  co_indexed loc o : o ∈ bucket_at c loc ->
    exists loc', mc_order_index c !! ro_client_order_id o = Some loc' /\ at_loc o loc' = true;
  co_index id loc : mc_order_index c !! id = Some loc -> id ∈ ids (bucket_at c loc);
}.

Lemma book_for_set c s k m s' k' :
  book_for (set_book c s k m) s' k' = if decide ((s', k') = (s, k)) then m else book_for c s' k'.
Proof. destruct s, k, s', k'; done. Qed.
Lemma pending_for_set_book c s k m s' : pending_for (set_book c s k m) s' = pending_for c s'.
Proof. destruct s, k, s'; done. Qed.
Lemma index_set_book c s k m : mc_order_index (set_book c s k m) = mc_order_index c.
Proof. destruct s, k; done. Qed.
Lemma pending_for_set c s os s' :
  pending_for (set_pending c s os) s' = if decide (s' = s) then os else pending_for c s'.
Proof. destruct s, s'; done. Qed.
Lemma book_for_set_pending c s os s' k : book_for (set_pending c s os) s' k = book_for c s' k.
Proof. destruct s, s', k; done. Qed.
Lemma index_set_pending c s os : mc_order_index (set_pending c s os) = mc_order_index c.
Proof. destruct s; done. Qed.
Lemma book_for_index c idx s k : book_for (c <| mc_order_index := idx |>) s k = book_for c s k.
Proof. by destruct s, k. Qed.
Lemma pending_for_index c idx s : pending_for (c <| mc_order_index := idx |>) s = pending_for c s.
Proof. by destruct s. Qed.

(** ** Buckets *)

Lemma find_id_Some id os o : find_id id os = Some o -> o ∈ os /\ ro_client_order_id o = id.
Proof.
  intros H. apply List.find_some in H as [H1 H2]. apply bool_decide_eq_true in H2.
  split; [by apply list_elem_of_In|done].
Qed.
Lemma find_id_elem os o : NoDup (ids os) -> o ∈ os -> find_id (ro_client_order_id o) os = Some o.
Proof.
  induction os as [|x os IH]; intros Hnd Ho; [by apply not_elem_of_nil in Ho|].
  cbn in Hnd. apply NoDup_cons in Hnd as [Hx Hnd]. unfold find_id in *. cbn.
  destruct (bool_decide_reflect (ro_client_order_id x = ro_client_order_id o)) as [E|E].
  - apply elem_of_cons in Ho as [->|Ho]; [done|]. exfalso. apply Hx. rewrite E.
    apply list_elem_of_fmap. by exists o.
  - apply elem_of_cons in Ho as [->|Ho]; [done|by apply IH].
Qed.
Lemma find_id_None id os : find_id id os = None <-> id ∉ ids os.
Proof.
  split.
  - intros H Hin. apply list_elem_of_fmap in Hin as (o & -> & Ho).
    apply list_elem_of_In in Ho. apply (List.find_none _ _ H) in Ho.
    by apply bool_decide_eq_false in Ho.
  - intros H. destruct (find_id id os) as [o|] eqn:E; [|done]. apply find_id_Some in E as [Ho <-].
    exfalso. apply H, list_elem_of_fmap. by exists o.
Qed.

Lemma remove_id_spec id os :
  NoDup (ids os) -> id ∈ ids os ->
  exists os', remove_id id os = Some os' /\ NoDup (ids os') /\
    forall o, o ∈ os' <-> o ∈ os /\ ro_client_order_id o <> id.
Proof.
  induction os as [|x os IH]; intros Hnd Hin; [by apply not_elem_of_nil in Hin|].
  cbn in Hnd, Hin. apply NoDup_cons in Hnd as [Hx Hnd]. cbn [remove_id].
  destruct (bool_decide_reflect (ro_client_order_id x = id)) as [E|E].
  - exists os. split_and!; [done..|]. intros o. rewrite elem_of_cons. split.
    + intros Ho. split; [by right|]. intros Eo. apply Hx. rewrite E, <- Eo.
      apply list_elem_of_fmap. by exists o.
    + intros [[->|Ho] Hne]; done.
  - apply elem_of_cons in Hin as [->|Hin]; [done|].
    destruct (IH Hnd Hin) as (os' & -> & Hnd' & Hel). exists (x :: os'). split_and!; [done| |].
    + cbn. apply NoDup_cons. split; [|done]. intros Hx'. apply list_elem_of_fmap in Hx' as (o & Eo & Ho).
      apply Hel in Ho as [Ho _]. apply Hx. rewrite Eo. apply list_elem_of_fmap. by exists o.
    + intros o. rewrite !elem_of_cons, Hel. split; [intros [->|[H1 H2]]|intros [[->|H1] H2]]; auto.
Qed.

(** ** Where an order rests *)

Lemma same_place_spec s x s' x' :
  same_place (s, x) (s', x') = true <-> s = s' /\
    match x, x' with
    | Some (k, p), Some (k', p') => k = k' /\ p_raw p = p_raw p'
    | None, None => True
    | _, _ => False
    end.
Proof.
  unfold same_place. cbn. rewrite andb_true_iff, bool_decide_eq_true.
  destruct x as [[k p]|], x' as [[k' p']|]; rewrite ?andb_true_iff, ?bool_decide_eq_true, ?Z.eqb_eq;
    intuition congruence.
Qed.

Lemma same_place_refl loc : same_place loc loc = true.
Proof. destruct loc as [s [[k p]|]]; by apply same_place_spec. Qed.
Lemma same_place_sym loc loc' : same_place loc loc' = true -> same_place loc' loc = true.
Proof.
  destruct loc as [s [[k p]|]], loc' as [s' [[k' p']|]]; rewrite !same_place_spec; intuition congruence.
Qed.
Lemma same_place_trans l1 l2 l3 :
  same_place l1 l2 = true -> same_place l2 l3 = true -> same_place l1 l3 = true.
Proof.
  destruct l1 as [s1 [[k1 p1]|]], l2 as [s2 [[k2 p2]|]], l3 as [s3 [[k3 p3]|]];
    rewrite !same_place_spec; intuition congruence.
Qed.
Lemma at_loc_own o : at_loc o (ro_order_side o, locate o) = true.
Proof. apply same_place_refl. Qed.
Lemma at_loc_same o loc loc' :
  at_loc o loc = true -> at_loc o loc' = true -> same_place loc loc' = true.
Proof. intros H H'. eapply same_place_trans; [exact H|by apply same_place_sym]. Qed.

Lemma bt_get_raw p q m : p_raw p = p_raw q -> bt_get p_raw p m = bt_get p_raw q m.
Proof. intros H. unfold bt_get. by rewrite H. Qed.

Lemma same_place_bucket c loc loc' :
  same_place loc loc' = true -> bucket_at c loc = bucket_at c loc'.
Proof.
  destruct loc as [s [[k p]|]], loc' as [s' [[k' p']|]]; rewrite same_place_spec; intros [-> H]; try done.
  destruct H as [-> H]. cbn. by rewrite (bt_get_raw p p').
Qed.

Lemma get_order_bucket c id :
  get_order c id = loc ← mc_order_index c !! id; find_id id (bucket_at c loc).
Proof.
  unfold get_order. destruct (mc_order_index c !! id) as [[s [[k p]|]]|]; [|done..].
  cbn. by destruct (bt_get p_raw p (book_for c s k)).
Qed.

Definition rests c o : Prop := exists loc, o ∈ bucket_at c loc.

Lemma get_order_iff c id o :
  core_ok c -> get_order c id = Some o <-> rests c o /\ ro_client_order_id o = id.
Proof.
  intros Hok. rewrite get_order_bucket. split.
  - destruct (mc_order_index c !! id) as [loc|] eqn:E; [|done]. cbn [mbind option_bind]. intros Hf.
    apply find_id_Some in Hf as [Ho Hid]. split; [|done]. by exists loc.
  - intros [[loc Ho] <-]. destruct (co_indexed c Hok loc o Ho) as (loc' & Hl & Hat). rewrite Hl.
    cbn [mbind option_bind].
    rewrite (same_place_bucket c loc' loc) by (eapply at_loc_same; [exact Hat|by apply Hok]).
    by apply find_id_elem; [apply co_nodup|].
Qed.

Lemma get_order_exists c id :
  core_ok c -> order_exists c id = true <-> is_Some (get_order c id).
Proof.
  intros Hok. rewrite get_order_bucket. unfold order_exists. rewrite bool_decide_eq_true.
  destruct (mc_order_index c !! id) as [loc|] eqn:E; [|split; intros [? [=]]].
  cbn [mbind option_bind]. split; [|by eauto]. intros _. apply (co_index c Hok) in E.
  destruct (find_id id (bucket_at c loc)) as [o|] eqn:Ef; [by eauto|]. by apply find_id_None in Ef.
Qed.

Lemma rests_unique c o o' :
  core_ok c -> rests c o -> rests c o' -> ro_client_order_id o = ro_client_order_id o' -> o = o'.
Proof.
  intros Hok Ho Ho' E.
  pose proof (proj2 (get_order_iff c (ro_client_order_id o) o Hok) (conj Ho eq_refl)) as H1.
  pose proof (proj2 (get_order_iff c (ro_client_order_id o) o' Hok) (conj Ho' (eq_sym E))) as H2.
  congruence.
Qed.

(** ** Adding *)

Lemma add_bucket c o loc :
  core_ok c ->
  bucket_at (add_order c o) loc = bucket_at c loc ++ (if at_loc o loc then [o] else []).
Proof.
  intros Hok. unfold add_order, at_loc, same_place. destruct loc as [s [[k p]|]]; cbn [fst snd bucket_at].
  - rewrite book_for_index. destruct (locate o) as [[k0 p0]|].
    + rewrite book_for_set. destruct (decide ((s, k) = (ro_order_side o, k0))) as [[= -> ->]|Hne].
      * rewrite !bool_decide_true by done. cbn [andb]. rewrite bt_get_insert by apply Hok.
        rewrite (Z.eqb_sym (p_raw p)). destruct (Z.eqb_spec (p_raw p0) (p_raw p)) as [E|E]; cbn.
        -- by rewrite (bt_get_raw p0 p).
        -- by rewrite app_nil_r.
      * destruct (bool_decide_reflect (s = ro_order_side o)) as [->|]; cbn [andb]; [|by rewrite app_nil_r].
        rewrite bool_decide_false by congruence. by rewrite app_nil_r.
    + rewrite book_for_set_pending, andb_false_r. by rewrite app_nil_r.
  - rewrite pending_for_index. destruct (locate o) as [[k0 p0]|].
    + rewrite pending_for_set_book, andb_false_r. by rewrite app_nil_r.
    + rewrite pending_for_set, andb_true_r. case_decide as E; [subst s; by rewrite bool_decide_true|].
      rewrite bool_decide_false by done. by rewrite app_nil_r.
Qed.

Lemma add_index c o :
  mc_order_index (add_order c o) =
  <[ro_client_order_id o := (ro_order_side o, locate o)]> (mc_order_index c).
Proof.
  unfold add_order. cbn. destruct (locate o) as [[k p]|]; [by rewrite index_set_book|by rewrite index_set_pending].
Qed.

Lemma add_order_ok c o :
  core_ok c -> order_exists c (ro_client_order_id o) = false -> core_ok (add_order c o).
Proof.
  intros Hok Hnew. unfold order_exists in Hnew. apply bool_decide_eq_false in Hnew.
  apply eq_None_not_Some in Hnew.
  assert (Hfresh : forall loc, ro_client_order_id o ∉ ids (bucket_at c loc)).
  { intros loc Hin. apply list_elem_of_fmap in Hin as (x & Ex & Hx).
    destruct (co_indexed c Hok loc x Hx) as (l & Hl & _). rewrite <- Ex, Hnew in Hl. done. }
  split.
  - intros s k. unfold add_order. rewrite book_for_index. destruct (locate o) as [[k0 p0]|].
    + rewrite book_for_set. case_decide; [|apply Hok]. by apply bt_sorted_insert, Hok.
    + rewrite book_for_set_pending. apply Hok.
  - intros s k p os. unfold add_order. rewrite book_for_index. destruct (locate o) as [[k0 p0]|].
    + rewrite book_for_set. case_decide; [|apply Hok]. intros Hin. apply bt_insert_elem in Hin; [|apply Hok].
      destruct Hin as [[_ Hv]|[Hin _]]; [|by apply (co_nonempty c Hok) in Hin].
      cbn in Hv. rewrite Hv. by destruct (default [] _).
    + rewrite book_for_set_pending. apply Hok.
  - intros loc. rewrite add_bucket by done. destruct (at_loc o loc); [|rewrite app_nil_r; apply Hok].
    rewrite fmap_app. apply NoDup_app. split_and!; [apply Hok| |apply NoDup_singleton].
    intros x Hx Hin. apply list_elem_of_singleton in Hin. subst x. by apply (Hfresh loc).
  - intros loc x. rewrite add_bucket by done. intros [Hx|Hx]%elem_of_app; [by apply Hok|].
    destruct (at_loc o loc) eqn:E; [|by apply not_elem_of_nil in Hx].
    by apply list_elem_of_singleton in Hx as ->.
  - intros loc x. rewrite add_bucket, add_index by done. intros [Hx|Hx]%elem_of_app.
    + destruct (co_indexed c Hok loc x Hx) as (l & Hl & Hat). exists l.
      rewrite lookup_insert_ne; [done|]. intros E. rewrite <- E, Hnew in Hl. done.
    + destruct (at_loc o loc) eqn:E; [|by apply not_elem_of_nil in Hx].
      apply list_elem_of_singleton in Hx as ->. eexists. rewrite lookup_insert_eq.
      split; [reflexivity|apply at_loc_own].
  - intros id loc. rewrite add_index, add_bucket by done. rewrite fmap_app.
    destruct (decide (id = ro_client_order_id o)) as [->|Hne].
    + rewrite lookup_insert_eq. intros [= <-]. rewrite at_loc_own. apply elem_of_app. right. left.
    + rewrite lookup_insert_ne by done. intros Hl. apply elem_of_app. left. by apply Hok.
Qed.

Lemma add_order_rests c o x :
  core_ok c -> rests (add_order c o) x <-> x = o \/ rests c x.
Proof.
  intros Hok. unfold rests. split.
  - intros [loc Hx]. rewrite add_bucket in Hx by done. apply elem_of_app in Hx as [Hx|Hx]; [by eauto|].
    destruct (at_loc o loc); [|by apply not_elem_of_nil in Hx]. apply list_elem_of_singleton in Hx. auto.
  - intros [->|[loc Hx]].
    + exists (ro_order_side o, locate o). rewrite add_bucket, at_loc_own by done. apply elem_of_app. right. left.
    + exists loc. rewrite add_bucket by done. apply elem_of_app. auto.
Qed.

(** ** Deleting *)

(** The bucket after a deletion is written back, or removed when empty. *)
Lemma put_bucket_get m p q os :
  bt_sorted p_raw m ->
  default [] (bt_get p_raw q match os with [] => bt_remove p_raw p m | _ => bt_insert p_raw p os m end) =
  if p_raw p =? p_raw q then os else default [] (bt_get p_raw q m).
Proof.
  intros Hs. destruct os as [|o os]; [rewrite bt_get_remove|rewrite bt_get_insert by done];
    by destruct (p_raw p =? p_raw q).
Qed.

Lemma put_bucket_sorted m p os :
  bt_sorted p_raw m ->
  bt_sorted p_raw match os with [] => bt_remove p_raw p m | _ => bt_insert p_raw p os m end.
Proof. intros Hs. destruct os; [by apply bt_sorted_remove|by apply bt_sorted_insert]. Qed.

Lemma put_bucket_nonempty m p os q os' :
  bt_sorted p_raw m -> (forall q os, (q, os) ∈ m -> os <> []) ->
  (q, os') ∈ match os with [] => bt_remove p_raw p m | _ => bt_insert p_raw p os m end -> os' <> [].
Proof.
  intros Hs Hne. destruct os as [|o os]; intros Hin.
  - apply bt_remove_sub in Hin as [Hin _]. by apply (Hne q).
  - apply bt_insert_elem in Hin as [[_ Hv]|[Hin _]]; [cbn in Hv; by subst|by apply (Hne q)|done].
Qed.

Lemma delete_bucket c id loc :
  core_ok c -> mc_order_index c !! id = Some loc ->
  exists os' c', remove_id id (bucket_at c loc) = Some os' /\ delete_order c id = Ok c' /\
    mc_order_index c' = delete id (mc_order_index c) /\
    (forall s k, bt_sorted p_raw (book_for c' s k)) /\
    (forall s k p os, (p, os) ∈ book_for c' s k -> os <> []) /\
    forall loc', bucket_at c' loc' = if same_place loc loc' then os' else bucket_at c loc'.
Proof.
  intros Hok Hl. pose proof (co_index c Hok id loc Hl) as Hin.
  destruct (remove_id_spec id _ (co_nodup c Hok loc) Hin) as (os' & Hr & _).
  exists os'. unfold delete_order. rewrite Hl. destruct loc as [s [[k p]|]]; cbn [bucket_at] in *.
  - rewrite book_for_index. destruct (bt_get p_raw p (book_for c s k)) as [b|] eqn:Eb;
      [|by apply not_elem_of_nil in Hin].
    change (remove_id id b = Some os') in Hr. cbn [expect mbind outcome_bind].
    rewrite Hr. cbn [expect mbind outcome_bind].
    eexists. split; [exact Hr|]. split; [reflexivity|].
    split_and!; [by rewrite index_set_book| | |].
    + intros s' k'. rewrite book_for_set, book_for_index. case_decide; [by apply put_bucket_sorted, Hok|apply Hok].
    + intros s' k' q os. rewrite book_for_set, book_for_index. case_decide; [|apply Hok].
      apply put_bucket_nonempty; [apply Hok|apply (co_nonempty c Hok)].
    + intros [s' [[k' q]|]]; cbn [bucket_at].
      * rewrite book_for_set, book_for_index. unfold same_place. cbn [fst snd]. case_decide as E.
        -- injection E as -> ->. rewrite !bool_decide_true by done. cbn [andb]. by apply put_bucket_get, Hok.
        -- destruct (bool_decide_reflect (s = s')) as [->|]; [|done]. cbn [andb].
           by rewrite bool_decide_false by congruence.
      * rewrite pending_for_set_book, pending_for_index. unfold same_place. cbn. by rewrite andb_false_r.
  - rewrite pending_for_index, Hr. cbn [expect mbind outcome_bind].
    eexists. split; [reflexivity|]. split; [reflexivity|].
    split_and!; [by rewrite index_set_pending| | |].
    + intros s' k'. rewrite book_for_set_pending, book_for_index. apply Hok.
    + intros s' k' q os. rewrite book_for_set_pending, book_for_index. apply Hok.
    + intros [s' [[k' q]|]]; cbn [bucket_at].
      * rewrite book_for_set_pending, book_for_index. unfold same_place. cbn. by rewrite andb_false_r.
      * rewrite pending_for_set, pending_for_index. unfold same_place. cbn [fst snd]. rewrite andb_true_r.
        case_decide as E; [subst; by rewrite bool_decide_true|by rewrite bool_decide_false by congruence].
Qed.

Lemma delete_order_spec c id :
  core_ok c -> order_exists c id = true ->
  exists c', delete_order c id = Ok c' /\ core_ok c' /\
    forall loc o, o ∈ bucket_at c' loc <-> o ∈ bucket_at c loc /\ ro_client_order_id o <> id.
Proof.
  intros Hok Hex. apply bool_decide_eq_true in Hex as [loc Hl].
  destruct (delete_bucket c id loc Hok Hl) as (os' & c' & Hr & Hd & Hi & Hs & Hne & Hb).
  pose proof (co_index c Hok id loc Hl) as Hin.
  destruct (remove_id_spec id _ (co_nodup c Hok loc) Hin) as (os2 & Hr2 & Hnd & Hel).
  rewrite Hr in Hr2. injection Hr2 as <-.
  assert (Hmem : forall loc' o, o ∈ bucket_at c' loc' <-> o ∈ bucket_at c loc' /\ ro_client_order_id o <> id).
  { intros loc' o. rewrite Hb. destruct (same_place loc loc') eqn:Esp.
    - rewrite Hel. by rewrite (same_place_bucket c loc loc').
    - split; [|tauto]. intros Ho. split; [done|]. intros <-.
      destruct (co_indexed c Hok loc' o Ho) as (l & Hl' & Hat). rewrite Hl in Hl'. injection Hl' as <-.
      by rewrite (at_loc_same o loc loc' Hat (co_placed c Hok loc' o Ho)) in Esp. }
  exists c'. split_and!; [done| |done]. split; [done|done|..].
  - intros loc'. rewrite Hb. destruct (same_place loc loc'); [done|apply Hok].
  - intros loc' o [Ho _]%Hmem. by apply Hok.
  - intros loc' o [Ho Hne']%Hmem. destruct (co_indexed c Hok loc' o Ho) as (l & Hl' & Hat).
    exists l. rewrite Hi, lookup_delete_ne by done. done.
  - intros j l. rewrite Hi. destruct (decide (j = id)) as [->|Hj]; [by rewrite lookup_delete_eq|].
    rewrite lookup_delete_ne by done. intros Hjl. apply (co_index c Hok) in Hjl.
    apply list_elem_of_fmap in Hjl as (o & -> & Ho). apply list_elem_of_fmap. exists o.
    split; [done|]. by apply Hmem.
Qed.

Lemma get_order_ext c c' id :
  core_ok c -> core_ok c' ->
  (forall o, ro_client_order_id o = id -> rests c o <-> rests c' o) -> get_order c id = get_order c' id.
Proof.
  intros Hok Hok' H.
  destruct (get_order c id) as [o|] eqn:E.
  - apply (get_order_iff c) in E as [Ho Hid]; [|done]. symmetry. apply get_order_iff; [done|].
    split; [by apply H|done].
  - destruct (get_order c' id) as [o|] eqn:E'; [|done].
    apply (get_order_iff c') in E' as [Ho Hid]; [|done]. apply (H o Hid) in Ho.
    by rewrite (proj2 (get_order_iff c id o Hok) (conj Ho Hid)) in E.
Qed.

Lemma matching_new_ok i p : core_ok (matching_new i p).
Proof.
  assert (Hb : forall loc, bucket_at (matching_new i p) loc = []) by (intros [[] [[[] q]|]]; done).
  split.
  - intros [] []; constructor.
  - intros [] [] q os; by intros ?%not_elem_of_nil.
  - intros loc. rewrite Hb. constructor.
  - intros loc o. rewrite Hb. by intros ?%not_elem_of_nil.
  - intros loc o. rewrite Hb. by intros ?%not_elem_of_nil.
  - intros id loc. cbn. by rewrite lookup_empty.
Qed.

(** ** Priority *)

(** The orders of a book in the order in which they are matched, and the key
    by which they are sorted: best limits first, nearest triggers first. *)
Definition reversed s k : bool :=
  match s, k with SBuy, KLimit | SSell, KStop => true | _, _ => false end.
Definition side_orders c s k : list RestingOrder :=
  if reversed s k then flat_rev (book_for c s k) else flat (book_for c s k).
Definition order_raw o : Z := match locate o with Some (_, p) => p_raw p | None => 0 end.
Definition prio s k o : Z := if reversed s k then - order_raw o else order_raw o.

Lemma elem_flat m o : o ∈ flat m <-> exists p os, (p, os) ∈ m /\ o ∈ os.
Proof.
  unfold flat. rewrite elem_of_concat. split.
  - intros (os & Hos & Ho). apply list_elem_of_fmap in Hos as ([p os'] & -> & Hin). by exists p, os'.
  - intros (p & os & Hin & Ho). exists os. split; [|done]. apply list_elem_of_fmap. by exists (p, os).
Qed.
Lemma elem_flat_rev m o : o ∈ flat_rev m <-> exists p os, (p, os) ∈ m /\ o ∈ os.
Proof.
  unfold flat_rev. fold (flat (reverse m)). rewrite elem_flat. setoid_rewrite elem_of_reverse. done.
Qed.
Lemma elem_side_orders c s k o :
  core_ok c -> o ∈ side_orders c s k <->
  rests c o /\ ro_order_side o = s /\ exists p, locate o = Some (k, p).
Proof.
  intros Hok.
  assert (H : o ∈ side_orders c s k <-> exists p os, (p, os) ∈ book_for c s k /\ o ∈ os).
  { unfold side_orders. destruct (reversed s k); [apply elem_flat_rev|apply elem_flat]. }
  rewrite H. split.
  - intros (p & os & Hin & Ho).
    assert (Hb : o ∈ bucket_at c (s, Some (k, p))).
    { cbn. by rewrite (bt_elem_get p_raw p _ os (co_sorted c Hok s k) Hin). }
    split; [by eexists|]. pose proof (co_placed c Hok _ _ Hb) as Hat. unfold at_loc in Hat.
    destruct (locate o) as [[k' q]|]; apply same_place_spec in Hat as [-> Hat]; [|done].
    destruct Hat as [-> _]. by eauto.
  - intros ([loc Ho] & Hs & p & Hp). pose proof (co_placed c Hok _ _ Ho) as Hat.
    rewrite (same_place_bucket c _ _ Hat), Hs, Hp in Ho. cbn in Ho.
    destruct (bt_get p_raw p (book_for c s k)) as [os|] eqn:E; [|by apply not_elem_of_nil in Ho].
    apply bt_get_elem in E as (q & _ & Hin). by exists q, os.
Qed.

(** The place at which a bucket is extended. *)
Lemma insert_split m p o :
  bt_sorted p_raw m ->
  exists m1 mid m2, m = m1 ++ mid ++ m2 /\
    bt_insert p_raw p (default [] (bt_get p_raw p m) ++ [o]) m =
      m1 ++ [(match mid with (q, _) :: _ => q | [] => p end, concat (snd <$> mid) ++ [o])] ++ m2 /\
    (forall x, x ∈ m1 -> p_raw x.1 < p_raw p) /\ (forall x, x ∈ mid -> p_raw x.1 = p_raw p) /\
    (forall x, x ∈ m2 -> p_raw p < p_raw x.1) /\ flat_rev mid = flat mid.
Proof.
  induction m as [|[q os] m IH]; intros Hs.
  { exists [], [], []. split_and!; try done; by intros x ?%not_elem_of_nil. }
  pose proof (bt_sorted_inv p_raw q os m Hs) as [Hm Hf]. rewrite Forall_forall in Hf.
  assert (Hm2 : forall x, x ∈ m -> p_raw q < p_raw x.1).
  { intros x Hx. apply Hf, list_elem_of_fmap. by exists x. }
  rewrite bt_insert_cons, bt_get_cons.
  destruct (Z.compare_spec (p_raw p) (p_raw q)) as [E|E|E].
  - exists [], [(q, os)], m. rewrite (proj2 (Z.eqb_eq _ _)) by done. cbn. rewrite app_nil_r.
    split_and!; [done|done| | | |done].
    + intros x Hx. by apply not_elem_of_nil in Hx.
    + intros x Hx. by apply list_elem_of_singleton in Hx as ->.
    + intros x Hx. specialize (Hm2 x Hx). lia.
  - exists [], [], ((q, os) :: m). rewrite (proj2 (Z.eqb_neq _ _)) by lia.
    rewrite (bt_get_notin p_raw).
    + split_and!; try done; try (by intros x ?%not_elem_of_nil).
      intros x Hx. apply elem_of_cons in Hx as [->|Hx]; [done|]. specialize (Hm2 x Hx). cbn. lia.
    + intros Hin. specialize (Hf _ Hin). lia.
  - rewrite (proj2 (Z.eqb_neq _ _)) by lia.
    destruct (IH Hm) as (m1 & mid & m2 & -> & -> & H1 & H2 & H3 & H4).
    exists ((q, os) :: m1), mid, m2. split_and!; try done.
    intros x Hx. apply elem_of_cons in Hx as [->|Hx]; [done|by apply H1].
Qed.

Lemma flat_app m1 m2 : flat (m1 ++ m2) = flat m1 ++ flat m2.
Proof. unfold flat. by rewrite fmap_app, concat_app. Qed.
Lemma flat_rev_app m1 m2 : flat_rev (m1 ++ m2) = flat_rev m2 ++ flat_rev m1.
Proof. unfold flat_rev. by rewrite reverse_app, fmap_app, concat_app. Qed.

Lemma bucket_raw c s k q os o :
  core_ok c -> (q, os) ∈ book_for c s k -> o ∈ os -> order_raw o = p_raw q.
Proof.
  intros Hok Hin Ho.
  assert (Hb : o ∈ bucket_at c (s, Some (k, q))).
  { cbn. by rewrite (bt_elem_get p_raw q _ os (co_sorted c Hok s k) Hin). }
  pose proof (co_placed c Hok _ _ Hb) as Hat. unfold at_loc in Hat. unfold order_raw.
  destruct (locate o) as [[k' q']|]; apply same_place_spec in Hat as [_ Hat]; [|done].
  by destruct Hat as [_ ->].
Qed.

Lemma flat_raw c s k m o :
  core_ok c -> m ⊆ book_for c s k -> o ∈ flat m -> exists x, x ∈ m /\ order_raw o = p_raw x.1.
Proof.
  intros Hok Hsub Ho. apply elem_flat in Ho as (q & os & Hin & Ho). exists (q, os). split; [done|].
  eapply bucket_raw; [done|by apply Hsub|done].
Qed.
Lemma flat_rev_raw c s k m o :
  core_ok c -> m ⊆ book_for c s k -> o ∈ flat_rev m -> exists x, x ∈ m /\ order_raw o = p_raw x.1.
Proof.
  intros Hok Hsub Ho. apply (flat_raw c s k m o Hok Hsub). by rewrite elem_flat, <- elem_flat_rev.
Qed.

Lemma flat_sorted (f : RestingOrder -> Z) (g : Price * OrderBucket -> Z) m :
  StronglySorted Z.lt (g <$> m) -> (forall e o, e ∈ m -> o ∈ e.2 -> f o = g e) ->
  StronglySorted Z.le (f <$> flat m).
Proof.
  induction m as [|[q os] m IH]; intros Hs Hf; [constructor|].
  cbn in Hs. apply StronglySorted_inv in Hs as [Hs Hlt]. unfold flat. cbn. rewrite fmap_app. apply ss_app.
  - apply (ss_const (g (q, os))). intros x (o & -> & Ho)%list_elem_of_fmap. apply Hf; [left|done].
  - apply IH; [done|]. intros e o He. apply Hf. by right.
  - intros x y (o & -> & Ho)%list_elem_of_fmap (o' & -> & Ho')%list_elem_of_fmap.
    rewrite (Hf (q, os) o) by (done || left). apply elem_flat in Ho' as (q' & os' & He & Ho').
    rewrite (Hf (q', os') o') by (done || by right). rewrite Forall_forall in Hlt.
    apply Z.lt_le_incl, Hlt, list_elem_of_fmap. by exists (q', os').
Qed.

(** Each book is matched in priority order. *)
Lemma side_orders_sorted c s k :
  core_ok c -> StronglySorted Z.le (prio s k <$> side_orders c s k).
Proof.
  intros Hok. pose proof (co_sorted c Hok s k) as Hs. unfold side_orders, prio.
  destruct (reversed s k).
  - apply (flat_sorted _ (fun e => - p_raw e.1)).
    + replace ((fun e : Price * OrderBucket => - p_raw e.1) <$> reverse (book_for c s k))
        with (Z.opp <$> reverse (bt_keys p_raw (book_for c s k))); [by apply ss_reverse_opp|].
      unfold bt_keys. rewrite <- fmap_reverse, <- list_fmap_compose. done.
    + intros [q os] o He Ho. rewrite elem_of_reverse in He. by rewrite (bucket_raw c s k q os o).
  - apply (flat_sorted _ (fun e => p_raw e.1)); [exact Hs|].
    intros [q os] o He Ho. by rewrite (bucket_raw c s k q os o).
Qed.

Lemma add_book c o s k :
  book_for (add_order c o) s k =
    match locate o with
    | Some (k', p) =>
        if decide ((s, k) = (ro_order_side o, k'))
        then bt_insert p_raw p (default [] (bt_get p_raw p (book_for c s k)) ++ [o]) (book_for c s k)
        else book_for c s k
    | None => book_for c s k
    end.
Proof.
  unfold add_order. rewrite book_for_index. destruct (locate o) as [[k' p]|].
  - rewrite book_for_set. case_decide as E; [by injection E as -> ->|done].
  - by rewrite book_for_set_pending.
Qed.

Lemma add_priority c o k p :
  core_ok c -> locate o = Some (k, p) ->
  exists before after, side_orders c (ro_order_side o) k = before ++ after /\
    side_orders (add_order c o) (ro_order_side o) k = before ++ o :: after /\
    (forall x, x ∈ before -> prio (ro_order_side o) k x <= prio (ro_order_side o) k o) /\
    (forall x, x ∈ after -> prio (ro_order_side o) k o < prio (ro_order_side o) k x).
Proof.
  intros Hok Hl. set (s := ro_order_side o).
  destruct (insert_split (book_for c s k) p o (co_sorted c Hok s k))
    as (m1 & mid & m2 & Hm & Hins & H1 & H2 & H3 & Hmid).
  assert (Hadd : book_for (add_order c o) s k =
    m1 ++ [(match mid with (q, _) :: _ => q | [] => p end, concat (snd <$> mid) ++ [o])] ++ m2).
  { rewrite add_book, Hl, decide_True by done. exact Hins. }
  assert (Hraw : order_raw o = p_raw p) by (unfold order_raw; by rewrite Hl).
  assert (Hs1 : m1 ⊆ book_for c s k) by (rewrite Hm; set_solver).
  assert (Hs2 : m2 ⊆ book_for c s k) by (rewrite Hm; set_solver).
  assert (Hsm : mid ⊆ book_for c s k) by (rewrite Hm; set_solver).
  unfold side_orders, prio. rewrite Hadd. destruct (reversed s k).
  - exists (flat_rev m2 ++ flat mid), (flat_rev m1). rewrite Hm, !flat_rev_app, Hmid.
    split_and!; [by rewrite <- app_assoc| | |].
    + unfold flat_rev at 2. cbn. rewrite app_nil_r. unfold flat. by rewrite <- !app_assoc.
    + intros x [Hx|Hx]%elem_of_app.
      * apply (flat_rev_raw c s k) in Hx as (e & He & ->); [|done..]. specialize (H3 e He). lia.
      * apply (flat_raw c s k) in Hx as (e & He & ->); [|done..]. specialize (H2 e He). lia.
    + intros x Hx. apply (flat_rev_raw c s k) in Hx as (e & He & ->); [|done..]. specialize (H1 e He). lia.
  - exists (flat m1 ++ flat mid), (flat m2). rewrite Hm, !flat_app.
    split_and!; [by rewrite <- app_assoc| | |].
    + unfold flat at 2. cbn. rewrite app_nil_r. unfold flat. by rewrite <- !app_assoc.
    + intros x [Hx|Hx]%elem_of_app.
      * apply (flat_raw c s k) in Hx as (e & He & ->); [|done..]. specialize (H1 e He). lia.
      * apply (flat_raw c s k) in Hx as (e & He & ->); [|done..]. specialize (H2 e He). lia.
    + intros x Hx. apply (flat_raw c s k) in Hx as (e & He & ->); [|done..]. specialize (H3 e He). lia.
Qed.

(** ** Iteration *)

Definition action_id (a : MatchAction) : ClientOrderId :=
  match a with FillLimit id | TriggerStop id => id end.

Lemma match_order_id c o a : match_order c o = Some a -> action_id a = ro_client_order_id o.
Proof.
  unfold match_order, match_stop_order, match_limit_order.
  repeat case_match; by intros [= <-].
Qed.

Lemma match_order_located c o a : match_order c o = Some a -> exists loc, locate o = Some loc.
Proof.
  unfold match_order, match_stop_order, match_limit_order, locate.
  destruct (ro_trigger_price o); [by eauto|]. destruct (ro_limit_price o); [by eauto|].
  by repeat case_match.
Qed.

Lemma iterate_side_orders c :
  iterate c = omap (match_order c) (side_orders c SBuy KLimit ++ side_orders c SBuy KStop ++
                                   side_orders c SSell KLimit ++ side_orders c SSell KStop).
Proof. unfold iterate, iterate_bids, iterate_asks. by rewrite !omap_app, <- app_assoc. Qed.

Lemma flat_rev_perm m : flat_rev m ≡ₚ flat m.
Proof.
  induction m as [|[q os] m IH]; [done|]. change ((q, os) :: m) with ([(q, os)] ++ m).
  rewrite flat_rev_app, flat_app, IH, Permutation_app_comm. unfold flat_rev. cbn. done.
Qed.

Lemma flat_nodup m :
  bt_sorted p_raw m -> (forall q os, (q, os) ∈ m -> NoDup (ids os)) ->
  (forall q os q' os' o o', (q, os) ∈ m -> (q', os') ∈ m -> o ∈ os -> o' ∈ os' ->
     ro_client_order_id o = ro_client_order_id o' -> p_raw q = p_raw q') ->
  NoDup (ids (flat m)).
Proof.
  induction m as [|[q os] m IH]; intros Hs Hnd Hu; [constructor|].
  apply bt_sorted_inv in Hs as [Hs Hf]. unfold flat. cbn. rewrite fmap_app. apply NoDup_app. split_and!.
  - apply (Hnd q). left.
  - intros id (o & -> & Ho)%list_elem_of_fmap (o' & Eid & Ho')%list_elem_of_fmap.
    apply elem_flat in Ho' as (q' & os' & He & Ho').
    pose proof (Hu q os q' os' o o' ltac:(left) ltac:(by right) Ho Ho' Eid) as E.
    rewrite Forall_forall in Hf. assert (Hlt : p_raw q < p_raw q'); [|lia].
    apply Hf, list_elem_of_fmap. by exists (q', os').
  - apply IH; [done| |].
    + intros q' os' H'. apply (Hnd q'). by right.
    + intros q1 os1 q2 os2 o o' H1 H2. apply Hu; by right.
Qed.

Lemma side_orders_nodup c s k : core_ok c -> NoDup (ids (side_orders c s k)).
Proof.
  intros Hok. assert (H : NoDup (ids (flat (book_for c s k)))).
  { assert (Hb : forall q os, (q, os) ∈ book_for c s k -> bucket_at c (s, Some (k, q)) = os).
    { intros q os Hin. cbn. by rewrite (bt_elem_get p_raw q _ os (co_sorted c Hok s k) Hin). }
    apply flat_nodup; [apply Hok| |].
    - intros q os Hin. rewrite <- (Hb q os Hin). apply Hok.
    - intros q os q' os' o o' H1 H2 Ho Ho' Eid.
      assert (o = o') as <-.
      { apply (rests_unique c); try done; eexists; [by erewrite Hb|by erewrite Hb]. }
      by rewrite <- (bucket_raw c s k q os o), <- (bucket_raw c s k q' os' o). }
  unfold side_orders. destruct (reversed s k); [|done]. by rewrite flat_rev_perm.
Qed.

Lemma all_orders_nodup c :
  core_ok c ->
  NoDup (ids (side_orders c SBuy KLimit ++ side_orders c SBuy KStop ++
              side_orders c SSell KLimit ++ side_orders c SSell KStop)).
Proof.
  intros Hok.
  assert (Hdisj : forall s k s' k' id, (s, k) <> (s', k') ->
    id ∈ ids (side_orders c s k) -> id ∈ ids (side_orders c s' k') -> False).
  { intros s k s' k' id Hne (o & -> & Ho)%list_elem_of_fmap (o' & Eid & Ho')%list_elem_of_fmap.
    apply elem_side_orders in Ho as (Hr & Hs & p & Hp); [|done].
    apply elem_side_orders in Ho' as (Hr' & Hs' & p' & Hp'); [|done].
    assert (o = o') as <- by (by apply (rests_unique c)). congruence. }
  rewrite !fmap_app, !NoDup_app. split_and!; try (by apply side_orders_nodup);
    intros id H1; rewrite ?elem_of_app; intros H2;
    repeat match goal with H : _ \/ _ |- _ => destruct H end;
    match goal with
    | H1 : id ∈ ids (side_orders _ ?s ?k), H2 : id ∈ ids (side_orders _ ?s' ?k') |- _ =>
        exact (Hdisj s k s' k' id ltac:(discriminate) H1 H2)
    end.
Qed.

Lemma omap_nodup c (os : list RestingOrder) : NoDup (ids os) -> NoDup (omap (match_order c) os).
Proof.
  induction os as [|o os IH]; intros Hnd; [constructor|]. cbn in Hnd. apply NoDup_cons in Hnd as [Ho Hnd].
  cbn. destruct (match_order c o) as [a|] eqn:Ea; [|by apply IH]. apply NoDup_cons. split; [|by apply IH].
  intros Hin. apply list_elem_of_omap in Hin as (o' & Ho' & Ea'). apply Ho.
  apply match_order_id in Ea, Ea'. rewrite <- Ea, Ea'. apply list_elem_of_fmap. by exists o'.
Qed.
End Inv.
