(* ===== verification/MatchingSpec.v ===== *)
(** * What the matching core promises *)

From stdpp Require Import base numbers list gmap sets strings.
From Stdlib Require Import ZArith Lia Sorted.
From S2P Require Import Prelude Fixed Price Quantity Enums Maps Money OrderEvents OrderCore Orders MatchingCore MatchingInv.

(** C21: the matching core is a finite map from client order id to resting order:
    an order added under a new id is found under it and nothing else changes;
    deleting a known id removes exactly that order and never panics, deleting an
    unknown one returns [NotFound]; the index, the four books and the pending
    lists stay in agreement. *)
Theorem matching_core_map (c : OrderMatchingCore) :
  core_ok c ->
  (forall id, order_exists c id = true <-> is_Some (get_order c id)) /\
  (forall o, order_exists c (ro_client_order_id o) = false ->
     core_ok (add_order c o) /\
     forall id, get_order (add_order c o) id =
       if decide (id = ro_client_order_id o) then Some o else get_order c id) /\
  (forall id,
     match get_order c id with
     | None => delete_order c id = Err (NotFound id)
     | Some _ => exists c', delete_order c id = Ok c' /\ core_ok c' /\
         forall j, get_order c' j = if decide (j = id) then None else get_order c j
     end).
Proof.
  intros Hok. split_and!; [intros id; by apply get_order_exists| |].
  - intros o Hnew. pose proof (add_order_ok c o Hok Hnew) as Hok'. split; [done|].
    intros id. case_decide as E.
    + apply get_order_iff; [done|]. split; [|done]. apply add_order_rests; auto.
    + symmetry. apply get_order_ext; [done..|]. intros x Hx. rewrite add_order_rests by done.
      split; [by right|]. intros [->|Hr]; [by subst|done].
  - intros id. destruct (get_order c id) as [o|] eqn:Eo.
    + destruct (delete_order_spec c id Hok) as (c' & Hd & Hok' & Hmem).
      { apply get_order_exists; [done|]. by eauto. }
      exists c'. split_and!; [done..|]. intros j. case_decide as E.
      * subst j. destruct (get_order c' id) as [x|] eqn:Ex; [|done].
        apply get_order_iff in Ex as [[loc Hx] Hid]; [|done]. by apply Hmem in Hx as [_ Hx].
      * symmetry. apply get_order_ext; [done..|]. intros x Hx. unfold rests.
        split; intros [loc Hl]; exists loc; [apply Hmem; split; [done|congruence]|by apply Hmem in Hl as [Hl _]].
    + unfold delete_order. destruct (mc_order_index c !! id) as [loc|] eqn:El; [|done].
      exfalso. assert (Hex : order_exists c id = true) by (apply bool_decide_eq_true; by eauto).
      apply get_order_exists in Hex as [o Ho]; [|done]. congruence.
Qed.

(** price-time priority: an added order is matched after every order of its
    book with the same or a better price and before every worse one, the other
    orders keep their relative order, and each book is matched from the best
    price (for stops, the nearest trigger) outwards. *)
Theorem matching_priority (c : OrderMatchingCore) (o : RestingOrder) (k : BookKind) (p : Price) :
  core_ok c -> locate o = Some (k, p) ->
  (forall s k', StronglySorted Z.le (prio s k' <$> side_orders c s k')) /\
  (exists before after, side_orders c (ro_order_side o) k = before ++ after /\
     side_orders (add_order c o) (ro_order_side o) k = before ++ o :: after /\
     (forall x, x ∈ before -> prio (ro_order_side o) k x <= prio (ro_order_side o) k o) /\
     (forall x, x ∈ after -> prio (ro_order_side o) k o < prio (ro_order_side o) k x)) /\
  (forall s k', (s, k') <> (ro_order_side o, k) ->
     side_orders (add_order c o) s k' = side_orders c s k').
Proof.
  intros Hok Hl. split_and!; [intros; by apply side_orders_sorted|by apply (add_priority c o k p)|].
  intros s k' Hne. unfold side_orders. by rewrite add_book, Hl, decide_False.
Qed.

(** *** When an order is due

    Stated on raw prices, without the rules of the core: an order faces the
    other side's quote. *)

(** The quote a trigger price is compared with. *)
Definition trigger_quote (c : OrderMatchingCore) (s : OrderSideSpecified) : option Price :=
  match s with SBuy => mc_ask c | SSell => mc_bid c end.
Definition own_quote (c : OrderMatchingCore) (s : OrderSideSpecified) : option Price :=
  match s with SBuy => mc_bid c | SSell => mc_ask c end.
(** For an order on side [s], trading at [p] is no worse than at [q]. *)
Definition as_good (s : OrderSideSpecified) (p q : Price) : Prop :=
  match s with SBuy => p_raw p <= p_raw q | SSell => p_raw q <= p_raw p end.

Definition limit_due (c : OrderMatchingCore) (s : OrderSideSpecified) (limit : Price) : Prop :=
  (exists q, trigger_quote c s = Some q /\ as_good s q limit) \/
  (mc_fill_limit_inside_spread c = true /\ is_Some (trigger_quote c s) /\
   exists q, own_quote c s = Some q /\ as_good s q limit).
Definition stop_due (c : OrderMatchingCore) (s : OrderSideSpecified) (trigger : Price) : Prop :=
  exists q, trigger_quote c s = Some q /\ as_good s trigger q.
Definition due (c : OrderMatchingCore) (o : RestingOrder) : Prop :=
  match ro_trigger_price o, ro_limit_price o with
  | Some t, _ => ro_is_activated o = true /\ stop_due c (ro_order_side o) t
  | None, Some l => limit_due c (ro_order_side o) l
  | None, None => False
  end.
Definition action_of (o : RestingOrder) : MatchAction :=
  match ro_trigger_price o with
  | Some _ => TriggerStop (ro_client_order_id o)
  | None => FillLimit (ro_client_order_id o)
  end.

(** Bid limits from the highest, bid stops from the lowest, ask limits from the
    lowest, ask stops from the highest. *)
Definition rank (o : RestingOrder) : Z * Z :=
  match ro_order_side o, ro_trigger_price o, ro_limit_price o with
  | SBuy, None, Some l => (0, - p_raw l)
  | SBuy, Some t, _ => (1, p_raw t)
  | SSell, None, Some l => (2, p_raw l)
  | SSell, Some t, _ => (3, - p_raw t)
  | _, None, None => (4, 0)
  end.
Definition precedes (x y : RestingOrder) : Prop :=
  (rank x).1 < (rank y).1 \/ ((rank x).1 = (rank y).1 /\ (rank x).2 <= (rank y).2).

Lemma match_order_due c o :
  (due c o /\ match_order c o = Some (action_of o)) \/ (~ due c o /\ match_order c o = None).
Proof.
  unfold due, match_order, resting_is_stop, resting_is_limit, match_stop_order, match_limit_order, action_of.
  destruct (ro_trigger_price o) as [t|] eqn:Et.
  - rewrite bool_decide_true by eauto. destruct (ro_is_activated o); cbn [negb]; [|right; split; [by intros []|done]].
    unfold is_stop_matched, stop_due, trigger_quote, as_good, price_geb, price_leb.
    destruct (ro_order_side o), (mc_ask c), (mc_bid c); cbn [is_some_and]; try case_match;
      first [left; naive_solver lia|right; naive_solver lia].
  - rewrite bool_decide_false by (by intros [? ?]). destruct (ro_limit_price o) as [l|]; [|right; rewrite bool_decide_false by (by intros [? ?]); split; [by intros []|done]].
    unfold resting_is_stop. rewrite Et, bool_decide_true, bool_decide_false by (by eauto || by intros [? ?]). cbn [andb negb].
    unfold is_limit_fillable, is_limit_matched, limit_due, trigger_quote, own_quote, as_good, price_geb, price_leb.
    destruct (ro_order_side o), (mc_ask c), (mc_bid c), (mc_fill_limit_inside_spread c); cbn [is_some_and negb];
      repeat case_match; first [left; naive_solver lia|right; naive_solver lia
        |left; split; [right; split_and!; [done|by eauto|eexists; split; [done|lia]]|done]].
Qed.
#[local] Instance due_dec c o : Decision (due c o).
Proof.
  destruct (match_order c o) eqn:E; [left|right]; destruct (match_order_due c o) as [[? ?]|[? ?]]; congruence.
Defined.

Definition all_orders (c : OrderMatchingCore) : list RestingOrder :=
  side_orders c SBuy KLimit ++ side_orders c SBuy KStop ++
  side_orders c SSell KLimit ++ side_orders c SSell KStop.
Lemma iterate_due c : iterate c = action_of <$> filter (due c) (all_orders c).
Proof.
  rewrite iterate_side_orders. fold (all_orders c). induction (all_orders c) as [|o l IH]; [done|].
  cbn [omap list_omap]. rewrite filter_cons. destruct (match_order_due c o) as [[Hd ->]|[Hd ->]].
  - rewrite decide_True by done. cbn. by rewrite <- IH.
  - by rewrite decide_False.
Qed.

Lemma rank_side c s k o :
  core_ok c -> o ∈ side_orders c s k ->
  rank o = (match s, k with SBuy, KLimit => 0 | SBuy, KStop => 1 | SSell, KLimit => 2 | SSell, KStop => 3 end, prio s k o).
Proof.
  intros Hok Ho. apply elem_side_orders in Ho as (_ & Hs & p & Hl); [|done].
  unfold rank, prio, reversed, order_raw. rewrite Hs, Hl. unfold locate in Hl.
  destruct (ro_trigger_price o), (ro_limit_price o), s, k; try done; by injection Hl as <-.
Qed.
Lemma side_precedes c s k : core_ok c -> StronglySorted precedes (side_orders c s k).
Proof.
  intros Hok. pose proof (side_orders_sorted c s k Hok) as Hs. pose proof (rank_side c s k) as Hr.
  induction (side_orders c s k) as [|x l IH]; [constructor|]. apply StronglySorted_inv in Hs as [Hs Hx].
  constructor; [apply IH; [done|]; intros y ? ?; apply Hr; [done|by right]|].
  apply Forall_forall. intros y Hy. right.
  rewrite (Hr x Hok ltac:(by left)), (Hr y Hok ltac:(by right)). cbn. split; [done|].
  rewrite Forall_forall in Hx. apply Hx, list_elem_of_fmap. by exists y.
Qed.
Lemma all_orders_sorted c : core_ok c -> StronglySorted precedes (all_orders c).
Proof.
  intros Hok. unfold all_orders.
  repeat apply ss_app; try (by apply side_precedes);
    intros x y Hx Hy; left; rewrite ?elem_of_app in Hy; rewrite (rank_side c _ _ x Hok Hx);
    repeat match type of Hy with _ \/ _ => destruct Hy as [Hy|Hy] end; rewrite (rank_side c _ _ y Hok Hy); cbn; lia.
Qed.
Lemma elem_all_orders c o :
  core_ok c -> o ∈ all_orders c <-> rests c o /\ is_Some (locate o).
Proof.
  intros Hok. unfold all_orders. rewrite !elem_of_app, !elem_side_orders by done. split.
  - intros [H|[H|[H|H]]]; destruct H as (Hr & _ & p & ->); split; eauto.
  - intros [Hr [[k p] Hl]]. destruct (ro_order_side o) eqn:Es, k; eauto 10.
Qed.

(** A new order goes behind all that do not come after it. *)
Lemma add_all_orders c o :
  core_ok c -> order_exists c (ro_client_order_id o) = false -> is_Some (locate o) ->
  exists before after, all_orders c = before ++ after /\ all_orders (add_order c o) = before ++ o :: after /\
    Forall (fun x => precedes x o) before /\ Forall (fun x => ~ precedes x o) after.
Proof.
  intros Hok Hnew [[k p] Hl]. destruct (matching_priority c o k p Hok Hl) as (_ & (b & a & H1 & H2 & Hb & Ha) & Hne).
  pose proof (add_order_ok c o Hok Hnew) as Hok'.
  assert (Ho : o ∈ side_orders (add_order c o) (ro_order_side o) k) by (rewrite H2, elem_of_app; right; by left).
  assert (Hro := rank_side _ _ _ o Hok' Ho).
  assert (Hin : forall x, x ∈ b \/ x ∈ a -> x ∈ side_orders c (ro_order_side o) k) by (intros x Hx; by rewrite H1, elem_of_app).
  assert (Hrk : forall x, x ∈ b \/ x ∈ a -> rank x = ((rank o).1, prio (ro_order_side o) k x)).
  { intros x Hx. by rewrite (rank_side c _ _ x Hok (Hin x Hx)), Hro. }
  assert (Hlow : Forall (fun x => precedes x o) b).
  { apply Forall_forall. intros x Hx. right. rewrite (Hrk x) by auto. split; [done|]. rewrite Hro. by apply Hb. }
  assert (Hhigh : Forall (fun x => ~ precedes x o) a).
  { apply Forall_forall. intros x Hx. unfold precedes. rewrite (Hrk x) by auto. rewrite Hro. specialize (Ha x Hx). cbn. lia. }
  assert (Hother : forall s' k', (s', k') <> (ro_order_side o, k) ->
    Forall (fun x => rank x = (match s', k' with SBuy, KLimit => 0 | SBuy, KStop => 1 | SSell, KLimit => 2 | SSell, KStop => 3 end,
                               prio s' k' x)) (side_orders c s' k')).
  { intros s' k' _. apply Forall_forall. intros x Hx. by apply (rank_side c). }
  unfold all_orders. destruct (ro_order_side o) eqn:Es, k; rewrite H1, H2, !Hne by done.
  1: exists b, (a ++ side_orders c SBuy KStop ++ side_orders c SSell KLimit ++ side_orders c SSell KStop).
  2: exists (side_orders c SBuy KLimit ++ b), (a ++ side_orders c SSell KLimit ++ side_orders c SSell KStop).
  3: exists (side_orders c SBuy KLimit ++ side_orders c SBuy KStop ++ b), (a ++ side_orders c SSell KStop).
  4: exists (side_orders c SBuy KLimit ++ side_orders c SBuy KStop ++ side_orders c SSell KLimit ++ b), a.
  all: rewrite <- ?app_assoc; cbn [app]; split_and!; try done; repeat apply Forall_app_2; try done;
    (eapply Forall_impl; [apply Hother; done|]; cbn; intros x Hx; unfold precedes; rewrite Hx, Hro; cbn; lia).
Qed.

Lemma Forall_kept {A} (P Q : A -> Prop) `{forall x, Decision (Q x)} l : Forall P l -> Forall P (filter Q l).
Proof. rewrite !Forall_forall. intros Hl x [_ Hx]%list_elem_of_filter. by apply Hl. Qed.

(** C22: iterating a core (one whose index and books agree, as every sequence of
    adds under new ids and deletes keeps it) lists exactly the due resting orders,
    each once.  A limit order is due when the opposite quote is at its limit or
    better, or, with filling inside the spread on and both quotes known, when its
    own side's quote is; an activated order with a trigger price is due when the
    opposite quote has reached the trigger from the stop's side (ask at or above
    it for a buy, bid at or below it for a sell).  This stop rule is also the one
    applied to if-touched orders.  The list is in price-time priority: bids before asks,
    limits before stops, bid limits from the highest price, bid stops from the
    lowest trigger, ask limits from the lowest, ask stops from the highest, and
    an order added under a new id comes after every order that ranks with or
    before it and before all others. *)
Theorem iterate_correct (c : OrderMatchingCore) :
  core_ok c ->
  exists l, iterate c = action_of <$> l /\ NoDup (ro_client_order_id <$> l) /\
    (forall o, o ∈ l <-> get_order c (ro_client_order_id o) = Some o /\ due c o) /\
    StronglySorted precedes l /\
    forall o, order_exists c (ro_client_order_id o) = false -> due c o ->
      exists before after, l = before ++ after /\
        iterate (add_order c o) = action_of <$> before ++ o :: after /\
        Forall (fun x => precedes x o) before /\ Forall (fun x => ~ precedes x o) after.
Proof.
  intros Hok. exists (filter (due c) (all_orders c)).
  assert (Hloc : forall o, due c o -> is_Some (locate o)).
  { intros o. unfold due, locate. destruct (ro_trigger_price o), (ro_limit_price o); cbn; by eauto. }
  split_and!.
  - apply iterate_due.
  - pose proof (all_orders_nodup c Hok) as Hn. fold (all_orders c) in Hn.
    eapply sublist_NoDup; [exact Hn|]. apply fmap_sublist, sublist_filter.
  - intros o. rewrite list_elem_of_filter, elem_all_orders, get_order_iff by done. naive_solver.
  - pose proof (all_orders_sorted c Hok) as Hs. induction Hs as [|x l Hs IH Hx]; [constructor|].
    rewrite filter_cons. case_decide; [|done]. constructor; [done|]. by apply Forall_kept.
  - intros o Hnew Hd. destruct (add_all_orders c o Hok Hnew (Hloc o Hd)) as (b & a & H1 & H2 & Hb & Ha).
    exists (filter (due c) b), (filter (due c) a). rewrite H1, filter_app, iterate_due, H2.
    assert (Hq : forall x, due (add_order c o) x <-> due c x).
    { intros x. unfold due, limit_due, stop_due, trigger_quote, own_quote, add_order.
      destruct (locate o) as [[[] p]|], (ro_order_side o); done. }
    split_and!; [done| |by apply Forall_kept|by apply Forall_kept].
    rewrite (list_filter_iff (due (add_order c o)) (due c)) by exact Hq.
    rewrite filter_app, filter_cons, decide_True by done. done.
Qed.

(** an if-touched order is triggered by the stop rule, not by the touch
    rule: away from its trigger price it is triggered exactly when the market
    has not touched it, so one that is added because it has not been touched
    is triggered by the very next iteration. *)
Theorem if_touched_triggers_untouched (c : OrderMatchingCore) (o : RestingOrder) (t q : Price) :
  core_ok c -> order_exists c (ro_client_order_id o) = false ->
  ro_order_type o = MarketIfTouched \/ ro_order_type o = LimitIfTouched ->
  ro_trigger_price o = Some t -> ro_is_activated o = true ->
  trigger_quote c (ro_order_side o) = Some q -> p_raw q <> p_raw t ->
  (match_order c o = Some (TriggerStop (ro_client_order_id o)) <->
   is_touch_triggered c (ro_order_side o) t = false) /\
  (is_touch_triggered c (ro_order_side o) t = false ->
   TriggerStop (ro_client_order_id o) ∈ iterate (add_order c o)).
Proof.
  intros Hok Hnew _ Ht Ha Hq Hne.
  assert (Hmatch : forall c', mc_bid c' = mc_bid c -> mc_ask c' = mc_ask c ->
    match_order c' o = Some (TriggerStop (ro_client_order_id o)) <->
    is_touch_triggered c (ro_order_side o) t = false).
  { intros c' Hb Hk. unfold match_order, resting_is_stop, match_stop_order, is_stop_matched, is_touch_triggered.
    rewrite Ht, Ha, Hb, Hk, bool_decide_true by eauto. unfold trigger_quote in Hq. cbn [negb].
    destruct (ro_order_side o); rewrite Hq; cbn [is_some_and]; unfold price_geb, price_leb.
    - destruct (Z.leb_spec (p_raw t) (p_raw q)), (Z.leb_spec (p_raw q) (p_raw t)); split; intros; try done; lia.
    - destruct (Z.leb_spec (p_raw t) (p_raw q)), (Z.leb_spec (p_raw q) (p_raw t)); split; intros; try done; lia. }
  split; [by apply Hmatch|]. intros Hun.
  assert (Hl : locate o = Some (KStop, t)) by (unfold locate; by rewrite Ht).
  assert (Hquotes : mc_bid (add_order c o) = mc_bid c /\ mc_ask (add_order c o) = mc_ask c).
  { unfold add_order. rewrite Hl. by destruct (ro_order_side o). }
  rewrite iterate_side_orders, list_elem_of_omap. exists o. destruct Hquotes.
  split; [|by apply Hmatch].
  rewrite !elem_of_app, !elem_side_orders by (by apply add_order_ok).
  assert (Hr : rests (add_order c o) o) by (apply add_order_rests; auto).
  destruct (ro_order_side o) eqn:Es; eauto 10.
Qed.

Section Witnesses.
Definition px (n : Z) : Price := mkPrice (n * 10 ^ 9) 0.
Definition limit_order (id : ClientOrderId) (s : OrderSideSpecified) (n : Z) : RestingOrder :=
  mkResting id s Limit None (Some (px n)) true.
Definition touch_order (id : ClientOrderId) (n : Z) : RestingOrder :=
  mkResting id SBuy MarketIfTouched (Some (px n)) None true.
Definition empty_core : OrderMatchingCore :=
  set_bid_raw (set_ask_raw (matching_new (mkInstrumentId "AUD/USD" "SIM") (px 1)) (px 101)) (px 99).
Definition quoted_core : OrderMatchingCore := add_order empty_core (limit_order "O-1" SBuy 100).

Lemma empty_core_ok : core_ok empty_core.
Proof.
  pose proof (matching_new_ok (mkInstrumentId "AUD/USD" "SIM") (px 1)) as [H1 H2 H3 H4 H5 H6].
  assert (Hb : forall loc, bucket_at empty_core loc =
    bucket_at (matching_new (mkInstrumentId "AUD/USD" "SIM") (px 1)) loc) by (by intros [[] [[[] q]|]]).
  split; [by intros [] []; apply (H1 SBuy KLimit)|by intros [] [] p os ?%not_elem_of_nil|..].
  - intros loc. rewrite Hb. apply H3.
  - intros loc o. rewrite Hb. apply H4.
  - intros loc o. rewrite Hb. apply H5.
  - intros id loc. rewrite Hb. apply H6.
Qed.
Lemma quoted_core_ok : core_ok quoted_core.
Proof. by apply add_order_ok; [apply empty_core_ok|]. Qed.

Example matching_core_map_witness :
  get_order (add_order quoted_core (limit_order "O-2" SBuy 101)) "O-1" = Some (limit_order "O-1" SBuy 100) /\
  delete_order quoted_core "O-9" = Err (NotFound "O-9").
Proof.
  destruct (matching_core_map quoted_core quoted_core_ok) as (_ & Hadd & Hdel). split.
  - destruct (Hadd (limit_order "O-2" SBuy 101) eq_refl) as [_ H]. rewrite H. reflexivity.
  - specialize (Hdel "O-9"%string).
    destruct (get_order quoted_core "O-9") as [x|] eqn:E; [vm_compute in E; discriminate E|exact Hdel].
Defined.

Example matching_priority_witness :
  exists before after, side_orders quoted_core SBuy KLimit = before ++ after /\
    side_orders (add_order quoted_core (limit_order "O-2" SBuy 100)) SBuy KLimit =
      before ++ limit_order "O-2" SBuy 100 :: after.
Proof.
  destruct (matching_priority quoted_core (limit_order "O-2" SBuy 100) KLimit (px 100) quoted_core_ok eq_refl)
    as (_ & (before & after & H1 & H2 & _) & _).
  exists before, after. split; [exact H1|exact H2].
Defined.

Example iterate_correct_witness :
  FillLimit "O-2" ∈ iterate (add_order quoted_core (limit_order "O-2" SBuy 101)).
Proof.
  destruct (iterate_correct (add_order quoted_core (limit_order "O-2" SBuy 101))) as (l & -> & _ & Hl & _).
  - apply add_order_ok; [apply quoted_core_ok|reflexivity].
  - apply list_elem_of_fmap. exists (limit_order "O-2" SBuy 101). split; [reflexivity|]. apply Hl.
    split; [reflexivity|]. left. exists (px 101). split; [reflexivity|]. vm_compute. discriminate.
Defined.

(** A buy order to be touched at 95 is triggered with the ask at 101. *)
Example if_touched_witness :
  TriggerStop "O-3" ∈ iterate (add_order quoted_core (touch_order "O-3" 95)).
Proof.
  apply (if_touched_triggers_untouched quoted_core (touch_order "O-3" 95) (px 95) (px 101));
    try reflexivity; [apply quoted_core_ok|left; reflexivity|vm_compute; discriminate].
Defined.
End Witnesses.
