(* ===== verification/Own.v ===== *)
(** * The own order book ([crates/model/src/orderbook/own.rs])

    The trader's own orders of one instrument by side, price level and arrival,
    with a cache from client order id to level price. *)

From stdpp Require Import base numbers list sets strings.
From Stdlib Require Import ZArith Lia.
From S2P Require Import Prelude F64 Fixed Price Quantity Enums Maps Money OrderEvents OrderCore Orders Ladder.

Record OwnBookOrder : Type := mkOwnOrder {
  oo_trader_id : TraderId;
  oo_client_order_id : ClientOrderId;
  oo_venue_order_id : option VenueOrderId;
  oo_side : OrderSideSpecified;
  oo_price : Price;
  oo_size : Quantity;
  oo_order_type : OrderType;
  oo_time_in_force : TimeInForce;
  oo_status : OrderStatus;
  oo_ts_last : UnixNanos;
  oo_ts_accepted : UnixNanos;
  oo_ts_submitted : UnixNanos;
  oo_ts_init : UnixNanos;
}.

Record OwnBookLevel : Type := mkOwnLevel {
  ol_price : BookPrice;
  ol_orders : list (ClientOrderId * OwnBookOrder);
}.
#[export] Instance own_level_eta : Eta OwnBookLevel := fun l => mkOwnLevel (ol_price l) (ol_orders l).

Record OwnBookLadder : Type := mkOwnLadder {
  od_side : OrderSideSpecified;
  od_levels : list (BookPrice * OwnBookLevel);
  od_cache : list (ClientOrderId * BookPrice);
}.
#[export] Instance own_ladder_eta : Eta OwnBookLadder := fun l =>
  mkOwnLadder (od_side l) (od_levels l) (od_cache l).

Record OwnOrderBook : Type := mkOwnBook {
  ow_instrument_id : InstrumentId;
  ow_ts_last : UnixNanos;
  ow_update_count : Z;
  ow_bids : OwnBookLadder;
  ow_asks : OwnBookLadder;
}.
#[export] Instance own_book_eta : Eta OwnOrderBook := fun b =>
  mkOwnBook (ow_instrument_id b) (ow_ts_last b) (ow_update_count b) (ow_bids b) (ow_asks b).

Inductive OwnBookError : Type :=
  | OrderNotFoundInCache (id : ClientOrderId)
  | CachedLevelMissing (id : ClientOrderId) (price : BookPrice)
  | OrderNotFoundAtLevel (id : ClientOrderId) (price : BookPrice).

Section Own.
Context `{M : Mode}.

(** *** Orders *)

Definition own_to_book_price (self : OwnBookOrder) : BookPrice :=
  mkBookPrice (oo_price self) (oo_side self).
Definition own_exposure {E} (self : OwnBookOrder) : outcome E f64 :=
  p ← price_as_f64 (oo_price self); s ← qty_as_f64 (oo_size self); Ok (F64.mul p s).
Definition own_signed_size {E} (self : OwnBookOrder) : outcome E f64 :=
  s ← qty_as_f64 (oo_size self);
  Ok (match oo_side self with SBuy => s | SSell => F64.opp s end).

(** *** Levels *)

Definition own_level_new (price : BookPrice) : OwnBookLevel := mkOwnLevel price [].
Definition own_from_order (order : OwnBookOrder) : OwnBookLevel :=
  mkOwnLevel (own_to_book_price order) (ix_insert (oo_client_order_id order) order []).
Definition own_level_len (self : OwnBookLevel) : Z := Z.of_nat (length (ol_orders self)).
Definition own_level_is_empty (self : OwnBookLevel) : bool :=
  match ol_orders self with [] => true | _ => false end.
Definition own_level_first (self : OwnBookLevel) : option OwnBookOrder := snd <$> head (ol_orders self).
Definition own_get_orders (self : OwnBookLevel) : list OwnBookOrder := snd <$> ol_orders self.
(** Float sums start from [-0.0]. *)
Definition own_level_size {E} (self : OwnBookLevel) : outcome E f64 :=
  foldl (fun acc o => a ← acc; s ← qty_as_f64 (oo_size o); Ok (F64.add a s))
    (Ok (F64.opp F64.zero)) (own_get_orders self).
Definition own_level_exposure {E} (self : OwnBookLevel) : outcome E f64 :=
  foldl (fun acc o => a ← acc; x ← own_exposure o; Ok (F64.add a x))
    (Ok (F64.opp F64.zero)) (own_get_orders self).

Definition own_level_add (self : OwnBookLevel) (order : OwnBookOrder) : OwnBookLevel :=
  self <| ol_orders := ix_insert (oo_client_order_id order) order (ol_orders self) |>.
Definition own_level_add_bulk (self : OwnBookLevel) (orders : list OwnBookOrder) : OwnBookLevel :=
  foldl own_level_add self orders.
(** [self.orders[&id] = order] panics when the id is not there. *)
Definition own_level_update {E} (self : OwnBookLevel) (order : OwnBookOrder)
  : outcome E OwnBookLevel :=
  let id := oo_client_order_id order in
  if qty_is_zero (oo_size order)
  then Ok (self <| ol_orders := ix_shift_remove id (ol_orders self) |>)
  else
    _ ← expect (ix_get id (ol_orders self));
    Ok (self <| ol_orders := ix_insert id order (ol_orders self) |>).
Definition own_level_delete (self : OwnBookLevel) (id : ClientOrderId)
  : outcome OwnBookError OwnBookLevel :=
  match ix_get id (ol_orders self) with
  | None => Err (OrderNotFoundAtLevel id (ol_price self))
  | Some _ => Ok (self <| ol_orders := ix_shift_remove id (ol_orders self) |>)
  end.

(** *** Ladders *)

Definition own_ladder_new (side : OrderSideSpecified) : OwnBookLadder := mkOwnLadder side [] [].
Definition own_ladder_len (self : OwnBookLadder) : Z := Z.of_nat (length (od_levels self)).
Definition own_ladder_clear (self : OwnBookLadder) : OwnBookLadder :=
  self <| od_levels := [] |> <| od_cache := [] |>.

(** A search compares the price with stored prices, which must be of its side. *)
Definition own_levels_get {E} (p : BookPrice) (levels : list (BookPrice * OwnBookLevel))
  : outcome E (option OwnBookLevel) :=
  _ ← match levels with
      | [] => Ok tt
      | (k, _) :: _ => assert_ (bool_decide (bp_side p = bp_side k))
      end;
  Ok (bt_get bp_key p levels).

(** Write a level back, or drop it when it is empty. *)
Definition own_put_level (self : OwnBookLadder) (price : BookPrice) (level : OwnBookLevel)
  : OwnBookLadder :=
  if own_level_is_empty level
  then self <| od_levels := bt_remove bp_key price (od_levels self) |>
  else self <| od_levels := bt_insert bp_key price level (od_levels self) |>.

Definition own_ladder_add {E} (self : OwnBookLadder) (order : OwnBookOrder)
  : outcome E OwnBookLadder :=
  let book_price := own_to_book_price order in
  let self := self <| od_cache := ix_insert (oo_client_order_id order) book_price (od_cache self) |> in
  found ← own_levels_get book_price (od_levels self);
  let level := match found with
               | Some level => own_level_add level order
               | None => own_from_order order
               end in
  Ok (self <| od_levels := bt_insert bp_key book_price level (od_levels self) |>).

(** On an error the ladder is unchanged. *)
Definition own_ladder_update (self : OwnBookLadder) (order : OwnBookOrder)
  : outcome OwnBookError OwnBookLadder :=
  let id := oo_client_order_id order in
  price ← ok_or (ix_get id (od_cache self)) (OrderNotFoundInCache id);
  found ← own_levels_get price (od_levels self);
  level ← ok_or found (CachedLevelMissing id price);
  if price_eqb (oo_price order) (bp_value (ol_price level)) then
    level ← own_level_update level order;
    if qty_is_zero (oo_size order) then
      Ok (own_put_level (self <| od_cache := ix_shift_remove id (od_cache self) |>) price level)
    else Ok (self <| od_levels := bt_insert bp_key price level (od_levels self) |>)
  else
    level ← own_level_delete level id;
    own_ladder_add
      (own_put_level (self <| od_cache := ix_shift_remove id (od_cache self) |>) price level) order.
Definition own_ladder_remove (self : OwnBookLadder) (id : ClientOrderId)
  : outcome OwnBookError OwnBookLadder :=
  price ← ok_or (ix_get id (od_cache self)) (OrderNotFoundInCache id);
  found ← own_levels_get price (od_levels self);
  level ← ok_or found (CachedLevelMissing id price);
  level ← own_level_delete level id;
  let self := own_put_level self price level in
  Ok (self <| od_cache := ix_shift_remove id (od_cache self) |>).
Definition own_ladder_delete (self : OwnBookLadder) (order : OwnBookOrder)
  : outcome OwnBookError OwnBookLadder := own_ladder_remove self (oo_client_order_id order).

Definition own_ladder_sizes {E} (self : OwnBookLadder) : outcome E f64 :=
  foldl (fun acc kl => a ← acc; s ← own_level_size kl.2; Ok (F64.add a s))
    (Ok (F64.opp F64.zero)) (od_levels self).
Definition own_ladder_exposures {E} (self : OwnBookLadder) : outcome E f64 :=
  foldl (fun acc kl => a ← acc; s ← own_level_exposure kl.2; Ok (F64.add a s))
    (Ok (F64.opp F64.zero)) (od_levels self).
Definition own_top (self : OwnBookLadder) : option OwnBookLevel := snd <$> head (od_levels self).

(** *** The book *)

Definition own_new (instrument_id : InstrumentId) : OwnOrderBook :=
  mkOwnBook instrument_id 0 0 (own_ladder_new SBuy) (own_ladder_new SSell).
Definition own_increment (self : OwnOrderBook) (order : OwnBookOrder) : OwnOrderBook :=
  self <| ow_ts_last := oo_ts_last order |> <| ow_update_count := wrap U64 (ow_update_count self + 1) |>.
Definition own_reset (self : OwnOrderBook) : OwnOrderBook :=
  self <| ow_bids := own_ladder_clear (ow_bids self) |> <| ow_asks := own_ladder_clear (ow_asks self) |>
       <| ow_ts_last := 0 |> <| ow_update_count := 0 |>.
Definition own_clear (self : OwnOrderBook) : OwnOrderBook :=
  self <| ow_bids := own_ladder_clear (ow_bids self) |> <| ow_asks := own_ladder_clear (ow_asks self) |>.

(** The [match order.side] of [add], [update] and [delete]. *)
Definition own_side (self : OwnOrderBook) (s : OrderSideSpecified) : OwnBookLadder :=
  match s with SBuy => ow_bids self | SSell => ow_asks self end.
Definition set_own_side (self : OwnOrderBook) (s : OrderSideSpecified) (l : OwnBookLadder)
  : OwnOrderBook :=
  match s with SBuy => self <| ow_bids := l |> | SSell => self <| ow_asks := l |> end.

Definition own_add {E} (self : OwnOrderBook) (order : OwnBookOrder) : outcome E OwnOrderBook :=
  let self := own_increment self order in
  l ← own_ladder_add (own_side self (oo_side order)) order;
  Ok (set_own_side self (oo_side order) l).
Definition own_update (self : OwnOrderBook) (order : OwnBookOrder)
  : outcome OwnBookError OwnOrderBook :=
  l ← own_ladder_update (own_side self (oo_side order)) order;
  Ok (own_increment (set_own_side self (oo_side order) l) order).
Definition own_delete (self : OwnOrderBook) (order : OwnBookOrder)
  : outcome OwnBookError OwnOrderBook :=
  l ← own_ladder_delete (own_side self (oo_side order)) order;
  Ok (own_increment (set_own_side self (oo_side order) l) order).

Definition bid_client_order_ids (self : OwnOrderBook) : list ClientOrderId := ix_keys (od_cache (ow_bids self)).
Definition ask_client_order_ids (self : OwnOrderBook) : list ClientOrderId := ix_keys (od_cache (ow_asks self)).
Definition is_order_in_book (self : OwnOrderBook) (id : ClientOrderId) : bool :=
  bool_decide (is_Some (ix_get id (od_cache (ow_asks self)))) ||
  bool_decide (is_Some (ix_get id (od_cache (ow_bids self)))).

(** [audit_open_orders]: the removals of both sides are collected first; an
    error of a removal is logged and ignored. *)
Definition audit_targets (self : OwnBookLadder) (open_order_ids : list ClientOrderId)
  : list ClientOrderId :=
  List.filter (fun id => negb (bool_decide (id ∈ open_order_ids))) (ix_keys (od_cache self)).
Fixpoint audit_remove {E} (self : OwnBookLadder) (ids : list ClientOrderId)
  : outcome E OwnBookLadder :=
  match ids with
  | [] => Ok self
  | id :: ids =>
      match own_ladder_remove self id with
      | Ok self => audit_remove self ids
      | Err _ => audit_remove self ids
      | Panic => Panic
      end
  end.
Definition audit_open_orders {E} (self : OwnOrderBook) (open_order_ids : list ClientOrderId)
  : outcome E OwnOrderBook :=
  let bids_to_remove := audit_targets (ow_bids self) open_order_ids in
  let asks_to_remove := audit_targets (ow_asks self) open_order_ids in
  bids ← audit_remove (ow_bids self) bids_to_remove;
  let self := self <| ow_bids := bids |> in
  asks ← audit_remove (ow_asks self) asks_to_remove;
  Ok (self <| ow_asks := asks |>).
End Own.
