(* ===== verification/OwnSpec.v ===== *)
(** * What the own order book promises

    The representation invariant of the ladders, their content as a map from
    client order id to order, and the operations of the book as operations on
    these maps. *)

From stdpp Require Import base numbers list sets strings.
From Stdlib Require Import ZArith Lia.
From S2P Require Import Prelude F64 Fixed Price Quantity Enums Maps Money OrderEvents OrderCore Orders Ladder Own.

Implicit Types (l : OwnBookLadder) (o : OwnBookOrder) (lv : OwnBookLevel) (p q k : BookPrice)
  (id j : ClientOrderId) (b : OwnOrderBook).

(** ** Levels *)

(** The order with an id at the level of a price. *)
Definition own_cell (m : list (BookPrice * OwnBookLevel)) p id : option OwnBookOrder :=
  lv ← bt_get bp_key p m; ix_get id (ol_orders lv).

Record own_level_ok (s : OrderSideSpecified) k lv : Prop := {
  olk_side : bp_side k = s;
  olk_price : ol_price lv = k;
  olk_nonempty : ol_orders lv <> [];
  olk_nodup : NoDup (ix_keys (ol_orders lv));
}.
Record own_levels_ok (s : OrderSideSpecified) (m : list (BookPrice * OwnBookLevel)) : Prop := {
  ols_sorted : bt_sorted bp_key m;
  ols_level k lv : (k, lv) ∈ m -> own_level_ok s k lv;
}.

Lemma own_bp_key_eq p k :
  bp_side p = bp_side k -> bp_key p = bp_key k <-> p_raw (bp_value p) = p_raw (bp_value k).
Proof. unfold bp_key. intros ->. destruct (bp_side k); lia. Qed.

Lemma bt_get_key (m : list (BookPrice * OwnBookLevel)) p q :
  bp_key p = bp_key q -> bt_get bp_key p m = bt_get bp_key q m.
Proof. unfold bt_get. by intros ->. Qed.

Lemma own_cell_key m p q id : bp_key p = bp_key q -> own_cell m p id = own_cell m q id.
Proof. intros H. unfold own_cell. by rewrite (bt_get_key m p q). Qed.

Lemma own_levels_get_Ok {E} s m p :
  own_levels_ok s m -> bp_side p = s -> own_levels_get (E := E) p m = Ok (bt_get bp_key p m).
Proof.
  intros Hm Hp. unfold own_levels_get. destruct m as [|[k lv] m]; [done|].
  rewrite bool_decide_true; [done|].
  by rewrite (olk_side _ _ _ (ols_level _ _ Hm k lv ltac:(left))).
Qed.

Lemma own_level_get s m p lv :
  own_levels_ok s m -> bp_side p = s -> bt_get bp_key p m = Some lv ->
  exists k, own_level_ok s k lv /\ bp_key k = bp_key p /\ p_raw (bp_value (ol_price lv)) = p_raw (bp_value p).
Proof.
  intros Hm Hp (k & Hk & Hin)%bt_get_elem. pose proof (ols_level _ _ Hm _ _ Hin) as Hl.
  exists k. split_and!; [done|done|]. rewrite (olk_price _ _ _ Hl).
  apply own_bp_key_eq; [|done]. by rewrite (olk_side _ _ _ Hl).
Qed.

(** Writing a level: the price of a level that is there does not change. *)
Lemma own_insert_ok s m p lv :
  own_levels_ok s m -> bp_side p = s -> ol_orders lv <> [] -> NoDup (ix_keys (ol_orders lv)) ->
  ol_price lv = match bt_get bp_key p m with Some old => ol_price old | None => p end ->
  own_levels_ok s (bt_insert bp_key p lv m).
Proof.
  intros Hm Hp Hne Hnd Hpr. pose proof (ols_sorted _ _ Hm) as Hs.
  split; [by apply bt_sorted_insert|]. intros k x Hin.
  destruct (bt_get bp_key p m) as [old|] eqn:Hg.
  - rewrite bt_insert_map in Hin by (done || by rewrite Hg).
    apply list_elem_of_fmap in Hin as ([k1 lv1] & Heq & Hin). simpl in Heq.
    pose proof (ols_level _ _ Hm _ _ Hin) as [].
    destruct (Z.eqb_spec (bp_key k1) (bp_key p)) as [E|E]; simplify_eq; [|done].
    split; try done. pose proof (bt_elem_get _ _ _ _ Hs Hin) as G.
    rewrite (bt_get_key m _ _ E) in G. congruence.
  - apply bt_insert_absent in Hin as [Heq|[Hin _]]; [| |done|done]; [|by apply (ols_level _ _ Hm)].
    injection Heq as -> ->. by split.
Qed.

Lemma own_remove_ok s m p : own_levels_ok s m -> own_levels_ok s (bt_remove bp_key p m).
Proof.
  intros Hm. split; [apply bt_sorted_remove, (ols_sorted _ _ Hm)|].
  intros k lv [Hin _]%bt_remove_sub. by apply (ols_level _ _ Hm).
Qed.

Lemma own_cell_insert s m p lv q id :
  own_levels_ok s m ->
  own_cell (bt_insert bp_key p lv m) q id =
    if decide (bp_key q = bp_key p) then ix_get id (ol_orders lv) else own_cell m q id.
Proof.
  intros Hm. unfold own_cell. rewrite bt_get_insert by apply (ols_sorted _ _ Hm).
  case_decide; [by replace (bp_key p =? bp_key q) with true by lia|].
  by replace (bp_key p =? bp_key q) with false by lia.
Qed.

(** Writing back what is left of a level. *)
Lemma own_put_spec l p lv old :
  own_levels_ok (od_side l) (od_levels l) -> bp_side p = od_side l ->
  bt_get bp_key p (od_levels l) = Some old -> ol_price lv = ol_price old ->
  NoDup (ix_keys (ol_orders lv)) ->
  own_levels_ok (od_side l) (od_levels (own_put_level l p lv)) /\
  (forall q id, own_cell (od_levels (own_put_level l p lv)) q id =
     if decide (bp_key q = bp_key p) then ix_get id (ol_orders lv) else own_cell (od_levels l) q id).
Proof.
  intros Hm Hp Hg Hpr Hnd. unfold own_put_level, own_level_is_empty.
  destruct (ol_orders lv) as [|x xs] eqn:Ho.
  - split; [by apply own_remove_ok|]. intros q id. cbn. unfold own_cell. rewrite bt_get_remove.
    case_decide; [by replace (bp_key p =? bp_key q) with true by lia|].
    by replace (bp_key p =? bp_key q) with false by lia.
  - split; [apply own_insert_ok; rewrite ?Ho, ?Hg in *; done|].
    intros q id. cbn. rewrite <- Ho. by apply own_cell_insert with (s := od_side l).
Qed.

(** ** Ladders *)

Record own_ladder_ok l : Prop := {
  ok_levels : own_levels_ok (od_side l) (od_levels l);
  ok_cache_nodup : NoDup (ix_keys (od_cache l));
  ok_cache id p : ix_get id (od_cache l) = Some p ->
    bp_side p = od_side l /\ is_Some (own_cell (od_levels l) p id);
  ok_cell p id o : own_cell (od_levels l) p id = Some o ->
    (exists q, ix_get id (od_cache l) = Some q /\ bp_key q = bp_key p) /\
    oo_client_order_id o = id /\ oo_side o = od_side l /\ bp_key (own_to_book_price o) = bp_key p;
}.

(** The content of a ladder. *)
Definition own_at l id : option OwnBookOrder :=
  p ← ix_get id (od_cache l); own_cell (od_levels l) p id.

Lemma own_at_cached l id :
  own_ladder_ok l -> is_Some (own_at l id) <-> is_Some (ix_get id (od_cache l)).
Proof.
  intros H. unfold own_at. split; [destruct (ix_get id (od_cache l)); naive_solver|].
  intros [p Hp]. rewrite Hp. cbn. by apply (ok_cache _ H).
Qed.

Lemma own_ladder_new_ok s : own_ladder_ok (own_ladder_new s).
Proof.
  split; [split; [constructor|]|constructor|done|done].
  intros k lv Hin. by apply elem_of_nil in Hin.
Qed.

(** An order is set at its price. *)
Lemma own_set l l' o p :
  own_ladder_ok l -> od_side l' = od_side l -> own_levels_ok (od_side l) (od_levels l') ->
  NoDup (ix_keys (od_cache l')) -> oo_side o = od_side l ->
  bp_side p = od_side l -> bp_key (own_to_book_price o) = bp_key p ->
  (forall r, ix_get (oo_client_order_id o) (od_cache l) = Some r -> bp_key r = bp_key p) ->
  (forall j, ix_get j (od_cache l') =
     if decide (j = oo_client_order_id o) then Some p else ix_get j (od_cache l)) ->
  (forall q j, own_cell (od_levels l') q j =
     if decide (bp_key q = bp_key p /\ j = oo_client_order_id o) then Some o
     else own_cell (od_levels l) q j) ->
  own_ladder_ok l' /\
  forall j, own_at l' j = if decide (j = oo_client_order_id o) then Some o else own_at l j.
Proof.
  intros Hok Hs Hm Hnd Hos Hp Hk Hold Hc Hcell. split.
  - split; rewrite ?Hs; [done|done| |].
    + intros j r. rewrite Hc, Hcell. case_decide as E.
      * intros [= <-]. by rewrite decide_True.
      * intros Hr. destruct (ok_cache _ Hok _ _ Hr). rewrite decide_False by tauto. done.
    + intros q j x. rewrite Hcell, Hc. case_decide as E.
      * destruct E as [E ->]. intros [= <-]. rewrite decide_True by done. split_and!; try done; [eauto|congruence].
      * intros Hx. destruct (ok_cell _ Hok _ _ _ Hx) as ((r & Hr & Hrk) & ? & ? & ?).
        split_and!; try done. case_decide as Ej; [|eauto]. rewrite Ej in Hr. apply Hold in Hr.
        destruct E. split; congruence.
  - intros j. unfold own_at. rewrite Hc. case_decide as E; cbn.
    + by rewrite Hcell, decide_True.
    + destruct (ix_get j (od_cache l)); cbn; [|done]. rewrite Hcell, decide_False by tauto. done.
Qed.

(** An order is taken out. *)
Lemma own_unset l l' id p :
  own_ladder_ok l -> od_side l' = od_side l -> own_levels_ok (od_side l) (od_levels l') ->
  NoDup (ix_keys (od_cache l')) -> ix_get id (od_cache l) = Some p ->
  (forall j, ix_get j (od_cache l') = if decide (j = id) then None else ix_get j (od_cache l)) ->
  (forall q j, own_cell (od_levels l') q j =
     if decide (bp_key q = bp_key p /\ j = id) then None else own_cell (od_levels l) q j) ->
  own_ladder_ok l' /\ forall j, own_at l' j = if decide (j = id) then None else own_at l j.
Proof.
  intros Hok Hs Hm Hnd Hid Hc Hcell. split.
  - split; rewrite ?Hs; [done|done| |].
    + intros j r. rewrite Hc, Hcell. case_decide as E; [done|]. intros Hr.
      destruct (ok_cache _ Hok _ _ Hr). rewrite decide_False by tauto. done.
    + intros q j x. rewrite Hcell, Hc. case_decide as E; [done|]. intros Hx.
      destruct (ok_cell _ Hok _ _ _ Hx) as ((r & Hr & Hrk) & ? & ? & ?).
      split_and!; try done. case_decide as Ej; [|eauto]. destruct E. split; congruence.
  - intros j. unfold own_at. rewrite Hc. case_decide as E; cbn; [done|].
    destruct (ix_get j (od_cache l)); cbn; [|done]. rewrite Hcell, decide_False by tauto. done.
Qed.

Section Operations.
Context `{M : Mode}.

(** The level of a cached id, with the order in it. *)
Lemma own_cached_level l id p :
  own_ladder_ok l -> ix_get id (od_cache l) = Some p ->
  bp_side p = od_side l /\
  exists lv o k, bt_get bp_key p (od_levels l) = Some lv /\ ix_get id (ol_orders lv) = Some o /\
    own_at l id = Some o /\ own_level_ok (od_side l) k lv /\
    p_raw (bp_value (ol_price lv)) = p_raw (bp_value p) /\ p_raw (oo_price o) = p_raw (bp_value p).
Proof.
  intros Hok Hc. destruct (ok_cache _ Hok _ _ Hc) as [Hp [o Ho]]. split; [done|].
  assert (Hat : own_at l id = Some o) by (unfold own_at; by rewrite Hc).
  destruct (ok_cell _ Hok _ _ _ Ho) as (_ & _ & Hs & Hk).
  unfold own_cell in Ho. destruct (bt_get bp_key p (od_levels l)) as [lv|] eqn:Hg; [|done].
  destruct (own_level_get _ _ _ _ (ok_levels _ Hok) Hp Hg) as (k & Hl & _ & Hr).
  exists lv, o, k. split_and!; try done. by apply own_bp_key_eq in Hk; [|by rewrite Hp].
Qed.

(** What is left when an id is taken out of its level and the cache. *)
Lemma own_taken_out l id p lv :
  own_ladder_ok l -> ix_get id (od_cache l) = Some p -> bt_get bp_key p (od_levels l) = Some lv ->
  let lv' := lv <| ol_orders := ix_shift_remove id (ol_orders lv) |> in
  let l' := own_put_level (l <| od_cache := ix_shift_remove id (od_cache l) |>) p lv' in
  own_ladder_ok l' /\ od_side l' = od_side l /\
  od_cache l' = ix_shift_remove id (od_cache l) /\
  forall j, own_at l' j = if decide (j = id) then None else own_at l j.
Proof.
  intros Hok Hc Hg lv' l'. destruct (ok_cache _ Hok _ _ Hc) as [Hp _].
  destruct (own_level_get _ _ _ _ (ok_levels _ Hok) Hp Hg) as (k & Hl & _).
  destruct (own_put_spec (l <| od_cache := ix_shift_remove id (od_cache l) |>) p lv' lv)
    as [Hm Hcell]; [apply (ok_levels _ Hok)|done|done|done|apply ix_nodup_remove, (olk_nodup _ _ _ Hl)|].
  fold l' in Hm, Hcell. cbn [od_side od_levels set_field] in Hm, Hcell.
  assert (Hs : od_side l' = od_side l /\ od_cache l' = ix_shift_remove id (od_cache l))
    by (subst l'; unfold own_put_level; by destruct (own_level_is_empty lv')).
  destruct Hs as [Hs Hcc]. destruct (own_unset l l' id p) as [H1 H2]; try done.
  - rewrite Hcc. apply ix_nodup_remove, (ok_cache_nodup _ Hok).
  - intros j. by rewrite Hcc, ix_get_remove.
  - intros q j. rewrite Hcell. subst lv'. cbn [ol_orders set_field]. rewrite ix_get_remove.
    destruct (decide (bp_key q = bp_key p)) as [E|E].
    + unfold own_cell. rewrite (bt_get_key _ _ _ E), Hg. cbn. repeat case_decide; naive_solver.
    + by rewrite decide_False by tauto.
Qed.

Lemma own_ladder_add_spec {E} l o :
  own_ladder_ok l -> oo_side o = od_side l ->
  (forall x, own_at l (oo_client_order_id o) = Some x -> p_raw (oo_price x) = p_raw (oo_price o)) ->
  exists l', own_ladder_add (E := E) l o = Ok l' /\ own_ladder_ok l' /\ od_side l' = od_side l /\
    forall j, own_at l' j = if decide (j = oo_client_order_id o) then Some o else own_at l j.
Proof.
  intros Hok Hs Hold. unfold own_ladder_add. set (p := own_to_book_price o).
  assert (Hp : bp_side p = od_side l) by done. cbn [od_levels set_field].
  rewrite (own_levels_get_Ok (od_side l)) by (done || apply (ok_levels _ Hok)). osimpl.
  set (lv' := match bt_get bp_key p (od_levels l) with Some lv => own_level_add lv o | None => own_from_order o end).
  eexists. split; [reflexivity|]. pose proof (ok_levels _ Hok) as Hm.
  assert (Hget : forall j, ix_get j (ol_orders lv') =
    if decide (j = oo_client_order_id o) then Some o else own_cell (od_levels l) p j).
  { intros j. subst lv'. unfold own_cell. destruct (bt_get bp_key p (od_levels l)); cbn; by rewrite ix_get_insert. }
  match goal with |- own_ladder_ok ?x0 /\ _ => set (l' := x0) end.
  assert (Hlv : own_levels_ok (od_side l) (od_levels l')).
  { subst l'. cbn [od_levels set_field]. subst lv'.
    apply own_insert_ok; try done; destruct (bt_get bp_key p (od_levels l)) as [lv|] eqn:Hg; try done; cbn;
      try apply ix_insert_nonempty.
    - destruct (own_level_get _ _ _ _ Hm Hp Hg) as (k & Hl & _). apply ix_nodup_insert, (olk_nodup _ _ _ Hl).
    - apply ix_nodup_insert. constructor. }
  destruct (own_set l l' o p) as [H1 H2]; try done.
  - apply ix_nodup_insert, (ok_cache_nodup _ Hok).
  - intros r Hr. destruct (own_cached_level _ _ _ Hok Hr) as (Hrs & _ & x & _ & _ & _ & Hx & _ & _ & Hxr).
    apply own_bp_key_eq; [by rewrite Hrs|]. rewrite <- Hxr. by apply Hold.
  - intros j. apply ix_get_insert.
  - intros q j. subst l'. cbn [od_levels set_field]. rewrite (own_cell_insert (od_side l)) by done.
    rewrite Hget. destruct (decide (bp_key q = bp_key p)) as [E1|E1].
    + rewrite (own_cell_key _ _ _ _ E1). repeat case_decide; naive_solver.
    + by rewrite decide_False by tauto.
Qed.

Lemma own_ladder_remove_spec l id :
  own_ladder_ok l ->
  match own_at l id with
  | None => own_ladder_remove l id = Err (OrderNotFoundInCache id)
  | Some _ => exists l', own_ladder_remove l id = Ok l' /\ own_ladder_ok l' /\ od_side l' = od_side l /\
      forall j, own_at l' j = if decide (j = id) then None else own_at l j
  end.
Proof.
  intros Hok. unfold own_ladder_remove. destruct (ix_get id (od_cache l)) as [p|] eqn:Hc; cycle 1.
  { unfold own_at. by rewrite Hc. }
  destruct (own_cached_level _ _ _ Hok Hc) as (Hp & lv & o & k & Hg & Ho & -> & _).
  osimpl. rewrite (own_levels_get_Ok (od_side l)) by (done || apply (ok_levels _ Hok)). osimpl.
  rewrite Hg. osimpl. unfold own_level_delete. rewrite Ho. osimpl.
  destruct (own_taken_out l id p lv Hok Hc Hg) as (H1 & H2 & H3 & H4).
  eexists. split; [reflexivity|]. revert H1 H2 H4. unfold own_put_level.
  by destruct (own_level_is_empty _).
Qed.

Lemma own_ladder_update_spec l o :
  own_ladder_ok l -> oo_side o = od_side l ->
  match own_at l (oo_client_order_id o) with
  | None => own_ladder_update l o = Err (OrderNotFoundInCache (oo_client_order_id o))
  | Some x => exists l', own_ladder_update l o = Ok l' /\ own_ladder_ok l' /\ od_side l' = od_side l /\
      forall j, own_at l' j =
        if decide (j = oo_client_order_id o)
        then if (q_raw (oo_size o) =? 0) && (p_raw (oo_price o) =? p_raw (oo_price x)) then None else Some o
        else own_at l j
  end.
Proof.
  intros Hok Hs. unfold own_ladder_update. set (id := oo_client_order_id o).
  destruct (ix_get id (od_cache l)) as [p|] eqn:Hc; cycle 1.
  { unfold own_at. by rewrite Hc. }
  destruct (own_cached_level _ _ _ Hok Hc) as (Hp & lv & x & k & Hg & Hx & -> & Hl & Hlp & Hxp).
  osimpl. rewrite (own_levels_get_Ok (od_side l)) by (done || apply (ok_levels _ Hok)). osimpl.
  rewrite Hg. osimpl. unfold price_eqb. rewrite Hlp, Hxp.
  destruct (own_taken_out l id p lv Hok Hc Hg) as (T1 & T2 & T3 & T4).
  destruct (Z.eqb_spec (p_raw (oo_price o)) (p_raw (bp_value p))) as [Ep|Ep].
  - unfold own_level_update. fold id. unfold qty_is_zero. destruct (Z.eqb_spec (q_raw (oo_size o)) 0) as [E0|E0].
    + osimpl. eexists. split; [reflexivity|]. split_and!; done.
    + rewrite Hx. osimpl. eexists. split; [reflexivity|].
      match goal with |- own_ladder_ok ?x0 /\ _ => set (l' := x0) end.
      destruct (own_set l l' o p) as [H1 H2]; try done.
      * subst l'. cbn [od_levels set_field].
        apply own_insert_ok; cbn; [apply (ok_levels _ Hok)|done|apply ix_insert_nonempty
          |apply ix_nodup_insert, (olk_nodup _ _ _ Hl)|by rewrite Hg].
      * apply (ok_cache_nodup _ Hok).
      * by apply own_bp_key_eq; [rewrite Hp|].
      * intros r Hr. fold id in Hr. congruence.
      * intros j. fold id. case_decide; [|done]. by subst j.
      * intros q j. subst l'. cbn [od_levels set_field]. rewrite (own_cell_insert (od_side l)) by apply (ok_levels _ Hok).
        cbn [ol_orders set_field]. rewrite ix_get_insert. fold id.
        destruct (decide (bp_key q = bp_key p)) as [E1|E1]; [|by rewrite decide_False by tauto].
        unfold own_cell. rewrite (bt_get_key _ _ _ E1), Hg. cbn. repeat case_decide; naive_solver.
  - unfold own_level_delete. rewrite Hx. osimpl. rewrite andb_false_r.
    destruct (own_ladder_add_spec (E := OwnBookError) _ o T1) as (l' & A1 & A2 & A3 & A4);
      [by rewrite T2|by intros y; rewrite T4, decide_True|].
    exists l'. split_and!; [done|done|congruence|]. intros j. rewrite A4, T4. fold id. by case_decide.
Qed.

(** ** The book *)

Record own_book_ok b : Prop := {
  owk_ladder s : own_ladder_ok (own_side b s);
  owk_side s : od_side (own_side b s) = s;
}.
(** The abstract book: an order per side and client order id. *)
Definition own_view b (s : OrderSideSpecified) id : option OwnBookOrder := own_at (own_side b s) id.

(** The step of the abstract book: the entry of the order becomes [r], and the
    counters record the event. *)
Record own_step b o (r : option OwnBookOrder) b' : Prop := {
  st_ok : own_book_ok b';
  st_instrument : ow_instrument_id b' = ow_instrument_id b;
  st_ts : ow_ts_last b' = oo_ts_last o;
  st_count : ow_update_count b' = wrap U64 (ow_update_count b + 1);
  st_view s j : own_view b' s j =
    if decide (s = oo_side o /\ j = oo_client_order_id o) then r else own_view b s j;
}.

Lemma own_new_ok i : own_book_ok (own_new i).
Proof. split; intros []; try apply own_ladder_new_ok; done. Qed.

Lemma own_side_set b s s' l :
  own_side (set_own_side b s l) s' = if decide (s' = s) then l else own_side b s'.
Proof. by destruct s, s'. Qed.
Lemma own_side_increment b o s : own_side (own_increment b o) s = own_side b s.
Proof. by destruct s. Qed.

(** A step of one ladder is a step of the book. *)
Lemma own_step_side b b' o r l' :
  own_book_ok b -> own_ladder_ok l' -> od_side l' = oo_side o ->
  (forall j, own_at l' j = if decide (j = oo_client_order_id o) then r else own_view b (oo_side o) j) ->
  b' = set_own_side (own_increment b o) (oo_side o) l' -> own_step b o r b'.
Proof.
  intros [H1 H2] Hl Hs Hat ->.
  assert (Hsd : forall s, own_side (set_own_side (own_increment b o) (oo_side o) l') s =
    if decide (s = oo_side o) then l' else own_side b s)
    by (intros s; by rewrite own_side_set, own_side_increment).
  split.
  - split; intros s; rewrite Hsd; case_decide; subst; auto.
  - by destruct (oo_side o).
  - by destruct (oo_side o).
  - by destruct (oo_side o).
  - intros s j. unfold own_view. rewrite Hsd. case_decide as E; [|by rewrite decide_False by tauto].
    rewrite Hat. subst s. repeat case_decide; naive_solver.
Qed.

Lemma own_increment_set b o s l :
  own_increment (set_own_side b s l) o = set_own_side (own_increment b o) s l.
Proof. by destruct s. Qed.

(** Removing a list of ids from a ladder. *)
Lemma audit_remove_spec {E} ids l :
  own_ladder_ok l ->
  exists l', audit_remove (E := E) l ids = Ok l' /\ own_ladder_ok l' /\ od_side l' = od_side l /\
    forall j, own_at l' j = if decide (j ∈ ids) then None else own_at l j.
Proof.
  revert l. induction ids as [|id ids IH]; intros l Hok; simpl.
  { exists l. by split_and!. }
  pose proof (own_ladder_remove_spec l id Hok) as Hr. destruct (own_at l id) as [x|] eqn:Hx.
  - destruct Hr as (l1 & -> & Hok1 & Hs1 & Hat1). destruct (IH l1 Hok1) as (l' & H1 & H2 & H3 & H4).
    exists l'. split_and!; [done|done|congruence|]. intros j. rewrite H4, Hat1.
    destruct (decide (j ∈ ids)), (decide (j = id)), (decide (j ∈ id :: ids)) as [D|D]; set_solver.
  - rewrite Hr. destruct (IH l Hok) as (l' & H1 & H2 & H3 & H4). exists l'. split_and!; try done.
    intros j. rewrite H4. destruct (decide (j ∈ ids)), (decide (j ∈ id :: ids)) as [D|D];
      set_solver.
Qed.

Lemma audit_side_spec {E} l ids :
  own_ladder_ok l ->
  exists l', audit_remove (E := E) l (audit_targets l ids) = Ok l' /\ own_ladder_ok l' /\
    od_side l' = od_side l /\ forall j, own_at l' j = if decide (j ∈ ids) then own_at l j else None.
Proof.
  intros Hok. destruct (audit_remove_spec (E := E) (audit_targets l ids) l Hok) as (l' & H1 & H2 & H3 & H4).
  exists l'. split_and!; try done. intros j. rewrite H4.
  assert (Ht : j ∈ audit_targets l ids <-> is_Some (own_at l j) /\ j ∉ ids).
  { unfold audit_targets. rewrite own_at_cached, ix_get_is_Some by done.
    rewrite !list_elem_of_In, List.filter_In, negb_true_iff, bool_decide_eq_false. by rewrite list_elem_of_In. }
  destruct (decide (j ∈ audit_targets l ids)) as [D|D]; case_decide; try tauto.
  destruct (own_at l j) eqn:Ej; [|done]. destruct D. apply Ht. eauto.
Qed.

(** ** Theorems *)

(** C30: on an own book in its invariant, adding, updating and deleting are the
    operations of a map from side and client order id to order, and only
    successful operations count as updates.  Adding never panics when the id
    is new on its side or rests at the same price.  Updating and deleting an
    unknown id return [OrderNotFoundInCache]; of a known one they succeed, so
    the errors for a missing level or order and the index panic of the level
    are unreachable.  An update to size zero removes the order only when it
    names the resting price. *)
Theorem own_book_refines b o :
  own_book_ok b ->
  ((forall x, own_view b (oo_side o) (oo_client_order_id o) = Some x ->
      p_raw (oo_price x) = p_raw (oo_price o)) ->
   exists b', own_add (E := OwnBookError) b o = Ok b' /\ own_step b o (Some o) b') /\
  match own_view b (oo_side o) (oo_client_order_id o) with
  | None => own_update b o = Err (OrderNotFoundInCache (oo_client_order_id o)) /\
            own_delete b o = Err (OrderNotFoundInCache (oo_client_order_id o))
  | Some x =>
      (exists b', own_update b o = Ok b' /\
         own_step b o (if (q_raw (oo_size o) =? 0) && (p_raw (oo_price o) =? p_raw (oo_price x))
                       then None else Some o) b') /\
      (exists b', own_delete b o = Ok b' /\ own_step b o None b')
  end.
Proof.
  intros Hb. pose proof Hb as [Hl Hsd]. set (s := oo_side o). split.
  - intros Hold. destruct (own_ladder_add_spec (E := OwnBookError) (own_side b s) o (Hl s)) as (l' & H1 & H2 & H3 & H4);
      [by rewrite Hsd|done|].
    unfold own_add. fold s. rewrite own_side_increment, H1. eexists. split; [reflexivity|].
    eapply own_step_side; try done. by rewrite H3, Hsd.
  - pose proof (own_ladder_update_spec (own_side b s) o (Hl s)) as Hu. rewrite Hsd in Hu.
    specialize (Hu eq_refl). pose proof (own_ladder_remove_spec (own_side b s) (oo_client_order_id o) (Hl s)) as Hd.
    unfold own_view, own_update, own_delete, own_ladder_delete. fold s.
    destruct (own_at (own_side b s) (oo_client_order_id o)) as [x|]; [|by rewrite Hu, Hd].
    destruct Hu as (l1 & -> & A2 & A3 & A4). destruct Hd as (l2 & -> & B2 & B3 & B4). split.
    + eexists. split; [reflexivity|]. by eapply own_step_side; [..|apply own_increment_set].
    + eexists. split; [reflexivity|]. eapply own_step_side; [..|apply own_increment_set]; try done.
      by rewrite B3, Hsd.
Qed.

(** auditing against the open orders keeps exactly the orders whose ids are
    open, without panics or skipped removals, and does not count as an
    update; afterwards an id is in the book exactly when it was and is open. *)
Theorem audit_open_orders_correct b (ids : list ClientOrderId) :
  own_book_ok b ->
  exists b', audit_open_orders (E := OwnBookError) b ids = Ok b' /\ own_book_ok b' /\
    ow_instrument_id b' = ow_instrument_id b /\ ow_ts_last b' = ow_ts_last b /\
    ow_update_count b' = ow_update_count b /\
    (forall s j, own_view b' s j = if decide (j ∈ ids) then own_view b s j else None) /\
    (forall j, is_order_in_book b' j = is_order_in_book b j && bool_decide (j ∈ ids)).
Proof.
  intros [Hl Hsd]. unfold audit_open_orders.
  destruct (audit_side_spec (E := OwnBookError) (ow_bids b) ids (Hl SBuy)) as (bids & -> & A2 & A3 & A4).
  osimpl. cbn [ow_asks set_field].
  destruct (audit_side_spec (E := OwnBookError) (ow_asks b) ids (Hl SSell)) as (asks & -> & B2 & B3 & B4).
  osimpl. eexists. split; [reflexivity|]. split_and!; try done.
  - split; intros []; try done; [transitivity (od_side (ow_bids b))|transitivity (od_side (ow_asks b))];
      try done; [apply (Hsd SBuy)|apply (Hsd SSell)].
  - intros [] j; [apply A4|apply B4].
  - intros j. unfold is_order_in_book. cbn [ow_bids ow_asks set_field].
    assert (Hin : forall l l', own_ladder_ok l -> own_ladder_ok l' ->
      own_at l' j = (if decide (j ∈ ids) then own_at l j else None) ->
      bool_decide (is_Some (ix_get j (od_cache l'))) =
      bool_decide (is_Some (ix_get j (od_cache l))) && bool_decide (j ∈ ids)).
    { intros l l' Hk Hk' Hat. rewrite <- bool_decide_and. apply bool_decide_ext.
      rewrite <- !own_at_cached, Hat by done. case_decide; [tauto|]. split; [by intros []|tauto]. }
    rewrite (Hin (ow_bids b) bids), (Hin (ow_asks b) asks) by (done || apply (Hl SBuy) || apply (Hl SSell) || auto).
    by rewrite andb_orb_distrib_l.
Qed.
End Operations.

Section Witnesses.
Definition own_px (n : Z) : Price := mkPrice (n * 10 ^ 9) 0.
Definition own_order (id : ClientOrderId) (n size : Z) : OwnBookOrder :=
  mkOwnOrder "TRADER-001" id None SBuy (own_px n) (mkQty (size * 10 ^ 9) 0) Limit Gtc Accepted 7 5 3 1.
Definition own_book : OwnOrderBook :=
  match own_add (E := OwnBookError) (own_new (mkInstrumentId "AUD/USD" "SIM")) (own_order "O-1" 100 2) with
  | Ok b => b
  | _ => own_new (mkInstrumentId "AUD/USD" "SIM")
  end.

Lemma own_book_is_ok : own_book_ok own_book.
Proof.
  pose proof (own_new_ok (mkInstrumentId "AUD/USD" "SIM")) as Hb.
  set (b0 := own_new (mkInstrumentId "AUD/USD" "SIM")) in *. set (o := own_order "O-1" 100 2).
  destruct (own_ladder_add_spec (E := OwnBookError) (own_side b0 SBuy) o) as (l' & H1 & H2 & H3 & H4);
    [apply (owk_ladder _ Hb)|done|done|].
  unfold own_book. fold b0 o. unfold own_add. change (oo_side o) with SBuy.
  rewrite own_side_increment, H1. cbn [mbind outcome_bind].
  eapply st_ok, (own_step_side b0 _ o (Some o) l'); done.
Qed.

(** Moving an order to another price, and deleting an unknown one. *)
Example own_book_refines_witness :
  (exists b', own_update own_book (own_order "O-1" 101 2) = Ok b' /\
     own_view b' SBuy "O-1" = Some (own_order "O-1" 101 2)) /\
  own_delete own_book (own_order "O-2" 100 2) = Err (OrderNotFoundInCache "O-2").
Proof.
  split.
  - destruct (own_book_refines own_book (own_order "O-1" 101 2) own_book_is_ok) as [_ [H _]].
    destruct H as (b' & H1 & H2). exists b'. split; [exact H1|].
    rewrite (st_view _ _ _ _ H2). reflexivity.
  - destruct (own_book_refines own_book (own_order "O-2" 100 2) own_book_is_ok) as [_ [_ H]]. exact H.
Defined.

Example audit_open_orders_witness :
  exists b', audit_open_orders (E := OwnBookError) own_book ["O-9"%string] = Ok b' /\
    own_view b' SBuy "O-1" = None /\ is_order_in_book own_book "O-1" = true.
Proof.
  destruct (audit_open_orders_correct own_book ["O-9"%string] own_book_is_ok)
    as (b' & H1 & _ & _ & _ & _ & H2 & _).
  exists b'. split; [exact H1|split; [rewrite H2; reflexivity|reflexivity]].
Defined.
End Witnesses.
