(* ===== verification/Position.v ===== *)
(** * Positions ([crates/model/src/position.rs])

    A position accumulates the fills of an instrument: signed quantity, average
    prices and realized profit in [f64], bought and sold quantities and
    commissions in fixed point, and the fills themselves.  A fill on a flat
    position starts it afresh. *)

From stdpp Require Import base numbers list gmap sets strings.
From Stdlib Require Import ZArith Lia.
From S2P Require Import Prelude F64 Fixed Price Quantity Money Enums Maps OrderEvents.

Inductive PositionAdjustmentType : Type := AdjCommission | AdjFunding.
#[export] Instance adjustment_type_eq_dec : EqDecision PositionAdjustmentType.
Proof. solve_decision. Defined.
Inductive InstrumentClass : Type :=
  | Spot | Swap | Future | FuturesSpread | Forward | Cfd | Bond | OptionClass | OptionSpread
  | Warrant | SportsBetting | BinaryOption.

(** What a position reads of its instrument. *)
Record InstrumentView : Type := mkInstrument {
  iv_id : InstrumentId;
  iv_price_precision : Z;
  iv_size_precision : Z;
  iv_multiplier : Quantity;
  iv_is_inverse : bool;
  iv_is_currency_pair : bool;
  iv_class : InstrumentClass;
  iv_base_currency : option Currency;
  iv_quote_currency : Currency;
}.
Definition cost_currency {E} (self : InstrumentView) : outcome E Currency :=
  if iv_is_inverse self then expect (iv_base_currency self) else Ok (iv_quote_currency self).

Record PositionAdjusted {Dec : Type} : Type := mkAdjusted {
  pa_trader_id : TraderId;
  pa_strategy_id : StrategyId;
  pa_instrument_id : InstrumentId;
  pa_position_id : PositionId;
  pa_account_id : AccountId;
  pa_adjustment_type : PositionAdjustmentType;
  pa_quantity_change : option Dec;
  pa_pnl_change : option Money;
  pa_reason : option string;
  pa_event_id : UUID4;
  pa_ts_event : UnixNanos;
  pa_ts_init : UnixNanos;
}.
Arguments PositionAdjusted : clear implicits.

(** Commissions are keyed by currency code, which decides currency equality. *)
Record Position {Dec : Type} : Type := mkPosition {
  pp_events : list OrderFilled;
  pp_adjustments : list (PositionAdjusted Dec);
  pp_trader_id : TraderId;
  pp_strategy_id : StrategyId;
  pp_instrument_id : InstrumentId;
  pp_id : PositionId;
  pp_account_id : AccountId;
  pp_opening_order_id : ClientOrderId;
  pp_closing_order_id : option ClientOrderId;
  pp_entry : OrderSide;
  pp_side : PositionSide;
  pp_signed_qty : f64;
  pp_quantity : Quantity;
  pp_peak_qty : Quantity;
  pp_price_precision : Z;
  pp_size_precision : Z;
  pp_multiplier : Quantity;
  pp_is_inverse : bool;
  pp_is_currency_pair : bool;
  pp_instrument_class : InstrumentClass;
  pp_base_currency : option Currency;
  pp_quote_currency : Currency;
  pp_settlement_currency : Currency;
  pp_ts_init : UnixNanos;
  pp_ts_opened : UnixNanos;
  pp_ts_last : UnixNanos;
  pp_ts_closed : option UnixNanos;
  pp_duration_ns : Z;
  pp_avg_px_open : f64;
  pp_avg_px_close : option f64;
  pp_realized_return : f64;
  pp_realized_pnl : option Money;
  pp_trade_ids : gset TradeId;
  pp_buy_qty : Quantity;
  pp_sell_qty : Quantity;
  pp_commissions : list (string * Money);
}.
Arguments Position : clear implicits.
#[export] Instance position_eta {Dec} : Eta (Position Dec) := fun p =>
  mkPosition Dec (pp_events p) (pp_adjustments p) (pp_trader_id p) (pp_strategy_id p)
    (pp_instrument_id p) (pp_id p) (pp_account_id p) (pp_opening_order_id p)
    (pp_closing_order_id p) (pp_entry p) (pp_side p) (pp_signed_qty p) (pp_quantity p)
    (pp_peak_qty p) (pp_price_precision p) (pp_size_precision p) (pp_multiplier p)
    (pp_is_inverse p) (pp_is_currency_pair p) (pp_instrument_class p) (pp_base_currency p)
    (pp_quote_currency p) (pp_settlement_currency p) (pp_ts_init p) (pp_ts_opened p)
    (pp_ts_last p) (pp_ts_closed p) (pp_duration_ns p) (pp_avg_px_open p) (pp_avg_px_close p)
    (pp_realized_return p) (pp_realized_pnl p) (pp_trade_ids p) (pp_buy_qty p) (pp_sell_qty p)
    (pp_commissions p).

(** The decimal library's negation and conversion to a float, and the uuid
    library's parser and printer on 16 bytes. *)
Class PositionLibs (Dec : Type) : Type := {
  dec_neg : Dec -> Dec;
  dec_to_f64 : Dec -> option f64;
  uuid_parse : UUID4 -> list Z;
  uuid_print : list Z -> UUID4;
}.

(** [x.unwrap_or_else(|e| { log; d })] *)
Definition or_log {E A} (r : outcome unit A) (d : A) : outcome E A :=
  match r with Ok a => Ok a | Err _ => Ok d | Panic => Panic end.

Section Position.
Context `{M : Mode} {Dec : Type} `{D : !DecimalApi Dec} `{U : !PositionLibs Dec}.
Abbreviation Pos := (Position Dec).

(** *** Identifiers *)

(** [UUID4::from_bytes] sets the version nibble and the variant bits. *)
Definition uuid_from_bytes (bytes : list Z) : UUID4 :=
  let bytes := alter (fun b => Z.lor (Z.land b 15) 64) 6%nat bytes in
  uuid_print (alter (fun b => Z.lor (Z.land b 63) 128) 8%nat bytes).
Definition adjustment_id (event_id : UUID4) : UUID4 :=
  uuid_from_bytes (alter (fun b => Z.lxor b 1) 15%nat (uuid_parse event_id)).

(** *** Prices and profit *)

Definition calculate_avg_px (qty avg_px last_px last_qty : f64) : outcome unit f64 :=
  if F64.eqb qty F64.zero && F64.eqb last_qty F64.zero then Err tt
  else if F64.eqb last_qty F64.zero then Err tt
  else if F64.eqb qty F64.zero then Ok last_px
  else
    let start_cost := F64.mul avg_px qty in
    let event_cost := F64.mul last_px last_qty in
    let total_qty := F64.add qty last_qty in
    if F64.leb total_qty F64.zero then Err tt
    else Ok (F64.div (F64.add start_cost event_cost) total_qty).
Definition calculate_avg_px_open_px {E} (self : Pos) (last_px last_qty : f64) : outcome E f64 :=
  qty ← qty_as_f64 (pp_quantity self);
  or_log (calculate_avg_px qty (pp_avg_px_open self) last_px last_qty) last_px.
Definition calculate_avg_px_close_px {E} (self : Pos) (last_px last_qty : f64) : outcome E f64 :=
  match pp_avg_px_close self with
  | None => Ok last_px
  | Some avg_px_close =>
      let closing_qty := if bool_decide (pp_side self = Long) then pp_sell_qty self
                         else pp_buy_qty self in
      qty ← qty_as_f64 closing_qty;
      or_log (calculate_avg_px qty avg_px_close last_px last_qty) last_px
  end.

Definition calculate_points (self : Pos) (avg_px_open avg_px_close : f64) : f64 :=
  match pp_side self with
  | Long => F64.sub avg_px_close avg_px_open
  | Short => F64.sub avg_px_open avg_px_close
  | _ => F64.zero
  end.
Definition calculate_points_inverse (self : Pos) (avg_px_open avg_px_close : f64) : outcome unit f64 :=
  if F64.ltb (F64.abs avg_px_open) EPSILON then Err tt
  else if F64.ltb (F64.abs avg_px_close) EPSILON then Err tt
  else
    let inverse_open := F64.div (F64.of_Z 1) avg_px_open in
    let inverse_close := F64.div (F64.of_Z 1) avg_px_close in
    Ok (match pp_side self with
        | Long => F64.sub inverse_open inverse_close
        | Short => F64.sub inverse_close inverse_open
        | _ => F64.zero
        end).
Definition calculate_return (self : Pos) (avg_px_open avg_px_close : f64) : outcome unit f64 :=
  if F64.eqb avg_px_open F64.zero then Err tt
  else Ok (F64.div (calculate_points self avg_px_open avg_px_close) avg_px_open).
Definition calculate_pnl_raw (self : Pos) (avg_px_open avg_px_close quantity : f64) : outcome unit f64 :=
  let quantity := F64.min quantity (F64.abs (pp_signed_qty self)) in
  if pp_is_inverse self then
    points ← calculate_points_inverse self avg_px_open avg_px_close;
    m ← qty_as_f64 (pp_multiplier self);
    Ok (F64.mul (F64.mul quantity m) points)
  else
    m ← qty_as_f64 (pp_multiplier self);
    Ok (F64.mul (F64.mul quantity m) (calculate_points self avg_px_open avg_px_close)).
Definition calculate_pnl {E} (self : Pos) (avg_px_open avg_px_close : f64) (quantity : Quantity)
  : outcome E Money :=
  q ← qty_as_f64 quantity;
  pnl_raw ← or_log (calculate_pnl_raw self avg_px_open avg_px_close q) F64.zero;
  money_new pnl_raw (pp_settlement_currency self).
Definition unrealized_pnl {E} (self : Pos) (last : Price) : outcome E Money :=
  if bool_decide (pp_side self = Flat) then money_new F64.zero (pp_settlement_currency self)
  else
    avg_px_close ← price_as_f64 last;
    quantity ← qty_as_f64 (pp_quantity self);
    pnl ← or_log (calculate_pnl_raw self (pp_avg_px_open self) avg_px_close quantity) F64.zero;
    money_new pnl (pp_settlement_currency self).
Definition total_pnl {E} (self : Pos) (last : Price) : outcome E Money :=
  unrealized ← unrealized_pnl self last;
  match pp_realized_pnl self with
  | Some realized => money_add realized unrealized
  | None => Ok unrealized
  end.
Definition notional_value {E} (self : Pos) (last : Price) : outcome E Money :=
  if pp_is_inverse self then
    _ ← assert_ (price_is_positive last);
    q ← qty_as_f64 (pp_quantity self);
    m ← qty_as_f64 (pp_multiplier self);
    l ← price_as_f64 last;
    base ← expect (pp_base_currency self);
    money_new (F64.mul (F64.mul q m) (F64.div (F64.of_Z 1) l)) base
  else
    q ← qty_as_f64 (pp_quantity self);
    l ← price_as_f64 last;
    m ← qty_as_f64 (pp_multiplier self);
    money_new (F64.mul (F64.mul q l) m) (pp_quote_currency self).

(** *** Fills *)

(** The commission of a fill as a (negative) profit in the settlement currency. *)
Definition commission_pnl {E} (self : Pos) (fill : OrderFilled) : outcome E f64 :=
  match fl_commission fill with
  | Some commission =>
      if currency_eqb (m_currency commission) (pp_settlement_currency self)
      then c ← money_as_f64 commission; Ok (F64.opp c)
      else Ok F64.zero
  | None => Ok F64.zero
  end.
(** The part of a fill that closes the position. *)
Definition close_part {E} (self : Pos) (realized_pnl last_px last_qty : f64)
  : outcome E (Pos * f64) :=
  avg_px_close ← calculate_avg_px_close_px self last_px last_qty;
  let self := self <| pp_avg_px_close := Some avg_px_close |> in
  ret ← or_log (calculate_return self (pp_avg_px_open self) avg_px_close) F64.zero;
  let self := self <| pp_realized_return := ret |> in
  pnl ← or_log (calculate_pnl_raw self (pp_avg_px_open self) last_px last_qty) F64.zero;
  Ok (self, F64.add realized_pnl pnl).
Definition add_realized {E} (self : Pos) (realized_pnl : f64) : outcome E Pos :=
  current_pnl ← match pp_realized_pnl self with Some p => money_as_f64 p | None => Ok F64.zero end;
  pnl ← money_new (F64.add current_pnl realized_pnl) (pp_settlement_currency self);
  Ok (self <| pp_realized_pnl := Some pnl |>).

Definition handle_buy_order_fill {E} (self : Pos) (fill : OrderFilled) : outcome E Pos :=
  realized_pnl ← commission_pnl self fill;
  last_px ← price_as_f64 (fl_last_px fill);
  last_qty ← qty_as_f64 (fl_last_qty fill);
  '(self, realized_pnl) ←
    (if F64.gtb (pp_signed_qty self) F64.zero then
       avg ← calculate_avg_px_open_px self last_px last_qty;
       Ok (self <| pp_avg_px_open := avg |>, realized_pnl)
     else if F64.ltb (pp_signed_qty self) F64.zero then close_part self realized_pnl last_px last_qty
     else Ok (self, realized_pnl));
  self ← add_realized self realized_pnl;
  let was_short := F64.ltb (pp_signed_qty self) F64.zero in
  let self := self <| pp_signed_qty := F64.add (pp_signed_qty self) last_qty |> in
  buy_qty ← qty_add (pp_buy_qty self) (fl_last_qty fill);
  let self := self <| pp_buy_qty := buy_qty |> in
  Ok (if was_short && F64.gtb (pp_signed_qty self) F64.zero
      then self <| pp_avg_px_open := last_px |> else self).
Definition handle_sell_order_fill {E} (self : Pos) (fill : OrderFilled) : outcome E Pos :=
  realized_pnl ← commission_pnl self fill;
  last_px ← price_as_f64 (fl_last_px fill);
  last_qty ← qty_as_f64 (fl_last_qty fill);
  '(self, realized_pnl) ←
    (if F64.ltb (pp_signed_qty self) F64.zero then
       avg ← calculate_avg_px_open_px self last_px last_qty;
       Ok (self <| pp_avg_px_open := avg |>, realized_pnl)
     else if F64.gtb (pp_signed_qty self) F64.zero then close_part self realized_pnl last_px last_qty
     else Ok (self, realized_pnl));
  self ← add_realized self realized_pnl;
  let was_long := F64.gtb (pp_signed_qty self) F64.zero in
  let self := self <| pp_signed_qty := F64.sub (pp_signed_qty self) last_qty |> in
  sell_qty ← qty_add (pp_sell_qty self) (fl_last_qty fill);
  let self := self <| pp_sell_qty := sell_qty |> in
  Ok (if was_long && F64.ltb (pp_signed_qty self) F64.zero
      then self <| pp_avg_px_open := last_px |> else self).

(** The quantity of the signed quantity, and the peak. *)
Definition set_position_quantity {E} (self : Pos) : outcome E Pos :=
  quantity ← qty_new (F64.abs (pp_signed_qty self)) (pp_size_precision self);
  let self := self <| pp_quantity := quantity |> in
  Ok (if qty_gtb (pp_quantity self) (pp_peak_qty self)
      then self <| pp_peak_qty := pp_quantity self |> else self).

Definition apply_adjustment {E} (self : Pos) (adjustment : PositionAdjusted Dec) : outcome E Pos :=
  self ← match pa_quantity_change adjustment with
         | Some quantity_change =>
             x ← expect (dec_to_f64 quantity_change);
             set_position_quantity (self <| pp_signed_qty := F64.add (pp_signed_qty self) x |>)
         | None => Ok self
         end;
  self ← match pa_pnl_change adjustment with
         | Some pnl_change =>
             pnl ← match pp_realized_pnl self with
                   | Some current => money_add current pnl_change
                   | None => Ok pnl_change
                   end;
             Ok (self <| pp_realized_pnl := Some pnl |>)
         | None => Ok self
         end;
  let self :=
    if qty_is_zero (pp_quantity self) then
      self <| pp_side := Flat |> <| pp_signed_qty := F64.zero |>
    else if F64.gtb (pp_signed_qty self) F64.zero then
      let self := self <| pp_side := Long |> in
      if bool_decide (pp_entry self = NoOrderSide) then self <| pp_entry := Buy |> else self
    else
      let self := self <| pp_side := Short |> in
      if bool_decide (pp_entry self = NoOrderSide) then self <| pp_entry := Sell |> else self in
  Ok (self <| pp_adjustments := pp_adjustments self ++ [adjustment] |>
           <| pp_ts_last := pa_ts_event adjustment |>).

(** The reset of a flat position by its next fill. *)
Definition reopen {E} (self : Pos) (fill : OrderFilled) : outcome E Pos :=
  buy_qty ← qty_zero (pp_size_precision self);
  sell_qty ← qty_zero (pp_size_precision self);
  peak_qty ← qty_zero (pp_size_precision self);
  avg_px_open ← price_as_f64 (fl_last_px fill);
  Ok (self <| pp_events := [] |> <| pp_trade_ids := ∅ |> <| pp_adjustments := [] |>
           <| pp_buy_qty := buy_qty |> <| pp_sell_qty := sell_qty |> <| pp_commissions := [] |>
           <| pp_opening_order_id := h_client_order_id (fl_header fill) |>
           <| pp_closing_order_id := None |> <| pp_peak_qty := peak_qty |>
           <| pp_ts_init := h_ts_init (fl_header fill) |>
           <| pp_ts_opened := h_ts_event (fl_header fill) |> <| pp_ts_closed := None |>
           <| pp_duration_ns := 0 |> <| pp_avg_px_open := avg_px_open |>
           <| pp_avg_px_close := None |> <| pp_realized_return := F64.zero |>
           <| pp_realized_pnl := None |>).

Definition add_commission {E} (self : Pos) (fill : OrderFilled) : outcome E Pos :=
  match fl_commission fill with
  | Some commission =>
      let code := c_code (m_currency commission) in
      total ← match ix_get code (pp_commissions self) with
              | Some existing => money_add existing commission
              | None => Ok commission
              end;
      Ok (self <| pp_commissions := ix_insert code total (pp_commissions self) |>)
  | None => Ok self
  end.

(** A commission in the base currency of a currency pair is taken out of the
    quantity. *)
Definition commission_adjustment {E} (self : Pos) (fill : OrderFilled) (commission : Money)
  : outcome E (PositionAdjusted Dec) :=
  d ← money_as_decimal commission;
  Ok (mkAdjusted Dec (pp_trader_id self) (pp_strategy_id self) (pp_instrument_id self)
        (pp_id self) (pp_account_id self) AdjCommission (Some (dec_neg d)) None
        (Some (h_client_order_id (fl_header fill)))
        (adjustment_id (h_event_id (fl_header fill)))
        (h_ts_event (fl_header fill)) (h_ts_init (fl_header fill))).
Definition adjust_commission {E} (self : Pos) (fill : OrderFilled) : outcome E Pos :=
  match fl_commission fill, pp_base_currency self with
  | Some commission, Some base_currency =>
      if pp_is_currency_pair self && currency_eqb (m_currency commission) base_currency then
        adjustment ← commission_adjustment self fill commission;
        apply_adjustment self adjustment
      else Ok self
  | _, _ => Ok self
  end.

(** The side that follows from the quantity after a fill. *)
Definition settle_side (self : Pos) (fill : OrderFilled) : Pos :=
  let self :=
    if qty_is_zero (pp_quantity self) then
      self <| pp_side := Flat |> <| pp_signed_qty := F64.zero |>
           <| pp_closing_order_id := Some (h_client_order_id (fl_header fill)) |>
           <| pp_ts_closed := Some (h_ts_event (fl_header fill)) |>
           <| pp_duration_ns := wrap U64 (h_ts_event (fl_header fill) - pp_ts_opened self) |>
    else if F64.gtb (pp_signed_qty self) F64.zero then
      self <| pp_entry := Buy |> <| pp_side := Long |>
    else self <| pp_entry := Sell |> <| pp_side := Short |> in
  self <| pp_ts_last := h_ts_event (fl_header fill) |>.

(** [apply] after the check for a repeated trade and the reset. *)
Definition apply_fill {E} (self : Pos) (fill : OrderFilled) : outcome E Pos :=
  let self := self <| pp_events := pp_events self ++ [fill] |>
                   <| pp_trade_ids := {[fl_trade_id fill]} ∪ pp_trade_ids self |> in
  self ← add_commission self fill;
  side ← fill_specified_side fill;
  self ← match side with
         | SBuy => handle_buy_order_fill self fill
         | SSell => handle_sell_order_fill self fill
         end;
  self ← adjust_commission self fill;
  self ← set_position_quantity self;
  Ok (settle_side self fill).
Definition position_apply {E} (self : Pos) (fill : OrderFilled) : outcome E Pos :=
  _ ← assert_ (negb (bool_decide (fl_trade_id fill ∈ pp_trade_ids self)));
  self ← (if bool_decide (pp_side self = Flat) then reopen self fill else Ok self);
  apply_fill self fill.

Definition position_new {E} (instrument : InstrumentView) (fill : OrderFilled) : outcome E Pos :=
  let h := fl_header fill in
  _ ← assert_ (bool_decide (iv_id instrument = h_instrument_id h));
  _ ← assert_ (negb (bool_decide (fl_order_side fill = NoOrderSide)));
  position_id ← expect (fl_position_id fill);
  zero ← qty_zero (iv_size_precision instrument);
  settlement ← cost_currency instrument;
  avg_px_open ← price_as_f64 (fl_last_px fill);
  position_apply
    (mkPosition Dec [] [] (h_trader_id h) (h_strategy_id h) (h_instrument_id h) position_id
       (fl_account_id fill) (h_client_order_id h) None (fl_order_side fill) Flat F64.zero
       (fl_last_qty fill) (fl_last_qty fill) (iv_price_precision instrument)
       (iv_size_precision instrument) (iv_multiplier instrument) (iv_is_inverse instrument)
       (iv_is_currency_pair instrument) (iv_class instrument) (iv_base_currency instrument)
       (iv_quote_currency instrument) settlement (h_ts_init h) (h_ts_event h) (h_ts_event h) None
       0 avg_px_open None F64.zero None ∅ zero zero []) fill.

(** *** Purging *)

Fixpoint apply_fills {E} (self : Pos) (fills : list OrderFilled) : outcome E Pos :=
  match fills with
  | [] => Ok self
  | f :: fills => self ← position_apply self f; apply_fills self fills
  end.
Fixpoint apply_adjustments {E} (self : Pos) (adjustments : list (PositionAdjusted Dec))
  : outcome E Pos :=
  match adjustments with
  | [] => Ok self
  | a :: adjustments => self ← apply_adjustment self a; apply_adjustments self adjustments
  end.

(** No fill is left. *)
Definition purge_all {E} (self : Pos) : outcome E Pos :=
  zero ← qty_zero (pp_size_precision self);
  Ok (self <| pp_events := [] |> <| pp_trade_ids := ∅ |> <| pp_adjustments := [] |>
           <| pp_buy_qty := zero |> <| pp_sell_qty := zero |> <| pp_commissions := [] |>
           <| pp_signed_qty := F64.zero |> <| pp_quantity := zero |> <| pp_side := Flat |>
           <| pp_avg_px_close := None |> <| pp_realized_pnl := None |>
           <| pp_realized_return := F64.zero |> <| pp_ts_opened := 0 |> <| pp_ts_last := 0 |>
           <| pp_ts_closed := Some 0 |> <| pp_duration_ns := 0 |>).
(** The state from which the remaining fills are applied. *)
Definition purge_reset {E} (self : Pos) (first_event : OrderFilled) : outcome E Pos :=
  zero ← qty_zero (pp_size_precision self);
  Ok (self <| pp_events := [] |> <| pp_trade_ids := ∅ |> <| pp_adjustments := [] |>
           <| pp_buy_qty := zero |> <| pp_sell_qty := zero |> <| pp_commissions := [] |>
           <| pp_signed_qty := F64.zero |> <| pp_quantity := zero |> <| pp_peak_qty := zero |>
           <| pp_side := Flat |> <| pp_avg_px_open := F64.zero |> <| pp_avg_px_close := None |>
           <| pp_realized_pnl := None |> <| pp_realized_return := F64.zero |>
           <| pp_entry := fl_order_side first_event |>
           <| pp_opening_order_id := h_client_order_id (fl_header first_event) |>
           <| pp_ts_opened := h_ts_event (fl_header first_event) |>
           <| pp_ts_init := h_ts_init (fl_header first_event) |>
           <| pp_closing_order_id := None |> <| pp_ts_closed := None |> <| pp_duration_ns := 0 |>).
Definition purge_events_for_order {E} (self : Pos) (id : ClientOrderId) : outcome E Pos :=
  let filtered_events :=
    List.filter (fun e => negb (bool_decide (h_client_order_id (fl_header e) = id))) (pp_events self) in
  let preserved_adjustments :=
    List.filter (fun a => negb (bool_decide (pa_adjustment_type a = AdjCommission))) (pp_adjustments self) in
  match filtered_events with
  | [] => purge_all self
  | first_event :: _ =>
      self ← purge_reset self first_event;
      self ← apply_fills self filtered_events;
      apply_adjustments self preserved_adjustments
  end.

(** *** Queries *)

Definition closing_order_side (self : Pos) : OrderSide :=
  match pp_side self with Long => Sell | Short => Buy | _ => NoOrderSide end.
Definition is_opposite_side (self : Pos) (side : OrderSide) : bool :=
  negb (bool_decide (pp_entry self = side)).
Definition event_count (self : Pos) : Z := Z.of_nat (length (pp_events self)).
Definition position_last_event (self : Pos) : option OrderFilled := last (pp_events self).
Definition position_last_trade_id (self : Pos) : option TradeId := fl_trade_id <$> last (pp_events self).
Definition is_long (self : Pos) : bool := bool_decide (pp_side self = Long).
Definition is_short (self : Pos) : bool := bool_decide (pp_side self = Short).
Definition position_is_open (self : Pos) : bool :=
  negb (bool_decide (pp_side self = Flat)) && bool_decide (pp_ts_closed self = None).
Definition position_is_closed (self : Pos) : bool :=
  bool_decide (pp_side self = Flat) && bool_decide (is_Some (pp_ts_closed self)).
Definition position_commissions (self : Pos) : list Money := snd <$> pp_commissions self.
End Position.
