(* ===== verification/PositionSpec.v ===== *)
(** * What a position promises *)

From stdpp Require Import base numbers list gmap sets strings.
From Stdlib Require Import ZArith Lia SpecFloat.
From S2P Require Import Prelude F64 Fixed Price Quantity Money Enums Maps OrderEvents Position.

(** One step into a successful computation. *)
Ltac obind H := apply bind_Ok_inv in H; destruct H as (? & ? & H); cbv beta zeta in H.
Ltac oruns :=
  repeat match goal with
  | H : _ ≫= _ = Ok _ |- _ => obind H
  | H : Ok _ = Ok _ |- _ => injection H as H
  | H : Err _ = Ok _ |- _ => discriminate H
  | H : Panic = Ok _ |- _ => discriminate H
  | H : (let '(_, _) := ?x in _) = Ok _ |- _ => destruct x
  | H : (if ?b then _ else _) = Ok _ |- _ => destruct b eqn:?
  | H : match ?x with _ => _ end = Ok _ |- _ => destruct x eqn:?
  end; subst.

Section Spec.
Context `{M : Mode} {Dec : Type} `{D : !DecimalApi Dec} `{U : !PositionLibs Dec}.
Implicit Types (p : Position Dec) (f : OrderFilled).

(** ** The record of fills *)

(** What only the record of a fill and the reset touch. *)
Definition log_of p :=
  (pp_events p, pp_trade_ids p, pp_buy_qty p, pp_sell_qty p, pp_size_precision p).

Lemma add_commission_log {E} p f p' : add_commission (E := E) p f = Ok p' -> log_of p' = log_of p.
Proof. unfold add_commission. intros H. oruns; done. Qed.

Lemma close_part_log {E} p x y z r :
  close_part (E := E) p x y z = Ok r -> log_of r.1 = log_of p /\ pp_signed_qty r.1 = pp_signed_qty p.
Proof. unfold close_part. intros H. oruns; done. Qed.

Lemma add_realized_log {E} p x p' :
  add_realized (E := E) p x = Ok p' -> log_of p' = log_of p /\ pp_signed_qty p' = pp_signed_qty p.
Proof. unfold add_realized. intros H. oruns; done. Qed.

Lemma set_quantity_spec {E} p p' :
  set_position_quantity (E := E) p = Ok p' ->
  log_of p' = log_of p /\ pp_signed_qty p' = pp_signed_qty p /\
  qty_new (E := E) (F64.abs (pp_signed_qty p)) (pp_size_precision p) = Ok (pp_quantity p') /\
  q_raw (pp_quantity p') <= q_raw (pp_peak_qty p').
Proof.
  unfold set_position_quantity. intros H. obind H. injection H as <-. unfold qty_gtb.
  cbn [pp_quantity pp_peak_qty set_field].
  destruct (Z.ltb_spec (q_raw (pp_peak_qty p)) (q_raw x)); split_and!; try done; cbn; lia.
Qed.

Lemma apply_adjustment_log {E} p a p' : apply_adjustment (E := E) p a = Ok p' -> log_of p' = log_of p.
Proof.
  unfold apply_adjustment. intros H. obind H. obind H.
  assert (Hx : log_of x = log_of p).
  { destruct (pa_quantity_change a); [|by injection H0 as <-]. obind H0.
    by apply set_quantity_spec in H0 as (-> & _). }
  assert (Hy : log_of x0 = log_of x).
  { destruct (pa_pnl_change a); [|by injection H1 as <-]. obind H1. by injection H1 as <-. }
  injection H as <-. rewrite <- Hx, <- Hy. by repeat case_match.
Qed.

Lemma adjust_commission_log {E} p f p' : adjust_commission (E := E) p f = Ok p' -> log_of p' = log_of p.
Proof.
  unfold adjust_commission. intros H. destruct (fl_commission f), (pp_base_currency p); try by injection H as <-.
  destruct (_ && _); [|by injection H as <-]. obind H. by apply apply_adjustment_log in H.
Qed.

Lemma handle_buy_log {E} p f p' :
  handle_buy_order_fill (E := E) p f = Ok p' ->
  exists q, qty_add (E := E) (pp_buy_qty p) (fl_last_qty f) = Ok q /\
    log_of p' = (pp_events p, pp_trade_ids p, q, pp_sell_qty p, pp_size_precision p).
Proof.
  unfold handle_buy_order_fill. intros H. obind H. obind H. obind H. obind H. destruct x2 as [p1 r].
  obind H. obind H.
  assert (Hp1 : log_of p1 = log_of p).
  { repeat case_match; try by apply close_part_log in H3 as [? _]. all: oruns; done. }
  apply add_realized_log in H4 as [H4 _]. rewrite Hp1 in H4. unfold log_of in H4. injection H4 as L1 L2 E1 L3 L4.
  injection H as <-. exists x3. cbn [pp_buy_qty set_field] in H5. rewrite E1 in H5. split; [done|].
  destruct (_ && _); unfold log_of; cbn; by rewrite L1, L2, L3, L4.
Qed.

Lemma handle_sell_log {E} p f p' :
  handle_sell_order_fill (E := E) p f = Ok p' ->
  exists q, qty_add (E := E) (pp_sell_qty p) (fl_last_qty f) = Ok q /\
    log_of p' = (pp_events p, pp_trade_ids p, pp_buy_qty p, q, pp_size_precision p).
Proof.
  unfold handle_sell_order_fill. intros H. obind H. obind H. obind H. obind H. destruct x2 as [p1 r].
  obind H. obind H.
  assert (Hp1 : log_of p1 = log_of p).
  { repeat case_match; try by apply close_part_log in H3 as [? _]. all: oruns; done. }
  apply add_realized_log in H4 as [H4 _]. rewrite Hp1 in H4. unfold log_of in H4. injection H4 as L1 L2 L3 E1 L4.
  injection H as <-. exists x3. cbn [pp_sell_qty set_field] in H5. rewrite E1 in H5. split; [done|].
  destruct (_ && _); unfold log_of; cbn; by rewrite L1, L2, L3, L4.
Qed.

(** ** The invariant *)

(** The raw quantity the fills of one side add up to. *)
Definition traded (s : OrderSide) (fs : list OrderFilled) : Z :=
  foldr (fun f n => (if bool_decide (fl_order_side f = s) then q_raw (fl_last_qty f) else 0) + n) 0 fs.

#[local] Arguments traded : simpl never.

Lemma traded_snoc s fs f :
  traded s (fs ++ [f]) =
    traded s fs + if bool_decide (fl_order_side f = s) then q_raw (fl_last_qty f) else 0.
Proof. unfold traded. induction fs as [|g fs IH]; cbn; [lia|]. rewrite IH. lia. Qed.

Record booked p : Prop := {
  bk_precision : 0 <= pp_size_precision p;
  bk_ids : pp_trade_ids p = list_to_set (fl_trade_id <$> pp_events p);
  bk_once : NoDup (fl_trade_id <$> pp_events p);
  bk_buy : q_raw (pp_buy_qty p) = traded Buy (pp_events p);
  bk_sell : q_raw (pp_sell_qty p) = traded Sell (pp_events p);
}.

(** The side is that of the signed quantity; a flat position has none. *)
Definition sided p : Prop :=
  match pp_side p with
  | Long => F64.gtb (pp_signed_qty p) F64.zero = true /\ q_raw (pp_quantity p) <> 0
  | Short => F64.ltb (pp_signed_qty p) F64.zero = true /\ q_raw (pp_quantity p) <> 0
  | Flat => pp_signed_qty p = F64.zero /\ q_raw (pp_quantity p) = 0
  | NoPositionSide => False
  end.

Record pos_ok p : Prop := {
  po_booked : booked p;
  po_sided : sided p;
  po_peak : 0 <= q_raw (pp_quantity p) <= q_raw (pp_peak_qty p);
}.

Lemma booked_log p p' : log_of p' = log_of p -> booked p -> booked p'.
Proof.
  unfold log_of. intros H [H1 H2 H3 H4 H5]. injection H as L1 L2 L3 L4 L5.
  split; rewrite ?L1, ?L2, ?L3, ?L4, ?L5; done.
Qed.

Lemma qty_zero_raw {E} n q : 0 <= n -> qty_zero (E := E) n = Ok q -> q_raw q = 0.
Proof. intros Hn. rewrite qty_zero_eval by done. destruct (_ <=? _); naive_solver. Qed.

(** A quantity that is not zero comes from a number that is positive or negative. *)
Lemma qty_new_sign {E} (x : f64) n q :
  0 <= n -> qty_new (E := E) (F64.abs x) n = Ok q -> q_raw q <> 0 ->
  F64.gtb x F64.zero = true \/ F64.ltb x F64.zero = true.
Proof.
  intros Hn Hq Hne. destruct x as [s|s| |s m e]; [exfalso|..].
  - apply Hne. apply (qty_zero_raw (E := E) n q Hn). unfold qty_zero.
    change (F64.abs (S754_zero s)) with F64.zero in Hq. rewrite Hq.
    unfold qty_new, qty_new_checked in Hq. rewrite qty_zero_in_range in Hq. cbn [mbind outcome_bind] in Hq.
    destruct (err_if _ _) in Hq; try done. cbn [mbind outcome_bind] in Hq.
    destruct (check_fixed_precision n) as [[]| |]; done.
  - by destruct s.
  - done.
  - destruct s; [by right|by left].
Qed.

Lemma qty_new_nonneg {E} x n q : qty_new (E := E) x n = Ok q -> 0 <= q_raw q.
Proof.
  unfold qty_new. destruct (qty_new_checked x n) as [q'| |] eqn:H; try done. intros [= <-].
  unfold qty_new_checked in H. obind H. obind H. obind H. obind H. injection H as <-.
  unfold f64_to_fixed_u128, f64_to_fixed_u64 in H3.
  destruct high_precision; unfold f64_to_fixed in H3; obind H3; injection H3 as <-; cbn;
    apply Z.mod_pos_bound; lia.
Qed.

Lemma set_quantity_sided {E} p p' :
  0 <= pp_size_precision p -> set_position_quantity (E := E) p = Ok p' ->
  log_of p' = log_of p /\ 0 <= q_raw (pp_quantity p') <= q_raw (pp_peak_qty p') /\
  (q_raw (pp_quantity p') <> 0 ->
   F64.gtb (pp_signed_qty p') F64.zero = true \/ F64.ltb (pp_signed_qty p') F64.zero = true).
Proof.
  intros Hn (H1 & H2 & H3 & H4)%set_quantity_spec.
  split_and!; [done|by apply qty_new_nonneg in H3|done|]. rewrite H2. by apply (qty_new_sign (E := E) _ (pp_size_precision p)).
Qed.

Lemma qty_add_raw {E} a b q : qty_add (E := E) a b = Ok q -> q_raw q = q_raw a + q_raw b.
Proof. unfold qty_add. intros H. obind H. injection H as <-. by outcome_inv. Qed.

(** Recording a fill. *)
Lemma fill_booked p f p' b s :
  booked p -> fl_trade_id f ∉ pp_trade_ids p ->
  log_of p' = (pp_events p ++ [f], {[fl_trade_id f]} ∪ pp_trade_ids p, b, s, pp_size_precision p) ->
  q_raw b = traded Buy (pp_events p ++ [f]) -> q_raw s = traded Sell (pp_events p ++ [f]) ->
  booked p'.
Proof.
  intros [H1 H2 H3 H4 H5] Hnew Hlog Hb Hs. unfold log_of in Hlog. injection Hlog as L1 L2 L3 L4 L5.
  split; rewrite ?L1, ?L2, ?L3, ?L4, ?L5; [done| | |done|done].
  - rewrite fmap_app, list_to_set_app_L, H2. cbn. rewrite union_empty_r_L. apply union_comm_L.
  - rewrite fmap_app. apply NoDup_app. split_and!; [done| |apply NoDup_singleton].
    intros x Hx ->%list_elem_of_singleton. apply Hnew. rewrite H2. by apply elem_of_list_to_set.
Qed.

Lemma settle_side_log p f : log_of (settle_side p f) = log_of p.
Proof. unfold settle_side. by destruct (qty_is_zero _); [|destruct (F64.gtb _ _)]. Qed.

Lemma settle_side_sided p f :
  (q_raw (pp_quantity p) <> 0 ->
   F64.gtb (pp_signed_qty p) F64.zero = true \/ F64.ltb (pp_signed_qty p) F64.zero = true) ->
  sided (settle_side p f) /\ pp_quantity (settle_side p f) = pp_quantity p /\
  pp_peak_qty (settle_side p f) = pp_peak_qty p.
Proof.
  intros Hsg. unfold settle_side, sided, qty_is_zero.
  destruct (Z.eqb_spec (q_raw (pp_quantity p)) 0) as [E0|E0]; [done|]. specialize (Hsg E0).
  destruct (F64.gtb (pp_signed_qty p) F64.zero) eqn:Eg; [done|].
  destruct Hsg as [Hsg|Hsg]; [discriminate Hsg|done].
Qed.

Lemma apply_fill_ok {E} p f p' :
  booked p -> fl_trade_id f ∉ pp_trade_ids p -> apply_fill (E := E) p f = Ok p' -> pos_ok p'.
Proof.
  intros Hb Hnew H. unfold apply_fill in H. obind H. obind H. obind H. obind H. obind H.
  apply add_commission_log in H0. apply adjust_commission_log in H3.
  unfold log_of in H0. cbn [pp_events pp_trade_ids pp_buy_qty pp_sell_qty pp_size_precision set_field] in H0.
  injection H0 as L1 L2 L3 L4 L5.
  assert (Hb2 : booked x2).
  { unfold fill_specified_side, as_specified in H1. destruct (fl_order_side f) eqn:Es; try done; injection H1 as <-.
    - apply handle_buy_log in H2 as (q & Hq%qty_add_raw & Hl). rewrite L1, L2, L4, L5 in Hl. rewrite L3 in Hq.
      eapply (fill_booked p f x2); [done..|by rewrite H3| |]; rewrite traded_snoc, Es;
        [rewrite bool_decide_true, Hq, (bk_buy _ Hb)|rewrite bool_decide_false, (bk_sell _ Hb)]; (done || lia).
    - apply handle_sell_log in H2 as (q & Hq%qty_add_raw & Hl). rewrite L1, L2, L3, L5 in Hl. rewrite L4 in Hq.
      eapply (fill_booked p f x2); [done..|by rewrite H3| |]; rewrite traded_snoc, Es;
        [rewrite bool_decide_false, (bk_buy _ Hb)|rewrite bool_decide_true, Hq, (bk_sell _ Hb)]; (done || lia). }
  apply set_quantity_sided in H4 as (Hl & Hpk & Hsg); [|apply Hb2].
  pose proof (booked_log _ _ Hl Hb2) as Hb3.
  injection H as <-. destruct (settle_side_sided x3 f Hsg) as (S1 & S2 & S3).
  split; [|done|by rewrite S2, S3]. by apply (booked_log x3); [apply settle_side_log|].
Qed.

(** ** The operations keep it *)

Lemma reopen_booked {E} p f p' :
  0 <= pp_size_precision p -> reopen (E := E) p f = Ok p' -> booked p' /\ pp_trade_ids p' = ∅.
Proof.
  intros Hn H. unfold reopen in H. obind H. obind H. obind H. obind H. injection H as <-.
  apply qty_zero_raw in H0, H1; [|done..]. split; [|done].
  split; [done|done|constructor|exact H0|exact H1].
Qed.

Lemma position_apply_ok {E} p f p' :
  0 <= pp_size_precision p -> pp_side p = Flat \/ booked p ->
  position_apply (E := E) p f = Ok p' -> pos_ok p'.
Proof.
  intros Hn Hp H. unfold position_apply in H. obind H. obind H.
  apply assert_Ok, negb_true_iff, bool_decide_eq_false in H0.
  destruct (decide (pp_side p = Flat)) as [Hs|Hs].
  - rewrite bool_decide_true in H1 by done. apply reopen_booked in H1 as [Hb Ht]; [|done].
    apply apply_fill_ok in H; [done|done|]. rewrite Ht. apply not_elem_of_empty.
  - rewrite bool_decide_false in H1 by done. injection H1 as <-. destruct Hp as [?|Hb]; [done|].
    by apply apply_fill_ok in H.
Qed.

Lemma position_new_ok {E} i f p :
  0 <= iv_size_precision i -> position_new (E := E) i f = Ok p -> pos_ok p.
Proof.
  intros Hn H. unfold position_new in H. obind H. obind H. obind H. obind H. obind H. obind H.
  apply position_apply_ok in H; [done|done|by left].
Qed.

(** The quantity has a sign and the peak is a peak. *)
Definition signed p : Prop :=
  (q_raw (pp_quantity p) <> 0 ->
   F64.gtb (pp_signed_qty p) F64.zero = true \/ F64.ltb (pp_signed_qty p) F64.zero = true) /\
  0 <= q_raw (pp_quantity p) <= q_raw (pp_peak_qty p).

Lemma apply_adjustment_ok {E} p a p' :
  pos_ok p -> apply_adjustment (E := E) p a = Ok p' -> pos_ok p'.
Proof.
  intros [Hb Hs Hp] H. pose proof (booked_log _ _ (apply_adjustment_log _ _ _ H) Hb) as Hb'.
  unfold apply_adjustment in H. obind H. obind H.
  assert (Hx : signed x).
  { destruct (pa_quantity_change a) as [d|].
    - obind H0. apply set_quantity_sided in H0 as (_ & ? & ?); [by split|apply Hb].
    - injection H0 as <-. split; [|done]. intros Hq. unfold sided in Hs.
      destruct (pp_side p); naive_solver. }
  assert (Hy : signed x0).
  { destruct (pa_pnl_change a); [|by injection H1 as <-]. obind H1. by injection H1 as <-. }
  clear H0 H1 Hx. destruct Hy as [Hsg Hpk]. injection H as <-. split; [done| |];
    unfold sided, qty_is_zero; destruct (Z.eqb_spec (q_raw (pp_quantity x0)) 0) as [E0|E0]; try done;
    specialize (Hsg E0); destruct (F64.gtb (pp_signed_qty x0) F64.zero) eqn:Eg;
    destruct (bool_decide _); try done.
  all: destruct Hsg as [Hsg|Hsg]; [discriminate Hsg|done].
Qed.

Lemma apply_fills_ok {E} fs p p' :
  0 <= pp_size_precision p -> pp_side p = Flat \/ booked p -> fs <> [] ->
  apply_fills (E := E) p fs = Ok p' -> pos_ok p'.
Proof.
  revert p. induction fs as [|f fs IH]; intros p Hn Hp Hne H; [done|]. cbn [apply_fills] in H. obind H.
  apply position_apply_ok in H0 as Hx; [|done|done]. destruct fs as [|g fs].
  - by injection H as <-.
  - apply IH in H; [done|apply Hx|right; apply Hx|done].
Qed.

Lemma apply_adjustments_ok {E} al p p' :
  pos_ok p -> apply_adjustments (E := E) p al = Ok p' -> pos_ok p'.
Proof.
  revert p. induction al as [|a al IH]; intros p Hp H; [by injection H as <-|]. cbn [apply_adjustments] in H.
  obind H. apply apply_adjustment_ok in H0; [|done]. by apply IH in H.
Qed.

Lemma purge_all_ok {E} p p' : pos_ok p -> purge_all (E := E) p = Ok p' -> pos_ok p'.
Proof.
  intros [[Hn _ _ _ _] _ Hp] H. unfold purge_all in H. obind H. injection H as H.
  apply qty_zero_raw in H0; [|done].
  assert (Hl : log_of p' = ([], ∅, x, x, pp_size_precision p)) by (by subst p').
  assert (Hs : pp_side p' = Flat /\ pp_signed_qty p' = F64.zero) by (by subst p').
  assert (Hq : pp_quantity p' = x /\ pp_peak_qty p' = pp_peak_qty p) by (by subst p').
  clear H. destruct Hs as [Hs Hs'], Hq as [Hq Hq']. unfold log_of in Hl. injection Hl as L1 L2 L3 L4 L5. split.
  - split; rewrite ?L1, ?L2, ?L3, ?L4, ?L5; [done|done|constructor|exact H0|exact H0].
  - unfold sided. by rewrite Hs, Hq.
  - rewrite Hq, Hq'. lia.
Qed.

Lemma purge_reset_flat {E} p f p' :
  purge_reset (E := E) p f = Ok p' -> pp_side p' = Flat /\ pp_size_precision p' = pp_size_precision p.
Proof. unfold purge_reset. intros H. obind H. by injection H as <-. Qed.

Lemma purge_ok {E} p id p' :
  pos_ok p -> purge_events_for_order (E := E) p id = Ok p' -> pos_ok p'.
Proof.
  intros Hok H. unfold purge_events_for_order in H. cbv zeta in H.
  destruct (List.filter _ (pp_events p)) as [|f fs] eqn:Ef; [by apply purge_all_ok in H|].
  obind H. obind H. apply purge_reset_flat in H0 as [Hs Hn].
  apply apply_fills_ok in H1; [by apply apply_adjustments_ok in H| |by left|done].
  rewrite Hn. apply Hok.
Qed.

(** The positions a program can build. *)
Inductive pos_reach : Position Dec -> Prop :=
  | reach_new i f p : 0 <= iv_size_precision i ->
      position_new (E := Empty_set) i f = Ok p -> pos_reach p
  | reach_apply p f p' : pos_reach p -> position_apply (E := Empty_set) p f = Ok p' -> pos_reach p'
  | reach_adjust p a p' : pos_reach p -> apply_adjustment (E := Empty_set) p a = Ok p' -> pos_reach p'
  | reach_purge p id p' : pos_reach p ->
      purge_events_for_order (E := Empty_set) p id = Ok p' -> pos_reach p'.

Lemma pos_reach_ok p : pos_reach p -> pos_ok p.
Proof.
  induction 1 as [i f p Hn H|p f p' _ IH H|p a p' _ IH H|p id p' _ IH H].
  - by apply position_new_ok in H.
  - apply position_apply_ok in H; [done|apply IH|right; apply IH].
  - by apply apply_adjustment_ok in H.
  - by apply purge_ok in H.
Qed.

(** C29: in every position that can be built, the side is that of the signed
    quantity (and a position is flat exactly when its quantity is zero), the
    peak is at least the quantity, the recorded trade ids are those of the
    fills and none is counted twice, and the bought and sold quantities are
    the exact sums of the fills of each side. *)
Theorem position_invariant p :
  pos_reach p ->
  sided p /\ (pp_side p = Flat <-> q_raw (pp_quantity p) = 0) /\
  q_raw (pp_quantity p) <= q_raw (pp_peak_qty p) /\
  pp_trade_ids p = list_to_set (fl_trade_id <$> pp_events p) /\
  NoDup (fl_trade_id <$> pp_events p) /\
  q_raw (pp_buy_qty p) = traded Buy (pp_events p) /\
  q_raw (pp_sell_qty p) = traded Sell (pp_events p).
Proof.
  intros [[] Hs Hp]%pos_reach_ok.
  split_and!; try done; [|lia]. unfold sided in Hs. destruct (pp_side p); naive_solver.
Qed.
End Spec.
