(* ===== verification/PositionReplay.v ===== *)
(** * Replaying the fills of a position

    A position is determined by its fills since it was last flat: purging an
    order that has no fill, which applies the recorded fills to a blank
    position, gives the position back. *)

From stdpp Require Import base numbers list gmap sets strings.
From Stdlib Require Import ZArith Lia.
From S2P Require Import Prelude F64 Fixed Price Quantity Money Enums Maps OrderEvents Position PositionSpec.

Section Replay.
Context `{M : Mode} {Dec : Type} `{D : !DecimalApi Dec} `{U : !PositionLibs Dec}.
Implicit Types (p q r : Position Dec) (f g : OrderFilled).

(** ** Fields the next fill overwrites *)

(** On a flat position the next fill looks at neither of these. *)
Definition tweak p (e : OrderSide) (n : Quantity) (t : UnixNanos) : Position Dec :=
  p <| pp_entry := e |> <| pp_quantity := n |> <| pp_ts_last := t |>.

Lemma tweak_self p : tweak p (pp_entry p) (pp_quantity p) (pp_ts_last p) = p.
Proof. by destruct p. Qed.

Lemma add_commission_tweak {E} p f r e n t :
  add_commission (E := E) p f = Ok r -> add_commission (E := E) (tweak p e n t) f = Ok (tweak r e n t).
Proof.
  unfold add_commission. destruct (fl_commission f) as [c|]; intros H; [|by injection H as <-].
  obind H. injection H as <-. change (pp_commissions (tweak p e n t)) with (pp_commissions p).
  by rewrite H0.
Qed.

Lemma add_realized_tweak {E} p x r e n t :
  add_realized (E := E) p x = Ok r -> add_realized (E := E) (tweak p e n t) x = Ok (tweak r e n t).
Proof.
  unfold add_realized. intros H. obind H. obind H. injection H as <-.
  change (pp_realized_pnl (tweak p e n t)) with (pp_realized_pnl p). rewrite H0. cbn [mbind outcome_bind].
  change (pp_settlement_currency (tweak p e n t)) with (pp_settlement_currency p). by rewrite H1.
Qed.

Lemma handle_buy_tweak {E} p f r e n t :
  pp_signed_qty p = F64.zero -> handle_buy_order_fill (E := E) p f = Ok r ->
  handle_buy_order_fill (E := E) (tweak p e n t) f = Ok (tweak r e n t).
Proof.
  intros Hz H. unfold handle_buy_order_fill in *. rewrite Hz in H.
  change (pp_signed_qty (tweak p e n t)) with (pp_signed_qty p). rewrite Hz.
  change (F64.gtb F64.zero F64.zero) with false in *. change (F64.ltb F64.zero F64.zero) with false in *.
  change (commission_pnl (tweak p e n t) f) with (commission_pnl (E := E) p f).
  obind H. rewrite H0. obind H. obind H. obind H. injection H3 as <-.
  obind H. obind H. cbn [mbind outcome_bind]. rewrite H1. cbn [mbind outcome_bind]. rewrite H2. cbn [mbind outcome_bind].
  rewrite (add_realized_tweak _ _ _ e n t H3). cbn [mbind outcome_bind].
  change (qty_add (E := E) (pp_buy_qty x2) (fl_last_qty f) = Ok x3) in H4.
  match goal with |- qty_add ?a _ ≫= _ = _ => change a with (pp_buy_qty x2) end.
  rewrite H4. cbn [mbind outcome_bind].
  injection H as <-. by destruct (_ && _).
Qed.

Lemma handle_sell_tweak {E} p f r e n t :
  pp_signed_qty p = F64.zero -> handle_sell_order_fill (E := E) p f = Ok r ->
  handle_sell_order_fill (E := E) (tweak p e n t) f = Ok (tweak r e n t).
Proof.
  intros Hz H. unfold handle_sell_order_fill in *. rewrite Hz in H.
  change (pp_signed_qty (tweak p e n t)) with (pp_signed_qty p). rewrite Hz.
  change (F64.gtb F64.zero F64.zero) with false in *. change (F64.ltb F64.zero F64.zero) with false in *.
  change (commission_pnl (tweak p e n t) f) with (commission_pnl (E := E) p f).
  obind H. rewrite H0. obind H. obind H. obind H. injection H3 as <-.
  obind H. obind H. cbn [mbind outcome_bind]. rewrite H1. cbn [mbind outcome_bind]. rewrite H2. cbn [mbind outcome_bind].
  rewrite (add_realized_tweak _ _ _ e n t H3). cbn [mbind outcome_bind].
  change (qty_add (E := E) (pp_sell_qty x2) (fl_last_qty f) = Ok x3) in H4.
  match goal with |- qty_add ?a _ ≫= _ = _ => change a with (pp_sell_qty x2) end.
  rewrite H4. cbn [mbind outcome_bind].
  injection H as <-. by destruct (_ && _).
Qed.

Lemma set_quantity_tweak {E} p r e n t :
  set_position_quantity (E := E) p = Ok r ->
  set_position_quantity (E := E) (tweak p e n t) = Ok (tweak r e (pp_quantity r) t).
Proof.
  unfold set_position_quantity. intros H. obind H. injection H as <-.
  change (pp_signed_qty (tweak p e n t)) with (pp_signed_qty p).
  change (pp_size_precision (tweak p e n t)) with (pp_size_precision p). rewrite H0.
  cbn [mbind outcome_bind]. f_equal. set (p' := tweak p e n t).
  change (qty_gtb (pp_quantity (p' <| pp_quantity := x |>)) (pp_peak_qty (p' <| pp_quantity := x |>)))
    with (qty_gtb x (pp_peak_qty p)).
  change (qty_gtb (pp_quantity (p <| pp_quantity := x |>)) (pp_peak_qty (p <| pp_quantity := x |>)))
    with (qty_gtb x (pp_peak_qty p)).
  by destruct (qty_gtb x (pp_peak_qty p)).
Qed.

(** A commission taken out of the quantity. *)
Lemma adjust_quantity_tweak {E} p a r e n t :
  is_Some (pa_quantity_change a) -> pa_pnl_change a = None -> apply_adjustment (E := E) p a = Ok r ->
  exists e' n' t', apply_adjustment (E := E) (tweak p e n t) a = Ok (tweak r e' n' t').
Proof.
  intros [d Hd] Hn H. unfold apply_adjustment in *. rewrite Hd, Hn in *. obind H. obind H. obind H0.
  injection H1 as <-. rewrite H2. cbn [mbind outcome_bind].
  match goal with |- context [set_position_quantity ?q] =>
    change q with (tweak (p <| pp_signed_qty := F64.add (pp_signed_qty p) x1 |>) e n t) end.
  rewrite (set_quantity_tweak _ _ e n t H0). cbn [mbind outcome_bind].
  set (x' := tweak x e (pp_quantity x) t).
  change (pp_quantity x') with (pp_quantity x). change (pp_signed_qty x') with (pp_signed_qty x).
  injection H as <-. destruct (qty_is_zero (pp_quantity x)).
  { by exists e, (pp_quantity x), (pa_ts_event a). }
  destruct (F64.gtb (pp_signed_qty x) F64.zero).
  - exists (if bool_decide (e = NoOrderSide) then Buy else e), (pp_quantity x), (pa_ts_event a).
    match goal with |- context [bool_decide (pp_entry ?q = NoOrderSide)] =>
      change (pp_entry q) with e end. by destruct (bool_decide (e = _)), (bool_decide (pp_entry _ = _)).
  - exists (if bool_decide (e = NoOrderSide) then Sell else e), (pp_quantity x), (pa_ts_event a).
    match goal with |- context [bool_decide (pp_entry ?q = NoOrderSide)] =>
      change (pp_entry q) with e end. by destruct (bool_decide (e = _)), (bool_decide (pp_entry _ = _)).
Qed.

Lemma adjust_commission_tweak {E} p f r e n t :
  adjust_commission (E := E) p f = Ok r ->
  exists e' n' t', adjust_commission (E := E) (tweak p e n t) f = Ok (tweak r e' n' t').
Proof.
  unfold adjust_commission. change (pp_base_currency (tweak p e n t)) with (pp_base_currency p).
  change (pp_is_currency_pair (tweak p e n t)) with (pp_is_currency_pair p). intros H.
  destruct (fl_commission f) as [c|]; [|injection H as <-; by exists e, n, t].
  destruct (pp_base_currency p) as [b|]; [|injection H as <-; by exists e, n, t].
  destruct (_ && _); [|injection H as <-; by exists e, n, t]. obind H.
  change (commission_adjustment (tweak p e n t) f c) with (commission_adjustment (E := E) p f c).
  rewrite H0. cbn [mbind outcome_bind]. unfold commission_adjustment in H0. obind H0. injection H0 as <-.
  by apply adjust_quantity_tweak.
Qed.

Lemma settle_side_tweak p f e t :
  pp_side (settle_side p f) <> Flat -> settle_side (tweak p e (pp_quantity p) t) f = settle_side p f.
Proof.
  unfold settle_side. set (p' := tweak p e (pp_quantity p) t).
  change (pp_quantity p') with (pp_quantity p). change (pp_signed_qty p') with (pp_signed_qty p).
  destruct (qty_is_zero (pp_quantity p)); [done|]. by destruct (F64.gtb (pp_signed_qty p) F64.zero).
Qed.

Lemma apply_fill_tweak {E} p f r e n t :
  pp_signed_qty p = F64.zero -> apply_fill (E := E) p f = Ok r -> pp_side r <> Flat ->
  apply_fill (E := E) (tweak p e n t) f = Ok r.
Proof.
  intros Hz H Hs. unfold apply_fill in *. obind H.
  match goal with |- add_commission ?q _ ≫= _ = _ => change q with
    (tweak (p <| pp_events := pp_events p ++ [f] |>
              <| pp_trade_ids := {[fl_trade_id f]} ∪ pp_trade_ids p |>) e n t) end.
  rewrite (add_commission_tweak _ _ _ e n t H0). cbn [mbind outcome_bind].
  assert (Hx : pp_signed_qty x = F64.zero).
  { unfold add_commission in H0. destruct (fl_commission f); [obind H0|]; by injection H0 as <-. }
  obind H. rewrite H1. cbn [mbind outcome_bind]. obind H. obind H. obind H. injection H as <-.
  assert (Hh : match x0 with SBuy => handle_buy_order_fill (E := E) (tweak x e n t) f
    | SSell => handle_sell_order_fill (tweak x e n t) f end = Ok (tweak x1 e n t))
    by (destruct x0; [by apply handle_buy_tweak|by apply handle_sell_tweak]).
  rewrite Hh. cbn [mbind outcome_bind].
  destruct (adjust_commission_tweak _ _ _ e n t H3) as (e' & n' & t' & ->). cbn [mbind outcome_bind].
  rewrite (set_quantity_tweak _ _ e' n' t' H4). cbn [mbind outcome_bind]. f_equal.
  by apply settle_side_tweak.
Qed.

(** ** What a fill keeps *)

Definition statics p :=
  (pp_trader_id p, pp_strategy_id p, pp_instrument_id p, pp_id p, pp_account_id p,
   pp_price_precision p, pp_size_precision p, pp_multiplier p, pp_is_inverse p,
   pp_is_currency_pair p, pp_instrument_class p, pp_base_currency p, pp_quote_currency p,
   pp_settlement_currency p).
Definition commissions_only p : Prop :=
  Forall (fun a => pa_adjustment_type a = AdjCommission) (pp_adjustments p).
Definition keeps p q : Prop := statics q = statics p /\ (commissions_only p -> commissions_only q).

#[local] Instance keeps_preorder : PreOrder keeps.
Proof. split; [by split|]. intros p q r [H1 H2] [H3 H4]. split; [congruence|auto]. Qed.

Lemma keeps_same p q : statics q = statics p -> pp_adjustments q = pp_adjustments p -> keeps p q.
Proof. intros H1 H2. split; [done|]. unfold commissions_only. by rewrite H2. Qed.

Lemma add_commission_keeps {E} p f r : add_commission (E := E) p f = Ok r -> keeps p r.
Proof. unfold add_commission. intros H. apply keeps_same; oruns; done. Qed.

Lemma add_realized_keeps {E} p x r : add_realized (E := E) p x = Ok r -> keeps p r.
Proof. unfold add_realized. intros H. apply keeps_same; oruns; done. Qed.

Lemma close_part_keeps {E} p x y z (r : Position Dec * f64) : close_part (E := E) p x y z = Ok r -> keeps p r.1.
Proof. unfold close_part. intros H. apply keeps_same; oruns; done. Qed.

Lemma set_quantity_keeps {E} p r : set_position_quantity (E := E) p = Ok r -> keeps p r.
Proof.
  unfold set_position_quantity. intros H. obind H. injection H as <-.
  apply keeps_same; by destruct (qty_gtb _ _).
Qed.

Lemma opening_keeps {E} p x y z b1 b2 (r : Position Dec * f64) :
  (if b1 : bool then avg ← calculate_avg_px_open_px (E := E) p x y; Ok (p <| pp_avg_px_open := avg |>, z)
   else if b2 : bool then close_part p z x y else Ok (p, z)) = Ok r -> keeps p r.1.
Proof.
  destruct b1; [|destruct b2].
  - intros H. obind H. injection H as <-. by apply keeps_same.
  - apply close_part_keeps.
  - by intros [= <-].
Qed.

Lemma handle_keeps {E} p f r (s : OrderSideSpecified) :
  match s with SBuy => handle_buy_order_fill (E := E) p f | SSell => handle_sell_order_fill p f end = Ok r ->
  keeps p r.
Proof.
  intros H. destruct s; (unfold handle_buy_order_fill, handle_sell_order_fill in H;
    obind H; obind H; obind H; obind H; apply opening_keeps in H3; destruct x2 as [p1 y];
    obind H; apply add_realized_keeps in H4; obind H; injection H as <-;
    etransitivity; [exact H3|]; etransitivity; [exact H4|]; apply keeps_same; by destruct (_ && _)).
Qed.

Lemma adjust_commission_keeps {E} p f r : adjust_commission (E := E) p f = Ok r -> keeps p r.
Proof.
  unfold adjust_commission. intros H. destruct (fl_commission f), (pp_base_currency p); try by injection H as <-.
  destruct (_ && _); [|by injection H as <-]. obind H. unfold commission_adjustment in H0. obind H0.
  injection H0 as H0. assert (Hc : pa_adjustment_type x = AdjCommission) by (by subst x).
  assert (Hp : pa_pnl_change x = None) by (by subst x). clear H0.
  unfold apply_adjustment in H. rewrite Hp in H. obind H. obind H. injection H2 as <-.
  assert (Hx : keeps p x1).
  { destruct (pa_quantity_change x); [|by injection H0 as <-]. obind H0. apply set_quantity_keeps in H0.
    etransitivity; [|exact H0]. by apply keeps_same. }
  injection H as <-. etransitivity; [exact Hx|]. split.
  - destruct (qty_is_zero _); [done|]. destruct (F64.gtb _ _); by destruct (bool_decide _).
  - intros Hall. unfold commissions_only. cbn [pp_adjustments set_field]. apply Forall_app. split; [|by constructor].
    destruct (qty_is_zero _); [done|]. destruct (F64.gtb _ _); by destruct (bool_decide _).
Qed.

Lemma apply_fill_keeps {E} p f r : apply_fill (E := E) p f = Ok r -> keeps p r.
Proof.
  unfold apply_fill. intros H. obind H. obind H. obind H. obind H. obind H. injection H as <-.
  apply add_commission_keeps in H0. apply handle_keeps in H2. apply adjust_commission_keeps in H3.
  apply set_quantity_keeps in H4.
  transitivity x3; [|apply keeps_same; unfold settle_side; by destruct (qty_is_zero _); [|destruct (F64.gtb _ _)]].
  etransitivity; [|exact H4]. etransitivity; [|exact H3]. etransitivity; [|exact H2].
  etransitivity; [|exact H0]. by apply keeps_same.
Qed.

Lemma reopen_statics {E} p f r :
  reopen (E := E) p f = Ok r ->
  statics r = statics p /\ commissions_only r /\ pp_side r = pp_side p /\ pp_signed_qty r = pp_signed_qty p /\
  pp_events r = [].
Proof.
  unfold reopen. intros H. obind H. obind H. obind H. obind H. injection H as <-.
  split_and!; try done. constructor.
Qed.

Lemma position_apply_statics {E} p f r :
  position_apply (E := E) p f = Ok r ->
  statics r = statics p /\ (pp_side p = Flat \/ commissions_only p -> commissions_only r).
Proof.
  unfold position_apply. intros H. obind H. obind H. apply apply_fill_keeps in H as [H2 H3].
  destruct (decide (pp_side p = Flat)) as [Hs|Hs].
  - rewrite bool_decide_true in H1 by done. apply reopen_statics in H1 as (? & ? & _). split; [congruence|auto].
  - rewrite bool_decide_false in H1 by done. injection H1 as <-. split; [done|naive_solver].
Qed.

(** ** The first fill of a flat position *)

(** Two flat positions of the same instrument are equal once reopened, up to
    what the fill overwrites. *)
Lemma reopen_same {E} p q f r :
  statics p = statics q -> pp_side p = pp_side q -> pp_signed_qty p = pp_signed_qty q ->
  reopen (E := E) p f = Ok r ->
  reopen (E := E) q f = Ok (tweak r (pp_entry q) (pp_quantity q) (pp_ts_last q)).
Proof.
  destruct p, q. intros Hst Hs Hq H. unfold statics in Hst. cbn in Hst, Hs, Hq. simplify_eq.
  unfold reopen in *. obind H. obind H. obind H. obind H. injection H as <-.
  cbn [pp_size_precision] in *. rewrite H0. cbn [mbind outcome_bind]. rewrite H3.
  cbn [mbind outcome_bind].
  assert (x0 = x) as -> by congruence. assert (x1 = x) as -> by congruence. done.
Qed.

Lemma first_fill_same {E} p q f r :
  pp_side p = Flat -> pp_side q = Flat -> pp_signed_qty p = F64.zero -> pp_signed_qty q = F64.zero ->
  statics p = statics q -> pp_trade_ids q = ∅ ->
  position_apply (E := E) p f = Ok r -> pp_side r <> Flat -> position_apply (E := E) q f = Ok r.
Proof.
  intros Hp Hq Zp Zq Hst Ht H Hr. unfold position_apply in *. obind H. obind H.
  rewrite (bool_decide_false (fl_trade_id f ∈ pp_trade_ids q)) by (rewrite Ht; apply not_elem_of_empty). cbn [negb assert_ mbind outcome_bind].
  rewrite bool_decide_true in H1 |- * by done.
  assert (Hs : pp_side p = pp_side q /\ pp_signed_qty p = pp_signed_qty q) by (by rewrite Hp, Hq, Zp, Zq).
  destruct Hs as [Hs Hz].
  rewrite (reopen_same p q f x0 Hst Hs Hz H1). cbn [mbind outcome_bind].
  apply reopen_statics in H1 as (_ & _ & _ & Hx & _). apply apply_fill_tweak; [by rewrite Hx|done|done].
Qed.

(** ** Segments: the fills since the position was last flat *)

Lemma events_log p q : log_of p = log_of q -> pp_events p = pp_events q.
Proof. unfold log_of. congruence. Qed.

Lemma apply_fill_events {E} p f r : apply_fill (E := E) p f = Ok r -> pp_events r = pp_events p ++ [f].
Proof.
  unfold apply_fill. intros H. obind H. obind H. obind H. obind H. obind H. injection H as <-.
  apply add_commission_log in H0. apply adjust_commission_log in H3. apply set_quantity_spec in H4 as (H4 & _).
  rewrite (events_log _ _ (settle_side_log x3 f)), (events_log _ _ H4), (events_log _ _ H3).
  apply events_log in H0. destruct x0;
    [apply handle_buy_log in H2 as (q & _ & Hl)|apply handle_sell_log in H2 as (q & _ & Hl)];
    unfold log_of in Hl; injection Hl as L2 _ _ _ _; by rewrite L2, H0.
Qed.

Lemma position_apply_events {E} p f r :
  position_apply (E := E) p f = Ok r ->
  pp_events r = if bool_decide (pp_side p = Flat) then [f] else pp_events p ++ [f].
Proof.
  unfold position_apply. intros H. obind H. obind H. apply apply_fill_events in H. rewrite H.
  destruct (decide (pp_side p = Flat)) as [Hs|Hs];
    [rewrite bool_decide_true in H1 |- * by done|rewrite bool_decide_false in H1 |- * by done].
  - apply reopen_statics in H1 as (_ & _ & _ & _ & ->). done.
  - by injection H1 as <-.
Qed.

Lemma apply_fills_snoc {E} fs f p q r :
  apply_fills (E := E) p fs = Ok q -> position_apply (E := E) q f = Ok r ->
  apply_fills (E := E) p (fs ++ [f]) = Ok r.
Proof.
  revert p. induction fs as [|g fs IH]; intros p Hq Hr; cbn in *.
  - injection Hq as ->. by rewrite Hr.
  - obind Hq. rewrite H. cbn. by apply IH.
Qed.

Record segment p0 f p1 fs p : Prop := {
  sg_flat : pp_side p0 = Flat;
  sg_zero : pp_signed_qty p0 = F64.zero;
  sg_static : statics p0 = statics p;
  sg_first : position_apply (E := Empty_set) p0 f = Ok p1;
  sg_rest : apply_fills (E := Empty_set) p1 fs = Ok p;
  sg_open : fs <> [] -> pp_side p1 <> Flat;
  sg_events : pp_events p = f :: fs;
  sg_commissions : commissions_only p;
}.

(** Positions built from fills alone. *)
Inductive fill_reach : Position Dec -> Prop :=
  | freach_new i f p : 0 <= iv_size_precision i ->
      position_new (E := Empty_set) i f = Ok p -> fill_reach p
  | freach_apply p f p' : fill_reach p -> position_apply (E := Empty_set) p f = Ok p' -> fill_reach p'.

Lemma fill_reach_reach p : fill_reach p -> pos_reach p.
Proof. induction 1; [by eapply reach_new|by eapply reach_apply]. Qed.

Lemma segment_start p0 f p1 :
  pp_side p0 = Flat -> pp_signed_qty p0 = F64.zero -> position_apply (E := Empty_set) p0 f = Ok p1 ->
  segment p0 f p1 [] p1.
Proof.
  intros Hs Hz H. pose proof (position_apply_events _ _ _ H) as He. rewrite bool_decide_true in He by done.
  destruct (position_apply_statics _ _ _ H) as [Hst Hc]. split; try done. by apply Hc; left.
Qed.

Lemma fill_reach_segment p : fill_reach p -> exists p0 f p1 fs, segment p0 f p1 fs p.
Proof.
  induction 1 as [i f p Hn H|p g p' Hr IH H].
  - unfold position_new in H. do 6 obind H. match type of H with position_apply ?p0 _ = _ =>
      exists p0, f, p, [] end. by apply segment_start.
  - apply fill_reach_reach, pos_reach_ok in Hr as [_ Hsd _].
    destruct (decide (pp_side p = Flat)) as [Hs|Hs].
    + exists p, g, p', []. apply segment_start; [done| |done]. unfold sided in Hsd. rewrite Hs in Hsd. apply Hsd.
    + destruct IH as (p0 & f & p1 & fs & []). exists p0, f, p1, (fs ++ [g]).
      pose proof (position_apply_events _ _ _ H) as He. rewrite bool_decide_false in He by done.
      destruct (position_apply_statics _ _ _ H) as [Hst Hc]. split; try done.
      * congruence.
      * by eapply apply_fills_snoc.
      * intros _. destruct fs; [by injection sg_rest0 as ->|by apply sg_open0].
      * by rewrite He, sg_events0.
      * by apply Hc; right.
Qed.

Lemma purge_reset_facts {E} p f r :
  purge_reset (E := E) p f = Ok r ->
  pp_side r = Flat /\ pp_signed_qty r = F64.zero /\ statics r = statics p /\ pp_trade_ids r = ∅.
Proof. unfold purge_reset. intros H. obind H. by injection H as <-. Qed.

(** What reopened the position also resets it. *)
Lemma purge_reset_total p0 p f p1 :
  pp_side p0 = Flat -> statics p0 = statics p -> position_apply (E := Empty_set) p0 f = Ok p1 ->
  exists r, purge_reset (E := Empty_set) p f = Ok r.
Proof.
  unfold position_apply, statics. intros Hs Hst H. obind H. obind H.
  rewrite bool_decide_true in H1 by done. unfold reopen in H1. obind H1.
  assert (pp_size_precision p = pp_size_precision p0) as Hn by congruence.
  unfold purge_reset. rewrite Hn, H2. by eexists.
Qed.

Lemma filter_none {A} (P : A -> bool) (l : list A) : Forall (fun x => P x = false) l -> List.filter P l = [].
Proof. induction 1 as [|x l Hx _ IH]; cbn; [done|by rewrite Hx]. Qed.
Lemma filter_every {A} (P : A -> bool) (l : list A) : Forall (fun x => P x = true) l -> List.filter P l = l.
Proof. induction 1 as [|x l Hx _ IH]; cbn; [done|]. rewrite Hx. by f_equal. Qed.

(** a position built from fills is determined by the fills it has recorded:
    purging an order without fills resets the position, applies the recorded
    fills again, and ends in exactly the same position, including average
    prices, profit, commissions and commission adjustments.  The position must
    be open, or have been opened by a fill before the one that closed it. *)
Theorem purge_unrelated_order p (id : ClientOrderId) :
  fill_reach p ->
  pp_side p <> Flat \/ (2 <= length (pp_events p))%nat ->
  Forall (fun e => h_client_order_id (fl_header e) <> id) (pp_events p) ->
  purge_events_for_order (E := Empty_set) p id = Ok p.
Proof.
  intros (p0 & f & p1 & fs & [])%fill_reach_segment Hopen Hid. unfold purge_events_for_order. cbv zeta.
  rewrite (filter_every _ (pp_events p)).
  2: { eapply Forall_impl; [exact Hid|]. intros e He. cbn. by rewrite bool_decide_false. }
  rewrite (filter_none _ (pp_adjustments p)).
  2: { eapply Forall_impl; [exact sg_commissions0|]. intros a Ha. cbn. by rewrite bool_decide_true. }
  rewrite sg_events0. destruct (purge_reset_total p0 p f p1) as [r Hr]; [done..|]. rewrite Hr.
  apply purge_reset_facts in Hr as (R1 & R2 & R3 & R4). cbn [mbind outcome_bind apply_fills].
  assert (H1 : pp_side p1 <> Flat).
  { destruct fs as [|g fs]; [|by apply sg_open0]. injection sg_rest0 as ->.
    destruct Hopen as [?|Hl]; [done|]. rewrite sg_events0 in Hl. cbn in Hl. lia. }
  rewrite (first_fill_same p0 r f p1); try done; [|congruence]. cbn [mbind outcome_bind].
  by rewrite sg_rest0.
Qed.
End Replay.

Section Witnesses.
#[local] Existing Instance standard_mode.
#[local] Instance pair_libs : PositionLibs (Z * Z) := {|
  dec_neg d := (- d.1, d.2);
  dec_to_f64 d := Some (F64.div (F64.of_Z d.1) (F64.of_Z (10 ^ d.2)));
  uuid_parse _ := repeat 0 16;
  uuid_print _ := "00000000-0000-4000-8000-000000000001"%string;
|}.
Definition btc : Currency := mkCurrency "BTC" 8 0 "Bitcoin" Crypto.
Definition pair_instrument : InstrumentView :=
  mkInstrument (mkInstrumentId "BTCUSD" "SIM") 2 3 (mkQty (10 ^ 9) 0) false true Spot (Some btc) usd.
Definition pair_fill (order trade : string) (s : OrderSide) (qty px : Z) : OrderFilled :=
  mkFilled (mkHeader "TRADER-001" "S-001" (mkInstrumentId "BTCUSD" "SIM") order "E-1" 5 5 false)
    "V-1" "SIM-001" trade s Market (mkQty (qty * 10 ^ 6) 3) (mkPrice (px * 10 ^ 7) 2) usd Taker
    (Some "P-1"%string) (Some (mkMoney (10 ^ 6) btc)).
(** Buy 2.000 at 100.00 and sell 0.500 at 101.50, with commissions in BTC. *)
Definition demo_position : outcome Empty_set (Position (Z * Z)) :=
  p ← position_new pair_instrument (pair_fill "O-1" "T-1" Buy 2000 10000);
  position_apply p (pair_fill "O-2" "T-2" Sell 500 10150).
Definition demo_check : bool :=
  match demo_position with
  | Ok p => is_long p && (length (pp_events p) =? 2)%nat &&
      forallb (fun e => negb (bool_decide (h_client_order_id (fl_header e) = "O-9"%string))) (pp_events p)
  | _ => false
  end.

Lemma demo_reach p : demo_position = Ok p -> fill_reach p.
Proof.
  unfold demo_position. intros H. obind H. eapply freach_apply; [|exact H].
  eapply freach_new; [|exact H0]. by vm_compute.
Qed.

Example position_invariant_witness :
  exists p, demo_position = Ok p /\ q_raw (pp_buy_qty p) = traded Buy (pp_events p) /\ sided p.
Proof.
  assert (Hc : demo_check = true) by (vm_compute; reflexivity). unfold demo_check in Hc.
  destruct demo_position as [p|[]|] eqn:Hp; [|discriminate Hc]. exists p. split; [reflexivity|].
  destruct (position_invariant p) as (H1 & _ & _ & _ & _ & H2 & _);
    [apply fill_reach_reach, demo_reach; exact Hp|]. split; [exact H2|exact H1].
Defined.

Example purge_unrelated_witness :
  exists p, demo_position = Ok p /\ purge_events_for_order (E := Empty_set) p "O-9" = Ok p.
Proof.
  assert (Hc : demo_check = true) by (vm_compute; reflexivity). unfold demo_check in Hc.
  destruct demo_position as [p|[]|] eqn:Hp; [|discriminate Hc]. exists p. split; [reflexivity|].
  apply andb_true_iff in Hc as [[Hl%bool_decide_eq_true _]%andb_true_iff Hf].
  apply purge_unrelated_order; [apply demo_reach; exact Hp|left; by rewrite Hl|].
  rewrite List.forallb_forall in Hf. apply Forall_forall. intros e He%list_elem_of_In.
  apply Hf, negb_true_iff, bool_decide_eq_false in He. exact He.
Defined.
End Witnesses.
