(* ===== verification/Glob.v ===== *)
(** * Topic patterns of the message bus ([crates/common/src/msgbus/matching.rs],
    [mstr.rs])

    A pattern matches a topic with [*] for any characters and [?] for exactly
    one.  The reference is the inductive relation [glob]; the program walks
    both strings with two indices and goes back to the last star on a
    mismatch. *)

From stdpp Require Import base numbers list strings.
From Stdlib Require Import Ascii Lia.
From S2P Require Import Prelude.

Open Scope nat_scope.

Definition star : ascii := "*"%char.
Definition question : ascii := "?"%char.

(** ** The program *)

(** [check_no_wildcards] *)
Definition check_no_wildcards (value : list ascii) : bool :=
  forallb (fun b => negb (bool_decide (b = star)) && negb (bool_decide (b = question))) value.

(** The state of the loop of [is_matching_greedy]. *)
Record greedy_state : Type := mkGreedy {
  gs_i : nat;
  gs_j : nat;
  gs_star_idx : option nat;
  gs_match_idx : nat;
}.

(** [while j < pattern.len() && pattern[j] == b'*'], then [j == pattern.len()]. *)
Fixpoint trailing_stars (rest : list ascii) : bool :=
  match rest with
  | [] => true
  | c :: rest => if bool_decide (c = star) then trailing_stars rest else false
  end.

(** One turn of the loop: the next state, or the result of [return false]. *)
Definition greedy_step (topic pattern : list ascii) (c : ascii) (s : greedy_state)
  : option greedy_state :=
  let '(mkGreedy i j star_idx match_idx) := s in
  match pattern !! j with
  | Some d =>
      if bool_decide (d = question) || bool_decide (d = c)
      then Some (mkGreedy (i + 1) (j + 1) star_idx match_idx)
      else if bool_decide (d = star) then Some (mkGreedy i (j + 1) (Some j) i)
      else
        match star_idx with
        | Some si => Some (mkGreedy (match_idx + 1) (si + 1) star_idx (match_idx + 1))
        | None => None
        end
  | None =>
      match star_idx with
      | Some si => Some (mkGreedy (match_idx + 1) (si + 1) star_idx (match_idx + 1))
      | None => None
      end
  end.

(** The loop; [None] when the fuel runs out. *)
Fixpoint greedy_loop (fuel : nat) (topic pattern : list ascii) (s : greedy_state) : option bool :=
  match fuel with
  | 0 => None
  | S fuel =>
      match topic !! gs_i s with
      | None => Some (trailing_stars (drop (gs_j s) pattern))
      | Some c =>
          match greedy_step topic pattern c s with
          | Some s => greedy_loop fuel topic pattern s
          | None => Some false
          end
      end
  end.

(** Each turn consumes pattern or moves the match start: this many suffice. *)
Definition greedy_fuel (topic pattern : list ascii) : nat :=
  S ((length topic + 1) * (length pattern + 1)).

Definition is_matching_greedy (topic pattern : list ascii) : option bool :=
  greedy_loop (greedy_fuel topic pattern) topic pattern (mkGreedy 0 0 None 0).

Definition is_matching (topic pattern : list ascii) : option bool :=
  if bool_decide (length topic = length pattern) &&
     negb (bool_decide (star ∈ pattern)) && negb (bool_decide (question ∈ pattern))
  then Some (bool_decide (topic = pattern))
  else is_matching_greedy topic pattern.

(** [is_matching_backtracking]; the walk never runs out of fuel
    ([is_matching_glob]). *)
Definition is_matching_backtracking (topic pattern : list ascii) : bool :=
  default false (is_matching topic pattern).

(** ** The reference *)

Inductive glob : list ascii -> list ascii -> Prop :=
  | glob_nil : glob [] []
  | glob_any c p t : glob p t -> glob (question :: p) (c :: t)
  | glob_char c p t : c <> star -> glob p t -> glob (c :: p) (c :: t)
  | glob_skip p t : glob p t -> glob (star :: p) t
  | glob_take c p t : glob (star :: p) t -> glob (star :: p) (c :: t).

Lemma star_question : question <> star.
Proof. done. Qed.

(** One character of a pattern against one of a topic. *)
Definition fits (d c : ascii) : Prop := d = question \/ d = c.

Lemma glob_cons d p t :
  d <> star -> glob (d :: p) t <-> exists c t', t = c :: t' /\ fits d c /\ glob p t'.
Proof.
  intros Hd. split.
  - inversion 1; subst; try done; unfold fits; eauto 6.
  - intros (c & t' & -> & [->| ->] & H); [by constructor|by apply glob_char].
Qed.

Lemma glob_nil_inv t : glob [] t <-> t = [].
Proof. split; [by inversion 1|intros ->; constructor]. Qed.

Lemma glob_star p t : glob (star :: p) t <-> exists k, k <= length t /\ glob p (drop k t).
Proof.
  split.
  - remember (star :: p) as q eqn:Eq. induction 1; simplify_eq.
    + exists 0. split; [lia|done].
    + destruct (IHglob eq_refl) as (k & Hk & Hg). exists (S k). cbn. split; [lia|done].
  - intros (k & Hk & Hg). revert t Hk Hg. induction k as [|k IH]; intros t Hk Hg; [by constructor|].
    destruct t as [|c t]; cbn in *; [lia|]. apply glob_take, IH; [lia|done].
Qed.

Lemma glob_seg seg p t :
  star ∉ seg -> glob (seg ++ p) t -> length seg <= length t /\ glob p (drop (length seg) t).
Proof.
  revert t. induction seg as [|d seg IH]; intros t Hs Hg; [split; [cbn; lia|done]|].
  apply not_elem_of_cons in Hs as [Hd Hs]. cbn in Hg. apply glob_cons in Hg as (c & t' & -> & _ & Hg); [|done].
  destruct (IH t' Hs Hg). cbn. split; [lia|done].
Qed.

Lemma glob_end p : glob p [] <-> trailing_stars p = true.
Proof.
  induction p as [|d p IH]; cbn; [by rewrite glob_nil_inv|]. case_bool_decide as E; [subst d|].
  - rewrite glob_star, <- IH. split; [intros (k & _ & H); by rewrite drop_nil in H|]. intros H. by exists 0.
  - rewrite glob_cons by done. split; [by intros (? & ? & ? & _)|done].
Qed.

(** A pattern without wildcards matches itself only. *)
Lemma glob_literal p t : star ∉ p -> question ∉ p -> glob p t <-> t = p.
Proof.
  revert t. induction p as [|d p IH]; intros t Hs Hq; [by rewrite glob_nil_inv|].
  apply not_elem_of_cons in Hs as [Hd Hs]. apply not_elem_of_cons in Hq as [Hd' Hq].
  rewrite glob_cons by done. split.
  - intros (c & t' & -> & [E| ->] & Hg); [done|]. apply IH in Hg; [|done..]. by subst.
  - intros ->. exists d, p. split_and!; [done|by right|by apply IH].
Qed.

(** ** The walk implements the reference *)

Section walk.
Context (T P : list ascii) (HT : star ∉ T).

(** What the walk still has to decide: the rest of the pattern on the rest of
    the topic, or the part after the last star at a later position. *)
Definition pending (s : greedy_state) : Prop :=
  glob (drop (gs_j s) P) (drop (gs_i s) T) \/
  match gs_star_idx s with
  | None => False
  | Some si => exists k, gs_match_idx s < k <= length T /\ glob (drop (si + 1) P) (drop k T)
  end.

(** The part of the pattern between the last star and [j] has no star and is as
    long as the part of the topic it was compared with. *)
Definition seg_ok (s : greedy_state) : Prop :=
  match gs_star_idx s with
  | None => True
  | Some si =>
      si + 1 <= gs_j s /\
      exists seg, (star ∉ seg) /\ drop (si + 1) P = seg ++ drop (gs_j s) P /\
        gs_i s = gs_match_idx s + length seg
  end.

Record walk_inv (s : greedy_state) : Prop := {
  wi_i : gs_i s <= length T;
  wi_j : gs_j s <= length P;
  wi_m : gs_match_idx s <= gs_i s;
  wi_seg : seg_ok s;
  wi_pending : (glob P T) <-> pending s;
}.

Definition walk_measure (s : greedy_state) : nat :=
  (length T - gs_match_idx s) * (length P + 1) + (length P - gs_j s).

Lemma walk_inv_start : walk_inv (mkGreedy 0 0 None 0).
Proof. split; cbn; [lia..|done|]. unfold pending. cbn. tauto. Qed.

Lemma fits_step d c p t :
  c <> star -> fits d c -> glob (d :: p) (c :: t) <-> glob p t.
Proof.
  intros Hc Hf. assert (d <> star) by (destruct Hf; subst; done).
  rewrite glob_cons by done. split; [intros (? & ? & ? & _ & ?); by simplify_eq|eauto].
Qed.

(** At a star the alternatives of the star before it are subsumed. *)
Lemma pending_star s :
  seg_ok s -> P !! gs_j s = Some star -> gs_i s <= length T ->
  pending s <-> pending (mkGreedy (gs_i s) (gs_j s + 1) (Some (gs_j s)) (gs_i s)).
Proof.
  intros Hseg Hj Hi. set (q := drop (gs_j s + 1) P).
  assert (Hd : drop (gs_j s) P = star :: q) by (unfold q; rewrite Nat.add_1_r; by apply drop_S).
  transitivity (glob (star :: q) (drop (gs_i s) T)).
  - unfold pending. rewrite Hd. split; [|by left]. intros [H|H]; [done|].
    unfold seg_ok in Hseg. destruct (gs_star_idx s) as [si|]; [|done].
    destruct Hseg as (_ & seg & Hs & Es & El), H as (k & Hk & Hg). rewrite Es, Hd in Hg.
    apply glob_seg in Hg as [Hlen Hg]; [|done]. rewrite drop_drop in Hg. rewrite length_drop in Hlen.
    apply glob_star in Hg as (k' & Hk' & Hg). rewrite drop_drop in Hg. rewrite length_drop in Hk'.
    apply glob_star. exists (k + length seg + k' - gs_i s). rewrite length_drop. split; [lia|].
    rewrite drop_drop. by replace (gs_i s + _) with (k + length seg + k') by lia.
  - rewrite glob_star. unfold pending; cbn. fold q. split.
    + intros (k & Hk & Hg). rewrite length_drop in Hk. rewrite drop_drop in Hg.
      destruct k as [|k]; [left; by rewrite Nat.add_0_r in Hg|].
      right. exists (gs_i s + S k). split; [lia|done].
    + intros [Hg|(k & Hk & Hg)]; [exists 0; split; [lia|done]|].
      exists (k - gs_i s). rewrite length_drop, drop_drop. split; [lia|].
      by replace (gs_i s + (k - gs_i s)) with k by lia.
Qed.

(** On a mismatch the walk goes on one character after the last start. *)
Lemma pending_back s si :
  gs_star_idx s = Some si -> gs_match_idx s < length T ->
  ~ glob (drop (gs_j s) P) (drop (gs_i s) T) ->
  pending s <-> pending (mkGreedy (gs_match_idx s + 1) (si + 1) (Some si) (gs_match_idx s + 1)).
Proof.
  intros Es Hm Hno. unfold pending. rewrite Es. cbn. split.
  - intros [?|(k & Hk & Hg)]; [done|]. destruct (decide (k = gs_match_idx s + 1)) as [->|]; [by left|].
    right. exists k. split; [lia|done].
  - intros [Hg|(k & Hk & Hg)]; right; eexists; (split; [|exact Hg]); lia.
Qed.

Lemma walk_back s si :
  walk_inv s -> gs_star_idx s = Some si -> gs_i s < length T ->
  ~ glob (drop (gs_j s) P) (drop (gs_i s) T) ->
  let s' := mkGreedy (gs_match_idx s + 1) (si + 1) (Some si) (gs_match_idx s + 1) in
  walk_inv s' /\ walk_measure s' < walk_measure s.
Proof.
  intros [Hi Hj Hm Hseg Hp] Es Hlt Hno s'.
  assert (Hsi : si + 1 <= gs_j s) by (unfold seg_ok in Hseg; rewrite Es in Hseg; tauto).
  split.
  - split; cbn; [lia..| |].
    + split; [cbn; lia|]. exists []. split_and!; [apply not_elem_of_nil|done|cbn; lia].
    + rewrite Hp. apply pending_back; [done|lia|done].
  - unfold walk_measure; cbn. nia.
Qed.

Lemma walk_fit s c d :
  walk_inv s -> T !! gs_i s = Some c -> c <> star -> P !! gs_j s = Some d -> fits d c ->
  let s' := mkGreedy (gs_i s + 1) (gs_j s + 1) (gs_star_idx s) (gs_match_idx s) in
  walk_inv s' /\ walk_measure s' < walk_measure s.
Proof.
  intros [Hi Hj Hm Hseg Hp] Hc Hcs Hd Hf s'.
  pose proof (lookup_lt_Some _ _ _ Hc). pose proof (lookup_lt_Some _ _ _ Hd).
  pose proof (drop_S _ _ _ Hc) as Ht. pose proof (drop_S _ _ _ Hd) as Hq.
  split; [|unfold walk_measure; cbn; lia]. split; cbn; [lia..| |].
  - unfold seg_ok in *. cbn. destruct (gs_star_idx s) as [si|]; [|done].
    destruct Hseg as (? & seg & Hs & Es & El). split; [lia|]. exists (seg ++ [d]).
    rewrite Es, Hq, Nat.add_1_r, <- app_assoc, length_app. cbn. split_and!; [|done|lia].
    rewrite elem_of_app, list_elem_of_singleton. destruct Hf; intros [?| ?]; subst; done.
  - rewrite Hp. unfold pending. cbn. rewrite Hq, Ht, !Nat.add_1_r. by rewrite fits_step.
Qed.

Lemma walk_star s :
  walk_inv s -> gs_i s < length T -> P !! gs_j s = Some star ->
  let s' := mkGreedy (gs_i s) (gs_j s + 1) (Some (gs_j s)) (gs_i s) in
  walk_inv s' /\ walk_measure s' < walk_measure s.
Proof.
  intros [Hi Hj Hm Hseg Hp] Hlt Hd s'. pose proof (lookup_lt_Some _ _ _ Hd).
  split; [|unfold walk_measure; cbn; nia]. split; cbn; [lia..| |].
  - split; [done|]. exists []. split_and!; [apply not_elem_of_nil|done|cbn; lia].
  - rewrite Hp. by apply pending_star.
Qed.

(** A turn keeps what is pending and lowers the measure, or refutes the match. *)
Lemma walk_step s c :
  walk_inv s -> T !! gs_i s = Some c ->
  match greedy_step T P c s with
  | Some s' => walk_inv s' /\ walk_measure s' < walk_measure s
  | None => ~ glob P T
  end.
Proof.
  intros Hinv Hc. pose proof (lookup_lt_Some _ _ _ Hc) as Hlt.
  assert (Hcs : c <> star) by (intros ->; by apply HT, (list_elem_of_lookup_2 _ _ _ Hc)).
  pose proof (drop_S _ _ _ Hc) as Ht.
  assert (Hback : ~ glob (drop (gs_j s) P) (drop (gs_i s) T) ->
    match
      match gs_star_idx s with
      | Some si => Some (mkGreedy (gs_match_idx s + 1) (si + 1) (gs_star_idx s) (gs_match_idx s + 1))
      | None => None
      end
    with
    | Some s' => walk_inv s' /\ walk_measure s' < walk_measure s
    | None => ~ glob P T
    end).
  { intros Hno. destruct (gs_star_idx s) as [si|] eqn:Es; [by apply walk_back|].
    rewrite (wi_pending _ Hinv). unfold pending. rewrite Es. tauto. }
  destruct s as [i j st mi]. cbn in *. destruct (P !! j) as [d|] eqn:Hd.
  - pose proof (lookup_lt_Some _ _ _ Hd) as Hlj. pose proof (drop_S _ _ _ Hd) as Hp.
    destruct (decide (fits d c)) as [Hf|Hf].
    + replace (bool_decide (d = question) || bool_decide (d = c)) with true.
      2: { symmetry. apply orb_true_iff. rewrite !bool_decide_eq_true. exact Hf. }
      by apply (walk_fit (mkGreedy i j st mi) c d).
    + replace (bool_decide (d = question) || bool_decide (d = c)) with false.
      2: { symmetry. apply orb_false_iff. rewrite !bool_decide_eq_false. unfold fits in Hf. tauto. }
      case_bool_decide as E; [subst d; by apply (walk_star (mkGreedy i j st mi))|].
      apply Hback. rewrite Hp, Ht, glob_cons by done. intros (? & ? & ? & ? & _). by simplify_eq.
  - apply Hback. rewrite (drop_ge P) by (by apply lookup_ge_None). rewrite glob_nil_inv, Ht. done.
Qed.

Lemma walk_end s :
  walk_inv s -> T !! gs_i s = None -> trailing_stars (drop (gs_j s) P) = true <-> (glob P T).
Proof.
  intros [Hi Hj Hm Hseg Hp] Hn. apply lookup_ge_None in Hn.
  rewrite Hp, <- glob_end. unfold pending. rewrite (drop_ge T (gs_i s)) by done.
  split; [by left|]. intros [H|H]; [done|]. exfalso. unfold seg_ok in Hseg.
  destruct (gs_star_idx s) as [si|]; [|done].
  destruct Hseg as (_ & seg & Hs & Es & El), H as (k & Hk & Hg). rewrite Es in Hg.
  apply glob_seg in Hg as [Hlen _]; [|done]. rewrite length_drop in Hlen. lia.
Qed.

Lemma greedy_loop_correct fuel s :
  walk_inv s -> walk_measure s < fuel ->
  exists b, greedy_loop fuel T P s = Some b /\ (b = true <-> glob P T).
Proof.
  revert s. induction fuel as [|fuel IH]; intros s Hinv Hf; [lia|]. cbn.
  destruct (T !! gs_i s) as [c|] eqn:Hc; [|eexists; split; [done|by apply walk_end]].
  pose proof (walk_step s c Hinv Hc) as Hstep. destruct (greedy_step T P c s) as [s'|].
  - destruct Hstep. apply IH; [done|lia].
  - exists false. split; [done|]. split; [done|tauto].
Qed.
End walk.

Lemma is_matching_glob topic pattern :
  star ∉ topic ->
  exists b, is_matching topic pattern = Some b /\ (b = true <-> glob pattern topic).
Proof.
  intros HT. unfold is_matching. destruct (_ && _ && _) eqn:E.
  - apply andb_prop in E as [E Hq]. apply andb_prop in E as [_ Hs].
    apply negb_true_iff, bool_decide_eq_false in Hq, Hs.
    eexists. split; [done|]. rewrite bool_decide_eq_true. symmetry. by apply glob_literal.
  - apply greedy_loop_correct; [done|apply walk_inv_start|].
    unfold walk_measure, greedy_fuel; cbn. lia.
Qed.

(** What [MStr::topic] checks is what the matcher needs. *)
Lemma no_wildcards_no_star topic : check_no_wildcards topic = true -> star ∉ topic.
Proof.
  unfold check_no_wildcards. rewrite forallb_forall. intros H Hin.
  apply list_elem_of_In in Hin. by specialize (H _ Hin).
Qed.

(** The topic matcher of the message bus always returns, and for every topic
    that passes the check of [MStr::topic] it returns [true] exactly when the
    pattern denotes the topic ([*] any characters, [?] exactly one byte): the
    walk with one remembered star decides the reference relation within its
    fuel, and the fast path for patterns without wildcards agrees with it. *)
Theorem is_matching_correct topic pattern :
  check_no_wildcards topic = true ->
  exists b, is_matching topic pattern = Some b /\ (b = true <-> glob pattern topic).
Proof. intros H. by apply is_matching_glob, no_wildcards_no_star. Qed.

Definition topic_quotes : list ascii := String.list_ascii_of_string "data.quotes.XCME.ESZ5".
Definition pattern_quotes : list ascii := String.list_ascii_of_string "data.*.X?ME.*5*".

Lemma is_matching_correct_witness :
  check_no_wildcards topic_quotes = true /\ is_matching topic_quotes pattern_quotes = Some true /\
  exists b, is_matching topic_quotes pattern_quotes = Some b /\ (b = true <-> glob pattern_quotes topic_quotes).
Proof.
  split; [vm_compute; reflexivity|]. split; [vm_compute; reflexivity|].
  apply (is_matching_correct topic_quotes pattern_quotes). vm_compute. reflexivity.
Defined.
