(* ===== verification/Router.v ===== *)
(** * Publish/subscribe routing ([crates/common/src/msgbus/typed_router.rs],
    [core.rs], [api.rs])

    The typed router keeps its subscriptions in a sorted vector and caches, per
    topic, the indices of the subscriptions that match.  The Any-based bus keeps
    an unordered set and caches, per topic, the sorted matching subscriptions
    themselves, updating the cached lists in place.  A handler is an element of
    a type with an id; publishing yields the handlers called, in order. *)

From stdpp Require Import base numbers list strings gmap sorting.
From Stdlib Require Import Ascii Lia.
From S2P Require Import Prelude Maps Glob.

Open Scope nat_scope.

Definition ustr : Type := list ascii.

(** The order of the interned strings ([ustr] crate): a total order. *)
Class UstrOrd : Type := {
  ustr_cmp : ustr -> ustr -> comparison;
  ustr_cmp_eq x y : ustr_cmp x y = Eq <-> x = y;
  ustr_cmp_flip x y : ustr_cmp y x = CompOpp (ustr_cmp x y);
  ustr_cmp_trans x y z : ustr_cmp x y = Lt -> ustr_cmp y z = Lt -> ustr_cmp x z = Lt;
}.

(** The handlers ([TypedHandler]): anything with an id. *)
Class Handler (H : Type) : Type := handler_id_of : H -> ustr.

Record TypedSubscription (H : Type) : Type := mkSub {
  sub_handler : H;
  sub_handler_id : ustr;
  sub_pattern : ustr;
  sub_priority : N;
}.
Arguments mkSub {H} _ _ _ _.
Arguments sub_handler {H} _.
Arguments sub_handler_id {H} _.
Arguments sub_pattern {H} _.
Arguments sub_priority {H} _.

(** [TopicRouter<T>] *)
Record TopicRouter (H : Type) : Type := mkRouter {
  r_subscriptions : list (TypedSubscription H);
  r_topic_cache : list (ustr * list nat);
}.
Arguments mkRouter {H} _ _.
Arguments r_subscriptions {H} _.
Arguments r_topic_cache {H} _.

(** The Any-based part of [MessageBus]: the set of subscriptions as the list of
    its elements, the cache of a topic's sorted matches, the counters. *)
Record AnyBus (H : Type) : Type := mkAnyBus {
  b_subscriptions : list (TypedSubscription H);
  b_topics : list (ustr * list (TypedSubscription H));
  b_endpoints : list (ustr * H);
  b_correlation_index : list (Z * H);
  b_sent_count : Z;
  b_req_count : Z;
  b_res_count : Z;
  b_pub_count : Z;
}.
Arguments mkAnyBus {H} _ _ _ _ _ _ _ _.
Arguments b_subscriptions {H} _.
Arguments b_topics {H} _.
Arguments b_endpoints {H} _.
Arguments b_correlation_index {H} _.
Arguments b_sent_count {H} _.
Arguments b_req_count {H} _.
Arguments b_res_count {H} _.
Arguments b_pub_count {H} _.

Section operations.
Context {H : Type} {Hid : Handler H} {UO : UstrOrd}.
Abbreviation sub := (TypedSubscription H).

(** [TypedSubscription::new] *)
Definition sub_new (pattern : ustr) (handler : H) (priority : option N) : sub :=
  mkSub handler (handler_id_of handler) pattern (default 0%N priority).

(** [PartialEq]: pattern and handler id. *)
Definition sub_eqb (a b : sub) : bool :=
  bool_decide (sub_pattern a = sub_pattern b) && bool_decide (sub_handler_id a = sub_handler_id b).

Definition then_with (c d : comparison) : comparison := match c with Eq => d | _ => c end.

(** [Ord]: higher priority first, then pattern, then handler id. *)
Definition sub_cmp (a b : sub) : comparison :=
  then_with (then_with (N.compare (sub_priority b) (sub_priority a))
                       (ustr_cmp (sub_pattern a) (sub_pattern b)))
            (ustr_cmp (sub_handler_id a) (sub_handler_id b)).

Definition sub_le (a b : sub) : Prop := sub_cmp a b <> Gt.

#[global] Instance sub_le_dec a b : Decision (sub_le a b).
Proof. unfold sub_le. destruct (sub_cmp a b); [left|left|right]; naive_solver. Defined.

(** [slice::sort]: a stable merge sort. *)
Definition sort_subs : list sub -> list sub := merge_sort sub_le.

(** *** The typed router *)

Definition router_new : TopicRouter H := mkRouter [] [].

Definition router_subscribe (r : TopicRouter H) (pattern : ustr) (handler : H) (priority : N)
  : TopicRouter H :=
  let s := sub_new pattern handler (Some priority) in
  if existsb (fun s' => sub_eqb s' s) (r_subscriptions r) then r
  else mkRouter (sort_subs (r_subscriptions r ++ [s])) [].

(** [|s| s.pattern == pattern && s.handler_id == handler_id] *)
Definition sub_is (pattern id : ustr) (s : sub) : bool :=
  bool_decide (sub_pattern s = pattern) && bool_decide (sub_handler_id s = id).

(** [Iterator::position] and [Vec::remove] *)
Fixpoint position {A} (f : A -> bool) (l : list A) : option nat :=
  match l with
  | [] => None
  | x :: l => if f x then Some 0 else S <$> position f l
  end.

Definition router_unsubscribe (r : TopicRouter H) (pattern : ustr) (handler : H) : TopicRouter H :=
  match position (sub_is pattern (handler_id_of handler)) (r_subscriptions r) with
  | Some idx => mkRouter (delete idx (r_subscriptions r)) []
  | None => r
  end.

Definition router_remove_handler (r : TopicRouter H) (pattern handler_id : ustr) : TopicRouter H :=
  match position (sub_is pattern handler_id) (r_subscriptions r) with
  | Some idx => mkRouter (delete idx (r_subscriptions r)) []
  | None => r
  end.

Definition router_is_subscribed (r : TopicRouter H) (pattern : ustr) (handler : H) : bool :=
  existsb (sub_is pattern (handler_id_of handler)) (r_subscriptions r).

(** [iter().enumerate().filter_map(..)], from index [idx]. *)
Fixpoint matching_from (idx : nat) (topic : ustr) (subs : list sub) : list nat :=
  match subs with
  | [] => []
  | s :: subs =>
      if is_matching_backtracking topic (sub_pattern s) then idx :: matching_from (S idx) topic subs
      else matching_from (S idx) topic subs
  end.

Definition find_matches (r : TopicRouter H) (topic : ustr) : list nat :=
  matching_from 0 topic (r_subscriptions r).

Definition get_matching_indices (r : TopicRouter H) (topic : ustr) : option (list nat) :=
  ix_get topic (r_topic_cache r).

Definition router_has_subscribers (r : TopicRouter H) (topic : ustr) : bool :=
  match get_matching_indices r topic with
  | None => negb (bool_decide (find_matches r topic = []))
  | Some indices => negb (bool_decide (indices = []))
  end.

Definition router_subscriber_count (r : TopicRouter H) (topic : ustr) : nat :=
  match get_matching_indices r topic with
  | None => length (find_matches r topic)
  | Some indices => length indices
  end.

Definition router_exact_subscriber_count (r : TopicRouter H) (topic : ustr) : nat :=
  length (List.filter (fun s => bool_decide (sub_pattern s = topic)) (r_subscriptions r)).

(** [topic_cache.entry(topic).or_insert_with(..)] *)
Definition cache_entry (r : TopicRouter H) (topic : ustr) : list nat * TopicRouter H :=
  match ix_get topic (r_topic_cache r) with
  | Some indices => (indices, r)
  | None =>
      let indices := find_matches r topic in
      (indices, mkRouter (r_subscriptions r) (ix_insert topic indices (r_topic_cache r)))
  end.

(** [subscriptions[idx].handler] for each index; [None] is the panic on an index
    out of bounds. *)
Fixpoint handlers_at (subs : list sub) (indices : list nat) : option (list H) :=
  match indices with
  | [] => Some []
  | idx :: indices =>
      s ← subs !! idx;
      hs ← handlers_at subs indices;
      Some (sub_handler s :: hs)
  end.

(** [publish]: the handlers called, in order. *)
Definition router_publish (r : TopicRouter H) (topic : ustr) : option (list H * TopicRouter H) :=
  let '(indices, r') := cache_entry r topic in
  hs ← handlers_at (r_subscriptions r) indices;
  Some (hs, r').

Definition get_or_compute_matching_indices (r : TopicRouter H) (topic : ustr)
  : option (list nat * TopicRouter H) :=
  let r' :=
    if bool_decide (is_Some (ix_get topic (r_topic_cache r))) then r
    else mkRouter (r_subscriptions r) (ix_insert topic (find_matches r topic) (r_topic_cache r)) in
  indices ← ix_get topic (r_topic_cache r');
  Some (indices, r').

Definition get_matching_handlers (r : TopicRouter H) (topic : ustr)
  : option (list H * TopicRouter H) :=
  '(indices, r') ← get_or_compute_matching_indices r topic;
  hs ← handlers_at (r_subscriptions r') indices;
  Some (hs, r').

Definition fill_matching_handlers (r : TopicRouter H) (topic : ustr) (buf : list H)
  : option (list H * TopicRouter H) :=
  let '(indices, r') := cache_entry r topic in
  hs ← handlers_at (r_subscriptions r) indices;
  Some (buf ++ hs, r').

Definition router_clear (r : TopicRouter H) : TopicRouter H := mkRouter [] [].

(** *** The Any-based bus *)

(** The iteration order of the hash set is unspecified: [hash_iter] stands for
    it, and every statement holds for any permutation. *)
Context (hash_iter : list sub -> list sub).

Definition bus_new : AnyBus H := mkAnyBus [] [] [] [] 0 0 0 0.

Definition set_routes (b : AnyBus H) subs topics : AnyBus H :=
  mkAnyBus subs topics (b_endpoints b) (b_correlation_index b)
    (b_sent_count b) (b_req_count b) (b_res_count b) (b_pub_count b).

Definition subscribe_any (b : AnyBus H) (pattern : ustr) (handler : H) (priority : option N)
  : AnyBus H :=
  let s := sub_new pattern handler priority in
  if existsb (fun s' => sub_eqb s' s) (b_subscriptions b) then b
  else
    set_routes b (b_subscriptions b ++ [s])
      ((fun '(topic, subs) =>
          if is_matching_backtracking topic (sub_pattern s) then (topic, sort_subs (subs ++ [s]))
          else (topic, subs)) <$> b_topics b).

Definition unsubscribe_any (b : AnyBus H) (pattern : ustr) (handler : H) : AnyBus H :=
  let keep := fun s => negb (sub_is pattern (handler_id_of handler) s) in
  set_routes b (List.filter keep (b_subscriptions b))
    ((fun '(topic, subs) => (topic, List.filter keep subs)) <$> b_topics b).

Definition is_subscribed_any (b : AnyBus H) (pattern : ustr) (handler : H) : bool :=
  existsb (fun s' => sub_eqb s' (sub_new pattern handler None)) (b_subscriptions b).

Definition find_topic_matches (b : AnyBus H) (topic : ustr) : list sub :=
  List.filter (fun s => is_matching_backtracking topic (sub_pattern s)) (hash_iter (b_subscriptions b)).

Definition subscriptions_count (b : AnyBus H) (topic : ustr) : nat :=
  match ix_get topic (b_topics b) with
  | None => length (find_topic_matches b topic)
  | Some subs => length subs
  end.

Definition inner_matching_subscriptions (b : AnyBus H) (topic : ustr) : list sub * AnyBus H :=
  match ix_get topic (b_topics b) with
  | Some subs => (subs, b)
  | None =>
      let matches := sort_subs (find_topic_matches b topic) in
      (matches, set_routes b (b_subscriptions b) (ix_insert topic matches (b_topics b)))
  end.

Definition fill_matching_any_handlers (b : AnyBus H) (topic : ustr) (buf : list H)
  : list H * AnyBus H :=
  match ix_get topic (b_topics b) with
  | Some subs => (buf ++ (sub_handler <$> subs), b)
  | None =>
      let matches := sort_subs (find_topic_matches b topic) in
      (buf ++ (sub_handler <$> matches),
       set_routes b (b_subscriptions b) (ix_insert topic matches (b_topics b)))
  end.

(** [u64 += 1] *)
Definition count_up (n : Z) : Z := ((n + 1) mod 2 ^ 64)%Z.

Definition set_counts (b : AnyBus H) sent req res pub : AnyBus H :=
  mkAnyBus (b_subscriptions b) (b_topics b) (b_endpoints b) (b_correlation_index b) sent req res pub.

Definition increment_sent_count (b : AnyBus H) : AnyBus H :=
  set_counts b (count_up (b_sent_count b)) (b_req_count b) (b_res_count b) (b_pub_count b).
Definition increment_req_count (b : AnyBus H) : AnyBus H :=
  set_counts b (b_sent_count b) (count_up (b_req_count b)) (b_res_count b) (b_pub_count b).
Definition increment_res_count (b : AnyBus H) : AnyBus H :=
  set_counts b (b_sent_count b) (b_req_count b) (count_up (b_res_count b)) (b_pub_count b).
Definition increment_pub_count (b : AnyBus H) : AnyBus H :=
  set_counts b (b_sent_count b) (b_req_count b) (b_res_count b) (count_up (b_pub_count b)).

(** [publish_any]: the handlers are collected while the bus is borrowed and
    called after; the buffer taken from the thread-local slot is empty. *)
Definition publish_any (b : AnyBus H) (topic : ustr) : list H * AnyBus H :=
  let '(handlers, b) := fill_matching_any_handlers b topic [] in
  (handlers, increment_pub_count b).

Definition set_endpoints (b : AnyBus H) endpoints correlation : AnyBus H :=
  mkAnyBus (b_subscriptions b) (b_topics b) endpoints correlation
    (b_sent_count b) (b_req_count b) (b_res_count b) (b_pub_count b).

Definition register_any (b : AnyBus H) (endpoint : ustr) (handler : H) : AnyBus H :=
  set_endpoints b (ix_insert endpoint handler (b_endpoints b)) (b_correlation_index b).

Definition deregister_any (b : AnyBus H) (endpoint : ustr) : AnyBus H :=
  set_endpoints b (ix_shift_remove endpoint (b_endpoints b)) (b_correlation_index b).

Definition get_endpoint (b : AnyBus H) (endpoint : ustr) : option H := ix_get endpoint (b_endpoints b).

(** [send_any]: the handler called, if any. *)
Definition send_any (b : AnyBus H) (endpoint : ustr) : option H * AnyBus H :=
  let handler := get_endpoint b endpoint in
  (handler, match handler with Some _ => increment_sent_count b | None => b end).

(** [MessageBus::register_response_handler]: [None] when one is registered. *)
Definition register_response_handler (b : AnyBus H) (correlation_id : Z) (handler : H)
  : option (AnyBus H) :=
  match ix_get correlation_id (b_correlation_index b) with
  | Some _ => None
  | None =>
      Some (set_endpoints b (b_endpoints b) (ix_insert correlation_id handler (b_correlation_index b)))
  end.

Definition send_response (b : AnyBus H) (correlation_id : Z) : option H * AnyBus H :=
  (ix_get correlation_id (b_correlation_index b), increment_res_count b).

(** [dispose] *)
Definition bus_dispose (b : AnyBus H) : AnyBus H := mkAnyBus [] [] [] [] 0 0 0 0.
End operations.
