(* ===== verification/RouterSpec.v ===== *)
(** * What routing promises

    The abstract state is a finite map from pattern and handler id to the
    subscription.  Publishing a topic calls, once each and in order of priority,
    the handlers of exactly the subscriptions whose pattern denotes the topic.
    The typed router and the Any-based bus both refine it, so they deliver the
    same sequences, whatever the caches hold and whatever order the hash set
    iterates in. *)

From stdpp Require Import base numbers list strings gmap sorting.
From Stdlib Require Import Ascii Lia.
From S2P Require Import Prelude Maps Glob Router.

Open Scope nat_scope.

Section spec.
Context {H : Type} {Hid : Handler H} {UO : UstrOrd}.
Abbreviation sub := (TypedSubscription H).
Implicit Types a b s : sub.

Definition sub_key (s : sub) : ustr * ustr := (sub_pattern s, sub_handler_id s).
Definition sub_lt (a b : sub) : Prop := sub_cmp a b = Lt.

(** ** The order of subscriptions *)

Lemma then_with_eq (c d : comparison) : then_with c d = Eq <-> c = Eq /\ d = Eq.
Proof. destruct c, d; cbn; intuition congruence. Qed.

Lemma sub_cmp_eq a b : sub_cmp a b = Eq <-> sub_priority a = sub_priority b /\ sub_key a = sub_key b.
Proof.
  unfold sub_cmp, sub_key. rewrite !then_with_eq, N.compare_eq_iff, !ustr_cmp_eq.
  split; [intros [[-> ->] ->]; done|intros [-> E]; by simplify_eq].
Qed.

Lemma sub_cmp_flip a b : sub_cmp b a = CompOpp (sub_cmp a b).
Proof.
  unfold sub_cmp. rewrite (N.compare_antisym (sub_priority b)), (ustr_cmp_flip (sub_pattern a)),
    (ustr_cmp_flip (sub_handler_id a)).
  by destruct (_ ?= _)%N, (ustr_cmp (sub_pattern a) _), (ustr_cmp (sub_handler_id a) _).
Qed.

Lemma then_with_lt (c d : comparison) : then_with c d = Lt <-> c = Lt \/ (c = Eq /\ d = Lt).
Proof. destruct c, d; cbn; intuition congruence. Qed.

Lemma sub_lt_spec a b :
  sub_lt a b <->
  (sub_priority b < sub_priority a)%N \/
  sub_priority a = sub_priority b /\
    (ustr_cmp (sub_pattern a) (sub_pattern b) = Lt \/
     sub_pattern a = sub_pattern b /\ ustr_cmp (sub_handler_id a) (sub_handler_id b) = Lt).
Proof.
  unfold sub_lt, sub_cmp. rewrite !then_with_lt, then_with_eq, N.compare_lt_iff, N.compare_eq_iff, ustr_cmp_eq.
  intuition congruence.
Qed.

#[global] Instance sub_lt_trans : Transitive sub_lt.
Proof.
  intros a b c. rewrite !sub_lt_spec. intros [H1|[E1 H1]] [H2|[E2 H2]]; [left; lia..|]. right.
  split; [congruence|]. destruct H1 as [H1|[F1 H1]], H2 as [H2|[F2 H2]].
  - left. by eapply ustr_cmp_trans.
  - left. congruence.
  - left. congruence.
  - right. split; [congruence|]. by eapply ustr_cmp_trans.
Qed.

Lemma sub_lt_irrefl a : ~ sub_lt a a.
Proof. unfold sub_lt. by rewrite (proj2 (sub_cmp_eq a a)). Qed.

Lemma sub_le_lt a b : sub_le a b <-> sub_lt a b \/ (sub_priority a = sub_priority b /\ sub_key a = sub_key b).
Proof.
  unfold sub_le, sub_lt. rewrite <- sub_cmp_eq. destruct (sub_cmp a b); split; intuition congruence.
Qed.

#[global] Instance sub_le_total : Total (sub_le (H := H)).
Proof. intros a b. unfold sub_le. rewrite (sub_cmp_flip a b). destruct (sub_cmp a b); cbn; auto; by left. Qed.

Lemma sub_cmp_key_r a b (c : sub) : sub_priority b = sub_priority c -> sub_key b = sub_key c -> sub_cmp a b = sub_cmp a c.
Proof. unfold sub_cmp, sub_key. intros E F. simplify_eq. congruence. Qed.

#[global] Instance sub_le_trans : Transitive (sub_le (H := H)).
Proof.
  intros a b c. rewrite !sub_le_lt. intros [H1|[E1 F1]] [H2|[E2 F2]].
  - left. by etransitivity.
  - left. unfold sub_lt. by rewrite <- (sub_cmp_key_r a b c).
  - left. unfold sub_lt in *. rewrite sub_cmp_flip in H2 |- *. by rewrite (sub_cmp_key_r c a b).
  - right. split; congruence.
Qed.

Lemma nodup_key_sorted (l : list sub) :
  NoDup (sub_key <$> l) -> StronglySorted sub_le l -> StronglySorted sub_lt l.
Proof.
  induction l as [|a l IH]; intros Hnd Hs; [constructor|].
  apply StronglySorted_inv in Hs as [Hs Hf]. apply NoDup_cons in Hnd as [Ha Hnd].
  constructor; [by apply IH|]. rewrite Forall_forall in Hf |- *. intros b Hb.
  destruct (proj1 (sub_le_lt a b) (Hf b Hb)) as [?|[_ E]]; [done|]. destruct Ha.
  apply list_elem_of_fmap. by exists b.
Qed.

Lemma sort_subs_perm (l : list sub) : sort_subs l ≡ₚ l.
Proof. apply merge_sort_Permutation. Qed.

Lemma sort_subs_sorted (l : list sub) : NoDup (sub_key <$> l) -> StronglySorted sub_lt (sort_subs l).
Proof.
  intros Hnd. apply nodup_key_sorted; [by rewrite sort_subs_perm|]. apply (StronglySorted_merge_sort sub_le).
Qed.

Lemma sorted_filter (f : sub -> bool) (l : list sub) :
  StronglySorted sub_lt l -> StronglySorted sub_lt (List.filter f l).
Proof.
  induction 1 as [|a l Hs IH Hf]; cbn; [constructor|]. destruct (f a); [|done]. constructor; [done|].
  rewrite Forall_forall in Hf |- *. intros b Hb. apply Hf.
  rewrite list_elem_of_In, filter_In, <- list_elem_of_In in Hb. tauto.
Qed.

Lemma sorted_nodup (l : list sub) : StronglySorted sub_lt l -> NoDup l.
Proof.
  induction 1 as [|a l Hs IH Hf]; constructor; [|done]. intros Ha. rewrite Forall_forall in Hf.
  by apply (sub_lt_irrefl a), Hf.
Qed.

(** A strictly sorted list is determined by its elements. *)
Lemma sorted_unique (l1 l2 : list sub) :
  StronglySorted sub_lt l1 -> StronglySorted sub_lt l2 -> (forall s, s ∈ l1 <-> s ∈ l2) -> l1 = l2.
Proof.
  intros H1 H2 He. apply (StronglySorted_unique_strong sub_lt); [|done..|].
  - intros a b _ _ Hab Hba. exfalso. apply (sub_lt_irrefl a). by transitivity b.
  - apply NoDup_Permutation; [by apply sorted_nodup..|done].
Qed.

(** ** The specification *)

Abbreviation table := (gmap (ustr * ustr) sub).

Inductive op : Type :=
  | Subscribe (pattern : ustr) (handler : H) (priority : N)
  | Unsubscribe (pattern : ustr) (handler : H)
  | Publish (topic : ustr)
  | Clear.

Definition spec_next (m : table) (o : op) : table :=
  match o with
  | Subscribe p h n =>
      let s := sub_new p h (Some n) in
      if m !! sub_key s is Some _ then m else <[sub_key s := s]> m
  | Unsubscribe p h => delete (p, handler_id_of h) m
  | Publish _ => m
  | Clear => ∅
  end.

(** The handlers a publish calls. *)
Definition delivers (m : table) (topic : ustr) (hs : list H) : Prop :=
  exists subs, hs = sub_handler <$> subs /\ StronglySorted sub_lt subs /\
    forall s, s ∈ subs <-> m !! sub_key s = Some s /\ glob (sub_pattern s) topic.

Definition spec_out (m : table) (o : op) (out : list H) : Prop :=
  match o with
  | Publish topic => delivers m topic out
  | _ => out = []
  end.

Fixpoint spec_trace (m : table) (ops : list op) (outs : list (list H)) : Prop :=
  match ops, outs with
  | [], [] => True
  | o :: ops, out :: outs => spec_out m o out /\ spec_trace (spec_next m o) ops outs
  | _, _ => False
  end.

Definition topic_ok (o : op) : bool :=
  match o with Publish topic => check_no_wildcards topic | _ => true end.

Lemma delivers_unique m topic hs1 hs2 : delivers m topic hs1 -> delivers m topic hs2 -> hs1 = hs2.
Proof.
  intros (l1 & -> & S1 & M1) (l2 & -> & S2 & M2). f_equal. apply sorted_unique; [done..|].
  intros s. by rewrite M1, M2.
Qed.

Lemma spec_trace_unique m ops outs1 outs2 :
  spec_trace m ops outs1 -> spec_trace m ops outs2 -> outs1 = outs2.
Proof.
  revert m outs1 outs2. induction ops as [|o ops IH]; intros m [|a outs1] [|b outs2]; cbn; try done.
  intros [Ha H1] [Hb H2]. f_equal; [|by eapply IH].
  destruct o; cbn in *; [congruence| congruence | by eapply delivers_unique | congruence].
Qed.

(** ** Subscriptions as a table *)

Record tabulates (l : list sub) (m : table) : Prop := {
  tab_nodup : NoDup (sub_key <$> l);
  tab_elem s : s ∈ l <-> m !! sub_key s = Some s;
  tab_key k s : m !! k = Some s -> sub_key s = k;
}.

Lemma tabulates_nil : tabulates [] ∅.
Proof.
  split; [apply NoDup_nil_2| |].
  - intros s. rewrite lookup_empty. split; [by intros ?%elem_of_nil|done].
  - intros k s. by rewrite lookup_empty.
Qed.

Lemma tabulates_perm l l' m : l ≡ₚ l' -> tabulates l m -> tabulates l' m.
Proof. intros E [Hnd He Hk]. split; [by rewrite <- E|intros s; by rewrite <- E|done]. Qed.

Lemma sub_eqb_key a b : sub_eqb a b = true <-> sub_key a = sub_key b.
Proof.
  unfold sub_eqb, sub_key. rewrite andb_true_iff, !bool_decide_eq_true.
  split; [intros [-> ->]; done|intros E; by simplify_eq].
Qed.

Lemma tabulates_contains l m s :
  tabulates l m -> existsb (fun s' => sub_eqb s' s) l = true <-> is_Some (m !! sub_key s).
Proof.
  intros [Hnd He Hk]. rewrite existsb_exists. split.
  - intros (s' & Hin & E%sub_eqb_key). rewrite <- list_elem_of_In in Hin. exists s'. rewrite <- E. by apply He.
  - intros [s' Hs']. exists s'. pose proof (Hk _ _ Hs') as E. rewrite <- list_elem_of_In, He, E.
    split; [done|by apply sub_eqb_key].
Qed.

Lemma tabulates_insert l m s :
  tabulates l m -> m !! sub_key s = None -> tabulates (l ++ [s]) (<[sub_key s := s]> m).
Proof.
  intros [Hnd He Hk] Hs. split.
  - rewrite fmap_app. apply NoDup_app. split; [done|]. split; [|apply NoDup_singleton].
    intros k (s' & -> & Hs')%list_elem_of_fmap E. apply list_elem_of_singleton in E. cbn in E.
    apply He in Hs'. congruence.
  - intros s'. rewrite elem_of_app, list_elem_of_singleton, He. destruct (decide (sub_key s' = sub_key s)) as [E|E].
    + rewrite E, lookup_insert_eq. rewrite Hs. split; [intros [?|?]; congruence|intros [= ->]; by right].
    + rewrite lookup_insert_ne by done. split; [intros [?| ->]; done|by left].
  - intros k s' Hl. apply lookup_insert_Some in Hl as [[? ?]|[? ?]]; [congruence|by apply Hk].
Qed.

Lemma sub_is_key p i s : sub_is p i s = true <-> sub_key s = (p, i).
Proof.
  unfold sub_is, sub_key. rewrite andb_true_iff, !bool_decide_eq_true.
  split; [intros [-> ->]; done|intros E; by simplify_eq].
Qed.

Abbreviation keep p i := (fun s => negb (sub_is p i s)).

Lemma elem_of_keep p i (l : list sub) s : s ∈ List.filter (keep p i) l <-> s ∈ l /\ sub_key s <> (p, i).
Proof.
  rewrite !list_elem_of_In, filter_In. rewrite <- sub_is_key, negb_true_iff, not_true_iff_false. done.
Qed.

Lemma nodup_key_filter (f : sub -> bool) (l : list sub) :
  NoDup (sub_key <$> l) -> NoDup (sub_key <$> List.filter f l).
Proof.
  induction l as [|a l IH]; cbn; [done|]. rewrite NoDup_cons. intros [Ha Hl]. destruct (f a); [|by apply IH].
  cbn. constructor; [|by apply IH]. intros (b & E & Hb)%list_elem_of_fmap. destruct Ha.
  apply list_elem_of_fmap. exists b. split; [done|].
  rewrite list_elem_of_In, filter_In, <- list_elem_of_In in Hb. tauto.
Qed.

Lemma tabulates_delete l m p i : tabulates l m -> tabulates (List.filter (keep p i) l) (delete (p, i) m).
Proof.
  intros [Hnd He Hk]. split.
  - by apply nodup_key_filter.
  - intros s. rewrite elem_of_keep, He. destruct (decide (sub_key s = (p, i))) as [E|E].
    + rewrite E, lookup_delete_eq. split; [tauto|done].
    + rewrite lookup_delete_ne by done. tauto.
  - intros k s [_ Hs]%lookup_delete_Some. by apply Hk.
Qed.

(** [position] then [remove] is [retain] when the pair occurs at most once. *)
Lemma remove_position p i (l : list sub) :
  NoDup (sub_key <$> l) ->
  List.filter (keep p i) l =
    match position (sub_is p i) l with Some idx => delete idx l | None => l end.
Proof.
  induction l as [|a l IH]; cbn; [done|]. rewrite NoDup_cons. intros [Ha Hl]. destruct (sub_is p i a) eqn:E; cbn.
  - apply sub_is_key in E. rewrite IH by done. destruct (position _ l) as [idx|] eqn:Ep; [|done].
    exfalso. apply Ha. rewrite E. clear -Ep. revert idx Ep.
    induction l as [|b l IH]; cbn; [done|]. intros idx. destruct (sub_is p i b) eqn:Eb.
    + intros _. apply sub_is_key in Eb. rewrite Eb. left.
    + destruct (position _ l) as [j|]; [|done]. intros _. right. by eapply IH.
  - rewrite IH by done. by destruct (position _ l).
Qed.

(** ** Matching *)

Lemma matching_glob topic p :
  check_no_wildcards topic = true -> is_matching_backtracking topic p = true <-> (glob p topic).
Proof.
  intros Ht. unfold is_matching_backtracking.
  destruct (is_matching_glob topic p) as (b & -> & Hb); [by apply no_wildcards_no_star|done].
Qed.

Abbreviation matches topic := (fun s : sub => is_matching_backtracking topic (sub_pattern s)).

Lemma elem_of_matches topic (l : list sub) s :
  s ∈ List.filter (matches topic) l <-> s ∈ l /\ is_matching_backtracking topic (sub_pattern s) = true.
Proof. by rewrite !list_elem_of_In, filter_In. Qed.

Lemma handlers_at_matching (pre l : list sub) topic :
  handlers_at (pre ++ l) (matching_from (length pre) topic l) = Some (sub_handler <$> List.filter (matches topic) l).
Proof.
  revert pre. induction l as [|a l IH]; intros pre; [done|]. cbn.
  specialize (IH (pre ++ [a])). rewrite <- app_assoc, length_app, Nat.add_1_r in IH. cbn in IH.
  destruct (is_matching_backtracking _ _); [|exact IH]. cbn.
  rewrite lookup_app_r, Nat.sub_diag by done. cbn. by rewrite IH.
Qed.

(** ** The typed router refines the table *)

Record router_rel (r : TopicRouter H) (m : table) : Prop := {
  rr_sorted : StronglySorted sub_lt (r_subscriptions r);
  rr_tab : tabulates (r_subscriptions r) m;
  rr_cache topic indices : ix_get topic (r_topic_cache r) = Some indices -> indices = find_matches r topic;
}.

Lemma router_rel_fresh l m :
  StronglySorted sub_lt l -> tabulates l m -> router_rel (mkRouter l []) m.
Proof. by split. Qed.

Lemma router_cache_entry r m topic :
  router_rel r m ->
  exists r', cache_entry r topic = (find_matches r topic, r') /\ router_rel r' m /\
    r_subscriptions r' = r_subscriptions r.
Proof.
  intros [Hs Ht Hc]. unfold cache_entry. destruct (ix_get topic (r_topic_cache r)) as [ixs|] eqn:E.
  - apply Hc in E as ->. eexists. split; [done|]. by split; [split|].
  - eexists. split; [done|]. split; [|done]. split; [done..|]. cbn. intros t ixs. rewrite ix_get_insert.
    case_decide; [intros [= <-]; by subst|apply Hc].
Qed.

Lemma router_publish_spec r m topic :
  router_rel r m -> check_no_wildcards topic = true ->
  exists hs r', router_publish r topic = Some (hs, r') /\ delivers m topic hs /\ router_rel r' m.
Proof.
  intros Hr Ht. unfold router_publish. destruct (router_cache_entry r m topic Hr) as (r' & -> & Hr' & Es).
  unfold find_matches. pose proof (handlers_at_matching [] (r_subscriptions r) topic) as Hh. cbn in Hh. rewrite Hh.
  cbn. eexists _, _. split; [done|]. split; [|done]. destruct Hr as [Hs Htab _].
  eexists. split; [done|]. split; [by apply sorted_filter|]. intros s.
  by rewrite elem_of_matches, (tab_elem _ _ Htab), matching_glob.
Qed.

Definition router_step (r : TopicRouter H) (o : op) : option (list H * TopicRouter H) :=
  match o with
  | Subscribe p h n => Some ([], router_subscribe r p h n)
  | Unsubscribe p h => Some ([], router_unsubscribe r p h)
  | Publish topic => router_publish r topic
  | Clear => Some ([], router_clear r)
  end.

Lemma router_subscribe_rel r m p h n :
  router_rel r m -> router_rel (router_subscribe r p h n) (spec_next m (Subscribe p h n)).
Proof.
  intros Hr. pose proof (rr_tab _ _ Hr) as Ht. unfold router_subscribe, spec_next. set (s := sub_new p h (Some n)).
  pose proof (tabulates_contains _ _ s Ht) as Hc. destruct (existsb _ _).
  - destruct (proj1 Hc eq_refl) as [s' ->]. done.
  - destruct (m !! sub_key s) as [s'|] eqn:E; [by discriminate (proj2 Hc (mk_is_Some _ _ eq_refl))|].
    assert (Hi : tabulates (r_subscriptions r ++ [s]) (<[sub_key s := s]> m)) by by apply tabulates_insert.
    apply router_rel_fresh; [by apply sort_subs_sorted, (tab_nodup _ _ Hi)|].
    eapply tabulates_perm; [|exact Hi]. by rewrite sort_subs_perm.
Qed.

Lemma router_unsubscribe_rel r m p h :
  router_rel r m -> router_rel (router_unsubscribe r p h) (delete (p, handler_id_of h) m).
Proof.
  intros Hr. pose proof (rr_tab _ _ Hr) as Ht. unfold router_unsubscribe.
  pose proof (tabulates_delete _ _ p (handler_id_of h) Ht) as Hd.
  pose proof (sorted_filter (keep p (handler_id_of h)) _ (rr_sorted _ _ Hr)) as Hs.
  rewrite remove_position in Hd, Hs by apply (tab_nodup _ _ Ht).
  destruct (position _ _); [by apply router_rel_fresh|]. destruct Hr. by split.
Qed.

Lemma router_step_refines r m o :
  router_rel r m -> topic_ok o = true ->
  exists out r', router_step r o = Some (out, r') /\ spec_out m o out /\ router_rel r' (spec_next m o).
Proof.
  intros Hr Ho. destruct o; cbn in *.
  - eexists _, _. split; [done|]. split; [done|]. by apply router_subscribe_rel.
  - eexists _, _. split; [done|]. split; [done|]. by apply router_unsubscribe_rel.
  - by apply router_publish_spec.
  - eexists _, _. split; [done|]. split; [done|]. apply router_rel_fresh; [constructor|apply tabulates_nil].
Qed.

Fixpoint router_run (r : TopicRouter H) (ops : list op) : option (list (list H) * TopicRouter H) :=
  match ops with
  | [] => Some ([], r)
  | o :: ops =>
      '(out, r) ← router_step r o;
      '(outs, r) ← router_run r ops;
      Some (out :: outs, r)
  end.

Lemma router_run_refines r m ops :
  router_rel r m -> forallb topic_ok ops = true ->
  exists outs r', router_run r ops = Some (outs, r') /\ spec_trace m ops outs.
Proof.
  revert r m. induction ops as [|o ops IH]; intros r m Hr Ho; cbn; [by eexists [], _|].
  apply andb_prop in Ho as [Ho Hos]. destruct (router_step_refines r m o Hr Ho) as (out & r' & -> & Hout & Hr'). cbn.
  destruct (IH r' _ Hr' Hos) as (outs & r'' & -> & Ht). cbn. eexists (_ :: _), _. done.
Qed.

Lemma router_rel_new : router_rel router_new ∅.
Proof. apply router_rel_fresh; [constructor|apply tabulates_nil]. Qed.

(** ** The Any-based bus refines the table *)

Section any.
Context (hash_iter : list sub -> list sub) (hash_iter_perm : forall l, hash_iter l ≡ₚ l).

Record bus_rel (bu : AnyBus H) (m : table) : Prop := {
  br_tab : tabulates (b_subscriptions bu) m;
  br_sorted topic l : ix_get topic (b_topics bu) = Some l -> StronglySorted sub_lt l;
  br_cache topic l s : ix_get topic (b_topics bu) = Some l ->
    s ∈ l <-> s ∈ b_subscriptions bu /\ is_matching_backtracking topic (sub_pattern s) = true;
}.

(** Updating each cached list in place. *)
Lemma ix_get_map (f : ustr -> list sub -> list sub) topic (c : list (ustr * list sub)) :
  ix_get topic ((fun '(t, l) => (t, f t l)) <$> c) = f topic <$> ix_get topic c.
Proof.
  induction c as [|[t l] c IH]; [done|]. rewrite fmap_cons, !ix_get_cons, IH. by case_decide; subst.
Qed.

Lemma subscribe_any_rel bu m p h n :
  bus_rel bu m -> bus_rel (subscribe_any bu p h (Some n)) (spec_next m (Subscribe p h n)).
Proof.
  intros Hb. pose proof (br_tab _ _ Hb) as Ht. unfold subscribe_any, spec_next. set (s := sub_new p h (Some n)).
  pose proof (tabulates_contains _ _ s Ht) as Hc. destruct (existsb _ _).
  { destruct (proj1 Hc eq_refl) as [s' ->]. done. }
  destruct (m !! sub_key s) as [s'|] eqn:E; [by discriminate (proj2 Hc (mk_is_Some _ _ eq_refl))|]. clear Hc.
  assert (Hi : tabulates (b_subscriptions bu ++ [s]) (<[sub_key s := s]> m)) by by apply tabulates_insert.
  assert (Hfresh : s ∉ b_subscriptions bu) by (rewrite (tab_elem _ _ Ht), E; done).
  set (f t l := if is_matching_backtracking t (sub_pattern s) then sort_subs (l ++ [s]) else l).
  set (bu' := set_routes _ _ _).
  assert (Hmap : forall t, ix_get t (b_topics bu') = f t <$> ix_get t (b_topics bu)).
  { intros t. rewrite <- ix_get_map. unfold bu', f; cbn. f_equal. apply list_fmap_ext. intros _ [? ?] _.
    by destruct (is_matching_backtracking _ _). }
  assert (Hin : forall t l s', ix_get t (b_topics bu) = Some l ->
    s' ∈ f t l <-> s' ∈ b_subscriptions bu ++ [s] /\ is_matching_backtracking t (sub_pattern s') = true).
  { intros t l s' Hl. pose proof (br_cache _ _ Hb t l s' Hl) as Hm. unfold f.
    rewrite elem_of_app, list_elem_of_singleton. destruct (is_matching_backtracking t (sub_pattern s)) eqn:Em.
    - rewrite sort_subs_perm, elem_of_app, list_elem_of_singleton, Hm. naive_solver.
    - rewrite Hm. naive_solver congruence. }
  split; [exact Hi|..].
  - intros t l. rewrite Hmap. destruct (ix_get t (b_topics bu)) as [l0|] eqn:El; [|done]. intros [= <-].
    pose proof (br_sorted _ _ Hb t l0 El) as Hs0. unfold f. destruct (is_matching_backtracking _ _); [|done].
    apply sort_subs_sorted. rewrite fmap_app. apply NoDup_app. split; [|split].
    + apply (NoDup_fmap_2_strong sub_key); [|by apply sorted_nodup]. intros x y Hx Hy Exy.
      apply (br_cache _ _ Hb t l0 _ El) in Hx as [Hx _], Hy as [Hy _].
      apply (tab_elem _ _ Ht) in Hx, Hy. congruence.
    + intros k (s' & -> & Hs')%list_elem_of_fmap Ek. apply list_elem_of_singleton in Ek. cbn in Ek.
      apply (br_cache _ _ Hb t l0 _ El) in Hs' as [Hs' _]. apply (tab_elem _ _ Ht) in Hs'. congruence.
    + apply NoDup_singleton.
  - intros t l s'. rewrite Hmap. destruct (ix_get t (b_topics bu)) as [l0|] eqn:El; [|done]. intros [= <-]. by apply Hin.
Qed.

Lemma unsubscribe_any_rel bu m p h :
  bus_rel bu m -> bus_rel (unsubscribe_any bu p h) (delete (p, handler_id_of h) m).
Proof.
  intros [Ht Hs Hc]. set (i := handler_id_of h).
  assert (Hmap : forall t, ix_get t (b_topics (unsubscribe_any bu p h)) =
    List.filter (keep p i) <$> ix_get t (b_topics bu)).
  { intros t. exact (ix_get_map (fun _ => List.filter (keep p i)) t (b_topics bu)). }
  split.
  - by apply tabulates_delete.
  - intros t l. rewrite Hmap. destruct (ix_get t (b_topics bu)) as [l0|] eqn:El; [|done]. intros [= <-].
    by eapply sorted_filter, Hs.
  - intros t l s. rewrite Hmap. destruct (ix_get t (b_topics bu)) as [l0|] eqn:El; [|done]. intros [= <-].
    change (b_subscriptions (unsubscribe_any bu p h)) with (List.filter (keep p i) (b_subscriptions bu)).
    rewrite !elem_of_keep, (Hc t l0 s El). tauto.
Qed.

Lemma elem_of_find_matches bu t s :
  s ∈ sort_subs (find_topic_matches hash_iter bu t) <->
  s ∈ b_subscriptions bu /\ is_matching_backtracking t (sub_pattern s) = true.
Proof. rewrite sort_subs_perm. unfold find_topic_matches. by rewrite elem_of_matches, hash_iter_perm. Qed.

Lemma find_matches_sorted bu m t :
  bus_rel bu m -> StronglySorted sub_lt (sort_subs (find_topic_matches hash_iter bu t)).
Proof.
  intros Hb. apply sort_subs_sorted, nodup_key_filter. rewrite hash_iter_perm. apply (tab_nodup _ _ (br_tab _ _ Hb)).
Qed.

(** What a topic's matches are, from the cache or computed. *)
Lemma inner_matching_spec bu m t :
  bus_rel bu m ->
  let '(l, bu') := inner_matching_subscriptions hash_iter bu t in
  StronglySorted sub_lt l /\ bus_rel bu' m /\
  forall s, s ∈ l <-> s ∈ b_subscriptions bu /\ is_matching_backtracking t (sub_pattern s) = true.
Proof.
  intros Hb. unfold inner_matching_subscriptions. destruct (ix_get t (b_topics bu)) as [l|] eqn:El.
  - split; [by eapply br_sorted|]. split; [done|]. intros s. by eapply br_cache.
  - split; [by eapply find_matches_sorted|]. split; [|intros s; apply elem_of_find_matches].
    split; cbn; [apply (br_tab _ _ Hb)|..]; intros t' l'; [|intros s]; rewrite ix_get_insert; case_decide as Et; subst.
    + intros [= <-]. by eapply find_matches_sorted.
    + by eapply br_sorted.
    + intros [= <-]. apply elem_of_find_matches.
    + by eapply br_cache.
Qed.

Lemma fill_any_inner bu t buf :
  fill_matching_any_handlers hash_iter bu t buf =
    let '(l, bu') := inner_matching_subscriptions hash_iter bu t in (buf ++ (sub_handler <$> l), bu').
Proof. unfold fill_matching_any_handlers, inner_matching_subscriptions. by destruct (ix_get t _). Qed.

Lemma publish_any_spec bu m t :
  bus_rel bu m -> check_no_wildcards t = true ->
  let '(hs, bu') := publish_any hash_iter bu t in delivers m t hs /\ bus_rel bu' m.
Proof.
  intros Hb Ht. unfold publish_any. rewrite fill_any_inner. pose proof (inner_matching_spec bu m t Hb) as Hi.
  destruct (inner_matching_subscriptions _ _ _) as [l bu']. destruct Hi as (Hs & Hb' & Hl). split.
  - exists l. split; [done|]. split; [done|]. intros s.
    by rewrite Hl, (tab_elem _ _ (br_tab _ _ Hb)), matching_glob.
  - destruct Hb'. by split.
Qed.

Definition bus_step (bu : AnyBus H) (o : op) : list H * AnyBus H :=
  match o with
  | Subscribe p h n => ([], subscribe_any bu p h (Some n))
  | Unsubscribe p h => ([], unsubscribe_any bu p h)
  | Publish topic => publish_any hash_iter bu topic
  | Clear => ([], bus_dispose bu)
  end.

Fixpoint bus_run (bu : AnyBus H) (ops : list op) : list (list H) * AnyBus H :=
  match ops with
  | [] => ([], bu)
  | o :: ops =>
      let '(out, bu) := bus_step bu o in
      let '(outs, bu) := bus_run bu ops in
      (out :: outs, bu)
  end.

Lemma bus_rel_new : bus_rel bus_new ∅.
Proof. split; [apply tabulates_nil|done..]. Qed.

Lemma bus_step_refines bu m o :
  bus_rel bu m -> topic_ok o = true ->
  spec_out m o (bus_step bu o).1 /\ bus_rel (bus_step bu o).2 (spec_next m o).
Proof.
  intros Hb Ho. destruct o as [p h n|p h|t|]; cbn [bus_step fst snd spec_out].
  - split; [done|]. by apply subscribe_any_rel.
  - split; [done|]. by apply unsubscribe_any_rel.
  - pose proof (publish_any_spec bu m t Hb Ho) as Hp. by destruct (publish_any _ _ _).
  - split; [done|]. apply bus_rel_new.
Qed.

Lemma bus_run_refines bu m ops :
  bus_rel bu m -> forallb topic_ok ops = true -> spec_trace m ops (bus_run bu ops).1.
Proof.
  revert bu m. induction ops as [|o ops IH]; intros bu m Hb Ho; cbn; [done|].
  apply andb_prop in Ho as [Ho Hos]. pose proof (bus_step_refines bu m o Hb Ho) as [Hout Hb'].
  destruct (bus_step bu o) as [out bu']. cbn in *. specialize (IH bu' _ Hb' Hos).
  by destruct (bus_run bu' ops) as [outs bu''].
Qed.

(** C34: For every history of subscriptions, unsubscriptions, publications and
    clears, the typed router never indexes out of bounds and delivers, per
    publication, exactly the handlers the specification names: those whose
    current subscription's pattern denotes the topic, once each, in descending
    priority and then by pattern and handler id.  The Any-based bus, which
    updates its cached lists in place and iterates a hash set in any order,
    delivers the same sequences. *)
Theorem routing_refines ops :
  forallb topic_ok ops = true ->
  exists outs r bu,
    router_run router_new ops = Some (outs, r) /\
    bus_run bus_new ops = (outs, bu) /\
    spec_trace ∅ ops outs.
Proof.
  intros Ho. destruct (router_run_refines router_new ∅ ops router_rel_new Ho) as (outs & r & Hr & Ht).
  pose proof (bus_run_refines bus_new ∅ ops bus_rel_new Ho) as Hb. destruct (bus_run bus_new ops) as [outs' bu].
  cbn in Hb. exists outs, r, bu. split; [done|]. split; [|done]. f_equal. by eapply spec_trace_unique.
Qed.
End any.
End spec.

(** ** The order of the interned strings is the order of their bytes *)

Fixpoint bytes_cmp (x y : ustr) : comparison :=
  match x, y with
  | [], [] => Eq
  | [], _ => Lt
  | _, [] => Gt
  | a :: x, b :: y => then_with (N.compare (N_of_ascii a) (N_of_ascii b)) (bytes_cmp x y)
  end.

Lemma N_of_ascii_inj a b : N_of_ascii a = N_of_ascii b <-> a = b.
Proof. split; [|congruence]. intros E. by rewrite <- (ascii_N_embedding a), E, ascii_N_embedding. Qed.

#[global] Instance bytes_ord : UstrOrd.
Proof.
  refine {| ustr_cmp := bytes_cmp |}.
  - induction x as [|a x IH]; intros [|b y]; cbn; try done.
    rewrite then_with_eq, N.compare_eq_iff, N_of_ascii_inj, IH. split; [intros [-> ->]; done|intros E; by simplify_eq].
  - induction x as [|a x IH]; intros [|b y]; cbn; try done.
    rewrite (N.compare_antisym (N_of_ascii a)), IH. by destruct (_ ?= _)%N, (bytes_cmp x y).
  - induction x as [|a x IH]; intros [|b y] [|c z]; cbn; try done.
    rewrite !then_with_lt, !N.compare_lt_iff, !N.compare_eq_iff.
    intros [H1|[E1 H1]] [H2|[E2 H2]]; [left; lia..|]. right. split; [congruence|by eapply IH].
Defined.

(** Handlers that are their ids. *)
Definition text (s : string) : ustr := String.list_ascii_of_string s.
#[global] Instance named_handler : Handler ustr := fun h => h.

Definition demo_ops : list op :=
  [Subscribe (text "data.*") (text "log") 0; Publish (text "data.quotes.A");
   Subscribe (text "data.quotes.?") (text "risk") 5; Subscribe (text "exec.*") (text "log") 9;
   Publish (text "data.quotes.A"); Unsubscribe (text "data.*") (text "log");
   Publish (text "data.quotes.A"); Clear; Publish (text "data.quotes.A")].

Lemma routing_refines_witness :
  (forall l : list (TypedSubscription ustr), reverse l ≡ₚ l) /\ forallb topic_ok demo_ops = true /\
  fst <$> router_run router_new demo_ops =
    Some [[]; [text "log"]; []; []; [text "risk"; text "log"]; []; [text "risk"]; []; []] /\
  exists outs r bu,
    router_run router_new demo_ops = Some (outs, r) /\
    bus_run reverse bus_new demo_ops = (outs, bu) /\ spec_trace ∅ demo_ops outs.
Proof.
  split; [exact reverse_Permutation|]. split; [vm_compute; reflexivity|]. split; [vm_compute; reflexivity|].
  apply (routing_refines reverse reverse_Permutation demo_ops). vm_compute. reflexivity.
Defined.
