(* ===== verification/RateLimit.v ===== *)
(** * The rate limiter ([crates/network/src/ratelimiter/])

    A keyed limiter with the generic cell rate algorithm.  The state of a key is
    one 64-bit cell, its theoretical arrival time, with zero for a key never
    measured; the cell is updated by a compare-and-swap loop.  Instants and
    durations are nanosecond counts. *)

From stdpp Require Import base numbers list gmap.
From Stdlib Require Import Lia.
From S2P Require Import Prelude.

Open Scope Z_scope.

(** ** Nanoseconds ([nanos.rs]) *)

Definition nanos_add (a b : Z) : Z := wrap U64 (a + b).
Definition nanos_sub (a b : Z) : Z := saturate U64 (a - b).

(** [Duration::MAX] in nanoseconds; multiplying past it panics. *)
Definition duration_max : Z := 2 ^ 64 * 10 ^ 9 - 1.
Definition duration_mul (d k : Z) : outcome unit Z :=
  if d * k <=? duration_max then Ok (d * k) else Panic.

(** [From<Duration> for Nanos]: more than 584 years is a panic. *)
Definition nanos_from (d : Z) : outcome unit Z := expect (checked U64 d).

(** ** Quotas ([quota.rs]) *)

Record Quota : Type := mkQuota {
  q_max_burst : Z;
  q_replenish_1_per : Z;
}.

Definition per_second (max_burst : Z) : option Quota :=
  let replenish_interval_ns := 10 ^ 9 / max_burst in
  if replenish_interval_ns =? 0 then None else Some (mkQuota max_burst (wrap U64 replenish_interval_ns)).

Definition per_minute (max_burst : Z) : Quota :=
  mkQuota max_burst (wrap U64 (60 * 10 ^ 9 / max_burst)).

Definition per_hour (max_burst : Z) : Quota :=
  mkQuota max_burst (wrap U64 (3600 * 10 ^ 9 / max_burst)).

Definition with_period (replenish_1_per : Z) : option Quota :=
  if replenish_1_per =? 0 then None else Some (mkQuota 1 replenish_1_per).

Definition allow_burst (q : Quota) (max_burst : Z) : Quota := mkQuota max_burst (q_replenish_1_per q).

Definition quota_new (max_burst replenish_all_per : Z) : option Quota :=
  if replenish_all_per =? 0 then None else Some (mkQuota max_burst (replenish_all_per / max_burst)).

Definition burst_size_replenished_in (q : Quota) : Z :=
  wrap U64 (wrap U128 (q_replenish_1_per q * q_max_burst q)).

Definition from_gcra_parameters (t tau : Z) : outcome unit Quota :=
  _ ← assert_ (negb (t =? 0));
  let division_result := tau / t in
  _ ← assert_ (negb (division_result =? 0));
  _ ← assert_ (in_ty U32 division_result);
  Ok (mkQuota division_result t).

(** ** The algorithm ([gcra.rs]) *)

Record Gcra : Type := mkGcra {
  g_t : Z;
  g_tau : Z;
}.

Record StateSnapshot : Type := mkSnapshot {
  ss_t : Z;
  ss_tau : Z;
  ss_time_of_measurement : Z;
  ss_tat : Z;
}.

Definition snapshot_quota (s : StateSnapshot) : outcome unit Quota :=
  from_gcra_parameters (ss_t s) (ss_tau s).

Definition remaining_burst_capacity (s : StateSnapshot) : Z :=
  if ss_t s =? 0 then 0
  else
    let t0 := nanos_add (ss_time_of_measurement s) (ss_t s) in
    wrap U32 (Z.min (nanos_sub (nanos_add t0 (ss_tau s)) (ss_tat s)) (ss_tau s) / ss_t s).

(** [NotUntil], on a clock whose instants are nanoseconds. *)
Record NotUntil : Type := mkNotUntil {
  nu_state : StateSnapshot;
  nu_start : Z;
}.

Definition earliest_possible (n : NotUntil) : Z := nanos_add (nu_start n) (ss_tat (nu_state n)).

Definition wait_time_from (n : NotUntil) (from : Z) : Z :=
  let earliest := earliest_possible n in nanos_sub earliest (Z.min earliest from).

Definition gcra_new (q : Quota) : outcome unit Gcra :=
  d ← duration_mul (q_replenish_1_per q) (q_max_burst q);
  tau ← nanos_from d;
  t ← nanos_from (q_replenish_1_per q);
  Ok (mkGcra t tau).

Definition starting_state (g : Gcra) (t0 : Z) : Z := nanos_add t0 (g_t g).

(** The closure of [test_and_update]: the snapshot of a refusal or the next state. *)
Definition gcra_decide (g : Gcra) (t0 : Z) (tat : option Z) : StateSnapshot + Z :=
  let tat := match tat with Some tat => tat | None => starting_state g t0 end in
  let earliest_time := nanos_sub tat (g_tau g) in
  if t0 <? earliest_time
  then inl (mkSnapshot (g_t g) (g_tau g) earliest_time earliest_time)
  else inr (nanos_add (Z.max tat t0) (g_t g)).

(** ** The cell of a key ([mod.rs]) *)

(** [NonZeroU64::new(prev)] *)
Definition cell_tat (cell : Z) : option Z := if cell =? 0 then None else Some cell.

(** [measure_and_replace_one] without interference: the first exchange succeeds. *)
Definition measure_and_replace_one (g : Gcra) (t0 cell : Z) : (StateSnapshot + unit) * Z :=
  match gcra_decide g t0 (cell_tat cell) with
  | inr new_data => (inr tt, new_data)
  | inl e => (inl e, cell)
  end.

(** *** The loop under interference

    A worker carries the time it measured.  It loads the cell, decides, and
    exchanges; a failed or spurious exchange reloads.  A load may return any
    value the cell has held (it is not a read-modify-write), an exchange
    succeeds only on the current value. *)

Inductive worker : Type :=
  | WStart (t0 : Z)
  | WLoaded (t0 prev : Z)
  | WDone (t0 : Z) (allowed : bool).

Record cas_state : Type := mkCas {
  cas_cell : Z;
  cas_seen : list Z;      (** the values the cell has held *)
  cas_workers : list worker;
  cas_log : list Z;       (** the times let through, in the order of the exchanges *)
}.

Definition cas_init : cas_state := mkCas 0 [0] [] [].

Inductive cas_step (g : Gcra) : cas_state -> cas_state -> Prop :=
  | cas_arrive c seen ws log t0 :
      cas_step g (mkCas c seen ws log) (mkCas c seen (ws ++ [WStart t0]) log)
  | cas_load c seen ws log i t0 v :
      ws !! i = Some (WStart t0) -> v ∈ seen ->
      cas_step g (mkCas c seen ws log) (mkCas c seen (<[i := WLoaded t0 v]> ws) log)
  | cas_exchange c seen ws log i t0 next :
      ws !! i = Some (WLoaded t0 c) -> gcra_decide g t0 (cell_tat c) = inr next ->
      cas_step g (mkCas c seen ws log)
        (mkCas next (seen ++ [next]) (<[i := WDone t0 true]> ws) (log ++ [t0]))
  | cas_retry c seen ws log i t0 prev next v :
      ws !! i = Some (WLoaded t0 prev) -> gcra_decide g t0 (cell_tat prev) = inr next -> v ∈ seen ->
      cas_step g (mkCas c seen ws log) (mkCas c seen (<[i := WLoaded t0 v]> ws) log)
  | cas_refuse c seen ws log i t0 prev e :
      ws !! i = Some (WLoaded t0 prev) -> gcra_decide g t0 (cell_tat prev) = inl e ->
      cas_step g (mkCas c seen ws log) (mkCas c seen (<[i := WDone t0 false]> ws) log).

(** ** The keyed limiter *)

Section limiter.
Context {K : Type} `{Countable K}.

Record RateLimiter : Type := mkLimiter {
  rl_default_gcra : option Gcra;
  rl_state : gmap K Z;
  rl_gcra : gmap K Gcra;
  rl_start : Z;
}.

(** [keyed_quotas.into_iter().map(..).collect()]: later pairs win. *)
Fixpoint collect_quotas (qs : list (K * Quota)) (m : gmap K Gcra) : outcome unit (gmap K Gcra) :=
  match qs with
  | [] => Ok m
  | (k, q) :: qs =>
      g ← gcra_new q;
      collect_quotas qs (<[k := g]> m)
  end.

Definition new_with_quota (base_quota : option Quota) (keyed_quotas : list (K * Quota)) (now : Z)
  : outcome unit RateLimiter :=
  gcra ← collect_quotas keyed_quotas ∅;
  base ← match base_quota with
         | Some q => g ← gcra_new q; Ok (Some g)
         | None => Ok None
         end;
  Ok (mkLimiter base ∅ gcra now).

Definition add_quota_for_key (r : RateLimiter) (key : K) (value : Quota) : outcome unit RateLimiter :=
  g ← gcra_new value;
  Ok (mkLimiter (rl_default_gcra r) (rl_state r) (<[key := g]> (rl_gcra r)) (rl_start r)).

(** [test_and_update] on the store: the entry is made on the first measurement. *)
Definition test_and_update (g : Gcra) (r : RateLimiter) (key : K) (now : Z)
  : (NotUntil + unit) * RateLimiter :=
  let t0 := nanos_sub now (rl_start r) in
  let '(res, cell) := measure_and_replace_one g t0 (default 0 (rl_state r !! key)) in
  (match res with inl s => inl (mkNotUntil s (rl_start r)) | inr tt => inr tt end,
   mkLimiter (rl_default_gcra r) (<[key := cell]> (rl_state r)) (rl_gcra r) (rl_start r)).

Definition check_key (r : RateLimiter) (key : K) (now : Z) : (NotUntil + unit) * RateLimiter :=
  match rl_gcra r !! key with
  | Some quota => test_and_update quota r key now
  | None =>
      match rl_default_gcra r with
      | None => (inr tt, r)
      | Some gcra => test_and_update gcra r key now
      end
  end.

(** [until_key_ready]: [late n] is how much later than asked the [n]-th sleep
    wakes.  The result is the time of the last check; [None] when out of fuel. *)
Fixpoint until_key_ready (fuel : nat) (late : nat -> Z) (r : RateLimiter) (key : K) (now : Z)
  : option (Z * RateLimiter) :=
  match fuel with
  | O => None
  | S fuel =>
      match check_key r key now with
      | (inr tt, r) => Some (now, r)
      | (inl e, r) => until_key_ready fuel late r key (now + wait_time_from e now + late fuel)
      end
  end.
End limiter.
Arguments RateLimiter K {_ _}.
