(* ===== verification/RateLimitSpec.v ===== *)
(** * What the rate limiter guarantees

    Under any interleaving of the compare-and-swap loops the calls let through
    obey the rate: a window of length [w] lets at most [1 + (w + tau) / t] calls
    through.  A refused call can go ahead one replenishment later at most, and
    waiting for a key ends. *)

From stdpp Require Import base numbers list gmap relations sorting.
From Stdlib Require Import Lia.
From S2P Require Import Prelude RateLimit.

Open Scope Z_scope.

(** ** The parameters *)

Definition gcra_ok (g : Gcra) : Prop := 0 <= g_t g <= g_tau g.

Definition quota_ok (q : Quota) : Prop := 1 <= q_max_burst q <= imax U32 /\ 0 <= q_replenish_1_per q.

Lemma gcra_new_ok q g :
  quota_ok q -> gcra_new q = Ok g ->
  gcra_ok g /\ g_t g = q_replenish_1_per q /\ g_tau g = q_replenish_1_per q * q_max_burst q.
Proof.
  intros [Hb Hr] Hg. unfold gcra_new, duration_mul, nanos_from in Hg.
  destruct (_ <=? _); [|discriminate]. cbn [mbind outcome_bind] in Hg. outcome_inv.
  unfold gcra_ok; cbn. split; [nia|done].
Qed.

(** The arithmetic stays in 64 bits. *)
Lemma nanos_add_id a b : 0 <= a -> 0 <= b -> a + b <= imax U64 -> nanos_add a b = a + b.
Proof. intros. apply wrap_id, in_ty_spec. cbn in *. lia. Qed.

Lemma nanos_sub_max a b : a <= imax U64 -> 0 <= b -> nanos_sub a b = Z.max 0 (a - b).
Proof. unfold nanos_sub, saturate. cbn. lia. Qed.

#[local] Arguments imax : simpl never.

(** The two outcomes of a decision, away from overflow. *)
Lemma gcra_decide_cases g t0 cell :
  gcra_ok g -> 0 <= t0 -> 0 <= cell ->
  t0 + g_tau g + 2 * g_t g <= imax U64 -> cell + g_t g <= imax U64 ->
  match gcra_decide g t0 (cell_tat cell) with
  | inl s => t0 + g_tau g < cell /\ s = mkSnapshot (g_t g) (g_tau g) (cell - g_tau g) (cell - g_tau g)
  | inr next =>
      cell <= t0 + g_tau g /\
      next = if cell =? 0 then t0 + 2 * g_t g else Z.max cell t0 + g_t g
  end.
Proof.
  intros [Ht Htau] Ht0 Hc Hb Hcb. unfold gcra_decide, cell_tat, starting_state. destruct (Z.eqb_spec cell 0) as [->|Hne].
  - rewrite nanos_add_id, nanos_sub_max by lia. destruct (Z.ltb_spec t0 (Z.max 0 (t0 + g_t g - g_tau g))); [lia|].
    rewrite nanos_add_id by lia. split; lia.
  - rewrite nanos_sub_max by lia. destruct (Z.ltb_spec t0 (Z.max 0 (cell - g_tau g))).
    + split; [lia|]. f_equal; lia.
    + rewrite nanos_add_id by lia. split; lia.
Qed.

(** ** The loop under interference *)

Definition w_time (w : worker) : Z :=
  match w with WStart t0 | WLoaded t0 _ | WDone t0 _ => t0 end.

Definition w_allowed (w : worker) : list Z := match w with WDone t0 true => [t0] | _ => [] end.

(** The times of the calls let through. *)
Definition allowed_times (ws : list worker) : list Z := concat (w_allowed <$> ws).
Arguments allowed_times : simpl never.

Lemma elem_of_insert_inv {A} (x y : A) (i : nat) (l : list A) : x ∈ <[i := y]> l -> x = y \/ x ∈ l.
Proof.
  revert x. apply Forall_forall. apply Forall_insert; [|by left]. apply Forall_forall. by right.
Qed.

Section cas.
Context (g : Gcra) (Hg : gcra_ok g) (B : Z) (HB : B + g_tau g + 2 * g_t g <= imax U64).

Definition worker_ok (c : Z) (seen : list Z) (w : worker) : Prop :=
  match w with
  | WStart _ => True
  | WLoaded _ v => v ∈ seen
  | WDone t0 false => t0 + g_tau g < c
  | WDone _ true => True
  end.

Record cas_ok (s : cas_state) : Prop := {
  co_cell : 0 <= cas_cell s <= B + g_tau g + g_t g;
  co_seen v : v ∈ cas_seen s -> 0 <= v <= cas_cell s;
  co_workers w : w ∈ cas_workers s -> worker_ok (cas_cell s) (cas_seen s) w;
  co_log : allowed_times (cas_workers s) ≡ₚ cas_log s;
  co_tat j a : cas_log s !! j = Some a -> a + (Z.of_nat (length (cas_log s)) - Z.of_nat j) * g_t g <= cas_cell s;
  co_pair j k a b : (j < k)%nat -> cas_log s !! j = Some a -> cas_log s !! k = Some b ->
    (Z.of_nat k - Z.of_nat j) * g_t g <= b - a + g_tau g;
}.

Definition times_in (ws : list worker) : Prop := Forall (fun w => 0 <= w_time w <= B) ws.

Lemma allowed_insert ws i w w' :
  ws !! i = Some w -> w_allowed w = [] -> allowed_times (<[i := w']> ws) ≡ₚ w_allowed w' ++ allowed_times ws.
Proof.
  intros Hi Hw. rewrite insert_take_drop by (by eapply lookup_lt_Some).
  rewrite <- (take_drop_middle ws i w Hi) at 3. unfold allowed_times.
  rewrite !fmap_app, !concat_app. cbn. rewrite Hw. cbn. rewrite !(assoc_L (++)). apply Permutation_app; [|done].
  apply Permutation_app_comm.
Qed.

Lemma times_in_insert ws i w w' :
  ws !! i = Some w -> w_time w' = w_time w -> times_in (<[i := w']> ws) -> times_in ws.
Proof.
  intros Hi Hw. unfold times_in. rewrite !Forall_lookup. intros H j x Hj. destruct (decide (i = j)) as [<-|Hne].
  - rewrite Hi in Hj. injection Hj as <-. rewrite <- Hw. apply (H i).
    apply list_lookup_insert_eq. by eapply lookup_lt_Some.
  - apply (H j). by rewrite list_lookup_insert_ne.
Qed.

(** Steps that keep the cell and the log: one worker changes. *)
Lemma cas_ok_worker c seen ws log i w w' :
  cas_ok (mkCas c seen ws log) -> ws !! i = Some w -> w_allowed w = [] -> w_allowed w' = [] ->
  worker_ok c seen w' -> cas_ok (mkCas c seen (<[i := w']> ws) log).
Proof.
  intros [H1 H2 H3 H4 H5 H6] Hi Hw Hw' Hok. split; cbn in *; [done|done| | |done|done].
  - intros x [->|Hx]%elem_of_insert_inv; [done|by apply H3].
  - by rewrite (allowed_insert _ _ w), Hw'.
Qed.

Lemma cas_ok_exchange c seen ws log i t0 next :
  cas_ok (mkCas c seen ws log) -> ws !! i = Some (WLoaded t0 c) -> 0 <= t0 <= B ->
  gcra_decide g t0 (cell_tat c) = inr next ->
  cas_ok (mkCas next (seen ++ [next]) (<[i := WDone t0 true]> ws) (log ++ [t0])).
Proof.
  intros [H1 H2 H3 H4 H5 H6] Hi Ht Hd. cbn in *. destruct Hg as [Hg1 Hg2].
  pose proof (gcra_decide_cases g t0 c Hg ltac:(lia) ltac:(lia) ltac:(lia) ltac:(lia)) as Hc. rewrite Hd in Hc.
  destruct Hc as [Hle Hn].
  assert (Hnext : c + g_t g <= next <= B + g_tau g + g_t g /\ t0 + g_t g <= next).
  { destruct (Z.eqb_spec c 0); lia. }
  split; cbn.
  - lia.
  - intros v. rewrite elem_of_app, list_elem_of_singleton. intros [Hv| ->]; [apply H2 in Hv|]; lia.
  - intros x [->|Hx]%elem_of_insert_inv; [done|]. apply H3 in Hx. destruct x as [|? ?|? []]; cbn in *; try done.
    + rewrite elem_of_app. by left.
    + lia.
  - rewrite (allowed_insert _ _ (WLoaded t0 c)), H4 by done. cbn. apply Permutation_cons_append.
  - intros j a. rewrite length_app. cbn. rewrite lookup_app_Some. intros [Hj|[Hj Ha]].
    + apply H5 in Hj. nia.
    + apply list_lookup_singleton_Some in Ha as [Ej <-]. replace (Z.of_nat j) with (Z.of_nat (length log)) by lia. lia.
  - intros j k a b Hjk. rewrite !lookup_app_Some. intros [Hj|[Hj Ha]] [Hk|[Hk Hb]].
    + by apply H6.
    + apply list_lookup_singleton_Some in Hb as [Ek <-]. apply H5 in Hj. nia.
    + apply lookup_lt_Some in Hk. lia.
    + apply list_lookup_singleton_Some in Ha as [Ea _], Hb as [Eb _]. lia.
Qed.

Lemma cas_step_ok s s' :
  cas_step g s s' -> times_in (cas_workers s') -> times_in (cas_workers s) /\ (cas_ok s -> cas_ok s').
Proof.
  intros Hs. destruct Hs; cbn; intros Hin.
  - split; [by apply Forall_app in Hin as [? _]|]. intros [H1 H2 H3 H4 H5 H6]. split; cbn in *; try done.
    + intros w. rewrite elem_of_app, list_elem_of_singleton. intros [?| ->]; [by apply H3|done].
    + unfold allowed_times. rewrite fmap_app, concat_app. cbn. by rewrite app_nil_r.
  - split; [by apply (times_in_insert _ _ _ _ H) in Hin|]. intros Hok. by apply (cas_ok_worker _ _ _ _ _ (WStart t0) (WLoaded t0 v)).
  - assert (times_in ws) as Hin' by by apply (times_in_insert _ _ _ _ H) in Hin. split; [done|]. intros Hok.
    eapply cas_ok_exchange; [done..| |done]. exact (Forall_lookup_1 _ _ _ _ Hin' H).
  - split; [by apply (times_in_insert _ _ _ _ H) in Hin|]. intros Hok. by apply (cas_ok_worker _ _ _ _ _ (WLoaded t0 prev) (WLoaded t0 v)).
  - assert (times_in ws) as Hin' by by apply (times_in_insert _ _ _ _ H) in Hin. split; [done|]. intros Hok.
    eapply cas_ok_worker; [done..|]. cbn. pose proof (Forall_lookup_1 _ _ _ _ Hin' H) as Ht. cbn in Ht.
    pose proof (co_workers _ Hok _ (list_elem_of_lookup_2 _ _ _ H)) as Hv. cbn in Hv. apply (co_seen _ Hok) in Hv. cbn in Hv.
    pose proof (co_cell _ Hok) as Hcell. cbn in Hcell. destruct Hg.
    pose proof (gcra_decide_cases g t0 prev Hg ltac:(lia) ltac:(lia) ltac:(lia) ltac:(lia)) as Hc. rewrite H0 in Hc. lia.
Qed.

Lemma cas_init_ok : 0 <= B -> cas_ok cas_init.
Proof.
  intros. destruct Hg. split; cbn; [lia| |by intros ? ?%elem_of_nil|done|by intros [|?]|by intros [|?]].
  intros v ->%list_elem_of_singleton. lia.
Qed.

Lemma cas_reachable_ok s :
  0 <= B -> rtc (cas_step g) cas_init s -> times_in (cas_workers s) -> cas_ok s.
Proof.
  intros HB0. revert s. apply (rtc_ind_r (fun s => times_in (cas_workers s) -> cas_ok s)); [intros _; by apply cas_init_ok|].
  intros s s' _ Hs IH Hin. destruct (cas_step_ok s s' Hs Hin) as [Hin' Hok]. auto.
Qed.
End cas.

(** A filtered list spans at least as many positions as it has elements. *)
Lemma filter_span {A} (f : A -> bool) (l : list A) :
  List.filter f l <> [] ->
  exists j k a b, (j <= k)%nat /\ l !! j = Some a /\ l !! k = Some b /\ f a = true /\ f b = true /\
    (length (List.filter f l) <= k - j + 1)%nat.
Proof.
  induction l as [|x l IH]; cbn; [done|]. intros Hne. destruct (f x) eqn:E.
  - destruct (decide (List.filter f l = [])) as [Hn|Hn].
    + exists 0%nat, 0%nat, x, x. rewrite Hn. cbn. split_and!; [lia|done..|lia].
    + destruct (IH Hn) as (j & k & a & b & Hjk & Ha & Hb & Fa & Fb & Hl).
      exists 0%nat, (S k), x, b. cbn. split_and!; [lia|done..|lia].
  - destruct (IH Hne) as (j & k & a & b & Hjk & Ha & Hb & Fa & Fb & Hl).
    exists (S j), (S k), a, b. cbn. split_and!; [lia|done..|lia].
Qed.

Lemma filter_perm_length {A} (f : A -> bool) (l l' : list A) :
  l ≡ₚ l' -> length (List.filter f l) = length (List.filter f l').
Proof.
  induction 1 as [|x l l' _ IH|x y l|l l' l'' _ IH1 _ IH2]; cbn;
    [done|destruct (f x); cbn; congruence|by destruct (f x), (f y)|congruence].
Qed.

Definition in_window (s w a : Z) : bool := (s <=? a) && (a <=? s + w).

(** C35: However the compare-and-swap loops of the callers interleave, with stale
    loads and spurious failures, and whatever times the callers measured, the
    calls let through in any window of length [w] number at most
    [1 + (w + tau) / t] (stated without division), and a call is refused only
    when the bucket is full at its time: [t0 + tau] lies before the key's
    arrival time.  Times are bounded so that arrival times fit 64 bits. *)
Theorem rate_limit_bound g q B s :
  quota_ok q -> gcra_new q = Ok g ->
  0 <= B -> B + g_tau g + 2 * g_t g <= imax U64 ->
  rtc (cas_step g) cas_init s -> Forall (fun w => 0 <= w_time w <= B) (cas_workers s) ->
  (forall from w, 0 <= w ->
     (Z.of_nat (length (List.filter (in_window from w) (allowed_times (cas_workers s)))) - 1) * g_t g <= w + g_tau g) /\
  (forall t0, WDone t0 false ∈ cas_workers s -> t0 + g_tau g < cas_cell s).
Proof.
  intros Hq Hnew HB0 HB Hr Hin. destruct (gcra_new_ok q g Hq Hnew) as [Hg _].
  destruct (cas_reachable_ok g Hg B HB s HB0 Hr Hin) as [_ _ Hw Hlog _ Hpair]. split.
  - intros from w Hw0. set (f := in_window from w).
    assert (El : length (List.filter f (allowed_times (cas_workers s))) = length (List.filter f (cas_log s))).
    { by apply filter_perm_length. }
    rewrite El. destruct Hg. destruct (decide (List.filter f (cas_log s) = [])) as [En|En]; [rewrite En; cbn; lia|].
    destruct (filter_span f _ En) as (j & k & a & b & Hjk & Ha & Hb & Fa & Fb & Hl).
    unfold f, in_window in Fa, Fb. bool_simpl. destruct (decide (j = k)) as [->|Hne]; [nia|].
    pose proof (Hpair j k a b ltac:(lia) Ha Hb). nia.
  - intros t0 Ht0. exact (Hw _ Ht0).
Qed.

(** Two callers load the empty cell of a key with one call per ten nanoseconds:
    the exchange of the second fails, and on the value it reloads it is refused. *)
Definition demo_quota : Quota := mkQuota 1 10.
Definition demo_gcra : Gcra := mkGcra 10 10.
Definition demo_cas : cas_state := mkCas 120 [0; 120] [WDone 100 true; WDone 100 false] [100].

Lemma rate_limit_bound_witness :
  quota_ok demo_quota /\ gcra_new demo_quota = Ok demo_gcra /\ 1000 + 10 + 2 * 10 <= imax U64 /\
  rtc (cas_step demo_gcra) cas_init demo_cas /\
  (Z.of_nat (length (List.filter (in_window 0 200) (allowed_times (cas_workers demo_cas)))) - 1) * 10 <= 200 + 10.
Proof.
  assert (Hq : quota_ok demo_quota) by (split; [split|]; vm_compute; discriminate).
  assert (Hn : gcra_new demo_quota = Ok demo_gcra) by reflexivity.
  assert (HB : 1000 + 10 + 2 * 10 <= imax U64) by (vm_compute; discriminate).
  assert (Hr : rtc (cas_step demo_gcra) cas_init demo_cas).
  { eapply rtc_l; [apply (cas_arrive _ 0 [0] [] [] 100)|].
    eapply rtc_l; [apply (cas_arrive _ 0 [0] [WStart 100] [] 100)|].
    eapply rtc_l; [apply (cas_load _ 0 [0] [WStart 100; WStart 100] [] 0%nat 100 0); [done|left]|].
    eapply rtc_l; [apply (cas_load _ 0 [0] [WLoaded 100 0; WStart 100] [] 1%nat 100 0); [done|left]|].
    eapply rtc_l; [apply (cas_exchange _ 0 [0] [WLoaded 100 0; WLoaded 100 0] [] 0%nat 100 120); done|].
    eapply rtc_l; [apply (cas_retry _ 120 [0; 120] [WDone 100 true; WLoaded 100 0] [100] 1%nat 100 0 120 120);
      [done|done|right; left]|].
    eapply rtc_l; [apply (cas_refuse _ 120 [0; 120] [WDone 100 true; WLoaded 100 120] [100] 1%nat 100 120
      (mkSnapshot 10 10 110 110)); done|]. apply rtc_refl. }
  do 4 (split; [assumption|]).
  apply (rate_limit_bound demo_gcra demo_quota 1000 demo_cas Hq Hn ltac:(lia) HB Hr); [|lia].
  repeat constructor; cbn; lia.
Defined.

(** ** Waiting for a key *)

Section waiting.
Context {K : Type} `{Countable K}.

(** The parameters a key is measured with. *)
Definition key_gcra (r : RateLimiter K) (key : K) : option Gcra :=
  match rl_gcra r !! key with Some g => Some g | None => rl_default_gcra r end.

Definition key_cell (r : RateLimiter K) (key : K) : Z := default 0 (rl_state r !! key).

(** Checks at given times, the results dropped. *)
Fixpoint check_all (r : RateLimiter K) (evs : list (K * Z)) : RateLimiter K :=
  match evs with
  | [] => r
  | (key, now) :: evs => check_all (check_key r key now).2 evs
  end.

Lemma check_key_gcra r key now :
  check_key r key now =
    match key_gcra r key with Some g => test_and_update g r key now | None => (inr tt, r) end.
Proof. unfold check_key, key_gcra. by destruct (rl_gcra r !! key), (rl_default_gcra r). Qed.

(** What the clock's monotonicity maintains up to the horizon [B]. *)
Record limiter_ok (r : RateLimiter K) (B now : Z) : Prop := {
  lo_start : 0 <= rl_start r <= now;
  lo_gcra key g : key_gcra r key = Some g -> gcra_ok g /\ B + 2 * (g_tau g + g_t g) <= imax U64;
  lo_cell key g : key_gcra r key = Some g ->
    0 <= key_cell r key <= now - rl_start r + g_tau g + g_t g;
}.

Lemma limiter_ok_later r B now now' : limiter_ok r B now -> now <= now' -> limiter_ok r B now'.
Proof.
  intros [H1 H2 H3] Hle. split; [lia|done|]. intros key g Hk. pose proof (H3 key g Hk). lia.
Qed.

(** A check of a key with a quota, from the cell. *)
Lemma test_and_update_spec g r key now B :
  limiter_ok r B now -> now <= B -> key_gcra r key = Some g ->
  let cell := key_cell r key in
  let t0 := now - rl_start r in
  test_and_update g r key now =
    if t0 + g_tau g <? cell
    then (inl (mkNotUntil (mkSnapshot (g_t g) (g_tau g) (cell - g_tau g) (cell - g_tau g)) (rl_start r)),
          mkLimiter (rl_default_gcra r) (<[key := cell]> (rl_state r)) (rl_gcra r) (rl_start r))
    else (inr tt,
          mkLimiter (rl_default_gcra r)
            (<[key := if cell =? 0 then t0 + 2 * g_t g else Z.max cell t0 + g_t g]> (rl_state r))
            (rl_gcra r) (rl_start r)).
Proof.
  intros Hok HB Hk cell t0. destruct (lo_start _ _ _ Hok), (lo_gcra _ _ _ Hok _ _ Hk) as [Hg Hfit].
  pose proof (lo_cell _ _ _ Hok _ _ Hk) as Hcell. fold cell in Hcell. destruct Hg as [Ht Htau].
  unfold test_and_update, measure_and_replace_one. fold (key_cell r key) cell.
  rewrite (nanos_sub_max now) by lia. rewrite Z.max_r by lia. fold t0.
  pose proof (gcra_decide_cases g t0 cell (conj Ht Htau) ltac:(lia) ltac:(lia) ltac:(lia) ltac:(lia)) as Hd.
  destruct (gcra_decide _ _ _) as [s|next]; destruct Hd as [Hlt ->]; destruct (Z.ltb_spec (t0 + g_tau g) cell); [done|lia|lia|done].
Qed.

Lemma key_cell_insert d st gs start key c key' :
  key_cell (mkLimiter d (<[key := c]> st) gs start) key' =
    if decide (key' = key) then c else key_cell (mkLimiter d st gs start) key'.
Proof.
  unfold key_cell. cbn. case_decide; subst; [by rewrite lookup_insert_eq|by rewrite lookup_insert_ne].
Qed.

Lemma check_key_ok r key now B : limiter_ok r B now -> now <= B -> limiter_ok (check_key r key now).2 B now.
Proof.
  intros Hok HB. rewrite check_key_gcra. destruct (key_gcra r key) as [g|] eqn:Hk; [|done].
  rewrite (test_and_update_spec g r key now B) by done. pose proof Hok as [H1 H2 H3].
  pose proof (H3 _ _ Hk) as Hc. destruct (H2 _ _ Hk) as [[Ht Htau] _].
  destruct (Z.ltb_spec (now - rl_start r + g_tau g) (key_cell r key)); cbn [snd]; (split; [done|done|]);
    intros key' g' Hk'; rewrite key_cell_insert; pose proof (H3 key' g' Hk') as Hc'; cbn; case_decide; subst; try done.
  replace g' with g by (change (key_gcra r key = Some g') in Hk'; congruence).
  destruct (Z.eqb_spec (key_cell r key) 0); lia.
Qed.

Lemma last_default (x d : Z) l : List.last (x :: l) d = List.last l x.
Proof.
  revert x d. induction l as [|y l IH]; intros x d; [done|].
  change (List.last (y :: l) d = List.last (y :: l) x). by rewrite !IH.
Qed.

Lemma check_all_ok evs r B now :
  limiter_ok r B now -> StronglySorted Z.le (now :: (snd <$> evs)) -> Forall (fun e => snd e <= B) evs ->
  limiter_ok (check_all r evs) B (List.last (snd <$> evs) now).
Proof.
  revert r now. induction evs as [|[key t] evs IH]; intros r now Hok Hs HB; [done|].
  apply StronglySorted_inv in Hs as [Hs Hf]. apply Forall_cons in HB as [HB HBs]. cbn in Hf. apply Forall_cons in Hf as [Hle _].
  cbn [check_all]. rewrite fmap_cons, last_default. cbn [snd].
  apply IH; [|done|done]. apply check_key_ok; [by eapply limiter_ok_later|done].
Qed.

(** One refusal at most, then the key is ready. *)
Lemma until_key_ready_two r key now B late :
  limiter_ok r B now -> (forall n, 0 <= late n) -> now <= B ->
  (forall g, key_gcra r key = Some g -> now + g_t g + late 1%nat <= B) ->
  exists now' r', until_key_ready 2 late r key now = Some (now', r') /\
    (now' = now \/ exists g, key_gcra r key = Some g /\ now + late 1%nat < now' <= now + g_t g + late 1%nat).
Proof.
  intros Hok Hlate HB Hfit. cbn [until_key_ready]. rewrite check_key_gcra. destruct (key_gcra r key) as [g|] eqn:Hk;
    [|eexists _, _; split; [done|by left]].
  specialize (Hfit g eq_refl). pose proof (Hlate 1%nat). pose proof Hok as [H1 H2 H3]. destruct (H2 _ _ Hk) as [[Ht Htau] Hg].
  pose proof (H3 _ _ Hk) as Hc. pose proof (check_key_ok r key now B Hok HB) as Hok'.
  rewrite check_key_gcra, Hk in Hok'. rewrite (test_and_update_spec g r key now B) in Hok' |- * by done.
  destruct (Z.ltb_spec (now - rl_start r + g_tau g) (key_cell r key)); [|eexists _, _; split; [done|by left]].
  set (r1 := mkLimiter _ _ _ _) in *. cbn [snd] in Hok'.
  assert (Hw : wait_time_from (mkNotUntil (mkSnapshot (g_t g) (g_tau g) (key_cell r key - g_tau g)
    (key_cell r key - g_tau g)) (rl_start r)) now = rl_start r + key_cell r key - g_tau g - now).
  { unfold wait_time_from, earliest_possible. cbn [nu_state nu_start ss_tat]. rewrite nanos_add_id, nanos_sub_max by lia. lia. }
  rewrite Hw. set (now' := now + _ + late 1%nat).
  assert (Hk1 : key_gcra r1 key = Some g) by done.
  assert (Hc1 : key_cell r1 key = key_cell r key) by (unfold r1; rewrite key_cell_insert; by case_decide).
  rewrite check_key_gcra, Hk1, (test_and_update_spec g r1 key now' B).
  - rewrite Hc1. change (rl_start r1) with (rl_start r). destruct (Z.ltb_spec (now' - rl_start r + g_tau g) (key_cell r key)); [lia|].
    eexists _, _. split; [done|]. right. exists g. split; [done|]. lia.
  - eapply limiter_ok_later; [done|lia].
  - lia.
  - done.
Qed.

Lemma collect_quotas_ok qs m m' (P : Gcra -> Prop) :
  (forall k g, m !! k = Some g -> P g) -> (forall k q g, (k, q) ∈ qs -> gcra_new q = Ok g -> P g) ->
  collect_quotas qs m = Ok m' -> forall (k : K) g, m' !! k = Some g -> P g.
Proof.
  revert m. induction qs as [|[k q] qs IH]; intros m Hm Hqs Hc; cbn [collect_quotas] in Hc; [by injection Hc as <-|].
  apply bind_Ok_inv in Hc as (g & Hg & Hc). eapply IH; [| |exact Hc].
  - intros k' g' [[-> ->]|[_ ?]]%lookup_insert_Some; [|by eapply Hm]. eapply Hqs; [left|done].
  - intros k' q' g' Hin. eapply Hqs. by right.
Qed.

Definition quota_fits (B : Z) (q : Quota) : Prop :=
  quota_ok q /\ B + 2 * (q_replenish_1_per q * q_max_burst q + q_replenish_1_per q) <= imax U64.

Lemma new_with_quota_ok base keyed start B (r : RateLimiter K) :
  0 <= start -> (forall q, base = Some q \/ q ∈ keyed.*2 -> quota_fits B q) ->
  new_with_quota base keyed start = Ok r -> limiter_ok r B start.
Proof.
  intros Hs Hq Hn. unfold new_with_quota in Hn.
  set (P g := gcra_ok g /\ B + 2 * (g_tau g + g_t g) <= imax U64).
  assert (HP : forall q g, base = Some q \/ q ∈ keyed.*2 -> gcra_new q = Ok g -> P g).
  { intros q g Hin Hg. destruct (Hq q Hin) as [Hok Hfit]. destruct (gcra_new_ok q g Hok Hg) as (Hg' & E1 & E2).
    split; [done|]. rewrite E1, E2. done. }
  apply bind_Ok_inv in Hn as (m & Hm & Hn). apply bind_Ok_inv in Hn as (b & Hb & Hn). injection Hn as <-.
  assert (Hkeys : forall k g, m !! k = Some g -> P g).
  { eapply collect_quotas_ok; [| |exact Hm]; [by intros ??; rewrite lookup_empty|].
    intros k q g Hin. apply HP. right. apply list_elem_of_fmap. by exists (k, q). }
  assert (Hbase : forall g, b = Some g -> P g).
  { intros g ->. destruct base as [q|]; [|done]. outcome_inv. simplify_eq. by apply (HP q g (or_introl eq_refl)). }
  assert (Hall : forall key g, key_gcra (mkLimiter b ∅ m start) key = Some g -> P g).
  { intros key g. unfold key_gcra. cbn. destruct (m !! key) as [g'|] eqn:E; [intros [= <-]; by eapply Hkeys|by apply Hbase]. }
  split; cbn; [lia|exact Hall|]. intros key g Hk. destruct (Hall key g Hk) as [[? ?] _].
  unfold key_cell; cbn. rewrite lookup_empty; cbn. lia.
Qed.
End waiting.

(** On a clock that does not go back, after any history of checks of any
    keys, [until_key_ready] returns after at most two checks: at once, or after
    one sleep that ends no later than one replenishment interval (plus the
    lateness of the sleep) from the call. *)
Theorem until_key_ready_returns {K} `{Countable K} base keyed start B (r0 : RateLimiter K) evs key now late :
  0 <= start -> (forall q, base = Some q \/ q ∈ keyed.*2 -> quota_fits B q) ->
  new_with_quota base keyed start = Ok r0 ->
  StronglySorted Z.le (start :: (snd <$> evs) ++ [now]) ->
  (forall n, 0 <= late n) ->
  (forall g, key_gcra (check_all r0 evs) key = Some g -> now + g_t g + late 1%nat <= B) -> now <= B ->
  exists now' r', until_key_ready 2 late (check_all r0 evs) key now = Some (now', r') /\
    (now' = now \/ exists g, key_gcra (check_all r0 evs) key = Some g /\
                     now + late 1%nat < now' <= now + g_t g + late 1%nat).
Proof.
  intros Hs Hq Hn Hsort Hlate Hfit HB. apply (until_key_ready_two _ key now B late); [|done..].
  pose proof (new_with_quota_ok base keyed start B r0 Hs Hq Hn) as Hok.
  assert (Hsort' : StronglySorted Z.le (start :: (snd <$> evs))).
  { rewrite app_comm_cons in Hsort. by apply StronglySorted_app in Hsort as (_ & ? & _). }
  assert (Hle : forall t, t ∈ start :: (snd <$> evs) -> t <= now).
  { intros t Ht. rewrite app_comm_cons in Hsort. apply StronglySorted_app in Hsort as (Hx & _ & _).
    apply Hx; [done|by apply list_elem_of_singleton]. }
  eapply limiter_ok_later.
  - apply check_all_ok; [done|done|]. apply Forall_forall. intros e He. 
    assert (snd e <= now); [|lia]. apply Hle. right. apply list_elem_of_fmap. by exists e.
  - apply Hle. destruct (snd <$> evs) as [|x l] eqn:E using rev_ind; [left|].
    rewrite last_last. right. apply elem_of_app. right. left.
Qed.

(** A key with one call per ten nanoseconds, measured at 100 and asked again at 105. *)
Lemma until_key_ready_returns_witness :
  let r0 := mkLimiter (K := Z) None ∅ {[1 := demo_gcra]} 100 in
  new_with_quota None [(1, demo_quota)] 100 = Ok r0 /\
  until_key_ready 2 (fun _ => 3) (check_all r0 [(1, 100)]) 1 105 =
    Some (113, mkLimiter None {[1 := 30]} {[1 := demo_gcra]} 100) /\
  exists now' r', until_key_ready 2 (fun _ => 3) (check_all r0 [(1, 100)]) 1 105 = Some (now', r') /\
    (now' = 105 \/ exists g, key_gcra (check_all r0 [(1, 100)]) 1 = Some g /\ 105 + 3 < now' <= 105 + g_t g + 3).
Proof.
  intros r0. split; [vm_compute; reflexivity|]. split; [vm_compute; reflexivity|].
  apply (until_key_ready_returns None [(1, demo_quota)] 100 1000 r0 [(1, 100)] 1 105 (fun _ => 3)).
  - lia.
  - intros q [E|E]; [discriminate|]. cbn in E. apply list_elem_of_singleton in E as ->.
    split; [split; [split|]; vm_compute; discriminate|vm_compute; discriminate].
  - vm_compute. reflexivity.
  - cbn. repeat (constructor; try lia).
  - lia.
  - intros g E. vm_compute in E. injection E as <-. cbn. lia.
  - lia.
Defined.

(** ** Bursts *)

(** How many of [k] measurements at one instant are let through. *)
Fixpoint burst_count (g : Gcra) (t0 cell : Z) (k : nat) : Z :=
  match k with
  | O => 0
  | S k =>
      match measure_and_replace_one g t0 cell with
      | (inr tt, cell) => 1 + burst_count g t0 cell k
      | (inl _, cell) => burst_count g t0 cell k
      end
  end.

Section burst.
Context (q : Quota) (g : Gcra) (Hq : quota_ok q) (Ht : 0 < q_replenish_1_per q) (Hg : gcra_new q = Ok g).
Abbreviation n := (q_max_burst q).

Lemma measure_cases t0 cell :
  0 <= t0 -> 0 <= cell -> t0 + g_tau g + 2 * g_t g <= imax U64 -> cell + g_t g <= imax U64 ->
  exists s, measure_and_replace_one g t0 cell =
    if t0 + g_tau g <? cell then (inl s, cell)
    else (inr tt, if cell =? 0 then t0 + 2 * g_t g else Z.max cell t0 + g_t g).
Proof.
  intros H1 H2 H3 H4. destruct (gcra_new_ok q g Hq Hg) as [Hok _]. unfold measure_and_replace_one.
  pose proof (gcra_decide_cases g t0 cell Hok H1 H2 H3 H4) as Hd.
  destruct (gcra_decide _ _ _) as [s|next]; destruct Hd as [Hlt ->];
    destruct (Z.ltb_spec (t0 + g_tau g) cell); try lia; eexists; done.
Qed.

(** [i] calls ahead of the instant. *)
Lemma burst_ahead t0 k i :
  0 <= t0 -> 1 <= i <= n + 1 -> t0 + g_tau g + 2 * g_t g <= imax U64 ->
  burst_count g t0 (t0 + i * g_t g) k = Z.min (Z.of_nat k) (n + 1 - i).
Proof.
  destruct (gcra_new_ok q g Hq Hg) as ([Hg1 Hg2] & Et & Etau). revert i.
  induction k as [|k IH]; intros i H0 Hi Hb; cbn [burst_count]; [lia|].
  destruct (measure_cases t0 (t0 + i * g_t g)) as [s ->]; [lia..|nia|].
  destruct (Z.ltb_spec (t0 + g_tau g) (t0 + i * g_t g)).
  - assert (i = n + 1) by nia. subst i. rewrite IH by lia. lia.
  - destruct (Z.eqb_spec (t0 + i * g_t g) 0); [nia|]. rewrite Z.max_l by nia.
    replace (t0 + i * g_t g + g_t g) with (t0 + (i + 1) * g_t g) by lia. rewrite IH by nia. lia.
Qed.
End burst.

(** At one instant a key never measured lets exactly the burst size of its
    quota through, but a key that has been measured and has been idle since its
    arrival time passed lets one call more through. *)
Theorem burst_sizes q g t0 cell k :
  quota_ok q -> 0 < q_replenish_1_per q -> gcra_new q = Ok g ->
  0 <= t0 -> t0 + g_tau g + 2 * g_t g <= imax U64 -> 0 < cell <= t0 ->
  burst_count g t0 0 k = Z.min (Z.of_nat k) (q_max_burst q) /\
  burst_count g t0 cell k = Z.min (Z.of_nat k) (q_max_burst q + 1).
Proof.
  intros Hq Ht Hg H0 Hb Hc. destruct (gcra_new_ok q g Hq Hg) as ([Hg1 Hg2] & Et & Etau).
  pose proof Hq as [Hn _]. destruct k as [|k]; cbn [burst_count]; [lia|].
  destruct (measure_cases q g Hq Hg t0 0) as [s ->]; [lia..|]. rewrite (proj2 (Z.ltb_ge _ _)) by lia. cbn.
  destruct (measure_cases q g Hq Hg t0 cell) as [s' ->]; [lia..|]. rewrite (proj2 (Z.ltb_ge _ _)) by lia.
  rewrite (proj2 (Z.eqb_neq cell 0)), Z.max_r by lia.
  replace (t0 + g_t g) with (t0 + 1 * g_t g) by lia. rewrite !(burst_ahead q g Hq Ht Hg) by lia. lia.
Qed.

Lemma burst_sizes_witness :
  gcra_new (mkQuota 3 10) = Ok (mkGcra 10 30) /\
  burst_count (mkGcra 10 30) 100 0 9 = 3 /\ burst_count (mkGcra 10 30) 100 50 9 = 4.
Proof.
  split; [reflexivity|].
  apply (burst_sizes (mkQuota 3 10) (mkGcra 10 30) 100 50 9).
  - split; [split|]; vm_compute; discriminate.
  - reflexivity.
  - reflexivity.
  - lia.
  - vm_compute. discriminate.
  - lia.
Defined.

(** The quota can be read back from the parameters. *)
Lemma gcra_quota_roundtrip q g :
  quota_ok q -> 0 < q_replenish_1_per q -> gcra_new q = Ok g -> from_gcra_parameters (g_t g) (g_tau g) = Ok q.
Proof.
  intros Hq Ht Hg. destruct (gcra_new_ok q g Hq Hg) as (_ & Et & Etau). destruct Hq as [Hn _].
  unfold from_gcra_parameters. rewrite Et, Etau, Z.mul_comm, Z.div_mul by lia.
  rewrite (proj2 (Z.eqb_neq _ _)) by lia. osimpl. rewrite (proj2 (Z.eqb_neq _ _)) by lia. osimpl.
  rewrite (proj2 (in_ty_spec U32 _)) by (change (imin U32) with 0; lia). by destruct q.
Qed.

(** The snapshot of a refusal reports the whole burst as remaining, where its
    documentation says zero. *)
Lemma refusal_capacity q g t0 cell s :
  quota_ok q -> 0 < q_replenish_1_per q -> gcra_new q = Ok g ->
  0 <= t0 -> t0 + g_tau g + 2 * g_t g <= imax U64 -> 0 <= cell -> cell + g_t g <= imax U64 ->
  gcra_decide g t0 (cell_tat cell) = inl s -> remaining_burst_capacity s = q_max_burst q.
Proof.
  intros Hq Ht Hg H0 Hb Hc Hcb Hd. destruct (gcra_new_ok q g Hq Hg) as (Hok & Et & Etau). pose proof Hq as [Hn _].
  pose proof (gcra_decide_cases g t0 cell Hok H0 Hc Hb Hcb) as Hcase. rewrite Hd in Hcase. destruct Hcase as [Hlt ->].
  destruct Hok as [Hg1 Hg2]. unfold remaining_burst_capacity. cbn [ss_t ss_tau ss_time_of_measurement ss_tat].
  rewrite (proj2 (Z.eqb_neq _ _)) by lia. rewrite (nanos_add_id (cell - g_tau g)) by lia. rewrite nanos_add_id, nanos_sub_max by lia.
  rewrite Z.min_r by lia. rewrite Etau, Et, Z.mul_comm, Z.div_mul by lia. apply wrap_id, in_ty_spec.
  change (imin U32) with 0. lia.
Qed.
