(* ===== verification/Throttle.v ===== *)
(** * The message throttler ([crates/common/src/throttler.rs])

    A throttler lets at most [limit] messages through per [interval]
    nanoseconds; the rest is dropped, or buffered and sent when a timer of the
    clock fires.  The state of a run is the throttler with what it shares with
    the clock: the time, the named timer, and the timer events that have fired
    but whose callbacks have not run yet. *)

From stdpp Require Import base numbers list.
From Stdlib Require Import Lia.
From S2P Require Import Prelude F64.

Open Scope Z_scope.

Section throttler.
Context {T : Type}.

(** [Throttler]: deques front first; [output_drop] present or not. *)
Record Throttler : Type := mkThrottler {
  th_recv_count : Z;
  th_sent_count : Z;
  th_is_limiting : bool;
  th_limit : Z;
  th_buffer : list T;
  th_timestamps : list Z;
  th_interval : Z;
  th_output_drop : bool;
}.

#[global] Instance eta_throttler : Eta Throttler :=
  fun t => mkThrottler (th_recv_count t) (th_sent_count t) (th_is_limiting t) (th_limit t)
             (th_buffer t) (th_timestamps t) (th_interval t) (th_output_drop t).

(** The callback a timer was set with. *)
Inductive timer_cb : Type := CbProcess | CbResume.

Record world : Type := mkWorld {
  w_th : Throttler;
  w_now : Z;
  w_timer : option (Z * timer_cb);
  w_inflight : list timer_cb;
  w_received : list T;        (** every message given to [send], in order *)
  w_sent : list (Z * T);      (** the calls of [output_send], with their times *)
  w_dropped : list T;         (** the calls of [output_drop] *)
}.

#[global] Instance eta_world : Eta world :=
  fun w => mkWorld (w_th w) (w_now w) (w_timer w) (w_inflight w) (w_received w) (w_sent w) (w_dropped w).

Definition throttler_new (limit interval : Z) (output_drop : bool) : Throttler :=
  mkThrottler 0 0 false limit [] [] interval output_drop.

(** [self.timestamps.get(self.limit - 1)]: the subtraction wraps. *)
Definition oldest (t : Throttler) : option Z :=
  th_timestamps t !! Z.to_nat (wrap U64 (th_limit t - 1)).

Definition delta_next (t : Throttler) (now : Z) : Z :=
  match oldest t with
  | Some ts => saturate U64 (th_interval t - wrap U64 (now - ts))
  | None => 0
  end.

(** The timer of that name is replaced; the addition panics on overflow. *)
Definition set_timer (w : world) (cb : timer_cb) : outcome unit world :=
  alert_ts ← expect (checked U64 (w_now w + delta_next (w_th w) (w_now w)));
  Ok (w <| w_timer := Some (alert_ts, cb) |>).

Definition throttler_reset (t : Throttler) : Throttler :=
  t <| th_buffer := [] |> <| th_recv_count := 0 |> <| th_sent_count := 0 |>
    <| th_is_limiting := false |> <| th_timestamps := [] |>.

Fixpoint take_while (f : Z -> bool) (l : list Z) : list Z :=
  match l with
  | [] => []
  | x :: l => if f x then x :: take_while f l else []
  end.

Definition used (t : Throttler) (now : Z) : f64 :=
  match th_timestamps t with
  | [] => F64.zero
  | _ =>
      let interval_start := wrap I64 (wrap I64 now - wrap I64 (th_interval t)) in
      let messages_in_current_interval :=
        length (take_while (fun ts => interval_start <? wrap I64 ts) (th_timestamps t)) in
      F64.div (F64.of_Z (Z.of_nat messages_in_current_interval)) (F64.of_Z (th_limit t))
  end.

Definition qsize (t : Throttler) : nat := length (th_buffer t).

Definition send_msg (w : world) (msg : T) : world :=
  let t := w_th w in
  let now := w_now w in
  let ts :=
    if th_limit t <=? Z.of_nat (length (th_timestamps t))
    then List.removelast (th_timestamps t) else th_timestamps t in
  let t := t <| th_timestamps := now :: ts |> <| th_sent_count := wrap U64 (th_sent_count t + 1) |> in
  w <| w_th := t |> <| w_sent := w_sent w ++ [(now, msg)] |>.

Definition limit_msg (w : world) (msg : T) : outcome unit world :=
  let t := w_th w in
  if negb (th_output_drop t)
  then
    let w := w <| w_th := t <| th_buffer := msg :: th_buffer t |> |> in
    if th_is_limiting t then Ok w
    else
      w ← set_timer w CbProcess;
      Ok (w <| w_th := (w_th w) <| th_is_limiting := true |> |>)
  else
    let w := w <| w_dropped := w_dropped w ++ [msg] |> in
    if th_is_limiting t then Ok w
    else
      w ← set_timer w CbResume;
      Ok (w <| w_th := (w_th w) <| th_is_limiting := true |> |>).

Definition throttler_send (w : world) (msg : T) : outcome unit world :=
  let w := w <| w_received := w_received w ++ [msg] |> in
  let t := w_th w in
  let t := t <| th_recv_count := wrap U64 (th_recv_count t + 1) |> in
  let delta := delta_next t (w_now w) in
  let t :=
    if th_is_limiting t && (delta =? 0) && bool_decide (th_buffer t = [])
    then t <| th_is_limiting := false |> else t in
  let w := w <| w_th := t |> in
  if th_is_limiting t || (0 <? delta) then limit_msg w msg else Ok (send_msg w msg).

(** [VecDeque::pop_back] *)
Definition pop_back {A} (l : list A) : option (A * list A) :=
  match List.rev l with
  | [] => None
  | x :: r => Some (x, List.rev r)
  end.

(** The callback of [ThrottlerProcess]: each turn takes a message off the buffer. *)
Fixpoint process_loop (fuel : nat) (w : world) : outcome unit world :=
  match pop_back (th_buffer (w_th w)) with
  | None => Ok (w <| w_th := (w_th w) <| th_is_limiting := false |> |>)
  | Some (msg, rest) =>
      match fuel with
      | O => Panic
      | S fuel =>
          let w := send_msg (w <| w_th := (w_th w) <| th_buffer := rest |> |>) msg in
          let t := w_th w in
          if negb (bool_decide (th_buffer t = [])) && (0 <? delta_next t (w_now w))
          then set_timer (w <| w_th := t <| th_is_limiting := true |> |>) CbProcess
          else process_loop fuel w
      end
  end.

Definition process (w : world) : outcome unit world := process_loop (length (th_buffer (w_th w))) w.

(** The callback of [throttler_resume] for a registered actor. *)
Definition throttler_resume (w : world) : world :=
  w <| w_th := (w_th w) <| th_is_limiting := false |> |>.

(** ** Runs *)

Inductive event : Type :=
  | EvSend (msg : T)
  | EvAdvance (t : Z)
  | EvFire               (** the timer is due and its event leaves the clock *)
  | EvHandle             (** the oldest event in flight runs its callback *)
  | EvReset.

Definition enabled (w : world) (e : event) : bool :=
  match e with
  | EvSend _ => true
  | EvAdvance t => w_now w <=? t
  | EvFire => match w_timer w with Some (alert_ts, _) => alert_ts <=? w_now w | None => false end
  | EvHandle => match w_inflight w with [] => false | _ => true end
  | EvReset => true
  end.

Definition throttle_step (w : world) (e : event) : outcome unit world :=
  match e with
  | EvSend msg => throttler_send w msg
  | EvAdvance t => Ok (w <| w_now := t |>)
  | EvFire =>
      match w_timer w with
      | Some (_, cb) => Ok (w <| w_timer := None |> <| w_inflight := w_inflight w ++ [cb] |>)
      | None => Ok w
      end
  | EvHandle =>
      match w_inflight w with
      | [] => Ok w
      | cb :: rest =>
          let w := w <| w_inflight := rest |> in
          match cb with
          | CbProcess => process w
          | CbResume => Ok (throttler_resume w)
          end
      end
  | EvReset =>
      Ok (w <| w_th := throttler_reset (w_th w) |>
            <| w_received := [] |> <| w_sent := [] |> <| w_dropped := [] |>)
  end.

Fixpoint throttle_run (w : world) (es : list event) : outcome unit world :=
  match es with
  | [] => Ok w
  | e :: es =>
      w ← throttle_step w e;
      throttle_run w es
  end.

Definition world_new (limit interval : Z) (output_drop : bool) (now : Z) : world :=
  mkWorld (throttler_new limit interval output_drop) now None [] [] [] [].
End throttler.
Arguments Throttler T : clear implicits.
Arguments world T : clear implicits.
Arguments event T : clear implicits.
