(* ===== verification/ThrottleSpec.v ===== *)
(** * What the throttler guarantees

    Between resets no window shorter than the interval holds more than [limit]
    messages, no message is lost or reordered, and while messages are buffered
    a timer is set (or its event is on the way) that sends them. *)

From stdpp Require Import base numbers list.
From Stdlib Require Import Lia.
From S2P Require Import Prelude Throttle.

Open Scope Z_scope.

#[local] Arguments imax : simpl never.

(** ** The recorded timestamps *)

Section times.
Context (L : nat) (I : Z) (HL : (1 <= L)%nat) (HI : 0 <= I).

(** The timestamps are those of the last [L] messages, newest first. *)
Record stamps (ts times : list Z) (now : Z) : Prop := {
  st_ts : ts = take L (reverse times);
  st_range a : a ∈ times -> 0 <= a <= now;
  st_space i a b : times !! i = Some a -> times !! (i + L)%nat = Some b -> I <= b - a;
}.

(** The message before the last [L - 1] ones, if there is one. *)
Lemma stamps_oldest ts times now :
  stamps ts times now ->
  ts !! (L - 1)%nat = if decide (L <= length times)%nat then times !! (length times - L)%nat else None.
Proof.
  intros [-> _ _]. rewrite lookup_take_lt by lia. case_decide.
  - rewrite reverse_lookup by lia. f_equal. lia.
  - apply lookup_ge_None. rewrite length_reverse. lia.
Qed.

Lemma stamps_send ts times now :
  stamps ts times now -> 0 <= now ->
  (forall x, ts !! (L - 1)%nat = Some x -> x + I <= now) ->
  stamps (now :: (if (Z.of_nat L <=? Z.of_nat (length ts)) then List.removelast ts else ts)) (times ++ [now]) now.
Proof.
  intros Hst Hnow Hdue. pose proof (stamps_oldest _ _ _ Hst) as Hold. destruct Hst as [Hts Hr Hs]. split.
  - rewrite reverse_app. cbn. destruct L as [|L']; [lia|]. cbn. f_equal. destruct (Z.leb_spec (Z.of_nat (S L')) (Z.of_nat (length ts))).
    + rewrite removelast_firstn_len, Hts. rewrite length_take in *. rewrite take_take. f_equal. subst ts. rewrite length_take in *. lia.
    + rewrite Hts in *. rewrite length_take in *. rewrite !take_ge; [done|lia|lia].
  - intros a. rewrite elem_of_app, list_elem_of_singleton. intros [Ha| ->]; [by apply Hr|lia].
  - intros i a b Ha Hb. apply lookup_app_Some in Hb as [Hb|[Hge Hb]].
    + apply lookup_app_Some in Ha as [Ha|[Hge Ha]]; [by eapply Hs|]. apply lookup_lt_Some in Hb. lia.
    + apply list_lookup_singleton_Some in Hb as [E <-]. rewrite lookup_app_l in Ha by lia.
      assert (a + I <= now); [|lia]. apply Hdue. rewrite Hold, decide_True by lia. rewrite <- Ha. f_equal. lia.
Qed.

Lemma stamps_later ts times now now' : stamps ts times now -> now <= now' -> stamps ts times now'.
Proof. intros [H1 H2 H3] Hle. split; [done| |done]. intros a Ha. pose proof (H2 a Ha). lia. Qed.

Lemma stamps_nil now : stamps [] [] now.
Proof. split; [by destruct L|by intros ? ?%elem_of_nil|done]. Qed.
End times.

Section runs.
Context {T : Type} (limit interval : Z) (drop : bool) (B : Z).
Context (Hlimit : 1 <= limit <= imax U64) (Hint : 0 <= interval) (HB : B + interval <= imax U64).
Implicit Types w : world T.

Abbreviation L := (Z.to_nat limit).

(** ** The invariant *)

Record base_ok w : Prop := {
  bo_limit : th_limit (w_th w) = limit;
  bo_interval : th_interval (w_th w) = interval;
  bo_drop : th_output_drop (w_th w) = drop;
  bo_now : 0 <= w_now w <= B;
  bo_stamps : stamps L interval (th_timestamps (w_th w)) (fst <$> w_sent w) (w_now w);
}.

(** A message may be sent from time [t] on. *)
Definition due w (t : Z) : Prop := forall x, oldest (w_th w) = Some x -> x + interval <= t.

(** Buffering: the buffer is waiting for its timer, or empty and nothing is set. *)
Definition armed w : Prop :=
  if th_is_limiting (w_th w)
  then th_buffer (w_th w) <> [] /\
       ((exists alert, w_timer w = Some (alert, CbProcess) /\ w_inflight w = [] /\ due w alert /\
           alert <= w_now w + interval) \/
        (w_timer w = None /\ w_inflight w = [CbProcess] /\ due w (w_now w)))
  else th_buffer (w_th w) = [] /\ w_timer w = None /\ w_inflight w = [].

Definition buffering w : Prop :=
  w_received w = (snd <$> w_sent w) ++ List.rev (th_buffer (w_th w)) /\ w_dropped w = [] /\ armed w.

Definition dropping w : Prop :=
  th_buffer (w_th w) = [] /\ w_received w ≡ₚ (snd <$> w_sent w) ++ w_dropped w /\
  (forall a, w_timer w <> Some (a, CbProcess)) /\ CbProcess ∉ w_inflight w.

Record run_ok w : Prop := {
  ro_base : base_ok w;
  ro_mode : if drop then dropping w else buffering w;
}.

Lemma oldest_index w : base_ok w -> oldest (w_th w) = th_timestamps (w_th w) !! (L - 1)%nat.
Proof.
  intros Hb. unfold oldest. rewrite (bo_limit _ Hb), wrap_id.
  - f_equal. lia.
  - apply in_ty_spec. change (imin U64) with 0. lia.
Qed.

Lemma delta_next_spec w :
  base_ok w ->
  delta_next (w_th w) (w_now w) =
    match oldest (w_th w) with Some x => Z.max 0 (x + interval - w_now w) | None => 0 end.
Proof.
  intros Hb. unfold delta_next. destruct (oldest (w_th w)) as [x|] eqn:E; [|done].
  rewrite oldest_index in E by done. pose proof (bo_stamps _ Hb) as Hst.
  assert (Hx : 0 <= x <= w_now w).
  { apply (st_range _ _ _ _ _ Hst). rewrite (st_ts _ _ _ _ _ Hst) in E. apply list_elem_of_lookup_2, elem_of_take in E as (i & E & _).
    apply list_elem_of_lookup_2 in E. by rewrite elem_of_reverse in E. }
  pose proof (bo_now _ Hb). rewrite (bo_interval _ Hb), wrap_id by (apply in_ty_spec; change (imin U64) with 0; lia).
  unfold saturate. change (imin U64) with 0. lia.
Qed.

Lemma delta_due w : base_ok w -> delta_next (w_th w) (w_now w) = 0 <-> due w (w_now w).
Proof.
  intros Hb. rewrite delta_next_spec by done. unfold due. destruct (oldest (w_th w)) as [x|]; [|by split].
  split; [intros E x' [= <-]; lia|]. intros H. specialize (H x eq_refl). lia.
Qed.

Lemma delta_bounds w : base_ok w -> 0 <= delta_next (w_th w) (w_now w) <= interval.
Proof.
  intros Hb. pose proof (bo_stamps _ Hb) as Hst. rewrite delta_next_spec by done.
  destruct (oldest (w_th w)) as [x|] eqn:E; [|lia]. rewrite oldest_index in E by done.
  assert (Hx : 0 <= x <= w_now w); [|lia]. apply (st_range _ _ _ _ _ Hst).
  rewrite (st_ts _ _ _ _ _ Hst) in E. apply list_elem_of_lookup_2, elem_of_take in E as (i & E & _).
  apply list_elem_of_lookup_2 in E. by rewrite elem_of_reverse in E.
Qed.

(** The timer is set to the time the next message is due. *)
Lemma set_timer_ok w cb :
  base_ok w ->
  exists alert, set_timer w cb = Ok (w <| w_timer := Some (alert, cb) |>) /\ due w alert /\ alert <= w_now w + interval.
Proof.
  intros Hb. pose proof (delta_bounds w Hb) as Hd. pose proof (bo_now _ Hb). unfold set_timer.
  exists (w_now w + delta_next (w_th w) (w_now w)).
  unfold checked. rewrite (proj2 (in_ty_spec U64 _)) by (change (imin U64) with 0; lia). osimpl.
  split; [done|]. split; [|lia]. rewrite delta_next_spec by done. intros x ->. lia.
Qed.

(** ** Sending *)

Lemma send_msg_base w msg : base_ok w -> due w (w_now w) -> base_ok (send_msg w msg).
Proof.
  intros [H1 H2 H3 H4 H5] Hdue. split; [done|done|done|done|]. unfold send_msg, set_field. cbn.
  rewrite fmap_app. cbn. rewrite H1. replace limit with (Z.of_nat L) at 2 by lia.
  apply stamps_send; [lia|done|lia|]. intros x Hx. apply Hdue. rewrite oldest_index by (by split). done.
Qed.

Lemma pop_back_snoc {A} (l : list A) x : pop_back (l ++ [x]) = Some (x, l).
Proof. unfold pop_back. rewrite rev_app_distr. cbn. by rewrite rev_involutive. Qed.

Lemma process_loop_empty fuel w :
  base_ok w -> drop = false -> w_timer w = None -> w_inflight w = [] -> w_dropped w = [] ->
  w_received w = (snd <$> w_sent w) ++ [] -> th_buffer (w_th w) = [] ->
  exists w', process_loop fuel w = Ok w' /\ run_ok w' /\ w_now w' = w_now w /\
    (length (th_buffer (w_th w')) <= 0)%nat /\ w_received w' = w_received w.
Proof.
  intros Hb Hdrop Ht Hi Hd Hr Eb. exists (w <| w_th := (w_th w) <| th_is_limiting := false |> |>).
  split; [destruct fuel; cbn [process_loop]; by rewrite Eb|].
  split; [|cbn; rewrite Eb; cbn; split_and!; [done|lia|done]]. split; [by destruct Hb; split|].
  rewrite Hdrop. split; [cbn; by rewrite Eb|]. split; [done|]. unfold armed. cbn. by rewrite Eb.
Qed.

(** The drain: every message it takes off the buffer is due. *)
Lemma process_loop_ok fuel w :
  base_ok w -> drop = false -> w_timer w = None -> w_inflight w = [] -> w_dropped w = [] ->
  w_received w = (snd <$> w_sent w) ++ List.rev (th_buffer (w_th w)) ->
  (th_buffer (w_th w) <> [] -> due w (w_now w)) -> (length (th_buffer (w_th w)) <= fuel)%nat ->
  exists w', process_loop fuel w = Ok w' /\ run_ok w' /\ w_now w' = w_now w /\
    (length (th_buffer (w_th w')) <= length (th_buffer (w_th w)) - 1)%nat /\ w_received w' = w_received w.
Proof.
  revert w. induction fuel as [|fuel IH]; intros w Hb Hdrop Ht Hi Hd Hr Hdue Hf;
    destruct (th_buffer (w_th w)) as [|x l _] eqn:Eb using rev_ind.
  - by apply process_loop_empty.
  - rewrite length_app in Hf. cbn in Hf. lia.
  - by apply process_loop_empty.
  - cbn [process_loop]. rewrite Eb, pop_back_snoc. set (w1 := send_msg _ x).
    assert (Hb1 : base_ok w1).
    { apply send_msg_base; [by destruct Hb; split|]. apply Hdue. by destruct l. }
    assert (Hr1 : w_received w1 = (snd <$> w_sent w1) ++ List.rev l).
    { change (w_received w = (snd <$> (w_sent w ++ [(w_now w, x)])) ++ List.rev l).
      rewrite Hr, rev_app_distr, fmap_app, <- app_assoc. done. }
    change (th_buffer (w_th w1)) with l. change (w_now w1) with (w_now w).
    rewrite length_app in Hf. cbn in Hf. destruct (negb _ && _) eqn:E.
    + apply andb_prop in E as [El Ed]. apply negb_true_iff, bool_decide_eq_false in El. set (w2 := w1 <| w_th := _ |>).
      destruct (set_timer_ok w2 CbProcess) as (alert & Es & Hal & Hle); [by destruct Hb1; split|].
      rewrite Es. eexists. split; [done|]. split; [|split_and!; [done|cbn; rewrite length_app; cbn; lia|done]].
      split; [by destruct Hb1; split|]. rewrite Hdrop. split; [done|]. split; [done|]. unfold armed. cbn.
      split; [done|]. left. exists alert. done.
    + destruct (IH w1) as (w' & Ep & Hok & Hn & Hlen & Hrec); [done..| |cbn; lia|].
      * change (th_buffer (w_th w1)) with l. intros Hl. apply (delta_due w1 Hb1). apply andb_false_iff in E as [E|E].
        -- apply negb_false_iff, bool_decide_eq_true in E. done.
        -- pose proof (delta_bounds w1 Hb1). change (w_now w1) with (w_now w) in *. bool_simpl. lia.
      * exists w'. split; [done|]. split; [done|]. split_and!; [done| |done].
        change (th_buffer (w_th w1)) with l in Hlen. rewrite length_app. cbn. lia.
Qed.

(** ** Each event *)

(** What [send] looks at: the counters and the log of received messages change
    first, and drop mode leaves the limiting state once the window has passed. *)
Definition send_entry w (msg : T) (limiting : bool) : world T :=
  w <| w_received := w_received w ++ [msg] |>
    <| w_th := (w_th w) <| th_recv_count := wrap U64 (th_recv_count (w_th w) + 1) |> <| th_is_limiting := limiting |> |>.

Lemma throttler_send_unfold w msg :
  let delta := delta_next (w_th w) (w_now w) in
  let limiting := th_is_limiting (w_th w) && negb ((delta =? 0) && bool_decide (th_buffer (w_th w) = [])) in
  throttler_send w msg =
    if limiting || (0 <? delta) then limit_msg (send_entry w msg limiting) msg
    else Ok (send_msg (send_entry w msg limiting) msg).
Proof.
  destruct w as [[rc sc lim lm buf ts iv dr] now tm fl rec snt drp].
  unfold throttler_send, send_entry, set_field, delta_next, oldest. cbn.
  destruct lim, (match ts !! _ with Some _ => _ | None => _ end =? 0); cbn; try case_bool_decide; done.
Qed.

Lemma send_entry_base w msg b : base_ok w -> base_ok (send_entry w msg b).
Proof. by intros []; split. Qed.

Lemma send_buffering w msg :
  drop = false -> run_ok w ->
  exists w', throttler_send w msg = Ok w' /\ run_ok w' /\ w_now w' = w_now w /\ w_received w' = w_received w ++ [msg].
Proof.
  intros Hdrop [Hb Hm]. rewrite Hdrop in Hm. destruct Hm as (Hr & Hd & Ha). rewrite throttler_send_unfold.
  set (limiting := th_is_limiting (w_th w) && _). set (w0 := send_entry w msg limiting).
  assert (Hb0 : base_ok w0) by by apply send_entry_base.
  assert (Hlim : limiting = th_is_limiting (w_th w)).
  { unfold limiting. unfold armed in Ha. destruct (th_is_limiting _); [|done]. cbn. rewrite bool_decide_false by tauto.
    by rewrite andb_false_r. }
  clearbody limiting.
  assert (Hbuf : w_received w ++ [msg] = (snd <$> w_sent w) ++ List.rev (msg :: th_buffer (w_th w))).
  { rewrite Hr, <- app_assoc. done. }
  unfold armed in Ha. destruct (th_is_limiting (w_th w)) eqn:El; rewrite Hlim; cbn [orb].
  - exists (w0 <| w_th := (w_th w0) <| th_buffer := msg :: th_buffer (w_th w) |> |>).
    split; [unfold limit_msg; cbn; by rewrite (bo_drop _ Hb), Hdrop, Hlim|]. split; [|done].
    split; [by destruct Hb0; split|]. rewrite Hdrop. split; [done|]. split; [done|]. unfold armed. cbn. rewrite Hlim.
    split; [done|]. apply Ha.
  - destruct Ha as (Eb & Et & Ei). destruct (Z.ltb_spec 0 (delta_next (w_th w) (w_now w))) as [Hlt|Hge].
    + set (w1 := w0 <| w_th := (w_th w0) <| th_buffer := msg :: th_buffer (w_th w) |> |>).
      assert (Hb1 : base_ok w1) by by destruct Hb0; split.
      destruct (set_timer_ok w1 CbProcess Hb1) as (alert & Es & Hal & Hle).
      eexists. split.
      * unfold limit_msg. change (th_output_drop (w_th w0)) with (th_output_drop (w_th w)). rewrite (bo_drop _ Hb), Hdrop.
        change (th_is_limiting (w_th w0)) with limiting. rewrite Hlim. cbn [negb]. change (w0 <| w_th := _ |>) with w1.
        rewrite Es. osimpl. reflexivity.
      * split; [|done]. split; [by destruct Hb1; split|]. rewrite Hdrop. split; [done|]. split; [done|]. unfold armed. cbn.
        split; [done|]. left. exists alert. done.
    + eexists. split; [done|]. split; [|done]. pose proof (delta_bounds w Hb).
      assert (Hdue : due w0 (w_now w0)) by (apply (delta_due w Hb); lia).
      split; [by apply send_msg_base|]. rewrite Hdrop. split.
      * cbn. rewrite fmap_app, Hr, Eb. cbn. by rewrite !app_nil_r.
      * split; [done|]. unfold armed. cbn. by rewrite Hlim.
Qed.

Lemma send_dropping w msg :
  drop = true -> run_ok w ->
  exists w', throttler_send w msg = Ok w' /\ run_ok w' /\ w_now w' = w_now w /\ w_received w' = w_received w ++ [msg].
Proof.
  intros Hdrop [Hb Hm]. rewrite Hdrop in Hm. destruct Hm as (Eb & Hr & Ht & Hi). rewrite throttler_send_unfold.
  set (limiting := th_is_limiting (w_th w) && _). set (w0 := send_entry w msg limiting).
  assert (Hb0 : base_ok w0) by by apply send_entry_base.
  destruct (limiting || _) eqn:E.
  - set (w1 := w0 <| w_dropped := w_dropped w0 ++ [msg] |>).
    assert (Hb1 : base_ok w1) by by destruct Hb0; split.
    assert (Hr1 : w_received w1 ≡ₚ (snd <$> w_sent w1) ++ w_dropped w1).
    { cbn. rewrite Hr. by rewrite (assoc_L (++)). }
    assert (Hl : limit_msg w0 msg = if limiting then Ok w1 else
      w ← set_timer w1 CbResume; Ok (w <| w_th := (w_th w) <| th_is_limiting := true |> |>)).
    { unfold limit_msg. change (th_output_drop (w_th w0)) with (th_output_drop (w_th w)). by rewrite (bo_drop _ Hb), Hdrop. }
    rewrite Hl. destruct limiting.
    + exists w1. split; [done|]. split; [|done]. split; [done|]. rewrite Hdrop. done.
    + destruct (set_timer_ok w1 CbResume Hb1) as (alert & -> & _ & _). osimpl.
      eexists. split; [done|]. split; [|done]. split; [by destruct Hb1; split|]. rewrite Hdrop. by split_and!.
  - apply orb_false_iff in E as [El Ed]. pose proof (delta_bounds w Hb). bool_simpl.
    eexists. split; [done|]. split; [|done]. assert (Hdue : due w0 (w_now w0)) by (apply (delta_due w Hb); lia).
    split; [by apply send_msg_base|]. rewrite Hdrop. split_and!; [done| |done|done].
    cbn. rewrite fmap_app, Hr. cbn. rewrite <- !(assoc_L (++)). apply Permutation_app_head, Permutation_app_comm.
Qed.

(** A reset while no timer is set and no event is on its way. *)
Definition quiet w : bool :=
  match w_timer w, w_inflight w with None, [] => true | _, _ => false end.

Definition allowed w (e : event T) : bool :=
  enabled w e &&
  match e with
  | EvReset => quiet w
  | EvAdvance t => t <=? B
  | _ => true
  end.

Lemma fire_ok w : run_ok w -> enabled w EvFire = true -> exists w', throttle_step w EvFire = Ok w' /\ run_ok w'.
Proof.
  intros [Hb Hm] He. cbn [enabled throttle_step] in *. destruct (w_timer w) as [[alert cb]|] eqn:Et; [|done].
  eexists. split; [done|]. split; [by destruct Hb; split|]. bool_simpl. destruct drop.
  - destruct Hm as (H1 & H2 & H3 & H4). split_and!; [done|done|done|]. cbn. rewrite elem_of_app, list_elem_of_singleton.
    intros [?| <-]; [done|]. by apply (H3 alert).
  - destruct Hm as (H1 & H2 & H3). split; [done|]. split; [done|]. unfold armed in *. cbn.
    destruct (th_is_limiting (w_th w)); [|naive_solver]. destruct H3 as (Hne & [(a & E & Hi & Hd & _)|(E & _)]); [|congruence].
    rewrite Et in E. injection E as <- ->. split; [done|]. right. rewrite Hi. split_and!; [done..|].
    intros x Hx. specialize (Hd x Hx). lia.
Qed.

Lemma handle_ok w : run_ok w -> exists w', throttle_step w EvHandle = Ok w' /\ run_ok w'.
Proof.
  intros [Hb Hm]. cbn [throttle_step]. destruct (w_inflight w) as [|cb rest] eqn:Ei; [by exists w|].
  set (w0 := w <| w_inflight := rest |>). assert (Hb0 : base_ok w0) by by destruct Hb; split. destruct drop eqn:Hdrop.
  - destruct Hm as (H1 & H2 & H3 & H4). rewrite Ei in H4. apply not_elem_of_cons in H4 as [Hcb H4].
    destruct cb; [done|]. eexists. split; [done|]. split; [by destruct Hb0; split|]. rewrite Hdrop. done.
  - destruct Hm as (H1 & H2 & H3). unfold armed in H3. rewrite Ei in H3. destruct (th_is_limiting (w_th w)); [|naive_solver].
    destruct H3 as (Hne & [(a & _ & E & _)|(Et & E & Hd)]); [congruence|]. injection E as -> ->.
    destruct (process_loop_ok (length (th_buffer (w_th w))) w0) as (w' & Ep & Hok & _); [done..|]. by exists w'.
Qed.

Lemma step_ok w e : run_ok w -> allowed w e = true -> exists w', throttle_step w e = Ok w' /\ run_ok w'.
Proof.
  intros Hok Ha. apply andb_prop in Ha as [He Ha]. destruct e as [msg|t| | |].
  - destruct drop eqn:Hdrop; [destruct (send_dropping w msg Hdrop Hok) as (w' & E & Hok' & _)|
      destruct (send_buffering w msg Hdrop Hok) as (w' & E & Hok' & _)]; by exists w'.
  - eexists. split; [done|]. cbn in He, Ha. bool_simpl. destruct Hok as [Hb Hm]. pose proof (bo_now _ Hb).
    assert (Hb' : base_ok (w <| w_now := t |>)).
    { destruct Hb as [H1 H2 H3 H4 H5]. split; [done..|cbn; lia|]. eapply stamps_later; try exact H5; cbn; lia. }
    split; [done|]. destruct drop; [done|]. destruct Hm as (H1 & H2 & H3). split; [done|]. split; [done|].
    unfold armed in *. cbn. destruct (th_is_limiting (w_th w)); [|done]. destruct H3 as (Hne & Hc). split; [done|].
    destruct Hc as [(a & E & Hi & Hd & Hle)|(E & Hi & Hd)]; [left; exists a; split_and!; [done..|lia]|right].
    split_and!; [done..|]. intros x Hx. specialize (Hd x Hx). lia.
  - by apply fire_ok.
  - by apply handle_ok.
  - eexists. split; [done|]. cbn in Ha. unfold quiet in Ha. destruct (w_timer w) eqn:Et, (w_inflight w) eqn:Ei; try done.
    destruct Hok as [Hb _]. split.
    + destruct Hb as [H1 H2 H3 H4 H5]. split; [done..|apply stamps_nil; lia].
    + destruct drop; [split_and!; cbn; [done|done|by rewrite Et|rewrite Ei; apply not_elem_of_nil]|].
      split; [done|]. split; [done|]. unfold armed. cbn. done.
Qed.

(** ** Whole runs *)

Fixpoint run_allowed w (es : list (event T)) : bool :=
  match es with
  | [] => true
  | e :: es =>
      allowed w e && match throttle_step w e with Ok w => run_allowed w es | _ => true end
  end.

Lemma run_preserves w es : run_ok w -> run_allowed w es = true -> exists w', throttle_run w es = Ok w' /\ run_ok w'.
Proof.
  revert w. induction es as [|e es IH]; intros w Hok Ha; [by exists w|].
  cbn [run_allowed] in Ha. apply andb_prop in Ha as [Ha Has].
  destruct (step_ok w e Hok Ha) as (w' & E & Hok'). cbn [throttle_run]. rewrite E in Has |- *. osimpl. by apply IH.
Qed.

Lemma world_new_ok now : 0 <= now <= B -> run_ok (world_new limit interval drop now).
Proof.
  intros Hn. split; [split; [done..|apply stamps_nil; lia]|].
  destruct drop; [split_and!; [done|done|done|apply not_elem_of_nil]|done].
Qed.

(** ** Draining *)

(** Let the clock reach the timer, fire it, and run its callback. *)
Definition drain_round w : list (event T) :=
  match w_inflight w, w_timer w with
  | [], Some (alert, _) => [EvAdvance (Z.max (w_now w) alert); EvFire; EvHandle]
  | [], None => []
  | _, _ => [EvHandle]
  end.

Fixpoint drain (rounds : nat) w : outcome unit (world T) :=
  match rounds with
  | O => Ok w
  | S rounds =>
      w ← throttle_run w (drain_round w);
      drain rounds w
  end.

Lemma handle_drains w :
  drop = false -> base_ok w -> buffering w -> w_timer w = None -> w_inflight w = [CbProcess] ->
  th_buffer (w_th w) <> [] ->
  exists w', throttle_step w EvHandle = Ok w' /\ run_ok w' /\ w_now w' = w_now w /\
    (length (th_buffer (w_th w')) <= length (th_buffer (w_th w)) - 1)%nat /\ w_received w' = w_received w.
Proof.
  intros Hdrop Hb (Hr & Hd & Ha) Et Ei Hne. cbn [throttle_step]. rewrite Ei. set (w0 := w <| w_inflight := [] |>).
  assert (Hb0 : base_ok w0) by by destruct Hb; split. unfold armed in Ha.
  destruct (th_is_limiting (w_th w)); [|tauto]. destruct Ha as (_ & [(a & _ & E & _)|(_ & _ & Hdue)]); [congruence|].
  by destruct (process_loop_ok (length (th_buffer (w_th w))) w0) as (w' & Ep & Hok & Hn & Hl & Hrec); [done..|]; exists w'.
Qed.

Lemma drain_round_ok w :
  drop = false -> run_ok w -> th_buffer (w_th w) <> [] -> w_now w + interval <= B ->
  exists w', throttle_run w (drain_round w) = Ok w' /\ run_ok w' /\ w_now w' <= w_now w + interval /\
    (length (th_buffer (w_th w')) <= length (th_buffer (w_th w)) - 1)%nat /\ w_received w' = w_received w.
Proof.
  intros Hdrop Hok Hne HBw. pose proof Hok as [Hb Hm]. rewrite Hdrop in Hm. pose proof Hm as (Hr & Hd & Ha).
  pose proof (bo_now _ Hb). unfold armed in Ha. destruct (th_is_limiting (w_th w)) eqn:El; [|tauto].
  destruct Ha as (_ & [(a & Et & Ei & Hdue & Hle)|(Et & Ei & Hdue)]).
  - unfold drain_round. rewrite Et, Ei.
    destruct (step_ok w (EvAdvance (Z.max (w_now w) a)) Hok) as (w1 & E1 & Hok1).
    { unfold allowed; cbn. rewrite (proj2 (Z.leb_le _ _)) by lia. apply Z.leb_le. lia. }
    assert (Ew1 : w1 = w <| w_now := Z.max (w_now w) a |>) by (cbn in E1; congruence).
    destruct (fire_ok w1 Hok1) as (w2 & E2 & [Hb2 Hm2]); [subst w1; cbn; rewrite Et; apply Z.leb_le; lia|].
    assert (Ew2 : w2 = w1 <| w_timer := None |> <| w_inflight := [CbProcess] |>).
    { subst w1. cbn in E2. rewrite Et, Ei in E2. cbn in E2. congruence. }
    rewrite Hdrop in Hm2. destruct (handle_drains w2 Hdrop Hb2 Hm2) as (w' & E' & Hok' & Hn' & Hl' & Hr');
      [by subst w2|by subst w2|by subst w2 w1|].
    exists w'. cbn [throttle_run]. rewrite E1. osimpl. rewrite E2. osimpl. rewrite E'. osimpl.
    split_and!; [done|done|rewrite Hn', Ew2, Ew1; cbn; lia|rewrite Ew2, Ew1 in Hl'; exact Hl'|rewrite Hr', Ew2, Ew1; done].
  - unfold drain_round. rewrite Ei. destruct (handle_drains w Hdrop Hb Hm Et Ei Hne) as (w' & E' & Hok' & Hn' & Hl' & Hr').
    exists w'. cbn [throttle_run]. rewrite E'. osimpl. split_and!; [done|done|lia|done|done].
Qed.

Lemma drain_ok w rounds :
  drop = false -> run_ok w -> (length (th_buffer (w_th w)) <= rounds)%nat ->
  w_now w + Z.of_nat rounds * interval <= B ->
  exists w', drain rounds w = Ok w' /\ run_ok w' /\ th_buffer (w_th w') = [] /\ w_received w' = w_received w.
Proof.
  intros Hdrop. revert w. induction rounds as [|rounds IH]; intros w Hok Hl HBw.
  - exists w. split_and!; [done|done| |done]. destruct (th_buffer (w_th w)); [done|cbn in Hl; lia].
  - cbn [drain]. destruct (decide (length (th_buffer (w_th w)) = 0%nat)) as [E0|E0].
    + assert (Eb : th_buffer (w_th w) = []) by by destruct (th_buffer (w_th w)).
      assert (Er : drain_round w = []).
      { destruct Hok as [_ Hm]. rewrite Hdrop in Hm. destruct Hm as (_ & _ & Ha). unfold armed in Ha.
        destruct (th_is_limiting (w_th w)); [tauto|]. destruct Ha as (_ & Et & Ei). unfold drain_round. by rewrite Et, Ei. }
      rewrite Er. cbn [throttle_run]. osimpl. apply IH; [done|lia|nia].
    + destruct (drain_round_ok w Hdrop Hok) as (w1 & E1 & Hok1 & Hn1 & Hl1 & Hr1); [by intros E; rewrite E in E0|nia|].
      rewrite E1. osimpl. destruct (IH w1 Hok1) as (w' & E' & Hok' & Hb' & Hr'); [lia|nia|].
      exists w'. split_and!; [done..|congruence].
Qed.
End runs.

(** C38: Between resets (made while no timer is set) a throttler with a limit of
    at least one never panics, never lets more than [limit] messages through in
    less than [interval] nanoseconds, whatever the sends, the passage of time
    and the delays between a timer's firing and its callback; when it buffers,
    the messages sent followed by the buffer are the messages received, in
    order, and while any is buffered a timer is set or its callback is about to
    run; when it drops, every message is sent or dropped.  Times plus the
    interval fit 64 bits. *)
Theorem throttle_safe {T} limit interval drop B now (es : list (event T)) :
  1 <= limit <= imax U64 -> 0 <= interval -> B + interval <= imax U64 -> 0 <= now <= B ->
  run_allowed B (world_new limit interval drop now) es = true ->
  exists w, throttle_run (world_new limit interval drop now) es = Ok w /\
    (forall i a b, (fst <$> w_sent w) !! i = Some a -> (fst <$> w_sent w) !! (i + Z.to_nat limit)%nat = Some b ->
       interval <= b - a) /\
    (if drop then w_received w ≡ₚ (snd <$> w_sent w) ++ w_dropped w
     else w_received w = (snd <$> w_sent w) ++ List.rev (th_buffer (w_th w)) /\
          (th_buffer (w_th w) <> [] ->
             (exists alert, w_timer w = Some (alert, CbProcess) /\ alert <= w_now w + interval) \/
             w_inflight w = [CbProcess])).
Proof.
  intros Hl Hi HB Hn Ha.
  destruct (run_preserves limit interval drop B Hl Hi HB _ es (world_new_ok limit interval drop B Hl now Hn) Ha) as (w & E & [Hb Hm]).
  exists w. split; [done|]. split; [intros i a b; apply (st_space _ _ _ _ _ (bo_stamps _ _ _ _ _ Hb))|]. destruct drop.
  - apply Hm.
  - destruct Hm as (Hr & _ & Har). split; [done|]. intros Hne. unfold armed in Har.
    destruct (th_is_limiting (w_th w)); [|tauto]. destruct Har as (_ & [(a & ? & _ & _ & ?)|(_ & ? & _)]); [left; by exists a|by right].
Qed.

(** Two messages per 100 ns: the third and fourth wait for the timer, whose
    callback runs late. *)
Definition demo_sends : list (event Z) :=
  [EvSend 1; EvAdvance 10; EvSend 2; EvSend 3; EvAdvance 50; EvSend 4; EvAdvance 100; EvFire; EvSend 5;
   EvAdvance 130; EvHandle].

Lemma throttle_safe_witness :
  run_allowed 1000 (world_new 2 100 false 0) demo_sends = true /\
  exists w, throttle_run (world_new 2 100 false 0) demo_sends = Ok w /\
    w_sent w = [(0, 1); (10, 2); (130, 3); (130, 4)] /\ w_timer w = Some (230, CbProcess) /\
    (forall i a b, (fst <$> w_sent w) !! i = Some a -> (fst <$> w_sent w) !! (i + Z.to_nat 2)%nat = Some b ->
       100 <= b - a).
Proof.
  assert (Ha : run_allowed 1000 (world_new 2 100 false 0) demo_sends = true) by (vm_compute; reflexivity).
  split; [exact Ha|].
  destruct (throttle_safe 2 100 false 1000 0 demo_sends) as (w & E & Hs & _);
    [split; [lia|vm_compute; discriminate]|lia|vm_compute; discriminate|lia|exact Ha|].
  exists w. split; [exact E|]. vm_compute in E. injection E as E. subst w.
  split; [reflexivity|]. split; [reflexivity|]. exact Hs.
Defined.

(** C39: A buffering throttler that is left alone sends everything it holds: after
    any allowed history, letting the clock reach the timer and running its
    callback as often as there are buffered messages leaves the buffer empty,
    the throttler not limiting, and every received message sent in order.  The
    limit is at least one, and times plus the interval fit 64 bits. *)
Theorem throttle_drains {T} limit interval B now (es : list (event T)) w :
  1 <= limit <= imax U64 -> 0 <= interval -> B + interval <= imax U64 -> 0 <= now <= B ->
  run_allowed B (world_new limit interval false now) es = true ->
  throttle_run (world_new limit interval false now) es = Ok w ->
  w_now w + Z.of_nat (length (th_buffer (w_th w))) * interval <= B ->
  exists w', drain (length (th_buffer (w_th w))) w = Ok w' /\ th_buffer (w_th w') = [] /\
    th_is_limiting (w_th w') = false /\ (snd <$> w_sent w') = w_received w.
Proof.
  intros Hl Hi HB Hn Ha E HBw.
  destruct (run_preserves limit interval false B Hl Hi HB _ es (world_new_ok limit interval false B Hl now Hn) Ha) as (w1 & E1 & Hok).
  assert (w1 = w) as -> by congruence.
  destruct (drain_ok limit interval false B Hl Hi HB w _ eq_refl Hok (le_n _) HBw) as (w' & Ed & [_ (Hr & _ & Har)] & Eb & Er).
  exists w'. split; [done|]. split; [done|]. rewrite Eb, app_nil_r in Hr. split; [|congruence].
  unfold armed in Har. destruct (th_is_limiting (w_th w')); [tauto|done].
Qed.

Definition demo_world : world Z :=
  match throttle_run (world_new 2 100 false 0) demo_sends with Ok w => w | _ => world_new 2 100 false 0 end.

Lemma throttle_drains_witness :
  throttle_run (world_new 2 100 false 0) demo_sends = Ok demo_world /\
  exists w', drain (length (th_buffer (w_th demo_world))) demo_world = Ok w' /\ th_buffer (w_th w') = [] /\
    th_is_limiting (w_th w') = false /\ (snd <$> w_sent w') = [1; 2; 3; 4; 5].
Proof.
  assert (E : throttle_run (world_new 2 100 false 0) demo_sends = Ok demo_world) by (vm_compute; reflexivity).
  split; [exact E|].
  apply (throttle_drains 2 100 1000 0 demo_sends demo_world);
    [split; [lia|vm_compute; discriminate]|lia|vm_compute; discriminate|lia|vm_compute; reflexivity|exact E|
     vm_compute; discriminate].
Defined.

(** A limit of zero does not limit: the index of the oldest timestamp wraps. *)
Lemma zero_limit_unlimited {T} (t : Throttler T) now :
  th_limit t = 0 -> (length (th_timestamps t) <= 1)%nat -> delta_next t now = 0.
Proof.
  intros Hl Hts. unfold delta_next, oldest. rewrite Hl. rewrite (proj2 (lookup_ge_None _ _)); [done|].
  change (wrap U64 (0 - 1)) with (2 ^ 64 - 1). lia.
Qed.

(** A reset does not cancel the timer: an event of before the reset that runs
    its callback after it sends without regard to the limit. *)
Example reset_in_flight :
  let es := [EvSend 1; EvSend 2; EvSend 3; EvAdvance 100; EvFire; EvReset; EvSend 4; EvSend 5; EvSend 6; EvHandle] in
  exists w, throttle_run (world_new 2 100 false 0) es = Ok w /\ w_sent w = [(100, 4); (100, 5); (100, 6)].
Proof. eexists. split; [vm_compute; reflexivity|reflexivity]. Qed.
