(* ===== verification/Clock.v ===== *)
(** * The test clock ([crates/common/src/clock.rs], [crates/common/src/timer.rs])

    A clock whose time is set by its owner: advancing it runs every timer up to
    the new time and returns the time events in the order of their timestamps.
    Timers are kept in a [BTreeMap] by name.  The random id of an event is left
    out; callbacks are values of any type. *)

From stdpp Require Import base numbers list strings gmap.
From Stdlib Require Import ZArith Ascii Lia Sorted.
From S2P Require Import Prelude Fixed Maps Glob Router.

Open Scope Z_scope.

(** ** Valid names *)

(** The UTF-8 encodings of the characters with the property White_Space. *)
Definition whitespace1 (b : N) : bool := ((9 <=? b) && (b <=? 13) || (b =? 32))%N.
Definition whitespace2 (a b : N) : bool := ((a =? 194) && ((b =? 133) || (b =? 160)))%N.
Definition whitespace3 (a b c : N) : bool :=
  ((a =? 225) && (b =? 154) && (c =? 128)
   || (a =? 226) && (b =? 128)
      && ((128 <=? c) && (c <=? 138) || (c =? 168) || (c =? 169) || (c =? 175))
   || (a =? 226) && (b =? 129) && (c =? 159)
   || (a =? 227) && (b =? 128) && (c =? 128))%N.
Fixpoint all_whitespace (s : list N) : bool :=
  match s with
  | [] => true
  | a :: s1 =>
      if whitespace1 a then all_whitespace s1
      else match s1 with
           | [] => false
           | b :: s2 =>
               if whitespace2 a b then all_whitespace s2
               else match s2 with
                    | [] => false
                    | c :: s3 => if whitespace3 a b c then all_whitespace s3 else false
                    end
           end
  end.
Definition check_valid_string_utf8 (s : ustr) : CorrectnessResult unit :=
  _ ← err_if (bool_decide (s = [])) EmptyString;
  err_if (all_whitespace (N_of_ascii <$> s)) WhitespaceString.

(** ** Timers *)
Record TimeEvent : Type := mkTimeEvent { te_name : ustr; te_ts_event : Z; te_ts_init : Z }.

Record TestTimer : Type := mkTestTimer {
  tt_name : ustr;
  tt_interval_ns : Z;
  tt_start_time_ns : Z;
  tt_stop_time_ns : option Z;
  tt_fire_immediately : bool;
  tt_next_time_ns : Z;
  tt_is_expired : bool;
}.
#[export] Instance test_timer_eta : Eta TestTimer := fun t =>
  mkTestTimer (tt_name t) (tt_interval_ns t) (tt_start_time_ns t) (tt_stop_time_ns t)
    (tt_fire_immediately t) (tt_next_time_ns t) (tt_is_expired t).

Definition create_valid_interval (interval_ns : Z) : Z := Z.max interval_ns 1.

(** The sum of timestamps panics on overflow. *)
Definition unix_add {E} (a b : Z) : outcome E Z := expect (checked U64 (a + b)).
Definition unix_sub {E} (a b : Z) : outcome E Z := expect (checked U64 (a - b)).

Definition test_timer_new {E} (name : ustr) (interval_ns start_time_ns : Z)
    (stop_time_ns : option Z) (fire_immediately : bool) : outcome E TestTimer :=
  _ ← unwrap_ok (check_valid_string_utf8 name);
  next_time_ns ← (if fire_immediately then Ok start_time_ns else unix_add start_time_ns interval_ns);
  Ok (mkTestTimer name interval_ns start_time_ns stop_time_ns fire_immediately next_time_ns false).

Definition timer_cancel (t : TestTimer) : TestTimer := t <| tt_is_expired := true |>.
Definition pop_event (t : TestTimer) (ts_init : Z) : TimeEvent :=
  mkTimeEvent (tt_name t) (tt_next_time_ns t) ts_init.

Definition past_stop (t : TestTimer) : bool :=
  match tt_stop_time_ns t with Some stop => stop <? tt_next_time_ns t | None => false end.
Definition at_stop (t : TestTimer) : bool :=
  match tt_stop_time_ns t with Some stop => tt_next_time_ns t =? stop | None => false end.

(** [Iterator::next] *)
Definition timer_next {E} (t : TestTimer) : outcome E (option TimeEvent * TestTimer) :=
  if tt_is_expired t then Ok (None, t)
  else if past_stop t then Ok (None, t <| tt_is_expired := true |>)
  else
    let item := mkTimeEvent (tt_name t) (tt_next_time_ns t) (tt_next_time_ns t) in
    let t := if at_stop t then t <| tt_is_expired := true |> else t in
    next ← unix_add (tt_next_time_ns t) (tt_interval_ns t);
    Ok (Some item, t <| tt_next_time_ns := next |>).

(** [self.take(n)], consumed to the end. *)
Fixpoint timer_take {E} (n : nat) (t : TestTimer) : outcome E (list TimeEvent * TestTimer) :=
  match n with
  | O => Ok ([], t)
  | S n =>
      r ← timer_next t;
      match r with
      | (None, t) => Ok ([], t)
      | (Some ev, t) => rest ← timer_take n t; Ok (ev :: rest.1, rest.2)
      end
  end.

Definition timer_advance {E} (t : TestTimer) (to_time_ns : Z) : outcome E (list TimeEvent * TestTimer) :=
  let advances :=
    if tt_next_time_ns t <=? to_time_ns
    then saturate U64 ((to_time_ns - tt_next_time_ns t) / tt_interval_ns t + 1) else 0 in
  timer_take (Z.to_nat advances) t.

(** ** The clock *)
Section Clock.
Context {CB : Type} {UO : UstrOrd}.

Record CallbackRegistry : Type := mkCallbacks {
  cr_default_callback : option CB;
  cr_callbacks : gmap ustr CB;
}.
#[export] Instance callbacks_eta : Eta CallbackRegistry := fun r =>
  mkCallbacks (cr_default_callback r) (cr_callbacks r).

Definition register_default_handler (r : CallbackRegistry) (cb : CB) : CallbackRegistry :=
  r <| cr_default_callback := Some cb |>.
Definition cancel_default_handler (r : CallbackRegistry) : CallbackRegistry :=
  r <| cr_default_callback := None |>.
Definition register_callback (r : CallbackRegistry) (name : ustr) (cb : CB) : CallbackRegistry :=
  r <| cr_callbacks := <[name := cb]> (cr_callbacks r) |>.
Definition has_any_callback (r : CallbackRegistry) (name : ustr) : bool :=
  bool_decide (is_Some (cr_callbacks r !! name)) || bool_decide (is_Some (cr_default_callback r)).
Definition get_callback (r : CallbackRegistry) (name : ustr) : option CB :=
  match cr_callbacks r !! name with Some cb => Some cb | None => cr_default_callback r end.
Definition get_handler {E} (r : CallbackRegistry) (ev : TimeEvent) : outcome E (TimeEvent * CB) :=
  cb ← expect (get_callback r (te_name ev)); Ok (ev, cb).
Definition callbacks_clear (r : CallbackRegistry) : CallbackRegistry := r <| cr_callbacks := ∅ |>.

(** The [BTreeMap] of timers: a list sorted by name. *)
Fixpoint timers_get (name : ustr) (m : list (ustr * TestTimer)) : option TestTimer :=
  match m with
  | [] => None
  | (n, t) :: m => if bool_decide (n = name) then Some t else timers_get name m
  end.
Fixpoint timers_insert (name : ustr) (t : TestTimer) (m : list (ustr * TestTimer))
  : list (ustr * TestTimer) :=
  match m with
  | [] => [(name, t)]
  | (n, t') :: m' =>
      match ustr_cmp name n with
      | Lt => (name, t) :: m
      | Eq => (n, t) :: m'
      | Gt => (n, t') :: timers_insert name t m'
      end
  end.
Definition timers_remove (name : ustr) (m : list (ustr * TestTimer)) : list (ustr * TestTimer) :=
  List.filter (fun nt => negb (bool_decide (nt.1 = name))) m.

Record TestClock : Type := mkTestClock {
  tc_time : Z;
  tc_timers : list (ustr * TestTimer);
  tc_callbacks : CallbackRegistry;
}.
#[export] Instance test_clock_eta : Eta TestClock := fun c =>
  mkTestClock (tc_time c) (tc_timers c) (tc_callbacks c).

Definition test_clock_new : TestClock := mkTestClock 0 [] (mkCallbacks None ∅).

(** [retain] with the closure that advances a timer and collects its events. *)
Fixpoint advance_timers {E} (to_time_ns : Z) (m : list (ustr * TestTimer))
  : outcome E (list TimeEvent * list (ustr * TestTimer)) :=
  match m with
  | [] => Ok ([], [])
  | (name, timer) :: m =>
      r ← timer_advance timer to_time_ns;
      rest ← advance_timers to_time_ns m;
      Ok (r.1 ++ rest.1,
          if negb (tt_is_expired r.2) then (name, r.2) :: rest.2 else rest.2)
  end.

(** [sort_by_key]: a stable sort. *)
Fixpoint insert_event (x : TimeEvent) (l : list TimeEvent) : list TimeEvent :=
  match l with
  | [] => [x]
  | y :: l' => if te_ts_event x <=? te_ts_event y then x :: l else y :: insert_event x l'
  end.
Definition sort_events (l : list TimeEvent) : list TimeEvent := foldr insert_event [] l.

Definition advance_time {E} (self : TestClock) (to_time_ns : Z) (set_time : bool)
  : outcome E (list TimeEvent * TestClock) :=
  let from_time_ns := tc_time self in
  _ ← assert_ (from_time_ns <=? to_time_ns);
  let self := if set_time then self <| tc_time := to_time_ns |> else self in
  r ← advance_timers to_time_ns (tc_timers self);
  Ok (sort_events r.1, self <| tc_timers := r.2 |>).

Fixpoint match_handlers {E} (self : TestClock) (events : list TimeEvent)
  : outcome E (list (TimeEvent * CB)) :=
  match events with
  | [] => Ok []
  | ev :: events =>
      h ← get_handler (tc_callbacks self) ev;
      hs ← match_handlers self events;
      Ok (h :: hs)
  end.

(** Printing a timestamp in an error message fails beyond [i64::MAX]. *)
Definition to_rfc3339 {E} (ts : Z) : outcome E unit := assert_ (ts <=? imax I64).

Definition validate_and_prepare_time_alert (name : ustr) (alert_time_ns : Z) (allow_past : option bool)
    (ts_now : Z) : outcome unit (ustr * Z) :=
  _ ← match check_valid_string_utf8 name with Ok _ => Ok tt | Err _ => Err tt | Panic => Panic end;
  let allow_past := default true allow_past in
  if alert_time_ns <? ts_now then
    if allow_past then Ok (name, ts_now)
    else _ ← to_rfc3339 alert_time_ns; Err tt
  else Ok (name, alert_time_ns).

Definition validate_and_prepare_timer (name : ustr) (interval_ns : Z)
    (start_time_ns stop_time_ns : option Z) (allow_past fire_immediately : option bool) (ts_now : Z)
  : outcome unit (ustr * Z * option Z * bool * bool) :=
  _ ← match check_valid_string_utf8 name with Ok _ => Ok tt | Err _ => Err tt | Panic => Panic end;
  _ ← err_if (interval_ns =? 0) tt;
  let allow_past := default true allow_past in
  let fire_immediately := default false fire_immediately in
  let start_time_ns := default 0 start_time_ns in
  start_time_ns ←
    (if start_time_ns =? 0 then Ok ts_now
     else if negb allow_past then
       next_event_time ← (if fire_immediately then Ok start_time_ns else unix_add start_time_ns interval_ns);
       if next_event_time <? ts_now then _ ← to_rfc3339 next_event_time; Err tt
       else Ok start_time_ns
     else Ok start_time_ns);
  _ ← match stop_time_ns with
      | Some stop_time =>
          if stop_time <=? start_time_ns then
            _ ← to_rfc3339 stop_time; _ ← to_rfc3339 start_time_ns; Err tt
          else if negb allow_past && (stop_time <=? ts_now) then
            _ ← to_rfc3339 stop_time; Err tt
          else Ok tt
      | None => Ok tt
      end;
  Ok (name, start_time_ns, stop_time_ns, allow_past, fire_immediately).

(** Cancelling the removed timer changes nothing that is left. *)
Definition replace_existing_timer (name : ustr) (m : list (ustr * TestTimer)) : list (ustr * TestTimer) :=
  match tt_is_expired <$> timers_get name m with
  | Some true => timers_remove name m
  | Some false => timers_remove name m
  | None => m
  end.

(** The setters return the clock together with the result: an error can come
    after a change. *)
Definition set_time_alert_ns (self : TestClock) (name : ustr) (alert_time_ns : Z)
    (callback : option CB) (allow_past : option bool) : outcome unit unit * TestClock :=
  let ts_now := tc_time self in
  match validate_and_prepare_time_alert name alert_time_ns allow_past ts_now with
  | Err e => (Err e, self)
  | Panic => (Panic, self)
  | Ok (name, alert_time_ns) =>
      let self := self <| tc_timers := replace_existing_timer name (tc_timers self) |> in
      if negb (bool_decide (is_Some callback) || has_any_callback (tc_callbacks self) name)
      then (Err tt, self)
      else
        let self := match callback with
                    | Some cb => self <| tc_callbacks := register_callback (tc_callbacks self) name cb |>
                    | None => self
                    end in
        match (interval ← unix_sub alert_time_ns ts_now;
               let interval_ns := create_valid_interval interval in
               let fire_immediately := alert_time_ns =? ts_now in
               test_timer_new name interval_ns ts_now (Some alert_time_ns) fire_immediately) with
        | Ok timer => (Ok tt, self <| tc_timers := timers_insert name timer (tc_timers self) |>)
        | Err e => (Err e, self)
        | Panic => (Panic, self)
        end
  end.

Definition set_timer_ns (self : TestClock) (name : ustr) (interval_ns : Z)
    (start_time_ns stop_time_ns : option Z) (callback : option CB)
    (allow_past fire_immediately : option bool) : outcome unit unit * TestClock :=
  let ts_now := tc_time self in
  match validate_and_prepare_timer name interval_ns start_time_ns stop_time_ns allow_past
          fire_immediately ts_now with
  | Err e => (Err e, self)
  | Panic => (Panic, self)
  | Ok (name, start_time_ns, stop_time_ns, _, fire_immediately) =>
      if negb (bool_decide (is_Some callback) || has_any_callback (tc_callbacks self) name)
      then (Err tt, self)
      else
        let self := self <| tc_timers := replace_existing_timer name (tc_timers self) |> in
        let self := match callback with
                    | Some cb => self <| tc_callbacks := register_callback (tc_callbacks self) name cb |>
                    | None => self
                    end in
        let interval_ns := create_valid_interval interval_ns in
        match test_timer_new name interval_ns start_time_ns stop_time_ns fire_immediately with
        | Ok timer => (Ok tt, self <| tc_timers := timers_insert name timer (tc_timers self) |>)
        | Err e => (Err e, self)
        | Panic => (Panic, self)
        end
  end.

Definition clock_next_time_ns (self : TestClock) (name : ustr) : option Z :=
  tt_next_time_ns <$> timers_get name (tc_timers self).
Definition cancel_timer (self : TestClock) (name : ustr) : TestClock :=
  self <| tc_timers := timers_remove name (tc_timers self) |>.
Definition cancel_timers (self : TestClock) : TestClock := self <| tc_timers := [] |>.
Definition clock_reset (self : TestClock) : TestClock :=
  self <| tc_time := 0 |> <| tc_timers := [] |>
       <| tc_callbacks := callbacks_clear (tc_callbacks self) |>.
Definition timer_names (self : TestClock) : list ustr :=
  fst <$> List.filter (fun nt => negb (tt_is_expired nt.2)) (tc_timers self).
Definition timer_count (self : TestClock) : Z :=
  Z.of_nat (length (List.filter (fun nt => negb (tt_is_expired nt.2)) (tc_timers self))).
Definition timer_exists (self : TestClock) (name : ustr) : bool :=
  bool_decide (is_Some (timers_get name (tc_timers self))).
End Clock.
Arguments TestClock : clear implicits.
Arguments CallbackRegistry : clear implicits.
