(* ===== verification/ClockSpec.v ===== *)
(** * The test clock: every event once, in order

    A timer stands for the set of its firing times ([fires_at]).  Advancing the
    clock delivers exactly the events that are due, sorted by time and, at the
    same time, by timer name, and leaves exactly the later ones due. *)

From stdpp Require Import base numbers list strings gmap sorting.
From Stdlib Require Import ZArith Ascii Lia Sorted.
From S2P Require Import Prelude Fixed Maps Glob Router RouterSpec Clock.

Open Scope Z_scope.

(* ------------------------------------------------------------------ *)
(** ** Firing times *)

Definition fires_at (t : TestTimer) (ts : Z) : Prop :=
  tt_is_expired t = false /\
  (exists k, 0 <= k /\ ts = tt_next_time_ns t + k * tt_interval_ns t) /\
  (forall s, tt_stop_time_ns t = Some s -> ts <= s).

Definition timer_ok (t : TestTimer) : Prop := 1 <= tt_interval_ns t /\ 0 <= tt_next_time_ns t.

Definition event_at (name : ustr) (ts : Z) : TimeEvent := mkTimeEvent name ts ts.

Lemma fires_at_expired t ts : tt_is_expired t = true -> ~ fires_at t ts.
Proof. intros H (H' & _). congruence. Qed.

Lemma fires_at_past_stop t ts : timer_ok t -> past_stop t = true -> ~ fires_at t ts.
Proof.
  intros [Hi _] Hp (_ & (k & Hk & ->) & Hs). unfold past_stop in Hp.
  destruct (tt_stop_time_ns t) as [s|]; [|done]. specialize (Hs s eq_refl). bool_simpl. nia.
Qed.

(** The timer after one event. *)
Definition stepped (t : TestTimer) : TestTimer :=
  (if at_stop t then t <| tt_is_expired := true |> else t)
    <| tt_next_time_ns := tt_next_time_ns t + tt_interval_ns t |>.

Lemma fires_at_step t ts :
  timer_ok t -> tt_is_expired t = false -> past_stop t = false ->
  fires_at t ts <-> ts = tt_next_time_ns t \/ fires_at (stepped t) ts.
Proof.
  intros [Hi Hn] He Hp. unfold past_stop in Hp.
  assert (Hst : tt_stop_time_ns (stepped t) = tt_stop_time_ns t).
  { unfold stepped. by destruct (at_stop t). }
  assert (Hin : tt_interval_ns (stepped t) = tt_interval_ns t).
  { unfold stepped. by destruct (at_stop t). }
  assert (Hnx : tt_next_time_ns (stepped t) = tt_next_time_ns t + tt_interval_ns t).
  { unfold stepped. by destruct (at_stop t). }
  assert (Hex : tt_is_expired (stepped t) = at_stop t).
  { unfold stepped. by destruct (at_stop t). }
  unfold fires_at. rewrite Hst, Hin, Hnx, Hex, He. unfold at_stop.
  destruct (tt_stop_time_ns t) as [s|]; bool_simpl.
  - split.
    + intros (_ & (k & Hk & ->) & Hs). specialize (Hs s eq_refl).
      destruct (decide (k = 0)) as [->|Hk0]; [left; lia|right]. split_and!.
      * apply Z.eqb_neq. nia.
      * exists (k - 1). lia.
      * intros s' [= <-]. lia.
    + intros [->|(He' & (k & Hk & Hts) & Hs)].
      * split_and!; [done|exists 0; lia|]. intros s' [= <-]. lia.
      * split_and!; [done|exists (k + 1); lia|done].
  - split.
    + intros (_ & (k & Hk & ->) & _). destruct (decide (k = 0)) as [->|Hk0]; [left; lia|right].
      split_and!; [done|exists (k - 1); lia|done].
    + intros [->|(_ & (k & Hk & Hts) & _)]; (split_and!; [done| |done]); [exists 0; lia|exists (k + 1); lia].
Qed.

Lemma stepped_ok t : timer_ok t -> timer_ok (stepped t) /\ tt_name (stepped t) = tt_name t.
Proof. unfold timer_ok, stepped, set_field. destruct (at_stop t); simpl; intros [? ?]; (split; [lia|done]). Qed.

Lemma timer_next_step {E} t :
  timer_ok t -> tt_is_expired t = false -> past_stop t = false ->
  tt_next_time_ns t + tt_interval_ns t <= imax U64 ->
  timer_next (E := E) t = Ok (Some (event_at (tt_name t) (tt_next_time_ns t)), stepped t).
Proof.
  intros [Hi Hn] He Hp Hb. unfold timer_next, stepped. rewrite He, Hp.
  assert (Hin : in_ty U64 (tt_next_time_ns t + tt_interval_ns t) = true).
  { apply in_ty_spec. change (imin U64) with 0. lia. }
  by destruct (at_stop t); simpl; unfold unix_add, checked, set_field; simpl; rewrite Hin.
Qed.

(** [n] is the number of terms of the timer's progression up to [to]. *)
Lemma timer_take_spec {E} n t to :
  timer_ok t -> to + tt_interval_ns t <= imax U64 ->
  to < tt_next_time_ns t + Z.of_nat n * tt_interval_ns t ->
  (n <> O -> tt_next_time_ns t + (Z.of_nat n - 1) * tt_interval_ns t <= to) ->
  exists tss t',
    timer_take (E := E) n t = Ok (event_at (tt_name t) <$> tss, t') /\
    timer_ok t' /\ tt_name t' = tt_name t /\ StronglySorted Z.lt tss /\
    (forall ts, ts ∈ tss <-> fires_at t ts /\ ts <= to) /\
    (forall ts, fires_at t' ts <-> fires_at t ts /\ to < ts).
Proof.
  revert t. induction n as [|n IH]; intros t Hok Hb Hlo Hhi.
  - exists [], t. destruct Hok as [Hi Hn]. split_and!; try done; [constructor|..].
    + intros ts. rewrite elem_of_nil. split; [done|]. intros [(_ & (k & Hk & ->) & _) Hle]. nia.
    + intros ts. split; [|tauto]. intros Hf. split; [done|]. destruct Hf as (_ & (k & Hk & ->) & _). nia.
  - specialize (Hhi ltac:(done)).
    assert (Hle : tt_next_time_ns t <= to) by (destruct Hok; nia).
    destruct (tt_is_expired t) eqn:He; [|destruct (past_stop t) eqn:Hp].
    + exists [], t. simpl. unfold timer_next. rewrite He. split_and!; try done; [constructor|..].
      all: intros ts; pose proof (fires_at_expired t ts He); rewrite ?elem_of_nil; tauto.
    + exists [], (t <| tt_is_expired := true |>). simpl. unfold timer_next. rewrite He, Hp.
      split_and!; try done; [constructor|..].
      * intros ts. pose proof (fires_at_past_stop t ts Hok Hp). rewrite elem_of_nil. tauto.
      * intros ts. pose proof (fires_at_past_stop t ts Hok Hp).
        pose proof (fires_at_expired (t <| tt_is_expired := true |>) ts eq_refl). tauto.
    + destruct (stepped_ok t Hok) as [Hok' Hname].
      assert (Hin : tt_interval_ns (stepped t) = tt_interval_ns t) by (unfold stepped; by destruct (at_stop t)).
      assert (Hnx : tt_next_time_ns (stepped t) = tt_next_time_ns t + tt_interval_ns t)
        by (unfold stepped; by destruct (at_stop t)).
      destruct (IH (stepped t)) as (tss & t' & H1 & H2 & H3 & H4 & H5 & H6);
        [done|lia|lia|intros; lia|].
      exists (tt_next_time_ns t :: tss), t'. simpl.
      rewrite timer_next_step by (done || lia). osimpl. rewrite H1. osimpl. rewrite Hname.
      split_and!; [done|done|congruence| | |].
      * constructor; [done|]. apply List.Forall_forall. intros ts Hts%list_elem_of_In%H5.
        destruct Hts as [(_ & (k & Hk & ->) & _) _]. rewrite Hin, Hnx. destruct Hok. nia.
      * intros ts. rewrite elem_of_cons, H5, (fires_at_step t ts) by done. split; [|tauto].
        intros [->|?]; [|tauto]. split; [by left|done].
      * intros ts. rewrite H6, (fires_at_step t ts) by done. split; [tauto|].
        intros [[->|?] ?]; [lia|tauto].
Qed.

Lemma timer_advance_spec {E} t to :
  timer_ok t -> 0 <= to -> to + tt_interval_ns t <= imax U64 ->
  exists tss t',
    timer_advance (E := E) t to = Ok (event_at (tt_name t) <$> tss, t') /\
    timer_ok t' /\ tt_name t' = tt_name t /\ StronglySorted Z.lt tss /\
    (forall ts, ts ∈ tss <-> fires_at t ts /\ ts <= to) /\
    (forall ts, fires_at t' ts <-> fires_at t ts /\ to < ts).
Proof.
  intros Hok Hto Hb. pose proof Hok as [Hi Hn]. unfold timer_advance.
  pose proof (Z.div_mod (to - tt_next_time_ns t) (tt_interval_ns t)) as Hd.
  pose proof (Z.mod_pos_bound (to - tt_next_time_ns t) (tt_interval_ns t)) as Hm.
  destruct (Z.leb_spec (tt_next_time_ns t) to) as [Hle|Hgt].
  - set (q := (to - tt_next_time_ns t) / tt_interval_ns t) in *.
    assert (0 <= q) by (apply Z.div_pos; lia).
    assert (q <= to) by (apply Z.div_le_upper_bound; nia).
    rewrite saturate_id by (apply in_ty_spec; change (imin U64) with 0; lia).
    apply timer_take_spec; [done|done|rewrite Z2Nat.id by lia; nia|].
    intros _. rewrite Z2Nat.id by lia. nia.
  - apply (timer_take_spec 0); [done|done|simpl; lia|done].
Qed.

(* ------------------------------------------------------------------ *)
(** ** The order of the events *)

Section Spec.
Context {CB : Type} {UO : UstrOrd}.

Definition ustr_lt (x y : ustr) : Prop := ustr_cmp x y = Lt.
(** By time, then by name. *)
Definition event_lt (x y : TimeEvent) : Prop :=
  te_ts_event x < te_ts_event y \/
  (te_ts_event x = te_ts_event y /\ ustr_lt (te_name x) (te_name y)).
(** The order in which the timers hand over their events. *)
Definition collected (x y : TimeEvent) : Prop :=
  ustr_lt (te_name x) (te_name y) \/ (te_name x = te_name y /\ te_ts_event x < te_ts_event y).

Lemma ustr_lt_irrefl x : ~ ustr_lt x x.
Proof. unfold ustr_lt. by rewrite (proj2 (ustr_cmp_eq x x) eq_refl). Qed.
Lemma ustr_lt_trans x y z : ustr_lt x y -> ustr_lt y z -> ustr_lt x z.
Proof. apply ustr_cmp_trans. Qed.

Lemma event_lt_trans x y z : event_lt x y -> event_lt y z -> event_lt x z.
Proof.
  unfold event_lt. intros [H1|[E1 H1]] [H2|[E2 H2]]; [left; lia..|].
  right. split; [congruence|by eapply ustr_lt_trans].
Qed.
Lemma event_lt_irrefl x : ~ event_lt x x.
Proof. intros [H|[_ H]]; [lia|by apply ustr_lt_irrefl in H]. Qed.

Lemma insert_event_perm x l : insert_event x l ≡ₚ x :: l.
Proof.
  induction l as [|y l IH]; simpl; [done|]. destruct (_ <=? _); [done|]. rewrite IH. apply Permutation_swap.
Qed.
Lemma sort_events_perm l : sort_events l ≡ₚ l.
Proof. induction l as [|x l IH]; simpl; [done|]. by rewrite insert_event_perm, IH. Qed.

Lemma insert_event_sorted x l :
  StronglySorted event_lt l -> Forall (collected x) l -> StronglySorted event_lt (insert_event x l).
Proof.
  induction 1 as [|y l Hl IH Hy]; simpl; intros Hx; [by repeat constructor|].
  apply Forall_cons in Hx as [Hxy Hx].
  destruct (Z.leb_spec (te_ts_event x) (te_ts_event y)) as [Hle|Hgt].
  - assert (Hlt : event_lt x y).
    { destruct Hxy as [Hn|[_ ?]]; [|by left]. unfold event_lt. destruct (decide (te_ts_event x = te_ts_event y)); [by right|left; lia]. }
    constructor; [by constructor|]. constructor; [done|].
    eapply List.Forall_impl; [|exact Hy]. intros z Hz. by eapply event_lt_trans.
  - constructor; [by apply IH|]. apply Forall_forall. intros z Hz.
    rewrite insert_event_perm in Hz. apply elem_of_cons in Hz as [->|Hz]; [by left|].
    rewrite List.Forall_forall in Hy. apply Hy. by apply list_elem_of_In.
Qed.
Lemma sort_events_sorted l : StronglySorted collected l -> StronglySorted event_lt (sort_events l).
Proof.
  induction 1 as [|x l Hl IH Hx]; simpl; [constructor|]. apply insert_event_sorted; [done|].
  rewrite sort_events_perm. done.
Qed.

(** A strictly sorted list is determined by its elements. *)
Lemma sorted_elements_unique l1 l2 :
  StronglySorted event_lt l1 -> StronglySorted event_lt l2 ->
  (forall x, x ∈ l1 <-> x ∈ l2) -> l1 = l2.
Proof.
  intros H1. revert l2. induction H1 as [|x l1 H1 IH Hx]; intros l2 H2 Heq.
  - destruct l2 as [|y l2]; [done|]. exfalso. apply (not_elem_of_nil y), Heq. left.
  - destruct H2 as [|y l2 H2 Hy]; [exfalso; apply (not_elem_of_nil x), Heq; left|].
    rewrite List.Forall_forall in Hx, Hy. setoid_rewrite <- list_elem_of_In in Hx.
    setoid_rewrite <- list_elem_of_In in Hy.
    assert (x = y) as <-.
    { assert (x ∈ y :: l2) as [?|Hxl]%elem_of_cons by (apply Heq; left); [done|].
      assert (y ∈ x :: l1) as [?|Hyl]%elem_of_cons by (apply Heq; left); [done|].
      destruct (event_lt_irrefl x). eapply event_lt_trans; [by apply Hx|by apply Hy]. }
    f_equal. apply IH; [done|]. intros z. specialize (Heq z). rewrite !elem_of_cons in Heq.
    split; intros Hz.
    + destruct (proj1 Heq (or_intror Hz)) as [->|?]; [|done]. destruct (event_lt_irrefl x). by apply Hx.
    + destruct (proj2 Heq (or_intror Hz)) as [->|?]; [|done]. destruct (event_lt_irrefl x). by apply Hy.
Qed.

(* ------------------------------------------------------------------ *)
(** ** Due events *)

Definition due (c : TestClock CB) (name : ustr) (ts : Z) : Prop :=
  exists t, (name, t) ∈ tc_timers c /\ fires_at t ts.

Definition timers_ok (m : list (ustr * TestTimer)) : Prop :=
  StronglySorted ustr_lt m.*1 /\ Forall (fun nt => tt_name nt.2 = nt.1 /\ timer_ok nt.2) m.

Lemma collected_events name tss evs :
  StronglySorted Z.lt tss -> StronglySorted collected evs ->
  Forall (fun ev => ustr_lt name (te_name ev)) evs ->
  StronglySorted collected ((event_at name <$> tss) ++ evs).
Proof.
  intros Hs He Hn. apply ss_app; [|done|].
  - induction Hs as [|x l Hl IH Hx]; simpl; constructor; [done|].
    rewrite List.Forall_forall in Hx. apply Forall_fmap, Forall_forall. intros y Hy.
    right. split; [done|]. by apply Hx, list_elem_of_In.
  - intros x y Hx Hy. apply list_elem_of_fmap in Hx as (ts & -> & _). left. simpl.
    rewrite Forall_forall in Hn. by apply Hn.
Qed.

Lemma advance_timers_spec {E} to m :
  timers_ok m -> 0 <= to -> Forall (fun nt => to + tt_interval_ns nt.2 <= imax U64) m ->
  exists evs m',
    advance_timers (E := E) to m = Ok (evs, m') /\ timers_ok m' /\ (forall n, n ∈ m'.*1 -> n ∈ m.*1) /\
    StronglySorted collected evs /\
    (forall ev, ev ∈ evs <->
       exists ts t, ev = event_at (te_name ev) ts /\ (te_name ev, t) ∈ m /\ fires_at t ts /\ ts <= to) /\
    (forall n ts, (exists t, (n, t) ∈ m' /\ fires_at t ts) <->
                  (exists t, (n, t) ∈ m /\ fires_at t ts) /\ to < ts).
Proof.
  intros [Hs Hm] Hto Hb. induction m as [|[n t] m IH].
  - exists [], []. split_and!; try done; [constructor|..].
    + intros ev. rewrite elem_of_nil. split; [done|]. intros (ts & t & _ & H%elem_of_nil & _). done.
    + intros n ts. split; [intros (t & H%elem_of_nil & _)|intros [(t & H%elem_of_nil & _) _]]; done.
  - apply Forall_cons in Hm as [[Hn Hok] Hm]. apply Forall_cons in Hb as [Hbt Hb].
    apply StronglySorted_inv in Hs as [Hs Hlt]. simpl in *.
    destruct IH as (evs & m' & A1 & A2 & A3 & A4 & A5 & A6); [done..|].
    destruct (timer_advance_spec (E := E) t to Hok Hto Hbt) as (tss & t' & T1 & T2 & T3 & T4 & T5 & T6).
    rewrite T1. osimpl. rewrite A1. osimpl. rewrite Hn in *. simpl.
    eexists _, _. split; [done|]. split_and!.
    + destruct A2 as [S1 S2]. destruct (negb _); simpl; [|by split]. split; simpl.
      * constructor; [done|]. apply Forall_forall. intros k Hk%A3. rewrite Forall_forall in Hlt. by apply Hlt.
      * constructor; [by split|done].
    + intros k. destruct (negb _); simpl; rewrite ?elem_of_cons; naive_solver.
    + apply collected_events; [done|done|]. apply Forall_forall. intros ev Hev.
      apply A5 in Hev as (ts & u & _ & Hin & _). rewrite Forall_forall in Hlt. apply Hlt.
      apply list_elem_of_fmap. by exists (te_name ev, u).
    + intros ev. rewrite elem_of_app, A5. split.
      * intros [(ts & -> & Hts%T5)%list_elem_of_fmap|(ts & u & H1 & H2 & H3)].
        -- exists ts, t. simpl. split_and!; [done|left|tauto..].
        -- exists ts, u. split_and!; [done|by right|tauto..].
      * intros (ts & u & H1 & [[= Hk ->]|Hin]%elem_of_cons & H3).
        -- left. apply list_elem_of_fmap. exists ts. rewrite H1, Hk. split; [done|by apply T5].
        -- right. by exists ts, u.
    + intros k ts. specialize (A6 k ts). specialize (T6 ts). split.
      * destruct (tt_is_expired t') eqn:He; simpl.
        -- intros (u & Hin & Hf). destruct A6 as [A6 _]. destruct A6 as [(v & ? & ?) ?]; [by exists u|].
           split; [|done]. exists v. split; [by right|done].
        -- intros (u & [[= -> ->]|Hin]%elem_of_cons & Hf).
           ++ apply T6 in Hf as [? ?]. split; [|done]. exists t. split; [left|done].
           ++ destruct A6 as [A6 _]. destruct A6 as [(v & ? & ?) ?]; [by exists u|].
              split; [|done]. exists v. split; [by right|done].
      * intros [(u & [[= -> ->]|Hin]%elem_of_cons & Hf) Hgt].
        -- assert (Hf' : fires_at t' ts) by tauto. destruct (tt_is_expired t') eqn:He; simpl.
           ++ by apply fires_at_expired in Hf'.
           ++ exists t'. split; [left|done].
        -- destruct A6 as [_ A6]. destruct A6 as (v & ? & ?); [split; [by exists u|done]|].
           exists v. destruct (negb _); split; try done. by right.
Qed.

(* ------------------------------------------------------------------ *)
(** ** Setting and removing timers *)

Lemma timers_remove_elem name m n t :
  (n, t) ∈ timers_remove name m <-> n <> name /\ (n, t) ∈ m.
Proof.
  unfold timers_remove. rewrite !list_elem_of_In, List.filter_In. simpl.
  rewrite negb_true_iff, bool_decide_eq_false. tauto.
Qed.
Lemma filter_fst_sorted (f : ustr * TestTimer -> bool) m :
  StronglySorted ustr_lt m.*1 -> StronglySorted ustr_lt (List.filter f m).*1.
Proof.
  induction m as [|[n t] m IH]; simpl; [done|]. intros [Hs Hf]%StronglySorted_inv.
  destruct (f (n, t)); simpl; [|by apply IH]. constructor; [by apply IH|].
  apply Forall_forall. intros k Hk. rewrite Forall_forall in Hf. apply Hf.
  apply list_elem_of_fmap in Hk as (x & -> & Hx). apply list_elem_of_fmap. exists x. split; [done|].
  apply list_elem_of_In, List.filter_In in Hx as [Hx _]. by apply list_elem_of_In.
Qed.
Lemma timers_remove_ok name m : timers_ok m -> timers_ok (timers_remove name m).
Proof.
  intros [Hs Hf]. split; [by apply filter_fst_sorted|]. apply Forall_forall. intros [n t] Hnt.
  apply timers_remove_elem in Hnt as [_ Hnt]. rewrite Forall_forall in Hf. by apply Hf.
Qed.
Lemma timers_get_None name m t : timers_get name m = None -> (name, t) ∉ m.
Proof.
  induction m as [|[n u] m IH]; simpl; [intros _; apply not_elem_of_nil|].
  case_bool_decide as Hn; [done|]. intros Hg [[= -> _]|Hin]%elem_of_cons; [done|]. by apply IH.
Qed.

Lemma replace_existing_spec name m :
  timers_ok m ->
  timers_ok (replace_existing_timer name m) /\
  forall n t, (n, t) ∈ replace_existing_timer name m <-> n <> name /\ (n, t) ∈ m.
Proof.
  intros Hok. unfold replace_existing_timer.
  destruct (timers_get name m) as [t0|] eqn:Hg; simpl.
  - pose proof (timers_remove_ok name m Hok). pose proof (timers_remove_elem name m).
    by destruct (tt_is_expired t0).
  - split; [done|]. intros n t. split; [|tauto]. intros Hin. split; [|done]. intros ->.
    by apply (timers_get_None _ _ t) in Hg.
Qed.

Lemma timers_insert_elem name t m n u :
  (forall v, (name, v) ∉ m) ->
  (n, u) ∈ timers_insert name t m <-> (n = name /\ u = t) \/ (n, u) ∈ m.
Proof.
  induction m as [|[k v] m IH]; simpl; intros Hno.
  - rewrite list_elem_of_singleton, elem_of_nil. naive_solver.
  - destruct (ustr_cmp name k) eqn:Hc.
    + apply ustr_cmp_eq in Hc as ->. destruct (Hno v). left.
    + rewrite elem_of_cons. naive_solver.
    + rewrite !elem_of_cons, IH; [naive_solver|]. intros w Hw. apply (Hno w). by right.
Qed.

Lemma timers_insert_ok name t m :
  timers_ok m -> (forall v, (name, v) ∉ m) -> tt_name t = name -> timer_ok t ->
  timers_ok (timers_insert name t m).
Proof.
  intros [Hs Hf] Hno Hn Hok. split.
  - induction m as [|[k v] m IH]; simpl; [by repeat constructor|].
    simpl in Hs. apply StronglySorted_inv in Hs as [Hs Hk]. apply Forall_cons in Hf as [_ Hf].
    destruct (ustr_cmp name k) eqn:Hc; simpl.
    + apply ustr_cmp_eq in Hc as ->. destruct (Hno v). left.
    + constructor; [by constructor|]. constructor; [done|]. eapply List.Forall_impl; [|exact Hk].
      intros z. by apply ustr_lt_trans.
    + assert (Hno' : forall w, (name, w) ∉ m) by (intros w Hw; apply (Hno w); by right).
      constructor; [by apply IH|]. apply Forall_forall. intros z Hz.
      apply list_elem_of_fmap in Hz as ([z' w] & -> & Hz).
      apply timers_insert_elem in Hz as [[-> ->]|Hz]; [|..|done]; simpl.
      * unfold ustr_lt. by rewrite ustr_cmp_flip, Hc.
      * rewrite Forall_forall in Hk. apply Hk, list_elem_of_fmap. by exists (z', w).
  - apply Forall_forall. intros [z w] Hz. apply timers_insert_elem in Hz as [[-> ->]|Hz]; [done| |done].
    rewrite Forall_forall in Hf. by apply Hf.
Qed.

(** ** Operations *)

Inductive ClockOp : Type :=
  | SetTimeAlert (name : ustr) (alert_time_ns : Z) (callback : option CB) (allow_past : option bool)
  | SetTimer (name : ustr) (interval_ns : Z) (start_time_ns stop_time_ns : option Z)
      (callback : option CB) (allow_past fire_immediately : option bool)
  | Advance (to_time_ns : Z) (set_time : bool)
  | CancelTimer (name : ustr)
  | CancelTimers
  | ResetClock
  | RegisterDefault (callback : CB)
  | CancelDefault
  | CancelCallbacks.

Definition u64 (z : Z) : Prop := 0 <= z <= imax U64.
Definition clock_op_ok (op : ClockOp) : Prop :=
  match op with
  | SetTimeAlert _ a _ _ => u64 a
  | SetTimer _ i s e _ _ _ => u64 i /\ (forall x, s = Some x -> u64 x) /\ (forall x, e = Some x -> u64 x)
  | Advance t _ => u64 t
  | _ => True
  end.

(** The clock after a call that returns, with [Ok] or [Err]. *)
Definition after (r : outcome unit unit * TestClock CB) : option (TestClock CB) :=
  match r.1 with Panic => None | _ => Some r.2 end.
Definition clock_step (c : TestClock CB) (op : ClockOp) : option (TestClock CB) :=
  match op with
  | SetTimeAlert n a cb p => after (set_time_alert_ns c n a cb p)
  | SetTimer n i s e cb p f => after (set_timer_ns c n i s e cb p f)
  | Advance t st => match advance_time (E := unit) c t st with Ok r => Some r.2 | _ => None end
  | CancelTimer n => Some (cancel_timer c n)
  | CancelTimers => Some (cancel_timers c)
  | ResetClock => Some (clock_reset c)
  | RegisterDefault cb => Some (c <| tc_callbacks := register_default_handler (tc_callbacks c) cb |>)
  | CancelDefault => Some (c <| tc_callbacks := cancel_default_handler (tc_callbacks c) |>)
  | CancelCallbacks => Some (c <| tc_callbacks := callbacks_clear (tc_callbacks c) |>)
  end.

Inductive clock_reach : TestClock CB -> Prop :=
  | reach_new : clock_reach test_clock_new
  | reach_step c op c' :
      clock_reach c -> clock_op_ok op -> clock_step c op = Some c' -> clock_reach c'.

(* ------------------------------------------------------------------ *)
(** ** The invariant *)

Definition clock_ok (c : TestClock CB) : Prop := timers_ok (tc_timers c) /\ u64 (tc_time c).

Lemma unix_add_Ok {E} a b x : unix_add (E := E) a b = Ok x -> x = a + b /\ u64 x.
Proof.
  unfold unix_add. intros H. outcome_inv. split; [done|]. apply in_ty_spec in H0. exact H0.
Qed.

Lemma timer_take_ok {E} n t evs t' :
  timer_ok t -> timer_take (E := E) n t = Ok (evs, t') -> timer_ok t' /\ tt_name t' = tt_name t.
Proof.
  revert t evs. induction n as [|n IH]; intros t evs Hok; simpl; [by intros [= <- <-]|].
  intros H. apply bind_Ok_inv in H as ([[ev|] t1] & H1 & H).
  - apply bind_Ok_inv in H as ([evs' t2] & H2 & [= <- <-]). unfold timer_next in H1.
    destruct (tt_is_expired t); [done|]. destruct (past_stop t); [done|].
    apply bind_Ok_inv in H1 as (nx & Hnx & [= <- <-]). apply unix_add_Ok in Hnx as [-> Hu].
    apply IH in H2 as [H3 H4].
    + split; [done|]. rewrite H4. by destruct (at_stop t).
    + destruct Hok as [Hi _]. split; [by destruct (at_stop t)|exact (proj1 Hu)].
  - injection H as <- <-. unfold timer_next in H1. destruct (tt_is_expired t); [by simplify_eq|].
    destruct (past_stop t); [by simplify_eq|]. by apply bind_Ok_inv in H1 as (nx & _ & ?).
Qed.

Lemma advance_timers_ok {E} to m evs m' :
  timers_ok m -> advance_timers (E := E) to m = Ok (evs, m') ->
  timers_ok m' /\ (forall n, n ∈ m'.*1 -> n ∈ m.*1).
Proof.
  revert evs m'. induction m as [|[n t] m IH]; intros evs m' [Hs Hf]; simpl; [by intros [= <- <-]|].
  simpl in Hs. apply StronglySorted_inv in Hs as [Hs Hlt]. apply Forall_cons in Hf as [[Hn Hok] Hf].
  intros H. apply bind_Ok_inv in H as ([e1 t'] & H1 & H). apply bind_Ok_inv in H as ([e2 m2] & H2 & [= <- <-]).
  destruct (IH _ _ (conj Hs Hf) H2) as [[S1 S2] S3].
  destruct (timer_take_ok _ _ _ _ Hok H1) as [Hok' Hn']. simpl in *.
  destruct (tt_is_expired t'); simpl; [split; [by split|]; intros k ?; right; by apply S3|].
  split; [split; simpl|].
  - constructor; [done|]. apply Forall_forall. intros k Hk%S3. rewrite Forall_forall in Hlt. by apply Hlt.
  - constructor; [split; simpl; [congruence|done]|done].
  - intros k. rewrite !elem_of_cons. naive_solver.
Qed.

Lemma create_valid_interval_pos i : 1 <= create_valid_interval i.
Proof. unfold create_valid_interval. lia. Qed.

Lemma test_timer_new_ok {E} name i s e f t :
  1 <= i -> u64 s -> test_timer_new (E := E) name i s e f = Ok t ->
  tt_name t = name /\ timer_ok t.
Proof.
  intros Hi Hs H. unfold test_timer_new in H. apply bind_Ok_inv in H as (_ & _ & H).
  apply bind_Ok_inv in H as (nx & Hnx & [= <-]). split; [done|]. split; simpl; [done|].
  destruct f; [injection Hnx as <-; apply Hs|]. apply unix_add_Ok in Hnx as [_ [? _]]. done.
Qed.

Lemma put_timer_ok name t m :
  timers_ok m -> tt_name t = name -> timer_ok t ->
  timers_ok (timers_insert name t (replace_existing_timer name m)).
Proof.
  intros Hok Hn Ht. destruct (replace_existing_spec name m Hok) as [H1 H2].
  apply timers_insert_ok; [done| |done|done]. intros v Hv%H2. tauto.
Qed.

Lemma set_timer_start_u64 name i s e p f now n s' e' p' f' :
  u64 now -> (forall x, s = Some x -> u64 x) ->
  validate_and_prepare_timer name i s e p f now = Ok (n, s', e', p', f') ->
  n = name /\ e' = e /\ u64 s'.
Proof.
  intros Hnow Hs H. unfold validate_and_prepare_timer in H.
  apply bind_Ok_inv in H as (_ & _ & H). apply bind_Ok_inv in H as (_ & _ & H).
  apply bind_Ok_inv in H as (s1 & H1 & H). apply bind_Ok_inv in H as (_ & _ & [= <- <- <- <- <-]).
  split_and!; [done..|].
  assert (Hd : u64 (default 0 s)) by (destruct s; simpl; [by apply Hs|vm_compute; done]).
  destruct (default 0 s =? 0); [by injection H1 as <-|].
  destruct (negb (default true p)); [|by injection H1 as <-].
  apply bind_Ok_inv in H1 as (nx & _ & H1). destruct (nx <? now); [|by injection H1 as <-].
  by apply bind_Ok_inv in H1 as (_ & _ & ?).
Qed.

Lemma clock_step_ok c op c' :
  clock_ok c -> clock_op_ok op -> clock_step c op = Some c' -> clock_ok c'.
Proof.
  intros Hok Hop Hstep. pose proof Hok as [Hm Ht].
  destruct op as [n a cb p|n i s e cb p f|to st|n| | |cb| |]; simpl in *.
  - unfold after, set_time_alert_ns in Hstep.
    destruct (validate_and_prepare_time_alert n a p (tc_time c)) as [[n' a']| |]; simpl in *;
      [|by simplify_eq|done].
    pose proof (replace_existing_spec n' (tc_timers c) Hm) as [Hr _].
    destruct (negb _); [simplify_eq/=; by split|].
    destruct (_ ≫= _) as [t|err|] eqn:Hnew; simpl in *; [|by destruct cb; simplify_eq/=|done].
    apply bind_Ok_inv in Hnew as (iv & _ & Hnew).
    destruct (test_timer_new_ok _ _ _ _ _ _ (create_valid_interval_pos iv) Ht Hnew).
    destruct cb; simplify_eq/=; (split; [by apply put_timer_ok|done]).
  - unfold after, set_timer_ns in Hstep.
    destruct (validate_and_prepare_timer n i s e p f (tc_time c)) as [[[[[n' s'] e'] p'] f']| |] eqn:Hv;
      simpl in *; [|by simplify_eq|done].
    destruct Hop as (Hi & Hs & _).
    destruct (set_timer_start_u64 _ _ _ _ _ _ _ _ _ _ _ _ Ht Hs Hv) as (-> & -> & Hs').
    pose proof (replace_existing_spec n (tc_timers c) Hm) as [Hr _].
    destruct (negb _); [by simplify_eq/=|].
    destruct (test_timer_new _ _ _ _ _) as [t|err|] eqn:Hnew; simpl in *;
      [|by destruct cb; simplify_eq/=|done].
    destruct (test_timer_new_ok _ _ _ _ _ _ (create_valid_interval_pos i) Hs' Hnew).
    destruct cb; simplify_eq/=; (split; [by apply put_timer_ok|done]).
  - destruct (advance_time c to st) as [[evs c1]| |] eqn:Ha; simplify_eq/=.
    unfold advance_time in Ha. apply bind_Ok_inv in Ha as (_ & _ & Ha).
    apply bind_Ok_inv in Ha as ([e1 m'] & Ha & [= _ <-]).
    split; [|by destruct st]. simpl. destruct st; by apply advance_timers_ok in Ha as [? _].
  - simplify_eq. split; [by apply timers_remove_ok|done].
  - simplify_eq. split; [split; constructor|done].
  - simplify_eq. split; [split; constructor|vm_compute; done].
  - simplify_eq. by split.
  - simplify_eq. by split.
  - simplify_eq. by split.
Qed.

Lemma clock_reach_ok c : clock_reach c -> clock_ok c.
Proof.
  induction 1 as [|c op c' _ IH Hop Hs]; [|by eapply clock_step_ok].
  split; [split; constructor|vm_compute; done].
Qed.

Definition clock_run (c : TestClock CB) (ops : list ClockOp) : option (TestClock CB) :=
  foldl (fun c op => c ≫= fun c => clock_step c op) (Some c) ops.
Lemma clock_run_reach ops c c' :
  clock_reach c -> Forall clock_op_ok ops -> clock_run c ops = Some c' -> clock_reach c'.
Proof.
  unfold clock_run. intros Hr Hops. revert c Hr.
  induction Hops as [|op ops Hop Hops IH]; intros c Hr; simpl; [by intros [= <-]|].
  destruct (clock_step c op) as [c1|] eqn:Hs; [apply IH; by eapply reach_step|].
  intros H. exfalso. clear -H. by induction ops.
Qed.

(* ------------------------------------------------------------------ *)
(** ** Lemmas for the properties *)

(** What a timer delivers up to [to] and leaves for later. *)
Lemma advance_time_spec {E} c to st :
  clock_ok c -> tc_time c <= to ->
  Forall (fun nt => to + tt_interval_ns nt.2 <= imax U64) (tc_timers c) ->
  exists evs c',
    advance_time (E := E) c to st = Ok (evs, c') /\
    StronglySorted event_lt evs /\
    (forall ev, ev ∈ evs <->
       due c (te_name ev) (te_ts_event ev) /\ te_ts_event ev <= to /\ te_ts_init ev = te_ts_event ev) /\
    (forall n ts, due c' n ts <-> due c n ts /\ to < ts) /\
    tc_time c' = (if st then to else tc_time c) /\ tc_callbacks c' = tc_callbacks c.
Proof.
  intros [Hm Ht] Hle Hb. unfold advance_time. replace (tc_time c <=? to) with true by lia. osimpl.
  replace (tc_timers (if st then c <| tc_time := to |> else c)) with (tc_timers c) by by destruct st.
  destruct (advance_timers_spec (E := E) to _ Hm ltac:(destruct Ht; lia) Hb)
    as (evs & m' & A1 & A2 & A3 & A4 & A5 & A6).
  rewrite A1. osimpl. eexists _, _. split; [done|]. split_and!.
  - by apply sort_events_sorted.
  - intros ev. rewrite sort_events_perm, A5. split.
    + intros (ts & t & Hev & Hin & Hf & Hts). rewrite Hev. simpl. split; [by exists t|done].
    + intros ((t & Hin & Hf) & Hts & Hinit). exists (te_ts_event ev), t. split_and!; try done.
      destruct ev as [n ts ti]. simpl in *. unfold event_at. congruence.
  - apply A6.
  - by destruct st.
  - by destruct st.
Qed.

(* ------------------------------------------------------------------ *)
(** ** Properties *)

(** C33: in every reachable clock, advancing to a time not before the current
    one delivers exactly the events that are due by then, each once, ordered
    by timestamp and, at equal timestamps, by timer name; afterwards exactly
    the later firing times are due, so that no event is ever lost or repeated
    by later calls.  The target time plus any timer's interval fits 64 bits. *)
Theorem advance_time_correct {E} (c : TestClock CB) (to : Z) (st : bool) :
  clock_reach c -> tc_time c <= to ->
  Forall (fun nt => to + tt_interval_ns nt.2 <= imax U64) (tc_timers c) ->
  exists evs c',
    advance_time (E := E) c to st = Ok (evs, c') /\
    StronglySorted event_lt evs /\
    (forall ev, ev ∈ evs <->
       due c (te_name ev) (te_ts_event ev) /\ te_ts_event ev <= to /\ te_ts_init ev = te_ts_event ev) /\
    (forall n ts, due c' n ts <-> due c n ts /\ to < ts) /\
    tc_time c' = (if st then to else tc_time c) /\ tc_callbacks c' = tc_callbacks c.
Proof. intros Hr. apply advance_time_spec, clock_reach_ok, Hr. Qed.

(** Advancing in two steps delivers the events of one step, in the same order. *)
Theorem advance_time_split (c c1 c2 c12 : TestClock CB) (t1 t2 : Z) (st : bool) evs1 evs2 evs :
  clock_reach c -> tc_time c <= t1 <= t2 -> u64 t2 ->
  Forall (fun nt => t2 + tt_interval_ns nt.2 <= imax U64) (tc_timers c) ->
  advance_time (E := unit) c t1 st = Ok (evs1, c1) ->
  Forall (fun nt => t2 + tt_interval_ns nt.2 <= imax U64) (tc_timers c1) ->
  advance_time (E := unit) c1 t2 st = Ok (evs2, c2) ->
  advance_time (E := unit) c t2 st = Ok (evs, c12) ->
  evs1 ++ evs2 = evs.
Proof.
  intros Hr [Hle1 Hle2] Ht2 Hb H1 Hb1 H2 H12. pose proof (clock_reach_ok c Hr) as Hok.
  assert (Ht1 : u64 t1) by (destruct Hok as [_ [? ?]]; unfold u64 in *; lia).
  assert (Hb' : Forall (fun nt => t1 + tt_interval_ns nt.2 <= imax U64) (tc_timers c)).
  { eapply Forall_impl; [exact Hb|]. intros nt. simpl. lia. }
  assert (Hok1 : clock_ok c1).
  { apply (clock_step_ok c (Advance t1 st)); [done|done|]. simpl. by rewrite H1. }
  destruct (advance_time_spec (E := unit) c t1 st Hok Hle1 Hb') as (? & ? & E1 & S1 & M1 & D1 & T1 & _).
  rewrite H1 in E1. injection E1 as <- <-.
  destruct (advance_time_spec (E := unit) c t2 st Hok ltac:(lia) Hb) as (? & ? & E12 & S12 & M12 & _).
  rewrite H12 in E12. injection E12 as <- <-.
  assert (Hle : tc_time c1 <= t2) by (rewrite T1; destruct st; lia).
  destruct (advance_time_spec (E := unit) c1 t2 st Hok1 Hle Hb1) as (? & ? & E2 & S2 & M2 & _).
  rewrite H2 in E2. injection E2 as <- <-.
  apply sorted_elements_unique; [|done|].
  - apply ss_app; [done..|]. intros x y Hx Hy. left. apply M1 in Hx. apply M2 in Hy.
    destruct Hy as (Hd%D1 & _). lia.
  - intros ev. rewrite elem_of_app, M1, M2, M12, D1. split; [intros [?|?]; tauto || (split_and!; tauto || lia)|].
    intros (Hd & Hts & Hi). destruct (Z.le_gt_cases (te_ts_event ev) t1); tauto.
Qed.

(** ** Setting an alert *)

Lemma alert_timer name now a :
  check_valid_string_utf8 name = Ok tt -> u64 now -> now <= a <= imax U64 ->
  exists t,
    (interval ← unix_sub a now;
     test_timer_new (E := unit) name (create_valid_interval interval) now (Some a) (a =? now)) = Ok t /\
    forall ts, fires_at t ts <-> ts = a.
Proof.
  intros Hv Hnow Ha. unfold unix_sub, checked.
  rewrite (proj2 (in_ty_spec U64 (a - now))) by (change (imin U64) with 0; destruct Hnow; lia).
  osimpl. unfold test_timer_new. rewrite Hv. osimpl. unfold create_valid_interval.
  destruct (Z.eqb_spec a now) as [->|Hne]; osimpl.
  - eexists. split; [done|]. intros ts. unfold fires_at. simpl. split.
    + intros (_ & (k & Hk & ->) & Hs). specialize (Hs now eq_refl). lia.
    + intros ->. split_and!; [done|exists 0; lia|]. intros s [= <-]. lia.
  - rewrite Z.max_l by lia. unfold unix_add, checked.
    replace (now + (a - now)) with a by lia.
    rewrite (proj2 (in_ty_spec U64 a)) by (change (imin U64) with 0; destruct Hnow; lia). osimpl.
    eexists. split; [done|]. intros ts. unfold fires_at. simpl. split.
    + intros (_ & (k & Hk & ->) & Hs). specialize (Hs a eq_refl). nia.
    + intros ->. split_and!; [done|exists 0; lia|]. intros s [= <-]. lia.
Qed.

Lemma due_put c cbs name t n ts :
  clock_ok c ->
  due (mkTestClock (tc_time c) (timers_insert name t (replace_existing_timer name (tc_timers c))) cbs) n ts
  <-> if decide (n = name) then fires_at t ts else due c n ts.
Proof.
  intros [Hm _]. destruct (replace_existing_spec name _ Hm) as [_ Hel]. unfold due. simpl.
  assert (Hno : forall v, (name, v) ∉ replace_existing_timer name (tc_timers c)) by (intros v Hv%Hel; tauto).
  setoid_rewrite timers_insert_elem; [|done]. setoid_rewrite Hel.
  case_decide as Hn; [subst|]; naive_solver.
Qed.
Lemma due_replaced c cbs name n ts :
  clock_ok c ->
  due (mkTestClock (tc_time c) (replace_existing_timer name (tc_timers c)) cbs) n ts
  <-> n <> name /\ due c n ts.
Proof.
  intros [Hm _]. destruct (replace_existing_spec name _ Hm) as [_ Hel]. unfold due. simpl.
  setoid_rewrite Hel. naive_solver.
Qed.

Definition has_callback (c : TestClock CB) (name : ustr) (callback : option CB) : bool :=
  bool_decide (is_Some callback) || has_any_callback (tc_callbacks c) name.

(** setting an alert under a valid name, at a time that is not past or
    where past times are allowed, and with some callback to run, replaces the
    timer of that name by one that fires exactly once, at the alert time or now
    if that is past, with the given callback; all other timers stay as they
    are.  An invalid name or a past time that is not allowed changes nothing.
    Without any callback the call is an error, but the timer that had the name
    is already gone. *)
Theorem time_alert_correct (c : TestClock CB) (name : ustr) (alert : Z) (cb : option CB)
    (allow_past : option bool) :
  clock_reach c -> u64 alert ->
  let r := set_time_alert_ns c name alert cb allow_past in
  let on_time := default true allow_past || (tc_time c <=? alert) in
  (check_valid_string_utf8 name = Ok tt -> on_time = true -> has_callback c name cb = true ->
   r.1 = Ok tt /\
   (forall n ts, due r.2 n ts <->
      if decide (n = name) then ts = Z.max alert (tc_time c) else due c n ts) /\
   get_callback (tc_callbacks r.2) name
     = match cb with Some f => Some f | None => get_callback (tc_callbacks c) name end) /\
  (check_valid_string_utf8 name <> Ok tt \/ on_time = false -> r.1 <> Ok tt /\ r.2 = c) /\
  (check_valid_string_utf8 name = Ok tt -> on_time = true -> has_callback c name cb = false ->
   r.1 = Err tt /\ forall n ts, due r.2 n ts <-> n <> name /\ due c n ts).
Proof.
  intros Hr%clock_reach_ok Ha. pose proof Hr as [_ Hnow]. cbv zeta.
  unfold set_time_alert_ns, validate_and_prepare_time_alert.
  destruct (check_valid_string_utf8 name) as [[]| |] eqn:Hv; osimpl.
  2,3: split_and!; [done|by intros _|done].
  assert (Hval : default true allow_past || (tc_time c <=? alert) = true ->
    (if alert <? tc_time c then if default true allow_past then Ok (name, tc_time c)
     else _ ← to_rfc3339 alert; Err tt else Ok (name, alert))
    = Ok (E := unit) (name, Z.max alert (tc_time c))).
  { rewrite Z.ltb_antisym. destruct (Z.leb_spec (tc_time c) alert); simpl.
    - by rewrite Z.max_l by lia.
    - rewrite orb_false_r. intros ->. by rewrite Z.max_r by lia. }
  split_and!.
  - intros _ Ht Hcb. rewrite Hval by done. cbv iota beta.
    unfold has_callback in Hcb. cbn [tc_callbacks set_field]. simpl. rewrite Hcb. simpl.
    destruct (alert_timer name (tc_time c) (Z.max alert (tc_time c)) Hv Hnow) as (t & Ht1 & Ht2);
      [destruct Ha, Hnow; lia|].
    unfold set_field. simpl. rewrite Ht1. simpl. split_and!; [done| |].
    + intros n ts. destruct cb; simpl; rewrite due_put by done; case_decide; [apply Ht2|done|apply Ht2|done].
    + destruct cb as [f|]; simpl; [|done]. unfold get_callback. simpl. by rewrite lookup_insert_eq.
  - intros [?|Ht]; [done|]. apply orb_false_iff in Ht as [Hp Hlt]. rewrite Hp.
    replace (alert <? tc_time c) with true by lia. unfold to_rfc3339.
    by destruct (alert <=? imax I64).
  - intros _ Ht Hcb. rewrite Hval by done. cbv iota beta. unfold has_callback in Hcb.
    simpl. rewrite Hcb. simpl. split; [done|]. intros n ts. by apply due_replaced.
Qed.
End Spec.

(* ------------------------------------------------------------------ *)
(** ** Witnesses *)

Module ClockExample.
Definition a : ustr := text "a".
Definition b : ustr := text "b".
Definition ops : list (ClockOp (CB := ustr)) :=
  [RegisterDefault (text "log"); SetTimer a 3 None (Some 7) None None None;
   SetTimeAlert b 6 (Some (text "wake")) None].
Definition clock : TestClock ustr :=
  match clock_run test_clock_new ops with Some c => c | None => test_clock_new end.

Lemma clock_is_reachable : clock_reach clock.
Proof.
  apply (clock_run_reach ops test_clock_new); [constructor| |reflexivity].
  repeat apply Forall_cons_2; [exact I| |split; vm_compute; discriminate|by apply Forall_nil].
  split_and!; [vm_compute; split; discriminate|done|]. intros x [= <-]. vm_compute. split; discriminate.
Qed.

Example advance_time_correct_witness :
  exists c', advance_time (E := unit) clock 6 true
             = Ok ([event_at a 3; event_at a 6; event_at b 6], c') /\
  (forall n ts, due c' n ts <-> due clock n ts /\ 6 < ts).
Proof.
  destruct (advance_time_correct (E := unit) clock 6 true) as (evs & c' & Hadv & _ & _ & Hdue & _).
  - apply clock_is_reachable.
  - vm_compute. discriminate.
  - repeat constructor; vm_compute; discriminate.
  - exists c'. split; [|exact Hdue]. rewrite Hadv. vm_compute in Hadv. injection Hadv as <- _.
    vm_compute. reflexivity.
Defined.

Example time_alert_correct_witness :
  exists c', set_time_alert_ns clock b 2 None (Some true) = (Ok tt, c') /\ due c' b 2 /\ ~ due c' b 6.
Proof.
  destruct (time_alert_correct clock b 2 None (Some true)) as [H _];
    [apply clock_is_reachable|split; vm_compute; discriminate|].
  destruct H as (H1 & H2 & _); [vm_compute; reflexivity..|].
  exists (set_time_alert_ns clock b 2 None (Some true)).2. split; [|split].
  - rewrite <- H1. by destruct (set_time_alert_ns clock b 2 None (Some true)).
  - apply H2. vm_compute. reflexivity.
  - intros Hd. apply H2 in Hd. vm_compute in Hd. discriminate.
Defined.
End ClockExample.
