(* ===== verification/Lifecycle.v ===== *)
(** * Component life cycle and registry ([crates/common/src/component.rs],
    [enums.rs])

    A component is a state machine with user hooks: each operation makes a
    transition, runs the hook, and completes the transition.  Operations on
    registered components go through a registry that tracks which components
    are borrowed; a hook may call the registry again. *)

From stdpp Require Import base numbers list gmap.
From Stdlib Require Import Lia.
From S2P Require Import Prelude.

Open Scope nat_scope.

Inductive ComponentState : Type :=
  | PreInitialized | Ready | Starting | Running | Stopping | Stopped | Resuming
  | Resetting | Disposing | Disposed | Degrading | Degraded | Faulting | Faulted.

Inductive ComponentTrigger : Type :=
  | TrInitialize | TrStart | TrStartCompleted | TrStop | TrStopCompleted | TrResume | TrResumeCompleted
  | TrReset | TrResetCompleted | TrDispose | TrDisposeCompleted | TrDegrade | TrDegradeCompleted
  | TrFault | TrFaultCompleted.

#[export] Instance component_state_eq_dec : EqDecision ComponentState.
Proof. solve_decision. Defined.

(** [ComponentState::transition] *)
Definition component_transition (s : ComponentState) (t : ComponentTrigger) : option ComponentState :=
  match s, t with
  | PreInitialized, TrInitialize => Some Ready
  | Ready, TrReset => Some Resetting
  | Ready, TrStart => Some Starting
  | Ready, TrDispose => Some Disposing
  | Resetting, TrResetCompleted => Some Ready
  | Starting, TrStartCompleted => Some Running
  | Starting, TrStop => Some Stopping
  | Starting, TrFault => Some Faulting
  | Running, TrStop => Some Stopping
  | Running, TrDegrade => Some Degrading
  | Running, TrFault => Some Faulting
  | Resuming, TrStop => Some Stopping
  | Resuming, TrResumeCompleted => Some Running
  | Resuming, TrFault => Some Faulting
  | Stopping, TrStopCompleted => Some Stopped
  | Stopping, TrFault => Some Faulting
  | Stopped, TrReset => Some Resetting
  | Stopped, TrResume => Some Resuming
  | Stopped, TrDispose => Some Disposing
  | Stopped, TrFault => Some Faulting
  | Degrading, TrDegradeCompleted => Some Degraded
  | Degraded, TrResume => Some Resuming
  | Degraded, TrStop => Some Stopping
  | Degraded, TrFault => Some Faulting
  | Disposing, TrDisposeCompleted => Some Disposed
  | Faulting, TrFaultCompleted => Some Faulted
  | _, _ => None
  end.

(** The seven operations with a hook. *)
Inductive lifecycle_op : Type :=
  | OpStart | OpStop | OpResume | OpDegrade | OpFault | OpReset | OpDispose.

Definition op_trigger (o : lifecycle_op) : ComponentTrigger :=
  match o with
  | OpStart => TrStart | OpStop => TrStop | OpResume => TrResume | OpDegrade => TrDegrade
  | OpFault => TrFault | OpReset => TrReset | OpDispose => TrDispose
  end.

Definition op_completed (o : lifecycle_op) : ComponentTrigger :=
  match o with
  | OpStart => TrStartCompleted | OpStop => TrStopCompleted | OpResume => TrResumeCompleted
  | OpDegrade => TrDegradeCompleted | OpFault => TrFaultCompleted | OpReset => TrResetCompleted
  | OpDispose => TrDisposeCompleted
  end.

(** ** The trait *)

(** A component: its state, and for each operation the hook [on_start],
    [on_stop], ..., which changes the component and may fail. *)
Class Component (C E : Type) : Type := {
  c_state : C -> ComponentState;
  c_set_state : ComponentState -> C -> C;
  c_hook : lifecycle_op -> C -> option E * C;
}.

Inductive component_error (E : Type) : Type :=
  | InvalidTrigger (s : ComponentState) (t : ComponentTrigger)
  | HookFailed (e : E).
Arguments InvalidTrigger {E} s t.
Arguments HookFailed {E} e.

Section trait.
Context {C E : Type} {CC : Component C E}.

(** The required method, as the components implement it. *)
Definition transition_state (t : ComponentTrigger) (c : C) : option (component_error E) * C :=
  match component_transition (c_state c) t with
  | Some s => (None, c_set_state s c)
  | None => (Some (InvalidTrigger (c_state c) t), c)
  end.

Definition is_ready (c : C) : bool := bool_decide (c_state c = Ready).
Definition is_running (c : C) : bool := bool_decide (c_state c = Running).
Definition not_running (c : C) : bool := negb (is_running c).
Definition is_stopped (c : C) : bool := bool_decide (c_state c = Stopped).
Definition is_degraded (c : C) : bool := bool_decide (c_state c = Degraded).
Definition is_faulted (c : C) : bool := bool_decide (c_state c = Faulted).
Definition is_disposed (c : C) : bool := bool_decide (c_state c = Disposed).

Definition component_initialize (c : C) : option (component_error E) * C := transition_state TrInitialize c.

(** The body the seven operations share: transition, hook, completion. *)
Definition component_op (o : lifecycle_op) (c : C) : option (component_error E) * C :=
  match transition_state (op_trigger o) c with
  | (Some e, c) => (Some e, c)
  | (None, c) =>
      match c_hook o c with
      | (Some e, c) => (Some (HookFailed e), c)
      | (None, c) => transition_state (op_completed o) c
      end
  end.

Definition component_start (c : C) := component_op OpStart c.
Definition component_stop (c : C) := component_op OpStop c.
Definition component_resume (c : C) := component_op OpResume c.
Definition component_degrade (c : C) := component_op OpDegrade c.
Definition component_fault (c : C) := component_op OpFault c.
Definition component_reset (c : C) := component_op OpReset c.
Definition component_dispose (c : C) := component_op OpDispose c.
End trait.

(** ** The registry *)

(** What a call through the registry returns; [OutOfFuel] is the model's own. *)
Inductive call_result : Type :=
  | CallOk
  | NotFound
  | AlreadyBorrowed
  | OpFailed
  | OutOfFuel.

#[export] Instance call_result_eq_dec : EqDecision call_result.
Proof. solve_decision. Defined.

Section registry.
Context {K : Type} `{Countable K}.

(** A component behind the registry is known by its state; what its hook does is
    a list of calls of the registry and, from their results, a verdict. *)
Record ComponentRegistry : Type := mkRegistry {
  cr_components : gmap K ComponentState;
  cr_borrows : gset K;
}.

Definition registry_new : ComponentRegistry := mkRegistry ∅ ∅.
Definition registry_insert (r : ComponentRegistry) (id : K) (s : ComponentState) : ComponentRegistry :=
  mkRegistry (<[id := s]> (cr_components r)) (cr_borrows r).
Definition is_borrowed (r : ComponentRegistry) (id : K) : bool := bool_decide (id ∈ cr_borrows r).
Definition try_borrow (r : ComponentRegistry) (id : K) : bool * ComponentRegistry :=
  if bool_decide (id ∈ cr_borrows r) then (false, r)
  else (true, mkRegistry (cr_components r) ({[id]} ∪ cr_borrows r)).
Definition release_borrow (r : ComponentRegistry) (id : K) : ComponentRegistry :=
  mkRegistry (cr_components r) (cr_borrows r ∖ {[id]}).

(** The hooks of the registered components. *)
Context (hook_calls : K -> lifecycle_op -> list (lifecycle_op * K)).
Context (hook_verdict : K -> lifecycle_op -> list call_result -> bool).

(** [transition_state] on the component behind an id. *)
Definition registry_transition (r : ComponentRegistry) (id : K) (t : ComponentTrigger) : option ComponentRegistry :=
  s ← cr_components r !! id;
  s' ← component_transition s t;
  Some (mkRegistry (<[id := s']> (cr_components r)) (cr_borrows r)).

(** [start_component], [stop_component], [reset_component], [dispose_component]. *)
Fixpoint call_component (fuel : nat) (r : ComponentRegistry) (o : lifecycle_op) (id : K)
  : call_result * ComponentRegistry :=
  match fuel with
  | O => (OutOfFuel, r)
  | S fuel =>
      match cr_components r !! id with
      | None => (NotFound, r)
      | Some _ =>
          match try_borrow r id with
          | (false, r) => (AlreadyBorrowed, r)
          | (true, r) =>
              let '(res, r) :=
                match registry_transition r id (op_trigger o) with
                | None => (OpFailed, r)
                | Some r =>
                    let '(results, r) :=
                      foldl (fun '(results, r) '(o', id') =>
                               let '(res, r) := call_component fuel r o' id' in (results ++ [res], r))
                            ([], r) (hook_calls id o) in
                    if bool_decide (OutOfFuel ∈ results) then (OutOfFuel, r)
                    else if hook_verdict id o results
                    then
                      match registry_transition r id (op_completed o) with
                      | None => (OpFailed, r)
                      | Some r => (CallOk, r)
                      end
                    else (OpFailed, r)
                end in
              (res, release_borrow r id)
          end
      end
  end.
End registry.
Arguments ComponentRegistry K {_ _}.

(** ** The state machine *)

(** States no operation leaves. *)
Definition dead_end (s : ComponentState) : bool :=
  match s with
  | Resetting | Disposing | Disposed | Degrading | Faulting | Faulted => true
  | _ => false
  end.

Lemma op_trigger_dead s o : dead_end s = true -> component_transition s (op_trigger o) = None.
Proof. by destruct s, o. Qed.

(** Some operation is accepted in every other state but the initial one. *)
Lemma live_accepts s : dead_end s = false -> s <> PreInitialized -> exists o s', component_transition s (op_trigger o) = Some s'.
Proof. destruct s; try done; intros _ _; first [by eexists OpStart, _|by eexists OpStop, _|by eexists OpFault, _]. Qed.

(** A started transition can be completed. *)
Lemma transition_completes s o s1 :
  component_transition s (op_trigger o) = Some s1 -> is_Some (component_transition s1 (op_completed o)).
Proof. destruct s, o; cbn; intros [= <-]; by eexists. Qed.

(** The hook of a transition that fails leaves the component in the state of the transition. *)
Definition hook_state (o : lifecycle_op) : ComponentState :=
  match o with
  | OpStart => Starting | OpStop => Stopping | OpResume => Resuming | OpDegrade => Degrading
  | OpFault => Faulting | OpReset => Resetting | OpDispose => Disposing
  end.

Definition final_state (o : lifecycle_op) : ComponentState :=
  match o with
  | OpStart | OpResume => Running | OpStop => Stopped | OpDegrade => Degraded
  | OpFault => Faulted | OpReset => Ready | OpDispose => Disposed
  end.

Lemma transition_hook_state s o s1 : component_transition s (op_trigger o) = Some s1 -> s1 = hook_state o.
Proof. destruct s, o; cbn; intros [= <-]; done. Qed.

Lemma transition_final o : component_transition (hook_state o) (op_completed o) = Some (final_state o).
Proof. by destruct o. Qed.

Section trait_spec.
Context {C E : Type} {CC : Component C E}.
Context (c_state_set : forall s c, c_state (c_set_state s c) = s).
Context (hooks_keep_state : forall o c, c_state (c_hook o c).2 = c_state c).

Lemma component_op_cases (o : lifecycle_op) (c : C) :
  component_op o c =
    match component_transition (c_state c) (op_trigger o) with
    | None => (Some (InvalidTrigger (c_state c) (op_trigger o)), c)
    | Some _ =>
        let c1 := c_set_state (hook_state o) c in
        match c_hook o c1 with
        | (Some e, c2) => (Some (HookFailed e), c2)
        | (None, c2) => (None, c_set_state (final_state o) c2)
        end
    end.
Proof.
  unfold component_op, transition_state at 1. destruct (component_transition _ _) as [s1|] eqn:E1; [|done].
  apply transition_hook_state in E1 as ->. pose proof (hooks_keep_state o (c_set_state (hook_state o) c)) as Hk.
  cbn zeta. destruct (c_hook o _) as [[e|] c2]; [done|]. cbn in Hk. unfold transition_state. by rewrite Hk, c_state_set, transition_final.
Qed.

Fixpoint run_ops (os : list lifecycle_op) (c : C) : C :=
  match os with
  | [] => c
  | o :: os => run_ops os (component_op o c).2
  end.

Lemma dead_end_op o (c : C) : dead_end (c_state c) = true -> component_op o c = (Some (InvalidTrigger (c_state c) (op_trigger o)), c).
Proof. intros Hd. by rewrite component_op_cases, op_trigger_dead. Qed.

Lemma dead_end_run os (c : C) : dead_end (c_state c) = true -> run_ops os c = c.
Proof.
  intros Hd. induction os as [|o os IH]; [done|]. cbn. by rewrite dead_end_op.
Qed.

(** C40: An operation on a component whose hooks leave the component's state field
    alone (the operations are called from outside, not by the hooks) is refused
    when the transition table has no move for its trigger, and then changes
    nothing.  Otherwise it runs the hook on the component in the transitional
    state.  It returns success exactly when the hook does, and what is left is
    what the hook left, moved to the operation's final state; it returns the
    hook's own error exactly when the hook fails, and what is left is what the
    hook left, still in the transitional state.  If the hook of a reset, degrade,
    dispose or fault fails, no sequence of operations ever changes the component
    again. *)
Theorem component_lifecycle (o : lifecycle_op) (c : C) :
  let '(res, c') := component_op (E := E) o c in
  let '(hook_res, c_hooked) := c_hook o (c_set_state (hook_state o) c) in
  match component_transition (c_state c) (op_trigger o) with
  | None => res = Some (InvalidTrigger (c_state c) (op_trigger o)) /\ c' = c
  | Some _ =>
      match hook_res with
      | None => res = None /\ c' = c_set_state (final_state o) c_hooked /\ c_state c' = final_state o
      | Some e =>
          res = Some (HookFailed e) /\ c' = c_hooked /\ c_state c' = hook_state o /\
          (o = OpReset \/ o = OpDegrade \/ o = OpDispose \/ o = OpFault -> forall os, run_ops os c' = c')
      end
  end.
Proof.
  rewrite component_op_cases. pose proof (hooks_keep_state o (c_set_state (hook_state o) c)) as Hk.
  destruct (component_transition _ _) as [s1|]; cbn zeta.
  - destruct (c_hook o _) as [[e|] c2]; cbn in Hk; rewrite ?Hk, c_state_set; split_and!; try done.
    intros Ho os. apply dead_end_run. rewrite Hk, c_state_set. by destruct Ho as [-> |[-> |[-> | ->]]].
  - by destruct (c_hook o _).
Qed.
End trait_spec.

(** A component that fails to reset. *)
#[local] Instance stuck_component : Component ComponentState unit := {|
  c_state s := s;
  c_set_state s _ := s;
  c_hook o s := (match o with OpReset => Some tt | _ => None end, s);
|}.

Lemma component_lifecycle_witness :
  component_op OpReset Ready = (Some (HookFailed tt), Resetting) /\
  (forall os, run_ops os Resetting = Resetting) /\
  component_op OpStart Ready = (None, Running).
Proof.
  split; [reflexivity|]. split; [|reflexivity].
  pose proof (component_lifecycle (CC := stuck_component) (fun _ _ => eq_refl) (fun _ _ => eq_refl) OpReset Ready) as H.
  cbn in H. apply H. left. reflexivity.
Defined.

(** ** Calls through the registry *)

Section registry_spec.
Context {K : Type} `{Countable K}.
Context (hook_calls : K -> lifecycle_op -> list (lifecycle_op * K)).
Context (hook_verdict : K -> lifecycle_op -> list call_result -> bool).
Implicit Types r : ComponentRegistry K.

Abbreviation call := (call_component hook_calls hook_verdict).

(** The components a call can still borrow. *)
Definition free r : gset K := dom (cr_components r) ∖ cr_borrows r.

(** Same components, same borrows, and the borrowed components untouched. *)
Record respects r r' : Prop := {
  rs_dom : dom (cr_components r') = dom (cr_components r);
  rs_borrows : cr_borrows r' = cr_borrows r;
  rs_state id : id ∈ cr_borrows r -> cr_components r' !! id = cr_components r !! id;
}.

#[local] Instance respects_refl : Reflexive respects.
Proof. by intros r. Qed.

#[local] Instance respects_trans : Transitive respects.
Proof.
  intros r1 r2 r3 [D1 B1 S1] [D2 B2 S2]. split; [congruence|congruence|].
  intros id Hid. rewrite S2 by congruence. by apply S1.
Qed.

Lemma respects_free r r' : respects r r' -> free r' = free r.
Proof. intros [D B _]. unfold free. congruence. Qed.

(** The calls a hook makes. *)
Definition hook_fold fuel (calls : list (lifecycle_op * K)) (acc : list call_result * ComponentRegistry K) :=
  foldl (fun '(results, r) '(o', id') => let '(res, r) := call fuel r o' id' in (results ++ [res], r)) acc calls.

Lemma hook_fold_ok fuel calls results r :
  (forall r o id, size (free r) < fuel -> (call fuel r o id).1 <> OutOfFuel /\ respects r (call fuel r o id).2) ->
  size (free r) < fuel -> OutOfFuel ∉ results ->
  (OutOfFuel ∉ (hook_fold fuel calls (results, r)).1) /\ respects r (hook_fold fuel calls (results, r)).2.
Proof.
  intros Hcall. revert results r. induction calls as [|[o id] calls IH]; intros results r Hf Hres; [done|]. cbn.
  destruct (Hcall r o id Hf) as [Hne Hr]. destruct (call fuel r o id) as [res r1]. cbn in *.
  destruct (IH (results ++ [res]) r1) as [Hout Hr'].
  - by rewrite (respects_free r r1).
  - rewrite elem_of_app, list_elem_of_singleton. naive_solver.
  - split; [done|]. by transitivity r1.
Qed.

(** The call with the borrow bookkeeping taken apart. *)
Definition borrowed r id : ComponentRegistry K := mkRegistry (cr_components r) ({[id]} ∪ cr_borrows r).

Lemma registry_transition_spec r id t s :
  cr_components r !! id = Some s ->
  registry_transition r id t =
    (fun s' => mkRegistry (<[id := s']> (cr_components r)) (cr_borrows r)) <$> component_transition s t.
Proof. intros Es. unfold registry_transition. by rewrite Es. Qed.

Lemma call_cases fuel r o id :
  (forall r o id, size (free r) < fuel -> (call fuel r o id).1 <> OutOfFuel /\ respects r (call fuel r o id).2) ->
  size (free r) < S fuel ->
  match cr_components r !! id with
  | None => call (S fuel) r o id = (NotFound, r)
  | Some s =>
      if decide (id ∈ cr_borrows r) then call (S fuel) r o id = (AlreadyBorrowed, r)
      else
        match component_transition s (op_trigger o) with
        | None => call (S fuel) r o id = (OpFailed, release_borrow (borrowed r id) id)
        | Some s1 =>
            exists results r2,
              respects (mkRegistry (<[id := s1]> (cr_components r)) ({[id]} ∪ cr_borrows r)) r2 /\
              (OutOfFuel ∉ results) /\
              call (S fuel) r o id =
                if hook_verdict id o results
                then (CallOk, release_borrow (mkRegistry (<[id := final_state o]> (cr_components r2)) (cr_borrows r2)) id)
                else (OpFailed, release_borrow r2 id)
        end
  end.
Proof.
  intros Hcall Hf. cbn [call_component]. destruct (cr_components r !! id) as [s|] eqn:Es; [|done]. unfold try_borrow.
  case_decide as Hb; [by rewrite bool_decide_true|]. rewrite bool_decide_false by done. fold (borrowed r id).
  rewrite (registry_transition_spec (borrowed r id) id _ s Es).
  destruct (component_transition s (op_trigger o)) as [s1|] eqn:Et; [|done]. cbn [fmap option_fmap option_map].
  set (r1 := mkRegistry (<[id := s1]> (cr_components r)) _).
  assert (Hf1 : size (free r1) < fuel).
  { assert (Hsub : free r1 ⊂ free r); [|apply subset_size in Hsub; lia]. unfold free, r1. cbn. rewrite dom_insert_L.
    apply elem_of_dom_2 in Es. set_solver. }
  pose proof (hook_fold_ok fuel (hook_calls id o) [] r1 Hcall Hf1 (not_elem_of_nil _)) as [Hout Hr].
  unfold hook_fold in Hout, Hr. destruct (foldl _ _ _) as [results r2]. cbn [fst snd] in Hout, Hr.
  exists results, r2. split; [done|]. split; [done|]. rewrite bool_decide_false by done.
  destruct (hook_verdict id o results); [|done]. rewrite (registry_transition_spec r2 id _ s1).
  - apply transition_hook_state in Et as ->. by rewrite transition_final.
  - rewrite (rs_state _ _ Hr id) by (cbn; set_solver). apply lookup_insert_eq.
Qed.

Lemma release_respects r r2 id f :
  id ∉ cr_borrows r -> is_Some (cr_components r !! id) -> respects (mkRegistry (<[id := f]> (cr_components r)) ({[id]} ∪ cr_borrows r)) r2 ->
  respects r (release_borrow r2 id).
Proof.
  intros Hb Hs [D B S]. cbn in *. split; cbn.
  - rewrite D, dom_insert_L. apply elem_of_dom in Hs. set_solver.
  - rewrite B. set_solver.
  - intros id' Hid'. rewrite S by set_solver. rewrite lookup_insert_ne; [done|]. intros ->. done.
Qed.

Lemma call_ok fuel r o id :
  size (free r) < fuel -> (call fuel r o id).1 <> OutOfFuel /\ respects r (call fuel r o id).2.
Proof.
  revert r o id. induction fuel as [|fuel IH]; intros r o id Hf; [lia|].
  pose proof (call_cases fuel r o id IH Hf) as Hc. destruct (cr_components r !! id) as [s|] eqn:Es; [|by rewrite Hc].
  case_decide as Hb; [by rewrite Hc|]. destruct (component_transition s (op_trigger o)) as [s1|].
  - destruct Hc as (results & r2 & Hr & Hout & Hc). rewrite Hc. destruct (hook_verdict id o results); cbn [fst snd].
    + split; [done|]. apply (release_respects r _ id (final_state o)); [done|by eexists|]. destruct Hr as [D B S]. cbn in *. split; cbn.
      * rewrite !dom_insert_L, D, dom_insert_L. set_solver.
      * done.
      * intros id' Hid'. destruct (decide (id' = id)) as [->|Hne]; [by rewrite !lookup_insert_eq|].
        rewrite !lookup_insert_ne by done. rewrite S by done. by rewrite lookup_insert_ne.
    + split; [done|]. by apply (release_respects r _ id s1).
  - rewrite Hc. split; [done|]. apply (release_respects r _ id s); [done|by eexists|]. unfold borrowed. rewrite insert_id by done. done.
Qed.

(** A life-cycle call through the registry returns whatever the hooks call in
    turn: the nesting is no deeper than the number of components not yet
    borrowed.  It leaves the borrow set as it found it, never touches a component
    another call holds, refuses a component that is held without changing
    anything, and succeeds only from a state the transition table allows, in the
    final state of the operation. *)
Theorem registry_exclusive fuel r o id :
  size (free r) < fuel ->
  let '(res, r') := call fuel r o id in
  res <> OutOfFuel /\
  dom (cr_components r') = dom (cr_components r) /\ cr_borrows r' = cr_borrows r /\
  (forall id', id' ∈ cr_borrows r -> cr_components r' !! id' = cr_components r !! id') /\
  (id ∈ cr_borrows r -> r' = r /\ (res = AlreadyBorrowed \/ res = NotFound)) /\
  (res = CallOk ->
     cr_components r' !! id = Some (final_state o) /\
     exists s, cr_components r !! id = Some s /\ is_Some (component_transition s (op_trigger o))).
Proof.
  intros Hf. destruct (call_ok fuel r o id Hf) as [Hne [D B S]]. destruct fuel as [|fuel]; [lia|].
  pose proof (call_cases fuel r o id (call_ok fuel) Hf) as Hc. destruct (call (Datatypes.S fuel) r o id) as [res r'].
  cbn [fst snd] in Hne, D, B, S. do 4 (split; [done|]). destruct (cr_components r !! id) as [s|] eqn:Es; [|injection Hc as -> ->; split; [by auto|done]].
  case_decide as Hb; [injection Hc as -> ->; split; [by auto|done]|]. split; [done|]. intros ->.
  destruct (component_transition s (op_trigger o)) as [s1|] eqn:Et; [|by simplify_eq].
  destruct Hc as (results & r2 & Hr & Hout & Hc). destruct (hook_verdict id o results); [|by simplify_eq].
  injection Hc as ->. cbn. rewrite lookup_insert_eq. split; [done|]. by exists s.
Qed.
End registry_spec.

(** Two components whose start hooks start each other. *)
Definition mutual_calls (id : Z) (o : lifecycle_op) : list (lifecycle_op * Z) :=
  match o with OpStart => [(OpStart, (3 - id)%Z)] | _ => [] end.
Definition mutual_registry : ComponentRegistry Z := mkRegistry {[1%Z := Ready; 2%Z := Ready]} ∅.

Lemma registry_exclusive_witness :
  size (free mutual_registry) < 3 /\
  call_component mutual_calls (fun _ _ _ => true) 3 mutual_registry OpStart 1%Z =
    (CallOk, mkRegistry {[1%Z := Running; 2%Z := Running]} ∅) /\
  CallOk <> OutOfFuel.
Proof.
  assert (Hf : size (free mutual_registry) < 3) by (vm_compute; lia).
  split; [exact Hf|]. split; [vm_compute; reflexivity|].
  pose proof (registry_exclusive mutual_calls (fun _ _ _ => true) 3 mutual_registry OpStart 1%Z Hf) as Hx.
  destruct (call_component _ _ _ _ _ _) as [res r'] eqn:E. vm_compute in E. injection E as <- <-. apply Hx.
Defined.
