(* ===== verification/FullMath.v ===== *)
(** * 256-bit arithmetic of the DeFi model
    ([crates/model/src/defi/tick_map/full_math.rs], [bit_math.rs])

    The 256-bit integers come from a library: their operations are an interface
    with the documented results on values in range, and [u256_std] shows that it
    can be met.  The division of a 512-bit product and the square root are
    proved against integer division and square root. *)

From stdpp Require Import base numbers list.
From Stdlib Require Import Lia ZArith Znumtheory.
From S2P Require Import Prelude.

Open Scope Z_scope.

Definition u256 (z : Z) : Prop := 0 <= z < 2 ^ 256.

(** The library's integers: the operators wrap, shifts drop bits, [mul_mod] does
    not overflow, a modulus of zero gives zero. *)
Class U256Lib : Type := {
  u_add : Z -> Z -> Z;
  u_sub : Z -> Z -> Z;
  u_mul : Z -> Z -> Z;
  u_neg : Z -> Z;
  u_div : Z -> Z -> Z;
  u_rem : Z -> Z -> Z;
  u_and : Z -> Z -> Z;
  u_or : Z -> Z -> Z;
  u_xor : Z -> Z -> Z;
  u_not : Z -> Z;
  u_shl : Z -> Z -> Z;
  u_shr : Z -> Z -> Z;
  mul_mod : Z -> Z -> Z -> Z;
  leading_zeros : Z -> Z;
  trailing_zeros : Z -> Z;
  u_add_spec a b : u256 a -> u256 b -> u_add a b = (a + b) mod 2 ^ 256;
  u_sub_spec a b : u256 a -> u256 b -> u_sub a b = (a - b) mod 2 ^ 256;
  u_mul_spec a b : u256 a -> u256 b -> u_mul a b = (a * b) mod 2 ^ 256;
  u_neg_spec a : u256 a -> u_neg a = (- a) mod 2 ^ 256;
  u_div_spec a b : u256 a -> u256 b -> b <> 0 -> u_div a b = a / b;
  u_rem_spec a b : u256 a -> u256 b -> b <> 0 -> u_rem a b = a mod b;
  u_and_spec a b : u256 a -> u256 b -> u_and a b = Z.land a b;
  u_or_spec a b : u256 a -> u256 b -> u_or a b = Z.lor a b;
  u_xor_spec a b : u256 a -> u256 b -> u_xor a b = Z.lxor a b;
  u_not_spec a : u256 a -> u_not a = (- a - 1) mod 2 ^ 256;
  u_shl_spec a k : u256 a -> 0 <= k < 256 -> u_shl a k = (a * 2 ^ k) mod 2 ^ 256;
  u_shr_spec a k : u256 a -> 0 <= k < 256 -> u_shr a k = a / 2 ^ k;
  mul_mod_spec a b m : u256 a -> u256 b -> u256 m -> mul_mod a b m = if m =? 0 then 0 else (a * b) mod m;
  leading_zeros_spec a : u256 a -> a <> 0 -> leading_zeros a = 255 - Z.log2 a;
  trailing_zeros_spec a k : u256 a -> Z.testbit a k = true -> (forall i, 0 <= i < k -> Z.testbit a i = false) ->
    0 <= k -> trailing_zeros a = k;
}.

Section full_math.
Context {UL : U256Lib}.

(** Division and remainder by zero panic. *)
Definition div_checked (a b : Z) : outcome unit Z := if b =? 0 then Panic else Ok (u_div a b).

Definition U256_MAX : Z := 2 ^ 256 - 1.

(** [U256::from_limbs([u64::from(b), 0, 0, 0])] *)
Definition from_bool (b : bool) : Z := if b then 1 else 0.

(** The high half of the product, from the product modulo [2^256 - 1]. *)
Definition mul_div_high (a b : Z) : Z :=
  let mm := mul_mod a b U256_MAX in
  let prod_0 := u_mul a b in
  u_sub (u_sub mm prod_0) (from_bool (mm <? prod_0)).

(** [inv *= 2 - denominator * inv] *)
Definition newton_step (denominator inv : Z) : Z := u_mul inv (u_sub 2 (u_mul denominator inv)).

Definition mod_inverse (denominator : Z) : Z :=
  let inv := u_xor (u_mul 3 denominator) 2 in
  let inv := newton_step denominator inv in
  let inv := newton_step denominator inv in
  let inv := newton_step denominator inv in
  let inv := newton_step denominator inv in
  let inv := newton_step denominator inv in
  newton_step denominator inv.

Definition mul_div (a b denominator : Z) : outcome unit Z :=
  let prod_0 := u_mul a b in
  let prod_1 := mul_div_high a b in
  _ ← err_if (denominator <=? prod_1) tt;
  let remainder := mul_mod a b denominator in
  let prod_1 := u_sub prod_1 (from_bool (prod_0 <? remainder)) in
  let prod_0 := u_sub prod_0 remainder in
  let twos := u_and (u_neg denominator) denominator in
  denominator ← div_checked denominator twos;
  prod_0 ← div_checked prod_0 twos;
  q ← div_checked (u_neg twos) twos;
  let twos := u_add q 1 in
  let prod_0 := u_or prod_0 (u_mul prod_1 twos) in
  Ok (u_mul prod_0 (mod_inverse denominator)).

Definition mul_div_rounding_up (a b denominator : Z) : outcome unit Z :=
  result ← mul_div a b denominator;
  if mul_mod a b denominator =? 0 then Ok result
  else if result =? U256_MAX then Err tt
  else Ok (u_add result 1).

Definition div_rounding_up (a b : Z) : outcome unit Z :=
  _ ← err_if (b =? 0) tt;
  let quotient := u_div a b in
  let remainder := u_rem a b in
  if 0 <? remainder
  then (if quotient =? U256_MAX then Err tt else Ok (u_add quotient 1))
  else Ok quotient.

(** The loop of [sqrt]; [None] when the fuel runs out. *)
Fixpoint sqrt_loop (fuel : nat) (x z y : Z) : option (outcome unit Z) :=
  match fuel with
  | O => None
  | S fuel =>
      if y <? z
      then
        let z := y in
        match div_checked x z with
        | Ok q => sqrt_loop fuel x z (u_shr (u_add q z) 1)
        | _ => Some Panic
        end
      else Some (Ok z)
  end.

(** The quotient halves or the loop ends: 512 turns are more than enough. *)
Definition sqrt (x : Z) : option (outcome unit Z) :=
  if x =? 0 then Some (Ok 0)
  else if x =? 1 then Some (Ok 1)
  else sqrt_loop 512 x x (u_shr (u_add x 1) 1).

Definition truncate_to_u128 (value : Z) : Z := u_and value (2 ^ 128 - 1).

(** [into_raw] and [from_raw]: the same bits. *)
Definition truncate_to_u256 (value : Z) : Z := wrap U256 value.
Definition truncate_to_i256 (value : Z) : Z := wrap I256 value.

(** ** [bit_math.rs] *)

Definition most_significant_bit (x : Z) : Z := if x =? 0 then 0 else 255 - leading_zeros x.
Definition least_significant_bit (x : Z) : Z := if x =? 0 then 0 else trailing_zeros x.
End full_math.

(** ** Number theory *)

Lemma land_opp_odd c : Z.land (2 * c + 1) (- (2 * c + 1)) = 1.
Proof.
  apply Z.bits_inj'. intros i Hi. rewrite Z.land_spec. replace (- (2 * c + 1)) with (Z.lnot (2 * c)) by (unfold Z.lnot; lia).
  destruct (Z.eq_dec i 0) as [->|Hne].
  - by rewrite Z.testbit_odd_0, Z.lnot_spec, Z.testbit_even_0.
  - rewrite Z.lnot_spec by lia. replace i with (Z.succ (i - 1)) by lia.
    rewrite Z.testbit_odd_succ, Z.testbit_even_succ by lia. destruct (Z.testbit c (i - 1)); cbn; symmetry;
    (change 1 with (2 * 0 + 1); rewrite Z.testbit_odd_succ by lia; apply Z.bits_0).
Qed.

Lemma land_mod_low n x d : 0 <= n -> 0 <= d < 2 ^ n -> Z.land (x mod 2 ^ n) d = Z.land x d.
Proof.
  intros Hn Hd. rewrite <- Z.land_ones, <- Z.land_assoc, (Z.land_comm (Z.ones n)) by lia.
  by rewrite Z.land_ones, (Z.mod_small d) by lia.
Qed.

(** The largest power of two that divides a number. *)
Lemma two_adic d : 0 < d -> exists k c, 0 <= k /\ 0 <= c /\ d = 2 ^ k * (2 * c + 1).
Proof.
  intros Hd. apply (Zlt_0_ind (fun d => 0 < d -> exists k c, 0 <= k /\ 0 <= c /\ d = 2 ^ k * (2 * c + 1))); [|lia|lia].
  clear. intros d IH _ Hd. destruct (Z.Even_or_Odd d) as [[e ->]|[c ->]].
  - destruct (IH e) as (k & c & Hk & Hc & ->); [lia..|]. exists (k + 1), c. rewrite Z.pow_add_r by lia. lia.
  - exists 0, c. rewrite Z.pow_0_r. lia.
Qed.

Lemma land_neg_self n k c :
  0 <= k -> 0 <= c -> 2 ^ k * (2 * c + 1) < 2 ^ n -> 0 <= n ->
  Z.land ((- (2 ^ k * (2 * c + 1))) mod 2 ^ n) (2 ^ k * (2 * c + 1)) = 2 ^ k.
Proof.
  intros Hk Hc Hlt Hn. assert (0 < 2 ^ k) by lia. rewrite land_mod_low by nia.
  replace (- (2 ^ k * (2 * c + 1))) with (2 ^ k * (- (2 * c + 1))) by ring.
  rewrite !(Z.mul_comm (2 ^ k)), <- !Z.shiftl_mul_pow2, <- Z.shiftl_land, Z.land_comm, land_opp_odd by lia.
  by rewrite Z.shiftl_mul_pow2, Z.mul_1_l by lia.
Qed.

Lemma lor_disjoint x y n : 0 <= n -> 0 <= x < 2 ^ n -> Z.lor x (y * 2 ^ n) = x + y * 2 ^ n.
Proof.
  intros Hn Hx. rewrite <- Z.shiftl_mul_pow2 by lia. symmetry.
  rewrite Z.add_nocarry_lxor, Z.lxor_lor; [done| |]; apply Z.bits_inj'; intros i Hi; rewrite Z.land_spec, Z.bits_0;
  (destruct (Z.lt_ge_cases i n); [rewrite Z.shiftl_spec_low by lia; apply andb_false_r|]);
  (rewrite <- (Z.mod_small x (2 ^ n)) by lia; rewrite Z.mod_pow2_bits_high by lia; done).
Qed.

(** The product of two numbers below [M] from its residues modulo [M] and [M - 1]. *)
Lemma crt_high M a b :
  2 < M -> 0 <= a < M -> 0 <= b < M ->
  let mm := (a * b) mod (M - 1) in
  let l := (a * b) mod M in
  ((mm - l) mod M - (if mm <? l then 1 else 0)) mod M = a * b / M.
Proof.
  intros HM Ha Hb mm l. set (h := a * b / M).
  assert (Hp : a * b = M * h + l) by (apply Z.div_mod; lia).
  assert (Hl : 0 <= l < M) by (apply Z.mod_pos_bound; lia).
  assert (Hh : 0 <= h <= M - 2).
  { assert (a * b <= (M - 1) * (M - 1)) by nia. split; [apply Z.div_pos; nia|]. assert (h < M - 1); [|lia].
    apply Z.div_lt_upper_bound; nia. }
  assert (Hmm : mm = if h + l <? M - 1 then h + l else h + l - (M - 1)).
  { unfold mm. rewrite Hp. replace (M * h + l) with (h + l + h * (M - 1)) by ring. rewrite Z.mod_add by lia.
    destruct (Z.ltb_spec (h + l) (M - 1)); [apply Z.mod_small; lia|].
    symmetry. apply (Z.mod_unique _ _ 1); lia. }
  rewrite Zminus_mod_idemp_l, Hmm. destruct (Z.ltb_spec (h + l) (M - 1)).
  - rewrite (proj2 (Z.ltb_ge _ _)) by lia. replace (h + l - l - 0) with h by lia. apply Z.mod_small. lia.
  - rewrite (proj2 (Z.ltb_lt _ _)) by lia. replace (h + l - (M - 1) - l - 1) with (h + (-1) * M) by lia.
    rewrite Z.mod_add by lia. apply Z.mod_small. lia.
Qed.

(** One step of Newton's method doubles the correct bits of an inverse. *)
Lemma newton_doubles j o x :
  0 <= j -> (2 ^ j | 1 - o * x) -> (2 ^ (2 * j) | 1 - o * (x * (2 - o * x))).
Proof.
  intros Hj [q Hq]. exists (q * q). replace (2 * j) with (j + j) by lia. rewrite Z.pow_add_r by lia.
  transitivity ((1 - o * x) * (1 - o * x)); [ring|]. rewrite Hq. ring.
Qed.

Lemma divide_mod_pow j n o y : 0 <= j <= n -> (2 ^ j | 1 - o * y) -> (2 ^ j | 1 - o * (y mod 2 ^ n)).
Proof.
  intros Hj [q Hq]. rewrite (Z.mod_eq y) by lia. exists (q + o * (y / 2 ^ n) * 2 ^ (n - j)).
  replace n with (j + (n - j)) at 1 by lia. rewrite Z.pow_add_r by lia.
  replace (1 - o * (y - 2 ^ j * 2 ^ (n - j) * (y / 2 ^ n))) with (1 - o * y + o * (y / 2 ^ n) * 2 ^ (n - j) * 2 ^ j) by ring.
  rewrite Hq. ring.
Qed.

Lemma lxor_mod_pow2 k x y : 0 <= k -> Z.lxor x y mod 2 ^ k = Z.lxor (x mod 2 ^ k) (y mod 2 ^ k).
Proof.
  intros Hk. apply Z.bits_inj'. intros i Hi. rewrite Z.lxor_spec. destruct (Z.lt_ge_cases i k).
  - by rewrite !Z.mod_pow2_bits_low, Z.lxor_spec by lia.
  - by rewrite !Z.mod_pow2_bits_high by lia.
Qed.

Lemma mod_mod_pow2 x k n : 0 <= k <= n -> (x mod 2 ^ n) mod 2 ^ k = x mod 2 ^ k.
Proof.
  intros Hk. apply Z.mod_mod_divide. exists (2 ^ (n - k)). rewrite <- Z.pow_add_r by lia. f_equal. lia.
Qed.

(** The seed is right for four bits. *)
Lemma seed_correct n c : 4 <= n -> (2 ^ 4 | 1 - (2 * c + 1) * Z.lxor ((3 * (2 * c + 1)) mod 2 ^ n) 2).
Proof.
  intros Hn. set (o := 2 * c + 1). set (s := Z.lxor _ 2).
  assert (Ho : o mod 2 ^ 4 = 2 * (c mod 8) + 1).
  { unfold o. change (2 ^ 4) with 16. pose proof (Z.mod_pos_bound c 8). pose proof (Z.div_mod c 8).
    symmetry. apply (Z.mod_unique _ _ (c / 8)); lia. }
  assert (Hs : s mod 2 ^ 4 = Z.lxor ((3 * (o mod 2 ^ 4)) mod 2 ^ 4) 2).
  { unfold s. rewrite lxor_mod_pow2, mod_mod_pow2 by lia. by rewrite Z.mul_mod_idemp_r by lia. }
  assert (Hz : (1 - o * s) mod 2 ^ 4 = 0).
  { rewrite <- Zminus_mod_idemp_r, Z.mul_mod, Hs, Ho by lia.
    assert (He : 0 <= c mod 8 < 8) by (apply Z.mod_pos_bound; lia). clear -He. generalize dependent (c mod 8). intros e He.
    assert (e = 0 \/ e = 1 \/ e = 2 \/ e = 3 \/ e = 4 \/ e = 5 \/ e = 6 \/ e = 7) as Hc by lia.
    by repeat destruct Hc as [-> |Hc]; [..|subst e]. }
  apply Z.mod_divide; [lia|done].
Qed.

Section correct.
Context {UL : U256Lib}.

Lemma u256_mod z : u256 (z mod 2 ^ 256).
Proof. apply Z.mod_pos_bound. lia. Qed.

Lemma newton_step_correct j o x :
  u256 o -> u256 x -> 0 <= j -> 2 * j <= 256 -> (2 ^ j | 1 - o * x) ->
  u256 (newton_step o x) /\ (2 ^ (2 * j) | 1 - o * newton_step o x).
Proof.
  intros Ho Hx Hj Hj2 Hd. unfold newton_step.
  rewrite (u_mul_spec o x), u_sub_spec, u_mul_spec by (first [done|apply u256_mod|split; lia]).
  split; [apply u256_mod|]. apply divide_mod_pow; [lia|].
  assert (E : (2 ^ (2 * j) | 1 - o * (x * (2 - o * x)))) by by apply newton_doubles.
  destruct E as [q Hq].
  rewrite (Z.mod_eq (2 - _)), (Z.mod_eq (o * x)) by lia.
  set (u := o * x / 2 ^ 256). set (v := (_ / 2 ^ 256)).
  exists (q + (o * x * (v - u)) * 2 ^ (256 - 2 * j)).
  replace (1 - o * (x * (2 - (o * x - 2 ^ 256 * u) - 2 ^ 256 * v)))
    with (1 - o * (x * (2 - o * x)) + o * x * (v - u) * 2 ^ 256) by ring.
  rewrite Hq. replace 256 with (256 - 2 * j + 2 * j) at 1 by lia. rewrite Z.pow_add_r by lia. ring.
Qed.

Lemma mod_inverse_correct o c : o = 2 * c + 1 -> u256 o -> u256 (mod_inverse o) /\ (2 ^ 256 | 1 - o * mod_inverse o).
Proof.
  intros Eo Ho. unfold mod_inverse. set (x0 := u_xor _ 2).
  assert (H0 : u256 x0 /\ (2 ^ 4 | 1 - o * x0)).
  { unfold x0. rewrite u_mul_spec, u_xor_spec by (first [done|apply u256_mod|split; lia]). split; [|subst o; by apply seed_correct].
    assert (E : Z.lxor ((3 * o) mod 2 ^ 256) 2 = Z.lxor ((3 * o) mod 2 ^ 256) 2 mod 2 ^ 256).
    { rewrite lxor_mod_pow2, Z.mod_mod by lia. done. }
    rewrite E. apply u256_mod. }
  destruct H0 as [R0 H0]. clearbody x0.
  destruct (newton_step_correct 4 o x0) as [R1 H1]; [done..|lia|lia|done|].
  destruct (newton_step_correct 8 o _ Ho R1) as [R2 H2]; [lia|lia|done|].
  destruct (newton_step_correct 16 o _ Ho R2) as [R3 H3]; [lia|lia|done|].
  destruct (newton_step_correct 32 o _ Ho R3) as [R4 H4]; [lia|lia|done|].
  destruct (newton_step_correct 64 o _ Ho R4) as [R5 H5]; [lia|lia|done|].
  exact (newton_step_correct 128 o _ Ho R5 ltac:(lia) ltac:(lia) H5).
Qed.

Lemma mul_div_high_correct a b : u256 a -> u256 b -> mul_div_high a b = a * b / 2 ^ 256.
Proof.
  intros Ha Hb. unfold mul_div_high, from_bool. assert (Hm : u256 U256_MAX) by (unfold U256_MAX; split; lia).
  rewrite mul_mod_spec by done. rewrite (proj2 (Z.eqb_neq U256_MAX 0)) by (unfold U256_MAX; lia).
  rewrite u_mul_spec by done. set (mm := (a * b) mod U256_MAX).
  assert (Hmm : u256 mm) by (pose proof (Z.mod_pos_bound (a * b) U256_MAX ltac:(unfold U256_MAX; lia)); unfold u256, mm, U256_MAX in *; lia).
  rewrite (u_sub_spec mm) by (done || apply u256_mod). rewrite u_sub_spec by (apply u256_mod || (case_match; split; lia)).
  apply (crt_high (2 ^ 256) a b); [lia|done|done].
Qed.

(** The product less its remainder, in two halves. *)
Lemma exact_product M h l r :
  2 < M -> 0 <= h < M -> 0 <= l < M -> 0 <= r < M -> 0 <= h * M + l - r ->
  let h' := (h - (if l <? r then 1 else 0)) mod M in
  let l' := (l - r) mod M in
  h * M + l - r = h' * M + l' /\ 0 <= h' < M /\ 0 <= l' < M.
Proof.
  intros HM Hh Hl Hr Hp. cbn zeta. destruct (Z.ltb_spec l r).
  - assert (1 <= h) by nia. rewrite (Z.mod_small (h - 1)) by lia.
    rewrite <- (Z.mod_add (l - r) 1 M), Z.mod_small by lia. lia.
  - rewrite (Z.mod_small (h - 0)), Z.mod_small by lia. lia.
Qed.

(** Dividing the two halves by a power of two that divides the whole. *)
Lemma halves_shift n k h l o :
  0 <= k < n -> 0 <= h < 2 ^ n -> 0 <= l < 2 ^ n -> h * 2 ^ n + l = 2 ^ k * o ->
  Z.lor (l / 2 ^ k) ((h * (((- 2 ^ k) mod 2 ^ n / 2 ^ k + 1) mod 2 ^ n)) mod 2 ^ n) = o mod 2 ^ n.
Proof.
  intros Hk Hh Hl Ho. assert (Hpk : 0 < 2 ^ k) by lia. assert (Hlt : 2 ^ k < 2 ^ n) by (apply Z.pow_lt_mono_r; lia).
  assert (En : 2 ^ n = 2 ^ (n - k) * 2 ^ k) by (rewrite <- Z.pow_add_r by lia; f_equal; lia).
  assert (Hpn : 0 < 2 ^ (n - k)) by (apply Z.pow_pos_nonneg; lia).
  assert (Etw : (- 2 ^ k) mod 2 ^ n / 2 ^ k + 1 = 2 ^ (n - k)).
  { rewrite <- (Z.mod_add (- 2 ^ k) 1), Z.mod_small by lia. rewrite En.
    replace (- 2 ^ k + 1 * (2 ^ (n - k) * 2 ^ k)) with ((2 ^ (n - k) - 1) * 2 ^ k) by ring. rewrite Z.div_mul by lia. lia. }
  rewrite Etw, Z.mul_mod_idemp_r by lia.
  assert (El : l = (l / 2 ^ k) * 2 ^ k).
  { assert (l = (o - h * 2 ^ (n - k)) * 2 ^ k) as Hl' by (rewrite En in Ho; lia).
    rewrite Hl' at 2. rewrite Z.div_mul by lia. done. }
  assert (Hl2 : 0 <= l / 2 ^ k < 2 ^ (n - k)) by (split; [apply Z.div_pos; lia|apply Z.div_lt_upper_bound; lia]).
  assert (Eo : o = h * 2 ^ (n - k) + l / 2 ^ k).
  { apply (Z.mul_reg_l _ _ (2 ^ k)); [lia|]. rewrite <- Ho, En.
    transitivity (h * (2 ^ (n - k) * 2 ^ k) + l / 2 ^ k * 2 ^ k); [by rewrite <- El|ring]. }
  rewrite En at 1. rewrite (Z.mul_comm (2 ^ (n - k)) (2 ^ k)), Z.mul_mod_distr_r by lia.
  rewrite lor_disjoint by lia. rewrite Eo.
  apply (Z.mod_unique_pos _ _ (h / 2 ^ k)).
  - rewrite En. pose proof (Z.mod_pos_bound h (2 ^ k) Hpk). nia.
  - rewrite En. rewrite (Z.div_mod h (2 ^ k)) at 1 by lia. ring.
Qed.

(** Dividing an exact multiple by the inverse of an odd number. *)
Lemma divide_by_inverse o inv q :
  u256 q -> (2 ^ 256 | 1 - o * inv) -> (((q * o) mod 2 ^ 256) * inv) mod 2 ^ 256 = q.
Proof.
  intros Hq [t Ht]. rewrite Z.mul_mod_idemp_l by lia. replace (q * o * inv) with (q + (- q * t) * 2 ^ 256) by lia.
  rewrite Z.mod_add by lia. by apply Z.mod_small.
Qed.

Lemma mul_div_spec a b d :
  u256 a -> u256 b -> u256 d ->
  mul_div a b d = if (d =? 0) || (2 ^ 256 <=? a * b / d) then Err tt else Ok (a * b / d).
Proof.
  intros Ha Hb Hd. unfold mul_div. rewrite mul_div_high_correct by done. set (h := a * b / 2 ^ 256).
  assert (Hab : a * b = 2 ^ 256 * h + (a * b) mod 2 ^ 256) by (apply Z.div_mod; lia).
  pose proof (Z.mod_pos_bound (a * b) (2 ^ 256) ltac:(lia)) as Hl.
  assert (Hh : u256 h).
  { unfold u256, h. split; [apply Z.div_pos; unfold u256 in *; nia|]. apply Z.div_lt_upper_bound; unfold u256 in *; nia. }
  rewrite u_mul_spec by done. set (l := (a * b) mod 2 ^ 256) in *.
  assert (Herr : (d =? 0) || (2 ^ 256 <=? a * b / d) = (d <=? h)).
  { destruct (Z.eqb_spec d 0) as [->|Hne]; cbn [orb]; [symmetry; apply Z.leb_le; unfold u256 in *; lia|].
    unfold u256 in *. destruct (Z.leb_spec d h).
    - apply Z.leb_le, Z.div_le_lower_bound; nia.
    - apply Z.leb_gt, Z.div_lt_upper_bound; nia. }
  rewrite Herr. destruct (Z.leb_spec d h) as [|Hdh]; [done|]. cbn [err_if]. osimpl.
  assert (Hd0 : 0 < d) by (unfold u256 in *; lia).
  rewrite mul_mod_spec by done. rewrite (proj2 (Z.eqb_neq d 0)) by lia. set (r := (a * b) mod d).
  assert (Hr : 0 <= r < d) by (apply Z.mod_pos_bound; lia).
  assert (Hru : u256 r) by (unfold u256 in *; lia).
  assert (Hlu : u256 l) by done.
  set (q := a * b / d). assert (Hqd : a * b = d * q + r) by (apply Z.div_mod; lia).
  assert (Hq : u256 q).
  { unfold u256, q in *. split; [apply Z.div_pos; nia|]. apply Z.div_lt_upper_bound; [lia|]. nia. }
  unfold from_bool. rewrite (u_sub_spec h) by (done || (case_match; split; lia)). rewrite (u_sub_spec l) by done.
  destruct (exact_product (2 ^ 256) h l r) as (Hex & Hh' & Hl'); [lia|done|done|done|unfold u256 in *; nia|].
  set (h' := (h - _) mod 2 ^ 256) in *. set (l' := (l - r) mod 2 ^ 256) in *.
  destruct (two_adic d Hd0) as (k & c & Hk & Hc & Ed). set (o := 2 * c + 1) in *.
  assert (Hpk : 0 < 2 ^ k) by lia.
  assert (Hk256 : k < 256).
  { apply (Z.pow_lt_mono_r_iff 2); [lia..|]. unfold u256 in Hd. nia. }
  rewrite (u_neg_spec d), u_and_spec by (done || apply u256_mod).
  assert (Eland : Z.land ((- d) mod 2 ^ 256) d = 2 ^ k) by (rewrite Ed; apply land_neg_self; unfold u256 in Hd; lia).
  rewrite Eland.
  assert (Htw : u256 (2 ^ k)) by (split; [lia|apply Z.pow_lt_mono_r; lia]).
  unfold div_checked. rewrite (proj2 (Z.eqb_neq (2 ^ k) 0)) by lia. osimpl.
  rewrite (u_neg_spec (2 ^ k)) by done. rewrite (u_div_spec d), (u_div_spec l') by (done || lia).
  rewrite (u_div_spec (_ mod _)) by (done || apply u256_mod || lia).
  assert (Eo : d / 2 ^ k = o) by (rewrite Ed, Z.mul_comm, Z.div_mul; lia). rewrite Eo.
  assert (Hou : u256 o) by (unfold u256 in *; nia).
  assert (Hq1 : u256 ((- 2 ^ k) mod 2 ^ 256 / 2 ^ k)).
  { pose proof (Z.mod_pos_bound (- 2 ^ k) (2 ^ 256) ltac:(lia)). split; [apply Z.div_pos; lia|]. apply Z.div_lt_upper_bound; nia. }
  assert (Hl2 : u256 (l' / 2 ^ k)) by (split; [apply Z.div_pos; lia|apply Z.div_lt_upper_bound; nia]).
  rewrite (u_add_spec _ 1) by (done || (split; lia)).
  rewrite (u_mul_spec h') by (done || apply u256_mod). rewrite u_or_spec by (done || apply u256_mod).
  rewrite (halves_shift 256 k h' l' (q * o)) by (lia || nia).
  destruct (mod_inverse_correct o c eq_refl Hou) as [Hiu Hi].
  rewrite u_mul_spec by (done || apply u256_mod). f_equal. by apply divide_by_inverse.
Qed.

(** The quotient rounded up. *)
Definition div_up (n d : Z) : Z := - ((- n) / d).

Lemma div_up_spec n d : 0 < d -> div_up n d = if n mod d =? 0 then n / d else n / d + 1.
Proof.
  intros Hd. unfold div_up. destruct (Z.eqb_spec (n mod d) 0) as [E|E].
  - rewrite Z.div_opp_l_z by lia. lia.
  - rewrite Z.div_opp_l_nz by lia. lia.
Qed.

Lemma mul_div_rounding_up_spec a b d :
  u256 a -> u256 b -> u256 d ->
  mul_div_rounding_up a b d =
    if (d =? 0) || (2 ^ 256 <=? div_up (a * b) d) then Err tt else Ok (div_up (a * b) d).
Proof.
  intros Ha Hb Hd. unfold mul_div_rounding_up. rewrite mul_div_spec, mul_mod_spec by done.
  destruct (Z.eqb_spec d 0) as [|Hne]; [done|]. cbn [orb]. assert (0 < d) by (unfold u256 in *; lia).
  rewrite div_up_spec by done. assert (Hq : 0 <= a * b / d) by (apply Z.div_pos; unfold u256 in *; nia).
  destruct (Z.leb_spec (2 ^ 256) (a * b / d)).
  - osimpl. by rewrite (proj2 (Z.leb_le _ _)) by (case_match; lia).
  - osimpl. destruct (Z.eqb_spec ((a * b) mod d) 0); [by rewrite (proj2 (Z.leb_gt _ _))|]. unfold U256_MAX.
    destruct (Z.eqb_spec (a * b / d) (2 ^ 256 - 1)); [by rewrite (proj2 (Z.leb_le _ _)) by lia|].
    rewrite (proj2 (Z.leb_gt _ _)) by lia. rewrite u_add_spec, Z.mod_small by (lia || (split; lia)). done.
Qed.

Lemma div_rounding_up_spec a b :
  u256 a -> u256 b -> div_rounding_up a b = if b =? 0 then Err tt else Ok (div_up a b).
Proof.
  intros Ha Hb. unfold div_rounding_up. destruct (Z.eqb_spec b 0) as [|Hne]; [done|]. osimpl.
  assert (0 < b) by (unfold u256 in *; lia). rewrite u_div_spec, u_rem_spec, div_up_spec by done.
  pose proof (Z.mod_pos_bound a b ltac:(lia)). pose proof (Z.div_mod a b Hne).
  destruct (Z.ltb_spec 0 (a mod b)) as [Hr|Hr].
  - rewrite (proj2 (Z.eqb_neq (a mod b) 0)) by lia. unfold U256_MAX, u256 in *.
    assert (Hq : 0 <= a / b <= a) by (split; [apply Z.div_pos; lia|apply Z.div_le_upper_bound; nia]).
    assert (a / b <> 2 ^ 256 - 1).
    { intros E. assert (b = 1) as -> by nia. rewrite Z.mod_1_r in Hr. lia. }
    rewrite (proj2 (Z.eqb_neq (a / b) _)) by done. rewrite u_add_spec, Z.mod_small by (unfold u256; lia). done.
  - by rewrite (proj2 (Z.eqb_eq (a mod b) 0)) by lia.
Qed.

(** ** The square root *)

Lemma newton_sqrt_lower x z : 0 <= x -> 0 < z -> Z.sqrt x <= (x / z + z) / 2.
Proof.
  intros Hx Hz. destruct (Z.sqrt_spec x Hx) as [Hs1 Hs2]. pose proof (Z.sqrt_nonneg x). set (s := Z.sqrt x) in *.
  apply Z.div_le_lower_bound; [lia|]. assert (2 * s - z <= x / z); [|lia]. apply Z.div_le_lower_bound; [lia|].
  assert (0 <= (s - z) * (s - z)) by apply Z.square_nonneg. nia.
Qed.

(** Past the root the distance at least halves. *)
Lemma newton_sqrt_upper x z : 0 <= x -> Z.sqrt x + 1 <= z -> (x / z + z) / 2 <= (z + Z.sqrt x + 1) / 2.
Proof.
  intros Hx Hz. destruct (Z.sqrt_spec x Hx) as [Hs1 Hs2]. pose proof (Z.sqrt_nonneg x). set (s := Z.sqrt x) in *.
  apply Z.div_le_mono; [lia|]. assert (x / z < s + 1); [|lia]. apply Z.div_lt_upper_bound; nia.
Qed.

Lemma sqrt_fixed x z : 0 <= x -> 0 < z -> Z.sqrt x <= z -> z <= (x / z + z) / 2 -> z = Z.sqrt x.
Proof.
  intros Hx Hz Hs Hy. apply Z.le_antisymm; [|done]. apply Z.sqrt_le_square; [lia..|].
  assert (2 * z <= x / z + z) by (pose proof (Z.mul_div_le (x / z + z) 2); lia).
  pose proof (Z.mul_div_le x z Hz). nia.
Qed.

Lemma sqrt_loop_done fuel x z y : (y <? z) = false -> sqrt_loop (S fuel) x z y = Some (Ok z).
Proof. intros E. cbn. by rewrite E. Qed.

Lemma sqrt_loop_step fuel x z y :
  u256 x -> 0 < y -> y < z -> z <= x -> x < 2 ^ 256 - 1 ->
  sqrt_loop (S fuel) x z y = sqrt_loop fuel x y ((x / y + y) / 2).
Proof.
  intros Hx Hy Hlt Hz Hmax. cbn [sqrt_loop]. rewrite (proj2 (Z.ltb_lt y z)) by lia. unfold div_checked.
  rewrite (proj2 (Z.eqb_neq y 0)) by lia. unfold u256 in *.
  assert (Hq : 0 <= x / y <= x) by (split; [apply Z.div_pos; lia|apply Z.div_le_upper_bound; nia]).
  assert (Hs : x / y + y <= x + 1).
  { pose proof (Z.mul_div_le x y Hy). nia. }
  rewrite u_div_spec, u_add_spec, Z.mod_small by (unfold u256; lia). rewrite u_shr_spec by (unfold u256; lia). done.
Qed.

Lemma sqrt_loop_correct n x z fuel :
  u256 x -> 0 < x -> x < 2 ^ 256 - 1 -> Z.sqrt x <= z <= x -> 0 < z -> z - (Z.sqrt x + 1) < 2 ^ Z.of_nat n ->
  (n + 3 <= fuel)%nat -> sqrt_loop fuel x z ((x / z + z) / 2) = Some (Ok (Z.sqrt x)).
Proof.
  intros Hx Hx0 Hmax. revert z fuel. induction n as [|n IH]; intros z fuel Hz Hz0 Hn Hf; (destruct fuel as [|fuel]; [lia|]).
  all: pose proof (Z.sqrt_pos x) as Hsp; assert (Hs0 : 0 < Z.sqrt x) by (by apply Z.sqrt_pos).
  all: pose proof (newton_sqrt_lower x z ltac:(lia) Hz0) as Hlow; set (y := (x / z + z) / 2) in *.
  all: destruct (Z.ltb_spec y z) as [Hlt|Hge];
    [|rewrite sqrt_loop_done by (by apply Z.ltb_ge); f_equal; f_equal; by apply sqrt_fixed; lia].
  all: rewrite sqrt_loop_step by (done || lia).
  - change (2 ^ Z.of_nat 0) with 1 in Hn. assert (Ey : y = Z.sqrt x) by lia.
    pose proof (newton_sqrt_lower x y ltac:(lia) ltac:(lia)).
    destruct fuel as [|fuel]; [lia|]. rewrite sqrt_loop_done by (apply Z.ltb_ge; lia). by rewrite Ey.
  - apply IH; [lia|lia| |lia]. pose proof (newton_sqrt_upper x z ltac:(lia) ltac:(lia)) as Hup. fold y in Hup.
    rewrite Nat2Z.inj_succ, Z.pow_succ_r in Hn by lia. pose proof (Z.mul_div_le (z + Z.sqrt x + 1) 2). lia.
Qed.

Lemma sqrt_spec x : u256 x -> sqrt x = Some (if x =? 2 ^ 256 - 1 then Panic else Ok (Z.sqrt x)).
Proof.
  intros Hx. unfold sqrt. destruct (Z.eqb_spec x 0) as [->|H0]; [done|]. destruct (Z.eqb_spec x 1) as [->|H1]; [done|].
  assert (Hx2 : 2 <= x < 2 ^ 256) by (unfold u256 in Hx; lia).
  rewrite u_add_spec by (done || (split; lia)). destruct (Z.eqb_spec x (2 ^ 256 - 1)) as [->|Hmax].
  - replace (2 ^ 256 - 1 + 1) with (0 + 1 * 2 ^ 256) by lia. rewrite Z.mod_add, Z.mod_0_l by lia.
    rewrite u_shr_spec by (split; lia). done.
  - rewrite Z.mod_small by lia. rewrite u_shr_spec by (unfold u256; lia). change (2 ^ 1) with 2.
    replace ((x + 1) / 2) with ((x / x + x) / 2) by (rewrite Z.div_same by lia; f_equal; lia).
    apply (sqrt_loop_correct 256); [done|lia|lia| |lia| |lia].
    + destruct (Z.sqrt_spec x ltac:(lia)) as [Hs1 _]. pose proof (Z.sqrt_nonneg x). nia.
    + pose proof (Z.sqrt_nonneg x). change (Z.of_nat 256) with 256. lia.
Qed.
End correct.

(** ** The interface can be met *)

Lemma lowest_bit a k :
  0 <= k -> Z.testbit a k = true -> (forall i, 0 <= i < k -> Z.testbit a i = false) -> Z.log2 (Z.land a (- a)) = k.
Proof.
  intros Hk Hb Hlow. assert (Hm : a mod 2 ^ k = 0).
  { apply Z.bits_inj'. intros i Hi. rewrite Z.bits_0. destruct (Z.lt_ge_cases i k).
    - rewrite Z.mod_pow2_bits_low by lia. by apply Hlow.
    - by rewrite Z.mod_pow2_bits_high by lia. }
  assert (Ho : Z.odd (a / 2 ^ k) = true) by (rewrite <- Z.bit0_odd, Z.div_pow2_bits by lia; by rewrite Z.add_0_l).
  apply Z.odd_spec in Ho as [c Hc]. assert (Ea : a = (2 * c + 1) * 2 ^ k) by (rewrite <- Hc; pose proof (Z.div_mod a (2 ^ k)); lia).
  rewrite Ea. replace (- ((2 * c + 1) * 2 ^ k)) with (- (2 * c + 1) * 2 ^ k) by ring.
  rewrite <- !Z.shiftl_mul_pow2, <- Z.shiftl_land, land_opp_odd by lia. rewrite Z.shiftl_mul_pow2, Z.mul_1_l by lia.
  by apply Z.log2_pow2.
Qed.

#[global, refine] Instance u256_std : U256Lib := {|
  u_add a b := (a + b) mod 2 ^ 256;
  u_sub a b := (a - b) mod 2 ^ 256;
  u_mul a b := (a * b) mod 2 ^ 256;
  u_neg a := (- a) mod 2 ^ 256;
  u_div := Z.div;
  u_rem := Z.modulo;
  u_and := Z.land;
  u_or := Z.lor;
  u_xor := Z.lxor;
  u_not a := (- a - 1) mod 2 ^ 256;
  u_shl a k := (a * 2 ^ k) mod 2 ^ 256;
  u_shr a k := a / 2 ^ k;
  mul_mod a b m := if m =? 0 then 0 else (a * b) mod m;
  leading_zeros a := if a =? 0 then 256 else 255 - Z.log2 a;
  trailing_zeros a := if a =? 0 then 256 else Z.log2 (Z.land a (- a));
|}.
Proof.
  all: try done.
  - intros a _ Ha. by rewrite (proj2 (Z.eqb_neq a 0)).
  - intros a k _ Hb Hlow Hk. destruct (Z.eqb_spec a 0) as [->|_]; [by rewrite Z.bits_0 in Hb|]. by apply lowest_bit.
Defined.

(** C36: [FullMath::mul_div] computes the floor of [a * b / denominator] for all
    256-bit arguments although the product has 512 bits, and
    [mul_div_rounding_up] its ceiling; both fail exactly when the denominator is
    zero or the result does not fit in 256 bits, and neither ever panics. *)
Theorem mul_div_correct {UL : U256Lib} a b d :
  0 <= a < 2 ^ 256 -> 0 <= b < 2 ^ 256 -> 0 <= d < 2 ^ 256 ->
  mul_div a b d = (if (d =? 0) || (2 ^ 256 <=? a * b / d) then Err tt else Ok (a * b / d)) /\
  mul_div_rounding_up a b d =
    (if (d =? 0) || (2 ^ 256 <=? div_up (a * b) d) then Err tt else Ok (div_up (a * b) d)).
Proof. intros. split; [by apply mul_div_spec|by apply mul_div_rounding_up_spec]. Qed.

Lemma mul_div_correct_witness :
  mul_div (UL := u256_std) (2 ^ 255 + 7) (2 ^ 200) (2 ^ 201 * 5) = Ok ((2 ^ 255 + 7) / 10) /\
  mul_div_rounding_up (UL := u256_std) (2 ^ 255 + 7) (2 ^ 200) (2 ^ 201 * 5) = Ok ((2 ^ 255 + 7) / 10 + 1).
Proof.
  split; [vm_compute; reflexivity|].
  destruct (mul_div_correct (UL := u256_std) (2 ^ 255 + 7) (2 ^ 200) (2 ^ 201 * 5)) as [_ H]; [lia..|].
  transitivity (Ok (E := unit) (div_up ((2 ^ 255 + 7) * 2 ^ 200) (2 ^ 201 * 5))); [|vm_compute; reflexivity].
  rewrite H. vm_compute. reflexivity.
Defined.

(** [FullMath::sqrt] always ends, within 259 turns of its loop, and returns
    the integer square root of every 256-bit number but the largest, on which
    the first increment wraps and the loop divides by zero. *)
Theorem sqrt_correct {UL : U256Lib} x :
  0 <= x < 2 ^ 256 -> sqrt x = Some (if x =? 2 ^ 256 - 1 then Panic else Ok (Z.sqrt x)).
Proof. apply sqrt_spec. Qed.

Lemma sqrt_correct_witness :
  sqrt (UL := u256_std) (2 ^ 255) = Some (Ok (Z.sqrt (2 ^ 255))) /\ sqrt (UL := u256_std) (2 ^ 256 - 1) = Some Panic.
Proof.
  split.
  - rewrite (sqrt_correct (UL := u256_std) (2 ^ 255)); [reflexivity|lia].
  - rewrite (sqrt_correct (UL := u256_std) (2 ^ 256 - 1)); [reflexivity|lia].
Defined.
