(* ===== verification/TickBitmap.v ===== *)
(** * The tick bitmap of a pool ([crates/model/src/defi/tick_map/tick_bitmap.rs])

    The initialised ticks of a pool as one bit each in 256-bit words, found by
    masking a word and taking its highest or lowest bit.  The bitmap is a set of
    compressed ticks; the search returns the nearest member within the word. *)

From stdpp Require Import base numbers list gmap.
From Stdlib Require Import Lia ZArith.
From S2P Require Import Prelude FullMath.

Open Scope Z_scope.

Definition MIN_TICK : Z := -887272.
Definition MAX_TICK : Z := 887272.

Record TickBitmap : Type := mkBitmap {
  tb_words : gmap Z Z;
  tb_tick_spacing : Z;
}.

(** [((tick >> 8) as i16, (tick & 0xFF) as u8)] *)
Definition tick_position (tick : Z) : Z * Z := (wrap I16 (Z.shiftr tick 8), Z.land tick 255).

(** [TickBitmap::new] *)
Definition bitmap_new (tick_spacing : Z) : outcome unit TickBitmap :=
  _ ← assert_ (0 <? tick_spacing);
  Ok (mkBitmap ∅ (wrap I32 tick_spacing)).

Section bitmap.
Context {UL : U256Lib}.

Definition compress_tick (self : TickBitmap) (tick : Z) : Z := Z.quot tick (tb_tick_spacing self).

Definition flip_tick (self : TickBitmap) (tick : Z) : outcome unit TickBitmap :=
  let remainder := Z.rem tick (tb_tick_spacing self) in
  _ ← assert_ (remainder =? 0);
  let compressed_tick := compress_tick self tick in
  let '(word_position, bit_position) := tick_position compressed_tick in
  let word := default 0 (tb_words self !! word_position) in
  let word := u_xor word (u_shl 1 bit_position) in
  Ok (mkBitmap (if word =? 0 then delete word_position (tb_words self)
                else <[word_position := word]> (tb_words self)) (tb_tick_spacing self)).

Definition is_initialized (self : TickBitmap) (tick : Z) : bool :=
  let compressed_tick := compress_tick self tick in
  let '(word_position, bit_position) := tick_position compressed_tick in
  match tb_words self !! word_position with
  | Some word => negb (u_and word (u_shl 1 bit_position) =? 0)
  | None => false
  end.

Definition next_initialized_tick_within_one_word (self : TickBitmap) (tick : Z) (less_than_or_equal : bool)
  : Z * bool :=
  let compressed_tick := compress_tick self tick in
  let compressed_tick :=
    if (tick <? 0) && negb (Z.rem tick (tb_tick_spacing self) =? 0)
    then wrap I32 (compressed_tick - 1) else compressed_tick in
  if less_than_or_equal
  then
    let '(word_pos, bit_pos) := tick_position compressed_tick in
    let mask := u_add (u_sub (u_shl 1 bit_pos) 1) (u_shl 1 bit_pos) in
    let word := default 0 (tb_words self !! word_pos) in
    let masked := u_and word mask in
    let initialized := negb (masked =? 0) in
    let next :=
      if initialized
      then wrap I32 (wrap I32 (compressed_tick - bit_pos + most_significant_bit masked) * tb_tick_spacing self)
      else wrap I32 (wrap I32 (compressed_tick - bit_pos) * tb_tick_spacing self) in
    (next, initialized)
  else
    let '(word_pos, bit_pos) := tick_position (wrap I32 (compressed_tick + 1)) in
    let mask := u_not (u_sub (u_shl 1 bit_pos) 1) in
    let word := default 0 (tb_words self !! word_pos) in
    let masked := u_and word mask in
    let initialized := negb (masked =? 0) in
    let next :=
      if initialized
      then wrap I32 (wrap I32 (compressed_tick + 1 + least_significant_bit masked - bit_pos) * tb_tick_spacing self)
      else wrap I32 (wrap I32 (compressed_tick + 1 + 255 - bit_pos) * tb_tick_spacing self) in
    (next, initialized).
End bitmap.

(** ** Bits *)

Lemma land_low_ones w k : 0 <= k -> Z.land w (2 ^ k - 1) = w mod 2 ^ k.
Proof. intros Hk. rewrite <- Z.land_ones by lia. f_equal. by rewrite Z.ones_equiv, Z.sub_1_r. Qed.

Lemma testbit_pow2 k i : 0 <= k -> 0 <= i -> Z.testbit (2 ^ k) i = bool_decide (i = k).
Proof.
  intros Hk Hi. case_bool_decide as E; [subst; by apply Z.pow2_bits_true|]. by apply Z.pow2_bits_false.
Qed.

Lemma bits_zero w n : 0 <= w < 2 ^ n -> 0 <= n -> (forall i, 0 <= i < n -> Z.testbit w i = false) -> w = 0.
Proof.
  intros Hw Hn H. apply Z.bits_inj'. intros i Hi. rewrite Z.bits_0. destruct (Z.lt_ge_cases i n); [by apply H|].
  rewrite <- (Z.mod_small w (2 ^ n)) by lia. by apply Z.mod_pow2_bits_high.
Qed.

Lemma testbit_high w n i : 0 <= w < 2 ^ n -> 0 <= n <= i -> Z.testbit w i = false.
Proof. intros Hw Hi. rewrite <- (Z.mod_small w (2 ^ n)) by lia. by apply Z.mod_pow2_bits_high. Qed.

(** The lowest bit of a number that is not zero. *)
Lemma lowest_exists w : 0 < w -> exists k, 0 <= k /\ Z.testbit w k = true /\ forall i, 0 <= i < k -> Z.testbit w i = false.
Proof.
  intros Hw. destruct (two_adic w Hw) as (k & c & Hk & Hc & ->). exists k. split; [done|].
  rewrite Z.mul_comm. split.
  - rewrite Z.mul_pow2_bits by lia. rewrite Z.sub_diag. apply Z.testbit_odd_0.
  - intros i Hi. apply Z.mul_pow2_bits_low. lia.
Qed.

(** ** The set of a bitmap *)

(** The compressed tick [c] is a member. *)
Definition member (bm : TickBitmap) (c : Z) : bool :=
  match tb_words bm !! (c / 256) with
  | Some word => Z.testbit word (c mod 256)
  | None => false
  end.

Record bitmap_ok (bm : TickBitmap) : Prop := {
  bk_spacing : 1 <= tb_tick_spacing bm <= 2 ^ 22;
  bk_word p w : tb_words bm !! p = Some w -> 0 < w < 2 ^ 256;
}.

(** Compressed ticks whose word index fits in 16 bits. *)
Definition in_words (c : Z) : Prop := - 2 ^ 23 <= c < 2 ^ 23.

Lemma tick_position_spec c : in_words c -> tick_position c = (c / 256, c mod 256).
Proof.
  intros Hc. unfold tick_position. rewrite Z.shiftr_div_pow2 by lia. change (2 ^ 8) with 256. f_equal.
  - apply wrap_id, in_ty_spec. change (imin I16) with (- 2 ^ 15). change (imax I16) with (2 ^ 15 - 1).
    unfold in_words in Hc. split; [apply Z.div_le_lower_bound; lia|]. assert (c / 256 < 2 ^ 15); [|lia].
    apply Z.div_lt_upper_bound; lia.
  - change 255 with (2 ^ 8 - 1). rewrite land_low_ones by lia. done.
Qed.

Section spec.
Context {UL : U256Lib}.

Lemma shl_one b : 0 <= b < 256 -> u_shl 1 b = 2 ^ b.
Proof.
  intros Hb. rewrite u_shl_spec by (done || (split; lia)). rewrite Z.mul_1_l. apply Z.mod_small.
  split; [lia|]. apply Z.pow_lt_mono_r; lia.
Qed.

Lemma pow_u256 b : 0 <= b < 256 -> u256 (2 ^ b).
Proof. intros Hb. split; [lia|]. apply Z.pow_lt_mono_r; lia. Qed.

Lemma lxor_u256 a b : u256 a -> u256 b -> u256 (Z.lxor a b).
Proof.
  intros Ha Hb. rewrite <- (Z.mod_small a (2 ^ 256)), <- (Z.mod_small b (2 ^ 256)), <- lxor_mod_pow2 by (done || lia).
  apply u256_mod.
Qed.

Lemma land_u256 a b : u256 a -> u256 b -> u256 (Z.land a b).
Proof.
  intros Ha Hb. replace (Z.land a b) with (Z.land a b mod 2 ^ 256); [apply u256_mod|].
  rewrite <- Z.land_ones, <- Z.land_assoc, Z.land_ones by lia. by rewrite (Z.mod_small b).
Qed.

Lemma word_u256 bm p : bitmap_ok bm -> u256 (default 0 (tb_words bm !! p)).
Proof.
  intros Hok. destruct (tb_words bm !! p) as [w|] eqn:E; cbn; [|split; lia].
  apply (bk_word _ Hok) in E. split; lia.
Qed.

Lemma member_word bm c : member bm c = Z.testbit (default 0 (tb_words bm !! (c / 256))) (c mod 256).
Proof. unfold member. destruct (tb_words bm !! (c / 256)); [done|]. by rewrite Z.bits_0. Qed.

Lemma word_split c c' : (c' / 256 = c / 256 /\ c' mod 256 = c mod 256) <-> c' = c.
Proof. pose proof (Z.div_mod c 256). pose proof (Z.div_mod c' 256). split; [lia|by intros ->]. Qed.

(** Flipping toggles one member. *)
Lemma flip_member bm c :
  bitmap_ok bm -> in_words c ->
  exists bm', flip_tick bm (c * tb_tick_spacing bm) = Ok bm' /\ bitmap_ok bm' /\
    tb_tick_spacing bm' = tb_tick_spacing bm /\
    forall c', member bm' c' = xorb (member bm c') (bool_decide (c' = c)).
Proof.
  intros Hok Hc. pose proof (bk_spacing _ Hok) as Hs. unfold flip_tick, compress_tick.
  rewrite Z.rem_mul, Z.quot_mul by lia. cbn [assert_ Z.eqb]. osimpl. rewrite tick_position_spec by done.
  pose proof (Z.mod_pos_bound c 256 ltac:(lia)) as Hb. set (w := default 0 (tb_words bm !! (c / 256))).
  assert (Hw : u256 w) by by apply word_u256. rewrite shl_one, u_xor_spec by (done || by apply pow_u256).
  set (w' := Z.lxor w (2 ^ (c mod 256))). assert (Hw' : u256 w') by (apply lxor_u256; [done|by apply pow_u256]).
  assert (Hbit : forall i, 0 <= i -> Z.testbit w' i = xorb (Z.testbit w i) (bool_decide (i = c mod 256))).
  { intros i Hi. unfold w'. rewrite Z.lxor_spec, testbit_pow2 by lia. done. }
  eexists. split; [done|]. cbn.
  assert (Hlook : forall c', default 0 ((if w' =? 0 then delete (c / 256) (tb_words bm) else <[c / 256 := w']> (tb_words bm)) !! (c' / 256))
    = if decide (c' / 256 = c / 256) then w' else default 0 (tb_words bm !! (c' / 256))).
  { intros c'. destruct (Z.eqb_spec w' 0) as [E|E]; case_decide as Ep; try rewrite Ep.
    - by rewrite lookup_delete_eq.
    - by rewrite lookup_delete_ne.
    - by rewrite lookup_insert_eq.
    - by rewrite lookup_insert_ne. }
  split; [|split; [done|]].
  - split; [done|]. cbn. intros p x. destruct (Z.eqb_spec w' 0) as [E|E].
    + intros [_ Hx]%lookup_delete_Some. by apply (bk_word _ Hok p).
    + intros [[_ <-]|[_ Hx]]%lookup_insert_Some; [unfold u256 in Hw'; lia|by apply (bk_word _ Hok p)].
  - intros c'. rewrite !member_word. cbn. rewrite Hlook. case_decide as Ep.
    + rewrite Hbit by (apply Z.mod_pos_bound; lia). unfold w. rewrite Ep. f_equal. apply bool_decide_ext.
      pose proof (word_split c c'). tauto.
    + rewrite bool_decide_false; [by rewrite xorb_false_r|]. by intros ->.
Qed.

Lemma is_initialized_member bm c :
  bitmap_ok bm -> in_words c -> is_initialized bm (c * tb_tick_spacing bm) = member bm c.
Proof.
  intros Hok Hc. pose proof (bk_spacing _ Hok) as Hs. unfold is_initialized, compress_tick, member.
  rewrite Z.quot_mul, tick_position_spec by (done || lia). destruct (tb_words bm !! (c / 256)) as [w|] eqn:E; [|done].
  pose proof (Z.mod_pos_bound c 256 ltac:(lia)) as Hb. apply (bk_word _ Hok) in E.
  rewrite shl_one, u_and_spec by (done || (by apply pow_u256) || (split; lia)). set (b := c mod 256) in *.
  destruct (Z.testbit w b) eqn:Et.
  - apply negb_true_iff, Z.eqb_neq. intros E0. assert (Z.testbit (Z.land w (2 ^ b)) b = true) as Hc'.
    { rewrite Z.land_spec, Et, testbit_pow2, bool_decide_true by lia. done. }
    rewrite E0, Z.bits_0 in Hc'. done.
  - apply negb_false_iff, Z.eqb_eq, Z.bits_inj'. intros i Hi. rewrite Z.land_spec, Z.bits_0, testbit_pow2 by lia.
    case_bool_decide; [subst i; by rewrite Et|by rewrite andb_false_r].
Qed.

(** *** Searching a word *)

Lemma word_below w b :
  u256 w -> 0 <= b < 256 ->
  let masked := u_and w (u_add (u_sub (u_shl 1 b) 1) (u_shl 1 b)) in
  if masked =? 0 then forall i, 0 <= i <= b -> Z.testbit w i = false
  else let k := most_significant_bit masked in
       0 <= k <= b /\ Z.testbit w k = true /\ forall i, k < i <= b -> Z.testbit w i = false.
Proof.
  intros Hw Hb masked. assert (Hp : u256 (2 ^ b)) by by apply pow_u256.
  assert (Hp1 : 2 ^ (b + 1) = 2 * 2 ^ b) by (rewrite Z.pow_add_r by lia; lia).
  assert (Hp2 : 2 ^ (b + 1) <= 2 ^ 256) by (apply Z.pow_le_mono_r; lia).
  assert (Em : masked = w mod 2 ^ (b + 1)).
  { unfold masked. rewrite shl_one by done. rewrite u_sub_spec by (done || (split; lia)). unfold u256 in Hp.
    rewrite (Z.mod_small (2 ^ b - 1)) by lia. rewrite u_add_spec, Z.mod_small by (unfold u256; lia).
    rewrite u_and_spec by (done || (unfold u256; lia)). rewrite <- land_low_ones by lia. f_equal. lia. }
  assert (Hm : 0 <= masked < 2 ^ (b + 1)) by (rewrite Em; apply Z.mod_pos_bound; lia).
  assert (Hbits : forall i, 0 <= i <= b -> Z.testbit w i = Z.testbit masked i).
  { intros i Hi. rewrite Em, Z.mod_pow2_bits_low by lia. done. }
  destruct (Z.eqb_spec masked 0) as [E|E].
  - intros i Hi. by rewrite Hbits, E, Z.bits_0.
  - unfold most_significant_bit. rewrite (proj2 (Z.eqb_neq masked 0)) by done. rewrite leading_zeros_spec by (done || (unfold u256; lia)).
    replace (255 - (255 - Z.log2 masked)) with (Z.log2 masked) by lia.
    assert (Hl : 0 <= Z.log2 masked <= b).
    { split; [apply Z.log2_nonneg|]. assert (Z.log2 masked < b + 1); [|lia]. apply Z.log2_lt_pow2; lia. }
    split; [done|]. split; [rewrite Hbits by done; apply Z.bit_log2; lia|].
    intros i Hi. rewrite Hbits by lia. apply Z.bits_above_log2; lia.
Qed.

Lemma word_above w b :
  u256 w -> 0 <= b < 256 ->
  let masked := u_and w (u_not (u_sub (u_shl 1 b) 1)) in
  if masked =? 0 then forall i, b <= i < 256 -> Z.testbit w i = false
  else let k := least_significant_bit masked in
       b <= k < 256 /\ Z.testbit w k = true /\ forall i, b <= i < k -> Z.testbit w i = false.
Proof.
  intros Hw Hb masked. assert (Hp : u256 (2 ^ b)) by by apply pow_u256. unfold u256 in Hp.
  assert (Em : masked = Z.land w ((- 2 ^ b) mod 2 ^ 256)).
  { unfold masked. rewrite shl_one by done. rewrite u_sub_spec by (unfold u256; lia). rewrite (Z.mod_small (2 ^ b - 1)) by lia.
    rewrite u_not_spec by (unfold u256; lia). rewrite u_and_spec by (done || apply u256_mod). do 2 f_equal. lia. }
  assert (Hbits : forall i, 0 <= i < 256 -> Z.testbit masked i = Z.testbit w i && bool_decide (b <= i)).
  { intros i Hi. rewrite Em, Z.land_spec, Z.mod_pow2_bits_low by lia. f_equal.
    replace (- 2 ^ b) with (Z.lnot (Z.ones b)) by (unfold Z.lnot; rewrite Z.ones_equiv; lia).
    rewrite Z.lnot_spec by lia. case_bool_decide; [rewrite Z.ones_spec_high by lia|rewrite Z.ones_spec_low by lia]; done. }
  assert (Hm : u256 masked).
  { rewrite Em. apply land_u256; [done|apply u256_mod]. }
  destruct (Z.eqb_spec masked 0) as [E|E].
  - intros i Hi. specialize (Hbits i). rewrite E, Z.bits_0, bool_decide_true, andb_true_r in Hbits by lia. by rewrite Hbits by lia.
  - destruct (lowest_exists masked) as (k & Hk & Ht & Hlow); [unfold u256 in Hm; lia|].
    unfold least_significant_bit. rewrite (proj2 (Z.eqb_neq masked 0)) by done.
    rewrite (trailing_zeros_spec masked k) by done.
    assert (Hk256 : k < 256).
    { destruct (Z.lt_ge_cases k 256); [done|]. rewrite (testbit_high masked 256) in Ht by (done || lia). done. }
    rewrite Hbits in Ht by lia. apply andb_prop in Ht as [Ht Hbk]. apply bool_decide_eq_true in Hbk.
    split; [lia|]. split; [done|]. intros i Hi. specialize (Hlow i ltac:(lia)). rewrite Hbits, bool_decide_true, andb_true_r in Hlow by lia. done.
Qed.

(** The adjusted quotient is the floor. *)
Lemma compress_floor bm tick :
  1 <= tb_tick_spacing bm -> MIN_TICK <= tick <= MAX_TICK ->
  (if (tick <? 0) && negb (Z.rem tick (tb_tick_spacing bm) =? 0)
   then wrap I32 (compress_tick bm tick - 1) else compress_tick bm tick) = tick / tb_tick_spacing bm.
Proof.
  intros Hs Ht. unfold compress_tick, MIN_TICK, MAX_TICK in *. set (s := tb_tick_spacing bm) in *.
  pose proof (Z.quot_rem' tick s) as Hqr. destruct (Z.ltb_spec tick 0) as [Hneg|Hpos]; cbn [andb].
  - pose proof (Z.rem_nonpos tick s ltac:(lia) ltac:(lia)). pose proof (Z.rem_bound_abs tick s ltac:(lia)).
    assert (Hq : -887272 <= Z.quot tick s <= 0).
    { set (q := Z.quot tick s) in *. split.
      - destruct (Z.le_gt_cases (-887272) q); [done|]. assert (s * q <= 1 * q) by (apply Z.mul_le_mono_nonpos_r; lia). lia.
      - destruct (Z.le_gt_cases q 0); [done|]. assert (s * 1 <= s * q) by (apply Z.mul_le_mono_nonneg_l; lia). lia. }
    destruct (Z.eqb_spec (Z.rem tick s) 0) as [E|E]; cbn [negb].
    + apply (Z.div_unique _ _ _ 0); lia.
    + rewrite wrap_id by (apply in_ty_spec; change (imin I32) with (- 2 ^ 31); change (imax I32) with (2 ^ 31 - 1); lia).
      apply (Z.div_unique _ _ _ (Z.rem tick s + s)); lia.
  - by rewrite Z.quot_div_nonneg by lia.
Qed.

(** Arithmetic of the results stays in 32 bits. *)
Lemma scale_fits n s tick :
  1 <= s <= 2 ^ 22 -> MIN_TICK <= tick <= MAX_TICK -> tick / s - 255 <= n <= tick / s + 256 ->
  wrap I32 (wrap I32 n * s) = n * s.
Proof.
  intros Hs Ht Hn. unfold MIN_TICK, MAX_TICK in Ht.
  assert (Hc : -887272 <= tick / s <= 887272).
  { split; [apply Z.div_le_lower_bound; nia|apply Z.div_le_upper_bound; nia]. }
  pose proof (Z.mul_div_le tick s ltac:(lia)) as Hlo. pose proof (Z.mul_succ_div_gt tick s ltac:(lia)) as Hhi.
  generalize dependent (tick / s). intros q Hn Hc Hlo Hhi.
  rewrite (wrap_id I32 n) by (apply in_ty_spec; change (imin I32) with (- 2 ^ 31); change (imax I32) with (2 ^ 31 - 1); lia).
  assert (n * s <= (q + 256) * s) by (apply Z.mul_le_mono_nonneg_r; lia).
  assert ((q - 255) * s <= n * s) by (apply Z.mul_le_mono_nonneg_r; lia).
  apply wrap_id, in_ty_spec. change (imin I32) with (- 2 ^ 31). change (imax I32) with (2 ^ 31 - 1). nia.
Qed.

Lemma floor_in_words s tick : 1 <= s -> MIN_TICK <= tick <= MAX_TICK -> in_words (tick / s) /\ in_words (tick / s + 1).
Proof.
  intros Hs Ht. unfold MIN_TICK, MAX_TICK, in_words in *.
  assert (Hc : -887272 <= tick / s <= 887272); [|lia].
  split; [apply Z.div_le_lower_bound; nia|apply Z.div_le_upper_bound; nia].
Qed.

(** The members of the word of [c]. *)
Lemma member_in_word bm c i :
  0 <= i < 256 -> member bm (256 * (c / 256) + i) = Z.testbit (default 0 (tb_words bm !! (c / 256))) i.
Proof.
  intros Hi. rewrite member_word.
  rewrite <- (Z.div_unique (256 * (c / 256) + i) 256 (c / 256) i), <- (Z.mod_unique (256 * (c / 256) + i) 256 (c / 256) i) by lia.
  done.
Qed.

Lemma member_offset bm c m :
  256 * (c / 256) <= m < 256 * (c / 256) + 256 ->
  member bm m = Z.testbit (default 0 (tb_words bm !! (c / 256))) (m - 256 * (c / 256)).
Proof. intros Hm. rewrite <- (member_in_word bm c) by lia. f_equal. lia. Qed.

Lemma next_below bm tick :
  bitmap_ok bm -> MIN_TICK <= tick <= MAX_TICK ->
  let c := tick / tb_tick_spacing bm in
  let '(next, initialized) := next_initialized_tick_within_one_word bm tick true in
  exists n, next = n * tb_tick_spacing bm /\ 256 * (c / 256) <= n <= c /\
    initialized = member bm n /\
    (initialized = false -> n = 256 * (c / 256)) /\
    forall m, n < m <= c -> member bm m = false.
Proof.
  intros Hok Ht c. pose proof (bk_spacing _ Hok) as Hs. unfold next_initialized_tick_within_one_word.
  rewrite compress_floor by lia. fold c. destruct (floor_in_words (tb_tick_spacing bm) tick) as [Hcw _]; [lia..|].
  rewrite tick_position_spec by done. pose proof (Z.div_mod c 256 ltac:(lia)) as Hdm.
  pose proof (Z.mod_pos_bound c 256 ltac:(lia)) as Hb.
  pose proof (word_below _ (c mod 256) (word_u256 bm (c / 256) Hok) Hb) as Hw. cbn zeta in Hw.
  set (masked := u_and _ _) in *. destruct (masked =? 0); cbn [negb].
  - exists (256 * (c / 256)). rewrite (scale_fits _ _ tick) by (fold c; lia).
    split; [lia|]. split; [lia|]. rewrite (member_offset bm c), Hw by lia. split; [done|]. split; [done|].
    intros m Hm. rewrite (member_offset bm c) by lia. apply Hw. lia.
  - destruct Hw as (Hk & Hset & Hlow). set (k := most_significant_bit masked) in *.
    exists (256 * (c / 256) + k). rewrite (scale_fits _ _ tick) by (fold c; lia).
    split; [f_equal; lia|]. split; [lia|]. rewrite member_in_word, Hset by lia. split; [done|]. split; [done|].
    intros m Hm. rewrite (member_offset bm c) by lia. apply Hlow. lia.
Qed.

Lemma next_above bm tick :
  bitmap_ok bm -> MIN_TICK <= tick <= MAX_TICK ->
  let c := tick / tb_tick_spacing bm + 1 in
  let '(next, initialized) := next_initialized_tick_within_one_word bm tick false in
  exists n, next = n * tb_tick_spacing bm /\ c <= n <= 256 * (c / 256) + 255 /\
    initialized = member bm n /\
    (initialized = false -> n = 256 * (c / 256) + 255) /\
    forall m, c <= m < n -> member bm m = false.
Proof.
  intros Hok Ht c. pose proof (bk_spacing _ Hok) as Hs. unfold next_initialized_tick_within_one_word.
  rewrite compress_floor by lia. destruct (floor_in_words (tb_tick_spacing bm) tick) as [_ Hcw]; [lia..|].
  rewrite wrap_id by (apply in_ty_spec; change (imin I32) with (- 2 ^ 31); change (imax I32) with (2 ^ 31 - 1); unfold in_words in Hcw; lia).
  fold c in Hcw |- *. rewrite tick_position_spec by done. pose proof (Z.div_mod c 256 ltac:(lia)) as Hdm.
  pose proof (Z.mod_pos_bound c 256 ltac:(lia)) as Hb.
  pose proof (word_above _ (c mod 256) (word_u256 bm (c / 256) Hok) Hb) as Hw. cbn zeta in Hw.
  set (masked := u_and _ _) in *. destruct (masked =? 0); cbn [negb].
  - exists (256 * (c / 256) + 255). rewrite (scale_fits _ _ tick) by lia.
    split; [f_equal; lia|]. split; [lia|]. rewrite member_in_word, Hw by lia. split; [done|]. split; [done|].
    intros m Hm. rewrite (member_offset bm c) by lia. apply Hw. lia.
  - destruct Hw as (Hk & Hset & Hlow). set (k := least_significant_bit masked) in *.
    exists (256 * (c / 256) + k). rewrite (scale_fits _ _ tick) by lia.
    split; [f_equal; lia|]. split; [lia|]. rewrite member_in_word, Hset by lia. split; [done|]. split; [done|].
    intros m Hm. rewrite (member_offset bm c) by lia. apply Hlow. lia.
Qed.

(** ** Histories of flips *)

Fixpoint flip_all (bm : TickBitmap) (ticks : list Z) : outcome unit TickBitmap :=
  match ticks with
  | [] => Ok bm
  | t :: ticks =>
      bm ← flip_tick bm t;
      flip_all bm ticks
  end.

(** Flipped an odd number of times. *)
Definition flipped (ticks : list Z) (t : Z) : bool :=
  Nat.odd (length (List.filter (fun t' => t' =? t) ticks)).

Lemma flipped_cons t ticks t' : flipped (t :: ticks) t' = xorb (bool_decide (t' = t)) (flipped ticks t').
Proof.
  unfold flipped. cbn. rewrite (Z.eqb_sym t t'). case_bool_decide as E; [subst|rewrite (proj2 (Z.eqb_neq _ _)) by done; by destruct (Nat.odd _)].
  rewrite Z.eqb_refl. cbn [length]. rewrite Nat.odd_succ, <- Nat.negb_odd. done.
Qed.

Lemma flip_all_member bm ticks s :
  bitmap_ok bm -> tb_tick_spacing bm = s ->
  Forall (fun t => (s | t) /\ MIN_TICK <= t <= MAX_TICK) ticks ->
  exists bm', flip_all bm ticks = Ok bm' /\ bitmap_ok bm' /\ tb_tick_spacing bm' = s /\
    forall c, member bm' c = xorb (member bm c) (flipped ticks (c * s)).
Proof.
  intros Hok Es. revert bm Hok Es. induction ticks as [|t ticks IH]; intros bm Hok Es Ht.
  - exists bm. split_and!; [done..|]. intros c. by rewrite xorb_false_r.
  - apply Forall_cons in Ht as [[[c Hc] Hr] Ht]. pose proof (bk_spacing _ Hok) as Hs.
    assert (Hcw : in_words c).
    { destruct (floor_in_words s t) as [Hw _]; [lia..|]. by rewrite Hc, Z.div_mul in Hw by lia. }
    destruct (flip_member bm c Hok Hcw) as (bm1 & E1 & Hok1 & Es1 & Hm1).
    cbn [flip_all]. rewrite Hc, <- Es, E1. osimpl. destruct (IH bm1 Hok1 ltac:(congruence) Ht) as (bm' & E' & Hok' & Es' & Hm').
    exists bm'. split_and!; [done|done|congruence|]. intros c'. rewrite Hm', Hm1, flipped_cons, Es.
    rewrite <- xorb_assoc. f_equal. f_equal. apply bool_decide_ext. split; [congruence|]. intros E. apply (Z.mul_reg_r _ _ s); lia.
Qed.
End spec.

(** After any flips of valid ticks, a tick is initialised exactly when it was
    flipped an odd number of times, and the search within one word returns the
    nearest initialised tick: downwards the greatest one not above the tick in
    its word, or the word's first tick when there is none; upwards the least one
    above the tick in the word of the next tick, or that word's last tick. *)
Theorem tick_bitmap_correct {UL : U256Lib} spacing ticks tick :
  1 <= spacing <= 2 ^ 22 ->
  Forall (fun t => (spacing | t) /\ MIN_TICK <= t <= MAX_TICK) ticks -> MIN_TICK <= tick <= MAX_TICK ->
  exists bm0 bm, bitmap_new spacing = Ok bm0 /\ flip_all bm0 ticks = Ok bm /\
    (forall t, (spacing | t) -> MIN_TICK <= t <= MAX_TICK -> is_initialized bm t = flipped ticks t) /\
    (let c := tick / spacing in
     let '(next, found) := next_initialized_tick_within_one_word bm tick true in
     exists n, next = n * spacing /\ 256 * (c / 256) <= n <= c /\ found = flipped ticks next /\
       (found = false -> n = 256 * (c / 256)) /\
       forall m, n < m <= c -> flipped ticks (m * spacing) = false) /\
    (let c := tick / spacing + 1 in
     let '(next, found) := next_initialized_tick_within_one_word bm tick false in
     exists n, next = n * spacing /\ c <= n <= 256 * (c / 256) + 255 /\ found = flipped ticks next /\
       (found = false -> n = 256 * (c / 256) + 255) /\
       forall m, c <= m < n -> flipped ticks (m * spacing) = false).
Proof.
  intros Hs Hts Ht. assert (Ew : wrap I32 spacing = spacing).
  { apply wrap_id, in_ty_spec. change (imin I32) with (- 2 ^ 31). change (imax I32) with (2 ^ 31 - 1). lia. }
  exists (mkBitmap ∅ spacing).
  assert (Hok0 : bitmap_ok (mkBitmap ∅ spacing)) by (split; [done|cbn; intros p w; by rewrite lookup_empty]).
  destruct (flip_all_member _ ticks spacing Hok0 eq_refl Hts) as (bm & E & Hok & Es & Hm). exists bm.
  assert (Hmem : forall c, member bm c = flipped ticks (c * spacing)).
  { intros c. rewrite Hm. unfold member. cbn. by rewrite lookup_empty, xorb_false_l. }
  split; [unfold bitmap_new; rewrite (proj2 (Z.ltb_lt 0 spacing)), Ew by lia; done|].
  split; [done|]. split; [|split].
  - intros t [c ->] Hr. rewrite <- Hmem, <- Es. apply is_initialized_member; [done|].
    destruct (floor_in_words spacing (c * spacing)) as [Hw _]; [lia..|]. by rewrite Z.div_mul in Hw by lia.
  - pose proof (next_below bm tick Hok Ht) as Hn. cbn zeta in *. rewrite Es in Hn.
    destruct (next_initialized_tick_within_one_word bm tick true) as [next found]. destruct Hn as (n & -> & Hr & Hf & Hz & Hall).
    exists n. split_and!; [done|lia|lia|by rewrite Hf, Hmem|done|]. intros m Hlt. rewrite <- Hmem. by apply Hall.
  - pose proof (next_above bm tick Hok Ht) as Hn. cbn zeta in *. rewrite Es in Hn.
    destruct (next_initialized_tick_within_one_word bm tick false) as [next found]. destruct Hn as (n & -> & Hr & Hf & Hz & Hall).
    exists n. split_and!; [done|lia|lia|by rewrite Hf, Hmem|done|]. intros m Hlt. rewrite <- Hmem. by apply Hall.
Qed.

(** Ticks of a pool with spacing 60. *)
Lemma tick_bitmap_correct_witness :
  exists bm0 bm, bitmap_new 60 = Ok bm0 /\ flip_all (UL := u256_std) bm0 [-120; 6000; 60; 60] = Ok bm /\
    next_initialized_tick_within_one_word (UL := u256_std) bm 59 true = (0, false) /\
    next_initialized_tick_within_one_word (UL := u256_std) bm (-1) true = (-120, true) /\
    next_initialized_tick_within_one_word (UL := u256_std) bm 59 false = (6000, true) /\
    is_initialized (UL := u256_std) bm 60 = flipped [-120; 6000; 60; 60] 60.
Proof.
  destruct (tick_bitmap_correct (UL := u256_std) 60 [-120; 6000; 60; 60] 59) as (bm0 & bm & E0 & E & Hi & _).
  - lia.
  - repeat (constructor; [split; [|vm_compute; split; discriminate]|]);
      [exists (-2)|exists 100|exists 1|exists 1|constructor]; reflexivity.
  - vm_compute. split; discriminate.
  - exists bm0, bm. split; [exact E0|]. split; [exact E|]. 
    assert (Hd : is_initialized (UL := u256_std) bm 60 = flipped [-120; 6000; 60; 60] 60).
    { apply Hi; [exists 1; reflexivity|vm_compute; split; discriminate]. }
    vm_compute in E0. injection E0 as <-. vm_compute in E. injection E as <-.
    split; [vm_compute; reflexivity|]. split; [vm_compute; reflexivity|]. split; [vm_compute; reflexivity|]. exact Hd.
Defined.
