(* ===== verification/TickMap.v ===== *)
(** * Ticks and their liquidity ([crates/model/src/defi/tick_map/mod.rs],
    [tick.rs], [liquidity_math.rs])

    The tick map of a pool keeps the liquidity that refers to each tick and the
    bitmap of the ticks in use.  Against the map from ticks to gross liquidity,
    an update adds its delta or panics, and the bitmap holds exactly the ticks
    whose liquidity is not zero. *)

From stdpp Require Import base numbers list gmap.
From Stdlib Require Import Lia ZArith.
From S2P Require Import Prelude FullMath TickBitmap.

Open Scope Z_scope.

Record PoolTick : Type := mkPoolTick {
  pt_value : Z;
  pt_liquidity_gross : Z;
  pt_liquidity_net : Z;
  pt_fee_growth_outside_0 : Z;
  pt_fee_growth_outside_1 : Z;
  pt_initialized : bool;
  pt_last_updated_block : Z;
  pt_updates_count : Z;
}.

#[global] Instance eta_pool_tick : Eta PoolTick :=
  fun t => mkPoolTick (pt_value t) (pt_liquidity_gross t) (pt_liquidity_net t) (pt_fee_growth_outside_0 t)
             (pt_fee_growth_outside_1 t) (pt_initialized t) (pt_last_updated_block t) (pt_updates_count t).

(** ** [liquidity_math.rs] *)

Definition liquidity_math_add (x y : Z) : outcome unit Z :=
  if y <? 0
  then
    let delta := wrap U128 (- y) in
    let z := wrap U128 (x - delta) in
    _ ← assert_ (z <? x);
    Ok z
  else
    let z := wrap U128 (x + y) in
    _ ← assert_ (x <=? z);
    Ok z.

Definition tick_spacing_to_max_liquidity_per_tick (tick_spacing : Z) : outcome unit Z :=
  _ ← assert_ (negb (tick_spacing =? 0));
  let min_tick := Z.quot MIN_TICK tick_spacing * tick_spacing in
  let max_tick := Z.quot MAX_TICK tick_spacing * tick_spacing in
  let num_ticks := Z.quot (max_tick - min_tick) tick_spacing + 1 in
  Ok (imax U128 / wrap U128 num_ticks).

(** ** [tick.rs] *)

Definition pool_tick_from_tick (tick : Z) : PoolTick := mkPoolTick tick 0 0 0 0 false 0 0.

Definition update_liquidity (self : PoolTick) (liquidity_delta : Z) (upper : bool) : outcome unit (Z * PoolTick) :=
  let liquidity_gross_before := pt_liquidity_gross self in
  gross ← liquidity_math_add (pt_liquidity_gross self) liquidity_delta;
  let net :=
    if upper then wrap I128 (pt_liquidity_net self - liquidity_delta)
    else wrap I128 (pt_liquidity_net self + liquidity_delta) in
  Ok (liquidity_gross_before,
      self <| pt_liquidity_gross := gross |> <| pt_liquidity_net := net |>
           <| pt_updates_count := wrap U64 (pt_updates_count self + 1) |>).

Definition pool_tick_clear (self : PoolTick) : PoolTick :=
  self <| pt_liquidity_gross := 0 |> <| pt_liquidity_net := 0 |> <| pt_fee_growth_outside_0 := 0 |>
       <| pt_fee_growth_outside_1 := 0 |> <| pt_initialized := false |>.

Definition is_active (self : PoolTick) : bool := pt_initialized self && (0 <? pt_liquidity_gross self).

Definition get_max_tick (tick_spacing : Z) : Z := Z.quot MAX_TICK tick_spacing * tick_spacing.
Definition get_min_tick (tick_spacing : Z) : Z := Z.quot MIN_TICK tick_spacing * tick_spacing.

Section tick_map.
Context {UL : U256Lib}.

Definition update_fee_growth (self : PoolTick) (fee_growth_global_0 fee_growth_global_1 : Z) : PoolTick :=
  self <| pt_fee_growth_outside_0 := u_sub fee_growth_global_0 (pt_fee_growth_outside_0 self) |>
       <| pt_fee_growth_outside_1 := u_sub fee_growth_global_1 (pt_fee_growth_outside_1 self) |>.

(** ** [mod.rs] *)

Record TickMap : Type := mkTickMap {
  tm_ticks : gmap Z PoolTick;
  tm_tick_bitmap : TickBitmap;
  tm_liquidity : Z;
  tm_max_liquidity_per_tick : Z;
}.

Definition tick_map_new (tick_spacing : Z) : outcome unit TickMap :=
  _ ← assert_ (0 <? tick_spacing);
  bitmap ← bitmap_new tick_spacing;
  max ← tick_spacing_to_max_liquidity_per_tick (wrap I32 tick_spacing);
  Ok (mkTickMap ∅ bitmap 0 max).

Definition get_tick (self : TickMap) (tick : Z) : option PoolTick := tm_ticks self !! tick.

Definition set_ticks (self : TickMap) (ticks : gmap Z PoolTick) : TickMap :=
  mkTickMap ticks (tm_tick_bitmap self) (tm_liquidity self) (tm_max_liquidity_per_tick self).

Definition set_bitmap (self : TickMap) (bitmap : TickBitmap) : TickMap :=
  mkTickMap (tm_ticks self) bitmap (tm_liquidity self) (tm_max_liquidity_per_tick self).

(** [entry(tick).or_insert_with(..)] *)
Definition get_tick_or_init (self : TickMap) (tick : Z) : PoolTick * TickMap :=
  match tm_ticks self !! tick with
  | Some t => (t, self)
  | None => let t := pool_tick_from_tick tick in (t, set_ticks self (<[tick := t]> (tm_ticks self)))
  end.

Definition get_fee_growth_inside (self : TickMap) (lower_tick upper_tick current_tick : Z)
  (fee_growth_global_0 fee_growth_global_1 : Z) : (Z * Z) * TickMap :=
  let '(_, self) := get_tick_or_init self lower_tick in
  let '(upper, self) := get_tick_or_init self upper_tick in
  let '(lower, self) := get_tick_or_init self lower_tick in
  let fee_growth_below_0 :=
    if pt_value lower <=? current_tick then pt_fee_growth_outside_0 lower
    else u_sub fee_growth_global_0 (pt_fee_growth_outside_0 lower) in
  let fee_growth_below_1 :=
    if pt_value lower <=? current_tick then pt_fee_growth_outside_1 lower
    else u_sub fee_growth_global_1 (pt_fee_growth_outside_1 lower) in
  let fee_growth_above_0 :=
    if current_tick <? pt_value upper then pt_fee_growth_outside_0 upper
    else u_sub fee_growth_global_0 (pt_fee_growth_outside_0 upper) in
  let fee_growth_above_1 :=
    if current_tick <? pt_value upper then pt_fee_growth_outside_1 upper
    else u_sub fee_growth_global_1 (pt_fee_growth_outside_1 upper) in
  ((u_sub (u_sub fee_growth_global_0 fee_growth_below_0) fee_growth_above_0,
    u_sub (u_sub fee_growth_global_1 fee_growth_below_1) fee_growth_above_1), self).

Definition update_tick_data (self : TickMap) (tick tick_current liquidity_delta : Z) (upper : bool)
  (fee_growth_global_0 fee_growth_global_1 : Z) : outcome unit (bool * TickMap) :=
  let max_liquidity_per_tick := tm_max_liquidity_per_tick self in
  let '(t, self) := get_tick_or_init self tick in
  res ← update_liquidity t liquidity_delta upper;
  let '(liquidity_gross_before, t) := res in
  let liquidity_gross_after := pt_liquidity_gross t in
  _ ← assert_ (liquidity_gross_after <=? max_liquidity_per_tick);
  let t :=
    if liquidity_gross_before =? 0
    then
      let t :=
        if pt_value t <=? tick_current
        then t <| pt_fee_growth_outside_0 := fee_growth_global_0 |>
               <| pt_fee_growth_outside_1 := fee_growth_global_1 |>
        else t in
      t <| pt_initialized := true |>
    else t in
  Ok (xorb (liquidity_gross_after =? 0) (liquidity_gross_before =? 0),
      set_ticks self (<[tick := t]> (tm_ticks self))).

Definition tick_map_update (self : TickMap) (tick tick_current liquidity_delta : Z) (upper : bool)
  (fee_growth_global_0 fee_growth_global_1 : Z) : outcome unit (bool * TickMap) :=
  res ← update_tick_data self tick tick_current liquidity_delta upper fee_growth_global_0 fee_growth_global_1;
  let '(flipped, self) := res in
  if (flipped : bool)
  then
    bitmap ← flip_tick (tm_tick_bitmap self) tick;
    Ok (flipped, set_bitmap self bitmap)
  else Ok (flipped, self).

Definition cross_tick (self : TickMap) (tick fee_growth_global_0 fee_growth_global_1 : Z) : Z * TickMap :=
  let '(t, self) := get_tick_or_init self tick in
  let t := update_fee_growth t fee_growth_global_0 fee_growth_global_1 in
  (pt_liquidity_net t, set_ticks self (<[tick := t]> (tm_ticks self))).

Definition is_tick_initialized (self : TickMap) (tick : Z) : bool := is_initialized (tm_tick_bitmap self) tick.

Definition active_tick_count (self : TickMap) : nat :=
  length (List.filter (fun kt => is_tick_initialized self (pt_value kt.2)) (map_to_list (tm_ticks self))).

Definition total_tick_count (self : TickMap) : nat := size (tm_ticks self).

Definition set_tick (self : TickMap) (tick_data : PoolTick) : TickMap :=
  set_ticks self (<[pt_value tick_data := tick_data]> (tm_ticks self)).

Definition restore_tick (self : TickMap) (tick_data : PoolTick) : outcome unit TickMap :=
  let self := set_tick self tick_data in
  if pt_initialized tick_data
  then bitmap ← flip_tick (tm_tick_bitmap self) (pt_value tick_data); Ok (set_bitmap self bitmap)
  else Ok self.

Definition tick_map_clear (self : TickMap) (tick : Z) : TickMap := set_ticks self (delete tick (tm_ticks self)).

Definition next_initialized_tick (self : TickMap) (tick : Z) (lte : bool) : Z * bool :=
  next_initialized_tick_within_one_word (tm_tick_bitmap self) tick lte.
End tick_map.
Arguments TickMap : clear implicits.

(** ** Liquidity arithmetic *)

Lemma u128_range z : in_ty U128 z = true <-> 0 <= z < 2 ^ 128.
Proof. rewrite in_ty_spec. change (imin U128) with 0. change (imax U128) with (2 ^ 128 - 1). lia. Qed.

(** The wrapped comparison detects every overflow and underflow. *)
Lemma liquidity_math_add_spec x y :
  0 <= x < 2 ^ 128 -> - 2 ^ 127 <= y < 2 ^ 127 ->
  liquidity_math_add x y = if (0 <=? x + y) && (x + y <? 2 ^ 128) then Ok (x + y) else Panic.
Proof.
  intros Hx Hy. unfold liquidity_math_add. change (wrap U128) with (fun z => z mod 2 ^ 128). cbn beta.
  destruct (Z.ltb_spec y 0).
  - rewrite (Z.mod_small (- y)) by lia. replace (x - - y) with (x + y) by lia. destruct (Z.leb_spec 0 (x + y)); cbn [andb].
    + rewrite Z.mod_small by lia. rewrite (proj2 (Z.ltb_lt (x + y) x)), (proj2 (Z.ltb_lt (x + y) _)) by lia. done.
    + rewrite <- (Z.mod_add (x + y) 1), Z.mod_small by lia. rewrite (proj2 (Z.ltb_ge _ x)) by lia. done.
  - rewrite (proj2 (Z.leb_le 0 (x + y))) by lia. cbn [andb]. destruct (Z.ltb_spec (x + y) (2 ^ 128)).
    + rewrite Z.mod_small by lia. rewrite (proj2 (Z.leb_le x (x + y))) by lia. done.
    + rewrite <- (Z.mod_add (x + y) (-1)), Z.mod_small by lia. rewrite (proj2 (Z.leb_gt x _)) by lia. done.
Qed.

(** The number of ticks a spacing leaves. *)
Definition tick_count (s : Z) : Z := 2 * (MAX_TICK / s) + 1.

Lemma max_liquidity_spec s :
  1 <= s <= 2 ^ 22 -> tick_spacing_to_max_liquidity_per_tick s = Ok ((2 ^ 128 - 1) / tick_count s).
Proof.
  intros Hs. unfold tick_spacing_to_max_liquidity_per_tick, tick_count. rewrite (proj2 (Z.eqb_neq s 0)) by lia. cbn [negb assert_]. osimpl.
  assert (Hq : 0 <= MAX_TICK / s <= MAX_TICK).
  { split; [apply Z.div_pos; unfold MAX_TICK; lia|apply Z.div_le_upper_bound; unfold MAX_TICK; lia]. }
  change MIN_TICK with (- MAX_TICK). rewrite Z.quot_opp_l, (Z.quot_div_nonneg MAX_TICK s) by (unfold MAX_TICK; lia).
  set (m := MAX_TICK / s) in *. replace (m * s - - m * s) with (2 * m * s) by lia. rewrite Z.quot_mul by lia.
  rewrite wrap_id by (apply u128_range; unfold MAX_TICK in Hq; lia). done.
Qed.

(** No assignment of liquidity to the ticks overflows 128 bits. *)
Lemma max_liquidity_total s max :
  1 <= s <= 2 ^ 22 -> tick_spacing_to_max_liquidity_per_tick s = Ok max ->
  0 <= max < 2 ^ 128 /\ max * tick_count s < 2 ^ 128.
Proof.
  intros Hs Hm. rewrite max_liquidity_spec in Hm by done. injection Hm as <-.
  assert (1 <= tick_count s).
  { unfold tick_count. assert (0 <= MAX_TICK / s) by (apply Z.div_pos; unfold MAX_TICK; lia). lia. }
  pose proof (Z.mul_div_le (2 ^ 128 - 1) (tick_count s) ltac:(lia)).
  split; [|lia]. split; [apply Z.div_pos; lia|]. apply Z.div_lt_upper_bound; nia.
Qed.

(** ** The tick map against the gross liquidity *)

Section spec.
Context {UL : U256Lib}.

Definition gross (tm : TickMap) (t : Z) : Z :=
  match tm_ticks tm !! t with Some p => pt_liquidity_gross p | None => 0 end.

Abbreviation spacing tm := (tb_tick_spacing (tm_tick_bitmap tm)).

Record tick_map_ok (tm : TickMap) : Prop := {
  tk_bitmap : bitmap_ok (tm_tick_bitmap tm);
  tk_max : 0 <= tm_max_liquidity_per_tick tm < 2 ^ 128;
  tk_range t : 0 <= gross tm t <= tm_max_liquidity_per_tick tm;
  tk_member c : member (tm_tick_bitmap tm) c = negb (gross tm (c * spacing tm) =? 0);
}.

Lemma get_tick_or_init_spec tm tick t tm1 :
  get_tick_or_init tm tick = (t, tm1) ->
  pt_liquidity_gross t = gross tm tick /\ tm_ticks tm1 !! tick = Some t /\
  tm_tick_bitmap tm1 = tm_tick_bitmap tm /\ tm_max_liquidity_per_tick tm1 = tm_max_liquidity_per_tick tm /\
  tm_liquidity tm1 = tm_liquidity tm /\
  forall t', gross tm1 t' = gross tm t'.
Proof.
  unfold get_tick_or_init, gross. destruct (tm_ticks tm !! tick) as [p|] eqn:E; intros [= <- <-]; cbn.
  - rewrite E. done.
  - rewrite lookup_insert_eq. split_and!; [done..|]. intros t'. destruct (decide (t' = tick)) as [->|Hne].
    + by rewrite lookup_insert_eq, E.
    + by rewrite lookup_insert_ne.
Qed.

Lemma gross_insert tm tick p t' :
  gross (set_ticks tm (<[tick := p]> (tm_ticks tm))) t' = if decide (t' = tick) then pt_liquidity_gross p else gross tm t'.
Proof.
  unfold gross. cbn. case_decide as E; [subst; by rewrite lookup_insert_eq|by rewrite lookup_insert_ne].
Qed.

(** The data update: the new gross liquidity, or a panic. *)
Lemma update_tick_data_spec tm tick cur delta upper f0 f1 :
  tick_map_ok tm -> - 2 ^ 127 <= delta < 2 ^ 127 ->
  let x := gross tm tick + delta in
  if (0 <=? x) && (x <=? tm_max_liquidity_per_tick tm)
  then exists tm', update_tick_data tm tick cur delta upper f0 f1 =
         Ok (xorb (x =? 0) (gross tm tick =? 0), tm') /\
       tm_tick_bitmap tm' = tm_tick_bitmap tm /\ tm_max_liquidity_per_tick tm' = tm_max_liquidity_per_tick tm /\
       forall t', gross tm' t' = if decide (t' = tick) then x else gross tm t'
  else update_tick_data tm tick cur delta upper f0 f1 = Panic.
Proof.
  intros Hok Hd x. pose proof (tk_max _ Hok) as Hmax. pose proof (tk_range _ Hok tick) as Hr. unfold update_tick_data.
  destruct (get_tick_or_init tm tick) as [t tm1] eqn:Eg. apply get_tick_or_init_spec in Eg as (Et & _ & Eb & Em & _ & Eall).
  unfold update_liquidity. rewrite Et, liquidity_math_add_spec by lia. fold x.
  destruct (Z.leb_spec 0 x); cbn [andb]; [|done]. destruct (Z.leb_spec x (tm_max_liquidity_per_tick tm)) as [Hle|Hgt].
  - rewrite (proj2 (Z.ltb_lt x _)) by lia. osimpl. cbn [pt_liquidity_gross set_field].
    set (t1 := t <| pt_liquidity_gross := x |> <| pt_liquidity_net := _ |> <| pt_updates_count := _ |>).
    change (pt_liquidity_gross t1) with x. rewrite (proj2 (Z.leb_le x _)) by done. osimpl.
    eexists. split; [done|]. cbn. split; [done|]. split; [done|]. intros t'. rewrite gross_insert, Eall.
    case_decide; [|done]. by repeat case_match.
  - destruct (Z.ltb_spec x (2 ^ 128)); [|done]. osimpl.
    set (t1 := t <| pt_liquidity_gross := x |> <| pt_liquidity_net := _ |> <| pt_updates_count := _ |>).
    change (pt_liquidity_gross t1) with x. rewrite (proj2 (Z.leb_gt x _)) by done. done.
Qed.

Definition valid_tick (s t : Z) : Prop := (s | t) /\ MIN_TICK <= t <= MAX_TICK.

Lemma tick_map_update_spec tm tick cur delta upper f0 f1 :
  tick_map_ok tm -> valid_tick (spacing tm) tick -> - 2 ^ 127 <= delta < 2 ^ 127 ->
  let x := gross tm tick + delta in
  if (0 <=? x) && (x <=? tm_max_liquidity_per_tick tm)
  then exists tm', tick_map_update tm tick cur delta upper f0 f1 = Ok (xorb (x =? 0) (gross tm tick =? 0), tm') /\
       tick_map_ok tm' /\ spacing tm' = spacing tm /\ tm_max_liquidity_per_tick tm' = tm_max_liquidity_per_tick tm /\
       forall t', gross tm' t' = if decide (t' = tick) then x else gross tm t'
  else tick_map_update tm tick cur delta upper f0 f1 = Panic.
Proof.
  intros Hok [[c Hc] Hr] Hd x. pose proof (update_tick_data_spec tm tick cur delta upper f0 f1 Hok Hd) as Hu. cbn zeta in Hu.
  fold x in Hu. unfold tick_map_update. destruct ((0 <=? x) && (x <=? _)) eqn:Ex; [|by rewrite Hu].
  destruct Hu as (tm1 & -> & Eb & Em & Eall). osimpl. pose proof Hok as [Hbm Hmax Hrange Hmem].
  pose proof (bk_spacing _ Hbm) as Hs. bool_simpl.
  assert (Hr1 : forall t', 0 <= gross tm1 t' <= tm_max_liquidity_per_tick tm) by (intros t'; rewrite Eall; case_decide; [lia|done]).
  destruct (xorb (x =? 0) (gross tm tick =? 0)) eqn:Ef.
  - rewrite Eb, Hc. destruct (flip_member (tm_tick_bitmap tm) c Hbm) as (bm' & E' & Hbm' & Es' & Hm').
    { destruct (floor_in_words (spacing tm) tick) as [Hw _]; [lia..|]. by rewrite Hc, Z.div_mul in Hw by lia. }
    rewrite E'. osimpl. eexists. split; [done|]. split; [|split; [done|split; [done|by rewrite Hc in Eall]]].
    split; cbn; [done|by rewrite Em|by rewrite Em|]. intros c'. rewrite Hm', Es'. change (gross (set_bitmap tm1 bm')) with (gross tm1).
    rewrite Eall, Hmem. case_bool_decide as Ec.
    + subst c'. rewrite decide_True by lia. rewrite <- Hc, xorb_true_r. destruct (x =? 0), (gross tm tick =? 0); done.
    + rewrite decide_False by (rewrite Hc; intros E; apply Ec; apply (Z.mul_reg_r _ _ (spacing tm)); lia). by rewrite xorb_false_r.
  - eexists. split; [done|]. split; [|split; [by rewrite Eb|split; [done|done]]].
    split; [by rewrite Eb|by rewrite Em|by rewrite Em|]. intros c'. rewrite Eb, Eall, Hmem. case_decide as Ec; [|done].
    rewrite Ec. destruct (x =? 0), (gross tm tick =? 0); done.
Qed.

Lemma tick_map_new_spec s :
  1 <= s <= 2 ^ 22 ->
  exists tm, tick_map_new s = Ok tm /\ tick_map_ok tm /\ spacing tm = s /\
    tm_max_liquidity_per_tick tm = (2 ^ 128 - 1) / tick_count s /\ forall t, gross tm t = 0.
Proof.
  intros Hs. assert (Ew : wrap I32 s = s).
  { apply wrap_id, in_ty_spec. change (imin I32) with (- 2 ^ 31). change (imax I32) with (2 ^ 31 - 1). lia. }
  unfold tick_map_new, bitmap_new. rewrite (proj2 (Z.ltb_lt 0 s)) by lia. cbn [assert_]. osimpl. rewrite Ew, max_liquidity_spec by done. osimpl.
  destruct (max_liquidity_total s _ Hs (max_liquidity_spec s Hs)) as [Hm _].
  eexists. split; [done|]. split; [|done]. split; cbn.
  - split; [done|]. cbn. intros p w. by rewrite lookup_empty.
  - done.
  - intros t. unfold gross. cbn. rewrite lookup_empty. lia.
  - intros c. unfold member, gross. cbn. by rewrite !lookup_empty.
Qed.

(** *** Histories of updates *)

Record tick_update : Type := mkUpdate {
  tu_tick : Z;
  tu_current : Z;
  tu_delta : Z;
  tu_upper : bool;
  tu_fee_0 : Z;
  tu_fee_1 : Z;
}.

Fixpoint update_all (tm : TickMap) (us : list tick_update) : outcome unit TickMap :=
  match us with
  | [] => Ok tm
  | u :: us =>
      res ← tick_map_update tm (tu_tick u) (tu_current u) (tu_delta u) (tu_upper u) (tu_fee_0 u) (tu_fee_1 u);
      update_all res.2 us
  end.

(** The specification: gross liquidity per tick, bounded. *)
Definition liquidity_of (g : gmap Z Z) (t : Z) : Z := default 0 (g !! t).

Fixpoint spec_updates (max : Z) (g : gmap Z Z) (us : list tick_update) : option (gmap Z Z) :=
  match us with
  | [] => Some g
  | u :: us =>
      let x := liquidity_of g (tu_tick u) + tu_delta u in
      if (0 <=? x) && (x <=? max) then spec_updates max (<[tu_tick u := x]> g) us else None
  end.

Definition update_ok (s : Z) (u : tick_update) : Prop :=
  valid_tick s (tu_tick u) /\ - 2 ^ 127 <= tu_delta u < 2 ^ 127.

Lemma update_all_spec us tm g :
  tick_map_ok tm -> (forall t, gross tm t = liquidity_of g t) -> Forall (update_ok (spacing tm)) us ->
  match spec_updates (tm_max_liquidity_per_tick tm) g us with
  | Some g' => exists tm', update_all tm us = Ok tm' /\ tick_map_ok tm' /\ spacing tm' = spacing tm /\
                 forall t, gross tm' t = liquidity_of g' t
  | None => update_all tm us = Panic
  end.
Proof.
  revert tm g. induction us as [|u us IH]; intros tm g Hok Hg Hus; [by exists tm|].
  apply Forall_cons in Hus as [[Hv Hd] Hus]. cbn [spec_updates update_all].
  pose proof (tick_map_update_spec tm (tu_tick u) (tu_current u) (tu_delta u) (tu_upper u) (tu_fee_0 u) (tu_fee_1 u) Hok Hv Hd) as Hu.
  cbn zeta in Hu. rewrite Hg in Hu. set (x := liquidity_of g (tu_tick u) + tu_delta u) in *.
  destruct ((0 <=? x) && (x <=? _)); [|by rewrite Hu]. destruct Hu as (tm1 & -> & Hok1 & Es & Em & Eall). osimpl. cbn [snd].
  rewrite <- Em, <- Es. rewrite <- Es in Hus. apply IH; [done| |done]. intros t. rewrite Eall. unfold liquidity_of.
  case_decide as E; [subst; by rewrite lookup_insert_eq|]. rewrite lookup_insert_ne by done. apply Hg.
Qed.
End spec.

(** What a search finds from [c] to the end [e] of its word: a tick [n] on the
    way, the nearest with liquidity when [found], the end otherwise. *)
Definition nearest (s : Z) (g : gmap Z Z) (c e n : Z) (found : bool) : Prop :=
  Z.min c e <= n <= Z.max c e /\ found = negb (liquidity_of g (n * s) =? 0) /\
  (found = false -> n = e) /\
  forall m, Z.min c n <= m <= Z.max c n -> m <> n -> liquidity_of g (m * s) = 0.

Lemma search_spec {UL : U256Lib} tm s g tick (lte : bool) :
  tick_map_ok tm -> tb_tick_spacing (tm_tick_bitmap tm) = s -> (forall t, gross tm t = liquidity_of g t) ->
  MIN_TICK <= tick <= MAX_TICK ->
  let '(next, found) := next_initialized_tick tm tick lte in
  exists n, next = n * s /\
    if lte then nearest s g (tick / s) (256 * (tick / s / 256)) n found
    else nearest s g (tick / s + 1) (256 * ((tick / s + 1) / 256) + 255) n found.
Proof.
  intros Hok Es Hg Ht.
  assert (Hmem : forall m, member (tm_tick_bitmap tm) m = negb (liquidity_of g (m * s) =? 0)).
  { intros m. by rewrite (tk_member _ Hok), Hg, Es. }
  assert (Hz : forall m, member (tm_tick_bitmap tm) m = false -> liquidity_of g (m * s) = 0).
  { intros m. rewrite Hmem. intros H. by bool_simpl. }
  unfold next_initialized_tick. destruct lte.
  - pose proof (next_below (tm_tick_bitmap tm) tick (tk_bitmap _ Hok) Ht) as Hn. cbn zeta in Hn. rewrite Es in Hn.
    destruct (next_initialized_tick_within_one_word _ tick true) as [next found].
    destruct Hn as (n & -> & Hr & Hf & He & Hall). exists n. split; [done|].
    split_and!; [lia|lia|by rewrite Hf, Hmem|done|]. intros m Hm Hne. apply Hz, Hall. lia.
  - pose proof (next_above (tm_tick_bitmap tm) tick (tk_bitmap _ Hok) Ht) as Hn. cbn zeta in Hn. rewrite Es in Hn.
    destruct (next_initialized_tick_within_one_word _ tick false) as [next found].
    destruct Hn as (n & -> & Hr & Hf & He & Hall). exists n. split; [done|].
    split_and!; [lia|lia|by rewrite Hf, Hmem|done|]. intros m Hm Hne. apply Hz, Hall. lia.
Qed.

(** C37: For a tick spacing of 1 to 2^22, over any history of updates of valid
    ticks (multiples of the spacing within MIN_TICK and MAX_TICK) by 128-bit
    deltas, the tick map keeps, per tick, the sum of the liquidity deltas,
    panicking exactly when a sum would become negative or exceed the pool's
    maximum per tick; a tick is initialised in the bitmap exactly when its
    liquidity is not zero.  From every tick in that range, the search at or below
    it finds the nearest tick with liquidity down to the first tick of its word of
    256, the search above it the nearest up to the last tick of the word of the
    following tick; when there is none they return that end of the word as not
    initialised. *)
Theorem tick_map_correct {UL : U256Lib} s us tick (lte : bool) :
  1 <= s <= 2 ^ 22 -> Forall (update_ok s) us -> MIN_TICK <= tick <= MAX_TICK ->
  exists tm0, tick_map_new s = Ok tm0 /\
  match spec_updates ((2 ^ 128 - 1) / tick_count s) ∅ us with
  | None => update_all tm0 us = Panic
  | Some g =>
      exists tm, update_all tm0 us = Ok tm /\
        (forall t, gross tm t = liquidity_of g t) /\
        (forall t, valid_tick s t -> is_tick_initialized tm t = negb (liquidity_of g t =? 0)) /\
        let '(next, found) := next_initialized_tick tm tick lte in
        exists n, next = n * s /\
          if lte then nearest s g (tick / s) (256 * (tick / s / 256)) n found
          else nearest s g (tick / s + 1) (256 * ((tick / s + 1) / 256) + 255) n found
  end.
Proof.
  intros Hs Hus Ht. destruct (tick_map_new_spec s Hs) as (tm0 & E0 & Hok0 & Es0 & Em0 & Hg0). exists tm0. split; [done|].
  rewrite <- Em0. rewrite <- Es0 in Hus. pose proof (update_all_spec us tm0 ∅ Hok0) as Hu.
  specialize (Hu ltac:(intros t; rewrite Hg0; unfold liquidity_of; by rewrite lookup_empty) Hus).
  destruct (spec_updates _ ∅ us) as [g|]; [|done]. destruct Hu as (tm & -> & Hok & Es & Hg). exists tm.
  split; [done|]. split; [done|]. rewrite Es0 in Es. split; [|by apply search_spec].
  intros t [[c ->] Hr]. unfold is_tick_initialized. rewrite <- Hg, <- Es, <- (tk_member _ Hok). apply is_initialized_member; [apply Hok|].
  destruct (floor_in_words s (c * s)) as [Hw _]; [lia..|]. by rewrite Z.div_mul in Hw by lia.
Qed.

(** Liquidity added on [-120, 60] of a pool with spacing 60, and half removed. *)
Definition demo_updates : list tick_update :=
  [mkUpdate (-120) 0 1000 false 5 7; mkUpdate 60 0 1000 true 5 7; mkUpdate (-120) 0 (-400) false 9 9;
   mkUpdate 60 0 (-1000) true 9 9].

Lemma tick_map_correct_witness :
  exists tm0 tm, tick_map_new 60 = Ok tm0 /\ update_all (UL := u256_std) tm0 demo_updates = Ok tm /\
    gross tm (-120) = 600 /\ gross tm 60 = 0 /\
    next_initialized_tick (UL := u256_std) tm (-1) true = (-120, true) /\
    next_initialized_tick (UL := u256_std) tm (-180) false = (-120, true).
Proof.
  destruct (tick_map_correct (UL := u256_std) 60 demo_updates (-180) false) as (tm0 & E0 & H).
  - lia.
  - repeat (constructor; [split; [split; [|vm_compute; split; discriminate]|vm_compute; split; [discriminate|reflexivity]]|]);
      [exists (-2)|exists 1|exists (-2)|exists 1|constructor]; reflexivity.
  - vm_compute. split; discriminate.
  - exists tm0. vm_compute in E0. injection E0 as <-. vm_compute spec_updates in H. cbn iota in H.
    destruct H as (tm & E & Hg & _). exists tm. split; [reflexivity|]. split; [exact E|].
    split; [rewrite Hg; vm_compute; reflexivity|]. split; [rewrite Hg; vm_compute; reflexivity|].
    vm_compute in E. injection E as <-. split; vm_compute; reflexivity.
Defined.

(** Crossing a tick and crossing it back at the same global fees changes nothing. *)
Lemma cross_twice {UL : U256Lib} p g0 g1 :
  u256 g0 -> u256 g1 -> u256 (pt_fee_growth_outside_0 p) -> u256 (pt_fee_growth_outside_1 p) ->
  update_fee_growth (update_fee_growth p g0 g1) g0 g1 = p.
Proof.
  intros H0 H1 H2 H3. destruct p as [v gr nt f0 f1 ini lb uc]. unfold update_fee_growth, set_field. cbn in *.
  rewrite (u_sub_spec g0 f0), (u_sub_spec g1 f1) by done. rewrite !u_sub_spec by (done || apply u256_mod).
  rewrite !Zminus_mod_idemp_r. replace (g0 - (g0 - f0)) with f0 by lia. replace (g1 - (g1 - f1)) with f1 by lia.
  by rewrite !Z.mod_small.
Qed.
