(* ===== verification/Account.v ===== *)
(** * Accounts ([crates/model/src/accounts/], [crates/model/src/events/account/state.rs])

    An account keeps, per currency, a balance split into a locked and a free
    part.  A cash or betting account locks funds per instrument and currency
    for the working orders; a margin account reserves initial and maintenance
    margin per instrument or, in cross margin, per collateral currency.
    Currencies are compared by code, so the maps keyed by currency are keyed by
    code and keep the currency value first stored. *)

From stdpp Require Import base numbers list strings gmap.
From Stdlib Require Import ZArith Lia.
From S2P Require Import Prelude F64 Fixed Price Quantity Money Enums Maps OrderEvents.

Inductive AccountType : Type := Cash | Margin | Betting | Wallet.
#[export] Instance account_type_eq_dec : EqDecision AccountType.
Proof. solve_decision. Defined.

Record AccountState : Type := mkAccountState {
  as_account_id : AccountId;
  as_account_type : AccountType;
  as_base_currency : option Currency;
  as_balances : list AccountBalance;
  as_margins : list MarginBalance;
  as_is_reported : bool;
  as_event_id : UUID4;
  as_ts_event : UnixNanos;
  as_ts_init : UnixNanos;
}.

(** ** Comparing account states *)
Definition account_balance_eqb (a b : AccountBalance) : bool :=
  money_eqb (ab_total a) (ab_total b) && money_eqb (ab_locked a) (ab_locked b)
  && money_eqb (ab_free a) (ab_free b).
Definition margin_balance_eqb (a b : MarginBalance) : bool :=
  money_eqb (mb_initial a) (mb_initial b) && money_eqb (mb_maintenance a) (mb_maintenance b)
  && bool_decide (mb_instrument_id a = mb_instrument_id b).

Definition margin_key (k : option InstrumentId * Currency) : option InstrumentId * string :=
  (k.1, c_code k.2).

(** A [HashMap] collected from a list: a later entry replaces an earlier one. *)
Definition balances_by_currency (bs : list AccountBalance) : list (Currency * AccountBalance) :=
  fold_left (fun m b => km_insert c_code (ab_currency b) b m) bs [].
Definition margins_by_key (ms : list MarginBalance)
  : list ((option InstrumentId * Currency) * MarginBalance) :=
  fold_left (fun m b => km_insert margin_key (mb_instrument_id b, mb_currency b) b m) ms [].

Definition has_same_balances_and_margins (self other : AccountState) : bool :=
  if negb (bool_decide (length (as_balances self) = length (as_balances other)))
     || negb (bool_decide (length (as_margins self) = length (as_margins other)))
  then false
  else
    let other_balances := balances_by_currency (as_balances other) in
    let other_margins := margins_by_key (as_margins other) in
    List.forallb (fun kv => match km_get c_code kv.1 other_balances with
                            | Some b => account_balance_eqb kv.2 b
                            | None => false
                            end) (balances_by_currency (as_balances self))
    && List.forallb (fun kv => match km_get margin_key kv.1 other_margins with
                               | Some b => margin_balance_eqb kv.2 b
                               | None => false
                               end) (margins_by_key (as_margins self)).

(** ** The base account *)
Record BaseAccount : Type := mkBaseAccount {
  ba_id : AccountId;
  ba_account_type : AccountType;
  ba_base_currency : option Currency;
  ba_calculate_account_state : bool;
  ba_events : list AccountState;
  ba_commissions : list (Currency * Money);
  ba_balances : list (Currency * AccountBalance);
  ba_balances_starting : list (Currency * Money);
}.
#[export] Instance base_account_eta : Eta BaseAccount := fun a =>
  mkBaseAccount (ba_id a) (ba_account_type a) (ba_base_currency a) (ba_calculate_account_state a)
    (ba_events a) (ba_commissions a) (ba_balances a) (ba_balances_starting a).

Definition NANOSECONDS_IN_SECOND : Z := 1000000000.
Definition MAX_SECS_FOR_NANOS : f64 :=
  F64.div (F64.of_Z (imax U64)) (F64.of_Z NANOSECONDS_IN_SECOND).
Definition secs_to_nanos (secs : f64) : outcome unit Z :=
  _ ← err_if (negb (F64.is_finite secs)) tt;
  if F64.leb secs F64.zero then Ok 0
  else
    _ ← err_if (negb (F64.leb secs MAX_SECS_FOR_NANOS)) tt;
    Ok (F64.to_int U64 (F64.mul secs (F64.of_Z NANOSECONDS_IN_SECOND))).
Definition secs_to_nanos_unchecked {E} (secs : f64) : outcome E Z := unwrap_ok (secs_to_nanos secs).

Section Base.
Context `{M : Mode}.
Implicit Types self : BaseAccount.

Definition base_account_new (event : AccountState) (calculate_account_state : bool) : BaseAccount :=
  let balances_starting :=
    fold_left (fun m b => km_insert c_code (ab_currency b) (ab_total b) m) (as_balances event) [] in
  let balances :=
    fold_left (fun m b => km_insert c_code (ab_currency b) b m) (as_balances event) [] in
  mkBaseAccount (as_account_id event) (as_account_type event) (as_base_currency event)
    calculate_account_state [event] [] balances balances_starting.

Definition or_base {E} self (currency : option Currency) : outcome E Currency :=
  expect (match currency with Some c => Some c | None => ba_base_currency self end).
Definition base_balance {E} self (currency : option Currency) : outcome E (option AccountBalance) :=
  c ← or_base self currency; Ok (km_get c_code c (ba_balances self)).
Definition base_balance_total {E} self (currency : option Currency) : outcome E (option Money) :=
  c ← or_base self currency; Ok (ab_total <$> km_get c_code c (ba_balances self)).
Definition base_balance_free {E} self (currency : option Currency) : outcome E (option Money) :=
  c ← or_base self currency; Ok (ab_free <$> km_get c_code c (ba_balances self)).
Definition base_balance_locked {E} self (currency : option Currency) : outcome E (option Money) :=
  c ← or_base self currency; Ok (ab_locked <$> km_get c_code c (ba_balances self)).
Definition base_balances_total self : list (Currency * Money) :=
  prod_map id ab_total <$> ba_balances self.
Definition base_balances_free self : list (Currency * Money) :=
  prod_map id ab_free <$> ba_balances self.
Definition base_balances_locked self : list (Currency * Money) :=
  prod_map id ab_locked <$> ba_balances self.
Definition base_last_event self : option AccountState := last (ba_events self).

Definition base_update_balances self (balances : list AccountBalance) : BaseAccount :=
  self <| ba_balances :=
    fold_left (fun m b => km_insert c_code (ab_currency b) b m) balances (ba_balances self) |>.

Definition update_commissions {E} self (commission : Money) : outcome E BaseAccount :=
  let commission := money_normalized commission in
  if money_is_zero commission then Ok self
  else
    let currency := m_currency commission in
    match km_get c_code currency (ba_commissions self) with
    | Some total =>
        total ← money_add total commission;
        Ok (self <| ba_commissions := km_insert c_code currency total (ba_commissions self) |>)
    | None => Ok (self <| ba_commissions := km_insert c_code currency commission (ba_commissions self) |>)
    end.
Definition base_commission self (currency : Currency) : option Money :=
  km_get c_code currency (ba_commissions self).

Definition base_apply {E} self (event : AccountState) : outcome E BaseAccount :=
  _ ← assert_ (bool_decide (as_account_id event = ba_id self));
  let self := base_update_balances self (as_balances event) in
  Ok (self <| ba_events := ba_events self ++ [event] |>).

(** The loop over the events; the sum of two timestamps panics on overflow. *)
Fixpoint retain_events {E} (lookback_ns ts_now : Z) (events : list AccountState)
  : outcome E (list AccountState) :=
  match events with
  | [] => Ok []
  | event :: events =>
      until ← expect (checked U64 (as_ts_event event + lookback_ns));
      rest ← retain_events lookback_ns ts_now events;
      Ok (if ts_now <? until then event :: rest else rest)
  end.
Definition base_purge_account_events {E} self (ts_now lookback_secs : Z) : outcome E BaseAccount :=
  lookback_ns ← secs_to_nanos_unchecked (F64.of_Z lookback_secs);
  retained ← retain_events lookback_ns ts_now (ba_events self);
  let retained :=
    match retained, last (ba_events self) with
    | [], Some event => [event]
    | _, _ => retained
    end in
  Ok (self <| ba_events := retained |>).
End Base.

(** ** Locked balances *)
Definition lock_key (k : InstrumentId * Currency) : InstrumentId * string := (k.1, c_code k.2).
Definition Locks : Type := list ((InstrumentId * Currency) * Money).

Section Cash.
Context `{M : Mode} {Dec : Type} `{D : !DecimalApi Dec}.

Record CashAccount : Type := mkCashAccount {
  ca_base : BaseAccount;
  ca_allow_borrowing : bool;
  ca_balances_locked : Locks;
}.
#[export] Instance cash_account_eta : Eta CashAccount := fun a =>
  mkCashAccount (ca_base a) (ca_allow_borrowing a) (ca_balances_locked a).

Definition cash_account_new (event : AccountState) (calculate_account_state allow_borrowing : bool)
  : CashAccount :=
  mkCashAccount (base_account_new event calculate_account_state) allow_borrowing [].

Definition cash_recalculate_balance {E} (self : CashAccount) (currency : Currency)
  : outcome E CashAccount :=
  match km_get c_code currency (ba_balances (ca_base self)) with
  | None => Ok self
  | Some current_balance =>
      let locked := List.filter (fun m => currency_eqb (m_currency m) currency)
                      (snd <$> ca_balances_locked self) in
      let total_locked_raw :=
        fold_left (fun acc m => saturate MoneyRaw (acc + m_raw m)) locked 0 in
      let total_raw := m_raw (ab_total current_balance) in
      let '(locked_raw, free_raw) :=
        if (total_raw <? total_locked_raw) && (0 <=? total_raw) then (total_raw, 0)
        else (total_locked_raw, wrap MoneyRaw (total_raw - total_locked_raw)) in
      locked ← money_from_raw locked_raw currency;
      free ← money_from_raw free_raw currency;
      new_balance ← account_balance_new (ab_total current_balance) locked free;
      let base := ca_base self in
      Ok (self <| ca_base := base <| ba_balances :=
            km_insert c_code currency new_balance (ba_balances base) |> |>)
  end.

Definition cash_update_balance_locked {E} (self : CashAccount) (instrument_id : InstrumentId)
    (locked : Money) : outcome E CashAccount :=
  _ ← assert_ (0 <=? m_raw locked);
  let currency := m_currency locked in
  let self := self <| ca_balances_locked :=
    km_insert lock_key (instrument_id, currency) locked (ca_balances_locked self) |> in
  cash_recalculate_balance self currency.

Fixpoint cash_recalculate_all {E} (self : CashAccount) (currencies : list Currency)
  : outcome E CashAccount :=
  match currencies with
  | [] => Ok self
  | c :: cs => self ← cash_recalculate_balance self c; cash_recalculate_all self cs
  end.

Definition cash_clear_balance_locked {E} (self : CashAccount) (instrument_id : InstrumentId)
  : outcome E CashAccount :=
  let currencies_to_recalc :=
    snd <$> List.filter (fun k => bool_decide (k.1 = instrument_id)) (fst <$> ca_balances_locked self) in
  let self := self <| ca_balances_locked :=
    fold_left (fun m c => km_remove lock_key (instrument_id, c) m) currencies_to_recalc
      (ca_balances_locked self) |> in
  cash_recalculate_all self currencies_to_recalc.

(** The loop that rejects negative totals; the message of the error prints the
    total as a decimal. *)
Fixpoint reject_negative (balances : list AccountBalance) : outcome unit unit :=
  match balances with
  | [] => Ok tt
  | b :: bs =>
      if m_raw (ab_total b) <? 0 then
        _ ← money_as_decimal (Dec := Dec) (ab_total b); Err tt
      else reject_negative bs
  end.

Definition cash_update_balances (self : CashAccount) (balances : list AccountBalance)
  : outcome unit CashAccount :=
  _ ← (if negb (ca_allow_borrowing self) then reject_negative balances else Ok tt);
  Ok (self <| ca_base := base_update_balances (ca_base self) balances |>).

Definition cash_apply (self : CashAccount) (event : AccountState) : outcome unit CashAccount :=
  _ ← (if negb (ca_allow_borrowing self) then reject_negative (as_balances event) else Ok tt);
  let self :=
    if as_is_reported event && negb (bool_decide (as_balances event = []))
    then self <| ca_balances_locked := [] |> else self in
  base ← base_apply (ca_base self) event;
  Ok (self <| ca_base := base |>).

Definition cash_purge_account_events {E} (self : CashAccount) (ts_now lookback_secs : Z)
  : outcome E CashAccount :=
  base ← base_purge_account_events (ca_base self) ts_now lookback_secs;
  Ok (self <| ca_base := base |>).
Definition cash_update_commissions {E} (self : CashAccount) (commission : Money)
  : outcome E CashAccount :=
  base ← update_commissions (ca_base self) commission; Ok (self <| ca_base := base |>).

Definition cash_is_cash_account (self : CashAccount) : bool :=
  bool_decide (ba_account_type (ca_base self) = Cash).
Definition cash_is_margin_account (self : CashAccount) : bool :=
  bool_decide (ba_account_type (ca_base self) = Margin).
End Cash.

(** ** Betting accounts *)
Section Betting.
Context `{M : Mode} {Dec : Type} `{D : !DecimalApi Dec}.

Record BettingAccount : Type := mkBettingAccount {
  bt_base : BaseAccount;
  bt_balances_locked : Locks;
}.
#[export] Instance betting_account_eta : Eta BettingAccount := fun a =>
  mkBettingAccount (bt_base a) (bt_balances_locked a).

Definition betting_account_new (event : AccountState) (calculate_account_state : bool)
  : BettingAccount := mkBettingAccount (base_account_new event calculate_account_state) [].

Definition betting_recalculate_balance {E} (self : BettingAccount) (currency : Currency)
  : outcome E BettingAccount :=
  match km_get c_code currency (ba_balances (bt_base self)) with
  | None => Ok self
  | Some current_balance =>
      let locked := List.filter (fun m => currency_eqb (m_currency m) currency)
                      (snd <$> bt_balances_locked self) in
      let total_locked_raw :=
        fold_left (fun acc m => saturate MoneyRaw (acc + m_raw m)) locked 0 in
      let total_raw := m_raw (ab_total current_balance) in
      let '(locked_raw, free_raw) :=
        if (total_raw <? total_locked_raw) && (0 <=? total_raw) then (total_raw, 0)
        else (total_locked_raw, wrap MoneyRaw (total_raw - total_locked_raw)) in
      locked ← money_from_raw locked_raw currency;
      free ← money_from_raw free_raw currency;
      new_balance ← account_balance_new (ab_total current_balance) locked free;
      let base := bt_base self in
      Ok (self <| bt_base := base <| ba_balances :=
            km_insert c_code currency new_balance (ba_balances base) |> |>)
  end.

Definition betting_update_balance_locked {E} (self : BettingAccount) (instrument_id : InstrumentId)
    (locked : Money) : outcome E BettingAccount :=
  _ ← assert_ (0 <=? m_raw locked);
  let currency := m_currency locked in
  let self := self <| bt_balances_locked :=
    km_insert lock_key (instrument_id, currency) locked (bt_balances_locked self) |> in
  betting_recalculate_balance self currency.

Fixpoint betting_recalculate_all {E} (self : BettingAccount) (currencies : list Currency)
  : outcome E BettingAccount :=
  match currencies with
  | [] => Ok self
  | c :: cs => self ← betting_recalculate_balance self c; betting_recalculate_all self cs
  end.

Definition betting_clear_balance_locked {E} (self : BettingAccount) (instrument_id : InstrumentId)
  : outcome E BettingAccount :=
  let currencies_to_recalc :=
    snd <$> List.filter (fun k => bool_decide (k.1 = instrument_id)) (fst <$> bt_balances_locked self) in
  let self := self <| bt_balances_locked :=
    fold_left (fun m c => km_remove lock_key (instrument_id, c) m) currencies_to_recalc
      (bt_balances_locked self) |> in
  betting_recalculate_all self currencies_to_recalc.

Definition betting_update_balances (self : BettingAccount) (balances : list AccountBalance)
  : outcome unit BettingAccount :=
  _ ← reject_negative (Dec := Dec) balances;
  Ok (self <| bt_base := base_update_balances (bt_base self) balances |>).

Definition betting_apply (self : BettingAccount) (event : AccountState)
  : outcome unit BettingAccount :=
  _ ← reject_negative (Dec := Dec) (as_balances event);
  let self := if as_is_reported event then self <| bt_balances_locked := [] |> else self in
  base ← base_apply (bt_base self) event;
  Ok (self <| bt_base := base |>).
End Betting.

(** ** Margin accounts *)
Section Margin.
Context `{M : Mode} {Dec : Type} `{D : !DecimalApi Dec}.

Record MarginAccount : Type := mkMarginAccount {
  ma_base : BaseAccount;
  ma_leverages : gmap InstrumentId Dec;
  ma_margins : list (InstrumentId * MarginBalance);
  ma_account_margins : list (Currency * MarginBalance);
  ma_default_leverage : Dec;
}.
#[export] Instance margin_account_eta : Eta MarginAccount := fun a =>
  mkMarginAccount (ma_base a) (ma_leverages a) (ma_margins a) (ma_account_margins a)
    (ma_default_leverage a).

Definition split_event_margins (event : AccountState)
  : list (InstrumentId * MarginBalance) * list (Currency * MarginBalance) :=
  fold_left (fun ms margin =>
    match mb_instrument_id margin with
    | Some instrument_id => (ix_insert instrument_id margin ms.1, ms.2)
    | None => (ms.1, km_insert c_code (mb_currency margin) margin ms.2)
    end) (as_margins event) ([], []).

Definition margin_account_new {E} (event : AccountState) (calculate_account_state : bool)
  : outcome E MarginAccount :=
  one ← dec_from_i128_with_scale 1 0;
  let '(margins, account_margins) := split_event_margins event in
  Ok (mkMarginAccount (base_account_new event calculate_account_state) ∅ margins account_margins one).

(** [check_positive_decimal]: a decimal has the sign of its mantissa. *)
Definition check_positive_decimal (value : Dec) : CorrectnessResult unit :=
  err_if (dec_mantissa value <=? 0) NotPositive.
Definition set_default_leverage {E} (self : MarginAccount) (leverage : Dec) : outcome E MarginAccount :=
  _ ← unwrap_ok (check_positive_decimal leverage);
  Ok (self <| ma_default_leverage := leverage |>).
Definition set_leverage {E} (self : MarginAccount) (instrument_id : InstrumentId) (leverage : Dec)
  : outcome E MarginAccount :=
  _ ← unwrap_ok (check_positive_decimal leverage);
  Ok (self <| ma_leverages := <[instrument_id := leverage]> (ma_leverages self) |>).
Definition get_leverage (self : MarginAccount) (instrument_id : InstrumentId) : Dec :=
  default (ma_default_leverage self) (ma_leverages self !! instrument_id).
(** Decimals are compared by value: [1.0 == 1]. *)
Definition margin_is_unleveraged (self : MarginAccount) (instrument_id : InstrumentId) : bool :=
  let l := get_leverage self instrument_id in dec_mantissa l =? 10 ^ dec_scale l.

Definition initial_margins (self : MarginAccount) : list (InstrumentId * Money) :=
  fold_left (fun m kv => ix_insert kv.1 kv.2 m)
    (omap (fun margin => (fun id => (id, mb_initial margin)) <$> mb_instrument_id margin)
       (snd <$> ma_margins self)) [].
Definition maintenance_margins (self : MarginAccount) : list (InstrumentId * Money) :=
  fold_left (fun m kv => ix_insert kv.1 kv.2 m)
    (omap (fun margin => (fun id => (id, mb_maintenance margin)) <$> mb_instrument_id margin)
       (snd <$> ma_margins self)) [].
Definition account_initial_margins (self : MarginAccount) : list (Currency * Money) :=
  fold_left (fun m margin => km_insert c_code (mb_currency margin) (mb_initial margin) m)
    (snd <$> ma_account_margins self) [].
Definition account_maintenance_margins (self : MarginAccount) : list (Currency * Money) :=
  fold_left (fun m margin => km_insert c_code (mb_currency margin) (mb_maintenance margin) m)
    (snd <$> ma_account_margins self) [].

(** The margins in a currency, those of instruments first. *)
Definition margins_in (self : MarginAccount) (currency : Currency) : list MarginBalance :=
  List.filter (fun m => currency_eqb (mb_currency m) currency)
    ((snd <$> ma_margins self) ++ (snd <$> ma_account_margins self)).

Definition total_initial_margin {E} (self : MarginAccount) (currency : Currency) : outcome E Money :=
  money_from_raw (fold_left (fun raw m => saturate MoneyRaw (raw + m_raw (mb_initial m)))
                    (margins_in self currency) 0) currency.
Definition total_maintenance_margin {E} (self : MarginAccount) (currency : Currency)
  : outcome E Money :=
  money_from_raw (fold_left (fun raw m => saturate MoneyRaw (raw + m_raw (mb_maintenance m)))
                    (margins_in self currency) 0) currency.

(** The closure of [recalculate_balance]: two checked additions. *)
Definition accumulate_margin {E} (raw : Z) (margin : MarginBalance) : outcome E Z :=
  expect (sum ← checked MoneyRaw (raw + m_raw (mb_initial margin));
          checked MoneyRaw (sum + m_raw (mb_maintenance margin))).
Fixpoint accumulate_margins {E} (raw : Z) (margins : list MarginBalance) : outcome E Z :=
  match margins with
  | [] => Ok raw
  | m :: ms => raw ← accumulate_margin raw m; accumulate_margins raw ms
  end.

Definition margin_recalculate_balance {E} (self : MarginAccount) (currency : Currency)
  : outcome E MarginAccount :=
  current_balance ←
    match km_get c_code currency (ba_balances (ma_base self)) with
    | Some balance => Ok balance
    | None => zero ← money_from_raw 0 currency; account_balance_new zero zero zero
    end;
  total_margin ← accumulate_margins 0 (margins_in self currency);
  let total_raw := m_raw (ab_total current_balance) in
  let total_margin := if total_raw <? total_margin then Z.max total_raw 0 else total_margin in
  let total_free := wrap MoneyRaw (total_raw - total_margin) in
  locked ← money_from_raw total_margin currency;
  free ← money_from_raw total_free currency;
  new_balance ← account_balance_new (ab_total current_balance) locked free;
  let base := ma_base self in
  Ok (self <| ma_base := base <| ba_balances :=
        km_insert c_code currency new_balance (ba_balances base) |> |>).

Definition update_initial_margin {E} (self : MarginAccount) (instrument_id : InstrumentId)
    (margin_init : Money) : outcome E MarginAccount :=
  balance ←
    match ix_get instrument_id (ma_margins self) with
    | Some b => Ok (mkMargin margin_init (mb_maintenance b) (mb_currency b) (mb_instrument_id b))
    | None =>
        zero ← money_new F64.zero (m_currency margin_init);
        margin_balance_new margin_init zero (Some instrument_id)
    end;
  margin_recalculate_balance
    (self <| ma_margins := ix_insert instrument_id balance (ma_margins self) |>)
    (m_currency margin_init).
Definition update_maintenance_margin {E} (self : MarginAccount) (instrument_id : InstrumentId)
    (margin_maintenance : Money) : outcome E MarginAccount :=
  balance ←
    match ix_get instrument_id (ma_margins self) with
    | Some b => Ok (mkMargin (mb_initial b) margin_maintenance (mb_currency b) (mb_instrument_id b))
    | None =>
        zero ← money_new F64.zero (m_currency margin_maintenance);
        margin_balance_new zero margin_maintenance (Some instrument_id)
    end;
  margin_recalculate_balance
    (self <| ma_margins := ix_insert instrument_id balance (ma_margins self) |>)
    (m_currency margin_maintenance).
Definition initial_margin {E} (self : MarginAccount) (instrument_id : InstrumentId) : outcome E Money :=
  mb_initial <$> expect (ix_get instrument_id (ma_margins self)).
Definition maintenance_margin {E} (self : MarginAccount) (instrument_id : InstrumentId)
  : outcome E Money := mb_maintenance <$> expect (ix_get instrument_id (ma_margins self)).
Definition account_margin (self : MarginAccount) (currency : Currency) : option MarginBalance :=
  km_get c_code currency (ma_account_margins self).

Definition update_margin {E} (self : MarginAccount) (margin_balance : MarginBalance)
  : outcome E MarginAccount :=
  let self :=
    match mb_instrument_id margin_balance with
    | Some instrument_id =>
        self <| ma_margins := ix_insert instrument_id margin_balance (ma_margins self) |>
    | None =>
        self <| ma_account_margins :=
          km_insert c_code (mb_currency margin_balance) margin_balance (ma_account_margins self) |>
    end in
  margin_recalculate_balance self (mb_currency margin_balance).

Definition clear_margin {E} (self : MarginAccount) (instrument_id : InstrumentId)
  : outcome E MarginAccount :=
  match ix_get instrument_id (ma_margins self) with
  | Some margin_balance =>
      margin_recalculate_balance
        (self <| ma_margins := ix_shift_remove instrument_id (ma_margins self) |>)
        (mb_currency margin_balance)
  | None => Ok self
  end.
Definition clear_account_margin {E} (self : MarginAccount) (currency : Currency)
  : outcome E MarginAccount :=
  match km_get c_code currency (ma_account_margins self) with
  | Some _ =>
      margin_recalculate_balance
        (self <| ma_account_margins := km_remove c_code currency (ma_account_margins self) |>) currency
  | None => Ok self
  end.

Definition margin_apply {E} (self : MarginAccount) (event : AccountState) : outcome E MarginAccount :=
  let skip_margin_routing :=
    bool_decide (as_balances event = []) && bool_decide (as_margins event = []) in
  let '(per_instrument, per_currency) := split_event_margins event in
  base ← base_apply (ma_base self) event;
  let self := self <| ma_base := base |> in
  Ok (if negb skip_margin_routing
      then self <| ma_margins := per_instrument |> <| ma_account_margins := per_currency |>
      else self).
End Margin.
Arguments MarginAccount : clear implicits.

(** ** Any account *)
Inductive AccountAny {Dec : Type} : Type :=
  | AnyMargin (margin : MarginAccount Dec)
  | AnyCash (cash : CashAccount)
  | AnyBetting (betting : BettingAccount).
Arguments AccountAny : clear implicits.

Section Any.
Context `{M : Mode} {Dec : Type} `{D : !DecimalApi Dec}.

Definition account_base (self : AccountAny Dec) : BaseAccount :=
  match self with
  | AnyMargin a => ma_base a
  | AnyCash a => ca_base a
  | AnyBetting a => bt_base a
  end.
Definition account_apply (self : AccountAny Dec) (event : AccountState) : outcome unit (AccountAny Dec) :=
  match self with
  | AnyMargin a => AnyMargin <$> margin_apply a event
  | AnyCash a => AnyCash <$> cash_apply (Dec := Dec) a event
  | AnyBetting a => AnyBetting <$> betting_apply (Dec := Dec) a event
  end.
Definition try_from_state (event : AccountState) : outcome unit (AccountAny Dec) :=
  match as_account_type event with
  | Margin => AnyMargin <$> margin_account_new event false
  | Cash => Ok (AnyCash (cash_account_new event false false))
  | Betting => Ok (AnyBetting (betting_account_new event false))
  | Wallet => Err tt
  end.
Definition account_from_state {E} (event : AccountState) : outcome E (AccountAny Dec) :=
  unwrap_ok (try_from_state event).
Fixpoint account_apply_all (self : AccountAny Dec) (events : list AccountState)
  : outcome unit (AccountAny Dec) :=
  match events with
  | [] => Ok self
  | event :: events => self ← account_apply self event; account_apply_all self events
  end.
Definition account_from_events (events : list AccountState) : outcome unit (AccountAny Dec) :=
  match events with
  | [] => Err tt
  | init_event :: rest =>
      account ← account_from_state init_event;
      account_apply_all account rest
  end.
End Any.
