(* ===== verification/AccountSpec.v ===== *)
(** * Cash accounts against a specification

    The specification of a cash account is a finite map from currency code to
    a split balance and a finite map from (instrument, currency code) to the
    amount locked.  Locking or clearing settles the balances of the currencies
    concerned: the locked part is the sum of the locks, capped by a
    non-negative total. *)

From stdpp Require Import base numbers list strings gmap fin_maps.
From Stdlib Require Import ZArith Lia Sorted.
From S2P Require Import Prelude F64 Fixed Price Quantity Money Enums Maps OrderEvents Account.

(* ------------------------------------------------------------------ *)
(** ** The specification *)

Record Split : Type := mkSplit { sp_total : Z; sp_locked : Z; sp_free : Z }.
Record CashSpec : Type := mkCashSpec {
  cs_id : AccountId;
  cs_borrow : bool;
  cs_balances : gmap string Split;
  cs_locks : gmap (InstrumentId * string) Z;
}.
#[export] Instance cash_spec_eta : Eta CashSpec := fun s =>
  mkCashSpec (cs_id s) (cs_borrow s) (cs_balances s) (cs_locks s).

Inductive CashOp : Type :=
  | OpLock (instrument_id : InstrumentId) (locked : Money)
  | OpClear (instrument_id : InstrumentId)
  | OpUpdate (balances : list AccountBalance)
  | OpApply (event : AccountState).

Definition locked_in (c : string) (l : list ((InstrumentId * string) * Z)) : Z :=
  foldr (fun kv acc => if decide (kv.1.2 = c) then kv.2 + acc else acc) 0 l.
Definition lock_sum (locks : gmap (InstrumentId * string) Z) (c : string) : Z :=
  locked_in c (map_to_list locks).

Definition split_of (b : AccountBalance) : Split :=
  mkSplit (m_raw (ab_total b)) (m_raw (ab_locked b)) (m_raw (ab_free b)).

Section Spec.
Context `{M : Mode} {Dec : Type} `{D : !DecimalApi Dec}.

Definition settled (locks : gmap (InstrumentId * string) Z) (c : string) (t : Z) : Split :=
  let l := if 0 <=? t then Z.min (lock_sum locks c) t else lock_sum locks c in
  mkSplit t l (t - l).
Definition representable (x : Split) : bool :=
  money_raw_in_range (sp_locked x) && money_raw_in_range (sp_free x).

(** Settle the currencies that satisfy [p]. *)
Definition settle_where (p : string -> bool) (s : CashSpec) : outcome unit CashSpec :=
  let new c b := if p c then settled (cs_locks s) c (sp_total b) else b in
  if bool_decide (map_Forall (fun c b => p c = true -> representable (new c b) = true) (cs_balances s))
  then Ok (s <| cs_balances := map_imap (fun c b => Some (new c b)) (cs_balances s) |>)
  else Panic.

(** A refused update reports the first negative total; the report itself
    panics when the amount has too many digits for a decimal. *)
Definition refusal (bs : list AccountBalance) : outcome unit CashSpec :=
  match List.find (fun b => m_raw (ab_total b) <? 0) bs with
  | Some b =>
      match money_as_decimal (E := unit) (Dec := Dec) (ab_total b) with Panic => Panic | _ => Err tt end
  | None => Panic
  end.
Definition accepts (s : CashSpec) (bs : list AccountBalance) : bool :=
  cs_borrow s || List.forallb (fun b => 0 <=? m_raw (ab_total b)) bs.
Definition set_balances (bs : list AccountBalance) (s : CashSpec) : CashSpec :=
  s <| cs_balances :=
    fold_left (fun m b => <[c_code (ab_currency b) := split_of b]> m) bs (cs_balances s) |>.

Definition spec_step (s : CashSpec) (op : CashOp) : outcome unit CashSpec :=
  match op with
  | OpLock i m =>
      if m_raw m <? 0 then Panic
      else settle_where (fun c => bool_decide (c = c_code (m_currency m)))
             (s <| cs_locks := <[(i, c_code (m_currency m)) := m_raw m]> (cs_locks s) |>)
  | OpClear i =>
      settle_where (fun c => bool_decide (is_Some (cs_locks s !! (i, c))))
        (s <| cs_locks := filter (fun kv => kv.1.1 <> i) (cs_locks s) |>)
  | OpUpdate bs => if accepts s bs then Ok (set_balances bs s) else refusal bs
  | OpApply e =>
      if accepts s (as_balances e) then
        if decide (as_account_id e = cs_id s) then
          let s := set_balances (as_balances e) s in
          Ok (if as_is_reported e && negb (bool_decide (as_balances e = []))
              then s <| cs_locks := ∅ |> else s)
        else Panic
      else refusal (as_balances e)
  end.

Definition cash_step (self : CashAccount) (op : CashOp) : outcome unit CashAccount :=
  match op with
  | OpLock i m => cash_update_balance_locked self i m
  | OpClear i => cash_clear_balance_locked self i
  | OpUpdate bs => cash_update_balances (Dec := Dec) self bs
  | OpApply e => cash_apply (Dec := Dec) self e
  end.

(** A caller goes on with the account after an error and stops at a panic. *)
Fixpoint run_ops {S O} (step : S -> O -> outcome unit S) (s : S) (ops : list O)
  : outcome unit S :=
  match ops with
  | [] => Ok s
  | op :: ops =>
      match step s op with
      | Ok s' => run_ops step s' ops
      | Err _ => run_ops step s ops
      | Panic => Panic
      end
  end.

(* ------------------------------------------------------------------ *)
(** ** Well-formed accounts and the abstraction *)

(** What the constructors of balances and amounts guarantee. *)
Definition balance_ok (b : AccountBalance) : Prop :=
  c_code (m_currency (ab_total b)) = c_code (ab_currency b) /\
  MONEY_RAW_MIN <= m_raw (ab_total b) <= MONEY_RAW_MAX /\
  m_raw (ab_total b) = m_raw (ab_locked b) + m_raw (ab_free b).
Definition currency_ok (c : Currency) : Prop := check_fixed_precision (c_precision c) = Ok tt.
Definition op_ok (op : CashOp) : Prop :=
  match op with
  | OpLock _ m => currency_ok (m_currency m)
  | OpClear _ => True
  | OpUpdate bs => Forall balance_ok bs
  | OpApply e => Forall balance_ok (as_balances e)
  end.

Definition entry_ok (kv : Currency * AccountBalance) : Prop :=
  c_code kv.1 = c_code (ab_currency kv.2) /\ balance_ok kv.2.
Definition lock_ok (kv : (InstrumentId * Currency) * Money) : Prop :=
  c_code kv.1.2 = c_code (m_currency kv.2) /\ 0 <= m_raw kv.2 /\ currency_ok kv.1.2.
Definition cash_wf (a : CashAccount) : Prop :=
  NoDup (km_keys c_code (ba_balances (ca_base a))) /\
  NoDup (km_keys lock_key (ca_balances_locked a)) /\
  Forall entry_ok (ba_balances (ca_base a)) /\ Forall lock_ok (ca_balances_locked a).

Definition abs_balances (m : list (Currency * AccountBalance)) : gmap string Split :=
  split_of <$> (list_to_map (km_proj c_code m) : gmap string AccountBalance).
Definition abs_locks (m : Locks) : gmap (InstrumentId * string) Z :=
  m_raw <$> (list_to_map (km_proj lock_key m) : gmap _ Money).
Definition abs_cash (a : CashAccount) : CashSpec :=
  mkCashSpec (ba_id (ca_base a)) (ca_allow_borrowing a) (abs_balances (ba_balances (ca_base a)))
    (abs_locks (ca_balances_locked a)).

(* ------------------------------------------------------------------ *)
(** ** Lemmas: maps *)

Lemma ltm_lookup {K V} `{Countable K} (l : list (K * V)) k :
  (list_to_map l : gmap K V) !! k = ix_get k l.
Proof.
  induction l as [|[k' v] l IH]; simpl; [apply lookup_empty|]. rewrite ix_get_cons.
  case_decide; subst; [by rewrite lookup_insert_eq|]. by rewrite lookup_insert_ne.
Qed.

Lemma abs_balances_lookup m c k :
  c_code k = c -> abs_balances m !! c = split_of <$> km_get c_code k m.
Proof. intros <-. unfold abs_balances. by rewrite lookup_fmap, ltm_lookup, km_get_proj. Qed.

Lemma abs_balances_insert c b m :
  abs_balances (km_insert c_code c b m) = <[c_code c := split_of b]> (abs_balances m).
Proof.
  apply map_eq. intros k. unfold abs_balances.
  rewrite lookup_insert, !lookup_fmap, !ltm_lookup, km_insert_proj, ix_get_insert.
  repeat case_decide; congruence || done.
Qed.
Lemma abs_locks_insert k v m :
  abs_locks (km_insert lock_key k v m) = <[lock_key k := m_raw v]> (abs_locks m).
Proof.
  apply map_eq. intros j. unfold abs_locks.
  rewrite lookup_insert, !lookup_fmap, !ltm_lookup, km_insert_proj, ix_get_insert.
  repeat case_decide; congruence || done.
Qed.
Lemma abs_locks_remove k m : abs_locks (km_remove lock_key k m) = delete (lock_key k) (abs_locks m).
Proof.
  apply map_eq. intros j. unfold abs_locks.
  rewrite lookup_delete, !lookup_fmap, !ltm_lookup, km_remove_proj, ix_get_remove.
  repeat case_decide; congruence || done.
Qed.

Lemma km_insert_Forall {K V I} `{EqDecision I} (key : K -> I) (P : K * V -> Prop) k v m :
  Forall P m -> P (k, v) -> (forall k' v', key k' = key k -> P (k', v') -> P (k', v)) ->
  Forall P (km_insert key k v m).
Proof.
  intros Hm Hk Hr. induction Hm as [|[k' v'] m H' Hm IH]; unfold km_insert; fold (@km_insert K V I _);
    [by constructor|]. case_bool_decide; constructor; eauto.
Qed.
Lemma km_remove_Forall {K V I} `{EqDecision I} (key : K -> I) (P : K * V -> Prop) k m :
  Forall P m -> Forall P (km_remove key k m).
Proof.
  intros Hm. unfold km_remove. induction Hm as [|kv m H' Hm IH]; simpl; [done|].
  case_bool_decide; [done|by constructor].
Qed.
Lemma km_nodup_insert {K V I} `{EqDecision I} (key : K -> I) k (v : V) m :
  NoDup (km_keys key m) -> NoDup (km_keys key (km_insert key k v m)).
Proof. rewrite <- !km_proj_keys, km_insert_proj. apply ix_nodup_insert. Qed.
Lemma km_nodup_remove {K V I} `{EqDecision I} (key : K -> I) k (m : list (K * V)) :
  NoDup (km_keys key m) -> NoDup (km_keys key (km_remove key k m)).
Proof. rewrite <- !km_proj_keys, km_remove_proj. apply ix_nodup_remove. Qed.

Lemma km_get_Forall {K V I} `{EqDecision I} (key : K -> I) (P : K * V -> Prop) k v m :
  Forall P m -> km_get key k m = Some v -> exists k', key k' = key k /\ P (k', v).
Proof.
  unfold km_get. intros Hm. induction Hm as [|[k' v'] m H' Hm IH]; simpl; [done|].
  case_bool_decide; [|done]. intros [= <-]. eauto.
Qed.

(** ** Lemmas: the sum of the locks *)

Lemma locked_in_perm c l l' : l ≡ₚ l' -> locked_in c l = locked_in c l'.
Proof. induction 1; simpl; repeat case_decide; lia. Qed.

Definition lock_view (m : Locks) : list ((InstrumentId * string) * Z) :=
  (fun kv => (lock_key kv.1, m_raw kv.2)) <$> m.

Lemma lock_sum_view m c :
  NoDup (km_keys lock_key m) -> lock_sum (abs_locks m) c = locked_in c (lock_view m).
Proof.
  intros Hnd. unfold lock_sum. apply locked_in_perm.
  assert (Hl : abs_locks m = list_to_map (lock_view m)).
  { unfold abs_locks. rewrite <- list_to_map_fmap. f_equal. unfold lock_view, km_proj.
    by rewrite <- list_fmap_compose. }
  rewrite Hl. apply map_to_list_to_map. unfold lock_view. by rewrite <- list_fmap_compose.
Qed.

Lemma locked_in_nonneg m c : Forall lock_ok m -> 0 <= locked_in c (lock_view m).
Proof.
  induction 1 as [|kv m (H1 & H2 & H3) Hm IH]; simpl; [lia|]. case_decide; lia.
Qed.

(** The saturating sum of the source is the exact sum cut at the largest raw
    value, whatever the order of the map. *)
Lemma saturating_sum m cur acc :
  Forall lock_ok m -> 0 <= acc <= imax MoneyRaw ->
  fold_left (fun acc m => saturate MoneyRaw (acc + m_raw m))
    (List.filter (fun m => currency_eqb (m_currency m) cur) (snd <$> m)) acc
  = Z.min (imax MoneyRaw) (acc + locked_in (c_code cur) (lock_view m)).
Proof.
  intros Hm. revert acc. induction Hm as [|[[i c] v] m (H1 & H2 & H3) Hm IH]; simpl; intros acc Ha; [lia|].
  simpl in *. pose proof (locked_in_nonneg m (c_code cur) Hm).
  pose proof (imin_le_imax MoneyRaw). unfold currency_eqb. simpl.
  case_bool_decide as E1; case_decide as E2; try congruence; [|by apply IH].
  simpl. rewrite IH by (unfold saturate; lia). unfold saturate. lia.
Qed.

(** ** Lemmas: settling one currency *)

Lemma account_balance_new_code {E} t a b c :
  c_code (m_currency t) = c_code c ->
  account_balance_new (E := E) t (mkMoney a c) (mkMoney b c)
    = if in_ty MoneyRaw (a + b) && (m_raw t =? a + b)
      then Ok (mkBalance (m_currency t) t (mkMoney a c) (mkMoney b c)) else Panic.
Proof.
  intros Ht. unfold account_balance_new, account_balance_new_checked, money_add,
    check_predicate_true, checked, money_eqb, currency_eqb. simpl.
  rewrite !bool_decide_true by done. osimpl.
  destruct (in_ty MoneyRaw (a + b)); osimpl; [|done]. simpl.
  rewrite bool_decide_true, andb_true_r by done. by destruct (m_raw t =? a + b).
Qed.

Definition rebalanced (b : AccountBalance) (l : Z) (cur : Currency) : AccountBalance :=
  mkBalance (m_currency (ab_total b)) (ab_total b) (mkMoney l cur)
    (mkMoney (m_raw (ab_total b) - l) cur).

(** Splitting a total: it succeeds when both parts are representable, also
    where the subtraction of the source wraps around. *)
Lemma split_eval {E A} (b : AccountBalance) k cur (f : AccountBalance -> outcome E A) :
  balance_ok b -> c_code (ab_currency b) = c_code cur -> currency_ok cur ->
  (locked ← money_from_raw k cur;
   free ← money_from_raw (wrap MoneyRaw (m_raw (ab_total b) - k)) cur;
   new_balance ← account_balance_new (ab_total b) locked free;
   f new_balance)
  = if representable (mkSplit (m_raw (ab_total b)) k (m_raw (ab_total b) - k))
    then f (rebalanced b k cur) else Panic.
Proof.
  intros (Hc & Hr & _) Hcur Hok. set (t := m_raw (ab_total b)) in *.
  pose proof money_limits as (Hmin & Hmax & Hty).
  unfold representable. simpl. rewrite (money_from_raw_eval k) by done.
  destruct (money_raw_in_range k) eqn:Hk; [|done]. osimpl. simpl.
  apply money_raw_in_range_spec in Hk.
  assert (Hcode : c_code (m_currency (ab_total b)) = c_code cur) by congruence.
  rewrite money_from_raw_eval by done.
  destruct (money_raw_in_range (t - k)) eqn:Hf.
  - apply money_raw_in_range_spec in Hf. rewrite wrap_id by by apply money_in_range_in_ty.
    rewrite (proj2 (money_raw_in_range_spec _) Hf). osimpl.
    rewrite account_balance_new_code by done. replace (k + (t - k)) with t by lia.
    rewrite money_in_range_in_ty by done. unfold t. by rewrite Z.eqb_refl.
  - destruct (money_raw_in_range (wrap MoneyRaw (t - k))) eqn:Hw; [|done]. osimpl.
    rewrite account_balance_new_code by done.
    destruct (in_ty MoneyRaw (t - k)) eqn:Hi; [rewrite wrap_id in Hw by done; congruence|].
    destruct (_ && _) eqn:E1; [|done]. exfalso. bool_simpl. fold t in H0.
    assert (wrap MoneyRaw (t - k) = t - k) as Hx by lia.
    pose proof (wrap_in_ty MoneyRaw (t - k)). congruence.
Qed.

Lemma cash_get_ok a cur b :
  cash_wf a -> km_get c_code cur (ba_balances (ca_base a)) = Some b ->
  balance_ok b /\ c_code (ab_currency b) = c_code cur.
Proof.
  intros (_ & _ & Hb & _) Hg. destruct (km_get_Forall _ _ _ _ _ Hb Hg) as (k & Hk & [Hc Hok]).
  simpl in *. split; [done|congruence].
Qed.

Lemma cash_recalculate_eval {E} a cur :
  cash_wf a -> currency_ok cur ->
  cash_recalculate_balance (E := E) a cur
  = match km_get c_code cur (ba_balances (ca_base a)) with
    | None => Ok a
    | Some b =>
        let x := settled (abs_locks (ca_balances_locked a)) (c_code cur) (m_raw (ab_total b)) in
        if representable x
        then Ok (a <| ca_base := (ca_base a) <| ba_balances :=
               km_insert c_code cur (rebalanced b (sp_locked x) cur) (ba_balances (ca_base a)) |> |>)
        else Panic
    end.
Proof.
  intros Hwf Hcur. unfold cash_recalculate_balance.
  destruct (km_get _ _ _) as [b|] eqn:Hg; [|done].
  pose proof (cash_get_ok _ _ _ Hwf Hg) as (Hok & Hcode). destruct (Hok) as (_ & Hr & _).
  destruct Hwf as (_ & Hnd & _ & Hl). pose proof money_limits as (Hmin & Hmax & Hty).
  rewrite saturating_sum by (done || lia). unfold settled. rewrite lock_sum_view by done.
  pose proof (locked_in_nonneg _ (c_code cur) Hl) as Hs.
  set (S := locked_in _ _) in *. set (t := m_raw (ab_total b)) in *. simpl.
  destruct ((t <? Z.min (imax MoneyRaw) (0 + S)) && (0 <=? t)) eqn:Hcl.
  - bool_simpl. replace 0 with (wrap MoneyRaw (t - t)) by (rewrite Z.sub_diag; apply wrap_0).
    rewrite split_eval by done. fold t. rewrite Z.sub_diag, wrap_0.
    replace (0 <=? t) with true by lia. replace (Z.min S t) with t by lia.
    by rewrite Z.sub_diag.
  - rewrite split_eval by done. fold t. destruct (Z.leb_spec 0 t) as [Ht|Ht].
    + rewrite andb_true_r in Hcl. bool_simpl.
      replace (Z.min (imax MoneyRaw) (0 + S)) with S by lia. by replace (Z.min S t) with S by lia.
    + destruct (Z.le_gt_cases S (imax MoneyRaw)).
      * by replace (Z.min (imax MoneyRaw) (0 + S)) with S by lia.
      * replace (Z.min (imax MoneyRaw) (0 + S)) with (imax MoneyRaw) by lia.
        unfold representable. simpl. replace (money_raw_in_range (imax MoneyRaw)) with false.
        2:{ symmetry. apply not_true_is_false. rewrite money_raw_in_range_spec. lia. }
        replace (money_raw_in_range S) with false; [done|].
        symmetry. apply not_true_is_false. rewrite money_raw_in_range_spec. lia.
Qed.

(** ** Lemmas: settling a set of currencies *)

Definition refines (r : outcome unit CashAccount) (r' : outcome unit CashSpec) : Prop :=
  match r with
  | Ok a => cash_wf a /\ r' = Ok (abs_cash a)
  | Err e => r' = Err e
  | Panic => r' = Panic
  end.

Lemma if_decide_iff (P Q : Prop) `{Decision P, Decision Q} {A} (x y z : A) :
  (P <-> Q) -> x = y -> (if bool_decide P then x else z) = (if bool_decide Q then y else z).
Proof. intros Hpq ->. by rewrite (bool_decide_ext _ _ Hpq). Qed.

Lemma settle_where_ext p q s : (forall c, p c = q c) -> settle_where p s = settle_where q s.
Proof.
  intros Hpq. unfold settle_where. apply if_decide_iff.
  - split; intros H c b Hb; specialize (H c b Hb); simpl in *; by rewrite Hpq in *.
  - do 2 f_equal. apply map_eq. intros c. rewrite !map_lookup_imap. by rewrite Hpq.
Qed.

Lemma settle_where_none p s : (forall c, p c = false) -> settle_where p s = Ok s.
Proof.
  intros Hp. unfold settle_where. rewrite bool_decide_true by (intros c b _; by rewrite Hp).
  f_equal. destruct s as [i w bs ls]. unfold set_field; simpl. f_equal. apply map_eq.
  intros c. rewrite map_lookup_imap. rewrite Hp. by destruct (bs !! c).
Qed.

Lemma settle_where_seq p q s :
  settle_where p s ≫= settle_where q = settle_where (fun c => p c || q c) s.
Proof.
  unfold settle_where at 2. cbv zeta. case_bool_decide as Hp; simpl.
  - unfold settle_where. destruct s as [i w bs ls]. unfold set_field; simpl in *.
    replace (map_imap _ (map_imap _ bs)) with
      (map_imap (fun c b => Some (if p c || q c then settled ls c (sp_total b) else b)) bs).
    2:{ apply map_eq. intros c. rewrite !map_lookup_imap. destruct (bs !! c) as [b|]; simpl; [|done].
        by destruct (p c), (q c). }
    apply if_decide_iff; [|done]. split; intros H c b Hb.
    + specialize (Hp c b Hb). simpl in Hp. intros Hpq.
      specialize (H c (if p c then settled ls c (sp_total b) else b)).
      rewrite map_lookup_imap, Hb in H. specialize (H eq_refl). simpl in H.
      destruct (p c) eqn:Hpc, (q c); simpl in *; try rewrite Hpc in Hp; auto.
    + rewrite map_lookup_imap in Hb. destruct (bs !! c) as [b'|] eqn:Hb'; [|done].
      injection Hb as <-. intros Hq. specialize (H c b' Hb'). simpl in H. rewrite Hq, orb_true_r in *.
      specialize (H eq_refl). by destruct (p c).
  - unfold settle_where. rewrite bool_decide_false; [done|]. contradict Hp. intros c b Hb Hpc.
    specialize (Hp c b Hb). simpl in Hp. rewrite Hpc in *. by apply Hp.
Qed.

Lemma settle_where_one c s :
  settle_where (fun c' => bool_decide (c' = c)) s
  = match cs_balances s !! c with
    | None => Ok s
    | Some b =>
        let x := settled (cs_locks s) c (sp_total b) in
        if representable x then Ok (s <| cs_balances := <[c := x]> (cs_balances s) |>) else Panic
    end.
Proof.
  destruct s as [i w bs ls]. unfold settle_where, set_field; simpl.
  assert (Hmap : map_imap (fun c' b => Some (if bool_decide (c' = c)
      then settled ls c' (sp_total b) else b)) bs
    = match bs !! c with Some b => <[c := settled ls c (sp_total b)]> bs | None => bs end).
  { apply map_eq. intros k. rewrite map_lookup_imap. destruct (decide (k = c)) as [->|Hk].
    - rewrite bool_decide_true by done. destruct (bs !! c) eqn:E1; simpl;
        [by rewrite lookup_insert_eq|done].
    - rewrite bool_decide_false by done. destruct (bs !! c); rewrite ?lookup_insert_ne by done;
        by destruct (bs !! k). }
  rewrite Hmap. destruct (bs !! c) as [b|] eqn:Hb.
  - destruct (representable _) eqn:Hr.
    + rewrite bool_decide_true; [done|]. intros k b' Hk Hkc. apply bool_decide_eq_true in Hkc as ->.
      rewrite bool_decide_true by done. congruence.
    + rewrite bool_decide_false; [done|]. intros H. specialize (H c b Hb).
      simpl in H. rewrite bool_decide_true in H by done. specialize (H eq_refl). congruence.
  - rewrite bool_decide_true; [done|]. intros k b' Hk Hkc. apply bool_decide_eq_true in Hkc as ->.
    congruence.
Qed.

Lemma rebalanced_ok b l cur k :
  c_code k = c_code (ab_currency b) -> balance_ok b -> entry_ok (k, rebalanced b l cur).
Proof.
  intros Hk (H1 & H2 & H3). split; simpl; [congruence|]. unfold balance_ok. simpl.
  split_and!; [done|lia..].
Qed.

Lemma cash_recalculate_refines a cur :
  cash_wf a -> currency_ok cur ->
  refines (cash_recalculate_balance a cur)
    (settle_where (fun c => bool_decide (c = c_code cur)) (abs_cash a)).
Proof.
  intros Hwf Hcur. rewrite cash_recalculate_eval by done. rewrite settle_where_one.
  unfold abs_cash. simpl. rewrite (abs_balances_lookup _ _ cur) by done.
  destruct (km_get _ _ _) as [b|] eqn:Hg; simpl; [|done].
  destruct (cash_get_ok _ _ _ Hwf Hg) as (Hok & Hcode).
  destruct (representable _); simpl; [|done]. destruct Hwf as (W1 & W2 & W3 & W4). split.
  - split_and!; simpl; [by apply km_nodup_insert|done| |done].
    apply km_insert_Forall; [done|by apply rebalanced_ok|].
    intros k' v' Hk' _. apply rebalanced_ok; [congruence|done].
  - unfold abs_cash, set_field. simpl. by rewrite abs_balances_insert.
Qed.

Lemma refines_bind r r' f f' :
  refines r r' -> (forall a, cash_wf a -> refines (f a) (f' (abs_cash a))) ->
  refines (r ≫= f) (r' ≫= f').
Proof. destruct r; simpl; [intros [Ha ->] Hf|intros -> _..]; simpl; auto. Qed.

Lemma cash_recalculate_all_refines cs a :
  cash_wf a -> Forall currency_ok cs ->
  refines (cash_recalculate_all a cs)
    (settle_where (fun c => bool_decide (c ∈ c_code <$> cs)) (abs_cash a)).
Proof.
  intros Hwf Hcs. revert a Hwf. induction Hcs as [|c cs Hc Hcs IH]; intros a Hwf; simpl.
  - by rewrite settle_where_none.
  - rewrite (settle_where_ext _ (fun x => bool_decide (x = c_code c) || bool_decide (x ∈ c_code <$> cs))).
    2:{ intros x. apply eq_true_iff_eq. rewrite orb_true_iff, !bool_decide_eq_true. apply elem_of_cons. }
    rewrite <- settle_where_seq. apply refines_bind; [by apply cash_recalculate_refines|auto].
Qed.

(** ** Lemmas: the operations *)

Lemma abs_locks_remove_all i cs m j :
  abs_locks (fold_left (fun m c => km_remove lock_key (i, c) m) cs m) !! j
  = if decide (j.1 = i /\ j.2 ∈ c_code <$> cs) then None else abs_locks m !! j.
Proof.
  revert m. induction cs as [|c cs IH]; intros m; simpl.
  - rewrite decide_False; [done|]. intros [_ H]. by apply elem_of_nil in H.
  - rewrite IH, abs_locks_remove, lookup_delete. destruct j as [j1 j2]. unfold lock_key. simpl.
    repeat case_decide; set_solver.
Qed.

Definition instrument_currencies (i : InstrumentId) (m : Locks) : list Currency :=
  snd <$> List.filter (fun k => bool_decide (k.1 = i)) (fst <$> m).

Lemma instrument_currencies_elem i m c :
  c ∈ c_code <$> instrument_currencies i m <-> is_Some (abs_locks m !! (i, c)).
Proof.
  unfold abs_locks. rewrite lookup_fmap, fmap_is_Some, ltm_lookup, ix_get_is_Some, km_proj_keys.
  unfold instrument_currencies, km_keys, lock_key.
  induction m as [|[[j d] v] m IH]; simpl; [by rewrite !elem_of_nil|].
  rewrite elem_of_cons. case_bool_decide as Hj; simpl; [|rewrite IH; naive_solver].
  subst. simpl. rewrite elem_of_cons, IH. naive_solver.
Qed.

Lemma instrument_currencies_ok i m : Forall lock_ok m -> Forall currency_ok (instrument_currencies i m).
Proof.
  unfold instrument_currencies. induction 1 as [|kv m (_ & _ & H) Hm IH]; simpl; [constructor|].
  case_bool_decide; simpl; [by constructor|done].
Qed.

Lemma cash_clear_refines a i :
  cash_wf a -> refines (cash_clear_balance_locked a i) (spec_step (abs_cash a) (OpClear i)).
Proof.
  intros (W1 & W2 & W3 & W4). unfold cash_clear_balance_locked.
  fold (instrument_currencies i (ca_balances_locked a)).
  set (cs := instrument_currencies i (ca_balances_locked a)). simpl.
  assert (Hl : forall l m, NoDup (km_keys lock_key m) -> Forall lock_ok m ->
    let m' := fold_left (fun m c => km_remove lock_key (i, c) m) l m in
    NoDup (km_keys lock_key m') /\ Forall lock_ok m').
  { induction l as [|c l IH]; intros m H1 H2; [done|]. simpl. apply IH.
    - by apply km_nodup_remove.
    - by apply km_remove_Forall. }
  destruct (Hl cs _ W2 W4) as [L1 L2].
  pose proof (cash_recalculate_all_refines cs
    (a <| ca_balances_locked :=
       fold_left (fun m c => km_remove lock_key (i, c) m) cs (ca_balances_locked a) |>)) as Hr.
  unfold abs_cash, set_field in Hr; simpl in Hr. unfold set_field, abs_cash; simpl.
  erewrite settle_where_ext; [replace (filter _ _) with (abs_locks
    (fold_left (fun m c => km_remove lock_key (i, c) m) cs (ca_balances_locked a)));
    [apply Hr|]|].
  - by split_and!.
  - by apply instrument_currencies_ok.
  - apply map_eq. intros [j c]. rewrite abs_locks_remove_all. simpl.
    rewrite map_lookup_filter. destruct (abs_locks (ca_balances_locked a) !! (j, c)) as [x|] eqn:Hx; simpl.
    + destruct (decide (j = i)) as [->|Hj].
      * rewrite decide_True; [by case_guard|].
        split; [done|]. apply instrument_currencies_elem. by eexists.
      * rewrite decide_False by naive_solver. by case_guard.
    + by case_decide.
  - intros c. apply bool_decide_ext. symmetry. apply instrument_currencies_elem.
Qed.

Definition with_lock (a : CashAccount) (i : InstrumentId) (m : Money) : CashAccount :=
  a <| ca_balances_locked := km_insert lock_key (i, m_currency m) m (ca_balances_locked a) |>.

Lemma with_lock_wf a i m :
  cash_wf a -> currency_ok (m_currency m) -> 0 <= m_raw m -> cash_wf (with_lock a i m).
Proof.
  intros (W1 & W2 & W3 & W4) Hc Hm. split_and!; simpl; [done|by apply km_nodup_insert|done|].
  apply km_insert_Forall; [done|by split_and!|]. intros [j c] v' [= -> Hj] (H1 & H2 & H3).
  simpl in *. split_and!; simpl; [congruence|done|done].
Qed.

Lemma cash_lock_refines a i m :
  cash_wf a -> currency_ok (m_currency m) ->
  refines (cash_update_balance_locked a i m) (spec_step (abs_cash a) (OpLock i m)).
Proof.
  intros Hwf Hc. unfold cash_update_balance_locked. simpl.
  rewrite Z.ltb_antisym. destruct (Z.leb_spec 0 (m_raw m)) as [Hm|]; simpl; [|done].
  fold (with_lock a i m). replace (_ <| cs_locks := _ |>) with (abs_cash (with_lock a i m)).
  - apply cash_recalculate_refines; [by apply with_lock_wf|done].
  - unfold abs_cash, with_lock, set_field; simpl. by rewrite abs_locks_insert.
Qed.

Lemma reject_negative_eval bs :
  reject_negative (Dec := Dec) bs
  = if List.forallb (fun b => 0 <=? m_raw (ab_total b)) bs then Ok tt
    else match refusal bs with Panic => Panic | _ => Err tt end.
Proof.
  unfold refusal. induction bs as [|b bs IH]; simpl; [done|]. rewrite Z.ltb_antisym.
  destruct (0 <=? m_raw (ab_total b)); simpl; [done|].
  by destruct (money_as_decimal (ab_total b)) as [|[]|].
Qed.

Lemma refusal_not_ok bs s :
  List.forallb (fun b => 0 <=? m_raw (ab_total b)) bs = false -> refusal bs <> Ok s.
Proof. unfold refusal. intros _. by destruct (List.find _ _) as [b|]; [destruct (money_as_decimal _)|]. Qed.

Lemma update_balances_abs bs m :
  NoDup (km_keys c_code m) -> Forall entry_ok m -> Forall balance_ok bs ->
  let m' := fold_left (fun m b => km_insert c_code (ab_currency b) b m) bs m in
  NoDup (km_keys c_code m') /\ Forall entry_ok m' /\
  abs_balances m'
  = fold_left (fun m b => <[c_code (ab_currency b) := split_of b]> m) bs (abs_balances m).
Proof.
  intros Hnd Hm Hbs. revert m Hnd Hm. induction Hbs as [|b bs Hb Hbs IH]; intros m Hnd Hm; [done|].
  simpl. rewrite <- abs_balances_insert. apply IH; [by apply km_nodup_insert|].
  apply km_insert_Forall; [done|by split|]. intros k' v' Hk _. by split.
Qed.

(** A refused call ends before it changes anything. *)
Lemma guarded_refines a bs r r' :
  (accepts (abs_cash a) bs = true -> refines r r') ->
  refines (_ ← (if negb (ca_allow_borrowing a) then reject_negative (Dec := Dec) bs else Ok tt); r)
    (if accepts (abs_cash a) bs then r' else refusal bs).
Proof.
  unfold accepts. simpl. intros H. destruct (ca_allow_borrowing a); simpl in *; [by apply H|].
  rewrite reject_negative_eval. destruct (List.forallb _ bs) eqn:Hb; simpl; [by apply H|].
  pose proof (refusal_not_ok bs) as Hn. destruct (refusal bs) as [s|[]|]; simpl; try done.
  by destruct (Hn s Hb).
Qed.

Lemma cash_step_refines a op :
  cash_wf a -> op_ok op -> refines (cash_step a op) (spec_step (abs_cash a) op).
Proof.
  intros Hwf Hop. destruct op as [i m|i|bs|e]; simpl in Hop.
  - by apply cash_lock_refines.
  - by apply cash_clear_refines.
  - apply guarded_refines. intros _. destruct Hwf as (W1 & W2 & W3 & W4).
    destruct (update_balances_abs bs _ W1 W3 Hop) as (B1 & B2 & B3).
    split; [by split_and!|]. unfold abs_cash, set_balances, base_update_balances, set_field.
    simpl. by rewrite B3.
  - simpl. apply guarded_refines. intros _. destruct Hwf as (W1 & W2 & W3 & W4).
    destruct (update_balances_abs (as_balances e) _ W1 W3 Hop) as (B1 & B2 & B3).
    unfold base_apply. destruct (_ && _).
    all: simpl; case_bool_decide; rewrite ?decide_True, ?decide_False by done; simpl; [|done].
    all: split; [split_and!; simpl; try done; constructor|].
    all: unfold abs_cash, set_balances, base_update_balances, set_field; simpl; by rewrite B3.
Qed.

Lemma cash_run_refines ops a :
  cash_wf a -> Forall op_ok ops ->
  refines (run_ops cash_step a ops) (run_ops spec_step (abs_cash a) ops).
Proof.
  intros Hwf Hops. revert a Hwf. induction Hops as [|op ops Hop Hops IH]; intros a Hwf; [done|].
  simpl. pose proof (cash_step_refines a op Hwf Hop) as Hs.
  destruct (cash_step a op) as [a'|e|]; simpl in Hs.
  - destruct Hs as [Ha' ->]. by apply IH.
  - rewrite Hs. by apply IH.
  - by rewrite Hs.
Qed.

(* ------------------------------------------------------------------ *)
(** ** Lemmas: accounts that may not borrow *)

(** The message of a refusal prints the negative total. *)
Definition printable (b : AccountBalance) : Prop :=
  m_raw (ab_total b) < 0 -> money_as_decimal (E := unit) (Dec := Dec) (ab_total b) <> Panic.
Definition op_safe (id : AccountId) (op : CashOp) : Prop :=
  op_ok op /\
  match op with
  | OpLock _ m => 0 <= m_raw m
  | OpClear _ => True
  | OpUpdate bs => Forall printable bs
  | OpApply e => as_account_id e = id /\ Forall printable (as_balances e)
  end.

Definition solvent (s : CashSpec) : Prop :=
  cs_borrow s = false /\
  map_Forall (fun _ b => 0 <= sp_total b <= MONEY_RAW_MAX /\ sp_total b = sp_locked b + sp_free b)
    (cs_balances s) /\
  map_Forall (fun _ x => 0 <= x) (cs_locks s).

Lemma locked_in_pos c l : Forall (fun kv => 0 <= kv.2) l -> 0 <= locked_in c l.
Proof. induction 1; simpl; [lia|]. case_decide; lia. Qed.
Lemma lock_sum_nonneg ls c : map_Forall (fun _ x => 0 <= x) ls -> 0 <= lock_sum ls c.
Proof.
  intros H. apply locked_in_pos, Forall_forall. intros [k x] Hx%elem_of_map_to_list. by apply (H k).
Qed.

Lemma settled_nonneg ls c t :
  map_Forall (fun _ x => 0 <= x) ls -> 0 <= t <= MONEY_RAW_MAX ->
  let x := settled ls c t in
  representable x = true /\ sp_total x = t /\ t = sp_locked x + sp_free x /\
  sp_locked x = Z.min (lock_sum ls c) t /\ 0 <= sp_free x.
Proof.
  intros Hls Ht. pose proof (lock_sum_nonneg ls c Hls). pose proof money_limits as (? & ? & _).
  unfold settled, representable. replace (0 <=? t) with true by lia. simpl.
  rewrite andb_true_iff, !money_raw_in_range_spec. lia.
Qed.

Lemma settle_where_solvent p s :
  solvent s -> exists s', settle_where p s = Ok s' /\ solvent s' /\ cs_id s' = cs_id s.
Proof.
  intros (S1 & S2 & S3). unfold settle_where. rewrite bool_decide_true.
  - eexists. split; [done|]. split; [|done]. split; [done|]. split; [|done].
    intros c b Hb. simpl in Hb. rewrite map_lookup_imap in Hb. destruct (_ !! c) as [b0|] eqn:Hb0; [|done].
    injection Hb as <-. destruct (S2 c b0 Hb0) as [H1 H2]. destruct (p c); [|done].
    destruct (settled_nonneg (cs_locks s) c _ S3 H1) as (_ & -> & H & _). done.
  - intros c b Hb ->. destruct (S2 c b Hb) as [H1 _]. by apply settled_nonneg.
Qed.

Lemma settle_locks_solvent p ls s :
  solvent s -> map_Forall (fun _ x => 0 <= x) ls ->
  exists s', settle_where p (s <| cs_locks := ls |>) = Ok s' /\ solvent s' /\ cs_id s' = cs_id s.
Proof.
  intros (S1 & S2 & _) Hls.
  destruct (settle_where_solvent p (s <| cs_locks := ls |>)) as (s' & H1 & H2 & H3); [done|].
  by exists s'.
Qed.

Lemma set_balances_solvent bs s :
  solvent s -> Forall balance_ok bs ->
  List.forallb (fun b => 0 <=? m_raw (ab_total b)) bs = true -> solvent (set_balances bs s).
Proof.
  intros (S1 & S2 & S3) Hbs Hpos. split_and!; simpl; [done| |done]. clear S3.
  revert S2. generalize (cs_balances s). induction Hbs as [|b bs (_ & Hr & Hs) Hbs IH]; intros m Hm; [done|].
  simpl in *. bool_simpl. apply IH; [done|]. apply map_Forall_insert_2; [|done]. simpl. lia.
Qed.

Lemma refusal_err bs : Forall printable bs ->
  List.forallb (fun b => 0 <=? m_raw (ab_total b)) bs = false -> refusal bs = Err tt.
Proof.
  unfold refusal. induction 1 as [|b bs Hb Hbs IH]; simpl; [done|]. rewrite Z.ltb_antisym.
  destruct (Z.leb_spec 0 (m_raw (ab_total b))) as [|Hneg]; simpl; [done|].
  specialize (Hb Hneg). by destruct (money_as_decimal (ab_total b)).
Qed.

Lemma spec_step_solvent s op :
  solvent s -> op_safe (cs_id s) op ->
  spec_step s op = Err tt \/
  exists s', spec_step s op = Ok s' /\ solvent s' /\ cs_id s' = cs_id s.
Proof.
  intros Hs [Hok Hsafe]. pose proof Hs as (S1 & S2 & S3).
  destruct op as [i m|i|bs|e]; simpl in *.
  - right. replace (m_raw m <? 0) with false by lia.
    apply settle_locks_solvent; [done|]. by apply map_Forall_insert_2.
  - right. apply settle_locks_solvent; [done|]. intros k x Hk. apply map_lookup_filter_Some in Hk as [Hk _].
    by apply (S3 k).
  - unfold accepts. rewrite S1. simpl. destruct (List.forallb _ bs) eqn:Hb.
    + right. eexists. split; [done|]. split; [by apply set_balances_solvent|done].
    + left. by apply refusal_err.
  - destruct Hsafe as [Hid Hpr]. unfold accepts. rewrite S1. simpl.
    destruct (List.forallb _ (as_balances e)) eqn:Hb; [|left; by apply refusal_err].
    right. rewrite decide_True by done. eexists. split; [done|].
    pose proof (set_balances_solvent _ _ Hs Hok Hb) as (T1 & T2 & T3).
    destruct (_ && _); [|done]. split; [|done]. split_and!; simpl; [done..|]. apply map_Forall_empty.
Qed.

Lemma spec_run_solvent ops s :
  solvent s -> Forall (op_safe (cs_id s)) ops ->
  exists s', run_ops spec_step s ops = Ok s' /\ solvent s'.
Proof.
  intros Hs Hops. revert s Hs Hops. induction ops as [|op ops IH]; intros s Hs Hops; simpl; [by eexists|].
  apply Forall_cons in Hops as [Hop Hops].
  destruct (spec_step_solvent s op Hs Hop) as [->|(s' & -> & Hs' & Hid)]; [by apply IH|].
  apply IH; [done|]. by rewrite Hid.
Qed.

Lemma abs_locks_nonneg m : Forall lock_ok m -> map_Forall (fun _ x => 0 <= x) (abs_locks m).
Proof.
  intros Hm [i c] x. unfold abs_locks. rewrite lookup_fmap, ltm_lookup. intros Hx.
  apply fmap_Some in Hx as (v & Hv & ->). apply ix_get_elem in Hv.
  apply list_elem_of_fmap in Hv as ([k v'] & [= -> -> Hv] & Hin).
  rewrite Forall_forall in Hm. destruct (Hm _ Hin) as (_ & H & _). simpl in H. by rewrite Hv.
Qed.

Lemma solvent_balance a c b :
  solvent (abs_cash a) -> km_get c_code c (ba_balances (ca_base a)) = Some b ->
  0 <= m_raw (ab_total b) <= MONEY_RAW_MAX /\
  m_raw (ab_total b) = m_raw (ab_locked b) + m_raw (ab_free b).
Proof.
  intros (_ & S2 & _) Hb. specialize (S2 (c_code c) (split_of b)). simpl in S2.
  rewrite (abs_balances_lookup _ _ c), Hb in S2 by done. by apply S2.
Qed.

Lemma cash_lock_settles {E} a i m :
  cash_wf a -> solvent (abs_cash a) -> 0 <= m_raw m -> currency_ok (m_currency m) ->
  exists a', cash_update_balance_locked (E := E) a i m = Ok a' /\
  forall b, km_get c_code (m_currency m) (ba_balances (ca_base a')) = Some b ->
    m_raw (ab_locked b)
    = Z.min (locked_in (c_code (m_currency m)) (lock_view (ca_balances_locked a')))
        (m_raw (ab_total b)) /\
    0 <= m_raw (ab_free b).
Proof.
  intros Hwf Hs Hm Hc. unfold cash_update_balance_locked. replace (0 <=? m_raw m) with true by lia.
  osimpl. fold (with_lock a i m). pose proof (with_lock_wf a i m Hwf Hc Hm) as Hwf1.
  rewrite cash_recalculate_eval by done.
  destruct (km_get _ _ _) as [b|] eqn:Hb; [|eexists; split; [done|]; intros b; by rewrite Hb].
  destruct (solvent_balance a _ b Hs Hb) as [Ht _]. destruct Hwf1 as (_ & Hnd & _ & Hl).
  destruct (settled_nonneg _ (c_code (m_currency m)) _ (abs_locks_nonneg _ Hl) Ht)
    as (Hrep & Ht' & Hsum & Hmin & Hfr).
  cbv zeta. set (x := settled _ _ _) in *. clearbody x. rewrite Hrep. eexists. split; [done|]. intros b'. simpl.
  rewrite km_get_proj, km_insert_proj, ix_get_insert, decide_True by done. intros [= <-]. simpl.
  rewrite Hmin, lock_sum_view by done. split; [done|]. lia.
Qed.

Definition spec_new (event : AccountState) (allow_borrowing : bool) : CashSpec :=
  set_balances (as_balances event)
    (mkCashSpec (as_account_id event) allow_borrowing ∅ ∅).

Lemma cash_new_refines e calc borrow :
  Forall balance_ok (as_balances e) ->
  cash_wf (cash_account_new e calc borrow) /\
  abs_cash (cash_account_new e calc borrow) = spec_new e borrow.
Proof.
  intros He. destruct (update_balances_abs (as_balances e) []) as (B1 & B2 & B3);
    [constructor|constructor|done|]. split.
  - split_and!; [done|constructor|done|constructor].
  - unfold abs_cash, spec_new, set_balances, set_field. simpl. by rewrite B3.
Qed.

(* ------------------------------------------------------------------ *)
(** ** Properties *)

(** C31: over any sequence of locks, clears, balance updates and account
    states, errors and panics included, a cash account is the specification:
    a finite map from currency to balance and a finite map from (instrument,
    currency) to lock, where a lock or a clear settles exactly the currencies
    concerned with locked = sum of the locks, capped by a non-negative total,
    an update that would leave a negative total without borrowing is refused
    as a whole, and only a state the venue reports with balances drops the
    locks.  The order in which the hash map of locks is visited is irrelevant. *)
Theorem cash_account_refines (e : AccountState) (calc borrow : bool) (ops : list CashOp) :
  Forall balance_ok (as_balances e) -> Forall op_ok ops ->
  abs_cash <$> run_ops cash_step (cash_account_new e calc borrow) ops
  = run_ops spec_step (spec_new e borrow) ops.
Proof.
  intros He Hops. destruct (cash_new_refines e calc borrow He) as [Hwf Habs].
  pose proof (cash_run_refines ops _ Hwf Hops) as H. rewrite Habs in H.
  destruct (run_ops cash_step _ ops) as [a|err|]; simpl in *; [by destruct H as [_ ->]|done..].
Qed.

(** a cash account that may not borrow and starts with non-negative totals
    never panics under well-formed operations, whatever the locks; every
    total stays non-negative and equals locked plus free; and locking an amount
    always succeeds with locked = min(sum of the locks, total) in that
    currency, so that the free part is never negative. *)
Theorem cash_account_sound (e : AccountState) (calc : bool) (ops : list CashOp) :
  Forall balance_ok (as_balances e) ->
  Forall (fun b => 0 <= m_raw (ab_total b)) (as_balances e) ->
  Forall (op_safe (as_account_id e)) ops ->
  exists a, run_ops cash_step (cash_account_new e calc false) ops = Ok a /\
  (forall c b, km_get c_code c (ba_balances (ca_base a)) = Some b ->
     0 <= m_raw (ab_total b) /\ m_raw (ab_total b) = m_raw (ab_locked b) + m_raw (ab_free b)) /\
  (forall i m, 0 <= m_raw m -> currency_ok (m_currency m) ->
   exists a', cash_update_balance_locked (E := unit) a i m = Ok a' /\
   forall b, km_get c_code (m_currency m) (ba_balances (ca_base a')) = Some b ->
     m_raw (ab_locked b)
     = Z.min (locked_in (c_code (m_currency m)) (lock_view (ca_balances_locked a')))
         (m_raw (ab_total b)) /\
     0 <= m_raw (ab_free b)).
Proof.
  intros He Hpos Hops. destruct (cash_new_refines e calc false He) as [Hwf Habs].
  assert (Hsol : solvent (spec_new e false)).
  { apply set_balances_solvent; [|done|].
    - split_and!; [done|apply map_Forall_empty..].
    - apply List.forallb_forall. intros b Hb%list_elem_of_In.
      rewrite Forall_forall in Hpos. specialize (Hpos b Hb). lia. }
  destruct (spec_run_solvent ops _ Hsol Hops) as (s & Hrun & Hs).
  assert (Hok : Forall op_ok ops) by (eapply Forall_impl; [exact Hops|]; by intros op []).
  pose proof (cash_run_refines ops _ Hwf Hok) as Href. rewrite Habs, Hrun in Href.
  destruct (run_ops cash_step _ ops) as [a| |]; simpl in Href; [|done..].
  destruct Href as [Ha [= ->]]. exists a. split_and!; [done| |].
  - intros c b Hb. destruct (solvent_balance a c b Hs Hb). lia.
  - intros i m Hm Hc. by apply cash_lock_settles.
Qed.
End Spec.

(** ** Betting accounts *)
Section Betting.
Context `{M : Mode} {Dec : Type} `{D : !DecimalApi Dec}.

Definition betting_step (self : BettingAccount) (op : CashOp) : outcome unit BettingAccount :=
  match op with
  | OpLock i m => betting_update_balance_locked self i m
  | OpClear i => betting_clear_balance_locked self i
  | OpUpdate bs => betting_update_balances (Dec := Dec) self bs
  | OpApply e => betting_apply (Dec := Dec) self e
  end.

(** A betting account as a cash account that may not borrow. *)
Definition as_cash (b : BettingAccount) : CashAccount :=
  mkCashAccount (bt_base b) false (bt_balances_locked b).

(** The operations on which the two account types differ: a reported state
    without balances. *)
Definition empty_report (op : CashOp) : bool :=
  match op with
  | OpApply e => as_is_reported e && bool_decide (as_balances e = [])
  | _ => false
  end.

Lemma as_cash_bind {A} (r : outcome unit A) (f : A -> outcome unit BettingAccount) g :
  (forall a, as_cash <$> f a = g a) -> as_cash <$> (r ≫= f) = r ≫= g.
Proof. intros H. by destruct r; simpl. Qed.

Lemma betting_recalculate_as_cash b cur :
  as_cash <$> betting_recalculate_balance (E := unit) b cur
  = cash_recalculate_balance (as_cash b) cur.
Proof.
  unfold betting_recalculate_balance, cash_recalculate_balance. simpl.
  destruct (km_get _ _ _) as [x|]; [|done]. case_match.
  repeat (apply as_cash_bind; intros ?). done.
Qed.

Lemma betting_recalculate_all_as_cash cs b :
  as_cash <$> betting_recalculate_all (E := unit) b cs = cash_recalculate_all (as_cash b) cs.
Proof.
  revert b. induction cs as [|c cs IH]; intros b; simpl; [done|].
  rewrite <- betting_recalculate_as_cash. by destruct (betting_recalculate_balance b c); simpl.
Qed.

Lemma betting_step_as_cash b op :
  empty_report op = false -> as_cash <$> betting_step b op = cash_step (Dec := Dec) (as_cash b) op.
Proof.
  destruct op as [i m|i|bs|e]; simpl; intros He.
  - unfold betting_update_balance_locked, cash_update_balance_locked.
    apply as_cash_bind. intros _. apply betting_recalculate_as_cash.
  - unfold betting_clear_balance_locked, cash_clear_balance_locked.
    rewrite betting_recalculate_all_as_cash. done.
  - by apply as_cash_bind.
  - unfold betting_apply, cash_apply. apply as_cash_bind. intros _.
    destruct (as_is_reported e); simpl in *; [|by apply as_cash_bind].
    rewrite He. simpl. by apply as_cash_bind.
Qed.

Lemma betting_run_as_cash ops b :
  Forall (fun op => empty_report op = false) ops ->
  as_cash <$> run_ops betting_step b ops = run_ops (cash_step (Dec := Dec)) (as_cash b) ops.
Proof.
  intros Hops. revert b. induction Hops as [|op ops Hop Hops IH]; intros b; simpl; [done|].
  rewrite <- betting_step_as_cash by done. by destruct (betting_step b op); simpl.
Qed.

(** over any sequence of operations without an empty report, a betting
    account behaves exactly like a cash account that may not borrow.  On a
    state reported without balances the two part: the cash account keeps its
    locks, the betting account forgets them and leaves every balance, its
    locked part included, as it was. *)
Theorem betting_account_equivalent (e : AccountState) (calc : bool) (ops : list CashOp) :
  Forall (fun op => empty_report op = false) ops ->
  as_cash <$> run_ops betting_step (betting_account_new e calc) ops
    = run_ops (cash_step (Dec := Dec)) (cash_account_new e calc false) ops /\
  forall b s, empty_report (OpApply s) = true -> as_account_id s = ba_id (bt_base b) ->
  exists b' a',
    betting_step b (OpApply s) = Ok b' /\
    ba_balances (bt_base b') = ba_balances (bt_base b) /\ bt_balances_locked b' = [] /\
    cash_step (Dec := Dec) (as_cash b) (OpApply s) = Ok a' /\
    ca_base a' = bt_base b' /\ ca_balances_locked a' = bt_balances_locked b.
Proof.
  intros Hops. split; [by apply betting_run_as_cash|]. intros b s Hs Hid. simpl in *. bool_simpl.
  apply bool_decide_eq_true in H0. unfold betting_apply, cash_apply, base_apply, as_cash. simpl.
  rewrite H, H0, Hid. simpl. rewrite !bool_decide_true by done. simpl.
  do 2 eexists. by split_and!.
Qed.
End Betting.

(* ------------------------------------------------------------------ *)
(** ** Purging account events *)
Section Purge.
Context `{M : Mode}.

Definition out_of_window (lookback now : Z) (ev : AccountState) : Prop := as_ts_event ev + lookback <= now.

Lemma retain_events_eval {E} lookback now evs :
  retain_events (E := E) lookback now evs
  = if List.forallb (fun ev => in_ty U64 (as_ts_event ev + lookback)) evs
    then Ok (List.filter (fun ev => now <? as_ts_event ev + lookback) evs) else Panic.
Proof.
  induction evs as [|ev evs IH]; simpl; [done|]. unfold checked.
  destruct (in_ty U64 _); osimpl; [|done]. rewrite IH.
  destruct (List.forallb _ evs); osimpl; [|done]. by destruct (now <? _).
Qed.

(** In an ordered log the live events are a suffix. *)
Lemma live_suffix lookback now evs :
  StronglySorted (fun x y => as_ts_event x <= as_ts_event y) evs ->
  exists dropped,
    evs = dropped ++ List.filter (fun ev => now <? as_ts_event ev + lookback) evs /\
    Forall (out_of_window lookback now) dropped.
Proof.
  induction 1 as [|ev evs Hs IH Hf]; simpl; [by exists []|].
  destruct (Z.ltb_spec now (as_ts_event ev + lookback)) as [Hl|Hl].
  - exists []. split; [|constructor]. simpl. f_equal. symmetry. apply List.forallb_filter_id.
    apply List.forallb_forall. intros x Hx. rewrite List.Forall_forall in Hf. specialize (Hf x Hx). lia.
  - destruct IH as (d & He & Hd). exists (ev :: d). split; [by rewrite <- app_comm_cons, <- He|].
    by constructor.
Qed.

(** purging an ordered, non-empty log keeps a non-empty suffix of it, so
    the latest event survives; what it drops is outside the lookback window,
    what it keeps is inside, unless everything is outside and the latest event
    is kept alone; the rest of the account is untouched.  If the window of some
    event ends beyond the largest timestamp, the call panics. *)
Theorem purge_keeps_latest {E} (self : BaseAccount) (ts_now lookback_secs lookback : Z) :
  secs_to_nanos (F64.of_Z lookback_secs) = Ok lookback ->
  StronglySorted (fun x y => as_ts_event x <= as_ts_event y) (ba_events self) ->
  ba_events self <> [] ->
  (Forall (fun ev => in_ty U64 (as_ts_event ev + lookback) = true) (ba_events self) ->
   exists dropped kept,
     base_purge_account_events (E := E) self ts_now lookback_secs
       = Ok (self <| ba_events := kept |>) /\
     ba_events self = dropped ++ kept /\ kept <> [] /\
     Forall (out_of_window lookback ts_now) dropped /\
     (Forall (fun ev => ~ out_of_window lookback ts_now ev) kept \/
      exists ev, kept = [ev] /\ Forall (out_of_window lookback ts_now) (ba_events self))) /\
  (Exists (fun ev => in_ty U64 (as_ts_event ev + lookback) = false) (ba_events self) ->
   base_purge_account_events (E := E) self ts_now lookback_secs = Panic).
Proof.
  intros Hlb Hs Hne. unfold base_purge_account_events, secs_to_nanos_unchecked. rewrite Hlb. osimpl.
  rewrite retain_events_eval. split; intros Hr.
  - replace (List.forallb _ _) with true.
    2:{ symmetry. apply List.forallb_forall. by apply List.Forall_forall. }
    osimpl. destruct (live_suffix lookback ts_now _ Hs) as (d & He & Hd).
    assert (Hk : forall ev, ev ∈ List.filter (fun ev => ts_now <? as_ts_event ev + lookback) (ba_events self) ->
      ~ out_of_window lookback ts_now ev).
    { intros ev [_ Hx]%list_elem_of_In%List.filter_In. unfold out_of_window. lia. }
    set (live := List.filter _ (ba_events self)) in *. destruct live as [|k ks].
    + rewrite app_nil_r in He. subst d.
      destruct (exists_last Hne) as (d & ev & He).
      assert (Hlast : last (ba_events self) = Some ev) by (rewrite He; apply last_snoc).
      rewrite Hlast.
      exists d, [ev]. split_and!; [done|done|done| |right; by exists ev].
      rewrite He in Hd. by apply Forall_app in Hd as [? _].
    + exists d, (k :: ks). split_and!; [done|done|done|done|left]. by apply Forall_forall.
  - replace (List.forallb _ _) with false; [done|]. symmetry. apply not_true_is_false. intros Ha.
    apply Exists_exists in Hr as (ev & Hin & Hev). rewrite List.forallb_forall in Ha.
    rewrite (Ha ev) in Hev; [done|]. by apply list_elem_of_In.
Qed.
End Purge.

(* ------------------------------------------------------------------ *)
(** ** Witnesses *)

Module CashExample.
#[local] Existing Instance standard_mode.
Definition eur : Currency := mkCurrency "EUR" 2 978 "Euro" Fiat.
Definition m (cents : Z) : Money := mkMoney (cents * 10000000) usd.
Definition bal (total locked : Z) : AccountBalance := mkBalance usd (m total) (m locked) (m (total - locked)).
Definition i1 : InstrumentId := mkInstrumentId "A" "X".
Definition i2 : InstrumentId := mkInstrumentId "B" "X".
Definition state (reported : bool) (bs : list AccountBalance) : AccountState :=
  mkAccountState "X-1" Cash None bs [] reported "u" 1 1.
Definition start : AccountState := state true [bal 10000 2500].
(** Two locks that exceed the total, a clear, a refused negative total, a
    computed state that keeps the locks and another lock. *)
Definition ops : list CashOp :=
  [OpLock i1 (m 6000); OpLock i2 (m 7000); OpClear i1; OpUpdate [bal (-100) 0];
   OpApply (state false [bal 5000 0]); OpLock i1 (m 1000)].

Lemma balance_ok_bal t l : Z.abs t <= 100000 -> balance_ok (bal t l).
Proof.
  intros Ht. unfold balance_ok, bal, m. cbn [ab_total ab_locked ab_free ab_currency m_raw m_currency].
  replace MONEY_RAW_MAX with 9223372036000000000 by (vm_compute; reflexivity).
  replace MONEY_RAW_MIN with (-9223372036000000000) by (vm_compute; reflexivity).
  split_and!; [done|lia..].
Qed.

Example cash_account_refines_witness :
  abs_cash <$> run_ops (cash_step (Dec := Z * Z)) (cash_account_new start true false) ops
  = Ok (mkCashSpec "X-1" false {[ "USD" := mkSplit 50000000000 50000000000 0 ]}
          {[ (i2, "USD") := 70000000000; (i1, "USD") := 10000000000 ]}).
Proof.
  rewrite (cash_account_refines start true false ops).
  - vm_compute. reflexivity.
  - constructor; [by apply balance_ok_bal|constructor].
  - repeat first [apply Forall_cons; split | apply Forall_nil; exact I];
      first [vm_compute; reflexivity | exact I | apply balance_ok_bal; lia | idtac].
Defined.

Lemma printable_bal t l : Z.abs t <= 100000 -> printable (Dec := Z * Z) (bal t l).
Proof.
  intros Ht _. unfold money_as_decimal, bal, m. cbn [ab_total m_raw m_currency].
  replace (pow10_wrap MoneyRaw (saturate U8 (FIXED_PRECISION - c_precision usd))) with 10000000
    by (vm_compute; reflexivity).
  rewrite Z.quot_mul by lia. simpl c_precision. unfold dec_from_i128_with_scale, pair_decimal.
  replace (dec_fits t 2) with true; [done|].
  symmetry. unfold dec_fits. rewrite !andb_true_iff, Z.ltb_lt. repeat split; lia.
Qed.

Lemma ops_safe : Forall (op_safe (Dec := Z * Z) "X-1") ops.
Proof.
  assert (Hlock : forall i c, 0 <= c -> op_safe (Dec := Z * Z) "X-1" (OpLock i (m c))).
  { intros i c Hc. split; [vm_compute; reflexivity|]. simpl. lia. }
  repeat apply Forall_cons_2;
    [apply Hlock; lia|apply Hlock; lia|split; exact I|split|split|apply Hlock; lia|by apply Forall_nil];
    cbn [op_ok as_balances as_account_id state];
    repeat first [apply balance_ok_bal; lia|apply printable_bal; lia|apply Forall_cons_2
                 |by apply Forall_nil|split; [reflexivity|]].
Qed.

Example cash_account_sound_witness :
  exists a, run_ops (cash_step (Dec := Z * Z)) (cash_account_new start true false) ops = Ok a /\
  forall i k, 0 <= m_raw k -> currency_ok (m_currency k) ->
  exists a', cash_update_balance_locked (E := unit) a i k = Ok a'.
Proof.
  destruct (cash_account_sound (Dec := Z * Z) start true ops) as (a & Ha & _ & Hl).
  - constructor; [by apply balance_ok_bal|constructor].
  - constructor; [vm_compute; discriminate|constructor].
  - apply ops_safe.
  - exists a. split; [exact Ha|]. intros i k Hk Hc. destruct (Hl i k Hk Hc) as (a' & Ha' & _).
    by exists a'.
Defined.

Example betting_account_equivalent_witness :
  as_cash <$> run_ops (betting_step (Dec := Z * Z)) (betting_account_new start true) ops
  = run_ops (cash_step (Dec := Z * Z)) (cash_account_new start true false) ops.
Proof.
  apply (betting_account_equivalent (Dec := Z * Z) start true ops).
  repeat first [apply Forall_cons; split; [vm_compute; reflexivity|] | apply Forall_nil; exact I].
Defined.

Definition stamped (ts : Z) : AccountState := mkAccountState "X-1" Cash None [] [] true "u" ts ts.
(** One second of lookback at 3.5 s keeps the event at 3 s. *)
Example purge_keeps_latest_witness :
  exists dropped kept,
    base_purge_account_events (E := unit)
      ((base_account_new start true) <| ba_events := stamped <$> [1000000000; 3000000000] |>)
      3500000000 1
    = Ok ((base_account_new start true) <| ba_events := stamped <$> [1000000000; 3000000000] |>
            <| ba_events := kept |>) /\
    stamped <$> [1000000000; 3000000000] = dropped ++ kept /\ kept <> [].
Proof.
  destruct (purge_keeps_latest (E := unit)
    ((base_account_new start true) <| ba_events := stamped <$> [1000000000; 3000000000] |>)
    3500000000 1 1000000000) as [(d & k & H1 & H2 & H3 & _) _].
  - vm_compute. reflexivity.
  - repeat constructor; simpl; lia.
  - discriminate.
  - repeat constructor; vm_compute; reflexivity.
  - exists d, k. split; [exact H1|]. split; [exact H2|exact H3].
Defined.
End CashExample.
