(* ===== verification/MarginSpec.v ===== *)
(** * Margin accounts against a specification

    The specification of a margin account is three finite maps: the split
    balances by currency code, the margins by instrument and the account-wide
    margins by collateral currency.  An operation on the margins settles one
    currency: its locked part is the sum of all initial and maintenance
    margins in it, capped by the total and never negative. *)

From stdpp Require Import base numbers list strings gmap fin_maps.
From Stdlib Require Import ZArith Lia.
From S2P Require Import Prelude F64 Fixed Price Quantity Money Enums Maps OrderEvents Account AccountSpec.

Record MarginState : Type := mkMarginState {
  ms_id : AccountId;
  ms_balances : gmap string Split;
  ms_margins : gmap InstrumentId MarginBalance;
  ms_account_margins : gmap string MarginBalance;
}.
#[export] Instance margin_state_eta : Eta MarginState := fun s =>
  mkMarginState (ms_id s) (ms_balances s) (ms_margins s) (ms_account_margins s).

Inductive MarginOp {Dec : Type} : Type :=
  | UpdateInitial (instrument_id : InstrumentId) (margin_init : Money)
  | UpdateMaintenance (instrument_id : InstrumentId) (margin_maintenance : Money)
  | UpdateMargin (margin_balance : MarginBalance)
  | ClearMargin (instrument_id : InstrumentId)
  | ClearAccountMargin (currency : Currency)
  | ApplyState (event : AccountState)
  | SetLeverage (instrument_id : InstrumentId) (leverage : Dec)
  | SetDefaultLeverage (leverage : Dec).
Arguments MarginOp : clear implicits.

Definition margin_amount (m : MarginBalance) : Z := m_raw (mb_initial m) + m_raw (mb_maintenance m).
Definition amounts_in (c : string) (ms : list MarginBalance) : Z :=
  foldr (fun m acc => if decide (c_code (mb_currency m) = c) then margin_amount m + acc else acc) 0 ms.

Section Spec.
Context `{M : Mode} {Dec : Type} `{D : !DecimalApi Dec}.

Definition reserved (s : MarginState) (c : string) : Z :=
  amounts_in c (snd <$> map_to_list (ms_margins s))
  + amounts_in c (snd <$> map_to_list (ms_account_margins s)).

(** A currency without a balance gets one with total zero. *)
Definition settle_margin (c : string) (s : MarginState) : outcome unit MarginState :=
  if imax MoneyRaw <? reserved s c then Panic
  else
    let t := default 0 (sp_total <$> ms_balances s !! c) in
    let l := Z.min (reserved s c) (Z.max t 0) in
    Ok (s <| ms_balances := <[c := mkSplit t l (t - l)]> (ms_balances s) |>).

Definition route (s : MarginState) (m : MarginBalance) : MarginState :=
  match mb_instrument_id m with
  | Some i => s <| ms_margins := <[i := m]> (ms_margins s) |>
  | None => s <| ms_account_margins := <[c_code (mb_currency m) := m]> (ms_account_margins s) |>
  end.
Definition put_balances (bs : list AccountBalance) (s : MarginState) : MarginState :=
  s <| ms_balances :=
    fold_left (fun m b => <[c_code (ab_currency b) := split_of b]> m) bs (ms_balances s) |>.

Definition margin_spec_step (s : MarginState) (op : MarginOp Dec) : outcome unit MarginState :=
  match op with
  | UpdateInitial i m =>
      let mb := match ms_margins s !! i with
                | Some b => mkMargin m (mb_maintenance b) (mb_currency b) (mb_instrument_id b)
                | None => mkMargin m (mkMoney 0 (m_currency m)) (m_currency m) (Some i)
                end in
      settle_margin (c_code (m_currency m)) (s <| ms_margins := <[i := mb]> (ms_margins s) |>)
  | UpdateMaintenance i m =>
      let mb := match ms_margins s !! i with
                | Some b => mkMargin (mb_initial b) m (mb_currency b) (mb_instrument_id b)
                | None => mkMargin (mkMoney 0 (m_currency m)) m (m_currency m) (Some i)
                end in
      settle_margin (c_code (m_currency m)) (s <| ms_margins := <[i := mb]> (ms_margins s) |>)
  | UpdateMargin mb => settle_margin (c_code (mb_currency mb)) (route s mb)
  | ClearMargin i =>
      match ms_margins s !! i with
      | Some mb =>
          settle_margin (c_code (mb_currency mb)) (s <| ms_margins := delete i (ms_margins s) |>)
      | None => Ok s
      end
  | ClearAccountMargin c =>
      match ms_account_margins s !! c_code c with
      | Some _ =>
          settle_margin (c_code c)
            (s <| ms_account_margins := delete (c_code c) (ms_account_margins s) |>)
      | None => Ok s
      end
  | ApplyState e =>
      if decide (as_account_id e = ms_id s) then
        let s := put_balances (as_balances e) s in
        Ok (if bool_decide (as_balances e = []) && bool_decide (as_margins e = []) then s
            else fold_left route (as_margins e)
                   (s <| ms_margins := ∅ |> <| ms_account_margins := ∅ |>))
      else Panic
  | SetLeverage _ d | SetDefaultLeverage d => if 0 <? dec_mantissa d then Ok s else Panic
  end.

Definition margin_step (self : MarginAccount Dec) (op : MarginOp Dec)
  : outcome unit (MarginAccount Dec) :=
  match op with
  | UpdateInitial i m => update_initial_margin self i m
  | UpdateMaintenance i m => update_maintenance_margin self i m
  | UpdateMargin mb => update_margin self mb
  | ClearMargin i => clear_margin self i
  | ClearAccountMargin c => clear_account_margin self c
  | ApplyState e => margin_apply self e
  | SetLeverage i d => set_leverage self i d
  | SetDefaultLeverage d => set_default_leverage self d
  end.

(* ------------------------------------------------------------------ *)
(** ** Well-formed accounts and the abstraction *)

(** The margins the theorems range over are not negative.  This is a restriction:
    neither [MarginBalance::new_checked] nor [update_margin] checks it, and a
    negative margin makes a negative locked amount (see the examples at the end).
    A margin made from one amount needs a zero of its currency, which a float
    gives up to the fixed precision. *)
Definition zero_ok (c : Currency) : Prop := 0 <= c_precision c <= FIXED_PRECISION.
Definition margin_ok (m : MarginBalance) : Prop :=
  0 <= m_raw (mb_initial m) /\ 0 <= m_raw (mb_maintenance m) /\ currency_ok (mb_currency m).
Definition margin_op_ok (op : MarginOp Dec) : Prop :=
  match op with
  | UpdateInitial _ m | UpdateMaintenance _ m => 0 <= m_raw m /\ zero_ok (m_currency m)
  | UpdateMargin mb => margin_ok mb
  | ClearAccountMargin c => currency_ok c
  | ApplyState e => Forall balance_ok (as_balances e) /\ Forall margin_ok (as_margins e)
  | _ => True
  end.
Definition margin_wf (a : MarginAccount Dec) : Prop :=
  NoDup (km_keys c_code (ba_balances (ma_base a))) /\
  Forall entry_ok (ba_balances (ma_base a)) /\
  NoDup (ix_keys (ma_margins a)) /\ Forall (fun kv => margin_ok kv.2) (ma_margins a) /\
  NoDup (km_keys c_code (ma_account_margins a)) /\
  Forall (fun kv => margin_ok kv.2) (ma_account_margins a).

Definition abs_account_margins (m : list (Currency * MarginBalance)) : gmap string MarginBalance :=
  list_to_map (km_proj c_code m).
Definition abs_margin (a : MarginAccount Dec) : MarginState :=
  mkMarginState (ba_id (ma_base a)) (abs_balances (ba_balances (ma_base a)))
    (list_to_map (ma_margins a)) (abs_account_margins (ma_account_margins a)).

(* ------------------------------------------------------------------ *)
(** ** Lemmas *)

Lemma zero_ok_currency c : zero_ok c -> currency_ok c.
Proof.
  intros H. pose proof fixed_precision_bounds. apply check_fixed_precision_Ok.
  unfold zero_ok, WEI_PRECISION in *. destruct defi; lia.
Qed.

Lemma money_zero_Ok {E} c : zero_ok c -> money_new (E := E) F64.zero c = Ok (mkMoney 0 c).
Proof.
  unfold zero_ok. intros Hp. pose proof fixed_precision_bounds. unfold money_new, money_new_checked.
  replace (check_in_range_inclusive_f64 F64.zero MONEY_MIN MONEY_MAX)
    with (Ok (E := CorrectnessError) tt)
    by (unfold MONEY_MIN, MONEY_MAX; destruct high_precision; vm_compute; reflexivity).
  osimpl. replace (MAX_FLOAT_PRECISION <? c_precision c) with false by (unfold MAX_FLOAT_PRECISION; lia).
  rewrite andb_false_r. osimpl. unfold f64_to_fixed_i128, f64_to_fixed_i64.
  destruct high_precision; by rewrite f64_to_fixed_zero.
Qed.

Lemma amounts_in_perm c l l' : l ≡ₚ l' -> amounts_in c l = amounts_in c l'.
Proof. induction 1; simpl; repeat case_decide; lia. Qed.
Lemma amounts_in_app c l l' : amounts_in c (l ++ l') = amounts_in c l + amounts_in c l'.
Proof. induction l; simpl; [lia|]. case_decide; lia. Qed.
Lemma amounts_in_nonneg c l : Forall margin_ok l -> 0 <= amounts_in c l.
Proof. induction 1 as [|m l (H1 & H2 & _) Hl IH]; simpl; [lia|]. unfold margin_amount. case_decide; lia. Qed.

(** The checked additions succeed exactly when the whole sum fits. *)
Lemma accumulate_margins_eval {E} cur l raw :
  Forall margin_ok l -> 0 <= raw <= imax MoneyRaw ->
  accumulate_margins (E := E) raw (List.filter (fun m => currency_eqb (mb_currency m) cur) l)
  = if imax MoneyRaw <? raw + amounts_in (c_code cur) l then Panic
    else Ok (raw + amounts_in (c_code cur) l).
Proof.
  intros Hl. revert raw. induction Hl as [|m l (H1 & H2 & _) Hl IH]; intros raw Hr; simpl.
  - rewrite Z.add_0_r. by replace (imax MoneyRaw <? raw) with false by lia.
  - pose proof (amounts_in_nonneg (c_code cur) l Hl). pose proof (imin_le_imax MoneyRaw).
    change (currency_eqb (mb_currency m) cur) with (bool_decide (c_code (mb_currency m) = c_code cur)).
    case_bool_decide as Hc; case_decide; try done; [|by apply IH].
    simpl. unfold accumulate_margin, checked, margin_amount.
    destruct (in_ty MoneyRaw (raw + m_raw (mb_initial m))) eqn:E1; osimpl.
    + apply in_ty_spec in E1.
      destruct (in_ty MoneyRaw (raw + m_raw (mb_initial m) + _)) eqn:E2; osimpl.
      * apply in_ty_spec in E2. rewrite IH by lia. by rewrite !Z.add_assoc.
      * replace (imax MoneyRaw <? _) with true; [done|]. symmetry. apply Z.ltb_lt.
        apply not_true_iff_false in E2. rewrite in_ty_spec in E2. lia.
    + replace (imax MoneyRaw <? _) with true; [done|]. symmetry. apply Z.ltb_lt.
      apply not_true_iff_false in E1. rewrite in_ty_spec in E1. lia.
Qed.

Lemma margin_list_ok a :
  margin_wf a -> Forall margin_ok ((snd <$> ma_margins a) ++ (snd <$> ma_account_margins a)).
Proof. intros (_ & _ & _ & H1 & _ & H2). by rewrite Forall_app, !Forall_fmap. Qed.

Lemma reserved_list a c :
  margin_wf a ->
  reserved (abs_margin a) c
  = amounts_in c ((snd <$> ma_margins a) ++ (snd <$> ma_account_margins a)).
Proof.
  intros (_ & _ & N1 & _ & N2 & _). unfold reserved. simpl. rewrite amounts_in_app. f_equal.
  - apply amounts_in_perm, fmap_Permutation, map_to_list_to_map, N1.
  - unfold abs_account_margins. rewrite <- km_proj_keys in N2.
    rewrite (amounts_in_perm _ _ (snd <$> km_proj c_code (ma_account_margins a))).
    + unfold km_proj. by rewrite <- list_fmap_compose.
    + apply fmap_Permutation, map_to_list_to_map, N2.
Qed.

(** ** Lemmas: settling *)

Definition margin_refines (r : outcome unit (MarginAccount Dec)) (r' : outcome unit MarginState) : Prop :=
  match r with
  | Ok a => margin_wf a /\ r' = Ok (abs_margin a)
  | Err e => r' = Err e
  | Panic => r' = Panic
  end.

Definition zero_balance (c : Currency) : AccountBalance :=
  mkBalance c (mkMoney 0 c) (mkMoney 0 c) (mkMoney 0 c).

Lemma current_balance_eval {E} (a : MarginAccount Dec) cur :
  currency_ok cur ->
  match km_get c_code cur (ba_balances (ma_base a)) with
  | Some balance => Ok balance
  | None => zero ← money_from_raw 0 cur; account_balance_new zero zero zero
  end = Ok (E := E) (default (zero_balance cur) (km_get c_code cur (ba_balances (ma_base a)))).
Proof.
  intros Hc. destruct (km_get _ _ _); [done|]. simpl. pose proof money_limits.
  rewrite money_from_raw_eval by done.
  rewrite (proj2 (money_raw_in_range_spec 0)) by lia. osimpl.
  rewrite account_balance_new_code by done. by rewrite money_in_range_in_ty by lia.
Qed.

Lemma current_balance_ok a cur :
  margin_wf a ->
  let b := default (zero_balance cur) (km_get c_code cur (ba_balances (ma_base a))) in
  balance_ok b /\ c_code (ab_currency b) = c_code cur /\
  m_raw (ab_total b) = default 0 (sp_total <$> abs_balances (ba_balances (ma_base a)) !! c_code cur).
Proof.
  intros (_ & Hb & _). pose proof money_limits. rewrite (abs_balances_lookup _ _ cur) by done.
  destruct (km_get _ _ _) as [b|] eqn:Hg; simpl.
  - destruct (km_get_Forall _ _ _ _ _ Hb Hg) as (k & Hk & [Hc Hok]). simpl in *. split_and!; [done|congruence|done].
  - split_and!; [|done|done]. unfold balance_ok. simpl. split_and!; [done|lia..].
Qed.

Lemma margin_recalculate_refines a cur :
  margin_wf a -> currency_ok cur ->
  margin_refines (margin_recalculate_balance a cur) (settle_margin (c_code cur) (abs_margin a)).
Proof.
  intros Hwf Hc. unfold margin_recalculate_balance, margins_in.
  rewrite current_balance_eval by done. osimpl.
  destruct (current_balance_ok a cur Hwf) as (Hok & Hcode & Ht). revert Hok Hcode Ht.
  set (b := default _ _). intros Hok Hcode Ht.
  pose proof (margin_list_ok a Hwf) as Hl. pose proof (imin_le_imax MoneyRaw).
  rewrite accumulate_margins_eval by (done || lia). rewrite Z.add_0_l.
  unfold settle_margin. rewrite reserved_list by done. change (ms_balances (abs_margin a))
    with (abs_balances (ba_balances (ma_base a))). rewrite <- Ht.
  pose proof (amounts_in_nonneg (c_code cur) _ Hl) as Hs. set (S := amounts_in _ _) in *.
  destruct (imax MoneyRaw <? S) eqn:Hov; osimpl; [done|].
  replace (if m_raw (ab_total b) <? S then Z.max (m_raw (ab_total b)) 0 else S)
    with (Z.min S (Z.max (m_raw (ab_total b)) 0)) by (destruct (Z.ltb_spec (m_raw (ab_total b)) S); lia).
  rewrite split_eval by done. set (l := Z.min S _).
  replace (representable _) with true.
  - destruct Hwf as (W1 & W2 & W3 & W4 & W5 & W6). split.
    + split_and!; simpl; [by apply km_nodup_insert| |done..].
      apply km_insert_Forall; [done|by apply rebalanced_ok|].
      intros k' v' Hk' _. apply rebalanced_ok; [congruence|done].
    + unfold abs_margin, set_field. simpl. by rewrite abs_balances_insert.
  - symmetry. destruct Hok as (_ & Hr & _). pose proof money_limits as (? & ? & _).
    unfold representable. simpl. rewrite andb_true_iff, !money_raw_in_range_spec. lia.
Qed.

(** ** Lemmas: the operations *)

Lemma ltm_insert {K V} `{Countable K} (l : list (K * V)) k v :
  (list_to_map (ix_insert k v l) : gmap K V) = <[k := v]> (list_to_map l).
Proof.
  apply map_eq. intros j. rewrite lookup_insert, !ltm_lookup, ix_get_insert.
  repeat case_decide; congruence || done.
Qed.
Lemma ltm_remove {K V} `{Countable K} (l : list (K * V)) k :
  (list_to_map (ix_shift_remove k l) : gmap K V) = delete k (list_to_map l).
Proof.
  apply map_eq. intros j. rewrite lookup_delete, !ltm_lookup, ix_get_remove.
  repeat case_decide; congruence || done.
Qed.
Lemma ix_insert_Forall {K V} `{EqDecision K} (P : V -> Prop) k v (m : list (K * V)) :
  Forall (fun kv => P kv.2) m -> P v -> Forall (fun kv => P kv.2) (ix_insert k v m).
Proof.
  intros Hm Hv. induction Hm as [|[k' v'] m H' Hm IH]; unfold ix_insert; fold (@ix_insert K V _);
    [by constructor|]. case_bool_decide; by constructor.
Qed.
Lemma ix_remove_Forall {K V} `{EqDecision K} (P : V -> Prop) k (m : list (K * V)) :
  Forall (fun kv => P kv.2) m -> Forall (fun kv => P kv.2) (ix_shift_remove k m).
Proof.
  intros Hm. unfold ix_shift_remove. induction Hm as [|kv m H' Hm IH]; simpl; [done|].
  case_bool_decide; [done|by constructor].
Qed.

(** The account with other margins. *)
Definition with_margins (a : MarginAccount Dec) ms : MarginAccount Dec := a <| ma_margins := ms |>.
Definition with_account_margins (a : MarginAccount Dec) ms : MarginAccount Dec :=
  a <| ma_account_margins := ms |>.

Lemma with_margins_insert a i mb :
  margin_wf a -> margin_ok mb ->
  margin_wf (with_margins a (ix_insert i mb (ma_margins a))) /\
  abs_margin (with_margins a (ix_insert i mb (ma_margins a)))
    = (abs_margin a) <| ms_margins := <[i := mb]> (ms_margins (abs_margin a)) |>.
Proof.
  intros (W1 & W2 & W3 & W4 & W5 & W6) Hm. split.
  - split_and!; simpl; try done; [by apply ix_nodup_insert|by apply ix_insert_Forall].
  - unfold abs_margin, with_margins, set_field. simpl. by rewrite ltm_insert.
Qed.
Lemma with_account_margins_insert a c mb :
  margin_wf a -> margin_ok mb ->
  margin_wf (with_account_margins a (km_insert c_code c mb (ma_account_margins a))) /\
  abs_margin (with_account_margins a (km_insert c_code c mb (ma_account_margins a)))
    = (abs_margin a) <| ms_account_margins := <[c_code c := mb]> (ms_account_margins (abs_margin a)) |>.
Proof.
  intros (W1 & W2 & W3 & W4 & W5 & W6) Hm. split.
  - split_and!; simpl; [done..|by apply km_nodup_insert|by apply km_insert_Forall].
  - unfold abs_margin, with_account_margins, abs_account_margins, set_field. simpl.
    by rewrite km_insert_proj, ltm_insert.
Qed.

Lemma margins_get a i mb :
  margin_wf a -> ix_get i (ma_margins a) = Some mb -> margin_ok mb.
Proof.
  intros (_ & _ & _ & W4 & _) Hg%ix_get_elem. rewrite Forall_forall in W4. exact (W4 _ Hg).
Qed.

Lemma update_initial_refines a i m :
  margin_wf a -> 0 <= m_raw m -> zero_ok (m_currency m) ->
  margin_refines (update_initial_margin a i m) (margin_spec_step (abs_margin a) (UpdateInitial i m)).
Proof.
  intros Hwf Hm Hz. pose proof (zero_ok_currency _ Hz) as Hc. unfold update_initial_margin. simpl.
  rewrite ltm_lookup. destruct (ix_get i (ma_margins a)) as [b|] eqn:Hb; osimpl.
  - destruct (margins_get a i b Hwf Hb) as (H1 & H2 & H3).
    destruct (with_margins_insert a i (mkMargin m (mb_maintenance b) (mb_currency b) (mb_instrument_id b)))
      as [Hw Ha]; [done..|]. simpl in Ha. rewrite <- Ha. by apply margin_recalculate_refines.
  - rewrite money_zero_Ok by done. osimpl. unfold margin_balance_new, margin_balance_new_checked.
    simpl. rewrite currency_eqb_refl. osimpl. simpl.
    destruct (with_margins_insert a i (mkMargin m (mkMoney 0 (m_currency m)) (m_currency m) (Some i)))
      as [Hw Ha]; [done..|]. simpl in Ha. rewrite <- Ha. by apply margin_recalculate_refines.
Qed.
Lemma update_maintenance_refines a i m :
  margin_wf a -> 0 <= m_raw m -> zero_ok (m_currency m) ->
  margin_refines (update_maintenance_margin a i m)
    (margin_spec_step (abs_margin a) (UpdateMaintenance i m)).
Proof.
  intros Hwf Hm Hz. pose proof (zero_ok_currency _ Hz) as Hc. unfold update_maintenance_margin. simpl.
  rewrite ltm_lookup. destruct (ix_get i (ma_margins a)) as [b|] eqn:Hb; osimpl.
  - destruct (margins_get a i b Hwf Hb) as (H1 & H2 & H3).
    destruct (with_margins_insert a i (mkMargin (mb_initial b) m (mb_currency b) (mb_instrument_id b)))
      as [Hw Ha]; [done..|]. simpl in Ha. rewrite <- Ha. by apply margin_recalculate_refines.
  - rewrite money_zero_Ok by done. osimpl. unfold margin_balance_new, margin_balance_new_checked.
    simpl. rewrite currency_eqb_refl. osimpl. simpl.
    destruct (with_margins_insert a i (mkMargin (mkMoney 0 (m_currency m)) m (m_currency m) (Some i)))
      as [Hw Ha]; [done..|]. simpl in Ha. rewrite <- Ha. by apply margin_recalculate_refines.
Qed.

Lemma update_margin_refines a mb :
  margin_wf a -> margin_ok mb ->
  margin_refines (update_margin a mb) (margin_spec_step (abs_margin a) (UpdateMargin mb)).
Proof.
  intros Hwf Hm. pose proof Hm as (_ & _ & Hc). unfold update_margin. simpl. unfold route.
  destruct (mb_instrument_id mb) as [i|].
  - destruct (with_margins_insert a i mb Hwf Hm) as [Hw Ha]. rewrite <- Ha.
    by apply margin_recalculate_refines.
  - destruct (with_account_margins_insert a (mb_currency mb) mb Hwf Hm) as [Hw Ha]. rewrite <- Ha.
    by apply margin_recalculate_refines.
Qed.

Lemma clear_margin_refines a i :
  margin_wf a -> margin_refines (clear_margin a i) (margin_spec_step (abs_margin a) (ClearMargin i)).
Proof.
  intros Hwf. unfold clear_margin. simpl. rewrite ltm_lookup.
  destruct (ix_get i (ma_margins a)) as [mb|] eqn:Hb; [|done].
  destruct (margins_get a i mb Hwf Hb) as (_ & _ & Hc). rewrite <- ltm_remove.
  apply (margin_recalculate_refines (with_margins a (ix_shift_remove i (ma_margins a)))); [|done].
  destruct Hwf as (W1 & W2 & W3 & W4 & W5 & W6).
  split_and!; simpl; try done; [by apply ix_nodup_remove|by apply ix_remove_Forall].
Qed.
Lemma abs_account_margins_lookup m c : abs_account_margins m !! c_code c = km_get c_code c m.
Proof. unfold abs_account_margins. by rewrite ltm_lookup, km_get_proj. Qed.
Lemma abs_account_margins_remove m c :
  abs_account_margins (km_remove c_code c m) = delete (c_code c) (abs_account_margins m).
Proof. unfold abs_account_margins. by rewrite km_remove_proj, ltm_remove. Qed.

Lemma clear_account_margin_refines a c :
  margin_wf a -> currency_ok c ->
  margin_refines (clear_account_margin a c)
    (margin_spec_step (abs_margin a) (ClearAccountMargin c)).
Proof.
  intros Hwf Hc. unfold clear_account_margin. simpl. rewrite abs_account_margins_lookup.
  destruct (km_get c_code c (ma_account_margins a)) as [mb|]; [|done].
  rewrite <- abs_account_margins_remove.
  apply (margin_recalculate_refines
    (with_account_margins a (km_remove c_code c (ma_account_margins a)))); [|done].
  destruct Hwf as (W1 & W2 & W3 & W4 & W5 & W6).
  split_and!; simpl; [done..|by apply km_nodup_remove|by apply km_remove_Forall].
Qed.

(** Routing the margins of an event, as the source does and on the maps. *)
Lemma split_margins_route ms mi mc a :
  margin_wf a -> Forall margin_ok ms ->
  NoDup (ix_keys mi) -> Forall (fun kv => margin_ok kv.2) mi ->
  NoDup (km_keys c_code mc) -> Forall (fun kv => margin_ok kv.2) mc ->
  let r := fold_left (fun ms margin =>
    match mb_instrument_id margin with
    | Some instrument_id => (ix_insert instrument_id margin ms.1, ms.2)
    | None => (ms.1, km_insert c_code (mb_currency margin) margin ms.2)
    end) ms (mi, mc) in
  margin_wf (with_account_margins (with_margins a r.1) r.2) /\
  abs_margin (with_account_margins (with_margins a r.1) r.2)
  = fold_left route ms (abs_margin (with_account_margins (with_margins a mi) mc)).
Proof.
  intros Hwf Hms. revert mi mc. induction Hms as [|m ms Hm Hms IH]; intros mi mc N1 F1 N2 F2.
  - simpl. destruct Hwf as (W1 & W2 & _). split; [by split_and!|done].
  - simpl. destruct (mb_instrument_id m) as [i|] eqn:Hi.
    + destruct (IH (ix_insert i m mi) mc) as [Hw Ha];
        [by apply ix_nodup_insert|by apply ix_insert_Forall|done..|].
      split; [done|]. simpl in Ha. rewrite Ha. f_equal. unfold route. rewrite Hi.
      unfold abs_margin, set_field. simpl. by rewrite ltm_insert.
    + destruct (IH mi (km_insert c_code (mb_currency m) m mc)) as [Hw Ha];
        [done..|by apply km_nodup_insert|by apply km_insert_Forall|].
      split; [done|]. simpl in Ha. rewrite Ha. f_equal. unfold route. rewrite Hi.
      unfold abs_margin, set_field, abs_account_margins. simpl. by rewrite km_insert_proj, ltm_insert.
Qed.

Lemma margin_apply_refines a e :
  margin_wf a -> Forall balance_ok (as_balances e) -> Forall margin_ok (as_margins e) ->
  margin_refines (margin_apply a e) (margin_spec_step (abs_margin a) (ApplyState e)).
Proof.
  intros Hwf Hb Hm. unfold margin_apply, split_event_margins.
  set (f := fun ms margin => _). destruct (fold_left f (as_margins e) ([], [])) as [mi mc] eqn:Hf.
  unfold base_apply. simpl.
  destruct (decide (as_account_id e = ba_id (ma_base a))) as [Hid|Hid];
    [rewrite (bool_decide_true (as_account_id e = _)) by done
    |by rewrite (bool_decide_false (as_account_id e = _)) by done]. osimpl.
  pose proof Hwf as (W1 & W2 & W3 & W4 & W5 & W6).
  destruct (update_balances_abs (as_balances e) _ W1 W2 Hb) as (B1 & B2 & B3).
  set (a1 := a <| ma_base := _ |>).
  assert (Hw1 : margin_wf a1) by by split_and!.
  assert (Ha1 : abs_margin a1 = put_balances (as_balances e) (abs_margin a)).
  { unfold abs_margin, put_balances, a1, set_field. simpl. by rewrite B3. }
  rewrite <- Ha1. destruct (_ && _); simpl; [done|].
  destruct (split_margins_route (as_margins e) [] [] a1 Hw1 Hm) as [Hw Ha]; [constructor..|].
  fold f in Hw, Ha. rewrite Hf in Hw, Ha. simpl in Hw, Ha. split; [exact Hw|]. f_equal. symmetry. exact Ha.
Qed.

Lemma margin_step_refines a op :
  margin_wf a -> margin_op_ok op ->
  margin_refines (margin_step a op) (margin_spec_step (abs_margin a) op).
Proof.
  intros Hwf Hop. destruct op as [i m|i m|mb|i|c|e|i d|d]; simpl in Hop.
  - destruct Hop. by apply update_initial_refines.
  - destruct Hop. by apply update_maintenance_refines.
  - by apply update_margin_refines.
  - by apply clear_margin_refines.
  - by apply clear_account_margin_refines.
  - destruct Hop. by apply margin_apply_refines.
  - simpl. unfold set_leverage, check_positive_decimal. rewrite Z.leb_antisym.
    by destruct (0 <? dec_mantissa d).
  - simpl. unfold set_default_leverage, check_positive_decimal. rewrite Z.leb_antisym.
    by destruct (0 <? dec_mantissa d).
Qed.

Definition margin_spec_new (e : AccountState) : MarginState :=
  fold_left route (as_margins e)
    (put_balances (as_balances e) (mkMarginState (as_account_id e) ∅ ∅ ∅)).

Lemma margin_new_refines e calc a :
  margin_account_new (E := unit) e calc = Ok a ->
  Forall balance_ok (as_balances e) -> Forall margin_ok (as_margins e) ->
  margin_wf a /\ abs_margin a = margin_spec_new e.
Proof.
  unfold margin_account_new, split_event_margins. intros Hnew Hb Hm. outcome_inv.
  set (f := fun ms margin => _) in *.
  destruct (fold_left f (as_margins e) ([], [])) as [mi mc] eqn:Hf. injection Hnew as <-.
  destruct (update_balances_abs (as_balances e) []) as (B1 & B2 & B3); [constructor..|done|].
  set (a0 := mkMarginAccount (base_account_new e calc) ∅ [] [] x).
  assert (Hw0 : margin_wf a0) by (split_and!; try done; constructor).
  destruct (split_margins_route (as_margins e) [] [] a0 Hw0 Hm) as [Hw Ha]; [constructor..|].
  fold f in Hw, Ha. rewrite Hf in Hw, Ha. simpl in Hw, Ha. split; [exact Hw|].
  etransitivity; [exact Ha|]. unfold margin_spec_new. f_equal.
  unfold abs_margin, put_balances, set_field. simpl. by rewrite B3.
Qed.

(** C32: over any sequence of margin updates, clears, account states and leverage
    changes in which every margin amount is at least zero (neither MarginBalance
    nor the account checks it; a negative one is outside this theorem), every
    reported balance is consistent (total = locked + free, in range) and the
    currencies have a valid precision, panics included, a margin account is the
    specification: finite maps of balances, instrument margins and account-wide
    margins.  Every margin operation settles its currency with locked = the sum of
    all margins in the currency, instrument and account-wide, capped by the total
    and by zero when the total is negative, free = the exact rest, and panics
    exactly when the sum does not fit the raw integer; an account state replaces
    all margins unless it carries neither balances nor margins. *)
Theorem margin_account_refines (e : AccountState) (calc : bool) (ops : list (MarginOp Dec))
    (a : MarginAccount Dec) :
  margin_account_new (E := unit) e calc = Ok a ->
  Forall balance_ok (as_balances e) -> Forall margin_ok (as_margins e) -> Forall margin_op_ok ops ->
  abs_margin <$> run_ops margin_step a ops = run_ops margin_spec_step (margin_spec_new e) ops.
Proof.
  intros Hnew Hb Hm Hops.
  destruct (margin_new_refines e calc a Hnew Hb Hm) as [Hwf <-]. clear Hnew. revert a Hwf.
  induction Hops as [|op ops Hop Hops IH]; intros a Hwf; [done|]. simpl.
  pose proof (margin_step_refines a op Hwf Hop) as Hs.
  destruct (margin_step a op) as [a'|err|]; simpl in Hs.
  - destruct Hs as [Ha' ->]. by apply IH.
  - rewrite Hs. by apply IH.
  - by rewrite Hs.
Qed.
End Spec.

(* ------------------------------------------------------------------ *)
(** ** Witnesses *)

Module MarginExample.
Import CashExample.
#[local] Existing Instance standard_mode.

Definition e (cents : Z) : Money := mkMoney (cents * 10000000) eur.
Definition event : AccountState :=
  mkAccountState "X-1" Margin None [bal 10000 0]
    [mkMargin (m 1000) (m 500) usd (Some i1); mkMargin (m 2000) (m 0) usd None] true "u" 1 1.
(** A margin beyond the total, the account-wide margin cleared, and a first
    margin in a currency the account has no balance in. *)
Definition ops : list (MarginOp (Z * Z)) :=
  [UpdateInitial i2 (m 9000); ClearAccountMargin usd; ClearMargin i1; UpdateMaintenance i1 (e 300)].

Definition account : MarginAccount (Z * Z) :=
  match margin_account_new (E := unit) event true with
  | Ok a => a
  | _ => mkMarginAccount (base_account_new event true) ∅ [] [] (0, 0)
  end.

Lemma margin_ok_usd x y i : 0 <= x -> 0 <= y -> margin_ok (mkMargin (m x) (m y) usd i).
Proof. intros Hx Hy. split_and!; simpl; [lia|lia|vm_compute; reflexivity]. Qed.

Lemma currency_ok_usd : currency_ok usd.
Proof. vm_compute. reflexivity. Qed.

Lemma zero_ok_usd : zero_ok usd.
Proof. unfold zero_ok, FIXED_PRECISION. simpl. lia. Qed.
Lemma zero_ok_eur : zero_ok eur.
Proof. unfold zero_ok, FIXED_PRECISION. simpl. lia. Qed.

Example margin_account_refines_witness :
  (ms_balances ∘ abs_margin) <$> run_ops margin_step account ops
  = Ok {[ "USD" := mkSplit 100000000000 90000000000 10000000000; "EUR" := mkSplit 0 0 0 ]}.
Proof.
  assert (H : abs_margin <$> run_ops margin_step account ops
              = run_ops margin_spec_step (margin_spec_new event) ops).
  { apply (margin_account_refines event true ops account).
    - reflexivity.
    - apply Forall_cons_2; [apply balance_ok_bal; lia|by apply Forall_nil].
    - repeat apply Forall_cons_2; [apply margin_ok_usd; lia..|by apply Forall_nil].
    - repeat apply Forall_cons_2; cbn [margin_op_ok m e m_raw m_currency].
      + split; [lia|apply zero_ok_usd].
      + apply currency_ok_usd.
      + exact I.
      + split; [lia|apply zero_ok_eur].
      + by apply Forall_nil. }
  transitivity (ms_balances <$> run_ops margin_spec_step (margin_spec_new event) ops).
  - rewrite <- H. by destruct (run_ops margin_step account ops).
  - vm_compute. reflexivity.
Defined.

(** Nothing refuses a negative margin, and it makes the locked part negative. *)
Example negative_margin_locks_negative :
  (ms_balances ∘ abs_margin) <$> margin_step account (UpdateMargin (mkMargin (m (-9000)) (m 0) usd (Some i2)))
  = Ok {[ "USD" := mkSplit 100000000000 (-55000000000) 155000000000 ]}.
Proof. vm_compute. reflexivity. Qed.
End MarginExample.
