(* ===== verification/CacheIndex.v ===== *)
(** * The lookup index of the cache ([crates/common/src/cache/index.rs])

    The maps and sets of [CacheIndex], the operations on its multi-maps, and
    the set intersections behind the filtered queries of
    [crates/common/src/cache/mod.rs].  Hash maps and sets are finite maps and
    sets; their iteration order is a parameter, of which only that it
    enumerates every entry once is known. *)

From stdpp Require Import base numbers list strings gmap sorting.
From Stdlib Require Import ZArith Lia.
From S2P Require Import Prelude Money OrderEvents.

Abbreviation Venue := string.
Abbreviation ClientId := string.
Abbreviation ComponentId := string.

(** The iteration order of the hash maps and sets keyed by identifiers. *)
Class HashIter : Type := {
  iter_set : gset string -> list string;
  iter_map : forall {A : Type}, gmap string A -> list (string * A);
  iter_set_perm : forall s, iter_set s ≡ₚ elements s;
  iter_map_perm : forall A (m : gmap string A), iter_map m ≡ₚ map_to_list m;
}.

(** ** Multi-maps

    [m.entry(k).or_default().insert(v)]; removal drops a set that becomes
    empty. *)
Section MultiMap.
Context {K : Type} `{Countable K}.
Implicit Types (m : gmap K (gset string)) (k : K) (v : string).

Definition mm_insert k v m : gmap K (gset string) :=
  <[k := {[v]} ∪ default ∅ (m !! k)]> m.
Definition mm_extend k (vs : list string) m : gmap K (gset string) :=
  <[k := list_to_set vs ∪ default ∅ (m !! k)]> m.
Definition mm_remove k v m : gmap K (gset string) :=
  match m !! k with
  | Some s =>
      let s := s ∖ {[v]} in
      if bool_decide (s = ∅) then delete k m else <[k := s]> m
  | None => m
  end.

(** The members under a key, and the absence of empty sets. *)
Definition mm_get m k : gset string := default ∅ (m !! k).
Definition mm_tight m : Prop := forall k s, m !! k = Some s -> s <> ∅.

Lemma mm_get_insert m k v k' x :
  x ∈ mm_get (mm_insert k v m) k' <-> (k' = k /\ x = v) \/ x ∈ mm_get m k'.
Proof.
  unfold mm_get, mm_insert. destruct (decide (k' = k)) as [->|Hne].
  - rewrite lookup_insert_eq. simpl. set_solver.
  - rewrite lookup_insert_ne by done. naive_solver.
Qed.

Lemma mm_get_extend m k vs k' x :
  x ∈ mm_get (mm_extend k vs m) k' <-> (k' = k /\ x ∈ vs) \/ x ∈ mm_get m k'.
Proof.
  unfold mm_get, mm_extend. destruct (decide (k' = k)) as [->|Hne].
  - rewrite lookup_insert_eq. simpl. rewrite elem_of_union, elem_of_list_to_set. naive_solver.
  - rewrite lookup_insert_ne by done. naive_solver.
Qed.

Lemma mm_get_remove m k v k' x :
  x ∈ mm_get (mm_remove k v m) k' <-> x ∈ mm_get m k' /\ ~ (k' = k /\ x = v).
Proof.
  unfold mm_get, mm_remove. destruct (m !! k) as [s|] eqn:Hk.
  - case_bool_decide as He; destruct (decide (k' = k)) as [->|Hne];
      rewrite ?lookup_delete_eq, ?lookup_insert_eq, ?lookup_delete_ne, ?lookup_insert_ne by done;
      rewrite ?Hk; simpl; set_solver.
  - destruct (decide (k' = k)) as [->|Hne]; rewrite ?Hk; simpl; set_solver.
Qed.

Lemma mm_tight_insert m k v : mm_tight m -> mm_tight (mm_insert k v m).
Proof.
  intros Ht k' s. unfold mm_insert. destruct (decide (k' = k)) as [->|Hne].
  - rewrite lookup_insert_eq. intros [= <-]. set_solver.
  - rewrite lookup_insert_ne by done. apply Ht.
Qed.

Lemma mm_tight_remove m k v : mm_tight m -> mm_tight (mm_remove k v m).
Proof.
  intros Ht k' s. unfold mm_remove. destruct (m !! k) as [s0|] eqn:Hk; [|apply Ht].
  case_bool_decide as He; destruct (decide (k' = k)) as [->|Hne];
    rewrite ?lookup_delete_eq, ?lookup_insert_eq, ?lookup_delete_ne, ?lookup_insert_ne by done;
    [done|apply Ht|by intros [= <-]|apply Ht].
Qed.

Lemma mm_tight_empty : mm_tight ∅.
Proof. intros k s. by rewrite lookup_empty. Qed.

(** Tight multi-maps are determined by their members. *)
Lemma mm_ext m1 m2 :
  mm_tight m1 -> mm_tight m2 -> (forall k x, x ∈ mm_get m1 k <-> x ∈ mm_get m2 k) -> m1 = m2.
Proof.
  intros H1 H2 He. apply map_eq. intros k. unfold mm_get in He.
  assert (Hs : default ∅ (m1 !! k) = default ∅ (m2 !! k)) by (apply set_eq; apply He).
  destruct (m1 !! k) as [s1|] eqn:E1, (m2 !! k) as [s2|] eqn:E2; simpl in Hs; subst; try done.
  - by apply H1 in E1.
  - by apply H2 in E2.
Qed.

Lemma mm_has_key m k : mm_tight m -> is_Some (m !! k) <-> exists x, x ∈ mm_get m k.
Proof.
  unfold mm_get. intros Ht. split.
  - intros [s Hs]. apply Ht in Hs as Hne. apply set_choose_L in Hne as [x Hx].
    exists x. by rewrite Hs.
  - intros [x Hx]. destruct (m !! k); [done|]. simpl in Hx. set_solver.
Qed.
End MultiMap.

(** ** The index *)
Record CacheIndex : Type := mkCacheIndex {
  x_venue_account : gmap Venue AccountId;
  x_venue_orders : gmap Venue (gset ClientOrderId);
  x_venue_positions : gmap Venue (gset PositionId);
  x_venue_order_ids : gmap VenueOrderId ClientOrderId;
  x_client_order_ids : gmap ClientOrderId VenueOrderId;
  x_order_position : gmap ClientOrderId PositionId;
  x_order_strategy : gmap ClientOrderId StrategyId;
  x_order_client : gmap ClientOrderId ClientId;
  x_position_strategy : gmap PositionId StrategyId;
  x_position_orders : gmap PositionId (gset ClientOrderId);
  x_instrument_orders : gmap InstrumentId (gset ClientOrderId);
  x_instrument_positions : gmap InstrumentId (gset PositionId);
  x_strategy_orders : gmap StrategyId (gset ClientOrderId);
  x_strategy_positions : gmap StrategyId (gset PositionId);
  x_account_orders : gmap AccountId (gset ClientOrderId);
  x_account_positions : gmap AccountId (gset PositionId);
  x_exec_algorithm_orders : gmap ExecAlgorithmId (gset ClientOrderId);
  x_exec_spawn_orders : gmap ClientOrderId (gset ClientOrderId);
  x_orders : gset ClientOrderId;
  x_orders_active_local : gset ClientOrderId;
  x_orders_open : gset ClientOrderId;
  x_orders_closed : gset ClientOrderId;
  x_orders_emulated : gset ClientOrderId;
  x_orders_inflight : gset ClientOrderId;
  x_orders_pending_cancel : gset ClientOrderId;
  x_positions : gset PositionId;
  x_positions_open : gset PositionId;
  x_positions_closed : gset PositionId;
  x_actors : gset ComponentId;
  x_strategies : gset StrategyId;
  x_exec_algorithms : gset ExecAlgorithmId;
}.
#[export] Instance cache_index_eta : Eta CacheIndex := fun i =>
  mkCacheIndex (x_venue_account i) (x_venue_orders i) (x_venue_positions i) (x_venue_order_ids i)
    (x_client_order_ids i) (x_order_position i) (x_order_strategy i) (x_order_client i)
    (x_position_strategy i) (x_position_orders i) (x_instrument_orders i)
    (x_instrument_positions i) (x_strategy_orders i) (x_strategy_positions i)
    (x_account_orders i) (x_account_positions i) (x_exec_algorithm_orders i)
    (x_exec_spawn_orders i) (x_orders i) (x_orders_active_local i) (x_orders_open i)
    (x_orders_closed i) (x_orders_emulated i) (x_orders_inflight i)
    (x_orders_pending_cancel i) (x_positions i) (x_positions_open i) (x_positions_closed i)
    (x_actors i) (x_strategies i) (x_exec_algorithms i).

Definition index_default : CacheIndex :=
  mkCacheIndex ∅ ∅ ∅ ∅ ∅ ∅ ∅ ∅ ∅ ∅ ∅ ∅ ∅ ∅ ∅ ∅ ∅ ∅ ∅ ∅ ∅ ∅ ∅ ∅ ∅ ∅ ∅ ∅ ∅ ∅ ∅.

(** [CacheIndex::clear]: every field is cleared in turn. *)
Definition index_clear (self : CacheIndex) : CacheIndex :=
  self <| x_venue_account := ∅ |> <| x_venue_orders := ∅ |> <| x_venue_positions := ∅ |>
       <| x_venue_order_ids := ∅ |> <| x_client_order_ids := ∅ |> <| x_order_position := ∅ |>
       <| x_order_strategy := ∅ |> <| x_order_client := ∅ |> <| x_position_strategy := ∅ |>
       <| x_position_orders := ∅ |> <| x_instrument_orders := ∅ |>
       <| x_instrument_positions := ∅ |> <| x_strategy_orders := ∅ |>
       <| x_strategy_positions := ∅ |> <| x_account_orders := ∅ |>
       <| x_account_positions := ∅ |> <| x_exec_algorithm_orders := ∅ |>
       <| x_exec_spawn_orders := ∅ |> <| x_orders := ∅ |> <| x_orders_active_local := ∅ |>
       <| x_orders_open := ∅ |> <| x_orders_closed := ∅ |> <| x_orders_emulated := ∅ |>
       <| x_orders_inflight := ∅ |> <| x_orders_pending_cancel := ∅ |> <| x_positions := ∅ |>
       <| x_positions_open := ∅ |> <| x_positions_closed := ∅ |> <| x_actors := ∅ |>
       <| x_strategies := ∅ |> <| x_exec_algorithms := ∅ |>.

Lemma index_clear_default self : index_clear self = index_default.
Proof. done. Qed.

(** ** Filtered queries over sets of identifiers *)
Inductive FilterSources : Type :=
  | Unfiltered
  | FilterEmpty
  | Sets (sources : list (gset string)).

Section Filters.
Context `{HI : HashIter}.

(** [sort_unstable_by_key(|s| s.len())]: any permutation that is ordered by
    size will do; insertion by size is one. *)
Fixpoint insert_by_len (s : gset string) (l : list (gset string)) : list (gset string) :=
  match l with
  | [] => [s]
  | t :: l => if (size s <=? size t)%nat then s :: t :: l else t :: insert_by_len s l
  end.
Definition sort_by_len (l : list (gset string)) : list (gset string) :=
  foldr insert_by_len [] l.

(** The loop from the smallest set with membership tests in the others. *)
Definition drive (sources : list (gset string)) : list string :=
  match sort_by_len sources with
  | [] => []
  | driver :: rest =>
      filter (fun id => forallb (fun s : gset string => bool_decide (id ∈ s)) rest = true)
        (iter_set driver)
  end.

(** [intersect_filter_sources]; an empty list of sources indexes out of range. *)
Definition intersect_filter_sources {E} (sources : list (gset string)) : outcome E (gset string) :=
  match sort_by_len sources with
  | [] => Panic
  | [driver] => Ok driver
  | _ => Ok (list_to_set (drive sources))
  end.

Definition intersect_pair_or_many {E} (bucket : gset string) (sources : list (gset string))
  : outcome E (gset string) :=
  match sources with
  | [filt] =>
      let '(larger, smaller) :=
        if (size filt <=? size bucket)%nat then (bucket, filt) else (filt, bucket) in
      Ok (list_to_set (filter (fun id => id ∈ smaller) (iter_set larger)))
  | _ => intersect_filter_sources (sources ++ [bucket])
  end.

(** Membership in every source. *)
Definition in_all (x : string) (sources : list (gset string)) : Prop :=
  Forall (fun s => x ∈ s) sources.

Lemma insert_by_len_perm s l : insert_by_len s l ≡ₚ s :: l.
Proof.
  induction l as [|t l IH]; simpl; [done|]. destruct (_ <=? _)%nat; [done|].
  rewrite IH. apply Permutation_swap.
Qed.

Lemma sort_by_len_perm l : sort_by_len l ≡ₚ l.
Proof. induction l as [|s l IH]; simpl; [done|]. by rewrite insert_by_len_perm, IH. Qed.

Lemma iter_set_NoDup s : NoDup (iter_set s).
Proof. rewrite iter_set_perm. apply NoDup_elements. Qed.

Lemma elem_of_iter_set x s : x ∈ iter_set s <-> x ∈ s.
Proof. by rewrite iter_set_perm, elem_of_elements. Qed.

Lemma drive_NoDup l : NoDup (drive l).
Proof. unfold drive. destruct (sort_by_len l); [constructor|]. apply NoDup_filter, iter_set_NoDup. Qed.

Lemma elem_of_drive x l : l <> [] -> x ∈ drive l <-> in_all x l.
Proof.
  intros Hne. unfold drive, in_all. pose proof (sort_by_len_perm l) as Hp.
  destruct (sort_by_len l) as [|d rest]; [by apply Permutation_nil in Hp|].
  rewrite <- Hp, Forall_cons, list_elem_of_filter, elem_of_iter_set, forallb_forall, Forall_forall.
  setoid_rewrite bool_decide_eq_true. setoid_rewrite <- list_elem_of_In. tauto.
Qed.

Lemma intersect_pair_or_many_spec {E} bucket sources :
  sources <> [] ->
  exists s, intersect_pair_or_many (E := E) bucket sources = Ok s /\
    forall x, x ∈ s <-> x ∈ bucket /\ in_all x sources.
Proof.
  intros Hne. unfold intersect_pair_or_many. destruct sources as [|f [|g sources]]; [done| |].
  - unfold in_all. destruct (_ <=? _)%nat; eexists; (split; [done|]); intros x;
      rewrite elem_of_list_to_set, list_elem_of_filter, elem_of_iter_set, Forall_singleton; tauto.
  - unfold intersect_filter_sources. set (l := _ ++ [bucket]).
    pose proof (sort_by_len_perm l) as Hp.
    assert (Hlen : length (sort_by_len l) = length l) by by rewrite Hp.
    destruct (sort_by_len l) as [|a [|b r]]; [by subst l| |].
    + subst l. rewrite length_app in Hlen. simpl in Hlen. lia.
    + eexists. split; [done|]. intros x. rewrite elem_of_list_to_set, elem_of_drive by done.
      subst l. unfold in_all. rewrite Forall_app, Forall_singleton. tauto.
Qed.
End Filters.
