(* ===== verification/Cache.v ===== *)
(** * The cache: execution state ([crates/common/src/cache/mod.rs])

    Accounts, orders, order lists, positions and own order books with the index
    over them.  A method that can fail after it has changed something returns
    the cache as the call leaves it beside its result.  The backing database is
    an adapter outside this component: each of its writes succeeds or fails. *)

From stdpp Require Import base numbers list strings gmap sorting.
From Stdlib Require Import ZArith Lia Ascii.
From S2P Require Import Prelude F64 Fixed Price Quantity Money Enums OrderEvents OrderCore Orders Own Position Account Clock CacheIndex.

(** [OrderList]: identifiers only; the orders are in the cache. *)
Record OrderList : Type := mkOrderList {
  li_id : OrderListId;
  li_instrument_id : InstrumentId;
  li_strategy_id : StrategyId;
  li_client_order_ids : list ClientOrderId;
  li_ts_init : UnixNanos;
}.

(** The writes of a [CacheDatabaseAdapter]: [true] is [Ok]. *)
Record CacheDatabaseAdapter {Dec : Type} : Type := mkDatabase {
  db_add_account : AccountAny Dec -> bool;
  db_add_order : OrderAny Dec -> option ClientId -> bool;
  db_add_position : Position Dec -> bool;
  db_index_order_position : ClientOrderId -> PositionId -> bool;
  db_update_account : AccountAny Dec -> bool;
  db_update_order : OrderEventAny Dec -> bool;
  db_update_position : Position Dec -> bool;
}.
Arguments CacheDatabaseAdapter : clear implicits.

Record Cache {Dec : Type} : Type := mkCache {
  k_index : CacheIndex;
  k_database : option (CacheDatabaseAdapter Dec);
  k_own_books : gmap InstrumentId OwnOrderBook;
  k_accounts : gmap AccountId (AccountAny Dec);
  k_orders : gmap ClientOrderId (OrderAny Dec);
  k_order_lists : gmap OrderListId OrderList;
  k_positions : gmap PositionId (Position Dec);
  k_position_snapshots : gmap PositionId (list string);
}.
Arguments Cache : clear implicits.
#[export] Instance cache_eta {Dec} : Eta (Cache Dec) := fun c =>
  mkCache Dec (k_index c) (k_database c) (k_own_books c) (k_accounts c) (k_orders c)
    (k_order_lists c) (k_positions c) (k_position_snapshots c).

Inductive CacheError : Type :=
  | CacheKey (e : CorrectnessError)
  | VenueOrderIdConflict (existing : VenueOrderId)
  | CacheOrderError (e : OrderError)
  | CacheAccountError
  | DatabaseError.

(** [AccountId::get_issuer]: the part before the first hyphen. *)
Fixpoint split_hyphen (s : string) : option string :=
  match s with
  | String.EmptyString => None
  | String.String c s =>
      if Ascii.eqb c "-"%char then Some String.EmptyString else String.String c <$> split_hyphen s
  end.
Definition get_issuer {E} (id : AccountId) : outcome E Venue := expect (split_hyphen id).

Section Cache.
Context `{M : Mode} {Dec : Type} `{D : !DecimalApi Dec} `{HI : HashIter}.
Abbreviation C := (Cache Dec).
Abbreviation Event := (OrderEventAny Dec).
Implicit Types (self : C) (order : OrderAny Dec) (position : Position Dec).

(** *** The order's accessors the cache reads *)
Definition any_venue order : Venue := i_venue (o_instrument_id (any_core order)).
Definition any_id order : ClientOrderId := o_client_order_id (any_core order).

(** [has_price] of each order type. *)
Definition any_has_price order : bool :=
  match order with
  | AnyLimit _ | AnyLimitIfTouched _ | AnyStopLimit _ | AnyTrailingStopLimit _ => true
  | AnyMarket o => bool_decide (is_Some (mk_protection_price o))
  | AnyMarketToLimit o => bool_decide (is_Some (ml_price o))
  | AnyStopMarket o => bool_decide (is_Some (sm_protection_price o))
  | AnyMarketIfTouched _ | AnyTrailingStopMarket _ => false
  end.

Definition to_own_book_order {E} order : outcome E OwnBookOrder :=
  let core := any_core order in
  side ← as_specified (o_side core);
  price ← expect (any_price order);
  Ok (mkOwnOrder (o_trader_id core) (o_client_order_id core) (o_venue_order_id core) side price
        (o_quantity core) (o_order_type core) (o_time_in_force core) (o_status core)
        (o_ts_last core) (default 0 (o_ts_accepted core)) (default 0 (o_ts_submitted core))
        (o_ts_init core)).

Definition should_handle_own_book_order order : bool :=
  any_has_price order
  && negb (bool_decide (o_time_in_force (any_core order) = Ioc))
  && negb (bool_decide (o_time_in_force (any_core order) = Fok)).

(** [Position::client_order_ids], up to the order of the sorted vector. *)
Definition position_client_order_ids position : list ClientOrderId :=
  elements (list_to_set ((fun f => h_client_order_id (fl_header f)) <$> pp_events position)
            : gset string).

(** [set_position_id] of the variant: the core is replaced. *)
Definition any_set_position_id order (position_id : option PositionId) : OrderAny Dec :=
  match order with
  | AnyLimit o => AnyLimit (o <| lm_core := set_position_id (lm_core o) position_id |>)
  | AnyLimitIfTouched o =>
      AnyLimitIfTouched (o <| lt_core := set_position_id (lt_core o) position_id |>)
  | AnyMarket o => AnyMarket (o <| mk_core := set_position_id (mk_core o) position_id |>)
  | AnyMarketIfTouched o =>
      AnyMarketIfTouched (o <| mt_core := set_position_id (mt_core o) position_id |>)
  | AnyMarketToLimit o =>
      AnyMarketToLimit (o <| ml_core := set_position_id (ml_core o) position_id |>)
  | AnyStopLimit o => AnyStopLimit (o <| sl_core := set_position_id (sl_core o) position_id |>)
  | AnyStopMarket o => AnyStopMarket (o <| sm_core := set_position_id (sm_core o) position_id |>)
  | AnyTrailingStopLimit o =>
      AnyTrailingStopLimit (o <| tl_core := set_position_id (tl_core o) position_id |>)
  | AnyTrailingStopMarket o =>
      AnyTrailingStopMarket (o <| tm_core := set_position_id (tm_core o) position_id |>)
  end.

(** *** Glue *)

(** Apply a function to the index; run a database write, if there is one. *)
Definition on_index (f : CacheIndex -> CacheIndex) self : C := self <| k_index := f (k_index self) |>.
Definition with_db self (write : CacheDatabaseAdapter Dec -> bool) : outcome CacheError unit :=
  match k_database self with
  | Some db => err_if (negb (write db)) DatabaseError
  | None => Ok tt
  end.
(** Sequence a method after another on the state it leaves. *)
Definition then_ {A B} (r : C * outcome CacheError A) (k : C -> A -> C * outcome CacheError B)
  : C * outcome CacheError B :=
  match r with
  | (self, Ok a) => k self a
  | (self, Err e) => (self, Err e)
  | (self, Panic) => (self, Panic)
  end.
(** The optional key of a multi-map. *)
Definition mm_insert_opt {K} `{Countable K} (k : option K) (v : string)
  (m : gmap K (gset string)) : gmap K (gset string) :=
  match k with Some k => mm_insert k v m | None => m end.
Definition mm_remove_opt {K} `{Countable K} (k : option K) (v : string)
  (m : gmap K (gset string)) : gmap K (gset string) :=
  match k with Some k => mm_remove k v m | None => m end.
Definition insert_if (b : bool) (v : string) (s : gset string) : gset string :=
  if b then {[v]} ∪ s else s.
Definition set_member (b : bool) (v : string) (s : gset string) : gset string :=
  if b then {[v]} ∪ s else s ∖ {[v]}.

(** *** Construction, clearing *)
Definition cache_new (database : option (CacheDatabaseAdapter Dec)) : C :=
  mkCache Dec index_default database ∅ ∅ ∅ ∅ ∅ ∅.
Definition clear_index self : C := on_index index_clear self.
Definition cache_reset self : C :=
  clear_index (self <| k_own_books := ∅ |> <| k_accounts := ∅ |> <| k_orders := ∅ |>
                    <| k_order_lists := ∅ |> <| k_positions := ∅ |>
                    <| k_position_snapshots := ∅ |>).

(** *** Accounts *)
Definition account_id_of (account : AccountAny Dec) : AccountId := ba_id (account_base account).

Definition add_account self (account : AccountAny Dec) : C * outcome CacheError unit :=
  then_ (self, with_db self (fun db => db_add_account db account)) (fun self _ =>
  let account_id := account_id_of account in
  let self := self <| k_accounts := <[account_id := account]> (k_accounts self) |> in
  then_ (self, get_issuer account_id) (fun self issuer =>
  (on_index (fun i => i <| x_venue_account := <[issuer := account_id]> (x_venue_account i) |>) self,
   Ok tt))).

Definition update_account self (account : AccountAny Dec) : C * outcome CacheError unit :=
  let self := self <| k_accounts := <[account_id_of account := account]> (k_accounts self) |> in
  (self, with_db self (fun db => db_update_account db account)).

Definition take_account self (account_id : AccountId) : C * option (AccountAny Dec) :=
  (self <| k_accounts := delete account_id (k_accounts self) |>, k_accounts self !! account_id).

Definition cache_account_owned self (account : AccountAny Dec) : C * outcome CacheError unit :=
  let account_id := account_id_of account in
  then_ (self, get_issuer account_id) (fun self issuer =>
  let self := on_index (fun i =>
    i <| x_venue_account := <[issuer := account_id]> (x_venue_account i) |>) self in
  (self <| k_accounts := <[account_id := account]> (k_accounts self) |>, Ok tt)).

Definition update_account_owned self (account : AccountAny Dec) : C * outcome CacheError unit :=
  then_ (cache_account_owned self account) (fun self _ =>
  (self, with_db self (fun db => db_update_account db account))).

(** [update_account_state]: an unknown account is created from the event. *)
Definition update_account_state self (event : AccountState) : C * outcome CacheError unit :=
  match k_accounts self !! as_account_id event with
  | None =>
      match account_from_events [event] with
      | Ok account => add_account self account
      | Err _ => (self, Err CacheAccountError)
      | Panic => (self, Panic)
      end
  | Some account =>
      match account_apply account event with
      | Ok account =>
          let self :=
            self <| k_accounts := <[as_account_id event := account]> (k_accounts self) |> in
          (self, with_db self (fun db => db_update_account db account))
      | Err _ => (self, Err CacheAccountError)
      | Panic => (self, Panic)
      end
  end.

Definition account_for_venue self (venue : Venue) : option (AccountAny Dec) :=
  account_id ← x_venue_account (k_index self) !! venue; k_accounts self !! account_id.

(** *** Own order books *)
Definition put_own_book self (i : InstrumentId) (book : OwnOrderBook) : C :=
  self <| k_own_books := <[i := book]> (k_own_books self) |>.

(** [update_own_order_book]: a failed update inserts instead; the error of a
    deletion is logged. *)
Definition update_own_order_book {E} self order : outcome E C :=
  if negb (any_has_price order) then Ok self
  else
    let core := any_core order in
    let instrument_id := o_instrument_id core in
    match k_own_books self !! instrument_id, is_closed core with
    | None, true => Ok self
    | found, closed =>
        let own_book := default (own_new instrument_id) found in
        o ← to_own_book_order order;
        if closed then
          match own_delete own_book o with
          | Ok own_book => Ok (put_own_book self instrument_id own_book)
          | Err _ => Ok self
          | Panic => Panic
          end
        else
          match own_update own_book o with
          | Ok own_book => Ok (put_own_book self instrument_id own_book)
          | Err _ =>
              own_book ← own_add own_book o;
              Ok (put_own_book self instrument_id own_book)
          | Panic => Panic
          end
    end.

Definition audit_own_order_books {E} self : outcome E C :=
  let valid := elements (x_orders_open (k_index self) ∪ x_orders_inflight (k_index self)) in
  books ← map_fold (fun i book (acc : outcome E (gmap InstrumentId OwnOrderBook)) =>
            acc ← acc; book ← audit_open_orders book valid; Ok (<[i := book]> acc))
          (Ok (k_own_books self)) (k_own_books self);
  Ok (self <| k_own_books := books |>).

Definition force_remove_from_own_order_book {E} self (id : ClientOrderId) : outcome E C :=
  match k_orders self !! id with
  | None => Ok self
  | Some order =>
      let instrument_id := o_instrument_id (any_core order) in
      own_book_order ← (if any_has_price order then Some <$> to_own_book_order order else Ok None);
      let self := on_index (fun i =>
        i <| x_orders_open := x_orders_open i ∖ {[id]} |>
          <| x_orders_pending_cancel := x_orders_pending_cancel i ∖ {[id]} |>
          <| x_orders_inflight := x_orders_inflight i ∖ {[id]} |>
          <| x_orders_emulated := x_orders_emulated i ∖ {[id]} |>
          <| x_orders_active_local := x_orders_active_local i ∖ {[id]} |>) self in
      self ← match k_own_books self !! instrument_id, own_book_order with
             | Some own_book, Some o =>
                 match own_delete own_book o with
                 | Ok own_book => Ok (put_own_book self instrument_id own_book)
                 | Err _ => Ok self
                 | Panic => Panic
                 end
             | _, _ => Ok self
             end;
      Ok (on_index (fun i => i <| x_orders_closed := {[id]} ∪ x_orders_closed i |>) self)
  end.

(** *** Adding orders and positions *)
Definition add_venue_order_id self (id : ClientOrderId) (vid : VenueOrderId) (overwrite : bool)
  : C * outcome CacheError unit :=
  let index_it := on_index (fun i =>
    i <| x_client_order_ids := <[id := vid]> (x_client_order_ids i) |>
      <| x_venue_order_ids := <[vid := id]> (x_venue_order_ids i) |>) self in
  match x_client_order_ids (k_index self) !! id with
  | Some existing =>
      if negb overwrite && negb (bool_decide (existing = vid))
      then (self, Err (VenueOrderIdConflict existing)) else (index_it, Ok tt)
  | None => (index_it, Ok tt)
  end.

Definition add_position_id self (position_id : PositionId) (venue : Venue) (id : ClientOrderId)
  (strategy_id : StrategyId) : C * outcome CacheError unit :=
  let self := on_index (fun i =>
    i <| x_order_position := <[id := position_id]> (x_order_position i) |>) self in
  then_ (self, with_db self (fun db => db_index_order_position db id position_id)) (fun self _ =>
  (on_index (fun i =>
     i <| x_position_strategy := <[position_id := strategy_id]> (x_position_strategy i) |>
       <| x_position_orders := mm_insert position_id id (x_position_orders i) |>
       <| x_strategy_positions := mm_insert strategy_id position_id (x_strategy_positions i) |>
       <| x_venue_positions := mm_insert venue position_id (x_venue_positions i) |>) self,
   Ok tt)).

(** The index entries [add_order] makes before the position and client ids. *)
Definition index_new_order order (i : CacheIndex) : CacheIndex :=
  let core := any_core order in
  let id := o_client_order_id core in
  let strategy_id := o_strategy_id core in
  i <| x_orders := {[id]} ∪ x_orders i |>
    <| x_orders_active_local := insert_if (is_active_local core) id (x_orders_active_local i) |>
    <| x_order_strategy := <[id := strategy_id]> (x_order_strategy i) |>
    <| x_strategies := {[strategy_id]} ∪ x_strategies i |>
    <| x_venue_orders := mm_insert (any_venue order) id (x_venue_orders i) |>
    <| x_instrument_orders := mm_insert (o_instrument_id core) id (x_instrument_orders i) |>
    <| x_strategy_orders := mm_insert strategy_id id (x_strategy_orders i) |>
    <| x_account_orders := mm_insert_opt (o_account_id core) id (x_account_orders i) |>
    <| x_exec_algorithms :=
         match o_exec_algorithm_id core with
         | Some a => {[a]} ∪ x_exec_algorithms i | None => x_exec_algorithms i end |>
    <| x_exec_algorithm_orders :=
         mm_insert_opt (o_exec_algorithm_id core) id (x_exec_algorithm_orders i) |>
    <| x_exec_spawn_orders := mm_insert_opt (o_exec_spawn_id core) id (x_exec_spawn_orders i) |>
    <| x_orders_emulated := insert_if (has_emulation_trigger core) id (x_orders_emulated i) |>.

Definition cache_add_order self order (position_id : option PositionId) (client_id : option ClientId)
  (replace_existing : bool) : C * outcome CacheError unit :=
  let id := any_id order in
  if negb replace_existing && bool_decide (is_Some (k_orders self !! id))
  then (self, Err (CacheKey KeyPresent))
  else
    let self := on_index (index_new_order order) self in
    then_ (match position_id with
           | Some position_id =>
               add_position_id self position_id (any_venue order) id
                 (o_strategy_id (any_core order))
           | None => (self, Ok tt)
           end) (fun self _ =>
    let self := match client_id with
                | Some client_id => on_index (fun i =>
                    i <| x_order_client := <[id := client_id]> (x_order_client i) |>) self
                | None => self
                end in
    then_ (self, with_db self (fun db => db_add_order db order client_id)) (fun self _ =>
    (self <| k_orders := <[id := order]> (k_orders self) |>, Ok tt))).

Definition add_order_list self (order_list : OrderList) : C * outcome CacheError unit :=
  if bool_decide (is_Some (k_order_lists self !! li_id order_list))
  then (self, Err (CacheKey KeyPresent))
  else (self <| k_order_lists := <[li_id order_list := order_list]> (k_order_lists self) |>, Ok tt).

Definition add_position self position : C * outcome CacheError unit :=
  let id := pp_id position in
  let self := self <| k_positions := <[id := position]> (k_positions self) |> in
  let self := on_index (fun i =>
    i <| x_positions := {[id]} ∪ x_positions i |>
      <| x_positions_open := {[id]} ∪ x_positions_open i |>
      <| x_positions_closed := x_positions_closed i ∖ {[id]} |>) self in
  let venue := i_venue (pp_instrument_id position) in
  then_ (add_position_id self id venue (pp_opening_order_id position) (pp_strategy_id position))
    (fun self _ =>
  let self := on_index (fun i =>
    i <| x_venue_positions := mm_insert venue id (x_venue_positions i) |>
      <| x_instrument_positions :=
           mm_insert (pp_instrument_id position) id (x_instrument_positions i) |>
      <| x_account_positions := mm_insert (pp_account_id position) id (x_account_positions i) |>)
    self in
  (self, with_db self (fun db => db_add_position db position))).

(** *** Updates *)

(** The index part of [refresh_order] that reads the order's state only. *)
Definition refresh_index order (i : CacheIndex) : CacheIndex :=
  let core := any_core order in
  let id := o_client_order_id core in
  let i := i <| x_orders_inflight := set_member (is_inflight core) id (x_orders_inflight i) |> in
  let i :=
    if is_open core then
      i <| x_orders_closed := x_orders_closed i ∖ {[id]} |>
        <| x_orders_open := {[id]} ∪ x_orders_open i |>
    else if is_closed core then
      i <| x_orders_open := x_orders_open i ∖ {[id]} |>
        <| x_orders_pending_cancel := x_orders_pending_cancel i ∖ {[id]} |>
        <| x_orders_closed := {[id]} ∪ x_orders_closed i |>
    else i in
  let i := i <| x_orders_emulated :=
    set_member (has_emulation_trigger core && negb (is_closed core)) id (x_orders_emulated i) |> in
  i <| x_account_orders := mm_insert_opt (o_account_id core) id (x_account_orders i) |>.

(** A venue order id that is not indexed yet is; an error is logged. *)
Definition refresh_venue_order_id {E} self order : outcome E C :=
  match o_venue_order_id (any_core order) with
  | None => Ok self
  | Some vid =>
      if bool_decide (is_Some (x_venue_order_ids (k_index self) !! vid)) then Ok self
      else
        ev ← last_event (any_core order);
        let overwrite := match ev with EvUpdated _ => true | _ => false end in
        Ok (add_venue_order_id self (any_id order) vid overwrite).1
  end.

Definition refresh_own_book {E} self order : outcome E C :=
  if bool_decide (k_own_books self = ∅) then Ok self
  else if (bool_decide (is_Some (k_own_books self !! o_instrument_id (any_core order)))
           && is_closed (any_core order)) || should_handle_own_book_order order
  then update_own_order_book self order
  else Ok self.

Definition refresh_order self order : C * outcome CacheError unit :=
  let core := any_core order in
  let self := on_index (fun i =>
    i <| x_orders_active_local :=
           set_member (is_active_local core) (o_client_order_id core) (x_orders_active_local i) |>)
    self in
  match refresh_venue_order_id self order with
  | Ok self =>
      let self := on_index (refresh_index order) self in
      match refresh_own_book self order with
      | Ok self =>
          match k_database self with
          | Some db =>
              match last_event core with
              | Ok ev => (self, with_db self (fun db => db_update_order db ev))
              | Err e => (self, Err e)
              | Panic => (self, Panic)
              end
          | None => (self, Ok tt)
          end
      | Err e => (self, Err e)
      | Panic => (self, Panic)
      end
  | Err e => (self, Err e)
  | Panic => (self, Panic)
  end.

Definition replace_order self order : C * outcome CacheError unit :=
  then_ (refresh_order self order) (fun self _ =>
  (self <| k_orders := <[any_id order := order]> (k_orders self) |>, Ok tt)).

Definition cache_order_exists self (id : ClientOrderId) : bool := bool_decide (id ∈ x_orders (k_index self)).

(** The client order id an event is for: its own, or the one its venue order id
    is indexed under. *)
Definition resolve_event self (event : Event) : outcome CacheError ClientOrderId :=
  let event_id := event_client_order_id event in
  if cache_order_exists self event_id then Ok event_id
  else match event_venue_order_id event with
       | Some vid => ok_or (x_venue_order_ids (k_index self) !! vid) (CacheOrderError (NotFound event_id))
       | None => Err (CacheOrderError (NotFound event_id))
       end.

(** [update_order]: the event is applied to a snapshot, which is stored on
    success only; an error of the refresh is logged. *)
Definition update_order self (event : Event) : C * outcome CacheError (OrderAny Dec) :=
  then_ (self, resolve_event self event) (fun self id =>
  then_ (self, ok_or (k_orders self !! id) (CacheOrderError (NotFound id))) (fun self order =>
  match any_apply order event with
  | (snapshot, Ok _) =>
      let self := self <| k_orders := <[id := snapshot]> (k_orders self) |> in
      match refresh_order self snapshot with
      | (self, Panic) => (self, Panic)
      | (self, _) => (self, Ok snapshot)
      end
  | (_, Err e) => (self, Err (CacheOrderError e))
  | (_, Panic) => (self, Panic)
  end)).

Definition update_order_pending_cancel_local self order : C :=
  on_index (fun i =>
    i <| x_orders_pending_cancel := {[any_id order]} ∪ x_orders_pending_cancel i |>) self.

Definition update_position self position : C * outcome CacheError unit :=
  let id := pp_id position in
  let opened := position_is_open position in
  let self := on_index (fun i =>
    i <| x_positions_open := set_member opened id (x_positions_open i) |>
      <| x_positions_closed := set_member (negb opened) id (x_positions_closed i) |>) self in
  then_ (self, with_db self (fun db => db_update_position db position)) (fun self _ =>
  (self <| k_positions := <[id := position]> (k_positions self) |>, Ok tt)).

(** [assign_position_ids_to_contingencies]: the assignments are collected first. *)
Definition contingent_assignments self : list (PositionId * ClientOrderId) :=
  kv ← iter_map (k_orders self);
  let parent := any_core kv.2 in
  match o_contingency_type parent, o_position_id parent, o_linked_order_ids parent with
  | Some Oto, Some position_id, Some linked =>
      id ← linked;
      match k_orders self !! id with
      | Some child =>
          if bool_decide (o_position_id (any_core child) = None) then [(position_id, id)] else []
      | None => []
      end
  | _, _, _ => []
  end.
Definition assign_position_id self (a : PositionId * ClientOrderId) : C :=
  let '(position_id, id) := a in
  match k_orders self !! id with
  | None => self
  | Some child =>
      let child := any_set_position_id child (Some position_id) in
      let strategy_id := o_strategy_id (any_core child) in
      on_index (fun i =>
        i <| x_order_position := <[id := position_id]> (x_order_position i) |>
          <| x_position_strategy := <[position_id := strategy_id]> (x_position_strategy i) |>
          <| x_position_orders := mm_insert position_id id (x_position_orders i) |>
          <| x_strategy_positions := mm_insert strategy_id position_id (x_strategy_positions i) |>
          <| x_venue_positions := mm_insert (any_venue child) position_id (x_venue_positions i) |>)
        (self <| k_orders := <[id := child]> (k_orders self) |>)
  end.
Definition assign_position_ids_to_contingencies self : C :=
  foldl assign_position_id self (contingent_assignments self).

(** *** Purging *)

(** The clean-up with the purged order at hand. *)
Definition unindex_order (id : ClientOrderId) order (i : CacheIndex) : CacheIndex :=
  let core := any_core order in
  i <| x_venue_orders := mm_remove (any_venue order) id (x_venue_orders i) |>
    <| x_venue_order_ids :=
         match o_venue_order_id core with
         | Some vid => delete vid (x_venue_order_ids i) | None => x_venue_order_ids i end |>
    <| x_instrument_orders := mm_remove (o_instrument_id core) id (x_instrument_orders i) |>
    <| x_position_orders := mm_remove_opt (o_position_id core) id (x_position_orders i) |>
    <| x_exec_algorithm_orders :=
         mm_remove_opt (o_exec_algorithm_id core) id (x_exec_algorithm_orders i) |>
    <| x_strategy_orders := mm_remove (o_strategy_id core) id (x_strategy_orders i) |>
    <| x_account_orders := mm_remove_opt (o_account_id core) id (x_account_orders i) |>
    <| x_exec_spawn_orders := mm_remove_opt (o_exec_spawn_id core) id (x_exec_spawn_orders i) |>.

(** The clean-up that always runs. *)
Definition unindex_order_id (id : ClientOrderId) (i : CacheIndex) : CacheIndex :=
  i <| x_order_position := delete id (x_order_position i) |>
    <| x_order_strategy := delete id (x_order_strategy i) |>
    <| x_order_client := delete id (x_order_client i) |>
    <| x_client_order_ids := delete id (x_client_order_ids i) |>
    <| x_strategy_orders := mm_remove_opt (x_order_strategy i !! id) id (x_strategy_orders i) |>
    <| x_exec_spawn_orders := delete id (x_exec_spawn_orders i) |>
    <| x_orders := x_orders i ∖ {[id]} |>
    <| x_orders_active_local := x_orders_active_local i ∖ {[id]} |>
    <| x_orders_open := x_orders_open i ∖ {[id]} |>
    <| x_orders_closed := x_orders_closed i ∖ {[id]} |>
    <| x_orders_emulated := x_orders_emulated i ∖ {[id]} |>
    <| x_orders_inflight := x_orders_inflight i ∖ {[id]} |>
    <| x_orders_pending_cancel := x_orders_pending_cancel i ∖ {[id]} |>.

Definition purge_order self (id : ClientOrderId) : C :=
  match k_orders self !! id with
  | Some order =>
      if is_open (any_core order) then self
      else on_index (unindex_order_id id)
             (on_index (unindex_order id order)
                (self <| k_orders := delete id (k_orders self) |>))
  | None => on_index (unindex_order_id id) self
  end.

Definition unindex_position (id : PositionId) position (i : CacheIndex) : CacheIndex :=
  i <| x_venue_positions := mm_remove (i_venue (pp_instrument_id position)) id (x_venue_positions i) |>
    <| x_instrument_positions := mm_remove (pp_instrument_id position) id (x_instrument_positions i) |>
    <| x_strategy_positions := mm_remove (pp_strategy_id position) id (x_strategy_positions i) |>
    <| x_account_positions := mm_remove (pp_account_id position) id (x_account_positions i) |>
    <| x_order_position :=
         foldr delete (x_order_position i) (position_client_order_ids position) |>.
Definition unindex_position_id (id : PositionId) (i : CacheIndex) : CacheIndex :=
  i <| x_position_strategy := delete id (x_position_strategy i) |>
    <| x_position_orders := delete id (x_position_orders i) |>
    <| x_positions := x_positions i ∖ {[id]} |>
    <| x_positions_open := x_positions_open i ∖ {[id]} |>
    <| x_positions_closed := x_positions_closed i ∖ {[id]} |>.
Definition purge_position self (id : PositionId) : C :=
  let always self :=
    on_index (unindex_position_id id)
      (self <| k_position_snapshots := delete id (k_position_snapshots self) |>) in
  match k_positions self !! id with
  | Some position =>
      if position_is_open position then self
      else always (on_index (unindex_position id position)
                     (self <| k_positions := delete id (k_positions self) |>))
  | None => always self
  end.

(** The purge target of [purge_closed_orders], if the order qualifies. *)
Definition purge_target {E} self (ts_now buffer_ns : Z) (id : ClientOrderId)
  : outcome E (option (option (list ClientOrderId) * option OrderListId)) :=
  match k_orders self !! id with
  | None => Ok None
  | Some order =>
      let core := any_core order in
      match is_closed core, o_ts_closed core with
      | true, Some ts_closed =>
          due ← unix_add ts_closed buffer_ns;
          Ok (if due <=? ts_now then Some (o_linked_order_ids core, o_order_list_id core) else None)
      | _, _ => Ok None
      end
  end.
Definition linked_open self (linked : option (list ClientOrderId)) : bool :=
  existsb (fun id => match k_orders self !! id with
                     | Some order => is_open (any_core order) | None => false end)
    (default [] linked).
Fixpoint purge_orders_loop {E} (ts_now buffer_ns : Z) (ids : list ClientOrderId) self
  (affected : list OrderListId) : outcome E (C * list OrderListId) :=
  match ids with
  | [] => Ok (self, affected)
  | id :: ids =>
      target ← purge_target self ts_now buffer_ns id;
      match target with
      | None => purge_orders_loop ts_now buffer_ns ids self affected
      | Some (linked, order_list_id) =>
          if linked_open self linked then purge_orders_loop ts_now buffer_ns ids self affected
          else purge_orders_loop ts_now buffer_ns ids (purge_order self id)
                 (match order_list_id with Some l => l :: affected | None => affected end)
      end
  end.
Definition drop_order_list self (id : OrderListId) : C :=
  match k_order_lists self !! id with
  | Some order_list =>
      if forallb (fun id => bool_decide (k_orders self !! id = None)) (li_client_order_ids order_list)
      then self <| k_order_lists := delete id (k_order_lists self) |> else self
  | None => self
  end.
Definition purge_closed_orders {E} self (ts_now buffer_secs : Z) : outcome E C :=
  buffer_ns ← secs_to_nanos_unchecked (F64.of_Z buffer_secs);
  '(self, affected) ←
    purge_orders_loop ts_now buffer_ns (iter_set (x_orders_closed (k_index self))) self [];
  Ok (foldl drop_order_list self (iter_set (list_to_set affected : gset string))).

Definition position_due {E} (ts_now buffer_ns : Z) (id : PositionId) self : outcome E bool :=
  match k_positions self !! id with
  | Some position =>
      match position_is_closed position, pp_ts_closed position with
      | true, Some ts_closed => due ← unix_add ts_closed buffer_ns; Ok (due <=? ts_now)
      | _, _ => Ok false
      end
  | None => Ok false
  end.
Fixpoint purge_positions_loop {E} (ts_now buffer_ns : Z) (ids : list PositionId) self
  : outcome E C :=
  match ids with
  | [] => Ok self
  | id :: ids =>
      should_purge ← position_due ts_now buffer_ns id self;
      purge_positions_loop ts_now buffer_ns ids (if should_purge : bool then purge_position self id else self)
  end.
Definition purge_closed_positions {E} self (ts_now buffer_secs : Z) : outcome E C :=
  buffer_ns ← secs_to_nanos_unchecked (F64.of_Z buffer_secs);
  purge_positions_loop ts_now buffer_ns (iter_set (x_positions_closed (k_index self))) self.
End Cache.
