(* ===== verification/CacheQuery.v ===== *)
(** * Queries of the cache ([crates/common/src/cache/mod.rs])

    The filtered queries over the index: sets and lists of identifiers, counts,
    existence tests and the sorted lists of orders and positions; the
    execution-algorithm and order-list queries.  A query for an identifier the
    index knows and the store does not panics, as the code does. *)

From stdpp Require Import base numbers list strings gmap sorting.
From Stdlib Require Import ZArith Lia.
From S2P Require Import Prelude F64 Fixed Price Quantity Money Enums OrderEvents OrderCore Orders Own Position Account CacheIndex Cache.

(** The order of identifiers: a total order ([ClientOrderId: Ord]). *)
Class IdOrd : Type := {
  id_leb : string -> string -> bool;
  id_leb_total x y : id_leb x y = true \/ id_leb y x = true;
  id_leb_trans x y z : id_leb x y = true -> id_leb y z = true -> id_leb x z = true;
  id_leb_antisym x y : id_leb x y = true -> id_leb y x = true -> x = y;
}.

Section Query.
Context `{M : Mode} {Dec : Type} `{HI : HashIter} `{IO : IdOrd}.
Abbreviation C := (Cache Dec).
Implicit Types (self : C).

(** One optional filter: absent, unknown to the index, or a source set. *)
Definition push_source {K} `{Countable K} (k : option K) (m : gmap K (gset string))
  (sources : option (list (gset string))) : option (list (gset string)) :=
  sources ← sources;
  match k with
  | None => Some sources
  | Some k => s ← m !! k; Some (sources ++ [s])
  end.
Definition filter_sources (sources : option (list (gset string))) : FilterSources :=
  match sources with
  | None => FilterEmpty
  | Some [] => Unfiltered
  | Some sources => Sets sources
  end.

Section Filtered.
Variables (venue : option Venue) (instrument_id : option InstrumentId)
  (strategy_id : option StrategyId) (account_id : option AccountId).

Definition collect_order_filter_sources self : FilterSources :=
  let i := k_index self in
  filter_sources
    (push_source account_id (x_account_orders i)
    (push_source strategy_id (x_strategy_orders i)
    (push_source instrument_id (x_instrument_orders i)
    (push_source venue (x_venue_orders i) (Some []))))).
Definition collect_position_filter_sources self : FilterSources :=
  let i := k_index self in
  filter_sources
    (push_source account_id (x_account_positions i)
    (push_source strategy_id (x_strategy_positions i)
    (push_source instrument_id (x_instrument_positions i)
    (push_source venue (x_venue_positions i) (Some []))))).

(** *** The bucket queries, on resolved sources *)
Definition query_in_bucket {E} (sources : FilterSources) (bucket : gset string)
  : outcome E (gset string) :=
  match sources with
  | FilterEmpty => Ok ∅
  | Unfiltered => Ok bucket
  | Sets sources => intersect_pair_or_many bucket sources
  end.
Definition iter_in_bucket (sources : FilterSources) (bucket : gset string) : list string :=
  match sources with
  | FilterEmpty => []
  | Unfiltered => iter_set bucket
  | Sets sources => drive (sources ++ [bucket])
  end.
(** [no_side]: the side filter is [NoOrderSide] or [NoPositionSide]. *)
Definition count_in_bucket (sources : FilterSources) (bucket : gset string) (no_side : bool)
  (side_matches : string -> bool) : nat :=
  match sources with
  | FilterEmpty => 0%nat
  | Unfiltered =>
      if no_side then size bucket
      else length (filter (fun id => side_matches id = true) (iter_set bucket))
  | Sets sources =>
      length (filter (fun id => (no_side || side_matches id) = true) (drive (sources ++ [bucket])))
  end.
Definition any_in_bucket (sources : FilterSources) (bucket : gset string) (no_side : bool)
  (side_matches : string -> bool) : bool :=
  match sources with
  | FilterEmpty => false
  | Unfiltered =>
      if no_side then negb (bool_decide (bucket = ∅))
      else existsb side_matches (iter_set bucket)
  | Sets sources => existsb (fun id => no_side || side_matches id) (drive (sources ++ [bucket]))
  end.

(** *** Orders *)
Definition order_side_matches self (side : OrderSide) (id : ClientOrderId) : bool :=
  match k_orders self !! id with
  | Some order => bool_decide (o_side (any_core order) = side)
  | None => false
  end.
Definition query_orders_in_bucket {E} self bucket : outcome E (gset ClientOrderId) :=
  query_in_bucket (collect_order_filter_sources self) bucket.
Definition iter_orders_in_bucket self bucket : list ClientOrderId :=
  iter_in_bucket (collect_order_filter_sources self) bucket.
Definition count_orders_in_bucket self bucket (side : option OrderSide) : nat :=
  let side := default NoOrderSide side in
  count_in_bucket (collect_order_filter_sources self) bucket
    (bool_decide (side = NoOrderSide)) (order_side_matches self side).
Definition any_orders_in_bucket self bucket (side : option OrderSide) : bool :=
  let side := default NoOrderSide side in
  any_in_bucket (collect_order_filter_sources self) bucket
    (bool_decide (side = NoOrderSide)) (order_side_matches self side).

(** *** Positions *)
Definition position_side_matches self (side : PositionSide) (id : PositionId) : bool :=
  match k_positions self !! id with
  | Some position => bool_decide (pp_side position = side)
  | None => false
  end.
Definition query_positions_in_bucket {E} self bucket : outcome E (gset PositionId) :=
  query_in_bucket (collect_position_filter_sources self) bucket.
Definition iter_positions_in_bucket self bucket : list PositionId :=
  iter_in_bucket (collect_position_filter_sources self) bucket.
Definition count_positions_in_bucket self bucket (side : option PositionSide) : nat :=
  let side := default NoPositionSide side in
  count_in_bucket (collect_position_filter_sources self) bucket
    (bool_decide (side = NoPositionSide)) (position_side_matches self side).
Definition any_positions_in_bucket self bucket (side : option PositionSide) : bool :=
  let side := default NoPositionSide side in
  any_in_bucket (collect_position_filter_sources self) bucket
    (bool_decide (side = NoPositionSide)) (position_side_matches self side).
End Filtered.

(** *** Materialised lists *)

(** Look every identifier up, keep what the side filter keeps, sort by key. *)
Fixpoint collect_ids {E A} (lookup_ : string -> option A) (keep : A -> bool) (ids : list string)
  : outcome E (list A) :=
  match ids with
  | [] => Ok []
  | id :: ids =>
      a ← expect (lookup_ id);
      rest ← collect_ids lookup_ keep ids;
      Ok (if keep a then a :: rest else rest)
  end.
Definition key_le {A} (key : A -> string) (a b : A) : Prop := id_leb (key a) (key b) = true.
#[export] Instance key_le_dec {A} (key : A -> string) a b : Decision (key_le key a b).
Proof. unfold key_le. apply _. Defined.
Definition sort_by_id {A} (key : A -> string) (l : list A) : list A := merge_sort (key_le key) l.

Definition get_orders_for_ids {E} self (ids : gset ClientOrderId) (side : option OrderSide)
  : outcome E (list (OrderAny Dec)) :=
  let side := default NoOrderSide side in
  orders ← collect_ids (fun id => k_orders self !! id)
             (fun o => bool_decide (side = NoOrderSide) || bool_decide (side = o_side (any_core o)))
             (iter_set ids);
  Ok (sort_by_id any_id orders).
Definition get_positions_for_ids {E} self (ids : gset PositionId) (side : option PositionSide)
  : outcome E (list (Position Dec)) :=
  let side := default NoPositionSide side in
  positions ← collect_ids (fun id => k_positions self !! id)
                (fun p => bool_decide (side = NoPositionSide) || bool_decide (side = pp_side p))
                (iter_set ids);
  Ok (sort_by_id pp_id positions).

Section Public.
Variables (venue : option Venue) (instrument_id : option InstrumentId)
  (strategy_id : option StrategyId) (account_id : option AccountId).

(** The bucket of each family of queries. *)
Inductive Bucket : Type := BAll | BActiveLocal | BOpen | BClosed | BEmulated | BInflight.
Definition bucket_of self (b : Bucket) : gset ClientOrderId :=
  let i := k_index self in
  match b with
  | BAll => x_orders i | BActiveLocal => x_orders_active_local i | BOpen => x_orders_open i
  | BClosed => x_orders_closed i | BEmulated => x_orders_emulated i
  | BInflight => x_orders_inflight i
  end.

(** [client_order_ids*], [iter_client_order_ids*], [orders*], [orders_*_count]
    and [cache_has_orders*], for the bucket in the name. *)
Definition client_order_ids {E} self (b : Bucket) : outcome E (gset ClientOrderId) :=
  query_orders_in_bucket venue instrument_id strategy_id account_id self (bucket_of self b).
Definition iter_client_order_ids self (b : Bucket) : list ClientOrderId :=
  iter_orders_in_bucket venue instrument_id strategy_id account_id self (bucket_of self b).
Definition orders {E} self (b : Bucket) (side : option OrderSide)
  : outcome E (list (OrderAny Dec)) :=
  ids ← client_order_ids self b; get_orders_for_ids self ids side.
Definition orders_count self (b : Bucket) (side : option OrderSide) : nat :=
  count_orders_in_bucket venue instrument_id strategy_id account_id self (bucket_of self b) side.
Definition cache_has_orders self (b : Bucket) (side : option OrderSide) : bool :=
  any_orders_in_bucket venue instrument_id strategy_id account_id self (bucket_of self b) side.

Inductive PositionBucket : Type := PAll | POpen | PClosed.
Definition position_bucket self (b : PositionBucket) : gset PositionId :=
  let i := k_index self in
  match b with
  | PAll => x_positions i | POpen => x_positions_open i | PClosed => x_positions_closed i
  end.
Definition position_ids {E} self (b : PositionBucket) : outcome E (gset PositionId) :=
  query_positions_in_bucket venue instrument_id strategy_id account_id self
    (position_bucket self b).
Definition positions {E} self (b : PositionBucket) (side : option PositionSide)
  : outcome E (list (Position Dec)) :=
  ids ← position_ids self b; get_positions_for_ids self ids side.
Definition positions_count self (b : PositionBucket) (side : option PositionSide) : nat :=
  count_positions_in_bucket venue instrument_id strategy_id account_id self
    (position_bucket self b) side.
Definition has_positions self (b : PositionBucket) (side : option PositionSide) : bool :=
  any_positions_in_bucket venue instrument_id strategy_id account_id self
    (position_bucket self b) side.

Definition orders_for_exec_algorithm {E} self (exec_algorithm_id : ExecAlgorithmId)
  (side : option OrderSide) : outcome E (list (OrderAny Dec)) :=
  match x_exec_algorithm_orders (k_index self) !! exec_algorithm_id with
  | None => Ok []
  | Some ids =>
      filtered ← query_orders_in_bucket venue instrument_id strategy_id account_id self ids;
      get_orders_for_ids self filtered side
  end.

(** [order_lists]: four [retain]s in turn; any order of the lists. *)
Definition order_lists self : list OrderList :=
  let order_account id := o_account_id ∘ any_core <$> (k_orders self !! id) in
  let keep ol :=
    match venue with Some v => bool_decide (i_venue (li_instrument_id ol) = v) | None => true end
    && match instrument_id with
       | Some i => bool_decide (li_instrument_id ol = i) | None => true end
    && match strategy_id with
       | Some s => bool_decide (li_strategy_id ol = s) | None => true end
    && match account_id with
       | Some a => existsb (fun id => bool_decide (order_account id = Some (Some a)))
                     (li_client_order_ids ol)
       | None => true
       end in
  filter (fun ol => keep ol = true) (snd <$> iter_map (k_order_lists self)).
End Public.

Definition check_residuals {E} self : outcome E bool :=
  open_orders ← orders None None None None self BOpen None;
  open_positions ← positions None None None None self POpen None;
  Ok (negb (bool_decide (length open_orders = 0%nat))
      || negb (bool_decide (length open_positions = 0%nat))).

Definition orders_for_position {E} self (id : PositionId) : outcome E (list (OrderAny Dec)) :=
  match x_position_orders (k_index self) !! id with
  | Some ids => get_orders_for_ids self ids None
  | None => Ok []
  end.
Definition position_for_order self (id : ClientOrderId) : option (Position Dec) :=
  position_id ← x_order_position (k_index self) !! id; k_positions self !! position_id.
Definition orders_for_exec_spawn {E} self (id : ClientOrderId) : outcome E (list (OrderAny Dec)) :=
  match x_exec_spawn_orders (k_index self) !! id with
  | Some ids => get_orders_for_ids self ids None
  | None => Ok []
  end.

(** [exec_spawn_total_quantity], [.._filled_qty] and [.._leaves_qty] differ in
    the quantity they read only. *)
Definition exec_spawn_total {E} (qty : OrderCore Dec -> Quantity) self (id : ClientOrderId)
  (active_only : bool) : outcome E (option Quantity) :=
  orders ← orders_for_exec_spawn self id;
  foldl (fun acc order =>
    total ← acc;
    if active_only && is_closed (any_core order) then Ok total
    else match total with
         | Some total => t ← qty_add total (qty (any_core order)); Ok (Some t)
         | None => Ok (Some (qty (any_core order)))
         end) (Ok None) orders.
Definition exec_spawn_total_quantity {E} self id active_only : outcome E (option Quantity) :=
  exec_spawn_total o_quantity self id active_only.
Definition exec_spawn_total_filled_qty {E} self id active_only : outcome E (option Quantity) :=
  exec_spawn_total o_filled_qty self id active_only.
Definition exec_spawn_total_leaves_qty {E} self id active_only : outcome E (option Quantity) :=
  exec_spawn_total o_leaves_qty self id active_only.
End Query.
