(* ===== verification/CacheBuild.v ===== *)
(** * Building and checking the index ([crates/common/src/cache/mod.rs])

    [build_index] indexes what the cache holds, [check_integrity] counts the
    disagreements between the store and the index. *)

From stdpp Require Import base numbers list strings gmap.
From Stdlib Require Import ZArith Lia.
From S2P Require Import Prelude Fixed Money Enums OrderEvents OrderCore Orders Own Position Account CacheIndex Cache.

Section Build.
Context `{M : Mode} {Dec : Type} `{HI : HashIter}.
Abbreviation C := (Cache Dec).
Implicit Types (self : C).

(** *** [build_index] *)
Fixpoint index_accounts {E} (ids : list AccountId) (i : CacheIndex) : outcome E CacheIndex :=
  match ids with
  | [] => Ok i
  | id :: ids =>
      issuer ← get_issuer id;
      index_accounts ids (i <| x_venue_account := <[issuer := id]> (x_venue_account i) |>)
  end.

Definition index_order (i : CacheIndex) (kv : ClientOrderId * OrderAny Dec) : CacheIndex :=
  let '(id, order) := kv in
  let core := any_core order in
  i <| x_venue_orders := mm_insert (any_venue order) id (x_venue_orders i) |>
    <| x_venue_order_ids :=
         match o_venue_order_id core with
         | Some vid => <[vid := id]> (x_venue_order_ids i) | None => x_venue_order_ids i end |>
    <| x_order_position :=
         match o_position_id core with
         | Some pid => <[id := pid]> (x_order_position i) | None => x_order_position i end |>
    <| x_order_strategy := <[id := o_strategy_id core]> (x_order_strategy i) |>
    <| x_instrument_orders := mm_insert (o_instrument_id core) id (x_instrument_orders i) |>
    <| x_strategy_orders := mm_insert (o_strategy_id core) id (x_strategy_orders i) |>
    <| x_account_orders := mm_insert_opt (o_account_id core) id (x_account_orders i) |>
    <| x_exec_algorithm_orders :=
         mm_insert_opt (o_exec_algorithm_id core) id (x_exec_algorithm_orders i) |>
    <| x_exec_spawn_orders := mm_insert_opt (o_exec_spawn_id core) id (x_exec_spawn_orders i) |>
    <| x_orders := {[id]} ∪ x_orders i |>
    <| x_orders_active_local := insert_if (is_active_local core) id (x_orders_active_local i) |>
    <| x_orders_open := insert_if (is_open core) id (x_orders_open i) |>
    <| x_orders_closed := insert_if (is_closed core) id (x_orders_closed i) |>
    <| x_orders_emulated :=
         insert_if (has_emulation_trigger core && negb (is_closed core)) id (x_orders_emulated i) |>
    <| x_orders_inflight := insert_if (is_inflight core) id (x_orders_inflight i) |>
    <| x_strategies := {[o_strategy_id core]} ∪ x_strategies i |>
    <| x_exec_algorithms :=
         match o_exec_algorithm_id core with
         | Some a => {[a]} ∪ x_exec_algorithms i | None => x_exec_algorithms i end |>.

Definition index_position (i : CacheIndex) (kv : PositionId * Position Dec) : CacheIndex :=
  let '(id, position) := kv in
  let instrument_id := pp_instrument_id position in
  i <| x_venue_positions := mm_insert (i_venue instrument_id) id (x_venue_positions i) |>
    <| x_position_strategy := <[id := pp_strategy_id position]> (x_position_strategy i) |>
    <| x_position_orders :=
         mm_extend id (position_client_order_ids position) (x_position_orders i) |>
    <| x_instrument_positions := mm_insert instrument_id id (x_instrument_positions i) |>
    <| x_strategy_positions := mm_insert (pp_strategy_id position) id (x_strategy_positions i) |>
    <| x_account_positions := mm_insert (pp_account_id position) id (x_account_positions i) |>
    <| x_positions := {[id]} ∪ x_positions i |>
    <| x_positions_open := insert_if (position_is_open position) id (x_positions_open i) |>
    <| x_positions_closed := insert_if (position_is_closed position) id (x_positions_closed i) |>
    <| x_strategies := {[pp_strategy_id position]} ∪ x_strategies i |>.

Definition build_index {E} self : outcome E C :=
  i ← index_accounts (iter_map (k_accounts self)).*1 (k_index self);
  let i := foldl index_order i (iter_map (k_orders self)) in
  let i := foldl index_position i (iter_map (k_positions self)) in
  Ok (self <| k_index := i |>).

(** *** [check_integrity]

    The failures of each loop, in the order of the code.  The code's count is
    an [i32]; here it is unbounded. *)
Definition failures {A} (bad : A -> nat) (l : list A) : nat := foldr (fun x n => (bad x + n)%nat) 0%nat l.
Definition missing (b : bool) : nat := if b then 0%nat else 1%nat.
Definition has_key {K V} `{Countable K} (k : K) (m : gmap K V) : bool := bool_decide (is_Some (m !! k)).
Definition members {K} `{Countable K} (m : gmap K (gset string)) : list string :=
  map_to_list m ≫= fun kv => elements kv.2.

Definition account_failures {E} (i : CacheIndex) (id : AccountId) : outcome E nat :=
  issuer ← get_issuer id; Ok (missing (has_key issuer (x_venue_account i))).
Fixpoint accounts_failures {E} (i : CacheIndex) (ids : list AccountId) : outcome E nat :=
  match ids with
  | [] => Ok 0%nat
  | id :: ids => n ← account_failures i id; m ← accounts_failures i ids; Ok (n + m)%nat
  end.
Definition order_failures (i : CacheIndex) (kv : ClientOrderId * OrderAny Dec) : nat :=
  let '(id, order) := kv in
  let core := any_core order in
  (missing (has_key id (x_order_strategy i))
   + missing (bool_decide (id ∈ x_orders i))
   + missing (negb (is_inflight core) || bool_decide (id ∈ x_orders_inflight i))
   + missing (negb (is_active_local core) || bool_decide (id ∈ x_orders_active_local i))
   + missing (negb (is_open core) || bool_decide (id ∈ x_orders_open i))
   + missing (negb (is_closed core) || bool_decide (id ∈ x_orders_closed i))
   + match o_exec_algorithm_id core with
     | Some a =>
         missing (has_key a (x_exec_algorithm_orders i))
         + missing (negb (bool_decide (o_exec_spawn_id core = None))
                    || has_key id (x_exec_spawn_orders i))
     | None => 0
     end)%nat.
Definition position_failures (i : CacheIndex) (kv : PositionId * Position Dec) : nat :=
  let '(id, position) := kv in
  (missing (has_key id (x_position_strategy i))
   + missing (has_key id (x_position_orders i))
   + missing (bool_decide (id ∈ x_positions i))
   + missing (negb (position_is_open position) || bool_decide (id ∈ x_positions_open i))
   + missing (negb (position_is_closed position) || bool_decide (id ∈ x_positions_closed i)))%nat.

Definition index_failures self : nat :=
  let i := k_index self in
  let account id := missing (has_key id (k_accounts self)) in
  let order id := missing (has_key id (k_orders self)) in
  let position id := missing (has_key id (k_positions self)) in
  (failures account (map_to_list (x_venue_account i)).*2
   + failures order (map_to_list (x_venue_order_ids i)).*2
   + failures order (map_to_list (x_client_order_ids i)).*1
   + failures order (map_to_list (x_order_position i)).*1
   + failures order (map_to_list (x_order_strategy i)).*1
   + failures position (map_to_list (x_position_strategy i)).*1
   + failures position (map_to_list (x_position_orders i)).*1
   + failures order (members (x_instrument_orders i))
   + failures (fun k => missing (has_key k (x_instrument_orders i)))
       (map_to_list (x_instrument_positions i)).*1
   + failures order (members (x_strategy_orders i))
   + failures position (members (x_strategy_positions i))
   + failures order (elements (x_orders i))
   + failures order (elements (x_orders_emulated i))
   + failures order (elements (x_orders_active_local i))
   + failures order (elements (x_orders_inflight i))
   + failures order (elements (x_orders_open i))
   + failures order (elements (x_orders_closed i))
   + failures position (elements (x_positions i))
   + failures position (elements (x_positions_open i))
   + failures position (elements (x_positions_closed i))
   + failures (fun k => missing (has_key k (x_strategy_orders i))) (elements (x_strategies i))
   + failures (fun k => missing (has_key k (x_exec_algorithm_orders i)))
       (elements (x_exec_algorithms i)))%nat.

Definition check_integrity {E} self : outcome E bool :=
  accounts ← accounts_failures (k_index self) (map_to_list (k_accounts self)).*1;
  let error_count :=
    (accounts + failures (order_failures (k_index self)) (map_to_list (k_orders self))
     + failures (position_failures (k_index self)) (map_to_list (k_positions self))
     + index_failures self)%nat in
  Ok (bool_decide (error_count = 0%nat)).
End Build.
