(* ===== verification/CacheInv.v ===== *)
(** * The index agrees with the store ([crates/common/src/cache/mod.rs])

    The invariant of the cache's order indexes, preserved by every operation on
    orders; what it says of the open, closed and in-flight sets, of the maps by
    venue, instrument, strategy, account and execution algorithm. *)

From stdpp Require Import base numbers list strings gmap.
From Stdlib Require Import ZArith Lia.
From S2P Require Import Prelude F64 Fixed Price Quantity Money Enums OrderEvents OrderCore OrderLife Orders OrderReplay Own Position Account CacheIndex Cache.

(* ------------------------------------------------------------------ *)
(** ** Exact sets and multi-maps over a store *)

Section Exact.
Context {A : Type}.
Implicit Types (os : gmap string A) (o : A) (id : string) (s : gset string).

Definition stored os (id : string) (P : A -> Prop) : Prop := exists o, os !! id = Some o /\ P o.
Definition set_exact (p : A -> bool) os s : Prop :=
  forall id, id ∈ s <-> stored os id (fun o => p o = true).
Definition mm_exact {K} `{Countable K} (key : A -> option K) os (m : gmap K (gset string)) : Prop :=
  mm_tight m /\ forall k id, id ∈ mm_get m k <-> stored os id (fun o => key o = Some k).

Lemma stored_insert os id o id' P :
  stored (<[id := o]> os) id' P <-> (id' = id /\ P o) \/ (id' <> id /\ stored os id' P).
Proof.
  unfold stored. destruct (decide (id' = id)) as [->|Hne].
  - rewrite lookup_insert_eq. naive_solver.
  - rewrite lookup_insert_ne by done. naive_solver.
Qed.

Lemma stored_delete os id id' P :
  stored (delete id os) id' P <-> id' <> id /\ stored os id' P.
Proof.
  unfold stored. destruct (decide (id' = id)) as [->|Hne].
  - rewrite lookup_delete_eq. naive_solver.
  - rewrite lookup_delete_ne by done. naive_solver.
Qed.

Lemma elem_of_set_member b v s x :
  x ∈ set_member b v s <-> (b = true /\ x = v) \/ (x ∈ s /\ x <> v).
Proof. unfold set_member. destruct b, (decide (x = v)); set_solver. Qed.

Lemma elem_of_insert_if b v s x : x ∈ insert_if b v s <-> (b = true /\ x = v) \/ x ∈ s.
Proof. unfold insert_if. destruct b; set_solver. Qed.

Lemma set_exact_empty p : set_exact p (∅ : gmap string A) ∅.
Proof. intros id. unfold stored. setoid_rewrite lookup_empty. set_solver. Qed.

Lemma set_exact_put p os s id o :
  set_exact p os s -> set_exact p (<[id := o]> os) (set_member (p o) id s).
Proof.
  intros H x. rewrite stored_insert, elem_of_set_member, (H x).
  destruct (p o); destruct (decide (x = id)) as [->|Hne]; naive_solver.
Qed.

Lemma set_exact_grow p os s id o :
  set_exact p os s -> (forall old, os !! id = Some old -> p old = true -> p o = true) ->
  set_exact p (<[id := o]> os) (insert_if (p o) id s).
Proof.
  intros H Hmon x. rewrite stored_insert, elem_of_insert_if, (H x).
  destruct (decide (x = id)) as [->|Hne]; [|naive_solver].
  split; [|naive_solver]. intros [[Hp _]|(old & Ho & Hp)]; left; eauto.
Qed.

Lemma set_exact_keep p os s id o :
  set_exact p os s -> (p o = true <-> stored os id (fun old => p old = true)) ->
  set_exact p (<[id := o]> os) s.
Proof.
  intros H Hk x. rewrite stored_insert, (H x).
  destruct (decide (x = id)) as [->|Hne]; naive_solver.
Qed.

Lemma set_exact_drop p os s id : set_exact p os s -> set_exact p (delete id os) (s ∖ {[id]}).
Proof. intros H x. rewrite stored_delete, elem_of_difference, (H x), elem_of_singleton. tauto. Qed.

(** Exact but for the ids of [X], which need only be stored. *)
Definition set_on (X : string -> bool) (p : A -> bool) os s : Prop :=
  forall id, (id ∈ s -> stored os id (fun _ => True)) /\
    (X id = false -> id ∈ s <-> stored os id (fun o => p o = true)).
Lemma stored_weaken os id (P : A -> Prop) : stored os id P -> stored os id (fun _ => True).
Proof. intros (o & Ho & _). by exists o. Qed.
Lemma set_on_empty X p : set_on X p (∅ : gmap string A) ∅.
Proof. intros id. split; [set_solver|]. intros _. apply set_exact_empty. Qed.
Lemma set_on_put X p os s id o :
  set_on X p os s -> set_on X p (<[id := o]> os) (set_member (p o) id s).
Proof.
  intros H x. destruct (H x) as [H1 H2]. rewrite !stored_insert, elem_of_set_member.
  split; [destruct (decide (x = id)); naive_solver|]. intros Hx. rewrite (H2 Hx).
  destruct (p o); destruct (decide (x = id)) as [->|Hne]; naive_solver.
Qed.
Lemma set_on_grow X p os s id o :
  set_on X p os s -> (X id = false -> forall old, os !! id = Some old -> p old = true -> p o = true) ->
  set_on X p (<[id := o]> os) (insert_if (p o) id s).
Proof.
  intros H Hmon x. destruct (H x) as [H1 H2]. rewrite !stored_insert, elem_of_insert_if.
  split; [destruct (decide (x = id)); naive_solver|]. intros Hx. rewrite (H2 Hx).
  destruct (decide (x = id)) as [->|Hne]; [|naive_solver].
  split; [|naive_solver]. intros [[Hp _]|(old & Ho & Hp)]; left; eauto.
Qed.
Lemma set_on_keep X p os s id o :
  set_on X p os s -> (X id = false -> p o = true <-> stored os id (fun old => p old = true)) ->
  set_on X p (<[id := o]> os) s.
Proof.
  intros H Hk x. destruct (H x) as [H1 H2]. rewrite !stored_insert.
  split; [destruct (decide (x = id)); naive_solver|]. intros Hx. rewrite (H2 Hx).
  destruct (decide (x = id)) as [->|Hne]; naive_solver.
Qed.
Lemma set_on_drop X p os s id : set_on X p os s -> set_on X p (delete id os) (s ∖ {[id]}).
Proof.
  intros H x. destruct (H x) as [H1 H2]. rewrite !stored_delete, elem_of_difference, elem_of_singleton.
  split; [tauto|]. intros Hx. rewrite (H2 Hx). tauto.
Qed.
Lemma set_on_exact X p os s : set_on X p os s -> (forall id, X id = false) -> set_exact p os s.
Proof. intros H HX id. by apply H. Qed.

Lemma set_exact_unique p os s s' : set_exact p os s -> set_exact p os s' -> s = s'.
Proof. intros H H'. apply set_eq. intros x. by rewrite (H x), (H' x). Qed.

Section Multi.
Context {K : Type} `{Countable K}.
Implicit Types (key : A -> option K) (m : gmap K (gset string)).

Lemma mm_exact_empty key : mm_exact key (∅ : gmap string A) ∅.
Proof.
  split; [apply mm_tight_empty|]. intros k id. unfold stored, mm_get.
  rewrite lookup_empty. setoid_rewrite lookup_empty. set_solver.
Qed.

Lemma elem_of_mm_insert_opt k v m k' x :
  x ∈ mm_get (mm_insert_opt k v m) k' <-> (k = Some k' /\ x = v) \/ x ∈ mm_get m k'.
Proof. destruct k; simpl; [rewrite mm_get_insert|]; naive_solver. Qed.

Lemma mm_tight_insert_opt k v m : mm_tight m -> mm_tight (mm_insert_opt k v m).
Proof. destruct k; simpl; [apply mm_tight_insert|done]. Qed.

Lemma mm_exact_put key os m id o :
  mm_exact key os m ->
  (forall old k, os !! id = Some old -> key old = Some k -> key o = Some k) ->
  mm_exact key (<[id := o]> os) (mm_insert_opt (key o) id m).
Proof.
  intros [Ht Hm] Hmon. split; [by apply mm_tight_insert_opt|]. intros k x.
  rewrite stored_insert, elem_of_mm_insert_opt, (Hm k x).
  destruct (decide (x = id)) as [->|Hne]; [|naive_solver].
  split; [|naive_solver]. intros [[Hp _]|(old & Ho & Hp)]; left; eauto.
Qed.

Lemma mm_exact_keep key os m id o :
  mm_exact key os m -> (forall k, key o = Some k <-> stored os id (fun old => key old = Some k)) ->
  mm_exact key (<[id := o]> os) m.
Proof.
  intros [Ht Hm] Hk. split; [done|]. intros k x. rewrite stored_insert, (Hm k x).
  destruct (decide (x = id)) as [->|Hne]; [|naive_solver]. rewrite <- Hk. naive_solver.
Qed.

Lemma mm_exact_drop key os m id o :
  mm_exact key os m -> os !! id = Some o ->
  mm_exact key (delete id os) (mm_remove_opt (key o) id m).
Proof.
  intros [Ht Hm] Ho. split.
  - destruct (key o); [by apply mm_tight_remove|done].
  - intros k x. rewrite stored_delete, <- (Hm k x). destruct (key o) as [k0|] eqn:Hk; simpl.
    + rewrite mm_get_remove. destruct (decide (x = id)) as [->|Hne]; [|naive_solver].
      rewrite (Hm k id). unfold stored. rewrite Ho. naive_solver.
    + destruct (decide (x = id)) as [->|Hne]; [|naive_solver].
      rewrite (Hm k id). unfold stored. rewrite Ho. naive_solver.
Qed.

Lemma mm_exact_absent key os m k id :
  mm_exact key os m -> os !! id = None -> mm_exact key os (mm_remove_opt k id m).
Proof.
  intros [Ht Hm] Ho. destruct k as [k|]; [|done]. split; [by apply mm_tight_remove|].
  intros k' x. simpl. rewrite mm_get_remove, (Hm k' x). split; [tauto|]. intros (o & Hx & Hk).
  split; [by exists o|]. naive_solver.
Qed.

Lemma mm_exact_unique key os m m' : mm_exact key os m -> mm_exact key os m' -> m = m'.
Proof.
  intros [T H0] [T' H0']. apply mm_ext; [done..|]. intros k x. by rewrite (H0 k x), (H0' k x).
Qed.

(** The members under a key: empty when the key is absent. *)
Lemma mm_exact_lookup key os m k s :
  mm_exact key os m -> m !! k = Some s -> set_exact (fun o => bool_decide (key o = Some k)) os s.
Proof.
  intros [_ Hm] Hk id. specialize (Hm k id). unfold mm_get in Hm. rewrite Hk in Hm. simpl in Hm.
  rewrite Hm. unfold stored. by setoid_rewrite bool_decide_eq_true.
Qed.
End Multi.
End Exact.

(* ------------------------------------------------------------------ *)
(** ** What an event does to the fields the index reads *)

Section Events.
Context `{M : Mode} {Dec : Type}.
Implicit Types (c : OrderCore Dec) (o : OrderAny Dec) (ev : OrderEventAny Dec).

(** The fields of an order no event changes. *)
Record same_identity c c' : Prop := {
  si_id : o_client_order_id c' = o_client_order_id c;
  si_strategy : o_strategy_id c' = o_strategy_id c;
  si_instrument : o_instrument_id c' = o_instrument_id c;
  si_algorithm : o_exec_algorithm_id c' = o_exec_algorithm_id c;
  si_spawn : o_exec_spawn_id c' = o_exec_spawn_id c;
}.

(** An order the open set may hold: open, or submitted with nothing pending. *)
Definition maybe_open c : bool :=
  negb (has_emulation_trigger c) &&
  match o_status c with
  | Submitted | Accepted | Triggered | PendingCancel | PendingUpdate | PartiallyFilled => true
  | _ => false
  end.

Lemma open_maybe c : is_open c = true -> maybe_open c = true.
Proof. unfold is_open, maybe_open. destruct (has_emulation_trigger c), (o_status c); done. Qed.

Lemma open_not_closed c : is_open c = true -> is_closed c = false.
Proof. unfold is_open, is_closed. destruct (has_emulation_trigger c), (o_status c); done. Qed.

Lemma open_not_local c : is_open c = true -> is_active_local c = false.
Proof. unfold is_open, is_active_local. destruct (has_emulation_trigger c), (o_status c); done. Qed.

Lemma filled_identity {E} c f c' :
  filled (E := E) c f = Ok c' ->
  same_identity c c' /\ o_emulation_trigger c' = o_emulation_trigger c /\
  o_account_id c' = o_account_id c.
Proof.
  unfold filled. intros H. apply bind_Ok_inv in H as (q & _ & H).
  apply bind_Ok_inv in H as (c1 & H1 & H).
  assert (same_identity c c1 /\ o_emulation_trigger c1 = o_emulation_trigger c /\
          o_account_id c1 = o_account_id c) as ([] & He & Ha).
  { destruct (qty_gtb _ _); [|by injection H1 as <-].
    apply bind_Ok_inv in H1 as (w & _ & [= <-]). done. }
  apply set_avg_px_Ok in H as [avg ->].
  destruct (qty_ltb _ _), (o_ts_accepted c1) eqn:E1; cbn; rewrite ?E1; cbn;
    (split; [split|split]); cbn; congruence.
Qed.

Lemma handle_identity c ev c' :
  handle c ev = Ok c' ->
  same_identity c c' /\
  (o_emulation_trigger c' = o_emulation_trigger c \/ o_emulation_trigger c' = None) /\
  (o_account_id c' = o_account_id c \/
   exists a, event_account_id ev = Some a /\ o_account_id c' = Some a).
Proof.
  intros Hh. destruct ev; cbn in Hh; try (injection Hh as <-).
  all: try (split; [by split|split; [by auto|cbn; eauto]]; done).
  - apply bind_Ok_inv in Hh as (s & _ & [= <-]). split; [by split|auto].
  - apply bind_Ok_inv in Hh as (s & _ & [= <-]). split; [by split|auto].
  - unfold updated.
    set (c1 := match o_status c with PendingUpdate => _ | _ => _ end).
    assert (same_identity c c1 /\ o_emulation_trigger c1 = o_emulation_trigger c /\
            o_account_id c1 = o_account_id c) as ([] & He & Ha).
    { subst c1. destruct (o_status c), (o_previous_status c); done. }
    clearbody c1. destruct (up_venue_order_id e); [destruct (bool_decide _)|];
      (split; [by split|]); cbn; auto.
  - apply filled_identity in Hh as (? & ? & ?). auto.
Qed.

(** What the cache needs to know of a successful event. *)
Record event_effect c ev c' : Prop := {
  ee_identity : same_identity c c';
  ee_inv : core_inv c';
  ee_trigger : has_emulation_trigger c' = true -> has_emulation_trigger c = true;
  ee_account : o_account_id c' = o_account_id c \/
    exists a, event_account_id ev = Some a /\ o_account_id c' = Some a;
  ee_open : maybe_open c = true -> maybe_open c' = true \/ is_closed c' = true;
  ee_closed : is_closed c = true -> is_closed c' = true \/ is_open c' = true \/
    has_emulation_trigger c = true;
}.

Lemma core_apply_effect c ev c' :
  core_inv c -> event_in_ty ev -> core_apply c ev = (c', Ok tt) -> event_effect c ev c'.
Proof.
  intros Hinv Hty Hap. pose proof (core_apply_inv _ _ _ _ Hinv Hty Hap ltac:(done)) as Hinv'.
  pose proof (event_status_cases c ev c' Hinv Hap) as Hcases.
  destruct (core_apply_Ok _ _ _ Hap) as (_ & _ & _ & new & s1 & Ht & Hh & Heq).
  assert (Hsave : same_identity c (save_previous c ev) /\
    o_emulation_trigger (save_previous c ev) = o_emulation_trigger c /\
    o_account_id (save_previous c ev) = o_account_id c).
  { unfold save_previous. by destruct (saves_previous _ _). }
  apply handle_identity in Hh as Hid. destruct Hid as ([] & Htr & Hac), Hsave as ([] & Htr0 & Hac0).
  cbn in *.
  assert (Htrig : has_emulation_trigger c' = true -> has_emulation_trigger c = true).
  { subst c'. unfold has_emulation_trigger. cbn. destruct Htr as [->| ->]; [by rewrite Htr0|done]. }
  assert (Hst : is_filled ev = true -> o_status c' = PartiallyFilled \/ o_status c' = Filled).
  { destruct ev; try done. intros _. cbn in Hh. apply filled_Ok in Hh. subst c'. cbn.
    rewrite (fs_status _ _ _ _ Hh). unfold fill_status. destruct (_ <? _); auto. }
  split; [subst c'; split; cbn; congruence|done|done| | |].
  - subst c'. cbn. destruct Hac as [->|?]; [by left|by right].
  - unfold maybe_open. intros Ho. apply andb_true_iff in Ho as [Hn Hs].
    destruct (has_emulation_trigger c'); [by rewrite Htrig in Hn|]. unfold is_closed.
    destruct (is_filled ev) eqn:Hf; [destruct (Hst eq_refl) as [-> | ->]; auto|].
    destruct (Hcases eq_refl) as [Ht'|Hw]; [|destruct (o_status c'); auto].
    destruct ev, (o_status c); try done; injection Ht' as <-; auto.
  - unfold is_closed. intros Hc. unfold is_open.
    destruct (has_emulation_trigger c'); [by rewrite Htrig; auto|].
    destruct (is_filled ev) eqn:Hf; [destruct (Hst eq_refl) as [-> | ->]; auto|].
    destruct ev, (o_status c); done.
Qed.

Lemma core_after_effect c ev c1 c' :
  event_effect c ev c1 -> core_after ev c1 c' -> core_inv c' -> event_effect c ev c'.
Proof.
  intros [[] ? ? ? ? ?] Ha Hi.
  assert (Hs : o_client_order_id c' = o_client_order_id c1 /\ o_strategy_id c' = o_strategy_id c1 /\
    o_instrument_id c' = o_instrument_id c1 /\ o_exec_algorithm_id c' = o_exec_algorithm_id c1 /\
    o_exec_spawn_id c' = o_exec_spawn_id c1 /\ o_emulation_trigger c' = o_emulation_trigger c1 /\
    o_account_id c' = o_account_id c1 /\ o_status c' = o_status c1).
  { unfold core_after in Ha. set (c2 := match ev with EvUpdated _ => _ | _ => _ end) in Ha.
    assert (o_client_order_id c2 = o_client_order_id c1 /\ o_strategy_id c2 = o_strategy_id c1 /\
      o_instrument_id c2 = o_instrument_id c1 /\ o_exec_algorithm_id c2 = o_exec_algorithm_id c1 /\
      o_exec_spawn_id c2 = o_exec_spawn_id c1 /\ o_emulation_trigger c2 = o_emulation_trigger c1 /\
      o_account_id c2 = o_account_id c1 /\ o_status c2 = o_status c1)
      as (<- & <- & <- & <- & <- & <- & <- & <-) by (subst c2; by destruct ev).
    clearbody c2. destruct Ha as [->|[p Hp]]; [done|]. unfold set_slippage in Hp.
    destruct (o_avg_px c2); outcome_inv; done. }
  destruct Hs as (E1 & E2 & E3 & E4 & E5 & E6 & E7 & E8).
  assert (Ht : has_emulation_trigger c' = has_emulation_trigger c1)
    by (unfold has_emulation_trigger; by rewrite E6).
  assert (Hm : maybe_open c' = maybe_open c1) by (unfold maybe_open; by rewrite Ht, E8).
  assert (Ho : is_open c' = is_open c1) by (unfold is_open; by rewrite Ht, E8).
  assert (Hc : is_closed c' = is_closed c1) by (unfold is_closed; by rewrite E8).
  split; [split; congruence|done|..]; rewrite ?Ht, ?Hm, ?Ho, ?Hc, ?E7; done.
Qed.

Lemma any_apply_effect o ev o' :
  core_inv (any_core o) -> event_in_ty ev -> any_apply o ev = (o', Ok tt) ->
  event_effect (any_core o) ev (any_core o').
Proof.
  intros Hinv Hty Hap. rewrite any_apply_eq in Hap.
  pose proof (ol_apply_steps _ _ _ _ Hty Hap ltac:(done)) as Hrtc.
  assert (Hinv' : core_inv (any_core o')).
  { clear Hap. change (ol_core o) with (any_core o) in Hrtc.
    change (ol_core o') with (any_core o') in Hrtc.
    induction Hrtc as [|x y z Hstep _ IH]; [done|]. apply IH.
    destruct Hstep as [self e self' r Hty' Hev Hr|self p self' Hs].
    - by eapply core_event_inv.
    - eapply same_state_inv; [by eapply set_slippage_same|done]. }
  destruct (ol_apply_cases _ _ _ _ Hap ltac:(done)) as [(c & e & _ & [=] & _)|(c & Hc & _ & Ha)].
  apply ol_after_core in Ha. rewrite ol_get_set in Ha.
  eapply core_after_effect; [|exact Ha|exact Hinv']. by apply core_apply_effect.
Qed.
End Events.

(* ------------------------------------------------------------------ *)
(** ** The invariant *)

(** Ids whose status the sets need not follow: orders added when they were no
    longer local, and orders the execution engine forced out of its books. *)
Class Excepted : Type := excepted : ClientOrderId -> bool.

Section Inv.
Context `{M : Mode} {Dec : Type} `{D : !DecimalApi Dec} `{HI : HashIter} {X : Excepted}.
Abbreviation C := (Cache Dec).
Abbreviation Store := (gmap ClientOrderId (OrderAny Dec)).
Implicit Types (self : C) (o : OrderAny Dec) (os : Store) (i : CacheIndex) (id : ClientOrderId).

Definition venue_key o : option Venue := Some (any_venue o).
Definition instrument_key o : option InstrumentId := Some (o_instrument_id (any_core o)).
Definition strategy_key o : option StrategyId := Some (o_strategy_id (any_core o)).
Definition account_key o : option AccountId := o_account_id (any_core o).
Definition algorithm_key o : option ExecAlgorithmId := o_exec_algorithm_id (any_core o).
Definition emulated_now o : bool :=
  has_emulation_trigger (any_core o) && negb (is_closed (any_core o)).

(** The order indexes agree with the store.  The open set holds every open
    order and may hold a submitted one; the emulated set holds every order
    under emulation; the others are exact.  Of the excepted ids the sets that
    follow the status say only that the order is stored. *)
Record orders_ok os i : Prop := {
  oi_id : forall id o, os !! id = Some o -> any_id o = id /\ core_inv (any_core o);
  oi_orders : set_exact (fun _ => true) os (x_orders i);
  oi_local : set_on X (fun o => is_active_local (any_core o)) os (x_orders_active_local i);
  oi_closed : set_on X (fun o => is_closed (any_core o)) os (x_orders_closed i);
  oi_inflight : set_on X (fun o => is_inflight (any_core o)) os (x_orders_inflight i);
  oi_open : forall id o, X id = false -> os !! id = Some o -> is_open (any_core o) = true -> id ∈ x_orders_open i;
  oi_opened : forall id, id ∈ x_orders_open i ->
    stored os id (fun o => X id = false -> maybe_open (any_core o) = true);
  oi_emulated : forall id o, X id = false -> os !! id = Some o -> emulated_now o = true -> id ∈ x_orders_emulated i;
  oi_emulates : forall id, id ∈ x_orders_emulated i -> stored os id (fun _ => True);
  oi_venue : mm_exact venue_key os (x_venue_orders i);
  oi_instrument : mm_exact instrument_key os (x_instrument_orders i);
  oi_strategy : mm_exact strategy_key os (x_strategy_orders i);
  oi_account : mm_exact account_key os (x_account_orders i);
  oi_algorithm : mm_exact algorithm_key os (x_exec_algorithm_orders i);
  oi_spawn : forall k id, id ∈ mm_get (x_exec_spawn_orders i) k ->
    stored os id (fun o => o_exec_spawn_id (any_core o) = Some k);
  oi_order_strategy : forall id,
    x_order_strategy i !! id = (fun o => o_strategy_id (any_core o)) <$> os !! id;
  oi_strategies : forall id o, os !! id = Some o -> o_strategy_id (any_core o) ∈ x_strategies i;
  oi_algorithms : forall id o a, os !! id = Some o -> algorithm_key o = Some a ->
    a ∈ x_exec_algorithms i;
}.
Definition orders_indexed self : Prop := orders_ok (k_orders self) (k_index self).

Lemma orders_ok_empty : orders_ok ∅ index_default.
Proof.
  split; cbn; try apply set_exact_empty; try apply mm_exact_empty;
    try match goal with |- set_on _ _ _ _ => apply set_on_empty end.
  all: intros *; first [by rewrite ?lookup_empty|intros _; by rewrite lookup_empty].
Qed.

(** What may replace what: the same order to the index, by key and account. *)
Record replaces (old new : OrderAny Dec) : Prop := {
  rp_identity : same_identity (any_core old) (any_core new);
  rp_account : forall a, account_key old = Some a -> account_key new = Some a;
}.

Lemma replaces_keys old new :
  replaces old new ->
  venue_key new = venue_key old /\ instrument_key new = instrument_key old /\
  strategy_key new = strategy_key old /\ algorithm_key new = algorithm_key old.
Proof.
  intros [[] _]. unfold venue_key, any_venue, instrument_key, strategy_key, algorithm_key.
  repeat split; congruence.
Qed.

(** A key that does not change keeps its multi-map exact. *)
Lemma mm_exact_same {K} `{Countable K} (key : OrderAny Dec -> option K) os m id old o :
  mm_exact key os m -> os !! id = Some old -> key o = key old -> mm_exact key (<[id := o]> os) m.
Proof.
  intros Hm Ho Hk. apply mm_exact_keep; [done|]. intros k. rewrite Hk. split.
  - intros E. by exists old.
  - intros (old' & E & Hk'). rewrite Ho in E. by injection E as <-.
Qed.

Section Put.
Variables (os : Store) (i : CacheIndex) (id : ClientOrderId) (o : OrderAny Dec).
Hypothesis Hok : orders_ok os i.
Hypothesis Hid : any_id o = id.
Hypothesis Hinv : core_inv (any_core o).
Hypothesis Hrep : forall old, os !! id = Some old -> replaces old o.

Lemma put_id id' o' : <[id := o]> os !! id' = Some o' -> any_id o' = id' /\ core_inv (any_core o').
Proof using Hok Hid Hinv.
  rewrite lookup_insert_Some. intros [[<- <-]|[_ Ho]]; [done|]. by eapply oi_id.
Qed.

Lemma put_key {K} `{Countable K} (key : OrderAny Dec -> option K) m :
  mm_exact key os m ->
  (forall old, os !! id = Some old -> key o = key old) ->
  mm_exact key (<[id := o]> os) (mm_insert_opt (key o) id m).
Proof. intros Hm Hk. apply mm_exact_put; [done|]. intros old k Ho <-. by apply Hk. Qed.

Lemma put_account m :
  mm_exact account_key os m -> mm_exact account_key (<[id := o]> os) (mm_insert_opt (account_key o) id m).
Proof using Hrep.
  intros Hm. apply mm_exact_put; [done|]. intros old k Ho Hk. by eapply rp_account; [apply Hrep|].
Qed.

Lemma put_stored P id' :
  (forall old, os !! id = Some old -> P old -> P o) ->
  stored os id' P -> stored (<[id := o]> os) id' P.
Proof.
  intros HP (old & Ho & Hp). rewrite stored_insert. destruct (decide (id' = id)) as [->|Hne].
  - left. eauto.
  - right. split; [done|]. by exists old.
Qed.

Lemma put_order_strategy : forall id',
  (<[id := o_strategy_id (any_core o)]> (x_order_strategy i)) !! id' =
  (fun o => o_strategy_id (any_core o)) <$> <[id := o]> os !! id'.
Proof using Hok.
  intros id'. rewrite !lookup_insert, (oi_order_strategy _ _ Hok). by case_decide.
Qed.

(** Indexing a new order that is local, or replaces a local one, or is excepted. *)
Lemma new_order_ok :
  (X id = false -> is_active_local (any_core o) = true) ->
  (X id = false -> forall old, os !! id = Some old -> is_active_local (any_core old) = true) ->
  orders_ok (<[id := o]> os) (index_new_order o i).
Proof using Hok Hid Hinv Hrep.
  intros Hl Hold. assert (Hmaybe : forall c, is_active_local (Dec := Dec) c = true ->
    is_closed c = false /\ is_inflight c = false /\ maybe_open c = false /\ is_open c = false).
  { intros c. unfold is_active_local, is_closed, is_inflight, maybe_open, is_open.
    destruct (o_status c); try done; by destruct (has_emulation_trigger c). }
  assert (Hkeep : forall (p : OrderCore Dec -> bool) s,
    (forall c, is_active_local c = true -> p c = false) ->
    set_on X (fun o => p (any_core o)) os s -> set_on X (fun o => p (any_core o)) (<[id := o]> os) s).
  { intros p s Hp Hs. apply set_on_keep; [done|]. intros Hx. rewrite Hp by auto. split; [done|].
    intros (old & E & Hx'). rewrite Hp in Hx'; [done|by eapply Hold]. }
  assert (HK : forall old, os !! id = Some old -> _) by (intros old E; exact (replaces_keys old o (Hrep old E))).
  unfold any_id in Hid. split; cbn; rewrite ?Hid.
  - exact put_id.
  - apply (set_exact_grow (fun _ => true) os); [apply Hok|done].
  - apply (set_on_grow X (fun o => is_active_local (any_core o))); [apply Hok|auto].
  - apply Hkeep; [apply Hmaybe|apply Hok].
  - apply Hkeep; [apply Hmaybe|apply Hok].
  - intros id' o' HX. rewrite lookup_insert_Some. intros [[<- <-]|[Hne Ho']] Hop; [|by eapply oi_open].
    destruct (Hmaybe _ (Hl HX)) as (_ & _ & _ & ?). congruence.
  - intros id' Hin. apply (oi_opened _ _ Hok) in Hin as (old & E & Hx).
    rewrite stored_insert. destruct (decide (id' = id)) as [->|Hne]; [|right; split; [done|by exists old]].
    left. split; [done|]. intros HX. destruct (Hmaybe _ (Hold HX _ E)) as (_ & _ & Hx' & _). by rewrite Hx in Hx'.
  - intros id' o' HX. rewrite lookup_insert_Some, elem_of_insert_if.
    intros [[<- <-]|[Hne Ho']] Hem; [|right; by eapply oi_emulated].
    left. unfold emulated_now in Hem. by apply andb_true_iff in Hem as [-> _].
  - intros id'. rewrite elem_of_insert_if. intros [[_ ->]|Hin]; [rewrite stored_insert; auto|].
    apply put_stored; [done|]. by apply (oi_emulates _ _ Hok).
  - apply (put_key venue_key); [apply Hok|]. intros old E. by apply HK.
  - apply (put_key instrument_key); [apply Hok|]. intros old E. by apply HK.
  - apply (put_key strategy_key); [apply Hok|]. intros old E. by apply HK.
  - apply put_account. apply Hok.
  - apply (put_key algorithm_key); [apply Hok|]. intros old E. by apply HK.
  - intros k id'. rewrite elem_of_mm_insert_opt.
    intros [[Hk ->]|Hin]; [rewrite stored_insert; auto|].
    apply put_stored; [|by apply (oi_spawn _ _ Hok)].
    intros old E. destruct (rp_identity _ _ (Hrep old E)). congruence.
  - apply put_order_strategy.
  - intros id' o'. rewrite lookup_insert_Some, elem_of_union, elem_of_singleton.
    intros [[<- <-]|[_ Ho']]; [by left|right]. by eapply oi_strategies.
  - intros id' o' a. rewrite lookup_insert_Some. intros [[<- <-]|[_ Ho']] Ha.
    + unfold algorithm_key in Ha. rewrite Ha. set_solver.
    + pose proof (oi_algorithms _ _ Hok _ _ _ Ho' Ha). destruct (o_exec_algorithm_id _); set_solver.
Qed.
End Put.
End Inv.
