(* ===== verification/CacheSteps.v ===== *)
(** * Runs of the cache ([crates/common/src/cache/mod.rs])

    The operations on orders, positions and accounts as a step relation, and
    the proof that every run from an empty cache keeps the order indexes in
    agreement with the store. *)

From stdpp Require Import base numbers list strings gmap.
From Stdlib Require Import ZArith Lia.
From S2P Require Import Prelude F64 Fixed Price Quantity Money Enums OrderEvents OrderCore OrderLife Orders OrderReplay Own Position Account Clock CacheIndex Cache CacheInv.

Section Steps.
Context `{M : Mode} {Dec : Type} `{D : !DecimalApi Dec} `{HI : HashIter} {X : Excepted}.
Abbreviation C := (Cache Dec).
Abbreviation Store := (gmap ClientOrderId (OrderAny Dec)).
Implicit Types (self : C) (o : OrderAny Dec) (os : Store) (i : CacheIndex) (id : ClientOrderId).

(** ** Refreshing *)

Definition set_local o i : CacheIndex :=
  i <| x_orders_active_local :=
         set_member (is_active_local (any_core o)) (any_id o) (x_orders_active_local i) |>.

(** The fields a refresh leaves alone. *)
Lemma refresh_index_frame o i :
  x_orders (refresh_index o i) = x_orders i /\
  x_orders_active_local (refresh_index o i) = x_orders_active_local i /\
  x_venue_orders (refresh_index o i) = x_venue_orders i /\
  x_instrument_orders (refresh_index o i) = x_instrument_orders i /\
  x_strategy_orders (refresh_index o i) = x_strategy_orders i /\
  x_exec_algorithm_orders (refresh_index o i) = x_exec_algorithm_orders i /\
  x_exec_spawn_orders (refresh_index o i) = x_exec_spawn_orders i /\
  x_order_strategy (refresh_index o i) = x_order_strategy i /\
  x_strategies (refresh_index o i) = x_strategies i /\
  x_exec_algorithms (refresh_index o i) = x_exec_algorithms i.
Proof. unfold refresh_index. by destruct (is_open _), (is_closed _). Qed.

Lemma refresh_index_sets o i :
  let c := any_core o in
  let id := any_id o in
  x_orders_inflight (refresh_index o i) = set_member (is_inflight c) id (x_orders_inflight i) /\
  x_orders_emulated (refresh_index o i) = set_member (emulated_now o) id (x_orders_emulated i) /\
  x_account_orders (refresh_index o i) = mm_insert_opt (account_key o) id (x_account_orders i) /\
  x_orders_open (refresh_index o i) =
    (if is_open c then {[id]} ∪ x_orders_open i
     else if is_closed c then x_orders_open i ∖ {[id]} else x_orders_open i) /\
  x_orders_closed (refresh_index o i) =
    (if is_open c then x_orders_closed i ∖ {[id]}
     else if is_closed c then {[id]} ∪ x_orders_closed i else x_orders_closed i).
Proof. unfold refresh_index, emulated_now. by destruct (is_open _), (is_closed _). Qed.

#[local] Arguments refresh_index : simpl never.

Lemma elem_of_refreshed (b1 b2 : bool) id id' (s : gset string) :
  id' <> id ->
  id' ∈ (if b1 then {[id]} ∪ s else if b2 then s ∖ {[id]} else s) <-> id' ∈ s.
Proof. intros Hne. destruct b1; [set_solver|]. destruct b2; set_solver. Qed.

Lemma refresh_ok os i id old o :
  orders_ok os i -> os !! id = Some old -> any_id o = id -> core_inv (any_core o) ->
  replaces old o ->
  (X id = false -> maybe_open (any_core old) = true ->
   maybe_open (any_core o) = true \/ is_closed (any_core o) = true) ->
  (X id = false -> is_closed (any_core old) = true ->
   is_closed (any_core o) = true \/ is_open (any_core o) = true) ->
  orders_ok (<[id := o]> os) (refresh_index o (set_local o i)).
Proof.
  intros Hok Hold Hid Hinv Hrep Hopen Hclosed.
  assert (Hrep' : forall old', os !! id = Some old' -> replaces old' o)
    by (intros ? E; rewrite Hold in E; by injection E as <-).
  destruct (replaces_keys _ _ Hrep) as (Kv & Ki & Ks & Ka).
  destruct (refresh_index_frame o (set_local o i)) as (F1 & F2 & F3 & F4 & F5 & F6 & F7 & F8 & F9 & F10).
  destruct (refresh_index_sets o (set_local o i)) as (S1 & S2 & S3 & S4 & S5).
  pose proof (open_not_closed (any_core o)) as Hoc. pose proof (open_maybe (any_core o)) as Hom.
  rewrite Hid in *. cbn in *. split; rewrite ?F1, ?F2, ?F3, ?F4, ?F5, ?F6, ?F7, ?F8, ?F9, ?F10, ?S1, ?S2, ?S3, ?S4, ?S5; cbn.
  - by apply (put_id os i).
  - apply set_exact_keep; [apply Hok|]. split; [by exists old|done].
  - rewrite Hid. apply (set_on_put X (fun o => is_active_local (any_core o))). apply Hok.
  - destruct (is_open (any_core o)) eqn:E1.
    + pose proof (set_on_put X (fun o => is_closed (any_core o)) os _ id o (oi_closed _ _ Hok)) as Hp.
      cbn in Hp. by rewrite Hoc in Hp.
    + destruct (is_closed (any_core o)) eqn:E2.
      * pose proof (set_on_put X (fun o => is_closed (any_core o)) os _ id o (oi_closed _ _ Hok)) as Hp.
        cbn in Hp. by rewrite E2 in Hp.
      * apply set_on_keep; [apply Hok|]. intros HX. rewrite E2. split; [done|]. intros (old' & E & Hx).
        rewrite Hold in E. injection E as <-. by destruct (Hclosed HX Hx).
  - apply (set_on_put X (fun o => is_inflight (any_core o))). apply Hok.
  - intros id' o' HX. rewrite lookup_insert_Some. intros [[<- <-]|[Hne Ho']] Hop.
    + rewrite Hop. by apply elem_of_union_l, elem_of_singleton.
    + apply elem_of_refreshed; [done|]. by apply (oi_open _ _ Hok _ _ HX Ho').
  - intros id' Hin. rewrite stored_insert. destruct (decide (id' = id)) as [->|Hne].
    + left. split; [done|]. intros HX. destruct (is_open (any_core o)) eqn:E1; [by apply Hom|].
      destruct (is_closed (any_core o)) eqn:E2;
        [by apply elem_of_difference in Hin as [_ Hn%not_elem_of_singleton]|].
      apply (oi_opened _ _ Hok) in Hin as (old' & E & Hx). rewrite Hold in E. injection E as <-.
      by destruct (Hopen HX (Hx HX)).
    + right. split; [done|]. apply (oi_opened _ _ Hok). by apply elem_of_refreshed in Hin.
  - intros id' o' HX. rewrite lookup_insert_Some, elem_of_set_member.
    intros [[<- <-]|[Hne Ho']] Hem; [by left|right]. split; [by eapply oi_emulated|done].
  - intros id'. rewrite elem_of_set_member. intros [[_ ->]|[Hin _]]; [rewrite stored_insert; auto|].
    apply put_stored; [done|]. by apply (oi_emulates _ _ Hok).
  - eapply mm_exact_same; [apply Hok|done|done].
  - eapply mm_exact_same; [apply Hok|done|done].
  - eapply mm_exact_same; [apply Hok|done|done].
  - by apply put_account; [|apply Hok].
  - eapply mm_exact_same; [apply Hok|done|done].
  - intros k id' Hin. apply put_stored; [|by apply (oi_spawn _ _ Hok)].
    intros old' E. destruct (rp_identity _ _ (Hrep' old' E)). congruence.
  - intros id'. rewrite (oi_order_strategy _ _ Hok), lookup_insert. case_decide as E; [subst id'|done].
    rewrite Hold. cbn. destruct (rp_identity _ _ Hrep). congruence.
  - intros id' o'. rewrite lookup_insert_Some. intros [[<- <-]|[_ Ho']]; [|by eapply oi_strategies].
    destruct (rp_identity _ _ Hrep) as [_ -> _ _ _]. by eapply oi_strategies.
  - intros id' o' a. rewrite lookup_insert_Some. intros [[<- <-]|[_ Ho']]; [|by eapply oi_algorithms].
    rewrite Ka. by eapply oi_algorithms.
Qed.

(** ** Purging *)

Lemma purge_orders_ok os i id o :
  orders_ok os i -> os !! id = Some o ->
  orders_ok (delete id os) (unindex_order_id id (unindex_order id o i)).
Proof.
  intros Hok Ho. assert (Habs : delete id os !! id = None) by apply lookup_delete_eq.
  split; cbn.
  - intros id' o'. rewrite lookup_delete_Some. intros [_ E]. by eapply oi_id.
  - apply set_exact_drop. apply Hok.
  - apply set_on_drop. apply Hok.
  - apply set_on_drop. apply Hok.
  - apply set_on_drop. apply Hok.
  - intros id' o' HX. rewrite lookup_delete_Some. intros [Hne E] Hop.
    apply elem_of_difference. split; [by eapply oi_open|]. set_solver.
  - intros id'. rewrite elem_of_difference, elem_of_singleton, stored_delete. intros [Hin Hne].
    split; [done|]. by apply (oi_opened _ _ Hok).
  - intros id' o' HX. rewrite lookup_delete_Some. intros [Hne E] Hop.
    apply elem_of_difference. split; [by eapply oi_emulated|]. set_solver.
  - intros id'. rewrite elem_of_difference, elem_of_singleton, stored_delete. intros [Hin Hne].
    split; [done|]. by apply (oi_emulates _ _ Hok).
  - apply (mm_exact_drop venue_key); [apply Hok|done].
  - apply (mm_exact_drop instrument_key); [apply Hok|done].
  - apply mm_exact_absent; [|done]. apply (mm_exact_drop strategy_key); [apply Hok|done].
  - apply (mm_exact_drop account_key); [apply Hok|done].
  - apply (mm_exact_drop algorithm_key); [apply Hok|done].
  - intros k id'. unfold mm_get. rewrite lookup_delete. case_decide; [set_solver|].
    fold (mm_get (mm_remove_opt (o_exec_spawn_id (any_core o)) id (x_exec_spawn_orders i)) k).
    intros Hin. rewrite stored_delete.
    assert (id' ∈ mm_get (x_exec_spawn_orders i) k /\
            ~ (o_exec_spawn_id (any_core o) = Some k /\ id' = id)) as [Hin' Hn].
    { destruct (o_exec_spawn_id (any_core o)) as [k0|]; cbn in Hin; [|naive_solver].
      rewrite mm_get_remove in Hin. naive_solver. }
    apply (oi_spawn _ _ Hok) in Hin' as Hst. split; [|done]. intros ->.
    destruct Hst as (o' & E & Hk). rewrite Ho in E. injection E as <-. by apply Hn.
  - intros id'. rewrite !lookup_delete, (oi_order_strategy _ _ Hok). by case_decide.
  - intros id' o'. rewrite lookup_delete_Some. intros [_ E]. by eapply oi_strategies.
  - intros id' o' a. rewrite lookup_delete_Some. intros [_ E]. by eapply oi_algorithms.
Qed.

(** Clearing away an identifier the store does not hold. *)
Lemma purge_absent_ok os i id :
  orders_ok os i -> os !! id = None -> orders_ok os (unindex_order_id id i).
Proof.
  intros Hok Ho. assert (Hne : forall id' o', os !! id' = Some o' -> id' <> id) by naive_solver.
  assert (Hst : forall id' P, stored os id' P -> id' <> id) by (intros id' P (? & ? & _); eauto).
  assert (Hset : forall p s, set_exact p os s -> set_exact p os (s ∖ {[id]})).
  { intros p s Hs x. rewrite elem_of_difference, (Hs x), elem_of_singleton. split; [tauto|eauto]. }
  assert (Hon : forall p s, set_on X p os s -> set_on X p os (s ∖ {[id]})).
  { intros p s Hs x. destruct (Hs x) as [H1 H2]. rewrite elem_of_difference, elem_of_singleton.
    split; [tauto|]. intros Hx. rewrite (H2 Hx). split; [tauto|eauto]. }
  destruct Hok. split; cbn; auto.
  - intros id' o' HX E Hop. apply elem_of_difference. split; [by eauto|]. apply Hne in E. set_solver.
  - set_solver.
  - intros id' o' HX E Hop. apply elem_of_difference. split; [by eauto|]. apply Hne in E. set_solver.
  - set_solver.
  - by apply mm_exact_absent.
  - intros k id'. unfold mm_get. rewrite lookup_delete. case_decide; [set_solver|]. apply oi_spawn.
  - intros id'. rewrite lookup_delete, oi_order_strategy. case_decide; [subst|done]. by rewrite Ho.
Qed.

Lemma purge_order_indexed self id : orders_indexed self -> orders_indexed (purge_order self id).
Proof.
  unfold orders_indexed, purge_order. intros Hok. destruct (k_orders self !! id) as [o|] eqn:E.
  - destruct (is_open (any_core o)); [done|]. by apply purge_orders_ok.
  - by apply purge_absent_ok.
Qed.

(** ** What the methods do to the store and the order indexes *)

(** The fields of the index the invariant reads. *)
Definition order_fields i :=
  (x_orders i, x_orders_active_local i, x_orders_open i, x_orders_closed i, x_orders_emulated i,
   x_orders_inflight i, x_venue_orders i, x_instrument_orders i, x_strategy_orders i,
   x_account_orders i, x_exec_algorithm_orders i, x_exec_spawn_orders i, x_order_strategy i,
   x_strategies i, x_exec_algorithms i).

Lemma orders_ok_fields os i i' : order_fields i' = order_fields i -> orders_ok os i -> orders_ok os i'.
Proof.
  unfold order_fields. intros [= E1 E2 E3 E4 E5 E6 E7 E8 E9 E10 E11 E12 E13 E14 E15] [].
  split; rewrite ?E1, ?E2, ?E3, ?E4, ?E5, ?E6, ?E7, ?E8, ?E9, ?E10, ?E11, ?E12, ?E13, ?E14, ?E15; done.
Qed.

(** The store and the order indexes are untouched. *)
Definition same_orders self self' : Prop :=
  k_orders self' = k_orders self /\ order_fields (k_index self') = order_fields (k_index self).

Lemma same_orders_refl self : same_orders self self.
Proof. done. Qed.
Lemma same_orders_trans s1 s2 s3 : same_orders s1 s2 -> same_orders s2 s3 -> same_orders s1 s3.
Proof. intros [E1 F1] [E2 F2]. split; congruence. Qed.
Lemma same_orders_indexed self self' : same_orders self self' -> orders_indexed self -> orders_indexed self'.
Proof. intros [E F]. unfold orders_indexed. rewrite E. by apply orders_ok_fields. Qed.

Lemma add_position_id_same self pid v id s self' r :
  add_position_id self pid v id s = (self', r) -> same_orders self self'.
Proof.
  unfold add_position_id. cbn. destruct (with_db _ _); cbn; intros [= <- <-]; done.
Qed.

Lemma add_position_same self position self' r :
  add_position self position = (self', r) -> same_orders self self'.
Proof.
  unfold add_position. set (s1 := on_index _ _).
  assert (H1 : same_orders self s1) by done. clearbody s1.
  destruct (add_position_id s1 _ _ _ _) as [s2 [[]|e|]] eqn:E; cbn; intros [= <- <-];
    apply add_position_id_same in E; by eapply same_orders_trans.
Qed.

Lemma update_position_same self position self' r :
  update_position self position = (self', r) -> same_orders self self'.
Proof. unfold update_position. destruct (with_db _ _); cbn; intros [= <- <-]; done. Qed.

Lemma add_venue_order_id_same self id vid ov self' r :
  add_venue_order_id self id vid ov = (self', r) -> same_orders self self'.
Proof. unfold add_venue_order_id. repeat case_match; intros [= <- <-]; done. Qed.

Lemma add_account_same self account self' r :
  add_account self account = (self', r) -> same_orders self self'.
Proof.
  unfold add_account, then_. destruct (with_db _ _); [|by intros [= <- <-]..]. cbn.
  destruct (get_issuer _); by intros [= <- <-].
Qed.

Lemma update_account_state_same self event self' r :
  update_account_state self event = (self', r) -> same_orders self self'.
Proof.
  unfold update_account_state. destruct (k_accounts self !! _) as [a|].
  - destruct (account_apply a event); by intros [= <- <-].
  - destruct (account_from_events [event]); [apply add_account_same|by intros [= <- <-]..].
Qed.

Lemma update_own_order_book_same {E} self o self' :
  update_own_order_book (E := E) self o = Ok self' -> same_orders self self'.
Proof.
  unfold update_own_order_book, put_own_book. destruct (negb _); [by intros [= <-]|].
  destruct (k_own_books self !! _) as [b|], (is_closed (any_core o)); cbn; try by intros [= <-].
  all: intros Hr; apply bind_Ok_inv in Hr as (oo & _ & Hr).
  - by destruct (own_delete _ _); outcome_inv.
  - by destruct (own_update _ _); outcome_inv.
  - by destruct (own_update _ _); outcome_inv.
Qed.

Lemma refresh_own_book_same {E} self o self' :
  refresh_own_book (E := E) self o = Ok self' -> same_orders self self'.
Proof.
  unfold refresh_own_book. repeat case_match; try by intros [= <-].
  apply update_own_order_book_same.
Qed.

Lemma refresh_venue_order_id_same {E} self o self' :
  refresh_venue_order_id (E := E) self o = Ok self' -> same_orders self self'.
Proof.
  unfold refresh_venue_order_id. repeat case_match; try by intros [= <-].
  intros Hr. apply bind_Ok_inv in Hr as (ev & _ & [= <-]).
  destruct (add_venue_order_id _ _ _ _) as [s1 r1] eqn:E'. by apply add_venue_order_id_same in E'.
Qed.

Lemma refresh_index_fields o i i' :
  order_fields i' = order_fields i ->
  order_fields (refresh_index o i') = order_fields (refresh_index o i).
Proof.
  unfold order_fields. intros [= E1 E2 E3 E4 E5 E6 E7 E8 E9 E10 E11 E12 E13 E14 E15].
  destruct (refresh_index_frame o i) as (-> & -> & -> & -> & -> & -> & -> & -> & -> & ->).
  destruct (refresh_index_frame o i') as (-> & -> & -> & -> & -> & -> & -> & -> & -> & ->).
  destruct (refresh_index_sets o i) as (-> & -> & -> & -> & ->).
  destruct (refresh_index_sets o i') as (-> & -> & -> & -> & ->).
  by rewrite E1, E2, E3, E4, E5, E6, E7, E8, E9, E10, E11, E12, E13, E14, E15.
Qed.

Lemma refresh_order_fields self o self' r :
  refresh_order self o = (self', r) -> r <> Panic ->
  k_orders self' = k_orders self /\
  order_fields (k_index self') = order_fields (refresh_index o (set_local o (k_index self))).
Proof.
  unfold refresh_order. set (s1 := on_index _ self).
  destruct (refresh_venue_order_id s1 o) as [s2|e|] eqn:E1; [| |by intros [= _ <-]].
  2: { unfold refresh_venue_order_id in E1. repeat case_match; try done.
       by destruct (last_event _) eqn:El in E1; unfold last_event in El; destruct (last _). }
  apply refresh_venue_order_id_same in E1 as [Ho2 Hf2].
  destruct (refresh_own_book (on_index (refresh_index o) s2) o) as [s3|e|] eqn:E2;
    [|intros [= <- <-] _|by intros [= _ <-]].
  - apply refresh_own_book_same in E2 as [Ho3 Hf3]. intros Hr Hp.
    assert (self' = s3) as ->.
    { destruct (k_database s3); [|by injection Hr]. destruct (last_event _); by injection Hr. }
    split; [rewrite Ho3; cbn; by rewrite Ho2|].
    rewrite Hf3. cbn. apply refresh_index_fields. rewrite Hf2. done.
  - split; [done|]. apply refresh_index_fields. rewrite Hf2. done.
Qed.

(** ** Operations on orders *)

(** The resolved identifier of an event that is accepted is its own. *)
Lemma any_apply_Ok_id o ev o' :
  any_apply o ev = (o', Ok tt) -> any_id o = event_client_order_id ev.
Proof.
  intros Hap. rewrite any_apply_eq in Hap.
  destruct (ol_apply_cases _ _ _ _ Hap ltac:(done)) as [(c & e & _ & [=] & _)|(c & Hc & _ & _)].
  by apply core_apply_Ok in Hc as [Hid _].
Qed.

(** The result of an update: refused without a trace, or the event is applied
    to the order it names and the order refreshed. *)
Lemma update_order_cases self ev self' r :
  update_order self ev = (self', r) -> r <> Panic ->
  (self' = self /\ exists e, r = Err e) \/
  exists id o o', k_orders self !! id = Some o /\ any_apply o ev = (o', Ok tt) /\ r = Ok o' /\
    exists r', refresh_order (self <| k_orders := <[id := o']> (k_orders self) |>) o' = (self', r') /\
      r' <> Panic.
Proof.
  unfold update_order, then_. destruct (resolve_event self ev) as [id|e|]; intros Hu Hp.
  2: injection Hu as <- <-; eauto.
  2: by injection Hu as <- <-.
  destruct (k_orders self !! id) as [o|] eqn:Ho; cbn in Hu; [|injection Hu as <- <-; eauto].
  destruct (any_apply o ev) as [o' [[]|e|]] eqn:Hap.
  - right. exists id, o, o'. destruct (refresh_order _ o') as [s1 [[]|e|]] eqn:Hr;
      injection Hu as <- <-; by eauto 10.
  - injection Hu as <- <-. eauto.
  - by injection Hu as <- <-.
Qed.

(** What an event must respect: the raw types, the order's account, and that a
    venue fills only orders that are no longer emulated (unless excepted). *)
Definition event_fits self (ev : OrderEventAny Dec) : Prop :=
  event_in_ty ev /\
  forall o, k_orders self !! event_client_order_id ev = Some o ->
    (forall a b, account_key o = Some a -> event_account_id ev = Some b -> a = b) /\
    (X (any_id o) = false -> is_filled ev = true -> has_emulation_trigger (any_core o) = false).

Lemma update_order_indexed self ev self' r :
  update_order self ev = (self', r) -> r <> Panic -> event_fits self ev ->
  orders_indexed self -> orders_indexed self'.
Proof.
  intros Hu Hp [Hty Hfit] Hok.
  destruct (update_order_cases _ _ _ _ Hu Hp)
    as [[-> _]|(id & o & o' & Ho & Hap & _ & r' & Hr & Hp')]; [done|].
  apply refresh_order_fields in Hr as [Eo Ef]; [|done]. unfold orders_indexed. rewrite Eo. cbn.
  eapply orders_ok_fields; [exact Ef|]. cbn.
  destruct (oi_id _ _ Hok _ _ Ho) as [Hid Hinv].
  pose proof (any_apply_Ok_id _ _ _ Hap) as Hev. rewrite Hid in Hev.
  destruct (Hfit o ltac:(by rewrite <- Hev)) as [Hacc Hfill].
  destruct (any_apply_effect _ _ _ Hinv Hty Hap) as [Hsame Hinv' Htr Hac Hop Hcl].
  eapply refresh_ok; [done|done| |done| |by intros _|].
  - unfold any_id in *. rewrite (si_id _ _ Hsame). done.
  - split; [done|]. unfold account_key in *. intros a Ha. destruct Hac as [->|(b & Hb & ->)]; [done|].
    by rewrite (Hacc a b).
  - intros HX Hc. destruct (Hcl Hc) as [?|[?|Ht]]; [by left|by right|].
    rewrite Hid in Hfill. destruct (is_filled ev) eqn:Hf; [by rewrite Hfill in Ht|]. exfalso.
    rewrite any_apply_eq in Hap.
    destruct (ol_apply_cases _ _ _ _ Hap ltac:(done)) as [(c & e & _ & [=] & _)|(c & Hc' & _ & _)].
    apply core_apply_Ok in Hc' as (_ & _ & _ & new & s1 & Htr' & _).
    unfold is_closed in Hc. change (ol_core o) with (any_core o) in Htr'.
    destruct (o_status (any_core o)), ev; done.
Qed.

Lemma add_order_indexed self o pid cid rep self' :
  cache_add_order self o pid cid rep = (self', Ok tt) ->
  core_inv (any_core o) -> (X (any_id o) = false -> is_active_local (any_core o) = true) ->
  (forall old, k_orders self !! any_id o = Some old ->
     replaces old o /\ (X (any_id o) = false -> is_active_local (any_core old) = true)) ->
  orders_indexed self -> orders_indexed self'.
Proof.
  unfold cache_add_order. destruct (_ && _); [done|]. intros Ha Hinv Hl Hold Hok.
  set (s1 := on_index (index_new_order o) self) in Ha.
  assert (H1 : orders_ok (<[any_id o := o]> (k_orders self)) (k_index s1)).
  { apply new_order_ok; [done|done|done|..|done|]; [|intros HX]; intros old E; by apply Hold. }
  assert (E1 : k_orders s1 = k_orders self) by done. clearbody s1.
  set (r2 := match pid with Some _ => _ | None => _ end) in Ha.
  destruct r2 as [s2 r] eqn:E2. assert (H2 : same_orders s1 s2).
  { subst r2. destruct pid; [by apply add_position_id_same in E2|by injection E2 as <- _]. }
  destruct r as [[]|e|]; cbn in Ha; [|done..].
  set (s3 := match cid with Some _ => _ | None => _ end) in Ha.
  assert (H3 : same_orders s2 s3) by (by subst s3; destruct cid).
  destruct (with_db s3 _) as [[]|e|]; cbn in Ha; [|done..]. injection Ha as <-.
  destruct (same_orders_trans _ _ _ H2 H3) as [Eo Ef]. unfold orders_indexed. cbn.
  rewrite Eo, E1. by eapply orders_ok_fields.
Qed.

Lemma replace_order_indexed self o old self' :
  replace_order self o = (self', Ok tt) ->
  k_orders self !! any_id o = Some old -> replaces old o -> core_inv (any_core o) ->
  (X (any_id o) = false -> o_status (any_core o) = o_status (any_core old) /\
     o_emulation_trigger (any_core o) = o_emulation_trigger (any_core old)) ->
  orders_indexed self -> orders_indexed self'.
Proof.
  unfold replace_order. intros Hr Hold Hrep Hinv Hs Hok.
  destruct (refresh_order self o) as [s1 [[]|e|]] eqn:E; cbn in Hr; [|done..]. injection Hr as <-.
  apply refresh_order_fields in E as [Eo Ef]; [|done]. unfold orders_indexed. cbn. rewrite Eo.
  eapply orders_ok_fields; [exact Ef|]. eapply refresh_ok; [done|done|done|done|done|..].
  - intros [Es Et]%Hs. unfold maybe_open, has_emulation_trigger. rewrite Es, Et. auto.
  - intros [Es Et]%Hs. unfold is_closed. rewrite Es. auto.
Qed.

(** Forcing an excepted order out of the sets that follow the status. *)
Lemma set_on_forced {A} (p : A -> bool) (os : gmap string A) s s' id :
  set_on X p os s -> X id = true -> is_Some (os !! id) ->
  (forall x, x <> id -> x ∈ s' <-> x ∈ s) -> set_on X p os s'.
Proof.
  intros Hs HX [o Ho] Hk x. destruct (decide (x = id)) as [->|Hne].
  - split; [by exists o|congruence].
  - rewrite (Hk x Hne). apply Hs.
Qed.

Lemma force_remove_indexed {E} self id self' :
  force_remove_from_own_order_book (E := E) self id = Ok self' -> X id = true ->
  orders_indexed self -> orders_indexed self'.
Proof.
  unfold force_remove_from_own_order_book. destruct (k_orders self !! id) as [o|] eqn:Ho; [|by intros [= <-]].
  intros H HX Hok. apply bind_Ok_inv in H as (oo & _ & H). set (s1 := on_index _ self) in H.
  apply bind_Ok_inv in H as (s2 & Hs2 & [= <-]).
  assert (Hsame : same_orders s1 s2).
  { destruct (k_own_books s1 !! _), oo; try by injection Hs2 as <-.
    destruct (own_delete _ _); by outcome_inv. }
  set (done_with := fun i => i <| x_orders_closed := {[id]} ∪ x_orders_closed i |>).
  apply (same_orders_indexed (on_index done_with s1)).
  { destruct Hsame as [E1 E2]. split; [exact E1|]. revert E2. unfold order_fields. cbn.
    intros [= -> -> -> -> -> -> -> -> -> -> -> -> -> -> ->]. done. }
  assert (Hst : is_Some (k_orders self !! id)) by eauto.
  assert (Hne : forall id', X id' = false -> id' <> id) by congruence.
  unfold orders_indexed in *. cbn. destruct Hok. split; cbn; try done.
  - eapply set_on_forced; [done..|set_solver].
  - eapply set_on_forced; [done..|set_solver].
  - eapply set_on_forced; [done..|set_solver].
  - intros id' o' HX' E1 Hop. apply elem_of_difference. split; [by eauto|]. apply Hne in HX'. set_solver.
  - set_solver.
  - intros id' o' HX' E1 Hop. apply elem_of_difference. split; [by eauto|]. apply Hne in HX'. set_solver.
  - set_solver.
Qed.

(** Setting a position id is invisible to the order indexes. *)
Lemma any_core_set_position_id o pid :
  any_core (any_set_position_id o pid) = set_position_id (any_core o) pid.
Proof. by destruct o. Qed.

Lemma set_position_id_ok os i id o pid :
  orders_ok os i -> os !! id = Some o ->
  orders_ok (<[id := any_set_position_id o pid]> os) i.
Proof.
  intros Hok Ho. set (o' := any_set_position_id o pid).
  assert (Hc : any_core o' = set_position_id (any_core o) pid) by apply any_core_set_position_id.
  assert (Hkeep : forall p : OrderCore Dec -> bool,
    p (any_core o') = p (any_core o) -> forall s,
    set_on X (fun o => p (any_core o)) os s -> set_on X (fun o => p (any_core o)) (<[id := o']> os) s).
  { intros p Hp s Hs. apply set_on_keep; [done|]. intros _. rewrite Hp. split; [by exists o|].
    intros (x & E & Hx). rewrite Ho in E. by injection E as <-. }
  assert (Hst : forall (P : OrderAny Dec -> Prop) id', (P o -> P o') ->
    stored os id' P -> stored (<[id := o']> os) id' P).
  { intros P id' HP Hs. apply put_stored; [|done]. intros old E. rewrite Ho in E. by injection E as <-. }
  assert (Hlk : forall id' x, <[id := o']> os !! id' = Some x ->
    exists y, os !! id' = Some y /\ any_core x = set_position_id (any_core y) (o_position_id (any_core x))).
  { intros id' x. rewrite lookup_insert_Some. intros [[<- <-]|[_ E]].
    - exists o. by rewrite Hc.
    - exists x. split; [done|]. by destruct (any_core x). }
  split.
  - intros id' x E. apply Hlk in E as (y & E & Hx). apply (oi_id _ _ Hok) in E as [Hid Hinv].
    unfold any_id in *. rewrite Hx. split; [done|].
    eapply same_state_inv; [|exact Hinv]. by split.
  - apply set_exact_keep; [apply Hok|]. split; [by exists o|done].
  - apply (Hkeep is_active_local); [by rewrite Hc|apply Hok].
  - apply (Hkeep is_closed); [by rewrite Hc|apply Hok].
  - apply (Hkeep is_inflight); [by rewrite Hc|apply Hok].
  - intros id' x HX E. apply Hlk in E as (y & E & ->). by apply (oi_open _ _ Hok).
  - intros id' Hin. apply Hst; [by rewrite Hc|]. by apply (oi_opened _ _ Hok).
  - intros id' x HX E. unfold emulated_now. apply Hlk in E as (y & E & ->). by apply (oi_emulated _ _ Hok).
  - intros id' Hin. apply Hst; [done|]. by apply (oi_emulates _ _ Hok).
  - eapply mm_exact_same; [apply Hok|done|]. unfold venue_key, any_venue. by rewrite Hc.
  - eapply mm_exact_same; [apply Hok|done|]. unfold instrument_key. by rewrite Hc.
  - eapply mm_exact_same; [apply Hok|done|]. unfold strategy_key. by rewrite Hc.
  - eapply mm_exact_same; [apply Hok|done|]. unfold account_key. by rewrite Hc.
  - eapply mm_exact_same; [apply Hok|done|]. unfold algorithm_key. by rewrite Hc.
  - intros k id' Hin. apply Hst; [by rewrite Hc|]. by apply (oi_spawn _ _ Hok).
  - intros id'. rewrite (oi_order_strategy _ _ Hok), lookup_insert. case_decide; [subst|done].
    rewrite Ho. cbn. by rewrite Hc.
  - intros id' x E. apply Hlk in E as (y & E & ->). by apply (oi_strategies _ _ Hok _ _ E).
  - intros id' x a E. unfold algorithm_key. apply Hlk in E as (y & E & ->).
    by apply (oi_algorithms _ _ Hok _ _ _ E).
Qed.

Lemma assign_indexed self l : orders_indexed self -> orders_indexed (foldl assign_position_id self l).
Proof.
  revert self. induction l as [|[pid id] l IH]; intros self Hok; [done|]. cbn [foldl]. apply IH.
  unfold assign_position_id. destruct (k_orders self !! id) as [o|] eqn:E; [|done].
  unfold orders_indexed. cbn. eapply orders_ok_fields; [|by apply set_position_id_ok]. done.
Qed.

Lemma purge_orders_loop_indexed {E} ts buf ids self aff self' aff' :
  purge_orders_loop (E := E) ts buf ids self aff = Ok (self', aff') ->
  orders_indexed self -> orders_indexed self'.
Proof.
  revert self aff. induction ids as [|id ids IH]; intros self aff H Hok; cbn in H.
  - by injection H as <- <-.
  - apply bind_Ok_inv in H as (t & _ & H). destruct t as [[linked l]|]; [|by eapply IH].
    destruct (linked_open self linked); [by eapply IH|].
    eapply IH; [exact H|]. by apply purge_order_indexed.
Qed.

Lemma drop_lists_same self l : same_orders self (foldl drop_order_list self l).
Proof.
  revert self. induction l as [|x l IH]; intros self; [done|]. cbn.
  eapply same_orders_trans; [|apply IH]. unfold drop_order_list. by repeat case_match.
Qed.

Lemma purge_closed_orders_indexed {E} self ts secs self' :
  purge_closed_orders (E := E) self ts secs = Ok self' -> orders_indexed self -> orders_indexed self'.
Proof.
  unfold purge_closed_orders. intros H Hok. apply bind_Ok_inv in H as (b & _ & H).
  apply bind_Ok_inv in H as ([s aff] & Hl & [= <-]).
  eapply same_orders_indexed; [apply drop_lists_same|]. by eapply purge_orders_loop_indexed.
Qed.

Lemma purge_position_same self id : same_orders self (purge_position self id).
Proof. unfold purge_position. destruct (k_positions self !! id); [destruct (position_is_open _)|]; done. Qed.

Lemma purge_closed_positions_same {E} self ts secs self' :
  purge_closed_positions (E := E) self ts secs = Ok self' -> same_orders self self'.
Proof.
  unfold purge_closed_positions. intros H. apply bind_Ok_inv in H as (b & _ & H).
  revert H. generalize (iter_set (x_positions_closed (k_index self))). intros l. revert self.
  induction l as [|id ids IH]; intros self H; cbn in H; [by injection H as <-|].
  apply bind_Ok_inv in H as (due & _ & H). apply IH in H.
  eapply same_orders_trans; [|exact H]. destruct due; [apply purge_position_same|done].
Qed.

(** ** Steps and runs *)

(** One call on the cache.  What the relation leaves out, and the theorems on
    runs with it: calls that panic; an [add_order] or [replace_order] that fails
    in the database after the index was changed; an order put in the place of
    another with a different identity or account; events outside the raw ranges
    or for another account than the order's.  For ids that are not excepted also:
    an order added when its status is no longer local, a replacement with another
    status, the fill of an order under emulation, and a forced removal. *)
Inductive cache_step : C -> C -> Prop :=
  | step_add_order self o pid cid rep self' :
      cache_add_order self o pid cid rep = (self', Ok tt) ->
      core_inv (any_core o) -> (X (any_id o) = false -> is_active_local (any_core o) = true) ->
      (forall old, k_orders self !! any_id o = Some old ->
         replaces old o /\ (X (any_id o) = false -> is_active_local (any_core old) = true)) ->
      cache_step self self'
  | step_add_refused self o pid cid :
      is_Some (k_orders self !! any_id o) -> cache_step self (cache_add_order self o pid cid false).1
  | step_update_order self ev self' r :
      update_order self ev = (self', r) -> r <> Panic -> event_fits self ev -> cache_step self self'
  | step_replace_order self o old self' :
      replace_order self o = (self', Ok tt) -> k_orders self !! any_id o = Some old ->
      replaces old o -> core_inv (any_core o) ->
      (X (any_id o) = false -> o_status (any_core o) = o_status (any_core old) /\
         o_emulation_trigger (any_core o) = o_emulation_trigger (any_core old)) ->
      cache_step self self'
  | step_force_remove self id self' :
      force_remove_from_own_order_book (E := CacheError) self id = Ok self' -> X id = true ->
      cache_step self self'
  | step_audit self self' :
      audit_own_order_books (E := CacheError) self = Ok self' -> cache_step self self'
  | step_pending_cancel self o : cache_step self (update_order_pending_cancel_local self o)
  | step_venue_order_id self id vid ov : cache_step self (add_venue_order_id self id vid ov).1
  | step_add_order_list self l : cache_step self (add_order_list self l).1
  | step_add_position_id self pid v id s : cache_step self (add_position_id self pid v id s).1
  | step_add_position self p : cache_step self (add_position self p).1
  | step_update_position self p : cache_step self (update_position self p).1
  | step_assign self : cache_step self (assign_position_ids_to_contingencies self)
  | step_account_state self ev : cache_step self (update_account_state self ev).1
  | step_own_book self o self' :
      update_own_order_book (E := CacheError) self o = Ok self' -> cache_step self self'
  | step_purge_order self id : cache_step self (purge_order self id)
  | step_purge_closed_orders self ts secs self' :
      purge_closed_orders (E := CacheError) self ts secs = Ok self' -> cache_step self self'
  | step_purge_position self id : cache_step self (purge_position self id)
  | step_purge_closed_positions self ts secs self' :
      purge_closed_positions (E := CacheError) self ts secs = Ok self' -> cache_step self self'
  | step_reset self : cache_step self (cache_reset self).

Definition cache_run (db : option (CacheDatabaseAdapter Dec)) self : Prop :=
  rtc cache_step (cache_new db) self.

Lemma cache_step_indexed self self' : cache_step self self' -> orders_indexed self -> orders_indexed self'.
Proof.
  intros Hs Hok. destruct Hs.
  - by eapply add_order_indexed.
  - unfold cache_add_order. by rewrite bool_decide_true.
  - by eapply update_order_indexed.
  - by eapply replace_order_indexed.
  - by eapply force_remove_indexed.
  - match goal with H : audit_own_order_books _ = _ |- _ => apply bind_Ok_inv in H as (b & _ & [= <-]) end. done.
  - by apply (same_orders_indexed self).
  - destruct (add_venue_order_id _ _ _ _) eqn:E. apply add_venue_order_id_same in E.
    by apply (same_orders_indexed self).
  - unfold add_order_list. destruct (bool_decide _); by apply (same_orders_indexed self).
  - destruct (add_position_id _ _ _ _ _) eqn:E. apply add_position_id_same in E.
    by apply (same_orders_indexed self).
  - destruct (add_position _ _) eqn:E. apply add_position_same in E. by apply (same_orders_indexed self).
  - destruct (update_position _ _) eqn:E. apply update_position_same in E.
    by apply (same_orders_indexed self).
  - by apply assign_indexed.
  - destruct (update_account_state _ _) eqn:E. apply update_account_state_same in E.
    by apply (same_orders_indexed self).
  - apply (same_orders_indexed self); [|done]. by eapply update_own_order_book_same.
  - by apply purge_order_indexed.
  - by eapply purge_closed_orders_indexed.
  - apply (same_orders_indexed self); [|done]. apply purge_position_same.
  - apply (same_orders_indexed self); [|done]. by eapply purge_closed_positions_same.
  - apply orders_ok_empty.
Qed.

Lemma cache_run_indexed db self : cache_run db self -> orders_indexed self.
Proof.
  unfold cache_run. intros Hr. remember (cache_new db) as c eqn:Ec.
  assert (Hok : orders_indexed c) by (subst c; apply orders_ok_empty). clear Ec.
  induction Hr as [|x y z Hs _ IH]; [done|]. apply IH. by eapply cache_step_indexed.
Qed.
End Steps.
