(* ===== verification/CacheDemo.v ===== *)
(** * A concrete cache

    Instances of the iteration order and of the order of identifiers, a run of
    the cache with two orders, and the behaviours of the cache that leave the
    index behind, evaluated. *)

From stdpp Require Import base numbers list strings gmap.
From Stdlib Require Import ZArith Lia.
From S2P Require Import Prelude F64 Fixed Price Quantity Money Enums OrderEvents OrderCore OrderLife Orders OrderReplay Own Position Account CacheIndex Cache CacheQuery CacheBuild CacheInv CacheSteps.

#[export] Instance elements_iter : HashIter := {|
  iter_set := elements;
  iter_map := fun A m => map_to_list m;
  iter_set_perm := fun s => reflexivity _;
  iter_map_perm := fun A m => reflexivity _;
|}.

(** Any injective numbering of the strings orders them totally. *)
#[export] Program Instance encode_order : IdOrd := {|
  id_leb x y := (encode x <=? encode y)%positive;
|}.
Next Obligation. intros x y. rewrite !Pos.leb_le. lia. Qed.
Next Obligation. intros x y z. rewrite !Pos.leb_le. lia. Qed.
Next Obligation. intros x y. rewrite !Pos.leb_le. intros. apply (inj encode). lia. Qed.

Module CacheDemo.
#[local] Existing Instance standard_mode.
Import Demo.
Abbreviation Dec := (Z * Z)%type.

Definition header_of (id : ClientOrderId) (ts : Z) : EventHeader :=
  mkHeader "TRADER-001" "S-001" (mkInstrumentId "AUD/USD" "SIM") id "e" ts ts false.
Definition init_of (id : ClientOrderId) : OrderInitialized Dec :=
  mkInitialized Dec (header_of id 1) Buy Limit (qty 100) Gtc false false false (Some (px 10)) None None
    None None None None None None None None None None None None None None None.

(** The cache after an order is added and after an event, and checks that the
    calls are steps. *)
Definition add (id : ClientOrderId) (pid : option PositionId) (c : Cache Dec) : Cache Dec :=
  match any_try_from (init_of id) with Ok o => (cache_add_order c o pid None false).1 | _ => c end.
Definition adds (id : ClientOrderId) (pid : option PositionId) (c : Cache Dec) : bool :=
  match any_try_from (init_of id) with
  | Ok o =>
      is_ok (cache_add_order c o pid None false).2 && is_active_local (any_core o)
      && match k_orders c !! any_id o with None => true | Some _ => false end
  | _ => false
  end.
Definition apply_ev (e : OrderEventAny Dec) (c : Cache Dec) : Cache Dec := (update_order c e).1.
Definition applies (e : OrderEventAny Dec) (c : Cache Dec) : bool :=
  match (update_order c e).2 with Panic => false | _ => true end
  && match k_orders c !! event_client_order_id e with
     | Some o =>
         match o_account_id (any_core o), event_account_id e with
         | Some a, Some b => bool_decide (a = b) | _, _ => true end
         && negb (is_filled e && has_emulation_trigger (any_core o))
     | None => true
     end.

Lemma adds_step {X : Excepted} id pid c : adds id pid c = true -> cache_step c (add id pid c).
Proof.
  unfold adds, add. destruct (any_try_from (init_of id)) as [o| |] eqn:Eo; [|done..].
  rewrite !andb_true_iff. intros [[Hok Hl] Hn].
  destruct (cache_add_order c o pid None false) as [c' r] eqn:Ea. cbn in *.
  destruct r as [[]| |]; [|done..]. eapply step_add_order; [exact Ea| |by intros _|].
  - destruct (any_try_from_reachable (M := standard_mode) (init_of id) o eq_refl ltac:(done) Eo) as [i Hi]. by eapply reachable_inv.
  - intros old Hold. by rewrite Hold in Hn.
Qed.

Lemma applies_step {X : Excepted} e c : event_in_ty e -> applies e c = true -> cache_step c (apply_ev e c).
Proof.
  unfold applies, apply_ev. intros Hty. rewrite andb_true_iff. intros [Hr Hf].
  destruct (update_order c e) as [c' r] eqn:Eu. eapply step_update_order; [exact Eu|by destruct r|].
  split; [done|]. intros o Ho. rewrite Ho in Hf. apply andb_true_iff in Hf as [Ha Hf]. split.
  - intros a b Hoa Heb. unfold account_key in Hoa. rewrite Hoa, Heb in Ha. by apply bool_decide_eq_true in Ha.
  - intros _ Hfill. rewrite Hfill in Hf. by destruct (has_emulation_trigger _).
Qed.

Definition ev_submitted id : OrderEventAny Dec := EvSubmitted (mkSubmitted (header_of id 2) "A-1").
Definition ev_accepted id vid : OrderEventAny Dec :=
  EvAccepted (mkAccepted (header_of id 3) vid "A-1").
Definition ev_pending_update id : OrderEventAny Dec :=
  EvPendingUpdate (mkPendingUpdate (header_of id 4) "A-1" None).
Definition ev_modify_rejected id : OrderEventAny Dec :=
  EvModifyRejected (mkModifyRejected (header_of id 5) "" None None).
Definition ev_updated id vid : OrderEventAny Dec :=
  EvUpdated (mkUpdated (header_of id 6) (Some vid) None (qty 80) None None None false).
Definition ev_canceled id : OrderEventAny Dec := EvCanceled (mkCanceled (header_of id 7) None None).

Definition empty : Cache Dec := cache_new None.

(** An open order and a canceled one. *)
Definition demo : Cache Dec :=
  apply_ev (ev_canceled "O-2") (apply_ev (ev_accepted "O-1" "V-1")
    (apply_ev (ev_submitted "O-1") (add "O-2" None (add "O-1" None empty)))).

Lemma demo_run {X : Excepted} : cache_run None demo.
Proof.
  unfold cache_run, demo. fold empty.
  eapply rtc_l; [apply (adds_step "O-1" None); vm_compute; reflexivity|].
  eapply rtc_l; [apply (adds_step "O-2" None); vm_compute; reflexivity|].
  eapply rtc_l; [apply (applies_step (ev_submitted "O-1")); [exact I|vm_compute; reflexivity]|].
  eapply rtc_l; [apply (applies_step (ev_accepted "O-1" "V-1")); [exact I|vm_compute; reflexivity]|].
  eapply rtc_l; [apply (applies_step (ev_canceled "O-2")); [exact I|vm_compute; reflexivity]|].
  apply rtc_refl.
Qed.

(** The execution engine forces the open order out of its books: the order is
    stored as open and indexed as closed. *)
Definition force (id : ClientOrderId) (c : Cache Dec) : Cache Dec :=
  match force_remove_from_own_order_book (E := CacheError) c id with Ok c' => c' | _ => c end.
Definition forced : Cache Dec := force "O-1" demo.
#[local] Instance except_O1 : Excepted := fun id => bool_decide (id = "O-1").
Lemma forced_run : cache_run None forced.
Proof.
  eapply rtc_r; [apply demo_run|]. apply (step_force_remove demo "O-1"); vm_compute; reflexivity.
Qed.
Example forced_order_is_closed :
  bool_decide ("O-1" ∈ bucket_of forced BClosed) = true /\
  bool_decide ("O-1" ∈ bucket_of forced BOpen) = false /\
  (is_open ∘ any_core <$> (k_orders forced !! "O-1")) = Some true.
Proof. split_and!; vm_compute; reflexivity. Qed.

(** ** Where the index is left behind *)

(** A submitted order whose modification is rejected stays in the open set. *)
Definition stale_open : Cache Dec :=
  apply_ev (ev_modify_rejected "O-1") (apply_ev (ev_pending_update "O-1")
    (apply_ev (ev_submitted "O-1") (add "O-1" None empty))).
Example open_set_is_stale :
  bool_decide ("O-1" ∈ bucket_of stale_open BOpen) = true /\
  (is_open ∘ any_core <$> k_orders stale_open !! "O-1") = Some false.
Proof. split; vm_compute; reflexivity. Qed.

(** An order that named a position when it was added is purged from the
    position's set only if the order itself carries the position id: the query
    for the position's orders then panics. *)
Definition purged_with_position : Cache Dec :=
  purge_order (apply_ev (ev_canceled "O-1") (add "O-1" (Some "P-1") empty)) "O-1".
Example purge_leaves_position_orders :
  orders_for_position (E := unit) purged_with_position "P-1" = Panic.
Proof. vm_compute. reflexivity. Qed.

(** Purging the last order of a strategy makes the integrity check fail. *)
Definition purged_last : Cache Dec :=
  purge_order (apply_ev (ev_canceled "O-1") (add "O-1" None empty)) "O-1".
Example purge_breaks_integrity :
  check_integrity (E := unit) (apply_ev (ev_canceled "O-1") (add "O-1" None empty)) = Ok true /\
  check_integrity (E := unit) purged_last = Ok false.
Proof. split; vm_compute; reflexivity. Qed.

(** A replaced venue order id survives the purge of its order. *)
Definition purged_replaced : Cache Dec :=
  purge_order (apply_ev (ev_canceled "O-1") (apply_ev (ev_updated "O-1" "V-2")
    (apply_ev (ev_accepted "O-1" "V-1") (apply_ev (ev_submitted "O-1") (add "O-1" None empty))))) "O-1".
Example purge_leaves_venue_order_id :
  x_venue_order_ids (k_index purged_replaced) !! "V-1" = Some "O-1".
Proof. vm_compute. reflexivity. Qed.

(** A venue that returns to an earlier venue order id is not followed. *)
Definition returned : Cache Dec :=
  apply_ev (ev_updated "O-1" "V-1") (apply_ev (ev_updated "O-1" "V-2")
    (apply_ev (ev_accepted "O-1" "V-1") (apply_ev (ev_submitted "O-1") (add "O-1" None empty)))).
Example venue_order_id_is_stale :
  (o_venue_order_id ∘ any_core <$> k_orders returned !! "O-1") = Some (Some "V-1") /\
  x_client_order_ids (k_index returned) !! "O-1" = Some "V-2".
Proof. split; vm_compute; reflexivity. Qed.

(** A database that refuses the order leaves it indexed and not stored: the
    query for all orders panics. *)
Definition refusing : CacheDatabaseAdapter Dec :=
  mkDatabase Dec (fun _ => true) (fun _ _ => false) (fun _ => true) (fun _ _ => true)
    (fun _ => true) (fun _ => true) (fun _ => true).
Example refused_order_is_indexed :
  orders (E := unit) None None None None (add "O-1" None (cache_new (Some refusing))) BAll None = Panic.
Proof. vm_compute. reflexivity. Qed.
End CacheDemo.
