(* ===== verification/CacheBuildSpec.v ===== *)
(** * The rebuilt index ([build_index], [check_integrity])

    An index built from nothing is exact; for a cache run it is the index the
    operations maintained; and the integrity check accepts it exactly when
    every position has an order of its instrument and of its strategy and every
    primary of an execution algorithm has a spawned order. *)

From stdpp Require Import base numbers list strings gmap.
From Stdlib Require Import ZArith Lia.
From S2P Require Import Prelude F64 Fixed Price Quantity Money Enums OrderEvents OrderCore OrderLife Orders Own Position Account CacheIndex Cache CacheBuild CacheInv CacheSteps CacheDemo.

(* ------------------------------------------------------------------ *)
(** ** Folds over the entries of a map *)

Lemma foldl_proj {S T X} (proj : S -> T) (f : S -> X -> S) (g : T -> X -> T) i l :
  (forall i x, proj (f i x) = g (proj i) x) -> proj (foldl f i l) = foldl g (proj i) l.
Proof. intros H. revert i. induction l as [|x l IH]; intros i; [done|]. cbn. by rewrite IH, H. Qed.

Section Fold.
Context `{HI : HashIter} {A : Type}.
Implicit Types (os : gmap string A) (l : list (string * A)).

Lemma elem_of_iter_map os id o : (id, o) ∈ iter_map os <-> os !! id = Some o.
Proof. rewrite iter_map_perm. apply elem_of_map_to_list. Qed.

Lemma fold_insert_if (p : A -> bool) s l id :
  id ∈ foldl (fun s kv => insert_if (p kv.2) kv.1 s) s l <->
  id ∈ s \/ exists o, (id, o) ∈ l /\ p o = true.
Proof.
  revert s. induction l as [|[id0 o0] l IH]; intros s; cbn.
  - split; [auto|]. intros [?|(o & Hin & _)]; [done|]. by apply elem_of_nil in Hin.
  - rewrite IH, elem_of_insert_if. setoid_rewrite elem_of_cons. cbn. naive_solver.
Qed.

Lemma fold_set_exact (p : A -> bool) os :
  set_exact p os (foldl (fun s kv => insert_if (p kv.2) kv.1 s) ∅ (iter_map os)).
Proof.
  intros id. rewrite fold_insert_if. unfold stored. setoid_rewrite elem_of_iter_map. set_solver.
Qed.

Lemma fold_mm_insert {K} `{Countable K} (key : A -> option K) m l k id :
  id ∈ mm_get (foldl (fun m kv => mm_insert_opt (key kv.2) kv.1 m) m l) k <->
  id ∈ mm_get m k \/ exists o, (id, o) ∈ l /\ key o = Some k.
Proof.
  revert m. induction l as [|[id0 o0] l IH]; intros m; cbn.
  - split; [auto|]. intros [?|(o & Hin & _)]; [done|]. by apply elem_of_nil in Hin.
  - rewrite IH, elem_of_mm_insert_opt. setoid_rewrite elem_of_cons. cbn.
    split; [intros [[[? ->]|?]|(o & ? & ?)]|intros [?|(o & [[= -> ->]|?] & ?)]]; eauto 6.
Qed.

Lemma fold_mm_tight {K} `{Countable K} (key : A -> option K) m l :
  mm_tight m -> mm_tight (foldl (fun m kv => mm_insert_opt (key kv.2) kv.1 m) m l).
Proof.
  revert m. induction l as [|[id o] l IH]; intros m Hm; [done|]. apply IH. by apply mm_tight_insert_opt.
Qed.

Lemma fold_mm_exact {K} `{Countable K} (key : A -> option K) os :
  mm_exact key os (foldl (fun m kv => mm_insert_opt (key kv.2) kv.1 m) ∅ (iter_map os)).
Proof.
  split; [apply fold_mm_tight, mm_tight_empty|]. intros k id. rewrite fold_mm_insert.
  unfold stored, mm_get. rewrite lookup_empty. setoid_rewrite elem_of_iter_map. set_solver.
Qed.

Lemma iter_map_NoDup os : NoDup (iter_map os).*1.
Proof. rewrite iter_map_perm. apply NoDup_fst_map_to_list. Qed.

(** Inserting every entry, under its own key. *)
Lemma fold_insert {B} (f : A -> B) (m : gmap string B) l id :
  NoDup l.*1 ->
  foldl (fun m kv => <[kv.1 := f kv.2]> m) m l !! id =
  match list_to_map (M := gmap string A) l !! id with Some o => Some (f o) | None => m !! id end.
Proof.
  revert m. induction l as [|[id0 o0] l IH]; intros m Hnd; cbn; [by rewrite lookup_empty|].
  apply NoDup_cons in Hnd as [Hni Hnd]. cbn in Hni. rewrite IH by done.
  destruct (decide (id0 = id)) as [->|Hne].
  - rewrite lookup_insert_eq. apply not_elem_of_list_to_map_1 in Hni as ->. by rewrite lookup_insert_eq.
  - by rewrite !lookup_insert_ne by done.
Qed.

Lemma fold_insert_exact {B} (f : A -> B) os id :
  foldl (fun (m : gmap string B) kv => <[kv.1 := f kv.2]> m) ∅ (iter_map os) !! id = f <$> os !! id.
Proof.
  rewrite fold_insert by apply iter_map_NoDup.
  rewrite (list_to_map_proper _ (map_to_list os)); [|apply iter_map_NoDup|apply iter_map_perm].
  rewrite list_to_map_to_list. by destruct (os !! id).
Qed.

(** Inserting under a key read off the entry: every value is a known id. *)
Lemma fold_values {K} `{Countable K} (key : A -> option K) (m : gmap K string) l k id :
  foldl (fun m kv => match key kv.2 with Some k => <[k := kv.1]> m | None => m end) m l !! k = Some id ->
  m !! k = Some id \/ exists o, (id, o) ∈ l.
Proof.
  revert m. induction l as [|[id0 o0] l IH]; intros m; cbn; [auto|]. intros Hl.
  apply IH in Hl as [Hl|(o & Ho)]; [|right; exists o; by right].
  destruct (key o0) as [k0|]; [|auto]. apply lookup_insert_Some in Hl as [[_ <-]|[_ ?]]; [|auto].
  right. exists o0. left.
Qed.

(** Inserting a field of some entries under their own key. *)
Lemma fold_keys {B} (f : A -> option B) (m : gmap string B) l id :
  is_Some (foldl (fun m kv => match f kv.2 with Some b => <[kv.1 := b]> m | None => m end) m l !! id) ->
  is_Some (m !! id) \/ exists o, (id, o) ∈ l.
Proof.
  revert m. induction l as [|[id0 o0] l IH]; intros m; cbn; [auto|]. intros Hl.
  apply IH in Hl as [Hl|(o & Ho)]; [|right; exists o; by right].
  destruct (f o0) as [b|]; [|auto]. apply lookup_insert_is_Some in Hl as [<-|[_ ?]]; [|auto].
  right. exists o0. left.
Qed.

(** Collecting a field of the entries. *)
Lemma fold_collect (f : A -> option string) (s : gset string) l x :
  x ∈ foldl (fun s kv => match f kv.2 with Some b => {[b]} ∪ s | None => s end) s l <->
  x ∈ s \/ exists id o, (id, o) ∈ l /\ f o = Some x.
Proof.
  revert s. induction l as [|[id0 o0] l IH]; intros s; cbn.
  - split; [auto|]. intros [?|(id & o & Hin & _)]; [done|]. by apply elem_of_nil in Hin.
  - rewrite IH. setoid_rewrite elem_of_cons. destruct (f o0) as [b|] eqn:E.
    + rewrite elem_of_union, elem_of_singleton. split.
      * intros [[->|?]|(id & o & ? & ?)]; [right; exists id0, o0; auto|auto|right; eauto 6].
      * intros [?|(id & o & [[= -> ->]|?] & E')]; [auto| |right; eauto].
        left. left. congruence.
    + split.
      * intros [?|(id & o & ? & ?)]; [auto|right; eauto 6].
      * intros [?|(id & o & [[= -> ->]|?] & E')]; [auto|congruence|right; eauto].
Qed.
End Fold.

(** *** Failures *)
Lemma failures_0 {A} (bad : A -> nat) l : failures bad l = 0%nat <-> forall x, x ∈ l -> bad x = 0%nat.
Proof.
  unfold failures. induction l as [|y l IH]; cbn.
  - split; [|done]. intros _ x Hx. by apply elem_of_nil in Hx.
  - setoid_rewrite elem_of_cons. split; [intros H x [->|Hx]; [lia|]|].
    + apply IH; [lia|done].
    + intros H. rewrite (H y), (proj2 IH); [done|intros; apply H; auto|auto].
Qed.
Lemma missing_0 b : missing b = 0%nat <-> b = true.
Proof. by destruct b. Qed.
Lemma has_key_true {K V} `{Countable K} (k : K) (m : gmap K V) : has_key k m = true <-> is_Some (m !! k).
Proof. apply bool_decide_eq_true. Qed.
Lemma elem_of_members {K} `{Countable K} (m : gmap K (gset string)) x :
  x ∈ members m <-> exists k, x ∈ mm_get m k.
Proof.
  unfold members, mm_get. rewrite list_elem_of_bind. split.
  - intros ([k s] & Hx & Hin). apply elem_of_map_to_list in Hin. exists k. rewrite Hin.
    by apply elem_of_elements in Hx.
  - intros [k Hx]. destruct (m !! k) as [s|] eqn:E; cbn in Hx; [|set_solver].
    exists (k, s). by rewrite elem_of_map_to_list, elem_of_elements.
Qed.
Lemma elem_of_keys {K V} `{Countable K} (m : gmap K V) k : k ∈ (map_to_list m).*1 <-> is_Some (m !! k).
Proof.
  rewrite list_elem_of_fmap. split.
  - intros ([k' v] & -> & Hin). apply elem_of_map_to_list in Hin. by exists v.
  - intros [v Hv]. exists (k, v). by rewrite elem_of_map_to_list.
Qed.
Lemma elem_of_values {K V} `{Countable K} (m : gmap K V) v :
  v ∈ (map_to_list m).*2 <-> exists k, m !! k = Some v.
Proof.
  rewrite list_elem_of_fmap. split.
  - intros ([k v'] & -> & Hin). apply elem_of_map_to_list in Hin. by exists k.
  - intros [k Hk]. exists (k, v). by rewrite elem_of_map_to_list.
Qed.

Lemma foldl_frame {S T X} (proj : S -> T) (f : S -> X -> S) i l :
  (forall i x, proj (f i x) = proj i) -> proj (foldl f i l) = proj i.
Proof. intros H. revert i. induction l as [|x l IH]; intros i; [done|]. cbn. by rewrite IH. Qed.

(* ------------------------------------------------------------------ *)
(** ** The index built from nothing *)

Section BuildSpec.
Context `{M : Mode} {Dec : Type} `{D : !DecimalApi Dec} `{HI : HashIter}.
Abbreviation C := (Cache Dec).
Implicit Types (self : C) (i : CacheIndex).

(** Every account identifier names its issuer. *)
Definition has_issuers self : Prop :=
  forall id a, k_accounts self !! id = Some a -> is_Some (split_hyphen id).

Lemma index_accounts_spec {E} ids i :
  Forall (fun id => is_Some (split_hyphen id)) ids ->
  exists m, index_accounts (E := E) ids i = Ok (i <| x_venue_account := m |>) /\
    (forall id v, id ∈ ids -> split_hyphen id = Some v -> is_Some (m !! v)) /\
    (forall v, is_Some (x_venue_account i !! v) -> is_Some (m !! v)) /\
    (forall v id, m !! v = Some id -> x_venue_account i !! v = Some id \/ id ∈ ids).
Proof.
  revert i. induction ids as [|id ids IH]; intros i Hall.
  - exists (x_venue_account i). split_and!; [by destruct i| |done|auto].
    intros ? ? Hin. by apply elem_of_nil in Hin.
  - apply Forall_cons in Hall as [[v Hv] Hall]. cbn. unfold get_issuer. rewrite Hv. cbn.
    destruct (IH (i <| x_venue_account := <[v := id]> (x_venue_account i) |>) Hall)
      as (m & Hm & Hin & Hold & Hval). cbn in *. exists m. split_and!; [done|..].
    + intros id' v'. rewrite elem_of_cons. intros [->|Hid] Hv'; [|by eapply Hin].
      rewrite Hv in Hv'. injection Hv' as <-. apply Hold. rewrite lookup_insert_eq. eauto.
    + intros v' Hs. apply Hold. rewrite lookup_insert. case_decide; eauto.
    + intros v' id' Hl. setoid_rewrite elem_of_cons. apply Hval in Hl as [Hl|?]; [|auto].
      apply lookup_insert_Some in Hl as [[_ ->]|[_ ?]]; auto.
Qed.

Definition position_key {K} (f : Position Dec -> K) (p : Position Dec) : option K := Some (f p).

(** What each field of the rebuilt index is. *)
Record rebuilt self i : Prop := {
  rb_orders : set_exact (fun _ => true) (k_orders self) (x_orders i);
  rb_local : set_exact (fun o => is_active_local (any_core o)) (k_orders self) (x_orders_active_local i);
  rb_open : set_exact (fun o => is_open (any_core o)) (k_orders self) (x_orders_open i);
  rb_closed : set_exact (fun o => is_closed (any_core o)) (k_orders self) (x_orders_closed i);
  rb_emulated : set_exact emulated_now (k_orders self) (x_orders_emulated i);
  rb_inflight : set_exact (fun o => is_inflight (any_core o)) (k_orders self) (x_orders_inflight i);
  rb_venue : mm_exact venue_key (k_orders self) (x_venue_orders i);
  rb_instrument : mm_exact instrument_key (k_orders self) (x_instrument_orders i);
  rb_strategy : mm_exact strategy_key (k_orders self) (x_strategy_orders i);
  rb_account : mm_exact account_key (k_orders self) (x_account_orders i);
  rb_algorithm : mm_exact algorithm_key (k_orders self) (x_exec_algorithm_orders i);
  rb_spawn : mm_exact (fun o => o_exec_spawn_id (any_core o)) (k_orders self) (x_exec_spawn_orders i);
  rb_order_strategy : forall id, x_order_strategy i !! id =
    (fun o => o_strategy_id (any_core o)) <$> k_orders self !! id;
  rb_order_position : forall id, is_Some (x_order_position i !! id) -> is_Some (k_orders self !! id);
  rb_venue_order_ids : forall vid id, x_venue_order_ids i !! vid = Some id -> is_Some (k_orders self !! id);
  rb_client_order_ids : x_client_order_ids i = ∅;
  rb_algorithms : forall a, a ∈ x_exec_algorithms i <->
    exists id, stored (k_orders self) id (fun o => algorithm_key o = Some a);
  rb_strategies : forall s, s ∈ x_strategies i <->
    (exists id, stored (k_orders self) id (fun o => o_strategy_id (any_core o) = s)) \/
    (exists id, stored (k_positions self) id (fun p => pp_strategy_id p = s));
  rb_positions : set_exact (fun _ => true) (k_positions self) (x_positions i);
  rb_positions_open : set_exact position_is_open (k_positions self) (x_positions_open i);
  rb_positions_closed : set_exact position_is_closed (k_positions self) (x_positions_closed i);
  rb_instrument_positions :
    mm_exact (position_key pp_instrument_id) (k_positions self) (x_instrument_positions i);
  rb_strategy_positions :
    mm_exact (position_key pp_strategy_id) (k_positions self) (x_strategy_positions i);
  rb_position_strategy : forall id, x_position_strategy i !! id =
    pp_strategy_id <$> k_positions self !! id;
  rb_position_orders : forall id, is_Some (x_position_orders i !! id) <-> is_Some (k_positions self !! id);
}.

Lemma fold_extend_keys (m : gmap string (gset string)) (l : list (PositionId * Position Dec)) id :
  is_Some (foldl (fun m kv => mm_extend kv.1 (position_client_order_ids kv.2) m) m l !! id) <->
  is_Some (m !! id) \/ exists p, (id, p) ∈ l.
Proof.
  revert m. induction l as [|[id0 p0] l IH]; intros m; cbn.
  - split; [auto|]. intros [?|(p & Hin)]; [done|]. by apply elem_of_nil in Hin.
  - rewrite IH. setoid_rewrite elem_of_cons. unfold mm_extend. rewrite lookup_insert_is_Some.
    destruct (decide (id0 = id)) as [->|Hne]; naive_solver.
Qed.

Definition rebuilt_index self (m : gmap Venue AccountId) : CacheIndex :=
  foldl index_position
    (foldl index_order (index_default <| x_venue_account := m |>) (iter_map (k_orders self)))
    (iter_map (k_positions self)).

(** Read one field off the two folds. *)
Ltac order_field proj g :=
  match goal with |- context [proj (foldl index_position ?i ?l)] =>
    rewrite (foldl_frame proj index_position i l) by (by intros ? []) end;
  match goal with |- context [proj (foldl index_order ?i ?l)] =>
    rewrite (foldl_proj proj index_order g i l) by (by intros ? []) end; cbn.
Ltac position_field proj g :=
  match goal with |- context [proj (foldl index_position ?i ?l)] =>
    rewrite (foldl_proj proj index_position g i l) by (by intros ? []) end;
  match goal with |- context [proj (foldl index_order ?i ?l)] =>
    rewrite (foldl_frame proj index_order i l) by (by intros ? []) end; cbn.

Lemma rebuilt_index_ok self m : rebuilt self (rebuilt_index self m).
Proof.
  unfold rebuilt_index. split.
  - order_field x_orders (fun s (kv : string * OrderAny Dec) => insert_if true kv.1 s). apply (fold_set_exact (fun _ => true)).
  - order_field x_orders_active_local
      (fun s (kv : string * OrderAny Dec) => insert_if (is_active_local (any_core kv.2)) kv.1 s).
    apply (fold_set_exact (fun o => is_active_local (any_core o))).
  - order_field x_orders_open
      (fun s (kv : string * OrderAny Dec) => insert_if (is_open (any_core kv.2)) kv.1 s).
    apply (fold_set_exact (fun o => is_open (any_core o))).
  - order_field x_orders_closed
      (fun s (kv : string * OrderAny Dec) => insert_if (is_closed (any_core kv.2)) kv.1 s).
    apply (fold_set_exact (fun o => is_closed (any_core o))).
  - order_field x_orders_emulated
      (fun s (kv : string * OrderAny Dec) => insert_if (emulated_now kv.2) kv.1 s).
    apply (fold_set_exact emulated_now).
  - order_field x_orders_inflight
      (fun s (kv : string * OrderAny Dec) => insert_if (is_inflight (any_core kv.2)) kv.1 s).
    apply (fold_set_exact (fun o => is_inflight (any_core o))).
  - order_field x_venue_orders
      (fun m (kv : string * OrderAny Dec) => mm_insert_opt (venue_key kv.2) kv.1 m).
    apply (fold_mm_exact venue_key).
  - order_field x_instrument_orders
      (fun m (kv : string * OrderAny Dec) => mm_insert_opt (instrument_key kv.2) kv.1 m).
    apply (fold_mm_exact instrument_key).
  - order_field x_strategy_orders
      (fun m (kv : string * OrderAny Dec) => mm_insert_opt (strategy_key kv.2) kv.1 m).
    apply (fold_mm_exact strategy_key).
  - order_field x_account_orders
      (fun m (kv : string * OrderAny Dec) => mm_insert_opt (account_key kv.2) kv.1 m).
    apply (fold_mm_exact account_key).
  - order_field x_exec_algorithm_orders
      (fun m (kv : string * OrderAny Dec) => mm_insert_opt (algorithm_key kv.2) kv.1 m).
    apply (fold_mm_exact algorithm_key).
  - order_field x_exec_spawn_orders
      (fun m (kv : string * OrderAny Dec) => mm_insert_opt (o_exec_spawn_id (any_core kv.2)) kv.1 m).
    apply (fold_mm_exact (fun o => o_exec_spawn_id (any_core o))).
  - intros id. order_field x_order_strategy
      (fun (m : gmap string string) (kv : string * OrderAny Dec) =>
         <[kv.1 := o_strategy_id (any_core kv.2)]> m).
    apply (fold_insert_exact (fun o => o_strategy_id (any_core o))).
  - intros id. order_field x_order_position
      (fun (m : gmap string string) (kv : string * OrderAny Dec) =>
         match o_position_id (any_core kv.2) with Some p => <[kv.1 := p]> m | None => m end).
    intros Hs. apply (fold_keys (fun o => o_position_id (any_core o))) in Hs as [Hs|(o & Ho)].
    + rewrite lookup_empty in Hs. by destruct Hs.
    + apply elem_of_iter_map in Ho. eauto.
  - intros vid id. order_field x_venue_order_ids
      (fun (m : gmap string string) (kv : string * OrderAny Dec) =>
         match o_venue_order_id (any_core kv.2) with Some v => <[v := kv.1]> m | None => m end).
    intros Hs. apply (fold_values (fun o => o_venue_order_id (any_core o))) in Hs as [Hs|(o & Ho)].
    + by rewrite lookup_empty in Hs.
    + apply elem_of_iter_map in Ho. eauto.
  - rewrite foldl_frame by (by intros ? []). by rewrite foldl_frame by (by intros ? []).
  - intros a. order_field x_exec_algorithms
      (fun (s : gset string) (kv : string * OrderAny Dec) =>
         match algorithm_key kv.2 with Some b => {[b]} ∪ s | None => s end).
    rewrite (fold_collect algorithm_key). unfold stored. setoid_rewrite elem_of_iter_map. set_solver.
  - intros s. rewrite (foldl_proj x_strategies index_position
      (fun (s : gset string) (kv : string * Position Dec) =>
         match position_key pp_strategy_id kv.2 with Some b => {[b]} ∪ s | None => s end))
      by (by intros ? []).
    rewrite (fold_collect (position_key pp_strategy_id)).
    rewrite (foldl_proj x_strategies index_order
      (fun (s : gset string) (kv : string * OrderAny Dec) =>
         match strategy_key kv.2 with Some b => {[b]} ∪ s | None => s end)) by (by intros ? []).
    rewrite (fold_collect strategy_key). unfold stored, position_key, strategy_key. cbn.
    setoid_rewrite elem_of_iter_map.
    split; [intros [[?|(id & o & ? & [= <-])]|(id & p & ? & [= <-])]; [set_solver|left; eauto|right; eauto]|].
    intros [(id & o & ? & <-)|(id & p & ? & <-)]; [left; right; eauto|right; eauto].
  - position_field x_positions (fun s (kv : string * Position Dec) => insert_if true kv.1 s).
    apply (fold_set_exact (fun _ => true)).
  - position_field x_positions_open
      (fun s (kv : string * Position Dec) => insert_if (position_is_open kv.2) kv.1 s).
    apply (fold_set_exact position_is_open).
  - position_field x_positions_closed
      (fun s (kv : string * Position Dec) => insert_if (position_is_closed kv.2) kv.1 s).
    apply (fold_set_exact position_is_closed).
  - position_field x_instrument_positions
      (fun m (kv : string * Position Dec) => mm_insert_opt (position_key pp_instrument_id kv.2) kv.1 m).
    apply (fold_mm_exact (position_key pp_instrument_id)).
  - position_field x_strategy_positions
      (fun m (kv : string * Position Dec) => mm_insert_opt (position_key pp_strategy_id kv.2) kv.1 m).
    apply (fold_mm_exact (position_key pp_strategy_id)).
  - intros id. position_field x_position_strategy
      (fun (m : gmap string string) (kv : string * Position Dec) => <[kv.1 := pp_strategy_id kv.2]> m).
    apply (fold_insert_exact pp_strategy_id).
  - intros id. position_field x_position_orders
      (fun (m : gmap string (gset string)) (kv : string * Position Dec) =>
         mm_extend kv.1 (position_client_order_ids kv.2) m).
    rewrite fold_extend_keys, lookup_empty. setoid_rewrite elem_of_iter_map.
    split; [intros [[? [=]]|(p & Hp)]; eauto|intros [p Hp]; eauto].
Qed.

Lemma build_cleared {E} self :
  has_issuers self ->
  exists m, build_index (E := E) (clear_index self) = Ok (self <| k_index := rebuilt_index self m |>) /\
    (forall id a v, k_accounts self !! id = Some a -> split_hyphen id = Some v -> is_Some (m !! v)) /\
    (forall v id, m !! v = Some id -> is_Some (k_accounts self !! id)).
Proof.
  intros Hi. unfold build_index.
  destruct (index_accounts_spec (E := E) (iter_map (k_accounts self)).*1 index_default)
    as (m & Hm & Hin & _ & Hval).
  { apply Forall_forall. intros id Hin. apply list_elem_of_fmap in Hin as ([id' a] & -> & Hin).
    apply elem_of_iter_map in Hin. by eapply Hi. }
  change (k_accounts (clear_index self)) with (k_accounts self).
  change (k_index (clear_index self)) with index_default. rewrite Hm. cbn. exists m. split; [done|].
  split.
  - intros id a v Ha Hv. eapply Hin; [|done]. apply list_elem_of_fmap. exists (id, a).
    by rewrite elem_of_iter_map.
  - intros v id Hl. apply Hval in Hl as [Hl|Hl]; [cbn in Hl; by rewrite lookup_empty in Hl|].
    apply list_elem_of_fmap in Hl as ([id' a] & -> & Hl). apply elem_of_iter_map in Hl. eauto.
Qed.

(** ** Integrity of the rebuilt index *)

Lemma accounts_failures_0 {E} i ids :
  Forall (fun id => exists v, split_hyphen id = Some v /\ is_Some (x_venue_account i !! v)) ids ->
  accounts_failures (E := E) i ids = Ok 0%nat.
Proof.
  induction 1 as [|id ids (v & Hv & Hs) _ IH]; [done|]. cbn. unfold account_failures, get_issuer.
  rewrite Hv. cbn. rewrite IH. cbn. by rewrite (proj2 (missing_0 _) (proj2 (has_key_true _ _) Hs)).
Qed.

Lemma rebuilt_account self m : x_venue_account (rebuilt_index self m) = m.
Proof. unfold rebuilt_index. rewrite foldl_frame by (by intros ? []). by rewrite foldl_frame by (by intros ? []). Qed.

(** Each store entry is where [build_index] put it. *)
Lemma in_exact {A} (p : A -> bool) os s id o :
  set_exact p os s -> os !! id = Some o -> negb (p o) || bool_decide (id ∈ s) = true.
Proof.
  intros Hs Ho. destruct (p o) eqn:E; [|done]. cbn. apply bool_decide_eq_true, Hs. by exists o.
Qed.

Lemma rebuilt_order_failures self i id o :
  rebuilt self i -> k_orders self !! id = Some o ->
  order_failures i (id, o) = 0%nat <->
  (is_Some (algorithm_key o) -> o_exec_spawn_id (any_core o) = None ->
   exists id', stored (k_orders self) id' (fun o' => o_exec_spawn_id (any_core o') = Some id)).
Proof.
  intros R Ho. unfold order_failures.
  assert (H1 : has_key id (x_order_strategy i) = true).
  { apply has_key_true. rewrite (rb_order_strategy _ _ R), Ho. eauto. }
  assert (H2 : bool_decide (id ∈ x_orders i) = true) by exact (in_exact (fun _ => true) _ _ _ _ (rb_orders _ _ R) Ho).
  rewrite H1, H2.
  rewrite (in_exact (fun o => is_inflight (any_core o)) _ _ _ _ (rb_inflight _ _ R) Ho).
  rewrite (in_exact (fun o => is_active_local (any_core o)) _ _ _ _ (rb_local _ _ R) Ho).
  rewrite (in_exact (fun o => is_open (any_core o)) _ _ _ _ (rb_open _ _ R) Ho).
  rewrite (in_exact (fun o => is_closed (any_core o)) _ _ _ _ (rb_closed _ _ R) Ho). cbn.
  unfold algorithm_key. destruct (o_exec_algorithm_id (any_core o)) as [a|] eqn:Ea.
  2: { split; [intros _ [? [=]]|done]. }
  assert (Hk : has_key a (x_exec_algorithm_orders i) = true).
  { apply has_key_true, mm_has_key; [apply (rb_algorithm _ _ R)|]. exists id.
    apply (rb_algorithm _ _ R). by exists o. }
  rewrite Hk. cbn. rewrite missing_0, orb_true_iff, negb_true_iff, bool_decide_eq_false, has_key_true.
  rewrite mm_has_key by apply (rb_spawn _ _ R).
  setoid_rewrite (proj2 (rb_spawn _ _ R) id).
  split.
  - intros [Hn|Hx] _ Hnone; done.
  - intros Hx. destruct (o_exec_spawn_id (any_core o)) as [k|] eqn:Es; [by left|right; eauto].
Qed.

Lemma rebuilt_position_failures self i id p :
  rebuilt self i -> k_positions self !! id = Some p -> position_failures i (id, p) = 0%nat.
Proof.
  intros R Hp. unfold position_failures.
  assert (H1 : has_key id (x_position_strategy i) = true).
  { apply has_key_true. rewrite (rb_position_strategy _ _ R), Hp. eauto. }
  assert (H2 : has_key id (x_position_orders i) = true).
  { apply has_key_true, (rb_position_orders _ _ R). eauto. }
  assert (H3 : bool_decide (id ∈ x_positions i) = true)
    by exact (in_exact (fun _ => true) _ _ _ _ (rb_positions _ _ R) Hp).
  rewrite H1, H2, H3, (in_exact _ _ _ _ _ (rb_positions_open _ _ R) Hp).
  by rewrite (in_exact _ _ _ _ _ (rb_positions_closed _ _ R) Hp).
Qed.

Lemma exact_store {A} (p : A -> bool) os s :
  set_exact p os s -> failures (fun id => missing (has_key id os)) (elements s) = 0%nat.
Proof.
  intros Hs. apply failures_0. intros id Hin. apply elem_of_elements, Hs in Hin as (o & Ho & _).
  apply missing_0, has_key_true. eauto.
Qed.
Lemma mm_exact_store {A K} `{Countable K} (key : A -> option K) os m :
  mm_exact key os m -> failures (fun id => missing (has_key id os)) (members m) = 0%nat.
Proof.
  intros Hs. apply failures_0. intros id Hin. apply elem_of_members in Hin as (k & Hin).
  apply Hs in Hin as (o & Ho & _). apply missing_0, has_key_true. eauto.
Qed.

Lemma rebuilt_index_failures self m :
  (forall v id, m !! v = Some id -> is_Some (k_accounts self !! id)) ->
  index_failures (self <| k_index := rebuilt_index self m |>) = 0%nat <->
  forall id p, k_positions self !! id = Some p ->
    (exists id', stored (k_orders self) id' (fun o => instrument_key o = Some (pp_instrument_id p))) /\
    (exists id', stored (k_orders self) id' (fun o => strategy_key o = Some (pp_strategy_id p))).
Proof.
  intros Hm. pose proof (rebuilt_index_ok self m) as R. pose proof (rebuilt_account self m) as Hacc.
  unfold index_failures. cbn. set (i := rebuilt_index self m) in *. rewrite Hacc. clearbody i.
  assert (F1 : failures (fun id => missing (has_key id (k_accounts self))) (map_to_list m).*2 = 0%nat).
  { apply failures_0. intros id Hin. apply elem_of_values in Hin as (v & Hv).
    apply missing_0, has_key_true. eauto. }
  assert (F2 : failures (fun id => missing (has_key id (k_orders self)))
    (map_to_list (x_venue_order_ids i)).*2 = 0%nat).
  { apply failures_0. intros id Hin. apply elem_of_values in Hin as (v & Hv).
    apply missing_0, has_key_true. by eapply rb_venue_order_ids. }
  assert (F4 : failures (fun id => missing (has_key id (k_orders self)))
    (map_to_list (x_order_position i)).*1 = 0%nat).
  { apply failures_0. intros id Hin. apply elem_of_keys in Hin.
    apply missing_0, has_key_true. by eapply rb_order_position. }
  assert (F5 : failures (fun id => missing (has_key id (k_orders self)))
    (map_to_list (x_order_strategy i)).*1 = 0%nat).
  { apply failures_0. intros id Hin. apply elem_of_keys in Hin. rewrite (rb_order_strategy _ _ R) in Hin.
    apply missing_0, has_key_true. by apply fmap_is_Some in Hin. }
  assert (F6 : failures (fun id => missing (has_key id (k_positions self)))
    (map_to_list (x_position_strategy i)).*1 = 0%nat).
  { apply failures_0. intros id Hin. apply elem_of_keys in Hin. rewrite (rb_position_strategy _ _ R) in Hin.
    apply missing_0, has_key_true. by apply fmap_is_Some in Hin. }
  assert (F7 : failures (fun id => missing (has_key id (k_positions self)))
    (map_to_list (x_position_orders i)).*1 = 0%nat).
  { apply failures_0. intros id Hin. apply elem_of_keys, (rb_position_orders _ _ R) in Hin.
    by apply missing_0, has_key_true. }
  assert (F8 : failures (fun k => missing (has_key k (x_exec_algorithm_orders i)))
    (elements (x_exec_algorithms i)) = 0%nat).
  { apply failures_0. intros a Hin. apply elem_of_elements, (rb_algorithms _ _ R) in Hin as (id & Ha).
    apply missing_0, has_key_true, mm_has_key; [apply (rb_algorithm _ _ R)|]. exists id.
    by apply (rb_algorithm _ _ R). }
  rewrite (rb_client_order_ids _ _ R), map_to_list_empty, F1, F2, F4, F5, F6, F7, F8. cbn.
  rewrite (mm_exact_store _ _ _ (rb_instrument _ _ R)), (mm_exact_store _ _ _ (rb_strategy _ _ R)),
    (mm_exact_store _ _ _ (rb_strategy_positions _ _ R)), (exact_store _ _ _ (rb_orders _ _ R)),
    (exact_store _ _ _ (rb_emulated _ _ R)), (exact_store _ _ _ (rb_local _ _ R)),
    (exact_store _ _ _ (rb_inflight _ _ R)), (exact_store _ _ _ (rb_open _ _ R)),
    (exact_store _ _ _ (rb_closed _ _ R)), (exact_store _ _ _ (rb_positions _ _ R)),
    (exact_store _ _ _ (rb_positions_open _ _ R)), (exact_store _ _ _ (rb_positions_closed _ _ R)).
  cbn. rewrite !Nat.add_0_r, Nat.eq_add_0, !failures_0. setoid_rewrite missing_0.
  setoid_rewrite has_key_true. setoid_rewrite elem_of_keys. setoid_rewrite elem_of_elements.
  setoid_rewrite (mm_has_key (x_instrument_orders i)); [|apply (rb_instrument _ _ R)].
  setoid_rewrite (mm_has_key (x_strategy_orders i)); [|apply (rb_strategy _ _ R)].
  setoid_rewrite (mm_has_key (x_instrument_positions i)); [|apply (rb_instrument_positions _ _ R)].
  setoid_rewrite (proj2 (rb_instrument _ _ R)). setoid_rewrite (proj2 (rb_strategy _ _ R)).
  setoid_rewrite (proj2 (rb_instrument_positions _ _ R)). setoid_rewrite (rb_strategies _ _ R).
  split.
  - intros [Hi Hs] id p Hp. split.
    + apply Hi. exists id. by exists p.
    + apply Hs. right. exists id. by exists p.
  - intros Hall. split.
    + intros k (id & p & Hp & [= <-]). by apply (Hall id p).
    + intros s [(id & o & Ho & <-)|(id & p & Hp & <-)]; [exists id; by exists o|by apply (Hall id p)].
Qed.

(** rebuilding the index of any cache from nothing and checking its
    integrity passes exactly when every position has a cached order of its
    instrument and one of its strategy, and every order of an execution
    algorithm without a spawn id is the spawn id of a cached order. *)
Theorem rebuilt_integrity {E} self :
  has_issuers self ->
  exists self' ok, build_index (E := E) (clear_index self) = Ok self' /\
    check_integrity (E := E) self' = Ok ok /\
    (ok = true <->
     (forall id p, k_positions self !! id = Some p ->
        (exists id', stored (k_orders self) id' (fun o => instrument_key o = Some (pp_instrument_id p))) /\
        (exists id', stored (k_orders self) id' (fun o => strategy_key o = Some (pp_strategy_id p)))) /\
     (forall id o, k_orders self !! id = Some o -> is_Some (algorithm_key o) ->
        o_exec_spawn_id (any_core o) = None ->
        exists id', stored (k_orders self) id' (fun o' => o_exec_spawn_id (any_core o') = Some id))).
Proof.
  intros Hi. destruct (build_cleared (E := E) self Hi) as (m & Hb & Hin & Hval).
  eexists _, _. split; [exact Hb|]. unfold check_integrity. cbn.
  rewrite accounts_failures_0.
  2: { apply Forall_forall. intros id Hid. apply elem_of_keys in Hid as [a Ha].
       destruct (Hi _ _ Ha) as [v Hv]. exists v. rewrite rebuilt_account. eauto. }
  cbn. split; [done|]. rewrite bool_decide_eq_true, !Nat.eq_add_0, !failures_0.
  rewrite (rebuilt_index_failures self m Hval). pose proof (rebuilt_index_ok self m) as R.
  split.
  - intros [[Ho _] Hp]. split; [exact Hp|]. intros id o Hid.
    apply (rebuilt_order_failures _ _ _ _ R Hid), Ho, elem_of_map_to_list. done.
  - intros [Hp Ho]. split_and!; [| |exact Hp].
    + intros [id o] Hid%elem_of_map_to_list. apply (rebuilt_order_failures _ _ _ _ R Hid). by apply Ho.
    + intros [id p] Hid%elem_of_map_to_list. by apply (rebuilt_position_failures self).
Qed.

(** C11: for every run of the cache, clearing the index and rebuilding it
    succeeds and gives back the order indexes the operations maintained: the set
    of all orders and the maps by venue, instrument, strategy, account and
    execution algorithm are equal, and the local, closed and in-flight sets agree
    on every id that is not excepted (so they are equal when none is); the rebuilt
    open set holds exactly the open orders, and the maintained one holds all of
    these that are not excepted.  Excepted ids are any set [X] chosen for the run:
    only orders of [X] may be added with a status that is no longer local,
    replaced by one of another status, filled while emulated, or forced out with
    [force_remove_from_own_order_book].  The runs are those of [cache_step]: no
    call panics, no [add_order] or [replace_order] fails in the database (one
    does leave an order indexed that is not stored), replacements keep the
    order's identity and account, and events lie in the raw ranges and are for
    the order's account.  Every cached account has an id with a hyphen, which
    [AccountId::new_checked] requires: without one [build_index] panics. *)
Theorem rebuild_equivalent {E} {X : Excepted} db self :
  cache_run db self -> has_issuers self ->
  exists self', build_index (E := E) (clear_index self) = Ok self' /\
    k_orders self' = k_orders self /\
    let i := k_index self in
    let i' := k_index self' in
    x_orders i' = x_orders i /\
    x_venue_orders i' = x_venue_orders i /\ x_instrument_orders i' = x_instrument_orders i /\
    x_strategy_orders i' = x_strategy_orders i /\ x_account_orders i' = x_account_orders i /\
    x_exec_algorithm_orders i' = x_exec_algorithm_orders i /\
    x_order_strategy i' = x_order_strategy i /\
    set_exact (fun o => is_open (any_core o)) (k_orders self) (x_orders_open i') /\
    forall id, X id = false ->
      (id ∈ x_orders_active_local i' <-> id ∈ x_orders_active_local i) /\
      (id ∈ x_orders_closed i' <-> id ∈ x_orders_closed i) /\
      (id ∈ x_orders_inflight i' <-> id ∈ x_orders_inflight i) /\
      (id ∈ x_orders_open i' -> id ∈ x_orders_open i).
Proof.
  intros Hrun Hi. apply cache_run_indexed in Hrun as Hok. unfold orders_indexed in Hok.
  destruct (build_cleared (E := E) self Hi) as (m & Hb & _). eexists. split; [exact Hb|].
  pose proof (rebuilt_index_ok self m) as R. destruct R, Hok. cbn.
  split_and!; try done; try (by eapply set_exact_unique); try (by eapply mm_exact_unique).
  - apply map_eq. intros id. by rewrite rb_order_strategy0, oi_order_strategy.
  - intros id HX. split_and!.
    + rewrite (proj2 (oi_local id) HX). apply rb_local0.
    + rewrite (proj2 (oi_closed id) HX). apply rb_closed0.
    + rewrite (proj2 (oi_inflight id) HX). apply rb_inflight0.
    + intros Hin. apply rb_open0 in Hin as (o & Ho & Hx). by eapply oi_open.
Qed.
End BuildSpec.

(** ** At the demonstration cache *)

Lemma demo_issuers : has_issuers CacheDemo.demo.
Proof.
  intros id a H. assert (E : k_accounts CacheDemo.demo = ∅) by (vm_compute; reflexivity).
  rewrite E, lookup_empty in H. discriminate H.
Qed.

Example rebuilt_integrity_witness :
  has_issuers CacheDemo.demo /\
  exists self', build_index (E := unit) (clear_index CacheDemo.demo) = Ok self' /\
    check_integrity (E := unit) self' = Ok true.
Proof.
  split; [exact demo_issuers|].
  destruct (rebuilt_integrity (E := unit) CacheDemo.demo demo_issuers)
    as (self' & ok & Hb & Hc & Hiff).
  exists self'. split; [exact Hb|]. rewrite Hc. f_equal. apply Hiff. split.
  - intros id p H. assert (E : k_positions CacheDemo.demo = ∅) by (vm_compute; reflexivity).
    rewrite E in H. rewrite lookup_empty in H. discriminate H.
  - intros id o Ho Ha.
    assert (Hall : map_Forall (fun _ o => algorithm_key o = None) (k_orders CacheDemo.demo)).
    { apply map_Forall_to_list. vm_compute. repeat constructor. }
    specialize (Hall id o Ho). rewrite Hall in Ha. destruct Ha as [a Ha]. discriminate Ha.
Defined.

Example rebuild_equivalent_witness :
  exists self', build_index (E := unit) (clear_index CacheDemo.demo) = Ok self' /\
    x_orders_closed (k_index self') = x_orders_closed (k_index CacheDemo.demo) /\
    x_orders_open (k_index self') ⊆ x_orders_open (k_index CacheDemo.demo).
Proof.
  destruct (rebuild_equivalent (M := standard_mode) (E := unit) (X := fun _ => false) None CacheDemo.demo
    CacheDemo.demo_run demo_issuers) as (self' & Hb & _ & H). exists self'. split; [exact Hb|].
  destruct H as (_ & _ & _ & _ & _ & _ & _ & _ & H). split.
  - apply set_eq. intros id. apply (H id eq_refl).
  - intros id. apply (H id eq_refl).
Defined.
