(* ===== verification/CacheSpec.v ===== *)
(** * What the cache answers ([crates/common/src/cache/mod.rs])

    Theorems on runs of the cache: the index agrees with the store, the queries
    return exactly the matching orders, updates are applied to the order the
    event names or refused without a trace, and purges remove what they name. *)

From stdpp Require Import base numbers list strings gmap sorting.
From Stdlib Require Import ZArith Lia Sorted.
From S2P Require Import Prelude F64 Fixed Price Quantity Money Enums OrderEvents OrderCore OrderLife Orders OrderReplay Own Position Account Clock CacheIndex Cache CacheQuery CacheInv CacheSteps CacheDemo.

(* ------------------------------------------------------------------ *)
(** ** Filtered queries over exact sources *)

Section Sources.
Context `{HI : HashIter}.
Implicit Types (P : string -> Prop) (bucket : gset string).

(** The sources collected so far stand for the predicate [P]. *)
Definition sources_for (acc : option (list (gset string))) P : Prop :=
  match acc with
  | None => forall id, ~ P id
  | Some l => forall id, in_all id l <-> P id
  end.

Lemma sources_for_nil : sources_for (Some []) (fun _ => True).
Proof. intros id. split; [done|]. intros _. constructor. Qed.

Lemma push_source_ok {K} `{Countable K} (k : option K) m acc P :
  sources_for acc P ->
  sources_for (push_source k m acc) (fun id => P id /\ forall x, k = Some x -> id ∈ mm_get m x).
Proof.
  unfold push_source, sources_for. destruct acc as [l|]; cbn; [|intros HP id [Hid _]; by apply (HP id)].
  intros HP. destruct k as [k|].
  - unfold mm_get. destruct (m !! k) as [s|] eqn:E; cbn.
    + intros id. unfold in_all in *. rewrite Forall_app, Forall_singleton, (HP id).
      split; intros [? Hx]; split; try done.
      * intros x [= <-]. by rewrite E.
      * specialize (Hx k eq_refl). by rewrite E in Hx.
    + intros id [_ Hx]. specialize (Hx k eq_refl). rewrite E in Hx. cbn in Hx. set_solver.
  - intros id. rewrite (HP id). split; [|tauto]. intros ?. split; [done|]. by intros x [=].
Qed.

Lemma in_all_nil id : in_all id [].
Proof. constructor. Qed.

Lemma in_all_snoc id l bucket : in_all id (l ++ [bucket]) <-> id ∈ bucket /\ in_all id l.
Proof. unfold in_all. rewrite Forall_app, Forall_singleton. tauto. Qed.

Lemma query_in_bucket_ok {E} acc P bucket :
  sources_for acc P ->
  exists s, query_in_bucket (E := E) (filter_sources acc) bucket = Ok s /\
    forall id, id ∈ s <-> id ∈ bucket /\ P id.
Proof.
  intros HP. destruct acc as [[|x l]|]; cbn in *.
  - exists bucket. split; [done|]. intros id. rewrite <- (HP id). pose proof (in_all_nil id). tauto.
  - destruct (intersect_pair_or_many_spec (E := E) bucket (x :: l) ltac:(done)) as (s & Hs & Hin).
    exists s. split; [done|]. intros id. by rewrite Hin, (HP id).
  - exists ∅. split; [done|]. intros id. specialize (HP id). set_solver.
Qed.

Lemma iter_in_bucket_ok acc P bucket :
  sources_for acc P ->
  NoDup (iter_in_bucket (filter_sources acc) bucket) /\
  forall id, id ∈ iter_in_bucket (filter_sources acc) bucket <-> id ∈ bucket /\ P id.
Proof.
  intros HP. destruct acc as [[|x l]|]; cbn in *.
  - split; [apply iter_set_NoDup|]. intros id. rewrite elem_of_iter_set, <- (HP id).
    pose proof (in_all_nil id). tauto.
  - split; [apply drive_NoDup|]. intros id. rewrite elem_of_drive by done.
    change (x :: l ++ [bucket]) with ((x :: l) ++ [bucket]). by rewrite in_all_snoc, (HP id).
  - split; [constructor|]. intros id. specialize (HP id). rewrite elem_of_nil. tauto.
Qed.

Lemma filter_all {A} (Q : A -> Prop) `{!forall x, Decision (Q x)} (l : list A) : (forall x, Q x) -> filter Q l = l.
Proof.
  intros HQ. induction l as [|x l IH]; [done|]. rewrite filter_cons_True by apply HQ. by rewrite IH.
Qed.

(** Counting and testing are the length and the emptiness of one list. *)
Lemma count_in_bucket_ok acc P bucket (no_side : bool) (sm : string -> bool) :
  sources_for acc P ->
  exists ids, NoDup ids /\
    (forall id, id ∈ ids <-> id ∈ bucket /\ P id /\ (no_side || sm id) = true) /\
    count_in_bucket (filter_sources acc) bucket no_side sm = length ids /\
    (any_in_bucket (filter_sources acc) bucket no_side sm = true <-> ids <> []).
Proof.
  intros HP. destruct (iter_in_bucket_ok acc P bucket HP) as [Hnd Hin].
  set (ids := filter (fun id => (no_side || sm id) = true) (iter_in_bucket (filter_sources acc) bucket)).
  assert (Hids : forall id, id ∈ ids <-> id ∈ bucket /\ P id /\ (no_side || sm id) = true).
  { intros id. subst ids. rewrite list_elem_of_filter, Hin. tauto. }
  assert (Hany : forall (f : string -> bool) l, existsb f l = true <-> filter (fun id => f id = true) l <> []).
  { intros f l. rewrite existsb_exists. split.
    - intros (x & Hx%list_elem_of_In & Hf) Hn.
      assert (Hxl : x ∈ filter (fun id => f id = true) l) by by rewrite list_elem_of_filter.
      rewrite Hn in Hxl. by apply elem_of_nil in Hxl.
    - intros Hne. destruct (filter _ l) as [|x l'] eqn:Ef; [done|].
      assert (Hxl : x ∈ filter (fun id => f id = true) l) by (rewrite Ef; left).
      apply list_elem_of_filter in Hxl as [? ?]. exists x. by rewrite <- list_elem_of_In. }
  exists ids. split; [by apply NoDup_filter|]. split; [done|].
  subst ids. clear Hids. destruct acc as [[|x l]|]; cbn in *.
  - destruct no_side; cbn.
    + rewrite filter_all by done. split.
      * rewrite iter_set_perm. done.
      * rewrite negb_true_iff, bool_decide_eq_false, <- leibniz_equiv_iff, <- elements_empty_iff.
        split; intros Hne He; apply Hne; apply Permutation_nil_r.
        -- by rewrite <- (iter_set_perm bucket), He.
        -- by rewrite (iter_set_perm bucket), He.
    + split; [done|]. apply Hany.
  - split; [done|]. apply Hany.
  - split; [done|]. naive_solver.
Qed.
End Sources.

(* ------------------------------------------------------------------ *)
(** ** Queries on runs *)

Section Spec.
Context `{M : Mode} {Dec : Type} `{D : !DecimalApi Dec} `{HI : HashIter} `{IO : IdOrd} {X : Excepted}.
Abbreviation C := (Cache Dec).
Implicit Types (self : C) (o : OrderAny Dec) (id : ClientOrderId).

Lemma collect_ids_ok {E A} (os : gmap string A) (key : A -> string) (keep : A -> bool) ids :
  (forall id (o : A), os !! id = Some o -> key o = id) ->
  (forall id, id ∈ ids -> is_Some (os !! id)) -> NoDup ids ->
  exists l, collect_ids (E := E) (fun id => os !! id) keep ids = Ok l /\ NoDup (key <$> l) /\
    forall o : A, o ∈ l <-> key o ∈ ids /\ os !! key o = Some o /\ keep o = true.
Proof.
  intros Hkey. induction ids as [|id ids IH]; intros Hin Hnd; cbn.
  - exists []. split; [done|]. split; [constructor|]. intros o. rewrite !elem_of_nil. tauto.
  - apply NoDup_cons in Hnd as [Hni Hnd].
    destruct (Hin id ltac:(left)) as [o Ho].
    destruct IH as (l & -> & Hl & Hel); [intros x Hx; apply Hin; by right|done|]. rewrite Ho. cbn.
    pose proof (Hkey _ _ Ho) as Hk. eexists. split; [done|].
    destruct (keep o) eqn:Ek; cbn.
    + split.
      * apply NoDup_cons. split; [|done]. rewrite Hk. intros (o' & E1 & Ho')%list_elem_of_fmap.
        apply Hel in Ho' as (? & _). congruence.
      * intros o'. rewrite !elem_of_cons, Hel. split.
        -- intros [->|?]; [|tauto]. rewrite Hk. auto.
        -- intros ([E1|Hx] & Ho' & Hk'); [|tauto]. left. congruence.
    + split; [done|]. intros o'. rewrite elem_of_cons, Hel. split; [tauto|].
      intros ([E1|Hx] & Ho' & Hk'); [|tauto]. congruence.
Qed.

(** The semantic filters. *)
Definition matches (venue : option Venue) (instrument_id : option InstrumentId)
  (strategy_id : option StrategyId) (account_id : option AccountId) o : Prop :=
  (forall x, venue = Some x -> any_venue o = x) /\
  (forall x, instrument_id = Some x -> o_instrument_id (any_core o) = x) /\
  (forall x, strategy_id = Some x -> o_strategy_id (any_core o) = x) /\
  (forall x, account_id = Some x -> o_account_id (any_core o) = Some x).
Definition side_kept (side : option OrderSide) o : Prop :=
  side = None \/ side = Some NoOrderSide \/ side = Some (o_side (any_core o)).

Lemma bucket_stored self b id :
  orders_indexed self -> id ∈ bucket_of self b -> is_Some (k_orders self !! id).
Proof.
  intros Hok Hin. destruct b; cbn in Hin.
  - apply (oi_orders _ _ Hok) in Hin as (o & ? & _); eauto.
  - apply (proj1 (oi_local _ _ Hok id)) in Hin as (o & ? & _); eauto.
  - apply (oi_opened _ _ Hok) in Hin as (o & ? & _); eauto.
  - apply (proj1 (oi_closed _ _ Hok id)) in Hin as (o & ? & _); eauto.
  - apply (oi_emulates _ _ Hok) in Hin as (o & ? & _); eauto.
  - apply (proj1 (oi_inflight _ _ Hok id)) in Hin as (o & ? & _); eauto.
Qed.

(** The collected sources stand for the semantic filter on the store. *)
Lemma order_sources v i s a self :
  orders_indexed self ->
  exists acc P, collect_order_filter_sources v i s a self = filter_sources acc /\ sources_for acc P /\
    forall id o, k_orders self !! id = Some o -> P id <-> matches v i s a o.
Proof.
  intros Hok. unfold collect_order_filter_sources. eexists _, _. split; [done|].
  split; [do 4 apply push_source_ok; apply sources_for_nil|]. cbn. intros id o Ho.
  assert (Hmm : forall K (ED : EqDecision K) (CK : Countable K) (key : OrderAny Dec -> option K) m k,
    mm_exact key (k_orders self) m -> id ∈ mm_get m k <-> key o = Some k).
  { intros K ED CK key m k [_ Hm]. rewrite (Hm k id). split.
    - intros (o' & E & Hk). rewrite Ho in E. by injection E as <-.
    - intros Hk. by exists o. }
  pose proof (fun k => Hmm _ _ _ venue_key _ k (oi_venue _ _ Hok)) as HV.
  pose proof (fun k => Hmm _ _ _ instrument_key _ k (oi_instrument _ _ Hok)) as HN.
  pose proof (fun k => Hmm _ _ _ strategy_key _ k (oi_strategy _ _ Hok)) as HS.
  pose proof (fun k => Hmm _ _ _ account_key _ k (oi_account _ _ Hok)) as HA.
  unfold matches. setoid_rewrite HV. setoid_rewrite HN. setoid_rewrite HS. setoid_rewrite HA.
  unfold venue_key, instrument_key, strategy_key, account_key. split.
  - intros [[[[_ Hv] Hi] Hs] Ha]. split_and!; intros x Hx; [..|by apply Ha].
    + specialize (Hv x Hx). by injection Hv.
    + specialize (Hi x Hx). by injection Hi.
    + specialize (Hs x Hx). by injection Hs.
  - intros (Hv & Hi & Hs & Ha). split_and!; [done|..]; intros x Hx; [..|by apply Ha]; f_equal; auto.
Qed.

#[local] Instance key_le_total {A} (key : A -> string) : Total (key_le key).
Proof. intros a b. apply id_leb_total. Qed.
#[local] Instance key_le_trans {A} (key : A -> string) : Transitive (key_le key).
Proof. intros a b c. apply id_leb_trans. Qed.

(** The orders a query is for. *)
Definition selected v i s a (b : Bucket) side self o : Prop :=
  k_orders self !! any_id o = Some o /\ any_id o ∈ bucket_of self b /\
  matches v i s a o /\ side_kept side o.

Lemma kept_iff (side : option OrderSide) o :
  bool_decide (default NoOrderSide side = NoOrderSide)
  || bool_decide (default NoOrderSide side = o_side (any_core o)) = true <-> side_kept side o.
Proof.
  unfold side_kept. rewrite orb_true_iff, !bool_decide_eq_true.
  destruct side as [sd|]; cbn; [|naive_solver]. split; [intros [->| ->]; auto|].
  intros [[=]|[[= ->]|[= ->]]]; auto.
Qed.

Lemma stored_id self id o : orders_indexed self -> k_orders self !! id = Some o -> any_id o = id.
Proof. intros Hok Ho. by apply (oi_id _ _ Hok). Qed.

Lemma orders_spec {E} self b v i s a side :
  orders_indexed self ->
  exists l, orders (E := E) v i s a self b side = Ok l /\
    StronglySorted (key_le any_id) l /\ NoDup (any_id <$> l) /\
    forall o, o ∈ l <-> selected v i s a b side self o.
Proof.
  intros Hok. destruct (order_sources v i s a self Hok) as (acc & P & Hacc & Hsrc & HP).
  unfold orders, client_order_ids, query_orders_in_bucket, get_orders_for_ids, sort_by_id.
  rewrite Hacc.
  destruct (query_in_bucket_ok (E := E) acc P (bucket_of self b) Hsrc) as (ids & -> & Hids). cbn.
  set (keep := fun o => bool_decide (_ = NoOrderSide) || _).
  destruct (collect_ids_ok (E := E) (k_orders self) any_id keep (iter_set ids)) as (l & -> & Hnd & Hl);
    [intros ? ?; by apply stored_id| |apply iter_set_NoDup|].
  { intros id. rewrite elem_of_iter_set, Hids. intros [Hb _]. by eapply bucket_stored. }
  cbn. exists (merge_sort (key_le any_id) l).
  pose proof (merge_sort_Permutation (key_le any_id) l) as Hp.
  split; [done|]. split; [by apply StronglySorted_merge_sort; apply _|]. split; [by rewrite Hp|].
  intros o. rewrite Hp, Hl, elem_of_iter_set, Hids. unfold selected. rewrite <- kept_iff. split.
  - intros ([Hb HPo] & Ho & Hs). split_and!; [done|done|by apply (HP _ _ Ho)|done].
  - intros (Ho & Hb & Hm & Hs). split_and!; [done|by apply (HP _ _ Ho)|done|done].
Qed.

(** The lists behind the count, the test and the iterator. *)
Lemma orders_count_spec self b v i s a side :
  orders_indexed self ->
  exists ids, NoDup ids /\
    (forall id, id ∈ ids <-> exists o, id = any_id o /\ selected v i s a b side self o) /\
    orders_count v i s a self b side = length ids /\
    (cache_has_orders v i s a self b side = true <-> ids <> []).
Proof.
  intros Hok. destruct (order_sources v i s a self Hok) as (acc & P & Hacc & Hsrc & HP).
  unfold orders_count, cache_has_orders, count_orders_in_bucket, any_orders_in_bucket. rewrite Hacc.
  set (no_side := bool_decide _). set (sm := order_side_matches _ _).
  destruct (count_in_bucket_ok acc P (bucket_of self b) no_side sm Hsrc) as (ids & Hnd & Hids & Hc & Ha).
  exists ids. split_and!; [done| |done|done]. intros id. rewrite Hids. unfold selected.
  assert (Hsm : forall o, k_orders self !! id = Some o ->
    (no_side || sm id) = true <-> side_kept side o).
  { intros o Ho. rewrite <- kept_iff. unfold no_side, sm, order_side_matches. rewrite Ho.
    rewrite !orb_true_iff, !bool_decide_eq_true. naive_solver. }
  split.
  - intros (Hb & HPi & Hs). destruct (bucket_stored self b id Hok Hb) as [o Ho].
    pose proof (stored_id _ _ _ Hok Ho) as Hio. exists o. rewrite Hio.
    split_and!; [done|done|done|by apply (HP _ _ Ho)|by apply (Hsm _ Ho)].
  - intros (o & -> & Ho & Hb & Hm & Hs). split_and!; [done|by apply (HP _ _ Ho)|by apply (Hsm _ Ho)].
Qed.

Lemma orders_iter_spec self b v i s a :
  orders_indexed self ->
  NoDup (iter_client_order_ids v i s a self b) /\
  forall id, id ∈ iter_client_order_ids v i s a self b <->
    exists o, id = any_id o /\ selected v i s a b None self o.
Proof.
  intros Hok. destruct (order_sources v i s a self Hok) as (acc & P & Hacc & Hsrc & HP).
  unfold iter_client_order_ids, iter_orders_in_bucket. rewrite Hacc.
  destruct (iter_in_bucket_ok acc P (bucket_of self b) Hsrc) as [Hnd Hin]. split; [done|].
  intros id. rewrite Hin. unfold selected. split.
  - intros [Hb HPi]. destruct (bucket_stored self b id Hok Hb) as [o Ho].
    pose proof (stored_id _ _ _ Hok Ho) as Hio. exists o. rewrite Hio.
    split_and!; [done|done|done|by apply (HP _ _ Ho)|by left].
  - intros (o & -> & Ho & Hb & Hm & _). split; [done|by apply (HP _ _ Ho)].
Qed.

(** C9: on every run of the cache, a query for the orders of a bucket (all,
    local, open, closed, emulated or in flight) with any venue, instrument,
    strategy, account and side filters returns, sorted by client order id and
    without duplicates, exactly the cached orders of the bucket that match; it
    never panics.  The count is the length of that list, the existence test its
    non-emptiness, and the iterator without a side filter enumerates its
    identifiers.  This holds for every choice [X] of excepted ids, so for orders
    added in any status and for orders forced out with
    [force_remove_from_own_order_book].  The runs are those of [cache_step]: no
    call panics, no [add_order] or [replace_order] fails in the database (one
    leaves an order indexed that is not stored, and queries then panic),
    replacements keep the order's identity and account, and events lie in the raw
    ranges and are for the order's account. *)
Theorem cache_query_correct {E} db self b v i s a side :
  cache_run db self ->
  exists l, orders (E := E) v i s a self b side = Ok l /\
    StronglySorted (key_le any_id) l /\ NoDup (any_id <$> l) /\
    (forall o, o ∈ l <-> selected v i s a b side self o) /\
    orders_count v i s a self b side = length l /\
    (cache_has_orders v i s a self b side = true <-> l <> []) /\
    (side = None -> iter_client_order_ids v i s a self b ≡ₚ any_id <$> l).
Proof.
  intros Hok%cache_run_indexed.
  destruct (orders_spec (E := E) self b v i s a side Hok) as (l & Hl & Hs & Hnd & Hel).
  destruct (orders_count_spec self b v i s a side Hok) as (ids & Hidn & Hids & Hc & Ha).
  exists l. assert (Hperm : ids ≡ₚ any_id <$> l).
  { apply NoDup_Permutation; [done|done|]. intros id. rewrite Hids, list_elem_of_fmap.
    by setoid_rewrite Hel. }
  assert (Hlen : length ids = length l) by (rewrite Hperm; apply length_fmap).
  split_and!; [done..| | |].
  - by rewrite Hc.
  - by rewrite Ha, <- !length_zero_iff_nil, Hlen.
  - intros ->. destruct (orders_iter_spec self b v i s a Hok) as [Hin Hiel].
    rewrite <- Hperm. apply NoDup_Permutation; [done|done|]. intros id. by rewrite Hiel, Hids.
Qed.

(** ** The index *)


(** ** Updates *)

(** C12: [update_order] either returns an error and leaves the cache as it was,
    or applies the event to the order the event itself names, stores the
    result, changes no other order, and returns it.  An event whose client
    order id is unknown is therefore always refused, also when its venue order
    id is indexed. *)
Theorem update_order_correct db self ev self' r :
  cache_run db self -> update_order self ev = (self', r) -> r <> Panic ->
  match r with
  | Ok o' => exists o, k_orders self !! event_client_order_id ev = Some o /\
      any_apply o ev = (o', Ok tt) /\
      k_orders self' = <[event_client_order_id ev := o']> (k_orders self)
  | _ => self' = self
  end.
Proof.
  intros Hok%cache_run_indexed Hu Hp.
  destruct (update_order_cases _ _ _ _ Hu Hp)
    as [[-> [e ->]]|(id & o & o' & Ho & Hap & -> & r' & Hr & Hp')]; [done|].
  pose proof (stored_id _ _ _ Hok Ho) as Hid. pose proof (any_apply_Ok_id _ _ _ Hap) as Hev.
  rewrite Hid in Hev. subst id. exists o. rewrite <- Hev. split_and!; [done|done|].
  by apply refresh_order_fields in Hr as [-> _].
Qed.

(** ** Purging *)

(** on every run of the cache, purging an order leaves an open order alone
    and otherwise forgets the identifier: it is gone from the store, from the
    sets of all, local, open, closed, emulated, in-flight and pending-cancel
    orders, from the maps to sets by venue, instrument, strategy, account,
    execution algorithm and spawn id, and from the maps from client order ids to
    strategies, positions, clients and venue order ids, while the other orders
    and the agreement of the index with the store stay.  Not covered, because
    the purge can leave the id there: the orders of a position the order does not
    carry itself, and an earlier venue order id.  This holds for every choice [X]
    of excepted ids, so for orders added in any status and for forced removals.
    The runs are those of [cache_step]: no
    call panics, no [add_order] or [replace_order] fails in the database (one
    leaves an order indexed that is not stored),
    replacements keep the order's identity and account, and events lie in the raw
    ranges and are for the order's account. *)
Theorem purge_order_correct db self id :
  cache_run db self ->
  let self' := purge_order self id in
  if match k_orders self !! id with Some o => is_open (any_core o) | None => false end
  then self' = self
  else k_orders self' = delete id (k_orders self) /\ orders_indexed self' /\
    (forall b, id ∉ bucket_of self' b) /\ id ∉ x_orders_pending_cancel (k_index self') /\
    (forall v, id ∉ mm_get (x_venue_orders (k_index self')) v) /\
    (forall k, id ∉ mm_get (x_instrument_orders (k_index self')) k) /\
    (forall s, id ∉ mm_get (x_strategy_orders (k_index self')) s) /\
    (forall a, id ∉ mm_get (x_account_orders (k_index self')) a) /\
    (forall a, id ∉ mm_get (x_exec_algorithm_orders (k_index self')) a) /\
    (forall k, id ∉ mm_get (x_exec_spawn_orders (k_index self')) k) /\
    x_order_strategy (k_index self') !! id = None /\ x_order_position (k_index self') !! id = None /\
    x_order_client (k_index self') !! id = None /\ x_client_order_ids (k_index self') !! id = None.
Proof.
  intros Hok%cache_run_indexed self'. pose proof (purge_order_indexed self id Hok) as Hok'.
  change (purge_order self id) with self' in Hok'.
  assert (Hx : match k_orders self !! id with Some o => is_open (any_core o) | None => false end = false ->
    k_orders self' = delete id (k_orders self) /\ id ∉ x_orders_pending_cancel (k_index self') /\
    x_order_position (k_index self') !! id = None /\ x_order_client (k_index self') !! id = None /\
    x_client_order_ids (k_index self') !! id = None).
  { unfold self', purge_order. destruct (k_orders self !! id) as [o|] eqn:E.
    - intros ->. cbn. rewrite !lookup_delete_eq. split_and!; [done|set_solver|done..].
    - intros _. cbn. rewrite !lookup_delete_eq. split_and!; [by rewrite delete_id|set_solver|done..]. }
  destruct (match k_orders self !! id with Some o => _ | None => false end) eqn:Eo.
  - unfold self', purge_order. destruct (k_orders self !! id); [|done]. by rewrite Eo.
  - destruct (Hx eq_refl) as (Hs & Hpc & Hp & Hc & Hv).
    assert (Hgone : k_orders self' !! id = None) by (rewrite Hs; apply lookup_delete_eq).
    assert (Hmm : forall K (ED : EqDecision K) (CK : Countable K) (key : OrderAny Dec -> option K) m k,
      mm_exact key (k_orders self') m -> id ∉ mm_get m k).
    { intros K ED CK key m k [_ Hm] Hin. apply Hm in Hin as (o & E & _). congruence. }
    split_and!; try done.
    + intros b Hin. apply (bucket_stored _ _ _ Hok') in Hin as [o E]. congruence.
    + intros v. eapply Hmm, Hok'.
    + intros v. eapply Hmm, Hok'.
    + intros v. eapply Hmm, Hok'.
    + intros v. eapply Hmm, Hok'.
    + intros v. eapply Hmm, Hok'.
    + intros k Hin. apply (oi_spawn _ _ Hok') in Hin as (o & E & _). congruence.
    + by rewrite (oi_order_strategy _ _ Hok'), Hgone.
Qed.

(** An order [purge_closed_orders] removes: closed for the buffer at least, with
    no linked order still open. *)
Definition purgeable self (ts_now buffer_ns : Z) o : bool :=
  is_closed (any_core o)
  && match o_ts_closed (any_core o) with
     | Some ts_closed => ts_closed + buffer_ns <=? ts_now | None => false end
  && negb (linked_open self (o_linked_order_ids (any_core o))).

Lemma purge_closed_store self id o :
  k_orders self !! id = Some o -> is_closed (any_core o) = true ->
  k_orders (purge_order self id) = delete id (k_orders self).
Proof.
  intros Ho Hc. unfold purge_order. rewrite Ho. destruct (is_open (any_core o)) eqn:E; [|done].
  apply open_not_closed in E. congruence.
Qed.

Lemma linked_open_purge self id o linked :
  k_orders self !! id = Some o -> is_closed (any_core o) = true ->
  linked_open (purge_order self id) linked = linked_open self linked.
Proof.
  intros Ho Hc. unfold linked_open. rewrite (purge_closed_store _ _ _ Ho Hc).
  induction (default [] linked) as [|x l IH]; [done|]. cbn. rewrite IH. f_equal.
  rewrite lookup_delete. case_decide as E; [subst x|done]. rewrite Ho.
  destruct (is_open (any_core o)) eqn:Eo; [|done]. apply open_not_closed in Eo. congruence.
Qed.

(** No closing time overflows with the buffer added. *)
Definition buffer_fits self (buffer_ns : Z) : Prop :=
  forall id o t, k_orders self !! id = Some o -> o_ts_closed (any_core o) = Some t ->
    in_ty U64 (t + buffer_ns) = true.

Lemma purge_target_ok {E} self ts buf id :
  buffer_fits self buf ->
  purge_target (E := E) self ts buf id = Ok
    (o ← k_orders self !! id;
     if is_closed (any_core o)
        && match o_ts_closed (any_core o) with Some t => t + buf <=? ts | None => false end
     then Some (o_linked_order_ids (any_core o), o_order_list_id (any_core o)) else None).
Proof.
  intros Hb. unfold purge_target. destruct (k_orders self !! id) as [o|] eqn:Ho; [|done]. cbn.
  destruct (is_closed (any_core o)); [|done]. destruct (o_ts_closed (any_core o)) as [t|] eqn:Et; [|done].
  unfold unix_add, checked. by rewrite (Hb _ _ _ Ho Et).
Qed.

Lemma purge_orders_loop_spec {E} ts buf ids self aff :
  buffer_fits self buf ->
  exists self' aff', purge_orders_loop (E := E) ts buf ids self aff = Ok (self', aff') /\
    forall id, k_orders self' !! id =
      (o ← k_orders self !! id;
       if bool_decide (id ∈ ids) && purgeable self ts buf o then None else Some o).
Proof.
  revert self aff. induction ids as [|x ids IH]; intros self aff Hb.
  - exists self, aff. split; [done|]. intros id. by destruct (k_orders self !! id).
  - cbn. rewrite purge_target_ok by done. cbn.
    assert (Hskip : (forall o, k_orders self !! x = Some o -> purgeable self ts buf o = false) ->
      exists self' aff', purge_orders_loop (E := E) ts buf ids self aff = Ok (self', aff') /\
        forall id, k_orders self' !! id =
          (o ← k_orders self !! id;
           if bool_decide (id ∈ x :: ids) && purgeable self ts buf o then None else Some o)).
    { intros Hno. destruct (IH self aff Hb) as (s' & a' & Hl & Hk). exists s', a'. split; [done|].
      intros id. rewrite Hk. destruct (k_orders self !! id) as [o|] eqn:Ho; [|done]. cbn.
      destruct (decide (id = x)) as [->|Hne]; [by rewrite Hno, !andb_false_r by done|].
      by rewrite (bool_decide_ext (id ∈ x :: ids) (id ∈ ids)) by set_solver. }
    destruct (k_orders self !! x) as [o|] eqn:Ho; cbn; [|by apply Hskip].
    destruct (is_closed (any_core o) && _) eqn:Ec.
    2: { apply Hskip. intros o' [= <-]. unfold purgeable. by rewrite Ec. }
    destruct (linked_open self _) eqn:El.
    { apply Hskip. intros o' [= <-]. unfold purgeable. by rewrite Ec, El. }
    apply andb_true_iff in Ec as Ec'. destruct Ec' as [Hc _].
    pose proof (purge_closed_store _ _ _ Ho Hc) as Hst.
    edestruct (IH (purge_order self x)) as (s' & a' & -> & Hk).
    { intros id o' t. rewrite Hst, lookup_delete_Some. intros [_ E'] Ht. by eapply Hb. }
    eexists s', a'. split; [done|]. intros id. rewrite Hk, Hst, lookup_delete.
    case_decide as Ed; [subst id; rewrite Ho; cbn; unfold purgeable; rewrite Ec, El|].
    + by rewrite bool_decide_true by left.
    + destruct (k_orders self !! id) as [o'|]; [|done]. cbn.
      rewrite (bool_decide_ext (id ∈ x :: ids) (id ∈ ids)) by set_solver.
      unfold purgeable. by rewrite (linked_open_purge _ _ _ _ Ho Hc).
Qed.

Lemma drop_lists_store self l : k_orders (foldl drop_order_list self l) = k_orders self.
Proof. apply drop_lists_same. Qed.

(** on every run of the cache without excepted ids, [purge_closed_orders] returns and
    removes exactly the orders that are closed, were closed at least the buffer ago, and
    have no linked order that is still open; every other order stays, and the
    index still agrees with the store. *)
Theorem purge_closed_orders_correct {E} db self ts_now buffer_secs buffer_ns :
  (forall id, X id = false) -> cache_run db self ->
  secs_to_nanos (F64.of_Z buffer_secs) = Ok buffer_ns -> buffer_fits self buffer_ns ->
  exists self', purge_closed_orders (E := E) self ts_now buffer_secs = Ok self' /\
    orders_indexed self' /\
    forall id, k_orders self' !! id =
      (o ← k_orders self !! id; if purgeable self ts_now buffer_ns o then None else Some o).
Proof.
  intros HX Hok%cache_run_indexed Hs Hb. unfold purge_closed_orders, secs_to_nanos_unchecked.
  rewrite Hs. cbn.
  destruct (purge_orders_loop_spec (E := E) ts_now buffer_ns
    (iter_set (x_orders_closed (k_index self))) self [] Hb) as (s1 & aff & Hl & Hk).
  rewrite Hl. cbn. eexists. split; [done|]. split.
  - eapply same_orders_indexed; [apply drop_lists_same|]. by eapply purge_orders_loop_indexed.
  - intros id. rewrite drop_lists_store, Hk. destruct (k_orders self !! id) as [o|] eqn:Ho; [|done].
    cbn. destruct (purgeable self ts_now buffer_ns o) eqn:Ep; [|by rewrite andb_false_r].
    rewrite bool_decide_true; [done|]. apply elem_of_iter_set, (proj2 (oi_closed _ _ Hok id) (HX id)). exists o.
    split; [done|]. unfold purgeable in Ep. by do 2 apply andb_true_iff in Ep as [Ep _].
Qed.
End Spec.

(** ** At the demonstration cache *)

Example cache_query_correct_witness :
  exists l, orders (E := unit) (Some "SIM") None (Some "S-001") None CacheDemo.demo BOpen (Some Buy) = Ok l /\
    (any_id <$> l) = ["O-1"] /\
    orders_count (Some "SIM") None (Some "S-001") None CacheDemo.demo BOpen (Some Buy) = length l.
Proof.
  destruct (cache_query_correct (M := standard_mode) (X := fun _ => true) (E := unit) None CacheDemo.demo BOpen
    (Some "SIM") None (Some "S-001") None (Some Buy) CacheDemo.demo_run) as (l & Hl & _ & _ & _ & Hc & _).
  exists l. split; [exact Hl|]. split; [|exact Hc].
  vm_compute in Hl. injection Hl as <-. reflexivity.
Defined.


Example update_order_correct_witness :
  exists o o', k_orders CacheDemo.demo !! "O-1" = Some o /\
    any_apply (M := standard_mode) o (CacheDemo.ev_canceled "O-1") = (o', Ok tt) /\
    k_orders (CacheDemo.apply_ev (CacheDemo.ev_canceled "O-1") CacheDemo.demo) =
      <["O-1" := o']> (k_orders CacheDemo.demo).
Proof.
  destruct (update_order (M := standard_mode) CacheDemo.demo (CacheDemo.ev_canceled "O-1")) as [c r] eqn:Hu.
  assert (Hr : match r with Ok _ => True | _ => False end).
  { change r with (c, r).2. rewrite <- Hu. vm_compute. exact I. }
  pose proof (update_order_correct (M := standard_mode) (X := fun _ => true) None CacheDemo.demo _ c r CacheDemo.demo_run Hu) as H.
  destruct r as [o'| |]; [|destruct Hr..].
  destruct (H ltac:(discriminate)) as (o & Ho & Hap & Hs). exists o, o'.
  split; [exact Ho|]. split; [exact Hap|]. unfold CacheDemo.apply_ev. rewrite Hu. exact Hs.
Defined.

Example purge_order_correct_witness :
  k_orders (purge_order CacheDemo.demo "O-2") = delete "O-2" (k_orders CacheDemo.demo) /\
  purge_order CacheDemo.demo "O-1" = CacheDemo.demo.
Proof.
  pose proof (purge_order_correct (M := standard_mode) (X := fun _ => true) None CacheDemo.demo "O-2" CacheDemo.demo_run) as H2.
  pose proof (purge_order_correct (M := standard_mode) (X := fun _ => true) None CacheDemo.demo "O-1" CacheDemo.demo_run) as H1.
  cbv zeta in H1, H2. split.
  - destruct (match k_orders CacheDemo.demo !! "O-2" with Some o => _ | None => false end) eqn:E;
      [vm_compute in E; discriminate E|exact (proj1 H2)].
  - destruct (match k_orders CacheDemo.demo !! "O-1" with Some o => _ | None => false end) eqn:E;
      [exact H1|vm_compute in E; discriminate E].
Defined.

Lemma forallb_map_to_list {A} (f : string * A -> bool) (m : gmap string A) id o :
  forallb f (map_to_list m) = true -> m !! id = Some o -> f (id, o) = true.
Proof. rewrite forallb_forall. intros H Ho. apply H, list_elem_of_In. by apply elem_of_map_to_list. Qed.

Lemma demo_buffer : buffer_fits CacheDemo.demo 1000000000.
Proof.
  intros id o t Ho Ht.
  assert (Hall : forallb (fun kv => match o_ts_closed (any_core kv.2) with
    | Some t => in_ty U64 (t + 1000000000) | None => true end) (map_to_list (k_orders CacheDemo.demo)) = true)
    by (vm_compute; reflexivity).
  apply (forallb_map_to_list _ _ _ _ Hall) in Ho. cbn [snd] in Ho. rewrite Ht in Ho. exact Ho.
Qed.

Example purge_closed_orders_correct_witness :
  exists self', purge_closed_orders (E := unit) CacheDemo.demo 2000000000 1 = Ok self' /\
    k_orders self' !! "O-2" = None /\ is_Some (k_orders self' !! "O-1").
Proof.
  destruct (purge_closed_orders_correct (M := standard_mode) (X := fun _ => false) (E := unit) None CacheDemo.demo
    2000000000 1 1000000000 (fun _ => eq_refl) CacheDemo.demo_run ltac:(vm_compute; reflexivity) demo_buffer) as (self' & Hp & _ & H).
  exists self'. split; [exact Hp|]. split.
  - rewrite (H "O-2"). vm_compute. reflexivity.
  - rewrite (H "O-1"). vm_compute. eexists. reflexivity.
Defined.
