(* ===== verification/TickMath.v ===== *)
(** * Ticks and sqrt prices ([crates/model/src/defi/tick_map/tick_math.rs])

    A tick stands for the price [1.0001 ^ tick]; pools store the square root of
    the price in Q64.96.  The conversion multiplies one factor per set bit of
    the tick and is proved to be defined on exactly the valid ticks, to stay
    between the declared bounds and to grow by the square root of 1.0001 from
    each tick to the next, up to rounding. *)

From stdpp Require Import base numbers list.
From Stdlib Require Import Lia ZArith.
From S2P Require Import Prelude FullMath TickBitmap.

Open Scope Z_scope.

(** ** 160-bit integers

    Subtraction wraps; the conversion from 256 bits panics when the value does
    not fit. *)

Definition u160 (z : Z) : Prop := 0 <= z < 2 ^ 160.
Definition U160_MAX : Z := 2 ^ 160 - 1.
Definition u160_from {E} (z : Z) : outcome E Z := if z <=? U160_MAX then Ok z else Panic.

Definition MIN_SQRT_RATIO : Z := 4295128739.
Definition MAX_SQRT_RATIO : Z :=
  0x5d951d5263988d26 + 0xefd1fc6a50648849 * 2 ^ 64 + 0xfffd8963 * 2 ^ 128.

(** The factors of the second to the twentieth bit of the tick, and the bits
    they belong to. *)
Definition tick_factors : list (Z * Z) :=
  [ (0x2, 0xfff97272373d413259a46990580e213a);
    (0x4, 0xfff2e50f5f656932ef12357cf3c7fdcc);
    (0x8, 0xffe5caca7e10e4e61c3624eaa0941cd0);
    (0x10, 0xffcb9843d60f6159c9db58835c926644);
    (0x20, 0xff973b41fa98c081472e6896dfb254c0);
    (0x40, 0xff2ea16466c96a3843ec78b326b52861);
    (0x80, 0xfe5dee046a99a2a811c461f1969c3053);
    (0x100, 0xfcbe86c7900a88aedcffc83b479aa3a4);
    (0x200, 0xf987a7253ac413176f2b074cf7815e54);
    (0x400, 0xf3392b0822b70005940c7a398e4b70f3);
    (0x800, 0xe7159475a2c29b7443b29c7fa6e889d9);
    (0x1000, 0xd097f3bdfd2022b8845ad8f792aa5825);
    (0x2000, 0xa9f746462d870fdf8a65dc1f90e061e5);
    (0x4000, 0x70d869a156d2a1b890bb3df62baf32f7);
    (0x8000, 0x31be135f97d08fd981231505542fcfa6);
    (0x10000, 0x9aa508b5b7a84e1c677de54f3e99bc9);
    (0x20000, 0x5d6af8dedb81196699c329225ee604);
    (0x40000, 0x2216e584f5fa1ea926041bedfe98);
    (0x80000, 0x48a170391f7dc42444e8fa2) ].

Section tick_math.
Context {UL : U256Lib}.

(** [if abs_tick & mask != 0 { ratio = (ratio * factor) >> 128 }] *)
Definition tick_step (abs_tick ratio : Z) (mf : Z * Z) : Z :=
  let '(mask, factor) := mf in
  if Z.land abs_tick mask =? 0 then ratio else u_shr (u_mul ratio factor) 128.

Definition get_sqrt_ratio_at_tick (tick : Z) : outcome unit Z :=
  _ ← assert_ ((MIN_TICK <=? tick) && (tick <=? MAX_TICK));
  let abs_tick := Z.abs tick in
  let ratio :=
    if Z.land abs_tick 0x1 =? 0 then 0x100000000000000000000000000000000
    else 0xfffcb933bd6fad37aa2d162d1a594001 in
  let ratio := foldl (tick_step abs_tick) ratio tick_factors in
  ratio ← (if 0 <? tick then div_checked U256_MAX ratio else Ok ratio);
  u160_from (u_shr (u_add ratio 0xffffffff) 32).

(** One turn of the loop over the fractional bits, from bit 63 down to 50. *)
Definition log_step (st : Z * Z) (i : Z) : Z * Z :=
  let '(r, decimals) := st in
  let r := u_shr (u_mul r r) 127 in
  let f := u_shr r 128 in
  if 0 <? f then (u_shr r 1, u_or decimals (u_shl 1 i)) else (r, decimals).

(** The four low bytes, reassembled as an [i32]. *)
Definition low_i32 (z : Z) : Z := wrap I32 (z mod 2 ^ 32).

Definition get_tick_at_sqrt_ratio (sqrt_price_x96 : Z) : outcome unit Z :=
  _ ← assert_ ((MIN_SQRT_RATIO <=? sqrt_price_x96) && (sqrt_price_x96 <? MAX_SQRT_RATIO));
  let ratio := u_shl sqrt_price_x96 32 in
  let msb := most_significant_bit ratio in
  let log_2_x64 :=
    if 128 <=? msb then u_shl (msb - 128) 64
    else u_add (u_sub U256_MAX (u_shl (128 - msb) 64)) 1 in
  let r := if 128 <=? msb then u_shr ratio (msb - 127) else u_shl ratio (127 - msb) in
  let '(_, decimals) := foldl log_step (r, 0) [63; 62; 61; 60; 59; 58; 57; 56; 55; 54; 53; 52; 51; 50] in
  let log_2_x64 := u_or log_2_x64 decimals in
  let log_sqrt10001 := u_mul log_2_x64 255738958999603826347141 in
  let tick_low := low_i32 (u_shr (u_sub log_sqrt10001 3402992956809132418596140100660247210) 128) in
  let tick_hi := low_i32 (u_shr (u_add log_sqrt10001 291339464771989622907027621153398088495) 128) in
  if tick_low =? tick_hi then Ok tick_low
  else
    sqrt_ratio_hi ← get_sqrt_ratio_at_tick tick_hi;
    Ok (if sqrt_ratio_hi <=? sqrt_price_x96 then tick_hi else tick_low).
End tick_math.

(** The unit tests of the module. *)
Example tick_at_sqrt_ratio_values :
  (get_tick_at_sqrt_ratio (UL := u256_std) <$>
    [2 ^ 96; MIN_SQRT_RATIO; 511495728837967332084595714; 14464772219441977173490711849216;
     17148448136625419841777674413284; 4295343490; MAX_SQRT_RATIO - 1; MAX_SQRT_RATIO])
  = [Ok 0; Ok MIN_TICK; Ok (-100860); Ok 104148; Ok 107552; Ok (MIN_TICK + 1); Ok (MAX_TICK - 1); Panic].
Proof. vm_compute. reflexivity. Qed.

Example sqrt_ratio_values :
  (get_sqrt_ratio_at_tick (UL := u256_std) <$> [0; MIN_TICK; MAX_TICK; MAX_TICK + 1; MIN_TICK - 1])
  = [Ok (2 ^ 96); Ok MIN_SQRT_RATIO; Ok MAX_SQRT_RATIO; Panic; Panic].
Proof. vm_compute. reflexivity. Qed.

(** ** The factors *)

(** A product in Q128.128, rounded down. *)
Definition mul_q128 (x f : Z) : Z := x * f / 2 ^ 128.

(** The product of the factors of the set bits, lowest bit first. *)
Fixpoint factor_run (t x : Z) (fs : list Z) : Z :=
  match fs with
  | [] => x
  | f :: fs => factor_run (t / 2) (if Z.odd t then mul_q128 x f else x) fs
  end.

Definition bit_factors : list Z := 0xfffcb933bd6fad37aa2d162d1a594001 :: (snd <$> tick_factors).
Definition tick_ratio (t : Z) : Z := factor_run t (2 ^ 128) bit_factors.

Lemma mul_q128_bounds x f : 0 <= x <= 2 ^ 128 -> 0 <= f < 2 ^ 128 -> 0 <= mul_q128 x f <= 2 ^ 128.
Proof.
  intros Hx Hf. unfold mul_q128. split; [apply Z.div_pos; nia|]. apply Z.div_le_upper_bound; nia.
Qed.

Lemma land_pow2_odd t i : 0 <= i -> (Z.land t (2 ^ i) =? 0) = negb (Z.odd (t / 2 ^ i)).
Proof.
  intros Hi. rewrite <- Z.bit0_odd, Z.div_pow2_bits, Z.add_0_l by lia.
  destruct (Z.testbit t i) eqn:E; cbn.
  - apply Z.eqb_neq. intros H. assert (Hb : Z.testbit (Z.land t (2 ^ i)) i = true).
    { by rewrite Z.land_spec, E, Z.pow2_bits_true. }
    rewrite H, Z.bits_0 in Hb. done.
  - apply Z.eqb_eq. apply Z.bits_inj'. intros k Hk. rewrite Z.land_spec, Z.bits_0, Z.pow2_bits_eqb by lia.
    destruct (Z.eqb_spec i k) as [->|]; [by rewrite E|by rewrite andb_false_r].
Qed.

(** The masks are the successive powers of two. *)
Fixpoint masks_from (i : Z) (l : list (Z * Z)) : bool :=
  match l with
  | [] => true
  | (m, f) :: l => (m =? 2 ^ i) && ((0 <=? f) && (f <? 2 ^ 128)) && masks_from (i + 1) l
  end.

Lemma fold_factor_run {UL : U256Lib} t l i x :
  masks_from i l = true -> 0 <= i -> 0 <= x <= 2 ^ 128 ->
  foldl (tick_step t) x l = factor_run (t / 2 ^ i) x (snd <$> l) /\ 0 <= foldl (tick_step t) x l <= 2 ^ 128.
Proof.
  revert i x. induction l as [|[m f] l IH]; intros i x Hm Hi Hx; [done|].
  cbn in Hm. bool_simpl. subst m. cbn [foldl tick_step fmap list_fmap factor_run snd].
  rewrite land_pow2_odd by done.
  assert (E : (if negb (Z.odd (t / 2 ^ i)) then x else u_shr (u_mul x f) 128)
              = (if Z.odd (t / 2 ^ i) then mul_q128 x f else x)).
  { destruct (Z.odd (t / 2 ^ i)); cbn; [|done].
    rewrite u_mul_spec, Z.mod_small by (unfold u256; nia). by rewrite u_shr_spec by (unfold u256; nia). }
  rewrite E. replace (t / 2 ^ i / 2) with (t / 2 ^ (i + 1))
    by (rewrite Z.pow_add_r, Z.pow_1_r, Z.div_div by lia; done).
  apply IH; [done|lia|].
  destruct (Z.odd _); [by apply mul_q128_bounds|done].
Qed.

Lemma tick_ratio_cons t :
  tick_ratio t = factor_run (t / 2) (if Z.odd t then 0xfffcb933bd6fad37aa2d162d1a594001 else 2 ^ 128) (snd <$> tick_factors).
Proof.
  unfold tick_ratio, bit_factors. generalize (snd <$> tick_factors). intros l. cbn [factor_run].
  replace (mul_q128 (2 ^ 128) 0xfffcb933bd6fad37aa2d162d1a594001) with 0xfffcb933bd6fad37aa2d162d1a594001
    by (vm_compute; reflexivity).
  reflexivity.
Qed.

Lemma land_1_odd t : (Z.land t 1 =? 0) = negb (Z.odd t).
Proof. rewrite <- (Z.div_1_r t) at 2. exact (land_pow2_odd t 0 (Z.le_refl 0)). Qed.

Lemma tick_ratio_fold {UL : U256Lib} t :
  foldl (tick_step t) (if Z.land t 1 =? 0 then 0x100000000000000000000000000000000
                       else 0xfffcb933bd6fad37aa2d162d1a594001) tick_factors = tick_ratio t /\
  0 <= tick_ratio t <= 2 ^ 128.
Proof.
  rewrite land_1_odd, tick_ratio_cons.
  replace 0x100000000000000000000000000000000 with (2 ^ 128) by (vm_compute; reflexivity).
  assert (Hm : masks_from 1 tick_factors = true) by (vm_compute; reflexivity).
  generalize dependent tick_factors. intros l Hm.
  destruct (Z.odd t); cbn [negb];
    (edestruct (fold_factor_run t l 1) as [E B]; [exact Hm|lia| |rewrite Z.pow_1_r in E; split; [exact E|rewrite <- E; exact B]]; lia).
Qed.

(** ** Neighbouring ticks *)

(** [a] is [b] times the square root of 1.0001, which lies between
    [1 + 49998750062 / 10^15] and [1 + 49998750063 / 10^15], with an error of a
    few units. *)
Definition near (e a b : Z) : Prop :=
  0 <= b <= a /\
  b * (10 ^ 15 + 49998750062) - e * 10 ^ 15 <= a * 10 ^ 15 <= b * (10 ^ 15 + 49998750063) + 2 * e * 10 ^ 15.

Definition near_0 (a b : Z) : bool :=
  (0 <=? b) && (b <=? a) && (b * (10 ^ 15 + 49998750062) <=? a * 10 ^ 15)
  && (a * 10 ^ 15 <=? b * (10 ^ 15 + 49998750063)).

Lemma near_mul e a b f : 0 <= e -> 0 <= f < 2 ^ 128 -> near e a b -> near (e + 1) (mul_q128 a f) (mul_q128 b f).
Proof.
  intros He Hf [Hb [Hl Hu]]. unfold near, mul_q128.
  pose proof (Z.mul_div_le (a * f) (2 ^ 128) ltac:(lia)). pose proof (Z.mul_succ_div_gt (a * f) (2 ^ 128) ltac:(lia)).
  pose proof (Z.mul_div_le (b * f) (2 ^ 128) ltac:(lia)). pose proof (Z.mul_succ_div_gt (b * f) (2 ^ 128) ltac:(lia)).
  assert (0 <= b * f / 2 ^ 128) by (apply Z.div_pos; nia).
  assert (b * f / 2 ^ 128 <= a * f / 2 ^ 128) by (apply Z.div_le_mono; nia).
  set (qa := a * f / 2 ^ 128) in *. set (qb := b * f / 2 ^ 128) in *.
  assert (Hef : e * f <= e * 2 ^ 128) by nia.
  apply (Z.mul_le_mono_nonneg_r _ _ f) in Hl; [|lia]. apply (Z.mul_le_mono_nonneg_r _ _ f) in Hu; [|lia].
  split; [lia|split; lia].
Qed.

Lemma near_run fs t e a b :
  0 <= e -> Forall (fun f => 0 <= f < 2 ^ 128) fs -> near e a b ->
  near (e + Z.of_nat (length fs)) (factor_run t a fs) (factor_run t b fs).
Proof.
  revert t e a b. induction fs as [|f fs IH]; intros t e a b He Hf Hn; cbn [factor_run length].
  - by rewrite Z.add_0_r.
  - apply Forall_cons in Hf as [Hf Hfs]. replace (e + Z.of_nat (S (length fs))) with (e + 1 + Z.of_nat (length fs)) by lia.
    apply IH; [lia|done|]. destruct (Z.odd t); [by apply near_mul|].
    destruct Hn as [H1 [H2 H3]]. split; [done|split; lia].
Qed.

(** The product of the factors below a bit is near the factor of the bit. *)
Fixpoint chain_ok (a : Z) (fs : list Z) : bool :=
  match fs with
  | [] => true
  | f :: fs => near_0 a (mul_q128 (2 ^ 128) f) && chain_ok (mul_q128 a f) fs
  end.

Lemma near_0_near a b : near_0 a b = true -> near 0 a b.
Proof. unfold near_0, near. intros H. bool_simpl. lia. Qed.

Lemma near_succ fs a t :
  chain_ok a fs = true -> Forall (fun f => 0 <= f < 2 ^ 128) fs ->
  0 <= t -> t + 1 < 2 ^ Z.of_nat (length fs) ->
  near (Z.of_nat (length fs)) (factor_run t a fs) (factor_run (t + 1) (2 ^ 128) fs).
Proof.
  revert a t. induction fs as [|f fs IH]; intros a t Hc Hf Ht Hl; [cbn in Hl; lia|].
  apply Forall_cons in Hf as [Hf Hfs]. cbn [chain_ok] in Hc. apply andb_true_iff in Hc as [Hn Hc].
  cbn [length] in *. rewrite Nat2Z.inj_succ, Z.pow_succ_r in Hl by lia. cbn [factor_run].
  rewrite Z.odd_add. change (Z.odd 1) with true. rewrite xorb_true_r.
  destruct (Z.odd t) eqn:Eo; cbn [negb].
  - apply Z.odd_spec in Eo as [k ->]. replace ((2 * k + 1) / 2) with k by (apply (Z.div_unique _ _ _ 1); lia).
    replace ((2 * k + 1 + 1) / 2) with (k + 1) by (apply (Z.div_unique _ _ _ 0); lia).
    assert (H : near (Z.of_nat (length fs)) (factor_run k (mul_q128 a f) fs) (factor_run (k + 1) (2 ^ 128) fs))
      by (apply IH; [done..|lia|lia]).
    destruct H as [H1 [H2 H3]]. split; [done|split; lia].
  - assert (Ee : Z.even t = true) by (rewrite <- Z.negb_odd, Eo; done). apply Z.even_spec in Ee as [k ->].
    replace (2 * k / 2) with k by (apply (Z.div_unique _ _ _ 0); lia).
    replace ((2 * k + 1) / 2) with k by (apply (Z.div_unique _ _ _ 1); lia).
    assert (H : near (0 + Z.of_nat (length fs)) (factor_run k a fs) (factor_run k (mul_q128 (2 ^ 128) f) fs)).
    { apply near_run; [lia|done|]. by apply near_0_near. }
    destruct H as [H1 [H2 H3]]. split; [done|split; lia].
Qed.

Lemma tick_ratio_near t : 0 <= t < MAX_TICK -> near 20 (tick_ratio t) (tick_ratio (t + 1)).
Proof.
  intros Ht. apply (near_succ bit_factors (2 ^ 128) t); [vm_compute; reflexivity| |lia|].
  - apply List.Forall_forall. intros f Hf.
    assert (H : forallb (fun f => (0 <=? f) && (f <? 2 ^ 128)) bit_factors = true) by (vm_compute; reflexivity).
    pose proof (proj1 (List.forallb_forall _ _) H f Hf) as B. cbn beta in B. bool_simpl. lia.
  - unfold MAX_TICK in Ht. change (2 ^ Z.of_nat (length bit_factors)) with 1048576. lia.
Qed.

(** The smallest product belongs to the largest tick. *)
Lemma tick_ratio_low t : 0 <= t <= MAX_TICK -> 10 ^ 19 <= tick_ratio t.
Proof.
  intros Ht. assert (H : forall n, 0 <= n -> n <= MAX_TICK -> 10 ^ 19 <= tick_ratio (MAX_TICK - n)).
  { apply (natlike_ind (fun n => n <= MAX_TICK -> 10 ^ 19 <= tick_ratio (MAX_TICK - n))).
    - intros _. apply Z.leb_le. vm_compute. reflexivity.
    - intros n Hn IH Hle. destruct (tick_ratio_near (MAX_TICK - Z.succ n)) as [[_ H] _]; [lia|].
      replace (MAX_TICK - Z.succ n + 1) with (MAX_TICK - n) in H by lia. etransitivity; [apply IH; lia|done]. }
  replace t with (MAX_TICK - (MAX_TICK - t)) by lia. apply H; lia.
Qed.

Lemma tick_ratio_step t :
  0 <= t < MAX_TICK ->
  tick_ratio (t + 1) * (10 ^ 15 + 49998750061) <= tick_ratio t * 10 ^ 15
    <= tick_ratio (t + 1) * (10 ^ 15 + 49998750064).
Proof.
  intros Ht. pose proof (tick_ratio_near t Ht) as [_ H]. pose proof (tick_ratio_low (t + 1) ltac:(lia)). lia.
Qed.

(** ** The conversion *)

Definition ceil32 (r : Z) : Z := (r + 0xffffffff) / 2 ^ 32.

(** The conversion without the machine integers. *)
Definition sqrt_ratio (tick : Z) : Z :=
  ceil32 (if 0 <? tick then U256_MAX / tick_ratio tick else tick_ratio (- tick)).

Lemma ceil32_spec r : r <= 2 ^ 32 * ceil32 r < r + 2 ^ 32.
Proof.
  unfold ceil32. pose proof (Z.mul_div_le (r + 0xffffffff) (2 ^ 32) ltac:(lia)).
  pose proof (Z.mul_succ_div_gt (r + 0xffffffff) (2 ^ 32) ltac:(lia)). lia.
Qed.

(** A ratio of neighbours survives the rounding when the numbers are large. *)
Lemma ceil32_step x y :
  2 ^ 63 <= x -> x * (10 ^ 15 + 49998750060) <= y * 10 ^ 15 + 10 ^ 20 ->
  y * 10 ^ 15 <= x * (10 ^ 15 + 49998750065) + 10 ^ 20 ->
  ceil32 x * (10 ^ 10 + 499980) <= ceil32 y * 10 ^ 10 <= ceil32 x * (10 ^ 10 + 499995).
Proof. intros. pose proof (ceil32_spec x). pose proof (ceil32_spec y). lia. Qed.

(** The reciprocals of neighbours are neighbours. *)
Lemma recip_step M a b :
  0 < b -> 0 < a -> 0 <= M ->
  b * (10 ^ 15 + 49998750061) <= a * 10 ^ 15 <= b * (10 ^ 15 + 49998750064) ->
  M / a * (10 ^ 15 + 49998750061) < (M / b + 1) * 10 ^ 15 /\
  M / b * 10 ^ 15 < (M / a + 1) * (10 ^ 15 + 49998750064).
Proof.
  intros Hb Ha HM [H1 H2]. pose proof (Z.mul_div_le M a Ha). pose proof (Z.mul_succ_div_gt M a Ha).
  pose proof (Z.mul_div_le M b Hb). pose proof (Z.mul_succ_div_gt M b Hb).
  assert (0 <= M / a) by (apply Z.div_pos; lia). assert (0 <= M / b) by (apply Z.div_pos; lia).
  set (p := M / a) in *. set (q := M / b) in *.
  apply (Z.mul_le_mono_nonneg_l _ _ p) in H1; [|lia]. apply (Z.mul_le_mono_nonneg_l _ _ (p + 1)) in H2; [|lia].
  split; apply (Z.mul_lt_mono_pos_l b); nia.
Qed.

Lemma sqrt_ratio_nonneg_form t : 0 <= t -> t <= MAX_TICK -> sqrt_ratio t = ceil32 (U256_MAX / tick_ratio t).
Proof.
  intros H _. unfold sqrt_ratio. destruct (Z.ltb_spec 0 t); [done|].
  replace t with 0 by lia. vm_compute. reflexivity.
Qed.

Lemma sqrt_ratio_nonpos_form t : t <= 0 -> sqrt_ratio t = ceil32 (tick_ratio (- t)).
Proof. intros H. unfold sqrt_ratio. by rewrite (proj2 (Z.ltb_ge 0 t)). Qed.

Lemma sqrt_ratio_step t :
  MIN_TICK <= t < MAX_TICK ->
  sqrt_ratio t * (10 ^ 10 + 499980) <= sqrt_ratio (t + 1) * 10 ^ 10 <= sqrt_ratio t * (10 ^ 10 + 499995).
Proof.
  intros Ht. change MIN_TICK with (- MAX_TICK) in Ht. destruct (Z.le_gt_cases 0 t).
  - rewrite !sqrt_ratio_nonneg_form by lia.
    pose proof (tick_ratio_low t ltac:(lia)). pose proof (tick_ratio_low (t + 1) ltac:(lia)).
    destruct (tick_ratio_fold (UL := u256_std) t) as [_ Hu].
    destruct (recip_step U256_MAX (tick_ratio t) (tick_ratio (t + 1))) as [R1 R2];
      [lia|lia|done|apply tick_ratio_step; lia|].
    assert (2 ^ 127 <= U256_MAX / tick_ratio t).
    { apply Z.div_le_lower_bound; [lia|]. transitivity (2 ^ 128 * 2 ^ 127); [nia|unfold U256_MAX; lia]. }
    apply ceil32_step; lia.
  - rewrite !sqrt_ratio_nonpos_form by lia. pose proof (tick_ratio_step (- (t + 1)) ltac:(lia)) as R1.
    replace (- (t + 1) + 1) with (- t) in R1 by lia. pose proof (tick_ratio_low (- t) ltac:(lia)).
    apply ceil32_step; lia.
Qed.

Lemma sqrt_ratio_pos t : MIN_TICK <= t <= MAX_TICK -> 0 < sqrt_ratio t.
Proof.
  intros Ht. change MIN_TICK with (- MAX_TICK) in Ht. unfold sqrt_ratio.
  set (x := if 0 <? t then U256_MAX / tick_ratio t else tick_ratio (- t)).
  assert (0 < x); [|pose proof (ceil32_spec x); lia]. unfold x. destruct (Z.ltb_spec 0 t).
  - pose proof (tick_ratio_low t ltac:(lia)). destruct (tick_ratio_fold (UL := u256_std) t) as [_ Hu].
    apply Z.div_str_pos. unfold U256_MAX. lia.
  - pose proof (tick_ratio_low (- t) ltac:(lia)). lia.
Qed.

Lemma sqrt_ratio_mono s t : MIN_TICK <= s -> s < t -> t <= MAX_TICK -> sqrt_ratio s < sqrt_ratio t.
Proof.
  intros Hs Hlt Ht. assert (H : forall n, 0 <= n -> s + 1 + n <= MAX_TICK -> sqrt_ratio s < sqrt_ratio (s + 1 + n)).
  { apply (natlike_ind (fun n => s + 1 + n <= MAX_TICK -> sqrt_ratio s < sqrt_ratio (s + 1 + n))).
    - intros Hn. pose proof (sqrt_ratio_step s ltac:(lia)). pose proof (sqrt_ratio_pos s ltac:(lia)).
      rewrite Z.add_0_r. lia.
    - intros n Hn IH Hle. pose proof (sqrt_ratio_step (s + 1 + n) ltac:(lia)).
      pose proof (sqrt_ratio_pos (s + 1 + n) ltac:(lia)). specialize (IH ltac:(lia)).
      replace (s + 1 + Z.succ n) with (s + 1 + n + 1) by lia. lia. }
  replace t with (s + 1 + (t - s - 1)) by lia. apply H; lia.
Qed.

Lemma sqrt_ratio_bounds t : MIN_TICK <= t <= MAX_TICK -> MIN_SQRT_RATIO <= sqrt_ratio t <= MAX_SQRT_RATIO.
Proof.
  intros Ht. assert (E1 : sqrt_ratio MIN_TICK = MIN_SQRT_RATIO) by (vm_compute; reflexivity).
  assert (E2 : sqrt_ratio MAX_TICK = MAX_SQRT_RATIO) by (vm_compute; reflexivity).
  rewrite <- E1, <- E2. split.
  - destruct (Z.eq_dec t MIN_TICK) as [->|]; [lia|]. pose proof (sqrt_ratio_mono MIN_TICK t). lia.
  - destruct (Z.eq_dec t MAX_TICK) as [->|]; [lia|]. pose proof (sqrt_ratio_mono t MAX_TICK). lia.
Qed.

Lemma sqrt_ratio_spec {UL : U256Lib} t :
  get_sqrt_ratio_at_tick t = if (MIN_TICK <=? t) && (t <=? MAX_TICK) then Ok (sqrt_ratio t) else Panic.
Proof.
  unfold get_sqrt_ratio_at_tick. destruct ((MIN_TICK <=? t) && (t <=? MAX_TICK)) eqn:Er; [|done]. osimpl.
  bool_simpl. destruct (tick_ratio_fold (Z.abs t)) as [-> Hu].
  assert (Hlow : 10 ^ 19 <= tick_ratio (Z.abs t)) by (apply tick_ratio_low; unfold MIN_TICK, MAX_TICK in *; lia).
  pose proof (sqrt_ratio_bounds t ltac:(lia)) as Hb. revert Hb. unfold sqrt_ratio, ceil32, div_checked.
  rewrite (proj2 (Z.eqb_neq (tick_ratio (Z.abs t)) 0)) by lia.
  assert (Hq : 0 <= U256_MAX / tick_ratio (Z.abs t) < 2 ^ 255).
  { split; [apply Z.div_pos; [done|lia]|]. apply Z.div_lt_upper_bound; [lia|]. unfold U256_MAX. lia. }
  rewrite u_div_spec by (unfold u256, U256_MAX; lia).
  destruct (Z.ltb_spec 0 t); osimpl; [rewrite (Z.abs_eq t) in * by lia|rewrite (Z.abs_neq t) in * by lia].
  all: rewrite u_add_spec, Z.mod_small, u_shr_spec by (unfold u256; lia); unfold u160_from; intros Hb.
  all: rewrite (proj2 (Z.leb_le _ U160_MAX)); [reflexivity|]; change MAX_SQRT_RATIO with 1461446703485210103287273052203988822378723970342 in Hb; unfold U160_MAX; lia.
Qed.

(** [get_sqrt_ratio_at_tick] panics outside the tick range and otherwise
    returns a price between [MIN_SQRT_RATIO] and [MAX_SQRT_RATIO], which are the
    prices of the first and the last tick; from each tick to the next the price
    grows, by the square root of 1.0001 up to eight parts in ten thousand
    million, so that prices are strictly increasing in the tick. *)
Theorem tick_prices_correct {UL : U256Lib} :
  (forall t, get_sqrt_ratio_at_tick t <> Panic <-> MIN_TICK <= t <= MAX_TICK) /\
  get_sqrt_ratio_at_tick MIN_TICK = Ok MIN_SQRT_RATIO /\ get_sqrt_ratio_at_tick MAX_TICK = Ok MAX_SQRT_RATIO /\
  (forall t, MIN_TICK <= t < MAX_TICK ->
     exists p q, get_sqrt_ratio_at_tick t = Ok p /\ get_sqrt_ratio_at_tick (t + 1) = Ok q /\
       p * (10 ^ 10 + 499980) <= q * 10 ^ 10 <= p * (10 ^ 10 + 499995)) /\
  (forall s t p q, s < t -> get_sqrt_ratio_at_tick s = Ok p -> get_sqrt_ratio_at_tick t = Ok q ->
     MIN_SQRT_RATIO <= p < q /\ q <= MAX_SQRT_RATIO).
Proof.
  assert (Hin : forall t, ((MIN_TICK <=? t) && (t <=? MAX_TICK)) = true <-> MIN_TICK <= t <= MAX_TICK).
  { intros t. rewrite andb_true_iff, !Z.leb_le. lia. }
  split_and!.
  - intros t. rewrite sqrt_ratio_spec, <- Hin. by destruct (_ && _).
  - rewrite sqrt_ratio_spec. vm_compute. reflexivity.
  - rewrite sqrt_ratio_spec. vm_compute. reflexivity.
  - intros t Ht. exists (sqrt_ratio t), (sqrt_ratio (t + 1)). rewrite !sqrt_ratio_spec.
    rewrite (proj2 (Hin t)), (proj2 (Hin (t + 1))) by lia. split_and!; [done|done|apply sqrt_ratio_step; lia..].
  - intros s t p q Hlt. rewrite !sqrt_ratio_spec.
    destruct (_ && _) eqn:Es; [|done]. destruct (_ && _) eqn:Et in |- *; [|done]. apply Hin in Es, Et.
    intros [= <-] [= <-]. pose proof (sqrt_ratio_mono s t). pose proof (sqrt_ratio_bounds s Es).
    pose proof (sqrt_ratio_bounds t Et). lia.
Qed.

Lemma tick_prices_correct_witness :
  exists p q, get_sqrt_ratio_at_tick (UL := u256_std) 1000 = Ok p /\ get_sqrt_ratio_at_tick (UL := u256_std) 1001 = Ok q /\
    p * (10 ^ 10 + 499980) <= q * 10 ^ 10 <= p * (10 ^ 10 + 499995).
Proof.
  destruct (tick_prices_correct (UL := u256_std)) as (_ & _ & _ & H & _). apply (H 1000).
  unfold MIN_TICK, MAX_TICK. lia.
Defined.
