(* ===== verification/TickLog.v ===== *)
(** * From sqrt prices back to ticks
    ([get_tick_at_sqrt_ratio], [crates/model/src/defi/tick_map/tick_math.rs])

    The code computes fourteen fractional bits of the binary logarithm of the
    price by repeated squaring, scales to the logarithm of base sqrt(1.0001) and
    corrects the result by one comparison.  The error of every truncation is
    bounded with the real logarithm, and the conversion is proved to be the
    exact inverse of [get_sqrt_ratio_at_tick]. *)

From stdpp Require Import base numbers list.
From Stdlib Require Import Lia ZArith Reals Lra.
From S2P Require Import Prelude FullMath TickBitmap TickMath.

Open Scope Z_scope.

(** ** The binary logarithm of an integer *)

Definition lg (z : Z) : R := (ln (IZR z) / ln 2)%R.

Lemma ln2_half : (1 / 2 <= ln 2)%R.
Proof.
  rewrite <- (ln_exp (1 / 2)). destruct (Rle_lt_dec (exp (1 / 2)) 2) as [[H|H]|H].
  - left. apply ln_increasing; [apply exp_pos|done].
  - rewrite H. lra.
  - exfalso. pose proof exp_le_3 as E. replace 1%R with (1 / 2 + 1 / 2)%R in E by lra. rewrite exp_plus in E.
    assert (2 * 2 < exp (1 / 2) * exp (1 / 2))%R by (apply Rmult_le_0_lt_compat; lra). lra.
Qed.

Lemma ln2_pos : (0 < ln 2)%R.
Proof. pose proof ln2_half. lra. Qed.

Lemma lg_mul a b : 0 < a -> 0 < b -> lg (a * b) = (lg a + lg b)%R.
Proof.
  intros Ha Hb. unfold lg. rewrite mult_IZR, ln_mult by (by apply (IZR_lt 0)). unfold Rdiv. ring.
Qed.

Lemma lg_1 : lg 1 = 0%R.
Proof. unfold lg. rewrite ln_1. unfold Rdiv. ring. Qed.

Lemma lg_2 : lg 2 = 1%R.
Proof. unfold lg. apply Rinv_r. pose proof ln2_pos. lra. Qed.

Lemma lg_pow2 n : 0 <= n -> lg (2 ^ n) = IZR n.
Proof.
  intros Hn. pattern n. apply natlike_ind; [apply lg_1| |done]. intros x Hx IH.
  rewrite Z.pow_succ_r, lg_mul, lg_2, IH, succ_IZR by lia. ring.
Qed.

(** Powers of one half. *)
Definition half_pow (k : Z) : R := (/ IZR (2 ^ k))%R.

Lemma half_pow_pos k : 0 <= k -> (0 < half_pow k)%R.
Proof. intros Hk. apply Rinv_0_lt_compat, (IZR_lt 0), Z.pow_pos_nonneg; lia. Qed.

Lemma half_pow_add k n : 0 <= k -> 0 <= n -> half_pow k = (IZR (2 ^ n) * half_pow (k + n))%R.
Proof.
  intros Hk Hn. unfold half_pow. rewrite Z.pow_add_r, mult_IZR by lia.
  assert (0 < IZR (2 ^ k))%R by (apply (IZR_lt 0), Z.pow_pos_nonneg; lia).
  assert (0 < IZR (2 ^ n))%R by (apply (IZR_lt 0), Z.pow_pos_nonneg; lia). field. lra.
Qed.

Lemma half_pow_double k : 0 <= k -> half_pow k = (2 * half_pow (k + 1))%R.
Proof. intros Hk. by rewrite (half_pow_add k 1) by lia. Qed.

Lemma half_pow_le k n : 0 <= k <= n -> (half_pow n <= half_pow k)%R.
Proof.
  intros H. apply Rinv_le_contravar; [apply (IZR_lt 0), Z.pow_pos_nonneg; lia|].
  apply IZR_le, Z.pow_le_mono_r; lia.
Qed.

Lemma two_over x k : 0 <= k -> 2 ^ (k + 1) <= x -> (2 / IZR x <= half_pow k)%R.
Proof.
  intros Hk Hx. rewrite (half_pow_add k 1) by lia. apply Rmult_le_compat_l; [apply IZR_le; lia|].
  apply Rinv_le_contravar; [apply (IZR_lt 0), Z.pow_pos_nonneg; lia|by apply IZR_le].
Qed.

Lemma lg_lt a b : 0 < a -> a < b -> (lg a < lg b)%R.
Proof.
  intros Ha Hab. unfold lg. apply Rmult_lt_compat_r; [apply Rinv_0_lt_compat, ln2_pos|].
  apply ln_increasing; by apply IZR_lt.
Qed.

Lemma lg_le a b : 0 < a -> a <= b -> (lg a <= lg b)%R.
Proof.
  intros Ha Hab. destruct (Z.eq_dec a b) as [->|]; [lra|]. left. apply lg_lt; lia.
Qed.

Lemma lg_lt_inv a b : 0 < b -> (lg a < lg b)%R -> a < b.
Proof.
  intros Hb H. destruct (Z.lt_ge_cases a b) as [|Hge]; [done|]. pose proof (lg_le b a Hb Hge). lra.
Qed.

Lemma lg_succ q : 1 <= q -> (lg (q + 1) <= lg q + 2 / IZR q)%R.
Proof.
  intros Hq. assert (Hq0 : (0 < IZR q)%R) by (apply (IZR_lt 0); lia).
  assert (Hi : (0 < / IZR q)%R) by (by apply Rinv_0_lt_compat).
  assert (E : ln (IZR (q + 1)) = (ln (IZR q) + ln (1 + / IZR q))%R).
  { rewrite <- ln_mult by lra. f_equal. rewrite plus_IZR. field. lra. }
  assert (Hl : (ln (1 + / IZR q) <= / IZR q)%R).
  { rewrite <- (ln_exp (/ IZR q)) at 2. destruct (exp_ineq1_le (/ IZR q)) as [H|H]; [|rewrite H; lra].
    left. apply ln_increasing; lra. }
  unfold lg. rewrite E. unfold Rdiv. rewrite Rmult_plus_distr_r.
  apply Rplus_le_compat_l. pose proof ln2_half. pose proof ln2_pos.
  transitivity (/ IZR q * / ln 2)%R.
  - apply Rmult_le_compat_r; [left; by apply Rinv_0_lt_compat|done].
  - rewrite (Rmult_comm 2). apply Rmult_le_compat_l; [lra|].
    replace 2%R with (/ (1 / 2))%R at 2 by lra. apply Rinv_le_contravar; lra.
Qed.

(** A quotient rounded down. *)
Lemma lg_div a b :
  0 < b -> b <= a -> (lg a - lg b - 2 / IZR (a / b) <= lg (a / b) <= lg a - lg b)%R.
Proof.
  intros Hb Ha. assert (Hq : 1 <= a / b) by (apply Z.div_le_lower_bound; lia).
  pose proof (Z.mul_div_le a b Hb) as H1. pose proof (Z.mul_succ_div_gt a b Hb) as H2. set (q := a / b) in *. split.
  - assert (lg a <= lg (b * (q + 1)))%R by (apply lg_le; lia). rewrite lg_mul in H by lia.
    pose proof (lg_succ q Hq). lra.
  - assert (lg (b * q) <= lg a)%R by (apply lg_le; nia). rewrite lg_mul in H by lia. lra.
Qed.

(** The same with a bound on the error that does not depend on the quotient. *)
Lemma lg_div_err a b k :
  0 < b -> 0 <= k -> 2 ^ (k + 1) * b <= a -> (lg a - lg b - half_pow k <= lg (a / b) <= lg a - lg b)%R.
Proof.
  intros Hb Hk Ha. assert (Hp : 0 < 2 ^ (k + 1)) by (apply Z.pow_pos_nonneg; lia).
  assert (Hq : 2 ^ (k + 1) <= a / b) by (apply Z.div_le_lower_bound; lia).
  destruct (lg_div a b Hb) as [H1 H2]; [nia|]. pose proof (two_over (a / b) k Hk Hq). split; [lra|done].
Qed.

(** ** Fractional bits by repeated squaring *)

(** [n] bits are appended to [d]; [r] is the rest, between one and two in
    Q1.127. *)
Fixpoint log_iter (n : nat) (r d : Z) : Z * Z :=
  match n with
  | O => (r, d)
  | S n =>
      let q := r * r / 2 ^ 127 in
      if 2 ^ 128 <=? q then log_iter n (q / 2) (2 * d + 1) else log_iter n q (2 * d)
  end.

Definition mantissa (r : Z) : Prop := 2 ^ 127 <= r < 2 ^ 128.

(** What is represented by the bits and the rest. *)
Definition logval (r d : Z) : R := (IZR d + (lg r - 127))%R.

(** The error of one turn. *)
Definition log_eps : R := half_pow 120.

Lemma log_eps_pos : (0 < log_eps)%R.
Proof. by apply half_pow_pos. Qed.

Lemma log_turn r d :
  mantissa r ->
  let q := r * r / 2 ^ 127 in
  let '(r', d') := if 2 ^ 128 <=? q then (q / 2, 2 * d + 1) else (q, 2 * d) in
  mantissa r' /\ (0 <= 2 * logval r d - logval r' d' <= log_eps)%R.
Proof.
  intros Hr q. unfold mantissa in Hr. assert (Hq : 2 ^ 127 <= q < 2 ^ 129).
  { unfold q. split; [apply Z.div_le_lower_bound; nia|apply Z.div_lt_upper_bound; nia]. }
  destruct (lg_div_err (r * r) (2 ^ 127) 126) as [H1 H2]; [lia|lia|nia|]. fold q in H1, H2.
  rewrite lg_mul, (lg_pow2 127) in H1, H2 by lia. pose proof log_eps_pos.
  assert (He : (half_pow 126 + half_pow 125 <= log_eps)%R).
  { unfold log_eps. rewrite (half_pow_double 120) by lia. pose proof (half_pow_le 121 126 ltac:(lia)).
    pose proof (half_pow_le 121 125 ltac:(lia)).
    change (120 + 1) with 121. lra. }
  pose proof (half_pow_pos 125 ltac:(lia)). pose proof (half_pow_pos 126 ltac:(lia)).
  destruct (Z.leb_spec (2 ^ 128) q) as [Hb|Hb].
  - split; [split; [apply Z.div_le_lower_bound; lia|apply Z.div_lt_upper_bound; lia]|].
    destruct (lg_div_err q 2 125) as [Q3 Q4]; [lia|lia|lia|]. rewrite lg_2 in Q3, Q4.
    unfold logval. rewrite plus_IZR, mult_IZR. lra.
  - split; [unfold mantissa; lia|]. unfold logval. rewrite mult_IZR. lra.
Qed.

Lemma log_iter_spec n r d :
  mantissa r ->
  let '(r', d') := log_iter n r d in
  mantissa r' /\ (0 <= 2 ^ n * logval r d - logval r' d' <= (2 ^ n - 1) * log_eps)%R.
Proof.
  revert r d. induction n as [|n IH]; intros r d Hr; cbn [log_iter pow]; [split; [done|lra]|].
  pose proof (log_turn r d Hr) as Ht. cbn zeta in Ht. set (q := r * r / 2 ^ 127) in *.
  assert (Hp : (1 <= 2 ^ n)%R) by (apply pow_R1_Rle; lra). pose proof log_eps_pos.
  assert (Hstep : forall r1 d1, mantissa r1 /\ (0 <= 2 * logval r d - logval r1 d1 <= log_eps)%R ->
    let '(r', d') := log_iter n r1 d1 in
    mantissa r' /\ (0 <= 2 * 2 ^ n * logval r d - logval r' d' <= (2 * 2 ^ n - 1) * log_eps)%R).
  { intros r1 d1 [Hm Hv]. specialize (IH r1 d1 Hm). destruct (log_iter n r1 d1) as [r' d'].
    destruct IH as [Hm' Hv']. split; [done|].
    assert (0 <= 2 ^ n * (2 * logval r d - logval r1 d1) <= 2 ^ n * log_eps)%R by (split; nra). nra. }
  destruct (2 ^ 128 <=? q); by apply Hstep.
Qed.

(** The bits are the integer part of the scaled logarithm, up to the error. *)
Lemma log_iter_bounds n r d r' d' :
  mantissa r -> log_iter n r d = (r', d') ->
  (IZR d' <= 2 ^ n * logval r d < IZR d' + 1 + 2 ^ n * log_eps)%R.
Proof.
  intros Hr E. pose proof (log_iter_spec n r d Hr) as H. rewrite E in H. destruct H as [[Hm1 Hm2] Hv].
  pose proof (lg_le (2 ^ 127) r' ltac:(lia) Hm1) as H1. pose proof (lg_lt r' (2 ^ 128) ltac:(lia) Hm2) as H2.
  rewrite lg_pow2 in H1, H2 by lia. pose proof log_eps_pos. unfold logval in Hv at 2 4.
  replace (2 ^ n * log_eps)%R with ((2 ^ n - 1) * log_eps + log_eps)%R by ring. lra.
Qed.

(** ** The logarithms of the factors *)

(** The binary logarithm of the square root of 1.0001, as the first factor has
    it. *)
Definition tick_step_lg : R := (128 - lg 0xfffcb933bd6fad37aa2d162d1a594001)%R.

Lemma tick_step_lg_bounds :
  (83161548853381 / 1152921504606846976 <= tick_step_lg <= 83161548853383 / 1152921504606846976)%R.
Proof.
  destruct (log_iter 60 0xfffcb933bd6fad37aa2d162d1a594001 0) as [r' d'] eqn:E.
  assert (Ed : d' = 1152838343057993593).
  { assert (snd (log_iter 60 0xfffcb933bd6fad37aa2d162d1a594001 0) = 1152838343057993593) as H by (vm_compute; reflexivity).
    rewrite E in H. exact H. }
  assert (Hm : mantissa 0xfffcb933bd6fad37aa2d162d1a594001) by (unfold mantissa; lia).
  pose proof (log_iter_bounds _ _ _ _ _ Hm E) as [H1 H2]. unfold logval in H1, H2. rewrite Ed in H1, H2.
  assert (E60 : (2 ^ 60)%R = 1152921504606846976%R) by (rewrite pow_IZR; f_equal).
  assert (He : (2 ^ 60 * log_eps <= 1 / 2)%R).
  { rewrite E60. unfold log_eps. rewrite <- (Rinv_l 2) by lra. pose proof (half_pow_add 1 119 ltac:(lia) ltac:(lia)) as H.
    pose proof (half_pow_pos 120 ltac:(lia)). change (1 + 119) with 120 in H. unfold half_pow in H at 1.
    assert (1152921504606846976 <= IZR (2 ^ 119))%R by (apply IZR_le; lia). change (IZR (2 ^ 1)) with 2%R in H. nra. }
  rewrite E60 in H1, H2, He. unfold tick_step_lg. lra.
Qed.

(** Neighbouring factors are squares of each other, up to two units. *)
Fixpoint squares_ok (f : Z) (fs : list Z) : bool :=
  match fs with
  | [] => true
  | g :: fs => (2 ^ 90 <=? g) && (f * f <=? (g + 2) * 2 ^ 128) && ((g - 2) * 2 ^ 128 <=? f * f) && squares_ok g fs
  end.

(** A list of factors of the bits from weight [w] on, with an error. *)
Fixpoint weighted (w : Z) (e : R) (fs : list Z) : Prop :=
  match fs with
  | [] => True
  | f :: fs => 0 < f < 2 ^ 128 /\ (- e <= lg f - 128 + IZR w * tick_step_lg <= e)%R /\ weighted (2 * w) (2 * e + half_pow 86) fs
  end.

Lemma lg_add_small g k : 2 ^ 89 <= g -> 0 <= k <= 2 -> (lg (g + k) <= lg g + half_pow 86)%R.
Proof.
  intros Hg Hk. pose proof (lg_le (g + k) (g + 1 + 1) ltac:(lia) ltac:(lia)).
  pose proof (lg_succ g ltac:(lia)). pose proof (lg_succ (g + 1) ltac:(lia)).
  pose proof (two_over g 88 ltac:(lia) ltac:(lia)). pose proof (two_over (g + 1) 88 ltac:(lia) ltac:(lia)).
  pose proof (half_pow_double 86 ltac:(lia)) as E1. pose proof (half_pow_le (86 + 1) 88 ltac:(lia)). lra.
Qed.

Lemma weighted_squares fs f w e :
  squares_ok f fs = true -> 0 < f -> Forall (fun g => g < 2 ^ 128) (f :: fs) ->
  (- e <= lg f - 128 + IZR w * tick_step_lg <= e)%R -> weighted w e (f :: fs).
Proof.
  revert f w e. induction fs as [|g fs IH]; intros f w e Hs Hf Hlt He;
    (apply Forall_cons in Hlt as [Hf2 Hlt]); (split; [done|split; [done|]]); [done|].
  cbn [squares_ok] in Hs. bool_simpl. apply IH; [done|lia|done|].
  assert (Q1 : (2 * lg f <= lg (g + 2) + 128)%R).
  { replace (2 * lg f)%R with (lg f + lg f)%R by ring. rewrite <- lg_mul by lia.
    rewrite <- (lg_pow2 128), <- lg_mul by lia. apply lg_le; [nia|lia]. }
  assert (Q2 : (lg (g - 2) + 128 <= 2 * lg f)%R).
  { replace (2 * lg f)%R with (lg f + lg f)%R by ring. rewrite <- (lg_mul f f) by lia.
    rewrite <- (lg_pow2 128), <- lg_mul by lia. apply lg_le; [lia|lia]. }
  pose proof (lg_add_small g 2 ltac:(lia) ltac:(lia)).
  pose proof (lg_add_small (g - 2) 2 ltac:(lia) ltac:(lia)) as Q3. replace (g - 2 + 2) with g in Q3 by lia.
  rewrite mult_IZR. lra.
Qed.

(** ** The logarithm of a price *)

Lemma factor_run_le fs t x : 0 <= x -> Forall (fun f => 0 <= f < 2 ^ 128) fs -> factor_run t x fs <= x.
Proof.
  revert t x. induction fs as [|f fs IH]; intros t x Hx Hf; cbn [factor_run]; [done|].
  apply Forall_cons in Hf as [Hf Hfs].
  assert (H : 0 <= mul_q128 x f <= x) by (unfold mul_q128; split; [apply Z.div_pos; nia|apply Z.div_le_upper_bound; nia]).
  destruct (Z.odd t); [|by apply IH]. etransitivity; [apply IH; [lia|done]|lia].
Qed.

Lemma weighted_range w e fs : weighted w e fs -> Forall (fun f => 0 <= f < 2 ^ 128) fs.
Proof. revert w e. induction fs as [|f fs IH]; intros w e H; constructor; destruct H as (? & _ & H); [lia|eauto]. Qed.

(** The errors of the factors and of the truncations. *)
Fixpoint run_err (n : nat) (e : R) : R :=
  match n with
  | O => 0%R
  | S n => (e + half_pow 62 + run_err n (2 * e + half_pow 86))%R
  end.

Lemma factor_run_lg fs w e t x :
  weighted w e fs -> (0 <= e)%R -> 0 <= t < 2 ^ Z.of_nat (length fs) -> 2 ^ 63 <= factor_run t x fs -> 0 < x ->
  (- run_err (length fs) e <= lg (factor_run t x fs) - lg x + IZR w * IZR t * tick_step_lg <= run_err (length fs) e)%R.
Proof.
  revert w e t x. induction fs as [|f fs IH]; intros w e t x Hw He Ht Hlow Hx.
  - cbn in *. assert (t = 0) as -> by lia. lra.
  - pose proof (half_pow_pos 62 ltac:(lia)) as P62. pose proof (half_pow_pos 86 ltac:(lia)) as P86.
    cbn [factor_run run_err length] in *. destruct Hw as (Hf & Hfe & Hw). pose proof (weighted_range _ _ _ Hw) as Hr.
    rewrite Nat2Z.inj_succ, Z.pow_succ_r in Ht by lia.
    assert (Ht2 : 0 <= t / 2 < 2 ^ Z.of_nat (length fs)) by (split; [apply Z.div_pos; lia|apply Z.div_lt_upper_bound; lia]).
    assert (Et : IZR t = (2 * IZR (t / 2) + (if Z.odd t then 1 else 0))%R).
    { rewrite (Z.div_mod t 2) at 1 by lia. rewrite Zmod_odd, plus_IZR, mult_IZR. by destruct (Z.odd t). }
    rewrite Et. destruct (Z.odd t) eqn:Eo.
    + assert (Hxf : 2 ^ 63 <= mul_q128 x f).
      { etransitivity; [exact Hlow|]. apply factor_run_le; [apply Z.div_pos; nia|done]. }
      assert (Hp : 2 ^ (62 + 1) * 2 ^ 128 <= x * f).
      { unfold mul_q128 in Hxf. pose proof (Z.mul_div_le (x * f) (2 ^ 128) ltac:(lia)). lia. }
      destruct (lg_div_err (x * f) (2 ^ 128) 62) as [H1 H2]; [lia|lia|exact Hp|].
      rewrite lg_mul, lg_pow2 in H1, H2 by lia. fold (mul_q128 x f) in H1, H2.
      specialize (IH (2 * w) _ (t / 2) (mul_q128 x f) Hw ltac:(lra) Ht2 Hlow ltac:(lia)). rewrite mult_IZR in IH. lra.
    + specialize (IH (2 * w) _ (t / 2) x Hw ltac:(lra) Ht2 Hlow Hx). rewrite mult_IZR in IH. lra.
Qed.

Lemma bit_factors_weighted : weighted 1 0 bit_factors.
Proof.
  apply weighted_squares; [vm_compute; reflexivity|lia| |unfold tick_step_lg; lra].
  change (Forall (fun g => g < 2 ^ 128) bit_factors). apply List.Forall_forall. intros f Hf.
  assert (H : forallb (fun f => f <? 2 ^ 128) bit_factors = true) by (vm_compute; reflexivity).
  apply Z.ltb_lt. exact (proj1 (List.forallb_forall _ _) H f Hf).
Qed.

Lemma bit_factors_length : length bit_factors = 20%nat.
Proof. reflexivity. Qed.

Lemma run_err_small : (run_err 20 0 <= half_pow 50)%R.
Proof.
  cbn [run_err]. rewrite (half_pow_add 50 36), (half_pow_add 62 24) by lia.
  change (50 + 36) with 86. change (62 + 24) with 86. change (2 ^ 36) with 68719476736. change (2 ^ 24) with 16777216.
  pose proof (half_pow_pos 86 ltac:(lia)). lra.
Qed.

Lemma tick_ratio_lg t :
  0 <= t <= MAX_TICK -> (- half_pow 50 <= lg (tick_ratio t) - 128 + IZR t * tick_step_lg <= half_pow 50)%R.
Proof.
  intros Ht. pose proof (tick_ratio_low t Ht) as Hlow. revert Hlow. unfold tick_ratio.
  pose proof bit_factors_weighted as Hw. pose proof bit_factors_length as Hl. revert Hw Hl.
  generalize bit_factors. intros fs Hw Hl Hlow.
  assert (Hr : 0 <= t < 2 ^ Z.of_nat (length fs)) by (rewrite Hl; unfold MAX_TICK in Ht; lia).
  pose proof (factor_run_lg fs 1 0 t (2 ^ 128) Hw ltac:(lra) Hr ltac:(lia) ltac:(lia)) as H.
  rewrite lg_pow2, Hl in H by lia. pose proof run_err_small. lra.
Qed.

Lemma ceil32_lg r : 2 ^ 63 <= r -> (lg r - 32 <= lg (ceil32 r) <= lg r - 32 + half_pow 29)%R.
Proof.
  intros Hr. pose proof (ceil32_spec r) as Hc. set (c := ceil32 r) in *. split.
  - pose proof (lg_le r (2 ^ 32 * c) ltac:(lia) ltac:(lia)) as H. rewrite lg_mul, lg_pow2 in H by lia. lra.
  - pose proof (lg_le (2 ^ 32 * (c - 1)) r ltac:(lia) ltac:(lia)) as H. rewrite lg_mul, lg_pow2 in H by lia.
    pose proof (lg_succ (c - 1) ltac:(lia)) as H1. pose proof (two_over (c - 1) 29 ltac:(lia) ltac:(lia)).
    replace (c - 1 + 1) with c in H1 by lia. lra.
Qed.

(** The prices are the powers of the square root of 1.0001. *)
Lemma sqrt_ratio_lg t :
  MIN_TICK <= t <= MAX_TICK ->
  (- half_pow 28 <= lg (sqrt_ratio t) - 96 - IZR t * tick_step_lg <= half_pow 28)%R.
Proof.
  intros Ht. change MIN_TICK with (- MAX_TICK) in Ht.
  pose proof (half_pow_double 28 ltac:(lia)) as D. change (28 + 1) with 29 in D.
  pose proof (half_pow_le 30 50 ltac:(lia)) as L50. pose proof (half_pow_double 29 ltac:(lia)) as D29.
  change (29 + 1) with 30 in D29. pose proof (half_pow_pos 50 ltac:(lia)) as P50.
  destruct (Z.le_gt_cases 0 t) as [H0|H0].
  - rewrite sqrt_ratio_nonneg_form by lia. pose proof (tick_ratio_lg t ltac:(lia)) as HR.
    pose proof (tick_ratio_low t ltac:(lia)) as Hl. destruct (tick_ratio_fold (UL := u256_std) t) as [_ Hu].
    set (R := tick_ratio t) in *. assert (HR1 : 2 ^ 101 * R <= U256_MAX) by (unfold U256_MAX; lia).
    destruct (lg_div_err U256_MAX R 100) as [Q1 Q2]; [lia|lia|exact HR1|].
    assert (Hq : 2 ^ 63 <= U256_MAX / R) by (apply Z.div_le_lower_bound; lia).
    pose proof (ceil32_lg _ Hq) as Hc.
    assert (HU : (256 - half_pow 100 <= lg U256_MAX <= 256)%R).
    { rewrite <- (lg_pow2 256) by lia. split.
      - pose proof (lg_succ U256_MAX ltac:(unfold U256_MAX; lia)) as H. replace (U256_MAX + 1) with (2 ^ 256) in H by (unfold U256_MAX; lia).
        pose proof (two_over U256_MAX 100 ltac:(lia) ltac:(unfold U256_MAX; lia)). lra.
      - apply lg_le; unfold U256_MAX; lia. }
    pose proof (half_pow_le 50 100 ltac:(lia)). pose proof (half_pow_pos 100 ltac:(lia)).
    pose proof (half_pow_double 48 ltac:(lia)) as E48. pose proof (half_pow_double 49 ltac:(lia)) as E49.
    change (48 + 1) with 49 in E48. change (49 + 1) with 50 in E49. pose proof (half_pow_le 30 48 ltac:(lia)). lra.
  - rewrite sqrt_ratio_nonpos_form by lia. pose proof (tick_ratio_lg (- t) ltac:(lia)) as HR.
    pose proof (tick_ratio_low (- t) ltac:(lia)) as Hl.
    pose proof (ceil32_lg (tick_ratio (- t)) ltac:(lia)) as Hc. rewrite opp_IZR in HR. lra.
Qed.

(** ** The logarithm the code computes *)

(** The bits [K] of the binary logarithm of a Q96 price, fourteen of them after
    the point. *)
Definition price_bits (p : Z) : Z :=
  let x := p * 2 ^ 32 in
  let msb := Z.log2 x in
  let r := if 128 <=? msb then x / 2 ^ (msb - 127) else x * 2 ^ (127 - msb) in
  (msb - 128) * 2 ^ 14 + snd (log_iter 14 r 0).

Lemma price_mantissa x :
  2 ^ 64 <= x < 2 ^ 192 ->
  let msb := Z.log2 x in
  let r := if 128 <=? msb then x / 2 ^ (msb - 127) else x * 2 ^ (127 - msb) in
  64 <= msb < 192 /\ mantissa r /\ (0 <= lg x - (IZR msb - 127) - lg r <= half_pow 100)%R.
Proof.
  intros Hx msb r. assert (Hm : 64 <= msb < 192).
  { unfold msb. split; [apply Z.log2_le_pow2; lia|apply Z.log2_lt_pow2; lia]. }
  destruct (Z.log2_spec x ltac:(lia)) as [B1 B2]. fold msb in B1, B2. rewrite Z.pow_succ_r in B2 by lia.
  split; [done|]. unfold r. pose proof (half_pow_pos 100 ltac:(lia)). destruct (Z.leb_spec 128 msb) as [H1|H1].
  - assert (E : 2 ^ msb = 2 ^ 127 * 2 ^ (msb - 127)) by (rewrite <- Z.pow_add_r by lia; f_equal; lia).
    assert (Hp : 0 < 2 ^ (msb - 127)) by (apply Z.pow_pos_nonneg; lia). split.
    + split; [apply Z.div_le_lower_bound; lia|apply Z.div_lt_upper_bound; lia].
    + destruct (lg_div_err x (2 ^ (msb - 127)) 100) as [Q1 Q2]; [done|lia| |].
      { transitivity (2 ^ 127 * 2 ^ (msb - 127)); [|lia]. apply Z.mul_le_mono_nonneg_r; [lia|]. apply Z.pow_le_mono_r; lia. }
      rewrite lg_pow2 in Q1, Q2 by lia. rewrite minus_IZR in Q1, Q2. lra.
  - assert (E : 2 ^ 127 = 2 ^ msb * 2 ^ (127 - msb)) by (rewrite <- Z.pow_add_r by lia; f_equal; lia).
    assert (Hp : 0 < 2 ^ (127 - msb)) by (apply Z.pow_pos_nonneg; lia). split.
    + unfold mantissa. change (2 ^ 128) with (2 * 2 ^ 127). rewrite E. split; nia.
    + rewrite lg_mul, lg_pow2 by lia. rewrite minus_IZR. lra.
Qed.

Lemma price_bits_lg p :
  MIN_SQRT_RATIO <= p < MAX_SQRT_RATIO ->
  (IZR (price_bits p) <= 16384 * (lg p - 96) <= IZR (price_bits p) + 1 + half_pow 60)%R /\
  - 2 ^ 21 <= price_bits p <= 2 ^ 21.
Proof.
  change MAX_SQRT_RATIO with 1461446703485210103287273052203988822378723970342. unfold MIN_SQRT_RATIO. intros Hp.
  destruct (price_mantissa (p * 2 ^ 32)) as (Hm & Hr & Hlg); [lia|]. unfold price_bits.
  set (msb := Z.log2 (p * 2 ^ 32)) in *. set (r := if 128 <=? msb then p * 2 ^ 32 / 2 ^ (msb - 127) else p * 2 ^ 32 * 2 ^ (127 - msb)) in *.
  destruct (log_iter 14 r 0) as [r' d] eqn:E. cbn [snd]. pose proof (log_iter_bounds _ _ _ _ _ Hr E) as Hb.
  unfold logval in Hb. replace (2 ^ 14)%R with 16384%R in Hb by (rewrite pow_IZR; f_equal).
  rewrite lg_mul, lg_pow2 in Hlg by lia. rewrite plus_IZR, mult_IZR, minus_IZR. change (IZR (2 ^ 14)) with 16384%R.
  assert (He : (16384 * log_eps + 16384 * half_pow 100 <= half_pow 60)%R).
  { unfold log_eps. pose proof (half_pow_le 100 120 ltac:(lia)). rewrite (half_pow_add 60 40) by lia.
    change (60 + 40) with 100. change (2 ^ 40) with 1099511627776. pose proof (half_pow_pos 100 ltac:(lia)). lra. }
  pose proof log_eps_pos. destruct Hr as [R1 R2].
  pose proof (lg_le (2 ^ 127) r ltac:(lia) R1) as G1. pose proof (lg_lt r (2 ^ 128) ltac:(lia) R2) as G2.
  rewrite lg_pow2 in G1, G2 by lia. split; [lra|].
  assert (Hd : -2 <= d <= 16384).
  { pose proof (half_pow_le 0 60 ltac:(lia)) as H60. pose proof (half_pow_le 0 100 ltac:(lia)).
    pose proof (half_pow_pos 100 ltac:(lia)). assert (E0 : half_pow 0 = 1%R) by (unfold half_pow; cbn; apply Rinv_1).
    split; apply le_IZR; lra. }
  lia.
Qed.

(** ** The two candidates *)

(** [2^64] over the logarithm of sqrt(1.0001), and the two offsets. *)
Definition LOG_SCALE : Z := 255738958999603826347141.
Definition LOW_OFFSET : Z := 3402992956809132418596140100660247210.
Definition HI_OFFSET : Z := 291339464771989622907027621153398088495.

Definition tick_low_of (k : Z) : Z := (k * 2 ^ 50 * LOG_SCALE - LOW_OFFSET) / 2 ^ 128.
Definition tick_hi_of (k : Z) : Z := (k * 2 ^ 50 * LOG_SCALE + HI_OFFSET) / 2 ^ 128.

(** The scaled bits are the logarithm to the base sqrt(1.0001). *)
Lemma scaled_bits k x :
  - 2 ^ 21 <= k <= 2 ^ 21 -> (x = IZR k * (255738958999603826347141 / 302231454903657293676544))%R ->
  (IZR k / 16384 - / 100000000000 <= x * tick_step_lg <= IZR k / 16384 + / 100000000000)%R.
Proof.
  intros Hk ->. pose proof tick_step_lg_bounds as [S1 S2].
  assert (K1 : (-2097152 <= IZR k)%R) by (apply (IZR_le (-2097152)); lia).
  assert (K2 : (IZR k <= 2097152)%R) by (apply (IZR_le _ 2097152); lia).
  set (s := tick_step_lg) in *. set (c := (255738958999603826347141 / 302231454903657293676544)%R).
  assert (Hc : (- / 1000000000000000000 <= c * s - / 16384 <= / 1000000000000000000)%R) by (unfold c; lra).
  replace (IZR k * c * s)%R with (IZR k / 16384 + IZR k * (c * s - / 16384))%R by (unfold Rdiv; ring).
  set (u := (c * s - / 16384)%R) in *. assert (- / 100000000000 <= IZR k * u <= / 100000000000)%R; [|lra].
  split; nra.
Qed.

Definition scaled (k : Z) : R := (IZR k * (255738958999603826347141 / 302231454903657293676544))%R.

Lemma scaled_eq k : (IZR (k * 2 ^ 50 * LOG_SCALE) = scaled k * IZR (2 ^ 128))%R.
Proof.
  unfold scaled, LOG_SCALE. rewrite !mult_IZR. change (IZR (2 ^ 50)) with 1125899906842624%R.
  change (IZR (2 ^ 128)) with 340282366920938463463374607431768211456%R. lra.
Qed.

Lemma tick_low_bound k : (IZR (tick_low_of k) <= scaled k - 1 / 100)%R.
Proof.
  pose proof (Z.mul_div_le (k * 2 ^ 50 * LOG_SCALE - LOW_OFFSET) (2 ^ 128) ltac:(lia)) as H.
  fold (tick_low_of k) in H. apply IZR_le in H. rewrite mult_IZR, minus_IZR, scaled_eq in H. unfold LOW_OFFSET in H.
  change (IZR (2 ^ 128)) with 340282366920938463463374607431768211456%R in H. lra.
Qed.

Lemma tick_hi_bound k : (IZR (tick_hi_of k) <= scaled k + 8562 / 10000 < IZR (tick_hi_of k) + 1 + 1 / 10000)%R.
Proof.
  pose proof (Z.mul_div_le (k * 2 ^ 50 * LOG_SCALE + HI_OFFSET) (2 ^ 128) ltac:(lia)) as H1.
  pose proof (Z.mul_succ_div_gt (k * 2 ^ 50 * LOG_SCALE + HI_OFFSET) (2 ^ 128) ltac:(lia)) as H2.
  fold (tick_hi_of k) in H1, H2. unfold Z.succ in H2. apply IZR_le in H1. apply IZR_lt in H2.
  rewrite mult_IZR, plus_IZR, scaled_eq in H1. rewrite mult_IZR, !plus_IZR, scaled_eq in H2. unfold HI_OFFSET in H1, H2.
  change (IZR (2 ^ 128)) with 340282366920938463463374607431768211456%R in H1, H2. lra.
Qed.

Lemma ticks_close k : tick_low_of k <= tick_hi_of k <= tick_low_of k + 1.
Proof.
  unfold tick_low_of, tick_hi_of, LOW_OFFSET, HI_OFFSET. set (v := k * 2 ^ 50 * LOG_SCALE). split.
  - apply Z.div_le_mono; lia.
  - pose proof (Z.mul_succ_div_gt (v - 3402992956809132418596140100660247210) (2 ^ 128) ltac:(lia)).
    enough ((v + 291339464771989622907027621153398088495) / 2 ^ 128 <
      (v - 3402992956809132418596140100660247210) / 2 ^ 128 + 2) by lia.
    apply Z.div_lt_upper_bound; lia.
Qed.

Section candidates.
Variable p : Z.
Hypothesis Hp : MIN_SQRT_RATIO <= p < MAX_SQRT_RATIO.

Let k : Z := price_bits p.
Let s : R := tick_step_lg.

Lemma step_bounds : (72131 / 1000000000 <= s <= 72132 / 1000000000)%R.
Proof. pose proof tick_step_lg_bounds. unfold s. lra. Qed.

Lemma half_pow_28 : (half_pow 28 <= 4 / 1000000000)%R.
Proof. unfold half_pow. change (2 ^ 28) with 268435456. lra. Qed.

(** The logarithm of the price against the candidates. *)
Lemma low_below : (IZR (tick_low_of k) * s + 5 / 10000000 < lg p - 96)%R.
Proof.
  destruct (price_bits_lg p Hp) as [[H1 _] Hk]. fold k in H1, Hk. pose proof (tick_low_bound k) as Hl.
  pose proof (scaled_bits k (scaled k) Hk eq_refl) as [_ Hs]. fold s in Hs. pose proof step_bounds as [S1 S2].
  assert (IZR (tick_low_of k) * s <= (scaled k - 1 / 100) * s)%R by (apply Rmult_le_compat_r; lra). lra.
Qed.

Lemma hi_above : (lg p - 96 + 5 / 10000000 < (IZR (tick_hi_of k) + 1) * s)%R.
Proof.
  destruct (price_bits_lg p Hp) as [[_ H2] Hk]. fold k in H2, Hk. pose proof (tick_hi_bound k) as [_ Hh].
  pose proof (scaled_bits k (scaled k) Hk eq_refl) as [Hs _]. fold s in Hs. pose proof step_bounds as [S1 S2].
  assert (H60 : (half_pow 60 <= / 1000000000)%R).
  { pose proof (half_pow_le 30 60 ltac:(lia)). unfold half_pow in *. change (2 ^ 30) with 1073741824 in *. lra. }
  assert ((scaled k + 8562 / 10000 - 1 / 10000) * s < (IZR (tick_hi_of k) + 1) * s)%R by (apply Rmult_lt_compat_r; lra).
  lra.
Qed.

Lemma hi_near : (IZR (tick_hi_of k) * s < lg p - 96 + 62 / 1000000)%R.
Proof.
  destruct (price_bits_lg p Hp) as [[H1 _] Hk]. fold k in H1, Hk. pose proof (tick_hi_bound k) as [Hh _].
  pose proof (scaled_bits k (scaled k) Hk eq_refl) as [_ Hs]. fold s in Hs. pose proof step_bounds as [S1 S2].
  assert (IZR (tick_hi_of k) * s <= (scaled k + 8562 / 10000) * s)%R by (apply Rmult_le_compat_r; lra). lra.
Qed.

Lemma p_pos : 0 < p.
Proof. unfold MIN_SQRT_RATIO in Hp. lia. Qed.

Lemma hi_valid : MIN_TICK <= tick_hi_of k <= MAX_TICK.
Proof.
  pose proof hi_above as Ha. pose proof hi_near as Hn. pose proof step_bounds as [S1 S2]. pose proof half_pow_28 as H28.
  assert (E1 : sqrt_ratio MIN_TICK = MIN_SQRT_RATIO) by (vm_compute; reflexivity).
  assert (E2 : sqrt_ratio MAX_TICK = MAX_SQRT_RATIO) by (vm_compute; reflexivity).
  pose proof (sqrt_ratio_lg MIN_TICK ltac:(unfold MIN_TICK, MAX_TICK; lia)) as L1.
  pose proof (sqrt_ratio_lg MAX_TICK ltac:(unfold MIN_TICK, MAX_TICK; lia)) as L2.
  rewrite E1 in L1. rewrite E2 in L2. fold s in L1, L2.
  pose proof (lg_le MIN_SQRT_RATIO p ltac:(done) ltac:(lia)) as P1. pose proof (lg_lt p MAX_SQRT_RATIO p_pos ltac:(lia)) as P2.
  split; apply Z.nlt_ge; intros H.
  - assert (Hi : (IZR (tick_hi_of k) + 1 <= IZR MIN_TICK)%R) by (rewrite <- plus_IZR; apply IZR_le; lia).
    assert ((IZR (tick_hi_of k) + 1) * s <= IZR MIN_TICK * s)%R by (apply Rmult_le_compat_r; lra). lra.
  - assert (Hi : (IZR MAX_TICK + 1 <= IZR (tick_hi_of k))%R) by (rewrite <- plus_IZR; apply IZR_le; lia).
    assert ((IZR MAX_TICK + 1) * s <= IZR (tick_hi_of k) * s)%R by (apply Rmult_le_compat_r; lra). lra.
Qed.

Lemma low_price : MIN_TICK <= tick_low_of k -> sqrt_ratio (tick_low_of k) <= p.
Proof.
  intros Hmin. pose proof hi_valid as Hv. pose proof (ticks_close k) as Hc.
  pose proof (sqrt_ratio_lg (tick_low_of k) ltac:(lia)) as L. fold s in L. pose proof half_pow_28. pose proof low_below.
  apply Z.lt_le_incl, lg_lt_inv; [apply p_pos|]. lra.
Qed.

Lemma hi_price : tick_hi_of k < MAX_TICK -> p < sqrt_ratio (tick_hi_of k + 1).
Proof.
  intros Hmax. pose proof hi_valid as Hv.
  pose proof (sqrt_ratio_lg (tick_hi_of k + 1) ltac:(lia)) as L. fold s in L. rewrite plus_IZR in L.
  pose proof half_pow_28. pose proof hi_above. apply lg_lt_inv; [apply sqrt_ratio_pos; lia|]. lra.
Qed.

(** The choice the code makes. *)
Definition greatest_tick : Z :=
  if tick_low_of k =? tick_hi_of k then tick_low_of k
  else if sqrt_ratio (tick_hi_of k) <=? p then tick_hi_of k else tick_low_of k.

Lemma tick_of_price :
  MIN_TICK <= greatest_tick < MAX_TICK /\ sqrt_ratio greatest_tick <= p /\ p < sqrt_ratio (greatest_tick + 1).
Proof.
  unfold greatest_tick. pose proof hi_valid as Hv. pose proof (ticks_close k) as Hc. pose proof low_price as Hl. pose proof hi_price as Hh.
  assert (E1 : sqrt_ratio MIN_TICK = MIN_SQRT_RATIO) by (vm_compute; reflexivity).
  assert (E2 : sqrt_ratio MAX_TICK = MAX_SQRT_RATIO) by (vm_compute; reflexivity).
  assert (Hmax : sqrt_ratio (tick_hi_of k) <= p -> tick_hi_of k < MAX_TICK).
  { intros H. destruct (Z.eq_dec (tick_hi_of k) MAX_TICK) as [E|]; [|lia]. rewrite E, E2 in H. lia. }
  destruct (Z.eqb_spec (tick_low_of k) (tick_hi_of k)) as [E|Hne].
  - rewrite E in *. pose proof (Hl ltac:(lia)) as L. split; [lia|]. split; [exact L|apply Hh; lia].
  - replace (tick_low_of k) with (tick_hi_of k - 1) in * by lia.
    destruct (Z.leb_spec (sqrt_ratio (tick_hi_of k)) p) as [Hle|Hgt].
    + split; [lia|]. split; [exact Hle|apply Hh; lia].
    + assert (tick_hi_of k <> MIN_TICK) by (intros E; rewrite E, E1 in Hgt; lia).
      replace (tick_hi_of k - 1 + 1) with (tick_hi_of k) by lia.
      split; [lia|]. split; [apply Hl; lia|exact Hgt].
Qed.
End candidates.

(** ** The machine integers *)

Lemma low_i32_shift v : - 2 ^ 31 <= v / 2 ^ 128 < 2 ^ 31 -> low_i32 (v mod 2 ^ 256 / 2 ^ 128) = v / 2 ^ 128.
Proof.
  intros Hv. unfold low_i32, wrap. cbn [signed bits]. change (32 - 1) with 31.
  assert (E : v mod 2 ^ 256 / 2 ^ 128 = v / 2 ^ 128 + (- (v / 2 ^ 256) * 2 ^ 96) * 2 ^ 32).
  { rewrite (Z.mod_eq v) by lia. replace (v - 2 ^ 256 * (v / 2 ^ 256)) with (v + - (v / 2 ^ 256) * 2 ^ 128 * 2 ^ 128) by ring.
    rewrite Z.div_add by lia. ring. }
  rewrite E, Z.mod_add by lia. rewrite Z.add_mod_idemp_l by lia. rewrite Z.mod_small by lia. lia.
Qed.

Lemma log_iter_one r d :
  log_iter 1 r d = (let q := r * r / 2 ^ 127 in if 2 ^ 128 <=? q then (q / 2, 2 * d + 1) else (q, 2 * d)).
Proof. reflexivity. Qed.

Lemma log_iter_step n r d : log_iter (S n) r d = (let '(r', d') := log_iter 1 r d in log_iter n r' d').
Proof. cbn [log_iter]. by destruct (_ <=? _). Qed.

Lemma log_step_eq {UL : U256Lib} r d i :
  mantissa r -> 0 <= d -> 0 <= i < 255 -> (2 * d + 2) * 2 ^ i < 2 ^ 256 ->
  log_step (r, d * 2 ^ (i + 1)) i = (let '(r', d') := log_iter 1 r d in (r', d' * 2 ^ i)).
Proof.
  unfold mantissa. intros Hr Hd Hi Hfit. rewrite log_iter_one. unfold log_step.
  rewrite u_mul_spec, Z.mod_small by (unfold u256; nia). rewrite (u_shr_spec (r * r) 127) by (unfold u256; nia).
  cbn zeta. set (q := r * r / 2 ^ 127). assert (Hq : 0 <= q < 2 ^ 129).
  { unfold q. split; [apply Z.div_pos; nia|apply Z.div_lt_upper_bound; nia]. }
  rewrite !u_shr_spec by (unfold u256; lia). assert (Hp : 0 < 2 ^ i) by (apply Z.pow_pos_nonneg; lia).
  assert (E2 : 2 ^ (i + 1) = 2 * 2 ^ i) by (rewrite Z.pow_add_r by lia; lia).
  assert (E : (0 <? q / 2 ^ 128) = (2 ^ 128 <=? q)).
  { destruct (Z.leb_spec (2 ^ 128) q); [apply Z.ltb_lt, Z.div_str_pos; lia|apply Z.ltb_ge].
    rewrite Z.div_small by lia. lia. }
  rewrite E. destruct (2 ^ 128 <=? q).
  - rewrite u_shl_spec by (unfold u256; lia). rewrite Z.mul_1_l, Z.mod_small by lia.
    rewrite u_or_spec by (unfold u256; nia). rewrite Z.lor_comm, lor_disjoint by lia. rewrite Z.pow_1_r. f_equal. nia.
  - f_equal. nia.
Qed.

(** The fourteen turns. *)
Fixpoint countdown (n : nat) (i : Z) : list Z :=
  match n with
  | O => []
  | S n => i :: countdown n (i - 1)
  end.

Lemma log_turns {UL : U256Lib} n r d i :
  mantissa r -> 0 <= d < 2 ^ (63 - i) -> Z.of_nat n <= i <= 63 ->
  foldl log_step (r, d * 2 ^ (i + 1)) (countdown n i)
  = (let '(r', d') := log_iter n r d in (r', d' * 2 ^ (i + 1 - Z.of_nat n))) /\
  0 <= snd (log_iter n r d) < 2 ^ (63 - i + Z.of_nat n).
Proof.
  revert r d i. induction n as [|n IH]; intros r d i Hr Hd Hi.
  - cbn [foldl countdown log_iter snd]. change (Z.of_nat 0) with 0. rewrite Z.sub_0_r, Z.add_0_r. done.
  - cbn [countdown foldl]. assert (Hpi : 0 < 2 ^ i) by (apply Z.pow_pos_nonneg; lia).
    assert (E63 : 2 ^ (63 - i) * 2 ^ i = 2 ^ 63) by (rewrite <- Z.pow_add_r by lia; f_equal; lia).
    rewrite log_step_eq by (done || nia). rewrite (log_iter_step n). pose proof (log_turn r d Hr) as Ht.
    cbn zeta in Ht. rewrite log_iter_one. cbn zeta. set (q := r * r / 2 ^ 127) in *.
    assert (Epow : 2 ^ (63 - (i - 1)) = 2 * 2 ^ (63 - i)).
    { replace (63 - (i - 1)) with (Z.succ (63 - i)) by lia. rewrite Z.pow_succ_r by lia. done. }
    assert (G : forall r1 d1, mantissa r1 -> 0 <= d1 <= 2 * d + 1 ->
      foldl log_step (r1, d1 * 2 ^ i) (countdown n (i - 1))
      = (let '(r', d') := log_iter n r1 d1 in (r', d' * 2 ^ (i + 1 - Z.of_nat (S n)))) /\
      0 <= snd (log_iter n r1 d1) < 2 ^ (63 - i + Z.of_nat (S n))).
    { intros r1 d1 Hm Hd1. destruct (IH r1 d1 (i - 1) Hm ltac:(lia) ltac:(lia)) as [E B].
      replace (i - 1 + 1) with i in E by lia. rewrite E.
      replace (i + 1 - Z.of_nat (S n)) with (i - Z.of_nat n) by lia.
      replace (63 - i + Z.of_nat (S n)) with (63 - (i - 1) + Z.of_nat n) by lia. done. }
    destruct (2 ^ 128 <=? q); destruct Ht as [Hm _]; cbv beta iota; apply G; (done || lia).
Qed.

Lemma msb_log2 {UL : U256Lib} x : 0 < x < 2 ^ 256 -> most_significant_bit x = Z.log2 x.
Proof.
  intros Hx. unfold most_significant_bit. rewrite (proj2 (Z.eqb_neq x 0)) by lia.
  rewrite leading_zeros_spec by (unfold u256; lia). lia.
Qed.

(** Two's complement: the integer part is shifted in above the decimals. *)
Lemma int_part {UL : U256Lib} msb :
  0 <= msb < 256 ->
  (if 128 <=? msb then u_shl (msb - 128) 64 else u_add (u_sub U256_MAX (u_shl (128 - msb) 64)) 1)
  = ((msb - 128) mod 2 ^ 192) * 2 ^ 64.
Proof.
  intros Hm. destruct (Z.leb_spec 128 msb).
  - rewrite u_shl_spec by (unfold u256; lia). rewrite !Z.mod_small by lia. done.
  - rewrite u_shl_spec by (unfold u256; lia). rewrite (Z.mod_small ((128 - msb) * _)) by lia.
    rewrite u_sub_spec by (unfold u256, U256_MAX; lia). rewrite Z.mod_small by (unfold U256_MAX; lia).
    unfold U256_MAX. rewrite u_add_spec by (unfold u256; lia).
    rewrite <- (Z.mod_add (msb - 128) 1 (2 ^ 192)) by lia. rewrite !Z.mod_small by lia. lia.
Qed.

Lemma tick_at_sqrt_ratio_eq {UL : U256Lib} p :
  get_tick_at_sqrt_ratio p =
    (_ ← assert_ ((MIN_SQRT_RATIO <=? p) && (p <? MAX_SQRT_RATIO));
     let k := price_bits p in
     if tick_low_of k =? tick_hi_of k then Ok (tick_low_of k)
     else
       sqrt_ratio_hi ← get_sqrt_ratio_at_tick (tick_hi_of k);
       Ok (if sqrt_ratio_hi <=? p then tick_hi_of k else tick_low_of k)).
Proof.
  unfold get_tick_at_sqrt_ratio. destruct ((MIN_SQRT_RATIO <=? p) && (p <? MAX_SQRT_RATIO)) eqn:Eb; [|done].
  osimpl. bool_simpl. assert (Hp : MIN_SQRT_RATIO <= p < MAX_SQRT_RATIO) by done.
  pose proof (hi_valid p Hp) as Hv. pose proof (ticks_close (price_bits p)) as Hc. revert Hp Hv Hc.
  change MAX_SQRT_RATIO with 1461446703485210103287273052203988822378723970342. unfold MIN_SQRT_RATIO, MIN_TICK, MAX_TICK.
  intros Hp Hv Hc. rewrite u_shl_spec, Z.mod_small by (unfold u256; lia). rewrite msb_log2 by lia.
  destruct (price_mantissa (p * 2 ^ 32)) as (Hm & Hr & _); [lia|]. rewrite int_part by lia.
  set (msb := Z.log2 (p * 2 ^ 32)) in *.
  set (r := if 128 <=? msb then p * 2 ^ 32 / 2 ^ (msb - 127) else p * 2 ^ 32 * 2 ^ (127 - msb)) in *.
  assert (Er : (if 128 <=? msb then u_shr (p * 2 ^ 32) (msb - 127) else u_shl (p * 2 ^ 32) (127 - msb)) = r).
  { revert Hr. unfold r, mantissa. destruct (Z.leb_spec 128 msb); intros Hr; [by rewrite u_shr_spec by (unfold u256; lia)|].
    rewrite u_shl_spec by (unfold u256; lia). apply Z.mod_small. lia. }
  rewrite Er. destruct (log_turns 14 r 0 63 Hr) as [Et Bd]; [lia|lia|].
  change ([63; 62; 61; 60; 59; 58; 57; 56; 55; 54; 53; 52; 51; 50]) with (countdown 14 63).
  rewrite Z.mul_0_l in Et. rewrite Et. assert (Ek : price_bits p = (msb - 128) * 2 ^ 14 + snd (log_iter 14 r 0)) by reflexivity.
  destruct (log_iter 14 r 0) as [r' d]. cbn [snd] in *. change (63 + 1 - Z.of_nat 14) with 50. change (63 - 63 + Z.of_nat 14) with 14 in Bd.
  pose proof (Z.mod_pos_bound (msb - 128) (2 ^ 192) ltac:(lia)) as Hi.
  rewrite u_or_spec by (unfold u256; lia). rewrite Z.lor_comm, lor_disjoint by lia.
  set (k := price_bits p) in *. set (v := d * 2 ^ 50 + (msb - 128) mod 2 ^ 192 * 2 ^ 64).
  assert (Ev : v = (k * 2 ^ 50) mod 2 ^ 256).
  { rewrite Ek. apply (Z.mod_unique _ _ ((msb - 128) / 2 ^ 192)); [unfold v; lia|]. unfold v.
    rewrite (Z.mod_eq (msb - 128)) by lia. ring. }
  rewrite u_mul_spec by (unfold u256, v; lia). rewrite Ev, Z.mul_mod_idemp_l by lia.
  change 255738958999603826347141 with LOG_SCALE. change 3402992956809132418596140100660247210 with LOW_OFFSET.
  change 291339464771989622907027621153398088495 with HI_OFFSET.
  assert (Hm2 : forall x, 0 <= x mod 2 ^ 256 < 2 ^ 256) by (intros x; apply Z.mod_pos_bound; lia).
  rewrite u_sub_spec, u_add_spec by (unfold u256; first [apply Hm2|done]). rewrite Zminus_mod_idemp_l, Z.add_mod_idemp_l by lia.
  rewrite !u_shr_spec by (unfold u256; first [apply Hm2|lia]).
  rewrite !low_i32_shift by (fold (tick_low_of k) (tick_hi_of k); lia). reflexivity.
Qed.

Lemma sqrt_ratio_in {UL : U256Lib} t : MIN_TICK <= t <= MAX_TICK -> get_sqrt_ratio_at_tick t = Ok (sqrt_ratio t).
Proof. intros Ht. rewrite sqrt_ratio_spec. by rewrite !(proj2 (Z.leb_le _ _)) by lia. Qed.

Lemma tick_at_price {UL : U256Lib} p :
  MIN_SQRT_RATIO <= p < MAX_SQRT_RATIO -> get_tick_at_sqrt_ratio p = Ok (greatest_tick p).
Proof.
  intros Hp. rewrite tick_at_sqrt_ratio_eq. rewrite (proj2 (Z.leb_le _ _)), (proj2 (Z.ltb_lt _ _)) by lia. osimpl.
  rewrite sqrt_ratio_in by (by apply hi_valid). osimpl. unfold greatest_tick.
  destruct (tick_low_of (price_bits p) =? tick_hi_of (price_bits p)); reflexivity.
Qed.

(** C19: [get_tick_at_sqrt_ratio] panics outside the price range and otherwise
    returns the greatest tick whose price is at most the given one: it is the
    inverse of [get_sqrt_ratio_at_tick], for every one of the 160-bit prices. *)
Theorem tick_at_sqrt_ratio_correct {UL : U256Lib} p :
  if (MIN_SQRT_RATIO <=? p) && (p <? MAX_SQRT_RATIO)
  then exists t low high, get_tick_at_sqrt_ratio p = Ok t /\ MIN_TICK <= t < MAX_TICK /\
    get_sqrt_ratio_at_tick t = Ok low /\ get_sqrt_ratio_at_tick (t + 1) = Ok high /\ low <= p < high
  else get_tick_at_sqrt_ratio p = Panic.
Proof.
  destruct ((MIN_SQRT_RATIO <=? p) && (p <? MAX_SQRT_RATIO)) eqn:Eb; [|by rewrite tick_at_sqrt_ratio_eq, Eb].
  apply andb_true_iff in Eb as [E1 E2]. apply Z.leb_le in E1. apply Z.ltb_lt in E2.
  assert (Hp : MIN_SQRT_RATIO <= p < MAX_SQRT_RATIO) by done.
  destruct (tick_of_price p Hp) as (Ht & Hlow & Hhigh). rewrite (tick_at_price p Hp).
  generalize dependent (greatest_tick p). intros t Ht Hlow Hhigh. exists t, (sqrt_ratio t), (sqrt_ratio (t + 1)).
  split; [done|]. split; [exact Ht|]. split; [apply sqrt_ratio_in; lia|]. split; [apply sqrt_ratio_in; lia|lia].
Qed.

Lemma tick_at_sqrt_ratio_witness :
  exists t low high, get_tick_at_sqrt_ratio (UL := u256_std) 12345678901234567890123456789 = Ok t /\
    get_sqrt_ratio_at_tick (UL := u256_std) t = Ok low /\ get_sqrt_ratio_at_tick (UL := u256_std) (t + 1) = Ok high /\
    low <= 12345678901234567890123456789 < high.
Proof.
  destruct (tick_at_sqrt_ratio_correct (UL := u256_std) 12345678901234567890123456789) as (t & l & h & H1 & _ & H2 & H3 & H4).
  exists t, l, h. tauto.
Defined.
