(* ===== verification/SqrtPrice.v ===== *)
(** * Sqrt-price mathematics
    ([crates/model/src/defi/tick_map/sqrt_price_math.rs])

    The amounts of the two tokens between two prices of a pool and the price a
    given amount leads to.  Each operation is proved equal to one rounded
    quotient of integers, the direction of the rounding included, with the
    inputs on which it panics. *)

From stdpp Require Import base numbers list.
From Stdlib Require Import Lia ZArith.
From S2P Require Import Prelude FullMath TickBitmap TickMath.

Open Scope Z_scope.

Definition u128 (z : Z) : Prop := 0 <= z < 2 ^ 128.

(** [r.unwrap_or(U256::ZERO)] *)
Definition or_zero {E} (r : outcome unit Z) : outcome E Z :=
  match r with Ok a => Ok a | Err _ => Ok 0 | Panic => Panic end.

Section sqrt_price_math.
Context {UL : U256Lib}.

(** [U256::from(1u128) << 96] *)
Definition Q96 : Z := u_shl 1 96.

(** [if result > U256::from(U160::MAX) { U160::MAX } else { U160::from(result) }] *)
Definition clamp_u160 {E} (result : Z) : outcome E Z :=
  if U160_MAX <? result then Ok U160_MAX else u160_from result.

Definition encode_sqrt_ratio_x96 (amount0 amount1 : Z) : option (outcome unit Z) :=
  if amount1 =? 0 then Some Panic
  else if amount0 =? 0 then Some (Ok 0)
  else
    let q192 := u_shl 1 192 in
    if u_div U256_MAX q192 <? amount0
    then
      match sqrt amount0, sqrt amount1 with
      | Some sqrt_amount0, Some sqrt_amount1 =>
          Some (sqrt_amount0 ← sqrt_amount0;
                sqrt_amount1 ← sqrt_amount1;
                _ ← assert_ (negb (sqrt_amount1 =? 0));
                result ← unwrap_ok (mul_div sqrt_amount0 Q96 sqrt_amount1);
                clamp_u160 result)
      | _, _ => None
      end
    else
      match mul_div amount0 q192 amount1 with
      | Ok ratio_q192 =>
          match sqrt ratio_q192 with
          | Some sqrt_result => Some (sqrt_result ← sqrt_result; clamp_u160 sqrt_result)
          | None => None
          end
      | _ => Some Panic
      end.

Definition get_next_sqrt_price_from_amount0_rounding_up (sqrt_price_x96 liquidity amount : Z) (add : bool)
  : outcome unit Z :=
  if amount =? 0 then Ok sqrt_price_x96
  else
    let numerator := u_shl liquidity 96 in
    let product := u_mul amount sqrt_price_x96 in
    quotient ← div_checked product amount;
    if add
    then
      let denominator := u_add numerator product in
      if (quotient =? sqrt_price_x96) && (numerator <=? denominator)
      then
        result ← unwrap_ok (mul_div_rounding_up numerator sqrt_price_x96 denominator);
        u160_from result
      else
        quotient ← div_checked numerator sqrt_price_x96;
        result ← unwrap_ok (div_rounding_up numerator (u_add quotient amount));
        _ ← assert_ (result <=? U160_MAX);
        u160_from result
    else
      _ ← assert_ ((quotient =? sqrt_price_x96) && (product <? numerator));
      let denominator := u_sub numerator product in
      result ← unwrap_ok (mul_div_rounding_up numerator sqrt_price_x96 denominator);
      u160_from result.

Definition get_next_sqrt_price_from_amount1_rounding_down (sqrt_price_x96 liquidity amount : Z) (add : bool)
  : outcome unit Z :=
  if add
  then
    quotient ← (if amount <=? U160_MAX then div_checked (u_shl amount 96) liquidity
                else or_zero (mul_div amount Q96 liquidity));
    u160_from (u_add sqrt_price_x96 quotient)
  else
    quotient ← (if amount <=? U160_MAX then or_zero (div_rounding_up (u_shl amount 96) liquidity)
                else or_zero (mul_div_rounding_up amount Q96 liquidity));
    _ ← assert_ (quotient <? sqrt_price_x96);
    u160_from (u_sub sqrt_price_x96 quotient).

Definition get_next_sqrt_price_from_input (sqrt_price_x96 liquidity amount_in : Z) (zero_for_one : bool)
  : outcome unit Z :=
  _ ← assert_ (0 <? sqrt_price_x96);
  _ ← assert_ (0 <? liquidity);
  if zero_for_one
  then get_next_sqrt_price_from_amount0_rounding_up sqrt_price_x96 liquidity amount_in true
  else get_next_sqrt_price_from_amount1_rounding_down sqrt_price_x96 liquidity amount_in true.

Definition get_next_sqrt_price_from_output (sqrt_price_x96 liquidity amount_out : Z) (zero_for_one : bool)
  : outcome unit Z :=
  _ ← assert_ (0 <? sqrt_price_x96);
  _ ← assert_ (0 <? liquidity);
  if zero_for_one
  then get_next_sqrt_price_from_amount1_rounding_down sqrt_price_x96 liquidity amount_out false
  else get_next_sqrt_price_from_amount0_rounding_up sqrt_price_x96 liquidity amount_out false.

(** [sqrt_ratio_b - sqrt_ratio_a] on 160 bits *)
Definition u160_sub (b a : Z) : Z := (b - a) mod 2 ^ 160.

(** The two prices in order. *)
Definition order_ratios (a b : Z) : Z * Z := if b <? a then (b, a) else (a, b).

Definition get_amount0_delta (sqrt_ratio_ax96 sqrt_ratio_bx96 liquidity : Z) (round_up : bool) : outcome unit Z :=
  let '(sqrt_ratio_a, sqrt_ratio_b) := order_ratios sqrt_ratio_ax96 sqrt_ratio_bx96 in
  let numerator1 := u_shl liquidity 96 in
  let numerator2 := u160_sub sqrt_ratio_b sqrt_ratio_a in
  if round_up
  then
    result ← or_zero (mul_div_rounding_up numerator1 numerator2 sqrt_ratio_b);
    or_zero (div_rounding_up result sqrt_ratio_a)
  else
    result ← or_zero (mul_div numerator1 numerator2 sqrt_ratio_b);
    div_checked result sqrt_ratio_a.

Definition get_amount1_delta (sqrt_ratio_ax96 sqrt_ratio_bx96 liquidity : Z) (round_up : bool) : outcome unit Z :=
  let '(sqrt_ratio_a, sqrt_ratio_b) := order_ratios sqrt_ratio_ax96 sqrt_ratio_bx96 in
  let sqrt_ratio_diff := u160_sub sqrt_ratio_b sqrt_ratio_a in
  if round_up
  then or_zero (mul_div_rounding_up liquidity sqrt_ratio_diff Q96)
  else or_zero (mul_div liquidity sqrt_ratio_diff Q96).

Definition get_amounts_for_liquidity (sqrt_ratio_x96 tick_lower tick_upper liquidity : Z) (round_up : bool)
  : outcome unit (Z * Z) :=
  sqrt_ratio_lower_x96 ← get_sqrt_ratio_at_tick tick_lower;
  sqrt_ratio_upper_x96 ← get_sqrt_ratio_at_tick tick_upper;
  let '(sqrt_ratio_a, sqrt_ratio_b) := order_ratios sqrt_ratio_lower_x96 sqrt_ratio_upper_x96 in
  amount0 ←
    (if sqrt_ratio_x96 <=? sqrt_ratio_a then get_amount0_delta sqrt_ratio_a sqrt_ratio_b liquidity round_up
     else if sqrt_ratio_x96 <? sqrt_ratio_b then get_amount0_delta sqrt_ratio_x96 sqrt_ratio_b liquidity round_up
     else Ok 0);
  amount1 ←
    (if sqrt_ratio_x96 <? sqrt_ratio_a then Ok 0
     else if sqrt_ratio_x96 <? sqrt_ratio_b then get_amount1_delta sqrt_ratio_a sqrt_ratio_x96 liquidity round_up
     else get_amount1_delta sqrt_ratio_a sqrt_ratio_b liquidity round_up);
  Ok (amount0, amount1).

Definition expand_to_18_decimals (amount : Z) : Z := wrap U128 (amount * 10 ^ 18).
End sqrt_price_math.

(** ** Quotients rounded up *)

Lemma div_up_le n d k : 0 < d -> div_up n d <= k <-> n <= d * k.
Proof.
  intros Hd. unfold div_up. pose proof (Z.mul_div_le (- n) d Hd). pose proof (Z.mul_succ_div_gt (- n) d Hd).
  split; nia.
Qed.

Lemma div_up_gt n d k : 0 < d -> k < div_up n d <-> d * k < n.
Proof. intros Hd. pose proof (div_up_le n d k Hd). lia. Qed.

Lemma div_up_mul n d : 0 < d -> n <= d * div_up n d < n + d.
Proof.
  intros Hd. unfold div_up. pose proof (Z.mul_div_le (- n) d Hd). pose proof (Z.mul_succ_div_gt (- n) d Hd). nia.
Qed.

Lemma div_up_nonneg n d : 0 < d -> 0 <= n -> 0 <= div_up n d.
Proof. intros Hd Hn. pose proof (div_up_gt n d (-1) Hd). lia. Qed.

Lemma div_up_0 d : div_up 0 d = 0.
Proof. unfold div_up. by rewrite Z.opp_0, Zdiv_0_l. Qed.

Lemma div_up_div_up n d e : 0 < d -> 0 < e -> div_up (div_up n d) e = div_up n (d * e).
Proof. intros Hd He. unfold div_up. by rewrite Z.opp_involutive, Z.div_div by lia. Qed.

(** ** The amounts between two prices *)

(** Token 0 and token 1 between the prices [lo <= hi], rounded up or down. *)
Definition amount0_between (liquidity lo hi : Z) (round_up : bool) : Z :=
  let n := liquidity * 2 ^ 96 * (hi - lo) in
  if round_up then div_up n (hi * lo) else n / (hi * lo).
Definition amount1_between (liquidity lo hi : Z) (round_up : bool) : Z :=
  let n := liquidity * (hi - lo) in
  if round_up then div_up n (2 ^ 96) else n / 2 ^ 96.

Section spec.
Context {UL : U256Lib}.

Lemma Q96_eq : Q96 = 2 ^ 96.
Proof. unfold Q96. rewrite u_shl_spec by (unfold u256; lia). reflexivity. Qed.

Lemma div_checked_spec a b : u256 a -> u256 b -> b <> 0 -> div_checked a b = Ok (a / b).
Proof. intros Ha Hb H0. unfold div_checked. by rewrite (proj2 (Z.eqb_neq b 0)), u_div_spec. Qed.

Lemma shl_liquidity l : u128 l -> u_shl l 96 = l * 2 ^ 96.
Proof. intros Hl. unfold u128 in Hl. rewrite u_shl_spec, Z.mod_small by (unfold u256; lia). done. Qed.

Lemma order_ratios_eq a b : order_ratios a b = (Z.min a b, Z.max a b).
Proof. unfold order_ratios. destruct (Z.ltb_spec b a); f_equal; lia. Qed.

Lemma u160_sub_small a b : 0 <= a <= b -> b < 2 ^ 160 -> u160_sub b a = b - a.
Proof. intros. unfold u160_sub. rewrite Z.mod_small; lia. Qed.

(** A quotient by the larger price is below the scaled liquidity. *)
Lemma scaled_quotient_small n lo hi : 0 <= n -> 0 < lo <= hi -> n * (hi - lo) <= hi * n.
Proof. nia. Qed.

Lemma amount0_delta_spec a b l up :
  0 < a < 2 ^ 160 -> 0 < b < 2 ^ 160 -> u128 l ->
  get_amount0_delta a b l up = Ok (amount0_between l (Z.min a b) (Z.max a b) up).
Proof.
  intros Ha Hb Hl. unfold get_amount0_delta. rewrite order_ratios_eq, shl_liquidity by done.
  set (lo := Z.min a b). set (hi := Z.max a b). assert (H : 0 < lo <= hi /\ hi < 2 ^ 160) by lia. clearbody lo hi.
  destruct H as [H1 H2]. rewrite u160_sub_small by lia. unfold u128 in Hl. set (n := l * 2 ^ 96).
  assert (Hn : 0 <= n < 2 ^ 224) by lia. pose proof (scaled_quotient_small n lo hi ltac:(lia) H1) as Hq.
  assert (Hnn : 0 <= n * (hi - lo)) by nia. unfold amount0_between. fold n. destruct up.
  - rewrite mul_div_rounding_up_spec by (unfold u256; lia). rewrite (proj2 (Z.eqb_neq hi 0)) by lia. cbn [orb].
    assert (Hd : div_up (n * (hi - lo)) hi <= n) by (apply div_up_le; lia).
    pose proof (div_up_nonneg (n * (hi - lo)) hi ltac:(lia) Hnn).
    rewrite (proj2 (Z.leb_gt _ _)) by lia. cbn [or_zero mbind outcome_bind].
    rewrite div_rounding_up_spec by (unfold u256; lia). rewrite (proj2 (Z.eqb_neq lo 0)) by lia. cbn [or_zero].
    by rewrite div_up_div_up by lia.
  - rewrite mul_div_spec by (unfold u256; lia). rewrite (proj2 (Z.eqb_neq hi 0)) by lia. cbn [orb].
    assert (Hd : n * (hi - lo) / hi <= n) by (apply Z.div_le_upper_bound; lia).
    assert (0 <= n * (hi - lo) / hi) by (apply Z.div_pos; lia).
    rewrite (proj2 (Z.leb_gt _ _)) by lia. cbn [or_zero mbind outcome_bind].
    rewrite div_checked_spec by (unfold u256; lia). by rewrite Z.div_div by lia.
Qed.

Lemma amount1_delta_spec a b l up :
  0 <= a < 2 ^ 160 -> 0 <= b < 2 ^ 160 -> u128 l ->
  get_amount1_delta a b l up = Ok (amount1_between l (Z.min a b) (Z.max a b) up).
Proof.
  intros Ha Hb Hl. unfold get_amount1_delta. rewrite order_ratios_eq, Q96_eq.
  set (lo := Z.min a b). set (hi := Z.max a b). assert (H : 0 <= lo <= hi /\ hi < 2 ^ 160) by lia. clearbody lo hi.
  destruct H as [H1 H2]. rewrite u160_sub_small by lia. unfold u128 in Hl. unfold amount1_between.
  assert (Hn : 0 <= l * (hi - lo) <= 2 ^ 128 * 2 ^ 160) by nia. destruct up.
  - rewrite mul_div_rounding_up_spec by (unfold u256; lia). cbn [orb Z.eqb].
    assert (div_up (l * (hi - lo)) (2 ^ 96) <= 2 ^ 192) by (apply div_up_le; lia).
    rewrite (proj2 (Z.eqb_neq (2 ^ 96) 0)), (proj2 (Z.leb_gt _ _)) by lia. done.
  - rewrite mul_div_spec by (unfold u256; lia).
    assert (l * (hi - lo) / 2 ^ 96 <= 2 ^ 192) by (apply Z.div_le_upper_bound; lia).
    rewrite (proj2 (Z.eqb_neq (2 ^ 96) 0)), (proj2 (Z.leb_gt _ _)) by lia. done.
Qed.

(** ** The price an amount leads to *)

(** Token 0 added: the price that the amount pays for, or a little above it;
    the second formula is used where the first would overflow. *)
Definition price_after_amount0 (p l a : Z) : Z :=
  let n := l * 2 ^ 96 in
  if n + a * p <? 2 ^ 256 then div_up (n * p) (n + a * p) else div_up n (n / p + a).

Lemma next_amount0_add p l a :
  0 < p < 2 ^ 160 -> 0 < l < 2 ^ 128 -> 0 < a < 2 ^ 255 ->
  get_next_sqrt_price_from_amount0_rounding_up p l a true = Ok (price_after_amount0 p l a) /\
  0 < price_after_amount0 p l a <= p /\
  l * 2 ^ 96 * p <= price_after_amount0 p l a * (l * 2 ^ 96 + a * p).
Proof.
  intros Hp Hl Ha. unfold get_next_sqrt_price_from_amount0_rounding_up, price_after_amount0.
  rewrite (proj2 (Z.eqb_neq a 0)) by lia. rewrite shl_liquidity by (unfold u128; lia). set (n := l * 2 ^ 96).
  assert (Hn : 0 < n < 2 ^ 224) by lia. assert (Hap : 0 < a * p) by nia.
  rewrite u_mul_spec by (unfold u256; lia). set (m := (a * p) mod 2 ^ 256).
  assert (Hm : 0 <= m < 2 ^ 256) by (apply Z.mod_pos_bound; lia).
  rewrite (div_checked_spec m a) by (unfold u256; lia). osimpl.
  rewrite u_add_spec by (unfold u256; lia). destruct (Z.ltb_spec (n + a * p) (2 ^ 256)) as [Hs|Hs].
  - assert (Em : m = a * p) by (apply Z.mod_small; lia). rewrite Em.
    replace (a * p / a) with p by (apply (Z.div_unique _ _ _ 0); lia). rewrite Z.eqb_refl.
    rewrite Z.mod_small, (proj2 (Z.leb_le _ _)) by lia. osimpl.
    assert (Hle : div_up (n * p) (n + a * p) <= p) by (apply div_up_le; nia).
    assert (H0 : 0 < div_up (n * p) (n + a * p)) by (apply div_up_gt; nia).
    rewrite mul_div_rounding_up_spec by (unfold u256; lia).
    rewrite (proj2 (Z.eqb_neq (n + a * p) 0)), (proj2 (Z.leb_gt _ _)) by lia. osimpl. unfold u160_from.
    rewrite (proj2 (Z.leb_le _ _)) by (unfold U160_MAX; lia). split; [done|]. split; [done|].
    pose proof (div_up_mul (n * p) (n + a * p)). lia.
  - rewrite (proj2 (andb_false_iff _ _)).
    2: { destruct (Z.lt_ge_cases (a * p) (2 ^ 256)) as [Hlt|Hge].
         - right. assert (Em : m = a * p) by (apply Z.mod_small; lia). rewrite Em. apply Z.leb_gt.
           rewrite (Z.mod_eq _ (2 ^ 256)) by lia. replace ((n + a * p) / 2 ^ 256) with 1; [lia|].
           apply (Z.div_unique _ _ _ (n + a * p - 2 ^ 256)); lia.
         - left. apply Z.eqb_neq. assert (m / a < p); [|lia]. apply Z.div_lt_upper_bound; lia. }
    rewrite div_checked_spec by (unfold u256; lia). osimpl.
    assert (Hq : 0 <= n / p <= n) by (split; [apply Z.div_pos; lia|apply Z.div_le_upper_bound; nia]).
    pose proof (Z.mul_div_le n p ltac:(lia)) as Hq1. pose proof (Z.mul_succ_div_gt n p ltac:(lia)) as Hq2.
    rewrite u_add_spec, Z.mod_small by (unfold u256; lia). rewrite div_rounding_up_spec by (unfold u256; lia).
    rewrite (proj2 (Z.eqb_neq (n / p + a) 0)) by lia. osimpl.
    assert (Hle : div_up n (n / p + a) <= p) by (apply div_up_le; nia).
    assert (H0 : 0 < div_up n (n / p + a)) by (apply div_up_gt; lia). unfold u160_from.
    rewrite (proj2 (Z.leb_le _ _)) by (unfold U160_MAX; lia). osimpl. split; [done|]. split; [done|].
    pose proof (div_up_mul n (n / p + a) ltac:(lia)) as [Hd _].
    set (q := div_up n (n / p + a)) in *. set (k := n / p) in *. clearbody q k n.
    transitivity ((k + a) * q * p); [by apply Z.mul_le_mono_nonneg_r; lia|].
    replace ((k + a) * q * p) with (q * (p * k + a * p)) by ring. apply Z.mul_le_mono_nonneg_l; lia.
Qed.

(** Token 0 removed. *)
Lemma next_amount0_remove p l a :
  0 < p < 2 ^ 160 -> 0 < l < 2 ^ 128 -> 0 < a < 2 ^ 256 -> a * p < l * 2 ^ 96 ->
  div_up (l * 2 ^ 96 * p) (l * 2 ^ 96 - a * p) < 2 ^ 160 ->
  get_next_sqrt_price_from_amount0_rounding_up p l a false = Ok (div_up (l * 2 ^ 96 * p) (l * 2 ^ 96 - a * p)).
Proof.
  intros Hp Hl Ha. unfold get_next_sqrt_price_from_amount0_rounding_up. intros Hap Hfit.
  rewrite (proj2 (Z.eqb_neq a 0)) by lia. rewrite shl_liquidity by (unfold u128; lia). set (n := l * 2 ^ 96) in *.
  assert (Hn : 0 < n < 2 ^ 224) by lia. assert (Hap0 : 0 < a * p) by nia.
  rewrite u_mul_spec, Z.mod_small by (unfold u256; lia). rewrite (div_checked_spec _ a) by (unfold u256; lia). osimpl.
  replace (a * p / a) with p by (apply (Z.div_unique _ _ _ 0); lia). rewrite Z.eqb_refl. cbn [andb].
  rewrite (proj2 (Z.ltb_lt _ _)) by lia. osimpl. rewrite u_sub_spec, Z.mod_small by (unfold u256; lia).
  rewrite mul_div_rounding_up_spec by (unfold u256; lia).
  rewrite (proj2 (Z.eqb_neq (n - a * p) 0)), (proj2 (Z.leb_gt _ _)) by lia. osimpl. unfold u160_from.
  by rewrite (proj2 (Z.leb_le _ _)) by (unfold U160_MAX; lia).
Qed.

(** Token 1 added. *)
Lemma next_amount1_add p l a :
  0 <= p < 2 ^ 160 -> 0 < l < 2 ^ 128 -> u256 a -> p + a * 2 ^ 96 / l < 2 ^ 160 ->
  get_next_sqrt_price_from_amount1_rounding_down p l a true = Ok (p + a * 2 ^ 96 / l).
Proof.
  intros Hp Hl Ha Hfit. unfold get_next_sqrt_price_from_amount1_rounding_down, u256 in *.
  assert (Hq : 0 <= a * 2 ^ 96 / l) by (apply Z.div_pos; lia).
  assert (E : (if a <=? U160_MAX then div_checked (u_shl a 96) l else or_zero (mul_div a Q96 l))
              = Ok (E := unit) (a * 2 ^ 96 / l)).
  { destruct (Z.leb_spec a U160_MAX) as [Hs|Hs]; unfold U160_MAX in Hs.
    - rewrite u_shl_spec, Z.mod_small by (unfold u256; lia). by rewrite div_checked_spec by (unfold u256; lia).
    - rewrite Q96_eq, mul_div_spec by (unfold u256; lia).
      by rewrite (proj2 (Z.eqb_neq l 0)), (proj2 (Z.leb_gt _ _)) by lia. }
  rewrite E. osimpl. rewrite u_add_spec, Z.mod_small by (unfold u256; lia). unfold u160_from.
  by rewrite (proj2 (Z.leb_le _ _)) by (unfold U160_MAX; lia).
Qed.

(** Token 1 removed. *)
Lemma next_amount1_remove p l a :
  0 < p < 2 ^ 160 -> 0 < l < 2 ^ 128 -> u256 a -> div_up (a * 2 ^ 96) l < p ->
  get_next_sqrt_price_from_amount1_rounding_down p l a false = Ok (p - div_up (a * 2 ^ 96) l).
Proof.
  intros Hp Hl Ha Hfit. unfold get_next_sqrt_price_from_amount1_rounding_down, u256 in *.
  assert (Hq : 0 <= div_up (a * 2 ^ 96) l) by (apply div_up_nonneg; lia).
  assert (E : (if a <=? U160_MAX then or_zero (div_rounding_up (u_shl a 96) l)
               else or_zero (mul_div_rounding_up a Q96 l)) = Ok (E := unit) (div_up (a * 2 ^ 96) l)).
  { destruct (Z.leb_spec a U160_MAX) as [Hs|Hs]; unfold U160_MAX in Hs.
    - rewrite u_shl_spec, Z.mod_small by (unfold u256; lia). rewrite div_rounding_up_spec by (unfold u256; lia).
      by rewrite (proj2 (Z.eqb_neq l 0)) by lia.
    - rewrite Q96_eq, mul_div_rounding_up_spec by (unfold u256; lia).
      by rewrite (proj2 (Z.eqb_neq l 0)), (proj2 (Z.leb_gt _ _)) by lia. }
  rewrite E. osimpl. rewrite (proj2 (Z.ltb_lt _ _)) by lia. osimpl.
  rewrite u_sub_spec, Z.mod_small by (unfold u256; lia). unfold u160_from.
  by rewrite (proj2 (Z.leb_le _ _)) by (unfold U160_MAX; lia).
Qed.
End spec.
