(* ===== verification/SwapMath.v ===== *)
(** * One step of a swap ([crates/model/src/defi/pool_analysis/swap_math.rs])

    A swap moves the price of a pool from tick to tick; a step computes the
    price reached inside one range of constant liquidity, the amounts exchanged
    and the fee.  A step always succeeds on valid prices, stays between the
    current price and the target, rounds in favour of the pool and never
    exceeds the amount that remains to be swapped. *)

From stdpp Require Import base numbers list.
From Stdlib Require Import Lia ZArith.
From S2P Require Import Prelude FullMath TickMath SqrtPrice.

Open Scope Z_scope.

Record SwapStepResult : Type := mkSwapStepResult {
  ss_sqrt_ratio_next_x96 : Z;
  ss_amount_in : Z;
  ss_amount_out : Z;
  ss_fee_amount : Z;
}.

Definition MAX_FEE : Z := 1000000.

Section swap.
Context {UL : U256Lib}.

(** The price reached, with the amounts computed on the way to it. *)
Definition swap_target (cur target liquidity amount_remaining fee_complement : Z) (zero_for_one exact_in : bool)
  : outcome unit (Z * Z * Z) :=
  if exact_in
  then
    amount_remaining_less_fee ← mul_div (wrap U256 amount_remaining) fee_complement MAX_FEE;
    amount_in ← (if zero_for_one then get_amount0_delta target cur liquidity true
                 else get_amount1_delta cur target liquidity true);
    next ← (if amount_in <=? amount_remaining_less_fee then Ok target
            else get_next_sqrt_price_from_input cur liquidity amount_remaining_less_fee zero_for_one);
    Ok (next, amount_in, 0)
  else
    amount_out ← (if zero_for_one then get_amount1_delta target cur liquidity false
                  else get_amount0_delta cur target liquidity false);
    next ← (if amount_out <=? Z.abs amount_remaining then Ok target
            else get_next_sqrt_price_from_output cur liquidity (Z.abs amount_remaining) zero_for_one);
    Ok (next, 0, amount_out).

Definition compute_swap_step (sqrt_ratio_current_x96 sqrt_ratio_target_x96 liquidity amount_remaining fee_pips : Z)
  : outcome unit SwapStepResult :=
  let fee_complement := u_sub MAX_FEE fee_pips in
  let zero_for_one := sqrt_ratio_target_x96 <=? sqrt_ratio_current_x96 in
  let exact_in := (0 <? amount_remaining) || (amount_remaining =? 0) in
  reached ← swap_target sqrt_ratio_current_x96 sqrt_ratio_target_x96 liquidity amount_remaining fee_complement
              zero_for_one exact_in;
  let '(sqrt_ratio_next_x96, amount_in, amount_out) := reached in
  let max := sqrt_ratio_target_x96 =? sqrt_ratio_next_x96 in
  amounts ←
    (if zero_for_one
     then
       amount_in ← (if max && exact_in then Ok amount_in
                    else get_amount0_delta sqrt_ratio_next_x96 sqrt_ratio_current_x96 liquidity true);
       amount_out ← (if max && negb exact_in then Ok amount_out
                     else get_amount1_delta sqrt_ratio_next_x96 sqrt_ratio_current_x96 liquidity false);
       Ok (amount_in, amount_out)
     else
       amount_in ← (if max && exact_in then Ok amount_in
                    else get_amount1_delta sqrt_ratio_current_x96 sqrt_ratio_next_x96 liquidity true);
       amount_out ← (if max && negb exact_in then Ok amount_out
                     else get_amount0_delta sqrt_ratio_current_x96 sqrt_ratio_next_x96 liquidity false);
       Ok (amount_in, amount_out));
  let '(amount_in, amount_out) := amounts in
  let amount_out :=
    if negb exact_in && (Z.abs amount_remaining <? amount_out) then Z.abs amount_remaining else amount_out in
  fee_amount ←
    (if exact_in && negb (sqrt_ratio_next_x96 =? sqrt_ratio_target_x96)
     then Ok (u_sub (Z.abs amount_remaining) amount_in)
     else mul_div_rounding_up amount_in fee_pips fee_complement);
  Ok (mkSwapStepResult sqrt_ratio_next_x96 amount_in amount_out fee_amount).
End swap.

(** ** What a step promises *)

(** What the pool takes for moving the price, rounded up, and what it gives,
    rounded down. *)
Definition taken (zero_for_one : bool) (liquidity cur next : Z) : Z :=
  if zero_for_one then amount0_between liquidity next cur true else amount1_between liquidity cur next true.
Definition given (zero_for_one : bool) (liquidity cur next : Z) : Z :=
  if zero_for_one then amount1_between liquidity next cur false else amount0_between liquidity cur next false.

(** [next] lies between [cur] and [target], in the direction of the swap. *)
Definition towards (zero_for_one : bool) (cur target next : Z) : Prop :=
  if zero_for_one then target <= next <= cur else cur <= next <= target.

(** The part of an input that buys, after the fee. *)
Definition net_input (remaining fee_pips : Z) : Z := remaining * (MAX_FEE - fee_pips) / MAX_FEE.

(** The fee on the bought part is covered by what is left of the input. *)
Lemma fee_covered r f x : 0 <= f < MAX_FEE -> x <= net_input r f -> div_up (x * f) (MAX_FEE - f) <= r - x.
Proof.
  unfold net_input. intros Hf Hx. apply div_up_le; [lia|].
  pose proof (Z.mul_div_le (r * (MAX_FEE - f)) MAX_FEE ltac:(done)). unfold MAX_FEE in *. nia.
Qed.

Lemma net_input_bounds r f : 0 <= r -> 0 <= f < MAX_FEE -> 0 <= net_input r f <= r.
Proof.
  intros Hr Hf. unfold net_input, MAX_FEE in *. split; [apply Z.div_pos; nia|apply Z.div_le_upper_bound; nia].
Qed.

(** ** Prices reached *)

(** Paying with token 0 moves the price down by no more than is paid for, and
    less than to a target that costs more. *)
Lemma input0_reached n p t a q :
  0 < t <= p -> 0 < q <= p -> 0 <= n -> 0 <= a ->
  n * p <= q * (n + a * p) -> a < div_up (n * (p - t)) (p * t) ->
  div_up (n * (p - q)) (p * q) <= a /\ t < q.
Proof.
  intros Ht Hq Hn Ha Hnp Hneed. assert (H : div_up (n * (p - q)) (p * q) <= a) by (apply div_up_le; nia).
  split; [done|]. apply div_up_gt in Hneed; [|nia]. destruct (Z.lt_ge_cases t q) as [|Hle]; [done|exfalso].
  assert (q * (n + a * p) <= t * (n + a * p)) by (apply Z.mul_le_mono_nonneg_r; nia). lia.
Qed.

(** Paying with token 1 moves it up. *)
Lemma input1_reached l p t a :
  0 < l -> 0 <= a -> p < t -> a < div_up (l * (t - p)) (2 ^ 96) ->
  0 <= a * 2 ^ 96 / l < t - p /\ div_up (l * (p + a * 2 ^ 96 / l - p)) (2 ^ 96) <= a.
Proof.
  intros Hl Ha Ht Hneed. apply div_up_gt in Hneed; [|lia]. split; [split|].
  - apply Z.div_pos; lia.
  - apply Z.div_lt_upper_bound; lia.
  - apply div_up_le; [lia|]. pose proof (Z.mul_div_le (a * 2 ^ 96) l Hl). lia.
Qed.

(** Taking out token 1 moves the price down. *)
Lemma output1_reached l p t o :
  0 < l -> 0 <= o -> 0 < t <= p -> o < l * (p - t) / 2 ^ 96 ->
  0 <= div_up (o * 2 ^ 96) l <= p - t /\ o <= l * (p - (p - div_up (o * 2 ^ 96) l)) / 2 ^ 96.
Proof.
  intros Hl Ho Ht Hav. pose proof (Z.mul_div_le (l * (p - t)) (2 ^ 96) ltac:(lia)) as Hm. split; [split|].
  - apply div_up_nonneg; lia.
  - apply div_up_le; nia.
  - apply Z.div_le_lower_bound; [lia|]. pose proof (div_up_mul (o * 2 ^ 96) l Hl). lia.
Qed.

(** Taking out token 0 moves it up. *)
Lemma output0_reached n p t o :
  0 < n -> 0 < o -> 0 < p < t -> o < n * (t - p) / (t * p) ->
  o * p < n /\ p <= div_up (n * p) (n - o * p) <= t /\
  o <= n * (div_up (n * p) (n - o * p) - p) / (div_up (n * p) (n - o * p) * p).
Proof.
  intros Hn Ho Hp Hav. pose proof (Z.mul_div_le (n * (t - p)) (t * p) ltac:(nia)) as Hm.
  assert (H1 : t * p * o < n * (t - p)).
  { eapply Z.lt_le_trans; [|exact Hm]. apply Z.mul_lt_mono_pos_l; nia. }
  assert (Hop : o * p < n).
  { apply (Z.mul_lt_mono_pos_l t); [lia|]. nia. }
  assert (Hd : 0 < n - o * p) by lia. pose proof (div_up_mul (n * p) (n - o * p) Hd) as Hq.
  assert (Hpq : p <= div_up (n * p) (n - o * p)).
  { assert (p - 1 < div_up (n * p) (n - o * p)); [|lia]. apply div_up_gt; [done|]. nia. }
  split; [done|]. split; [split; [done|apply div_up_le; nia]|].
  set (q := div_up (n * p) (n - o * p)) in *. apply Z.div_le_lower_bound; nia.
Qed.

Section correct.
Context {UL : U256Lib}.

Lemma taken_eval (zfo : bool) l cur next :
  0 < cur < 2 ^ 160 -> 0 < next < 2 ^ 160 -> u128 l -> (if zfo then next <= cur else cur <= next) ->
  (if zfo then get_amount0_delta next cur l true else get_amount1_delta cur next l true) = Ok (taken zfo l cur next) /\
  0 <= taken zfo l cur next < 2 ^ 225.
Proof.
  intros Hc Hn Hl Hd. unfold taken, amount0_between, amount1_between, u128 in *. destruct zfo.
  - rewrite amount0_delta_spec, Z.min_l, Z.max_r by (done || lia). split; [done|].
    pose proof (div_up_nonneg (l * 2 ^ 96 * (cur - next)) (cur * next) ltac:(nia) ltac:(nia)). split; [done|].
    enough (div_up (l * 2 ^ 96 * (cur - next)) (cur * next) <= l * 2 ^ 96) by lia. apply div_up_le; nia.
  - rewrite amount1_delta_spec, Z.min_l, Z.max_r by (done || lia). split; [done|].
    pose proof (div_up_nonneg (l * (next - cur)) (2 ^ 96) ltac:(lia) ltac:(nia)). split; [done|].
    enough (div_up (l * (next - cur)) (2 ^ 96) <= 2 ^ 192) by lia. apply div_up_le; nia.
Qed.

Lemma given_eval (zfo : bool) l cur next :
  0 < cur < 2 ^ 160 -> 0 < next < 2 ^ 160 -> u128 l -> (if zfo then next <= cur else cur <= next) ->
  (if zfo then get_amount1_delta next cur l false else get_amount0_delta cur next l false) = Ok (given zfo l cur next) /\
  0 <= given zfo l cur next.
Proof.
  intros Hc Hn Hl Hd. unfold given, amount0_between, amount1_between, u128 in *. destruct zfo.
  - rewrite amount1_delta_spec, Z.min_l, Z.max_r by (done || lia). split; [done|]. apply Z.div_pos; nia.
  - rewrite amount0_delta_spec, Z.min_l, Z.max_r by (done || lia). split; [done|]. apply Z.div_pos; nia.
Qed.

(** What no liquidity or no distance gives. *)
Lemma taken_pos_liquidity zfo l cur next : u128 l -> 0 < taken zfo l cur next -> 0 < l.
Proof.
  unfold taken, amount0_between, amount1_between, u128. intros Hl H.
  destruct (Z.eq_dec l 0) as [->|]; [|lia]. exfalso. revert H. destruct zfo; rewrite ?Z.mul_0_l, div_up_0; lia.
Qed.

Lemma given_pos_liquidity zfo l cur next : u128 l -> 0 < given zfo l cur next -> 0 < l.
Proof.
  unfold given, amount0_between, amount1_between, u128. intros Hl H.
  destruct (Z.eq_dec l 0) as [->|]; [|lia]. exfalso. revert H. destruct zfo; rewrite ?Z.mul_0_l, Zdiv_0_l; lia.
Qed.

(** The price an input reaches when it does not reach the target. *)
Lemma input_reached (zfo : bool) cur target l a :
  0 < cur < 2 ^ 160 -> 0 < target < 2 ^ 160 -> u128 l -> 0 <= a < 2 ^ 255 ->
  (if zfo then target <= cur else cur <= target) -> a < taken zfo l cur target ->
  exists next, get_next_sqrt_price_from_input cur l a zfo = Ok next /\ 0 < next < 2 ^ 160 /\
    towards zfo cur target next /\ taken zfo l cur next <= a.
Proof.
  intros Hc Ht Hl Ha Hd Hlt. assert (Hl0 : 0 < l) by (apply (taken_pos_liquidity zfo l cur target); [done|lia]).
  unfold u128 in Hl. unfold get_next_sqrt_price_from_input. rewrite !(proj2 (Z.ltb_lt 0 _)) by lia. osimpl.
  unfold taken, amount0_between, amount1_between, towards in *. destruct zfo.
  - destruct (Z.eq_dec a 0) as [->|Ha0].
    + exists cur. split; [done|]. split_and!; try lia. rewrite Z.sub_diag, Z.mul_0_r, div_up_0. lia.
    + destruct (next_amount0_add cur l a) as (E & Hq & Hnp); [done|lia|lia|]. rewrite E.
      exists (price_after_amount0 cur l a). destruct (input0_reached (l * 2 ^ 96) cur target a (price_after_amount0 cur l a));
        [lia|done|lia|lia|done|done|]. split_and!; done || lia.
  - assert (Hne : cur <> target).
    { intros ->. rewrite Z.sub_diag, Z.mul_0_r, div_up_0 in Hlt. lia. }
    destruct (input1_reached l cur target a) as [Hq Hin]; [lia|lia|lia|done|].
    exists (cur + a * 2 ^ 96 / l). rewrite next_amount1_add by (unfold u256; lia). split_and!; done || lia.
Qed.

(** The price an output reaches when the target has more to give. *)
Lemma output_reached (zfo : bool) cur target l o :
  0 < cur < 2 ^ 160 -> 0 < target < 2 ^ 160 -> u128 l -> 0 < o <= 2 ^ 255 ->
  (if zfo then target <= cur else cur <= target) -> o < given zfo l cur target ->
  exists next, get_next_sqrt_price_from_output cur l o zfo = Ok next /\ 0 < next < 2 ^ 160 /\
    towards zfo cur target next /\ o <= given zfo l cur next.
Proof.
  intros Hc Ht Hl Ho Hd Hlt. assert (Hl0 : 0 < l) by (apply (given_pos_liquidity zfo l cur target); [done|lia]).
  unfold u128 in Hl. unfold get_next_sqrt_price_from_output. rewrite !(proj2 (Z.ltb_lt 0 _)) by lia. osimpl.
  unfold given, amount0_between, amount1_between, towards in *. destruct zfo.
  - destruct (output1_reached l cur target o) as [Hq Hout]; [lia|lia|lia|done|].
    exists (cur - div_up (o * 2 ^ 96) l). rewrite next_amount1_remove by (unfold u256; lia). split_and!; done || lia.
  - assert (Hne : cur <> target).
    { intros ->. rewrite Z.sub_diag, Z.mul_0_r, Zdiv_0_l in Hlt; lia. }
    destruct (output0_reached (l * 2 ^ 96) cur target o) as (Hop & Hq & Hout); [lia|lia|lia|done|].
    exists (div_up (l * 2 ^ 96 * cur) (l * 2 ^ 96 - o * cur)). rewrite next_amount0_remove by lia.
    split_and!; done || lia.
Qed.

Lemma swap_target_spec (zfo exact_in : bool) cur target l r f :
  0 < cur < 2 ^ 160 -> 0 < target < 2 ^ 160 -> u128 l -> - 2 ^ 255 <= r < 2 ^ 255 -> 0 <= f < MAX_FEE ->
  (if zfo then target <= cur else cur <= target) -> (if exact_in then 0 <= r else r < 0) ->
  exists next ai ao, swap_target cur target l r (MAX_FEE - f) zfo exact_in = Ok (next, ai, ao) /\
    0 < next < 2 ^ 160 /\ towards zfo cur target next /\
    if exact_in then ai = taken zfo l cur target /\ taken zfo l cur next <= net_input r f
    else ao = given zfo l cur target /\ (next <> target -> - r <= given zfo l cur next).
Proof.
  intros Hc Ht Hl Hr Hf Hd He. unfold swap_target.
  assert (Htt : towards zfo cur target target) by (unfold towards; destruct zfo; lia). destruct exact_in.
  - rewrite wrap_id by (apply in_ty_spec; unfold imin, imax; cbn; lia).
    pose proof (net_input_bounds r f He Hf) as Hni. unfold MAX_FEE in Hf.
    rewrite mul_div_spec by (unfold u256, MAX_FEE; lia). fold (net_input r f).
    rewrite (proj2 (Z.leb_gt (2 ^ 256) _)) by lia. cbn [orb Z.eqb MAX_FEE]. osimpl.
    destruct (taken_eval zfo l cur target) as [E Hb]; [done..|].
    assert (E' : (if zfo then get_amount0_delta target cur l true else get_amount1_delta cur target l true)
                 = Ok (taken zfo l cur target)) by done.
    rewrite E'. osimpl. destruct (Z.leb_spec (taken zfo l cur target) (net_input r f)) as [Hle|Hgt]; osimpl.
    + exists target, (taken zfo l cur target), 0. done.
    + destruct (input_reached zfo cur target l (net_input r f)) as (next & En & Hn & Htw & Hle); [done..|lia|done|done|].
      rewrite En. osimpl. eauto 8.
  - destruct (given_eval zfo l cur target) as [E Hb]; [done..|]. rewrite E. osimpl.
    rewrite (Z.abs_neq r) by lia. destruct (Z.leb_spec (given zfo l cur target) (- r)) as [Hle|Hgt]; osimpl.
    + exists target, 0, (given zfo l cur target). done.
    + destruct (output_reached zfo cur target l (- r)) as (next & En & Hn & Htw & Hle); [done..|lia|done|done|].
      rewrite En. osimpl. eauto 8.
Qed.

(** The amounts of the step, whichever way they were computed. *)
Lemma swap_amounts (zfo exact_in : bool) cur target next l ai ao :
  0 < cur < 2 ^ 160 -> 0 < next < 2 ^ 160 -> u128 l -> towards zfo cur target next ->
  (if exact_in then ai = taken zfo l cur target else ao = given zfo l cur target) ->
  (if zfo
   then
     amount_in ← (if (target =? next) && exact_in then Ok ai else get_amount0_delta next cur l true);
     amount_out ← (if (target =? next) && negb exact_in then Ok ao else get_amount1_delta next cur l false);
     Ok (amount_in, amount_out)
   else
     amount_in ← (if (target =? next) && exact_in then Ok ai else get_amount1_delta cur next l true);
     amount_out ← (if (target =? next) && negb exact_in then Ok ao else get_amount0_delta cur next l false);
     Ok (amount_in, amount_out)) = Ok (taken zfo l cur next, given zfo l cur next).
Proof.
  intros Hc Hn Hl Ht Ha. unfold towards in Ht.
  assert (Hd : if zfo then next <= cur else cur <= next) by (destruct zfo; lia).
  destruct (taken_eval zfo l cur next) as [E1 _]; [done..|]. destruct (given_eval zfo l cur next) as [E2 _]; [done..|].
  destruct (Z.eqb_spec target next) as [->|_]; destruct exact_in, zfo; cbn [andb negb]; subst;
    rewrite ?E1; osimpl; rewrite ?E2; done.
Qed.
End correct.

Lemma swap_step_spec {UL : U256Lib} cur target liquidity remaining fee_pips :
  0 < cur < 2 ^ 160 -> 0 < target < 2 ^ 160 -> 0 <= liquidity < 2 ^ 128 ->
  - 2 ^ 255 <= remaining < 2 ^ 255 -> 0 <= fee_pips < MAX_FEE ->
  let zfo := target <=? cur in
  exists r, compute_swap_step cur target liquidity remaining fee_pips = Ok r /\
    let next := ss_sqrt_ratio_next_x96 r in
    let fee := div_up (ss_amount_in r * fee_pips) (MAX_FEE - fee_pips) in
    towards zfo cur target next /\
    ss_amount_in r = taken zfo liquidity cur next /\
    ss_amount_out r = (if 0 <=? remaining then given zfo liquidity cur next
                       else Z.min (given zfo liquidity cur next) (- remaining)) /\
    fee <= ss_fee_amount r /\
    (remaining < 0 \/ next = target -> ss_fee_amount r = fee) /\
    (0 <= remaining -> ss_amount_in r + ss_fee_amount r <= remaining /\
       (next <> target -> ss_amount_in r + ss_fee_amount r = remaining)) /\
    (remaining < 0 -> next <> target -> ss_amount_out r = - remaining).
Proof.
  intros Hc Ht Hl Hr Hf zfo. unfold compute_swap_step. rewrite u_sub_spec, Z.mod_small by (unfold u256, MAX_FEE in *; lia).
  assert (Hd : if zfo then target <= cur else cur <= target) by (unfold zfo; destruct (Z.leb_spec target cur); lia).
  fold zfo. clearbody zfo. set (ex := (0 <? remaining) || (remaining =? 0)).
  assert (He : if ex then 0 <= remaining else remaining < 0).
  { unfold ex. destruct (Z.ltb_spec 0 remaining), (Z.eqb_spec remaining 0); cbn; lia. }
  assert (Ee : (0 <=? remaining) = ex).
  { destruct ex; [by apply Z.leb_le|by apply Z.leb_gt]. }
  rewrite Ee. clearbody ex.
  destruct (swap_target_spec zfo ex cur target liquidity remaining fee_pips)
    as (next & ai & ao & E & Hn & Htw & Hres); [done..|]. rewrite E. osimpl.
  rewrite (swap_amounts zfo ex cur target next liquidity ai ao) by (done || (destruct ex; tauto)). osimpl.
  destruct (taken_eval zfo liquidity cur next) as [_ Hb]; [done..|unfold towards in Htw; destruct zfo; lia|].
  set (x := taken zfo liquidity cur next) in *. set (y := given zfo liquidity cur next) in *.
  assert (Hfee : 0 <= div_up (x * fee_pips) (MAX_FEE - fee_pips) <= 2 ^ 245).
  { split; [apply div_up_nonneg; nia|]. unfold MAX_FEE in *. apply div_up_le; [lia|]. nia. }
  assert (Eup : mul_div_rounding_up x fee_pips (MAX_FEE - fee_pips) = Ok (div_up (x * fee_pips) (MAX_FEE - fee_pips))).
  { unfold MAX_FEE in *. rewrite mul_div_rounding_up_spec by (unfold u256; lia).
    by rewrite (proj2 (Z.eqb_neq (1000000 - fee_pips) 0)), (proj2 (Z.leb_gt _ _)) by lia. }
  destruct ex; cbn [andb negb].
  - destruct Hres as [_ Hni]. pose proof (fee_covered remaining fee_pips x Hf Hni) as Hcov.
    pose proof (net_input_bounds remaining fee_pips He Hf).
    rewrite (Z.abs_eq remaining) by lia. destruct (Z.eqb_spec next target) as [->|Hne]; cbn [negb].
    + rewrite Eup. osimpl. eexists. split; [done|]. cbn. split_and!; done || lia.
    + rewrite u_sub_spec, Z.mod_small by (unfold u256; lia). osimpl. eexists. split; [done|]. cbn.
      split_and!; done || lia.
  - destruct Hres as [_ Hout]. rewrite (Z.abs_neq remaining) by lia. rewrite Eup. osimpl. eexists. split; [done|]. cbn.
    assert (Emin : (if - remaining <? y then - remaining else y) = Z.min y (- remaining))
      by (destruct (Z.ltb_spec (- remaining) y); lia).
    rewrite Emin. split_and!; done || lia.
Qed.

(** C18: a step of a swap between valid prices, at any liquidity and for any
    remaining amount, succeeds.  The new price lies between the current price
    and the target; the input is what the move costs rounded up, the output
    what it yields rounded down; the fee is at least the fee rate on the input,
    and exactly that when the target is reached or the output is given.  With
    an exact input, input and fee never exceed it and use it up unless the
    target is reached; with an exact output, no more than it is given out, and
    no less unless the target is reached. *)
Theorem swap_step_correct {UL : U256Lib} cur target liquidity remaining fee_pips :
  0 < cur < 2 ^ 160 -> 0 < target < 2 ^ 160 -> 0 <= liquidity < 2 ^ 128 ->
  - 2 ^ 255 <= remaining < 2 ^ 255 -> 0 <= fee_pips < MAX_FEE ->
  let zfo := target <=? cur in
  exists r, compute_swap_step cur target liquidity remaining fee_pips = Ok r /\
    let next := ss_sqrt_ratio_next_x96 r in
    let fee := div_up (ss_amount_in r * fee_pips) (MAX_FEE - fee_pips) in
    towards zfo cur target next /\
    ss_amount_in r = taken zfo liquidity cur next /\
    ss_amount_out r = (if 0 <=? remaining then given zfo liquidity cur next
                       else Z.min (given zfo liquidity cur next) (- remaining)) /\
    fee <= ss_fee_amount r /\
    (remaining < 0 \/ next = target -> ss_fee_amount r = fee) /\
    (0 <= remaining -> ss_amount_in r + ss_fee_amount r <= remaining /\
       (next <> target -> ss_amount_in r + ss_fee_amount r = remaining)) /\
    (remaining < 0 -> next <> target -> ss_amount_out r = - remaining).
Proof. exact (swap_step_spec cur target liquidity remaining fee_pips). Qed.

(** The step of a swap of 10^18 units of token 1 into a pool at price one. *)
Lemma swap_step_correct_witness :
  exists r, compute_swap_step (UL := u256_std) (2 ^ 96) (2 ^ 97) (2 * 10 ^ 18) (10 ^ 18) 600 = Ok r /\
    ss_amount_in r + ss_fee_amount r = 10 ^ 18 /\ 2 ^ 96 <= ss_sqrt_ratio_next_x96 r < 2 ^ 97.
Proof.
  destruct (swap_step_correct (UL := u256_std) (2 ^ 96) (2 ^ 97) (2 * 10 ^ 18) (10 ^ 18) 600)
    as (r & E & Htw & _ & _ & _ & _ & Hin & _); [lia|lia|lia|lia|done|].
  exists r. split; [exact E|]. destruct (Hin ltac:(lia)) as [_ Hu].
  assert (Hne : ss_sqrt_ratio_next_x96 r <> 2 ^ 97).
  { intros H. assert (E2 : (ss_sqrt_ratio_next_x96 <$> compute_swap_step (UL := u256_std) (2 ^ 96) (2 ^ 97) (2 * 10 ^ 18) (10 ^ 18) 600)
      = Ok (E := unit) (2 ^ 97)) by (rewrite E; cbn; by rewrite H).
    vm_compute in E2. discriminate E2. }
  split; [exact (Hu Hne)|]. change (2 ^ 97 <=? 2 ^ 96) with false in Htw. unfold towards in Htw. lia.
Defined.
