(* ===== verification/Pool.v ===== *)
(** * Liquidity pools ([crates/model/src/defi/pool_analysis/])

    The state tracker of a pool with concentrated liquidity: positions over tick
    ranges ([position.rs]), swap quotes ([quote.rs]) and the profiler
    ([profiler.rs]), which keeps the tick map, the price and the fees and both
    replays events and executes simulated operations.  The structs of the
    event data are not part of the sources: an event is given by the fields the
    code reads.  Progress reports and log output are left out. *)

From stdpp Require Import base numbers list gmap strings pretty.
From Stdlib Require Import Lia ZArith Ascii.
From S2P Require Import Prelude F64 FullMath TickBitmap TickMap TickMath SqrtPrice SwapMath.

Open Scope Z_scope.

(** ** Positions *)

(** Strings without the separator of the position keys. *)
Fixpoint no_colon (s : string) : bool :=
  match s with EmptyString => true | String c s => negb (bool_decide (c = ":"%char)) && no_colon s end.

Lemma split_colon s1 s2 t1 t2 :
  no_colon s1 = true -> no_colon s2 = true -> s1 +:+ String ":" t1 = s2 +:+ String ":" t2 -> s1 = s2 /\ t1 = t2.
Proof.
  revert s2. induction s1 as [|c s1 IH]; intros [|c2 s2]; cbn; intros H1 H2 E.
  - by injection E.
  - injection E as <- _. done.
  - injection E as -> _. done.
  - injection E as <- E. apply andb_true_iff in H1 as [_ H1], H2 as [_ H2]. destruct (IH s2 H1 H2 E) as [-> ->]. done.
Qed.

Lemma no_colon_N (x : N) : no_colon (pretty x) = true.
Proof.
  unfold pretty, pretty_N. destruct (decide (x = 0)%N) as [->|Hne]; [done|].
  assert (H : forall s, no_colon s = true -> no_colon (pretty_N_go x s) = true); [|by apply H].
  induction (N.lt_wf_0 x) as [x _ IH]. intros s Hs. destruct (decide (x = 0)%N) as [->|Hx]; [by rewrite pretty_N_go_0|].
  rewrite pretty_N_go_step by lia. destruct (decide (x `div` 10 = 0)%N) as [E|E].
  - rewrite E, pretty_N_go_0. cbn [no_colon]. rewrite Hs, andb_true_r. unfold pretty_N_char. by repeat case_match.
  - apply IH; [apply N.div_lt; lia|done|]. cbn [no_colon]. rewrite Hs, andb_true_r. unfold pretty_N_char. by repeat case_match.
Qed.
Lemma no_colon_Z (x : Z) : no_colon (pretty x) = true.
Proof. destruct x; [done|apply no_colon_N|]. cbn. apply no_colon_N. Qed.

(** Addresses, as numbers, and the text their library prints for them. *)
Class AddressFmt : Type := {
  show_address : Z -> string;
  show_address_inj a b : show_address a = show_address b -> a = b;
  show_address_plain a : no_colon (show_address a) = true;
}.

(** [get_position_key]: the string a position is filed under,
    [{owner}:{tick_lower}:{tick_upper}]. *)
Definition get_position_key {AF : AddressFmt} (owner tick_lower tick_upper : Z) : string :=
  show_address owner +:+ ":" +:+ pretty tick_lower +:+ ":" +:+ pretty tick_upper.

Lemma get_position_key_inj {AF : AddressFmt} o l u o' l' u' :
  get_position_key o l u = get_position_key o' l' u' -> o = o' /\ l = l' /\ u = u'.
Proof.
  intros E. apply split_colon in E as [E1 E]; [|apply show_address_plain..]. apply split_colon in E as [E2 E3]; [|apply no_colon_Z..].
  split; [by apply show_address_inj|]. split; [by apply (inj pretty)|by apply (inj pretty)].
Qed.

Record PoolPosition : Type := mkPoolPosition {
  pq_owner : Z;
  pq_tick_lower : Z;
  pq_tick_upper : Z;
  pq_liquidity : Z;
  pq_fee_growth_inside_0_last : Z;
  pq_fee_growth_inside_1_last : Z;
  pq_tokens_owed_0 : Z;
  pq_tokens_owed_1 : Z;
  pq_total_amount0_deposited : Z;
  pq_total_amount1_deposited : Z;
  pq_total_amount0_collected : Z;
  pq_total_amount1_collected : Z;
}.

#[global] Instance eta_pool_position : Eta PoolPosition :=
  fun p => mkPoolPosition (pq_owner p) (pq_tick_lower p) (pq_tick_upper p) (pq_liquidity p)
    (pq_fee_growth_inside_0_last p) (pq_fee_growth_inside_1_last p) (pq_tokens_owed_0 p) (pq_tokens_owed_1 p)
    (pq_total_amount0_deposited p) (pq_total_amount1_deposited p)
    (pq_total_amount0_collected p) (pq_total_amount1_collected p).

Definition pool_position_new (owner tick_lower tick_upper liquidity : Z) : PoolPosition :=
  mkPoolPosition owner tick_lower tick_upper (Z.abs liquidity) 0 0 0 0 0 0 0 0.

Definition position_update_liquidity (self : PoolPosition) (liquidity_delta : Z) : PoolPosition :=
  if liquidity_delta <? 0
  then self <| pq_liquidity := saturate U128 (pq_liquidity self - wrap U128 (wrap I128 (- liquidity_delta))) |>
  else self <| pq_liquidity := saturate U128 (pq_liquidity self + liquidity_delta) |>.

(** [U256::saturating_sub] *)
Definition u256_saturating_sub (a b : Z) : Z := saturate U256 (a - b).

Definition Q128 : Z := 2 ^ 128.

Section position.
Context {UL : U256Lib}.

Definition position_update_fees (self : PoolPosition) (fee_growth_inside_0 fee_growth_inside_1 : Z)
  : outcome unit PoolPosition :=
  self ←
    (if 0 <? pq_liquidity self
     then
       let fee_delta_0 := u256_saturating_sub fee_growth_inside_0 (pq_fee_growth_inside_0_last self) in
       let fee_delta_1 := u256_saturating_sub fee_growth_inside_1 (pq_fee_growth_inside_1_last self) in
       tokens_owed_0_full ← or_zero (mul_div fee_delta_0 (pq_liquidity self) Q128);
       tokens_owed_1_full ← or_zero (mul_div fee_delta_1 (pq_liquidity self) Q128);
       Ok (self
         <| pq_tokens_owed_0 := wrap U128 (pq_tokens_owed_0 self + truncate_to_u128 tokens_owed_0_full) |>
         <| pq_tokens_owed_1 := wrap U128 (pq_tokens_owed_1 self + truncate_to_u128 tokens_owed_1_full) |>)
     else Ok self);
  Ok (self <| pq_fee_growth_inside_0_last := fee_growth_inside_0 |>
           <| pq_fee_growth_inside_1_last := fee_growth_inside_1 |>).

Definition position_collect_fees (self : PoolPosition) (amount0 amount1 : Z) : PoolPosition :=
  let collect_amount_0 := Z.min amount0 (pq_tokens_owed_0 self) in
  let collect_amount_1 := Z.min amount1 (pq_tokens_owed_1 self) in
  self <| pq_tokens_owed_0 := wrap U128 (pq_tokens_owed_0 self - collect_amount_0) |>
       <| pq_tokens_owed_1 := wrap U128 (pq_tokens_owed_1 self - collect_amount_1) |>
       <| pq_total_amount0_collected := wrap U128 (pq_total_amount0_collected self + collect_amount_0) |>
       <| pq_total_amount1_collected := wrap U128 (pq_total_amount1_collected self + collect_amount_1) |>.

Definition position_update_amounts (self : PoolPosition) (liquidity_delta amount0 amount1 : Z) : PoolPosition :=
  if 0 <? liquidity_delta
  then self <| pq_total_amount0_deposited := u_add (pq_total_amount0_deposited self) amount0 |>
            <| pq_total_amount1_deposited := u_add (pq_total_amount1_deposited self) amount1 |>
  else self <| pq_tokens_owed_0 := wrap U128 (pq_tokens_owed_0 self + truncate_to_u128 amount0) |>
            <| pq_tokens_owed_1 := wrap U128 (pq_tokens_owed_1 self + truncate_to_u128 amount1) |>.

Definition position_is_empty (self : PoolPosition) : bool :=
  (pq_liquidity self =? 0) && (pq_tokens_owed_0 self =? 0) && (pq_tokens_owed_1 self =? 0).
End position.

(** ** Quotes *)

Record CrossedTick : Type := mkCrossedTick {
  cr_tick : Z;
  cr_zero_for_one : bool;
  cr_fee_growth_0 : Z;
  cr_fee_growth_1 : Z;
}.

Record SwapQuote : Type := mkSwapQuote {
  sq_amount0 : Z;
  sq_amount1 : Z;
  sq_sqrt_price_before_x96 : Z;
  sq_sqrt_price_after_x96 : Z;
  sq_tick_before : Z;
  sq_tick_after : Z;
  sq_liquidity_after : Z;
  sq_fee_growth_global_after : Z;
  sq_lp_fee : Z;
  sq_protocol_fee : Z;
  sq_crossed_ticks : list CrossedTick;
}.

Definition quote_zero_for_one (self : SwapQuote) : bool := 0 <? sq_amount0 self.

Definition get_output_amount (self : SwapQuote) : Z :=
  if quote_zero_for_one self then Z.abs (sq_amount1 self) else Z.abs (sq_amount0 self).
Definition get_input_amount (self : SwapQuote) : Z :=
  if quote_zero_for_one self then Z.abs (sq_amount0 self) else Z.abs (sq_amount1 self).

Definition validate_exact_output (self : SwapQuote) (amount_out_requested : Z) : outcome unit unit :=
  err_if (get_output_amount self <? amount_out_requested) tt.

Section quote.
Context {UL : U256Lib}.
Definition total_fee (self : SwapQuote) : Z := u_add (sq_lp_fee self) (sq_protocol_fee self).

(** [to::<u32>()] panics when the value does not fit. *)
Definition get_effective_fee_bps (self : SwapQuote) : outcome unit Z :=
  let input_amount := get_input_amount self in
  if input_amount =? 0 then Ok 0
  else
    fee_bps ← or_zero (mul_div (total_fee self) 10000 input_amount);
    expect (checked U32 fee_bps).
End quote.

(** ** The profiler *)

Record PoolState : Type := mkPoolState {
  po_current_tick : Z;
  po_price_sqrt_ratio_x96 : Z;
  po_liquidity : Z;
  po_protocol_fees_token0 : Z;
  po_protocol_fees_token1 : Z;
  po_fee_protocol : Z;
  po_fee_growth_global_0 : Z;
  po_fee_growth_global_1 : Z;
}.

#[global] Instance eta_pool_state : Eta PoolState :=
  fun s => mkPoolState (po_current_tick s) (po_price_sqrt_ratio_x96 s) (po_liquidity s) (po_protocol_fees_token0 s)
    (po_protocol_fees_token1 s) (po_fee_protocol s) (po_fee_growth_global_0 s) (po_fee_growth_global_1 s).

Definition pool_state_default : PoolState := mkPoolState 0 0 0 0 0 0 0 0.

Record PoolAnalytics : Type := mkPoolAnalytics {
  an_total_amount0_deposited : Z;
  an_total_amount1_deposited : Z;
  an_total_amount0_collected : Z;
  an_total_amount1_collected : Z;
  an_total_swaps : Z;
  an_total_mints : Z;
  an_total_burns : Z;
  an_total_fee_collects : Z;
  an_total_flashes : Z;
  an_liquidity_utilization_rate : F64.f64;
}.

#[global] Instance eta_pool_analytics : Eta PoolAnalytics :=
  fun a => mkPoolAnalytics (an_total_amount0_deposited a) (an_total_amount1_deposited a)
    (an_total_amount0_collected a) (an_total_amount1_collected a) (an_total_swaps a) (an_total_mints a)
    (an_total_burns a) (an_total_fee_collects a) (an_total_flashes a) (an_liquidity_utilization_rate a).

Definition pool_analytics_default : PoolAnalytics := mkPoolAnalytics 0 0 0 0 0 0 0 0 0 (F64.of_Z 0).

(** The fields of a pool's definition the profiler reads. *)
Record PoolDef : Type := mkPoolDef {
  pd_fee : option Z;
  pd_tick_spacing : option Z;
  pd_initial_tick : option Z;
}.

Record BlockPosition : Type := mkBlockPosition {
  bl_number : Z;
  bl_transaction_hash : string;
  bl_transaction_index : Z;
  bl_log_index : Z;
}.

Section profiler.
Context {UL : U256Lib} {AF : AddressFmt}.

Record PoolProfiler : Type := mkProfiler {
  pf_pool : PoolDef;
  pf_positions : gmap string PoolPosition;
  pf_tick_map : TickMap;
  pf_state : PoolState;
  pf_analytics : PoolAnalytics;
  pf_last_processed_event : option BlockPosition;
  pf_is_initialized : bool;
}.

#[global] Instance eta_pool_profiler : Eta PoolProfiler :=
  fun p => mkProfiler (pf_pool p) (pf_positions p) (pf_tick_map p) (pf_state p) (pf_analytics p)
    (pf_last_processed_event p) (pf_is_initialized p).

Implicit Type self : PoolProfiler.

Definition profiler_new (pool : PoolDef) : outcome unit PoolProfiler :=
  tick_spacing ← expect (pd_tick_spacing pool);
  tick_map ← tick_map_new tick_spacing;
  Ok (mkProfiler pool ∅ tick_map pool_state_default pool_analytics_default None false).

Definition profiler_initialize self (price_sqrt_ratio_x96 : Z) : outcome unit PoolProfiler :=
  _ ← assert_ (negb (pf_is_initialized self));
  calculated_tick ← get_tick_at_sqrt_ratio price_sqrt_ratio_x96;
  _ ← match pd_initial_tick (pf_pool self) with
      | Some initial_tick => assert_ (initial_tick =? calculated_tick)
      | None => Ok tt
      end;
  Ok (self <| pf_state := (pf_state self) <| po_current_tick := calculated_tick |>
                                        <| po_price_sqrt_ratio_x96 := price_sqrt_ratio_x96 |> |>
           <| pf_is_initialized := true |>).

Definition check_if_initialized self : outcome unit unit := assert_ (pf_is_initialized self).

Definition check_if_already_processed self (block tx_idx log_idx : Z) : bool :=
  match pf_last_processed_event self with
  | Some last_event =>
      (block <? bl_number last_event)
      || ((block =? bl_number last_event) && (tx_idx <? bl_transaction_index last_event))
      || ((block =? bl_number last_event) && (tx_idx =? bl_transaction_index last_event)
          && (log_idx <=? bl_log_index last_event))
  | None => false
  end.

(** *** Swaps *)

(** The local variables of the simulation. *)
Record SwapLoop : Type := mkSwapLoop {
  lp_sqrt_price : Z;
  lp_tick : Z;
  lp_active_liquidity : Z;
  lp_remaining : Z;
  lp_calculated : Z;
  lp_protocol_fee : Z;
  lp_lp_fee : Z;
  lp_crossed : list CrossedTick;
  lp_fee_growth : Z;
}.

(** [tick.clamp(MIN_TICK, MAX_TICK)] *)
Definition clamp_tick (t : Z) : Z := Z.max MIN_TICK (Z.min MAX_TICK t).

Definition swap_protocol_share (fee_protocol fee_amount : Z) : outcome unit Z :=
  if 0 <? fee_protocol then div_checked fee_amount fee_protocol else Ok 0.

(** The tick and the liquidity after a step that ended at [sqrt_price_next]. *)
Definition cross_into self (zero_for_one initialized : bool) (tick_next fee_growth : Z) (st : SwapLoop)
  : outcome unit (Z * Z * list CrossedTick) :=
  res ←
    (if initialized
     then
       let crossed := lp_crossed st ++
         [mkCrossedTick tick_next zero_for_one
            (if zero_for_one then fee_growth else po_fee_growth_global_0 (pf_state self))
            (if zero_for_one then po_fee_growth_global_1 (pf_state self) else fee_growth)] in
       match get_tick (pf_tick_map self) tick_next with
       | Some tick_data =>
           let liquidity_net := pt_liquidity_net tick_data in
           liquidity ← liquidity_math_add (lp_active_liquidity st)
                         (if zero_for_one then wrap I128 (- liquidity_net) else liquidity_net);
           Ok (liquidity, crossed)
       | None => Ok (lp_active_liquidity st, crossed)
       end
     else Ok (lp_active_liquidity st, lp_crossed st));
  let '(liquidity, crossed) := res in
  Ok (if zero_for_one then wrap I32 (tick_next - 1) else tick_next, liquidity, crossed).

(** One turn of the loop. *)
Definition swap_turn self (exact_input zero_for_one : bool) (sqrt_price_limit_x96 fee_tier fee_protocol : Z)
  (st : SwapLoop) : outcome unit SwapLoop :=
  let '(tick_next, initialized) := next_initialized_tick (pf_tick_map self) (lp_tick st) zero_for_one in
  let tick_next := clamp_tick tick_next in
  sqrt_price_next ← get_sqrt_ratio_at_tick tick_next;
  let sqrt_price_target :=
    if (zero_for_one && (sqrt_price_next <? sqrt_price_limit_x96))
       || (negb zero_for_one && (sqrt_price_limit_x96 <? sqrt_price_next))
    then sqrt_price_limit_x96 else sqrt_price_next in
  step ← compute_swap_step (lp_sqrt_price st) sqrt_price_target (lp_active_liquidity st) (lp_remaining st) fee_tier;
  let current_sqrt_price := ss_sqrt_ratio_next_x96 step in
  let spent := truncate_to_i256 (u_add (ss_amount_in step) (ss_fee_amount step)) in
  let got := truncate_to_i256 (ss_amount_out step) in
  let '(remaining, calculated) :=
    if exact_input
    then (wrap I256 (lp_remaining st - spent), wrap I256 (lp_calculated st - got))
    else (wrap I256 (lp_remaining st + got), wrap I256 (lp_calculated st + spent)) in
  protocol_fee_delta ← swap_protocol_share fee_protocol (ss_fee_amount step);
  let step_fee_amount := u_sub (ss_fee_amount step) protocol_fee_delta in
  let protocol_fee := u_add (lp_protocol_fee st) protocol_fee_delta in
  let lp_fee := u_add (lp_lp_fee st) step_fee_amount in
  fee_growth ←
    (if 0 <? lp_active_liquidity st
     then
       fee_growth_delta ← mul_div step_fee_amount Q128 (lp_active_liquidity st);
       Ok (u_add (lp_fee_growth st) fee_growth_delta)
     else Ok (lp_fee_growth st));
  place ←
    (if current_sqrt_price =? sqrt_price_next
     then cross_into self zero_for_one initialized tick_next fee_growth st
     else if negb (current_sqrt_price =? lp_sqrt_price st)
     then
       tick ← get_tick_at_sqrt_ratio current_sqrt_price;
       Ok (tick, lp_active_liquidity st, lp_crossed st)
     else Ok (lp_tick st, lp_active_liquidity st, lp_crossed st));
  let '(tick, liquidity, crossed) := place in
  Ok (mkSwapLoop current_sqrt_price tick liquidity remaining calculated protocol_fee lp_fee crossed fee_growth).

(** The loop; [None] when the fuel runs out. *)
Fixpoint swap_loop (fuel : nat) self (exact_input zero_for_one : bool)
  (sqrt_price_limit_x96 fee_tier fee_protocol : Z) (st : SwapLoop) : option (outcome unit SwapLoop) :=
  match fuel with
  | O => None
  | S fuel =>
      if negb (lp_remaining st =? 0) && negb (sqrt_price_limit_x96 =? lp_sqrt_price st)
      then
        match swap_turn self exact_input zero_for_one sqrt_price_limit_x96 fee_tier fee_protocol st with
        | Ok st => swap_loop fuel self exact_input zero_for_one sqrt_price_limit_x96 fee_tier fee_protocol st
        | r => Some r
        end
      else Some (Ok st)
  end.

Definition swap_start self (amount_specified : Z) (zero_for_one : bool) : SwapLoop :=
  let s := pf_state self in
  mkSwapLoop (po_price_sqrt_ratio_x96 s) (po_current_tick s) (tm_liquidity (pf_tick_map self)) amount_specified 0 0 0 []
    (if zero_for_one then po_fee_growth_global_0 s else po_fee_growth_global_1 s).

Definition swap_quote_of self (amount_specified : Z) (exact_input zero_for_one : bool) (st : SwapLoop) : SwapQuote :=
  let used := wrap I256 (amount_specified - lp_remaining st) in
  let '(amount0, amount1) :=
    if Bool.eqb zero_for_one exact_input then (used, lp_calculated st) else (lp_calculated st, used) in
  mkSwapQuote amount0 amount1 (po_price_sqrt_ratio_x96 (pf_state self)) (lp_sqrt_price st)
    (po_current_tick (pf_state self)) (lp_tick st) (lp_active_liquidity st) (lp_fee_growth st)
    (lp_lp_fee st) (lp_protocol_fee st) (lp_crossed st).

(** [fee_protocol % 16] for token 0, [>> 4] for token 1 *)
Definition swap_fee_protocol self (zero_for_one : bool) : Z :=
  if zero_for_one then po_fee_protocol (pf_state self) mod 16 else po_fee_protocol (pf_state self) / 16.

Definition simulate_swap_through_ticks (fuel : nat) self (amount_specified : Z) (zero_for_one : bool)
  (sqrt_price_limit_x96 : Z) : option (outcome unit SwapQuote) :=
  let exact_input := 0 <? amount_specified in
  match pd_fee (pf_pool self) with
  | None => Some Panic
  | Some fee_tier =>
      fmap (M := option) (fmap (M := outcome unit) (swap_quote_of self amount_specified exact_input zero_for_one))
        (swap_loop fuel self exact_input zero_for_one sqrt_price_limit_x96 fee_tier
           (swap_fee_protocol self zero_for_one) (swap_start self amount_specified zero_for_one))
  end.

Definition apply_crossings (tick_map : TickMap) (crossed : list CrossedTick) : outcome unit TickMap :=
  foldl (fun acc c =>
    tick_map ← acc;
    let '(liquidity_net, tick_map) := cross_tick tick_map (cr_tick c) (cr_fee_growth_0 c) (cr_fee_growth_1 c) in
    liquidity ← liquidity_math_add (tm_liquidity tick_map)
                  (if cr_zero_for_one c then wrap I128 (- liquidity_net) else liquidity_net);
    Ok (mkTickMap (tm_ticks tick_map) (tm_tick_bitmap tick_map) liquidity (tm_max_liquidity_per_tick tick_map)))
    (Ok tick_map) crossed.

Definition apply_swap_quote self (swap_quote : SwapQuote) : outcome unit PoolProfiler :=
  let s := (pf_state self) <| po_current_tick := sq_tick_after swap_quote |>
                         <| po_price_sqrt_ratio_x96 := sq_sqrt_price_after_x96 swap_quote |> in
  let s :=
    if quote_zero_for_one swap_quote
    then s <| po_fee_growth_global_0 := sq_fee_growth_global_after swap_quote |>
           <| po_protocol_fees_token0 := u_add (po_protocol_fees_token0 s) (sq_protocol_fee swap_quote) |>
    else s <| po_fee_growth_global_1 := sq_fee_growth_global_after swap_quote |>
           <| po_protocol_fees_token1 := u_add (po_protocol_fees_token1 s) (sq_protocol_fee swap_quote) |> in
  tick_map ← apply_crossings (pf_tick_map self) (sq_crossed_ticks swap_quote);
  Ok (self <| pf_state := s |> <| pf_tick_map := tick_map |>
           <| pf_analytics := (pf_analytics self) <| an_total_swaps := wrap U64 (an_total_swaps (pf_analytics self) + 1) |> |>).

Definition validate_price_limit self (limit_price_sqrt : Z) (zero_for_one : bool) : outcome unit unit :=
  if zero_for_one
  then err_if (po_price_sqrt_ratio_x96 (pf_state self) <=? limit_price_sqrt) tt
  else err_if (limit_price_sqrt <=? po_price_sqrt_ratio_x96 (pf_state self)) tt.

Definition quote_swap (fuel : nat) self (amount_specified : Z) (zero_for_one : bool) (sqrt_price_limit_x96 : option Z)
  : option (outcome unit SwapQuote) :=
  let checks :=
    _ ← check_if_initialized self;
    _ ← err_if (amount_specified =? 0) tt;
    match sqrt_price_limit_x96 with
    | Some price_limit => validate_price_limit self price_limit zero_for_one
    | None => Ok tt
    end in
  match checks with
  | Ok _ =>
      let limit :=
        match sqrt_price_limit_x96 with
        | Some price_limit => price_limit
        | None => if zero_for_one then MIN_SQRT_RATIO + 1 else MAX_SQRT_RATIO - 1
        end in
      simulate_swap_through_ticks fuel self amount_specified zero_for_one limit
  | Err e => Some (Err e)
  | Panic => Some Panic
  end.

(** [I256::from(amount)] panics when the amount does not fit. *)
Definition swap_exact_in (fuel : nat) self (amount_in : Z) (zero_for_one : bool) (limit : option Z)
  : option (outcome unit SwapQuote) :=
  if in_ty I256 amount_in then quote_swap fuel self amount_in zero_for_one limit else Some Panic.

Definition swap_exact_out (fuel : nat) self (amount_out : Z) (zero_for_one : bool) (limit : option Z)
  : option (outcome unit SwapQuote) :=
  if in_ty I256 amount_out
  then fmap (M := option) (fun r => quote ← r; _ ← validate_exact_output quote amount_out; Ok quote)
         (quote_swap fuel self (- amount_out) zero_for_one limit)
  else Some Panic.

Definition swap_to_lower_sqrt_price (fuel : nat) self (limit : Z) : option (outcome unit SwapQuote) :=
  quote_swap fuel self (imax I256) true (Some limit).
Definition swap_to_higher_sqrt_price (fuel : nat) self (limit : Z) : option (outcome unit SwapQuote) :=
  quote_swap fuel self (imax I256) false (Some limit).

(** The state after the swap and the amounts the returned event carries. *)
Definition execute_swap (fuel : nat) self (zero_for_one : bool) (amount_specified sqrt_price_limit_x96 : Z)
  : option (outcome unit (PoolProfiler * SwapQuote)) :=
  if pf_is_initialized self
  then
    fmap (M := option) (fun r => quote ← r; self ← apply_swap_quote self quote; Ok (self, quote))
      (simulate_swap_through_ticks fuel self amount_specified zero_for_one sqrt_price_limit_x96)
  else Some Panic.

(** *** Liquidity *)

Definition validate_ticks self (tick_lower tick_upper : Z) : outcome unit unit :=
  _ ← err_if (tick_upper <=? tick_lower) tt;
  spacing ← expect (pd_tick_spacing (pf_pool self));
  let spacing := wrap I32 spacing in
  _ ← assert_ (negb (spacing =? 0));
  _ ← err_if (negb (Z.rem tick_lower spacing =? 0) || negb (Z.rem tick_upper spacing =? 0)) tt;
  err_if ((tick_lower <? MIN_TICK) || (MAX_TICK <? tick_upper)) tt.

Definition with_liquidity (tick_map : TickMap) (liquidity : Z) : TickMap :=
  mkTickMap (tm_ticks tick_map) (tm_tick_bitmap tick_map) liquidity (tm_max_liquidity_per_tick tick_map).

(** The part of [update_pool_position] after the burn check. *)
Definition apply_position_delta self (key : string) (position : PoolPosition)
  (tick_lower tick_upper liquidity_delta amount0 amount1 : Z) : outcome unit PoolProfiler :=
  let s := pf_state self in
  let current_tick := po_current_tick s in
  lower ← tick_map_update (pf_tick_map self) tick_lower current_tick liquidity_delta false
            (po_fee_growth_global_0 s) (po_fee_growth_global_1 s);
  let '(flipped_lower, tick_map) := lower in
  upper ← tick_map_update tick_map tick_upper current_tick liquidity_delta true
            (po_fee_growth_global_0 s) (po_fee_growth_global_1 s);
  let '(flipped_upper, tick_map) := upper in
  let '((fee_growth_inside_0, fee_growth_inside_1), tick_map) :=
    get_fee_growth_inside tick_map tick_lower tick_upper current_tick
      (po_fee_growth_global_0 s) (po_fee_growth_global_1 s) in
  let position := position_update_liquidity position liquidity_delta in
  position ← position_update_fees position fee_growth_inside_0 fee_growth_inside_1;
  let position := position_update_amounts position liquidity_delta amount0 amount1 in
  tick_map ←
    (if (tick_lower <=? current_tick) && (current_tick <? tick_upper)
     then fmap (M := outcome unit) (with_liquidity tick_map) (liquidity_math_add (tm_liquidity tick_map) liquidity_delta)
     else Ok tick_map);
  let tick_map := if (liquidity_delta <? 0) && flipped_lower then tick_map_clear tick_map tick_lower else tick_map in
  let tick_map := if (liquidity_delta <? 0) && flipped_upper then tick_map_clear tick_map tick_upper else tick_map in
  Ok (self <| pf_positions := <[key := position]> (pf_positions self) |> <| pf_tick_map := tick_map |>).

(** The entry for the position is created before the burn is checked, so that a
    refused burn leaves it behind. *)
Definition update_pool_position self (owner tick_lower tick_upper liquidity_delta amount0 amount1 : Z)
  : PoolProfiler * outcome unit unit :=
  let key := get_position_key owner tick_lower tick_upper in
  let position := default (pool_position_new owner tick_lower tick_upper 0) (pf_positions self !! key) in
  let self := self <| pf_positions := <[key := position]> (pf_positions self) |> in
  if (liquidity_delta <? 0) && (pq_liquidity position <? Z.abs liquidity_delta) then (self, Err tt)
  else
    match apply_position_delta self key position tick_lower tick_upper liquidity_delta amount0 amount1 with
    | Ok self => (self, Ok tt)
    | Err e => (self, Err e)
    | Panic => (self, Panic)
    end.

(** Continue after a call that may have changed the state. *)
Definition and_then (r : PoolProfiler * outcome unit unit) (f : PoolProfiler -> PoolProfiler * outcome unit unit)
  : PoolProfiler * outcome unit unit :=
  match r with
  | (self, Ok _) => f self
  | (self, e) => (self, e)
  end.

Definition on_analytics self (f : PoolAnalytics -> PoolAnalytics) : PoolProfiler :=
  self <| pf_analytics := f (pf_analytics self) |>.

Definition add_liquidity self (owner tick_lower tick_upper liquidity amount0 amount1 : Z)
  : PoolProfiler * outcome unit unit :=
  match checked I128 liquidity with
  | None => (self, Err tt)
  | Some liquidity_delta =>
      and_then (update_pool_position self owner tick_lower tick_upper liquidity_delta amount0 amount1) (fun self =>
        (on_analytics self (fun a =>
           a <| an_total_amount0_deposited := u_add (an_total_amount0_deposited a) amount0 |>
             <| an_total_amount1_deposited := u_add (an_total_amount1_deposited a) amount1 |>), Ok tt))
  end.

Definition count_mint (a : PoolAnalytics) : PoolAnalytics := a <| an_total_mints := wrap U64 (an_total_mints a + 1) |>.
Definition count_burn (a : PoolAnalytics) : PoolAnalytics := a <| an_total_burns := wrap U64 (an_total_burns a + 1) |>.

(** Run a check that does not change the state. *)
Definition guard self (r : outcome unit unit) (f : PoolProfiler * outcome unit unit) : PoolProfiler * outcome unit unit :=
  match r with
  | Ok _ => f
  | e => (self, e)
  end.

Definition execute_mint self (recipient tick_lower tick_upper liquidity : Z) : PoolProfiler * outcome unit unit :=
  guard self (check_if_initialized self) (
  guard self (validate_ticks self tick_lower tick_upper) (
  match get_amounts_for_liquidity (po_price_sqrt_ratio_x96 (pf_state self)) tick_lower tick_upper liquidity true with
  | Ok (amount0, amount1) =>
      and_then (add_liquidity self recipient tick_lower tick_upper liquidity amount0 amount1) (fun self =>
        (on_analytics self count_mint, Ok tt))
  | Err e => (self, Err e)
  | Panic => (self, Panic)
  end)).

Definition execute_burn self (recipient tick_lower tick_upper liquidity : Z) : PoolProfiler * outcome unit unit :=
  guard self (check_if_initialized self) (
  guard self (validate_ticks self tick_lower tick_upper) (
  match get_amounts_for_liquidity (po_price_sqrt_ratio_x96 (pf_state self)) tick_lower tick_upper liquidity false with
  | Ok (amount0, amount1) =>
      match checked I128 liquidity with
      | None => (self, Err tt)
      | Some liquidity_delta =>
          and_then (update_pool_position self recipient tick_lower tick_upper (wrap I128 (- liquidity_delta)) amount0 amount1)
            (fun self => (on_analytics self count_burn, Ok tt))
      end
  | Err e => (self, Err e)
  | Panic => (self, Panic)
  end)).

(** *** Liquidity queries *)

Definition get_active_liquidity self : Z := tm_liquidity (pf_tick_map self).

Definition spans (tick : Z) (position : PoolPosition) : bool :=
  (0 <? pq_liquidity position) && (pq_tick_lower position <=? tick) && (tick <? pq_tick_upper position).

(** [filter(..).map(..).sum()] over the positions, in any order; [u128] addition wraps. *)
Definition get_total_liquidity_from_active_positions self : Z :=
  map_fold (fun _ position acc =>
    if spans (po_current_tick (pf_state self)) position then wrap U128 (acc + pq_liquidity position) else acc)
    0 (pf_positions self).

Definition get_total_liquidity self : Z :=
  map_fold (fun _ position acc => u_add acc (pq_liquidity position)) 0 (pf_positions self).

(** [to::<u64>()] panics when the value does not fit. *)
Definition liquidity_utilization_rate self : outcome unit F64.f64 :=
  let total_liquidity := get_total_liquidity self in
  if total_liquidity =? 0 then Ok (F64.of_Z 0)
  else
    ratio ← or_zero (mul_div (get_active_liquidity self) 1000000 total_liquidity);
    ratio ← expect (checked U64 ratio);
    Ok (F64.div (F64.of_Z ratio) (F64.of_Z 1000000)).

Definition update_liquidity_analytics self : PoolProfiler * outcome unit unit :=
  match liquidity_utilization_rate self with
  | Ok rate => (on_analytics self (fun a => a <| an_liquidity_utilization_rate := rate |>), Ok tt)
  | Err e => (self, Err e)
  | Panic => (self, Panic)
  end.

(** *** Events *)

(** The common end of the event handlers. *)
Definition finish_event self (position : BlockPosition) : PoolProfiler * outcome unit unit :=
  update_liquidity_analytics (self <| pf_last_processed_event := Some position |>).

(** The common start: an event at or before the last one is skipped. *)
Definition start_event self (at_ : BlockPosition) (f : PoolProfiler * outcome unit unit) : PoolProfiler * outcome unit unit :=
  guard self (check_if_initialized self) (
  if check_if_already_processed self (bl_number at_) (bl_transaction_index at_) (bl_log_index at_) then (self, Ok tt)
  else f).

Definition process_mint self (at_ : BlockPosition) (owner tick_lower tick_upper liquidity amount0 amount1 : Z)
  : PoolProfiler * outcome unit unit :=
  start_event self at_ (
  guard self (validate_ticks self tick_lower tick_upper) (
  and_then (add_liquidity self owner tick_lower tick_upper liquidity amount0 amount1) (fun self =>
  finish_event (on_analytics self count_mint) at_))).

Definition process_burn self (at_ : BlockPosition) (owner tick_lower tick_upper liquidity amount0 amount1 : Z)
  : PoolProfiler * outcome unit unit :=
  start_event self at_ (
  guard self (validate_ticks self tick_lower tick_upper) (
  match checked I128 liquidity with
  | None => (self, Err tt)
  | Some liquidity_delta =>
      and_then (update_pool_position self owner tick_lower tick_upper (wrap I128 (- liquidity_delta)) amount0 amount1) (fun self =>
      finish_event (on_analytics self count_burn) at_)
  end)).

Definition cleanup_position_if_empty self (key : string) : PoolProfiler :=
  match pf_positions self !! key with
  | Some position =>
      if position_is_empty position then self <| pf_positions := delete key (pf_positions self) |> else self
  | None => self
  end.

Definition process_collect self (at_ : BlockPosition) (owner tick_lower tick_upper amount0 amount1 : Z)
  : PoolProfiler * outcome unit unit :=
  start_event self at_ (
  let key := get_position_key owner tick_lower tick_upper in
  let self :=
    self <| pf_positions := alter (fun position => position_collect_fees position amount0 amount1) key (pf_positions self) |> in
  let self := cleanup_position_if_empty self key in
  let self := on_analytics self (fun a =>
    a <| an_total_amount0_collected := u_add (an_total_amount0_collected a) amount0 |>
      <| an_total_amount1_collected := u_add (an_total_amount1_collected a) amount1 |>
      <| an_total_fee_collects := wrap U64 (an_total_fee_collects a + 1) |>) in
  finish_event self at_).

(** The fees of one token of a flash loan: the protocol's fees with its share,
    and the growth of the fees per unit of liquidity. *)
Definition flash_fees (fee_protocol paid liquidity protocol_fees fee_growth : Z) : Z * outcome unit Z :=
  if 0 <? paid
  then
    let protocol_fee := if 0 <? fee_protocol then u_div paid fee_protocol else 0 in
    let protocol_fees := if 0 <? protocol_fee then u_add protocol_fees protocol_fee else protocol_fees in
    let lp_fee := u_sub paid protocol_fee in
    (protocol_fees, delta ← mul_div lp_fee Q128 liquidity; Ok (u_add fee_growth delta))
  else (protocol_fees, Ok fee_growth).

(** What was booked before an error stays booked. *)
Definition update_flash_state self (paid0 paid1 : Z) : PoolProfiler * outcome unit unit :=
  let liquidity := tm_liquidity (pf_tick_map self) in
  if liquidity =? 0 then (self, Err tt)
  else
    let s := pf_state self in
    let '(protocol_fees, growth) :=
      flash_fees (po_fee_protocol s mod 16) paid0 liquidity (po_protocol_fees_token0 s) (po_fee_growth_global_0 s) in
    let s := s <| po_protocol_fees_token0 := protocol_fees |> in
    match growth with
    | Ok fee_growth =>
        let s := s <| po_fee_growth_global_0 := fee_growth |> in
        let '(protocol_fees, growth) :=
          flash_fees (po_fee_protocol s / 16) paid1 liquidity (po_protocol_fees_token1 s) (po_fee_growth_global_1 s) in
        let s := s <| po_protocol_fees_token1 := protocol_fees |> in
        match growth with
        | Ok fee_growth => (self <| pf_state := s <| po_fee_growth_global_1 := fee_growth |> |>, Ok tt)
        | Err e => (self <| pf_state := s |>, Err e)
        | Panic => (self <| pf_state := s |>, Panic)
        end
    | Err e => (self <| pf_state := s |>, Err e)
    | Panic => (self <| pf_state := s |>, Panic)
    end.

Definition count_flash (a : PoolAnalytics) : PoolAnalytics := a <| an_total_flashes := wrap U64 (an_total_flashes a + 1) |>.

Definition process_flash self (at_ : BlockPosition) (paid0 paid1 : Z) : PoolProfiler * outcome unit unit :=
  start_event self at_ (
  and_then (update_flash_state self paid0 paid1) (fun self => finish_event (on_analytics self count_flash) at_)).

Definition flash_paid (amount fee_tier : Z) : outcome unit Z :=
  if 0 <? amount then mul_div_rounding_up amount fee_tier 1000000 else Ok 0.

Definition execute_flash self (amount0 amount1 : Z) : PoolProfiler * outcome unit unit :=
  guard self (check_if_initialized self) (
  match (fee_tier ← expect (pd_fee (pf_pool self));
         paid0 ← flash_paid amount0 fee_tier; paid1 ← flash_paid amount1 fee_tier; Ok (paid0, paid1)) with
  | Ok (paid0, paid1) =>
      and_then (update_flash_state self paid0 paid1) (fun self => (on_analytics self count_flash, Ok tt))
  | Err e => (self, Err e)
  | Panic => (self, Panic)
  end).

(** [process_swap]: the swap is simulated to the event's price; tick and
    liquidity are then set to the event's. *)
Definition process_swap (fuel : nat) self (at_ : BlockPosition)
  (swap_amount0 swap_amount1 swap_sqrt_price_x96 swap_tick swap_liquidity : Z)
  : option (PoolProfiler * outcome unit unit) :=
  if negb (pf_is_initialized self) then Some (self, Panic)
  else if check_if_already_processed self (bl_number at_) (bl_transaction_index at_) (bl_log_index at_)
  then Some (self, Ok tt)
  else
    let zero_for_one := 0 <? swap_amount0 in
    let amount_specified := if zero_for_one then swap_amount0 else swap_amount1 in
    match simulate_swap_through_ticks fuel self amount_specified zero_for_one swap_sqrt_price_x96 with
    | None => None
    | Some (Err e) => Some (self, Err e)
    | Some Panic => Some (self, Panic)
    | Some (Ok swap_quote) =>
        match apply_swap_quote self swap_quote with
        | Ok self =>
            let self := self <| pf_state := (pf_state self) <| po_current_tick := swap_tick |> |>
                             <| pf_tick_map := with_liquidity (pf_tick_map self) swap_liquidity |> in
            Some (finish_event self at_)
        | Err e => Some (self, Err e)
        | Panic => Some (self, Panic)
        end
    end.

(** The data of an event; where it happened is given with it. *)
Inductive PoolEvent : Type :=
  | EvSwap (amount0 amount1 sqrt_price_x96 tick liquidity : Z)
  | EvMint (owner tick_lower tick_upper position_liquidity amount0 amount1 : Z)
  | EvBurn (owner tick_lower tick_upper position_liquidity amount0 amount1 : Z)
  | EvFeeCollect (owner tick_lower tick_upper amount0 amount1 : Z)
  | EvFlash (paid0 paid1 : Z).

Definition process_pool_event (fuel : nat) self (at_ : BlockPosition) (event : PoolEvent)
  : option (PoolProfiler * outcome unit unit) :=
  if check_if_already_processed self (bl_number at_) (bl_transaction_index at_) (bl_log_index at_)
  then Some (self, Ok tt)
  else
    match event with
    | EvSwap amount0 amount1 price tick liquidity => process_swap fuel self at_ amount0 amount1 price tick liquidity
    | EvMint owner lower upper liquidity amount0 amount1 =>
        Some (process_mint self at_ owner lower upper liquidity amount0 amount1)
    | EvBurn owner lower upper liquidity amount0 amount1 =>
        Some (process_burn self at_ owner lower upper liquidity amount0 amount1)
    | EvFeeCollect owner lower upper amount0 amount1 =>
        Some (process_collect self at_ owner lower upper amount0 amount1)
    | EvFlash paid0 paid1 => Some (process_flash self at_ paid0 paid1)
    end.

Definition set_fee_growth_global self (fee_growth_global_0 fee_growth_global_1 : Z) : PoolProfiler :=
  self <| pf_state := (pf_state self) <| po_fee_growth_global_0 := fee_growth_global_0 |>
                                    <| po_fee_growth_global_1 := fee_growth_global_1 |> |>.

Definition get_total_events self : Z :=
  let a := pf_analytics self in
  wrap U64 (an_total_swaps a + an_total_mints a + an_total_burns a + an_total_fee_collects a + an_total_flashes a).
End profiler.
Arguments PoolProfiler : clear implicits.
