(* ===== verification/PoolViews.v ===== *)
(** * Views of a pool ([pool_analysis/profiler.rs])

    The queries of the profiler over its ticks and positions, and the estimates
    of the pool's balances. *)

From stdpp Require Import base numbers list gmap strings.
From Stdlib Require Import Lia ZArith.
From S2P Require Import Prelude FullMath TickBitmap TickMap TickMath SqrtPrice SwapMath Pool.

Open Scope Z_scope.

(** The order in which the hash maps are iterated. *)
Class PoolIter : Type := {
  iter_positions : gmap string PoolPosition -> list (string * PoolPosition);
  iter_ticks : gmap Z PoolTick -> list (Z * PoolTick);
  iter_positions_perm m : iter_positions m ≡ₚ map_to_list m;
  iter_ticks_perm m : iter_ticks m ≡ₚ map_to_list m;
}.

Section views.
Context {UL : U256Lib} {AF : AddressFmt} {PI : PoolIter}.
Implicit Type self : PoolProfiler.

Definition get_active_tick_values self : list Z :=
  (List.filter (fun kt => is_tick_initialized (pf_tick_map self) (pt_value kt.2)) (iter_ticks (tm_ticks (pf_tick_map self)))).*1.
Definition get_active_tick_count self : nat := active_tick_count (pf_tick_map self).
Definition get_current_tick self : Z := po_current_tick (pf_state self).
Definition get_total_tick_count self : nat := total_tick_count (pf_tick_map self).

Definition get_position self (owner tick_lower tick_upper : Z) : option PoolPosition :=
  pf_positions self !! get_position_key owner tick_lower tick_upper.

Definition get_active_positions self : list PoolPosition :=
  List.filter (spans (get_current_tick self)) (iter_positions (pf_positions self)).*2.
Definition get_all_positions self : list PoolPosition := (iter_positions (pf_positions self)).*2.
Definition get_all_position_keys self : list (Z * Z * Z) :=
  (fun p => (pq_owner p, pq_tick_lower p, pq_tick_upper p)) <$> get_all_positions self.
Definition get_total_active_positions self : nat :=
  length (List.filter (fun kp => spans (get_current_tick self) kp.2) (iter_positions (pf_positions self))).
Definition get_total_inactive_positions self : nat := (size (pf_positions self) - get_total_active_positions self)%nat.

Definition total_crossed_ticks (quote : SwapQuote) : Z := wrap U32 (Z.of_nat (length (sq_crossed_ticks quote))).

(** The tokens a position holds at a price: none, all of its range, or the part
    of the range beyond the price.  A position that holds none is skipped. *)
Definition position_token0 (tick price : Z) (position : PoolPosition) : option (outcome unit Z) :=
  if pq_tick_upper position <=? tick then None
  else Some (
    sqrt_ratio_a ← (if tick <? pq_tick_lower position then get_sqrt_ratio_at_tick (pq_tick_lower position) else Ok price);
    sqrt_ratio_b ← get_sqrt_ratio_at_tick (pq_tick_upper position);
    get_amount0_delta sqrt_ratio_a sqrt_ratio_b (pq_liquidity position) true).

Definition position_token1 (tick price : Z) (position : PoolPosition) : option (outcome unit Z) :=
  if tick <? pq_tick_lower position then None
  else Some (
    sqrt_ratio_a ← get_sqrt_ratio_at_tick (pq_tick_lower position);
    sqrt_ratio_b ← (if pq_tick_upper position <=? tick then get_sqrt_ratio_at_tick (pq_tick_upper position) else Ok price);
    get_amount1_delta sqrt_ratio_a sqrt_ratio_b (pq_liquidity position) true).

(** The loop over the positions: the amounts and the fees collected; the fees of
    a position that is skipped are left out. *)
Fixpoint sum_positions (amount : PoolPosition -> option (outcome unit Z)) (collected : PoolPosition -> Z) (positions : list PoolPosition)
  (acc : Z * Z) : outcome unit (Z * Z) :=
  match positions with
  | [] => Ok acc
  | position :: positions =>
      match (if 0 <? pq_liquidity position then amount position else Some (Ok 0)) with
      | None => sum_positions amount collected positions acc
      | Some r =>
          held ← r;
          sum_positions amount collected positions (u_add acc.1 held, wrap U128 (acc.2 + collected position))
      end
  end.

(** Fee growth per unit of liquidity, times the active liquidity; an overflow
    adds nothing. *)
Definition growth_fees self (fee_growth : Z) : outcome unit Z :=
  if (0 <? fee_growth) && (0 <? get_active_liquidity self)
  then or_zero (mul_div fee_growth (get_active_liquidity self) Q128)
  else Ok 0.

Definition estimate_balance self (amount : PoolPosition -> option (outcome unit Z)) (collected : PoolPosition -> Z) (fee_growth protocol_fees : Z)
  : outcome unit Z :=
  sums ← sum_positions amount collected (get_all_positions self) (0, 0);
  let '(total_amount, total_fees_collected) := sums in
  total_fees ← growth_fees self fee_growth;
  let total_amount := u_add total_amount total_fees in
  let total_fees_left := u_sub fee_growth total_fees_collected in
  let total_amount := u_add total_amount protocol_fees in
  Ok (u_add total_amount total_fees_left).

Definition estimate_balance_of_token0 self : outcome unit Z :=
  let s := pf_state self in
  estimate_balance self (position_token0 (po_current_tick s) (po_price_sqrt_ratio_x96 s))
    pq_total_amount0_collected (po_fee_growth_global_0 s) (po_protocol_fees_token0 s).

Definition estimate_balance_of_token1 self : outcome unit Z :=
  let s := pf_state self in
  estimate_balance self (position_token1 (po_current_tick s) (po_price_sqrt_ratio_x96 s))
    pq_total_amount1_collected (po_fee_growth_global_1 s) (po_protocol_fees_token1 s).
End views.
