(* ===== verification/PoolInv.v ===== *)
(** * The invariant of a pool

    What ties the tick map, the price and the positions of a pool together: the
    gross and net liquidity of every tick and the active liquidity are the sums
    over the positions, and the current tick is the tick of the price. *)

From stdpp Require Import base numbers list gmap strings.
From Stdlib Require Import Lia ZArith.
From S2P Require Import Prelude FullMath TickBitmap TickMap TickMath TickLog SqrtPrice SwapMath Pool.

Open Scope Z_scope.

(** ** Sums over positions *)

Definition psum (f : PoolPosition -> Z) (m : gmap string PoolPosition) : Z := map_fold (fun _ p acc => acc + f p) 0 m.

Lemma psum_empty f : psum f ∅ = 0.
Proof. apply map_fold_empty. Qed.

Lemma psum_fresh f m k p : m !! k = None -> psum f (<[k := p]> m) = psum f m + f p.
Proof. intros H. unfold psum. rewrite map_fold_insert_L; [done|intros; lia|done]. Qed.

Lemma psum_delete f m k p : m !! k = Some p -> psum f m = psum f (delete k m) + f p.
Proof.
  intros H. rewrite <- (insert_id m k p H) at 1. rewrite <- insert_delete_eq.
  apply psum_fresh, lookup_delete_eq.
Qed.

(** The value of an entry, nothing for a missing one. *)
Definition entry (f : PoolPosition -> Z) (m : gmap string PoolPosition) (k : string) : Z :=
  match m !! k with Some p => f p | None => 0 end.

Lemma psum_insert f m k p : psum f (<[k := p]> m) = psum f m - entry f m k + f p.
Proof.
  unfold entry. destruct (m !! k) as [q|] eqn:E.
  - rewrite <- insert_delete_eq, psum_fresh by apply lookup_delete_eq. rewrite (psum_delete f m k q E). lia.
  - rewrite psum_fresh by done. lia.
Qed.

Lemma psum_remove f m k : psum f (delete k m) = psum f m - entry f m k.
Proof.
  unfold entry. destruct (m !! k) as [q|] eqn:E; [rewrite (psum_delete f m k q E); lia|].
  rewrite delete_id by done. lia.
Qed.

Lemma psum_le f g m : map_Forall (fun _ p => f p <= g p) m -> psum f m <= psum g m.
Proof.
  induction m as [|k p m Hk IH] using map_ind; intros Hm; [by rewrite !psum_empty|].
  apply map_Forall_insert in Hm as [Hp Hm]; [|done]. rewrite !psum_fresh by done. specialize (IH Hm). lia.
Qed.

Lemma psum_ext f g m : map_Forall (fun _ p => f p = g p) m -> psum f m = psum g m.
Proof.
  intros Hm. apply Z.le_antisymm; apply psum_le; eapply map_Forall_impl; [exact Hm| |exact Hm|]; cbn; intros; lia.
Qed.

Lemma psum_add f g m : psum (fun p => f p + g p) m = psum f m + psum g m.
Proof.
  induction m as [|k p m Hk IH] using map_ind; [by rewrite !psum_empty|]. rewrite !psum_fresh by done. lia.
Qed.

Lemma psum_opp f m : psum (fun p => - f p) m = - psum f m.
Proof.
  induction m as [|k p m Hk IH] using map_ind; [by rewrite !psum_empty|]. rewrite !psum_fresh by done. lia.
Qed.

Lemma psum_zero m : psum (fun _ => 0) m = 0.
Proof. induction m as [|k p m Hk IH] using map_ind; [apply psum_empty|]. rewrite psum_fresh by done. lia. Qed.

Lemma psum_nonneg f m : map_Forall (fun _ p => 0 <= f p) m -> 0 <= psum f m.
Proof. intros Hm. rewrite <- (psum_zero m). by apply psum_le. Qed.

(** Sums over ticks. *)
Definition zsum (f : Z -> Z) (ts : list Z) : Z := foldr (fun t acc => f t + acc) 0 ts.

Lemma zsum_le f b ts : (forall t, f t <= b) -> 0 <= b -> zsum f ts <= b * Z.of_nat (length ts).
Proof.
  intros Hf Hb. induction ts as [|t ts IH]; cbn [zsum foldr length]; [lia|]. fold (zsum f ts). specialize (Hf t). lia.
Qed.

Lemma psum_zsum (f : Z -> PoolPosition -> Z) ts m :
  psum (fun p => zsum (fun t => f t p) ts) m = zsum (fun t => psum (f t) m) ts.
Proof.
  induction ts as [|t ts IH]; cbn [zsum foldr]; [apply psum_zero|].
  rewrite (psum_add (f t) (fun p => zsum (fun t => f t p) ts)). by rewrite IH.
Qed.

Lemma zsum_single (v : Z) t0 ts : NoDup ts -> zsum (fun t => if t0 =? t then v else 0) ts = if decide (t0 ∈ ts) then v else 0.
Proof.
  induction ts as [|t ts IH]; intros Hn; cbn [zsum foldr]; [by rewrite decide_False by set_solver|].
  apply NoDup_cons in Hn as [Ht Hn]. fold (zsum (fun t => if t0 =? t then v else 0) ts). rewrite IH by done.
  destruct (Z.eqb_spec t0 t) as [->|Hne].
  - rewrite decide_False by done. rewrite decide_True by set_solver. lia.
  - destruct (decide (t0 ∈ ts)); [rewrite decide_True by set_solver|rewrite decide_False by set_solver]; lia.
Qed.

(** ** The liquidity the positions put at ticks *)

Definition liq_lower (t : Z) (p : PoolPosition) : Z := if pq_tick_lower p =? t then pq_liquidity p else 0.
Definition liq_upper (t : Z) (p : PoolPosition) : Z := if pq_tick_upper p =? t then pq_liquidity p else 0.
Definition liq_at (t : Z) (p : PoolPosition) : Z :=
  if (pq_tick_lower p <=? t) && (t <? pq_tick_upper p) then pq_liquidity p else 0.

Lemma liq_step t p : pq_tick_lower p < pq_tick_upper p -> liq_at t p = liq_at (t - 1) p + liq_lower t p + - liq_upper t p.
Proof.
  intros H. unfold liq_at, liq_lower, liq_upper.
  destruct (Z.leb_spec (pq_tick_lower p) t), (Z.ltb_spec t (pq_tick_upper p)), (Z.leb_spec (pq_tick_lower p) (t - 1)),
    (Z.ltb_spec (t - 1) (pq_tick_upper p)), (Z.eqb_spec (pq_tick_lower p) t), (Z.eqb_spec (pq_tick_upper p) t); cbn; lia.
Qed.

(** A position as the pool keeps it. *)
Definition position_wf (s : Z) (p : PoolPosition) : Prop :=
  valid_tick s (pq_tick_lower p) /\ valid_tick s (pq_tick_upper p) /\ pq_tick_lower p < pq_tick_upper p /\
  0 <= pq_liquidity p < 2 ^ 128.

#[global] Instance valid_tick_dec s t : Decision (valid_tick s t).
Proof. apply and_dec; [exact (Znumtheory.Zdivide_dec s t)|apply _]. Defined.

(** The ticks a spacing leaves. *)
Definition all_ticks (s : Z) : list Z := (fun c => c * s) <$> seqZ (- (MAX_TICK / s)) (tick_count s).

Lemma all_ticks_spec s t : 1 <= s -> valid_tick s t -> t ∈ all_ticks s.
Proof.
  intros Hs [[c ->] Hr]. apply list_elem_of_fmap. exists c. split; [done|]. apply elem_of_seqZ. unfold tick_count.
  change MIN_TICK with (- MAX_TICK) in Hr.
  assert (c <= MAX_TICK / s) by (apply Z.div_le_lower_bound; lia).
  assert (- c <= MAX_TICK / s) by (apply Z.div_le_lower_bound; lia). lia.
Qed.

Lemma all_ticks_NoDup s : 1 <= s -> NoDup (all_ticks s).
Proof. intros Hs. apply NoDup_fmap; [intros x y; nia|apply NoDup_seqZ]. Qed.

Lemma all_ticks_length s : 1 <= s -> Z.of_nat (length (all_ticks s)) = tick_count s.
Proof.
  intros Hs. unfold all_ticks. rewrite length_fmap, length_seqZ, Z2Nat.id; [done|]. unfold tick_count.
  assert (0 <= MAX_TICK / s) by (apply Z.div_pos; unfold MAX_TICK; lia). lia.
Qed.

(** The liquidity of all positions is bounded by that of their lower ticks. *)
Lemma total_le s m b :
  1 <= s -> map_Forall (fun _ p => position_wf s p) m -> 0 <= b -> (forall t, psum (liq_lower t) m <= b) ->
  psum pq_liquidity m <= b * tick_count s.
Proof.
  intros Hs Hm Hb Hle. rewrite <- (all_ticks_length s Hs). rewrite (psum_ext _ (fun p => zsum (fun t => liq_lower t p) (all_ticks s))).
  - rewrite psum_zsum. by apply zsum_le.
  - eapply map_Forall_impl; [exact Hm|]. intros k p (Hl & _). cbn. unfold liq_lower.
    rewrite zsum_single by (by apply all_ticks_NoDup). rewrite decide_True; [done|]. by apply all_ticks_spec.
Qed.

(** ** The tick map and the positions *)

Section liquidity.
Context {UL : U256Lib} {AF : AddressFmt}.

Definition net (tm : TickMap) (t : Z) : Z :=
  match tm_ticks tm !! t with Some p => pt_liquidity_net p | None => 0 end.

Definition filed (s : Z) (k : string) (p : PoolPosition) : Prop :=
  k = get_position_key (pq_owner p) (pq_tick_lower p) (pq_tick_upper p) /\ position_wf s p.

Record liquidity_ok (s : Z) (tm : TickMap) (m : gmap string PoolPosition) : Prop := {
  lk_map : tick_map_ok tm;
  lk_spacing : tb_tick_spacing (tm_tick_bitmap tm) = s;
  lk_range : 1 <= s <= MAX_TICK;
  lk_max : tm_max_liquidity_per_tick tm = (2 ^ 128 - 1) / tick_count s;
  lk_positions : map_Forall (filed s) m;
  lk_gross t : gross tm t = psum (liq_lower t) m + psum (liq_upper t) m;
  lk_net t : net tm t = psum (liq_lower t) m - psum (liq_upper t) m;
}.

(** The liquidity of the positions that span a tick. *)
Definition active (m : gmap string PoolPosition) (t : Z) : Z := psum (liq_at t) m.

Lemma max_bound s : 1 <= s <= MAX_TICK -> 0 <= (2 ^ 128 - 1) / tick_count s < 2 ^ 127 /\ (2 ^ 128 - 1) / tick_count s * tick_count s < 2 ^ 128.
Proof.
  intros Hs. assert (3 <= tick_count s).
  { unfold tick_count. assert (1 <= MAX_TICK / s) by (apply Z.div_le_lower_bound; lia). lia. }
  pose proof (Z.mul_div_le (2 ^ 128 - 1) (tick_count s) ltac:(lia)).
  split; [split; [apply Z.div_pos; lia|apply Z.div_lt_upper_bound; lia]|lia].
Qed.

Section facts.
Variables (s : Z) (tm : TickMap) (m : gmap string PoolPosition).
Hypothesis Hok : liquidity_ok s tm m.

Lemma wf_positions : map_Forall (fun _ p => position_wf s p) m.
Proof. eapply map_Forall_impl; [apply Hok|]. intros k p [_ H]. exact H. Qed.

Lemma lower_nonneg t : 0 <= psum (liq_lower t) m.
Proof.
  apply psum_nonneg. eapply map_Forall_impl; [apply wf_positions|]. intros k p (_ & _ & _ & H). cbn.
  unfold liq_lower. case_match; lia.
Qed.

Lemma upper_nonneg t : 0 <= psum (liq_upper t) m.
Proof.
  apply psum_nonneg. eapply map_Forall_impl; [apply wf_positions|]. intros k p (_ & _ & _ & H). cbn.
  unfold liq_upper. case_match; lia.
Qed.

Lemma gross_max t : 0 <= gross tm t <= (2 ^ 128 - 1) / tick_count s.
Proof. rewrite <- (lk_max _ _ _ Hok). apply (lk_map _ _ _ Hok). Qed.

Lemma total_bound : psum pq_liquidity m < 2 ^ 128.
Proof.
  pose proof (lk_range _ _ _ Hok) as Hs. destruct (max_bound s Hs) as [Hb Hc].
  eapply Z.le_lt_trans; [|exact Hc]. apply (total_le s m); [lia|apply wf_positions|lia|]. intros t.
  pose proof (gross_max t) as Hg. rewrite (lk_gross _ _ _ Hok) in Hg. pose proof (upper_nonneg t). lia.
Qed.

Lemma active_bounds t : 0 <= active m t < 2 ^ 128.
Proof.
  unfold active. split.
  - apply psum_nonneg. eapply map_Forall_impl; [apply wf_positions|]. intros k p (_ & _ & _ & H). cbn. unfold liq_at. case_match; lia.
  - eapply Z.le_lt_trans; [|apply total_bound]. apply psum_le. eapply map_Forall_impl; [apply wf_positions|].
    intros k p (_ & _ & _ & H). cbn. unfold liq_at. case_match; lia.
Qed.

Lemma active_step t : active m t = active m (t - 1) + net tm t.
Proof.
  rewrite (lk_net _ _ _ Hok). unfold active.
  rewrite (psum_ext _ (fun p => (liq_at (t - 1) p + liq_lower t p) + - liq_upper t p)).
  - rewrite (psum_add (fun p => liq_at (t - 1) p + liq_lower t p)), psum_add, psum_opp. lia.
  - eapply map_Forall_impl; [apply wf_positions|]. intros k p (_ & _ & H & _). cbn. by apply liq_step.
Qed.

Lemma net_zero t : gross tm t = 0 -> net tm t = 0.
Proof.
  rewrite (lk_gross _ _ _ Hok), (lk_net _ _ _ Hok). pose proof (lower_nonneg t). pose proof (upper_nonneg t). lia.
Qed.

Lemma net_bound t : - 2 ^ 127 < net tm t < 2 ^ 127.
Proof.
  pose proof (gross_max t) as Hg. destruct (max_bound s (lk_range _ _ _ Hok)) as [Hb _].
  rewrite (lk_gross _ _ _ Hok) in Hg. rewrite (lk_net _ _ _ Hok). pose proof (lower_nonneg t). pose proof (upper_nonneg t). lia.
Qed.

Lemma active_const a b : a <= b -> (forall t, a < t <= b -> gross tm t = 0) -> active m a = active m b.
Proof.
  intros Hab Hz. assert (H : forall n, 0 <= n -> a + n <= b -> active m a = active m (a + n)).
  { apply (natlike_ind (fun n => a + n <= b -> active m a = active m (a + n))); [by rewrite Z.add_0_r|].
    intros n Hn IH Hle. rewrite (active_step (a + Z.succ n)), net_zero by (apply Hz; lia).
    replace (a + Z.succ n - 1) with (a + n) by lia. rewrite Z.add_0_r. apply IH. lia. }
  rewrite (H (b - a)) by lia. f_equal. lia.
Qed.

Lemma gross_valid t : gross tm t <> 0 -> valid_tick s t.
Proof.
  rewrite (lk_gross _ _ _ Hok). intros Hne. destruct (decide (psum (liq_lower t) m = 0)) as [E|E].
  - assert (Hu : psum (liq_upper t) m <> 0) by lia. clear - Hok Hu.
    apply dec_stable. intros Hn. apply Hu. rewrite (psum_ext _ (fun _ => 0)); [apply psum_zero|].
    eapply map_Forall_impl; [apply wf_positions|]. intros k p (_ & Hv & _). cbn. unfold liq_upper.
    destruct (Z.eqb_spec (pq_tick_upper p) t) as [<-|]; done.
  - clear Hne. apply dec_stable. intros Hn. apply E. rewrite (psum_ext _ (fun _ => 0)); [apply psum_zero|].
    eapply map_Forall_impl; [apply wf_positions|]. intros k p (Hv & _). cbn. unfold liq_lower.
    destruct (Z.eqb_spec (pq_tick_lower p) t) as [<-|]; done.
Qed.
End facts.

(** ** The search for the next tick *)

Lemma next_tick_spec s tm m tick (zfo : bool) :
  liquidity_ok s tm m -> MIN_TICK <= tick < MAX_TICK ->
  let '(next, initialized) := next_initialized_tick tm tick zfo in
  let t := clamp_tick next in
  initialized = negb (gross tm t =? 0) /\
  if zfo then MIN_TICK <= t <= tick /\ forall u, t < u <= tick -> gross tm u = 0
  else tick < t <= MAX_TICK /\ forall u, tick < u < t -> gross tm u = 0.
Proof.
  intros Hok Ht. pose proof (lk_map _ _ _ Hok) as Hm. pose proof (lk_range _ _ _ Hok) as Hs. unfold next_initialized_tick.
  assert (Hmem : forall c, member (tm_tick_bitmap tm) c = negb (gross tm (c * s) =? 0)).
  { intros c. rewrite (tk_member _ Hm), (lk_spacing _ _ _ Hok). done. }
  assert (Hout : forall t, ~ valid_tick s t -> gross tm t = 0).
  { intros t Hv. destruct (Z.eq_dec (gross tm t) 0) as [|Hne]; [done|]. exfalso. by eapply Hv, gross_valid. }
  destruct zfo.
  - pose proof (next_below _ tick (tk_bitmap _ Hm) ltac:(lia)) as H. rewrite (lk_spacing _ _ _ Hok) in H.
    destruct (next_initialized_tick_within_one_word _ tick true) as [next found].
    destruct H as (n & -> & Hn & -> & _ & Hnone). rewrite Hmem.
    pose proof (Z.mul_div_le tick s ltac:(lia)). assert (Hle : n * s <= tick) by nia.
    assert (Hz : forall u, n * s < u <= tick -> gross tm u = 0).
    { intros u Hu. destruct (Z.eq_dec (gross tm u) 0) as [|Hne]; [done|]. exfalso.
      destruct (gross_valid _ _ _ Hok u Hne) as [[c ->] _]. assert (c <= tick / s) by (apply Z.div_le_lower_bound; lia).
      specialize (Hnone c ltac:(nia)). rewrite Hmem in Hnone. by apply negb_false_iff, Z.eqb_eq in Hnone. }
    unfold clamp_tick. rewrite (Z.min_r MAX_TICK) by lia. destruct (Z.le_gt_cases MIN_TICK (n * s)) as [Hmin|Hmin].
    + rewrite Z.max_r by lia. done.
    + rewrite Z.max_l by lia. rewrite (Hz MIN_TICK), (Hout (n * s)); [|intros [_ Hv]; lia|lia].
      split; [done|]. split; [lia|]. intros u Hu. apply Hz. lia.
  - pose proof (next_above _ tick (tk_bitmap _ Hm) ltac:(lia)) as H. rewrite (lk_spacing _ _ _ Hok) in H.
    destruct (next_initialized_tick_within_one_word _ tick false) as [next found].
    destruct H as (n & -> & Hn & -> & _ & Hnone). rewrite Hmem.
    pose proof (Z.mul_succ_div_gt tick s ltac:(lia)). assert (Hlt : tick < n * s) by nia.
    assert (Hz : forall u, tick < u < n * s -> gross tm u = 0).
    { intros u Hu. destruct (Z.eq_dec (gross tm u) 0) as [|Hne]; [done|]. exfalso.
      destruct (gross_valid _ _ _ Hok u Hne) as [[c ->] _]. assert (tick / s < c) by (apply Z.div_lt_upper_bound; lia).
      specialize (Hnone c ltac:(nia)). rewrite Hmem in Hnone. by apply negb_false_iff, Z.eqb_eq in Hnone. }
    unfold clamp_tick. destruct (Z.le_gt_cases (n * s) MAX_TICK) as [Hmax|Hmax].
    + rewrite Z.min_r, Z.max_r by lia. done.
    + rewrite Z.min_l, Z.max_r by lia. rewrite (Hz MAX_TICK), (Hout (n * s)); [|intros [_ Hv]; lia|lia].
      split; [done|]. split; [lia|]. intros u Hu. apply Hz. lia.
Qed.

(** ** Crossing a tick *)

(** Tick maps with the same liquidity at every tick; the fees may differ. *)
Record same_liquidity (tm tm' : TickMap) : Prop := {
  sl_bitmap : tm_tick_bitmap tm' = tm_tick_bitmap tm;
  sl_max : tm_max_liquidity_per_tick tm' = tm_max_liquidity_per_tick tm;
  sl_gross t : gross tm' t = gross tm t;
  sl_net t : net tm' t = net tm t;
}.

Lemma same_liquidity_refl tm : same_liquidity tm tm.
Proof. done. Qed.

Lemma same_liquidity_trans tm1 tm2 tm3 : same_liquidity tm1 tm2 -> same_liquidity tm2 tm3 -> same_liquidity tm1 tm3.
Proof. intros [A1 A2 A3 A4] [B1 B2 B3 B4]. split; intros; congruence. Qed.

Lemma same_liquidity_ok s tm tm' m : same_liquidity tm tm' -> liquidity_ok s tm m -> liquidity_ok s tm' m.
Proof.
  intros [E1 E2 E3 E4] [[B1 B2 B3 B4] H2 H3 H4 H5 H6 H7]. split; [|by rewrite E1|done|by rewrite E2|done|intros; by rewrite E3|intros; by rewrite E4].
  split; [by rewrite E1|by rewrite E2|intros; rewrite E3, E2; apply B3|intros; rewrite E1, E3; apply B4].
Qed.

Lemma same_with_liquidity tm l : same_liquidity tm (with_liquidity tm l).
Proof. done. Qed.

Lemma get_tick_or_init_same tm tick t tm1 :
  get_tick_or_init tm tick = (t, tm1) ->
  same_liquidity tm tm1 /\ tm_liquidity tm1 = tm_liquidity tm /\ pt_liquidity_net t = net tm tick /\
  pt_liquidity_gross t = gross tm tick.
Proof.
  intros E. pose proof (get_tick_or_init_spec _ _ _ _ E) as (E1 & E2 & E3 & E4 & E5 & E6).
  assert (En : forall t', net tm1 t' = net tm t').
  { intros t'. revert E. unfold get_tick_or_init, net. destruct (tm_ticks tm !! tick) eqn:El; intros [= <- <-]; [done|]. cbn.
    destruct (decide (t' = tick)) as [->|]; [by rewrite lookup_insert_eq, El|by rewrite lookup_insert_ne]. }
  split; [done|]. split; [done|]. split; [|done]. rewrite <- En. unfold net. by rewrite E2.
Qed.

(** Replacing the data of a tick by data with the same liquidity. *)
Lemma same_replace tm tick t :
  pt_liquidity_gross t = gross tm tick -> pt_liquidity_net t = net tm tick ->
  same_liquidity tm (set_ticks tm (<[tick := t]> (tm_ticks tm))).
Proof.
  intros Hg Hn. split; [done|done| |]; intros t'.
  - rewrite gross_insert. case_decide; [by subst|done].
  - unfold net. cbn. destruct (decide (t' = tick)) as [->|]; [rewrite lookup_insert_eq; exact Hn|by rewrite lookup_insert_ne].
Qed.

Lemma cross_tick_spec tm tick f0 f1 :
  (cross_tick tm tick f0 f1).1 = net tm tick /\ same_liquidity tm (cross_tick tm tick f0 f1).2 /\
  tm_liquidity (cross_tick tm tick f0 f1).2 = tm_liquidity tm.
Proof.
  unfold cross_tick. destruct (get_tick_or_init tm tick) as [t tm1] eqn:E.
  apply get_tick_or_init_same in E as (Hs & Hl & Hn & Hg). cbn. split; [done|]. split; [|done].
  eapply same_liquidity_trans; [exact Hs|]. apply same_replace; cbn; [rewrite (sl_gross _ _ Hs)|rewrite (sl_net _ _ Hs)]; done.
Qed.

Lemma apply_crossings_snoc tm l c :
  apply_crossings tm (l ++ [c]) =
    (tick_map ← apply_crossings tm l;
     let '(liquidity_net, tick_map) := cross_tick tick_map (cr_tick c) (cr_fee_growth_0 c) (cr_fee_growth_1 c) in
     liquidity ← liquidity_math_add (tm_liquidity tick_map)
                   (if cr_zero_for_one c then wrap I128 (- liquidity_net) else liquidity_net);
     Ok (with_liquidity tick_map liquidity)).
Proof. unfold apply_crossings. by rewrite foldl_app. Qed.

Lemma crossing_snoc tm tm1 l c liquidity :
  apply_crossings tm l = Ok tm1 -> same_liquidity tm tm1 ->
  liquidity_math_add (tm_liquidity tm1) (if cr_zero_for_one c then wrap I128 (- net tm (cr_tick c)) else net tm (cr_tick c)) = Ok liquidity ->
  exists tm2, apply_crossings tm (l ++ [c]) = Ok tm2 /\ same_liquidity tm tm2 /\ tm_liquidity tm2 = liquidity.
Proof.
  intros E Hs Hl. rewrite apply_crossings_snoc, E. osimpl.
  destruct (cross_tick_spec tm1 (cr_tick c) (cr_fee_growth_0 c) (cr_fee_growth_1 c)) as (E1 & E2 & E3).
  destruct (cross_tick tm1 _ _ _) as [ln tm2]. cbn in *. subst ln. rewrite E3, (sl_net _ _ Hs), Hl. osimpl.
  eexists. split; [done|]. split; [|done]. eapply same_liquidity_trans; [exact Hs|]. eapply same_liquidity_trans; [exact E2|apply same_with_liquidity].
Qed.
End liquidity.
