(* ===== verification/PoolSwap.v ===== *)
(** * Swaps through a pool

    The simulation of a swap walks from tick to tick.  It ends, it never
    panics, it keeps the price between its start and the limit and the tick with
    the price, and the liquidity it ends with is that of the positions that span
    the final tick. *)

From stdpp Require Import base numbers list gmap strings.
From Stdlib Require Import Lia ZArith.
From S2P Require Import Prelude FullMath TickBitmap TickMap TickMath TickLog SqrtPrice SwapMath Pool PoolInv.

Open Scope Z_scope.

(** ** Prices and ticks *)

(** The tick of a price; a swap that ends on a tick it has just crossed
    downwards leaves the tick below. *)
Definition at_price (tick price : Z) : Prop :=
  MIN_TICK <= tick < MAX_TICK /\ sqrt_ratio tick <= price <= sqrt_ratio (tick + 1).

Lemma sqrt_ratio_le a b : MIN_TICK <= a -> a <= b -> b <= MAX_TICK -> sqrt_ratio a <= sqrt_ratio b.
Proof. intros Ha Hab Hb. destruct (Z.eq_dec a b) as [->|]; [lia|]. pose proof (sqrt_ratio_mono a b). lia. Qed.

Lemma sqrt_ratio_lt_inv a b :
  MIN_TICK <= b -> a <= MAX_TICK -> sqrt_ratio a < sqrt_ratio b -> a < b.
Proof. intros Hb Ha H. destruct (Z.lt_ge_cases a b) as [|Hge]; [done|]. pose proof (sqrt_ratio_le b a Hb Hge Ha). lia. Qed.

Lemma sqrt_ratio_ends : sqrt_ratio MIN_TICK = MIN_SQRT_RATIO /\ sqrt_ratio MAX_TICK = MAX_SQRT_RATIO.
Proof. split; vm_compute; reflexivity. Qed.

Lemma price_160 p : MIN_SQRT_RATIO <= p <= MAX_SQRT_RATIO -> 0 < p < 2 ^ 160.
Proof.
  change MAX_SQRT_RATIO with 1461446703485210103287273052203988822378723970342. unfold MIN_SQRT_RATIO. lia.
Qed.

(** ** One step *)

Lemma given_small (zfo : bool) l cur next :
  0 < cur < 2 ^ 160 -> 0 < next < 2 ^ 160 -> u128 l -> (if zfo then next <= cur else cur <= next) ->
  0 <= given zfo l cur next < 2 ^ 225.
Proof.
  intros Hc Hn Hl Hd. unfold given, amount0_between, amount1_between, u128 in *. destruct zfo.
  - split; [apply Z.div_pos; nia|]. apply Z.div_lt_upper_bound; nia.
  - split; [apply Z.div_pos; nia|]. apply Z.div_lt_upper_bound; [nia|].
    assert (l * 2 ^ 96 * (next - cur) <= l * 2 ^ 96 * (next * cur)) by (apply Z.mul_le_mono_nonneg_l; nia).
    assert (l * 2 ^ 96 * (next * cur) < 2 ^ 225 * (next * cur)) by (apply Z.mul_lt_mono_pos_r; nia). lia.
Qed.

(** The step of the loop, in the direction of the swap. *)
Lemma step_towards {UL : U256Lib} (zfo : bool) cur target l r f :
  0 < cur < 2 ^ 160 -> 0 < target < 2 ^ 160 -> u128 l -> - 2 ^ 255 <= r < 2 ^ 255 -> 0 <= f <= MAX_FEE / 2 ->
  (if zfo then target <= cur else cur <= target) ->
  exists q, compute_swap_step cur target l r f = Ok q /\
    let next := ss_sqrt_ratio_next_x96 q in
    towards zfo cur target next /\
    0 <= ss_amount_in q < 2 ^ 225 /\ 0 <= ss_amount_out q < 2 ^ 225 /\ 0 <= ss_fee_amount q /\
    (0 <= r -> ss_amount_in q + ss_fee_amount q <= r /\ (next <> target -> ss_amount_in q + ss_fee_amount q = r)) /\
    (r < 0 -> ss_amount_out q <= - r /\ (next <> target -> ss_amount_out q = - r) /\ ss_fee_amount q <= ss_amount_in q + 1).
Proof.
  intros Hc Ht Hl Hr Hf Hd. change (MAX_FEE / 2) with 500000 in Hf.
  destruct (swap_step_spec cur target l r f Hc Ht Hl Hr ltac:(unfold MAX_FEE; lia)) as (q & E & Htw & Hin & Hout & Hfee & Hfe & Hex & Hex').
  exists q. split; [done|]. cbn zeta. set (next := ss_sqrt_ratio_next_x96 q) in *. set (z := target <=? cur) in *.
  assert (Hz : towards zfo cur target next /\ (if z then next <= cur else cur <= next)).
  { unfold z, towards in *. destruct zfo, (Z.leb_spec target cur); split; lia. }
  destruct Hz as [Hz1 Hz2]. assert (Hn : 0 < next < 2 ^ 160) by (unfold towards in Hz1; destruct zfo; lia).
  destruct (taken_eval z l cur next Hc Hn Hl Hz2) as [_ Hb]. pose proof (given_small z l cur next Hc Hn Hl Hz2) as Hg.
  rewrite <- Hin in Hb.
  assert (Hf0 : 0 <= div_up (ss_amount_in q * f) (MAX_FEE - f)) by (apply div_up_nonneg; unfold MAX_FEE; nia).
  assert (Hf1 : div_up (ss_amount_in q * f) (MAX_FEE - f) <= ss_amount_in q + 1).
  { apply div_up_le; unfold MAX_FEE; nia. }
  split; [done|]. split; [lia|]. split; [rewrite Hout; destruct (Z.leb_spec 0 r); lia|]. split; [lia|]. split; [exact Hex|].
  intros Hneg. rewrite Hout in *. rewrite (proj2 (Z.leb_gt 0 r)) in * by lia. split; [lia|]. split; [by apply Hex'|].
  rewrite Hfe by (by left). lia.
Qed.

Lemma i256_id z : - 2 ^ 255 <= z < 2 ^ 255 -> wrap I256 z = z.
Proof. intros H. apply wrap_id, in_ty_spec. change (imin I256) with (- 2 ^ 255). change (imax I256) with (2 ^ 255 - 1). lia. Qed.

Lemma i32_id z : - 2 ^ 31 <= z < 2 ^ 31 -> wrap I32 z = z.
Proof. intros H. apply wrap_id, in_ty_spec. change (imin I32) with (- 2 ^ 31). change (imax I32) with (2 ^ 31 - 1). lia. Qed.

Lemma i128_id z : - 2 ^ 127 <= z < 2 ^ 127 -> wrap I128 z = z.
Proof. intros H. apply wrap_id, in_ty_spec. change (imin I128) with (- 2 ^ 127). change (imax I128) with (2 ^ 127 - 1). lia. Qed.

(** ** The loop *)

Section loop.
Context {UL : U256Lib} {AF : AddressFmt}.
Variables (self : PoolProfiler) (s : Z).
Variables (zfo : bool) (limit fee fee_protocol amount : Z).

Abbreviation tm := (pf_tick_map self).
Abbreviation positions := (pf_positions self).

Hypothesis Hok : liquidity_ok s tm positions.
Hypothesis Hlimit : MIN_SQRT_RATIO < limit < MAX_SQRT_RATIO.
Hypothesis Hfee : 0 <= fee <= MAX_FEE / 2.
Hypothesis Hprotocol : 0 <= fee_protocol < 16.
Hypothesis Hamount : - 2 ^ 255 <= amount < 2 ^ 255.

Abbreviation exact_input := (0 <? amount).

(** The state of the loop after at most [n] turns. *)
Record loop_inv (n : Z) (st : SwapLoop) : Prop := {
  li_at : at_price (lp_tick st) (lp_sqrt_price st);
  li_side : towards zfo (po_price_sqrt_ratio_x96 (pf_state self)) limit (lp_sqrt_price st);
  li_liquidity : lp_active_liquidity st = active positions (lp_tick st);
  li_remaining : if exact_input then 0 <= lp_remaining st <= amount else amount <= lp_remaining st <= 0;
  li_calculated : if exact_input then - (n * 2 ^ 227) <= lp_calculated st <= 0 else 0 <= lp_calculated st <= n * 2 ^ 227;
  li_crossed : exists tm', apply_crossings tm (lp_crossed st) = Ok tm' /\ same_liquidity tm tm' /\
    tm_liquidity tm' = lp_active_liquidity st;
}.

Lemma price_range tick price : at_price tick price -> MIN_SQRT_RATIO <= price <= MAX_SQRT_RATIO.
Proof.
  intros [Ht Hp]. destruct sqrt_ratio_ends as [E1 E2]. rewrite <- E1, <- E2.
  pose proof (sqrt_ratio_le MIN_TICK tick). pose proof (sqrt_ratio_le (tick + 1) MAX_TICK). lia.
Qed.

Lemma active_u128 t : u128 (active positions t).
Proof. pose proof (active_bounds s tm positions Hok t). unfold u128. lia. Qed.

(** Crossing the tick found: the tick and the liquidity on its other side. *)
Lemma cross_into_spec n st t growth (initialized : bool) :
  loop_inv n st -> MIN_TICK <= t <= MAX_TICK -> initialized = negb (gross tm t =? 0) ->
  (if zfo then active positions t = active positions (lp_tick st) else active positions (t - 1) = active positions (lp_tick st)) ->
  exists crossed, cross_into self zfo initialized t growth st =
    Ok (if zfo then t - 1 else t, active positions (if zfo then t - 1 else t), crossed) /\
    exists tm', apply_crossings tm crossed = Ok tm' /\ same_liquidity tm tm' /\
      tm_liquidity tm' = active positions (if zfo then t - 1 else t).
Proof.
  intros Hinv Ht -> Hact. pose proof (active_step s tm positions Hok t) as Hs. unfold cross_into.
  destruct (li_crossed _ _ Hinv) as (tm1 & Hc & Hsame & Hl). rewrite (li_liquidity _ _ Hinv) in Hl |- *.
  assert (Hw : wrap I32 (t - 1) = t - 1) by (apply i32_id; unfold MIN_TICK, MAX_TICK in Ht; lia). rewrite Hw.
  set (t' := if zfo then t - 1 else t).
  assert (Hsum : active positions (lp_tick st) + (if zfo then - net tm t else net tm t) = active positions t').
  { unfold t'. destruct zfo; lia. }
  destruct (Z.eqb_spec (gross tm t) 0) as [E|E]; cbn [negb].
  - assert (Hn0 : net tm t = 0) by (by apply (net_zero s tm positions)). rewrite Hn0 in Hsum.
    exists (lp_crossed st). osimpl. replace (active positions t') with (active positions (lp_tick st)) by (destruct zfo; lia).
    split; [done|]. by exists tm1.
  - assert (Hnb := net_bound s tm positions Hok t). pose proof (active_bounds s tm positions Hok (lp_tick st)) as Hb.
    pose proof (active_bounds s tm positions Hok t') as Hb'.
    unfold gross in E. unfold get_tick. destruct (tm_ticks tm !! t) as [d|] eqn:Ed; [|done].
    assert (En : pt_liquidity_net d = net tm t) by (unfold net; by rewrite Ed). rewrite En, i128_id by lia.
    set (delta := if zfo then - net tm t else net tm t) in *. assert (Hdelta : - 2 ^ 127 <= delta < 2 ^ 127) by (unfold delta; destruct zfo; lia).
    assert (Hadd : liquidity_math_add (active positions (lp_tick st)) delta = Ok (active positions t')).
    { rewrite liquidity_math_add_spec by lia. rewrite Hsum.
      by rewrite (proj2 (Z.leb_le _ _)), (proj2 (Z.ltb_lt _ _)) by lia. }
    rewrite Hadd. osimpl. eexists. split; [done|].
    apply (crossing_snoc tm tm1); [done|done|]. cbn [cr_zero_for_one cr_tick]. rewrite i128_id by lia. by rewrite Hl.
Qed.

(** Where the step ends. *)
Lemma place_spec n st t (initialized : bool) growth p' :
  loop_inv n st -> initialized = negb (gross tm t =? 0) ->
  (if zfo then MIN_TICK <= t <= lp_tick st /\ forall u, t < u <= lp_tick st -> gross tm u = 0
   else lp_tick st < t <= MAX_TICK /\ forall u, lp_tick st < u < t -> gross tm u = 0) ->
  (if zfo then Z.max (sqrt_ratio t) limit <= p' <= lp_sqrt_price st
   else lp_sqrt_price st <= p' <= Z.min (sqrt_ratio t) limit) ->
  exists tick' crossed,
    (if p' =? sqrt_ratio t then cross_into self zfo initialized t growth st
     else if negb (p' =? lp_sqrt_price st)
     then tick ← get_tick_at_sqrt_ratio p'; Ok (tick, lp_active_liquidity st, lp_crossed st)
     else Ok (lp_tick st, lp_active_liquidity st, lp_crossed st)) = Ok (tick', active positions tick', crossed) /\
    at_price tick' p' /\
    (exists tm', apply_crossings tm crossed = Ok tm' /\ same_liquidity tm tm' /\ tm_liquidity tm' = active positions tick') /\
    (p' = sqrt_ratio t -> if zfo then tick' < lp_tick st else lp_tick st < tick').
Proof.
  intros Hinv Hi Ht Hp. destruct (li_at _ _ Hinv) as [Hr Hpr]. destruct sqrt_ratio_ends as [E1 E2].
  assert (Htr : MIN_TICK <= t <= MAX_TICK) by (destruct zfo; lia).
  assert (Hprice : MIN_SQRT_RATIO < p' < MAX_SQRT_RATIO \/ p' = lp_sqrt_price st).
  { pose proof (price_range _ _ (li_at _ _ Hinv)). destruct zfo; lia. }
  destruct (Z.eqb_spec p' (sqrt_ratio t)) as [Ep|Ep].
  - destruct (cross_into_spec n st t growth initialized Hinv Htr Hi) as (crossed & Ec & Hc).
    { destruct zfo; destruct Ht as [Ht Hz]; [|symmetry]; (apply (active_const s tm positions Hok); [lia|]); intros u Hu; apply Hz; lia. }
    exists (if zfo then t - 1 else t), crossed. rewrite Ec. split; [reflexivity|].
    split; [|split; [exact Hc|intros _; destruct zfo; lia]].
    assert (Hend : if zfo then MIN_TICK < t else t < MAX_TICK).
    { destruct zfo.
      - destruct (Z.eq_dec t MIN_TICK) as [->|]; [|lia]. rewrite E1 in *. lia.
      - destruct (Z.eq_dec t MAX_TICK) as [->|]; [|lia]. rewrite E2 in *. lia. }
    unfold at_price. destruct zfo.
    + replace (t - 1 + 1) with t by lia. pose proof (sqrt_ratio_mono (t - 1) t). lia.
    + pose proof (sqrt_ratio_mono t (t + 1)). lia.
  - destruct (Z.eqb_spec p' (lp_sqrt_price st)) as [Es|Es]; cbn [negb].
    + exists (lp_tick st), (lp_crossed st). rewrite (li_liquidity _ _ Hinv). split; [done|]. rewrite Es.
      split; [exact (li_at _ _ Hinv)|]. split; [|intros E; destruct Ep; rewrite Es; exact E].
      rewrite <- (li_liquidity _ _ Hinv). exact (li_crossed _ _ Hinv).
    + assert (Hp2 : MIN_SQRT_RATIO <= p' < MAX_SQRT_RATIO) by lia.
      rewrite (tick_at_price p' Hp2). osimpl. destruct (tick_of_price p' Hp2) as (Hg & Hg1 & Hg2).
      generalize dependent (greatest_tick p'). intros t' Hg Hg1 Hg2. exists t', (lp_crossed st).
      assert (Hact : active positions t' = active positions (lp_tick st)).
      { destruct zfo; destruct Ht as [Ht Hz].
        - assert (t < t' + 1) by (apply sqrt_ratio_lt_inv; lia).
          assert (t' < lp_tick st + 1) by (apply sqrt_ratio_lt_inv; lia).
          apply (active_const s tm positions Hok); [lia|]. intros u Hu. apply Hz. lia.
        - assert (lp_tick st < t' + 1) by (apply sqrt_ratio_lt_inv; lia).
          assert (t' < t) by (apply sqrt_ratio_lt_inv; lia).
          symmetry. apply (active_const s tm positions Hok); [lia|]. intros u Hu. apply Hz. lia. }
      rewrite Hact, <- (li_liquidity _ _ Hinv). split; [reflexivity|]. split; [split; [exact Hg|lia]|].
      split; [exact (li_crossed _ _ Hinv)|intros E; destruct (Ep E)].
Qed.

(** The fees of a step. *)
Lemma share_spec x : 0 <= x < 2 ^ 256 -> exists d, swap_protocol_share fee_protocol x = Ok d /\ 0 <= d <= x.
Proof.
  intros Hx. unfold swap_protocol_share. destruct (Z.ltb_spec 0 fee_protocol) as [H|H].
  - rewrite div_checked_spec by (unfold u256; lia). eexists. split; [done|].
    split; [apply Z.div_pos; lia|apply Z.div_le_upper_bound; nia].
  - exists 0. split; [done|lia].
Qed.

Lemma growth_spec l x g :
  u128 l -> 0 <= x < 2 ^ 256 ->
  let r := if 0 <? l then fee_growth_delta ← mul_div x Q128 l; Ok (u_add g fee_growth_delta) else Ok g in
  (exists g', r = Ok g') \/ (r = Err tt /\ 2 ^ 128 <= x).
Proof.
  intros Hl Hx r. unfold r. unfold u128 in Hl. destruct (Z.ltb_spec 0 l) as [H|H]; [|eauto].
  unfold Q128. rewrite mul_div_spec by (unfold u256; lia). rewrite (proj2 (Z.eqb_neq l 0)) by lia. cbn [orb].
  destruct (Z.leb_spec (2 ^ 256) (x * 2 ^ 128 / l)) as [Hbig|Hsmall]; osimpl; [right|eauto].
  split; [done|]. apply Z.nlt_ge. intros Hlt. assert (x * 2 ^ 128 / l < 2 ^ 256); [|lia].
  apply Z.div_lt_upper_bound; [lia|]. nia.
Qed.

Lemma turn_spec n st :
  loop_inv n st -> 0 <= n < 2 ^ 22 -> lp_remaining st <> 0 -> limit <> lp_sqrt_price st ->
  (swap_turn self exact_input zfo limit fee fee_protocol st = Err tt /\ (exact_input = true -> 2 ^ 128 <= amount)) \/
  exists st', swap_turn self exact_input zfo limit fee fee_protocol st = Ok st' /\ loop_inv (n + 1) st' /\
    (lp_remaining st' = 0 \/ limit = lp_sqrt_price st' \/ if zfo then lp_tick st' < lp_tick st else lp_tick st < lp_tick st').
Proof.
  intros Hinv Hn Hrem Hne. pose proof Hinv as [[Hr Hpr] Hside Hliq Hremain Hcalc Hcross].
  unfold towards in Hside. unfold swap_turn.
  pose proof (next_tick_spec s tm positions (lp_tick st) zfo Hok Hr) as Hnext.
  destruct (next_initialized_tick tm (lp_tick st) zfo) as [next initialized]. set (t := clamp_tick next) in *.
  destruct Hnext as [Hi Ht]. assert (Htr : MIN_TICK <= t <= MAX_TICK) by (destruct zfo; lia).
  rewrite (sqrt_ratio_in t Htr). osimpl. set (target := if _ || _ then limit else sqrt_ratio t).
  pose proof (price_range _ _ (li_at _ _ Hinv)) as Hprange. pose proof (sqrt_ratio_bounds t Htr) as Htb.
  assert (Htarget : target = if zfo then Z.max (sqrt_ratio t) limit else Z.min (sqrt_ratio t) limit).
  { unfold target. destruct zfo; cbn [andb orb negb];
      [destruct (Z.ltb_spec (sqrt_ratio t) limit)|destruct (Z.ltb_spec limit (sqrt_ratio t))]; cbn; lia. }
  assert (Hdir : if zfo then target <= lp_sqrt_price st else lp_sqrt_price st <= target).
  { rewrite Htarget. destruct zfo.
    - pose proof (sqrt_ratio_le t (lp_tick st)). lia.
    - pose proof (sqrt_ratio_le (lp_tick st + 1) t). lia. }
  destruct (step_towards zfo (lp_sqrt_price st) target (lp_active_liquidity st) (lp_remaining st) fee)
    as (q & Eq & Htw & Hin & Hout & Hf & Hex & Hex');
    [by apply price_160|apply price_160; rewrite Htarget; destruct zfo; lia|rewrite Hliq; apply active_u128|destruct exact_input; lia|done|done|].
  rewrite Eq. osimpl. cbn zeta in Htw, Hex, Hex'. set (p' := ss_sqrt_ratio_next_x96 q) in *.
  assert (Hspent : 0 <= ss_amount_in q + ss_fee_amount q < 2 ^ 255 /\ (exact_input = false -> ss_amount_in q + ss_fee_amount q <= 2 ^ 227)).
  { destruct (0 <? amount); [destruct (Hex ltac:(lia)) as [Hx _]|destruct (Hex' ltac:(lia)) as (_ & _ & Hx)]; split; (lia || (intros; lia) || done). }
  destruct Hspent as [Hsp Hsp2].
  rewrite u_add_spec, Z.mod_small by (unfold u256; lia). unfold truncate_to_i256. rewrite (i256_id (ss_amount_in q + _)) by lia.
  rewrite (i256_id (ss_amount_out q)) by lia.
  destruct (share_spec (ss_fee_amount q) ltac:(lia)) as (d & Ed & Hd).
  assert (Hp' : if zfo then Z.max (sqrt_ratio t) limit <= p' <= lp_sqrt_price st
                else lp_sqrt_price st <= p' <= Z.min (sqrt_ratio t) limit).
  { unfold towards in Htw. rewrite Htarget in Htw. destruct zfo; lia. }
  set (rc := if exact_input then (wrap I256 (lp_remaining st - (ss_amount_in q + ss_fee_amount q)), wrap I256 (lp_calculated st - ss_amount_out q))
             else (wrap I256 (lp_remaining st + ss_amount_out q), wrap I256 (lp_calculated st + (ss_amount_in q + ss_fee_amount q)))).
  assert (Hrc : (if exact_input then 0 <= rc.1 <= amount else amount <= rc.1 <= 0) /\
    (if exact_input then - ((n + 1) * 2 ^ 227) <= rc.2 <= 0 else 0 <= rc.2 <= (n + 1) * 2 ^ 227) /\ (p' <> target -> rc.1 = 0)).
  { unfold rc. destruct (0 <? amount); cbn [fst snd].
    - destruct (Hex ltac:(lia)) as [Hx1 Hx2]. rewrite !i256_id by lia. split; [lia|]. split; [lia|]. intros Hpt. specialize (Hx2 Hpt). lia.
    - destruct (Hex' ltac:(lia)) as (Hx1 & Hx2 & _). specialize (Hsp2 eq_refl). rewrite !i256_id by lia. split; [lia|]. split; [lia|].
      intros Hpt. specialize (Hx2 Hpt). lia. }
  destruct rc as [rem' calc']. cbn [fst snd] in Hrc. destruct Hrc as (Hrem' & Hcalc' & Hzero).
  rewrite Ed. osimpl. rewrite (u_sub_spec (ss_fee_amount q) d), Z.mod_small by (unfold u256; lia).
  destruct (growth_spec (lp_active_liquidity st) (ss_fee_amount q - d) (lp_fee_growth st)) as [[g Eg]|[Eg Hbig]];
    [rewrite Hliq; apply active_u128|lia| |].
  - right. destruct (place_spec n st t initialized g p' Hinv Hi Ht Hp') as (tick' & crossed & Epl & Hat & Hcr & Hmove).
    rewrite Eg. osimpl. rewrite Epl. osimpl. eexists. split; [reflexivity|]. split.
    + split; cbn [lp_tick lp_sqrt_price lp_active_liquidity lp_remaining lp_calculated lp_crossed]; [exact Hat| |reflexivity|exact Hrem'|exact Hcalc'|exact Hcr].
      unfold towards. destruct zfo; lia.
    + cbn [lp_tick lp_sqrt_price lp_remaining]. destruct (Z.eq_dec p' target) as [Et|Et]; [|left; by apply Hzero].
      destruct (Z.eq_dec p' (sqrt_ratio t)) as [E|E]; [right; right; by apply Hmove|]. right; left. destruct zfo; lia.
  - left. rewrite Eg. osimpl. split; [reflexivity|]. intros Hpos. rewrite Hpos in *. destruct (Hex ltac:(lia)) as [Hx1 _]. lia.
Qed.

(** How many ticks are left in the direction of the swap. *)
Definition ticks_left (st : SwapLoop) : Z := if zfo then lp_tick st - MIN_TICK else MAX_TICK - lp_tick st.

Lemma loop_spec fuel n st :
  loop_inv n st -> 0 <= n -> n + ticks_left st <= 2 ^ 21 -> ticks_left st + 2 <= Z.of_nat fuel ->
  exists r, swap_loop fuel self exact_input zfo limit fee fee_protocol st = Some r /\
    match r with
    | Ok st' => exists n', loop_inv n' st' /\ n' <= 2 ^ 22 /\ (lp_remaining st' = 0 \/ lp_sqrt_price st' = limit)
    | Err _ => exact_input = true -> 2 ^ 128 <= amount
    | Panic => False
    end.
Proof.
  revert n st. induction fuel as [|fuel IH]; intros n st Hinv Hn Hleft Hfuel.
  { exfalso. destruct (li_at _ _ Hinv) as [Hr _]. unfold ticks_left in Hfuel. destruct zfo; lia. }
  cbn [swap_loop]. destruct (li_at _ _ Hinv) as [Hr _]. assert (Htl : 0 <= ticks_left st) by (unfold ticks_left; destruct zfo; lia).
  destruct (Z.eqb_spec (lp_remaining st) 0) as [E|E]; cbn [negb andb].
  { eexists. split; [reflexivity|]. exists n. split; [exact Hinv|]. split; [lia|by left]. }
  destruct (Z.eqb_spec limit (lp_sqrt_price st)) as [E'|E']; cbn [negb andb].
  { eexists. split; [reflexivity|]. exists n. split; [exact Hinv|]. split; [lia|by right]. }
  destruct (turn_spec n st Hinv ltac:(lia) E E') as [[Et Hb]|(st' & Et & Hinv' & Hprog)]; rewrite Et.
  { eexists. split; [reflexivity|]. exact Hb. }
  assert (Hdone : lp_remaining st' = 0 \/ limit = lp_sqrt_price st' ->
    swap_loop fuel self exact_input zfo limit fee fee_protocol st' = Some (Ok st')).
  { intros Hd. destruct fuel as [|fuel]; [unfold ticks_left in *; lia|]. cbn [swap_loop].
    destruct Hd as [Hd|Hd]; [rewrite Hd; reflexivity|]. rewrite Hd, Z.eqb_refl. by rewrite andb_false_r. }
  destruct Hprog as [Hz|[Hz|Hmove]].
  - rewrite Hdone by (by left). eexists. split; [reflexivity|]. exists (n + 1). split; [exact Hinv'|]. split; [lia|by left].
  - rewrite Hdone by (by right). eexists. split; [reflexivity|]. exists (n + 1). split; [exact Hinv'|]. split; [lia|by right].
  - apply (IH (n + 1)); [exact Hinv'|lia| |]; unfold ticks_left in *; destruct zfo; lia.
Qed.
End loop.
