(* ===== verification/PoolFlags.v ===== *)
(** * The data of the ticks of a pool

    Each entry of the tick map says which tick it is for and whether the tick
    carries liquidity; a snapshot is restored from these entries alone. *)

From stdpp Require Import base numbers list gmap strings.
From Stdlib Require Import Lia ZArith.
From S2P Require Import Prelude FullMath TickBitmap TickMap TickMath SqrtPrice SwapMath Pool PoolInv.

Open Scope Z_scope.

Section flags.
Context {UL : U256Lib} {AF : AddressFmt}.

(** The data of a tick says which tick it is and whether it has liquidity. *)
Definition tick_data_ok (t : Z) (d : PoolTick) : Prop :=
  pt_value d = t /\ pt_initialized d = negb (pt_liquidity_gross d =? 0).

Definition tick_flags (tm : TickMap) : Prop := map_Forall tick_data_ok (tm_ticks tm).

Lemma get_tick_or_init_flags tm tick d tm1 :
  tick_flags tm -> get_tick_or_init tm tick = (d, tm1) -> tick_flags tm1 /\ tick_data_ok tick d.
Proof.
  intros Hf. unfold get_tick_or_init. destruct (tm_ticks tm !! tick) as [p|] eqn:E; intros [= <- <-].
  - split; [done|exact (Hf _ _ E)].
  - split; [|done]. by apply map_Forall_insert_2.
Qed.

Lemma cross_flags tm tick f0 f1 : tick_flags tm -> tick_flags (cross_tick tm tick f0 f1).2.
Proof.
  intros Hf. unfold cross_tick. destruct (get_tick_or_init tm tick) as [d tm1] eqn:E.
  apply get_tick_or_init_flags in E as [Hf1 Hd]; [|done]. cbn. by apply map_Forall_insert_2.
Qed.

Lemma crossings_flags tm l tm' : tick_flags tm -> apply_crossings tm l = Ok tm' -> tick_flags tm'.
Proof.
  revert tm'. induction l as [|c l IH] using rev_ind; intros tm' Hf; [by intros [= <-]|]. rewrite apply_crossings_snoc. intros H.
  apply bind_Ok_inv in H as (tm1 & H1 & H). pose proof (cross_flags tm1 (cr_tick c) (cr_fee_growth_0 c) (cr_fee_growth_1 c) (IH _ Hf H1)) as H2.
  destruct (cross_tick _ _ _ _) as [n tm2]. apply bind_Ok_inv in H as (q & _ & H). injection H as <-. exact H2.
Qed.

(** A tick after its update: initialised, with the new liquidity. *)
Lemma update_tick_ticks tm tick cur delta upper f0 f1 fl tm' :
  (forall d, tm_ticks tm !! tick = Some d -> tick_data_ok tick d) -> tick_map_update tm tick cur delta upper f0 f1 = Ok (fl, tm') ->
  exists d, tm_ticks tm' = <[tick := d]> (tm_ticks tm) /\ pt_value d = tick /\ pt_initialized d = true.
Proof.
  intros Hf H. unfold tick_map_update in H. apply bind_Ok_inv in H as ([b tm1] & Hu & H).
  assert (Et : tm_ticks tm' = tm_ticks tm1) by (destruct b; [apply bind_Ok_inv in H as (? & _ & H)|]; injection H as _ <-; done).
  rewrite Et. unfold update_tick_data in Hu. destruct (get_tick_or_init tm tick) as [d tm0] eqn:E.
  assert (Hd : tick_data_ok tick d).
  { revert E. unfold get_tick_or_init. destruct (tm_ticks tm !! tick) eqn:El; intros [= <- <-]; [by apply Hf|done]. }
  destruct Hd as [Hv Hi].
  assert (E0 : forall x, <[tick := x]> (tm_ticks tm0) = <[tick := x]> (tm_ticks tm)).
  { intros x. revert E. unfold get_tick_or_init. destruct (_ !! _); intros [= <- <-]; [done|]. cbn. apply insert_insert_eq. }
  apply bind_Ok_inv in Hu as ([gb d1] & Hu & H1). apply bind_Ok_inv in H1 as (? & _ & H1). injection H1 as _ <-. cbn. rewrite E0.
  apply bind_Ok_inv in Hu as (g & _ & Hu). injection Hu as <- <-.
  eexists. split; [reflexivity|]. destruct (pt_liquidity_gross d =? 0); cbn; [destruct (_ <=? _)|]; done.
Qed.

Lemma fee_growth_inside_ticks tm lower upper cur f0 f1 :
  is_Some (tm_ticks tm !! lower) -> is_Some (tm_ticks tm !! upper) -> (get_fee_growth_inside tm lower upper cur f0 f1).2 = tm.
Proof.
  intros [a Ha] [b Hb]. unfold get_fee_growth_inside, get_tick_or_init. rewrite Ha, Hb. cbn. rewrite Ha. done.
Qed.

(** A tick the update leaves without liquidity was flipped by a burn. *)
Lemma update_flipped tm tick cur delta upper f0 f1 fl tm' :
  tick_map_ok tm -> valid_tick (tb_tick_spacing (tm_tick_bitmap tm)) tick -> - 2 ^ 127 <= delta < 2 ^ 127 ->
  delta <> 0 \/ gross tm tick <> 0 ->
  tick_map_update tm tick cur delta upper f0 f1 = Ok (fl, tm') -> gross tm' tick = 0 -> (delta <? 0) && fl = true.
Proof.
  intros Hok Hv Hd Ht H Hz. pose proof (tick_map_update_spec tm tick cur delta upper f0 f1 Hok Hv Hd) as Hs. cbn zeta in Hs. rewrite H in Hs.
  destruct ((0 <=? gross tm tick + delta) && _); [|done]. destruct Hs as (tm1 & [= -> <-] & _ & _ & _ & Hg). rewrite Hg, decide_True in Hz by done.
  pose proof (tk_range _ Hok tick). rewrite Hz. cbn. destruct (Z.eqb_spec (gross tm tick) 0); [lia|]. cbn.
  rewrite andb_true_r. apply Z.ltb_lt. lia.
Qed.

Lemma gross_lookup tm t d : tm_ticks tm !! t = Some d -> gross tm t = pt_liquidity_gross d.
Proof. intros H. unfold gross. by rewrite H. Qed.

(** The two ticks of a position are in order or dropped. *)
Lemma cleared_flags tm l u d1 d2 m (b1 b2 : bool) :
  tm_ticks tm = <[u := d2]> (<[l := d1]> m) -> map_Forall tick_data_ok m ->
  b1 = true \/ tick_data_ok l d1 -> b2 = true \/ tick_data_ok u d2 ->
  let tm5 := if b1 then tick_map_clear tm l else tm in
  tick_flags (if b2 then tick_map_clear tm5 u else tm5).
Proof.
  intros E Hm H1 H2 tm5 t d Ht.
  assert (G : tm_ticks tm !! t = Some d -> (t = l -> b1 = false) -> (t = u -> b2 = false) -> tick_data_ok t d).
  { rewrite E. intros Hlk F1 F2. apply lookup_insert_Some in Hlk as [[<- <-]|[_ Hlk]].
    - destruct H2 as [H2|]; [by rewrite F2 in H2|done].
    - apply lookup_insert_Some in Hlk as [[<- <-]|[_ Hlk]]; [|by apply Hm]. destruct H1 as [H1|]; [by rewrite F1 in H1|done]. }
  unfold tm5 in Ht. destruct b1, b2; cbn in Ht.
  - apply lookup_delete_Some in Ht as [? Ht]. apply lookup_delete_Some in Ht as [? Ht]. apply G; congruence.
  - apply lookup_delete_Some in Ht as [? Ht]. apply G; congruence.
  - apply lookup_delete_Some in Ht as [? Ht]. apply G; congruence.
  - apply G; congruence.
Qed.

Lemma delta_flags s self k p delta a0 a1 self' :
  liquidity_ok s (pf_tick_map self) (pf_positions self) -> pf_positions self !! k = Some p -> - 2 ^ 127 < delta < 2 ^ 127 -> tick_flags (pf_tick_map self) ->
  delta <> 0 \/ (gross (pf_tick_map self) (pq_tick_lower p) <> 0 /\ gross (pf_tick_map self) (pq_tick_upper p) <> 0) ->
  apply_position_delta self k p (pq_tick_lower p) (pq_tick_upper p) delta a0 a1 = Ok self' -> tick_flags (pf_tick_map self').
Proof.
  intros Hl Hk Hd Hf Ht H.
  destruct (lk_positions _ _ _ Hl k p Hk) as [_ (Hvl & Hvu & Hlu & _)].
  set (l := pq_tick_lower p) in *. set (u := pq_tick_upper p) in *. set (tm := pf_tick_map self) in *.
  unfold apply_position_delta in H. apply bind_Ok_inv in H as ([fl tm1] & H1 & H). apply bind_Ok_inv in H as ([fu tm2] & H2 & H). fold tm in H1.
  destruct (update_tick_ticks _ _ _ _ _ _ _ _ _ (fun d => Hf l d) H1) as (d1 & T1 & V1 & I1).
  pose proof (tick_map_update_spec tm l (po_current_tick (pf_state self)) delta false (po_fee_growth_global_0 (pf_state self))
    (po_fee_growth_global_1 (pf_state self)) (lk_map _ _ _ Hl) ltac:(rewrite (lk_spacing _ _ _ Hl); exact Hvl) ltac:(lia)) as Hs.
  cbn zeta in Hs. rewrite H1 in Hs. destruct ((0 <=? gross tm l + delta) && _); [|done].
  destruct Hs as (tm1' & [= Efl <-] & Ok1 & S1 & M1 & G1). clear Efl.
  assert (C1 : gross tm1 l = 0 -> (delta <? 0) && fl = true).
  { eapply update_flipped; [apply Hl|rewrite (lk_spacing _ _ _ Hl); exact Hvl|lia|tauto|exact H1]. }
  assert (C2 : gross tm2 u = 0 -> (delta <? 0) && fu = true).
  { eapply (update_flipped tm1); [exact Ok1|rewrite S1, (lk_spacing _ _ _ Hl); exact Hvu|lia|rewrite G1, decide_False by lia; tauto|exact H2]. }
  assert (T2 : exists d2, tm_ticks tm2 = <[u := d2]> (tm_ticks tm1) /\ pt_value d2 = u /\ pt_initialized d2 = true).
  { eapply update_tick_ticks; [|exact H2]. intros d. rewrite T1, lookup_insert_ne by lia. apply Hf. }
  destruct T2 as (d2 & T2 & V2 & I2).
  pose proof (fee_growth_inside_ticks tm2 l u (po_current_tick (pf_state self)) (po_fee_growth_global_0 (pf_state self))
    (po_fee_growth_global_1 (pf_state self))) as Hfee.
  destruct (get_fee_growth_inside tm2 _ _ _ _ _) as [[i0 i1] tm3]. cbn [snd] in Hfee.
  rewrite Hfee in H; [|rewrite T2, lookup_insert_ne, T1, lookup_insert_eq by lia; by eexists|rewrite T2, lookup_insert_eq; by eexists].
  apply bind_Ok_inv in H as (p' & _ & H). apply bind_Ok_inv in H as (tm4 & H4 & H). injection H as <-. cbn.
  assert (T4 : tm_ticks tm4 = <[u := d2]> (<[l := d1]> (tm_ticks tm))).
  { rewrite <- T1, <- T2. destruct (_ && _); [|by injection H4 as <-]. destruct (liquidity_math_add _ _); [|done..]. by injection H4 as <-. }
  assert (G1' : gross tm1 l = pt_liquidity_gross d1) by (apply gross_lookup; by rewrite T1, lookup_insert_eq).
  assert (G2' : gross tm2 u = pt_liquidity_gross d2) by (apply gross_lookup; by rewrite T2, lookup_insert_eq).
  rewrite G1' in C1. rewrite G2' in C2. apply (cleared_flags tm4 l u d1 d2 (tm_ticks tm)); try done.
  - destruct ((delta <? 0) && fl); [by left|]. right. split; [done|]. rewrite I1. symmetry. apply negb_true_iff, Z.eqb_neq. intros E. by apply C1 in E.
  - destruct ((delta <? 0) && fu); [by left|]. right. split; [done|]. rewrite I2. symmetry. apply negb_true_iff, Z.eqb_neq. intros E. by apply C2 in E.
Qed.
End flags.
