(* ===== verification/PoolSpec.v ===== *)
(** * Pools: what the operations preserve

    Over every history of a pool the active liquidity, which a swap keeps up to
    date tick by tick, is the liquidity of the positions that span the current
    tick; a swap ends and respects its limit and its amount. *)

From stdpp Require Import base numbers list gmap strings pretty.
From Stdlib Require Import Lia ZArith.
From S2P Require Import Prelude F64 FullMath TickBitmap TickMap TickMath TickLog SqrtPrice SwapMath Pool PoolInv PoolSwap PoolFlags.

Open Scope Z_scope.

Section pool.
Context {UL : U256Lib} {AF : AddressFmt}.

(** In a strict history no position is changed by zero whose ticks carry no
    liquidity; only then do the tick data say which ticks are in use. *)
Variable strict : bool.

Implicit Type self : PoolProfiler.

Record pool_ok (s : Z) self : Prop := {
  pk_spacing : pd_tick_spacing (pf_pool self) = Some s;
  pk_fee f : pd_fee (pf_pool self) = Some f -> 0 <= f <= MAX_FEE / 2;
  pk_liquidity : liquidity_ok s (pf_tick_map self) (pf_positions self);
  pk_protocol : 0 <= po_fee_protocol (pf_state self) < 256;
  pk_price : pf_is_initialized self = true -> at_price (po_current_tick (pf_state self)) (po_price_sqrt_ratio_x96 (pf_state self));
  pk_active : tm_liquidity (pf_tick_map self) = active (pf_positions self) (po_current_tick (pf_state self));
  pk_fresh : pf_is_initialized self = false -> pf_positions self = ∅;
  pk_flags : strict = true -> tick_flags (pf_tick_map self);
}.

(** ** Swaps *)

(** What a quote promises. *)
Record quote_ok self (amount : Z) (zfo : bool) (limit : Z) (q : SwapQuote) : Prop := {
  qk_towards : towards zfo (po_price_sqrt_ratio_x96 (pf_state self)) limit (sq_sqrt_price_after_x96 q);
  qk_tick : at_price (sq_tick_after q) (sq_sqrt_price_after_x96 q);
  qk_liquidity : sq_liquidity_after q = active (pf_positions self) (sq_tick_after q);
  qk_input : 0 <= (if zfo then sq_amount0 q else sq_amount1 q);
  qk_output : (if zfo then sq_amount1 q else sq_amount0 q) <= 0;
  qk_exact_in : 0 < amount ->
    (if zfo then sq_amount0 q else sq_amount1 q) <= amount /\
    (sq_sqrt_price_after_x96 q <> limit -> (if zfo then sq_amount0 q else sq_amount1 q) = amount);
  qk_exact_out : amount <= 0 ->
    amount <= (if zfo then sq_amount1 q else sq_amount0 q) /\
    (sq_sqrt_price_after_x96 q <> limit -> (if zfo then sq_amount1 q else sq_amount0 q) = amount);
}.

Lemma fee_protocol_range s self zfo : pool_ok s self -> 0 <= swap_fee_protocol self zfo < 16.
Proof.
  intros Hok. pose proof (pk_protocol _ _ Hok). unfold swap_fee_protocol. destruct zfo; [apply Z.mod_pos_bound; lia|].
  split; [apply Z.div_pos; lia|apply Z.div_lt_upper_bound; lia].
Qed.

Lemma simulate_spec s self fuel amount (zfo : bool) limit f :
  pool_ok s self -> pf_is_initialized self = true -> pd_fee (pf_pool self) = Some f ->
  - 2 ^ 255 <= amount < 2 ^ 255 -> MIN_SQRT_RATIO < limit < MAX_SQRT_RATIO ->
  (if zfo then limit <= po_price_sqrt_ratio_x96 (pf_state self) else po_price_sqrt_ratio_x96 (pf_state self) <= limit) ->
  2 ^ 21 <= Z.of_nat fuel ->
  exists r : outcome unit SwapQuote, simulate_swap_through_ticks fuel self amount zfo limit = Some r /\
    match r with
    | Ok q => quote_ok self amount zfo limit q /\
        exists tm', apply_crossings (pf_tick_map self) (sq_crossed_ticks q) = Ok tm' /\
          same_liquidity (pf_tick_map self) tm' /\ tm_liquidity tm' = sq_liquidity_after q
    | Err _ => 0 < amount -> 2 ^ 128 <= amount
    | Panic => False
    end.
Proof.
  intros Hok Hinit Hf Ha Hl Hside Hfuel. unfold simulate_swap_through_ticks. rewrite Hf.
  pose proof (pk_price _ _ Hok Hinit) as Hat. pose proof Hat as [Hr _].
  set (st := swap_start self amount zfo).
  assert (Hinv : loop_inv self zfo limit amount 0 st).
  { split; cbn.
    - exact Hat.
    - unfold towards. destruct zfo; lia.
    - exact (pk_active _ _ Hok).
    - destruct (Z.ltb_spec 0 amount); lia.
    - destruct (0 <? amount); lia.
    - exists (pf_tick_map self). split; [reflexivity|]. split; [apply same_liquidity_refl|reflexivity]. }
  assert (Hleft : 0 + ticks_left zfo st <= 2 ^ 21 /\ ticks_left zfo st + 2 <= Z.of_nat fuel).
  { unfold ticks_left, st. cbn. unfold MIN_TICK, MAX_TICK in *. destruct zfo; lia. }
  destruct (loop_spec self s zfo limit f (swap_fee_protocol self zfo) amount (pk_liquidity _ _ Hok) Hl
    (pk_fee _ _ Hok f Hf) (fee_protocol_range s self zfo Hok) Ha fuel 0 st Hinv ltac:(lia) (proj1 Hleft) (proj2 Hleft)) as (r & Er & Hr').
  rewrite Er. cbn. eexists. split; [reflexivity|]. destruct r as [st'|[]|]; cbn; [|intros H; apply Hr'; by apply Z.ltb_lt|done].
  destruct Hr' as (n' & Hinv' & Hn' & Hend). destruct Hinv' as [Hat' Hside' Hliq' Hrem' Hcalc' Hcr'].
  assert (Hused : wrap I256 (amount - lp_remaining st') = amount - lp_remaining st').
  { apply i256_id. destruct (Z.ltb_spec 0 amount); lia. }
  split.
  - unfold swap_quote_of. rewrite Hused.
    destruct zfo, (Z.ltb_spec 0 amount); cbn [Bool.eqb]; split; cbn; try done; try lia.
  - unfold swap_quote_of. destruct (Bool.eqb _ _); cbn; exact Hcr'.
Qed.

Lemma swap_applied s self fuel amount (zfo : bool) limit f q :
  pool_ok s self -> pf_is_initialized self = true -> pd_fee (pf_pool self) = Some f ->
  - 2 ^ 255 <= amount < 2 ^ 255 -> MIN_SQRT_RATIO < limit < MAX_SQRT_RATIO ->
  (if zfo then limit <= po_price_sqrt_ratio_x96 (pf_state self) else po_price_sqrt_ratio_x96 (pf_state self) <= limit) ->
  2 ^ 21 <= Z.of_nat fuel ->
  simulate_swap_through_ticks fuel self amount zfo limit = Some (Ok q) ->
  exists self', apply_swap_quote self q = Ok self' /\ pool_ok s self' /\ pf_positions self' = pf_positions self /\
    pf_is_initialized self' = true /\ po_current_tick (pf_state self') = sq_tick_after q /\
    po_price_sqrt_ratio_x96 (pf_state self') = sq_sqrt_price_after_x96 q /\ tm_liquidity (pf_tick_map self') = sq_liquidity_after q.
Proof.
  intros Hok Hinit Hf Ha Hl Hside Hfuel Hs.
  destruct (simulate_spec s self fuel amount zfo limit f Hok Hinit Hf Ha Hl Hside Hfuel) as (r & Er & Hr).
  rewrite Hs in Er. injection Er as <-. destruct Hr as [Hq (tm' & Hc & Hsame & Hliq)]. unfold apply_swap_quote. rewrite Hc. osimpl.
  eexists. split; [reflexivity|]. destruct Hok as [K1 K2 K3 K4 K5 K6 K7 K8]. destruct Hq as [Q1 Q2 Q3 Q4 Q5 Q6 Q7].
  assert (G : forall st : PoolState, po_current_tick st = sq_tick_after q -> po_price_sqrt_ratio_x96 st = sq_sqrt_price_after_x96 q ->
    po_fee_protocol st = po_fee_protocol (pf_state self) ->
    pool_ok s (self <| pf_state := st |> <| pf_tick_map := tm' |>
      <| pf_analytics := (pf_analytics self) <| an_total_swaps := wrap U64 (an_total_swaps (pf_analytics self) + 1) |> |>)).
  { intros st E1 E2 E3. split; cbn.
    - exact K1.
    - exact K2.
    - eapply same_liquidity_ok; [exact Hsame|exact K3].
    - rewrite E3. exact K4.
    - intros _. rewrite E1, E2. exact Q2.
    - rewrite E1, Hliq. exact Q3.
    - rewrite Hinit. discriminate.
    - intros Hst. by eapply crossings_flags; [apply K8|]. }
  split; [apply G; by destruct (quote_zero_for_one q)|]. cbn. split; [reflexivity|]. split; [exact Hinit|].
  destruct (quote_zero_for_one q); cbn; split_and!; (reflexivity || exact Hliq).
Qed.

(** ** Liquidity *)

Lemma update_tick_data_net tm tick cur delta upper f0 f1 fl tm' :
  update_tick_data tm tick cur delta upper f0 f1 = Ok (fl, tm') ->
  tm_liquidity tm' = tm_liquidity tm /\
  forall t, net tm' t = if decide (t = tick) then wrap I128 (if upper then net tm tick - delta else net tm tick + delta) else net tm t.
Proof.
  unfold update_tick_data. destruct (get_tick_or_init tm tick) as [d tm1] eqn:E.
  apply get_tick_or_init_same in E as (Hs & Hl & Hn & Hg). intros H. apply bind_Ok_inv in H as ([gb d1] & Hu & H).
  apply bind_Ok_inv in H as (? & _ & H). injection H as _ <-. cbn. split; [exact Hl|]. intros t. unfold net at 1. cbn.
  apply bind_Ok_inv in Hu as (g & _ & Hu). injection Hu as _ <-. rewrite <- Hn.
  destruct (decide (t = tick)) as [->|Hne].
  - rewrite lookup_insert_eq. destruct (gb =? 0); cbn; [destruct (_ <=? cur); cbn|]; by destruct upper.
  - rewrite lookup_insert_ne by done. rewrite <- (sl_net _ _ Hs). reflexivity.
Qed.

Lemma tick_map_update_net tm tick cur delta upper f0 f1 fl tm' :
  tick_map_update tm tick cur delta upper f0 f1 = Ok (fl, tm') ->
  tm_liquidity tm' = tm_liquidity tm /\
  forall t, net tm' t = if decide (t = tick) then wrap I128 (if upper then net tm tick - delta else net tm tick + delta) else net tm t.
Proof.
  unfold tick_map_update. intros H. apply bind_Ok_inv in H as ([b tm1] & Hu & H). apply update_tick_data_net in Hu.
  destruct b; [apply bind_Ok_inv in H as (bm & _ & H)|]; injection H as _ <-; exact Hu.
Qed.

Lemma fee_growth_inside_same tm lower upper cur f0 f1 :
  same_liquidity tm (get_fee_growth_inside tm lower upper cur f0 f1).2 /\
  tm_liquidity (get_fee_growth_inside tm lower upper cur f0 f1).2 = tm_liquidity tm.
Proof.
  unfold get_fee_growth_inside. destruct (get_tick_or_init tm lower) as [a1 tm1] eqn:E1.
  destruct (get_tick_or_init tm1 upper) as [a2 tm2] eqn:E2. destruct (get_tick_or_init tm2 lower) as [a3 tm3] eqn:E3. cbn.
  apply get_tick_or_init_same in E1 as (S1 & L1 & _), E2 as (S2 & L2 & _), E3 as (S3 & L3 & _).
  split; [|congruence]. eapply same_liquidity_trans; [|exact S3]. eapply same_liquidity_trans; [exact S1|exact S2].
Qed.

Lemma clear_same tm tick : gross tm tick = 0 -> net tm tick = 0 -> same_liquidity tm (tick_map_clear tm tick).
Proof.
  intros Hg Hn. split; [done|done| |]; intros t; unfold gross, net, tick_map_clear, set_ticks in *; cbn;
    (destruct (decide (t = tick)) as [->|]; [rewrite lookup_delete_eq; congruence|by rewrite lookup_delete_ne]).
Qed.

Lemma position_fees_liquidity p g0 g1 :
  u128 (pq_liquidity p) -> exists p', position_update_fees p g0 g1 = Ok p' /\
    pq_owner p' = pq_owner p /\ pq_tick_lower p' = pq_tick_lower p /\ pq_tick_upper p' = pq_tick_upper p /\ pq_liquidity p' = pq_liquidity p.
Proof.
  intros Hl. unfold position_update_fees. destruct (Z.ltb_spec 0 (pq_liquidity p)); osimpl; [|by eexists].
  assert (Hsat : forall a b, u256 (u256_saturating_sub a b)).
  { intros a b. unfold u256_saturating_sub. pose proof (saturate_in_ty U256 (a - b)) as H1. apply in_ty_spec in H1.
    change (imin U256) with 0 in H1. change (imax U256) with (2 ^ 256 - 1) in H1. unfold u256. lia. }
  assert (Hmd : forall a, u256 a -> exists r, or_zero (E := unit) (mul_div a (pq_liquidity p) Q128) = Ok r).
  { intros a Hx. unfold u128, Q128 in *. rewrite mul_div_spec by (unfold u256 in *; lia). destruct (_ || _); eexists; reflexivity. }
  destruct (Hmd _ (Hsat g0 (pq_fee_growth_inside_0_last p))) as [r0 ->]. destruct (Hmd _ (Hsat g1 (pq_fee_growth_inside_1_last p))) as [r1 ->].
  osimpl. eexists. split; [reflexivity|]. done.
Qed.

(** A position whose liquidity changed by [delta]. *)
Definition moved (delta : Z) (p p' : PoolPosition) : Prop :=
  pq_owner p' = pq_owner p /\ pq_tick_lower p' = pq_tick_lower p /\ pq_tick_upper p' = pq_tick_upper p /\
  pq_liquidity p' = pq_liquidity p + delta.

Lemma moved_lower delta p p' t : moved delta p p' -> liq_lower t p' = liq_lower t p + if decide (t = pq_tick_lower p) then delta else 0.
Proof. intros (_ & El & _ & E). unfold liq_lower. rewrite El, E. case_decide; destruct (Z.eqb_spec (pq_tick_lower p) t); lia. Qed.

Lemma moved_upper delta p p' t : moved delta p p' -> liq_upper t p' = liq_upper t p + if decide (t = pq_tick_upper p) then delta else 0.
Proof. intros (_ & _ & Eu & E). unfold liq_upper. rewrite Eu, E. case_decide; destruct (Z.eqb_spec (pq_tick_upper p) t); lia. Qed.

Lemma moved_at delta p p' t :
  moved delta p p' -> liq_at t p' = liq_at t p + if (pq_tick_lower p <=? t) && (t <? pq_tick_upper p) then delta else 0.
Proof. intros (_ & El & Eu & E). unfold liq_at. rewrite El, Eu, E. case_match; lia. Qed.

Lemma psum_replace f m k p p' : m !! k = Some p -> psum f (<[k := p']> m) = psum f m - f p + f p'.
Proof. intros H. rewrite psum_insert. unfold entry. by rewrite H. Qed.

Lemma psum_ge f m k p : map_Forall (fun _ p => 0 <= f p) m -> m !! k = Some p -> f p <= psum f m.
Proof.
  intros Hm Hk. rewrite (psum_delete f m k p Hk).
  assert (0 <= psum f (delete k m)) by (apply psum_nonneg; by apply map_Forall_delete). lia.
Qed.

(** The ticks of a position carry its liquidity. *)
Lemma liq_lower_le s tm m k p :
  liquidity_ok s tm m -> m !! k = Some p -> pq_liquidity p <= psum (liq_lower (pq_tick_lower p)) m.
Proof.
  intros Hok Hk. replace (pq_liquidity p) with (liq_lower (pq_tick_lower p) p) at 1 by (unfold liq_lower; by rewrite Z.eqb_refl).
  eapply psum_ge; [|exact Hk]. eapply map_Forall_impl; [exact (wf_positions _ _ _ Hok)|].
  intros ? q (_ & _ & _ & ?). cbn. unfold liq_lower. case_match; lia.
Qed.

Lemma liq_upper_le s tm m k p :
  liquidity_ok s tm m -> m !! k = Some p -> pq_liquidity p <= psum (liq_upper (pq_tick_upper p)) m.
Proof.
  intros Hok Hk. replace (pq_liquidity p) with (liq_upper (pq_tick_upper p) p) at 1 by (unfold liq_upper; by rewrite Z.eqb_refl).
  eapply psum_ge; [|exact Hk]. eapply map_Forall_impl; [exact (wf_positions _ _ _ Hok)|].
  intros ? q (_ & _ & _ & ?). cbn. unfold liq_upper. case_match; lia.
Qed.

(** The two tick updates of a position. *)
Lemma position_ticks s tm m k p p' cur delta f0 f1 f0' f1' :
  liquidity_ok s tm m -> m !! k = Some p -> moved delta p p' -> - 2 ^ 127 < delta < 2 ^ 127 -> 0 <= pq_liquidity p' < 2 ^ 128 ->
  let l := pq_tick_lower p in let u := pq_tick_upper p in
  let max := tm_max_liquidity_per_tick tm in
  if (gross tm l + delta <=? max) && (gross tm u + delta <=? max)
  then exists fl fu tm1 tm2,
    tick_map_update tm l cur delta false f0 f1 = Ok (fl, tm1) /\
    tick_map_update tm1 u cur delta true f0' f1' = Ok (fu, tm2) /\
    liquidity_ok s tm2 (<[k := p']> m) /\ tm_liquidity tm2 = tm_liquidity tm /\
    (delta < 0 -> fl = true -> gross tm2 l = 0) /\ (delta < 0 -> fu = true -> gross tm2 u = 0)
  else tick_map_update tm l cur delta false f0 f1 = Panic \/
    exists fl tm1, tick_map_update tm l cur delta false f0 f1 = Ok (fl, tm1) /\ tick_map_update tm1 u cur delta true f0' f1' = Panic.
Proof.
  intros Hok Hk Hm Hd Hl' l u max.
  pose proof (lk_positions _ _ _ Hok k p Hk) as [Ek (Hvl & Hvu & Hlu & Hl)]. fold l u in Ek, Hvl, Hvu, Hlu.
  pose proof (liq_lower_le _ _ _ _ _ Hok Hk) as Gl. pose proof (liq_upper_le _ _ _ _ _ Hok Hk) as Gu. fold l in Gl. fold u in Gu.
  pose proof (lower_nonneg _ _ _ Hok l) as Ll. pose proof (upper_nonneg _ _ _ Hok l) as Lu.
  pose proof (lower_nonneg _ _ _ Hok u) as Ul. pose proof (upper_nonneg _ _ _ Hok u) as Uu.
  pose proof (lk_gross _ _ _ Hok l) as El. pose proof (lk_gross _ _ _ Hok u) as Eu.
  pose proof (lk_net _ _ _ Hok l) as Nl. pose proof (lk_net _ _ _ Hok u) as Nu.
  pose proof Hm as (E1 & E2 & E3 & E4).
  destruct (max_bound s (lk_range _ _ _ Hok)) as [Hmax _]. rewrite <- (lk_max _ _ _ Hok) in Hmax. fold max in Hmax.
  pose proof (tick_map_update_spec tm l cur delta false f0 f1 (lk_map _ _ _ Hok)
    ltac:(rewrite (lk_spacing _ _ _ Hok); exact Hvl) ltac:(lia)) as T1. cbn zeta in T1.
  rewrite (proj2 (Z.leb_le 0 (gross tm l + delta))) in T1 by lia. cbn [andb] in T1. fold max in T1.
  destruct (Z.leb_spec (gross tm l + delta) max) as [Hx|Hx]; cbn [andb]; [|by left].
  destruct T1 as (tm1 & U1 & Ok1 & S1 & M1 & G1).
  pose proof (tick_map_update_spec tm1 u cur delta true f0' f1' Ok1
    ltac:(rewrite S1, (lk_spacing _ _ _ Hok); exact Hvu) ltac:(lia)) as T2. cbn zeta in T2.
  rewrite G1, decide_False, M1 in T2 by lia. fold max in T2.
  rewrite (proj2 (Z.leb_le 0 (gross tm u + delta))) in T2 by lia. cbn [andb] in T2.
  destruct (Z.leb_spec (gross tm u + delta) max) as [Hy|Hy]; cbn [andb]; [|right; eexists _, tm1; done].
  destruct T2 as (tm2 & U2 & Ok2 & S2 & M2 & G2).
  eexists _, _, tm1, tm2. split; [exact U1|]. split; [exact U2|].
  apply tick_map_update_net in U1 as [L1 N1], U2 as [L2 N2].
  split; [|split; [congruence|]].
  - split.
    + exact Ok2.
    + rewrite S2, S1. apply Hok.
    + apply Hok.
    + rewrite M2. apply Hok.
    + apply map_Forall_insert_2; [|apply Hok]. split; [by rewrite E1, E2, E3|]. unfold position_wf. rewrite E2, E3. done.
    + intros t. rewrite G2, G1. rewrite !(psum_replace _ m k p p' Hk), (moved_lower _ _ _ t Hm), (moved_upper _ _ _ t Hm).
      fold l u. pose proof (lk_gross _ _ _ Hok t). repeat case_decide; subst; lia.
    + intros t. rewrite N2, !N1. rewrite !(psum_replace _ m k p p' Hk), (moved_lower _ _ _ t Hm), (moved_upper _ _ _ t Hm).
      fold l u. pose proof (lk_net _ _ _ Hok t).
      repeat case_decide; subst; try lia; rewrite i128_id; lia.
  - split; intros Hneg Hf.
    + rewrite G2, G1, decide_False, decide_True by lia. destruct (Z.eqb_spec (gross tm l + delta) 0); [done|].
      destruct (Z.eqb_spec (gross tm l) 0); [lia|done].
    + rewrite G2, decide_True by lia. destruct (Z.eqb_spec (gross tm u + delta) 0); [done|].
      destruct (Z.eqb_spec (gross tm u) 0); [lia|done].
Qed.

(** A burned tick that is no longer referenced is dropped. *)
Lemma clear_flipped s tm m b tick :
  liquidity_ok s tm m -> (b = true -> gross tm tick = 0) ->
  same_liquidity tm (if b then tick_map_clear tm tick else tm) /\
  tm_liquidity (if b then tick_map_clear tm tick else tm) = tm_liquidity tm.
Proof.
  intros Hok Hb. destruct b; [|split; [apply same_liquidity_refl|done]]. split; [|done].
  apply clear_same; [by apply Hb|]. eapply net_zero; [exact Hok|by apply Hb].
Qed.

Lemma active_replace s tm m k p p' delta t :
  liquidity_ok s tm m -> m !! k = Some p -> moved delta p p' ->
  active (<[k := p']> m) t = active m t + if (pq_tick_lower p <=? t) && (t <? pq_tick_upper p) then delta else 0.
Proof. intros Hok Hk Hm. unfold active. rewrite (psum_replace _ m k p p' Hk), (moved_at _ _ _ t Hm). lia. Qed.

(** The position itself: no saturation while the result fits. *)
Lemma position_moved p delta g0 g1 a0 a1 :
  - 2 ^ 127 < delta < 2 ^ 127 -> 0 <= pq_liquidity p + delta < 2 ^ 128 ->
  exists p', position_update_fees (position_update_liquidity p delta) g0 g1 = Ok p' /\
    moved delta p (position_update_amounts p' delta a0 a1).
Proof.
  intros Hd Hl.
  assert (E : position_update_liquidity p delta = p <| pq_liquidity := pq_liquidity p + delta |>).
  { unfold position_update_liquidity. destruct (Z.ltb_spec delta 0).
    - rewrite i128_id by lia. rewrite (wrap_id U128) by (apply u128_range; lia). rewrite saturate_id by (apply u128_range; lia).
      do 2 f_equal. lia.
    - by rewrite saturate_id by (apply u128_range; lia). }
  rewrite E. destruct (position_fees_liquidity (p <| pq_liquidity := pq_liquidity p + delta |>) g0 g1) as (p' & -> & E1 & E2 & E3 & E4);
    [cbn; exact Hl|].
  exists p'. split; [reflexivity|]. unfold moved, position_update_amounts. destruct (0 <? delta); cbn; done.
Qed.

Lemma liquidity_fits s tm m k p delta :
  liquidity_ok s tm m -> m !! k = Some p ->
  gross tm (pq_tick_lower p) + delta <= tm_max_liquidity_per_tick tm -> pq_liquidity p + delta < 2 ^ 128.
Proof.
  intros Hok Hk. destruct (max_bound s (lk_range _ _ _ Hok)) as [? _]. rewrite (lk_max _ _ _ Hok), (lk_gross _ _ _ Hok).
  pose proof (liq_lower_le _ _ _ _ _ Hok Hk). pose proof (upper_nonneg _ _ _ Hok (pq_tick_lower p)). lia.
Qed.

(** The steps after the position was updated. *)
Lemma settle_spec s tm m l u cur delta fl fu :
  liquidity_ok s tm m -> - 2 ^ 127 < delta < 2 ^ 127 -> 0 <= tm_liquidity tm < 2 ^ 128 ->
  active m cur = tm_liquidity tm + (if (l <=? cur) && (cur <? u) then delta else 0) ->
  (delta < 0 -> fl = true -> gross tm l = 0) -> (delta < 0 -> fu = true -> gross tm u = 0) ->
  exists tm4, (if (l <=? cur) && (cur <? u)
     then fmap (M := outcome unit) (with_liquidity tm) (liquidity_math_add (tm_liquidity tm) delta) else Ok tm) = Ok tm4 /\
  let tm5 := if (delta <? 0) && fl then tick_map_clear tm4 l else tm4 in
  let tm6 := if (delta <? 0) && fu then tick_map_clear tm5 u else tm5 in
  liquidity_ok s tm6 m /\ tm_liquidity tm6 = active m cur.
Proof.
  intros Hok Hd Hb0 Hact C1 C2. pose proof (active_bounds _ _ _ Hok cur) as Hb. rewrite Hact in Hb.
  exists (if (l <=? cur) && (cur <? u) then with_liquidity tm (tm_liquidity tm + delta) else tm).
  set (tm4 := if (l <=? cur) && (cur <? u) then _ else tm).
  assert (S4 : same_liquidity tm tm4 /\ tm_liquidity tm4 = active m cur).
  { unfold tm4. rewrite Hact. destruct ((l <=? cur) && (cur <? u)); cbn; (split; [apply same_liquidity_refl || apply same_with_liquidity|lia]). }
  destruct S4 as [S4 A4]. pose proof (same_liquidity_ok _ _ _ _ S4 Hok) as Hok4. split.
  - unfold tm4. destruct ((l <=? cur) && (cur <? u)); [|reflexivity]. rewrite liquidity_math_add_spec by lia.
    rewrite (proj2 (Z.leb_le 0 _)), (proj2 (Z.ltb_lt _ (2 ^ 128))) by lia. reflexivity.
  - destruct (clear_flipped _ tm4 _ ((delta <? 0) && fl) l Hok4) as [S5 A5].
    { intros [H1 H2]%andb_true_iff. rewrite (sl_gross _ _ S4). apply C1; [by apply Z.ltb_lt|done]. }
    set (tm5 := if (delta <? 0) && fl then tick_map_clear tm4 l else tm4) in *. pose proof (same_liquidity_ok _ _ _ _ S5 Hok4) as Hok5.
    destruct (clear_flipped _ tm5 _ ((delta <? 0) && fu) u Hok5) as [S6 A6].
    { intros [H1 H2]%andb_true_iff. rewrite (sl_gross _ _ S5), (sl_gross _ _ S4). apply C2; [by apply Z.ltb_lt|done]. }
    split; [by eapply same_liquidity_ok|]. rewrite A6, A5. exact A4.
Qed.

Definition touches (tm : TickMap) (l u delta : Z) : Prop :=
  strict = true -> delta <> 0 \/ (gross tm l <> 0 /\ gross tm u <> 0).

Lemma apply_delta_spec s self k p delta a0 a1 :
  pool_ok s self -> pf_is_initialized self = true -> pf_positions self !! k = Some p ->
  - 2 ^ 127 < delta < 2 ^ 127 -> 0 <= pq_liquidity p + delta ->
  touches (pf_tick_map self) (pq_tick_lower p) (pq_tick_upper p) delta ->
  let max := tm_max_liquidity_per_tick (pf_tick_map self) in
  if (gross (pf_tick_map self) (pq_tick_lower p) + delta <=? max) && (gross (pf_tick_map self) (pq_tick_upper p) + delta <=? max)
  then exists self' p', apply_position_delta self k p (pq_tick_lower p) (pq_tick_upper p) delta a0 a1 = Ok self' /\
    pool_ok s self' /\ moved delta p p' /\
    pf_positions self' = <[k := p']> (pf_positions self) /\ pf_pool self' = pf_pool self /\ pf_state self' = pf_state self /\
    pf_is_initialized self' = true
  else apply_position_delta self k p (pq_tick_lower p) (pq_tick_upper p) delta a0 a1 = Panic.
Proof.
  intros [K1 K2 K3 K4 K5 K6 K7 K8] Hinit Hk Hd Hl0 Hto max.
  pose proof (fun self' H => delta_flags s self k p delta a0 a1 self' K3 Hk Hd H) as Hfl.
  pose proof (lk_positions _ _ _ K3 k p Hk) as [_ (_ & _ & Hlu & Hlp)].
  pose proof (fun H => liquidity_fits _ _ _ _ _ delta K3 Hk H) as Hle. fold max in Hle.
  unfold apply_position_delta. set (cur := po_current_tick (pf_state self)).
  set (l := pq_tick_lower p) in *. set (u := pq_tick_upper p) in *.
  set (g0 := po_fee_growth_global_0 (pf_state self)). set (g1 := po_fee_growth_global_1 (pf_state self)).
  pose proof (fun p' H H' => position_ticks s (pf_tick_map self) (pf_positions self) k p p' cur delta g0 g1 g0 g1 K3 Hk H Hd H') as T.
  cbn zeta in T. fold l u max in T.
  destruct ((gross (pf_tick_map self) l + delta <=? max) && (gross (pf_tick_map self) u + delta <=? max)) eqn:Eb.
  - apply andb_true_iff in Eb as [Eb _]. apply Z.leb_le, Hle in Eb.
    destruct (T (p <| pq_liquidity := pq_liquidity p + delta |>) ltac:(done) ltac:(cbn; lia)) as (fl & fu & tm1 & tm2 & U1 & U2 & _ & _ & _).
    rewrite U1. osimpl. rewrite U2. osimpl.
    destruct (fee_growth_inside_same tm2 l u cur g0 g1) as [F1 F2].
    destruct (get_fee_growth_inside tm2 l u cur g0 g1) as [[i0 i1] tm3] eqn:Efee. cbn in F1, F2.
    destruct (position_moved p delta i0 i1 a0 a1 Hd ltac:(lia)) as (p' & Ep & Hmv). rewrite Ep. osimpl.
    set (p2 := position_update_amounts p' delta a0 a1) in *.
    destruct (T p2 Hmv ltac:(destruct Hmv as (_ & _ & _ & ->); lia)) as (fl' & fu' & tm1' & tm2' & U1' & U2' & Hok2 & L2 & C1 & C2).
    rewrite U1 in U1'. injection U1' as <- <-. rewrite U2 in U2'. injection U2' as <- <-.
    pose proof (same_liquidity_ok _ _ _ _ F1 Hok2) as Hok3.
    pose proof (active_replace _ _ _ _ _ _ _ cur K3 Hk Hmv) as Hact. fold l u in Hact.
    fold cur in K6. pose proof (active_bounds _ _ _ K3 cur) as Hb0. rewrite <- K6, <- L2, <- F2 in Hact, Hb0.
    destruct (settle_spec _ _ _ l u cur delta fl fu Hok3 Hd Hb0 Hact) as (tm4 & E4 & Hok6 & A6);
      [intros; rewrite (sl_gross _ _ F1); by apply C1|intros; rewrite (sl_gross _ _ F1); by apply C2|].
    unfold apply_position_delta in Hfl. fold l u cur g0 g1 in Hfl.
    rewrite E4. osimpl. eexists _, p2. split; [reflexivity|]. split; [|done]. split; try done; [by cbn; rewrite Hinit|].
    intros Hst. eapply Hfl; [by apply K8|by apply Hto|]. rewrite U1. osimpl. rewrite U2. osimpl. rewrite Efee, Ep. osimpl. fold p2. rewrite E4. reflexivity.
  - destruct (Z.le_gt_cases 0 (pq_liquidity p + delta)); [|lia].
    assert (T' : forall p', moved delta p p' -> 0 <= pq_liquidity p' < 2 ^ 128 -> tick_map_update (pf_tick_map self) l cur delta false g0 g1 = Panic \/
      exists fl tm1, tick_map_update (pf_tick_map self) l cur delta false g0 g1 = Ok (fl, tm1) /\ tick_map_update tm1 u cur delta true g0 g1 = Panic) by exact T.
    destruct (Z.lt_ge_cases (pq_liquidity p + delta) (2 ^ 128)) as [Hlt|Hge].
    + destruct (T' (p <| pq_liquidity := pq_liquidity p + delta |>) ltac:(done) ltac:(cbn; lia)) as [->|(fl & tm1 & -> & H2)]; osimpl; [done|].
      rewrite H2. done.
    + pose proof (tick_map_update_spec (pf_tick_map self) l cur delta false g0 g1 (lk_map _ _ _ K3)
        ltac:(rewrite (lk_spacing _ _ _ K3); apply (lk_positions _ _ _ K3 k p Hk)) ltac:(lia)) as T1. cbn zeta in T1. fold max in T1.
      rewrite (proj2 (Z.leb_gt _ max)), andb_false_r in T1; [by rewrite T1|].
      destruct (Z.le_gt_cases (gross (pf_tick_map self) l + delta) max) as [H1|]; [|lia]. apply Hle in H1. lia.
Qed.

(** The entry a position change works on: the filed one, or a new one without
    liquidity, which changes no sum. *)
Definition entry_for self (owner l u : Z) : PoolPosition :=
  default (pool_position_new owner l u 0) (pf_positions self !! get_position_key owner l u).

Definition with_entry self (owner l u : Z) : PoolProfiler :=
  self <| pf_positions := <[get_position_key owner l u := entry_for self owner l u]> (pf_positions self) |>.

Lemma entry_for_spec s self owner l u :
  pool_ok s self -> let p := entry_for self owner l u in
  pq_owner p = owner /\ pq_tick_lower p = l /\ pq_tick_upper p = u /\ 0 <= pq_liquidity p < 2 ^ 128.
Proof.
  intros Hok. unfold entry_for. destruct (_ !! _) as [p|] eqn:E; cbn; [|lia].
  destruct (lk_positions _ _ _ (pk_liquidity _ _ Hok) _ _ E) as [Ek (_ & _ & _ & Hl)].
  apply get_position_key_inj in Ek as (-> & -> & ->). done.
Qed.

Lemma with_entry_sum self owner l u f :
  (forall p, pq_liquidity p = 0 -> f p = 0) ->
  psum f (pf_positions (with_entry self owner l u)) = psum f (pf_positions self).
Proof.
  intros Hf. unfold with_entry, entry_for. cbn. rewrite psum_insert. unfold entry.
  destruct (_ !! _); cbn; [lia|]. rewrite Hf by done. lia.
Qed.

Lemma with_entry_ok s self owner l u :
  pool_ok s self -> pf_is_initialized self = true -> valid_tick s l -> valid_tick s u -> l < u -> pool_ok s (with_entry self owner l u).
Proof.
  intros Hok Hinit Hl Hu Hlu. destruct (entry_for_spec s self owner l u Hok) as (E1 & E2 & E3 & E4).
  assert (Z1 : forall t p, pq_liquidity p = 0 -> liq_lower t p = 0) by (intros t p H; unfold liq_lower; by case_match).
  assert (Z2 : forall t p, pq_liquidity p = 0 -> liq_upper t p = 0) by (intros t p H; unfold liq_upper; by case_match).
  assert (Z3 : forall t p, pq_liquidity p = 0 -> liq_at t p = 0) by (intros t p H; unfold liq_at; by case_match).
  destruct Hok as [K1 K2 [L1 L2 L3 L4 L5 L6 L7] K4 K5 K6 K7 K8]. split; try done.
  - split; try done.
    + unfold with_entry. cbn. apply map_Forall_insert_2; [|done]. split; [by rewrite E1, E2, E3|]. unfold position_wf. by rewrite E2, E3.
    + intros t. rewrite !with_entry_sum by auto. apply L6.
    + intros t. rewrite !with_entry_sum by auto. apply L7.
  - etransitivity; [exact K6|]. unfold active. by rewrite with_entry_sum by auto.
  - cbn. by rewrite Hinit.
Qed.

(** What a change of a position does. *)
Lemma update_position_spec s self owner l u delta a0 a1 :
  pool_ok s self -> pf_is_initialized self = true -> valid_tick s l -> valid_tick s u -> l < u -> - 2 ^ 127 < delta < 2 ^ 127 ->
  touches (pf_tick_map self) l u delta ->
  let p := entry_for self owner l u in
  let max := tm_max_liquidity_per_tick (pf_tick_map self) in
  let '(self', r) := update_pool_position self owner l u delta a0 a1 in
  if pq_liquidity p + delta <? 0 then r = Err tt /\ self' = with_entry self owner l u
  else if (gross (pf_tick_map self) l + delta <=? max) && (gross (pf_tick_map self) u + delta <=? max)
  then r = Ok tt /\ pool_ok s self' /\ pf_is_initialized self' = true /\ pf_state self' = pf_state self /\
       exists p', moved delta p p' /\ pf_positions self' = <[get_position_key owner l u := p']> (pf_positions self)
  else r = Panic.
Proof.
  intros Hok Hinit Hl Hu Hlu Hd Hto p max. unfold update_pool_position. fold (entry_for self owner l u). fold (with_entry self owner l u). fold p.
  destruct (entry_for_spec s self owner l u Hok) as (E1 & E2 & E3 & E4). fold p in E1, E2, E3, E4.
  assert (Ec : (delta <? 0) && (pq_liquidity p <? Z.abs delta) = (pq_liquidity p + delta <? 0)).
  { destruct (Z.ltb_spec delta 0), (Z.ltb_spec (pq_liquidity p + delta) 0), (Z.ltb_spec (pq_liquidity p) (Z.abs delta)); cbn; lia. }
  rewrite Ec. destruct (Z.ltb_spec (pq_liquidity p + delta) 0) as [|Hnn]; [done|].
  pose proof (apply_delta_spec s (with_entry self owner l u) (get_position_key owner l u) p delta a0 a1
    (with_entry_ok s self owner l u Hok Hinit Hl Hu Hlu) Hinit (lookup_insert_eq _ _ _) Hd Hnn) as H.
  cbn zeta in H. rewrite E2, E3 in H. specialize (H Hto). change (pf_tick_map (with_entry self owner l u)) with (pf_tick_map self) in H. fold max in H.
  destruct ((gross _ l + delta <=? max) && _); [|by rewrite H].
  destruct H as (self' & p' & -> & H1 & H2 & H3 & _ & H4 & H5). split; [done|]. split; [done|]. split; [done|]. split; [exact H4|].
  exists p'. split; [exact H2|]. rewrite H3. unfold with_entry. cbn. apply insert_insert_eq.
Qed.

Lemma update_position_ok s self owner l u delta a0 a1 self' r :
  pool_ok s self -> pf_is_initialized self = true -> valid_tick s l -> valid_tick s u -> l < u -> - 2 ^ 127 < delta < 2 ^ 127 ->
  touches (pf_tick_map self) l u delta ->
  update_pool_position self owner l u delta a0 a1 = (self', r) -> r <> Panic -> pool_ok s self' /\ pf_is_initialized self' = true.
Proof.
  intros Hok Hinit Hl Hu Hlu Hd Hto E Hr. pose proof (update_position_spec s self owner l u delta a0 a1 Hok Hinit Hl Hu Hlu Hd Hto) as H.
  cbn zeta in H. rewrite E in H. destruct (_ <? 0).
  - destruct H as [_ ->]. split; [by apply with_entry_ok|exact Hinit].
  - destruct (_ && _); [|done]. destruct H as (_ & H & Hi & _). done.
Qed.

Lemma validate_ticks_spec s self l u :
  pool_ok s self -> validate_ticks self l u = Ok tt -> valid_tick s l /\ valid_tick s u /\ l < u.
Proof.
  intros Hok. pose proof (lk_range _ _ _ (pk_liquidity _ _ Hok)) as Hs. unfold validate_ticks. rewrite (pk_spacing _ _ Hok).
  destruct (Z.leb_spec u l); cbn -[wrap]; [done|]. rewrite i32_id by (unfold MAX_TICK in Hs; lia).
  rewrite (proj2 (Z.eqb_neq s 0)) by lia. cbn. destruct (Z.eqb_spec (Z.rem l s) 0) as [E1|]; cbn; [|done].
  destruct (Z.eqb_spec (Z.rem u s) 0) as [E2|]; cbn; [|done].
  destruct (Z.ltb_spec l MIN_TICK), (Z.ltb_spec MAX_TICK u); cbn; try done. intros _.
  apply Z.rem_divide in E1, E2; try lia. unfold valid_tick. split; [split; [done|lia]|]. split; [split; [done|lia]|lia].
Qed.
End pool.
