(* ===== verification/PoolSteps.v ===== *)
(** * Histories of a pool

    Every operation of the profiler keeps the invariant of [PoolSpec]: the
    active liquidity, kept up to date step by step, is at every moment the
    liquidity of the positions that span the current tick. *)

From stdpp Require Import base numbers list gmap strings pretty.
From Stdlib Require Import Lia ZArith.
From S2P Require Import Prelude F64 FullMath TickBitmap TickMap TickMath TickLog SqrtPrice SwapMath Pool PoolInv PoolSwap PoolFlags PoolSpec.

Open Scope Z_scope.

Section steps.
Context {UL : U256Lib} {AF : AddressFmt}.
Variable strict : bool.
Abbreviation pool_ok := (PoolSpec.pool_ok strict).
Implicit Type self : PoolProfiler.

(** ** What the operations do not touch *)

Lemma pool_ok_frame s self self' :
  pool_ok s self -> pf_pool self' = pf_pool self -> pf_positions self' = pf_positions self ->
  pf_tick_map self' = pf_tick_map self -> pf_is_initialized self' = pf_is_initialized self ->
  po_current_tick (pf_state self') = po_current_tick (pf_state self) ->
  po_price_sqrt_ratio_x96 (pf_state self') = po_price_sqrt_ratio_x96 (pf_state self) ->
  po_fee_protocol (pf_state self') = po_fee_protocol (pf_state self) -> pool_ok s self'.
Proof. intros [K1 K2 K3 K4 K5 K6 K7 K8] E1 E2 E3 E4 E5 E6 E7. split; rewrite ?E1, ?E2, ?E3, ?E4, ?E5, ?E6, ?E7; assumption. Qed.

(** A result that keeps the invariant unless it is a panic. *)
Definition keeps (s : Z) (r : PoolProfiler * outcome unit unit) : Prop :=
  r.2 <> Panic -> pool_ok s r.1 /\ pf_is_initialized r.1 = true.

Lemma keeps_here s self r : pool_ok s self -> pf_is_initialized self = true -> keeps s (self, r).
Proof. intros ? ? ?. done. Qed.

Lemma keeps_and_then s r f :
  keeps s r -> (forall self, pool_ok s self -> pf_is_initialized self = true -> keeps s (f self)) -> keeps s (and_then r f).
Proof.
  intros Hr Hf. destruct r as [self [[]|e|]]; cbn.
  - destruct (Hr ltac:(done)) as [Hok Hi]. by apply Hf.
  - exact Hr.
  - intros H. by destruct H.
Qed.

Lemma keeps_guard s self r f :
  pool_ok s self -> pf_is_initialized self = true -> (r = Ok tt -> keeps s f) -> keeps s (guard self r f).
Proof. intros Hok Hi Hf. destruct r as [[]|e|]; cbn; [by apply Hf|by apply keeps_here|by apply keeps_here]. Qed.

Lemma on_analytics_ok s self f : pool_ok s self -> pool_ok s (on_analytics self f).
Proof. intros Hok. by eapply pool_ok_frame. Qed.

Lemma finish_event_keeps s self at_ : pool_ok s self -> pf_is_initialized self = true -> keeps s (finish_event self at_).
Proof.
  intros Hok Hi. unfold finish_event, update_liquidity_analytics.
  assert (H : pool_ok s (self <| pf_last_processed_event := Some at_ |>)) by (by eapply pool_ok_frame).
  destruct (liquidity_utilization_rate _); apply keeps_here; try done. by apply on_analytics_ok.
Qed.

(** An event on a pool that is not initialised is a panic. *)
Lemma start_event_keeps s self at_ f :
  pool_ok s self -> (pf_is_initialized self = true -> keeps s f) -> keeps s (start_event self at_ f).
Proof.
  intros Hok Hf. unfold start_event, check_if_initialized. destruct (pf_is_initialized self) eqn:Hi; cbn [assert_ guard]; [|by intros []].
  destruct (check_if_already_processed _ _ _ _); [by apply keeps_here|by apply Hf].
Qed.

(** The liquidity of a mint or burn is unsigned. *)
Definition touch_ok self (l u liquidity : Z) : Prop :=
  0 <= liquidity /\ touches strict (pf_tick_map self) l u liquidity.

(** ** Mints and burns *)

Lemma touches_opp tm l u delta : touches strict tm l u delta -> touches strict tm l u (- delta).
Proof. intros H Hs. destruct (H Hs); [left; lia|by right]. Qed.

Lemma update_position_keeps s self owner l u delta a0 a1 :
  pool_ok s self -> pf_is_initialized self = true -> validate_ticks self l u = Ok tt -> - 2 ^ 127 < delta < 2 ^ 127 ->
  touches strict (pf_tick_map self) l u delta ->
  keeps s (update_pool_position self owner l u delta a0 a1).
Proof.
  intros Hok Hi Hv Hd Hto Hr. destruct (validate_ticks_spec strict s self l u Hok Hv) as (Hl & Hu & Hlu).
  destruct (update_pool_position self owner l u delta a0 a1) as [self' r] eqn:E.
  exact (update_position_ok strict s self owner l u delta a0 a1 self' r Hok Hi Hl Hu Hlu Hd Hto E Hr).
Qed.

Lemma checked_i128 x y : 0 <= x -> checked I128 x = Some y -> y = x /\ 0 <= y < 2 ^ 127.
Proof.
  intros Hx H. apply checked_Some in H as [-> H]. apply in_ty_spec in H. change (imax I128) with (2 ^ 127 - 1) in H. lia.
Qed.

Lemma add_liquidity_keeps s self owner l u liq a0 a1 :
  pool_ok s self -> pf_is_initialized self = true -> validate_ticks self l u = Ok tt -> touch_ok self l u liq ->
  keeps s (add_liquidity self owner l u liq a0 a1).
Proof.
  intros Hok Hi Hv [Hq Hto]. unfold add_liquidity. destruct (checked I128 liq) as [delta|] eqn:E; [|by apply keeps_here].
  apply checked_i128 in E as [-> E]; [|done]. apply keeps_and_then; [apply update_position_keeps; (done || lia)|].
  intros. apply keeps_here; [by apply on_analytics_ok|done].
Qed.

Lemma execute_mint_keeps s self owner l u liq : pool_ok s self -> touch_ok self l u liq -> keeps s (execute_mint self owner l u liq).
Proof.
  intros Hok Hq. unfold execute_mint, check_if_initialized.
  destruct (pf_is_initialized self) eqn:Hi; cbn [assert_ guard]; [|by intros []].
  apply keeps_guard; [done..|]. intros Hv. destruct (get_amounts_for_liquidity _ _ _ _ _) as [[a0 a1]|e|]; [|by apply keeps_here..].
  apply keeps_and_then; [by apply add_liquidity_keeps|]. intros. apply keeps_here; [by apply on_analytics_ok|done].
Qed.

Lemma execute_burn_keeps s self owner l u liq : pool_ok s self -> touch_ok self l u liq -> keeps s (execute_burn self owner l u liq).
Proof.
  intros Hok Hq. unfold execute_burn, check_if_initialized.
  destruct (pf_is_initialized self) eqn:Hi; cbn [assert_ guard]; [|by intros []].
  apply keeps_guard; [done..|]. intros Hv. destruct (get_amounts_for_liquidity _ _ _ _ _) as [[a0 a1]|e|]; [|by apply keeps_here..].
  destruct (checked I128 liq) as [delta|] eqn:E; [|by apply keeps_here]. destruct Hq as [Hq Hto].
  apply checked_i128 in E as [-> E]; [|done].
  apply keeps_and_then; [rewrite i128_id by lia; apply update_position_keeps; try done; [lia|by apply touches_opp]|].
  intros. apply keeps_here; [by apply on_analytics_ok|done].
Qed.

Lemma process_mint_keeps s self at_ owner l u liq a0 a1 :
  pool_ok s self -> touch_ok self l u liq -> keeps s (process_mint self at_ owner l u liq a0 a1).
Proof.
  intros Hok Hq. apply start_event_keeps; [done|]. intros Hi. apply keeps_guard; [done..|]. intros Hv.
  apply keeps_and_then; [by apply add_liquidity_keeps|]. intros. apply finish_event_keeps; [by apply on_analytics_ok|done].
Qed.

Lemma process_burn_keeps s self at_ owner l u liq a0 a1 :
  pool_ok s self -> touch_ok self l u liq -> keeps s (process_burn self at_ owner l u liq a0 a1).
Proof.
  intros Hok Hq. apply start_event_keeps; [done|]. intros Hi. apply keeps_guard; [done..|]. intros Hv.
  destruct (checked I128 liq) as [delta|] eqn:E; [|by apply keeps_here]. destruct Hq as [Hq Hto].
  apply checked_i128 in E as [-> E]; [|done].
  apply keeps_and_then; [rewrite i128_id by lia; apply update_position_keeps; try done; [lia|by apply touches_opp]|].
  intros. apply finish_event_keeps; [by apply on_analytics_ok|done].
Qed.

(** ** Fees *)

(** Replacing a position by one with the same liquidity, and dropping one
    without, change nothing the pool depends on. *)
Lemma positions_ok s self m' :
  pool_ok s self -> pf_is_initialized self = true -> map_Forall (filed s) m' ->
  (forall t, psum (liq_lower t) m' = psum (liq_lower t) (pf_positions self)) ->
  (forall t, psum (liq_upper t) m' = psum (liq_upper t) (pf_positions self)) ->
  (forall t, psum (liq_at t) m' = psum (liq_at t) (pf_positions self)) ->
  pool_ok s (self <| pf_positions := m' |>).
Proof.
  intros [K1 K2 [L1 L2 L3 L4 L5 L6 L7] K4 K5 K6 K7 K8] Hi Hm H1 H2 H3. split; cbn; try done.
  - split; try done; intros t; rewrite H1, H2; auto.
  - rewrite K6. symmetry. apply H3.
  - by rewrite Hi.
Qed.

Lemma collect_ok s self k a0 a1 :
  pool_ok s self -> pf_is_initialized self = true ->
  pool_ok s (self <| pf_positions := alter (fun position => position_collect_fees position a0 a1) k (pf_positions self) |>).
Proof.
  intros Hok Hi. set (f := fun position => position_collect_fees position a0 a1).
  assert (Hf : forall p, moved 0 p (f p)) by (intros p; unfold moved; cbn; rewrite Z.add_0_r; done).
  assert (Hsum : forall g, (forall p, g (f p) = g p) -> psum g (alter f k (pf_positions self)) = psum g (pf_positions self)).
  { intros g Hg. destruct (pf_positions self !! k) as [p|] eqn:E.
    - rewrite <- (insert_id _ _ _ E) at 1. rewrite alter_insert_eq, psum_insert. unfold entry.
      rewrite E, Hg. lia.
    - by rewrite alter_id by (intros x; rewrite E; done). }
  apply positions_ok; try done.
  - intros i q Hq. apply lookup_alter_Some in Hq as [(-> & p & Hp & ->)|[_ Hq]].
    + destruct (lk_positions _ _ _ (pk_liquidity _ _ _ Hok) _ _ Hp) as [E1 E2]. done.
    + exact (lk_positions _ _ _ (pk_liquidity _ _ _ Hok) _ _ Hq).
  - intros t. by apply Hsum.
  - intros t. by apply Hsum.
  - intros t. by apply Hsum.
Qed.

Lemma cleanup_ok s self k :
  pool_ok s self -> pf_is_initialized self = true ->
  pool_ok s (cleanup_position_if_empty self k) /\ pf_is_initialized (cleanup_position_if_empty self k) = true.
Proof.
  intros Hok Hi. unfold cleanup_position_if_empty. destruct (pf_positions self !! k) as [p|] eqn:E; [|done].
  destruct (position_is_empty p) eqn:Ep; [|done]. split; [|done].
  unfold position_is_empty in Ep. apply andb_true_iff in Ep as [Ep _]. apply andb_true_iff in Ep as [Ep _]. apply Z.eqb_eq in Ep.
  apply positions_ok; try done; [apply map_Forall_delete, (pk_liquidity _ _ _ Hok)|..]; intros t; rewrite psum_remove; unfold entry; rewrite E;
    unfold liq_lower, liq_upper, liq_at; case_match; lia.
Qed.

Lemma process_collect_keeps s self at_ owner l u a0 a1 :
  pool_ok s self -> keeps s (process_collect self at_ owner l u a0 a1).
Proof.
  intros Hok. apply start_event_keeps; [done|]. intros Hi.
  destruct (cleanup_ok s _ (get_position_key owner l u) (collect_ok s self (get_position_key owner l u) a0 a1 Hok Hi) Hi) as [H1 H2].
  apply finish_event_keeps; [by apply on_analytics_ok|done].
Qed.

Lemma update_flash_keeps s self p0 p1 :
  pool_ok s self -> pf_is_initialized self = true -> keeps s (update_flash_state self p0 p1).
Proof.
  intros Hok Hi. unfold update_flash_state. destruct (_ =? 0); [by apply keeps_here|].
  destruct (flash_fees _ _ _ _ _) as [f0 [g0|e|]]; [|apply keeps_here; [by eapply pool_ok_frame|done]..].
  destruct (flash_fees _ _ _ _ _) as [f1 [g1|e|]]; (apply keeps_here; [by eapply pool_ok_frame|done]).
Qed.

Lemma process_flash_keeps s self at_ p0 p1 : pool_ok s self -> keeps s (process_flash self at_ p0 p1).
Proof.
  intros Hok. apply start_event_keeps; [done|]. intros Hi. apply keeps_and_then; [by apply update_flash_keeps|].
  intros. apply finish_event_keeps; [by apply on_analytics_ok|done].
Qed.

Lemma execute_flash_keeps s self a0 a1 : pool_ok s self -> keeps s (execute_flash self a0 a1).
Proof.
  intros Hok. unfold execute_flash, check_if_initialized.
  destruct (pf_is_initialized self) eqn:Hi; cbn [assert_ guard]; [|by intros []].
  match goal with |- keeps s (match ?r with _ => _ end) => destruct r as [[p0 p1]|e|] end; [|by apply keeps_here..].
  apply keeps_and_then; [by apply update_flash_keeps|]. intros. apply keeps_here; [by apply on_analytics_ok|done].
Qed.

(** ** The start of a pool *)

Definition pool_def_ok (s : Z) (pool : PoolDef) : Prop :=
  pd_tick_spacing pool = Some s /\ 1 <= s <= MAX_TICK /\ forall f, pd_fee pool = Some f -> 0 <= f <= MAX_FEE / 2.

Lemma tick_map_new_ok s : 1 <= s <= MAX_TICK -> exists tm, tick_map_new s = Ok tm /\ liquidity_ok s tm ∅ /\ tm_liquidity tm = 0 /\ tm_ticks tm = ∅.
Proof.
  intros Hs. destruct (tick_map_new_spec s) as (tm & E & H1 & H2 & H3 & H4); [unfold MAX_TICK in Hs; lia|].
  exists tm. split; [done|]. unfold tick_map_new in E. apply bind_Ok_inv in E as (? & _ & E). apply bind_Ok_inv in E as (bm & _ & E).
  apply bind_Ok_inv in E as (mx & _ & E). injection E as <-. split; [|done].
  by split.
Qed.

Lemma profiler_new_ok s pool :
  pool_def_ok s pool -> exists self, profiler_new pool = Ok self /\ pool_ok s self /\ pf_is_initialized self = false.
Proof.
  intros (E & Hs & Hf). destruct (tick_map_new_ok s Hs) as (tm & Etm & H1 & H2 & H3). unfold profiler_new. rewrite E. cbn [expect]. osimpl.
  rewrite Etm. osimpl. eexists. split; [reflexivity|]. split; [|done]. split; try done. intros _. unfold tick_flags. cbn. by rewrite H3.
Qed.

Lemma greatest_at_price p : MIN_SQRT_RATIO <= p < MAX_SQRT_RATIO -> at_price (greatest_tick p) p.
Proof.
  intros Hp. destruct (tick_of_price p Hp) as (Ht & Hlow & Hhigh). generalize dependent (greatest_tick p).
  intros t Ht Hlow Hhigh. split; [exact Ht|lia].
Qed.

Lemma initialize_ok s self price self' :
  pool_ok s self -> profiler_initialize self price = Ok self' -> pool_ok s self' /\ pf_is_initialized self' = true.
Proof.
  intros Hok H. unfold profiler_initialize in H. apply bind_Ok_inv in H as (? & Ha & H). apply assert_Ok, negb_true_iff in Ha.
  apply bind_Ok_inv in H as (t & Ht & H). apply bind_Ok_inv in H as (? & _ & H). injection H as <-. split; [|done].
  assert (Hp : MIN_SQRT_RATIO <= price < MAX_SQRT_RATIO).
  { rewrite tick_at_sqrt_ratio_eq in Ht. apply bind_Ok_inv in Ht as (? & Hb & _). apply assert_Ok, andb_true_iff in Hb as [H1 H2].
    apply Z.leb_le in H1. apply Z.ltb_lt in H2. done. }
  rewrite tick_at_price in Ht by done. injection Ht as <-. pose proof (greatest_at_price price Hp) as Hat.
  destruct Hok as [K1 K2 K3 K4 K5 K6 K7 K8]. split; cbn; try done. rewrite K6, (K7 Ha). unfold active. by rewrite !psum_empty.
Qed.

(** ** Swaps *)

(** The limits a caller may give: inside the price range, on the side of the
    current price the swap moves to. *)
Definition limit_ok self (zero_for_one : bool) (limit : Z) : Prop :=
  MIN_SQRT_RATIO < limit < MAX_SQRT_RATIO /\
  if zero_for_one then limit <= po_price_sqrt_ratio_x96 (pf_state self) else po_price_sqrt_ratio_x96 (pf_state self) <= limit.

(** Turns of the loop that suffice: two per tick. *)
Definition SWAP_FUEL : nat := Z.to_nat (2 ^ 21).

Definition i256 (x : Z) : Prop := - 2 ^ 255 <= x < 2 ^ 255.

Lemma execute_swap_ok s self zfo amount limit self' q :
  pool_ok s self -> i256 amount -> limit_ok self zfo limit ->
  execute_swap SWAP_FUEL self zfo amount limit = Some (Ok (self', q)) -> pool_ok s self' /\ pf_is_initialized self' = true.
Proof.
  intros Hok Ha [Hl Hd] H. unfold execute_swap in H. destruct (pf_is_initialized self) eqn:Hi; [|done].
  destruct (simulate_swap_through_ticks SWAP_FUEL self amount zfo limit) as [r|] eqn:E; cbn in H; [|done].
  injection H as H. destruct r as [q'|e|]; cbn in H; try done. apply bind_Ok_inv in H as (self1 & H1 & H). injection H as <- <-.
  destruct (pd_fee (pf_pool self)) as [f|] eqn:Ef; [|by unfold simulate_swap_through_ticks in E; rewrite Ef in E].
  destruct (swap_applied strict s self SWAP_FUEL amount zfo limit f q' Hok Hi Ef Ha Hl Hd) as (self2 & H2 & Hok2 & _ & Hi2 & _);
    [unfold SWAP_FUEL; rewrite Z2Nat.id; lia|done|].
  rewrite H1 in H2. injection H2 as <-. done.
Qed.

(** The events the histories contain.  A swap event has its price strictly within
    the range and on the right side of the current one, and the simulation
    confirms its tick and liquidity.  An event that it does not confirm is left
    out: [process_swap] then overwrites the tick and the liquidity with the
    event's, after which they need not agree with the positions. *)
Definition event_ok self (ev : PoolEvent) : Prop :=
  match ev with
  | EvSwap amount0 amount1 price tick liquidity =>
      let zfo := 0 <? amount0 in
      let amount := if zfo then amount0 else amount1 in
      i256 amount /\ limit_ok self zfo price /\
      forall q, simulate_swap_through_ticks SWAP_FUEL self amount zfo price = Some (Ok q) ->
        sq_tick_after q = tick /\ sq_liquidity_after q = liquidity
  | EvMint _ l u liquidity _ _ | EvBurn _ l u liquidity _ _ => touch_ok self l u liquidity
  | EvFeeCollect _ _ _ _ _ | EvFlash _ _ => True
  end.

Lemma process_swap_keeps s self at_ amount0 amount1 price tick liquidity r :
  pool_ok s self -> event_ok self (EvSwap amount0 amount1 price tick liquidity) ->
  process_swap SWAP_FUEL self at_ amount0 amount1 price tick liquidity = Some r -> keeps s r.
Proof.
  intros Hok (Ha & [Hl Hd] & Hq) H. unfold process_swap in H. destruct (pf_is_initialized self) eqn:Hi; cbn [negb] in H;
    [|injection H as <-; by intros []].
  destruct (check_if_already_processed _ _ _ _); [injection H as <-; by apply keeps_here|].
  set (zfo := 0 <? amount0) in *. set (amount := if zfo then amount0 else amount1) in *.
  destruct (simulate_swap_through_ticks SWAP_FUEL self amount zfo price) as [[q|e|]|] eqn:E; [|injection H as <-; by apply keeps_here..|done].
  destruct (Hq q eq_refl) as [<- <-].
  destruct (pd_fee (pf_pool self)) as [f|] eqn:Ef; [|by unfold simulate_swap_through_ticks in E; rewrite Ef in E].
  destruct (swap_applied strict s self SWAP_FUEL amount zfo price f q Hok Hi Ef Ha Hl Hd) as (self2 & H2 & Hok2 & _ & Hi2 & Et & _ & Elq);
    [unfold SWAP_FUEL; rewrite Z2Nat.id; lia|done|].
  rewrite H2 in H. injection H as <-. apply finish_event_keeps; [|done]. destruct Hok2 as [K1 K2 K3 K4 K5 K6 K7 K8].
  split; cbn; rewrite <- ?Et; try done; [|by rewrite <- Elq].
  eapply same_liquidity_ok; [apply same_with_liquidity|exact K3].
Qed.

Lemma process_keeps s self at_ ev r :
  pool_ok s self -> event_ok self ev -> process_pool_event SWAP_FUEL self at_ ev = Some r ->
  r.2 <> Panic -> pool_ok s r.1.
Proof.
  intros Hok Hev H Hr. unfold process_pool_event in H. destruct (check_if_already_processed _ _ _ _); [by injection H as <-|].
  assert (Hk : keeps s r); [|by apply Hk].
  destruct ev as [a0 a1 price tick liq|owner l u liq a0 a1|owner l u liq a0 a1|owner l u a0 a1|p0 p1].
  - by eapply process_swap_keeps.
  - injection H as <-. apply process_mint_keeps; [done|exact Hev].
  - injection H as <-. apply process_burn_keeps; [done|exact Hev].
  - injection H as <-. by apply process_collect_keeps.
  - injection H as <-. by apply process_flash_keeps.
Qed.

(** ** Histories *)

(** One operation on the pool that does not panic, an error included.  Left out,
    and with it from every theorem on histories: operations that panic, swap
    events the simulation does not confirm ([event_ok]), and simulated swaps with
    a limit outside the open range of prices or on the wrong side of the current
    one, for which [execute_swap] makes no check. *)
Inductive pool_step : PoolProfiler -> PoolProfiler -> Prop :=
  | ps_initialize self price self' : profiler_initialize self price = Ok self' -> pool_step self self'
  | ps_event self at_ ev self' r :
      event_ok self ev -> process_pool_event SWAP_FUEL self at_ ev = Some (self', r) -> r <> Panic -> pool_step self self'
  | ps_mint self owner l u liquidity self' r :
      touch_ok self l u liquidity -> execute_mint self owner l u liquidity = (self', r) -> r <> Panic -> pool_step self self'
  | ps_burn self owner l u liquidity self' r :
      touch_ok self l u liquidity -> execute_burn self owner l u liquidity = (self', r) -> r <> Panic -> pool_step self self'
  | ps_swap self zfo amount limit self' q :
      i256 amount -> limit_ok self zfo limit ->
      execute_swap SWAP_FUEL self zfo amount limit = Some (Ok (self', q)) -> pool_step self self'
  | ps_flash self amount0 amount1 self' r :
      execute_flash self amount0 amount1 = (self', r) -> r <> Panic -> pool_step self self'
  | ps_fee_growth self g0 g1 : pool_step self (set_fee_growth_global self g0 g1).

Lemma pool_step_ok s self self' : pool_ok s self -> pool_step self self' -> pool_ok s self'.
Proof.
  intros Hok Hs. destruct Hs as [self price self' H|self at_ ev self' r Hev H Hr|self o l u q self' r Hq H Hr|self o l u q self' r Hq H Hr
    |self zfo a lim self' q Ha Hl H|self a0 a1 self' r H Hr|self g0 g1].
  - by eapply initialize_ok.
  - exact (process_keeps s self at_ ev (self', r) Hok Hev H Hr).
  - pose proof (execute_mint_keeps s self o l u q Hok Hq) as Hk. rewrite H in Hk. by apply Hk.
  - pose proof (execute_burn_keeps s self o l u q Hok Hq) as Hk. rewrite H in Hk. by apply Hk.
  - by eapply execute_swap_ok.
  - pose proof (execute_flash_keeps s self a0 a1 Hok) as Hk. rewrite H in Hk. by apply Hk.
  - by eapply pool_ok_frame.
Qed.

Lemma run_ok s self self' : pool_ok s self -> rtc pool_step self self' -> pool_ok s self'.
Proof. intros Hok Hr. induction Hr as [|a b c Hab _ IH]; [done|]. apply IH. by eapply pool_step_ok. Qed.

Lemma reachable_ok s pool self0 self :
  pool_def_ok s pool -> profiler_new pool = Ok self0 -> rtc pool_step self0 self -> pool_ok s self.
Proof.
  intros Hd Hn Hr. destruct (profiler_new_ok s pool Hd) as (self1 & E & Hok & _). rewrite Hn in E. injection E as <-. by eapply run_ok.
Qed.

(** ** Queries *)

Lemma active_positions_sum s self :
  pool_ok s self -> get_total_liquidity_from_active_positions self = active (pf_positions self) (po_current_tick (pf_state self)).
Proof.
  intros Hok. set (t := po_current_tick (pf_state self)). pose proof (pk_liquidity _ _ _ Hok) as Hl.
  assert (H : map_Forall (fun _ p => position_wf s p) (pf_positions self) ->
    get_total_liquidity_from_active_positions self = wrap U128 (psum (liq_at t) (pf_positions self))).
  { unfold get_total_liquidity_from_active_positions. fold t. generalize (pf_positions self) as m.
    apply (map_fold_weak_ind (fun r m => map_Forall (fun _ p => position_wf s p) m -> r = wrap U128 (psum (liq_at t) m))).
    - intros _. rewrite psum_empty. reflexivity.
    - intros k p m r Hk IH Hm. apply map_Forall_insert in Hm as [(_ & _ & _ & Hp) Hm]; [|done]. rewrite psum_fresh by done.
      specialize (IH Hm). subst r. unfold spans.
      assert (E : liq_at t p = if (0 <? pq_liquidity p) && (pq_tick_lower p <=? t) && (t <? pq_tick_upper p) then pq_liquidity p else 0).
      { unfold liq_at. destruct (Z.ltb_spec 0 (pq_liquidity p)); cbn [andb]; [done|]. case_match; lia. }
      rewrite E. destruct (_ && _); [|by rewrite Z.add_0_r].
      change (wrap U128) with (fun z => z mod 2 ^ 128). cbn beta. by rewrite Z.add_mod_idemp_l by lia. }
  rewrite H by apply (wf_positions _ _ _ Hl). apply wrap_id, u128_range. apply (active_bounds _ _ _ Hl).
Qed.

Lemma total_liquidity_sum s self : pool_ok s self -> get_total_liquidity self = psum pq_liquidity (pf_positions self).
Proof.
  intros Hok. pose proof (pk_liquidity _ _ _ Hok) as Hl. pose proof (wf_positions _ _ _ Hl) as Hwf. pose proof (total_bound _ _ _ Hl) as Hb.
  revert Hwf Hb. unfold get_total_liquidity. generalize (pf_positions self) as m.
  apply (map_fold_weak_ind (fun r m => map_Forall (fun _ p => position_wf s p) m -> psum pq_liquidity m < 2 ^ 128 -> r = psum pq_liquidity m)).
  - intros _ _. by rewrite psum_empty.
  - intros k p m r Hk IH Hm. apply map_Forall_insert in Hm as [(_ & _ & _ & Hp) Hm]; [|done]. rewrite psum_fresh by done. intros Hb.
    assert (0 <= psum pq_liquidity m) by (apply psum_nonneg; eapply map_Forall_impl; [exact Hm|]; intros ? ? (_ & _ & _ & ?); cbn; lia).
    rewrite (IH Hm) by lia. rewrite u_add_spec by (unfold u256; lia). apply Z.mod_small. lia.
Qed.

Lemma initialized_gross s tm m t : liquidity_ok s tm m -> valid_tick s t -> is_tick_initialized tm t = negb (gross tm t =? 0).
Proof.
  intros Hl [[c ->] Hr]. pose proof (lk_map _ _ _ Hl) as Hm. pose proof (lk_range _ _ _ Hl) as Hs.
  unfold is_tick_initialized. rewrite <- (lk_spacing _ _ _ Hl), <- (tk_member _ Hm). apply is_initialized_member; [apply Hm|].
  destruct (floor_in_words s (c * s)) as [Hw _]; [lia..|]. by rewrite Z.div_mul in Hw by lia.
Qed.

(** The comment in the code holds while the pool is consistent: the ratio fits. *)
Lemma utilization_ok s self : pool_ok s self -> exists rate, liquidity_utilization_rate self = Ok rate.
Proof.
  intros Hok. pose proof (pk_liquidity _ _ _ Hok) as Hl. unfold liquidity_utilization_rate, get_active_liquidity.
  rewrite (total_liquidity_sum s self Hok), (pk_active _ _ _ Hok). pose proof (total_bound _ _ _ Hl) as Hb.
  pose proof (active_bounds _ _ _ Hl (po_current_tick (pf_state self))) as Ha.
  assert (Hle : active (pf_positions self) (po_current_tick (pf_state self)) <= psum pq_liquidity (pf_positions self)).
  { apply psum_le. eapply map_Forall_impl; [apply (wf_positions _ _ _ Hl)|]. intros k p (_ & _ & _ & H). cbn. unfold liq_at. case_match; lia. }
  destruct (Z.eqb_spec (psum pq_liquidity (pf_positions self)) 0); [by eexists|].
  set (a := active _ _) in *. set (t := psum _ _) in *.
  rewrite mul_div_spec by (unfold u256; lia).
  assert (Hq : 0 <= a * 1000000 / t <= 1000000) by (split; [apply Z.div_pos; lia|apply Z.div_le_upper_bound; lia]).
  destruct (_ || _); cbn [or_zero unwrap_ok]; osimpl.
  - by eexists.
  - rewrite (proj2 (checked_Some U64 _ (a * 1000000 / t))); [osimpl; by eexists|]. split; [done|]. apply in_ty_spec.
    change (imin U64) with 0. change (imax U64) with (2 ^ 64 - 1). lia.
Qed.
End steps.
