(* ===== verification/PoolSnapshot.v ===== *)
(** * Pool snapshots ([pool_analysis/snapshot.rs], [compare.rs], [profiler.rs])

    A snapshot bundles the state, the positions and the ticks of a pool; a
    profiler restored from it behaves like the one it was taken from. *)

From stdpp Require Import base numbers list gmap strings.
From Stdlib Require Import Lia ZArith.
From S2P Require Import Prelude F64 FullMath TickBitmap TickMap TickMath SqrtPrice SwapMath Pool PoolViews PoolInv PoolSwap PoolFlags PoolSpec PoolSteps.

Open Scope Z_scope.

(** The instrument id of the snapshot is left out. *)
Record PoolSnapshot : Type := mkPoolSnapshot {
  sn_state : PoolState;
  sn_positions : list PoolPosition;
  sn_ticks : list PoolTick;
  sn_analytics : PoolAnalytics;
  sn_block_position : BlockPosition;
}.

Section snapshot.
Context {UL : U256Lib} {AF : AddressFmt} {PI : PoolIter}.
Implicit Type self : PoolProfiler.

Definition extract_snapshot self : outcome unit PoolSnapshot :=
  let positions := (iter_positions (pf_positions self)).*2 in
  let ticks := (iter_ticks (tm_ticks (pf_tick_map self))).*2 in
  let state := (pf_state self) <| po_liquidity := tm_liquidity (pf_tick_map self) |> in
  block_position ← expect (pf_last_processed_event self);
  Ok (mkPoolSnapshot state positions ticks (pf_analytics self) block_position).

Definition restore_analytics (self snapshot : PoolAnalytics) : PoolAnalytics :=
  mkPoolAnalytics (an_total_amount0_deposited snapshot) (an_total_amount1_deposited snapshot)
    (an_total_amount0_collected snapshot) (an_total_amount1_collected snapshot) (an_total_swaps snapshot)
    (an_total_mints snapshot) (an_total_burns snapshot) (an_total_fee_collects snapshot) (an_total_flashes snapshot)
    (an_liquidity_utilization_rate self).

Definition restore_positions (positions : list PoolPosition) : gmap string PoolPosition :=
  foldl (fun m p => <[get_position_key (pq_owner p) (pq_tick_lower p) (pq_tick_upper p) := p]> m) ∅ positions.

Fixpoint restore_ticks (tick_map : TickMap) (ticks : list PoolTick) : outcome unit TickMap :=
  match ticks with
  | [] => Ok tick_map
  | tick :: ticks => tick_map ← restore_tick tick_map tick; restore_ticks tick_map ticks
  end.

Definition restore_from_snapshot self (snapshot : PoolSnapshot) : PoolProfiler * outcome unit unit :=
  let liquidity := po_liquidity (sn_state snapshot) in
  match (spacing ← expect (pd_tick_spacing (pf_pool self));
         tick_map ← tick_map_new spacing;
         restore_ticks tick_map (sn_ticks snapshot)) with
  | Ok tick_map =>
      update_liquidity_analytics
        (mkProfiler (pf_pool self) (restore_positions (sn_positions snapshot)) (with_liquidity tick_map liquidity)
           (sn_state snapshot) (restore_analytics (pf_analytics self) (sn_analytics snapshot))
           (Some (sn_block_position snapshot)) true)
  | Err e => (self, Err e)
  | Panic => (self, Panic)
  end.

(** [compare.rs]: the ticks and positions of the snapshot are looked up in the
    profiler; fees are not compared. *)
Definition tick_matches self (tick : PoolTick) : bool :=
  match get_tick (pf_tick_map self) (pt_value tick) with
  | Some profiler_tick =>
      (pt_liquidity_net profiler_tick =? pt_liquidity_net tick) && (pt_liquidity_gross profiler_tick =? pt_liquidity_gross tick)
  | None => false
  end.

Definition position_matches self (position : PoolPosition) : bool :=
  match get_position self (pq_owner position) (pq_tick_lower position) (pq_tick_upper position) with
  | Some profiler_position => pq_liquidity position =? pq_liquidity profiler_position
  | None => false
  end.

Definition compare_pool_profiler self (snapshot : PoolSnapshot) : outcome unit bool :=
  _ ← assert_ (pf_is_initialized self);
  let state := sn_state snapshot in
  Ok ((po_current_tick state =? po_current_tick (pf_state self))
      && (po_price_sqrt_ratio_x96 state =? po_price_sqrt_ratio_x96 (pf_state self))
      && (po_fee_protocol state =? po_fee_protocol (pf_state self))
      && (po_liquidity state =? tm_liquidity (pf_tick_map self))
      && forallb (tick_matches self) (sn_ticks snapshot)
      && forallb (position_matches self) (sn_positions snapshot)).
End snapshot.

(** ** Restoring maps from lists *)

Lemma foldl_insert {K A} `{Countable K} (key : A -> K) (xs : list A) (m : gmap K A) :
  NoDup (key <$> xs) -> (forall x, x ∈ xs -> m !! key x = None) ->
  foldl (fun m x => <[key x := x]> m) m xs = list_to_map ((fun x => (key x, x)) <$> xs) ∪ m.
Proof.
  revert m. induction xs as [|x xs IH]; intros m Hn Hm; cbn; [by rewrite (left_id_L ∅ (∪))|].
  apply NoDup_cons in Hn as [Hx Hn]. rewrite IH; [|done|].
  - rewrite <- insert_union_l, insert_union_r; [done|]. apply not_elem_of_list_to_map_1.
    rewrite <- list_fmap_compose. exact Hx.
  - intros y Hy. rewrite lookup_insert_ne; [apply Hm; set_solver|]. intros E. apply Hx. rewrite E. apply list_elem_of_fmap. by exists y.
Qed.

(** The values of a map, each filed under its own key, give the map back. *)
Lemma values_restore {K A} `{Countable K} (key : A -> K) (m : gmap K A) (kvs : list (K * A)) :
  kvs ≡ₚ map_to_list m -> map_Forall (fun k x => k = key x) m ->
  NoDup (key <$> kvs.*2) /\ list_to_map ((fun x => (key x, x)) <$> kvs.*2) = m.
Proof.
  intros Hp Hm.
  assert (E : (fun x => (key x, x)) <$> kvs.*2 = kvs).
  { rewrite <- list_fmap_compose. rewrite <- (list_fmap_id kvs) at 2. apply list_fmap_ext. intros i [k x] Hi. cbn.
    apply list_elem_of_lookup_2 in Hi. rewrite Hp in Hi. apply elem_of_map_to_list in Hi. by rewrite (Hm _ _ Hi). }
  assert (En : key <$> kvs.*2 = kvs.*1).
  { transitivity (((fun x => (key x, x)) <$> kvs.*2).*1); [|by rewrite E].
    rewrite <- (list_fmap_compose (fun x => (key x, x)) fst). reflexivity. }
  assert (Hn : NoDup kvs.*1) by (rewrite Hp; apply NoDup_fst_map_to_list).
  split; [by rewrite En|]. rewrite E. rewrite <- (list_to_map_to_list m). by apply list_to_map_proper.
Qed.

Section restore.
Context {UL : U256Lib} {AF : AddressFmt} {PI : PoolIter}.
Implicit Type self : PoolProfiler.

Lemma restore_tick_spec tm d :
  tick_map_ok tm -> tm_ticks tm !! pt_value d = None -> pt_initialized d = negb (pt_liquidity_gross d =? 0) ->
  0 <= pt_liquidity_gross d <= tm_max_liquidity_per_tick tm ->
  (pt_liquidity_gross d <> 0 -> valid_tick (tb_tick_spacing (tm_tick_bitmap tm)) (pt_value d)) ->
  exists tm', restore_tick tm d = Ok tm' /\ tick_map_ok tm' /\
    tb_tick_spacing (tm_tick_bitmap tm') = tb_tick_spacing (tm_tick_bitmap tm) /\
    tm_max_liquidity_per_tick tm' = tm_max_liquidity_per_tick tm /\ tm_ticks tm' = <[pt_value d := d]> (tm_ticks tm).
Proof.
  intros [Hbm Hmax Hrange Hmem] Hn Hi Hg Hv. unfold restore_tick. rewrite Hi. set (t := pt_value d) in *.
  assert (Eg : forall t', gross (set_tick tm d) t' = if decide (t' = t) then pt_liquidity_gross d else gross tm t').
  { intros t'. apply gross_insert. }
  assert (E0 : gross tm t = 0) by (unfold gross; by rewrite Hn).
  assert (Hr1 : forall t', 0 <= gross (set_tick tm d) t' <= tm_max_liquidity_per_tick tm) by (intros t'; rewrite Eg; case_decide; auto).
  destruct (Z.eqb_spec (pt_liquidity_gross d) 0) as [Ez|Enz]; cbn [negb].
  - eexists. split; [reflexivity|]. split; [|done]. split; [exact Hbm|exact Hmax|exact Hr1|]. intros c. rewrite Eg.
    change (tm_tick_bitmap (set_tick tm d)) with (tm_tick_bitmap tm). rewrite Hmem. case_decide as E; [|done]. by rewrite E, E0, Ez.
  - destruct (Hv Enz) as [[c Hc] Hr]. change (tm_tick_bitmap (set_tick tm d)) with (tm_tick_bitmap tm). rewrite Hc.
    pose proof (bk_spacing _ Hbm) as Hs.
    destruct (flip_member (tm_tick_bitmap tm) c Hbm) as (bm' & E' & Hbm' & Es' & Hm').
    { destruct (floor_in_words (tb_tick_spacing (tm_tick_bitmap tm)) t) as [Hw _]; [lia..|]. by rewrite Hc, Z.div_mul in Hw by lia. }
    rewrite E'. osimpl. eexists. split; [reflexivity|]. split; [|rewrite <- Hc; done].
    split; [exact Hbm'|exact Hmax|exact Hr1|]. intros c'. cbn [tm_tick_bitmap set_bitmap]. rewrite Hm', Es', Hmem.
    change (gross (set_bitmap (set_tick tm d) bm')) with (gross (set_tick tm d)). rewrite Eg. case_bool_decide as Ec.
    + subst c'. rewrite <- Hc, decide_True, E0 by done. cbn. symmetry. by apply negb_true_iff, Z.eqb_neq.
    + rewrite decide_False; [by rewrite xorb_false_r|]. rewrite Hc. intros E. apply Ec. by apply (Z.mul_reg_r _ _ _) in E; [|lia].
Qed.

Lemma restore_ticks_spec ds tm :
  tick_map_ok tm -> NoDup (pt_value <$> ds) -> (forall d, d ∈ ds -> tm_ticks tm !! pt_value d = None) ->
  Forall (fun d => pt_initialized d = negb (pt_liquidity_gross d =? 0) /\
    0 <= pt_liquidity_gross d <= tm_max_liquidity_per_tick tm /\
    (pt_liquidity_gross d <> 0 -> valid_tick (tb_tick_spacing (tm_tick_bitmap tm)) (pt_value d))) ds ->
  exists tm', restore_ticks tm ds = Ok tm' /\ tick_map_ok tm' /\
    tb_tick_spacing (tm_tick_bitmap tm') = tb_tick_spacing (tm_tick_bitmap tm) /\
    tm_max_liquidity_per_tick tm' = tm_max_liquidity_per_tick tm /\
    tm_ticks tm' = foldl (fun m d => <[pt_value d := d]> m) (tm_ticks tm) ds.
Proof.
  revert tm. induction ds as [|d ds IH]; intros tm Hok Hn Hfr Hf; [by exists tm|]. cbn [restore_ticks foldl].
  apply NoDup_cons in Hn as [Hd Hn]. apply Forall_cons in Hf as [(H1 & H2 & H3) Hf].
  destruct (restore_tick_spec tm d Hok (Hfr d ltac:(set_solver)) H1 H2 H3) as (tm1 & -> & Ok1 & S1 & M1 & T1). osimpl.
  destruct (IH tm1 Ok1 Hn) as (tm2 & E2 & Ok2 & S2 & M2 & T2).
  - intros d' Hd'. rewrite T1, lookup_insert_ne; [apply Hfr; set_solver|]. intros E. apply Hd. rewrite E. apply list_elem_of_fmap. by exists d'.
  - by rewrite S1, M1.
  - exists tm2. rewrite T2, T1, M2, S2. done.
Qed.

Lemma restore_extract s self other snap :
  pool_ok true s self -> pf_is_initialized self = true -> pf_pool other = pf_pool self -> extract_snapshot self = Ok snap ->
  exists self', restore_from_snapshot other snap = (self', Ok tt) /\ pool_ok true s self' /\ pf_is_initialized self' = true /\
    pf_positions self' = pf_positions self /\
    tm_ticks (pf_tick_map self') = tm_ticks (pf_tick_map self) /\
    tm_liquidity (pf_tick_map self') = tm_liquidity (pf_tick_map self) /\
    (forall c, member (tm_tick_bitmap (pf_tick_map self')) c = member (tm_tick_bitmap (pf_tick_map self)) c) /\
    pf_state self' = (pf_state self) <| po_liquidity := tm_liquidity (pf_tick_map self) |> /\
    pf_last_processed_event self' = pf_last_processed_event self /\
    liquidity_utilization_rate self = Ok (an_liquidity_utilization_rate (pf_analytics self')) /\
    pf_analytics self' = (pf_analytics self) <| an_liquidity_utilization_rate := an_liquidity_utilization_rate (pf_analytics self') |>.
Proof.
  intros Hok Hi Ep H. unfold extract_snapshot in H. apply bind_Ok_inv in H as (blk & Hb & H). apply expect_Ok in Hb. injection H as <-.
  pose proof (pk_liquidity _ _ _ Hok) as Hl. pose proof (pk_flags _ _ _ Hok eq_refl) as Hf.
  destruct (values_restore (fun p => get_position_key (pq_owner p) (pq_tick_lower p) (pq_tick_upper p)) (pf_positions self) _
    (iter_positions_perm (pf_positions self))) as [Pn Pm]; [eapply map_Forall_impl; [apply Hl|]; by intros k p [-> _]|].
  destruct (values_restore pt_value (tm_ticks (pf_tick_map self)) _ (iter_ticks_perm (tm_ticks (pf_tick_map self)))) as [Tn Tm];
    [eapply map_Forall_impl; [exact Hf|]; by intros k d [<- _]|].
  destruct (tick_map_new_ok s (lk_range _ _ _ Hl)) as (tm0 & E0 & Hl0 & _ & Et0).
  assert (M0 : tm_max_liquidity_per_tick tm0 = tm_max_liquidity_per_tick (pf_tick_map self)).
  { by rewrite (lk_max _ _ _ Hl0), (lk_max _ _ _ Hl). }
  destruct (restore_ticks_spec (iter_ticks (tm_ticks (pf_tick_map self))).*2 tm0 (lk_map _ _ _ Hl0) Tn) as (tm1 & E1 & Ok1 & S1 & M1 & T1).
  { intros d _. rewrite Et0. apply lookup_empty. }
  { rewrite Forall_fmap, iter_ticks_perm. apply Forall_forall. intros [t d] Hd%elem_of_map_to_list. cbn. destruct (Hf t d Hd) as [<- Hfl]. split; [done|].
    rewrite <- (gross_lookup _ _ _ Hd), M0, (lk_spacing _ _ _ Hl0). split; [apply Hl|]. apply (gross_valid _ _ _ Hl). }
  rewrite foldl_insert, Et0, (right_id_L ∅ (∪)), Tm in T1; [|done|intros; rewrite Et0; apply lookup_empty].
  assert (G1 : forall t, gross tm1 t = gross (pf_tick_map self) t) by (intros t; unfold gross; by rewrite T1).
  unfold restore_from_snapshot. cbn [sn_ticks sn_state sn_positions sn_analytics sn_block_position]. rewrite Ep, (pk_spacing _ _ _ Hok). osimpl.
  rewrite E0. osimpl. rewrite E1. unfold restore_positions. rewrite foldl_insert, (right_id_L ∅ (∪)), Pm; [|done|intros; apply lookup_empty].
  set (st := (pf_state self) <| po_liquidity := _ |>).
  match goal with |- context [update_liquidity_analytics ?x] => set (self1 := x) end.
  assert (Hok1 : pool_ok true s self1).
  { destruct Hok as [K1 K2 K3 K4 K5 K6 K7 K8]. split; cbn; try done.
    - eapply same_liquidity_ok; [apply same_with_liquidity|]. destruct K3 as [L1 L2 L3 L4 L5 L6 L7]. split; try done.
      + rewrite S1. apply Hl0.
      + by rewrite M1, M0.
      + intros t. rewrite G1. apply L6.
      + intros t. unfold net. rewrite T1. apply L7.
    - by intros _; apply K5.
    - intros _. unfold tick_flags. cbn. rewrite T1. exact Hf. }
  assert (Er : liquidity_utilization_rate self1 = liquidity_utilization_rate self) by reflexivity.
  destruct (utilization_ok true s self Hok) as [rate Hrate].
  unfold update_liquidity_analytics. rewrite Er, Hrate. eexists. split; [reflexivity|]. split; [by apply on_analytics_ok|].
  cbn. split_and!; try done.
  intros c. rewrite (tk_member _ Ok1), (tk_member _ (lk_map _ _ _ Hl)), G1, S1, (lk_spacing _ _ _ Hl0), (lk_spacing _ _ _ Hl). done.
Qed.

(** A profiler with the state of a snapshot compares equal to it. *)
Lemma compare_extract s self self' snap :
  pool_ok true s self -> extract_snapshot self = Ok snap -> pf_is_initialized self' = true ->
  pf_positions self' = pf_positions self -> tm_ticks (pf_tick_map self') = tm_ticks (pf_tick_map self) ->
  tm_liquidity (pf_tick_map self') = tm_liquidity (pf_tick_map self) ->
  pf_state self' = (pf_state self) <| po_liquidity := tm_liquidity (pf_tick_map self) |> ->
  compare_pool_profiler self' snap = Ok true.
Proof.
  intros Hok H Hi Ep Et El Es. unfold extract_snapshot in H. apply bind_Ok_inv in H as (blk & _ & H). injection H as <-.
  unfold compare_pool_profiler. cbn [sn_state sn_ticks sn_positions]. rewrite Hi, Es, El. cbn [assert_]. osimpl. cbn. rewrite !Z.eqb_refl. cbn [andb].
  assert (Ht : forallb (tick_matches self') (iter_ticks (tm_ticks (pf_tick_map self))).*2 = true).
  { apply forallb_forall. intros d Hd. apply list_elem_of_In, list_elem_of_fmap in Hd as ([t d'] & -> & Hd). rewrite iter_ticks_perm in Hd.
    apply elem_of_map_to_list in Hd. cbn. unfold tick_matches, get_tick.
    destruct (pk_flags _ _ _ Hok eq_refl t d' Hd) as [-> _]. rewrite Et, Hd, !Z.eqb_refl. done. }
  assert (Hp : forallb (position_matches self') (iter_positions (pf_positions self)).*2 = true).
  { apply forallb_forall. intros p Hp. apply list_elem_of_In, list_elem_of_fmap in Hp as ([k p'] & -> & Hp). rewrite iter_positions_perm in Hp.
    apply elem_of_map_to_list in Hp. cbn. unfold position_matches, get_position.
    destruct (lk_positions _ _ _ (pk_liquidity _ _ _ Hok) k p' Hp) as [<- _]. rewrite Ep, Hp, Z.eqb_refl. done. }
  by rewrite Ht, Hp.
Qed.
End restore.
