(* ===== verification/PoolHistory.v ===== *)
(** * Pools: the theorems

    Over every history of a pool the active liquidity, which swaps keep up to
    date tick by tick, is the liquidity of the positions that span the current
    tick; a swap ends, respects its limit and its amount; a change of a position
    has exactly its effect; a snapshot restores the pool.  At the end, behaviour
    the comments of the code do not promise. *)

From stdpp Require Import base numbers list gmap strings pretty.
From Stdlib Require Import Lia ZArith.
From S2P Require Import Prelude F64 FullMath TickBitmap TickMap TickMath TickLog SqrtPrice SwapMath Pool PoolViews PoolInv PoolSwap PoolFlags PoolSpec PoolSteps PoolSnapshot.

Open Scope Z_scope.

(** ** A concrete pool *)

#[global, refine] Instance address_std : AddressFmt := {| show_address := pretty |}.
Proof.
  - intros a b. apply (inj pretty).
  - apply no_colon_Z.
Defined.

#[global, refine] Instance pool_iter_std : PoolIter := {|
  iter_positions := map_to_list;
  iter_ticks := map_to_list;
|}.
Proof. all: done. Defined.

(** A pool with a fee of 0.3 % at price one, with one position. *)
Definition demo_def : PoolDef := mkPoolDef (Some 3000) (Some 60) None.
Definition demo_block : BlockPosition := mkBlockPosition 100 "0xabc" 2 7.
Definition demo_event : PoolEvent := EvMint 1 (-600) 600 (10 ^ 18) 0 0.

Definition get_ok {A} (d : A) (r : outcome unit A) : A := match r with Ok a => a | _ => d end.

Definition demo_new : PoolProfiler :=
  get_ok (mkProfiler demo_def ∅ (mkTickMap ∅ (mkBitmap ∅ 1) 0 0) pool_state_default pool_analytics_default None true) (profiler_new demo_def).
Definition demo_start : PoolProfiler := get_ok demo_new (profiler_initialize demo_new (2 ^ 96)).
Definition demo_minted : PoolProfiler :=
  match process_pool_event O demo_start demo_block demo_event with Some (self, _) => self | None => demo_start end.

Lemma demo_def_ok : pool_def_ok 60 demo_def.
Proof. split; [reflexivity|]. split; [unfold MAX_TICK; lia|]. intros f [= <-]. vm_compute. split; discriminate. Qed.

Lemma pool_demo_run strict : profiler_new demo_def = Ok demo_new /\ rtc (pool_step strict) demo_new demo_minted.
Proof.
  split; [vm_compute; reflexivity|]. eapply rtc_l; [apply (ps_initialize _ _ (2 ^ 96) demo_start); vm_compute; reflexivity|].
  eapply rtc_l; [|apply rtc_refl]. apply (ps_event _ _ demo_block demo_event demo_minted (Ok tt)).
  - split; [lia|]. intros _. left. lia.
  - vm_compute. reflexivity.
  - discriminate.
Qed.

(** Tick and liquidity after a processed swap event, confirmed or not. *)
Lemma process_swap_corrects {UL : U256Lib} {AF : AddressFmt} fuel self at_ amount0 amount1 price tick liquidity self' :
  process_swap fuel self at_ amount0 amount1 price tick liquidity = Some (self', Ok tt) ->
  check_if_already_processed self (bl_number at_) (bl_transaction_index at_) (bl_log_index at_) = false ->
  po_current_tick (pf_state self') = tick /\ get_active_liquidity self' = liquidity.
Proof.
  unfold process_swap. intros H Hn. rewrite Hn in H. destruct (negb _); [done|].
  destruct (simulate_swap_through_ticks _ _ _ _ _) as [[q|e|]|]; [|done..].
  destruct (apply_swap_quote self q) as [self1|e|]; [|done..]. injection H as H. revert H.
  unfold finish_event. set (self2 := self1 <| pf_state := _ |> <| pf_tick_map := _ |>). intros H.
  unfold update_liquidity_analytics in H. destruct (liquidity_utilization_rate _); by injection H as <-.
Qed.

(** C14: On every history of a pool (initialisation, events replayed, simulated
    mints, burns, swaps and flash loans, operations that return an error
    included), the active liquidity of the tick map is the sum over the positions
    that span the current tick, the ticks in use are exactly those some position
    refers to, the current tick is that of the price, and the utilisation rate is
    computed without a panic.  The histories contain no operation that panics, no
    swap event whose tick or liquidity the simulation does not confirm (where
    [process_swap] overwrites its state with the event's), and no simulated swap
    with a limit outside the open range of prices or on the wrong side of the
    price; the pool has a tick spacing and a fee of at most 50 %.
    Such an unconfirmed event is not part of a history, but its effect is stated:
    after any swap event that is processed the current tick and the active
    liquidity are the event's own (so they need not agree with the positions). *)
Theorem active_liquidity_exact {UL : U256Lib} {AF : AddressFmt} s pool self0 self :
  pool_def_ok s pool -> profiler_new pool = Ok self0 -> rtc (pool_step false) self0 self ->
  get_active_liquidity self = get_total_liquidity_from_active_positions self /\
  (forall t, valid_tick s t ->
    is_tick_initialized (pf_tick_map self) t
    = negb (psum (liq_lower t) (pf_positions self) + psum (liq_upper t) (pf_positions self) =? 0)) /\
  (pf_is_initialized self = true -> at_price (po_current_tick (pf_state self)) (po_price_sqrt_ratio_x96 (pf_state self))) /\
  (exists rate, liquidity_utilization_rate self = Ok rate) /\
  (forall fuel at_ amount0 amount1 price tick liquidity self',
    process_swap fuel self at_ amount0 amount1 price tick liquidity = Some (self', Ok tt) ->
    check_if_already_processed self (bl_number at_) (bl_transaction_index at_) (bl_log_index at_) = false ->
    po_current_tick (pf_state self') = tick /\ get_active_liquidity self' = liquidity).
Proof.
  intros Hd Hn Hr. pose proof (reachable_ok _ _ _ _ _ Hd Hn Hr) as Hok. pose proof (pk_liquidity _ _ _ Hok) as Hl.
  split; [unfold get_active_liquidity; rewrite (active_positions_sum _ s) by done; apply Hok|].
  split; [intros t Ht; rewrite <- (lk_gross _ _ _ Hl); by eapply initialized_gross|].
  split; [apply Hok|]. split; [by eapply utilization_ok|]. intros *. apply process_swap_corrects.
Qed.

Lemma active_liquidity_exact_witness :
  get_active_liquidity demo_minted = 10 ^ 18 /\ get_total_liquidity_from_active_positions demo_minted = 10 ^ 18 /\
  is_tick_initialized (pf_tick_map demo_minted) 600 = true.
Proof.
  destruct (pool_demo_run false) as [Hn Hr]. destruct (active_liquidity_exact 60 demo_def demo_new demo_minted demo_def_ok Hn Hr) as (E & Ht & _).
  split; [vm_compute; reflexivity|]. split; [rewrite <- E; vm_compute; reflexivity|].
  rewrite Ht; [vm_compute; reflexivity|]. split; [exists 10; reflexivity|vm_compute; split; discriminate].
Defined.

(** C15: On every pool a history reaches that is initialised and has a fee, the
    simulation of a swap of any signed 256-bit amount, with a limit strictly
    between the minimum and the maximum price and on the right side of the
    current price, ends (two million turns of its loop are enough) and does not
    panic: its quote moves the price towards the limit and never past it, ends
    at the tick of its price with the liquidity of the positions that span it,
    takes at most the exact input (all of it unless the limit was reached) or
    gives at most the exact output (all of it unless the limit was reached), and
    can be applied; an exact input below 128 bits never fails.  For a limit at or
    below the minimum the loop need not end.  The histories contain no operation that panics, no
    swap event whose tick or liquidity the simulation does not confirm (where
    [process_swap] overwrites its state with the event's), and no simulated swap
    with a limit outside the open range of prices or on the wrong side of the
    price; the pool has a tick spacing and a fee of at most 50 %. *)
Theorem swap_simulation_correct {UL : U256Lib} {AF : AddressFmt} s pool self0 self fuel amount (zfo : bool) limit f :
  pool_def_ok s pool -> profiler_new pool = Ok self0 -> rtc (pool_step false) self0 self ->
  pf_is_initialized self = true -> pd_fee (pf_pool self) = Some f -> i256 amount -> limit_ok self zfo limit ->
  2 ^ 21 <= Z.of_nat fuel ->
  exists r : outcome unit SwapQuote, simulate_swap_through_ticks fuel self amount zfo limit = Some r /\
    match r with
    | Ok q => quote_ok self amount zfo limit q /\
        exists self', apply_swap_quote self q = Ok self' /\
          po_price_sqrt_ratio_x96 (pf_state self') = sq_sqrt_price_after_x96 q /\
          get_active_liquidity self' = get_total_liquidity_from_active_positions self'
    | Err _ => 0 < amount -> 2 ^ 128 <= amount
    | Panic => False
    end.
Proof.
  intros Hd Hn Hr Hi Hf Ha [Hl Hs] Hfuel. pose proof (reachable_ok _ _ _ _ _ Hd Hn Hr) as Hok.
  destruct (simulate_spec _ s self fuel amount zfo limit f Hok Hi Hf Ha Hl Hs Hfuel) as (r & Er & H).
  exists r. split; [done|]. destruct r as [q|e|]; [|done..]. destruct H as [Hq _]. split; [done|].
  destruct (swap_applied _ s self fuel amount zfo limit f q Hok Hi Hf Ha Hl Hs Hfuel Er) as (self' & E & Hok' & _ & _ & _ & Ep & _).
  exists self'. split; [done|]. split; [done|]. rewrite (active_positions_sum _ s) by done. apply Hok'.
Qed.

Lemma swap_simulation_correct_witness :
  exists q, simulate_swap_through_ticks SWAP_FUEL demo_minted (10 ^ 17) true (MIN_SQRT_RATIO + 1) = Some (Ok q) /\
    sq_amount0 q <= 10 ^ 17 /\ sq_amount1 q <= 0 /\ sq_sqrt_price_after_x96 q <= 2 ^ 96.
Proof.
  destruct (pool_demo_run false) as [Hn Hr].
  destruct (swap_simulation_correct 60 demo_def demo_new demo_minted SWAP_FUEL (10 ^ 17) true (MIN_SQRT_RATIO + 1) 3000
    demo_def_ok Hn Hr) as (r & E & H).
  - vm_compute. reflexivity.
  - vm_compute. reflexivity.
  - unfold i256. lia.
  - split; [vm_compute; split; reflexivity|]. vm_compute. discriminate.
  - unfold SWAP_FUEL. rewrite Z2Nat.id; lia.
  - destruct r as [q|e|]; [|clear - H; lia|destruct H]. destruct H as [[Q1 _ _ _ Q5 Q6 _] _]. exists q.
    split; [exact E|]. split; [apply Q6; reflexivity|]. split; [exact Q5|].
    apply Q1.
Defined.

(** On every initialised pool a history reaches, for ticks that
    [validate_ticks] accepts and a change of liquidity strictly between -2^127 and
    2^127, a change of a position is refused with an error when the position has
    less than what is burned, leaving the tick map as it was; it panics exactly
    when one of the two ticks would exceed the pool's maximum; otherwise the
    position's liquidity moves by the amount, no other position changes, and the
    active liquidity moves by it exactly when the range contains the current
    tick.  The histories contain no operation that panics, no
    swap event whose tick or liquidity the simulation does not confirm (where
    [process_swap] overwrites its state with the event's), and no simulated swap
    with a limit outside the open range of prices or on the wrong side of the
    price; the pool has a tick spacing and a fee of at most 50 %.
    (After an unconfirmed event with less liquidity than the positions have, a
    burn can also panic by underflow of the active liquidity.) *)
Theorem position_change_correct {UL : U256Lib} {AF : AddressFmt} s pool self0 self owner l u delta a0 a1 :
  pool_def_ok s pool -> profiler_new pool = Ok self0 -> rtc (pool_step false) self0 self -> pf_is_initialized self = true ->
  validate_ticks self l u = Ok tt -> - 2 ^ 127 < delta < 2 ^ 127 ->
  let liquidity := pq_liquidity (entry_for self owner l u) in
  let max := tm_max_liquidity_per_tick (pf_tick_map self) in
  let cur := po_current_tick (pf_state self) in
  let '(self', r) := update_pool_position self owner l u delta a0 a1 in
  if liquidity + delta <? 0 then r = Err tt /\ pf_tick_map self' = pf_tick_map self /\ pf_state self' = pf_state self
  else if (gross (pf_tick_map self) l + delta <=? max) && (gross (pf_tick_map self) u + delta <=? max)
  then r = Ok tt /\ pf_state self' = pf_state self /\
    pq_liquidity (entry_for self' owner l u) = liquidity + delta /\
    (forall k, k <> get_position_key owner l u -> pf_positions self' !! k = pf_positions self !! k) /\
    get_active_liquidity self' = get_active_liquidity self + (if (l <=? cur) && (cur <? u) then delta else 0)
  else r = Panic.
Proof.
  intros Hd Hn Hr Hi Hv Hdelta liquidity max cur. pose proof (reachable_ok _ _ _ _ _ Hd Hn Hr) as Hok.
  destruct (validate_ticks_spec _ s self l u Hok Hv) as (Hl & Hu & Hlu).
  pose proof (update_position_spec false s self owner l u delta a0 a1 Hok Hi Hl Hu Hlu Hdelta ltac:(done)) as H. cbn zeta in H.
  destruct (update_pool_position self owner l u delta a0 a1) as [self' r]. fold liquidity max in H.
  destruct (liquidity + delta <? 0); [by destruct H as [-> ->]|]. destruct (_ && _); [|done].
  destruct H as (-> & Hok' & _ & Hst & p' & Hm & Hp). split; [done|]. split; [done|].
  assert (Ee : entry_for self' owner l u = p') by (unfold entry_for; by rewrite Hp, lookup_insert_eq).
  rewrite Ee. split; [apply Hm|]. split; [intros k Hk; rewrite Hp; by apply lookup_insert_ne|].
  unfold get_active_liquidity. rewrite (pk_active _ _ _ Hok'), (pk_active _ _ _ Hok), Hp, Hst. fold cur. unfold active. rewrite psum_insert.
  rewrite (moved_at delta (entry_for self owner l u) p' cur Hm).
  destruct (entry_for_spec _ s self owner l u Hok) as (_ & -> & -> & _).
  assert (E : entry (liq_at cur) (pf_positions self) (get_position_key owner l u) = liq_at cur (entry_for self owner l u)).
  { unfold entry, entry_for. destruct (_ !! _); [done|]. cbn. unfold liq_at. by case_match. }
  rewrite E. lia.
Qed.

(** Half of the position is burned; more than it has is refused. *)
Lemma position_change_correct_witness :
  get_active_liquidity (update_pool_position demo_minted 1 (-600) 600 (- 5 * 10 ^ 17) 0 0).1 = 5 * 10 ^ 17 /\
  (update_pool_position demo_minted 1 (-600) 600 (- 2 * 10 ^ 18) 0 0).2 = Err tt.
Proof.
  destruct (pool_demo_run false) as [Hn Hr].
  pose proof (fun d Hd => position_change_correct 60 demo_def demo_new demo_minted 1 (-600) 600 d 0 0 demo_def_ok Hn Hr
    ltac:(vm_compute; reflexivity) ltac:(vm_compute; reflexivity) Hd) as H.
  pose proof (H (- 5 * 10 ^ 17) ltac:(lia)) as H1. pose proof (H (- 2 * 10 ^ 18) ltac:(lia)) as H2. cbn zeta in H1, H2. clear H Hr Hn.
  assert (El : pq_liquidity (entry_for demo_minted 1 (-600) 600) = 10 ^ 18) by (vm_compute; reflexivity).
  assert (Ea : get_active_liquidity demo_minted = 10 ^ 18) by (vm_compute; reflexivity).
  assert (Et : po_current_tick (pf_state demo_minted) = 0) by (vm_compute; reflexivity).
  assert (Eg : (gross (pf_tick_map demo_minted) (-600) + - 5 * 10 ^ 17 <=? tm_max_liquidity_per_tick (pf_tick_map demo_minted))
    && (gross (pf_tick_map demo_minted) 600 + - 5 * 10 ^ 17 <=? tm_max_liquidity_per_tick (pf_tick_map demo_minted)) = true) by (vm_compute; reflexivity).
  rewrite El in H1. rewrite Eg in H1. rewrite Ea, Et in H1. rewrite El in H2. split.
  - destruct (update_pool_position _ _ _ _ (- 5 * 10 ^ 17) _ _) as [self' r].
    change (10 ^ 18 + - 5 * 10 ^ 17 <? 0) with false in H1. cbv iota in H1. destruct H1 as (_ & _ & _ & _ & E).
    transitivity (get_active_liquidity self'); [reflexivity|]. etransitivity; [exact E|]. reflexivity.
  - destruct (update_pool_position _ _ _ _ (- 2 * 10 ^ 18) _ _) as [self' r].
    change (10 ^ 18 + - 2 * 10 ^ 18 <? 0) with true in H2. cbv iota in H2. destruct H2 as [H2 _]. exact H2.
Defined.

(** C17: A snapshot taken of an initialised pool after any history in which no
    position is changed by zero liquidity at ticks without liquidity, and
    restored into any profiler of the same pool, gives back the positions, the
    ticks, the active liquidity, the ticks the bitmap marks, the state (with the
    liquidity filled in), the counters and the place of the last event; the
    utilisation rate is recomputed to the rate of the original, and the
    comparison with the snapshot succeeds.  The histories contain no operation that panics, no
    swap event whose tick or liquidity the simulation does not confirm (where
    [process_swap] overwrites its state with the event's), and no simulated swap
    with a limit outside the open range of prices or on the wrong side of the
    price; the pool has a tick spacing and a fee of at most 50 %. *)
Theorem pool_snapshot_roundtrip {UL : U256Lib} {AF : AddressFmt} {PI : PoolIter} s pool self0 self other snap :
  pool_def_ok s pool -> profiler_new pool = Ok self0 -> rtc (pool_step true) self0 self -> pf_is_initialized self = true ->
  pf_pool other = pf_pool self -> extract_snapshot self = Ok snap ->
  exists self', restore_from_snapshot other snap = (self', Ok tt) /\ pf_is_initialized self' = true /\
    pf_positions self' = pf_positions self /\
    tm_ticks (pf_tick_map self') = tm_ticks (pf_tick_map self) /\
    get_active_liquidity self' = get_active_liquidity self /\
    (forall t, valid_tick s t -> is_tick_initialized (pf_tick_map self') t = is_tick_initialized (pf_tick_map self) t) /\
    pf_state self' = (pf_state self) <| po_liquidity := get_active_liquidity self |> /\
    pf_last_processed_event self' = pf_last_processed_event self /\
    liquidity_utilization_rate self = Ok (an_liquidity_utilization_rate (pf_analytics self')) /\
    get_total_events self' = get_total_events self /\
    compare_pool_profiler self' snap = Ok true.
Proof.
  intros Hd Hn Hr Hi Ep He. pose proof (reachable_ok _ _ _ _ _ Hd Hn Hr) as Hok.
  destruct (restore_extract s self other snap Hok Hi Ep He) as (self' & E & Hok' & Hi' & E1 & E2 & E3 & E4 & E5 & E6 & E7 & E8).
  exists self'. split_and!; try done.
  - intros t Ht. rewrite (initialized_gross s _ _ t (pk_liquidity _ _ _ Hok') Ht), (initialized_gross s _ _ t (pk_liquidity _ _ _ Hok) Ht).
    unfold gross. by rewrite E2.
  - unfold get_total_events. by rewrite E8.
  - exact (compare_extract s self self' snap Hok He Hi' E1 E2 E3 E5).
Qed.

Lemma pool_snapshot_roundtrip_witness :
  exists snap self', extract_snapshot demo_minted = Ok snap /\ restore_from_snapshot demo_new snap = (self', Ok tt) /\
    pf_positions self' = pf_positions demo_minted /\ get_active_liquidity self' = 10 ^ 18.
Proof.
  destruct (pool_demo_run true) as [Hn Hr]. eexists.
  destruct (pool_snapshot_roundtrip 60 demo_def demo_new demo_minted demo_new _ demo_def_ok Hn Hr
    ltac:(vm_compute; reflexivity) ltac:(vm_compute; reflexivity) ltac:(unfold extract_snapshot; vm_compute; reflexivity))
    as (self' & E & _ & E1 & _ & E2 & _).
  exists self'. split; [vm_compute; reflexivity|]. split; [exact E|]. split; [exact E1|]. rewrite E2. vm_compute. reflexivity.
Defined.

(* ------------------------------------------------------------------ *)
(** * Where the code does not do what it says *)

(** ** Fees of positions *)

(** Fees are computed from the liquidity after the change: a position opened now
    is owed the fees its range earned before it existed, and a position that is
    burned whole is owed none. *)
Definition demo_earned : PoolProfiler := set_fee_growth_global demo_minted (2 ^ 128) 0.

Example new_position_owed_old_fees :
  pq_tokens_owed_0 (entry_for (update_pool_position demo_earned 2 (-600) 600 1000 0 0).1 2 (-600) 600) = 1000.
Proof. vm_compute. reflexivity. Qed.

Example burned_position_owed_no_fees :
  pq_tokens_owed_0 (entry_for (update_pool_position demo_earned 1 (-600) 600 (- 10 ^ 18) 0 0).1 1 (-600) 600) = 0.
Proof. vm_compute. reflexivity. Qed.

(** A refused burn leaves an empty position behind. *)
Example refused_burn_leaves_position :
  let '(self, r) := update_pool_position demo_start 5 (-60) 60 (-1) 0 0 in
  r = Err tt /\ size (pf_positions demo_start) = 0%nat /\ size (pf_positions self) = 1%nat.
Proof. vm_compute. done. Qed.

(** ** Swaps *)

(** The direction of a quote is taken from the sign of its first amount: a swap
    of token 0 through a range without liquidity, whose amounts are zero,
    overwrites the fee growth of token 1 with that of token 0. *)
Example empty_swap_overwrites_growth :
  match execute_swap 100 (set_fee_growth_global demo_start 5 7) true 100 (2 ^ 95) with
  | Some (Ok (self, q)) =>
      sq_amount0 q = 0 /\ po_fee_growth_global_0 (pf_state self) = 5 /\ po_fee_growth_global_1 (pf_state self) = 5
  | _ => False
  end.
Proof. vm_compute. done. Qed.

(** [execute_swap] does not check its limit: with a limit above the price a swap
    of token 0 moves the price up. *)
Example wrong_side_limit_moves_up :
  match execute_swap 100 demo_minted true 1000 (2 ^ 96 + 2 ^ 80) with
  | Some (Ok (self, _)) => 2 ^ 96 <? po_price_sqrt_ratio_x96 (pf_state self) = true
  | _ => False
  end.
Proof. vm_compute. done. Qed.

Definition demo_block' : BlockPosition := mkBlockPosition 101 "0xdef" 0 0.

(** A swap event with a larger liquidity than the positions have makes the
    utilisation rate panic. *)
Example event_liquidity_panics :
  match process_swap 100 demo_minted demo_block' 1000 (-996) (2 ^ 95) (-1) (2 ^ 127) with
  | Some (_, r) => r = Panic
  | None => False
  end.
Proof. vm_compute. done. Qed.

(** ** Balances *)

(** The estimate adds the fee growth itself, a 128-bit fraction per unit of
    liquidity, to the token amounts. *)
Example balance_adds_raw_growth :
  match estimate_balance_of_token0 demo_minted, estimate_balance_of_token0 demo_earned with
  | Ok before, Ok after => after - before = 10 ^ 18 + 2 ^ 128
  | _, _ => False
  end.
Proof. vm_compute. done. Qed.

(** ** Snapshots *)

(** A mint of nothing marks its ticks as initialised in their data but not in the
    bitmap; a pool restored from the snapshot has them in the bitmap too. *)
Definition demo_touched : PoolProfiler :=
  match process_pool_event O demo_start demo_block (EvMint 1 (-60) 60 0 0 0) with Some (self, _) => self | None => demo_start end.

Example zero_mint_restores_ticks :
  match extract_snapshot demo_touched with
  | Ok snap =>
      is_tick_initialized (pf_tick_map demo_touched) 60 = false /\
      is_tick_initialized (pf_tick_map (restore_from_snapshot demo_new snap).1) 60 = true
  | _ => False
  end.
Proof. vm_compute. done. Qed.

(** ** Limits outside the price range *)

Section stuck.
Context {UL : U256Lib} {AF : AddressFmt}.
Variables (self : PoolProfiler) (exact_input zfo : bool) (limit fee_tier fee_protocol : Z).

Definition goes_on (st : SwapLoop) : bool := negb (lp_remaining st =? 0) && negb (limit =? lp_sqrt_price st).

(** The state after [n] turns, none of which ended the loop. *)
Fixpoint turns (n : nat) (st : SwapLoop) : option SwapLoop :=
  match n with
  | O => Some st
  | S n =>
      if goes_on st
      then match swap_turn self exact_input zfo limit fee_tier fee_protocol st with
           | Ok st => turns n st
           | _ => None
           end
      else None
  end.

Lemma loop_stuck n st st' :
  turns n st = Some st' -> goes_on st' = true -> swap_turn self exact_input zfo limit fee_tier fee_protocol st' = Ok st' ->
  forall fuel, swap_loop fuel self exact_input zfo limit fee_tier fee_protocol st = None.
Proof.
  intros Ht Hg Hs. revert st Ht. induction n as [|n IH]; intros st; cbn [turns].
  - intros [= ->] fuel. induction fuel as [|fuel IHf]; [reflexivity|]. cbn [swap_loop]. fold (goes_on st'). by rewrite Hg, Hs.
  - destruct (goes_on st) eqn:Eg; [|discriminate]. destruct (swap_turn _ _ _ _ _ _ st) as [st1|e|] eqn:E; [|discriminate..].
    intros Ht [|fuel]; [reflexivity|]. cbn [swap_loop]. fold (goes_on st). rewrite Eg, E. by apply IH.
Qed.
End stuck.

(** A limit below the lowest price passes the check of [quote_swap]; a swap that
    the pool cannot fill then never ends. *)
Lemma quote_stuck self amount limit f n st' :
  check_if_initialized self = Ok tt -> amount =? 0 = false -> validate_price_limit self limit true = Ok tt ->
  pd_fee (pf_pool self) = Some f ->
  turns self (0 <? amount) true limit f (swap_fee_protocol self true) n (swap_start self amount true) = Some st' ->
  goes_on limit st' = true -> swap_turn self (0 <? amount) true limit f (swap_fee_protocol self true) st' = Ok st' ->
  forall fuel, quote_swap fuel self amount true (Some limit) = None.
Proof.
  intros H1 H2 H3 H4 H5 H6 H7 fuel. unfold quote_swap. rewrite H1, H2. osimpl. rewrite H3. unfold simulate_swap_through_ticks.
  rewrite H4. by erewrite loop_stuck.
Qed.

(** A pool near the lowest price. *)
Definition demo_low : PoolProfiler := get_ok demo_new (profiler_initialize demo_new (MIN_SQRT_RATIO + 10 ^ 6)).

Definition demo_stuck : SwapLoop :=
  default (swap_start demo_low 0 true)
    (turns demo_low true true 1 3000 (swap_fee_protocol demo_low true) 1 (swap_start demo_low 1000 true)).

Example quote_below_range_never_ends fuel : quote_swap fuel demo_low 1000 true (Some 1) = None.
Proof. apply (quote_stuck _ _ _ 3000 1 demo_stuck); vm_compute; reflexivity. Qed.
