(* ===== verification/SizeEstimator.v ===== *)
(** * Trade sizes for a price impact ([pool_analysis/size_estimator.rs])

    A binary search over simulated swaps for the largest trade whose slippage is
    within a target.  The slippage of a quote comes from the trade information of
    the swap event, which is not part of the sources. *)

From stdpp Require Import base numbers list gmap strings.
From Stdlib Require Import Lia ZArith.
From S2P Require Import Prelude F64 FullMath TickBitmap TickMap TickMath SqrtPrice SwapMath Pool PoolInv PoolSwap PoolSpec PoolSteps PoolHistory.

Open Scope Z_scope.

Record EstimationConfig : Type := mkEstimationConfig {
  ec_enable_adaptive_bounds : bool;
  ec_max_bound_expansions : Z;
  ec_tolerance_bps : Z;
  ec_max_iterations : Z;
}.

Definition estimation_config_default : EstimationConfig := mkEstimationConfig true 10 1 50.

Record SizeForImpactResult : Type := mkSizeForImpactResult {
  si_target_impact_bps : Z;
  si_size : Z;
  si_actual_impact_bps : Z;
  si_zero_for_one : bool;
  si_iterations : Z;
  si_converged : bool;
  si_expansion_count : Z;
  si_initial_high : Z;
  si_final_low : Z;
  si_final_high : Z;
}.

Definition within_tolerance (self : SizeForImpactResult) (tolerance_bps : Z) : bool :=
  Z.abs (si_actual_impact_bps self - si_target_impact_bps self) <=? tolerance_bps.

Definition accuracy_percent (self : SizeForImpactResult) : F64.f64 :=
  if si_target_impact_bps self =? 0 then F64.of_Z 100
  else
    let diff := F64.of_Z (Z.abs (si_actual_impact_bps self - si_target_impact_bps self)) in
    let target := F64.of_Z (si_target_impact_bps self) in
    F64.sub (F64.of_Z 100) (F64.min (F64.mul (F64.div diff target) (F64.of_Z 100)) (F64.of_Z 100)).

Record BinarySearchState : Type := mkBinarySearchState {
  bs_low : Z;
  bs_high : Z;
  bs_initial_high : Z;
  bs_iterations : Z;
  bs_expansions : Z;
  bs_converged : bool;
  bs_final_slippage_bps : option Z;
}.

#[global] Instance eta_binary_search_state : Eta BinarySearchState :=
  fun s => mkBinarySearchState (bs_low s) (bs_high s) (bs_initial_high s) (bs_iterations s) (bs_expansions s)
             (bs_converged s) (bs_final_slippage_bps s).

(** The slippage in basis points of a quote, or an error. *)
Class TradeInfo : Type := trade_slippage_bps : SwapQuote -> option Z.

Section estimator.
Context {UL : U256Lib} {AF : AddressFmt} {TI : TradeInfo}.
Implicit Type self : PoolProfiler.

Definition estimate_max_size_for_impact self (impact_bps : Z) (zero_for_one : bool) : outcome unit Z :=
  let liquidity := get_active_liquidity self in
  if liquidity =? 0 then Ok 1000000
  else
    let sqrt_price := po_price_sqrt_ratio_x96 (pf_state self) in
    let q96 := u_shl 1 96 in
    base ←
      (if zero_for_one
       then div_checked (u_mul (u_mul liquidity q96) impact_bps) (u_mul sqrt_price 10000)
       else div_checked (u_mul (u_mul liquidity sqrt_price) impact_bps) (u_mul q96 10000));
    let doubled := u_mul base 2 in
    let min_val := 1000000 in
    let max_val := 1000000000000000000000000000000 in
    Ok (if doubled <? min_val then min_val else if max_val <? doubled then max_val else doubled).

Definition slippage_for_size_bps (fuel : nat) self (size : Z) (zero_for_one : bool) : option (outcome unit Z) :=
  if pf_is_initialized self
  then
    if size =? 0 then Some (Ok 0)
    else
      fmap (M := option) (fun r => quote ← r; match trade_slippage_bps quote with Some s => Ok s | None => Err tt end)
        (swap_exact_in fuel self size zero_for_one None)
  else Some Panic.

(** The loop runs while [iterations < max_iterations]: at most [n] more turns. *)
Fixpoint search_loop (n : nat) (slippage : Z -> option (outcome unit Z)) (impact_bps : Z) (config : EstimationConfig)
  (st : BinarySearchState) : option (outcome unit BinarySearchState) :=
  match n with
  | O => Some (Ok st)
  | S n =>
      let st := st <| bs_iterations := wrap U32 (bs_iterations st + 1) |> in
      let mid := u_div (u_add (bs_low st) (bs_high st)) 2 in
      if mid =? 0 then Some (Ok st)
      else
        match slippage mid with
        | None => None
        | Some Panic => Some Panic
        | Some (Err _) => search_loop n slippage impact_bps config (st <| bs_high := mid |>)
        | Some (Ok slippage_mid) =>
            if Z.abs (slippage_mid - impact_bps) <=? ec_tolerance_bps config
            then Some (Ok (st <| bs_low := mid |> <| bs_final_slippage_bps := Some slippage_mid |> <| bs_converged := true |>))
            else if slippage_mid <? impact_bps
            then
              let st := st <| bs_low := mid |> in
              let range := u_sub (bs_high st) (bs_low st) in
              let threshold := u_div range 5 in
              if ec_enable_adaptive_bounds config && (u_sub (bs_high st) mid <=? threshold)
                 && (bs_expansions st <? ec_max_bound_expansions config)
              then search_loop n slippage impact_bps config
                     (st <| bs_high := u_mul (bs_high st) 2 |> <| bs_expansions := wrap U32 (bs_expansions st + 1) |>)
              else search_loop n slippage impact_bps config st
            else search_loop n slippage impact_bps config (st <| bs_high := mid |>)
        end
  end.

Definition binary_search_for_size (fuel : nat) self (impact_bps : Z) (zero_for_one : bool) (config : EstimationConfig)
  : option (outcome unit BinarySearchState) :=
  let start :=
    _ ← err_if (impact_bps =? 0) tt;
    _ ← err_if (10000 <? impact_bps) tt;
    _ ← check_if_initialized self;
    estimate_max_size_for_impact self impact_bps zero_for_one in
  match start with
  | Ok high =>
      search_loop (Z.to_nat (ec_max_iterations config)) (fun size => slippage_for_size_bps fuel self size zero_for_one)
        impact_bps config (mkBinarySearchState 0 high high 0 0 false None)
  | Err e => Some (Err e)
  | Panic => Some Panic
  end.

Definition size_for_impact_bps (fuel : nat) self (impact_bps : Z) (zero_for_one : bool) (config : EstimationConfig)
  : option (outcome unit Z) :=
  fmap (M := option) (fmap (M := outcome unit) bs_low) (binary_search_for_size fuel self impact_bps zero_for_one config).

Definition size_for_impact_bps_detailed (fuel : nat) self (impact_bps : Z) (zero_for_one : bool) (config : EstimationConfig)
  : option (outcome unit SizeForImpactResult) :=
  match binary_search_for_size fuel self impact_bps zero_for_one config with
  | Some (Ok state) =>
      let result actual :=
        mkSizeForImpactResult impact_bps (bs_low state) actual zero_for_one (bs_iterations state) (bs_converged state)
          (bs_expansions state) (bs_initial_high state) (bs_low state) (bs_high state) in
      match bs_final_slippage_bps state with
      | Some slippage => Some (Ok (result slippage))
      | None =>
          if bs_low state =? 0 then Some (Ok (result 0))
          else fmap (M := option) (fmap (M := outcome unit) result)
                 (slippage_for_size_bps fuel self (bs_low state) zero_for_one)
      end
  | Some (Err e) => Some (Err e)
  | Some Panic => Some Panic
  | None => None
  end.

(** ** The search *)

Section search.
Variables (slippage : Z -> option (outcome unit Z)) (impact : Z) (config : EstimationConfig) (initial : Z).
Hypothesis Hinitial : 0 < initial <= 10 ^ 30.
Hypothesis Htol : 0 <= ec_tolerance_bps config.
Hypothesis Htotal : forall size, 0 < size <= 10 ^ 30 -> exists r, slippage size = Some r /\ r <> Panic.

(** A size that is too large: no swap, or a slippage beyond the target. *)
Definition too_large (size : Z) : Prop :=
  slippage size = Some (Err tt) \/ exists sl, slippage size = Some (Ok sl) /\ impact + ec_tolerance_bps config < sl.

(** A size that is within the target. *)
Definition acceptable (converged : bool) (size : Z) : Prop :=
  size = 0 \/ exists sl, slippage size = Some (Ok sl) /\
    if converged then Z.abs (sl - impact) <= ec_tolerance_bps config else sl < impact.

Record search_ok (st : BinarySearchState) : Prop := {
  so_initial : bs_initial_high st = initial;
  so_range : 0 <= bs_low st <= bs_high st /\ bs_high st <= initial;
  so_high : too_large (bs_high st) \/ (bs_low st < bs_high st /\ bs_high st = initial);
  so_low : acceptable (bs_converged st) (bs_low st);
  so_expansions : bs_expansions st = 0;
  so_final : match bs_final_slippage_bps st with
             | Some sl => bs_converged st = true /\ slippage (bs_low st) = Some (Ok sl)
             | None => bs_converged st = false
             end;
}.

Lemma midpoint low high : 0 <= low <= high -> high <= 10 ^ 30 -> u_div (u_add low high) 2 = (low + high) / 2.
Proof.
  intros Hl Hh. rewrite u_add_spec, Z.mod_small by (unfold u256; lia). apply u_div_spec; unfold u256; lia.
Qed.

Lemma search_loop_ok n st :
  search_ok st -> bs_converged st = false -> 0 <= bs_iterations st -> bs_iterations st + Z.of_nat n < 2 ^ 32 ->
  exists st', search_loop n slippage impact config st = Some (Ok st') /\ search_ok st' /\
    bs_iterations st <= bs_iterations st' <= bs_iterations st + Z.of_nat n.
Proof.
  revert st. induction n as [|n IH]; intros st Hok Hc Hi Hn; [exists st; cbn; split; [done|]; split; [done|lia]|].
  destruct Hok as [S1 S2 S3 S4 S5 S6]. rewrite Hc in S4, S6. destruct (bs_final_slippage_bps st) eqn:Efin; [by destruct S6|].
  cbn [search_loop]. rewrite wrap_id by (apply in_ty_spec; change (imin U32) with 0; change (imax U32) with (2 ^ 32 - 1); lia).
  set (st1 := st <| bs_iterations := bs_iterations st + 1 |>). cbn [st1 bs_low bs_high set_field].
  change (bs_low st1) with (bs_low st). change (bs_high st1) with (bs_high st).
  rewrite midpoint by lia. set (mid := (bs_low st + bs_high st) / 2).
  assert (Hmid : bs_low st <= mid <= bs_high st) by (unfold mid; split; [apply Z.div_le_lower_bound; lia|apply Z.div_le_upper_bound; lia]).
  assert (Hlt : bs_low st < bs_high st -> mid < bs_high st) by (intros; unfold mid; apply Z.div_lt_upper_bound; lia).
  assert (Hstep : forall st2, search_ok st2 -> bs_converged st2 = false -> bs_iterations st2 = bs_iterations st + 1 ->
    exists st', search_loop n slippage impact config st2 = Some (Ok st') /\ search_ok st' /\
      bs_iterations st <= bs_iterations st' <= bs_iterations st + Z.of_nat (S n)).
  { intros st2 H2 Hc2 Hi2. destruct (IH st2 H2 Hc2) as (st' & E & H & Hr); [lia..|]. exists st'. split; [done|]. split; [done|lia]. }
  destruct (Z.eqb_spec mid 0) as [Hz|Hnz].
  { exists st1. split; [done|]. split; [|cbn; lia]. split; cbn; try done; [by rewrite Hc|by rewrite Efin]. }
  destruct (Htotal mid) as (r & Er & Hr); [lia|]. rewrite Er.
  assert (Hhigh : too_large mid -> search_ok (st1 <| bs_high := mid |>)).
  { intros Ht. split; cbn; try done; [lia|by left|by rewrite Hc|by rewrite Efin]. }
  destruct r as [sl|[]|]; [|apply Hstep; [apply Hhigh; by left|done|done]|done].
  destruct (Z.leb_spec (Z.abs (sl - impact)) (ec_tolerance_bps config)) as [Hd|Hd].
  { eexists. split; [reflexivity|]. split; [|cbn; lia]. split; cbn; try done; [lia| |right; by exists sl].
    destruct S3 as [|[S3 S3']]; [by left|right; split; [lia|done]]. }
  destruct (Z.ltb_spec sl impact) as [Hs|Hs].
  - assert (Hlt' : mid < bs_high st).
    { destruct S3 as [S3|[S3 _]]; [|by apply Hlt]. destruct (Z.eq_dec mid (bs_high st)) as [E|]; [|lia]. exfalso.
      rewrite <- E in S3. destruct S3 as [S3|(sl' & S3 & Hsl)]; rewrite Er in S3; [done|]. injection S3 as <-. lia. }
    change (bs_low (st1 <| bs_low := mid |>)) with mid. change (bs_high (st1 <| bs_low := mid |>)) with (bs_high st).
    rewrite u_sub_spec, Z.mod_small by (unfold u256; lia). rewrite u_div_spec by (unfold u256; lia).
    assert (Hq : (bs_high st - mid) / 5 < bs_high st - mid) by (apply Z.div_lt; lia).
    rewrite (proj2 (Z.leb_gt _ _) Hq), andb_false_r. cbn [andb]. apply Hstep; [|done|done].
    split; cbn; try done; [lia| |right; exists sl; by rewrite Hc|by rewrite Efin].
    destruct S3 as [|[_ S3]]; [by left|by right].
  - apply Hstep; [apply Hhigh; right; exists sl; split; [done|lia]|done|done].
Qed.
End search.

(** ** On a pool *)

Lemma estimate_range self impact (zfo : bool) :
  0 < po_price_sqrt_ratio_x96 (pf_state self) < 2 ^ 160 ->
  exists high, estimate_max_size_for_impact self impact zfo = Ok high /\ 0 < high <= 10 ^ 30.
Proof.
  intros Hp. unfold estimate_max_size_for_impact. destruct (_ =? 0); [eexists; split; [reflexivity|lia]|].
  assert (E : u_shl 1 96 = 2 ^ 96) by (rewrite u_shl_spec by (unfold u256; lia); reflexivity). rewrite E.
  assert (H : forall base, exists high, @Ok unit Z (if u_mul base 2 <? 1000000 then 1000000
    else if 1000000000000000000000000000000 <? u_mul base 2 then 1000000000000000000000000000000 else u_mul base 2) = Ok high /\ 0 < high <= 10 ^ 30).
  { intros base. eexists. split; [reflexivity|]. destruct (Z.ltb_spec (u_mul base 2) 1000000); [lia|].
    destruct (Z.ltb_spec 1000000000000000000000000000000 (u_mul base 2)); lia. }
  destruct zfo; unfold div_checked.
  - rewrite (u_mul_spec (po_price_sqrt_ratio_x96 (pf_state self)) 10000), Z.mod_small by (unfold u256; lia).
    rewrite (proj2 (Z.eqb_neq _ 0)) by lia. osimpl. apply H.
  - rewrite (u_mul_spec (2 ^ 96) 10000), Z.mod_small by (unfold u256; lia). rewrite (proj2 (Z.eqb_neq _ 0)) by lia. osimpl. apply H.
Qed.

(** The limit of a swap without one. *)
Definition open_limit (zfo : bool) : Z := if zfo then MIN_SQRT_RATIO + 1 else MAX_SQRT_RATIO - 1.

Lemma slippage_total strict s self fuel (zfo : bool) f size :
  pool_ok strict s self -> pf_is_initialized self = true -> pd_fee (pf_pool self) = Some f ->
  limit_ok self zfo (open_limit zfo) -> 2 ^ 21 <= Z.of_nat fuel -> 0 < size <= 10 ^ 30 ->
  exists r, slippage_for_size_bps fuel self size zfo = Some r /\ r <> Panic.
Proof.
  intros Hok Hi Hf [Hl Hs] Hfuel Hsize. unfold slippage_for_size_bps. rewrite Hi, (proj2 (Z.eqb_neq size 0)) by lia.
  unfold swap_exact_in. rewrite (proj2 (in_ty_spec I256 size)) by (change (imin I256) with (- 2 ^ 255); change (imax I256) with (2 ^ 255 - 1); lia).
  unfold quote_swap, check_if_initialized. rewrite Hi, (proj2 (Z.eqb_neq size 0)) by lia. cbn [assert_ err_if]. osimpl. fold (open_limit zfo).
  destruct (simulate_spec _ s self fuel size zfo (open_limit zfo) f Hok Hi Hf ltac:(lia) Hl Hs Hfuel) as (r & Er & H).
  rewrite Er. cbn. eexists. split; [reflexivity|]. destruct r as [q|e|]; cbn; [by destruct (trade_slippage_bps q)|done|done].
Qed.
End estimator.

(** On every pool a history reaches that is initialised, has a fee and whose
    price is not already past the open limit of the direction (one above the
    minimum or one below the maximum price), the search for a trade size rejects
    a target of zero or above 100 %, and otherwise ends within the configured
    number of iterations with a size between zero and the initial estimate: the
    size is zero, or its simulated slippage is below the target (within the
    tolerance of it when the search converged); the upper bound is the initial
    one, or a size whose swap fails or whose slippage exceeds the target; the
    bound is never expanded, whatever the configuration says.  The tolerance and
    the iteration count are unsigned 32-bit values; the slippage of a quote is
    any total function that may return an error (the trade information it is read
    from is not modelled, so that it does not panic is assumed).  The histories contain no operation that panics, no
    swap event whose tick or liquidity the simulation does not confirm (where
    [process_swap] overwrites its state with the event's), and no simulated swap
    with a limit outside the open range of prices or on the wrong side of the
    price; the pool has a tick spacing and a fee of at most 50 %. *)
Theorem size_search_correct {UL : U256Lib} {AF : AddressFmt} {TI : TradeInfo} s pool self0 self fuel impact (zfo : bool) config f :
  pool_def_ok s pool -> profiler_new pool = Ok self0 -> rtc (pool_step false) self0 self ->
  pf_is_initialized self = true -> pd_fee (pf_pool self) = Some f -> limit_ok self zfo (open_limit zfo) ->
  2 ^ 21 <= Z.of_nat fuel -> 0 <= ec_tolerance_bps config -> 0 <= ec_max_iterations config < 2 ^ 32 -> 0 <= impact ->
  if (impact =? 0) || (10000 <? impact) then binary_search_for_size fuel self impact zfo config = Some (Err tt)
  else exists st initial,
    binary_search_for_size fuel self impact zfo config = Some (Ok st) /\
    estimate_max_size_for_impact self impact zfo = Ok initial /\
    bs_iterations st <= ec_max_iterations config /\
    search_ok (fun size => slippage_for_size_bps fuel self size zfo) impact config initial st.
Proof.
  intros Hd Hn Hr Hi Hf Hlim Hfuel Htol Hmax Himp. pose proof (reachable_ok _ _ _ _ _ Hd Hn Hr) as Hok.
  unfold binary_search_for_size, check_if_initialized. destruct (Z.eqb_spec impact 0); cbn [orb]; [done|].
  destruct (Z.ltb_spec 10000 impact); [done|]. rewrite Hi. cbn [err_if assert_]. osimpl.
  pose proof (pk_price _ _ _ Hok Hi) as [Hrange Hpr].
  assert (Hp : 0 < po_price_sqrt_ratio_x96 (pf_state self) < 2 ^ 160).
  { apply price_160. destruct sqrt_ratio_ends as [E1 E2]. pose proof (sqrt_ratio_le MIN_TICK (po_current_tick (pf_state self))) as M1.
    pose proof (sqrt_ratio_le (po_current_tick (pf_state self) + 1) MAX_TICK) as M2. lia. }
  destruct (estimate_range self impact zfo Hp) as (high & Eh & Hh). rewrite Eh.
  destruct (search_loop_ok (fun size => slippage_for_size_bps fuel self size zfo) impact config high Hh Htol
    (fun size Hs => slippage_total false s self fuel zfo f size Hok Hi Hf Hlim Hfuel Hs) (Z.to_nat (ec_max_iterations config))
    (mkBinarySearchState 0 high high 0 0 false None)) as (st & E & Hst & Hit).
  - split; cbn; try done; [lia|right; split; [lia|done]|by left].
  - done.
  - done.
  - cbn. lia.
  - exists st, high. cbn in Hit. split; [exact E|]. split; [done|]. split; [lia|done].
Qed.

(** The impact on the square root of the price, as a slippage. *)
Definition root_slippage (q : SwapQuote) : option Z :=
  Some (Z.abs (sq_sqrt_price_before_x96 q - sq_sqrt_price_after_x96 q) * 10000 / sq_sqrt_price_before_x96 q).

Lemma size_search_correct_witness :
  exists st, binary_search_for_size (TI := root_slippage) SWAP_FUEL demo_minted 100 true estimation_config_default = Some (Ok st) /\
    bs_expansions st = 0 /\ bs_iterations st <= 50.
Proof.
  destruct (pool_demo_run false) as [Hn Hr].
  destruct (size_search_correct (TI := root_slippage) 60 demo_def demo_new demo_minted SWAP_FUEL 100 true estimation_config_default 3000
    demo_def_ok Hn Hr) as (st & initial & E & _ & Hit & Hs).
  - vm_compute. reflexivity.
  - vm_compute. reflexivity.
  - split; [vm_compute; split; reflexivity|]. vm_compute. discriminate.
  - unfold SWAP_FUEL. rewrite Z2Nat.id; lia.
  - discriminate.
  - split; [discriminate|reflexivity].
  - discriminate.
  - exists st. split; [exact E|]. split; [exact (so_expansions _ _ _ _ _ Hs)|exact Hit].
Defined.
