(* ===== verification/MatchingEngine.v ===== *)
(** * The matching engine: liquidity, queue positions and prices of fills

    What the matching engine ([crates/execution/src/matching_engine/engine.rs])
    keeps beside its core, its book and the cache to decide how much of an
    order may fill and at which prices: the volume already taken from each
    level of the book, the volume queued ahead of each resting order, and the
    budget of the trade being processed.  The handlers that dispatch events are
    not part of this file. *)

From stdpp Require Import base numbers list gmap strings.
From Stdlib Require Import ZArith Lia.
From S2P Require Import Prelude F64 Fixed Price Quantity Money Enums Maps OrderEvents OrderCore Orders Ladder Book MatchingCore CacheIndex Cache.

(** The switches of [OrderMatchingEngineConfig] these operations read. *)
Record OrderMatchingEngineConfig : Type := mkEngineConfig {
  cfg_liquidity_consumption : bool;
  cfg_queue_position : bool;
}.

(** Raw price of a level to its size when first touched and the volume taken. *)
Definition Consumption : Type := list (Z * (Z * Z)).

Record OrderMatchingEngine {Dec : Type} : Type := mkEngine {
  me_price_increment : Price;   (** [instrument.price_increment()] *)
  me_size_precision : Z;        (** [instrument.size_precision()] *)
  me_book_type : BookType;
  me_config : OrderMatchingEngineConfig;
  me_core : OrderMatchingCore;
  me_cache : Cache Dec;
  me_book : OrderBook;
  me_target_bid : option Price;
  me_target_ask : option Price;
  me_target_last : option Price;
  me_fill_at_market : bool;
  me_last_trade_size : option Quantity;
  me_bid_consumption : Consumption;
  me_ask_consumption : Consumption;
  me_trade_consumption : Z;
  me_queue_ahead : list (ClientOrderId * (Z * Z));
  me_queue_excess : list (ClientOrderId * Z);
  me_queue_pending : list (ClientOrderId * Z);
  me_prev_bid_price_raw : Z;
  me_prev_bid_size_raw : Z;
  me_prev_ask_price_raw : Z;
  me_prev_ask_size_raw : Z;
  me_tob_initialized : bool;
}.
Arguments OrderMatchingEngine : clear implicits.
#[export] Instance engine_eta {Dec} : Eta (OrderMatchingEngine Dec) := fun e =>
  mkEngine Dec (me_price_increment e) (me_size_precision e) (me_book_type e) (me_config e)
    (me_core e) (me_cache e) (me_book e) (me_target_bid e) (me_target_ask e) (me_target_last e)
    (me_fill_at_market e) (me_last_trade_size e) (me_bid_consumption e) (me_ask_consumption e)
    (me_trade_consumption e) (me_queue_ahead e) (me_queue_excess e) (me_queue_pending e)
    (me_prev_bid_price_raw e) (me_prev_bid_size_raw e) (me_prev_ask_price_raw e)
    (me_prev_ask_size_raw e) (me_tob_initialized e).

Section MatchingEngine.
Context `{M : Mode} `{B : BookOrderApi} `{D : BookDataApi} {Dec : Type}.
Abbreviation Engine := (OrderMatchingEngine Dec).
Abbreviation Fills := (list (Price * Quantity)).
Implicit Types (self : Engine) (order : OrderAny Dec) (fills : Fills) (id : ClientOrderId).

(** [a.saturating_sub(b)], [a - b] and [a + b] on [QuantityRaw]. *)
Definition raw_saturating_sub (a b : Z) : Z := saturate QuantityRaw (a - b).
Definition raw_sub (a b : Z) : Z := wrap QuantityRaw (a - b).
Definition raw_add (a b : Z) : Z := wrap QuantityRaw (a + b).

(** *** Liquidity consumption *)

(** [entry(price).or_insert((level_size, 0))], reset when the size of the level
    is not the recorded one. *)
Definition consumption_entry (price level_size : Z) (c : Consumption) : Z * Z :=
  let '(original_size, consumed) := default (level_size, 0) (im_get price c) in
  if negb (original_size =? level_size) then (level_size, 0) else (original_size, consumed).

Fixpoint consume_loop {E} (book : OrderBook) (order_side : OrderSide)
    (book_prices : option (list Price)) (fill_idx : nat) fills (consumption : Consumption)
    (remaining_qty : Z) : outcome E (Consumption * Fills) :=
  match fills with
  | [] => Ok (consumption, [])
  | (price, qty) :: fills =>
      if remaining_qty =? 0 then Ok (consumption, [])
      else
        let book_price := default price (book_prices ≫= fun bp => bp !! fill_idx) in
        let next := consume_loop book order_side book_prices (S fill_idx) fills in
        level_size ← get_quantity_at_level book book_price order_side (q_precision qty);
        let '(original_size, consumed) :=
          consumption_entry (p_raw book_price) (q_raw level_size) consumption in
        let consumption := im_insert (p_raw book_price) (original_size, consumed) consumption in
        let available := raw_saturating_sub original_size consumed in
        if available =? 0 then next consumption remaining_qty
        else
          let adjusted_qty_raw := Z.min (Z.min (q_raw qty) available) remaining_qty in
          if adjusted_qty_raw =? 0 then next consumption remaining_qty
          else
            adjusted_qty ← qty_from_raw adjusted_qty_raw (q_precision qty);
            '(consumption, adjusted_fills) ←
              next (im_insert (p_raw book_price)
                      (original_size, raw_add consumed adjusted_qty_raw) consumption)
                   (raw_sub remaining_qty adjusted_qty_raw);
            Ok (consumption, (price, adjusted_qty) :: adjusted_fills)
  end.

Definition apply_liquidity_consumption {E} self fills (order_side : OrderSide)
    (leaves_qty : Quantity) (book_prices : option (list Price)) : outcome E (Engine * Fills) :=
  if negb (cfg_liquidity_consumption (me_config self)) then Ok (self, fills)
  else
    match order_side with
    | Buy =>
        '(c, fills) ← consume_loop (me_book self) order_side book_prices 0 fills
                        (me_ask_consumption self) (q_raw leaves_qty);
        Ok (self <| me_ask_consumption := c |>, fills)
    | Sell =>
        '(c, fills) ← consume_loop (me_book self) order_side book_prices 0 fills
                        (me_bid_consumption self) (q_raw leaves_qty);
        Ok (self <| me_bid_consumption := c |>, fills)
    | NoOrderSide => Ok (self, fills)
    end.

Fixpoint seed_loop (levels : list BookLevel) (consumption : Consumption) (remaining : Z)
  : Consumption :=
  match levels with
  | [] => consumption
  | level :: levels =>
      if remaining =? 0 then consumption
      else
        let level_size := size_raw level in
        let price := p_raw (bp_value (lv_price level)) in
        let '(original_size, consumed) := consumption_entry price level_size consumption in
        let available := raw_saturating_sub level_size consumed in
        let consume := Z.min remaining available in
        seed_loop levels
          (im_insert price (original_size, raw_add consumed consume) consumption)
          (raw_sub remaining consume)
  end.

Fixpoint take_while {A} (f : A -> bool) (l : list A) : list A :=
  match l with [] => [] | x :: l => if f x then x :: take_while f l else [] end.

Definition seed_trade_consumption self (trade_price_raw trade_size_raw : Z)
    (trade_ts_event : UnixNanos) (aggressor_side : AggressorSide) : Engine :=
  if trade_size_raw =? 0 then self
  else if trade_ts_event <? ob_ts_last (me_book self) then self
  else
    match aggressor_side with
    | NoAggressor => self
    | Buyer =>
        let levels := take_while (fun l => p_raw (bp_value (lv_price l)) <=? trade_price_raw)
                        (levels_of (ob_asks (me_book self))) in
        self <| me_ask_consumption := seed_loop levels (me_ask_consumption self) trade_size_raw |>
    | Seller =>
        let levels := take_while (fun l => trade_price_raw <=? p_raw (bp_value (lv_price l)))
                        (levels_of (ob_bids (me_book self))) in
        self <| me_bid_consumption := seed_loop levels (me_bid_consumption self) trade_size_raw |>
    end.

(** *** Queue positions *)

(** [cache.order(&id)]; the open order of that id. *)
Definition order_of self id : option (OrderAny Dec) := k_orders (me_cache self) !! id.
Definition side_of order : OrderSide := o_side (any_core order).
Definition leaves_of order : Z := q_raw (o_leaves_qty (any_core order)).
Definition open_order self id : option (OrderAny Dec) :=
  order ← order_of self id; if is_closed (any_core order) then None else Some order.

Definition set_ahead self id (price_raw ahead_raw : Z) : Engine :=
  self <| me_queue_ahead := ix_insert id (price_raw, ahead_raw) (me_queue_ahead self) |>.
Definition remove_ahead self id : Engine :=
  self <| me_queue_ahead := ix_shift_remove id (me_queue_ahead self) |>.
Definition remove_pending self id : Engine :=
  self <| me_queue_pending := ix_shift_remove id (me_queue_pending self) |>.
(** A pending order whose level is reached: from one map to the other. *)
Definition promote self id (price_raw ahead_raw : Z) : Engine :=
  set_ahead (remove_pending self id) id price_raw ahead_raw.

Definition snapshot_queue_position {E} self order (price : Price) : outcome E Engine :=
  if negb (cfg_queue_position (me_config self)) then Ok self
  else
    qty_ahead ← get_quantity_at_level (me_book self) price (opposite_side (side_of order))
                  (me_size_precision self);
    let id := any_id order in
    let self := remove_ahead (remove_pending self id) id in
    let behind_bbo :=
      match side_of order with
      | Buy => is_some_and (best_bid_price (me_book self)) (fun bid => price_ltb price bid)
      | Sell => is_some_and (best_ask_price (me_book self)) (fun ask => price_gtb price ask)
      | NoOrderSide => false
      end in
    if bool_decide (me_book_type self = L1_MBP) && (q_raw qty_ahead =? 0) && behind_bbo
    then Ok (self <| me_queue_pending := ix_insert id (p_raw price) (me_queue_pending self) |>)
    else Ok (set_ahead self id (p_raw price) (q_raw qty_ahead)).

(** [decrement_queue_on_trade]: the orders at the price of the trade on the
    side it hits, with the volume ahead of each and what each has left; and
    the tracked orders that are closed or unknown. *)
Definition hits (aggressor_side : AggressorSide) (side : OrderSide) : bool :=
  match aggressor_side, side with
  | NoAggressor, _ => true
  | Buyer, Sell => true
  | Seller, Buy => true
  | _, _ => false
  end.
Fixpoint collect_hit self (price_raw : Z) (aggressor_side : AggressorSide)
    (keys : list ClientOrderId) : list (ClientOrderId * Z * Z) * list ClientOrderId :=
  match keys with
  | [] => ([], [])
  | id :: keys =>
      let '(entries, stale) := collect_hit self price_raw aggressor_side keys in
      match ix_get id (me_queue_ahead self) with
      | None => (entries, stale)
      | Some (order_price_raw, ahead_raw) =>
          match open_order self id with
          | None => (entries, id :: stale)
          | Some order =>
              if negb (order_price_raw =? price_raw) || (ahead_raw =? 0) then (entries, stale)
              else if hits aggressor_side (side_of order)
              then ((id, ahead_raw, leaves_of order) :: entries, stale)
              else (entries, stale)
          end
      end
  end.

(** [sort_by_key(ahead)], which is stable. *)
Fixpoint insert_by_ahead (x : ClientOrderId * Z * Z) (l : list (ClientOrderId * Z * Z))
  : list (ClientOrderId * Z * Z) :=
  match l with
  | [] => [x]
  | y :: l => if x.1.2 <=? y.1.2 then x :: y :: l else y :: insert_by_ahead x l
  end.
Definition sort_by_ahead (l : list (ClientOrderId * Z * Z)) : list (ClientOrderId * Z * Z) :=
  foldr insert_by_ahead [] l.

Definition set_excess self id (excess : Z) : Engine :=
  self <| me_queue_excess := ix_insert id excess (me_queue_excess self) |>.

(** The volume of the trade, handed out along the queue. *)
Fixpoint allocate self (price_raw trade_size_raw : Z) (entries : list (ClientOrderId * Z * Z))
    (remaining prev_position : Z) : Engine :=
  match entries with
  | [] => self
  | (id, ahead_raw, leaves_raw) :: entries =>
      if remaining =? 0 then
        let new_ahead := raw_saturating_sub ahead_raw trade_size_raw in
        let self := set_ahead self id price_raw new_ahead in
        let self := if new_ahead =? 0 then set_excess self id 0 else self in
        allocate self price_raw trade_size_raw entries remaining prev_position
      else
        let gap := raw_saturating_sub ahead_raw prev_position in
        let queue_consumed := Z.min remaining gap in
        let remaining := raw_sub remaining queue_consumed in
        if (remaining =? 0) && (queue_consumed <? gap) then
          let new_ahead := raw_saturating_sub ahead_raw trade_size_raw in
          allocate (set_ahead self id price_raw new_ahead) price_raw trade_size_raw entries
            remaining prev_position
        else
          let self := set_ahead self id price_raw 0 in
          let excess := Z.min remaining leaves_raw in
          allocate (set_excess self id excess) price_raw trade_size_raw entries
            (raw_sub remaining excess) (raw_add ahead_raw excess)
  end.

Definition decrement_queue_on_trade self (price_raw trade_size_raw : Z)
    (aggressor_side : AggressorSide) : Engine :=
  if negb (cfg_queue_position (me_config self)) then self
  else
    let self := self <| me_queue_excess := [] |> in
    let '(entries, stale) :=
      collect_hit self price_raw aggressor_side (ix_keys (me_queue_ahead self)) in
    let self := fold_left remove_ahead stale self in
    allocate self price_raw trade_size_raw (sort_by_ahead entries) trade_size_raw 0.

Definition determine_trade_fill_qty self order : option Z :=
  let leaves_raw := leaves_of order in
  if negb (cfg_queue_position (me_config self)) then Some leaves_raw
  else
    let id := any_id order in
    if bool_decide (is_Some (ix_get id (me_queue_pending self))) then None
    else if match ix_get id (me_queue_ahead self), any_price order with
            | Some (tracked_price_raw, ahead_raw), Some order_price =>
                (p_raw order_price =? tracked_price_raw) && (0 <? ahead_raw)
            | _, _ => false
            end then None
    else if leaves_raw =? 0 then None
    else
      available_raw ←
        match me_last_trade_size self with
        | Some trade_size =>
            let remaining := raw_saturating_sub (q_raw trade_size) (me_trade_consumption self) in
            let available_raw := Z.min leaves_raw remaining in
            match ix_get id (me_queue_excess self) with
            | Some excess_raw =>
                if excess_raw =? 0 then None else Some (Z.min available_raw excess_raw)
            | None => Some available_raw
            end
        | None => Some leaves_raw
        end;
      if available_raw =? 0 then None else Some available_raw.

(** [fill_limit_order], once the queue allows [allowed_raw] of the order: the
    fills are capped, and what they take is charged to the order's share of the
    trade and to the trade.  [tc_before] is the charge before the fills were
    determined. *)
Fixpoint cap_fills {E} (size_prec : Z) fills (remaining : Z) : outcome E Fills :=
  match fills with
  | [] => Ok []
  | (price, qty) :: fills =>
      if remaining =? 0 then cap_fills size_prec fills remaining
      else
        let capped := Z.min (q_raw qty) remaining in
        q ← qty_from_raw capped size_prec;
        rest ← cap_fills size_prec fills (raw_sub remaining capped);
        Ok ((price, q) :: rest)
  end.
Definition volume fills : Z := foldr (fun f s => raw_add (q_raw f.2) s) 0 fills.
Definition charge_fills {E} self order fills (allowed_raw tc_before : Z)
  : outcome E (Engine * Fills) :=
  fills ← cap_fills (me_size_precision self) fills allowed_raw;
  let consumed := volume fills in
  let id := any_id order in
  let self :=
    match ix_get id (me_queue_excess self) with
    | Some excess => set_excess self id (raw_saturating_sub excess consumed)
    | None => self
    end in
  Ok (self <| me_trade_consumption := raw_add tc_before consumed |>, fills).

Definition clear_all_queue_positions self : Engine :=
  self <| me_queue_ahead := (fun kv => (kv.1, (kv.2.1, 0))) <$> me_queue_ahead self |>.

Definition clear_one (deleted_price_raw : Z) (deleted_side : OrderSide) self id : Engine :=
  match ix_get id (me_queue_ahead self) with
  | Some (order_price_raw, _) =>
      if (order_price_raw =? deleted_price_raw)
         && is_some_and (order_of self id) (fun o => bool_decide (side_of o = deleted_side))
      then set_ahead self id order_price_raw 0 else self
  | None => self
  end.
Definition clear_queue_on_delete self (deleted_price_raw : Z) (deleted_side : OrderSide) : Engine :=
  fold_left (clear_one deleted_price_raw deleted_side) (ix_keys (me_queue_ahead self)) self.

(** A loop over the keys of a map that looks each order up: the ids of orders
    that are closed or unknown are collected, and removed after the loop. *)
Definition visit (step : Engine -> ClientOrderId -> OrderAny Dec -> Engine)
    (skip : Engine -> ClientOrderId -> bool) (acc : Engine * list ClientOrderId) id
  : Engine * list ClientOrderId :=
  let '(self, stale) := acc in
  if skip self id then acc
  else
    match open_order self id with
    | None => (self, stale ++ [id])
    | Some order => (step self id order, stale)
    end.

Definition cap_skip (price_raw size_raw : Z) self id : bool :=
  match ix_get id (me_queue_ahead self) with
  | Some (order_price_raw, ahead_raw) =>
      negb (order_price_raw =? price_raw) || (ahead_raw <=? size_raw)
  | None => true
  end.
Definition cap_one (size_raw : Z) (order_side : OrderSide) self id order : Engine :=
  match ix_get id (me_queue_ahead self) with
  | Some (order_price_raw, _) =>
      if negb (bool_decide (side_of order = order_side)) then self
      else set_ahead self id order_price_raw size_raw
  | None => self
  end.
Definition cap_queue_ahead self (price_raw size_raw : Z) (order_side : OrderSide) : Engine :=
  let '(self, stale) :=
    fold_left (visit (cap_one size_raw order_side) (cap_skip price_raw size_raw))
      (ix_keys (me_queue_ahead self)) (self, []) in
  fold_left remove_ahead stale self.

Definition seed_tob_baseline self : Engine :=
  let bid := best_bid_price (me_book self) in
  let ask := best_ask_price (me_book self) in
  self <| me_prev_bid_price_raw := from_option p_raw 0 bid |>
       <| me_prev_bid_size_raw := from_option q_raw 0 (best_bid_size (me_book self)) |>
       <| me_prev_ask_price_raw := from_option p_raw 0 ask |>
       <| me_prev_ask_size_raw := from_option q_raw 0 (best_ask_size (me_book self)) |>
       <| me_tob_initialized := bool_decide (is_Some bid) || bool_decide (is_Some ask) |>.

(** The market moved through the price of an order of side [order_side]. *)
Definition crossed_by (order_side : OrderSide) (order_price_raw new_price_raw : Z) : bool :=
  match order_side with
  | Buy => new_price_raw <? order_price_raw
  | _ => order_price_raw <? new_price_raw
  end.
Definition untracked self id : bool := bool_decide (ix_get id (me_queue_ahead self) = None).
Definition not_pending self id : bool := bool_decide (ix_get id (me_queue_pending self) = None).

Definition move_ahead (new_price_raw new_size_raw : Z) (order_side : OrderSide) self id order
  : Engine :=
  match ix_get id (me_queue_ahead self) with
  | Some (order_price_raw, ahead_raw) =>
      if negb (bool_decide (side_of order = order_side)) then self
      else if crossed_by order_side order_price_raw new_price_raw
      then set_ahead self id order_price_raw 0
      else if (order_price_raw =? new_price_raw) && (new_size_raw <? ahead_raw)
      then set_ahead self id order_price_raw new_size_raw
      else self
  | None => self
  end.
Definition move_pending (new_price_raw new_size_raw : Z) (order_side : OrderSide) self id order
  : Engine :=
  match ix_get id (me_queue_pending self) with
  | Some order_price_raw =>
      if negb (bool_decide (side_of order = order_side)) then self
      else if crossed_by order_side order_price_raw new_price_raw
      then promote self id order_price_raw 0
      else if order_price_raw =? new_price_raw
      then promote self id order_price_raw new_size_raw
      else self
  | None => self
  end.
Definition adjust_l1_queue_on_price_move self (new_price_raw new_size_raw : Z)
    (order_side : OrderSide) : Engine :=
  let '(self, stale) :=
    fold_left (visit (move_ahead new_price_raw new_size_raw order_side) untracked)
      (ix_keys (me_queue_ahead self)) (self, []) in
  let self := fold_left remove_ahead stale self in
  let '(self, stale) :=
    fold_left (visit (move_pending new_price_raw new_size_raw order_side) not_pending)
      (ix_keys (me_queue_pending self)) (self, []) in
  fold_left remove_pending stale self.

Definition resolve_one (bid_price_raw bid_size_raw ask_price_raw ask_size_raw : Z) self id order
  : Engine :=
  match ix_get id (me_queue_pending self) with
  | Some order_price_raw =>
      let matched_size :=
        match side_of order with
        | Buy => if order_price_raw =? bid_price_raw then Some bid_size_raw else None
        | Sell => if order_price_raw =? ask_price_raw then Some ask_size_raw else None
        | NoOrderSide => None
        end in
      match matched_size with
      | Some size => promote self id order_price_raw size
      | None => self
      end
  | None => self
  end.
Definition resolve_pending_l1_snapshots self
    (bid_price_raw bid_size_raw ask_price_raw ask_size_raw : Z) : Engine :=
  let '(self, stale) :=
    fold_left
      (visit (resolve_one bid_price_raw bid_size_raw ask_price_raw ask_size_raw) not_pending)
      (ix_keys (me_queue_pending self)) (self, []) in
  fold_left remove_pending stale self.

Definition trade_through (side : OrderSide) (order_price_raw trade_price_raw : Z) : bool :=
  match side with
  | Buy => trade_price_raw <? order_price_raw
  | Sell => order_price_raw <? trade_price_raw
  | NoOrderSide => false
  end.
Definition resolve_trade (trade_price_raw : Z) self id order : Engine :=
  match ix_get id (me_queue_pending self) with
  | Some order_price_raw =>
      if trade_through (side_of order) order_price_raw trade_price_raw
      then promote self id order_price_raw 0 else self
  | None => self
  end.
Definition resolve_pending_on_trade self (trade_price_raw : Z) : Engine :=
  let '(self, stale) :=
    fold_left (visit (resolve_trade trade_price_raw) not_pending)
      (ix_keys (me_queue_pending self)) (self, []) in
  fold_left remove_pending stale self.

Definition decrement_l1_queue_on_quote self
    (bid_price_raw bid_size_raw ask_price_raw ask_size_raw : Z) : Engine :=
  if negb (cfg_queue_position (me_config self)) then self
  else
    let self :=
      if me_tob_initialized self then
        let self :=
          if bid_price_raw <? me_prev_bid_price_raw self
          then adjust_l1_queue_on_price_move self bid_price_raw bid_size_raw Buy else self in
        if me_prev_ask_price_raw self <? ask_price_raw
        then adjust_l1_queue_on_price_move self ask_price_raw ask_size_raw Sell else self
      else self in
    resolve_pending_l1_snapshots self bid_price_raw bid_size_raw ask_price_raw ask_size_raw.

(** [process_quote_tick], [process_order_book_depth10]: the top of book kept
    for the next comparison. *)
Definition set_prev self (bid_price_raw bid_size_raw ask_price_raw ask_size_raw : Z) : Engine :=
  self <| me_prev_bid_price_raw := bid_price_raw |> <| me_prev_bid_size_raw := bid_size_raw |>
       <| me_prev_ask_price_raw := ask_price_raw |> <| me_prev_ask_size_raw := ask_size_raw |>
       <| me_tob_initialized := true |>.
(** *** The queue in the data handlers

    What each handler does to the queue between updating the book and matching
    the resting orders. *)

Definition is_snapshot_or_clear (delta : OrderBookDelta) : bool :=
  negb (Z.land (dl_flags delta) 32 =? 0) || bool_decide (dl_action delta = ActClear).

(** One delta that is neither a snapshot nor a clear. *)
Definition queue_plain_delta self (delta : OrderBookDelta) : Engine :=
  let o := dl_order delta in
  match dl_action delta with
  | ActDelete => clear_queue_on_delete self (p_raw (bo_price o)) (bo_side o)
  | ActUpdate => cap_queue_ahead self (p_raw (bo_price o)) (q_raw (bo_size o)) (bo_side o)
  | _ => self
  end.

(** [process_order_book_delta], an L2 or L3 book *)
Definition queue_on_delta self (delta : OrderBookDelta) : Engine :=
  if negb (cfg_queue_position (me_config self)) then self
  else if is_snapshot_or_clear delta then seed_tob_baseline (clear_all_queue_positions self)
  else queue_plain_delta self delta.

(** [process_order_book_deltas], an L2 or L3 book: the loop ends at the first
    snapshot or clear. *)
Fixpoint queue_deltas_loop self (deltas : list OrderBookDelta) : Engine * bool :=
  match deltas with
  | [] => (self, false)
  | delta :: deltas =>
      if is_snapshot_or_clear delta then (clear_all_queue_positions self, true)
      else queue_deltas_loop (queue_plain_delta self delta) deltas
  end.
Definition queue_on_deltas self (deltas : list OrderBookDelta) : Engine :=
  if negb (cfg_queue_position (me_config self)) then self
  else
    let '(self, has_snapshot_or_clear) := queue_deltas_loop self deltas in
    if has_snapshot_or_clear : bool then seed_tob_baseline self else self.

(** [process_order_book_depth10], with the first level of each side. *)
Definition queue_on_depth10 self (bid_price_raw bid_size_raw ask_price_raw ask_size_raw : Z)
  : Engine :=
  if negb (cfg_queue_position (me_config self)) then self
  else
    let self := clear_all_queue_positions self in
    let self :=
      if me_tob_initialized self then
        let self :=
          if bid_price_raw <? me_prev_bid_price_raw self
          then adjust_l1_queue_on_price_move self bid_price_raw bid_size_raw Buy else self in
        if me_prev_ask_price_raw self <? ask_price_raw
        then adjust_l1_queue_on_price_move self ask_price_raw ask_size_raw Sell else self
      else self in
    let self :=
      resolve_pending_l1_snapshots self bid_price_raw bid_size_raw ask_price_raw ask_size_raw in
    set_prev self bid_price_raw bid_size_raw ask_price_raw ask_size_raw.

(** [process_quote_tick], an L1 book *)
Definition queue_on_quote self (quote : QuoteTick) : Engine :=
  if negb (cfg_queue_position (me_config self)) then self
  else
    let '(bp, bs) := (p_raw (qt_bid_price quote), q_raw (qt_bid_size quote)) in
    let '(ap, az) := (p_raw (qt_ask_price quote), q_raw (qt_ask_size quote)) in
    set_prev (decrement_l1_queue_on_quote self bp bs ap az) bp bs ap az.

(** [process_trade_tick]: before and after the resting orders are matched. *)
Definition begin_trade self (trade : TradeTick) : Engine :=
  let price_raw := p_raw (tt_price trade) in
  let self := self <| me_last_trade_size := Some (tt_size trade) |>
                   <| me_trade_consumption := 0 |> in
  let self :=
    if cfg_liquidity_consumption (me_config self)
       && negb (bool_decide (me_book_type self = L1_MBP))
    then seed_trade_consumption self price_raw (q_raw (tt_size trade)) (tt_ts_event trade)
           (tt_aggressor_side trade)
    else self in
  decrement_queue_on_trade (resolve_pending_on_trade self price_raw) price_raw
    (q_raw (tt_size trade)) (tt_aggressor_side trade).
Definition end_trade self : Engine :=
  self <| me_last_trade_size := None |> <| me_trade_consumption := 0 |>.
End MatchingEngine.
