(* ===== verification/EngineQueue.v ===== *)
(** * Queue positions of the matching engine

    The orders the engine tracks as a finite map from id to price and volume
    ahead.  A trade takes its volume off the queue of every order it hits and
    hands out what passes them first come, first served; no market data makes
    a position worse; and the fills of one trade never exceed its size. *)

From stdpp Require Import base numbers list gmap strings sorting.
From Stdlib Require Import ZArith Lia Sorted.
From S2P Require Import Prelude F64 Fixed Price Quantity Money Enums Maps OrderEvents OrderCore Orders Ladder Book MatchingCore CacheIndex Cache MatchingEngine.

Section Queue.
Context `{M : Mode} `{B : BookOrderApi} `{D : BookDataApi} {Dec : Type}.
Abbreviation Engine := (OrderMatchingEngine Dec).
Abbreviation Entry := (prod (prod ClientOrderId Z) Z).
Implicit Types (self : Engine) (order : OrderAny Dec) (id : ClientOrderId) (es : list Entry).

Abbreviation RAW_MAX := (imax QuantityRaw).

Lemma raw_in_ty z : 0 <= z <= RAW_MAX -> in_ty QuantityRaw z = true.
Proof. intros H. apply in_ty_spec. unfold imin, QuantityRaw in *. by destruct high_precision. Qed.

Lemma raw_saturating_sub_eq a b :
  0 <= a <= RAW_MAX -> 0 <= b -> raw_saturating_sub a b = Z.max 0 (a - b).
Proof.
  intros Ha Hb. unfold raw_saturating_sub, saturate.
  replace (imin QuantityRaw) with 0 by (unfold QuantityRaw; by destruct high_precision). lia.
Qed.
Lemma raw_sub_eq a b : 0 <= b <= a -> a <= RAW_MAX -> raw_sub a b = a - b.
Proof. intros Ha Hb. apply wrap_id, raw_in_ty. lia. Qed.
Lemma raw_add_eq a b : 0 <= a -> 0 <= b -> a + b <= RAW_MAX -> raw_add a b = a + b.
Proof. intros Ha Hb Hc. apply wrap_id, raw_in_ty. lia. Qed.

(** ** A trade *)

Definition entry_ids es : list ClientOrderId := (fun e => e.1.1) <$> es.
Definition entry_ok (e : Entry) : Prop := 0 <= e.1.2 <= RAW_MAX /\ 0 <= e.2 <= RAW_MAX.

(** The shares [allocate] records, in order. *)
Fixpoint shares (trade : Z) es (remaining prev : Z) : list (ClientOrderId * Z) :=
  match es with
  | [] => []
  | (id, ahead, leaves) :: es =>
      if remaining =? 0 then
        (if ahead <=? trade then [(id, 0)] else []) ++ shares trade es remaining prev
      else
        let gap := Z.max 0 (ahead - prev) in
        if remaining <? gap then shares trade es 0 prev
        else
          let excess := Z.min (remaining - gap) leaves in
          (id, excess) :: shares trade es (remaining - gap - excess) (ahead + excess)
  end.

Definition entry_of id es : option Entry := List.find (fun e => bool_decide (e.1.1 = id)) es.

Lemma entry_of_cons id e es :
  entry_of id (e :: es) = if decide (e.1.1 = id) then Some e else entry_of id es.
Proof. unfold entry_of. simpl. case_bool_decide; by case_decide. Qed.

Lemma entry_of_None id es : id ∉ entry_ids es -> entry_of id es = None.
Proof.
  induction es as [|e es IH]; [done|]. unfold entry_ids. rewrite fmap_cons, not_elem_of_cons.
  intros [Hne Hni]. rewrite entry_of_cons, decide_False by done. by apply IH.
Qed.

Lemma ix_insert_fresh {V} id (v : V) m : id ∉ ix_keys m -> ix_insert id v m = m ++ [(id, v)].
Proof.
  induction m as [|[i w] m IH]; [done|]. unfold ix_keys. rewrite fmap_cons, not_elem_of_cons.
  intros [Hne Hni]. cbn [fst] in Hne. unfold ix_insert; fold (@ix_insert ClientOrderId V _). rewrite bool_decide_eq_false_2 by done. by rewrite IH.
Qed.

Definition aheads_after (price trade : Z) es (m : list (ClientOrderId * (Z * Z))) id : option (Z * Z) :=
  match entry_of id es with
  | Some e => Some (price, Z.max 0 (e.1.2 - trade))
  | None => ix_get id m
  end.

Lemma aheads_after_cons price trade id ahead leaves es m i :
  id ∉ entry_ids es ->
  aheads_after price trade es (ix_insert id (price, Z.max 0 (ahead - trade)) m) i =
  aheads_after price trade ((id, ahead, leaves) :: es) m i.
Proof.
  intros Hni. unfold aheads_after. rewrite entry_of_cons, ix_get_insert. cbn [fst snd].
  destruct (decide (id = i)) as [<-|Hne]; [by rewrite entry_of_None, decide_True|].
  destruct (entry_of i es); [done|]. by rewrite decide_False.
Qed.

Lemma fresh_snoc (m : list (ClientOrderId * Z)) id v es :
  id ∉ entry_ids es -> (forall i, i ∈ id :: entry_ids es -> i ∉ ix_keys m) ->
  forall i, i ∈ entry_ids es -> i ∉ ix_keys (m ++ [(id, v)]).
Proof.
  intros Hni Hfr i Hi. unfold ix_keys. rewrite fmap_app, elem_of_app. cbn. intros [Hx|Hx].
  - by apply (Hfr i); [right|].
  - by apply list_elem_of_singleton in Hx as ->.
Qed.

(** What [allocate] does: the volume of the trade comes off the queue of every
    entry, and the shares are recorded.  The quantities stay in range. *)
Lemma allocate_correct price trade es : forall self remaining prev,
  NoDup (entry_ids es) -> Forall entry_ok es ->
  (forall id, id ∈ entry_ids es -> id ∉ ix_keys (me_queue_excess self)) ->
  0 <= remaining <= trade -> trade <= RAW_MAX -> 0 <= prev <= trade - remaining ->
  let self' := allocate self price trade es remaining prev in
  (forall id, ix_get id (me_queue_ahead self') =
     aheads_after price trade es (me_queue_ahead self) id) /\
  me_queue_excess self' = me_queue_excess self ++ shares trade es remaining prev.
Proof.
  induction es as [|[[id ahead] leaves] es IH]; intros self R P Hnd Hok Hfr HR HT HP;
    cbn [allocate shares].
  { split; [done|]. by rewrite app_nil_r. }
  apply NoDup_cons in Hnd as [Hni Hnd]. apply Forall_cons in Hok as [[Ha Hl] Hok].
  cbn [fst snd] in Ha, Hl. change (id ∉ entry_ids es) in Hni.
  assert (Hid : id ∉ ix_keys (me_queue_excess self)) by (apply Hfr; left).
  assert (Hfr' : forall i, i ∈ entry_ids es -> i ∉ ix_keys (me_queue_excess self))
    by (intros i Hi; apply Hfr; by right).
  rewrite !raw_saturating_sub_eq by lia. set (new := Z.max 0 (ahead - trade)).
  set (gap := Z.max 0 (ahead - P)). rewrite raw_sub_eq by lia.
  setoid_rewrite <- (aheads_after_cons price trade id ahead leaves es _ _ Hni). fold new.
  destruct (Z.eqb_spec R 0) as [->|HR0].
  - destruct (Z.leb_spec ahead trade) as [Hle|Hgt].
    + rewrite (proj2 (Z.eqb_eq new 0)) by lia.
      destruct (IH (set_excess (set_ahead self id price new) id 0) 0 P) as [IH1 ->]; try done.
      { cbn. rewrite ix_insert_fresh by done. apply (fresh_snoc _ _ _ _ Hni Hfr). }
      split; [done|]. cbn. by rewrite ix_insert_fresh, <- app_assoc by done.
    + rewrite (proj2 (Z.eqb_neq new 0)) by lia. by apply (IH (set_ahead self id price new)).
  - destruct (Z.ltb_spec R gap) as [Hlt|Hge].
    + rewrite Z.min_l, Z.sub_diag by lia. rewrite (proj2 (Z.ltb_lt _ _)) by lia. cbn [Z.eqb andb].
      apply (IH (set_ahead self id price new)); try done; lia.
    + rewrite Z.min_r by lia. rewrite (proj2 (Z.ltb_ge gap gap)), andb_false_r by lia.
      set (ex := Z.min (R - gap) leaves). assert (0 <= ex <= R - gap) by lia.
      rewrite raw_sub_eq, raw_add_eq by lia. replace new with 0 by lia.
      destruct (IH (set_excess (set_ahead self id price 0) id ex) (R - gap - ex) (ahead + ex))
        as [IH1 ->]; try done; try lia.
      { cbn. rewrite ix_insert_fresh by done. apply (fresh_snoc _ _ _ _ Hni Hfr). }
      split; [done|]. cbn. by rewrite ix_insert_fresh, <- app_assoc by done.
Qed.

(** *** Shares *)

Definition total (l : list (ClientOrderId * Z)) : Z := foldr (fun x s => x.2 + s) 0 l.

Lemma total_app l1 l2 : total (l1 ++ l2) = total l1 + total l2.
Proof. induction l1 as [|x l1 IH]; cbn; [done|]. fold (total (l1 ++ l2)). rewrite IH. unfold total. lia. Qed.

(** Once the trade is used up every further share is zero. *)
Lemma shares_exhausted trade es : forall prev, Forall (fun x => x.2 = 0) (shares trade es 0 prev).
Proof.
  induction es as [|[[id a] l] es IH]; intros prev; cbn; [constructor|].
  apply Forall_app. split; [|apply IH]. destruct (a <=? trade); repeat constructor.
Qed.
Lemma zeros_total l : Forall (fun x : ClientOrderId * Z => x.2 = 0) l -> total l = 0.
Proof. induction 1 as [|x l Hx _ IH]; cbn; [done|]. fold (total l). lia. Qed.

(** A share is positive only up to what the order has left, and goes only to an
    order the trade has reached. *)
Lemma shares_elem trade es : forall remaining prev id e,
  Forall entry_ok es -> 0 <= remaining <= trade -> 0 <= prev <= trade - remaining ->
  (id, e) ∈ shares trade es remaining prev ->
  exists a l, (id, a, l) ∈ es /\ a <= trade /\ 0 <= e <= l.
Proof.
  induction es as [|[[id0 a] l] es IH]; intros R P id e Hok HR HP; cbn;
    [by intros ?%elem_of_nil|].
  apply Forall_cons in Hok as [[Ha Hl] Hok]. cbn [fst snd] in Ha, Hl.
  assert (Hrec : forall R' P', 0 <= R' <= trade -> 0 <= P' <= trade - R' ->
    (id, e) ∈ shares trade es R' P' ->
    exists a' l', (id, a', l') ∈ (id0, a, l) :: es /\ a' <= trade /\ 0 <= e <= l').
  { intros R' P' HR' HP' Hin. destruct (IH R' P' id e) as (a' & l' & ? & ?); try done.
    exists a', l'. split; [by right|done]. }
  destruct (Z.eqb_spec R 0) as [->|HR0].
  - intros [Hin|Hin]%elem_of_app; [|by apply (Hrec 0 P)].
    destruct (Z.leb_spec a trade); [|by apply elem_of_nil in Hin].
    apply list_elem_of_singleton in Hin as [= -> ->]. exists a, l. split; [left|lia].
  - destruct (Z.ltb_spec R (Z.max 0 (a - P))); [apply (Hrec 0 P); lia|].
    intros [[= -> ->]|Hin]%elem_of_cons.
    + exists a, l. split; [left|lia].
    + revert Hin. apply Hrec; lia.
Qed.

(** The shares never exceed what of the trade gets past the nearest entry. *)
Lemma shares_total trade es a : forall remaining prev,
  Forall entry_ok es -> Forall (fun e => a <= e.1.2) es -> 0 <= remaining -> 0 <= prev ->
  0 <= total (shares trade es remaining prev) <= Z.max 0 (remaining - Z.max 0 (a - prev)).
Proof.
  induction es as [|[[id0 a0] l] es IH]; intros R P Hok Hge HR HP; cbn [shares]; [cbn; lia|].
  apply Forall_cons in Hok as [[Ha Hl] Hok]. apply Forall_cons in Hge as [Hge0 Hge].
  cbn [fst snd] in *.
  destruct (Z.eqb_spec R 0) as [->|HR0].
  - rewrite total_app, (zeros_total (shares _ _ 0 _)) by apply shares_exhausted.
    destruct (a0 <=? trade); cbn; lia.
  - destruct (Z.ltb_spec R (Z.max 0 (a0 - P))).
    + rewrite zeros_total by apply shares_exhausted. lia.
    + change (total ((id0, ?x) :: ?y)) with (x + total y).
      set (g := Z.max 0 (a0 - P)) in *. set (ex := Z.min (R - g) l).
      specialize (IH (R - g - ex) (a0 + ex) Hok Hge). lia.
Qed.

(** First come, first served: an entry behind another one gets a share only
    when that one has got all it wants. *)
Lemma shares_fifo trade es1 e1 es2 : forall remaining prev id2 e2,
  NoDup (entry_ids (es1 ++ e1 :: es2)) -> id2 ∈ entry_ids es2 ->
  (id2, e2) ∈ shares trade (es1 ++ e1 :: es2) remaining prev -> 0 < e2 ->
  (e1.1.1, e1.2) ∈ shares trade (es1 ++ e1 :: es2) remaining prev.
Proof.
  assert (Hz : forall es prev id e, (id, e) ∈ shares trade es 0 prev -> 0 < e -> False).
  { intros es prev id e Hin He. pose proof (shares_exhausted trade es prev) as Hall.
    rewrite Forall_forall in Hall. specialize (Hall _ Hin). cbn in Hall. lia. }
  induction es1 as [|[[id0 a0] l0] es1 IH]; intros R P id2 e2 Hnd Hid Hin He.
  - destruct e1 as [[id1 a1] l1]. cbn [app] in *. apply NoDup_cons in Hnd as [Hni _].
    cbn [shares fst snd] in *. destruct (Z.eqb_spec R 0) as [->|HR0].
    { exfalso. apply elem_of_app in Hin as [Hin|Hin]; [|by eapply Hz].
      destruct (a1 <=? trade); [|by apply elem_of_nil in Hin].
      apply list_elem_of_singleton in Hin as [= -> ->]. done. }
    destruct (Z.ltb_spec R (Z.max 0 (a1 - P))); [exfalso; by eapply Hz|].
    apply elem_of_cons in Hin as [[= -> ->]|Hin]; [done|].
    set (g := Z.max 0 (a1 - P)) in *. destruct (Z.le_gt_cases (R - g) l1) as [Hle|Hgt].
    + exfalso. rewrite Z.min_l, Z.sub_diag in Hin by lia. by eapply Hz.
    + rewrite Z.min_r by lia. left.
  - cbn [app] in *. apply NoDup_cons in Hnd as [Hni Hnd].
    assert (Hne : id0 <> id2).
    { intros ->. apply Hni. change (id2 ∈ entry_ids (es1 ++ e1 :: es2)).
      unfold entry_ids. rewrite fmap_app. apply elem_of_app. right. by right. }
    cbn [shares] in *. destruct (Z.eqb_spec R 0) as [->|HR0].
    { apply elem_of_app in Hin as [Hin|Hin]; [|exfalso; by eapply Hz].
      destruct (a0 <=? trade); [|by apply elem_of_nil in Hin].
      by apply list_elem_of_singleton in Hin as [= -> ->]. }
    destruct (R <? Z.max 0 (a0 - P)); [exfalso; by eapply Hz|].
    apply elem_of_cons in Hin as [[= ? ?]|Hin]; [done|]. right. by eapply IH.
Qed.

(** *** Collecting and sorting *)

Definition hit (price : Z) (aggressor_side : AggressorSide) self id : option Entry :=
  match ix_get id (me_queue_ahead self), open_order self id with
  | Some (p, a), Some o =>
      if (p =? price) && negb (a =? 0) && hits aggressor_side (side_of o)
      then Some (id, a, leaves_of o) else None
  | _, _ => None
  end.
Definition tracked self id : bool := bool_decide (is_Some (ix_get id (me_queue_ahead self))).
Definition gone self id : bool := bool_decide (open_order self id = None).

Lemma collect_hit_eq self price aggressor keys :
  collect_hit self price aggressor keys =
  (omap (hit price aggressor self) keys, List.filter (fun id => tracked self id && gone self id) keys).
Proof.
  induction keys as [|id keys IH]; [done|]. cbn. rewrite IH. unfold hit, tracked, gone.
  destruct (ix_get id (me_queue_ahead self)) as [[p a]|] eqn:Eg.
  - rewrite bool_decide_eq_true_2 by eauto. cbn. destruct (open_order self id) as [o|] eqn:Eo.
    + rewrite bool_decide_eq_false_2 by done.
      destruct (p =? price), (a =? 0); cbn; try done. by destruct (hits _ _).
    + by rewrite bool_decide_eq_true_2.
  - rewrite bool_decide_eq_false_2 by (by intros []). done.
Qed.

Lemma insert_by_ahead_perm x l : insert_by_ahead x l ≡ₚ x :: l.
Proof.
  induction l as [|y l IH]; cbn; [done|]. destruct (_ <=? _); [done|].
  rewrite IH. apply Permutation_swap.
Qed.
Lemma sort_by_ahead_perm l : sort_by_ahead l ≡ₚ l.
Proof.
  induction l as [|x l IH]; [done|]. cbn. fold (sort_by_ahead l).
  rewrite insert_by_ahead_perm. by rewrite IH.
Qed.
Abbreviation nearer := (fun x y : Entry => x.1.2 <= y.1.2).
Lemma insert_by_ahead_sorted x l :
  StronglySorted nearer l -> StronglySorted nearer (insert_by_ahead x l).
Proof.
  induction 1 as [|y l Hs IH Hall]; cbn; [repeat constructor|].
  destruct (Z.leb_spec x.1.2 y.1.2) as [Hle|Hgt].
  - constructor; [by constructor|]. constructor; [done|].
    eapply Forall_impl; [exact Hall|]. cbn. lia.
  - constructor; [done|]. rewrite insert_by_ahead_perm. constructor; [lia|done].
Qed.
Lemma sort_by_ahead_sorted l : StronglySorted nearer (sort_by_ahead l).
Proof. induction l as [|x l IH]; [constructor|]. by apply insert_by_ahead_sorted. Qed.

Lemma entry_of_elem id e es :
  NoDup (entry_ids es) -> entry_of id es = Some e <-> e ∈ es /\ e.1.1 = id.
Proof.
  induction es as [|e0 es IH]; intros Hnd.
  { cbn. split; [done|]. by intros [?%elem_of_nil _]. }
  apply NoDup_cons in Hnd as [Hni Hnd]. rewrite entry_of_cons, elem_of_cons. case_decide as Heq.
  - split; [intros [= <-]; auto|]. intros [[->|Hin] Hid]; [done|]. exfalso. apply Hni.
    rewrite Heq, <- Hid. apply (list_elem_of_fmap_2 (fun e : Entry => e.1.1)). done.
  - rewrite IH by done. naive_solver.
Qed.

Lemma hit_id price aggressor self id e : hit price aggressor self id = Some e -> e.1.1 = id.
Proof. unfold hit. repeat case_match; naive_solver. Qed.
Lemma hits_ids price aggressor self keys :
  NoDup keys -> NoDup (entry_ids (omap (hit price aggressor self) keys)).
Proof.
  intros Hnd. induction Hnd as [|id keys Hni Hnd IH]; [constructor|]. cbn.
  destruct (hit price aggressor self id) as [e|] eqn:E; [|done]. apply hit_id in E as Hid.
  apply NoDup_cons. split; [|done]. change (e.1.1 ∉ entry_ids (omap (hit price aggressor self) keys)).
  unfold entry_ids. rewrite Hid, list_elem_of_fmap.
  intros (e' & -> & (id' & Hin & E')%list_elem_of_omap). apply Hni.
  by rewrite (hit_id _ _ _ _ _ E').
Qed.
Lemma fold_remove_ahead stale : forall self id,
  ix_get id (me_queue_ahead (fold_left remove_ahead stale self)) =
  if decide (id ∈ stale) then None else ix_get id (me_queue_ahead self).
Proof.
  induction stale as [|i stale IH]; intros self id; cbn [fold_left].
  { by rewrite decide_False by (by intros ?%elem_of_nil). }
  rewrite IH. cbn. rewrite ix_get_remove. repeat case_decide; try done; set_solver.
Qed.
Lemma fold_remove_excess stale : forall self,
  me_queue_excess (fold_left remove_ahead stale self) = me_queue_excess self.
Proof. induction stale as [|i stale IH]; intros self; cbn; [done|]. by rewrite IH. Qed.

(** *** The theorem *)

(** The state of the queue the operations keep: ids occur once, an order is
    tracked or pending but not both, and volumes are in range. *)
Record queue_valid self : Prop := {
  qv_ahead : NoDup (ix_keys (me_queue_ahead self));
  qv_pending : NoDup (ix_keys (me_queue_pending self));
  qv_disjoint id : is_Some (ix_get id (me_queue_pending self)) -> ix_get id (me_queue_ahead self) = None;
  qv_range id p a : ix_get id (me_queue_ahead self) = Some (p, a) -> 0 <= a <= RAW_MAX;
}.
(** What is left of an order fits its type. *)
Definition leaves_fit self : Prop :=
  forall id o, order_of self id = Some o -> 0 <= leaves_of o <= RAW_MAX.

Definition queue_after (price trade : Z) (aggressor_side : AggressorSide) self id : option (Z * Z) :=
  match ix_get id (me_queue_ahead self), open_order self id with
  | Some (p, a), Some o =>
      Some (p, if (p =? price) && hits aggressor_side (side_of o) then Z.max 0 (a - trade) else a)
  | _, _ => None
  end.

Lemma open_order_of self id o : open_order self id = Some o -> order_of self id = Some o.
Proof. unfold open_order. destruct (order_of self id) as [x|]; cbn; [|done]. by destruct (is_closed _). Qed.

Lemma hit_Some price aggressor self id e :
  hit price aggressor self id = Some e <->
  exists a o, e = (id, a, leaves_of o) /\ ix_get id (me_queue_ahead self) = Some (price, a) /\ a <> 0 /\
    open_order self id = Some o /\ hits aggressor (side_of o) = true.
Proof.
  unfold hit. destruct (ix_get id (me_queue_ahead self)) as [[p a]|]; [|naive_solver].
  destruct (open_order self id) as [o|]; [|naive_solver].
  split.
  - destruct (_ && _) eqn:Hb; [|done]. rewrite !andb_true_iff, negb_true_iff, Z.eqb_eq, Z.eqb_neq in Hb.
    destruct Hb as [[-> Ha] Ho]. intros [= <-]. by exists a, o.
  - intros (a' & o' & -> & [= -> ->] & Ha & [= ->] & ->).
    by rewrite Z.eqb_refl, (proj2 (Z.eqb_neq _ _) Ha).
Qed.

Lemma hits_ok price aggressor self keys :
  queue_valid self -> leaves_fit self -> Forall entry_ok (omap (hit price aggressor self) keys).
Proof.
  intros Hv Hl. apply Forall_forall. intros e (id & _ & He)%list_elem_of_omap.
  apply hit_Some in He as (a & o & -> & Ha & _ & Ho & _). split; cbn.
  - by apply (qv_range self Hv) in Ha.
  - by apply open_order_of, Hl in Ho.
Qed.

(** The orders a trade hits, nearest first. *)
Definition queue_hit (price : Z) (aggressor_side : AggressorSide) self : list Entry :=
  sort_by_ahead (omap (hit price aggressor_side self) (ix_keys (me_queue_ahead self))).

Lemma queue_hit_elem price aggressor self e :
  e ∈ queue_hit price aggressor self <-> hit price aggressor self e.1.1 = Some e.
Proof.
  unfold queue_hit. rewrite sort_by_ahead_perm, list_elem_of_omap. split.
  - intros (id & _ & He). by rewrite (hit_id _ _ _ _ _ He).
  - intros He. exists e.1.1. split; [|done]. apply ix_get_is_Some.
    apply hit_Some in He as (a & o & _ & -> & _). eauto.
Qed.
Lemma queue_hit_facts price aggressor self :
  queue_valid self -> leaves_fit self ->
  NoDup (entry_ids (queue_hit price aggressor self)) /\ Forall entry_ok (queue_hit price aggressor self).
Proof.
  intros Hv Hl. unfold queue_hit. split.
  - unfold entry_ids. rewrite sort_by_ahead_perm. apply hits_ids, Hv.
  - rewrite sort_by_ahead_perm. by apply hits_ok.
Qed.

(** The stale orders are dropped, then the trade is handed out. *)
Lemma decrement_queue_eq self price trade aggressor :
  cfg_queue_position (me_config self) = true -> queue_valid self -> leaves_fit self ->
  0 <= trade <= RAW_MAX ->
  let self' := decrement_queue_on_trade self price trade aggressor in
  (forall id, ix_get id (me_queue_ahead self') = queue_after price trade aggressor self id) /\
  me_queue_excess self' = shares trade (queue_hit price aggressor self) trade 0.
Proof.
  intros Hcfg Hv Hl HT. destruct (queue_hit_facts price aggressor self Hv Hl) as [Hnd Hok].
  unfold decrement_queue_on_trade. rewrite Hcfg. cbn [negb].
  set (s0 := self <| me_queue_excess := [] |>). rewrite collect_hit_eq.
  change (omap _ _) with (omap (hit price aggressor self) (ix_keys (me_queue_ahead self))).
  fold (queue_hit price aggressor self).
  set (stale := List.filter _ _). set (s1 := fold_left remove_ahead stale s0).
  assert (Hex : me_queue_excess s1 = []) by apply fold_remove_excess.
  destruct (allocate_correct price trade (queue_hit price aggressor self) s1 trade 0)
    as [Ha He]; [done|done| |lia..|].
  { intros id _. rewrite Hex. by intros ?%elem_of_nil. }
  cbn zeta. rewrite He, Hex. split; [|done]. intros id. rewrite Ha. unfold aheads_after, s1.
  rewrite fold_remove_ahead. unfold queue_after. change (me_queue_ahead s0) with (me_queue_ahead self).
  destruct (entry_of id (queue_hit price aggressor self)) as [e|] eqn:Ee.
  { apply entry_of_elem in Ee as [Hin <-]; [|done]. apply queue_hit_elem, hit_Some in Hin.
    destruct Hin as (a & o & -> & Hg & _ & Ho & Hh). cbn [fst snd] in *. rewrite Hg, Ho, Z.eqb_refl, Hh.
    done. }
  assert (Hst : id ∈ stale <-> tracked self id = true /\ gone self id = true).
  { unfold stale. rewrite list_elem_of_In, filter_In, <- list_elem_of_In, andb_true_iff.
    change (tracked s0) with (tracked self). change (gone s0) with (gone self).
    change (me_queue_ahead s0) with (me_queue_ahead self).
    unfold tracked. rewrite <- ix_get_is_Some, bool_decide_eq_true. tauto. }
  unfold tracked, gone in Hst. rewrite !bool_decide_eq_true in Hst.
  destruct (ix_get id (me_queue_ahead self)) as [[p a]|] eqn:Eg; [|by case_decide].
  destruct (open_order self id) as [o|] eqn:Eo.
  - rewrite decide_False by (rewrite Hst; naive_solver).
    destruct (Z.eqb_spec p price) as [->|]; [|done]. destruct (hits aggressor (side_of o)) eqn:Hh; [|done].
    cbn. do 2 f_equal. destruct (Z.eq_dec a 0) as [->|Hne]; [lia|]. exfalso.
    assert (Hhit : hit price aggressor self id = Some (id, a, leaves_of o)) by (apply hit_Some; eauto 10).
    assert (entry_of id (queue_hit price aggressor self) = Some (id, a, leaves_of o)); [|congruence].
    apply entry_of_elem; [done|]. split; [by apply queue_hit_elem|done].
  - by rewrite decide_True by (rewrite Hst; eauto).
Qed.

(** C24: a trade of size [trade] at [price] takes its volume off the queue of
    every open order it hits, leaves the other open orders where they are and
    drops orders that are closed or unknown.  The shares it hands out go to
    orders it has reached and never exceed what they have left; together they
    never exceed the volume that gets past the nearest order; and an order gets
    a share only when every order in front of it has got all it wants. *)
Theorem queue_trade_correct self price trade aggressor :
  cfg_queue_position (me_config self) = true -> queue_valid self -> leaves_fit self ->
  0 <= trade <= RAW_MAX ->
  let self' := decrement_queue_on_trade self price trade aggressor in
  (forall id, ix_get id (me_queue_ahead self') = queue_after price trade aggressor self id) /\
  (forall id e, (id, e) ∈ me_queue_excess self' ->
     exists a l, hit price aggressor self id = Some (id, a, l) /\ a <= trade /\ 0 <= e <= l) /\
  (forall a, 0 <= a -> (forall id e, hit price aggressor self id = Some e -> a <= e.1.2) ->
     0 <= total (me_queue_excess self') <= Z.max 0 (trade - a)) /\
  (forall id1 id2 a1 a2 l1 l2 e2,
     hit price aggressor self id1 = Some (id1, a1, l1) ->
     hit price aggressor self id2 = Some (id2, a2, l2) -> a1 < a2 ->
     (id2, e2) ∈ me_queue_excess self' -> 0 < e2 -> (id1, l1) ∈ me_queue_excess self').
Proof.
  intros Hcfg Hv Hl HT. destruct (decrement_queue_eq self price trade aggressor Hcfg Hv Hl HT) as [Ha He].
  destruct (queue_hit_facts price aggressor self Hv Hl) as [Hnd Hok]. cbn zeta.
  split; [done|]. rewrite He. split; [|split].
  - intros id e (a & l & Hin & Hat & Hel)%shares_elem; [|done|lia|lia]. exists a, l.
    split; [|done]. by apply queue_hit_elem in Hin.
  - intros a Ha0 Hmin.
    assert (Hge : Forall (fun e => a <= e.1.2) (queue_hit price aggressor self)).
    { apply Forall_forall. intros e Hin%queue_hit_elem. by eapply Hmin. }
    pose proof (shares_total trade _ a trade 0 Hok Hge). lia.
  - intros id1 id2 a1 a2 l1 l2 e2 H1 H2 Hlt Hin Hpos.
    apply (queue_hit_elem _ _ _ (id1, a1, l1)) in H1. apply (queue_hit_elem _ _ _ (id2, a2, l2)) in H2.
    apply list_elem_of_split in H1 as (es1 & es2 & Hes).
    pose proof (sort_by_ahead_sorted (omap (hit price aggressor self) (ix_keys (me_queue_ahead self)))) as Hs.
    change (StronglySorted nearer (queue_hit price aggressor self)) in Hs. rewrite Hes in *.
    apply (shares_fifo trade es1 (id1, a1, l1) es2 trade 0 id2 e2); try done.
    apply elem_of_app in H2 as [H2|H2].
    + exfalso. apply StronglySorted_app_1_elem_of with (x1 := (id2, a2, l2)) (x2 := (id1, a1, l1)) in Hs;
        [cbn in Hs; lia|done|left].
    + apply elem_of_cons in H2 as [[= -> -> ->]|H2]; [lia|].
      by apply (list_elem_of_fmap_2 (fun e : Entry => e.1.1)) in H2.
Qed.
End Queue.
