(* ===== verification/EngineHistory.v ===== *)
(** * Queue positions over histories of market data

    Every operation on the queue keeps its invariant and only improves the
    place of an order that is tracked; the fills of one trade stay within the
    trade and within the share of each order. *)

From stdpp Require Import base numbers list gmap strings sorting.
From Stdlib Require Import ZArith Lia Sorted.
From S2P Require Import Prelude F64 Fixed Price Quantity Money Enums Maps OrderEvents OrderCore Orders OrderLife Ladder Book MatchingCore CacheIndex Cache MatchingEngine EngineQueue.

Section History.
Context `{M : Mode} `{B : BookOrderApi} `{D : BookDataApi} {Dec : Type}.
Abbreviation Engine := (OrderMatchingEngine Dec).
Implicit Types (self : Engine) (order : OrderAny Dec) (id : ClientOrderId).
Abbreviation RAW_MAX := (imax QuantityRaw).

(** ** Improvement *)

(** From [self] to [self']: the invariant is kept, a tracked order keeps its
    price and has no more ahead of it, or it is not open. *)
Definition improved self self' : Prop :=
  me_cache self' = me_cache self /\
  (queue_valid self -> queue_valid self' /\
   forall id p a, ix_get id (me_queue_ahead self) = Some (p, a) ->
     (exists a', ix_get id (me_queue_ahead self') = Some (p, a') /\ 0 <= a' <= a)
     \/ open_order self id = None).

Lemma open_order_cache self self' id :
  me_cache self' = me_cache self -> open_order self' id = open_order self id.
Proof. intros H. unfold open_order, order_of. by rewrite H. Qed.

#[export] Instance improved_refl : Reflexive improved.
Proof.
  intros self. split; [done|]. intros Hv. split; [done|]. intros id p a Ha. left. exists a.
  split; [done|]. apply (qv_range _ Hv) in Ha. lia.
Qed.
#[export] Instance improved_trans : Transitive improved.
Proof.
  intros x y z [Hc1 H1] [Hc2 H2]. split; [congruence|]. intros Hv.
  destruct (H1 Hv) as [Hv1 I1]. destruct (H2 Hv1) as [Hv2 I2]. split; [done|].
  intros id p a Ha. destruct (I1 _ _ _ Ha) as [(a1 & Ha1 & Hle)|]; [|by right].
  destruct (I2 _ _ _ Ha1) as [(a2 & Ha2 & Hle2)|Ho].
  - left. exists a2. split; [done|lia].
  - right. by rewrite <- (open_order_cache x y).
Qed.

(** Only the two maps and the cache matter. *)
Lemma improved_same self self' :
  me_cache self' = me_cache self -> me_queue_ahead self' = me_queue_ahead self ->
  me_queue_pending self' = me_queue_pending self -> improved self self'.
Proof.
  intros Hc Ha Hp. split; [done|]. intros [H1 H2 H3 H4]. split.
  - split; rewrite ?Ha, ?Hp; auto.
  - intros id p a Hg. left. exists a. rewrite Ha. split; [done|]. apply H4 in Hg. lia.
Qed.

Lemma improved_set_ahead self id p a a' :
  ix_get id (me_queue_ahead self) = Some (p, a) -> 0 <= a' <= a -> improved self (set_ahead self id p a').
Proof.
  intros Hg Ha. split; [done|]. intros [H1 H2 H3 H4]. split.
  - split; cbn; [by apply ix_nodup_insert|done|..].
    + intros i Hi. rewrite ix_get_insert. case_decide as Heq; [|by apply H3].
      apply H3 in Hi. congruence.
    + intros i p' v. rewrite ix_get_insert. case_decide; [|apply H4].
      intros [= <- <-]. apply H4 in Hg. lia.
  - intros i p' v Hi. left. cbn. rewrite ix_get_insert. case_decide as Heq.
    + exists a'. split; congruence || (rewrite Heq in Hi; split; congruence || lia).
    + exists v. split; [done|]. apply H4 in Hi. lia.
Qed.
Lemma improved_promote self id p0 p a' :
  ix_get id (me_queue_pending self) = Some p0 -> 0 <= a' <= RAW_MAX -> improved self (promote self id p a').
Proof.
  intros Hg Ha. split; [done|]. intros [H1 H2 H3 H4].
  assert (Hn : ix_get id (me_queue_ahead self) = None) by (apply H3; eauto). split.
  - split; cbn; [by apply ix_nodup_insert|by apply ix_nodup_remove|..].
    + intros i. rewrite ix_get_remove, ix_get_insert. case_decide; [by intros []|apply H3].
    + intros i p' v. rewrite ix_get_insert. case_decide; [|apply H4]. intros [= <- <-]. done.
  - intros i p' v Hi. left. cbn. rewrite ix_get_insert, decide_False by congruence.
    exists v. split; [done|]. apply H4 in Hi. lia.
Qed.
Lemma improved_remove_ahead self id : open_order self id = None -> improved self (remove_ahead self id).
Proof.
  intros Ho. split; [done|]. intros [H1 H2 H3 H4]. split.
  - split; cbn; [by apply ix_nodup_remove|done|..].
    + intros i Hi. rewrite ix_get_remove. case_decide; [done|by apply H3].
    + intros i p v. rewrite ix_get_remove. case_decide; [done|apply H4].
  - intros i p v Hi. cbn. rewrite ix_get_remove. case_decide as Heq; [right; congruence|].
    left. exists v. split; [done|]. apply H4 in Hi. lia.
Qed.
Lemma improved_remove_pending self id : improved self (remove_pending self id).
Proof.
  split; [done|]. intros [H1 H2 H3 H4]. split.
  - split; cbn; [done|by apply ix_nodup_remove|..|done].
    intros i. rewrite ix_get_remove. case_decide; [by intros []|apply H3].
  - intros i p v Hi. left. exists v. split; [done|]. apply H4 in Hi. lia.
Qed.

Lemma improved_fold {A} (f : Engine -> A -> Engine) l : forall self,
  (forall s x, me_cache s = me_cache self -> x ∈ l -> improved s (f s x)) ->
  improved self (fold_left f l self).
Proof.
  induction l as [|x l IH]; intros self Hf; cbn; [done|].
  assert (Hx : improved self (f self x)) by (apply Hf; [done|left]).
  etrans; [exact Hx|]. apply IH. intros s y Hs Hy. apply Hf; [|by right].
  destruct Hx as [Hc _]. congruence.
Qed.
Lemma improved_drop_ahead stale self :
  Forall (fun id => open_order self id = None) stale -> improved self (fold_left remove_ahead stale self).
Proof.
  intros Hs. apply improved_fold. intros s x Hc Hx. apply improved_remove_ahead.
  rewrite (open_order_cache self s) by done. rewrite Forall_forall in Hs. by apply Hs.
Qed.
Lemma improved_drop_pending stale self : improved self (fold_left remove_pending stale self).
Proof. apply improved_fold. intros. apply improved_remove_pending. Qed.

(** The loops over the keys: every visited order improves, and the orders
    collected for removal are not open. *)
Lemma improved_visit step skip keys : forall self stale,
  (forall s id order, skip s id = false -> improved s (step s id order)) ->
  Forall (fun id => open_order self id = None) stale ->
  let r := fold_left (visit step skip) keys (self, stale) in
  improved self r.1 /\ Forall (fun id => open_order r.1 id = None) r.2.
Proof.
  induction keys as [|id keys IH]; intros self stale Hstep Hs; cbn [fold_left].
  { split; [reflexivity|done]. }
  destruct (visit step skip (self, stale) id) as [self1 stale1] eqn:Hv.
  assert (H1 : improved self self1 /\ Forall (fun i => open_order self1 i = None) stale1).
  { unfold visit in Hv. destruct (skip self id) eqn:Hk; [by injection Hv as <- <-|].
    destruct (open_order self id) as [o|] eqn:Ho; injection Hv as <- <-.
    - pose proof (Hstep self id o Hk) as Hi. split; [done|]. destruct Hi as [Hc _].
      eapply Forall_impl; [exact Hs|]. intros i Hi. by rewrite (open_order_cache self).
    - split; [done|]. apply Forall_app. split; [done|]. by repeat constructor. }
  destruct H1 as [H1 F1]. destruct (IH self1 stale1 Hstep F1) as [H2 F2]. split; [by etrans|done].
Qed.

(** *** The operations *)

Lemma improved_clear_all self : improved self (clear_all_queue_positions self).
Proof.
  assert (Hk : ix_keys (me_queue_ahead (clear_all_queue_positions self)) = ix_keys (me_queue_ahead self)).
  { unfold ix_keys. cbn. rewrite <- list_fmap_compose. by apply list_fmap_ext. }
  assert (Hg : forall id, ix_get id (me_queue_ahead (clear_all_queue_positions self)) =
    (fun v => (v.1, 0)) <$> ix_get id (me_queue_ahead self)).
  { intros id. clear Hk. unfold clear_all_queue_positions, set_field. cbn [me_queue_ahead].
    induction (me_queue_ahead self) as [|[i v] m IH]; [done|].
    rewrite fmap_cons, !ix_get_cons. cbn [fst snd]. by destruct (decide (i = id)). }
  split; [done|]. intros [H1 H2 H3 H4]. split.
  - split; [by rewrite Hk|done|..].
    + intros id Hi. rewrite Hg. by rewrite (H3 id Hi).
    + intros id p a. rewrite Hg. destruct (ix_get id (me_queue_ahead self)); [|done].
      intros [= _ <-]. pose proof (imin_le_imax QuantityRaw). lia.
  - intros id p a Hi. left. exists 0. rewrite Hg, Hi. apply H4 in Hi. split; [done|lia].
Qed.

(** Setting a tracked volume lower, where the order is still tracked. *)
Lemma improved_clear_queue self p s : improved self (clear_queue_on_delete self p s).
Proof.
  apply improved_fold. intros e id _ _. unfold clear_one.
  destruct (ix_get id (me_queue_ahead e)) as [[q a]|] eqn:Hg; [|done].
  destruct (_ && _); [|done]. split; [done|]. intros Hv.
  apply (improved_set_ahead e id q a 0 Hg); [|done]. apply (qv_range _ Hv) in Hg. lia.
Qed.

Lemma improved_cap self p size s : 0 <= size -> improved self (cap_queue_ahead self p size s).
Proof.
  intros Hs. unfold cap_queue_ahead.
  destruct (improved_visit (cap_one size s) (cap_skip p size) (ix_keys (me_queue_ahead self)) self [])
    as [I F]; [|constructor|].
  - intros e id o. unfold cap_skip, cap_one.
    destruct (ix_get id (me_queue_ahead e)) as [[q a]|] eqn:Hg; [|done].
    rewrite orb_false_iff, Z.leb_gt. intros [_ Ha]. destruct (negb _); [done|].
    apply (improved_set_ahead e id q a size Hg). lia.
  - destruct (fold_left _ _ _) as [e stale]. etrans; [exact I|]. by apply improved_drop_ahead.
Qed.

Lemma improved_visit_pending self step :
  (forall s id order, not_pending s id = false -> improved s (step s id order)) ->
  improved self
    (let '(self, stale) :=
       fold_left (visit step not_pending) (ix_keys (me_queue_pending self)) (self, []) in
     fold_left remove_pending stale self).
Proof.
  intros Hs. destruct (improved_visit step not_pending (ix_keys (me_queue_pending self)) self [])
    as [I _]; [done|constructor|].
  destruct (fold_left _ _ _) as [e stale]. etrans; [exact I|]. apply improved_drop_pending.
Qed.

Lemma improved_adjust self p size s :
  0 <= size <= RAW_MAX -> improved self (adjust_l1_queue_on_price_move self p size s).
Proof.
  intros Hs. pose proof (imin_le_imax QuantityRaw). unfold adjust_l1_queue_on_price_move.
  destruct (improved_visit (move_ahead p size s) untracked (ix_keys (me_queue_ahead self)) self [])
    as [I F]; [|constructor|].
  - intros e id o _. unfold move_ahead.
    destruct (ix_get id (me_queue_ahead e)) as [[q a]|] eqn:Hg; [|done].
    destruct (negb _); [done|]. destruct (crossed_by s q p).
    + split; [done|]. intros Hv. apply (improved_set_ahead e id q a 0 Hg); [|done].
      apply (qv_range _ Hv) in Hg. lia.
    + destruct (_ && _) eqn:Hb; [|done]. apply andb_true_iff in Hb as [_ Hb%Z.ltb_lt].
      apply (improved_set_ahead e id q a size Hg). lia.
  - destruct (fold_left _ (ix_keys (me_queue_ahead self)) _) as [e stale]. etrans; [exact I|].
    etrans; [by apply improved_drop_ahead|]. apply improved_visit_pending.
    intros e' id o _. unfold move_pending.
    destruct (ix_get id (me_queue_pending e')) as [q|] eqn:Hg; [|done].
    destruct (negb _); [done|]. destruct (crossed_by s q p); [eapply improved_promote; [done|lia]|].
    destruct (q =? p); [eapply improved_promote; [done|lia]|done].
Qed.

Lemma improved_resolve_l1 self bp bs ap az :
  0 <= bs <= RAW_MAX -> 0 <= az <= RAW_MAX ->
  improved self (resolve_pending_l1_snapshots self bp bs ap az).
Proof.
  intros Hb Ha. apply improved_visit_pending. intros e id o _. unfold resolve_one.
  destruct (ix_get id (me_queue_pending e)) as [q|] eqn:Hg; [|done].
  destruct (side_of o); [done|..]; destruct (q =? _); try done; eapply improved_promote; done || lia.
Qed.
Lemma improved_resolve_trade self p : improved self (resolve_pending_on_trade self p).
Proof.
  pose proof (imin_le_imax QuantityRaw). apply improved_visit_pending. intros e id o _. unfold resolve_trade.
  destruct (ix_get id (me_queue_pending e)) as [q|] eqn:Hg; [|done].
  destruct (trade_through _ _ _); [|done]. eapply improved_promote; [done|lia].
Qed.

(** *** Trades *)

Lemma allocate_frame price trade es : forall self remaining prev,
  me_cache (allocate self price trade es remaining prev) = me_cache self /\
  me_queue_pending (allocate self price trade es remaining prev) = me_queue_pending self /\
  (NoDup (ix_keys (me_queue_ahead self)) ->
   NoDup (ix_keys (me_queue_ahead (allocate self price trade es remaining prev)))).
Proof.
  induction es as [|[[id a] l] es IH]; intros self R P; cbn [allocate]; [done|].
  cbn zeta. destruct (R =? 0); [destruct (_ =? 0)|destruct (_ && _)];
    match goal with |- context [allocate ?s _ _ es ?r ?p] => destruct (IH s r p) as (Hc & Hp & Hn) end;
    (split_and!; [done|done|intros H; by apply Hn, ix_nodup_insert]).
Qed.
Lemma fold_remove_frame stale : forall self,
  me_cache (fold_left remove_ahead stale self) = me_cache self /\
  me_queue_pending (fold_left remove_ahead stale self) = me_queue_pending self /\
  (NoDup (ix_keys (me_queue_ahead self)) ->
   NoDup (ix_keys (me_queue_ahead (fold_left remove_ahead stale self)))).
Proof.
  induction stale as [|id stale IH]; intros self; cbn [fold_left]; [done|].
  destruct (IH (remove_ahead self id)) as (Hc & Hp & Hn). split_and!; try done.
  intros H. by apply Hn, ix_nodup_remove.
Qed.
Lemma decrement_frame self price trade aggressor :
  let self' := decrement_queue_on_trade self price trade aggressor in
  me_cache self' = me_cache self /\ me_queue_pending self' = me_queue_pending self /\
  (NoDup (ix_keys (me_queue_ahead self)) -> NoDup (ix_keys (me_queue_ahead self'))).
Proof.
  unfold decrement_queue_on_trade. destruct (negb _); [done|].
  destruct (collect_hit _ _ _ _) as [entries stale]. cbn zeta.
  set (s0 := self <| me_queue_excess := [] |>).
  destruct (fold_remove_frame stale s0) as (C1 & P1 & N1).
  destruct (allocate_frame price trade (sort_by_ahead entries) (fold_left remove_ahead stale s0) trade 0)
    as (C2 & P2 & N2).
  rewrite C2, P2, C1, P1. split_and!; try done. intros H. apply N2, N1, H.
Qed.

Lemma improved_trade self price trade aggressor :
  leaves_fit self -> 0 <= trade <= RAW_MAX ->
  improved self (decrement_queue_on_trade self price trade aggressor).
Proof.
  intros Hl HT. destruct (cfg_queue_position (me_config self)) eqn:Hcfg;
    [|unfold decrement_queue_on_trade; by rewrite Hcfg].
  destruct (decrement_frame self price trade aggressor) as (Hc & Hp & Hn).
  split; [done|]. intros Hv.
  destruct (decrement_queue_eq self price trade aggressor Hcfg Hv Hl HT) as [Ha _].
  pose proof Hv as [H1 H2 H3 H4]. split.
  - split; [by apply Hn|by rewrite Hp|..].
    + intros id Hi. rewrite Hp in Hi. rewrite Ha. unfold queue_after. by rewrite (H3 id Hi).
    + intros id p a. rewrite Ha. unfold queue_after.
      destruct (ix_get id (me_queue_ahead self)) as [[q v]|] eqn:Hg; [|done].
      apply H4 in Hg. destruct (open_order self id); [|done].
      destruct (_ && _); intros [= <- <-]; lia.
  - intros id p a Hg. destruct (open_order self id) as [o|] eqn:Ho; [|by right]. left.
    rewrite Ha. unfold queue_after. rewrite Hg, Ho. eexists. split; [done|]. apply H4 in Hg.
    destruct (_ && _); lia.
Qed.

(** ** Histories *)

(** What happens to the queue: the data handlers, the acceptance or change of
    an order, a fill, and changes of the cache and the book. *)
Inductive queue_event : Type :=
  | QDelta (delta : OrderBookDelta)
  | QDeltas (deltas : list OrderBookDelta)
  | QDepth10 (bid_price bid_size ask_price ask_size : Z)
  | QQuote (quote : QuoteTick)
  | QTrade (trade : TradeTick)
  | QEndTrade
  | QSnapshot (order : OrderAny Dec) (price : Price)
  | QModify (order : OrderAny Dec) (price : Price)
  | QCharge (order : OrderAny Dec) (fills : list (Price * Quantity)) (allowed tc_before : Z)
  | QMarket (cache : Cache Dec) (book : OrderBook).

(** The end of [process_modify] for an order whose price has changed; the order of
    the shares is never looked at. *)
Definition queue_on_modify {E} self (order : OrderAny Dec) (new_price : Price) : outcome E Engine :=
  self ← snapshot_queue_position self order new_price;
  Ok (self <| me_queue_excess := ix_shift_remove (any_id order) (me_queue_excess self) |>).

Definition queue_step {E} self (ev : queue_event) : outcome E Engine :=
  match ev with
  | QDelta d => Ok (queue_on_delta self d)
  | QDeltas ds => Ok (queue_on_deltas self ds)
  | QDepth10 bp bs ap az => Ok (queue_on_depth10 self bp bs ap az)
  | QQuote q => Ok (queue_on_quote self q)
  | QTrade t => Ok (begin_trade self t)
  | QEndTrade => Ok (end_trade self)
  | QSnapshot o p => snapshot_queue_position self o p
  | QModify o p => queue_on_modify self o p
  | QCharge o fills allowed tc => fst <$> charge_fills self o fills allowed tc
  | QMarket c b => Ok (self <| me_cache := c |> <| me_book := b |>)
  end.
Fixpoint queue_run {E} self (evs : list queue_event) : outcome E Engine :=
  match evs with
  | [] => Ok self
  | ev :: evs => self ← queue_step self ev; queue_run self evs
  end.

Definition raw_ok (q : Quantity) : Prop := 0 <= q_raw q <= RAW_MAX.
Definition cache_fits (c : Cache Dec) : Prop :=
  forall id o, k_orders c !! id = Some o -> 0 <= leaves_of o <= RAW_MAX.
Definition event_ok (ev : queue_event) : Prop :=
  match ev with
  | QDelta d => raw_ok (bo_size (dl_order d))
  | QDeltas ds => Forall (fun d => raw_ok (bo_size (dl_order d))) ds
  | QDepth10 _ bs _ az => 0 <= bs <= RAW_MAX /\ 0 <= az <= RAW_MAX
  | QQuote q => raw_ok (qt_bid_size q) /\ raw_ok (qt_ask_size q)
  | QTrade t => raw_ok (tt_size t)
  | QMarket c _ => cache_fits c
  | QEndTrade | QSnapshot _ _ | QModify _ _ | QCharge _ _ _ _ => True
  end.

Lemma improved_plain_delta self d : raw_ok (bo_size (dl_order d)) -> improved self (queue_plain_delta self d).
Proof.
  intros [H _]. unfold queue_plain_delta. destruct (dl_action d); try done.
  - by apply improved_cap.
  - apply improved_clear_queue.
Qed.
Lemma improved_seed_tob self : improved self (seed_tob_baseline self).
Proof. by apply improved_same. Qed.
Lemma improved_set_prev self bp bs ap az : improved self (set_prev self bp bs ap az).
Proof. by apply improved_same. Qed.
Lemma improved_delta self d : raw_ok (bo_size (dl_order d)) -> improved self (queue_on_delta self d).
Proof.
  intros H. unfold queue_on_delta. destruct (negb _); [done|]. destruct (is_snapshot_or_clear d).
  - etrans; [apply improved_clear_all|apply improved_seed_tob].
  - by apply improved_plain_delta.
Qed.
Lemma improved_deltas ds : forall self,
  Forall (fun d => raw_ok (bo_size (dl_order d))) ds -> improved self (queue_deltas_loop self ds).1.
Proof.
  induction ds as [|d ds IH]; intros self Hf; cbn; [done|]. apply Forall_cons in Hf as [Hd Hf].
  destruct (is_snapshot_or_clear d); [apply improved_clear_all|].
  etrans; [by apply improved_plain_delta|]. by apply IH.
Qed.

(** The moves of the top of book, which quotes and depth snapshots share. *)
Lemma improved_tob_moves self bp bs ap az :
  0 <= bs <= RAW_MAX -> 0 <= az <= RAW_MAX ->
  improved self
    (if me_tob_initialized self then
       let self := if bp <? me_prev_bid_price_raw self
                   then adjust_l1_queue_on_price_move self bp bs Buy else self in
       if me_prev_ask_price_raw self <? ap
       then adjust_l1_queue_on_price_move self ap az Sell else self
     else self).
Proof.
  intros Hb Ha. destruct (me_tob_initialized self); [|done]. cbn zeta.
  destruct (bp <? _); (etrans; [|destruct (_ <? ap); [by apply improved_adjust|reflexivity]]).
  - by apply improved_adjust.
  - done.
Qed.
Lemma improved_quote self q :
  raw_ok (qt_bid_size q) -> raw_ok (qt_ask_size q) -> improved self (queue_on_quote self q).
Proof.
  intros Hb Ha. unfold queue_on_quote. destruct (negb _) eqn:Hc; [done|]. cbn zeta.
  etrans; [|apply improved_set_prev]. unfold decrement_l1_queue_on_quote. rewrite Hc.
  etrans; [exact (improved_tob_moves self (p_raw (qt_bid_price q)) _ (p_raw (qt_ask_price q)) _ Hb Ha)|].
  by apply improved_resolve_l1.
Qed.
Lemma improved_depth10 self bp bs ap az :
  0 <= bs <= RAW_MAX -> 0 <= az <= RAW_MAX -> improved self (queue_on_depth10 self bp bs ap az).
Proof.
  intros Hb Ha. unfold queue_on_depth10. destruct (negb _); [done|]. cbn zeta.
  etrans; [|apply improved_set_prev]. etrans; [apply improved_clear_all|].
  etrans; [exact (improved_tob_moves (clear_all_queue_positions self) bp bs ap az Hb Ha)|].
  by apply improved_resolve_l1.
Qed.
Lemma improved_begin_trade self t :
  leaves_fit self -> raw_ok (tt_size t) -> improved self (begin_trade self t).
Proof.
  intros Hl Ht. unfold begin_trade. cbn zeta.
  set (s1 := if _ && _ then _ else _).
  assert (H1 : improved self s1).
  { unfold s1. destruct (_ && _); [|by apply improved_same]. unfold seed_trade_consumption.
    destruct (_ =? 0); [by apply improved_same|]. destruct (_ <? _); [by apply improved_same|].
    destruct (tt_aggressor_side t); by apply improved_same. }
  etrans; [exact H1|]. etrans; [apply improved_resolve_trade|]. apply improved_trade; [|done].
  intros id o. unfold order_of. destruct (improved_resolve_trade s1 (p_raw (tt_price t))) as [-> _].
  destruct H1 as [-> _]. apply Hl.
Qed.

(** *** Tracking an order *)

Lemma qty_new_range {E} x n q : qty_new (E := E) x n = Ok q -> 0 <= q_raw q <= RAW_MAX.
Proof.
  unfold qty_new. destruct (qty_new_checked x n) as [q'| |] eqn:H; try done. intros [= <-].
  unfold qty_new_checked in H. do 4 (apply bind_Ok_inv in H as (? & ? & H)). injection H as <-.
  apply qty_in_ty. cbn.
  unfold f64_to_fixed_u128, f64_to_fixed_u64, QuantityRaw in *.
  destruct high_precision; unfold f64_to_fixed in *;
    match goal with H : _ ≫= _ = Ok ?r |- in_ty _ ?r = true =>
      apply bind_Ok_inv in H as (? & ? & H); injection H as <- end; apply wrap_in_ty.
Qed.
Lemma get_quantity_range {E} book price side prec q :
  get_quantity_at_level (E := E) book price side prec = Ok q -> 0 <= q_raw q <= RAW_MAX.
Proof.
  pose proof (imin_le_imax QuantityRaw). unfold get_quantity_at_level.
  intros (sd & _ & Hq)%bind_Ok_inv. cbn zeta in Hq. apply bind_Ok_inv in Hq as (found & _ & Hq).
  apply bind_Ok_inv in Hq as (z & Hz & Hq). destruct found as [lv|].
  - apply qty_from_raw_Ok in Hq as ->. cbn.
    assert (Hin : in_ty QuantityRaw (size_raw lv) = true).
    { unfold size_raw. destruct (get_orders lv) as [|o os _] using rev_ind; [apply raw_in_ty; cbn; lia|].
      rewrite foldl_app. apply wrap_in_ty. }
    by apply qty_in_ty in Hin.
  - injection Hq as <-. apply bind_Ok_inv in Hz as (u & _ & Hz). by apply qty_new_range in Hz.
Qed.

Lemma snapshot_correct {E} self order price self' :
  queue_valid self -> snapshot_queue_position (E := E) self order price = Ok self' ->
  queue_valid self' /\ me_cache self' = me_cache self /\
  forall id, id <> any_id order -> ix_get id (me_queue_ahead self') = ix_get id (me_queue_ahead self).
Proof.
  intros Hv. unfold snapshot_queue_position. destruct (negb _); [by intros [= <-]|].
  intros Hs. apply bind_Ok_inv in Hs as (q & Hq%get_quantity_range & Hs). cbn zeta in Hs.
  destruct Hv as [H1 H2 H3 H4]. destruct (_ && _); injection Hs as <-; (split; [|split; [done|]]).
  - split; cbn.
    + by apply ix_nodup_remove.
    + by apply ix_nodup_insert, ix_nodup_remove.
    + intros id. rewrite ix_get_insert, !ix_get_remove. case_decide; [done|apply H3].
    + intros id p a. rewrite ix_get_remove. case_decide; [done|apply H4].
  - intros id Hne. cbn. by rewrite ix_get_remove, decide_False.
  - split; cbn.
    + by apply ix_nodup_insert, ix_nodup_remove.
    + by apply ix_nodup_remove.
    + intros id. rewrite ix_get_insert, !ix_get_remove. case_decide; [by intros []|apply H3].
    + intros id p a. rewrite ix_get_insert, ix_get_remove. case_decide; [|apply H4].
      intros [= <- <-]. done.
  - intros id Hne. cbn. by rewrite ix_get_insert, ix_get_remove, !decide_False.
Qed.

(** *** Histories *)

Definition snapshots_of id (ev : queue_event) : bool :=
  match ev with QSnapshot o _ | QModify o _ => bool_decide (any_id o = id) | _ => false end.
Definition closed_in id (c : Cache Dec) : Prop :=
  forall o, k_orders c !! id = Some o -> is_closed (any_core o) = true.
(** The caches a run goes through. *)
Definition caches_of (c : Cache Dec) (evs : list queue_event) : list (Cache Dec) :=
  c :: omap (fun ev => match ev with QMarket c _ => Some c | _ => None end) evs.

Lemma open_order_closed self id : open_order self id = None -> closed_in id (me_cache self).
Proof.
  unfold open_order, order_of, closed_in. intros H o Ho. rewrite Ho in H. cbn in H.
  by destruct (is_closed (any_core o)).
Qed.

(** A step other than a snapshot or a change of the cache improves. *)
Lemma queue_step_improves {E} self ev self' :
  leaves_fit self -> event_ok ev -> queue_step (E := E) self ev = Ok self' ->
  match ev with QSnapshot _ _ | QModify _ _ | QMarket _ _ => True | _ => improved self self' end.
Proof.
  intros Hl Hok. destruct ev; cbn in Hok |- *; try done; try (intros [= <-]).
  - by apply improved_delta.
  - unfold queue_on_deltas. destruct (negb _); [done|]. pose proof (improved_deltas _ self Hok) as H.
    destruct (queue_deltas_loop self deltas) as [s [|]]; cbn in H; [|done].
    etrans; [exact H|apply improved_seed_tob].
  - destruct Hok. by apply improved_depth10.
  - destruct Hok. by apply improved_quote.
  - by apply improved_begin_trade.
  - by apply improved_same.
  - unfold charge_fills. destruct (cap_fills _ _ _) as [f|e|]; cbn; try done. intros [= <-].
    by apply improved_same; destruct (ix_get _ _).
Qed.

(** One step: the invariant, what is left of the orders, and the place of a
    tracked order. *)
Lemma queue_step_correct {E} self ev self' :
  queue_valid self -> leaves_fit self -> event_ok ev -> queue_step (E := E) self ev = Ok self' ->
  queue_valid self' /\ leaves_fit self' /\
  me_cache self' = default (me_cache self) (match ev with QMarket c _ => Some c | _ => None end) /\
  forall id p a, ix_get id (me_queue_ahead self) = Some (p, a) -> snapshots_of id ev = false ->
    (exists a', ix_get id (me_queue_ahead self') = Some (p, a') /\ 0 <= a' <= a)
    \/ closed_in id (me_cache self).
Proof.
  intros Hv Hl Hok Hs. pose proof (queue_step_improves self ev self' Hl Hok Hs) as Hi.
  destruct ev; try (destruct Hi as [Hc Hi]; destruct (Hi Hv) as [Hv' Ha];
    split_and!; [done|unfold leaves_fit, order_of in *; by rewrite Hc|done|];
    intros id p a Hg _; destruct (Ha _ _ _ Hg); [by left|right; by apply open_order_closed]).
  - destruct (snapshot_correct self order price self' Hv Hs) as (Hv' & Hc & Hg). cbn.
    split_and!; [done|unfold leaves_fit, order_of in *; by rewrite Hc|done|].
    intros id p a Ha Hb%bool_decide_eq_false. left. exists a. rewrite Hg by done.
    split; [done|]. apply (qv_range _ Hv) in Ha. lia.
  - apply bind_Ok_inv in Hs as (s1 & Hs & [= <-]).
    destruct (snapshot_correct self order price s1 Hv Hs) as (Hv' & Hc & Hg). cbn.
    split_and!; [by destruct Hv'; split|unfold leaves_fit, order_of in *; cbn; by rewrite Hc|done|].
    intros id p a Ha Hb%bool_decide_eq_false. left. exists a. cbn. rewrite Hg by done.
    split; [done|]. apply (qv_range _ Hv) in Ha. lia.
  - injection Hs as <-. destruct Hv as [H1 H2 H3 H4]. split_and!; [done|done|done|].
    intros id p a Ha _. left. exists a. split; [done|]. apply H4 in Ha. lia.
Qed.

(** C25: over any history of book deltas, depth snapshots, quotes, trades, fills,
    newly tracked orders, modifications and changes of the cache and the book (all
    volumes within the raw range), the queue keeps its invariant (an id once,
    tracked or pending but not both, volumes in range), and an order that is
    tracked stays tracked at its price with at most the volume ahead that it had,
    unless some cache of the history has it closed or missing, or an event
    snapshots the queue for that very order again: its acceptance, or a
    modification of its price, after which it starts from the volume of its new
    level. *)
Theorem queue_position_improves {E} self evs self' :
  queue_valid self -> leaves_fit self -> Forall event_ok evs ->
  queue_run (E := E) self evs = Ok self' ->
  queue_valid self' /\
  forall id p a, ix_get id (me_queue_ahead self) = Some (p, a) ->
    Forall (fun ev => snapshots_of id ev = false) evs ->
    (exists a', ix_get id (me_queue_ahead self') = Some (p, a') /\ 0 <= a' <= a)
    \/ Exists (closed_in id) (caches_of (me_cache self) evs).
Proof.
  revert self. induction evs as [|ev evs IH]; intros self Hv Hl Hok Hr.
  { injection Hr as <-. split; [done|]. intros id p a Hg _. left. exists a.
    split; [done|]. apply (qv_range _ Hv) in Hg. lia. }
  apply Forall_cons in Hok as [Hev Hok]. apply bind_Ok_inv in Hr as (s1 & Hs & Hr).
  destruct (queue_step_correct self ev s1 Hv Hl Hev Hs) as (Hv1 & Hl1 & Hc & Ha).
  destruct (IH s1 Hv1 Hl1 Hok Hr) as [Hv2 Ha2]. split; [done|].
  intros id p a Hg Hf. apply Forall_cons in Hf as [He Hf].
  destruct (Ha _ _ _ Hg He) as [(a1 & Hg1 & Hle)|Hcl]; [|right; by left].
  destruct (Ha2 _ _ _ Hg1 Hf) as [(a2 & Hg2 & Hle2)|Hex].
  - left. exists a2. split; [done|lia].
  - right. unfold caches_of in *. rewrite Hc in Hex. cbn. destruct ev; cbn in Hex |- *; try done.
    by right.
Qed.

(** ** The fills of one trade *)

Lemma cap_fills_volume {E} prec fills : forall remaining fs,
  0 <= remaining <= RAW_MAX -> Forall (fun f => raw_ok f.2) fills ->
  cap_fills (E := E) prec fills remaining = Ok fs -> 0 <= volume fs <= remaining.
Proof.
  induction fills as [|[p q] fills IH]; intros r fs Hr Hf; cbn [cap_fills].
  { intros [= <-]. cbn. lia. }
  apply Forall_cons in Hf as [[Hq0 Hq] Hf]. cbn [snd] in Hq0, Hq.
  destruct (Z.eqb_spec r 0) as [->|Hr0]; [by apply IH|].
  intros (q' & ->%qty_from_raw_Ok & H)%bind_Ok_inv.
  apply bind_Ok_inv in H as (rest & Hrest & [= <-]). rewrite raw_sub_eq in Hrest by lia.
  apply IH in Hrest; [|lia|done]. cbn [volume foldr snd q_raw]. fold (volume rest).
  rewrite raw_add_eq; lia.
Qed.

(** A fill takes the order's allowance; what is computed between the allowance
    and the charge ([self1]) leaves the shares and the size of the trade. *)
Definition fill_step {E} self order fills self1 self2 (fs : list (Price * Quantity)) : Prop :=
  exists allowed, determine_trade_fill_qty self order = Some allowed /\
    me_queue_excess self1 = me_queue_excess self /\
    me_last_trade_size self1 = me_last_trade_size self /\ me_config self1 = me_config self /\
    charge_fills (E := E) self1 order fills allowed (me_trade_consumption self) = Ok (self2, fs).

(** Fills while a trade is processed, with the volume each order takes; in
    between anything else of the engine may change. *)
Inductive trade_run {E} : Engine -> list (ClientOrderId * Z) -> Engine -> Prop :=
  | run_done self : trade_run self [] self
  | run_other self self1 taken self2 :
      me_queue_excess self1 = me_queue_excess self ->
      me_last_trade_size self1 = me_last_trade_size self ->
      me_trade_consumption self1 = me_trade_consumption self -> me_config self1 = me_config self ->
      trade_run (E := E) self1 taken self2 -> trade_run self taken self2
  | run_fill self order fills self1 self2 fs taken self3 :
      raw_ok (o_leaves_qty (any_core order)) -> Forall (fun f => raw_ok f.2) fills ->
      fill_step (E := E) self order fills self1 self2 fs ->
      trade_run (E := E) self2 taken self3 ->
      trade_run self ((any_id order, volume fs) :: taken) self3.

Lemma allowance_bound self order allowed size :
  cfg_queue_position (me_config self) = true -> me_last_trade_size self = Some size -> raw_ok size ->
  0 <= me_trade_consumption self <= q_raw size -> raw_ok (o_leaves_qty (any_core order)) ->
  (forall id e, ix_get id (me_queue_excess self) = Some e -> 0 <= e) ->
  determine_trade_fill_qty self order = Some allowed ->
  0 <= allowed <= q_raw size - me_trade_consumption self /\
  (forall e, ix_get (any_id order) (me_queue_excess self) = Some e -> allowed <= e).
Proof.
  intros Hc Hs [Hs0 Hs1] Ht [Hl0 Hl1] He. unfold determine_trade_fill_qty. rewrite Hc, Hs. cbn [negb].
  do 3 (match goal with |- (if ?b then None else _) = _ -> _ => destruct b end; [done|]). rewrite raw_saturating_sub_eq by lia. unfold leaves_of.
  destruct (ix_get (any_id order) (me_queue_excess self)) as [e|] eqn:Hx; cbn.
  - apply He in Hx. destruct (e =? 0); [done|]. cbn. destruct (_ =? 0); [done|]. intros [= <-].
    split; [lia|]. intros e' [= <-]. lia.
  - destruct (_ =? 0); [done|]. intros [= <-]. split; [lia|done].
Qed.

(** What a charge does: the volume, within the allowance, comes off the share
    of the order and goes on the account of the trade. *)
Lemma charge_correct {E} self order fills allowed tc self' fs :
  Forall (fun f => raw_ok f.2) fills -> 0 <= allowed -> 0 <= tc -> tc + allowed <= RAW_MAX ->
  (forall id e, ix_get id (me_queue_excess self) = Some e -> 0 <= e <= RAW_MAX) ->
  (forall e, ix_get (any_id order) (me_queue_excess self) = Some e -> allowed <= e) ->
  charge_fills (E := E) self order fills allowed tc = Ok (self', fs) ->
  0 <= volume fs <= allowed /\ me_config self' = me_config self /\
  me_last_trade_size self' = me_last_trade_size self /\ me_trade_consumption self' = tc + volume fs /\
  forall id, ix_get id (me_queue_excess self') =
    (fun e => if decide (id = any_id order) then e - volume fs else e)
      <$> ix_get id (me_queue_excess self).
Proof.
  intros Hf Ha Ht Hm He Hx (fs' & Hcap & Hch)%bind_Ok_inv.
  apply cap_fills_volume in Hcap; [|lia|done]. injection Hch as <- <-. rec_simpl.
  set (v := volume fs') in *. rewrite raw_add_eq by lia.
  destruct (ix_get (any_id order) (me_queue_excess self)) as [e0|] eqn:H0; cbn; split_and!; try done; try lia.
  - intros id. rewrite ix_get_insert. case_decide as Heq.
    + rewrite Heq, H0. cbn. specialize (Hx e0 eq_refl). apply He in H0.
      rewrite raw_saturating_sub_eq by lia. f_equal. lia.
    + by destruct (ix_get id _).
  - intros id. destruct (ix_get id (me_queue_excess self)) as [e|] eqn:H1; cbn; [|done].
    case_decide; [congruence|done].
Qed.

Definition taken_by id (taken : list (ClientOrderId * Z)) : Z :=
  total (List.filter (fun x => bool_decide (x.1 = id)) taken).

(** C26: with queue-position tracking on (it is off by default), while one trade is
    processed, the fills fill_limit_order makes, each capped by
    determine_trade_fill_qty and charged to the trade, are together never more
    than what the trade had left, and those of an order that was given a share of
    the trade are together no more than its share.  Triggered orders that
    fill_market_order fills are not charged to the trade and not counted. *)
Theorem trade_fills_bounded {E} self taken self' size :
  cfg_queue_position (me_config self) = true ->
  me_last_trade_size self = Some size -> raw_ok size -> 0 <= me_trade_consumption self <= q_raw size ->
  (forall id e, ix_get id (me_queue_excess self) = Some e -> 0 <= e <= RAW_MAX) ->
  trade_run (E := E) self taken self' ->
  0 <= total taken <= q_raw size - me_trade_consumption self /\
  forall id e, ix_get id (me_queue_excess self) = Some e -> taken_by id taken <= e.
Proof.
  intros Hc Hs Hok Ht He Hrun.
  induction Hrun as [self|self self1 taken self2 E1 E2 E3 E4 _ IH|
    self order fills self1 self2 fs taken self3 Hl Hf (allowed & Hd & E1 & E2 & E3 & Hch) _ IH].
  - cbn. split; [lia|]. intros id e H%He. unfold taken_by. cbn. lia.
  - rewrite E1, E2, E3, E4 in IH. by apply IH.
  - apply (allowance_bound self order allowed size) in Hd as [Ha Hx]; try done; [|intros id e H%He; lia].
    destruct Hok as [Hok0 Hok1].
    apply charge_correct in Hch as (Hv & C1 & C2 & C3 & C4); rewrite ?E1; try done; try lia.
    rewrite E1 in C4. set (v := volume fs) in *. rewrite C1, C2, C3, E2, E3 in IH.
    destruct IH as [IH1 IH2]; try done; try lia.
    { intros id e. rewrite C4. destruct (ix_get id (me_queue_excess self)) as [e'|] eqn:H; [|done].
      apply He in H as Hr. intros [= <-]. case_decide as Hd; [|done].
      rewrite Hd in H. apply Hx in H. lia. }
    split; [cbn; fold (total taken); lia|]. intros id e H. specialize (IH2 id).
    rewrite C4, H in IH2. specialize (IH2 _ eq_refl). unfold taken_by in *. cbn.
    case_bool_decide as Hb; [|rewrite decide_False in IH2 by done; exact IH2].
    rewrite decide_True in IH2 by done. cbn. fold v. unfold total in IH2. lia.
Qed.
End History.
