(* ===== verification/EngineLiquidity.v ===== *)
(** * Liquidity consumption of the matching engine

    With [liquidity_consumption] switched on the engine remembers how much of
    each level of the book its fills have taken since the size of the level
    last changed.  The fills of a level never exceed its size, over any number
    of orders and trades; and an order that is left unfilled has taken all
    there was. *)

From stdpp Require Import base numbers list gmap strings.
From Stdlib Require Import ZArith Lia.
From S2P Require Import Prelude F64 Fixed Price Quantity Money Enums Maps OrderEvents OrderCore Orders OrderLife Ladder LadderInv Book MatchingCore CacheIndex Cache MatchingEngine EngineQueue EngineHistory.

Section Liquidity.
Context `{M : Mode} `{B : BookOrderApi} `{D : BookDataApi} {Dec : Type}.
Abbreviation Engine := (OrderMatchingEngine Dec).
Abbreviation Fills := (list (Price * Quantity)).
Implicit Types (self : Engine) (fills : Fills) (c : Consumption).
Abbreviation RAW_MAX := (imax QuantityRaw).

(** ** Reading the state *)

(** The volume taken from the level at [p] since its size became [size]. *)
Definition drawn c (p size : Z) : Z :=
  match im_get p c with
  | Some (original, consumed) => if original =? size then consumed else 0
  | None => 0
  end.

(** The level an order of side [side] meets at [p] has size [size]: looked up
    by price, and as a level of the ladder. *)
Definition size_is (book : OrderBook) (side : OrderSide) (p size : Z) : Prop :=
  0 <= size <= RAW_MAX /\
  (forall E price prec q, p_raw price = p ->
     get_quantity_at_level (E := E) book price side prec = Ok q -> q_raw q = size) /\
  match side with
  | Buy => Forall (fun l => p_raw (bp_value (lv_price l)) = p -> size_raw l = size)
             (levels_of (ob_asks book))
  | Sell => Forall (fun l => p_raw (bp_value (lv_price l)) = p -> size_raw l = size)
              (levels_of (ob_bids book))
  | NoOrderSide => True
  end.

Lemma size_raw_range (l : BookLevel) : 0 <= size_raw l <= RAW_MAX.
Proof.
  pose proof (imin_le_imax QuantityRaw). apply qty_in_ty. unfold size_raw.
  destruct (get_orders l) as [|o os _] using rev_ind; [apply raw_in_ty; cbn; lia|].
  rewrite foldl_app. apply wrap_in_ty.
Qed.

(** The ladders of a book the engine works on. *)
Definition book_ladders_ok (book : OrderBook) : Prop :=
  forall s, ladder_ok (opposite_ladder book s) /\ ld_side (opposite_ladder book s) = opposite s.

Lemma ladder_levels_ok book s :
  book_ladders_ok book ->
  Forall (fun kv => level_ok (opposite s) kv.1 kv.2) (ld_levels (opposite_ladder book s)).
Proof.
  intros Hb. destruct (Hb s) as [[_ Hlv _ _] Hs]. apply Forall_forall. intros [k lv] Hin.
  rewrite <- Hs. by apply Hlv.
Qed.

(** A level of a well-formed book has its size, both ways. *)
Lemma size_is_level book s k lv :
  book_ladders_ok book -> (k, lv) ∈ ld_levels (opposite_ladder book s) ->
  size_is book (as_order_side s) (p_raw (bp_value k)) (size_raw lv).
Proof.
  intros Hb Hin. destruct (Hb s) as [Hok Hside]. pose proof (size_raw_range lv) as Hr.
  assert (Hkey : forall k' : BookPrice, bp_side k' = opposite s ->
    p_raw (bp_value k') = p_raw (bp_value k) -> bp_key k' = bp_key k).
  { pose proof (lk_side _ _ _ (lo_levels _ Hok _ _ Hin)) as Hk. intros k' Hk' Hp. unfold bp_key.
    by rewrite Hk', Hk, Hside, Hp. }
  assert (Hget : bt_get bp_key k (ld_levels (opposite_ladder book s)) = Some lv)
    by (apply bt_elem_get; [apply Hok|done]).
  split; [done|]. split.
  - intros E price prec q Hp Hq. unfold get_quantity_at_level in Hq.
    apply bind_Ok_inv in Hq as (s' & Hs%as_specified_Ok & Hq).
    assert (s' = s) as -> by (by destruct s, s'). cbn zeta in Hq.
    rewrite levels_get_Ok in Hq by done. cbn [mbind outcome_bind] in Hq.
    apply bind_Ok_inv in Hq as (z & _ & Hq).
    assert (Hg : bt_get bp_key (mkBookPrice price (opposite s)) (ld_levels (opposite_ladder book s)) = Some lv).
    { rewrite <- Hget. unfold bt_get. by rewrite (Hkey (mkBookPrice price (opposite s))). }
    rewrite Hg in Hq. by apply qty_from_raw_Ok in Hq as ->.
  - assert (Hall : Forall (fun l => p_raw (bp_value (lv_price l)) = p_raw (bp_value k) -> size_raw l = size_raw lv)
      (levels_of (opposite_ladder book s))).
    { apply Forall_fmap, Forall_forall. intros [k' lv'] Hin' Hp. cbn in Hp |- *.
      pose proof (lo_levels _ Hok _ _ Hin') as Hlv'. rewrite (lk_price _ _ _ Hlv') in Hp.
      assert (Hg' : bt_get bp_key k' (ld_levels (opposite_ladder book s)) = Some lv')
        by (apply bt_elem_get; [apply Hok|done]).
      assert (Heq : bp_key k' = bp_key k) by (apply Hkey; [by rewrite <- Hside; apply Hlv'|done]).
      unfold bt_get in Hget, Hg'. rewrite Heq, Hget in Hg'. by injection Hg' as ->. }
    by destruct s.
Qed.

Lemma consumption_entry_eq p size c : consumption_entry p size c = (size, drawn c p size).
Proof.
  unfold consumption_entry, drawn. destruct (im_get p c) as [[o k]|]; cbn.
  - destruct (Z.eqb_spec o size) as [->|]; done.
  - by rewrite Z.eqb_refl.
Qed.
Lemma drawn_insert p p' o k c size :
  drawn (im_insert p' (o, k) c) p size =
  if p' =? p then (if o =? size then k else 0) else drawn c p size.
Proof. unfold drawn. rewrite im_get_insert. by destruct (p' =? p). Qed.

(** ** One order *)

Definition book_price_at (book_prices : option (list Price)) (fill_idx : nat) (price : Price) : Price :=
  default price (book_prices ≫= fun bp => bp !! fill_idx).

(** What the order asks of the level at [p]. *)
Fixpoint requested (book_prices : option (list Price)) (idx : nat) fills (p : Z) : Z :=
  match fills with
  | [] => 0
  | (price, qty) :: fills =>
      (if p_raw (book_price_at book_prices idx price) =? p then q_raw qty else 0)
      + requested book_prices (S idx) fills p
  end.

(** The loop once more, with the price of the level each fill is taken from. *)
Fixpoint consume_trace {E} (book : OrderBook) (side : OrderSide) (book_prices : option (list Price))
    (idx : nat) fills c (remaining : Z) : outcome E (Consumption * list (Z * Z)) :=
  match fills with
  | [] => Ok (c, [])
  | (price, qty) :: fills =>
      if remaining =? 0 then Ok (c, [])
      else
        let p := p_raw (book_price_at book_prices idx price) in
        size ← get_quantity_at_level book (book_price_at book_prices idx price) side (q_precision qty);
        let taken := drawn c p (q_raw size) in
        let v := Z.min (Z.min (q_raw qty) (Z.max 0 (q_raw size - taken))) remaining in
        '(c, rest) ← consume_trace book side book_prices (S idx) fills
                 (im_insert p (q_raw size, taken + v) c) (remaining - v);
        Ok (c, if v =? 0 then rest else (p, v) :: rest)
  end.

Definition taken_at (p : Z) (trace : list (Z * Z)) : Z :=
  foldr (fun x s => (if x.1 =? p then x.2 else 0) + s) 0 trace.
Definition volumes fills : list Z := (fun f => q_raw f.2) <$> fills.
Definition sum_list (l : list Z) : Z := foldr Z.add 0 l.

(** Volumes already taken never exceed the sizes they were taken from. *)
Definition consumption_ok c : Prop :=
  forall p o k, im_get p c = Some (o, k) -> 0 <= k <= o /\ o <= RAW_MAX.

Lemma drawn_range c p size : consumption_ok c -> 0 <= size -> 0 <= drawn c p size <= size.
Proof.
  intros Hc Hs. unfold drawn. destruct (im_get p c) as [[o k]|] eqn:H; [|lia].
  apply Hc in H. destruct (Z.eqb_spec o size); lia.
Qed.
Lemma consumption_insert c p size k :
  consumption_ok c -> 0 <= k <= size -> size <= RAW_MAX -> consumption_ok (im_insert p (size, k) c).
Proof.
  intros Hc Hk Hs p' o' k'. rewrite im_get_insert. destruct (p =? p'); [|apply Hc].
  intros [= <- <-]. done.
Qed.
Lemma im_insert_twice {V} p (v v' : V) m : im_insert p v (im_insert p v' m) = im_insert p v m.
Proof.
  induction m as [|[q w] m IH]; [by unfold im_insert; rewrite Z.eqb_refl|].
  rewrite !im_insert_cons. destruct (q =? p) eqn:Hq; rewrite im_insert_cons;
    by rewrite Hq, ?IH.
Qed.

(** The two loops agree. *)
Lemma consume_loop_trace {E} book side book_prices fills : forall idx c remaining c' fs,
  Forall (fun f => raw_ok f.2) fills -> consumption_ok c -> 0 <= remaining <= RAW_MAX ->
  consume_loop (E := E) book side book_prices idx fills c remaining = Ok (c', fs) ->
  exists tr, consume_trace (E := E) book side book_prices idx fills c remaining = Ok (c', tr) /\
    snd <$> tr = volumes fs.
Proof.
  induction fills as [|[price qty] fills IH]; intros idx c r c' fs Hf Hc Hr; cbn [consume_loop consume_trace].
  { intros [= <- <-]. by exists []. }
  apply Forall_cons in Hf as [[Hq0 Hq1] Hf]. cbn [snd] in Hq0, Hq1.
  destruct (Z.eqb_spec r 0) as [->|Hr0]; [intros [= <- <-]; by exists []|].
  change (default price _) with (book_price_at book_prices idx price). cbn zeta.
  destruct (get_quantity_at_level book (book_price_at book_prices idx price) side (q_precision qty))
    as [sz|e|] eqn:Hg; [|done|done]. osimpl. apply get_quantity_range in Hg as Hsz.
  rewrite consumption_entry_eq. set (p := p_raw (book_price_at book_prices idx price)).
  pose proof (drawn_range c p (q_raw sz) Hc (proj1 Hsz)) as Hu. set (u := drawn c p (q_raw sz)) in *.
  rewrite raw_saturating_sub_eq by lia. set (av := Z.max 0 (q_raw sz - u)).
  set (v := Z.min (Z.min (q_raw qty) av) r).
  assert (Hv : 0 <= v <= r /\ v <= q_raw sz - u) by lia.
  assert (Hc' : consumption_ok (im_insert p (q_raw sz, u + v) c)) by (apply consumption_insert; [done|lia..]).
  destruct (Z.eqb_spec v 0) as [Hv0|Hv0].
  - assert (Hz : (if av =? 0
       then consume_loop (E := E) book side book_prices (S idx) fills (im_insert p (q_raw sz, u) c) r
       else consume_loop (E := E) book side book_prices (S idx) fills (im_insert p (q_raw sz, u) c) r) =
       consume_loop (E := E) book side book_prices (S idx) fills (im_insert p (q_raw sz, u) c) r)
      by (by destruct (av =? 0)).
    rewrite Hz, Hv0, Z.add_0_r, Z.sub_0_r. rewrite Hv0, Z.add_0_r in Hc'.
    intros (tr & -> & Ht)%IH; [|done|done|lia]. osimpl. eauto.
  - rewrite (proj2 (Z.eqb_neq av 0)) by lia.
    intros (aq & ->%qty_from_raw_Ok & H)%bind_Ok_inv. apply bind_Ok_inv in H as ([c1 fs1] & H & [= <- <-]).
    rewrite raw_add_eq, raw_sub_eq, im_insert_twice in H by lia.
    apply IH in H as (tr & -> & Ht); [|done..|lia]. osimpl. exists ((p, v) :: tr).
    split; [done|]. cbn. by rewrite Ht.
Qed.

Lemma requested_nonneg book_prices fills p : forall idx,
  Forall (fun f => raw_ok f.2) fills -> 0 <= requested book_prices idx fills p.
Proof.
  induction fills as [|[price qty] fills IH]; intros idx Hf; cbn; [lia|].
  apply Forall_cons in Hf as [[Hq _] Hf]. cbn in Hq. specialize (IH (S idx) Hf).
  destruct (_ =? p); lia.
Qed.

(** What one order does to a level of size [size], and that it takes all there
    is when it stays unfilled. *)
Lemma consume_trace_correct {E} book side book_prices p size fills : forall idx c remaining c' tr,
  Forall (fun f => raw_ok f.2) fills -> consumption_ok c -> 0 <= remaining <= RAW_MAX ->
  consume_trace (E := E) book side book_prices idx fills c remaining = Ok (c', tr) ->
  consumption_ok c' /\ 0 <= sum_list (snd <$> tr) <= remaining /\
  (size_is book side p size ->
   taken_at p tr = drawn c' p size - drawn c p size /\ 0 <= taken_at p tr /\
   (sum_list (snd <$> tr) < remaining ->
    drawn c' p size = Z.min size (drawn c p size + requested book_prices idx fills p))).
Proof.
  induction fills as [|[price qty] fills IH]; intros idx c r c' tr Hf Hc Hr; cbn [consume_trace requested].
  { intros [= <- <-]. pose proof (drawn_range c p size Hc). cbn. split; [done|]. split; [lia|].
    intros (Hs & _). split_and!; lia. }
  apply Forall_cons in Hf as [[Hq0 Hq1] Hf]. cbn [snd] in Hq0, Hq1.
  destruct (Z.eqb_spec r 0) as [->|Hr0].
  { intros [= <- <-]. cbn. split; [done|]. split; [lia|]. intros _. split_and!; lia. }
  cbn zeta. set (bp := book_price_at book_prices idx price).
  intros (sz & Hg & H)%bind_Ok_inv. apply get_quantity_range in Hg as Hsz.
  pose proof (drawn_range c (p_raw bp) (q_raw sz) Hc (proj1 Hsz)) as Hu.
  set (u := drawn c (p_raw bp) (q_raw sz)) in *.
  set (v := Z.min (Z.min (q_raw qty) (Z.max 0 (q_raw sz - u))) r) in *.
  assert (Hc1 : consumption_ok (im_insert (p_raw bp) (q_raw sz, u + v) c))
    by (apply consumption_insert; [done|lia..]).
  apply bind_Ok_inv in H as ([c1 rest] & H & [= -> <-]).
  apply IH in H as (Hok & Hsum & Hsz2); [|done..|lia]. clear IH.
  pose proof (requested_nonneg book_prices fills p (S idx) Hf) as Hreq.
  assert (Hsum' : sum_list (snd <$> (if v =? 0 then rest else (p_raw bp, v) :: rest)) =
    v + sum_list (snd <$> rest)) by (destruct (Z.eqb_spec v 0) as [->|]; done).
  assert (Htk : taken_at p (if v =? 0 then rest else (p_raw bp, v) :: rest) =
    (if p_raw bp =? p then v else 0) + taken_at p rest).
  { destruct (Z.eqb_spec v 0) as [->|]; [by destruct (_ =? p)|done]. }
  rewrite Hsum', Htk. split; [done|]. split; [lia|]. intros Hsize.
  destruct (Hsz2 Hsize) as (Ht & Ht0 & Hall). destruct Hsize as (Hs & Hget & _).
  rewrite drawn_insert in Ht, Hall.
  destruct (Z.eqb_spec (p_raw bp) p) as [Hp|Hp].
  - pose proof (Hget _ _ _ _ Hp Hg) as Hsz'. rewrite Hsz', Z.eqb_refl in Ht, Hall.
    replace (drawn c p size) with u by (unfold u; by rewrite Hp, Hsz').
    split; [lia|]. split; [lia|]. intros Hlt. rewrite Hall by lia. lia.
  - split; [lia|]. split; [lia|]. intros Hlt. rewrite Hall by lia. lia.
Qed.

(** ** The engine *)

(** The account of the levels an order of side [side] meets. *)
Definition side_consumption self (side : OrderSide) : Consumption :=
  match side with
  | Buy => me_ask_consumption self
  | Sell => me_bid_consumption self
  | NoOrderSide => []
  end.
(** The levels the fills of a call are taken from, with the volumes. *)
Definition taken_levels self fills (side : OrderSide) (leaves : Quantity)
    (book_prices : option (list Price)) : list (Z * Z) :=
  match consume_trace (E := unit) (me_book self) side book_prices 0 fills
          (side_consumption self side) (q_raw leaves) with
  | Ok (_, tr) => tr
  | _ => []
  end.
Definition engine_consumption_ok self : Prop :=
  consumption_ok (me_bid_consumption self) /\ consumption_ok (me_ask_consumption self).

(** One call: the fills are the volumes taken from the levels, no more than the
    order has left; a level gives at most what is left of it, and all of that or
    all it is asked for when the order stays unfilled. *)
Lemma apply_consumption_correct self fills side leaves book_prices self' fs :
  cfg_liquidity_consumption (me_config self) = true -> side <> NoOrderSide ->
  engine_consumption_ok self -> raw_ok leaves -> Forall (fun f => raw_ok f.2) fills ->
  apply_liquidity_consumption (E := unit) self fills side leaves book_prices = Ok (self', fs) ->
  let tr := taken_levels self fills side leaves book_prices in
  engine_consumption_ok self' /\ snd <$> tr = volumes fs /\ 0 <= sum_list (volumes fs) <= q_raw leaves /\
  forall p size, size_is (me_book self) side p size ->
    let before := drawn (side_consumption self side) p size in
    0 <= taken_at p tr <= size - before /\
    drawn (side_consumption self' side) p size = before + taken_at p tr /\
    (sum_list (volumes fs) < q_raw leaves ->
     taken_at p tr = Z.min (size - before) (requested book_prices 0 fills p)).
Proof.
  intros Hcfg Hside [Hb Ha] Hl Hf Hap.
  assert (Hloop : exists c',
    consume_loop (E := unit) (me_book self) side book_prices 0 fills (side_consumption self side)
      (q_raw leaves) = Ok (c', fs) /\
    side_consumption self' side = c' /\ (consumption_ok c' -> engine_consumption_ok self')).
  { unfold apply_liquidity_consumption in Hap. rewrite Hcfg in Hap. cbn [negb] in Hap.
    destruct side; [done|..]; apply bind_Ok_inv in Hap as ([c' fs'] & Hc & [= <- <-]); by exists c'. }
  destruct Hloop as (c' & Hloop & Hc' & Hok').
  assert (Hc : consumption_ok (side_consumption self side)) by (by destruct side).
  apply consume_loop_trace in Hloop as (tr & Htr & Hv); [|done..].
  unfold taken_levels. rewrite Htr. cbn zeta.
  destruct (consume_trace_correct _ _ _ 0 0 _ _ _ _ _ _ Hf Hc Hl Htr) as (Hok & Hsum & _).
  rewrite Hv in Hsum. split_and!; [by apply Hok'|done|lia|lia|]. intros p size Hsz.
  destruct (consume_trace_correct _ _ _ p size _ _ _ _ _ _ Hf Hc Hl Htr) as (_ & _ & (Ht & Ht0 & Hall)); [done|].
  rewrite Hc', Hv in *. pose proof (drawn_range c' p size Hok (proj1 (proj1 Hsz))).
  split; [lia|]. split; [lia|]. intros Hlt. specialize (Hall Hlt). lia.
Qed.

(** *** Trades that reach the book *)

Lemma seed_loop_correct p size levels : forall c remaining,
  consumption_ok c -> 0 <= remaining <= RAW_MAX ->
  consumption_ok (seed_loop levels c remaining) /\
  (Forall (fun l => p_raw (bp_value (lv_price l)) = p -> size_raw l = size) levels ->
   drawn c p size <= drawn (seed_loop levels c remaining) p size).
Proof.
  induction levels as [|l levels IH]; intros c r Hc Hr; cbn [seed_loop]; [done|].
  destruct (Z.eqb_spec r 0); [done|].
  rewrite consumption_entry_eq. cbn beta iota zeta. set (q := p_raw (bp_value (lv_price l))) in *.
  pose proof (size_raw_range l) as Hs. pose proof (drawn_range c q (size_raw l) Hc (proj1 Hs)) as Hu.
  set (u := drawn c q (size_raw l)) in *. rewrite raw_saturating_sub_eq by lia.
  set (v := Z.min r (Z.max 0 (size_raw l - u))).
  assert (Hv : 0 <= v <= r /\ v <= size_raw l - u) by lia.
  rewrite raw_sub_eq, raw_add_eq by lia.
  destruct (IH (im_insert q (size_raw l, u + v) c) (r - v)) as [H1 H2];
    [apply consumption_insert; [done|lia..]|lia|].
  split; [done|]. intros Hf. apply Forall_cons in Hf as [Hl Hf]. specialize (H2 Hf).
  rewrite drawn_insert in H2. destruct (Z.eqb_spec q p) as [Hp|]; [|lia].
  rewrite (proj2 (Z.eqb_eq _ _) (Hl Hp)) in H2.
  assert (u = drawn c p size) by (unfold u; by rewrite Hp, (Hl Hp)). lia.
Qed.

Lemma take_while_Forall {A} (P : A -> Prop) f l : Forall P l -> Forall P (take_while f l).
Proof. induction 1 as [|x l Hx _ IH]; cbn; [constructor|]. destruct (f x); by constructor. Qed.

Lemma seed_trade_correct self price size ts aggressor side p lsize :
  engine_consumption_ok self -> 0 <= size <= RAW_MAX -> size_is (me_book self) side p lsize ->
  let self' := seed_trade_consumption self price size ts aggressor in
  engine_consumption_ok self' /\
  drawn (side_consumption self side) p lsize <= drawn (side_consumption self' side) p lsize.
Proof.
  intros [Hb Ha] Hsz (Hs & _ & Hlev). unfold seed_trade_consumption.
  destruct (size =? 0); [done|]. destruct (_ <? _); [done|].
  destruct aggressor; cbn zeta; [done|..].
  - destruct (seed_loop_correct p lsize (take_while (fun l => p_raw (bp_value (lv_price l)) <=? price)
      (levels_of (ob_asks (me_book self)))) _ size Ha Hsz) as [H1 H2].
    split; [done|]. destruct side; cbn; [done| |lia]. by apply H2, take_while_Forall.
  - destruct (seed_loop_correct p lsize (take_while (fun l => price <=? p_raw (bp_value (lv_price l)))
      (levels_of (ob_bids (me_book self)))) _ size Hb Hsz) as [H1 H2].
    split; [done|]. destruct side; cbn; [done|lia|]. by apply H2, take_while_Forall.
Qed.

(** ** Histories *)

(** A history in which the book keeps the level an order of side [side] meets
    at [p] at [size], with the volume the fills take from that level.  Orders
    of either side and trades come in any order, and anything but the two
    accounts may change in between. *)
Inductive liquidity_run (side : OrderSide) (p size : Z) : Engine -> Z -> Engine -> Prop :=
  | liq_done self : liquidity_run side p size self 0 self
  | liq_other self self1 n self2 :
      me_bid_consumption self1 = me_bid_consumption self ->
      me_ask_consumption self1 = me_ask_consumption self -> me_config self1 = me_config self ->
      liquidity_run side p size self1 n self2 -> liquidity_run side p size self n self2
  | liq_order self fills side0 leaves book_prices self1 fs n self2 :
      size_is (me_book self) side p size -> raw_ok leaves -> Forall (fun f => raw_ok f.2) fills ->
      apply_liquidity_consumption (E := unit) self fills side0 leaves book_prices = Ok (self1, fs) ->
      liquidity_run side p size self1 n self2 ->
      liquidity_run side p size self
        ((if bool_decide (side0 = side)
          then taken_at p (taken_levels self fills side0 leaves book_prices) else 0) + n) self2
  | liq_trade self price tsize ts aggressor n self2 :
      size_is (me_book self) side p size -> 0 <= tsize <= RAW_MAX ->
      liquidity_run side p size (seed_trade_consumption self price tsize ts aggressor) n self2 ->
      liquidity_run side p size self n self2.

Lemma seed_config self price size ts aggressor :
  me_config (seed_trade_consumption self price size ts aggressor) = me_config self.
Proof. unfold seed_trade_consumption. by repeat case_match. Qed.
Lemma apply_consumption_frame {E} self fills side leaves book_prices self' fs :
  apply_liquidity_consumption (E := E) self fills side leaves book_prices = Ok (self', fs) ->
  me_config self' = me_config self /\
  forall s, s <> side -> side_consumption self' s = side_consumption self s.
Proof.
  unfold apply_liquidity_consumption. destruct (negb _); [by intros [= <- <-]|].
  destruct side; [by intros [= <- <-]|..];
    intros ([c' fs'] & _ & [= <- <-])%bind_Ok_inv; (split; [done|]; by intros []).
Qed.

Lemma apply_consumption_ok self fills side leaves book_prices self' fs :
  cfg_liquidity_consumption (me_config self) = true -> engine_consumption_ok self -> raw_ok leaves ->
  Forall (fun f => raw_ok f.2) fills ->
  apply_liquidity_consumption (E := unit) self fills side leaves book_prices = Ok (self', fs) ->
  engine_consumption_ok self'.
Proof.
  intros Hcfg Hok Hl Hf Hap. destruct (decide (side = NoOrderSide)) as [->|Hn].
  - unfold apply_liquidity_consumption in Hap. rewrite Hcfg in Hap. by injection Hap as <- <-.
  - by apply apply_consumption_correct in Hap as [H _].
Qed.

Lemma liquidity_run_correct side p size self n self' : side <> NoOrderSide ->
  cfg_liquidity_consumption (me_config self) = true -> engine_consumption_ok self ->
  liquidity_run side p size self n self' ->
  0 <= n /\ engine_consumption_ok self' /\ cfg_liquidity_consumption (me_config self') = true /\
  drawn (side_consumption self side) p size + n <= drawn (side_consumption self' side) p size.
Proof.
  intros Hside Hcfg Hok Hrun. induction Hrun as [self|self self1 n self2 E1 E2 E3 _ IH|
    self fills side0 leaves book_prices self1 fs n self2 Hsz Hl Hf Hap _ IH|
    self price tsize ts aggressor n self2 Hsz Ht _ IH].
  - split_and!; try done; lia.
  - unfold engine_consumption_ok in *. rewrite E1, E2, E3 in IH.
    replace (side_consumption self1 side) with (side_consumption self side) in IH
      by (destruct side; cbn; congruence). by apply IH.
  - apply apply_consumption_frame in Hap as Hfr. destruct Hfr as [Hcf Hfr]. rewrite Hcf in IH.
    apply apply_consumption_ok in Hap as H1; [|done..].
    destruct (IH Hcfg H1) as (Hn & Hok2 & Hcfg2 & Hle). clear IH.
    case_bool_decide as Hs; [|rewrite Hfr in Hle by congruence; split_and!; try done; lia].
    rewrite <- Hs in *.
    apply apply_consumption_correct in Hap as (_ & _ & _ & H2); [|done..].
    destruct (H2 p size Hsz) as (H3 & H4 & _). split_and!; try done; lia.
  - destruct (seed_trade_correct self price tsize ts aggressor side p size Hok Ht Hsz) as [H1 H2].
    rewrite seed_config in IH. destruct (IH Hcfg H1) as (? & ? & ? & ?). split_and!; try done; lia.
Qed.

(** ** The call returns *)

(** Sizes a [Quantity] can hold: of a request, and of the levels of a book. *)
Definition qty_fits (q : Quantity) : Prop :=
  0 <= q_raw q <= QUANTITY_RAW_MAX /\ 0 <= q_precision q <= FIXED_PRECISION.
Definition levels_fit (book : OrderBook) : Prop :=
  forall s, Forall (fun kv => size_raw kv.2 <= QUANTITY_RAW_MAX) (ld_levels (opposite_ladder book s)).

Lemma quantity_at_level_returns {E} book s price prec :
  book_ladders_ok book -> levels_fit book -> 0 <= prec <= FIXED_PRECISION ->
  exists q, get_quantity_at_level (E := E) book price (as_order_side s) prec = Ok q.
Proof.
  intros Hb Hf Hp. destruct (Hb s) as [Hok Hside]. unfold get_quantity_at_level.
  rewrite (proj2 (as_specified_Ok _ s) eq_refl). cbn [mbind outcome_bind]. cbn zeta.
  rewrite levels_get_Ok, qty_zero_Ok by done. cbn [mbind outcome_bind].
  destruct (bt_get _ _ _) as [lv|] eqn:Hg; [|by eexists].
  apply levels_get_elem in Hg as (k & Hin & _); [|done..].
  specialize (Hf s). rewrite Forall_forall in Hf. pose proof (Hf _ Hin) as Hle. cbn in Hle.
  pose proof (size_raw_range lv). rewrite qty_from_raw_fits by lia. by eexists.
Qed.

Lemma consume_loop_returns {E} book s book_prices fills : forall idx c remaining,
  book_ladders_ok book -> levels_fit book -> Forall (fun f => qty_fits f.2) fills -> 0 <= remaining ->
  exists r, consume_loop (E := E) book (as_order_side s) book_prices idx fills c remaining = Ok r.
Proof.
  induction fills as [|[price qty] fills IH]; intros idx c remaining Hb Hf Hq Hr; cbn [consume_loop];
    [by eexists|].
  apply Forall_cons in Hq as [[Hqr Hqp] Hq]. destruct (remaining =? 0); [by eexists|]. cbn zeta.
  destruct (quantity_at_level_returns (E := E) book s
    (default price (book_prices ≫= fun bp => bp !! idx)) (q_precision qty)) as [size ->]; [done..|].
  cbn [mbind outcome_bind]. destruct (consumption_entry _ _ _) as [o k].
  set (v := Z.min (Z.min (q_raw qty) (raw_saturating_sub o k)) remaining).
  destruct (raw_saturating_sub o k =? 0); [by apply IH|]. destruct (Z.eqb_spec v 0) as [|Hv]; [by apply IH|].
  pose proof (saturate_in_ty QuantityRaw (o - k)) as Hs%qty_in_ty. fold (raw_saturating_sub o k) in Hs.
  rewrite qty_from_raw_fits by (cbn in Hqr, Hqp; lia). cbn [mbind outcome_bind].
  match goal with |- context [consume_loop book _ _ (S idx) fills ?c' ?r'] =>
    destruct (IH (S idx) c' r') as [[c1 fs] ->]; [done..| |by eexists] end.
  apply qty_in_ty, wrap_in_ty.
Qed.

(** C23: with liquidity consumption on, as long as the book keeps a level at
    [size], the fills taken from it over any history of orders and trades stay
    within [size].  The next order always gets an answer: the fills it is given
    are the volumes taken from the levels it asks for and no more together than
    it has left; and if it stays unfilled the level has given all it had left or
    all that was asked.  The book's ladders satisfy their invariant and volumes
    fit the raw type. *)
Theorem liquidity_bounded s p size self n self1 fills leaves book_prices :
  let side := as_order_side s in
  cfg_liquidity_consumption (me_config self) = true ->
  engine_consumption_ok self -> liquidity_run side p size self n self1 ->
  size_is (me_book self1) side p size -> book_ladders_ok (me_book self1) -> levels_fit (me_book self1) ->
  raw_ok leaves -> Forall (fun f => qty_fits f.2) fills ->
  exists self2 fs,
    apply_liquidity_consumption (E := unit) self1 fills side leaves book_prices = Ok (self2, fs) /\
    let tr := taken_levels self1 fills side leaves book_prices in
    0 <= n /\ 0 <= taken_at p tr /\
    drawn (side_consumption self side) p size + n + taken_at p tr <= size /\
    snd <$> tr = volumes fs /\ 0 <= sum_list (volumes fs) <= q_raw leaves /\
    (sum_list (volumes fs) < q_raw leaves ->
     taken_at p tr = Z.min (size - drawn (side_consumption self1 side) p size)
                       (requested book_prices 0 fills p)).
Proof.
  intros side Hcfg Hok Hrun Hsz Hb Hlf Hl Hf. assert (Hside : side <> NoOrderSide) by (by destruct s).
  destruct (liquidity_run_correct _ _ _ _ _ _ Hside Hcfg Hok Hrun) as (Hn & Hok1 & Hcfg1 & Hle).
  assert (Hret : exists r,
    apply_liquidity_consumption (E := unit) self1 fills side leaves book_prices = Ok r).
  { unfold apply_liquidity_consumption. rewrite Hcfg1. destruct Hl as [Hl _].
    destruct (consume_loop_returns (E := unit) (me_book self1) s book_prices fills 0
      (side_consumption self1 side) (q_raw leaves)) as [[c fs] Hc]; [done..|].
    unfold side in *. destruct s; cbn in Hc |- *; rewrite Hc; by eexists. }
  destruct Hret as [[self2 fs] Hap]. exists self2, fs. split; [done|].
  assert (Hf' : Forall (fun f => raw_ok f.2) fills).
  { eapply Forall_impl; [exact Hf|]. intros f [H _]. pose proof qty_limits. unfold raw_ok, QUANTITY_UNDEF in *. lia. }
  destruct (apply_consumption_correct _ _ _ _ _ _ _ Hcfg1 Hside Hok1 Hl Hf' Hap) as (_ & Hv & Hs & H).
  destruct (H p size Hsz) as (H1 & _ & H2). cbn zeta. split_and!; try done; lia.
Qed.
End Liquidity.
