(* ===== verification/EngineFills.v ===== *)
(** * Prices and volumes of fills

    How the matching engine ([crates/execution/src/matching_engine/engine.rs])
    determines the fills of a limit or a market order from its book, and the
    protection price of market orders ([crates/execution/src/protection.rs]).
    The books a fill model simulates are not part of this file. *)

From stdpp Require Import base numbers list gmap strings.
From Stdlib Require Import ZArith Lia.
From S2P Require Import Prelude F64 Fixed Price Quantity Money Enums Maps OrderEvents OrderCore Orders OrderLife Ladder LadderInv Book MatchingCore CacheIndex Cache MatchingEngine EngineQueue EngineHistory EngineLiquidity.

Inductive ProtectionError : Type := ProtectionOrderType | AskRequired | BidRequired.

Section EngineFills.
Context `{M : Mode} `{B : BookOrderApi} `{D : BookDataApi} {Dec : Type}.
Abbreviation Engine := (OrderMatchingEngine Dec).
Abbreviation Fills := (list (Price * Quantity)).
Implicit Types (self : Engine) (order : OrderAny Dec) (fills : Fills).

(** ** Protection *)

Definition protection_price_calculate (price_increment : Price) order (protection_points : Z)
    (bid ask : option Price) : outcome ProtectionError Price :=
  _ ← err_if (negb (bool_decide (o_order_type (any_core order) = Market)
                    || bool_decide (o_order_type (any_core order) = StopMarket))) ProtectionOrderType;
  let offset_raw := wrap PriceRaw (protection_points * p_raw price_increment) in
  side ← as_specified (side_of order);
  protection_raw ←
    match side with
    | SBuy => opposite ← ok_or ask AskRequired; Ok (wrap PriceRaw (p_raw opposite + offset_raw))
    | SSell => opposite ← ok_or bid BidRequired; Ok (wrap PriceRaw (p_raw opposite - offset_raw))
    end;
  price_from_raw protection_raw (p_precision price_increment).

Definition filter_fills_by_protection fills order (protection_price : Price) : Fills :=
  List.filter (fun f =>
    match side_of order with
    | Buy => p_raw f.1 <=? p_raw protection_price
    | Sell => p_raw protection_price <=? p_raw f.1
    | NoOrderSide => false
    end) fills.

(** ** Limit orders *)

Definition liquidity_is (l : LiquiditySide) order : bool :=
  bool_decide (o_liquidity_side (any_core order) = Some l).

(** The targets to restore, then the side the price is matched against and the
    last price moved to [px]. *)
Definition save_targets self : Engine :=
  self <| me_target_bid := mc_bid (me_core self) |> <| me_target_ask := mc_ask (me_core self) |>
       <| me_target_last := mc_last (me_core self) |>.
Definition move_ask self (px : Price) : Engine :=
  let self := save_targets self in
  self <| me_core := set_last_raw (set_ask_raw (me_core self) px) px |>.
Definition move_bid self (px : Price) : Engine :=
  let self := save_targets self in
  self <| me_core := set_last_raw (set_bid_raw (me_core self) px) px |>.

(** [min] on quantities. *)
Definition qty_min (a b : Quantity) : Quantity := if qty_leb a b then a else b.

(** A fill at the limit price from the trade being processed, when the book
    does not have its price. *)
Definition trade_driven_fill {E} self order (order_price : Price) fills
  : outcome E (option (Engine * Quantity)) :=
  match me_last_trade_size self, mc_last (me_core self) with
  | Some trade_size, Some trade_price =>
      if existsb (fun f => price_eqb f.1 trade_price) fills then Ok None
      else
        side ← as_specified (side_of order);
        if negb (is_limit_matched (me_core self) side order_price) then Ok None
        else
          available_qty ←
            (if cfg_liquidity_consumption (me_config self)
             then qty_from_raw (raw_saturating_sub (q_raw trade_size) (me_trade_consumption self))
                    (q_precision trade_size)
             else Ok trade_size);
          let fill_qty := qty_min (o_leaves_qty (any_core order)) available_qty in
          if qty_is_zero fill_qty then Ok None
          else
            let self :=
              if cfg_liquidity_consumption (me_config self)
              then self <| me_trade_consumption :=
                     raw_add (me_trade_consumption self) (q_raw fill_qty) |>
              else self in
            Ok (Some (self, fill_qty))
  | _, _ => Ok None
  end.

(** Filling as taker from a trigger: the first fill is moved to the trigger
    price. *)
Definition taker_prices self order (order_price : Price) fills : Engine * Fills :=
  match any_trigger_price order, fills with
  | Some triggered_price, (_, triggered_qty) :: rest =>
      if liquidity_is Taker order then
        if bool_decide (side_of order = Sell) && price_gtb order_price triggered_price
        then (move_ask self order_price, (triggered_price, triggered_qty) :: rest)
        else if bool_decide (side_of order = Buy) && price_ltb order_price triggered_price
        then (move_bid self order_price, (triggered_price, triggered_qty) :: rest)
        else (self, fills)
      else (self, fills)
  | _, _ => (self, fills)
  end.

(** Filling as maker: a price better than the limit becomes [target_price]. *)
Fixpoint maker_loop (better : Price -> bool) (move : Engine -> Price -> Engine)
    (target_price : Price) self fills : Engine * Fills :=
  match fills with
  | [] => (self, [])
  | (last_px, qty) :: fills =>
      if better last_px then
        let '(self, fills) := maker_loop better move target_price (move self target_price) fills in
        (self, (target_price, qty) :: fills)
      else
        let '(self, fills) := maker_loop better move target_price self fills in
        (self, (last_px, qty) :: fills)
  end.
Definition maker_prices {E} self order (order_price : Price) fills : outcome E (Engine * Fills) :=
  if negb (liquidity_is Maker order) then Ok (self, fills)
  else
    side ← as_specified (side_of order);
    match side with
    | SBuy =>
        let target_price :=
          match any_trigger_price order with
          | Some t => if price_gtb order_price t then t else order_price
          | None => order_price
          end in
        Ok (maker_loop (fun px => price_ltb px order_price) move_ask target_price self fills)
    | SSell =>
        let target_price :=
          match any_trigger_price order with
          | Some t => if price_ltb order_price t then t else order_price
          | None => order_price
          end in
        Ok (maker_loop (fun px => price_gtb px order_price) move_bid target_price self fills)
    end.

Definition limit_book_fills {E} self order (order_price : Price) : outcome E Fills :=
  if cfg_liquidity_consumption (me_config self)
  then get_all_crossed_levels (me_book self) (side_of order) order_price (me_size_precision self)
  else book_simulate_fills (me_book self)
         (book_order_new (side_of order) order_price (o_quantity (any_core order)) 1).

Definition determine_limit_price_and_volume {E} self order : outcome E (Engine * Fills) :=
  match any_price order with
  | None => Panic
  | Some order_price =>
      fills ← limit_book_fills self order order_price;
      trade ← trade_driven_fill self order order_price fills;
      match trade with
      | Some (self, fill_qty) => Ok (self, [(order_price, fill_qty)])
      | None =>
          match fills with
          | [] => Ok (self, [])
          | _ =>
              let book_prices :=
                if cfg_liquidity_consumption (me_config self) then Some (fst <$> fills) else None in
              let '(self, fills) := taker_prices self order order_price fills in
              '(self, fills) ← maker_prices self order order_price fills;
              apply_liquidity_consumption self fills (side_of order)
                (o_leaves_qty (any_core order)) book_prices
          end
      end
  end.

(** ** Market orders *)

Definition is_trigger_market order : bool :=
  match o_order_type (any_core order) with
  | StopMarket | TrailingStopMarket | MarketIfTouched => true
  | _ => false
  end.

Fixpoint cap_to_leaves {E} fills (remaining_qty : Z) : outcome E Fills :=
  match fills with
  | [] => Ok []
  | (price, qty) :: fills =>
      if remaining_qty =? 0 then Ok []
      else
        let capped_qty_raw := Z.min (q_raw qty) remaining_qty in
        if capped_qty_raw =? 0 then cap_to_leaves fills remaining_qty
        else
          q ← qty_from_raw capped_qty_raw (q_precision qty);
          rest ← cap_to_leaves fills (raw_sub remaining_qty capped_qty_raw);
          Ok ((price, q) :: rest)
  end.

Definition determine_market_price_and_volume {E} self order : outcome E Fills :=
  side ← as_specified (side_of order);
  price ← match side with SBuy => price_max FIXED_PRECISION | SSell => price_min FIXED_PRECISION end;
  fills ←
    (if cfg_liquidity_consumption (me_config self)
     then get_all_crossed_levels (me_book self) (side_of order) price (me_size_precision self)
     else book_simulate_fills (me_book self)
            (book_order_new (side_of order) price (o_quantity (any_core order)) 0));
  match fills, any_trigger_price order with
  | (_, qty) :: rest, Some trigger_price =>
      if negb (me_fill_at_market self) && bool_decide (me_book_type self = L1_MBP)
         && is_trigger_market order
      then cap_to_leaves ((trigger_price, qty) :: rest) (q_raw (o_leaves_qty (any_core order)))
      else Ok fills
  | _, _ => Ok fills
  end.

(** ** The price a fill is applied at

    [apply_fills] drops a price that is not on the instrument's grid and may slip
    the price by one increment on an L1 book; [slipped] is the fill model's answer. *)

Definition price_matches_precision (price : Price) (precision : Z) : bool :=
  Z.rem (p_raw price) (10 ^ Z.max 0 (FIXED_PRECISION - precision)) =? 0.
Definition price_matches_tick (price increment : Price) : bool :=
  let increment_raw := Z.abs (p_raw increment) in
  (increment_raw =? 0) || (Z.rem (p_raw price) increment_raw =? 0).
Definition normalize_price_for_current_instrument {E} self (price_precision : Z) (price : Price)
  : outcome E (option Price) :=
  if negb (price_matches_precision price price_precision && price_matches_tick price (me_price_increment self))
  then Ok None
  else p ← price_from_raw (p_raw price) price_precision; Ok (Some p).
Definition fill_price {E} self order (price_precision : Z) (slipped : bool) (fill_px : Price)
  : outcome E (option Price) :=
  normalized ← normalize_price_for_current_instrument self price_precision fill_px;
  match normalized with
  | None => Ok None
  | Some fill_px =>
      if bool_decide (me_book_type self = L1_MBP) && slipped then
        side ← as_specified (side_of order);
        p ← match side with
            | SBuy => price_add fill_px (me_price_increment self)
            | SSell => price_sub fill_px (me_price_increment self)
            end;
        Ok (Some p)
      else Ok (Some fill_px)
  end.

(** ** Prices no worse than the limit *)

Definition no_worse (side : OrderSide) (limit price : Price) : Prop :=
  match side with
  | Buy => p_raw price <= p_raw limit
  | Sell => p_raw limit <= p_raw price
  | NoOrderSide => True
  end.
Abbreviation all_no_worse := (fun side limit (fills : list (Price * Quantity)) =>
  Forall (fun f => no_worse side limit f.1) fills).

(** A taker order whose limit lies on the far side of its trigger. *)
Definition inverted order (limit : Price) : bool :=
  liquidity_is Taker order &&
  match any_trigger_price order, side_of order with
  | Some t, Sell => price_gtb limit t
  | Some t, Buy => price_ltb limit t
  | _, _ => false
  end.

Lemma crossed_levels_no_worse {E} book side price prec fills :
  book_ladders_ok book -> get_all_crossed_levels (E := E) book side price prec = Ok fills ->
  all_no_worse side price fills /\ Forall (fun f => raw_ok f.2) fills.
Proof.
  intros Hb. unfold get_all_crossed_levels. intros (s & Hs%as_specified_Ok & H)%bind_Ok_inv. subst side.
  pose proof (ladder_levels_ok book s Hb) as Hlv. revert fills H.
  induction Hlv as [|[bp lv] m Hk _ IH]; intros fills; cbn [get_levels_for_price];
    [intros [= <-]; by split|].
  destruct (out_of_reach s price bp) eqn:Hr; [intros [= <-]; by split|].
  intros (z & _ & H)%bind_Ok_inv. apply bind_Ok_inv in H as (q & Hq%qty_new_range & H).
  apply bind_Ok_inv in H as (rest & Hrest%IH & [= <-]). destruct Hrest as [H1 H2].
  cbn [fst snd] in Hk. split; constructor; try done. cbn [fst]. rewrite (lk_price _ _ _ Hk).
  destruct s; cbn in Hr |- *; unfold price_gtb, price_ltb in Hr; apply Z.ltb_ge in Hr; lia.
Qed.

Lemma fill_orders_prices {E} (P : Price -> Prop) os : forall cum target fills c fin,
  Forall (fun o => P (bo_price o)) os -> fill_orders (E := E) os cum target = Ok (fills, c, fin) ->
  Forall (fun f => P f.1) fills.
Proof.
  induction os as [|o os IH]; intros cum target fills c fin Hf; cbn [fill_orders].
  { intros [= <- <- <-]. constructor. }
  apply Forall_cons in Hf as [Ho Hf]. intros (n & _ & H)%bind_Ok_inv. destruct (qty_geb n target).
  - apply bind_Ok_inv in H as (r & _ & [= <- <- <-]). destruct (qty_is_positive r); by repeat constructor.
  - apply bind_Ok_inv in H as ([[fs c'] fin'] & H & [= <- <- <-]). constructor; [done|]. by eapply IH.
Qed.

Lemma simulate_fills_no_worse {E} book side price q id fills :
  book_ladders_ok book ->
  book_simulate_fills (E := E) book (mkBookOrder side price q id) = Ok fills ->
  all_no_worse side price fills.
Proof.
  intros Hb. unfold book_simulate_fills, simulate_fills. intros (s & Hs%as_specified_Ok & H)%bind_Ok_inv.
  cbn in Hs. subst side. apply bind_Ok_inv in H as (z & _ & H).
  pose proof (ladder_levels_ok book s Hb) as Hlv. destruct (Hb s) as [_ Hside].
  rewrite Hside in H. clear Hside Hb. revert z fills H.
  induction Hlv as [|[k lv] m Hk _ IH]; intros z fills; cbn [fill_levels].
  { intros [= <-]. constructor. }
  cbn [fst snd] in Hk. rewrite (lk_price _ _ _ Hk). cbn [bo_price bo_size].
  destruct (_ || _) eqn:Hr; [intros [= <-]; constructor|].
  assert (Hp : no_worse (as_order_side s) price (bp_value k)).
  { destruct s; cbn in Hr |- *; rewrite ?orb_false_r in Hr; by apply Z.ltb_ge in Hr. }
  assert (Hos : Forall (fun o => no_worse (as_order_side s) price (bo_price o)) (get_orders lv)).
  { unfold get_orders. apply Forall_fmap. eapply Forall_impl; [exact (lk_orders _ _ _ Hk)|].
    intros [i o] (_ & Ho & _). cbn in Ho |- *. unfold no_worse in *. rewrite Ho. done. }
  intros ([[fs c] fin] & Hfs & H)%bind_Ok_inv.
  apply (fill_orders_prices (no_worse (as_order_side s) price)) in Hfs; [|exact Hos].
  destruct fin; [by injection H as <-|]. apply bind_Ok_inv in H as (rest & Hrest%IH & [= <-]).
  by apply Forall_app.
Qed.

(** *** The adjustments *)

Lemma consume_loop_prices {E} (P : Price -> Prop) book side bps fills : forall idx c r c' fs,
  Forall (fun f => P f.1) fills ->
  consume_loop (E := E) book side bps idx fills c r = Ok (c', fs) -> Forall (fun f => P f.1) fs.
Proof.
  induction fills as [|[price qty] fills IH]; intros idx c r c' fs Hf; cbn [consume_loop].
  { intros [= <- <-]. constructor. }
  apply Forall_cons in Hf as [Hp Hf]. destruct (r =? 0); [intros [= <- <-]; constructor|]. cbn zeta.
  intros (sz & _ & H)%bind_Ok_inv. destruct (consumption_entry _ _ _) as [o k].
  destruct (_ =? 0); [by apply IH in H|]. destruct (_ =? 0); [by apply IH in H|].
  apply bind_Ok_inv in H as (q & _ & H). apply bind_Ok_inv in H as ([c1 rest] & H & [= <- <-]).
  constructor; [done|]. by apply IH in H.
Qed.
Lemma apply_consumption_prices {E} (P : Price -> Prop) self fills side leaves bps self' fs :
  Forall (fun f => P f.1) fills ->
  apply_liquidity_consumption (E := E) self fills side leaves bps = Ok (self', fs) ->
  Forall (fun f => P f.1) fs.
Proof.
  intros Hf. unfold apply_liquidity_consumption. destruct (negb _); [by intros [= <- <-]|].
  destruct side; [by intros [= <- <-]|..];
    intros ([c' fs'] & H & [= <- <-])%bind_Ok_inv; by apply (consume_loop_prices P) in H.
Qed.

Lemma maker_loop_prices (P : Price -> Prop) better move target fills : forall self,
  P target -> Forall (fun f => P f.1) fills ->
  Forall (fun f => P f.1) (maker_loop better move target self fills).2.
Proof.
  induction fills as [|[px q] fills IH]; intros self Ht Hf; cbn; [constructor|].
  apply Forall_cons in Hf as [Hp Hf].
  destruct (better px); match goal with |- context [maker_loop better move target ?s fills] =>
    specialize (IH s Ht Hf); destruct (maker_loop better move target s fills) end; by constructor.
Qed.
Lemma maker_loop_volumes better move target fills : forall self,
  volumes (maker_loop better move target self fills).2 = volumes fills.
Proof.
  induction fills as [|[px q] fills IH]; intros self; cbn; [done|].
  destruct (better px); match goal with |- context [maker_loop better move target ?s fills] =>
    specialize (IH s); destruct (maker_loop better move target s fills) end; cbn in *;
    unfold volumes in *; cbn; by rewrite IH.
Qed.

(** The adjusted prices are no worse than the limit, unless the order is an
    inverted taker; volumes do not change. *)
Lemma taker_prices_ok self order limit fills :
  inverted order limit = false -> taker_prices self order limit fills = (self, fills).
Proof.
  unfold inverted, taker_prices. intros Hi. destruct (any_trigger_price order) as [t|]; [|done].
  destruct fills as [|[px q] rest]; [done|]. destruct (liquidity_is Taker order); [|done].
  cbn in Hi. destruct (side_of order); cbn; [done|..]; by rewrite Hi.
Qed.
Lemma maker_prices_ok {E} self order limit fills self' fills' :
  all_no_worse (side_of order) limit fills ->
  maker_prices (E := E) self order limit fills = Ok (self', fills') ->
  all_no_worse (side_of order) limit fills' /\ volumes fills' = volumes fills.
Proof.
  intros Hf. unfold maker_prices. destruct (negb _); [by intros [= <- <-]|].
  intros (s & Hs%as_specified_Ok & H)%bind_Ok_inv. rewrite Hs in *.
  destruct s; cbn [as_order_side] in *; injection H as H; rewrite (surjective_pairing (maker_loop _ _ _ _ _)) in H;
    injection H as <- <-; (split; [|apply maker_loop_volumes]);
    (apply (maker_loop_prices (no_worse _ limit)); [|done]);
    destruct (any_trigger_price order) as [t|]; cbn; try lia.
  - destruct (price_gtb limit t) eqn:Ht; [apply Z.ltb_lt in Ht|]; lia.
  - destruct (price_ltb limit t) eqn:Ht; [apply Z.ltb_lt in Ht|]; lia.
Qed.

(** The adjustments leave the accounts of the book alone. *)
Definition same_accounts self self' : Prop :=
  me_config self' = me_config self /\ me_bid_consumption self' = me_bid_consumption self /\
  me_ask_consumption self' = me_ask_consumption self /\ me_book self' = me_book self.
Lemma maker_loop_frame better move target fills : forall self,
  (forall s p, same_accounts s (move s p)) ->
  same_accounts self (maker_loop better move target self fills).1.
Proof.
  induction fills as [|[px q] fills IH]; intros self Hm; cbn; [done|].
  destruct (better px); match goal with |- context [maker_loop better move target ?s fills] =>
    specialize (IH s Hm); destruct (maker_loop better move target s fills) end; [|done].
  destruct (Hm self target) as (? & ? & ? & ?), IH as (? & ? & ? & ?). cbn in *.
  unfold same_accounts. split_and!; congruence.
Qed.
Lemma maker_prices_frame {E} self order limit fills self' fills' :
  maker_prices (E := E) self order limit fills = Ok (self', fills') -> same_accounts self self'.
Proof.
  unfold maker_prices. destruct (negb _); [by intros [= <- <-]|].
  intros (s & _ & H)%bind_Ok_inv. destruct s; injection H as H;
    match type of H with ?l = _ => pose proof (f_equal fst H) as Hf end; cbn [fst] in Hf; subst self';
    by apply maker_loop_frame.
Qed.

Lemma trade_driven_fill_ok {E} self order limit fills self' q :
  trade_driven_fill (E := E) self order limit fills = Ok (Some (self', q)) ->
  raw_ok (o_leaves_qty (any_core order)) ->
  cfg_liquidity_consumption (me_config self) = true -> 0 <= q_raw q <= q_raw (o_leaves_qty (any_core order)).
Proof.
  unfold trade_driven_fill. intros H [Hl _] Hc. rewrite Hc in H.
  destruct (me_last_trade_size self) as [ts|]; [|done]. destruct (mc_last (me_core self)); [|done].
  destruct (existsb _ _); [done|]. apply bind_Ok_inv in H as (s & _ & H).
  destruct (negb _); [done|]. apply bind_Ok_inv in H as (av & ->%qty_from_raw_Ok & H).
  cbn zeta in H. destruct (qty_is_zero _); [done|]. injection H as _ <-.
  unfold qty_min, qty_leb, raw_saturating_sub. cbn [q_raw].
  pose proof (saturate_in_ty QuantityRaw (q_raw ts - me_trade_consumption self)) as Hs%qty_in_ty.
  destruct (Z.leb_spec (q_raw (o_leaves_qty (any_core order)))
    (saturate QuantityRaw (q_raw ts - me_trade_consumption self))); cbn; lia.
Qed.

Context `{L : !BookDataLaws}.

(** Slipping moves a price by one increment, normalising by nothing. *)
Lemma fill_price_raw self order prec slipped px p :
  fill_price (E := unit) self order prec slipped px = Ok (Some p) ->
  if bool_decide (me_book_type self = L1_MBP) && slipped
  then p_raw p = p_raw px + match side_of order with Sell => - p_raw (me_price_increment self)
                                                    | _ => p_raw (me_price_increment self) end
  else p_raw p = p_raw px.
Proof.
  unfold fill_price, normalize_price_for_current_instrument. destruct (negb _); [done|].
  intros (n & (q & Hq & [= <-])%bind_Ok_inv & H)%bind_Ok_inv.
  assert (Hr : p_raw q = p_raw px).
  { unfold price_from_raw in Hq. repeat (apply bind_Ok_inv in Hq as (? & _ & Hq)). by injection Hq as <-. }
  destruct (bool_decide (me_book_type self = L1_MBP) && slipped); [|injection H as <-; done].
  apply bind_Ok_inv in H as (s & Hs%as_specified_Ok & H). apply bind_Ok_inv in H as (p' & Hp & [= <-]). rewrite Hs.
  destruct s; unfold price_add, price_sub, checked in Hp; apply bind_Ok_inv in Hp as (raw & Hc & [= <-]);
    destruct (in_ty _ _); try done; injection Hc as <-; cbn; rewrite Hr; lia.
Qed.

Lemma limit_fills_ok self order limit self' fills :
  book_ladders_ok (me_book self) -> any_price order = Some limit -> inverted order limit = false ->
  determine_limit_price_and_volume (E := unit) self order = Ok (self', fills) ->
  all_no_worse (side_of order) limit fills /\
  (cfg_liquidity_consumption (me_config self) = true -> engine_consumption_ok self ->
   raw_ok (o_leaves_qty (any_core order)) -> side_of order <> NoOrderSide ->
   0 <= sum_list (volumes fills) <= q_raw (o_leaves_qty (any_core order))).
Proof.
  intros Hb Hp Hi. unfold determine_limit_price_and_volume. rewrite Hp.
  intros (bf & Hbf & H)%bind_Ok_inv. apply bind_Ok_inv in H as (trade & Htr & H).
  assert (Hnw : all_no_worse (side_of order) limit bf /\
    (cfg_liquidity_consumption (me_config self) = true -> Forall (fun f => raw_ok f.2) bf)).
  { unfold limit_book_fills in Hbf. destruct (cfg_liquidity_consumption (me_config self)).
    - apply crossed_levels_no_worse in Hbf as [? ?]; done.
    - rewrite book_order_new_eq in Hbf. split; [by apply simulate_fills_no_worse in Hbf|done]. }
  destruct trade as [[s1 q]|].
  { injection H as <- <-. split; [constructor; [by destruct (side_of order); cbn|constructor]|].
    intros Hc _ Hl _. pose proof (trade_driven_fill_ok _ _ _ _ _ _ Htr Hl Hc). cbn. lia. }
  destruct bf as [|f0 bf]; [injection H as <- <-; split; [constructor|]; intros _ _ [Hl _] _; cbn; lia|].
  cbn zeta in H. rewrite taker_prices_ok in H by done. set (fs0 := f0 :: bf) in *.
  apply bind_Ok_inv in H as ([s2 fs2] & Hm & H).
  apply maker_prices_frame in Hm as Hfr. destruct Hfr as (Fc & Fb & Fa & _).
  apply maker_prices_ok in Hm as [Hm1 Hm2]; [|apply Hnw].
  split; [by apply (apply_consumption_prices (no_worse (side_of order) limit)) in H|].
  intros Hc Hok Hl Hs. apply apply_consumption_correct in H as (_ & _ & Hsum & _); try done.
  - by rewrite Fc.
  - unfold engine_consumption_ok. by rewrite Fb, Fa.
  - destruct Hnw as [_ Hr]. specialize (Hr Hc). clear -Hm2 Hr.
    assert (Hv : Forall (fun r => 0 <= r <= imax QuantityRaw) (volumes fs2)).
    { rewrite Hm2. unfold volumes. apply Forall_fmap. exact Hr. }
    unfold volumes in Hv. rewrite Forall_fmap in Hv. exact Hv.
Qed.

(** C27: for a limit order filled from the engine's own book (no book simulated by
    a fill model), with the levels of the book sorted and their orders at the
    level's price, and that does not fill as taker with its limit on the far side
    of its trigger: every fill that is determined is at the limit or better,
    whatever the book, the trade being processed and the trigger are.  The price
    apply_fills then executes it at is that price and so no worse than the limit,
    except on an L1 book when the fill model slips: then it is exactly one price
    increment worse than the determined price, also for a maker, and can be one
    increment past the limit.  With liquidity consumption on (and consistent), the fills
    together are no more than the order has left. *)
Theorem limit_fills_no_worse self order limit self' fills :
  book_ladders_ok (me_book self) -> any_price order = Some limit -> inverted order limit = false ->
  determine_limit_price_and_volume (E := unit) self order = Ok (self', fills) ->
  all_no_worse (side_of order) limit fills /\
  (forall f prec slipped p, f ∈ fills -> fill_price (E := unit) self' order prec slipped f.1 = Ok (Some p) ->
     if bool_decide (me_book_type self' = L1_MBP) && slipped
     then p_raw p = p_raw f.1 + match side_of order with Sell => - p_raw (me_price_increment self')
                                                       | _ => p_raw (me_price_increment self') end
     else no_worse (side_of order) limit p) /\
  (cfg_liquidity_consumption (me_config self) = true -> engine_consumption_ok self ->
   raw_ok (o_leaves_qty (any_core order)) -> side_of order <> NoOrderSide ->
   0 <= sum_list (volumes fills) <= q_raw (o_leaves_qty (any_core order))).
Proof.
  intros Hb Hp Hi Hd. destruct (limit_fills_ok self order limit self' fills Hb Hp Hi Hd) as [H1 H2].
  split; [done|]. split; [|done]. intros f prec slipped p Hf Hx%fill_price_raw.
  destruct (bool_decide _ && slipped); [done|]. rewrite Forall_forall in H1. specialize (H1 f Hf).
  unfold no_worse in *. rewrite Hx. done.
Qed.

(** a taker order whose limit lies on the far side of its trigger is filled
    first at the trigger price, which is worse than its limit. *)
Theorem inverted_fill_worse self order limit self' fills :
  any_price order = Some limit -> inverted order limit = true ->
  me_last_trade_size self = None -> cfg_liquidity_consumption (me_config self) = false ->
  determine_limit_price_and_volume (E := unit) self order = Ok (self', fills) -> fills <> [] ->
  exists t q rest, any_trigger_price order = Some t /\ fills = (t, q) :: rest /\
    ~ no_worse (side_of order) limit t.
Proof.
  intros Hp Hi Ht Hc. unfold determine_limit_price_and_volume. rewrite Hp.
  intros (bf & Hbf & H)%bind_Ok_inv Hne. unfold trade_driven_fill in H. rewrite Ht in H. cbn in H.
  destruct bf as [|[px q] bf]; [by injection H as <- <-|]. rewrite Hc in H.
  apply andb_true_iff in Hi as [Htk Hi]. unfold taker_prices in H. rewrite Htk in H.
  destruct (any_trigger_price order) as [t|]; [|done].
  assert (Hmk : liquidity_is Maker order = false).
  { unfold liquidity_is in *. apply bool_decide_eq_true in Htk. apply bool_decide_eq_false. congruence. }
  assert (Hmaker : forall s f, maker_prices (E := unit) s order limit f = Ok (s, f))
    by (intros; unfold maker_prices; by rewrite Hmk).
  assert (Hnc : forall (s : Engine) f d l, me_config s = me_config self ->
    apply_liquidity_consumption (E := unit) s f d l None = Ok (s, f)).
  { intros s f d l Hs. unfold apply_liquidity_consumption. by rewrite Hs, Hc. }
  destruct (side_of order) eqn:Hs; [done|..];
    [change (bool_decide (Buy = Sell)) with false in H; change (bool_decide (Buy = Buy)) with true in H
    |change (bool_decide (Sell = Sell)) with true in H];
    cbn [andb] in H; rewrite Hi in H; rewrite Hmaker in H; cbn [mbind outcome_bind] in H;
    rewrite Hnc in H by done; injection H as <- <-;
    exists t, q, bf; (split; [done|]; split; [done|]); apply Z.ltb_lt in Hi; cbn; lia.
Qed.
End EngineFills.
