(* ===== verification/Trailing.v ===== *)
(** * Trailing stops

    [crates/execution/src/trailing.rs] and the trailing-stop operations of the
    matching engine ([crates/execution/src/matching_engine/engine.rs]): the new
    trigger and limit price of an order from the market, when an order is
    activated, and the update that is sent.  An order trails: over any sequence
    of markets its trigger and its limit are the best of where they started and
    of what the markets gave. *)

From stdpp Require Import base numbers list gmap strings.
From Stdlib Require Import ZArith Lia.
From S2P Require Import Prelude F64 Fixed Price Quantity Money Enums Maps OrderEvents OrderCore Orders OrderLife Position Ladder Book MatchingCore CacheIndex Cache MatchingEngine.

Inductive TrailingError : Type :=
  | TrailOrderType | TrailNoTrigger | TrailNoOffset | TrailTriggerType | TrailOffsetType
  | TrailLastMissing | TrailBidRequired | TrailAskRequired.

Section Trailing.
Context `{M : Mode} {Dec : Type} `{DA : !DecimalApi Dec} `{U : !PositionLibs Dec} `{HI : HashIter}.
Implicit Types (order : OrderAny Dec) (side : OrderSideSpecified).

(** ** What the orders answer *)

Definition any_activation_price order : option Price :=
  match order with
  | AnyTrailingStopLimit o => tl_activation_price o
  | AnyTrailingStopMarket o => tm_activation_price o
  | _ => None
  end.
Definition any_trigger_type order : option TriggerType :=
  match order with
  | AnyLimitIfTouched o => Some (lt_trigger_type o)
  | AnyMarketIfTouched o => Some (mt_trigger_type o)
  | AnyStopLimit o => Some (sl_trigger_type o)
  | AnyStopMarket o => Some (sm_trigger_type o)
  | AnyTrailingStopLimit o => Some (tl_trigger_type o)
  | AnyTrailingStopMarket o => Some (tm_trigger_type o)
  | AnyLimit _ | AnyMarket _ | AnyMarketToLimit _ => None
  end.
Definition any_trailing_offset order : option Dec :=
  match order with
  | AnyTrailingStopLimit o => Some (tl_trailing_offset o)
  | AnyTrailingStopMarket o => Some (tm_trailing_offset o)
  | _ => None
  end.
Definition any_trailing_offset_type order : option TrailingOffsetType :=
  match order with
  | AnyTrailingStopLimit o => Some (tl_trailing_offset_type o)
  | AnyTrailingStopMarket o => Some (tm_trailing_offset_type o)
  | _ => None
  end.
Definition any_limit_offset order : option Dec :=
  match order with AnyTrailingStopLimit o => Some (tl_limit_offset o) | _ => None end.

(** ** The calculation *)

Definition better side (c p : Price) : bool :=
  match side with SBuy => price_ltb c p | SSell => price_gtb c p end.

(** [maybe_move]: the new current price, and the price if it moved. *)
Definition maybe_move side (current : option Price) (candidate : Price)
  : option Price * option Price :=
  match current with
  | Some p => if better side candidate p then (Some candidate, Some candidate) else (current, None)
  | None => (Some candidate, Some candidate)
  end.

Definition side_sign side : f64 :=
  match side with SBuy => F64.of_Z 1 | SSell => F64.opp (F64.of_Z 1) end.

(** [compute]: the offset added on the far side of [basis], rounded to a price. *)
Definition compute {E} (price_increment : Price) (offset_type : TrailingOffsetType) side (off : Dec)
    (basis : f64) : outcome E Price :=
  value ←
    match offset_type with
    | OffPrice => o ← expect (dec_to_f64 off); Ok (F64.mul_add o (side_sign side) basis)
    | BasisPoints =>
        o ← expect (dec_to_f64 off);
        let delta := F64.mul basis (F64.div o (F64.of_Z 10000)) in
        Ok (F64.mul_add delta (side_sign side) basis)
    | Ticks =>
        o ← expect (dec_to_f64 off);
        inc ← price_as_f64 price_increment;
        let delta := F64.mul o inc in
        Ok (F64.mul_add delta (side_sign side) basis)
    | NoTrailingOffset | PriceTier => Panic
    end;
  price_new value (p_precision price_increment).

Definition is_trailing_limit order : bool :=
  bool_decide (o_order_type (any_core order) = TrailingStopLimit).
Definition is_trailing order : bool :=
  bool_decide (o_order_type (any_core order) = TrailingStopMarket) || is_trailing_limit order.

(** One basis: both prices are tried. *)
Definition try_basis (price_increment : Price) (offset_type : TrailingOffsetType) side order
    (trailing_offset : Dec) (basis : Price) (trigger_price limit_price : option Price)
  : outcome TrailingError ((option Price * option Price) * (option Price * option Price)) :=
  b ← price_as_f64 basis;
  cand_trigger ← compute price_increment offset_type side trailing_offset b;
  let trigger := maybe_move side trigger_price cand_trigger in
  if is_trailing_limit order then
    limit_offset ← expect (any_limit_offset order);
    cand_limit ← compute price_increment offset_type side limit_offset b;
    Ok (trigger, maybe_move side limit_price cand_limit)
  else Ok (trigger, (limit_price, None)).

Definition or_else {A} (x y : option A) : option A := match x with Some _ => x | None => y end.

Definition trailing_stop_calculate (price_increment : Price) (trigger_px activation_px : option Price)
    order (bid ask last : option Price) : outcome TrailingError (option Price * option Price) :=
  side ← as_specified (side_of order);
  _ ← err_if (negb (is_trailing order)) TrailOrderType;
  let trigger_price :=
    or_else (or_else (or_else trigger_px (any_trigger_price order)) activation_px)
            (any_activation_price order) in
  let limit_price := if is_trailing_limit order then any_price order else None in
  trigger_type ← expect (any_trigger_type order);
  trailing_offset ← expect (any_trailing_offset order);
  offset_type ← expect (any_trailing_offset_type order);
  _ ← err_if (bool_decide (trigger_type = NoTrigger)) TrailNoTrigger;
  _ ← err_if (match offset_type with NoTrailingOffset => true | _ => false end) TrailNoOffset;
  match trigger_type with
  | LastPrice | MarkPrice =>
      last ← ok_or last TrailLastMissing;
      '((_, new_trigger), (_, new_limit)) ←
        try_basis price_increment offset_type side order trailing_offset last trigger_price limit_price;
      Ok (new_trigger, new_limit)
  | TrigDefault | BidAsk | LastOrBidAsk =>
      bid ← ok_or bid TrailBidRequired;
      ask ← ok_or ask TrailAskRequired;
      let basis := match side with SBuy => ask | SSell => bid end in
      '((trigger_price, new_trigger), (limit_price, new_limit)) ←
        try_basis price_increment offset_type side order trailing_offset basis trigger_price limit_price;
      if bool_decide (trigger_type = LastOrBidAsk) then
        last ← ok_or last TrailLastMissing;
        '((_, updated_trigger), (_, updated_limit)) ←
          try_basis price_increment offset_type side order trailing_offset last trigger_price limit_price;
        Ok (or_else updated_trigger new_trigger, or_else updated_limit new_limit)
      else Ok (new_trigger, new_limit)
  | _ => Err TrailTriggerType
  end.

(** The two calculators for a single price. *)
Definition hundredth (x : f64) : f64 := F64.div x (F64.of_Z 100).
Definition trailing_stop_calculate_with_last (price_increment : Price)
    (trailing_offset_type : TrailingOffsetType) side (offset : Dec) (last : Price)
  : outcome TrailingError Price :=
  offset_value ← expect (dec_to_f64 offset);
  last_f64 ← price_as_f64 last;
  offset_value ←
    match trailing_offset_type with
    | OffPrice => Ok offset_value
    | BasisPoints => Ok (hundredth (F64.mul last_f64 (hundredth offset_value)))
    | Ticks => inc ← price_as_f64 price_increment; Ok (F64.mul offset_value inc)
    | _ => Err TrailOffsetType
    end;
  price_new (match side with
             | SBuy => F64.add last_f64 offset_value
             | SSell => F64.sub last_f64 offset_value
             end) (p_precision price_increment).
Definition trailing_stop_calculate_with_bid_ask (price_increment : Price)
    (trailing_offset_type : TrailingOffsetType) side (offset : Dec) (bid ask : Price)
  : outcome TrailingError Price :=
  offset_value ← expect (dec_to_f64 offset);
  bid_f64 ← price_as_f64 bid;
  ask_f64 ← price_as_f64 ask;
  offset_value ←
    match trailing_offset_type with
    | OffPrice => Ok offset_value
    | BasisPoints =>
        Ok (hundredth (F64.mul (match side with SBuy => ask_f64 | SSell => bid_f64 end)
                         (hundredth offset_value)))
    | Ticks => inc ← price_as_f64 price_increment; Ok (F64.mul offset_value inc)
    | _ => Err TrailOffsetType
    end;
  price_new (match side with
             | SBuy => F64.add ask_f64 offset_value
             | SSell => F64.sub bid_f64 offset_value
             end) (p_precision price_increment).

(** ** The engine *)

Definition get_trailing_activation_price (trigger_type : TriggerType) (order_side : OrderSide)
    (bid ask last : option Price) : option Price :=
  let touch := match order_side with Buy => ask | Sell => bid | NoOrderSide => None end in
  match trigger_type with
  | LastPrice => last
  | LastOrBidAsk => or_else last touch
  | _ => touch
  end.
Definition activation_hit (order_side : OrderSide) (bid ask : option Price) (activation_price : Price)
  : bool :=
  match order_side with
  | Buy => is_some_and ask (fun a => price_leb a activation_price)
  | Sell => is_some_and bid (fun b => price_geb b activation_price)
  | NoOrderSide => false
  end.

(** The order after the check, whether it is activated, and whether it has to
    be stored again. *)
Definition activate_market (o : TrailingStopMarketOrder Dec) (bid ask last : option Price)
  : TrailingStopMarketOrder Dec * bool * bool :=
  if tm_is_activated o then (o, true, false)
  else
    match tm_activation_price o with
    | None =>
        match get_trailing_activation_price (tm_trigger_type o) (o_side (tm_core o)) bid ask last with
        | Some p => (o <| tm_activation_price := Some p |> <| tm_is_activated := true |>, true, true)
        | None => (o, false, false)
        end
    | Some activation_price =>
        if activation_hit (o_side (tm_core o)) bid ask activation_price
        then (o <| tm_is_activated := true |>, true, true) else (o, false, false)
    end.
Definition activate_limit (o : TrailingStopLimitOrder Dec) (bid ask last : option Price)
  : TrailingStopLimitOrder Dec * bool * bool :=
  if tl_is_activated o then (o, true, false)
  else
    match tl_activation_price o with
    | None =>
        match get_trailing_activation_price (tl_trigger_type o) (o_side (tl_core o)) bid ask last with
        | Some p => (o <| tl_activation_price := Some p |> <| tl_is_activated := true |>, true, true)
        | None => (o, false, false)
        end
    | Some activation_price =>
        if activation_hit (o_side (tl_core o)) bid ask activation_price
        then (o <| tl_is_activated := true |>, true, true) else (o, false, false)
    end.

(** A failed write of the cache is logged. *)
Definition store_order {E} (self : OrderMatchingEngine Dec) order : outcome E (OrderMatchingEngine Dec) :=
  match replace_order (me_cache self) order with
  | (_, Panic) => Panic
  | (cache, _) => Ok (self <| me_cache := cache |>)
  end.
Definition maybe_activate_trailing_stop {E} (self : OrderMatchingEngine Dec) order
    (bid ask last : option Price) : outcome E (OrderMatchingEngine Dec * OrderAny Dec * bool) :=
  match order with
  | AnyTrailingStopMarket o =>
      let '(o, active, store) := activate_market o bid ask last in
      self ← (if store : bool then store_order self (AnyTrailingStopMarket o) else Ok self);
      Ok (self, AnyTrailingStopMarket o, active)
  | AnyTrailingStopLimit o =>
      let '(o, active, store) := activate_limit o bid ask last in
      self ← (if store : bool then store_order self (AnyTrailingStopLimit o) else Ok self);
      Ok (self, AnyTrailingStopLimit o, active)
  | _ => Ok (self, order, true)
  end.

(** [generate_order_updated]: the event that is dispatched; its id and time come
    from outside. *)
Definition generate_order_updated (event_id : UUID4) (ts_now : UnixNanos) order (quantity : Quantity)
    (price trigger_price protection_price : option Price) : OrderUpdated :=
  let core := any_core order in
  mkUpdated
    (mkHeader (o_trader_id core) (o_strategy_id core) (o_instrument_id core) (o_client_order_id core)
       event_id ts_now ts_now false)
    (o_venue_order_id core) (o_account_id core) quantity price trigger_price protection_price
    (o_is_quote_quantity core).

Definition update_trailing_stop_order {E} (self : OrderMatchingEngine Dec) order (event_id : UUID4)
    (ts_now : UnixNanos) : outcome E (option OrderUpdated) :=
  '(new_trigger_price, new_price) ←
    unwrap_ok (trailing_stop_calculate (me_price_increment self) (any_trigger_price order)
      (any_activation_price order) order (mc_bid (me_core self)) (mc_ask (me_core self))
      (mc_last (me_core self)));
  match new_trigger_price, new_price with
  | None, None => Ok None
  | _, _ =>
      Ok (Some (generate_order_updated event_id ts_now order (o_quantity (any_core order)) new_price
                  new_trigger_price None))
  end.

(** ** What a market gives *)

(** The variant and the type of the core agree; an order of this type trails. *)
Definition trails order : Prop :=
  match order with
  | AnyTrailingStopMarket o => o_order_type (tm_core o) = TrailingStopMarket
  | AnyTrailingStopLimit o => o_order_type (tl_core o) = TrailingStopLimit
  | _ => False
  end.

Record quotes : Type := mkQuotes { qs_bid : option Price; qs_ask : option Price; qs_last : option Price }.

(** The prices an order of this side and trigger type follows. *)
Definition bases side (trigger_type : TriggerType) (q : quotes) : list Price :=
  let touch := match side with SBuy => qs_ask q | SSell => qs_bid q end in
  match trigger_type with
  | LastPrice | MarkPrice => option_list (qs_last q)
  | TrigDefault | BidAsk => option_list touch
  | LastOrBidAsk => option_list touch ++ option_list (qs_last q)
  | _ => []
  end.
Definition offset_from (price_increment : Price) (offset_type : TrailingOffsetType) side (off : Dec)
    (basis : Price) : option Price :=
  match b ← price_as_f64 basis; compute (E := TrailingError) price_increment offset_type side off b with
  | Ok p => Some p
  | _ => None
  end.
(** The candidates for the trigger and for the limit. *)
Definition candidates (price_increment : Price) order (off : option Dec) (q : quotes) : list Price :=
  match as_specified (E := TrailingError) (side_of order), any_trigger_type order,
        any_trailing_offset_type order, off with
  | Ok side, Some t, Some ot, Some off => omap (offset_from price_increment ot side off) (bases side t q)
  | _, _, _, _ => []
  end.

Definition best side (p : Price) (cs : list Price) : Price :=
  fold_left (fun p c => if better side c p then c else p) cs p.

Lemma maybe_move_best side p c :
  (maybe_move side (Some p) c).1 = Some (best side p [c]) /\
  default p (maybe_move side (Some p) c).2 = best side p [c].
Proof. unfold maybe_move, best. cbn. by destruct (better side c p). Qed.

(** A price that moved is reported, and nothing is when it did not. *)
Lemma maybe_move_default side p c x :
  maybe_move side (Some p) c = x -> x.1 = Some (default p x.2) /\ default p x.2 = best side p [c].
Proof. intros <-. destruct (maybe_move_best side p c) as [-> ->]. done. Qed.

Lemma try_basis_market inc ot side order off basis trigger limit r :
  is_trailing_limit order = false ->
  try_basis inc ot side order off basis (Some trigger) limit = Ok r ->
  exists c, offset_from inc ot side off basis = Some c /\
    r.1.1 = Some (default trigger r.1.2) /\ default trigger r.1.2 = best side trigger [c] /\
    r.2 = (limit, None).
Proof.
  intros Ht. unfold try_basis, offset_from. intros (b & -> & H)%bind_Ok_inv.
  apply bind_Ok_inv in H as (c & Hc & H). rewrite Ht in H. injection H as <-. exists c.
  cbn [mbind outcome_bind]. rewrite Hc. split; [done|]. cbn [fst snd].
  destruct (maybe_move_default side trigger c _ eq_refl) as [H1 H2]. by split_and!.
Qed.
Lemma try_basis_limit inc ot side order off lo basis trigger limit r :
  is_trailing_limit order = true -> any_limit_offset order = Some lo ->
  try_basis inc ot side order off basis (Some trigger) (Some limit) = Ok r ->
  exists c l, offset_from inc ot side off basis = Some c /\ offset_from inc ot side lo basis = Some l /\
    r.1.1 = Some (default trigger r.1.2) /\ default trigger r.1.2 = best side trigger [c] /\
    r.2.1 = Some (default limit r.2.2) /\ default limit r.2.2 = best side limit [l].
Proof.
  intros Ht Hlo. unfold try_basis, offset_from. intros (b & -> & H)%bind_Ok_inv.
  apply bind_Ok_inv in H as (c & Hc & H). rewrite Ht, Hlo in H.
  apply bind_Ok_inv in H as (lo' & [= <-] & H). apply bind_Ok_inv in H as (l & Hl & H).
  injection H as <-. exists c, l. cbn [mbind outcome_bind]. rewrite Hc, Hl. cbn [fst snd].
  destruct (maybe_move_default side trigger c _ eq_refl) as [H1 H2].
  destruct (maybe_move_default side limit l _ eq_refl) as [H3 H4]. by split_and!.
Qed.

Lemma default_or_else {A} (x : A) u n : default x (or_else u n) = default (default x n) u.
Proof. by destruct u. Qed.
Lemma best_app side p cs1 cs2 : best side p (cs1 ++ cs2) = best side (best side p cs1) cs2.
Proof. apply fold_left_app. Qed.

(** One basis, for an order of either type: both reported prices are the best of
    the current ones and the candidates of the basis. *)
Definition limit_candidate (inc : Price) (ot : TrailingOffsetType) side order (basis : Price) : list Price :=
  match any_limit_offset order with
  | Some lo => option_list (offset_from inc ot side lo basis)
  | None => []
  end.
Definition moved side (p : option Price) (new : option Price) (cs : list Price) : Prop :=
  match p with Some p => default p new = best side p cs | None => new = None end.

Lemma try_basis_correct inc ot side order off basis trigger r :
  trails order ->
  forall limit : option Price, is_Some limit <-> is_Some (any_price order) ->
  try_basis inc ot side order off basis (Some trigger) limit = Ok r ->
  exists c, offset_from inc ot side off basis = Some c /\
    r.1.1 = Some (default trigger r.1.2) /\ default trigger r.1.2 = best side trigger [c] /\
    r.2.1 = or_else r.2.2 limit /\ moved side limit r.2.2 (limit_candidate inc ot side order basis).
Proof.
  intros Ht limit Hl H. unfold limit_candidate, moved.
  destruct order as [| | | | | | |o|o]; try done; cbn in Ht, Hl |- *.
  - destruct limit as [l|]; [|by destruct Hl as [_ []]; eauto].
    apply (try_basis_limit _ _ _ _ _ (tl_limit_offset o)) in H as (c & lc & Hc & Hlc & H1 & H2 & H3 & H4);
      [|unfold is_trailing_limit; cbn; by rewrite Ht|done].
    exists c. rewrite Hlc. split_and!; try done. rewrite H3. by destruct (r.2.2).
  - destruct limit as [l|]; [destruct Hl as [[? ?] _]; by eauto|].
    apply try_basis_market in H as (c & Hc & H1 & H2 & H3);
      [|unfold is_trailing_limit; cbn; by rewrite Ht].
    exists c. rewrite H3. by split_and!.
Qed.

Lemma moved_app side p n u cs1 cs2 :
  moved side p n cs1 -> moved side (or_else n p) u cs2 -> moved side p (or_else u n) (cs1 ++ cs2).
Proof.
  destruct p as [p|]; cbn.
  - intros H1 H2. rewrite default_or_else, best_app, <- H1. by destruct n.
  - intros -> H2. cbn in H2. by rewrite H2.
Qed.

(** One basis, with what the candidates of an order are for it. *)
Lemma try_basis_moved inc ot side order off basis trigger limit p1 n1 p2 n2 :
  trails order -> is_Some limit <-> is_Some (any_price order) ->
  try_basis inc ot side order off basis (Some trigger) limit = Ok ((p1, n1), (p2, n2)) ->
  moved side (Some trigger) n1 (option_list (offset_from inc ot side off basis)) /\
  p1 = or_else n1 (Some trigger) /\ is_Some p1 /\
  moved side limit n2 (limit_candidate inc ot side order basis) /\ p2 = or_else n2 limit.
Proof.
  intros Ht Hl H. apply try_basis_correct in H as (c & Hc & H1 & H2 & H3 & H4); [|done..].
  cbn in H1, H2, H3, H4. rewrite Hc. cbn. subst p1. by split_and!; destruct n1.
Qed.

Lemma candidates_trigger inc order off side t ot q :
  side_of order = as_order_side side -> any_trigger_type order = Some t ->
  any_trailing_offset_type order = Some ot ->
  candidates inc order (Some off) q = omap (offset_from inc ot side off) (bases side t q).
Proof. intros Hs Ht Ho. unfold candidates. by rewrite Hs, Ht, Ho; destruct side. Qed.
Lemma candidates_limit inc order side t ot q :
  side_of order = as_order_side side -> any_trigger_type order = Some t ->
  any_trailing_offset_type order = Some ot ->
  candidates inc order (any_limit_offset order) q =
  concat (limit_candidate inc ot side order <$> bases side t q).
Proof.
  intros Hs Ht Ho. unfold limit_candidate. destruct (any_limit_offset order) as [lo|].
  - rewrite (candidates_trigger _ _ _ side t ot) by done.
    induction (bases side t q) as [|b bs IH]; [done|]. cbn. rewrite <- IH.
    by destruct (offset_from inc ot side lo b).
  - unfold candidates. rewrite Hs, Ht, Ho. replace (concat _) with (@nil Price); [by destruct side|].
    by induction (bases side t q).
Qed.

(** One and two bases. *)
Section Bases.
Context (inc : Price) (ot : TrailingOffsetType) (side : OrderSideSpecified) (order : OrderAny Dec)
  (off : Dec) (Ht : trails order).
Definition moves (trigger : Price) (limit : option Price) (bs : list Price) (n1 n2 : option Price) : Prop :=
  moved side (Some trigger) n1 (omap (offset_from inc ot side off) bs) /\
  moved side limit n2 (concat (limit_candidate inc ot side order <$> bs)).

Lemma one_basis trigger basis p1 n1 p2 n2 :
  try_basis inc ot side order off basis (Some trigger) (any_price order) = Ok ((p1, n1), (p2, n2)) ->
  moves trigger (any_price order) [basis] n1 n2.
Proof.
  intros (H1 & _ & _ & H4 & _)%try_basis_moved; [|done|done]. split; cbn; [done|]. by rewrite app_nil_r.
Qed.
Lemma two_bases trigger b1 b2 p1 n1 p2 n2 q1 u1 q2 u2 :
  try_basis inc ot side order off b1 (Some trigger) (any_price order) = Ok ((p1, n1), (p2, n2)) ->
  try_basis inc ot side order off b2 p1 p2 = Ok ((q1, u1), (q2, u2)) ->
  moves trigger (any_price order) [b1; b2] (or_else u1 n1) (or_else u2 n2).
Proof.
  intros (H1 & H2 & [p1' ->] & H4 & ->)%try_basis_moved H; [|done|done].
  apply try_basis_moved in H as (G1 & _ & _ & G4 & _); [|done|].
  - split.
    + change [b1; b2] with ([b1] ++ [b2]). rewrite omap_app. apply moved_app; [done|]. by rewrite <- H2.
    + cbn. rewrite app_nil_r. by apply moved_app.
  - destruct (any_price order); cbn in H4; [by destruct n2|by subst n2].
Qed.
End Bases.

(** Neither price reported moves away from the market: each is the best of where
    it was and of the candidates. *)
Lemma trailing_stop_calculate_correct inc order trigger activation q nt nl :
  trails order -> any_trigger_price order = Some trigger ->
  trailing_stop_calculate inc (any_trigger_price order) activation order
    (qs_bid q) (qs_ask q) (qs_last q) = Ok (nt, nl) ->
  exists side, side_of order = as_order_side side /\
    moved side (Some trigger) nt (candidates inc order (any_trailing_offset order) q) /\
    moved side (any_price order) nl (candidates inc order (any_limit_offset order) q).
Proof.
  intros Ht Htr. unfold trailing_stop_calculate. intros (side & Hs%as_specified_Ok & H)%bind_Ok_inv.
  exists side. split; [done|]. rewrite Htr in *.
  assert (Hlim : (if is_trailing_limit order then any_price order else None) = any_price order).
  { destruct order as [| | | | | | |o|o]; try done; cbn in Ht; unfold is_trailing_limit; cbn; by rewrite Ht. }
  apply bind_Ok_inv in H as (_ & _ & H). cbn zeta in H. rewrite Hlim in H. cbn [or_else] in H.
  apply bind_Ok_inv in H as (t & Et & H). apply bind_Ok_inv in H as (off & Eo & H).
  apply bind_Ok_inv in H as (ot & Eot & H). apply bind_Ok_inv in H as (_ & _ & H).
  apply bind_Ok_inv in H as (_ & _ & H). unfold expect in Et, Eo, Eot.
  destruct (any_trigger_type order) as [t'|] eqn:Et'; [injection Et as ->|done].
  destruct (any_trailing_offset order) as [off'|] eqn:Eo'; [injection Eo as ->|done].
  destruct (any_trailing_offset_type order) as [ot'|] eqn:Eot'; [injection Eot as ->|done].
  rewrite (candidates_trigger inc order off side t ot), (candidates_limit inc order side t ot) by done.
  change (moves inc ot side order off trigger (any_price order) (bases side t q) nt nl).
  destruct t; try done; unfold bases.
  2,3: destruct (qs_last q) as [last|]; [|done]; cbn [ok_or mbind outcome_bind] in H;
    apply bind_Ok_inv in H as ([[p1 n1] [p2 n2]] & H & [= <- <-]); by apply one_basis in H.
  all: destruct (qs_bid q) as [bid|]; [|done]; destruct (qs_ask q) as [ask|]; [|done]; 
    cbn [ok_or mbind outcome_bind] in H;
    apply bind_Ok_inv in H as ([[p1 n1] [p2 n2]] & H1 & H); cbn beta iota in H.
  1,2: injection H as <- <-; apply one_basis in H1; [by destruct side|done].
  destruct (qs_last q) as [last|]; [|done]. cbn [ok_or mbind outcome_bind] in H.
  apply bind_Ok_inv in H as ([[q1 u1] [q2 u2]] & H2 & [= <- <-]).
  pose proof (two_bases _ _ _ _ _ Ht _ _ _ _ _ _ _ _ _ _ _ H1 H2) as Hm. by destruct side.
Qed.

(** ** Following the market *)

Definition quotes_of (self : OrderMatchingEngine Dec) : quotes :=
  mkQuotes (mc_bid (me_core self)) (mc_ask (me_core self)) (mc_last (me_core self)).

(** The engine in successive states looks at the order, and the updates it sends
    are applied to the order. *)
Fixpoint trail order (ticks : list (OrderMatchingEngine Dec * UUID4 * UnixNanos))
  : outcome OrderError (OrderAny Dec) :=
  match ticks with
  | [] => Ok order
  | (self, event_id, ts_now) :: ticks =>
      event ← update_trailing_stop_order self order event_id ts_now;
      match event with
      | None => trail order ticks
      | Some e =>
          match any_apply order (EvUpdated e) with
          | (order, Ok _) => trail order ticks
          | (_, Err e) => Err e
          | (_, Panic) => Panic
          end
      end
  end.

Lemma updated_side_type (c : OrderCore Dec) e :
  o_side (updated c e) = o_side c /\ o_order_type (updated c e) = o_order_type c.
Proof.
  unfold updated. set (c1 := match o_status c with PendingUpdate => _ | _ => _ end).
  assert (H : o_side c1 = o_side c /\ o_order_type c1 = o_order_type c).
  { unfold c1. destruct (o_status c); try done. by destruct (o_previous_status c). }
  destruct (up_venue_order_id e) as [v|]; [|exact H]. by destruct (bool_decide _).
Qed.
Lemma core_updated_frame (c : OrderCore Dec) e c' :
  core_apply c (EvUpdated e) = (c', Ok tt) -> o_side c' = o_side c /\ o_order_type c' = o_order_type c.
Proof.
  intros (_ & _ & _ & new & s1 & _ & [= <-] & ->)%core_apply_Ok.
  destruct (updated_side_type ((save_previous c (EvUpdated e)) <| o_status := new |>) e) as [H1 H2].
  rec_simpl. rewrite H1, H2. unfold save_previous. by destruct (saves_previous _ _).
Qed.

(** The parts of an order that an update does not touch. *)
Definition same_trail order order' : Prop :=
  trails order' /\ side_of order' = side_of order /\ any_trigger_type order' = any_trigger_type order /\
  any_trailing_offset order' = any_trailing_offset order /\
  any_trailing_offset_type order' = any_trailing_offset_type order /\
  any_limit_offset order' = any_limit_offset order.

Lemma apply_update order e order' trigger :
  trails order -> any_trigger_price order = Some trigger -> (any_price order = None -> up_price e = None) ->
  any_apply order (EvUpdated e) = (order', Ok tt) ->
  same_trail order order' /\ any_trigger_price order' = Some (default trigger (up_trigger_price e)) /\
  any_price order' = or_else (up_price e) (any_price order).
Proof.
  intros Ht Htr Hp. destruct order as [| | | | | | |o|o]; try done; cbn in Ht, Htr, Hp.
  - injection Htr as <-. cbn [any_apply]. unfold wrap_any, trailing_stop_limit_apply.
    destruct (core_apply (tl_core o) (EvUpdated e)) as [c [[]|er|]] eqn:Hc; try done.
    apply core_updated_frame in Hc as [Hs Hty]. cbn. intros [= <-].
    unfold same_trail, trails, side_of. destruct (up_price e), (up_trigger_price e); cbn;
      split_and!; try done; congruence.
  - injection Htr as <-. cbn [any_apply]. unfold wrap_any, trailing_stop_market_apply.
    destruct (core_apply (tm_core o) (EvUpdated e)) as [c [[]|er|]] eqn:Hc; try done.
    apply core_updated_frame in Hc as [Hs Hty]. rewrite Hp by done. cbn.
    unfold trailing_stop_market_after, trailing_stop_market_update. rewrite Hp by done. cbn. intros [= <-].
    unfold same_trail, trails, side_of. destruct (up_trigger_price e); cbn; split_and!; try done; congruence.
Qed.

(** What [order'] is after markets with the given candidates. *)
Definition trailed side order order' (cs ls : list Price) : Prop :=
  same_trail order order' /\
  (forall p, any_trigger_price order = Some p -> any_trigger_price order' = Some (best side p cs)) /\
  match any_price order with
  | Some p => any_price order' = Some (best side p ls)
  | None => any_price order' = None
  end.
Definition all_candidates (inc : Price) order (off : option Dec)
    (ticks : list (OrderMatchingEngine Dec * UUID4 * UnixNanos)) : list Price :=
  concat ((fun t => candidates inc order off (quotes_of t.1.1)) <$> ticks).

Lemma trails_prices order :
  trails order -> exists p, any_trigger_price order = Some p.
Proof. destruct order as [| | | | | | |o|o]; try done; cbn; eauto. Qed.

Lemma candidates_same inc order order' off q :
  same_trail order order' -> candidates inc order' off q = candidates inc order off q.
Proof. intros (_ & Hs & Ht & _ & Hot & _). unfold candidates. by rewrite Hs, Ht, Hot. Qed.

Lemma update_trailing_correct (self : OrderMatchingEngine Dec) order event_id ts event order' :
  trails order ->
  update_trailing_stop_order (E := OrderError) self order event_id ts = Ok event ->
  match event with None => order' = order | Some e => any_apply order (EvUpdated e) = (order', Ok tt) end ->
  exists side, side_of order = as_order_side side /\
    trailed side order order'
      (candidates (me_price_increment self) order (any_trailing_offset order) (quotes_of self))
      (candidates (me_price_increment self) order (any_limit_offset order) (quotes_of self)).
Proof.
  intros Ht Hu Ha. destruct (trails_prices order Ht) as [p Hp].
  apply bind_Ok_inv in Hu as ([nt nl] & Hc & Hu).
  destruct (trailing_stop_calculate _ _ _ _ _ _ _) as [[nt' nl']|er|] eqn:Hcalc; try done.
  injection Hc as <- <-.
  apply (trailing_stop_calculate_correct _ _ p _ (quotes_of self)) in Hcalc as (side & Hs & H1 & H2); [|done..].
  exists side. split; [done|]. unfold trailed.
  assert (Hnone : any_price order = None -> nl' = None) by (intros Hn; by rewrite Hn in H2).
  assert (Hev : event = None \/ exists e, event = Some e /\ up_price e = nl' /\ up_trigger_price e = nt').
  { destruct nt', nl'; injection Hu as <-; eauto. }
  assert (Hnm : event = None -> nt' = None /\ nl' = None) by (destruct nt', nl'; by injection Hu as <-).
  destruct Hev as [->|(e & -> & He1 & He2)].
  - subst order'. destruct (Hnm eq_refl) as [-> ->]. split; [by repeat split|]. split.
    + intros p' Hp'. rewrite Hp in Hp'. injection Hp' as <-. rewrite Hp. cbn in H1. by rewrite <- H1.
    + destruct (any_price order) as [l|]; [|done]. cbn in H2. by rewrite <- H2.
  - apply (apply_update order e order' p) in Ha as (Hsame & Htp & Hpp); [|done|done|by rewrite He1].
    rewrite He2 in Htp. rewrite He1 in Hpp. split; [done|]. split.
    + intros p' Hp'. rewrite Hp in Hp'. injection Hp' as <-. rewrite Htp. by f_equal.
    + destruct (any_price order) as [l|]; rewrite Hpp; cbn in H2; [|by rewrite H2].
      rewrite <- H2. by destruct nl'.
Qed.

(** Trailing from one order to the next composes. *)
Lemma trailed_trans side o1 o2 o3 cs1 cs2 ls1 ls2 :
  trailed side o1 o2 cs1 ls1 -> trailed side o2 o3 cs2 ls2 ->
  trailed side o1 o3 (cs1 ++ cs2) (ls1 ++ ls2).
Proof.
  intros (S1 & T1 & P1) (S2 & T2 & P2). unfold trailed. split_and!.
  - destruct S1 as (? & ? & ? & ? & ? & ?), S2 as (? & ? & ? & ? & ? & ?).
    unfold same_trail. split_and!; congruence.
  - intros p Hp. rewrite best_app. by apply T2, T1.
  - destruct (any_price o1) as [p|]; rewrite P1 in P2; [by rewrite best_app|done].
Qed.

Lemma best_no_worse side cs : forall p,
  match side with SBuy => p_raw (best side p cs) <= p_raw p | SSell => p_raw p <= p_raw (best side p cs) end.
Proof.
  induction cs as [|c cs IH]; intros p; cbn; [by destruct side|].
  specialize (IH (if better side c p then c else p)). fold (best side (if better side c p then c else p) cs).
  destruct side; cbn in *; [unfold price_ltb in *|unfold price_gtb in *];
    (destruct (_ <? _) eqn:Hb; [apply Z.ltb_lt in Hb|]; lia).
Qed.

Lemma trail_correct inc ticks side order' :
  Forall (fun t => me_price_increment t.1.1 = inc) ticks ->
  forall order, trails order -> side_of order = as_order_side side -> trail order ticks = Ok order' ->
  trailed side order order' (all_candidates inc order (any_trailing_offset order) ticks)
    (all_candidates inc order (any_limit_offset order) ticks).
Proof.
  intros Hinc. induction Hinc as [|[[self id] ts] ticks Hi _ IH]; intros order Ht Hs Hrun.
  - injection Hrun as <-. unfold trailed. split; [by repeat split|]. split; [done|].
    by destruct (any_price order).
  - cbn in Hi. subst inc. apply bind_Ok_inv in Hrun as (event & Hu & Hrun).
    assert (Hnext : exists o1, match event with None => o1 = order
      | Some e => any_apply order (EvUpdated e) = (o1, Ok tt) end /\ trail o1 ticks = Ok order').
    { destruct event as [e|]; [|by exists order].
      destruct (any_apply order (EvUpdated e)) as [o1 [[]|er|]] eqn:Ha; try done. by exists o1. }
    destruct Hnext as (o1 & Ha & Hr).
    destruct (update_trailing_correct self order id ts event o1 Ht Hu Ha) as (side' & Hs' & Htr).
    rewrite Hs in Hs'. assert (side' = side) as -> by (destruct side, side'; done).
    pose proof (proj1 Htr) as Hsame. pose proof Hsame as (Ht1 & Hs1 & _ & Ho1 & _ & Hl1).
    specialize (IH o1 Ht1 ltac:(by rewrite Hs1) Hr). rewrite Ho1, Hl1 in IH.
    unfold all_candidates in *. cbn. eapply trailed_trans; [exact Htr|].
    assert (Hc : forall off, concat ((fun t => candidates (me_price_increment self) o1 off (quotes_of t.1.1)) <$> ticks)
      = concat ((fun t => candidates (me_price_increment self) order off (quotes_of t.1.1)) <$> ticks)).
    { intros off. f_equal. apply list_fmap_ext. intros i x _. by apply candidates_same. }
    by rewrite !Hc in IH.
Qed.

(** C28: over any sequence of markets in which the engine looks at a trailing
    stop and its updates are applied, the trigger price of the order, and the
    limit price of a trailing stop-limit order, are the best of where they
    started and of every price the markets put at the offset from what the order
    follows; so the trigger never moves away from the market. *)
Theorem trailing_ratchet inc order ticks order' side :
  trails order -> Forall (fun t => me_price_increment t.1.1 = inc) ticks ->
  trail order ticks = Ok order' -> side_of order = as_order_side side ->
  trailed side order order' (all_candidates inc order (any_trailing_offset order) ticks)
    (all_candidates inc order (any_limit_offset order) ticks) /\
  forall p p', any_trigger_price order = Some p -> any_trigger_price order' = Some p' ->
    match side with SBuy => p_raw p' <= p_raw p | SSell => p_raw p <= p_raw p' end.
Proof.
  intros Ht Hinc Hrun Hs. pose proof (trail_correct inc ticks side order' Hinc order Ht Hs Hrun) as Hm.
  split; [done|]. intros p p' Hp Hp'. destruct Hm as (_ & Hm & _).
  rewrite (Hm p Hp) in Hp'. injection Hp' as <-. apply best_no_worse.
Qed.

(** What the calculation cannot serve: trigger types it does not support, and
    the last price before there is one. *)
Definition unserved (t : TriggerType) (last : option Price) : bool :=
  match t with
  | TrigDefault | BidAsk => false
  | LastPrice | MarkPrice => bool_decide (last = None)
  | LastOrBidAsk => false
  | NoTrigger | IndexPrice | DoubleLast | DoubleBidAsk | MidPoint => true
  end.

Lemma update_panics {E} (self : OrderMatchingEngine Dec) order t event_id ts :
  trails order -> any_trigger_type order = Some t -> unserved t (mc_last (me_core self)) = true ->
  update_trailing_stop_order (E := E) self order event_id ts = Panic.
Proof.
  intros Ht Htt Hu. unfold update_trailing_stop_order, trailing_stop_calculate.
  destruct (as_specified (side_of order)) as [side|e|] eqn:Hs; [|by destruct (side_of order)|done].
  cbn [mbind outcome_bind]. destruct (err_if _ _) as [[]|e|]; try done. cbn [mbind outcome_bind]. rewrite Htt.
  assert (Ho : exists off ot, any_trailing_offset order = Some off /\ any_trailing_offset_type order = Some ot)
    by (destruct order; try done; cbn; eauto).
  destruct Ho as (off & ot & -> & ->). cbn [expect mbind outcome_bind].
  destruct (err_if (bool_decide _) _) as [[]|e|]; try done. cbn [mbind outcome_bind].
  destruct (err_if _ _) as [[]|e|]; try done. cbn [mbind outcome_bind].
  destruct t; try done; cbn in Hu; apply bool_decide_eq_true in Hu; by rewrite Hu.
Qed.

(** a trailing stop that follows the mark price, or a trigger type the
    calculation does not support, is activated by a quote alone; before the
    first trade the update that follows stops the engine with a panic. *)
Theorem quote_activation_panics {E} (self : OrderMatchingEngine Dec) (o : TrailingStopMarketOrder Dec)
    bid ask event_id ts :
  o_order_type (tm_core o) = TrailingStopMarket -> o_side (tm_core o) <> NoOrderSide ->
  tm_is_activated o = false -> tm_activation_price o = None ->
  tm_trigger_type o <> LastPrice -> unserved (tm_trigger_type o) None = true ->
  mc_last (me_core self) = None ->
  let '(o', active, _) := activate_market o (Some bid) (Some ask) None in
  active = true /\ update_trailing_stop_order (E := E) self (AnyTrailingStopMarket o') event_id ts = Panic.
Proof.
  intros Hty Hs Ha Hp Ht Hu Hl. unfold activate_market. rewrite Ha, Hp.
  assert (Hg : exists p, get_trailing_activation_price (tm_trigger_type o) (o_side (tm_core o))
    (Some bid) (Some ask) None = Some p).
  { unfold get_trailing_activation_price. destruct (tm_trigger_type o), (o_side (tm_core o)); try done; eauto. }
  destruct Hg as [p ->]. split; [done|]. apply (update_panics _ _ (tm_trigger_type o)); try done. by rewrite Hl.
Qed.
End Trailing.
