(* ===== verification/EngineDemo.v ===== *)
(** * A concrete matching engine

    Engines, orders and markets on which the theorems about the matching engine
    are applied, and the behaviours of the engine that its source does not seem
    to intend, evaluated. *)

From stdpp Require Import base numbers list gmap strings sorting.
From Stdlib Require Import ZArith Lia.
From S2P Require Import Prelude F64 Fixed Price Quantity Money Enums Maps OrderEvents OrderCore Orders OrderLife Position Ladder LadderInv Book BookSpec BookFills MatchingCore CacheIndex Cache CacheInv CacheSteps CacheDemo MatchingEngine EngineQueue EngineHistory EngineLiquidity EngineFills Trailing.

Module EngineDemo.
Import BookDemo.
Abbreviation Dec := (Z * Z)%type.
#[local] Instance demo_libs : PositionLibs Dec := {|
  dec_neg d := (- d.1, d.2);
  dec_to_f64 d := Some (F64.div (F64.of_Z d.1) (F64.of_Z (10 ^ d.2)));
  uuid_parse _ := repeat 0 16;
  uuid_print _ := "00000000-0000-4000-8000-000000000001"%string;
|}.

Definition init (id : ClientOrderId) (side : OrderSide) (ty : OrderType) (n : Z)
    (price trigger : option Price) (trigger_type : option TriggerType) (offset : option Dec)
    (offset_type : option TrailingOffsetType) : OrderInitialized Dec :=
  mkInitialized Dec (mkHeader "TRADER-001" "S-001" inst id "e" 1 1 false) side ty (qty n) Gtc false false
    false price trigger trigger_type None offset offset_type None None None None None None None None
    None None None None.
(** The value of a call that succeeds. *)
Definition the {E A} (r : outcome E A) : is_ok r = true -> A :=
  match r with
  | Ok a => fun _ => a
  | Err _ | Panic => fun H => match diff_false_true H with end
  end.

(** ** Three resting sell orders at 10: 10 units ahead of [A] and of [B], 18
    ahead of [C]. *)
Definition sell_limit (id : ClientOrderId) (n : Z) : OrderInitialized Dec :=
  init id Sell Limit n (Some (px 10)) None None None None.
Definition order_a : OrderAny Dec := the (any_try_from (sell_limit "A" 5)) eq_refl.
Definition order_b : OrderAny Dec := the (any_try_from (sell_limit "B" 5)) eq_refl.
Definition order_c : OrderAny Dec := the (any_try_from (sell_limit "C" 20)) eq_refl.
Definition sellers : gmap ClientOrderId (OrderAny Dec) :=
  <["A"%string := order_a]> (<["B"%string := order_b]> {["C"%string := order_c]}).
Definition cache : Cache Dec := mkCache Dec index_default None ∅ ∅ sellers ∅ ∅ ∅.
Definition ten : Z := p_raw (px 10).
Definition units (n : Z) : Z := q_raw (qty n).

Definition engine (cfg : OrderMatchingEngineConfig) (book : OrderBook) : OrderMatchingEngine Dec :=
  mkEngine Dec (mkPrice (10 ^ 7) 2) 0 L2_MBP cfg (matching_new inst (mkPrice (10 ^ 7) 2)) cache book
    None None None true None [] [] 0 [] [] [] 0 0 0 0 false.
Definition queued : OrderMatchingEngine Dec :=
  (engine (mkEngineConfig false true) (book_new inst L2_MBP))
    <| me_queue_ahead := [("A"%string, (ten, units 10)); ("B"%string, (ten, units 10));
                          ("C"%string, (ten, units 18))] |>.
Definition buy_trade (n : Z) : TradeTick := mkTrade inst (px 10) (qty n) Buyer "T-1" 5 5.

Lemma queued_valid : queue_valid queued.
Proof.
  split; [apply (bool_decide_unpack _); by vm_compute|constructor|by intros id []|].
  intros id p a H%ix_get_elem. cbn in H. unfold units, qty in H. cbn in H.
  assert (Hm : imax QuantityRaw = 2 ^ 64 - 1) by reflexivity. rewrite Hm.
  repeat (apply elem_of_cons in H as [[= -> -> ->]|H]; [lia|]). by apply elem_of_nil in H.
Qed.
Lemma cache_fits_demo : cache_fits cache.
Proof.
  intros id o H. assert (Hm : imax QuantityRaw = 2 ^ 64 - 1) by reflexivity. rewrite Hm.
  change (sellers !! id = Some o) in H. unfold sellers in H.
  rewrite !lookup_insert_Some, lookup_singleton_Some in H.
  destruct H as [[_ <-]|[_ [[_ <-]|[_ [_ <-]]]]]; vm_compute; split; discriminate.
Qed.

(** A trade of 22 units: A and B fill, the trade ends before C. *)
Example queue_trade_witness :
  let e := decrement_queue_on_trade queued ten (units 22) Buyer in
  ix_get "C"%string (me_queue_ahead e) = Some (ten, 0) /\ ix_get "A"%string (me_queue_ahead e) = Some (ten, 0) /\
  0 <= total (me_queue_excess e) <= units 12.
Proof.
  destruct (queue_trade_correct queued ten (units 22) Buyer eq_refl queued_valid cache_fits_demo)
    as (Ha & _ & Ht & _); [vm_compute; split; discriminate|].
  cbn zeta. rewrite !Ha. split; [by vm_compute|]. split; [by vm_compute|].
  assert (Hmin : forall id e, hit ten Buyer queued id = Some e -> units 10 <= e.1.2).
  { intros id e (a & o & -> & Hg & _)%hit_Some. apply ix_get_elem in Hg. cbn in Hg |- *.
    repeat (apply elem_of_cons in Hg as [[= -> ->]|Hg]; [vm_compute; discriminate|]).
    by apply elem_of_nil in Hg. }
  specialize (Ht (units 10) ltac:(vm_compute; discriminate) Hmin). exact Ht.
Defined.

(** the queue lets more of a trade through than there is.  The 22 units take
    10 ahead of A and B and fill 5 of each; 2 are left for the 3 that remain
    before C.  C is still cleared, because 18 is no more than 22, and has no
    share recorded, so that the engine fills it with 12. *)
Theorem cleared_without_share :
  let e := (decrement_queue_on_trade queued ten (units 22) Buyer)
             <| me_last_trade_size := Some (qty 22) |> <| me_trade_consumption := units 10 |> in
  me_queue_excess e = [("A"%string, units 5); ("B"%string, units 5)] /\
  ix_get "C"%string (me_queue_ahead e) = Some (ten, 0) /\
  determine_trade_fill_qty e order_c = Some (units 12).
Proof. by vm_compute. Qed.

(** A history: a trade of 4, the level shrinks to 5, A is deleted from the
    market's book. *)
Definition history : list (queue_event (Dec := Dec)) :=
  [QTrade (buy_trade 4); QEndTrade; QDelta (delta ActUpdate (order Sell 10 5 0) 7);
   QQuote (mkQuote inst (px 9) (px 10) (qty 1) (qty 2) 8 8)].
Example queue_position_witness :
  exists e, queue_run (E := unit) queued history = Ok e /\ queue_valid e /\
    (exists a', ix_get "C"%string (me_queue_ahead e) = Some (ten, a') /\ 0 <= a' <= units 18).
Proof.
  destruct (queue_run (E := unit) queued history) as [e| |] eqn:Hr;
    [|vm_compute in Hr; discriminate Hr..].
  exists e. split; [done|].
  assert (Hok : Forall event_ok history).
  { repeat constructor; vm_compute; discriminate. }
  destruct (queue_position_improves queued history e queued_valid cache_fits_demo Hok Hr) as [Hv Hi].
  split; [done|]. destruct (Hi "C"%string ten (units 18) eq_refl) as [H|H]; [by repeat constructor|done|].
  exfalso. apply Exists_exists in H as (c & Hin & Hc). cbn in Hin. apply list_elem_of_singleton in Hin as ->.
  specialize (Hc order_c eq_refl). vm_compute in Hc. discriminate Hc.
Defined.

(** A takes its share of the trade. *)
Definition in_trade : OrderMatchingEngine Dec :=
  (decrement_queue_on_trade queued ten (units 12) Buyer) <| me_last_trade_size := Some (qty 12) |>.
Definition after_a : OrderMatchingEngine Dec * list (Price * Quantity) :=
  the (charge_fills (E := unit) in_trade order_a [(px 10, qty 20)] (units 2) 0) eq_refl.
Example trade_fills_witness :
  0 <= total [("A"%string, units 2)] <= units 12 /\ taken_by "A" [("A"%string, units 2)] <= units 2.
Proof.
  assert (Hrun : trade_run (E := unit) in_trade [("A"%string, units 2)] after_a.1).
  { change [("A"%string, units 2)] with [(any_id order_a, volume after_a.2)].
    apply (run_fill in_trade order_a [(px 10, qty 20)] in_trade after_a.1 after_a.2).
    - vm_compute. split; discriminate.
    - repeat constructor; vm_compute; discriminate.
    - exists (units 2). by vm_compute.
    - constructor. }
  destruct (trade_fills_bounded (E := unit) in_trade [("A"%string, units 2)] after_a.1 (qty 12))
    as [H1 H2]; [reflexivity|reflexivity|vm_compute; split; discriminate|vm_compute; split; discriminate| |exact Hrun|].
  - intros id e Hg%ix_get_elem. vm_compute in Hg.
    repeat (apply elem_of_cons in Hg as [[= -> ->]|Hg]; [vm_compute; split; discriminate|]).
    by apply elem_of_nil in Hg.
  - split; [exact H1|]. apply (H2 "A"%string). by vm_compute.
Defined.

(** ** Liquidity: the asks are 3 units at 11 and 8 at 12 *)

Definition taking : OrderMatchingEngine Dec := engine (mkEngineConfig true false) ask_book.
Lemma ask_book_ladders : book_ladders_ok ask_book.
Proof. intros s. destruct (ask_book_wf (opposite s)) as [H1 H2 _ _]. by destruct s. Qed.
Lemma eleven_size : size_is ask_book Buy (p_raw (px 11)) (units 3).
Proof.
  pose proof (size_is_level ask_book SBuy) as H.
  assert (Hl : exists k lv rest, ld_levels (opposite_ladder ask_book SBuy) = (k, lv) :: rest /\
    p_raw (bp_value k) = p_raw (px 11) /\ size_raw lv = units 3).
  { eexists _, _, _. split; [vm_compute; reflexivity|]. split; vm_compute; reflexivity. }
  destruct Hl as (k & lv & rest & Hl & <- & <-). apply H; [apply ask_book_ladders|]. rewrite Hl. left.
Qed.
Lemma nothing_taken : engine_consumption_ok taking.
Proof. by split. Qed.

Definition wants : list (Price * Quantity) := [(px 11, qty 3); (px 12, qty 8)].
Lemma wants_ok : Forall (fun f => raw_ok f.2) wants.
Proof. repeat constructor; vm_compute; discriminate. Qed.
(** An order of 2 units, then one of 5. *)
Lemma first_ok : is_ok (apply_liquidity_consumption (E := unit) taking wants Buy (qty 2) None) = true.
Proof. vm_compute. reflexivity. Qed.
Definition first_order : OrderMatchingEngine Dec * list (Price * Quantity) := the _ first_ok.
Lemma second_ok :
  is_ok (apply_liquidity_consumption (E := unit) first_order.1 wants Buy (qty 5) None) = true.
Proof. vm_compute. reflexivity. Qed.
Definition second_order : OrderMatchingEngine Dec * list (Price * Quantity) := the _ second_ok.
Lemma first_book : me_book first_order.1 = ask_book.
Proof. vm_compute. reflexivity. Qed.

Lemma wants_fit : Forall (fun f => qty_fits f.2) wants.
Proof. repeat constructor; vm_compute; discriminate. Qed.
Lemma ask_book_fits : levels_fit ask_book.
Proof. intros [|]; repeat constructor; vm_compute; discriminate. Qed.

Example liquidity_witness :
  units 2 + taken_at (p_raw (px 11)) (taken_levels first_order.1 wants Buy (qty 5) None) <= units 3 /\
  volumes second_order.2 = [units 1; units 4].
Proof.
  assert (Hrun : liquidity_run Buy (p_raw (px 11)) (units 3) taking (units 2 + 0) first_order.1).
  { replace (units 2) with (if bool_decide (Buy = Buy)
      then taken_at (p_raw (px 11)) (taken_levels taking wants Buy (qty 2) None) else 0)
      by (vm_compute; reflexivity).
    apply (liq_order Buy (p_raw (px 11)) (units 3) taking wants Buy (qty 2) None first_order.1 first_order.2).
    - apply eleven_size.
    - vm_compute. split; discriminate.
    - apply wants_ok.
    - vm_compute. reflexivity.
    - constructor. }
  destruct (liquidity_bounded SBuy (p_raw (px 11)) (units 3) taking _ first_order.1 wants (qty 5) None
    eq_refl nothing_taken Hrun) as (self2 & fs & _ & _ & _ & H1 & _).
  - rewrite first_book. apply eleven_size.
  - rewrite first_book. apply ask_book_ladders.
  - rewrite first_book. apply ask_book_fits.
  - vm_compute. split; discriminate.
  - apply wants_fit.
  - split; [|vm_compute; reflexivity]. cbn [as_order_side] in H1.
    replace (drawn (side_consumption taking Buy) (p_raw (px 11)) (units 3)) with 0 in H1 by (vm_compute; reflexivity).
    rewrite Z.add_0_l, Z.add_0_r in H1. exact H1.
Defined.

(** ** Prices of limit orders *)

Definition buy_limit : OrderAny Dec :=
  the (any_try_from (init "L" Buy Limit 5 (Some (px 12)) None None None None)) eq_refl.
Lemma limit_ok : is_ok (determine_limit_price_and_volume (E := unit) taking buy_limit) = true.
Proof. vm_compute. reflexivity. Qed.
Example limit_fills_witness :
  let r := the _ limit_ok in
  Forall (fun f => no_worse Buy (px 12) f.1) r.2 /\ 0 <= sum_list (volumes r.2) <= units 5 /\
  exists p, fill_price (E := unit) r.1 buy_limit 2 true (px 11) = Ok (Some p) /\ no_worse Buy (px 12) p.
Proof.
  cbn zeta. destruct (limit_fills_no_worse taking buy_limit (px 12) (the _ limit_ok).1 (the _ limit_ok).2)
    as (H1 & H2 & H3).
  - change (me_book taking) with ask_book. apply ask_book_ladders.
  - vm_compute. reflexivity.
  - vm_compute. reflexivity.
  - vm_compute. reflexivity.
  - split; [exact H1|]. split.
    + apply H3; [vm_compute; reflexivity|exact nothing_taken|vm_compute; split; discriminate|discriminate].
    + eexists. split; [vm_compute; reflexivity|]. vm_compute. discriminate.
Defined.

(** A resting buy limit at 12 on an L1 book, filled as maker at its limit, slips
    to a price past the limit. *)
Definition maker_limit : OrderAny Dec :=
  match buy_limit with
  | AnyLimit l => AnyLimit (l <| lm_core := set_liquidity_side (lm_core l) Maker |>)
  | o => o
  end.
Example maker_slips_past_limit :
  exists p, fill_price (E := unit) (taking <| me_book_type := L1_MBP |>) maker_limit 2 true (px 12) = Ok (Some p) /\
    liquidity_is Maker maker_limit = true /\ ~ no_worse Buy (px 12) p.
Proof.
  eexists. split; [vm_compute; reflexivity|]. split; [vm_compute; reflexivity|]. vm_compute. intros H. by apply H.
Qed.

(** A stop-limit order to buy at 12 or better, triggered at 13, fills as taker:
    the book offers 11 and the fill is at 13. *)
Definition stop_limit_core : OrderAny Dec :=
  the (any_try_from (init "S" Buy StopLimit 2 (Some (px 12)) (Some (px 13)) (Some LastPrice) None None))
    eq_refl.
Definition taker (o : OrderAny Dec) : OrderAny Dec :=
  match o with
  | AnyStopLimit s => AnyStopLimit (s <| sl_core := set_liquidity_side (sl_core s) Taker |>)
  | _ => o
  end.
Definition plain : OrderMatchingEngine Dec := engine (mkEngineConfig false false) ask_book.
Lemma inverted_ok : is_ok (determine_limit_price_and_volume (E := unit) plain (taker stop_limit_core)) = true.
Proof. vm_compute. reflexivity. Qed.
Example inverted_fill_witness :
  let r := the _ inverted_ok in
  volumes r.2 = [units 2] /\
  exists t q rest, Some t = Some (px 13) /\ r.2 = (t, q) :: rest /\ ~ no_worse Buy (px 12) t.
Proof.
  cbn zeta. split; [vm_compute; reflexivity|].
  destruct (inverted_fill_worse plain (taker stop_limit_core) (px 12) (the _ inverted_ok).1 (the _ inverted_ok).2)
    as (t & q & rest & H1 & H2 & H3).
  - vm_compute. reflexivity.
  - vm_compute. reflexivity.
  - reflexivity.
  - reflexivity.
  - vm_compute. reflexivity.
  - vm_compute. discriminate.
  - exists t, q, rest. split; [|split; [exact H2|exact H3]]. rewrite <- H1. vm_compute. reflexivity.
Defined.

(** ** Trailing stops *)

Definition trailing (t : TriggerType) : OrderInitialized Dec :=
  init "TS" Sell TrailingStopMarket 5 None (Some (px 8)) (Some t) (Some (1, 0)) (Some OffPrice).
Definition follows_bid : OrderAny Dec := the (any_try_from (trailing BidAsk)) eq_refl.
Definition at_bid (n : Z) : OrderMatchingEngine Dec :=
  plain <| me_core := set_ask_raw (set_bid_raw (matching_new inst (mkPrice (10 ^ 7) 2)) (px n)) (px (n + 1)) |>.
(** The bid goes to 10, falls to 9 and rises to 12. *)
Definition bids : list (OrderMatchingEngine Dec * UUID4 * UnixNanos) :=
  [(at_bid 10, "e1", 2); (at_bid 9, "e2", 3); (at_bid 12, "e3", 4)]%string.
Lemma trail_ok : is_ok (trail follows_bid bids) = true.
Proof. vm_compute. reflexivity. Qed.
Example trailing_witness :
  p_raw <$> any_trigger_price (the _ trail_ok) = Some (p_raw (px 11)) /\
  (forall p p', any_trigger_price follows_bid = Some p -> any_trigger_price (the _ trail_ok) = Some p' ->
     p_raw p <= p_raw p').
Proof.
  split; [vm_compute; reflexivity|].
  apply (trailing_ratchet (mkPrice (10 ^ 7) 2) follows_bid bids (the _ trail_ok) SSell).
  - vm_compute. reflexivity.
  - repeat constructor.
  - vm_compute. reflexivity.
  - vm_compute. reflexivity.
Defined.

Definition follows_mark : TrailingStopMarketOrder Dec :=
  match the (any_try_from (trailing MarkPrice)) eq_refl as o
        return match o with AnyTrailingStopMarket _ => TrailingStopMarketOrder Dec | _ => unit end with
  | AnyTrailingStopMarket o => o
  | _ => tt
  end.
Example quote_activation_witness :
  let '(o', active, _) := activate_market follows_mark (Some (px 10)) (Some (px 11)) None in
  active = true /\
  update_trailing_stop_order (E := unit) (at_bid 10) (AnyTrailingStopMarket o') "e1"%string 2 = Panic.
Proof.
  apply (quote_activation_panics (E := unit) (at_bid 10) follows_mark (px 10) (px 11) "e1"%string 2);
    try reflexivity; vm_compute; discriminate.
Defined.
End EngineDemo.
