(* ===== verification/EventStore.v ===== *)
(** * The event store: entries, interface, in-memory backend and reader

    [crates/event_store/src/]: the correlation headers ([headers.rs]), the entry
    ([entry.rs]) and its canonical hash ([hash.rs]), the manifest of a run
    ([manifest.rs]), the errors ([error.rs]), the backends ([backend/mod.rs],
    [backend/memory.rs]) and the chunked range scans ([reader/mod.rs]).  BLAKE3
    and the parser of uuid strings are libraries: they are parameters.  The texts
    of error messages are left out.

    The trait [EventStore] is a class of operations; what it promises to the
    writer and to the reader is [EventStoreLaws], stated over the log of a run: the
    entries that were appended, with their index keys.  The in-memory backend is an
    instance, and the reader is proved over any store that keeps the promise. *)

From Stdlib Require Import ZArith Lia Ascii String.
From stdpp Require Import base numbers strings list gmap.
From S2P Require Import Prelude Maps OrderEvents.
Local Open Scope Z_scope.

(* ------------------------------------------------------------------ *)
(** * Entries *)

(** ** Libraries *)

(** A [UUID4] is the text [UUID4::new] writes: lower case hexadecimal digits in
    groups of 8, 4, 4, 4 and 12 ([core/src/uuid.rs]).  [as_bytes] parses it. *)
Definition is_hex (c : ascii) : bool :=
  let n := N_of_ascii c in
  ((48 <=? n)%N && (n <=? 57)%N) || ((97 <=? n)%N && (n <=? 102)%N).
Definition dash : ascii := "-"%char.
Definition uuid_char (i : nat) (c : ascii) : bool :=
  if bool_decide (i = 8 \/ i = 13 \/ i = 18 \/ i = 23)%nat then bool_decide (c = dash) else is_hex c.
Fixpoint uuid_chars (i : nat) (l : list ascii) : bool :=
  match l with [] => bool_decide (i = 36)%nat | c :: l => uuid_char i c && uuid_chars (S i) l end.
Definition uuid_ok (u : UUID4) : bool := uuid_chars 0 (list_ascii_of_string u).

Class EventLibs : Type := {
  blake3 : list Z -> list Z;
  uuid_as_bytes : UUID4 -> list Z;
}.
(** Parsing gives 16 bytes and loses nothing. *)
Class EventLibsLaws `{EventLibs} : Prop := {
  uuid_bytes_length u : uuid_ok u = true -> length (uuid_as_bytes u) = 16%nat;
  uuid_bytes_inj u v :
    uuid_ok u = true -> uuid_ok v = true -> uuid_as_bytes u = uuid_as_bytes v -> u = v;
}.

(** ** Data *)

Abbreviation Bytes := (list Z).
Abbreviation Topic := string.
Abbreviation PayloadType := Ustr.
Abbreviation EntryHash := (list Z).
Abbreviation RunId := string.

Record Headers : Type := mkHeaders {
  hd_intent_id : option UUID4;
  hd_correlation_id : option UUID4;
  hd_caused_by : option UUID4;
}.
Definition headers_empty : Headers := mkHeaders None None None.
Definition headers_is_empty (self : Headers) : bool :=
  bool_decide (hd_intent_id self = None) && bool_decide (hd_correlation_id self = None)
  && bool_decide (hd_caused_by self = None).

Record EventStoreEntry : Type := mkEntry {
  en_entry_hash : EntryHash;
  en_seq : Z;
  en_headers : Headers;
  en_topic : Topic;
  en_payload_type : PayloadType;
  en_payload : Bytes;
  en_ts_init : UnixNanos;
  en_ts_publish : UnixNanos;
}.

Inductive RunStatus : Type := Running | Ended | CrashedRecovered | Quarantined.

Record RegisteredComponents : Type := mkComponents {
  rc_actors : list (string * string);
  rc_strategies : list (string * string);
  rc_algorithms : list (string * string);
  rc_subscriptions : list string;
  rc_endpoints : list string;
}.

Record RunManifest : Type := mkManifest {
  rm_run_id : RunId;
  rm_parent_run_id : option RunId;
  rm_instance_id : string;
  rm_binary_hash : string;
  rm_schema_version : Z;
  rm_crate_versions : string;
  rm_feature_flags : list string;
  rm_adapter_versions : list (string * string);
  rm_config_hash : string;
  rm_registered_components : RegisteredComponents;
  rm_seed : option Z;
  rm_start_ts_init : UnixNanos;
  rm_end_ts_init : option UnixNanos;
  rm_high_watermark : Z;
  rm_status : RunStatus;
}.
Definition is_sealed (self : RunManifest) : bool :=
  match rm_status self with Running => false | _ => true end.

Inductive EventStoreError : Type :=
  | ErrBackend
  | ErrCorrupted
  | ErrDisk
  | ErrHashMismatch (seq : Z)
  | ErrOutOfOrder (high_watermark seq : Z)
  | ErrClosed
  | ErrGap (prev next missing : Z)
  | ErrCrashedPredecessor.

#[export] Instance manifest_eta : Eta RunManifest := fun m =>
  mkManifest (rm_run_id m) (rm_parent_run_id m) (rm_instance_id m) (rm_binary_hash m)
    (rm_schema_version m) (rm_crate_versions m) (rm_feature_flags m) (rm_adapter_versions m)
    (rm_config_hash m) (rm_registered_components m) (rm_seed m) (rm_start_ts_init m)
    (rm_end_ts_init m) (rm_high_watermark m) (rm_status m).
#[export] Instance run_status_eq_dec : EqDecision RunStatus.
Proof. solve_decision. Defined.
#[export] Instance headers_eq_dec : EqDecision Headers.
Proof. solve_decision. Defined.
#[export] Instance entry_eq_dec : EqDecision EventStoreEntry.
Proof. unfold EqDecision. solve_decision. Defined.

(** ** The canonical hash *)

(** [u64::to_be_bytes]. *)
Fixpoint be_bytes (n : nat) (v : Z) : Bytes :=
  match n with O => [] | S n => be_bytes n (v / 256) ++ [v mod 256] end.
Definition to_be_bytes (v : Z) : Bytes := be_bytes 8 v.
Definition str_bytes (s : string) : Bytes :=
  (fun c => Z.of_N (N_of_ascii c)) <$> list_ascii_of_string s.
Definition HASH_DOMAIN : Bytes := str_bytes "nautilus-event-store/entry/v1".

Section Hash.
Context `{EventLibs}.

(** What a call of [update] feeds to the hasher. *)
Definition write_bytes (value : Bytes) : Bytes :=
  to_be_bytes (wrap U64 (Z.of_nat (length value))) ++ value.
Definition write_str (value : string) : Bytes := write_bytes (str_bytes value).
Definition write_optional_uuid (value : option UUID4) : Bytes :=
  match value with Some uuid => 1 :: uuid_as_bytes uuid | None => [0] end.

(** The bytes the hash of an entry is computed from. *)
Definition hash_input (seq : Z) (ts_init ts_publish : UnixNanos) (topic payload_type : string)
    (payload : Bytes) (headers : Headers) : Bytes :=
  HASH_DOMAIN ++ to_be_bytes seq ++ to_be_bytes ts_init ++ to_be_bytes ts_publish
  ++ write_str topic ++ write_str payload_type ++ write_bytes payload
  ++ write_optional_uuid (hd_intent_id headers) ++ write_optional_uuid (hd_correlation_id headers)
  ++ write_optional_uuid (hd_caused_by headers).

Definition compute_entry_hash (seq : Z) (ts_init ts_publish : UnixNanos)
    (topic payload_type : string) (payload : Bytes) (headers : Headers) : EntryHash :=
  blake3 (hash_input seq ts_init ts_publish topic payload_type payload headers).

Definition recompute_hash (self : EventStoreEntry) : EntryHash :=
  compute_entry_hash (en_seq self) (en_ts_init self) (en_ts_publish self) (en_topic self)
    (en_payload_type self) (en_payload self) (en_headers self).

(** [entry.recompute_hash() == entry.entry_hash] *)
Definition hash_ok (e : EventStoreEntry) : bool := bool_decide (recompute_hash e = en_entry_hash e).
End Hash.

(** ** The hash determines the entry *)

(** Values of the types of the fields. *)
Definition fits_u64 (v : Z) : Prop := 0 <= v < 2 ^ 64.
Definition opt_uuid_ok (u : option UUID4) : Prop := from_option (fun u => uuid_ok u = true) True u.
Record entry_valid (e : EventStoreEntry) : Prop := {
  ev_seq : fits_u64 (en_seq e);
  ev_ts_init : fits_u64 (en_ts_init e);
  ev_ts_publish : fits_u64 (en_ts_publish e);
  ev_topic : fits_u64 (Z.of_nat (length (str_bytes (en_topic e))));
  ev_type : fits_u64 (Z.of_nat (length (str_bytes (en_payload_type e))));
  ev_payload : fits_u64 (Z.of_nat (length (en_payload e)));
  ev_intent : opt_uuid_ok (hd_intent_id (en_headers e));
  ev_correlation : opt_uuid_ok (hd_correlation_id (en_headers e));
  ev_caused : opt_uuid_ok (hd_caused_by (en_headers e));
}.

Lemma be_bytes_length n : forall v, length (be_bytes n v) = n.
Proof. induction n as [|n IH]; intros v; cbn; [done|]. rewrite length_app, IH. cbn. lia. Qed.
Lemma be_bytes_inj n : forall v w,
  0 <= v < 256 ^ Z.of_nat n -> 0 <= w < 256 ^ Z.of_nat n -> be_bytes n v = be_bytes n w -> v = w.
Proof.
  induction n as [|n IH]; intros v w Hv Hw He; [cbn in Hv, Hw; lia|]. cbn in He.
  apply app_inj_tail in He as [He Hm].
  rewrite Nat2Z.inj_succ, Z.pow_succ_r in Hv, Hw by lia.
  apply IH in He; [|split; [apply Z.div_pos|apply Z.div_lt_upper_bound]; lia..].
  rewrite (Z.div_mod v 256), (Z.div_mod w 256) by lia. lia.
Qed.
Lemma to_be_bytes_length v : length (to_be_bytes v) = 8%nat.
Proof. apply be_bytes_length. Qed.
Lemma to_be_bytes_inj v w : fits_u64 v -> fits_u64 w -> to_be_bytes v = to_be_bytes w -> v = w.
Proof. apply (be_bytes_inj 8). Qed.

Lemma str_bytes_inj s t : str_bytes s = str_bytes t -> s = t.
Proof.
  intros H. apply (f_equal (fmap (fun z => ascii_of_N (Z.to_N z)))) in H. unfold str_bytes in H.
  rewrite <- !list_fmap_compose in H.
  assert (He : forall l : list ascii, ((fun z => ascii_of_N (Z.to_N z)) ∘ (fun c => Z.of_N (N_of_ascii c))) <$> l = l).
  { intros l. rewrite <- (list_fmap_id l) at 2. apply list_fmap_ext. intros i c _. cbn.
    by rewrite N2Z.id, ascii_N_embedding. }
  rewrite !He in H. rewrite <- (string_of_list_ascii_of_string s), H.
  apply string_of_list_ascii_of_string.
Qed.

Lemma wrap_fits v : fits_u64 v -> wrap U64 v = v.
Proof. intros Hv. apply wrap_id, in_ty_spec. unfold fits_u64 in Hv. change (0 <= v <= 2 ^ 64 - 1). lia. Qed.

(** Framed parts can be split off the front of a list of bytes. *)
Lemma write_bytes_split x y l r :
  fits_u64 (Z.of_nat (length x)) -> fits_u64 (Z.of_nat (length y)) ->
  write_bytes x ++ l = write_bytes y ++ r -> x = y /\ l = r.
Proof.
  intros Hx Hy H. unfold write_bytes in H. rewrite <- !app_assoc in H.
  apply app_inj_1 in H as [Hl H]; [|by rewrite !to_be_bytes_length].
  rewrite (wrap_fits _ Hx), (wrap_fits _ Hy) in Hl. apply (to_be_bytes_inj _ _ Hx Hy) in Hl.
  apply app_inj_1 in H as [-> ->]; [done|lia].
Qed.
Lemma write_str_split x y l r :
  fits_u64 (Z.of_nat (length (str_bytes x))) -> fits_u64 (Z.of_nat (length (str_bytes y))) ->
  write_str x ++ l = write_str y ++ r -> x = y /\ l = r.
Proof.
  intros Hx Hy H. unfold write_str in H. apply (write_bytes_split _ _ _ _ Hx Hy) in H as [He ->].
  by apply str_bytes_inj in He as ->.
Qed.
Lemma to_be_bytes_split x y l r :
  fits_u64 x -> fits_u64 y -> to_be_bytes x ++ l = to_be_bytes y ++ r -> x = y /\ l = r.
Proof.
  intros Hx Hy H. apply app_inj_1 in H as [He ->]; [|by rewrite !to_be_bytes_length].
  by apply to_be_bytes_inj in He as ->.
Qed.

Section HashBinds.
Context `{EL : EventLibs} {ELL : EventLibsLaws}.

Lemma write_uuid_split x y l r :
  opt_uuid_ok x -> opt_uuid_ok y ->
  write_optional_uuid x ++ l = write_optional_uuid y ++ r -> x = y /\ l = r.
Proof.
  destruct x as [x|], y as [y|]; cbn; intros Hx Hy H; try discriminate H; injection H as H; [|done].
  apply app_inj_1 in H as [He ->]; [|by rewrite !uuid_bytes_length]. by apply uuid_bytes_inj in He as ->.
Qed.

Definition entry_input (e : EventStoreEntry) : Bytes :=
  hash_input (en_seq e) (en_ts_init e) (en_ts_publish e) (en_topic e) (en_payload_type e)
    (en_payload e) (en_headers e).

Lemma entry_input_inj e e' :
  entry_valid e -> entry_valid e' -> entry_input e = entry_input e' ->
  en_seq e = en_seq e' /\ en_ts_init e = en_ts_init e' /\ en_ts_publish e = en_ts_publish e' /\
  en_topic e = en_topic e' /\ en_payload_type e = en_payload_type e' /\
  en_payload e = en_payload e' /\ en_headers e = en_headers e'.
Proof.
  intros [] [] H. unfold entry_input, hash_input in H. apply app_inv_head in H.
  apply to_be_bytes_split in H as [-> H]; [|done..]. apply to_be_bytes_split in H as [-> H]; [|done..].
  apply to_be_bytes_split in H as [-> H]; [|done..]. apply write_str_split in H as [-> H]; [|done..].
  apply write_str_split in H as [-> H]; [|done..]. apply write_bytes_split in H as [-> H]; [|done..].
  apply write_uuid_split in H as [Hi H]; [|done..]. apply write_uuid_split in H as [Hc H]; [|done..].
  rewrite <- (app_nil_r (write_optional_uuid _)), <- (app_nil_r (write_optional_uuid (hd_caused_by (en_headers e')))) in H.
  apply write_uuid_split in H as [Hb _]; [|done..].
  split_and!; try done. destruct (en_headers e), (en_headers e'); cbn in *. by subst.
Qed.

(** the canonical hash determines the entry.  Two entries that both pass the
    hash check with the same hash agree in every field, or they exhibit two
    different inputs on which BLAKE3 collides; so no change of the sequence
    number, the timestamps, the topic, the type, the payload or the headers, and
    no shift of bytes from one field to the next, goes unnoticed otherwise. *)
Theorem entry_hash_binds e e' :
  entry_valid e -> entry_valid e' -> hash_ok e = true -> hash_ok e' = true ->
  en_entry_hash e = en_entry_hash e' ->
  e = e' \/ (entry_input e <> entry_input e' /\ blake3 (entry_input e) = blake3 (entry_input e')).
Proof.
  intros Hv Hv' Hh%bool_decide_eq_true Hh'%bool_decide_eq_true He.
  destruct (decide (entry_input e = entry_input e')) as [Hi|Hi].
  - left. apply entry_input_inj in Hi as (? & ? & ? & ? & ? & ? & ?); [|done..].
    destruct e, e'; cbn in *. by subst.
  - right. split; [done|]. by rewrite <- Hh, <- Hh' in He.
Qed.
End HashBinds.

(* ------------------------------------------------------------------ *)
(** * The store *)

(** ** The trait *)

(** [ClientOrderId] and [VenueOrderId], which name types here, are [ClientOrder]
    and [VenueOrder]. *)
Inductive IndexKind : Type := IntentId | ClientOrder | VenueOrder.
Inductive ScanDirection : Type := Forward | Reverse.
#[export] Instance index_kind_eq_dec : EqDecision IndexKind.
Proof. solve_decision. Defined.

Record IndexKey : Type := mkIndexKey { ik_kind : IndexKind; ik_key : string }.
Record AppendEntry : Type := mkAppend { ap_entry : EventStoreEntry; ap_index_keys : list IndexKey }.
Definition without_indices (entry : EventStoreEntry) : AppendEntry := mkAppend entry [].

Class EventStore (S : Type) : Type := {
  open_run : S -> RunManifest -> S * outcome EventStoreError unit;
  append_batch : S -> list AppendEntry -> S * outcome EventStoreError Z;
  scan_range : S -> Z -> Z -> ScanDirection -> outcome EventStoreError (list EventStoreEntry);
  scan_seq : S -> Z -> outcome EventStoreError (option EventStoreEntry);
  lookup_index : S -> IndexKind -> string -> outcome EventStoreError (option Z);
  iter_index_keys : S -> IndexKind -> outcome EventStoreError (list (string * Z));
  seal : S -> RunStatus -> S * outcome EventStoreError unit;
  manifest : S -> outcome EventStoreError RunManifest;
  high_watermark : S -> outcome EventStoreError Z;
}.

(** ** The in-memory backend *)

Record Indices : Type := mkIndices {
  ix_intent : list (string * Z);
  ix_client_order : list (string * Z);
  ix_venue_order : list (string * Z);
}.
Definition indices_default : Indices := mkIndices [] [] [].
Definition map_for (self : Indices) (kind : IndexKind) : list (string * Z) :=
  match kind with
  | IntentId => ix_intent self
  | ClientOrder => ix_client_order self
  | VenueOrder => ix_venue_order self
  end.
Definition set_map_for (self : Indices) (kind : IndexKind) (m : list (string * Z)) : Indices :=
  match kind with
  | IntentId => mkIndices m (ix_client_order self) (ix_venue_order self)
  | ClientOrder => mkIndices (ix_intent self) m (ix_venue_order self)
  | VenueOrder => mkIndices (ix_intent self) (ix_client_order self) m
  end.

Record RunState : Type := mkRun {
  rs_manifest : RunManifest;
  rs_entries : list EventStoreEntry;
  rs_indices : Indices;
  rs_high_watermark : Z;
  rs_max_ts_init : UnixNanos;
}.
#[export] Instance run_state_eta : Eta RunState := fun r =>
  mkRun (rs_manifest r) (rs_entries r) (rs_indices r) (rs_high_watermark r) (rs_max_ts_init r).

(** [MemoryBackend { state }] *)
Definition MemoryBackend : Type := option RunState.
Definition memory_new : MemoryBackend := None.

(** [manifest] as a run starts with it. *)
Definition fresh_manifest (m : RunManifest) : RunManifest :=
  m <| rm_status := Running |> <| rm_end_ts_init := None |> <| rm_high_watermark := 0 |>.

(** [entry(key).or_insert(seq)] *)
Definition or_insert (key : string) (seq : Z) (m : list (string * Z)) : list (string * Z) :=
  match ix_get key m with Some _ => m | None => ix_insert key seq m end.
Definition index_one (seq : Z) (i : Indices) (k : IndexKey) : Indices :=
  set_map_for i (ik_kind k) (or_insert (ik_key k) seq (map_for i (ik_kind k))).

(** The first sequence number that is not the expected one. *)
Fixpoint check_seqs (expected : Z) (entries : list AppendEntry) : option Z :=
  match entries with
  | [] => None
  | a :: entries =>
      if negb (en_seq (ap_entry a) =? expected) then Some (en_seq (ap_entry a))
      else check_seqs (expected + 1) entries
  end.

Definition append_one (state : RunState) (a : AppendEntry) : RunState :=
  let e := ap_entry a in
  state <| rs_indices := fold_left (index_one (en_seq e)) (ap_index_keys a) (rs_indices state) |>
        <| rs_max_ts_init :=
             if rs_max_ts_init state <? en_ts_init e then en_ts_init e else rs_max_ts_init state |>
        <| rs_high_watermark := en_seq e |>
        <| rs_entries := rs_entries state ++ [e] |>.

Section Memory.
Context `{EL : EventLibs}.
Implicit Types (self : MemoryBackend) (state : RunState).

Definition mem_open_run self (m : RunManifest) : MemoryBackend * outcome EventStoreError unit :=
  if from_option (fun state => negb (is_sealed (rs_manifest state))) false self
  then (self, Err ErrCrashedPredecessor)
  else (Some (mkRun (fresh_manifest m) [] indices_default 0 0), Ok tt).

Definition mem_append_batch self (entries : list AppendEntry)
  : MemoryBackend * outcome EventStoreError Z :=
  match self with
  | None => (self, Err ErrBackend)
  | Some state =>
      if is_sealed (rs_manifest state) then (self, Err ErrClosed)
      else if bool_decide (entries = []) then (self, Ok (rs_high_watermark state))
      else
        match check_seqs (rs_high_watermark state + 1) entries with
        | Some seq => (self, Err (ErrOutOfOrder (rs_high_watermark state) seq))
        | None =>
            let state := fold_left append_one entries state in
            let m := (rs_manifest state) <| rm_high_watermark := rs_high_watermark state |> in
            (Some (state <| rs_manifest := m |>), Ok (rs_high_watermark state))
        end
  end.

(** The entries at positions [lo..hi] of a run. *)
Definition slice {A} (lo hi : Z) (l : list A) : list A :=
  drop (Z.to_nat lo) (take (Z.to_nat hi) l).
Definition first_bad (l : list EventStoreEntry) : option EventStoreEntry :=
  List.find (fun e => negb (hash_ok e)) l.
Definition directed {A} (d : ScanDirection) (l : list A) : list A :=
  match d with Forward => l | Reverse => reverse l end.

Definition mem_scan_range self (from to : Z) (direction : ScanDirection)
  : outcome EventStoreError (list EventStoreEntry) :=
  match self with
  | None => Err ErrBackend
  | Some state =>
      if (to <? from) || (from =? 0) || bool_decide (rs_entries state = []) then Ok []
      else
        let lo := from - 1 in
        let hi := Z.min to (Z.of_nat (length (rs_entries state))) in
        if hi <=? lo then Ok []
        else
          let slice := slice lo hi (rs_entries state) in
          match first_bad slice with
          | Some entry => Err (ErrHashMismatch (en_seq entry))
          | None => Ok (directed direction slice)
          end
  end.

Definition mem_scan_seq self (seq : Z) : outcome EventStoreError (option EventStoreEntry) :=
  match self with
  | None => Err ErrBackend
  | Some state =>
      if (seq =? 0) || (rs_high_watermark state <? seq) then Ok None
      else
        match rs_entries state !! Z.to_nat (seq - 1) with
        | None => Panic
        | Some entry => if hash_ok entry then Ok (Some entry) else Err (ErrHashMismatch seq)
        end
  end.

Definition mem_lookup self (kind : IndexKind) (key : string)
  : outcome EventStoreError (option Z) :=
  match self with
  | None => Err ErrBackend
  | Some state => Ok (ix_get key (map_for (rs_indices state) kind))
  end.
Definition mem_iter_index_keys self (kind : IndexKind)
  : outcome EventStoreError (list (string * Z)) :=
  match self with
  | None => Err ErrBackend
  | Some state => Ok (map_for (rs_indices state) kind)
  end.

(** The manifest of a run that is sealed. *)
Definition sealed_manifest (m : RunManifest) (status : RunStatus) (hwm : Z) (max_ts : UnixNanos)
  : RunManifest :=
  let m := m <| rm_status := status |> <| rm_high_watermark := hwm |> in
  if 0 <? hwm then m <| rm_end_ts_init := Some max_ts |> else m.

Definition mem_seal self (status : RunStatus) : MemoryBackend * outcome EventStoreError unit :=
  match self with
  | None => (self, Err ErrBackend)
  | Some state =>
      if bool_decide (status = Running) then (self, Err ErrBackend)
      else if is_sealed (rs_manifest state) then (self, Err ErrClosed)
      else
        (Some (state <| rs_manifest :=
                 sealed_manifest (rs_manifest state) status (rs_high_watermark state)
                   (rs_max_ts_init state) |>), Ok tt)
  end.

Definition mem_manifest self : outcome EventStoreError RunManifest :=
  match self with None => Err ErrBackend | Some state => Ok (rs_manifest state) end.
Definition mem_high_watermark self : outcome EventStoreError Z :=
  match self with None => Err ErrBackend | Some state => Ok (rs_high_watermark state) end.

#[export] Instance memory_store : EventStore MemoryBackend := {|
  open_run := mem_open_run;
  append_batch := mem_append_batch;
  scan_range := mem_scan_range;
  scan_seq := mem_scan_seq;
  lookup_index := mem_lookup;
  iter_index_keys := mem_iter_index_keys;
  seal := mem_seal;
  manifest := mem_manifest;
  high_watermark := mem_high_watermark;
|}.
End Memory.

(** ** What a store promises *)

(** A run: its manifest and everything that was appended to it. *)
Record Run : Type := mkRunLog { run_manifest : RunManifest; run_log : list AppendEntry }.
Definition run_entries (r : Run) : list EventStoreEntry := ap_entry <$> run_log r.
Definition run_hwm (r : Run) : Z := Z.of_nat (length (run_log r)).
Fixpoint max_ts (log : list AppendEntry) : Z :=
  match log with [] => 0 | a :: log => Z.max (en_ts_init (ap_entry a)) (max_ts log) end.

(** The sequence number of the first entry that carries the key. *)
Definition has_key (kind : IndexKind) (key : string) (a : AppendEntry) : bool :=
  existsb (fun k => bool_decide (ik_kind k = kind) && bool_decide (ik_key k = key)) (ap_index_keys a).
Definition first_seq (kind : IndexKind) (key : string) (log : list AppendEntry) : option Z :=
  (fun a => en_seq (ap_entry a)) <$> List.find (has_key kind key) log.

(** Sequence numbers are the positions in the log, and the manifest says how
    long it is and, once sealed, when it ended. *)
Record run_ok (r : Run) : Prop := {
  ro_seq i a : run_log r !! i = Some a -> en_seq (ap_entry a) = Z.of_nat i + 1;
  ro_hwm : rm_high_watermark (run_manifest r) = run_hwm r;
  ro_end : rm_end_ts_init (run_manifest r) =
    if is_sealed (run_manifest r) && (0 <? run_hwm r) then Some (max_ts (run_log r)) else None;
}.

Definition run_append (r : Run) (batch : list AppendEntry) : outcome EventStoreError Run :=
  if is_sealed (run_manifest r) then Err ErrClosed
  else
    match check_seqs (run_hwm r + 1) batch with
    | Some seq => Err (ErrOutOfOrder (run_hwm r) seq)
    | None =>
        let log := run_log r ++ batch in
        Ok (mkRunLog ((run_manifest r) <| rm_high_watermark := Z.of_nat (length log) |>) log)
    end.
Definition run_seal (r : Run) (status : RunStatus) : outcome EventStoreError Run :=
  if bool_decide (status = Running) then Err ErrBackend
  else if is_sealed (run_manifest r) then Err ErrClosed
  else Ok (mkRunLog (sealed_manifest (run_manifest r) status (run_hwm r) (max_ts (run_log r))) (run_log r)).

Section Spec.
Context `{EL : EventLibs}.
Definition run_scan_range (r : Run) (from to : Z) (d : ScanDirection)
  : outcome EventStoreError (list EventStoreEntry) :=
  if from =? 0 then Ok []
  else
    let l := slice (from - 1) (Z.min to (run_hwm r)) (run_entries r) in
    match first_bad l with
    | Some e => Err (ErrHashMismatch (en_seq e))
    | None => Ok (directed d l)
    end.
Definition run_scan_seq (r : Run) (seq : Z) : outcome EventStoreError (option EventStoreEntry) :=
  if seq =? 0 then Ok None
  else
    match run_entries r !! Z.to_nat (seq - 1) with
    | Some e => if hash_ok e then Ok (Some e) else Err (ErrHashMismatch seq)
    | None => Ok None
    end.

(** An operation does what the run says, or fails with one of [faults] and
    changes nothing. *)
Definition stepped {S A B} (holds : S -> Run -> Prop) (faults : EventStoreError -> Prop)
    (s' : S) (res : outcome EventStoreError A) (r : Run) (spec : outcome EventStoreError B)
    (next : B -> Run) (value : B -> A) : Prop :=
  match spec with
  | Ok b => (res = Ok (value b) /\ holds s' (next b)) \/ (exists e, faults e /\ res = Err e /\ holds s' r)
  | Err e => res = Err e /\ holds s' r
  | Panic => False
  end.
Definition answered {A} (faults : EventStoreError -> Prop) (res spec : outcome EventStoreError A) : Prop :=
  res = spec \/ exists e, faults e /\ res = Err e.

Class EventStoreLaws (S : Type) `{ES : EventStore S} (faults : EventStoreError -> Prop) : Type := {
  holds : S -> Run -> Prop;
  holds_ok s r : holds s r -> run_ok r;
  append_law s r batch :
    holds s r ->
    stepped holds faults (append_batch s batch).1 (append_batch s batch).2 r (run_append r batch) id run_hwm;
  seal_law s r status :
    holds s r ->
    stepped holds faults (seal s status).1 (seal s status).2 r (run_seal r status) id (fun _ => tt);
  scan_range_law s r from to d :
    holds s r -> 0 <= from -> answered faults (scan_range s from to d) (run_scan_range r from to d);
  scan_seq_law s r seq :
    holds s r -> 0 <= seq -> answered faults (scan_seq s seq) (run_scan_seq r seq);
  lookup_law s r kind key :
    holds s r -> answered faults (lookup_index s kind key) (Ok (first_seq kind key (run_log r)));
  iter_law s r kind :
    holds s r ->
    (exists l, iter_index_keys s kind = Ok l /\ NoDup l.*1 /\
      forall key seq, (key, seq) ∈ l <-> first_seq kind key (run_log r) = Some seq) \/
    (exists e, faults e /\ iter_index_keys s kind = Err e);
  manifest_law s r : holds s r -> manifest s = Ok (run_manifest r);
  hwm_law s r : holds s r -> high_watermark s = Ok (run_hwm r);
}.
End Spec.

(** ** Logs *)

Lemma first_seq_app kind key log log' :
  first_seq kind key (log ++ log') =
  match first_seq kind key log with Some s => Some s | None => first_seq kind key log' end.
Proof.
  unfold first_seq. induction log as [|a log IH]; cbn; [done|]. by destruct (has_key kind key a).
Qed.
Lemma max_ts_nonneg log : 0 <= max_ts log.
Proof. induction log; cbn; lia. Qed.
Lemma max_ts_snoc log a : max_ts (log ++ [a]) = Z.max (max_ts log) (en_ts_init (ap_entry a)).
Proof. induction log as [|b log IH]; cbn in *; [|rewrite IH]; lia. Qed.

Lemma check_seqs_None expected batch :
  check_seqs expected batch = None <->
  forall i a, batch !! i = Some a -> en_seq (ap_entry a) = expected + Z.of_nat i.
Proof.
  revert expected. induction batch as [|b batch IH]; intros expected; cbn; [done|].
  destruct (Z.eqb_spec (en_seq (ap_entry b)) expected) as [He|He]; cbn.
  - rewrite IH. split.
    + intros H [|i] a Ha; [injection Ha as <-; lia|]. rewrite (H i a Ha). lia.
    + intros H i a Ha. rewrite (H (S i) a Ha). lia.
  - split; [done|]. intros H. specialize (H 0%nat b eq_refl). lia.
Qed.

Lemma run_append_ok r batch r' : run_ok r -> run_append r batch = Ok r' -> run_ok r'.
Proof.
  intros [Hs Hh He]. unfold run_append. destruct (is_sealed (run_manifest r)) eqn:Hse; [done|].
  destruct (check_seqs _ batch) eqn:Hc; [done|]. rewrite check_seqs_None in Hc. intros [= <-].
  split; cbn.
  - intros i a Ha. apply lookup_app_Some in Ha as [Ha|[Hi Ha]]; [by apply Hs|].
    rewrite (Hc _ _ Ha). unfold run_hwm. lia.
  - done.
  - rewrite He. unfold is_sealed in *. cbn. by rewrite Hse.
Qed.
Lemma run_seal_ok r status r' : run_ok r -> run_seal r status = Ok r' -> run_ok r'.
Proof.
  intros [Hs Hh He]. unfold run_seal. destruct (bool_decide (status = Running)) eqn:Hr; [done|].
  apply bool_decide_eq_false in Hr.
  destruct (is_sealed (run_manifest r)) eqn:Hse; [done|]. intros [= <-]. cbn in He.
  unfold sealed_manifest. split; cbn; [done|by destruct (0 <? run_hwm r)|].
  change (run_hwm (mkRunLog _ (run_log r))) with (run_hwm r).
  destruct (0 <? run_hwm r); unfold is_sealed; cbn; destruct status; done.
Qed.

(** ** The in-memory backend keeps the promise *)

(** Indices over keys that are inserted once. *)
Lemma or_insert_get key key' seq m :
  ix_get key' (or_insert key seq m) =
  match ix_get key' m with Some s => Some s | None => if decide (key = key') then Some seq else None end.
Proof.
  unfold or_insert. destruct (decide (key = key')) as [->|Hn].
  - destruct (ix_get key' m) as [s|] eqn:H; [done|]. by rewrite ix_get_insert, decide_True.
  - destruct (ix_get key m); [by destruct (ix_get key' m)|].
    rewrite ix_get_insert, decide_False by done. by destruct (ix_get key' m).
Qed.
Lemma or_insert_nodup key seq m : NoDup (ix_keys m) -> NoDup (ix_keys (or_insert key seq m)).
Proof. intros H. unfold or_insert. destruct (ix_get key m); [done|by apply ix_nodup_insert]. Qed.

Definition index_holds (i : Indices) (log : list AppendEntry) : Prop :=
  forall kind, NoDup (ix_keys (map_for i kind)) /\
    forall key, ix_get key (map_for i kind) = first_seq kind key log.

Lemma map_for_set i kind kind' m :
  map_for (set_map_for i kind m) kind' = if decide (kind = kind') then m else map_for i kind'.
Proof. by destruct kind, kind'. Qed.

Lemma index_keys_get seq keys kind key : forall i,
  ix_get key (map_for (fold_left (index_one seq) keys i) kind) =
  match ix_get key (map_for i kind) with
  | Some s => Some s
  | None => if existsb (fun k => bool_decide (ik_kind k = kind) && bool_decide (ik_key k = key)) keys
            then Some seq else None
  end.
Proof.
  induction keys as [|k keys IH]; intros i; cbn; [by destruct (ix_get _ _)|].
  rewrite IH. unfold index_one. rewrite map_for_set. case_decide as Hk.
  - rewrite Hk, or_insert_get, (bool_decide_true (kind = kind)) by done. cbn [andb].
    destruct (ix_get key (map_for i kind)); [done|].
    case_decide; [by rewrite bool_decide_true|by rewrite bool_decide_false].
  - rewrite bool_decide_false by done. done.
Qed.
Lemma index_keys_nodup seq keys : forall i,
  (forall kind, NoDup (ix_keys (map_for i kind))) ->
  forall kind, NoDup (ix_keys (map_for (fold_left (index_one seq) keys i) kind)).
Proof.
  induction keys as [|k keys IH]; intros i Hi; cbn; [done|]. apply IH. intros kind.
  unfold index_one. rewrite map_for_set. case_decide; [by apply or_insert_nodup|done].
Qed.
Lemma index_holds_snoc i log a :
  index_holds i log ->
  index_holds (fold_left (index_one (en_seq (ap_entry a))) (ap_index_keys a) i) (log ++ [a]).
Proof.
  intros Hi kind. split; [apply index_keys_nodup; intros k; apply Hi|]. intros key.
  rewrite index_keys_get, first_seq_app, (proj2 (Hi kind)). destruct (first_seq kind key log); [done|].
  unfold first_seq, has_key. cbn. by destruct (existsb _ _).
Qed.

(** The state after the entries of [log]. *)
Record state_holds (state : RunState) (log : list AppendEntry) : Prop := {
  sh_entries : rs_entries state = ap_entry <$> log;
  sh_hwm : rs_high_watermark state = Z.of_nat (length log);
  sh_max : rs_max_ts_init state = max_ts log;
  sh_index : index_holds (rs_indices state) log;
}.
Lemma append_one_holds state log a :
  state_holds state log -> en_seq (ap_entry a) = Z.of_nat (length log) + 1 ->
  state_holds (append_one state a) (log ++ [a]) /\ rs_manifest (append_one state a) = rs_manifest state.
Proof.
  intros [He Hh Hm Hi] Hs. split; [|done]. split; cbn.
  - by rewrite He, fmap_app.
  - rewrite Hs, length_app. cbn. lia.
  - rewrite max_ts_snoc, <- Hm. unfold UnixNanos in *. destruct (Z.ltb_spec (rs_max_ts_init state) (en_ts_init (ap_entry a))); lia.
  - by apply index_holds_snoc.
Qed.
Lemma append_all_holds batch : forall state log,
  state_holds state log -> check_seqs (Z.of_nat (length log) + 1) batch = None ->
  state_holds (fold_left append_one batch state) (log ++ batch) /\
  rs_manifest (fold_left append_one batch state) = rs_manifest state.
Proof.
  induction batch as [|a batch IH]; intros state log Hs Hc; cbn in *; [by rewrite app_nil_r|].
  destruct (Z.eqb_spec (en_seq (ap_entry a)) (Z.of_nat (length log) + 1)) as [Ha|]; [|done]. cbn in Hc.
  destruct (append_one_holds _ _ _ Hs Ha) as [H1 H2].
  destruct (IH (append_one state a) (log ++ [a]) H1) as [H3 H4].
  { rewrite length_app. cbn. replace (Z.of_nat (length log + 1) + 1) with (Z.of_nat (length log) + 1 + 1) by lia. done. }
  rewrite <- app_assoc in H3. split; [done|]. by rewrite H4, H2.
Qed.

Definition memory_holds (self : MemoryBackend) (r : Run) : Prop :=
  run_ok r /\ exists state, self = Some state /\ rs_manifest state = run_manifest r /\ state_holds state (run_log r).

Section MemoryLaws.
Context `{EL : EventLibs}.
Definition no_faults (e : EventStoreError) : Prop := False.

Lemma memory_append_law self r batch :
  memory_holds self r ->
  stepped memory_holds no_faults (mem_append_batch self batch).1 (mem_append_batch self batch).2 r
    (run_append r batch) id run_hwm.
Proof.
  intros (Hok & state & -> & Hm & Hst). pose proof (sh_hwm _ _ Hst) as Hh.
  assert (Hkeep : memory_holds (Some state) r) by (split; [done|]; by exists state).
  unfold stepped, run_append, mem_append_batch. rewrite Hm, Hh. fold (run_hwm r).
  destruct (is_sealed (run_manifest r)) eqn:Hse; [by split|].
  destruct (check_seqs (run_hwm r + 1) batch) as [seq|] eqn:Hc.
  { rewrite bool_decide_false by (intros ->; done). by split. }
  left. assert (Hok' : run_ok (mkRunLog ((run_manifest r) <| rm_high_watermark :=
      Z.of_nat (length (run_log r ++ batch)) |>) (run_log r ++ batch))).
  { apply (run_append_ok r batch); [done|]. unfold run_append. by rewrite Hse, Hc. }
  case_bool_decide as Hb.
  - subst batch. cbn [fst snd]. unfold run_hwm in *. cbn [run_log id]. rewrite app_nil_r in *.
    split; [done|]. split; [done|]. exists state. split; [done|]. split; [|done]. rewrite Hm.
    pose proof (ro_hwm _ Hok) as Hw. unfold run_hwm in Hw. cbn [run_manifest]. rewrite <- Hw.
    by destruct (run_manifest r).
  - destruct (append_all_holds batch state (run_log r) Hst Hc) as [H1 H2]. cbn zeta. cbn [fst snd id].
    pose proof (sh_hwm _ _ H1) as H3. split; [by rewrite H3|]. split; [done|].
    eexists. split; [done|]. split; [cbn; by rewrite H2, Hm, H3|]. destruct H1. split; done.
Qed.

Lemma memory_seal_law self r status :
  memory_holds self r ->
  stepped memory_holds no_faults (mem_seal self status).1 (mem_seal self status).2 r
    (run_seal r status) id (fun _ => tt).
Proof.
  intros (Hok & state & -> & Hm & Hst).
  assert (Hkeep : memory_holds (Some state) r) by (split; [done|]; by exists state).
  pose proof (run_seal_ok r status) as Hnext. unfold stepped, run_seal, mem_seal in *. rewrite Hm in *.
  destruct (bool_decide (status = Running)); [by split|].
  destruct (is_sealed (run_manifest r)); [by split|]. left. split; [done|]. split; [by apply Hnext|].
  eexists. split; [done|]. split; [|destruct Hst; by split]. cbn.
  by rewrite (sh_hwm _ _ Hst), (sh_max _ _ Hst).
Qed.

Lemma slice_nil {A} lo hi (l : list A) : hi <= lo -> slice lo hi l = [].
Proof.
  intros H. unfold slice. apply drop_ge. rewrite length_take. lia.
Qed.

#[export] Instance memory_laws : EventStoreLaws MemoryBackend no_faults.
Proof.
  refine {| holds := memory_holds |}.
  - by intros s r [].
  - apply memory_append_law.
  - apply memory_seal_law.
  - intros s r from to d (Hok & state & -> & Hm & Hst) Hf. left. cbn.
    unfold mem_scan_range, run_scan_range. rewrite (sh_entries _ _ Hst). fold (run_entries r).
    assert (Hlen : Z.of_nat (length (run_entries r)) = run_hwm r)
      by (unfold run_entries, run_hwm; by rewrite length_fmap).
    rewrite Hlen. destruct (Z.eqb_spec from 0) as [->|Hf0]; [by rewrite orb_true_r|].
    rewrite orb_false_r. destruct (Z.ltb_spec to from) as [Hlt|Hge]; cbn [orb].
    + rewrite slice_nil by lia. by destruct d.
    + case_bool_decide as He.
      * rewrite He in Hlen |- *. cbn in Hlen. rewrite slice_nil by lia. by destruct d.
      * destruct (Z.leb_spec (Z.min to (run_hwm r)) (from - 1)); [rewrite slice_nil by lia; by destruct d|done].
  - intros s r seq (Hok & state & -> & Hm & Hst) Hs. left. cbn.
    unfold mem_scan_seq, run_scan_seq. rewrite (sh_entries _ _ Hst), (sh_hwm _ _ Hst).
    fold (run_entries r). destruct (Z.eqb_spec seq 0) as [|Hs0]; [done|]. cbn [orb].
    assert (Hlen : length (run_entries r) = length (run_log r)) by (unfold run_entries; by rewrite length_fmap).
    destruct (run_entries r !! Z.to_nat (seq - 1)) as [e|] eqn:He.
    + apply lookup_lt_Some in He as Hlt. by destruct (Z.ltb_spec (Z.of_nat (length (run_log r))) seq); [lia|].
    + apply lookup_ge_None in He as Hlt. by destruct (Z.ltb_spec (Z.of_nat (length (run_log r))) seq); [|lia].
  - intros s r kind key (Hok & state & -> & Hm & Hst). left. cbn.
    by rewrite (proj2 (sh_index _ _ Hst kind)).
  - intros s r kind (Hok & state & -> & Hm & Hst). left. destruct (sh_index _ _ Hst kind) as [Hn Hg].
    exists (map_for (rs_indices state) kind). split; [done|]. split; [done|]. intros key seq.
    rewrite <- Hg. split; [by apply ix_elem_get|apply ix_get_elem].
  - intros s r (Hok & state & -> & Hm & Hst). cbn. by rewrite Hm.
  - intros s r (Hok & state & -> & Hm & Hst). cbn. by rewrite (sh_hwm _ _ Hst).
Defined.

(** ** Histories of a store *)

Inductive store_op : Type :=
  | OpOpen (m : RunManifest)
  | OpAppend (batch : list AppendEntry)
  | OpSeal (status : RunStatus).
Definition store_step {S} `{EventStore S} (s : S) (op : store_op) : S * outcome EventStoreError Z :=
  match op with
  | OpOpen m => let '(s, r) := open_run s m in (s, _ ← r; Ok 0)
  | OpAppend batch => append_batch s batch
  | OpSeal status => let '(s, r) := seal s status in (s, _ ← r; Ok 0)
  end.
Fixpoint store_run {S} `{EventStore S} (s : S) (ops : list store_op)
  : S * list (outcome EventStoreError Z) :=
  match ops with
  | [] => (s, [])
  | op :: ops =>
      let '(s, r) := store_step s op in
      let '(s, rs) := store_run s ops in (s, r :: rs)
  end.

(** The same on runs: a new run replaces one that is sealed. *)
Definition spec_step (v : option Run) (op : store_op) : option Run * outcome EventStoreError Z :=
  match op, v with
  | OpOpen m, Some r =>
      if is_sealed (run_manifest r) then (Some (mkRunLog (fresh_manifest m) []), Ok 0)
      else (v, Err ErrCrashedPredecessor)
  | OpOpen m, None => (Some (mkRunLog (fresh_manifest m) []), Ok 0)
  | _, None => (v, Err ErrBackend)
  | OpAppend batch, Some r =>
      match run_append r batch with Ok r' => (Some r', Ok (run_hwm r')) | Err e => (v, Err e) | Panic => (v, Panic) end
  | OpSeal status, Some r =>
      match run_seal r status with Ok r' => (Some r', Ok 0) | Err e => (v, Err e) | Panic => (v, Panic) end
  end.
Fixpoint spec_run (v : option Run) (ops : list store_op) : option Run * list (outcome EventStoreError Z) :=
  match ops with
  | [] => (v, [])
  | op :: ops =>
      let '(v, r) := spec_step v op in
      let '(v, rs) := spec_run v ops in (v, r :: rs)
  end.

Definition memory_view (s : MemoryBackend) (v : option Run) : Prop :=
  match v with Some r => memory_holds s r | None => s = None end.

Lemma fresh_holds m : memory_holds (Some (mkRun (fresh_manifest m) [] indices_default 0 0)) (mkRunLog (fresh_manifest m) []).
Proof.
  split; [split; done|]. eexists. split; [done|]. split; [done|]. split; try done.
  intros kind. split; [destruct kind; constructor|by destruct kind].
Qed.

Lemma memory_step s v op :
  memory_view s v ->
  memory_view (store_step s op).1 (spec_step v op).1 /\ (store_step s op).2 = (spec_step v op).2.
Proof.
  intros Hv. destruct v as [r|]; [|cbn in Hv; subst s; destruct op; cbn; try done; split; [apply fresh_holds|done]].
  destruct op as [m|batch|status]; cbn in Hv |- *.
  - destruct Hv as (Hok & state & -> & Hm & Hst). unfold mem_open_run. cbn. rewrite Hm.
    destruct (is_sealed (run_manifest r)); cbn; [split; [apply fresh_holds|done]|].
    split; [|done]. split; [done|]. by exists state.
  - pose proof (memory_append_law s r batch Hv) as H. unfold stepped in H.
    destruct (mem_append_batch s batch) as [s' res]; cbn in *.
    destruct (run_append r batch); cbn; [destruct H as [[-> H]|(e & [] & _)]|destruct H as [-> H]|]; done.
  - pose proof (memory_seal_law s r status Hv) as H. unfold stepped in H.
    destruct (mem_seal s status) as [s' res]; cbn in *.
    destruct (run_seal r status); cbn; [destruct H as [[-> H]|(e & [] & _)]|destruct H as [-> H]|]; done.
Qed.

Lemma memory_run ops : forall s v, memory_view s v ->
  memory_view (store_run s ops).1 (spec_run v ops).1 /\ (store_run s ops).2 = (spec_run v ops).2.
Proof.
  induction ops as [|op ops IH]; intros s v Hv; cbn; [done|]. destruct (memory_step s v op Hv) as [H1 H2].
  destruct (store_step s op) as [s1 r1], (spec_step v op) as [v1 r1']. cbn in H1, H2.
  destruct (IH s1 v1 H1) as [H3 H4]. destruct (store_run s1 ops), (spec_run v1 ops). cbn in *.
  by rewrite H2, H4.
Qed.

(** over any history of opened runs, batches and seals the in-memory store
    answers as the specification on logs: a batch is appended whole or refused
    whole, with the durable high-watermark in the error; sequence numbers are
    the positions in the log; nothing is accepted once the run is sealed, and a
    run is replaced only when it is sealed.  Afterwards every read agrees with
    the log: ranges and single entries with their hash check, and for each key
    the first entry that carried it. *)
Theorem memory_store_refines ops :
  let s := (store_run memory_new ops).1 in
  let v := (spec_run None ops).1 in
  (store_run memory_new ops).2 = (spec_run None ops).2 /\
  match v with
  | None => s = memory_new
  | Some r =>
      run_ok r /\ manifest s = Ok (run_manifest r) /\ high_watermark s = Ok (run_hwm r) /\
      (forall from to d, 0 <= from -> scan_range s from to d = run_scan_range r from to d) /\
      (forall seq, 0 <= seq -> scan_seq s seq = run_scan_seq r seq) /\
      (forall kind key, lookup_index s kind key = Ok (first_seq kind key (run_log r))) /\
      (forall kind, exists l, iter_index_keys s kind = Ok l /\ NoDup l.*1 /\
        forall key seq, (key, seq) ∈ l <-> first_seq kind key (run_log r) = Some seq)
  end.
Proof.
  destruct (memory_run ops memory_new None eq_refl) as [Hv Hr]. cbn zeta. split; [done|].
  destruct (spec_run None ops).1 as [r|]; [|done]. cbn in Hv.
  set (s := (store_run memory_new ops).1) in *. pose (L := memory_laws).
  assert (Hh : holds (EventStoreLaws := L) s r) by exact Hv.
  assert (Hx : forall A (a b : outcome EventStoreError A), answered no_faults a b -> a = b)
    by (intros A a b [H|(e & [] & _)]; exact H).
  split_and!.
  - apply (holds_ok s r Hh).
  - apply (manifest_law s r Hh).
  - apply (hwm_law s r Hh).
  - intros. apply Hx. by apply (scan_range_law s r).
  - intros. apply Hx. by apply (scan_seq_law s r).
  - intros. apply Hx. by apply (lookup_law s r).
  - intros kind. destruct (iter_law s r kind Hh) as [H|(e & [] & _)]. exact H.
Qed.
End MemoryLaws.

(* ------------------------------------------------------------------ *)
(** * The reader *)

Definition DEFAULT_SCAN_CHUNK_SIZE : Z := 1024.

Record RangeScan : Type := mkScan {
  sc_direction : ScanDirection;
  sc_chunk_size : Z;
  sc_cursor : Z;
  sc_end : Z;
  sc_buffer : list EventStoreEntry;
  sc_has_more : bool;
  sc_reverse_clamped : bool;
}.
#[export] Instance range_scan_eta : Eta RangeScan := fun x =>
  mkScan (sc_direction x) (sc_chunk_size x) (sc_cursor x) (sc_end x) (sc_buffer x) (sc_has_more x)
    (sc_reverse_clamped x).

Definition range_scan_new (from to : Z) (direction : ScanDirection) (chunk_size : Z) : RangeScan :=
  let valid := negb (from =? 0) && (from <=? to) in
  let '(cursor, end_) :=
    if valid then match direction with Forward => (from, to) | Reverse => (to, from) end else (0, 0) in
  mkScan direction (Z.max chunk_size 1) cursor end_ [] valid false.

Definition saturating_add (a b : Z) : Z := saturate U64 (a + b).
Definition saturating_sub (a b : Z) : Z := saturate U64 (a - b).

Section Reader.
Context `{EL : EventLibs} {S : Type} `{ES : EventStore S}.

(** The bounds of the next chunk. *)
Definition chunk_bounds (self : RangeScan) : Z * Z :=
  match sc_direction self with
  | Forward =>
      let lo := sc_cursor self in
      (lo, Z.min (saturating_sub (saturating_add lo (sc_chunk_size self)) 1) (sc_end self))
  | Reverse =>
      let hi := sc_cursor self in
      (Z.max (saturating_sub hi (saturating_sub (sc_chunk_size self) 1)) (sc_end self), hi)
  end.

Definition read_chunk (backend : S) (self : RangeScan)
  : option (outcome EventStoreError unit) * RangeScan :=
  let '(chunk_lo, chunk_hi) := chunk_bounds self in
  match scan_range backend chunk_lo chunk_hi (sc_direction self) with
  | Ok [] => (Some (Ok tt), self <| sc_has_more := false |>)
  | Ok entries =>
      let self :=
        match sc_direction self with
        | Forward =>
            if sc_end self <=? chunk_hi then self <| sc_has_more := false |>
            else self <| sc_cursor := chunk_hi + 1 |>
        | Reverse =>
            if chunk_lo <=? sc_end self then self <| sc_has_more := false |>
            else self <| sc_cursor := chunk_lo - 1 |>
        end in
      (Some (Ok tt), self <| sc_buffer := sc_buffer self ++ entries |>)
  | Err e => (Some (Err e), self <| sc_has_more := false |>)
  | Panic => (Some Panic, self)
  end.

Definition fetch_chunk (backend : S) (self : RangeScan)
  : option (outcome EventStoreError unit) * RangeScan :=
  if negb (sc_has_more self) then (None, self)
  else
    match sc_direction self, sc_reverse_clamped self with
    | Reverse, false =>
        match high_watermark backend with
        | Ok hwm =>
            if (hwm =? 0) || (hwm <? sc_end self)
            then (Some (Ok tt), self <| sc_has_more := false |>)
            else read_chunk backend (self <| sc_cursor := Z.min (sc_cursor self) hwm |>
                                          <| sc_reverse_clamped := true |>)
        | Err e => (Some (Err e), self <| sc_has_more := false |>)
        | Panic => (Some Panic, self)
        end
    | _, _ => read_chunk backend self
    end.

(** [Iterator::next]: a turn of its loop returns an entry, an error or the end,
    or fetches a chunk; three turns are enough ([next_returns]). *)
Fixpoint next_loop (fuel : nat) (backend : S) (self : RangeScan)
  : option (outcome EventStoreError EventStoreEntry) * RangeScan :=
  match fuel with
  | O => (None, self)
  | Datatypes.S fuel =>
      match sc_buffer self with
      | entry :: rest => (Some (Ok entry), self <| sc_buffer := rest |>)
      | [] =>
          match fetch_chunk backend self with
          | (Some (Ok _), self) => next_loop fuel backend self
          | (Some (Err e), self) => (Some (Err e), self)
          | (Some Panic, self) => (Some Panic, self)
          | (None, self) => (None, self)
          end
      end
  end.
Definition scan_next (backend : S) (self : RangeScan) := next_loop 3 backend self.

(** All that the iterator yields. *)
Fixpoint scan_collect (fuel : nat) (backend : S) (self : RangeScan)
  : list (outcome EventStoreError EventStoreEntry) * RangeScan :=
  match fuel with
  | O => ([], self)
  | Datatypes.S fuel =>
      match scan_next backend self with
      | (None, self) => ([], self)
      | (Some x, self) => let '(xs, self) := scan_collect fuel backend self in (x :: xs, self)
      end
  end.

(** [EventStoreReader] *)
Definition reader_scan_range (from to : Z) (direction : ScanDirection) : RangeScan :=
  range_scan_new from to direction DEFAULT_SCAN_CHUNK_SIZE.
Definition scan_range_chunked (from to : Z) (direction : ScanDirection) (chunk_size : Z) : RangeScan :=
  range_scan_new from to direction (Z.max chunk_size 1).
End Reader.

(** ** Slices *)

Section Slices.
Context {A : Type}.
Implicit Types l : list A.

Lemma slice_split lo mid hi l :
  0 <= lo <= mid -> mid <= hi -> slice lo hi l = slice lo mid l ++ slice mid hi l.
Proof.
  intros H1 H2. unfold slice.
  assert (He : take (Z.to_nat mid) (take (Z.to_nat hi) l) = take (Z.to_nat mid) l)
    by (rewrite take_take; f_equal; lia).
  rewrite <- (take_drop (Z.to_nat mid) (take (Z.to_nat hi) l)) at 1. rewrite He.
  destruct (decide (Z.to_nat lo <= length (take (Z.to_nat mid) l))%nat) as [Hle|Hgt].
  - by rewrite drop_app_le.
  - rewrite length_take in Hgt. assert (Hl : (length l < Z.to_nat lo)%nat) by lia.
    rewrite (drop_ge (take (Z.to_nat mid) l)), (drop_ge (_ ++ _)), (drop_ge (take _ _) (Z.to_nat mid));
      rewrite ?length_app, ?length_drop, ?length_take; try done; lia.
Qed.
Lemma slice_nonempty lo hi l :
  0 <= lo < hi -> lo < Z.of_nat (length l) -> slice lo hi l <> [].
Proof.
  intros H1 H2 H. apply (f_equal length) in H. unfold slice in H.
  rewrite length_drop, length_take in H. cbn in H. lia.
Qed.
Lemma slice_length lo hi l :
  0 <= lo -> hi <= Z.of_nat (length l) -> Z.of_nat (length (slice lo hi l)) = Z.max 0 (hi - lo).
Proof. intros. unfold slice. rewrite length_drop, length_take. lia. Qed.
End Slices.

(** ** Scans *)

Section Scans.
Context `{EL : EventLibs} {S : Type} `{ES : EventStore S} {faults : EventStoreError -> Prop}.
Context {L : EventStoreLaws S faults}.
Implicit Types (s : S) (r : Run) (self : RangeScan).

(** What a scan is still to fetch. *)
Definition remaining r self : list EventStoreEntry :=
  if negb (sc_has_more self) then []
  else
    match sc_direction self with
    | Forward => slice (sc_cursor self - 1) (Z.min (sc_end self) (run_hwm r)) (run_entries r)
    | Reverse => reverse (slice (sc_end self - 1) (Z.min (sc_cursor self) (run_hwm r)) (run_entries r))
    end.
Definition scan_inv r self : Prop :=
  1 <= sc_chunk_size self < 2 ^ 64 /\ 0 <= sc_cursor self < 2 ^ 64 /\ 0 <= sc_end self < 2 ^ 64 /\
  (sc_has_more self = true ->
   match sc_direction self with
   | Forward => 1 <= sc_cursor self <= sc_end self
   | Reverse => 1 <= sc_end self <= sc_cursor self /\
       (sc_reverse_clamped self = true -> sc_cursor self <= run_hwm r)
   end).
(** Errors a scan can end with: a fault of the store, or an entry of the run
    whose hash is wrong. *)
Definition scan_error r (e : EventStoreError) : Prop :=
  faults e \/ exists en, en ∈ run_entries r /\ hash_ok en = false /\ e = ErrHashMismatch (en_seq en).

Lemma scan_chunk s r lo hi d :
  holds s r -> 1 <= lo ->
  scan_range s lo hi d = Ok (directed d (slice (lo - 1) (Z.min hi (run_hwm r)) (run_entries r))) \/
  exists e, scan_range s lo hi d = Err e /\ scan_error r e.
Proof.
  intros Hh Hlo. destruct (scan_range_law s r lo hi d Hh) as [->|(e & Hf & ->)]; [lia| |right; exists e; split; [done|by left]].
  unfold run_scan_range. destruct (Z.eqb_spec lo 0); [lia|]. cbn zeta.
  destruct (first_bad _) as [en|] eqn:Hb; [|by left]. right. exists (ErrHashMismatch (en_seq en)).
  split; [done|]. right. exists en. apply List.find_some in Hb as [Hin Hbad].
  apply negb_true_iff in Hbad. split; [|done]. apply list_elem_of_In in Hin. unfold slice in Hin.
  by apply subseteq_drop, subseteq_take in Hin.
Qed.

Ltac solve_scan_inv := unfold scan_inv; cbn; split_and!; try lia; intros; done.

(** The outcome of fetching: a chunk of what remains, or an error and the end. *)
Definition fetched r self (res : option (outcome EventStoreError unit) * RangeScan) : Prop :=
  (res.1 = Some (Ok tt) /\ scan_inv r res.2 /\ sc_buffer res.2 ++ remaining r res.2 = remaining r self /\
   (sc_buffer res.2 = [] -> sc_has_more res.2 = false)) \/
  (exists e, res.1 = Some (Err e) /\ scan_error r e /\ scan_inv r res.2 /\ sc_has_more res.2 = false /\
   sc_buffer res.2 = []).

Lemma saturating_add_eq a b : 0 <= a -> 0 <= b -> saturating_add a b = Z.min (2 ^ 64 - 1) (a + b).
Proof. intros. unfold saturating_add, saturate. change (imin U64) with 0. change (imax U64) with (2 ^ 64 - 1). lia. Qed.
Lemma saturating_sub_eq a b : a < 2 ^ 64 -> 0 <= b -> saturating_sub a b = Z.max 0 (a - b).
Proof. intros. unfold saturating_sub, saturate. change (imin U64) with 0. change (imax U64) with (2 ^ 64 - 1). lia. Qed.

Lemma run_entries_length r : Z.of_nat (length (run_entries r)) = run_hwm r.
Proof. unfold run_entries, run_hwm. by rewrite length_fmap. Qed.

Lemma read_forward s r self :
  holds s r -> run_hwm r < 2 ^ 64 - 1 -> scan_inv r self -> sc_direction self = Forward ->
  sc_has_more self = true -> sc_buffer self = [] -> fetched r self (read_chunk s self).
Proof.
  intros Hh Hw (Hk & Hc & He & Hm) Hd Hmore Hb. specialize (Hm Hmore). rewrite Hd in Hm.
  pose proof (run_entries_length r) as Hlen.
  unfold read_chunk, chunk_bounds. rewrite Hd. rewrite saturating_add_eq, saturating_sub_eq by lia.
  set (lo := sc_cursor self) in *.
  set (hi := Z.min (Z.max 0 (Z.min (2 ^ 64 - 1) (lo + sc_chunk_size self) - 1)) (sc_end self)).
  assert (Hrem : remaining r self = slice (lo - 1) (Z.min (sc_end self) (run_hwm r)) (run_entries r))
    by (unfold remaining; by rewrite Hmore, Hd).
  assert (Hhi : lo - 1 <= hi <= sc_end self /\ (hi = lo - 1 -> run_hwm r < lo)) by lia.
  destruct (scan_chunk s r lo hi Forward Hh) as [->|(e & -> & Hbad)]; [lia| |right; exists e; split_and!; try done; by solve_scan_inv].
  cbn [directed]. destruct (slice (lo - 1) (Z.min hi (run_hwm r)) (run_entries r)) as [|x xs] eqn:Hs.
  - left. cbn. split; [done|]. split; [by solve_scan_inv|]. rewrite Hb. split; [|done]. cbn. rewrite Hrem.
    assert (run_hwm r < lo).
    { destruct (Z.lt_ge_cases (run_hwm r) lo) as [|Hge]; [done|].
      exfalso. eapply slice_nonempty, Hs; lia. }
    symmetry. apply slice_nil. lia.
  - assert (Hne : lo <= hi).
    { destruct (Z.le_gt_cases lo hi) as [|Hgt]; [done|]. rewrite slice_nil in Hs by lia. done. }
    assert (Hle : lo <= run_hwm r).
    { destruct (Z.le_gt_cases lo (run_hwm r)) as [|Hgt]; [done|]. rewrite slice_nil in Hs by lia. done. }
    left. cbn zeta. destruct (Z.leb_spec (sc_end self) hi) as [Hend|Hend]; cbn; rewrite Hb; cbn.
    + split; [done|]. split; [by solve_scan_inv|]. split; [|done]. rewrite app_nil_r, Hrem, <- Hs. f_equal. lia.
    + split; [done|]. split; [split_and!; cbn; try lia; rewrite Hd; lia|]. split; [|done].
      rewrite Hrem. unfold remaining. cbn. rewrite Hmore, Hd. cbn.
      rewrite app_comm_cons. rewrite <- Hs.
      destruct (Z.le_gt_cases hi (run_hwm r)).
      * rewrite (slice_split (lo - 1) hi (Z.min (sc_end self) (run_hwm r))) by lia. f_equal; f_equal; lia.
      * rewrite (slice_nil (hi + 1 - 1)) by lia. rewrite app_nil_r. f_equal. lia.
Qed.

Lemma read_reverse s r self :
  holds s r -> scan_inv r self -> sc_direction self = Reverse -> sc_reverse_clamped self = true ->
  sc_has_more self = true -> sc_buffer self = [] -> fetched r self (read_chunk s self).
Proof.
  intros Hh (Hk & Hc & He & Hm) Hd Hcl Hmore Hb. specialize (Hm Hmore). rewrite Hd in Hm.
  destruct Hm as [Hm Hle]. specialize (Hle Hcl). pose proof (run_entries_length r) as Hlen.
  unfold read_chunk, chunk_bounds. rewrite Hd. rewrite !saturating_sub_eq by (rewrite ?saturating_sub_eq; lia).
  set (hi := sc_cursor self) in *. set (lo := Z.max (Z.max 0 (hi - Z.max 0 (sc_chunk_size self - 1))) (sc_end self)).
  assert (Hrem : remaining r self = reverse (slice (sc_end self - 1) hi (run_entries r))).
  { unfold remaining. rewrite Hmore, Hd. cbn. do 2 f_equal. lia. }
  assert (Hlo : sc_end self <= lo <= hi) by lia.
  destruct (scan_chunk s r lo hi Reverse Hh) as [->|(e & -> & Hbad)]; [lia| |right; exists e; split_and!; try done; by solve_scan_inv].
  replace (Z.min hi (run_hwm r)) with hi by lia. cbn [directed].
  destruct (reverse (slice (lo - 1) hi (run_entries r))) as [|x xs] eqn:Hs.
  { exfalso. apply (f_equal reverse) in Hs. rewrite reverse_involutive in Hs. eapply slice_nonempty, Hs; lia. }
  left. cbn zeta. destruct (Z.leb_spec lo (sc_end self)) as [Hend|Hend]; cbn; rewrite Hb; cbn.
  - split; [done|]. split; [by solve_scan_inv|]. split; [|done]. rewrite app_nil_r, Hrem, <- Hs. do 2 f_equal. lia.
  - split; [done|]. split; [split_and!; cbn; try lia; rewrite Hd, Hcl; lia|]. split; [|done].
    rewrite Hrem. unfold remaining. cbn. rewrite Hmore, Hd. cbn.
    rewrite app_comm_cons. rewrite <- Hs, <- reverse_app. f_equal.
    rewrite (slice_split (sc_end self - 1) (lo - 1) hi) by lia. f_equal. f_equal. lia.
Qed.

Lemma fetch_correct s r self :
  holds s r -> run_hwm r < 2 ^ 64 - 1 -> scan_inv r self -> sc_has_more self = true -> sc_buffer self = [] ->
  fetched r self (fetch_chunk s self).
Proof.
  intros Hh Hw Hi Hmore Hb. unfold fetch_chunk. rewrite Hmore. cbn [negb].
  destruct (sc_direction self) eqn:Hd; [by apply read_forward|].
  destruct (sc_reverse_clamped self) eqn:Hcl; [by apply read_reverse|].
  rewrite (hwm_law s r Hh). destruct Hi as (Hk & Hc & He & Hm). specialize (Hm Hmore). rewrite Hd in Hm.
  destruct Hm as [Hm _]. destruct ((run_hwm r =? 0) || (run_hwm r <? sc_end self)) eqn:Hz.
  - left. cbn. split; [done|]. split; [by solve_scan_inv|]. rewrite Hb. split; [|done]. unfold remaining. cbn.
    rewrite Hmore, Hd. cbn. rewrite slice_nil by lia. done.
  - set (self' := self <| sc_cursor := Z.min (sc_cursor self) (run_hwm r) |> <| sc_reverse_clamped := true |>).
    assert (Hrem : remaining r self' = remaining r self).
    { unfold remaining, self'. cbn. rewrite Hd. destruct (negb _); [done|]. do 2 f_equal. lia. }
    unfold fetched. rewrite <- Hrem. apply read_reverse; try done. unfold scan_inv, self'. cbn. rewrite Hd.
    split_and!; lia.
Qed.

(** What a scan is still to yield. *)
Definition pending r self : list EventStoreEntry := sc_buffer self ++ remaining r self.

(** A scan that has come to its end. *)
Definition stopped self : Prop := sc_has_more self = false /\ sc_buffer self = [].
Lemma stopped_next s self : stopped self -> scan_next s self = (None, self).
Proof.
  intros [Hm Hb]. unfold scan_next, next_loop. rewrite Hb. unfold fetch_chunk. by rewrite Hm.
Qed.

Lemma next_returns s r self :
  holds s r -> run_hwm r < 2 ^ 64 - 1 -> scan_inv r self ->
  (exists e self', scan_next s self = (Some (Err e), self') /\ scan_error r e /\ stopped self') \/
  match pending r self with
  | [] => exists self', scan_next s self = (None, self') /\ stopped self'
  | x :: xs => exists self', scan_next s self = (Some (Ok x), self') /\ scan_inv r self' /\ pending r self' = xs
  end.
Proof.
  intros Hh Hw Hi. unfold scan_next, pending. destruct (sc_buffer self) as [|y ys] eqn:Hb; cbn [app].
  2: { right. exists (self <| sc_buffer := ys |>). split; [unfold next_loop; by rewrite Hb|].
    split; [by unfold scan_inv in *; cbn in *|done]. }
  destruct (sc_has_more self) eqn:Hm.
  2: { assert (Hr : remaining r self = []) by (unfold remaining; by rewrite Hm). rewrite Hr.
    right. exists self. split; [|done]. by apply stopped_next. }
  destruct (fetch_correct s r self Hh Hw Hi Hm Hb) as [(H1 & H2 & H3 & H4)|(e & H1 & H2 & Hi1 & H3 & H4)];
    destruct (fetch_chunk s self) as [res self1] eqn:Hf; cbn [fst snd] in *; subst res.
  2: { left. exists e, self1. split; [cbn; by rewrite Hb, Hf|done]. }
  right. rewrite <- H3. destruct (sc_buffer self1) as [|y ys] eqn:Hb1; cbn [app].
  - specialize (H4 eq_refl). assert (Hr : remaining r self1 = []) by (unfold remaining; by rewrite H4).
    rewrite Hr. exists self1. split; [|done]. cbn. rewrite Hb, Hf, Hb1. unfold fetch_chunk. by rewrite H4.
  - exists (self1 <| sc_buffer := ys |>). split; [cbn; by rewrite Hb, Hf, Hb1|].
    split; [by unfold scan_inv in *; cbn in *|done].
Qed.

(** The entries a scan yields, then the end of the range or an error. *)
Lemma collect_correct s r : forall fuel self,
  holds s r -> run_hwm r < 2 ^ 64 - 1 -> scan_inv r self -> (1 + length (pending r self) < fuel)%nat ->
  exists got rest, pending r self = got ++ rest /\ stopped (scan_collect fuel s self).2 /\
    (((scan_collect fuel s self).1 = Ok <$> got /\ rest = []) \/
     (exists e, scan_error r e /\ (scan_collect fuel s self).1 = (Ok <$> got) ++ [Err e])).
Proof.
  induction fuel as [|fuel IH]; intros self Hh Hw Hi Hf; [lia|]. cbn [scan_collect].
  destruct (next_returns s r self Hh Hw Hi) as [(e & self' & -> & He & Hs)|Hn].
  - exists [], (pending r self). split; [done|]. destruct fuel as [|fuel]; [lia|]. cbn [scan_collect].
    rewrite stopped_next by done. cbn. split; [done|]. right. by exists e.
  - destruct (pending r self) as [|x xs] eqn:Hp.
    + destruct Hn as (self' & -> & Hs). exists [], []. split; [done|]. cbn. split; [done|]. by left.
    + destruct Hn as (self' & -> & Hi' & Hp'). cbn in Hf.
      destruct (IH self' Hh Hw Hi') as (got & rest & H1 & H2 & H3); [rewrite Hp'; lia|].
      exists (x :: got), rest. split; [by rewrite <- Hp', H1|].
      destruct (scan_collect fuel s self') as [out self2]. cbn [fst snd] in *. split; [done|].
      destruct H3 as [[-> ->]|(e & He & ->)]; [by left|right; by exists e].
Qed.

Definition requested_range r (from to : Z) (d : ScanDirection) : list EventStoreEntry :=
  if from =? 0 then [] else directed d (slice (from - 1) (Z.min to (run_hwm r)) (run_entries r)).

Lemma new_scan_inv r from to d chunk :
  fits_u64 from -> fits_u64 to -> fits_u64 chunk ->
  scan_inv r (scan_range_chunked from to d chunk) /\
  pending r (scan_range_chunked from to d chunk) = requested_range r from to d.
Proof.
  unfold fits_u64. intros Hf Ht Hk. unfold scan_range_chunked, range_scan_new, requested_range, pending, remaining, scan_inv.
  destruct (Z.eqb_spec from 0) as [->|H0]; cbn [negb andb].
  { cbn. split; [split_and!; try lia; done|done]. }
  destruct (Z.leb_spec from to); cbn.
  - destruct d; cbn; (split; [split_and!; try lia; intros; lia|done]).
  - split; [split_and!; try lia; done|]. rewrite slice_nil by lia. by destruct d.
Qed.

(** a range scan, whatever its chunk size and in both directions, also with
    bounds beyond the end of the run, yields the requested entries in order,
    each once, and then ends for good.  Only an error cuts it short: a fault of
    the store, or an entry of the run whose hash is wrong, is yielded as the
    last item; entries are never skipped silently.  (Two calls more than there
    are entries are enough to see the end.) *)
Theorem range_scan_correct s r from to d chunk :
  holds s r -> run_hwm r < 2 ^ 64 - 1 -> fits_u64 from -> fits_u64 to -> fits_u64 chunk ->
  let want := requested_range r from to d in
  let out := scan_collect (2 + length want) s (scan_range_chunked from to d chunk) in
  scan_next s out.2 = (None, out.2) /\
  (exists got rest, want = got ++ rest /\
    ((out.1 = Ok <$> got /\ rest = []) \/ exists e, scan_error r e /\ out.1 = (Ok <$> got) ++ [Err e])) /\
  ((forall e, ~ faults e) -> Forall (fun e => hash_ok e = true) (run_entries r) -> out.1 = Ok <$> want).
Proof.
  intros Hh Hw Hf Ht Hk. cbn zeta. destruct (new_scan_inv r from to d chunk Hf Ht Hk) as [Hi Hp].
  destruct (collect_correct s r (2 + length (requested_range r from to d)) _ Hh Hw Hi) as (got & rest & H1 & H2 & H3);
    [rewrite Hp; lia|].
  rewrite Hp in H1. split; [by apply stopped_next|]. split; [by exists got, rest|].
  intros Hnf Hall. destruct H3 as [[-> ->]|(e & [Hbad|(en & Hin & Hbad & _)] & _)].
  - by rewrite H1, app_nil_r.
  - by apply Hnf in Hbad.
  - rewrite Forall_forall in Hall. by rewrite (Hall en Hin) in Hbad.
Qed.
End Scans.
