(* ===== verification/EventVerifier.v ===== *)
(** * Verifying a run

    [crates/event_store/src/verifier/mod.rs]: the scan of a run that recomputes
    every hash, finds gaps, compares the stored indices with the entries and
    checks the manifest.  It reads through the interface of the store and makes
    no assumption about what it finds.  The texts of the reasons are left out. *)

From Stdlib Require Import ZArith Lia Ascii String Sorted.
From stdpp Require Import base numbers strings list gmap sorting.
From S2P Require Import Prelude Maps OrderEvents EventStore.
Local Open Scope Z_scope.

Record GapRange : Type := mkGap { gap_from : Z; gap_to : Z }.
Inductive IndexDrift : Type :=
  | MissingFromStored (rebuilt_seq : Z)
  | DivergentSeq (stored_seq rebuilt_seq : Z)
  | UnknownKey (stored_seq : Z)
  | DanglingTarget (stored_seq : Z)
  | TargetCorrupted (stored_seq : Z).
(** The finding [IndexDrift] is [Drift]. *)
Inductive ManifestField : Type := HighWatermark | StartTsInit | EndTsInit.
Inductive VerifyFinding : Type :=
  | HashMismatch (seq : Z)
  | Gap (range : GapRange)
  | SeqMismatch (table_key embedded_seq : Z)
  | Drift (kind : IndexKind) (key : string) (drift : IndexDrift)
  | ManifestMismatch (kind : ManifestField).
Record VerifyReport : Type := mkReport {
  vr_run_id : RunId;
  vr_status : RunStatus;
  vr_high_watermark : Z;
  vr_entries_scanned : Z;
  vr_findings : list VerifyFinding;
}.
Definition is_clean (self : VerifyReport) : bool :=
  match vr_findings self with [] => true | _ => false end.

Record EntryScan : Type := mkEntryScan {
  es_scanned : Z;
  es_min_ts : option Z;
  es_max_ts : option Z;
  es_intent_index : gmap string Z;
  es_clean_seqs : gset Z;
  es_corrupted_seqs : gset Z;
}.
#[export] Instance entry_scan_eta : Eta EntryScan := fun x =>
  mkEntryScan (es_scanned x) (es_min_ts x) (es_max_ts x) (es_intent_index x) (es_clean_seqs x)
    (es_corrupted_seqs x).
Definition entry_scan_new : EntryScan := mkEntryScan 0 None None ∅ ∅ ∅.

(** A [BTreeMap] of strings is visited in the order of its keys. *)
Definition by_key (x y : string * Z) : Prop := String.le x.1 y.1.
#[export] Instance by_key_dec x y : Decision (by_key x y) := _.
Definition bmap_iter (m : gmap string Z) : list (string * Z) := merge_sort by_key (map_to_list m).
(** [iter.collect()] into a map: a later pair replaces an earlier one. *)
Definition bmap_collect (l : list (string * Z)) : gmap string Z :=
  fold_left (fun m kv => <[kv.1 := kv.2]> m) l ∅.

Definition record_entry (scan : EntryScan) (entry : EventStoreEntry) : EntryScan :=
  let ts := en_ts_init entry in
  let scan := scan <| es_min_ts := Some (from_option (Z.min ts) ts (es_min_ts scan)) |>
                   <| es_max_ts := Some (from_option (Z.max ts) ts (es_max_ts scan)) |> in
  match hd_intent_id (en_headers entry) with
  | Some intent_id =>
      match es_intent_index scan !! intent_id with
      | Some _ => scan
      | None => scan <| es_intent_index := <[intent_id := en_seq entry]> (es_intent_index scan) |>
      end
  | None => scan
  end.

Definition extend_pending_gap (seq : Z) (gap_cursor : option Z) : option Z :=
  match gap_cursor with None => Some seq | Some _ => gap_cursor end.
(** The findings with a pending gap that ends before [next_seq]. *)
Definition flush_pending_gap (next_seq : Z) (gap_cursor : option Z) (findings : list VerifyFinding)
  : list VerifyFinding :=
  match gap_cursor with
  | Some start => findings ++ [Gap (mkGap start (next_seq - 1))]
  | None => findings
  end.

Definition corrupt (scan : EntryScan) (seq : Z) : EntryScan :=
  scan <| es_corrupted_seqs := {[seq]} ∪ es_corrupted_seqs scan |>
       <| es_scanned := es_scanned scan + 1 |>.

Section Verifier.
Context {S : Type} `{ES : EventStore S}.
Implicit Types (backend : S) (findings : list VerifyFinding).

(** One slot: the scan, the start of a gap that is pending, and the findings. *)
Definition scan_slot backend (st : EntryScan * option Z * list VerifyFinding) (seq : Z)
  : outcome EventStoreError (EntryScan * option Z * list VerifyFinding) :=
  let '(scan, gap_cursor, findings) := st in
  match scan_seq backend seq with
  | Ok (Some entry) =>
      let findings := flush_pending_gap seq gap_cursor findings in
      if negb (en_seq entry =? seq)
      then Ok (corrupt scan seq, None, findings ++ [SeqMismatch seq (en_seq entry)])
      else
        let scan := record_entry scan entry in
        Ok (scan <| es_clean_seqs := {[seq]} ∪ es_clean_seqs scan |>
                 <| es_scanned := es_scanned scan + 1 |>, None, findings)
  | Ok None | Err (ErrGap _ _ _) => Ok (scan, extend_pending_gap seq gap_cursor, findings)
  | Err (ErrHashMismatch bad) =>
      let findings := flush_pending_gap seq gap_cursor findings in
      Ok (corrupt scan seq, None, findings ++ [HashMismatch bad])
  | Err other => Err other
  | Panic => Panic
  end.
Fixpoint scan_slots backend (st : EntryScan * option Z * list VerifyFinding) (seqs : list Z)
  : outcome EventStoreError (EntryScan * option Z * list VerifyFinding) :=
  match seqs with
  | [] => Ok st
  | seq :: seqs => st ← scan_slot backend st seq; scan_slots backend st seqs
  end.
Definition scan_entries backend (high_watermark : Z)
  : outcome EventStoreError (EntryScan * list VerifyFinding) :=
  '(scan, gap_cursor, findings) ← scan_slots backend (entry_scan_new, None, []) (seqZ 1 high_watermark);
  Ok (scan, flush_pending_gap (high_watermark + 1) gap_cursor findings).

(** The difference of a key of the rebuilt index, and of one of the stored. *)
Definition diff_rebuilt (kind : IndexKind) (stored : gmap string Z) (kv : string * Z)
  : list VerifyFinding :=
  match stored !! kv.1 with
  | Some stored_seq =>
      if stored_seq =? kv.2 then [] else [Drift kind kv.1 (DivergentSeq stored_seq kv.2)]
  | None => [Drift kind kv.1 (MissingFromStored kv.2)]
  end.
Definition diff_stored (kind : IndexKind) (rebuilt : gmap string Z) (kv : string * Z)
  : list VerifyFinding :=
  match rebuilt !! kv.1 with None => [Drift kind kv.1 (UnknownKey kv.2)] | Some _ => [] end.
Definition diff_index (kind : IndexKind) (rebuilt stored : gmap string Z) : list VerifyFinding :=
  (bmap_iter rebuilt ≫= diff_rebuilt kind stored) ++ (bmap_iter stored ≫= diff_stored kind rebuilt).

Definition classify_target (stored_seq : Z) (scan : EntryScan) : option IndexDrift :=
  if bool_decide (stored_seq ∈ es_clean_seqs scan) then None
  else if bool_decide (stored_seq ∈ es_corrupted_seqs scan) then Some (TargetCorrupted stored_seq)
  else Some (DanglingTarget stored_seq).
Definition check_targets (kind : IndexKind) (scan : EntryScan) (keys : list (string * Z))
  : list VerifyFinding :=
  keys ≫= fun kv =>
    match classify_target kv.2 scan with Some drift => [Drift kind kv.1 drift] | None => [] end.

Definition cross_check_indices backend (scan : EntryScan) : outcome EventStoreError (list VerifyFinding) :=
  stored_intent ← iter_index_keys backend IntentId;
  client ← iter_index_keys backend ClientOrder;
  venue ← iter_index_keys backend VenueOrder;
  Ok (diff_index IntentId (es_intent_index scan) (bmap_collect stored_intent)
      ++ check_targets ClientOrder scan client ++ check_targets VenueOrder scan venue).

Definition validate_manifest (m : RunManifest) (high_watermark : Z) (scan : EntryScan)
  : list VerifyFinding :=
  (if negb (rm_high_watermark m =? high_watermark) then [ManifestMismatch HighWatermark] else [])
  ++ (match es_min_ts scan with
      | Some min_ts => if min_ts <? rm_start_ts_init m then [ManifestMismatch StartTsInit] else []
      | None => []
      end)
  ++ (if is_sealed m then
        match rm_end_ts_init m, es_max_ts scan with
        | Some stored, Some observed =>
            if negb (stored =? observed) then [ManifestMismatch EndTsInit] else []
        | None, Some _ | Some _, None => [ManifestMismatch EndTsInit]
        | None, None => []
        end
      else []).

Definition verify backend : outcome EventStoreError VerifyReport :=
  m ← manifest backend;
  hwm ← high_watermark backend;
  '(scan, findings) ← scan_entries backend hwm;
  drift ← cross_check_indices backend scan;
  Ok (mkReport (rm_run_id m) (rm_status m) hwm (es_scanned scan)
        (findings ++ drift ++ validate_manifest m hwm scan)).
End Verifier.

(** ** What the verifier finds in a slot *)

Inductive slot : Type := Clean (e : EventStoreEntry) | Moved (embedded : Z) | Bad (seq : Z) | Missing | Unreadable.

Section Slots.
Context {S : Type} `{ES : EventStore S}.
Implicit Types (s : S) (q n : Z) (findings : list VerifyFinding).

Definition slot_at s q : slot :=
  match scan_seq s q with
  | Ok (Some e) => if en_seq e =? q then Clean e else Moved (en_seq e)
  | Ok None | Err (ErrGap _ _ _) => Missing
  | Err (ErrHashMismatch bad) => Bad bad
  | _ => Unreadable
  end.
Definition slot_finding s q : option VerifyFinding :=
  match slot_at s q with
  | Moved m => Some (SeqMismatch q m)
  | Bad b => Some (HashMismatch b)
  | _ => None
  end.
Definition present s q : bool := match slot_at s q with Missing => false | _ => true end.
Definition clean_entry s q : option EventStoreEntry :=
  match slot_at s q with Clean e => Some e | _ => None end.
Definition clean_entries s n : list EventStoreEntry := omap (clean_entry s) (seqZ 1 n).

(** A maximal run of missing slots among the slots up to [n]. *)
Definition missing s (a b : Z) : Prop := forall q, a <= q <= b -> slot_at s q = Missing.
Definition gap_starts s (a : Z) : Prop := 1 <= a /\ (a = 1 \/ slot_at s (a - 1) <> Missing).
Definition gap_at s n (g : GapRange) : Prop :=
  gap_starts s (gap_from g) /\ gap_from g <= gap_to g <= n /\ missing s (gap_from g) (gap_to g) /\
  (gap_to g = n \/ slot_at s (gap_to g + 1) <> Missing).

Definition is_gap (f : VerifyFinding) : bool := match f with Gap _ => true | _ => false end.

Record slots_inv s n (scan : EntryScan) (cursor : option Z) (findings : list VerifyFinding) : Prop := {
  si_clean q : q ∈ es_clean_seqs scan <-> 1 <= q <= n /\ exists e, slot_at s q = Clean e;
  si_corrupt q : q ∈ es_corrupted_seqs scan <->
    1 <= q <= n /\ ((exists m, slot_at s q = Moved m) \/ exists b, slot_at s q = Bad b);
  si_scanned : es_scanned scan = Z.of_nat (length (List.filter (present s) (seqZ 1 n)));
  si_record : let scan' := fold_left record_entry (clean_entries s n) entry_scan_new in
    es_min_ts scan = es_min_ts scan' /\ es_max_ts scan = es_max_ts scan' /\
    es_intent_index scan = es_intent_index scan';
  si_cursor : match cursor with
    | Some a => gap_starts s a /\ a <= n /\ missing s a n
    | None => n = 0 \/ slot_at s n <> Missing
    end;
  si_gaps g : Gap g ∈ findings <-> gap_at s n g /\ gap_to g < n;
  si_other f : is_gap f = false ->
    f ∈ findings <-> exists q, 1 <= q <= n /\ slot_finding s q = Some f;
}.

Lemma gap_start_unique s a b n :
  gap_starts s a -> gap_starts s b -> a <= n -> b <= n -> missing s a n -> missing s b n -> a = b.
Proof.
  intros [Ha Ha'] [Hb Hb'] Han Hbn Ma Mb. destruct (Z.lt_trichotomy a b) as [Hlt|[->|Hlt]]; [|done|].
  - destruct Hb' as [->|Hb']; [lia|]. destruct Hb'. apply Ma. lia.
  - destruct Ha' as [->|Ha']; [lia|]. destruct Ha'. apply Mb. lia.
Qed.

Lemma gaps_present s n cursor findings :
  0 <= n -> slot_at s (n + 1) <> Missing ->
  match cursor with
  | Some a => gap_starts s a /\ a <= n /\ missing s a n
  | None => n = 0 \/ slot_at s n <> Missing
  end ->
  (forall g, Gap g ∈ findings <-> gap_at s n g /\ gap_to g < n) ->
  forall g, Gap g ∈ flush_pending_gap (n + 1) cursor findings <-> gap_at s (n + 1) g /\ gap_to g < n + 1.
Proof.
  intros Hn Hp Hc Hg g. assert (Hold : gap_at s n g /\ gap_to g < n <-> gap_at s (n + 1) g /\ gap_to g < n).
  { unfold gap_at. split; intros [(? & ? & ? & [?|?]) ?]; split_and!; try done; try lia; by right. }
  destruct cursor as [a|]; cbn.
  - rewrite elem_of_app, list_elem_of_singleton, Hg, Hold. destruct Hc as (Hs & Ha & Hm). split.
    + intros [[? ?]|[= ->]]; [split; [done|lia]|]. cbn. replace (n + 1 - 1) with n by lia.
      split; [|lia]. split_and!; cbn; try done; try lia. by right.
    + intros [Hga Hlt]. destruct (decide (gap_to g < n)) as [|Hge]; [by left|right].
      destruct Hga as (Hs' & Hr & Hm' & _). assert (gap_to g = n) as Heq by lia. rewrite Heq in Hm', Hr.
      destruct g as [f t]; cbn in *. do 2 f_equal; [|lia]. by apply (gap_start_unique s f a n); try lia.
  - rewrite Hg, Hold. split; [intros [? ?]; split; [done|lia]|]. intros [Hga Hlt]. split; [done|].
    destruct (decide (gap_to g = n)) as [Heq|]; [|lia]. exfalso.
    destruct Hga as ([H1 _] & Hr & Hm' & _). destruct Hc as [->|Hc]; [lia|]. apply Hc, Hm'. lia.
Qed.
Lemma gaps_missing s n findings :
  slot_at s (n + 1) = Missing ->
  (forall g, Gap g ∈ findings <-> gap_at s n g /\ gap_to g < n) ->
  forall g, Gap g ∈ findings <-> gap_at s (n + 1) g /\ gap_to g < n + 1.
Proof.
  intros Hp Hg g. rewrite Hg. unfold gap_at. split.
  - intros [(H1 & H2 & H3 & [H4|H4]) H5]; split_and!; try done; try lia; by right.
  - intros [(H1 & H2 & H3 & [H4|H4]) H5]; [lia|].
    assert (gap_to g <> n) by (intros Heq; by rewrite Heq in H4). split_and!; try done; try lia; by right.
Qed.

Lemma flush_other n cursor findings f :
  is_gap f = false -> f ∈ flush_pending_gap n cursor findings <-> f ∈ findings.
Proof.
  intros Hf. destruct cursor; cbn; [|done]. rewrite elem_of_app, list_elem_of_singleton.
  split; [intros [?| ->]; [done|done]|by left].
Qed.
(** The findings about slots gain that of slot [n + 1]. *)
Lemma others_step s n findings (findings' : list VerifyFinding) :
  0 <= n ->
  (forall f, is_gap f = false -> f ∈ findings <-> exists q, 1 <= q <= n /\ slot_finding s q = Some f) ->
  (forall f, is_gap f = false -> f ∈ findings' <-> f ∈ findings \/ slot_finding s (n + 1) = Some f) ->
  forall f, is_gap f = false -> f ∈ findings' <-> exists q, 1 <= q <= n + 1 /\ slot_finding s q = Some f.
Proof.
  intros Hn H H' f Hf. rewrite H', H by done. split.
  - intros [(q & Hq & Hs)|Hs]; [exists q; split; [lia|done]|exists (n + 1); split; [lia|done]].
  - intros (q & Hq & Hs). destruct (decide (q = n + 1)) as [->|]; [by right|left; exists q; split; [lia|done]].
Qed.
Lemma range_add (P : Z -> Prop) n (X : gset Z) :
  0 <= n -> (forall q, q ∈ X <-> 1 <= q <= n /\ P q) -> P (n + 1) ->
  forall q, q ∈ {[n + 1]} ∪ X <-> 1 <= q <= n + 1 /\ P q.
Proof.
  intros Hn H HP q. rewrite elem_of_union, elem_of_singleton, H. split.
  - intros [->|[? ?]]; split; try done; lia.
  - intros [? ?]. destruct (decide (q = n + 1)); [by left|right; split; [lia|done]].
Qed.
Lemma range_keep (P : Z -> Prop) n (X : gset Z) :
  0 <= n -> (forall q, q ∈ X <-> 1 <= q <= n /\ P q) -> ~ P (n + 1) ->
  forall q, q ∈ X <-> 1 <= q <= n + 1 /\ P q.
Proof.
  intros Hn H HP q. rewrite H. split; intros [? Hq]; (split; [|done]); [lia|].
  destruct (decide (q = n + 1)) as [->|]; [done|lia].
Qed.
Lemma seqZ_snoc n : 0 <= n -> seqZ 1 (n + 1) = seqZ 1 n ++ [n + 1].
Proof. intros Hn. rewrite seqZ_app by lia. rewrite (seqZ_cons (1 + n)) by lia. do 2 f_equal; lia. Qed.

Lemma record_frame scan e :
  es_clean_seqs (record_entry scan e) = es_clean_seqs scan /\
  es_corrupted_seqs (record_entry scan e) = es_corrupted_seqs scan /\
  es_scanned (record_entry scan e) = es_scanned scan.
Proof.
  unfold record_entry. cbn zeta. destruct (hd_intent_id _) as [i|]; [|done]. cbn.
  by destruct (es_intent_index scan !! i).
Qed.
Lemma record_ext scan scan' e :
  es_min_ts scan = es_min_ts scan' /\ es_max_ts scan = es_max_ts scan' /\
  es_intent_index scan = es_intent_index scan' ->
  es_min_ts (record_entry scan e) = es_min_ts (record_entry scan' e) /\
  es_max_ts (record_entry scan e) = es_max_ts (record_entry scan' e) /\
  es_intent_index (record_entry scan e) = es_intent_index (record_entry scan' e).
Proof.
  intros (H1 & H2 & H3). unfold record_entry. cbn zeta.
  destruct (hd_intent_id _) as [i|]; cbn; rewrite ?H1, ?H2, ?H3; [|done].
  destruct (es_intent_index scan' !! i); cbn; by rewrite ?H1, ?H2, ?H3.
Qed.

Lemma clean_entries_step s n :
  0 <= n ->
  clean_entries s (n + 1) = clean_entries s n ++ match slot_at s (n + 1) with Clean e => [e] | _ => [] end.
Proof.
  intros Hn. unfold clean_entries. rewrite seqZ_snoc, omap_app by done. f_equal. cbn. unfold clean_entry.
  by destruct (slot_at s (n + 1)).
Qed.
Lemma scanned_step s n :
  0 <= n ->
  Z.of_nat (length (List.filter (present s) (seqZ 1 (n + 1)))) =
  Z.of_nat (length (List.filter (present s) (seqZ 1 n))) + (if present s (n + 1) then 1 else 0).
Proof.
  intros Hn. rewrite seqZ_snoc, List.filter_app, length_app by done. cbn. destruct (present s (n + 1)); cbn; lia.
Qed.

(** A slot whose entry cannot be used. *)
Lemma corrupt_step s n scan cursor findings f :
  0 <= n -> slots_inv s n scan cursor findings -> slot_finding s (n + 1) = Some f ->
  slots_inv s (n + 1) (corrupt scan (n + 1)) None (flush_pending_gap (n + 1) cursor findings ++ [f]).
Proof.
  intros Hn Hi Hf. assert (Hslot : (exists m, slot_at s (n + 1) = Moved m) \/ exists b, slot_at s (n + 1) = Bad b).
  { unfold slot_finding in Hf. destruct (slot_at s (n + 1)); try done; [left|right]; by eexists. }
  assert (Hnm : slot_at s (n + 1) <> Missing) by (destruct Hslot as [[? ->]|[? ->]]; done).
  assert (Hng : is_gap f = false).
  { unfold slot_finding in Hf. destruct (slot_at s (n + 1)); try done; by injection Hf as <-. }
  split; cbn.
  - apply (range_keep (fun q => exists e, slot_at s q = Clean e)); [done|apply Hi|].
    intros [e He]. destruct Hslot as [[? Hs]|[? Hs]]; congruence.
  - apply (range_add (fun q => (exists m, slot_at s q = Moved m) \/ exists b, slot_at s q = Bad b));
      [done|apply Hi|done].
  - rewrite scanned_step, (si_scanned _ _ _ _ _ Hi) by done. unfold present.
    destruct Hslot as [[? ->]|[? ->]]; lia.
  - rewrite clean_entries_step by done.
    replace (match slot_at s (n + 1) with Clean e => [e] | _ => [] end) with (@nil EventStoreEntry)
      by (destruct Hslot as [[? ->]|[? ->]]; done).
    rewrite app_nil_r. apply Hi.
  - by right.
  - intros g. rewrite elem_of_app, list_elem_of_singleton.
    rewrite <- (gaps_present s n cursor findings Hn Hnm (si_cursor _ _ _ _ _ Hi) (si_gaps _ _ _ _ _ Hi)).
    split; [intros [?| <-]; done|by left].
  - apply (others_step s n findings); [done|apply Hi|]. intros f' Hf'.
    rewrite elem_of_app, list_elem_of_singleton, flush_other by done. rewrite Hf.
    split; (intros [?|Heq]; [by left|right]); congruence.
Qed.

Lemma clean_step s n scan cursor findings e :
  0 <= n -> slots_inv s n scan cursor findings -> slot_at s (n + 1) = Clean e ->
  let scan' := record_entry scan e in
  slots_inv s (n + 1) (scan' <| es_clean_seqs := {[n + 1]} ∪ es_clean_seqs scan' |>
                             <| es_scanned := es_scanned scan' + 1 |>) None
    (flush_pending_gap (n + 1) cursor findings).
Proof.
  intros Hn Hi He. cbn zeta. destruct (record_frame scan e) as (F1 & F2 & F3). split; cbn; rewrite ?F1, ?F2, ?F3.
  - apply (range_add (fun q => exists e, slot_at s q = Clean e)); [done|apply Hi|by eexists].
  - apply (range_keep (fun q => (exists m, slot_at s q = Moved m) \/ exists b, slot_at s q = Bad b));
      [done|apply Hi|]. intros [[? Hs]|[? Hs]]; congruence.
  - rewrite scanned_step, (si_scanned _ _ _ _ _ Hi) by done. unfold present. by rewrite He.
  - rewrite clean_entries_step, He, fold_left_app by done. cbn. apply record_ext, Hi.
  - right. congruence.
  - apply gaps_present; [done|congruence|apply Hi..].
  - apply (others_step s n findings); [done|apply Hi|]. intros f' Hf'. rewrite flush_other by done.
    unfold slot_finding. rewrite He. naive_solver.
Qed.

Lemma missing_step s n scan cursor findings :
  0 <= n -> slots_inv s n scan cursor findings -> slot_at s (n + 1) = Missing ->
  slots_inv s (n + 1) scan (extend_pending_gap (n + 1) cursor) findings.
Proof.
  intros Hn Hi He. split.
  - apply (range_keep (fun q => exists e, slot_at s q = Clean e)); [done|apply Hi|]. intros [? Hs]; congruence.
  - apply (range_keep (fun q => (exists m, slot_at s q = Moved m) \/ exists b, slot_at s q = Bad b));
      [done|apply Hi|]. intros [[? Hs]|[? Hs]]; congruence.
  - rewrite scanned_step, (si_scanned _ _ _ _ _ Hi) by done. unfold present. rewrite He. lia.
  - rewrite clean_entries_step, He, app_nil_r by done. apply Hi.
  - pose proof (si_cursor _ _ _ _ _ Hi) as Hc. destruct cursor as [a|]; cbn.
    + destruct Hc as (H1 & H2 & H3). split_and!; try done; [lia|]. intros q Hq.
      destruct (decide (q = n + 1)) as [->|]; [done|]. apply H3. lia.
    + split; [|split; [lia|]].
      * split; [lia|]. destruct Hc as [->|Hc]; [by left|right]. by replace (n + 1 - 1) with n by lia.
      * intros q Hq. by replace q with (n + 1) by lia.
  - apply gaps_missing; [done|apply Hi].
  - apply (others_step s n findings); [done|apply Hi|]. intros f' Hf'. unfold slot_finding. rewrite He. naive_solver.
Qed.

Lemma scan_slot_step s n scan cursor findings :
  0 <= n -> slots_inv s n scan cursor findings -> slot_at s (n + 1) <> Unreadable ->
  exists scan' cursor' findings',
    scan_slot s (scan, cursor, findings) (n + 1) = Ok (scan', cursor', findings') /\
    slots_inv s (n + 1) scan' cursor' findings'.
Proof.
  intros Hn Hi Hr. pose proof (corrupt_step s n scan cursor findings) as Hc.
  pose proof (clean_step s n scan cursor findings) as Hcl. pose proof (missing_step s n scan cursor findings) as Hm.
  unfold slot_finding in Hc. unfold slot_at in *. unfold scan_slot.
  destruct (scan_seq s (n + 1)) as [[e|]|err|]; cbn zeta in *.
  - destruct (en_seq e =? n + 1); cbn [negb] in *; do 3 eexists; (split; [done|]); [by apply Hcl|by apply Hc].
  - do 3 eexists; (split; [done|]). by apply Hm.
  - destruct err; try done; do 3 eexists; (split; [done|]); [by apply Hc|by apply Hm].
  - done.
Qed.

Lemma slots_inv_0 s : slots_inv s 0 entry_scan_new None [].
Proof.
  split; cbn; try done.
  - intros q. split; [set_solver|]. intros [? _]. lia.
  - intros q. split; [set_solver|]. intros [? _]. lia.
  - by left.
  - intros g. split; [by intros ?%elem_of_nil|]. intros [([? _] & ? & _) ?]. lia.
  - intros f _. split; [by intros ?%elem_of_nil|]. intros (q & ? & _). lia.
Qed.

Lemma scan_slots_app s st l1 l2 :
  scan_slots s st (l1 ++ l2) = st ← scan_slots s st l1; scan_slots s st l2.
Proof.
  revert st. induction l1 as [|q l1 IH]; intros st; cbn; [done|]. destruct (scan_slot s st q); cbn; [apply IH|done..].
Qed.

Lemma scan_all s n :
  0 <= n -> (forall q, 1 <= q <= n -> slot_at s q <> Unreadable) ->
  exists scan cursor findings,
    scan_slots s (entry_scan_new, None, []) (seqZ 1 n) = Ok (scan, cursor, findings) /\
    slots_inv s n scan cursor findings.
Proof.
  intros Hn. revert n Hn. apply (natlike_ind (fun n => _ -> _)).
  - intros _. exists entry_scan_new, None, []. split; [done|apply slots_inv_0].
  - intros n Hn IH Hr. destruct IH as (scan & cursor & findings & Hrun & Hi); [intros q Hq; apply Hr; lia|].
    destruct (scan_slot_step s n scan cursor findings Hn Hi) as (scan' & cursor' & findings' & Hs & Hi');
      [apply Hr; lia|].
    exists scan', cursor', findings'. unfold Z.succ. split; [|done].
    rewrite seqZ_snoc, scan_slots_app, Hrun by done. cbn [mbind outcome_bind scan_slots]. by rewrite Hs.
Qed.

(** The first of the entries that carries the intent. *)
Definition has_intent (key : string) (e : EventStoreEntry) : bool :=
  bool_decide (hd_intent_id (en_headers e) = Some key).
Definition first_intent (key : string) (l : list EventStoreEntry) : option Z :=
  en_seq <$> List.find (has_intent key) l.
Lemma first_intent_snoc key l e :
  first_intent key (l ++ [e]) =
  match first_intent key l with Some q => Some q | None => if has_intent key e then Some (en_seq e) else None end.
Proof.
  unfold first_intent. induction l as [|x l IH]; cbn; [by destruct (has_intent key e)|].
  by destruct (has_intent key x).
Qed.

(** The bounds of the timestamps. *)
Definition least (l : list EventStoreEntry) (m : option Z) : Prop :=
  match m with
  | None => l = []
  | Some m => (exists e, e ∈ l /\ en_ts_init e = m) /\ forall e, e ∈ l -> m <= en_ts_init e
  end.
Definition greatest (l : list EventStoreEntry) (m : option Z) : Prop :=
  match m with
  | None => l = []
  | Some m => (exists e, e ∈ l /\ en_ts_init e = m) /\ forall e, e ∈ l -> en_ts_init e <= m
  end.

Lemma recorded l :
  let scan := fold_left record_entry l entry_scan_new in
  least l (es_min_ts scan) /\ greatest l (es_max_ts scan) /\
  forall key, es_intent_index scan !! key = first_intent key l.
Proof.
  induction l as [|e l IH] using rev_ind; cbn zeta; [by split_and!|].
  rewrite fold_left_app. cbn [fold_left]. set (scan := fold_left record_entry l entry_scan_new) in *.
  destruct IH as (Hmin & Hmax & Hidx).
  assert (Hm : es_min_ts (record_entry scan e) = Some (from_option (Z.min (en_ts_init e)) (en_ts_init e) (es_min_ts scan)) /\
    es_max_ts (record_entry scan e) = Some (from_option (Z.max (en_ts_init e)) (en_ts_init e) (es_max_ts scan))).
  { unfold record_entry. cbn zeta. destruct (hd_intent_id _) as [i|]; cbn; [|done].
    by destruct (es_intent_index scan !! i). }
  destruct Hm as [-> ->]. unfold UnixNanos in *. split_and!.
  - cbn. destruct (es_min_ts scan) as [m|]; cbn in *.
    + destruct Hmin as [(x & Hx & <-) Hall]. split.
      * destruct (Z.min_dec (en_ts_init e) (en_ts_init x)) as [->| ->]; [exists e|exists x]; split; set_solver.
      * intros y [Hy| ->%list_elem_of_singleton]%elem_of_app; [specialize (Hall y Hy)|]; lia.
    + subst l. split; [exists e; split; [set_solver|done]|]. intros y ->%list_elem_of_singleton. lia.
  - cbn. destruct (es_max_ts scan) as [m|]; cbn in *.
    + destruct Hmax as [(x & Hx & <-) Hall]. split.
      * destruct (Z.max_dec (en_ts_init e) (en_ts_init x)) as [->| ->]; [exists e|exists x]; split; set_solver.
      * intros y [Hy| ->%list_elem_of_singleton]%elem_of_app; [specialize (Hall y Hy)|]; lia.
    + subst l. split; [exists e; split; [set_solver|done]|]. intros y ->%list_elem_of_singleton. lia.
  - intros key. rewrite first_intent_snoc, <- Hidx. unfold record_entry, has_intent. cbn zeta.
    destruct (hd_intent_id (en_headers e)) as [i|]; cbn.
    + destruct (es_intent_index scan !! i) as [q|] eqn:Hi; cbn.
      * case_bool_decide as Heq; [injection Heq as ->; by rewrite Hi|by destruct (es_intent_index scan !! key)].
      * destruct (decide (i = key)) as [->|Hne].
        -- by rewrite lookup_insert_eq, Hi, bool_decide_true.
        -- rewrite lookup_insert_ne, bool_decide_false by congruence. by destruct (es_intent_index scan !! key).
    + rewrite bool_decide_false by done. by destruct (es_intent_index scan !! key).
Qed.

(** ** Indices *)

Lemma bmap_iter_elem m key q : (key, q) ∈ bmap_iter m <-> m !! key = Some q.
Proof. unfold bmap_iter. rewrite merge_sort_Permutation. apply elem_of_map_to_list. Qed.
Lemma bmap_collect_elem (l : list (string * Z)) key q :
  NoDup l.*1 -> bmap_collect l !! key = Some q <-> (key, q) ∈ l.
Proof.
  unfold bmap_collect. induction l as [|[k v] l IH] using rev_ind; intros Hn; [by split; [|intros ?%elem_of_nil]|].
  rewrite fmap_app in Hn. apply NoDup_app in Hn as (Hn & Hd & _). rewrite fold_left_app. cbn.
  rewrite elem_of_app, list_elem_of_singleton. destruct (decide (k = key)) as [->|Hne].
  - rewrite lookup_insert_eq. split; [intros [= ->]; by right|]. intros [Hin|[= ->]]; [|done].
    destruct (Hd key); [|by left]. apply list_elem_of_fmap. by exists (key, q).
  - rewrite lookup_insert_ne by done. rewrite IH by done. split; [by left|]. intros [?|[= ? ?]]; [done|congruence].
Qed.

(** What differs between the index that the entries give and the stored one. *)
Definition drift_of (rebuilt stored : option Z) : option IndexDrift :=
  match rebuilt, stored with
  | Some r, Some q => if q =? r then None else Some (DivergentSeq q r)
  | Some r, None => Some (MissingFromStored r)
  | None, Some q => Some (UnknownKey q)
  | None, None => None
  end.
Lemma diff_index_elem kind rebuilt stored f :
  f ∈ diff_index kind rebuilt stored <->
  exists key d, f = Drift kind key d /\ drift_of (rebuilt !! key) (stored !! key) = Some d.
Proof.
  unfold diff_index. rewrite elem_of_app, !list_elem_of_bind. unfold drift_of. split.
  - intros [([key r] & Hf & Hk%bmap_iter_elem)|([key q] & Hf & Hk%bmap_iter_elem)]; cbn in *.
    + unfold diff_rebuilt in Hf. cbn in Hf. exists key. rewrite Hk. destruct (stored !! key) as [q|]; cbn in *.
      * destruct (q =? r); [by apply elem_of_nil in Hf|]. apply list_elem_of_singleton in Hf as ->. by eexists.
      * apply list_elem_of_singleton in Hf as ->. by eexists.
    + unfold diff_stored in Hf. cbn in Hf. exists key. rewrite Hk. destruct (rebuilt !! key) as [r|]; cbn in *.
      * by apply elem_of_nil in Hf.
      * apply list_elem_of_singleton in Hf as ->. by eexists.
  - intros (key & d & -> & Hd). destruct (rebuilt !! key) as [r|] eqn:Hr; [left|right].
    + exists (key, r). rewrite bmap_iter_elem. split; [|done]. unfold diff_rebuilt. cbn.
      destruct (stored !! key) as [q|]; [destruct (q =? r); [done|]|]; injection Hd as <-; by left.
    + destruct (stored !! key) as [q|] eqn:Hq; [|done]. exists (key, q). rewrite bmap_iter_elem. split; [|done].
      unfold diff_stored. cbn. rewrite Hr. injection Hd as <-. by left.
Qed.
Lemma check_targets_elem kind scan keys f :
  f ∈ check_targets kind scan keys <->
  exists key q d, (key, q) ∈ keys /\ classify_target q scan = Some d /\ f = Drift kind key d.
Proof.
  unfold check_targets. rewrite list_elem_of_bind. split.
  - intros ([key q] & Hf & Hk). cbn in Hf. destruct (classify_target q scan) as [d|] eqn:Hd; [|by apply elem_of_nil in Hf].
    apply list_elem_of_singleton in Hf as ->. by exists key, q, d.
  - intros (key & q & d & Hk & Hd & ->). exists (key, q). cbn. rewrite Hd. split; [by left|done].
Qed.

(** ** The report *)

Lemma gaps_final s n cursor findings :
  match cursor with
  | Some a => gap_starts s a /\ a <= n /\ missing s a n
  | None => n = 0 \/ slot_at s n <> Missing
  end ->
  (forall g, Gap g ∈ findings <-> gap_at s n g /\ gap_to g < n) ->
  forall g, Gap g ∈ flush_pending_gap (n + 1) cursor findings <-> gap_at s n g.
Proof.
  intros Hc Hg g. destruct cursor as [a|]; cbn.
  - rewrite elem_of_app, list_elem_of_singleton, Hg. destruct Hc as (Hs & Ha & Hm). split.
    + intros [[? _]|[= ->]]; [done|]. replace (n + 1 - 1) with n by lia. split_and!; cbn; first [done|lia|by left].
    + intros Hga. destruct (decide (gap_to g < n)) as [|Hge]; [by left|right].
      destruct Hga as (Hs' & Hr & Hm' & _). assert (gap_to g = n) as Heq by lia. rewrite Heq in Hm', Hr.
      destruct g as [f t]; cbn in *. do 2 f_equal; [|lia]. by apply (gap_start_unique s f a n); try lia.
  - rewrite Hg. split; [by intros [? _]|]. intros Hga. split; [done|].
    destruct (decide (gap_to g = n)) as [Heq|]; [|destruct Hga as (_ & ? & _); lia]. exfalso.
    destruct Hga as ([H1 _] & Hr & Hm' & _). destruct Hc as [->|Hc]; [lia|]. apply Hc, Hm'. lia.
Qed.

(** A run that can be read, with what is stored besides its entries. *)
Record readable s (m : RunManifest) (hwm : Z) (intents clients venues : list (string * Z)) : Prop := {
  rd_manifest : manifest s = Ok m;
  rd_hwm : high_watermark s = Ok hwm;
  rd_range : 0 <= hwm;
  rd_slots q : 1 <= q <= hwm -> slot_at s q <> Unreadable;
  rd_intents : iter_index_keys s IntentId = Ok intents;
  rd_clients : iter_index_keys s ClientOrder = Ok clients;
  rd_venues : iter_index_keys s VenueOrder = Ok venues;
}.
(** A run without damage. *)
Record intact s (m : RunManifest) (hwm : Z) (intents clients venues : list (string * Z)) : Prop := {
  it_slots q : 1 <= q <= hwm -> exists e, slot_at s q = Clean e;
  it_intents key : bmap_collect intents !! key = first_intent key (clean_entries s hwm);
  it_targets key q : (key, q) ∈ clients ++ venues -> 1 <= q <= hwm;
  it_hwm : rm_high_watermark m = hwm;
  it_start e : e ∈ clean_entries s hwm -> rm_start_ts_init m <= en_ts_init e;
  it_end : is_sealed m = true -> greatest (clean_entries s hwm) (rm_end_ts_init m);
}.
(** What is wrong with an entry of the other two indices. *)
Definition target_drift s hwm q : option IndexDrift :=
  if (1 <=? q) && (q <=? hwm) then
    match slot_at s q with
    | Clean _ => None
    | Moved _ | Bad _ => Some (TargetCorrupted q)
    | _ => Some (DanglingTarget q)
    end
  else Some (DanglingTarget q).

Lemma classify_target_eq s n scan cursor findings q :
  slots_inv s n scan cursor findings -> classify_target q scan = target_drift s n q.
Proof.
  intros Hi. unfold classify_target, target_drift. pose proof (si_clean _ _ _ _ _ Hi q) as Hc.
  pose proof (si_corrupt _ _ _ _ _ Hi q) as Hk. case_bool_decide as H1.
  - apply Hc in H1 as [Hr [e ->]]. by replace ((1 <=? q) && (q <=? n)) with true by lia.
  - case_bool_decide as H2.
    + apply Hk in H2 as [Hr Hs]. replace ((1 <=? q) && (q <=? n)) with true by lia.
      by destruct Hs as [[? ->]|[? ->]].
    + destruct ((1 <=? q) && (q <=? n)) eqn:Hr; [|done]. destruct (slot_at s q) eqn:Hs; try done.
      * destruct H1. apply Hc. split; [lia|by eexists].
      * destruct H2. apply Hk. split; [lia|]. left. by eexists.
      * destruct H2. apply Hk. split; [lia|]. right. by eexists.
Qed.

Lemma greatest_unique l m m' : greatest l m -> greatest l m' -> m = m'.
Proof.
  destruct m as [m|], m' as [m'|]; cbn; try done.
  - intros [(e & He & <-) H1] [(e' & He' & <-) H2]. f_equal. unfold UnixNanos in *.
    specialize (H1 _ He'). specialize (H2 _ He). lia.
  - intros [(e & He & _) _] ->. by apply elem_of_nil in He.
  - intros -> [(e & He & _) _]. by apply elem_of_nil in He.
Qed.

Lemma manifest_clean m hwm scan l :
  least l (es_min_ts scan) -> greatest l (es_max_ts scan) ->
  validate_manifest m hwm scan = [] <->
  rm_high_watermark m = hwm /\ (forall e, e ∈ l -> rm_start_ts_init m <= en_ts_init e) /\
  (is_sealed m = true -> greatest l (rm_end_ts_init m)).
Proof.
  intros Hl Hg. unfold validate_manifest.
  assert (Happ : forall a b c : list VerifyFinding, a ++ b ++ c = [] <-> a = [] /\ b = [] /\ c = []).
  { intros a b c. split; [by intros [-> [-> ->]%app_nil]%app_nil|by intros (-> & -> & ->)]. }
  rewrite Happ. f_equiv; [|f_equiv].
  - destruct (Z.eqb_spec (rm_high_watermark m) hwm); cbn; split; done.
  - destruct (es_min_ts scan) as [t|]; cbn in Hl.
    + destruct Hl as [(e & He & <-) Hall]. unfold UnixNanos in *.
      destruct (Z.ltb_spec (en_ts_init e) (rm_start_ts_init m)); split; try done; intros H'.
      * specialize (H' e He). lia.
      * intros x Hx. specialize (Hall x Hx). lia.
    + subst l. split; [|done]. intros _ e He. by apply elem_of_nil in He.
  - destruct (is_sealed m); [|by split]. unfold UnixNanos in *. split.
    + intros H' _. destruct (rm_end_ts_init m) as [t|], (es_max_ts scan) as [o|]; [|discriminate H'..|exact Hg].
      destruct (Z.eqb_spec t o) as [Heq|]; [rewrite Heq; exact Hg|discriminate H'].
    + intros H'. specialize (H' eq_refl). apply (greatest_unique _ _ _ H') in Hg. rewrite Hg.
      destruct (es_max_ts scan); [by rewrite Z.eqb_refl|done].
Qed.

Lemma drift_of_None (r q : option Z) : drift_of r q = None <-> q = r.
Proof.
  destruct r as [r|], q as [q|]; cbn; try (split; congruence). destruct (Z.eqb_spec q r); split; congruence.
Qed.
Lemma no_findings (l : list VerifyFinding) : l = [] <-> forall f, f ∉ l.
Proof. split; [intros ->; apply not_elem_of_nil|]. intros H. destruct l as [|f l]; [done|]. destruct (H f). by left. Qed.

Lemma scan_entries_correct s hwm :
  0 <= hwm -> (forall q, 1 <= q <= hwm -> slot_at s q <> Unreadable) ->
  exists scan findings cursor findings0,
    scan_entries s hwm = Ok (scan, findings) /\ slots_inv s hwm scan cursor findings0 /\
    (forall g, Gap g ∈ findings <-> gap_at s hwm g) /\
    (forall f, is_gap f = false -> f ∈ findings <-> exists q, 1 <= q <= hwm /\ slot_finding s q = Some f).
Proof.
  intros Hn Hr. destruct (scan_all s hwm Hn Hr) as (scan & cursor & findings & Hrun & Hi).
  exists scan, (flush_pending_gap (hwm + 1) cursor findings), cursor, findings.
  split; [unfold scan_entries; by rewrite Hrun|]. split; [done|].
  split; [apply gaps_final; apply Hi|]. intros f Hf. rewrite flush_other by done. by apply Hi.
Qed.

(** A missing slot is in a gap. *)
Lemma missing_dec s q : {slot_at s q = Missing} + {slot_at s q <> Missing}.
Proof. destruct (slot_at s q); (left; done) || (right; done). Defined.
Lemma gap_ends s a n : forall k b, n - b = Z.of_nat k -> a <= b -> missing s a b ->
  exists t, b <= t <= n /\ missing s a t /\ (t = n \/ slot_at s (t + 1) <> Missing).
Proof.
  induction k as [|k IH]; intros b Hk Hab Hm; [exists b; split_and!; first [lia|done]|].
  destruct (missing_dec s (b + 1)) as [Hb|Hb]; [|exists b; split_and!; first [lia|done|by right]].
  destruct (IH (b + 1)) as (t & Ht & Hmt & He); [lia..| |exists t; split_and!; first [lia|done]].
  intros q Hq. destruct (decide (q = b + 1)) as [->|]; [done|apply Hm; lia].
Qed.
Lemma all_present s n :
  (forall g, ~ gap_at s n g) -> forall q, 1 <= q <= n -> slot_at s q <> Missing.
Proof.
  intros Hg. assert (H : forall k q, 1 <= q <= Z.of_nat k -> q <= n -> slot_at s q <> Missing).
  { induction k as [|k IH]; intros q Hq Hn; [lia|]. intros Hm.
    destruct (gap_ends s q n (Z.to_nat (n - q)) q) as (t & Ht & Hmt & He); [lia..| |].
    - intros x Hx. by replace x with q by lia.
    - apply (Hg (mkGap q t)). split; cbn; [|split_and!; first [lia|done]]. split; [lia|].
      destruct (decide (q = 1)); [by left|right; apply IH; lia]. }
  intros q Hq. apply (H (Z.to_nat n)); lia.
Qed.

Lemma manifest_elem m hwm scan f :
  f ∈ validate_manifest m hwm scan -> exists k, f = ManifestMismatch k.
Proof.
  unfold validate_manifest. rewrite !elem_of_app.
  intros [H|[H|H]]; repeat case_match; (apply elem_of_nil in H; done) || (apply list_elem_of_singleton in H; by eexists).
Qed.

Lemma slots_clean s hwm findings :
  (forall q, 1 <= q <= hwm -> slot_at s q <> Unreadable) ->
  (forall g, Gap g ∈ findings <-> gap_at s hwm g) ->
  (forall f, is_gap f = false -> f ∈ findings <-> exists q, 1 <= q <= hwm /\ slot_finding s q = Some f) ->
  findings = [] <-> forall q, 1 <= q <= hwm -> exists e, slot_at s q = Clean e.
Proof.
  intros Hr Hg Ho. rewrite no_findings. split.
  - intros H q Hq. assert (Hm : slot_at s q <> Missing).
    { apply (all_present s hwm); [|done]. intros g Hga. by apply (H (Gap g)), Hg. }
    specialize (Hr q Hq). destruct (slot_at s q) eqn:Hs; try done; [by eexists|exfalso..].
    + apply (H (SeqMismatch q embedded)), Ho; [done|]. exists q. unfold slot_finding. by rewrite Hs.
    + apply (H (HashMismatch seq)), Ho; [done|]. exists q. unfold slot_finding. by rewrite Hs.
  - intros H f Hf. destruct (is_gap f) eqn:Hk.
    + destruct f as [|g| | |]; try done. apply Hg in Hf as (Hs & Ht & Hm & _).
      destruct Hs as [Hs _]. destruct (H (gap_from g)) as [e He]; [lia|]. rewrite Hm in He by lia. done.
    + apply Ho in Hf as (q & Hq & Hf); [|done]. destruct (H q Hq) as [e He].
      unfold slot_finding in Hf. by rewrite He in Hf.
Qed.

Definition kind_keys (clients venues : list (string * Z)) (kind : IndexKind) : list (string * Z) :=
  match kind with ClientOrder => clients | VenueOrder => venues | IntentId => [] end.

Lemma diff_index_clean rebuilt stored :
  diff_index IntentId rebuilt stored = [] <-> forall key, stored !! key = rebuilt !! key.
Proof.
  rewrite no_findings. split.
  - intros H key. apply drift_of_None. destruct (drift_of (rebuilt !! key) (stored !! key)) as [d|] eqn:Hd; [|done].
    exfalso. apply (H (Drift IntentId key d)), diff_index_elem. by exists key, d.
  - intros H f (key & d & -> & Hd)%diff_index_elem. rewrite H in Hd.
    by rewrite (proj2 (drift_of_None _ _) eq_refl) in Hd.
Qed.
(** The findings of a run whose slots gave [scan] and [findings]. *)
Definition report_findings (m : RunManifest) hwm (scan : EntryScan) findings
    (intents clients venues : list (string * Z)) : list VerifyFinding :=
  findings ++ (diff_index IntentId (es_intent_index scan) (bmap_collect intents)
               ++ check_targets ClientOrder scan clients ++ check_targets VenueOrder scan venues)
  ++ validate_manifest m hwm scan.
(** What the scan of the slots has found is what there is. *)
Record scan_exact s hwm (scan : EntryScan) findings : Prop := {
  sx_clean q : q ∈ es_clean_seqs scan <-> 1 <= q <= hwm /\ exists e, slot_at s q = Clean e;
  sx_scanned : es_scanned scan = Z.of_nat (length (List.filter (present s) (seqZ 1 hwm)));
  sx_target q : classify_target q scan = target_drift s hwm q;
  sx_least : least (clean_entries s hwm) (es_min_ts scan);
  sx_greatest : greatest (clean_entries s hwm) (es_max_ts scan);
  sx_intent key : es_intent_index scan !! key = first_intent key (clean_entries s hwm);
  sx_gaps g : Gap g ∈ findings <-> gap_at s hwm g;
  sx_other f : is_gap f = false -> f ∈ findings <-> exists q, 1 <= q <= hwm /\ slot_finding s q = Some f;
}.

Lemma verify_scan s m hwm intents clients venues :
  readable s m hwm intents clients venues ->
  exists scan findings,
    verify s = Ok (mkReport (rm_run_id m) (rm_status m) hwm (es_scanned scan)
                     (report_findings m hwm scan findings intents clients venues)) /\
    scan_exact s hwm scan findings.
Proof.
  intros [Hm Hh Hn Hr Hi Hc Hv].
  destruct (scan_entries_correct s hwm Hn Hr) as (scan & findings & cursor & findings0 & Hs & Hinv & Hgap & Ho).
  destruct (recorded (clean_entries s hwm)) as (Hmin & Hmax & Hidx).
  destruct (si_record _ _ _ _ _ Hinv) as (R1 & R2 & R3). rewrite <- R1 in Hmin. rewrite <- R2 in Hmax.
  rewrite <- R3 in Hidx. exists scan, findings. split.
  - unfold verify, cross_check_indices. rewrite Hm, Hh, Hi, Hc, Hv. cbn [mbind outcome_bind]. by rewrite Hs.
  - split; try done; [apply Hinv..|]. intros q. by apply (classify_target_eq _ _ _ _ _ _ Hinv).
Qed.

Lemma scan_no_drift s hwm scan findings kind key d : scan_exact s hwm scan findings -> Drift kind key d ∉ findings.
Proof.
  intros Hx (q & _ & H)%(sx_other _ _ _ _ Hx); [|done]. unfold slot_finding in H. by destruct (slot_at s q).
Qed.
Lemma targets_clean s hwm scan findings kind keys :
  scan_exact s hwm scan findings -> (forall q, 1 <= q <= hwm -> exists e, slot_at s q = Clean e) ->
  check_targets kind scan keys = [] <-> forall key q, (key, q) ∈ keys -> 1 <= q <= hwm.
Proof.
  intros Hi Hc. assert (Hn : forall q, target_drift s hwm q = None <-> 1 <= q <= hwm).
  { intros q. unfold target_drift. destruct ((1 <=? q) && (q <=? hwm)) eqn:Hr; [|split; [done|lia]].
    destruct (Hc q) as [e ->]; [lia|]. split; [lia|done]. }
  rewrite no_findings. split.
  - intros H key q Hin. apply Hn. destruct (target_drift s hwm q) as [d|] eqn:Hd; [|done]. exfalso.
    apply (H (Drift kind key d)), check_targets_elem. exists key, q, d. by rewrite (sx_target _ _ _ _ Hi).
  - intros H f (key & q & d & Hin & Hd & ->)%check_targets_elem.
    rewrite (sx_target _ _ _ _ Hi) in Hd. apply H, Hn in Hin. congruence.
Qed.

(** A report without a finding: nothing is damaged. *)
Lemma report_clean s m hwm scan findings intents clients venues :
  readable s m hwm intents clients venues -> scan_exact s hwm scan findings ->
  report_findings m hwm scan findings intents clients venues = [] <-> intact s m hwm intents clients venues.
Proof.
  intros [_ _ _ Hr _ _ _] Hx. unfold report_findings.
  assert (Happ : forall a b : list VerifyFinding, a ++ b = [] <-> a = [] /\ b = []).
  { intros a b. split; [apply app_nil|by intros [-> ->]]. }
  rewrite !Happ, (slots_clean s hwm findings Hr (sx_gaps _ _ _ _ Hx) (sx_other _ _ _ _ Hx)), diff_index_clean,
    (manifest_clean _ _ _ _ (sx_least _ _ _ _ Hx) (sx_greatest _ _ _ _ Hx)).
  split.
  - intros (Hsl & (Hdf & Ht1 & Ht2) & Hw & Hst & Hen).
    rewrite (targets_clean _ _ _ _ _ _ Hx Hsl) in Ht1. rewrite (targets_clean _ _ _ _ _ _ Hx Hsl) in Ht2.
    split; try done.
    + intros key. by rewrite Hdf, (sx_intent _ _ _ _ Hx).
    + intros key q [Hin|Hin]%elem_of_app; [by apply (Ht1 key)|by apply (Ht2 key)].
  - intros [Hsl Hit Htg Hw Hst Hen]. rewrite !(targets_clean _ _ _ _ _ _ Hx Hsl). split_and!; try done.
    + intros key. by rewrite Hit, (sx_intent _ _ _ _ Hx).
    + intros key q Hin. apply (Htg key), elem_of_app. by left.
    + intros key q Hin. apply (Htg key), elem_of_app. by right.
Qed.

(** The part of the report a finding comes from. *)
Ltac locate_finding H :=
  unfold report_findings in H; rewrite !elem_of_app in H; destruct H as [H|[[H|[H|H]]|H]];
  [try done
  |apply diff_index_elem in H as (? & ? & ? & ?); simplify_eq; try done
  |apply check_targets_elem in H as (? & ? & ? & ? & ? & ?); simplify_eq; try done
  |apply check_targets_elem in H as (? & ? & ? & ? & ? & ?); simplify_eq; try done
  |apply manifest_elem in H as [? ?]; simplify_eq; try done].
(** A finding that is no drift and not about the manifest is one of the scan. *)
Lemma report_scan m hwm scan findings intents clients venues f :
  match f with Drift _ _ _ | ManifestMismatch _ => False | _ => True end ->
  f ∈ report_findings m hwm scan findings intents clients venues <-> f ∈ findings.
Proof.
  intros Hf. split; [intros H; locate_finding H|by intros ?; unfold report_findings; rewrite elem_of_app; left].
Qed.
Lemma report_intent s m hwm scan findings intents clients venues key d :
  scan_exact s hwm scan findings ->
  Drift IntentId key d ∈ report_findings m hwm scan findings intents clients venues <->
  drift_of (first_intent key (clean_entries s hwm)) (bmap_collect intents !! key) = Some d.
Proof.
  intros Hx. rewrite <- (sx_intent _ _ _ _ Hx). split.
  - intros H. locate_finding H. by destruct (scan_no_drift _ _ _ _ IntentId key d Hx).
  - intros H. unfold report_findings. rewrite !elem_of_app. right. left. left. apply diff_index_elem. by exists key, d.
Qed.
Lemma report_target s m hwm scan findings intents clients venues kind key d :
  scan_exact s hwm scan findings -> kind <> IntentId ->
  Drift kind key d ∈ report_findings m hwm scan findings intents clients venues <->
  exists q, (key, q) ∈ kind_keys clients venues kind /\ target_drift s hwm q = Some d.
Proof.
  intros Hx Hk. split.
  - intros H. locate_finding H; [by destruct (scan_no_drift _ _ _ _ kind key d Hx)|..];
      (eexists; split; [eassumption|]); by rewrite <- (sx_target _ _ _ _ Hx).
  - intros (q & Hq & H). rewrite <- (sx_target _ _ _ _ Hx) in H. unfold report_findings.
    rewrite !elem_of_app. right. left. right.
    destruct kind; [done|left|right]; apply check_targets_elem; by exists key, q, d.
Qed.

(** C20: for any store, whatever damage it holds, whose manifest, high-watermark
    and indices can be read and none of whose slots fails with an error other than
    a gap or a wrong hash (on which the verifier itself gives up), the verifier
    returns and reports exactly the damage there is: a gap for each maximal
    stretch of missing sequence numbers, each entry whose hash is wrong or that is
    stored under another number, each intent whose stored entry is not the first
    that carries it (missing, different or unknown), and each order id that points
    to a missing or corrupt entry.  The report is clean if and only if no slot is
    damaged, the intent index is the one rebuilt from the entries, the other two
    indices point to stored entries, and the manifest has the length and the time
    span of the run. *)
Theorem verify_correct s m hwm intents clients venues :
  readable s m hwm intents clients venues ->
  exists report, verify s = Ok report /\
    vr_high_watermark report = hwm /\
    vr_entries_scanned report = Z.of_nat (length (List.filter (present s) (seqZ 1 hwm))) /\
    (forall g, Gap g ∈ vr_findings report <-> gap_at s hwm g) /\
    (forall b, HashMismatch b ∈ vr_findings report <-> exists q, 1 <= q <= hwm /\ slot_at s q = Bad b) /\
    (forall q k, SeqMismatch q k ∈ vr_findings report <-> 1 <= q <= hwm /\ slot_at s q = Moved k) /\
    (forall key d, Drift IntentId key d ∈ vr_findings report <->
      drift_of (first_intent key (clean_entries s hwm)) (bmap_collect intents !! key) = Some d) /\
    (forall kind key d, kind <> IntentId ->
      Drift kind key d ∈ vr_findings report <->
      exists q, (key, q) ∈ kind_keys clients venues kind /\ target_drift s hwm q = Some d) /\
    (is_clean report = true <-> intact s m hwm intents clients venues).
Proof.
  intros Hr. destruct (verify_scan _ _ _ _ _ _ Hr) as (scan & findings & Hv & Hx).
  eexists. split; [exact Hv|]. cbn [vr_high_watermark vr_entries_scanned vr_findings].
  split; [done|]. split; [apply Hx|]. split_and!.
  - intros g. rewrite report_scan by done. apply Hx.
  - intros b. rewrite report_scan, (sx_other _ _ _ _ Hx) by done. unfold slot_finding.
    split; intros (q & Hq & H); exists q; (split; [done|]).
    + destruct (slot_at s q); try done. by injection H as ->.
    + by rewrite H.
  - intros q k. rewrite report_scan, (sx_other _ _ _ _ Hx) by done. unfold slot_finding. split.
    + intros (q' & Hq & H). destruct (slot_at s q') eqn:Hq'; try done. injection H as -> ->. done.
    + intros [Hq H]. exists q. by rewrite H.
  - intros key d. by apply report_intent.
  - intros kind key d Hk. by apply report_target.
  - rewrite <- (report_clean _ _ _ _ _ _ _ _ Hr Hx). unfold is_clean. cbn.
    by destruct (report_findings m hwm scan findings intents clients venues).
Qed.
End Slots.
