(* ===== verification/EventWriter.v ===== *)
(** * Writing the event store

    [crates/event_store/src/writer/]: callers submit drafts through a bounded
    channel, a thread numbers, hashes and batches them and commits the batches
    ([batcher.rs]), failures are signalled by the halt callback ([halt.rs]).
    [crates/event_store/src/capture/] ([encoder.rs], [registry.rs],
    [adapter.rs]): which messages of the bus become drafts, and the fail-stop of
    the adapter.  [crates/system/src/event_store.rs]: the halt signal, the
    manifest and the first and last draft of a run, and the sweep that seals the
    runs a crash has left open.  Then the invariant of the writer over every
    interleaving, for any store that keeps the promise of [EventStoreLaws].

    The callers, the thread and whoever closes the writer interleave: a step of
    the system is one attempt of a submit, one turn of the thread's loop, or one
    call that ends the writer.  Times are measured by the steps: how long a submit
    has waited, and that the deadline of a batch has passed.  Sequence numbers
    are counted without the wrap at 2^64.  The channel has a capacity of at least
    one: a channel without capacity hands messages over and never fills.  The
    variant of the writer for the deterministic simulator, which commits each
    entry in [submit], is left out.

    Messages are an arbitrary type with the [TypeId] of each; the encoders of the
    registry are functions on it.  The files of earlier runs are a list of
    manifests with a function that reopens each. *)

From Stdlib Require Import ZArith Lia Ascii String.
From stdpp Require Import base numbers strings list gmap.
From S2P Require Import Prelude Maps OrderEvents EventStore.
Local Open Scope Z_scope.

(* ------------------------------------------------------------------ *)
(** * The writer *)

(** ** Data *)

Record EntryDraft : Type := mkDraft {
  dr_headers : Headers;
  dr_topic : Topic;
  dr_payload_type : PayloadType;
  dr_payload : Bytes;
  dr_ts_init : UnixNanos;
  dr_index_keys : list IndexKey;
}.
(** Durations in nanoseconds. *)
Record WriterConfig : Type := mkWriterConfig {
  wc_channel_capacity : Z;
  wc_max_batch_entries : Z;
  wc_max_batch_latency : Z;
  wc_halt_threshold : Z;
}.
Definition writer_config_default : WriterConfig := mkWriterConfig 10000 100 5000000 250000000.

Inductive HaltReason : Type :=
  | BackpressureStall (stalled_for threshold : Z)
  | BackendDisk
  | BackendCorrupted
  | BackendError.
Definition from_backend_error (err : EventStoreError) : HaltReason :=
  match err with ErrDisk => BackendDisk | ErrCorrupted => BackendCorrupted | _ => BackendError end.
Inductive SubmitError : Type :=
  | SubmitClosed
  | HaltSignaled (stalled_for threshold : Z).

(** A draft and the time at which its submit received it. *)
Abbreviation Stamped := (EntryDraft * UnixNanos)%type.
Inductive WriterMessage : Type := MsgEntry (m : Stamped) | MsgClose (run_ended : EntryDraft).

Section Build.
Context `{EL : EventLibs}.
Definition build_append_entry (draft : EntryDraft) (ts_publish : UnixNanos) (seq : Z) : AppendEntry :=
  let entry_hash :=
    compute_entry_hash seq (dr_ts_init draft) ts_publish (dr_topic draft) (dr_payload_type draft)
      (dr_payload draft) (dr_headers draft) in
  mkAppend (mkEntry entry_hash seq (dr_headers draft) (dr_topic draft) (dr_payload_type draft)
              (dr_payload draft) (dr_ts_init draft) ts_publish) (dr_index_keys draft).
End Build.

(** ** The thread *)

Section Writer.
Context `{EL : EventLibs} {St : Type} `{ES : EventStore St}.

(** The variables of [run], and what it shares with the callers: the
    high-watermark, the reasons the halt callback was called with, and the
    answer to [close]. *)
Record Batcher : Type := mkBatcher {
  b_backend : St;
  b_next_seq : Z;
  b_batch : list AppendEntry;
  b_deadline : bool;
  b_running : bool;
  b_high_watermark : Z;
  b_halts : list HaltReason;
  b_ack : option (outcome EventStoreError Z);
}.
#[export] Instance batcher_eta : Eta Batcher := fun b =>
  mkBatcher (b_backend b) (b_next_seq b) (b_batch b) (b_deadline b) (b_running b)
    (b_high_watermark b) (b_halts b) (b_ack b).
Implicit Types b : Batcher.

Definition halt b (reason : HaltReason) : Batcher := b <| b_halts := b_halts b ++ [reason] |>.
Definition exit b : Batcher := b <| b_running := false |>.

(** Whether the loop goes on. *)
Definition flush b : Batcher * bool :=
  if bool_decide (b_batch b = []) then (b, true)
  else
    match append_batch (b_backend b) (b_batch b) with
    | (backend, Ok new_hwm) =>
        (b <| b_backend := backend |> <| b_high_watermark := new_hwm |> <| b_batch := [] |>, true)
    | (backend, Err e) =>
        ((halt (b <| b_backend := backend |>) (from_backend_error e)) <| b_batch := [] |>, false)
    | (backend, Panic) => (b <| b_backend := backend |>, false)
    end.

Definition push_entry b (m : Stamped) : Batcher :=
  b <| b_batch := b_batch b ++ [build_append_entry m.1 m.2 (b_next_seq b)] |>
    <| b_next_seq := b_next_seq b + 1 |>.

Definition on_entry (config : WriterConfig) b (m : Stamped) : Batcher :=
  let b := push_entry b m in
  let b := b <| b_deadline := true |> in
  let '(b, ok) :=
    if wc_max_batch_entries config <=? Z.of_nat (length (b_batch b)) then flush b else (b, true) in
  if negb ok then exit b
  else if bool_decide (b_batch b = []) then b <| b_deadline := false |> else b.

(** What is left in the channel goes into the batch. *)
Fixpoint drain_pending b (rx : list WriterMessage) : Batcher :=
  match rx with
  | [] => b
  | MsgEntry m :: rx => drain_pending (push_entry b m) rx
  | MsgClose _ :: rx => drain_pending b rx
  end.

Definition on_close b (rx : list WriterMessage) (run_ended : EntryDraft) (now : UnixNanos) : Batcher :=
  let b := drain_pending b rx in
  let b := b <| b_batch := b_batch b ++ [build_append_entry run_ended now (b_next_seq b)] |> in
  let '(b, flush_ok) := flush b in
  if negb flush_ok then exit (b <| b_ack := Some (Err ErrBackend) |>)
  else
    match seal (b_backend b) Ended with
    | (backend, Ok _) => exit (b <| b_backend := backend |> <| b_ack := Some (Ok (b_high_watermark b)) |>)
    | (backend, Err e) =>
        exit ((halt (b <| b_backend := backend |>) (from_backend_error e)) <| b_ack := Some (Err e) |>)
    | (backend, Panic) => exit (b <| b_backend := backend |>)
    end.

Definition on_timeout b : Batcher :=
  let '(b, ok) := flush b in
  if negb ok then exit b else b <| b_deadline := false |>.
Definition on_disconnected b : Batcher := exit (flush b).1.

(** ** The writer *)

(** [EventStoreWriter]: the channel, its sender, and the submits that wait in
    the retry loop.  [w_accepted] records the submits that returned [Ok] and
    [w_ended] the draft [close] was called with. *)
Record Writer : Type := mkWriter {
  w_thread : Batcher;
  w_chan : list WriterMessage;
  w_tx : bool;
  w_halted : bool;
  w_waiting : list Stamped;
  w_accepted : list Stamped;
  w_ended : option EntryDraft;
}.
#[export] Instance writer_eta : Eta Writer := fun w =>
  mkWriter (w_thread w) (w_chan w) (w_tx w) (w_halted w) (w_waiting w) (w_accepted w) (w_ended w).
Implicit Types w : Writer.

(** [spawn], and the thread up to its loop. *)
Definition spawn (backend : St) : outcome EventStoreError Writer :=
  initial_hwm ← high_watermark backend;
  Ok (mkWriter (mkBatcher backend (initial_hwm + 1) [] false true initial_hwm [] None) [] true false [] [] None).

(** A submit up to its retry loop, and one attempt of the loop; [None]: it goes
    on waiting. *)
Definition submit_start w (m : Stamped) : Writer * option SubmitError :=
  if w_halted w then (w, Some SubmitClosed)
  else if negb (w_tx w) then (w, Some SubmitClosed)
  else (w <| w_waiting := w_waiting w ++ [m] |>, None).
Definition submit_attempt (config : WriterConfig) w (i : nat) (m : Stamped) (elapsed : Z)
  : Writer * option (outcome SubmitError unit) :=
  let waiting := delete i (w_waiting w) in
  if wc_halt_threshold config <=? elapsed then
    let reason := BackpressureStall elapsed (wc_halt_threshold config) in
    (w <| w_halted := true |> <| w_thread := halt (w_thread w) reason |> <| w_waiting := waiting |>,
     Some (Err (HaltSignaled elapsed (wc_halt_threshold config))))
  else if negb (b_running (w_thread w)) then (w <| w_waiting := waiting |>, Some (Err SubmitClosed))
  else if Z.of_nat (length (w_chan w)) <? wc_channel_capacity config then
    (w <| w_chan := w_chan w ++ [MsgEntry m] |> <| w_waiting := waiting |>
       <| w_accepted := w_accepted w ++ [m] |>, Some (Ok tt))
  else (w, None).

(** One turn of the thread's loop. *)
Inductive received : Type := RecvMessage | RecvTimeout | RecvDisconnected.
Definition thread_turn (config : WriterConfig) w (r : received) (now : UnixNanos) : Writer :=
  let b := w_thread w in
  match r, w_chan w with
  | RecvMessage, MsgEntry m :: rx => w <| w_chan := rx |> <| w_thread := on_entry config b m |>
  | RecvMessage, MsgClose run_ended :: rx =>
      w <| w_chan := [] |> <| w_thread := on_close b rx run_ended now |>
  | RecvTimeout, _ => w <| w_thread := on_timeout b |>
  | RecvDisconnected, _ => w <| w_thread := on_disconnected b |>
  | RecvMessage, [] => w
  end.

(** The steps of the system.  [close] and [drop] need the writer for themselves,
    so no submit is waiting. *)
Inductive writer_step (config : WriterConfig) : Writer -> Writer -> Prop :=
  | step_submit w m : writer_step config w (submit_start w m).1
  | step_attempt w i m elapsed :
      w_waiting w !! i = Some m -> writer_step config w (submit_attempt config w i m elapsed).1
  | step_receive w now :
      b_running (w_thread w) = true -> w_chan w <> [] ->
      writer_step config w (thread_turn config w RecvMessage now)
  | step_timeout w now :
      b_running (w_thread w) = true -> w_chan w = [] -> b_deadline (w_thread w) = true ->
      writer_step config w (thread_turn config w RecvTimeout now)
  | step_disconnected w now :
      b_running (w_thread w) = true -> w_chan w = [] -> w_tx w = false ->
      writer_step config w (thread_turn config w RecvDisconnected now)
  | step_close w run_ended :
      w_tx w = true -> w_waiting w = [] -> b_running (w_thread w) = true ->
      Z.of_nat (length (w_chan w)) < wc_channel_capacity config ->
      writer_step config w (w <| w_chan := w_chan w ++ [MsgClose run_ended] |> <| w_tx := false |>
                            <| w_ended := Some run_ended |>)
  | step_close_dead w :
      w_tx w = true -> w_waiting w = [] -> b_running (w_thread w) = false ->
      writer_step config w (w <| w_tx := false |>)
  | step_drop w : w_waiting w = [] -> writer_step config w (w <| w_tx := false |>).
Inductive writer_reaches (config : WriterConfig) : Writer -> Writer -> Prop :=
  | reaches_refl w : writer_reaches config w w
  | reaches_step w w' w'' :
      writer_reaches config w w' -> writer_step config w' w'' -> writer_reaches config w w''.

(** What [close] returns once the thread has ended. *)
Definition close_result w : option (outcome EventStoreError Z) :=
  match b_ack (w_thread w) with
  | Some r => Some r
  | None => if b_running (w_thread w) then None else Some (Err ErrBackend)
  end.
End Writer.
Arguments Batcher : clear implicits.
Arguments Writer : clear implicits.

(* ------------------------------------------------------------------ *)
(** * Capturing the bus, and the runs of a kernel *)

(** ** The registry *)

Inductive EncodeError : Type := TypeMismatch | Serialize.
Record EncodedPayload : Type := mkEncoded {
  ep_payload : Bytes;
  ep_index_keys : list IndexKey;
  ep_payload_type : option PayloadType;
}.
Definition encoded_new (payload : Bytes) (index_keys : list IndexKey) : EncodedPayload :=
  mkEncoded payload index_keys None.
Definition encoded_without_indices (payload : Bytes) : EncodedPayload := mkEncoded payload [] None.
Definition with_payload_type (payload_type : PayloadType) (payload : Bytes) (index_keys : list IndexKey)
  : EncodedPayload := mkEncoded payload index_keys (Some payload_type).

Section Registry.
Context {Msg : Type} (type_id : Msg -> string).

(** [TypedEncoder::encode] *)
Definition typed_encode {T} (downcast_ref : Msg -> option T)
    (func : T -> outcome EncodeError EncodedPayload) (message : Msg) : outcome EncodeError EncodedPayload :=
  match downcast_ref message with Some typed => func typed | None => Err TypeMismatch end.

Record Registered : Type := mkRegistered {
  rg_payload_type : PayloadType;
  rg_encoder : Msg -> outcome EncodeError EncodedPayload;
}.
Definition EncoderRegistry : Type := list (string * Registered).
Definition encoder_registry_new : EncoderRegistry := [].
Definition register_encoder (self : EncoderRegistry) (T : string) (payload_type : PayloadType)
    (encoder : Msg -> outcome EncodeError EncodedPayload) : EncoderRegistry :=
  ix_insert T (mkRegistered payload_type encoder) self.
Definition registry_len (self : EncoderRegistry) : nat := length self.
Definition registry_is_empty (self : EncoderRegistry) : bool := bool_decide (length self = 0%nat).
Definition registry_contains (self : EncoderRegistry) (T : string) : bool :=
  bool_decide (is_Some (ix_get T self)).

Definition encode_any (self : EncoderRegistry) (message : Msg)
  : outcome EncodeError (option (PayloadType * EncodedPayload)) :=
  match ix_get (type_id message) self with
  | None => Ok None
  | Some reg =>
      encoded ← rg_encoder reg message;
      Ok (Some (default (rg_payload_type reg) (ep_payload_type encoded), encoded))
  end.

(** ** The adapter *)

Inductive CaptureError : Type := CapEncode (e : EncodeError) | CapSubmit (e : SubmitError) | CapHalted.

Definition with_intent_index (index_keys : list IndexKey) (headers : Headers) : list IndexKey :=
  match hd_intent_id headers with
  | Some intent_id => index_keys ++ [mkIndexKey IntentId intent_id]
  | None => index_keys
  end.
Definition halt_reason_from_submit (err : SubmitError) : HaltReason :=
  match err with
  | HaltSignaled stalled_for threshold => BackpressureStall stalled_for threshold
  | SubmitClosed => BackendError
  end.

(** [BusCaptureAdapter]: whether it is halted, and the calls of its callback. *)
Record Adapter : Type := mkAdapter { ad_halted : bool; ad_halts : list HaltReason }.
Definition adapter_new : Adapter := mkAdapter false [].
Definition fail_stop (self : Adapter) (err : SubmitError) : Adapter :=
  if ad_halted self then self
  else mkAdapter true (ad_halts self ++ [halt_reason_from_submit err]).

(** The draft of a message; [None] when its type is not captured. *)
Definition capture_draft (registry : EncoderRegistry) (topic : Topic) (message : Msg) (headers : Headers)
    (ts_init : UnixNanos) : outcome EncodeError (option EntryDraft) :=
  match encode_any registry message with
  | Ok (Some (payload_type, encoded)) =>
      Ok (Some (mkDraft headers topic payload_type (ep_payload encoded) ts_init
                  (with_intent_index (ep_index_keys encoded) headers)))
  | Ok None => Ok None
  | Err e => Err e
  | Panic => Panic
  end.
(** [submit] is the writer's. *)
Definition capture_any (registry : EncoderRegistry) (submit : EntryDraft -> outcome SubmitError unit)
    (self : Adapter) (topic : Topic) (message : Msg) (headers : Headers) (ts_init : UnixNanos)
  : Adapter * outcome CaptureError bool :=
  if ad_halted self then (self, Err CapHalted)
  else
    match capture_draft registry topic message headers ts_init with
    | Ok None => (self, Ok false)
    | Ok (Some draft) =>
        match submit draft with
        | Ok _ => (self, Ok true)
        | Err e => (fail_stop self e, Err (CapSubmit e))
        | Panic => (self, Panic)
        end
    | Err e => (self, Err (CapEncode e))
    | Panic => (self, Panic)
    end.
End Registry.
Arguments EncoderRegistry : clear implicits.

(** ** A run of the kernel *)

(** [HaltSignal]: only the first reason is kept. *)
Record HaltSignal : Type := mkHaltSignal { hs_halted : bool; hs_reason : option HaltReason }.
Definition halt_signal_new : HaltSignal := mkHaltSignal false None.
Definition halt_callback (self : HaltSignal) (r : HaltReason) : HaltSignal :=
  if hs_halted self then self else mkHaltSignal true (Some r).

Inductive RetentionMode : Type := RetainFull | RetainBounded (keep_last : Z) | SnapshotAnchored.
Definition retention_tag (mode : RetentionMode) : string :=
  match mode with
  | RetainFull => "full"
  | RetainBounded _ => "bounded"
  | SnapshotAnchored => "snapshot"
  end.
Record RunIdentity : Type := mkIdentity {
  id_binary_hash : string;
  id_schema_version : Z;
  id_crate_versions : string;
  id_feature_flags : list string;
  id_adapter_versions : list (string * string);
  id_config_hash : string;
  id_seed : option Z;
}.
Record EventStoreConfig : Type := mkStoreConfig {
  sc_identity : RunIdentity;
  sc_retention : RetentionMode;
  sc_channel_capacity : Z;
  sc_max_batch_entries : Z;
  sc_max_batch_latency : Z;
  sc_halt_threshold : Z;
}.
Definition build_manifest (config : EventStoreConfig) (instance_id : string) (run_id : RunId)
    (parent_run_id : option RunId) (start_ts_init : UnixNanos) (components : RegisteredComponents)
  : RunManifest :=
  let i := sc_identity config in
  let feature_flags := id_feature_flags i ++ [String.append "retention=" (retention_tag (sc_retention config))] in
  mkManifest run_id parent_run_id instance_id (id_binary_hash i) (id_schema_version i)
    (id_crate_versions i) feature_flags (id_adapter_versions i) (id_config_hash i) components
    (id_seed i) start_ts_init None 0 Running.
Definition writer_config_from (config : EventStoreConfig) : WriterConfig :=
  mkWriterConfig (sc_channel_capacity config) (sc_max_batch_entries config)
    (sc_max_batch_latency config) (sc_halt_threshold config).

Definition RUN_STARTED_TOPIC : Topic := "run.lifecycle.RunStarted".
Definition RUN_STARTED_PAYLOAD_TYPE : PayloadType := "RunStarted".
Definition RUN_ENDED_TOPIC : Topic := "run.lifecycle.RunEnded".
Definition RUN_ENDED_PAYLOAD_TYPE : PayloadType := "RunEnded".
Definition draft_without_indices (headers : Headers) (topic : Topic) (payload_type : PayloadType)
    (payload : Bytes) (ts_init : UnixNanos) : EntryDraft :=
  mkDraft headers topic payload_type payload ts_init [].
(** [payload] is what [encode_run_started] gives. *)
Definition run_started_draft (payload : Bytes) (ts_init : UnixNanos) : EntryDraft :=
  draft_without_indices headers_empty RUN_STARTED_TOPIC RUN_STARTED_PAYLOAD_TYPE payload ts_init.
Definition run_ended_draft (ts_init : UnixNanos) : EntryDraft :=
  draft_without_indices headers_empty RUN_ENDED_TOPIC RUN_ENDED_PAYLOAD_TYPE [] ts_init.

(** ** The sweep *)

Record RecoveredRun : Type := mkRecovered { rr_run_id : RunId; rr_status : RunStatus }.
Record RecoveryOutcome : Type := mkRecovery {
  ro_recovered : list RecoveredRun;
  ro_parent_run_id : option RunId;
}.

Section Recovery.
Context {St : Type} `{ES : EventStore St}.

Definition is_run_ended (e : EventStoreEntry) : bool :=
  bool_decide (en_topic e = RUN_ENDED_TOPIC) && bool_decide (en_payload_type e = RUN_ENDED_PAYLOAD_TYPE).
Definition final_status (backend : St) : outcome EventStoreError RunStatus :=
  hwm ← high_watermark backend;
  if hwm =? 0 then Ok CrashedRecovered
  else
    match scan_range backend 1 hwm Forward with
    | Ok entries =>
        Ok (if from_option is_run_ended false (last entries) then Ended else CrashedRecovered)
    | Err (ErrHashMismatch _) | Err ErrCorrupted | Err (ErrGap _ _ _) => Ok Quarantined
    | Err other => Err other
    | Panic => Panic
    end.
(** A run that was reopened: its store afterwards and the status it was sealed
    with. *)
Definition recover_run (backend : St) : St * outcome EventStoreError RunStatus :=
  match final_status backend with
  | Ok status =>
      let '(backend, sealed) := seal backend status in
      (backend, _ ← sealed; Ok status)
  | Err e => (backend, Err e)
  | Panic => (backend, Panic)
  end.

Definition recover_step (reopen : RunManifest -> St * outcome EventStoreError unit)
    (out : RecoveryOutcome) (predecessor : RunManifest) : outcome EventStoreError RecoveryOutcome :=
  let run_id := rm_run_id predecessor in
  let '(backend, opened) := reopen predecessor in
  match opened with
  | Err ErrCrashedPredecessor =>
      status ← (recover_run backend).2;
      Ok (mkRecovery (ro_recovered out ++ [mkRecovered run_id status])
            (if bool_decide (status = CrashedRecovered) then Some run_id else ro_parent_run_id out))
  | Ok _ => Err ErrBackend
  | Err other => Err other
  | Panic => Panic
  end.
Definition recover_predecessors (manifests : list RunManifest)
    (reopen : RunManifest -> St * outcome EventStoreError unit) : outcome EventStoreError RecoveryOutcome :=
  fold_left (fun out m => o ← out; recover_step reopen o m)
    (List.filter (fun m => bool_decide (rm_status m = Running)) manifests) (Ok (mkRecovery [] None)).
End Recovery.

(** ** Facts *)

Section Facts.
Context {Msg : Type} (type_id : Msg -> string).
Implicit Types (registry : EncoderRegistry Msg).

(** What the verifier will ask of a draft. *)
Definition intent_keys (keys : list IndexKey) (key : string) : Prop := mkIndexKey IntentId key ∈ keys.
Record draft_ok (start : UnixNanos) (d : EntryDraft) : Prop := {
  do_time : 0 <= start <= dr_ts_init d;
  do_intent key : intent_keys (dr_index_keys d) key <-> hd_intent_id (dr_headers d) = Some key;
}.
(** Encoders do not see the headers and index no intents. *)
Definition registry_ok registry : Prop :=
  forall T reg message encoded, ix_get T registry = Some reg -> rg_encoder reg message = Ok encoded ->
    forall key, ~ intent_keys (ep_index_keys encoded) key.

Lemma capture_draft_ok registry start topic message headers ts_init d :
  registry_ok registry -> 0 <= start <= ts_init ->
  capture_draft type_id registry topic message headers ts_init = Ok (Some d) -> draft_ok start d.
Proof.
  intros Hr Ht. unfold capture_draft, encode_any.
  destruct (ix_get (type_id message) registry) as [reg|] eqn:Hreg; [|done]. cbn.
  destruct (rg_encoder reg message) as [encoded|e|] eqn:Henc; try done. cbn. intros [= <-].
  pose proof (Hr _ _ _ _ Hreg Henc) as Hk. split; [done|]. intros key. cbn. unfold with_intent_index, intent_keys in *.
  destruct (hd_intent_id headers) as [i|].
  - rewrite elem_of_app, list_elem_of_singleton. split; [|intros [= <-]; by right].
    intros [H|[= ->]]; [by apply Hk in H|done].
  - split; [intros H; by apply Hk in H|done].
Qed.
Lemma run_ended_draft_ok start ts_init : 0 <= start <= ts_init -> draft_ok start (run_ended_draft ts_init).
Proof. intros Ht. split; [done|]. intros key. by split; [intros H%elem_of_nil|]. Qed.
Lemma run_started_draft_ok start ts_init payload :
  0 <= start <= ts_init -> draft_ok start (run_started_draft payload ts_init).
Proof. intros Ht. split; [done|]. intros key. by split; [intros H%elem_of_nil|]. Qed.

(** The adapter calls its callback at most once, and submits nothing after. *)
Lemma capture_halts registry submit self topic message headers ts_init :
  let self' := (capture_any type_id registry submit self topic message headers ts_init).1 in
  (length (ad_halts self) <= (if ad_halted self then 1 else 0))%nat ->
  (length (ad_halts self') <= (if ad_halted self' then 1 else 0))%nat.
Proof.
  cbn zeta. intros H. unfold capture_any. destruct (ad_halted self) eqn:Hh; cbn; [by rewrite Hh|].
  destruct (capture_draft _ _ _ _ _ _) as [[d|]|e|]; cbn; rewrite ?Hh; try done.
  destruct (submit d); cbn; rewrite ?Hh; try done. unfold fail_stop. rewrite Hh. cbn.
  rewrite length_app. cbn. lia.
Qed.
End Facts.

(* ------------------------------------------------------------------ *)
(** * What the writer makes durable *)

Section Stamp.
Context `{EL : EventLibs}.

(** Drafts numbered from [seq] on. *)
Fixpoint stamp (seq : Z) (l : list Stamped) : list AppendEntry :=
  match l with
  | [] => []
  | m :: l => build_append_entry m.1 m.2 seq :: stamp (seq + 1) l
  end.
Lemma stamp_app l l' : forall seq, stamp seq (l ++ l') = stamp seq l ++ stamp (seq + Z.of_nat (length l)) l'.
Proof.
  induction l as [|m l IH]; intros seq; cbn; [f_equal; lia|]. rewrite IH. do 3 f_equal. lia.
Qed.
Lemma stamp_length l : forall seq, length (stamp seq l) = length l.
Proof. induction l as [|m l IH]; intros seq; cbn; [done|by rewrite IH]. Qed.
Lemma stamp_seqs l : forall seq, check_seqs seq (stamp seq l) = None.
Proof. induction l as [|m l IH]; intros seq; cbn; [done|]. rewrite Z.eqb_refl. apply IH. Qed.
Lemma stamp_nil seq l : stamp seq l = [] <-> l = [].
Proof. by destruct l. Qed.
Lemma stamp_hash l : forall seq, Forall (fun a => hash_ok (ap_entry a) = true) (stamp seq l).
Proof.
  induction l as [|m l IH]; intros seq; cbn; constructor; [|done]. by apply bool_decide_eq_true.
Qed.
End Stamp.

Section Durable.
Context `{EL : EventLibs} {St : Type} `{ES : EventStore St} {faults : EventStoreError -> Prop}.
Context {L : EventStoreLaws St faults} (config : WriterConfig).
Implicit Types (b : Batcher St) (w : Writer St) (r : Run).

Definition is_stall (h : HaltReason) : bool := match h with BackpressureStall _ _ => true | _ => false end.
Lemma backend_no_stall e : is_stall (from_backend_error e) = false.
Proof. by destruct e. Qed.

(** All that a run's life changes of its manifest. *)
Definition same_run r0 r : Prop := exists status hwm end_ts,
  run_manifest r = (run_manifest r0) <| rm_status := status |> <| rm_high_watermark := hwm |>
                                     <| rm_end_ts_init := end_ts |>.
Lemma same_run_append r0 r batch r' : same_run r0 r -> run_append r batch = Ok r' -> same_run r0 r'.
Proof.
  intros (st & h & e & Hm). unfold run_append. destruct (is_sealed (run_manifest r)), (check_seqs (run_hwm r + 1) batch); try done.
  intros [= <-]. exists st, (Z.of_nat (length (run_log r ++ batch))), e. cbn. by rewrite Hm.
Qed.
Lemma same_run_seal r0 r status r' : same_run r0 r -> run_seal r status = Ok r' -> same_run r0 r'.
Proof.
  intros (st & h & e & Hm). unfold run_seal, sealed_manifest. destruct (bool_decide (status = Running)), (is_sealed (run_manifest r)); try done.
  intros [= <-]. cbn. destruct (0 <? run_hwm r); [exists status, (run_hwm r), (Some (max_ts (run_log r)))|
    exists status, (run_hwm r), e]; by rewrite Hm.
Qed.

(** The thread's part: the log it started from, the drafts that are committed,
    and those in its batch. *)
Record thread_inv r0 b r (committed batched : list Stamped) : Prop := {
  ti_holds : holds (b_backend b) r;
  ti_same : same_run r0 r;
  ti_open : is_sealed (run_manifest r) = false;
  ti_log : run_log r = run_log r0 ++ stamp (run_hwm r0 + 1) committed;
  ti_batch : b_batch b = stamp (run_hwm r + 1) batched;
  ti_hwm : b_high_watermark b = run_hwm r;
  ti_running : b_running b = true;
  ti_ack : b_ack b = None;
  ti_halts : Forall (fun h => is_stall h = true) (b_halts b);
}.
(** The number the next draft gets. *)
Definition next_ok b r (batched : list Stamped) : Prop :=
  b_next_seq b = run_hwm r + 1 + Z.of_nat (length batched).
(** What may follow the accepted drafts: the final one [close] was called with. *)
Definition final_ok (ended : option EntryDraft) (final : list Stamped) : Prop :=
  final = [] \/ exists d now, final = [(d, now)] /\ ended = Some d.
(** A thread that has given up: some of what was accepted is committed. *)
Record failed_inv r0 b r (accepted : list Stamped) (ended : option EntryDraft) : Prop := {
  fi_holds : holds (b_backend b) r;
  fi_same : same_run r0 r;
  fi_open : is_sealed (run_manifest r) = false;
  fi_log : exists x rest final, run_log r = run_log r0 ++ stamp (run_hwm r0 + 1) x /\
    accepted ++ final = x ++ rest /\ final_ok ended final;
  fi_hwm : b_high_watermark b = run_hwm r;
  fi_running : b_running b = false;
  fi_ack n : b_ack b <> Some (Ok n);
  fi_halts : Exists (fun h => is_stall h = false) (b_halts b);
}.

Lemma log_hwm r0 r committed :
  run_log r = run_log r0 ++ stamp (run_hwm r0 + 1) committed ->
  run_hwm r = run_hwm r0 + Z.of_nat (length committed).
Proof. intros H. unfold run_hwm. rewrite H, length_app, stamp_length. lia. Qed.

(** A flush commits the batch, or fails, signals it and leaves the log alone. *)
Lemma flush_correct r0 b r committed batched :
  thread_inv r0 b r committed batched ->
  ((flush b).2 = true /\ exists r', thread_inv r0 (flush b).1 r' (committed ++ batched) [] /\
    (next_ok b r batched -> next_ok (flush b).1 r' []) /\ b_batch (flush b).1 = []) \/
  ((flush b).2 = false /\ exists e, faults e /\ holds (b_backend (flush b).1) r /\ b_ack (flush b).1 = None /\
    b_high_watermark (flush b).1 = run_hwm r /\
    b_halts (flush b).1 = b_halts b ++ [from_backend_error e]).
Proof.
  intros Hi. pose proof Hi as [Hh Hsm Ho Hl Hb Hw Hr Ha Hs]. pose proof (log_hwm _ _ _ Hl) as Hr0.
  unfold flush. case_bool_decide as He.
  - left. split; [done|]. exists r. rewrite He in Hb. symmetry in Hb. apply stamp_nil in Hb as ->.
    rewrite app_nil_r. split; [|done]. by split.
  - pose proof (append_law _ r (b_batch b) Hh) as Happ. unfold stepped, run_append in Happ.
    pose proof (same_run_append r0 r (b_batch b)) as Hap. unfold run_append in Hap.
    rewrite Ho, Hb, stamp_seqs, <- Hb in Happ, Hap. destruct (append_batch (b_backend b) (b_batch b)) as [s' res]. cbn in Happ.
    destruct Happ as [[-> Hh']|(e & Hf & -> & Hh')].
    + left. split; [done|]. cbn. unfold id in Hh'.
      set (r' := mkRunLog _ (run_log r ++ b_batch b)) in *. exists r'.
      assert (Hl' : run_log r' = run_log r0 ++ stamp (run_hwm r0 + 1) (committed ++ batched)).
      { cbn. rewrite Hl, Hb, stamp_app, app_assoc. do 2 f_equal. lia. }
      split; [split; try done; by apply Hap|]. split; [|done]. unfold next_ok. cbn. intros ->.
      rewrite (log_hwm _ _ _ Hl'), length_app. lia.
    + right. split; [done|]. by exists e.
Qed.

Lemma exit_failed r0 b b' r committed batched accepted rest e ended :
  thread_inv r0 b r committed batched -> accepted = committed ++ rest ->
  holds (b_backend b') r -> b_high_watermark b' = run_hwm r -> (forall n, b_ack b' <> Some (Ok n)) ->
  b_running b' = false -> b_halts b' = b_halts b ++ [from_backend_error e] ->
  failed_inv r0 b' r accepted ended.
Proof.
  intros [Hh Hsm Ho Hl Hb Hw Hr Ha Hs] Hac Hh' Hw' Hk Hrun Hha. split; try done.
  - exists committed, rest, []. rewrite app_nil_r. split_and!; [done|done|by left].
  - rewrite Hha. apply Exists_app. right. constructor. apply backend_no_stall.
Qed.

Lemma push_correct r0 b r committed batched m :
  thread_inv r0 b r committed batched -> next_ok b r batched ->
  thread_inv r0 (push_entry b m) r committed (batched ++ [m]) /\ next_ok (push_entry b m) r (batched ++ [m]).
Proof.
  intros [Hh Hsm Ho Hl Hb Hw Hr Ha Hs] Hn. unfold next_ok in *. split.
  - split; cbn; try done. by rewrite Hb, Hn, stamp_app.
  - cbn. rewrite Hn, length_app. cbn. lia.
Qed.
Lemma deadline_inv r0 b r committed batched d :
  thread_inv r0 b r committed batched -> thread_inv r0 (b <| b_deadline := d |>) r committed batched.
Proof. by intros []. Qed.

(** ** The system *)

(** What has become of the thread: it runs and holds what is not committed yet;
    it has failed; it has been closed; or it has seen the writer dropped. *)
Inductive writer_inv r0 w : Prop :=
  | inv_running r committed batched es :
      thread_inv r0 (w_thread w) r committed batched -> next_ok (w_thread w) r batched ->
      w_accepted w = committed ++ batched ++ es ->
      w_chan w = MsgEntry <$> es \/
      (exists d, w_chan w = (MsgEntry <$> es) ++ [MsgClose d] /\ w_tx w = false /\ w_waiting w = [] /\ w_ended w = Some d) ->
      writer_inv r0 w
  | inv_failed r : failed_inv r0 (w_thread w) r (w_accepted w) (w_ended w) -> writer_inv r0 w
  | inv_closed r d now :
      holds (b_backend (w_thread w)) r -> same_run r0 r ->
      run_log r = run_log r0 ++ stamp (run_hwm r0 + 1) (w_accepted w ++ [(d, now)]) ->
      rm_status (run_manifest r) = Ended -> b_high_watermark (w_thread w) = run_hwm r ->
      b_running (w_thread w) = false -> b_ack (w_thread w) = Some (Ok (run_hwm r)) -> w_ended w = Some d ->
      writer_inv r0 w
  | inv_dropped r :
      holds (b_backend (w_thread w)) r -> same_run r0 r -> is_sealed (run_manifest r) = false ->
      run_log r = run_log r0 ++ stamp (run_hwm r0 + 1) (w_accepted w) ->
      b_high_watermark (w_thread w) = run_hwm r ->
      b_running (w_thread w) = false -> b_ack (w_thread w) = None -> writer_inv r0 w.

Lemma on_entry_correct r0 b r committed batched m rest ended :
  thread_inv r0 b r committed batched -> next_ok b r batched ->
  (exists r' committed' batched', thread_inv r0 (on_entry config b m) r' committed' batched' /\
    next_ok (on_entry config b m) r' batched' /\ committed' ++ batched' = committed ++ batched ++ [m]) \/
  (exists r', failed_inv r0 (on_entry config b m) r' (committed ++ batched ++ m :: rest) ended).
Proof.
  intros Hi Hn. destruct (push_correct _ _ _ _ _ m Hi Hn) as [Hi1 Hn1]. unfold on_entry. cbn zeta.
  apply (deadline_inv _ _ _ _ _ true) in Hi1. set (b1 := (push_entry b m) <| b_deadline := true |>) in *.
  assert (Hn2 : next_ok b1 r (batched ++ [m])) by exact Hn1. clearbody b1.
  destruct (wc_max_batch_entries config <=? Z.of_nat (length (b_batch b1))).
  - destruct (flush_correct _ _ _ _ _ Hi1) as [[Hok (r' & Hi2 & Hn3 & Hb)]|[Hok (e & Hf & Hh & Ha & Hw & Hha)]];
      destruct (flush b1) as [b2 ok]; cbn in *; subst ok; cbn [negb].
    + left. rewrite bool_decide_true by done. exists r', (committed ++ batched ++ [m]), [].
      split; [by apply deadline_inv|]. split; [by apply Hn3|]. by rewrite app_nil_r.
    + right. exists r. apply (exit_failed r0 b1 _ r committed (batched ++ [m]) _ (batched ++ m :: rest) e); try done.
      cbn. by rewrite Ha.
  - left. exists r, committed, (batched ++ [m]). case_bool_decide; (split; [|done]); [by apply deadline_inv|done].
Qed.

Lemma on_timeout_correct r0 b r committed batched ended :
  thread_inv r0 b r committed batched -> next_ok b r batched ->
  (exists r', thread_inv r0 (on_timeout b) r' (committed ++ batched) [] /\ next_ok (on_timeout b) r' []) \/
  (exists r', failed_inv r0 (on_timeout b) r' (committed ++ batched) ended).
Proof.
  intros Hi Hn. unfold on_timeout.
  destruct (flush_correct _ _ _ _ _ Hi) as [[Hok (r' & Hi2 & Hn3 & Hb)]|[Hok (e & Hf & Hh & Ha & Hw & Hha)]];
    destruct (flush b) as [b2 ok]; cbn in *; subst ok; cbn [negb].
  - left. exists r'. split; [by apply deadline_inv|by apply Hn3].
  - right. exists r. apply (exit_failed r0 b _ r committed batched _ batched e); try done. cbn. by rewrite Ha.
Qed.

Lemma on_close_correct r0 b r committed batched d now :
  thread_inv r0 b r committed batched -> next_ok b r batched ->
  let b' := on_close b [] d now in
  (exists r', holds (b_backend b') r' /\ same_run r0 r' /\
    run_log r' = run_log r0 ++ stamp (run_hwm r0 + 1) ((committed ++ batched) ++ [(d, now)]) /\
    rm_status (run_manifest r') = Ended /\ b_high_watermark b' = run_hwm r' /\
    b_running b' = false /\ b_ack b' = Some (Ok (run_hwm r'))) \/
  (exists r', failed_inv r0 b' r' (committed ++ batched) (Some d)).
Proof.
  intros Hi Hn. cbn zeta. unfold on_close. cbn [drain_pending]. cbn zeta.
  set (b1 := b <| b_batch := _ |>).
  assert (Hi1 : thread_inv r0 b1 r committed (batched ++ [(d, now)])).
  { pose proof Hi as [Hh Hsm Ho Hl Hb Hw Hr Ha Hs]. split; cbn; try done. by rewrite Hb, Hn, stamp_app. }
  clearbody b1.
  destruct (flush_correct _ _ _ _ _ Hi1) as [[Hok (r1 & Hi2 & _ & Hb)]|[Hok (e & Hf & Hh & Ha & Hw & Hha)]];
    destruct (flush b1) as [b2 ok]; cbn in *; subst ok; cbn [negb].
  2: { right. exists r. by apply (exit_failed r0 b1 _ r committed (batched ++ [(d, now)]) _ batched e). }
  pose proof Hi2 as [Hh Hsm Ho Hl _ Hw Hr Ha Hs]. pose proof (seal_law _ r1 Ended Hh) as Hseal.
  pose proof (same_run_seal r0 r1 Ended) as Hap.
  unfold stepped, run_seal in Hseal, Hap. rewrite bool_decide_false, Ho in Hseal, Hap by done.
  rewrite app_assoc in Hl. destruct (seal (b_backend b2) Ended) as [s' res]. cbn in Hseal. unfold id in Hseal.
  destruct Hseal as [[-> Hh']|(e & Hf & -> & Hh')].
  - left. eexists. split; [exact Hh'|]. cbn. split_and!; try done.
    + by apply Hap.
    + unfold sealed_manifest. by destruct (0 <? run_hwm r1).
    + by rewrite Hw.
  - right. exists r1. split; cbn; try done.
    + exists ((committed ++ batched) ++ [(d, now)]), [], [(d, now)]. rewrite app_nil_r. split_and!; [done|done|right; by exists d, now].
    + apply Exists_app. right. constructor. apply backend_no_stall.
Qed.

Lemma spawn_inv r0 s w :
  holds s r0 -> is_sealed (run_manifest r0) = false -> spawn s = Ok w -> writer_inv r0 w.
Proof.
  intros Hh Ho. unfold spawn. rewrite (hwm_law s r0 Hh). cbn. intros [= <-].
  apply (inv_running r0 _ r0 [] [] []); cbn; [|unfold next_ok; cbn; lia|done|by left].
  split; cbn; try done; [|by rewrite app_nil_r].
  exists (rm_status (run_manifest r0)), (rm_high_watermark (run_manifest r0)), (rm_end_ts_init (run_manifest r0)).
  by destruct (run_manifest r0).
Qed.

Lemma halt_inv r0 w h waiting :
  is_stall h = true -> writer_inv r0 w -> 
  (w_waiting w = [] -> waiting = []) ->
  writer_inv r0 (w <| w_halted := true |> <| w_thread := halt (w_thread w) h |> <| w_waiting := waiting |>).
Proof.
  intros Hst Hi Hwt. destruct Hi as [r committed batched es Hi Hn Hacc Hc|r Hi|r d now|r].
  - apply (inv_running r0 _ r committed batched es); cbn; try done.
    + destruct Hi as [Hh Hsm Ho Hl Hb Hw Hr Ha Hs]. split; try done. cbn. apply Forall_app. by repeat constructor.
    + destruct Hc as [?|(d & ? & ? & ? & ?)]; [by left|right]. exists d. split_and!; cbn; auto; congruence.
  - destruct Hi as [? ? ? ? ? ? ? Hex]. apply (inv_failed r0 _ r). split; try done. cbn. apply Exists_app. by left.
  - by apply (inv_closed r0 _ r d now).
  - by apply (inv_dropped r0 _ r).
Qed.

(** Changes that concern neither the thread nor the channel. *)
Lemma frame_inv r0 w w' :
  writer_inv r0 w -> w_thread w' = w_thread w -> w_chan w' = w_chan w -> w_accepted w' = w_accepted w ->
  w_ended w' = w_ended w ->
  (w_tx w = false -> w_tx w' = false) -> (w_tx w = false -> w_waiting w = [] -> w_waiting w' = []) -> writer_inv r0 w'.
Proof.
  intros Hi Et Ec Ea Ed Htx Hwt. destruct Hi as [r committed batched es Hi Hn Hacc Hc|r Hi|r d now|r]; rewrite <- Et in *.
  - apply (inv_running r0 _ r committed batched es); try done; [by rewrite Ea|]. rewrite Ec.
    destruct Hc as [?|(d & ? & ? & ? & ?)]; [by left|right]. exists d. split_and!; cbn; auto; congruence.
  - apply (inv_failed r0 _ r). by rewrite Ea, Ed.
  - apply (inv_closed r0 _ r d now); try done; by rewrite ?Ea, ?Ed.
  - apply (inv_dropped r0 _ r); try done. by rewrite Ea.
Qed.

(** While the thread runs, the channel holds what it has not seen. *)
Lemma running_inv r0 w :
  writer_inv r0 w -> b_running (w_thread w) = true ->
  exists r committed batched es,
    thread_inv r0 (w_thread w) r committed batched /\ next_ok (w_thread w) r batched /\
    w_accepted w = committed ++ batched ++ es /\
    (w_chan w = MsgEntry <$> es \/
     exists d, w_chan w = (MsgEntry <$> es) ++ [MsgClose d] /\ w_tx w = false /\ w_waiting w = [] /\ w_ended w = Some d).
Proof.
  intros [r committed batched es Hi Hn Hacc Hc|r []|r d now|r] Hr; try congruence.
  by exists r, committed, batched, es.
Qed.

Lemma attempt_inv r0 w i m elapsed :
  writer_inv r0 w -> w_waiting w !! i = Some m -> writer_inv r0 (submit_attempt config w i m elapsed).1.
Proof.
  intros Hi Hm. assert (Hne : w_waiting w <> []) by (intros He; by rewrite He in Hm).
  unfold submit_attempt. cbn zeta. destruct (wc_halt_threshold config <=? elapsed); [by apply halt_inv|].
  destruct (b_running (w_thread w)) eqn:Hr; cbn [negb].
  2: { apply (frame_inv r0 w); done. }
  destruct (Z.of_nat (length (w_chan w)) <? wc_channel_capacity config); [|done]. cbn [fst].
  destruct (running_inv _ _ Hi Hr) as (r & committed & batched & es & Ht & Hn & Hacc & [Hc|(d & _ & _ & Hw & _)]); [|done].
  apply (inv_running r0 _ r committed batched (es ++ [m])); cbn; try done.
  - by rewrite Hacc, <- !app_assoc.
  - left. by rewrite Hc, fmap_app.
Qed.

Lemma receive_inv r0 w now :
  writer_inv r0 w -> b_running (w_thread w) = true -> writer_inv r0 (thread_turn config w RecvMessage now).
Proof.
  intros Hi Hr. destruct (running_inv _ _ Hi Hr) as (r & committed & batched & es & Ht & Hn & Hacc & Hc).
  unfold thread_turn. cbn zeta. destruct es as [|m es]; cbn in Hc.
  - destruct Hc as [->|(d & -> & Htx & Hw & Hed)]; [done|]. rewrite app_nil_r in Hacc.
    destruct (on_close_correct r0 _ r committed batched d now Ht Hn) as [(r' & H1 & H2 & H3 & H4 & H5 & H6 & H7)|(r' & Hf)].
    + apply (inv_closed r0 _ r' d now); cbn; try done. by rewrite Hacc.
    + apply (inv_failed r0 _ r'). cbn. by rewrite Hacc, Hed.
  - assert (Hc' : exists rx, w_chan w = MsgEntry m :: rx /\ (rx = MsgEntry <$> es \/
      exists d, rx = (MsgEntry <$> es) ++ [MsgClose d] /\ w_tx w = false /\ w_waiting w = [] /\ w_ended w = Some d)).
    { destruct Hc as [->|(d & -> & ?)]; eexists; (split; [done|]); [by left|right; by exists d]. }
    destruct Hc' as (rx & -> & Hrx).
    destruct (on_entry_correct r0 _ r committed batched m es (w_ended w) Ht Hn) as [(r' & co & ba & H1 & H2 & H3)|(r' & Hf)].
    + apply (inv_running r0 _ r' co ba es); cbn; try done. by rewrite Hacc, (app_assoc co ba es), H3, <- !app_assoc.
    + apply (inv_failed r0 _ r'). cbn. by rewrite Hacc.
Qed.

Lemma empty_chan_inv r0 w :
  writer_inv r0 w -> b_running (w_thread w) = true -> w_chan w = [] ->
  exists r committed batched,
    thread_inv r0 (w_thread w) r committed batched /\ next_ok (w_thread w) r batched /\
    w_accepted w = committed ++ batched.
Proof.
  intros Hi Hr He. destruct (running_inv _ _ Hi Hr) as (r & committed & batched & es & Ht & Hn & Hacc & Hc).
  rewrite He in Hc. exists r, committed, batched. split_and!; try done.
  destruct Hc as [Hc|(d & Hc & _)]; [|by apply app_cons_not_nil in Hc].
  symmetry in Hc. apply fmap_nil_inv in Hc as ->. by rewrite app_nil_r in Hacc.
Qed.

Lemma step_inv r0 w w' : writer_inv r0 w -> writer_step config w w' -> writer_inv r0 w'.
Proof.
  intros Hi Hs. destruct Hs as [w m|w i m elapsed Hm|w now Hr _|w now Hr He _|w now Hr He _|w d Htx Hw Hr _|w Htx Hw Hr|w Hw].
  - unfold submit_start. destruct (w_halted w), (w_tx w) eqn:Htx; cbn; try done.
    apply (frame_inv r0 w); cbn; try done; congruence.
  - by apply attempt_inv.
  - by apply receive_inv.
  - destruct (empty_chan_inv _ _ Hi Hr He) as (r & committed & batched & Ht & Hn & Hacc).
    unfold thread_turn. destruct (on_timeout_correct _ _ _ _ _ (w_ended w) Ht Hn) as [(r' & H1 & H2)|(r' & Hf)].
    + apply (inv_running r0 _ r' (committed ++ batched) [] []); cbn; try done; [by rewrite app_nil_r|by left].
    + apply (inv_failed r0 _ r'). cbn. by rewrite Hacc.
  - destruct (empty_chan_inv _ _ Hi Hr He) as (r & committed & batched & Ht & Hn & Hacc).
    unfold thread_turn, on_disconnected.
    destruct (flush_correct _ _ _ _ _ Ht) as [[_ (r' & Hi2 & _ & Hb)]|[_ (e & Hf & Hh & Ha & Hw & Hha)]].
    + destruct Hi2. apply (inv_dropped r0 _ r'); cbn; try done. by rewrite Hacc.
    + apply (inv_failed r0 _ r). cbn. rewrite Hacc.
      apply (exit_failed r0 (w_thread w) _ r committed batched _ batched e (w_ended w)); try done. cbn. by rewrite Ha.
  - destruct (running_inv _ _ Hi Hr) as (r & committed & batched & es & Ht & Hn & Hacc & Hc).
    apply (inv_running r0 _ r committed batched es); cbn; try done. right. exists d.
    destruct Hc as [->|(? & _ & ? & _)]; [done|congruence].
  - by apply (frame_inv r0 w).
  - by apply (frame_inv r0 w).
Qed.
Lemma reaches_inv r0 w w' : writer_inv r0 w -> writer_reaches config w w' -> writer_inv r0 w'.
Proof. intros Hi Hr. induction Hr as [|w w' w'' _ IH Hs]; [done|]. apply (step_inv r0 w'); auto. Qed.

(** ** What is durable *)

(** The run a store holds, seen from the run it held before: every submit that
    was accepted is in it, up to a suffix that is lost only with a halt. *)
Record durable r0 w r : Prop := {
  du_holds : holds (b_backend (w_thread w)) r;
  du_same : same_run r0 r;
  du_sealed : is_sealed (run_manifest r) = true -> exists n, close_result w = Some (Ok n);
  du_mirror : b_high_watermark (w_thread w) = run_hwm r;
  du_prefix : exists x rest final, run_log r = run_log r0 ++ stamp (run_hwm r0 + 1) x /\
    w_accepted w ++ final = x ++ rest /\ final_ok (w_ended w) final;
  du_running : b_running (w_thread w) = true ->
    exists es, run_log r ++ b_batch (w_thread w) ++ stamp (b_next_seq (w_thread w)) es =
      run_log r0 ++ stamp (run_hwm r0 + 1) (w_accepted w) /\
      (w_chan w = MsgEntry <$> es \/ exists d, w_chan w = (MsgEntry <$> es) ++ [MsgClose d]);
  du_exited : b_running (w_thread w) = false -> Forall (fun h => is_stall h = true) (b_halts (w_thread w)) ->
    exists final, run_log r = run_log r0 ++ stamp (run_hwm r0 + 1) (w_accepted w ++ final) /\ final_ok (w_ended w) final;
  du_closed n : close_result w = Some (Ok n) ->
    n = run_hwm r /\ rm_status (run_manifest r) = Ended /\
    exists d now, w_ended w = Some d /\
      run_log r = run_log r0 ++ stamp (run_hwm r0 + 1) (w_accepted w ++ [(d, now)]);
}.
Lemma inv_durable r0 w : writer_inv r0 w -> exists r, durable r0 w r.
Proof.
  intros [r committed batched es Hi Hn Hacc Hc|r Hi|r d now Hh Hsm Hl Hs Hw Hr Ha Hed|r Hh Hsm Ho Hl Hw Hr Ha]; exists r.
  - pose proof Hi as [Hh Hsm Ho Hl Hb Hw Hr Ha Hs]. pose proof (log_hwm _ _ _ Hl) as Hlen.
    split; try done; try congruence; [| |unfold close_result; by rewrite Ha, Hr].
    + exists committed, (batched ++ es), []. rewrite app_nil_r. split_and!; [done|done|by left].
    + intros _. exists es. split; [|destruct Hc as [?|(d & ? & _)]; [by left|right; by exists d]].
      rewrite Hacc, Hl, Hb, Hn, !stamp_app, <- !app_assoc, Hlen.
      replace (run_hwm r0 + Z.of_nat (length committed) + 1)
        with (run_hwm r0 + 1 + Z.of_nat (length committed)) by lia. done.
  - destruct Hi as [Hh Hsm Ho Hl Hw Hr Ha Hha]. split; try done; try congruence.
    + intros _ Hall. apply Exists_exists in Hha as (h & Hin & Hst).
      rewrite Forall_forall in Hall. specialize (Hall h Hin). congruence.
    + intros n. unfold close_result. rewrite Hr. specialize (Ha n).
      destruct (b_ack _); [congruence|done].
  - split; try done; try congruence.
    + intros _. exists (run_hwm r). unfold close_result. by rewrite Ha.
    + exists (w_accepted w ++ [(d, now)]), [], [(d, now)]. rewrite app_nil_r. split_and!; [done|done|right; by exists d, now].
    + intros _ _. exists [(d, now)]. split; [done|right; by exists d, now].
    + intros n. unfold close_result. rewrite Ha. intros [= <-]. split_and!; [done|done|by exists d, now].
  - split; try done; try congruence; [| |unfold close_result; by rewrite Ha, Hr].
    + exists (w_accepted w), [], []. split_and!; [done|done|by left].
    + intros _ _. exists []. rewrite app_nil_r. split; [done|by left].
Qed.

(** C13: The writer loses nothing it has accepted without saying so.  Over every
    interleaving of submits, turns of the writer thread, [close] and drop, for
    any store that keeps the promise of a backend ([EventStoreLaws]: a batch is
    committed whole or, also when a commit fails, not at all) and whose run is not
    sealed when the writer starts, with sequence numbers below 2^64: the high-watermark the callers see is that of the store; the store's log
    is the log the writer started from followed by a prefix of the accepted
    drafts in their order, numbered without a gap and hashed (and at most the
    final entry [close] was called with after them); while the thread runs, the log, the batch and the
    channel together are exactly what was accepted; a thread that has ended
    without signalling a backend failure has committed everything; and [close]
    returning [Ok n] means that the log ends with all accepted drafts and the
    final entry, that [n] is its high-watermark, and that the run is sealed as
    ended. *)
Theorem writer_durable r0 s0 w0 w :
  holds s0 r0 -> is_sealed (run_manifest r0) = false -> spawn s0 = Ok w0 ->
  writer_reaches config w0 w -> exists r, durable r0 w r.
Proof.
  intros Hh Ho Hs Hr. apply inv_durable. by apply (reaches_inv r0 w0); [apply (spawn_inv r0 s0)|].
Qed.
End Durable.
