(* ===== verification/EventSession.v ===== *)
(** * A run from start to end

    The components of the event store together: a run that was captured, written
    through the writer of [EventWriter], closed and then read by the verifier of
    [EventVerifier]; and a run whose writer stopped at any point and that the
    recovery sweep seals at the next boot.  At the end a small library, a run in
    the in-memory store that is captured, written and closed, the same run stopped
    before it is closed, and a run with a damaged entry. *)

From Stdlib Require Import ZArith Lia Ascii String.
From stdpp Require Import base numbers strings list gmap.
From S2P Require Import Prelude Maps OrderEvents EventStore EventVerifier EventWriter.
Local Open Scope Z_scope.

(* ------------------------------------------------------------------ *)
(** * Sessions *)

Section Session.
Context `{EL : EventLibs} {St : Type} `{ES : EventStore St} {faults : EventStoreError -> Prop}.
Context {L : EventStoreLaws St faults}.
Implicit Types (s : St) (w : Writer St) (r : Run).


(** ** The slots of a run whose hashes are right *)



(** ** Indices and times *)


(** ** A run that was written is a run without damage *)



(** ** Sealing a run that was left open *)



(** ** Runs the writer made *)


Section Written.
Variables (start : UnixNanos) (r : Run) (x : list Stamped).
Hypothesis Hlog : run_log r = stamp 1 x.
Hypothesis Hx : Forall (fun m => draft_ok start m.1) x.

End Written.

(** ** Sessions *)

Section Bus.
Context {Msg : Type} (type_id : Msg -> string) (registry : EncoderRegistry Msg).






End Bus.
End Session.

(* ------------------------------------------------------------------ *)
(** * A session, evaluated *)

Module EventDemo.
(** Any functions will do for the hash and the parser. *)
#[local] Instance demo_libs : EventLibs := {|
  blake3 l := [foldl (fun h b => (h * 31 + b) mod 2 ^ 64) 7 l];
  uuid_as_bytes u := take 16 (str_bytes u);
|}.

Definition demo_manifest : RunManifest :=
  mkManifest "run-1" None "node-1" "b" 1 "c" [] [] "h" (mkComponents [] [] [] [] []) None 100 None 0 Running.
Definition store0 : MemoryBackend := (mem_open_run memory_new demo_manifest).1.
Definition run0 : Run := mkRunLog (fresh_manifest demo_manifest) [].
Definition config : WriterConfig := mkWriterConfig 4 2 5 50.

(** Messages are their own text; orders are captured under their id. *)
Definition order_encoder (m : string) : outcome EncodeError EncodedPayload :=
  Ok (encoded_new (str_bytes m) [mkIndexKey ClientOrder m]).
Definition registry : EncoderRegistry string := register_encoder encoder_registry_new "Order" "Order" order_encoder.
Definition type_of (m : string) : string := "Order".
Definition intent : Headers := mkHeaders (Some "I-1") None None.
Definition order_draft : EntryDraft :=
  match capture_draft type_of registry "orders" "O-1" intent 120 with Ok (Some d) => d | _ => run_ended_draft 0 end.
Definition started : Stamped := (run_started_draft [1] 100, 101).
Definition captured : Stamped := (order_draft, 121).

Definition writer0 : Writer MemoryBackend :=
  match spawn store0 with Ok w => w | _ => mkWriter (mkBatcher None 0 [] false false 0 [] None) [] false false [] [] None end.
Definition accept (m : Stamped) (w : Writer MemoryBackend) : Writer MemoryBackend :=
  (submit_attempt config (submit_start w m).1 0 m 0).1.
Definition turn (w : Writer MemoryBackend) : Writer MemoryBackend := thread_turn config w RecvMessage 130.
(** Two drafts accepted, the first of them in the batch of the thread. *)
Definition open_writer : Writer MemoryBackend := turn (accept captured (accept started writer0)).
Definition closing : Writer MemoryBackend :=
  open_writer <| w_chan := w_chan open_writer ++ [MsgClose (run_ended_draft 125)] |> <| w_tx := false |>
              <| w_ended := Some (run_ended_draft 125) |>.
Definition closed_writer : Writer MemoryBackend := turn (turn closing).

Lemma accept_reaches m w w0 :
  w_waiting w = [] -> w_halted w = false -> w_tx w = true ->
  writer_reaches config w0 w -> writer_reaches config w0 (accept m w).
Proof.
  intros Hw Hh Ht Hr. eapply reaches_step; [eapply reaches_step; [exact Hr|apply (step_submit config w m)]|].
  apply (step_attempt config _ 0 m 0). unfold submit_start. by rewrite Hh, Ht, Hw.
Qed.
Lemma turn_reaches w w0 :
  b_running (w_thread w) = true -> w_chan w <> [] ->
  writer_reaches config w0 w -> writer_reaches config w0 (turn w).
Proof. intros Hb Hc Hr. eapply reaches_step; [exact Hr|by apply step_receive]. Qed.

Lemma open_reached : writer_reaches config writer0 open_writer.
Proof.
  apply turn_reaches; [reflexivity|discriminate|]. do 2 (apply accept_reaches; [reflexivity..|]). apply reaches_refl.
Qed.
Lemma closed_reached : writer_reaches config writer0 closed_writer.
Proof.
  do 2 (apply turn_reaches; [reflexivity|discriminate|]). eapply reaches_step; [exact open_reached|].
  apply step_close; reflexivity.
Qed.
Lemma demo_holds : holds (faults := no_faults) store0 run0.
Proof. apply fresh_holds. Qed.


Lemma demo_spawn : spawn store0 = Ok writer0.
Proof. vm_compute. reflexivity. Qed.
Lemma closed_answer : close_result closed_writer = Some (Ok 3).
Proof. vm_compute. reflexivity. Qed.

Lemma writer_durable_witness :
  exists r, durable run0 closed_writer r /\ rm_status (run_manifest r) = Ended /\ run_hwm r = 3.
Proof.
  destruct (writer_durable config run0 store0 writer0 closed_writer demo_holds eq_refl demo_spawn closed_reached) as [r Hd].
  exists r. split; [exact Hd|]. destruct (du_closed _ _ _ Hd 3 closed_answer) as (Hn & Hs & _).
  split; [exact Hs|by symmetry].
Defined.


(** The second entry of the closed run with another payload. *)
Definition tampered : MemoryBackend :=
  match b_backend (w_thread closed_writer) with
  | Some r => Some (r <| rs_entries := (fun e => if en_seq e =? 2
      then mkEntry (en_entry_hash e) 2 (en_headers e) (en_topic e) (en_payload_type e) [0] (en_ts_init e) (en_ts_publish e)
      else e) <$> rs_entries r |>)
  | None => None
  end.
Definition ok_or {A} (d : A) (r : outcome EventStoreError A) : A := match r with Ok a => a | _ => d end.
Lemma tampered_readable :
  readable tampered (ok_or demo_manifest (manifest tampered)) 3 [("I-1"%string, 2)] [("O-1"%string, 2)] [].
Proof.
  split; [vm_compute; reflexivity|vm_compute; reflexivity|lia| |vm_compute; reflexivity..].
  intros q Hq. assert (q = 1 \/ q = 2 \/ q = 3) as [-> | [-> | ->]] by lia; vm_compute; discriminate.
Qed.
Lemma verify_correct_witness :
  exists report, verify tampered = Ok report /\ HashMismatch 2 ∈ vr_findings report /\
    Drift ClientOrder "O-1" (TargetCorrupted 2) ∈ vr_findings report /\ is_clean report = false.
Proof.
  destruct (verify_correct tampered _ 3 _ _ _ tampered_readable)
    as (report & Hv & _ & _ & _ & Hb & _ & _ & Hd & Hc).
  exists report. split; [exact Hv|]. split; [|split].
  - apply Hb. exists 2. split; [lia|vm_compute; reflexivity].
  - apply Hd; [discriminate|]. exists 2. split; [left|vm_compute; reflexivity].
  - destruct (is_clean report) eqn:E; [|reflexivity]. pose proof (proj1 Hc eq_refl) as Hi. destruct (it_slots _ _ _ _ _ _ Hi 2 ltac:(lia)) as [e He].
    vm_compute in He. discriminate He.
Defined.
End EventDemo.
